(* ===== verification/_CoqProject ===== *)
-Q . S2P
Prelude.v
Rbtree.v
BinderAlloc.v
BinderAllocShape.v
BinderAllocWf.v
BinderAllocStep.v
BinderAllocRun.v
BinderAllocFree.v
BinderAllocSpec.v
Hashmap.v
HashmapSpec.v
BinderState.v
BinderRefs.v
BinderFds.v
BinderTxn.v
BinderWrite.v
BinderRead.v
BinderLifecycle.v
BinderRules.v
BinderRefsInv.v
BinderRefsOps.v
BinderDemo.v
BinderRefsSpec.v
BinderObjects.v
BinderUser.v
BinderProtocol.v
BinderReplies.v
Words.v
AudioPrimitives.v
Ring.v
LinearTransform.v
Nbaio.v
MonoPipe.v
MonoPipeSpec.v
MonoPipeSteps.v
Pipe.v
NbaioProviders.v
AudioMixer.v
AudioMixerRules.v
AudioMixerHooks.v
AudioMixerMix.v
AudioMixerGroups.v
AudioMixerSpec.v
AudioMixerFast.v
AudioMixerDemo.v
AudioMixerKeeps.v
AudioMixerCalls.v
AudioMixerProcess.v
AudioMixerLaws.v
NbaioStack.v
AudioTrackShared.v
AudioTrackClient.v
AudioTrackServer.v
AudioTrackStream.v
TrackLife.v
ServiceIO.v
ServiceManager.v
ServiceManagerSpec.v
StateQueue.v
StateQueueSpec.v
MemoryDealer.v
MemoryDealerSpec.v
CMemory.v
Parcel.v
ParcelHold.v
ParcelRead.v
ParcelItems.v
ParcelSpec.v
ParcelLaws.v
Unicode.v
UnicodeSpec.v
RefBase.v
RefBaseSpec.v
RefBaseProps.v
Effects.v
EffectThread.v
EffectsControl.v
EffectsChain.v
EffectsState.v
EffectsLaws.v
