(* ===== verification/Prelude.v ===== *)
(** * Verification library of the Android AudioFlinger port

    The repository brings Android's audio server to a plain Linux system: the binder
    driver by which processes call each other ([driver/]), the service manager
    ([servicemanager/]), the libraries below the server ([libs/cutils], [libs/utils],
    [libs/binder], [libs/libnbaio], [libs/audio_utils]), the server ([libs/audioflinger])
    and its clients ([libs/libmedia]).  This library models the parts below, as the
    sources have them, and proves what makes them correct.

    ** How the code is modelled

    A routine that changes state is a computation of the monad [M] of this file: a
    function on the state that returns or stops the machine ([BUG_ON], an access through
    a pointer to nothing, a loop that has used up its turns).  [wp m Q s] says that [m]
    returns from [s], in a state with [Q]: theorems in terms of it exclude the stops.
    [run] and [wp_step] execute routines in proofs.  Integers are [Z], reduced where
    the C type wraps ([u32], [s32]; 64 bits in [Words]).  Pointers, [size_t] and [long]
    have 32 bits, as in the binaries of the repository.

    ** The binder driver ([driver/binder/binder.c])

    - [Rbtree]: the searches in the driver's red-black trees, as binary trees; the
      rebalancing of the kernel's library is the interface [RbKernel].
    - [BinderAlloc]: the allocator of buffers in the area a process maps
      ([binder_alloc_buf], [binder_free_buf], [binder_update_page_range], ...).
      [BinderAllocShape], [BinderAllocWf] state its invariant, [BinderAllocStep],
      [BinderAllocRun], [BinderAllocFree] follow the operations, [BinderAllocSpec] has the
      theorems: the invariant over any sequence of calls, the effect of each call (best
      fit; coalescing; space for one-way calls), that releasing undoes allocating and no
      memory is lost.
    - [BinderState]: all objects of the driver in tables by their kernel address, lists
      of work, user memory.  [BinderRefs] (nodes and references), [BinderFds] (files,
      priorities), [BinderTxn] ([binder_transaction]), [BinderWrite]
      ([binder_thread_write]), [BinderRead] ([binder_thread_read]), [BinderLifecycle]
      (threads, processes, entry points, deferred work) are its operations.
    - [BinderRules]: rules and tactics for them.  [BinderRefsInv], [BinderRefsOps],
      [BinderRefsSpec]: trees, lists and counts of nodes and references agree after any
      sequence of operations on them, and what each operation does.  [BinderProtocol]: what a
      process is told of its nodes is what it must know, each change once; a buffer of
      commands is worked through to its end or first error, with the count of bytes
      consumed.  [BinderReplies]: a failed call is reported to the first
      thread left in the chain of callers (the loop is given one turn more than there are
      transactions, which is enough).  [BinderObjects], [BinderUser]: an object sent
      away and back is the same object; encodings of words and structures.
      [BinderDemo] is the small system of the witnesses.

    ** The service manager ([servicemanager/])

    - [ServiceIO]: messages ([bio_*] of [binder.c]); what is put into a message is got
      out of it.
    - [ServiceManager]: the list of services, the handler ([service_manager.c]) and the
      loop over what the driver returns ([binder_parse], [binder_loop]; each turn of
      [binder_parse] uses up a word, so the number of words and one is enough fuel).
    - [ServiceManagerSpec]: the references the manager holds, over any messages and
      deaths; every well-formed request is answered as by an abstract registry of names and
      handles ([serve]), in which names of the same length are one, as in the code;
      examples of messages that crash or mislead it.

    ** Shared libraries

    - [Hashmap], [HashmapSpec] ([libs/cutils/hashmap.c]): the operations refine those of a
      finite map, for any hash and equality that agree (the class [HashKey]); when
      [errno] is set, which tells a failed insertion from a first one.
    - [Words], [LinearTransform] ([libs/utils/LinearTransform.cpp]): exact results of
      the conversions of time, in every case, and termination of [reduce].

    - [Unicode], [UnicodeSpec] ([libs/utils/Unicode.cpp], the allocations of [String8.cpp] and
      [String16.cpp]): the conversions agree with the encodings of the standard and
      measure what they write; strings of less than 2 GB fit the blocks asked for, whose
      sizes have 32 bits; examples of texts where they do not.
    - [RefBase] ([libs/utils/RefBase.cpp]): strong and weak counts, one access to shared memory at a
      time, and the steps of any number of threads.  [RefBaseSpec]: an invariant that counts
      the references and the calls under way; each access preserves it.  [RefBaseProps]:
      nothing deleted is touched, objects live as long as they should and no longer,
      calls end within twelve accesses of their own, promotion does what it should; examples
      of races that go wrong.  The counts have room for 2^27 references.
    - [CMemory]: blocks of the C heap, that can be resized and freed.
    - [Parcel] ([libs/binder/Parcel.cpp]): all operations on parcels.  [ParcelHold] (what a parcel
      holds, and how it grows), [ParcelRead] (each reading operation on any bytes), [ParcelItems],
      [ParcelSpec], [ParcelLaws]: items of any types are read back by the writer and by who
      gets the data; references and files are given back; reading numbers, data, strings,
      binders and files of what anyone has sent stays inside of it.  Parcels are followed up to a gigabyte, where growing by a half
      does not wrap.  Examples show the uses that leave the blocks.

    ** The path of audio data

    - [Nbaio] ([libs/libnbaio/NBAIO.cpp], [roundup.cpp]): formats, negotiation and the
      default transfers of a port.
    - [Ring]: transfers into and out of a ring buffer by two copies.
    - [MonoPipe], [MonoPipeSpec], [MonoPipeSteps] ([MonoPipe.cpp], [MonoPipeReader.cpp]): the
      pipe is a bounded queue; a blocking write ends in as many turns as it has frames,
      and one, while the reader goes on; with the accesses of both threads interleaved
      in any way, no byte is lost, repeated or read while it is written.
    - [Pipe] ([Pipe.cpp], [PipeReader.cpp]): each reader gets the stream, and is told
      when it has lost frames.
    - [NbaioProviders], [NbaioStack]: the adapters between sources and buffer providers
      keep the contract of the one side given that of the other, stacked in any number.
    - [AudioTrackShared], [AudioTrackServer], [AudioTrackClient], [AudioTrackStream]: the block of
      shared memory between an application and the server, from the side of each
      ([AudioTrackShared.cpp], [AudioTrack.cpp], [AudioRecord.cpp], [Tracks.cpp]); what the server plays
      is what was written, with the calls of both interleaved and the counts wrapping (past the
      value [UINT_MAX], which a release of the server must not reach), without loops and
      waiting.  Examples show where wrapped counts and loops break the block.
    - [StateQueue], [StateQueueSpec] ([StateQueue.cpp]): the four states that the normal and the fast
      mixer share without a lock; the observer takes every state pushed and what it may
      look at is not written, in any interleaving of the accesses; [push] comes back
      when the observer polls.
    - [MemoryDealer], [MemoryDealerSpec] ([libs/binder/MemoryDealer.cpp]): the heap that buffers of
      tracks are cut from; live blocks never overlap, over any sequence of allocations
      and releases of sizes up to 2^32 - 32 (an example shows what happens above).
    - [AudioPrimitives] ([libs/audio_utils/primitives.c], [primitives.h]): sample arithmetic; clamping is
      saturation, the products of packed words are those of their halves.
    - [AudioMixer] ([AudioMixer.cpp], [AudioMixer.h]): names, parameters, ramps and all routines that
      mix, over the interface [MixerEnv] of what they call.  [AudioMixerRules], [AudioMixerHooks] (one
      call for a track, and ramps), [AudioMixerMix] (a block of a track, for any providers
      that keep the contract [StreamLaws]), [AudioMixerGroups] (all tracks), [AudioMixerSpec],
      [AudioMixerFast]: the output is the saturated sum of the streams times their gains, by the
      general routine and by the fast one (where a track has frames and none is in a ramp).  [AudioMixerKeeps], [AudioMixerCalls],
      [AudioMixerProcess]: the choices of routines agree with the parameters over any sequence of
      calls.  [AudioMixerLaws] has the theorems, and examples of what goes wrong ([AudioMixerDemo]:
      the providers they use).  A block is filled in 18 turns, as each turn but the last two takes a
      frame; the loops over a whole buffer get one turn more than it has frames, which is enough
      as a provider lends at least one.
    - [TrackLife] ([Tracks.cpp], [prepareTracks_l] of [Threads.cpp]): the states of a track, over any
      sequence of calls and of rounds of the mixer.
    - [Effects] ([Effects.cpp]): modules, handles and chains of effects; an engine is a function of
      the commands it was sent ([EffectEnv]).  [EffectThread] (the effects in [Threads.cpp], and the
      calls of an application).  [EffectsControl]: which handle has control.  [EffectsChain]: the
      order and the buffers of a chain.  [EffectsState]: the states of a module and its engine,
      requests to suspend a type, and to suspend all effects of another chain.  [EffectsLaws] has the theorems, and examples of
      what goes wrong.  Calls do not interleave; the entries of a [KeyedVector] are visited in
      some order.

    ** Assumptions

    Code that is not in the repository (the kernel, the C library, the audio HAL) is an
    argument, with its documented behaviour as named hypotheses.  [ALOG_ASSERT] and
    [LOG_FATAL] expand to nothing in this repository ([include/cutils/log.h]); the pipes'
    files still model a failed assertion as a stop and the theorems show that none is
    reached, those of the mixer are about calls that meet the assertions,
    [AudioTrackServer] has the test apart ([getBuffer_assert]).  Where threads run at the
    same time each access to a shared word is atomic and seen by all in one order.  Logs, statistics and debugging files are left out throughout.

    ** Not modelled

    Of the driver, the files under [debugfs]; of tracks, timed and output tracks, volumes and
    callbacks; of effects, the parameters an application defers to shared memory, and moving
    chains between threads; of the service manager, setting up and the client's
    [binder_call].  Planned: [str_parms] and [VectorImpl].  Left
    out as vendored or glue: the codecs and [libstagefright], Bellagio, LVM and its
    wrappers, proxies and stubs of services, wrappers of system calls, test programs. *)

From Stdlib Require Import ZArith Lia.
From stdpp Require Import base numbers option list gmap sorting.

#[global] Open Scope Z_scope.
#[global] Unset Program Cases.

(** ** Computations of the C code

    A C routine that reads and writes a state [S] and returns an [A] either
    returns, or stops the machine: [CrashBug] is a [BUG]/[BUG_ON] that fires,
    [CrashOops] an access through a null, freed or unmapped pointer,
    [CrashFuel] a loop that has used up the iterations it was given. *)

Inductive crash := CrashBug | CrashOops | CrashFuel.

Inductive outcome (S A : Type) :=
  | Ret (a : A) (s : S)
  | Crash (c : crash).
Arguments Ret {S A} a s.
Arguments Crash {S A} c.

Definition M (S A : Type) : Type := S → outcome S A.

Definition ret {S A} (a : A) : M S A := λ s, Ret a s.
Definition bind {S A B} (m : M S A) (k : A → M S B) : M S B :=
  λ s, match m s with Ret a s' => k a s' | Crash c => Crash c end.
Definition crash_with {S A} (c : crash) : M S A := λ _, Crash c.
Definition getst {S} : M S S := λ s, Ret s s.
Definition gets {S A} (f : S → A) : M S A := λ s, Ret (f s) s.
Definition modify {S} (f : S → S) : M S unit := λ s, Ret tt (f s).

Declare Scope cmd_scope.
Delimit Scope cmd_scope with cmd.
Notation "x <- m ;; k" := (bind m (λ x, k))
  (at level 100, m at next level, right associativity) : cmd_scope.
Notation "'let*' p := m 'in' k" := (bind m (λ x, match x with p => k end))
  (at level 100, p pattern, m at next level, k at level 200, right associativity) : cmd_scope.
Notation "m ;;; k" := (bind m (λ _, k))
  (at level 100, right associativity) : cmd_scope.
Notation "'when' b 'do' m" := (if b : bool then m else ret tt)
  (at level 90, b at level 200, m at level 90) : cmd_scope.
#[global] Open Scope cmd_scope.

(** [BUG_ON(c)]. *)
Definition bug_on {S} (c : bool) : M S unit :=
  if c then crash_with CrashBug else ret tt.

(** A dereference: the object must be there. *)
Definition deref {S A} (o : option A) : M S A :=
  match o with Some a => ret a | None => crash_with CrashOops end.

(** Running a routine of a component inside a larger state. *)
Definition zoom {S T A} (get : S → T) (put : T → S → S) (m : M T A) : M S A :=
  λ s, match m (get s) with Ret a t => Ret a (put t s) | Crash c => Crash c end.

(** *** Total-correctness postconditions

    [wp m Q s]: started in [s], the routine [m] returns (it does not crash) and
    its result and final state satisfy [Q]. *)

Definition wp {S A} (m : M S A) (Q : A → S → Prop) (s : S) : Prop :=
  match m s with Ret a s' => Q a s' | Crash _ => False end.

Section wp.
Context {S : Type}.
Implicit Types s : S.

Lemma wp_ret {A} (a : A) (Q : A → S → Prop) s : Q a s → wp (ret a) Q s.
Proof. done. Qed.

Lemma wp_bind {A B} (m : M S A) (k : A → M S B) (Q : B → S → Prop) s :
  wp m (λ a s', wp (k a) Q s') s → wp (bind m k) Q s.
Proof. unfold wp, bind. destruct (m s); auto. Qed.

Lemma wp_bind_inv {A B} (m : M S A) (k : A → M S B) (Q : B → S → Prop) s :
  wp (bind m k) Q s → wp m (λ a s', wp (k a) Q s') s.
Proof. unfold wp, bind. destruct (m s); auto. Qed.

Lemma wp_mono {A} (m : M S A) (P Q : A → S → Prop) s :
  wp m P s → (∀ a s', P a s' → Q a s') → wp m Q s.
Proof. unfold wp. destruct (m s); auto. Qed.

Lemma wp_det {A} (m : M S A) s (Q : A → S → Prop) a s' :
  m s = Ret a s' → Q a s' → wp m Q s.
Proof. unfold wp. by intros ->. Qed.

Lemma wp_elim {A} (m : M S A) (Q : A → S → Prop) s :
  wp m Q s → ∃ a s', m s = Ret a s' ∧ Q a s'.
Proof. unfold wp. destruct (m s); [eauto|done]. Qed.

Lemma wp_getst (Q : S → S → Prop) s : Q s s → wp getst Q s.
Proof. done. Qed.
Lemma wp_gets {A} (f : S → A) (Q : A → S → Prop) s : Q (f s) s → wp (gets f) Q s.
Proof. done. Qed.
Lemma wp_modify (f : S → S) (Q : unit → S → Prop) s : Q tt (f s) → wp (modify f) Q s.
Proof. done. Qed.
Lemma wp_bug_on b (Q : unit → S → Prop) s : b = false → Q tt s → wp (bug_on b) Q s.
Proof. by intros ->. Qed.
Lemma wp_deref {A} (o : option A) a (Q : A → S → Prop) s :
  o = Some a → Q a s → wp (deref o) Q s.
Proof. by intros ->. Qed.
Lemma wp_when (b : bool) (m : M S unit) (Q : unit → S → Prop) s :
  (b = true → wp m Q s) → (b = false → Q tt s) → wp (when b do m) Q s.
Proof. destruct b; intros H1 H2; [by apply H1|by apply H2]. Qed.

Lemma wp_zoom {T A} (get : S → T) (put : T → S → S) (m : M T A) (Q : A → S → Prop) s :
  wp m (λ a t, Q a (put t s)) (get s) → wp (zoom get put m) Q s.
Proof. unfold wp, zoom. by destruct (m (get s)). Qed.

Lemma bind_Ret {A B} (m : M S A) (k : A → M S B) s b s' :
  bind m k s = Ret b s' ↔ ∃ a s1, m s = Ret a s1 ∧ k a s1 = Ret b s'.
Proof.
  unfold bind. destruct (m s) as [a s1|c]; split; [by eauto| |done|].
  - intros (a' & s1' & [= -> ->] & Hk). done.
  - intros (a' & s1' & [=] & _).
Qed.
End wp.

(** *** Running routines

    Equations to execute a routine in a given state; [run] applies those for the
    primitive commands. *)

Section run.
Context {S : Type}.

Lemma bind_of {A B} {m : M S A} {s a s'} (k : A → M S B) :
  m s = Ret a s' → bind m k s = k a s'.
Proof. unfold bind. by intros ->. Qed.
Lemma bind_ret {A B} (a : A) (k : A → M S B) s : bind (ret a) k s = k a s.
Proof. done. Qed.
Lemma bind_getst {B} (k : S → M S B) s : bind getst k s = k s s.
Proof. done. Qed.
Lemma bind_gets {A B} (f : S → A) (k : A → M S B) s : bind (gets f) k s = k (f s) s.
Proof. done. Qed.
Lemma bind_modify {B} f (k : unit → M S B) s : bind (modify f) k s = k tt (f s).
Proof. done. Qed.
Lemma bind_deref {A B} (a : A) (k : A → M S B) s : bind (deref (Some a)) k s = k a s.
Proof. done. Qed.
Lemma bind_bug_on {B} b (k : unit → M S B) s : b = false → bind (bug_on b) k s = k tt s.
Proof. by intros ->. Qed.
Lemma bind_bind {A B C} (m : M S A) (f : A → M S B) (k : B → M S C) s :
  bind (bind m f) k s = bind m (λ a, bind (f a) k) s.
Proof. unfold bind. by destruct (m s). Qed.
End run.

Create Rewrite HintDb run.
#[export] Hint Rewrite @bind_ret @bind_getst @bind_gets @bind_modify @bind_deref @bind_bind : run.
Ltac run := repeat (autorewrite with run; cbv beta).

(** One step of symbolic execution over the primitive commands. *)
Ltac wp_step :=
  lazymatch goal with
  | |- wp (bind _ _) _ _ => apply wp_bind
  | |- wp (ret _) _ _ => apply wp_ret
  | |- wp getst _ _ => apply wp_getst
  | |- wp (gets _) _ _ => apply wp_gets
  | |- wp (modify _) _ _ => apply wp_modify
  end; cbv beta.
Ltac wp_steps := repeat wp_step.

(** ** Sorted lists *)

Lemma StronglySorted_filter {A} (R : relation A) (P : A → Prop) `{∀ x, Decision (P x)} l :
  StronglySorted R l → StronglySorted R (filter P l).
Proof.
  induction 1 as [|x l Hl IH Hx]; [constructor|]. rewrite filter_cons. case_decide; [|done].
  constructor; [done|]. rewrite Forall_forall in *. intros y [_ ?]%list_elem_of_filter. auto.
Qed.

Lemma StronglySorted_mono {A} (R R' : relation A) l :
  StronglySorted R l → (∀ x y, x ∈ l → y ∈ l → R x y → R' x y) → StronglySorted R' l.
Proof.
  induction 1 as [|x l Hl IH Hx]; intros HR; constructor; [apply IH; set_solver|].
  rewrite Forall_forall in *. intros y Hy. apply HR; [set_solver..|by apply Hx].
Qed.

Lemma Zlt_sorted_NoDup l : StronglySorted Z.lt l → NoDup l.
Proof.
  induction 1 as [|y l _ IH Hy]; constructor; [|done].
  rewrite Forall_forall in Hy. intros ?%Hy. lia.
Qed.

(** ** Machine integers of the 32-bit target *)

Definition u32 (x : Z) : Z := x mod 2 ^ 32.
Definition s32 (x : Z) : Z := (x + 2 ^ 31) mod 2 ^ 32 - 2 ^ 31.

Lemma u32_range x : 0 ≤ u32 x < 2 ^ 32.
Proof. apply Z.mod_pos_bound. lia. Qed.
Lemma u32_small x : 0 ≤ x < 2 ^ 32 → u32 x = x.
Proof. apply Z.mod_small. Qed.
Lemma s32_small x : - 2 ^ 31 ≤ x < 2 ^ 31 → s32 x = x.
Proof. intros. unfold s32. rewrite Z.mod_small; lia. Qed.
Lemma s32_range x : - 2 ^ 31 ≤ s32 x < 2 ^ 31.
Proof. unfold s32. pose proof (Z.mod_pos_bound (x + 2 ^ 31) (2 ^ 32)). lia. Qed.

(** [ALIGN(x, a)] for a power of two [a], on [size_t]. *)
Definition ALIGN (x a : Z) : Z := Z.land (u32 (x + (a - 1))) (u32 (Z.lnot (a - 1))).
Definition IS_ALIGNED (x a : Z) : bool := bool_decide (Z.land x (a - 1) = 0).

Definition PAGE_SIZE : Z := 4096.
Definition PAGE_ALIGN (x : Z) : Z := ALIGN x PAGE_SIZE.
(** [x & PAGE_MASK]. *)
Definition page_mask (x : Z) : Z := Z.land x (u32 (Z.lnot (PAGE_SIZE - 1))).

Section align.
Lemma land_mask_spec x k :
  0 ≤ k ≤ 32 → 0 ≤ x < 2 ^ 32 →
  Z.land x (u32 (Z.lnot (2 ^ k - 1))) = x - x mod 2 ^ k.
Proof.
  intros Hk Hx. replace (x - x mod 2 ^ k) with (Z.shiftl (Z.shiftr x k) k).
  2:{ rewrite Z.shiftl_mul_pow2, Z.shiftr_div_pow2 by lia.
      pose proof (Z.div_mod x (2 ^ k)). lia. }
  apply Z.bits_inj'. intros n Hn. rewrite Z.land_spec. unfold u32.
  destruct (decide (n < 32)).
  - rewrite Z.mod_pow2_bits_low, Z.lnot_spec by lia.
    replace (2 ^ k - 1) with (Z.ones k) by (rewrite Z.ones_equiv; lia).
    destruct (decide (n < k)).
    + rewrite Z.ones_spec_low, Z.shiftl_spec_low by lia. by rewrite andb_false_r.
    + rewrite Z.ones_spec_high, Z.shiftl_spec, Z.shiftr_spec by lia.
      rewrite andb_true_r. f_equal. lia.
  - rewrite Z.mod_pow2_bits_high, andb_false_r by lia.
    rewrite Z.shiftl_spec, Z.shiftr_spec by lia.
    replace (n - k + k) with n by lia.
    destruct (decide (x = 0)) as [->|]; [by rewrite Z.bits_0|].
    symmetry. apply Z.bits_above_log2; [lia|].
    assert (Z.log2 x < 32) by (apply Z.log2_lt_pow2; lia). lia.
Qed.

(** What [ALIGN] computes when the addition does not wrap. *)
Lemma ALIGN_spec x k :
  0 ≤ k ≤ 32 → 0 ≤ x → x + (2 ^ k - 1) < 2 ^ 32 →
  ALIGN x (2 ^ k) = (x + (2 ^ k - 1)) - (x + (2 ^ k - 1)) mod 2 ^ k.
Proof.
  intros. unfold ALIGN. assert (0 < 2 ^ k) by lia.
  rewrite u32_small by lia. apply land_mask_spec; lia.
Qed.

Lemma page_mask_spec x : 0 ≤ x < 2 ^ 32 → page_mask x = x - x mod PAGE_SIZE.
Proof. intros. apply (land_mask_spec x 12); lia. Qed.

Lemma PAGE_ALIGN_spec x :
  0 ≤ x → x + 4095 < 2 ^ 32 → PAGE_ALIGN x = (x + 4095) - (x + 4095) mod PAGE_SIZE.
Proof. intros. apply (ALIGN_spec x 12); lia. Qed.

Lemma ALIGN4_spec x :
  0 ≤ x < 2 ^ 32 →
  if decide (x ≤ 2 ^ 32 - 4) then ALIGN x 4 = (x + 3) - (x + 3) mod 4 else ALIGN x 4 = 0.
Proof.
  intros. case_decide.
  - apply (ALIGN_spec x 2); lia.
  - unfold ALIGN. change (4 - 1) with (2 ^ 2 - 1).
    assert (u32 (x + (2 ^ 2 - 1)) = x + 3 - 2 ^ 32) as ->.
    { unfold u32. symmetry. apply (Z.mod_unique_pos _ _ 1); lia. }
    rewrite (land_mask_spec _ 2) by lia. rewrite Z.mod_small; lia.
Qed.
End align.

(** [lia] with division and remainder. *)
Ltac divmod_lia :=
  unfold PAGE_SIZE in *; Z.to_euclidean_division_equations; lia.
