(* ===== verification/Rbtree.v ===== *)
(** * The driver's red-black trees

    [struct rb_root] as a binary tree of the addresses of the objects that embed
    the [rb_node]s.  The descents (searches and the search for the place of a
    new node) are the driver's own loops and are defined here; the library of
    [linux/rbtree.h], which is not part of the repository, is the interface
    [RbKernel]: recolouring, erasure and the in-order walk, with the laws the
    driver relies on. *)

From Stdlib Require Import ZArith Lia.
From stdpp Require Import base tactics list sets sorting.
From S2P Require Import Prelude.

Inductive rbtree :=
  | RbLeaf
  | RbNode (l : rbtree) (x : Z) (r : rbtree).

Fixpoint rb_inorder (t : rbtree) : list Z :=
  match t with
  | RbLeaf => []
  | RbNode l x r => rb_inorder l ++ x :: rb_inorder r
  end.

(** What [linux/rbtree.h] provides and documents. *)
Class RbKernel := {
  (** rebalancing after [rb_link_node]: keeps the order of the nodes *)
  rb_insert_color : rbtree → rbtree;
  rb_insert_color_inorder t : rb_inorder (rb_insert_color t) = rb_inorder t;
  (** unlinking a node of the tree: keeps the order of the others *)
  rb_erase : Z → rbtree → rbtree;
  rb_erase_inorder x t :
    NoDup (rb_inorder t) → x ∈ rb_inorder t →
    rb_inorder (rb_erase x t) = filter (λ y, y ≠ x) (rb_inorder t);
  (** the nodes in the order of [rb_first], [rb_next], ... *)
  rb_walk : rbtree → list Z;
  rb_walk_inorder t : rb_walk t = rb_inorder t
}.

Definition rb_first `{RbKernel} (t : rbtree) : option Z := head (rb_walk t).

(** A descent that compares the key it looks for with the nodes' keys:
    [cmp x] is the key compared with that of node [x]. *)
Fixpoint rb_search {S} (cmp : Z → M S comparison) (t : rbtree) : M S (option Z) :=
  match t with
  | RbLeaf => ret None
  | RbNode l x r =>
      c <- cmp x ;;
      match c with
      | Lt => rb_search cmp l
      | Gt => rb_search cmp r
      | Eq => ret (Some x)
      end
  end.

(** A descent to the place of a new node, followed by [rb_link_node]:
    [left y] says whether the new node goes to the left of node [y]. *)
Fixpoint rb_link {S} (left : Z → M S bool) (x : Z) (t : rbtree) : M S rbtree :=
  match t with
  | RbLeaf => ret (RbNode RbLeaf x RbLeaf)
  | RbNode l y r =>
      b <- left y ;;
      if b : bool
      then (l' <- rb_link left x l ;; ret (RbNode l' y r))
      else (r' <- rb_link left x r ;; ret (RbNode l y r'))
  end.

Section descents.
Context {S : Type}.

(** A read-only test that agrees with the pure function [f] on [l]. *)
Definition reads {A} (m : Z → M S A) (f : Z → A) (l : list Z) (s : S) : Prop :=
  ∀ x, x ∈ l → m x s = Ret (f x) s.

Lemma reads_app {A} (m : Z → M S A) f l1 x l2 s :
  reads m f (l1 ++ x :: l2) s →
  reads m f l1 s ∧ m x s = Ret (f x) s ∧ reads m f l2 s.
Proof. intros H. split_and!; [intros y ?|apply H|intros y ?; apply H]; set_solver. Qed.

(** Keys increase along [l], so the nodes the key is smaller than form a suffix. *)
Definition cmp_sorted (c : Z → comparison) : list Z → Prop :=
  StronglySorted (λ x y, c x ≠ Gt → c y = Lt).

Lemma rb_search_spec (cmp : Z → M S comparison) c t s :
  reads cmp c (rb_inorder t) s → cmp_sorted c (rb_inorder t) →
  ∃ r, rb_search cmp t s = Ret r s ∧
    match r with
    | Some x => x ∈ rb_inorder t ∧ c x = Eq
    | None => ∀ x, x ∈ rb_inorder t → c x ≠ Eq
    end.
Proof.
  unfold cmp_sorted. induction t as [|l IHl x r IHr]; simpl; intros Hr Hs.
  { exists None. split; [done|]. set_solver. }
  apply reads_app in Hr as (Hrl & Hx & Hrr).
  apply StronglySorted_app in Hs as (Hlr & Hsl & Hsr).
  apply StronglySorted_inv in Hsr as [Hsr Hxr].
  unfold bind. rewrite Hx. destruct (c x) eqn:Hc.
  - exists (Some x). split; [done|]. split; [set_solver|done].
  - destruct (IHl Hrl Hsl) as (o & -> & Ho). exists o. split; [done|].
    destruct o as [y|]; [destruct Ho; split; [set_solver|done]|].
    intros y. rewrite elem_of_app, elem_of_cons. intros [Hy|[->|Hy]]; [auto|congruence|].
    rewrite Forall_forall in Hxr. rewrite (Hxr y Hy); congruence.
  - destruct (IHr Hrr Hsr) as (o & -> & Ho). exists o. split; [done|].
    destruct o as [y|]; [destruct Ho; split; [set_solver|done]|].
    intros y. rewrite elem_of_app, elem_of_cons. intros [Hy|[->|Hy]]; [|congruence|auto].
    intros Hyc. assert (c x = Lt); [|congruence].
    apply (Hlr y x Hy); [set_solver|congruence].
Qed.

Definition left_sorted (d : Z → bool) : list Z → Prop :=
  StronglySorted (λ x y, d x = true → d y = true).

(** The new node ends up between the nodes it is not, and those it is, to the left of. *)
Definition inserted_at (d : Z → bool) (x : Z) (l l' : list Z) : Prop :=
  ∃ l1 l2, l = l1 ++ l2 ∧ l' = l1 ++ x :: l2 ∧
    (∀ y, y ∈ l1 → d y = false) ∧ (∀ y, y ∈ l2 → d y = true).

Lemma rb_link_spec (left : Z → M S bool) d x t s :
  reads left d (rb_inorder t) s → left_sorted d (rb_inorder t) →
  ∃ t', rb_link left x t s = Ret t' s ∧ inserted_at d x (rb_inorder t) (rb_inorder t').
Proof.
  unfold left_sorted. induction t as [|l IHl y r IHr]; simpl; intros Hr Hs.
  { exists (RbNode RbLeaf x RbLeaf). split; [done|]. exists [], []. set_solver. }
  apply reads_app in Hr as (Hrl & Hy & Hrr).
  apply StronglySorted_app in Hs as (Hlr & Hsl & Hsr).
  apply StronglySorted_inv in Hsr as [Hsr Hxr]. rewrite Forall_forall in Hxr.
  unfold bind. rewrite Hy. destruct (d y) eqn:Hd.
  - destruct (IHl Hrl Hsl) as (t' & -> & l1 & l2 & E1 & E2 & H1 & H2).
    eexists. split; [done|]. simpl. exists l1, (l2 ++ y :: rb_inorder r).
    rewrite E1, E2, <-!(assoc_L (++)). split_and!; [done..|set_solver].
  - destruct (IHr Hrr Hsr) as (t' & -> & l1 & l2 & E1 & E2 & H1 & H2).
    eexists. split; [done|]. simpl. exists (rb_inorder l ++ y :: l1), l2.
    rewrite E1, E2, <-!(assoc_L (++)). split_and!; [done..| |done].
    intros z. rewrite elem_of_app, elem_of_cons. intros [Hz|[->|Hz]]; [|done|auto].
    destruct (d z) eqn:Hdz; [|done]. rewrite (Hlr z y Hz) in Hd; [done|set_solver|done].
Qed.
End descents.

Section inserted.
Context (d : Z → bool) (x : Z) (l l' : list Z) (Hins : inserted_at d x l l').

Lemma inserted_at_perm : l' ≡ₚ x :: l.
Proof. destruct Hins as (l1 & l2 & -> & -> & _). by rewrite Permutation_middle. Qed.

Lemma inserted_at_elem y : y ∈ l' ↔ y = x ∨ y ∈ l.
Proof. rewrite inserted_at_perm. set_solver. Qed.

Lemma inserted_at_sorted (R : relation Z) `{!Transitive R} :
  StronglySorted R l →
  (∀ y, y ∈ l → d y = true → R x y) → (∀ y, y ∈ l → d y = false → R y x) →
  StronglySorted R l'.
Proof.
  destruct Hins as (l1 & l2 & -> & -> & H1 & H2).
  rewrite !StronglySorted_app. intros (Hs & Hl1 & Hl2) Hr1 Hr2. split_and!; [|done|].
  - intros y z Hy. rewrite elem_of_cons. intros [->|Hz]; [|auto]. apply Hr2; [set_solver|auto].
  - constructor; [done|]. apply Forall_forall. intros y Hy. apply Hr1; [set_solver|auto].
Qed.
End inserted.

(** ** Trees ordered by a key

    [tree_of t P key]: the nodes of [t] are those with [P], in the order of [key],
    which tells them apart. *)

Definition tree_of (t : rbtree) (P : Z → Prop) (key : Z → Z) : Prop :=
  (∀ x, x ∈ rb_inorder t ↔ P x) ∧ StronglySorted (λ x y, key x < key y) (rb_inorder t).

(** Keys compared along a descent. *)
Definition cmp3 (key x : Z) : comparison :=
  if decide (key < x) then Lt else if decide (key > x) then Gt else Eq.
Lemma cmp3_Eq a b : cmp3 a b = Eq ↔ a = b.
Proof. unfold cmp3. repeat case_decide; split; intros; try done; lia. Qed.

Section ordered.
Context (P : Z → Prop) (key : Z → Z).

Lemma tree_of_ext t P' key' :
  tree_of t P key → (∀ x, P x ↔ P' x) → (∀ x, P x → key x = key' x) → tree_of t P' key'.
Proof.
  intros [Hx Hs] HP Hk. split; [by intros x; rewrite Hx|].
  eapply StronglySorted_mono; [done|]. intros x y Hx' Hy'. rewrite <-!Hk; [done|by apply Hx..].
Qed.

Lemma tree_of_NoDup t : tree_of t P key → NoDup (rb_inorder t).
Proof.
  intros [_ Hs]. induction Hs as [|x l _ IH Hx]; constructor; [|done].
  rewrite Forall_forall in Hx. intros ?%Hx. lia.
Qed.

Lemma tree_of_inj t x y : tree_of t P key → P x → P y → key x = key y → x = y.
Proof.
  intros [HP Hs] Hx%HP Hy%HP Hk. clear HP. induction Hs as [|z l _ IH Hz]; [set_solver|].
  rewrite Forall_forall in Hz.
  apply elem_of_cons in Hx as [->|Hx], Hy as [->|Hy]; [done| | |auto].
  - specialize (Hz y Hy). lia.
  - specialize (Hz x Hx). lia.
Qed.

Lemma tree_of_search {S} (cmp : Z → M S comparison) t k s :
  tree_of t P key → (∀ x, P x → cmp x s = Ret (cmp3 k (key x)) s) →
  wp (rb_search cmp t) (λ o s', s' = s ∧ match o with Some x => P x ∧ key x = k | None => ∀ x, P x → key x ≠ k end) s.
Proof.
  intros [HP Hs] Hc.
  destruct (rb_search_spec cmp (λ x, cmp3 k (key x)) t s) as (o & E & Ho).
  { intros x Hx. by apply Hc, HP. }
  { eapply StronglySorted_mono; [exact Hs|]. intros x y _ _ Hlt. simpl in Hlt. unfold cmp3.
    repeat case_decide; try done; lia. }
  eapply wp_det; [done|]. split; [done|]. destruct o as [x|].
  - rewrite HP, cmp3_Eq in Ho. naive_solver.
  - intros x Hx E'. by apply (Ho x); [apply HP|apply cmp3_Eq].
Qed.
End ordered.

Section ordered_changes.
Context `{RbKernel}.

Lemma tree_of_insert {S} (left : Z → M S bool) t (P P' : Z → Prop) (key key' : Z → Z) x s :
  tree_of t P key → (∀ y, P y → left y s = Ret (bool_decide (key' x < key y)) s) →
  (∀ y, P y → key y ≠ key' x) → (∀ y, P' y ↔ y = x ∨ P y) → (∀ y, P y → key' y = key y) →
  wp (rb_link left x t) (λ t' s', s' = s ∧ tree_of (rb_insert_color t') P' key') s.
Proof.
  intros [HP Hs] Hl Hne HP' Hk.
  destruct (rb_link_spec left (λ y, bool_decide (key' x < key y)) x t s) as (t' & E & Hins).
  { intros y Hy. by apply Hl, HP. }
  { eapply StronglySorted_mono; [exact Hs|]. intros y z _ _ Hlt. simpl in *. rewrite !bool_decide_eq_true. lia. }
  eapply wp_det; [done|]. split; [done|]. split; rewrite rb_insert_color_inorder.
  - intros y. rewrite (inserted_at_elem _ _ _ _ Hins), HP'. by rewrite HP.
  - eapply inserted_at_sorted; [exact Hins|intros a b c ??; simpl in *; lia| | |].
    + eapply StronglySorted_mono; [exact Hs|]. intros y z ?%HP ?%HP Hlt. by rewrite !Hk.
    + intros y ?%HP. rewrite bool_decide_eq_true, (Hk y) by done. done.
    + intros y Hy%HP. rewrite bool_decide_eq_false, (Hk y) by done. specialize (Hne y Hy). lia.
Qed.

Lemma tree_of_erase t (P : Z → Prop) key x :
  tree_of t P key → P x → tree_of (rb_erase x t) (λ y, P y ∧ y ≠ x) key.
Proof.
  intros Ht Hx. pose proof (tree_of_NoDup _ _ _ Ht) as Hnd. destruct Ht as [HP Hs].
  split; rewrite rb_erase_inorder by (try done; by apply HP).
  - intros y. rewrite list_elem_of_filter, HP. tauto.
  - by apply StronglySorted_filter.
Qed.
End ordered_changes.

(** A kernel whose trees are never rebalanced, to run the model. *)
Fixpoint rb_of_list (l : list Z) : rbtree :=
  match l with [] => RbLeaf | x :: l => RbNode RbLeaf x (rb_of_list l) end.

Lemma rb_of_list_inorder l : rb_inorder (rb_of_list l) = l.
Proof. induction l; simpl; congruence. Qed.

Definition plain_rb : RbKernel.
Proof.
  refine {| rb_insert_color t := t;
            rb_erase x t := rb_of_list (filter (λ y, y ≠ x) (rb_inorder t));
            rb_walk := rb_inorder |}; [done| |done].
  intros x t _ _. apply rb_of_list_inorder.
Defined.
