(* ===== verification/BinderAlloc.v ===== *)
(** * The buffer allocator of the binder driver

    [driver/binder/binder.c], from [binder_buffer_size] to [binder_free_buf] and
    the part of [binder_mmap] that sets the allocator up.  A process maps an
    area of at most 4 MB; the driver carves it into chunks, each a
    [struct binder_buffer] header followed by data, and backs with pages only
    the headers and the data of the buffers in use.

    State ([balloc]): the allocator's fields of [struct binder_proc].  A header
    is read or written only while the pages it lies in are mapped; any other
    access is an oops. *)

From Stdlib Require Import ZArith Lia.
From stdpp Require Import base tactics list sets gmap sorting.
From S2P Require Import Prelude Rbtree.

(** [sizeof(struct binder_buffer)] = [offsetof(struct binder_buffer, data)]. *)
Definition BUF_HDR : Z := 40.
Definition PTR_SIZE : Z := 4.
Definition ENOMEM : Z := 12.
Definition EPERM : Z := 1.
Definition EBUSY : Z := 16.
Definition SZ_4M : Z := 4194304.

(** [struct binder_buffer]: the header; the list and tree links are in
    [balloc].  [b_data] are the [data_size] bytes of the transaction, [b_offs]
    the words of its offsets array. *)
Record buffer := Buffer {
  b_free : bool;
  b_allow_user_free : bool;
  b_async_transaction : bool;
  b_debug_id : Z;
  b_transaction : option Z;
  b_target_node : option Z;
  b_data_size : Z;
  b_offsets_size : Z;
  b_data : list Z;
  b_offs : list Z
}.

Definition set_b_free (v : bool) (b : buffer) : buffer :=
  Buffer v (b_allow_user_free b) (b_async_transaction b) (b_debug_id b) (b_transaction b)
    (b_target_node b) (b_data_size b) (b_offsets_size b) (b_data b) (b_offs b).
Definition set_b_sizes (ds os : Z) (async : bool) (b : buffer) : buffer :=
  Buffer (b_free b) (b_allow_user_free b) async (b_debug_id b) (b_transaction b)
    (b_target_node b) ds os (b_data b) (b_offs b).
Definition set_b_transaction (t : option Z) (b : buffer) : buffer :=
  Buffer (b_free b) (b_allow_user_free b) (b_async_transaction b) (b_debug_id b) t
    (b_target_node b) (b_data_size b) (b_offsets_size b) (b_data b) (b_offs b).
Definition set_b_allow_user_free (v : bool) (b : buffer) : buffer :=
  Buffer (b_free b) v (b_async_transaction b) (b_debug_id b) (b_transaction b)
    (b_target_node b) (b_data_size b) (b_offsets_size b) (b_data b) (b_offs b).
Definition set_b_owner (id : Z) (t tn : option Z) (b : buffer) : buffer :=
  Buffer (b_free b) false (b_async_transaction b) id t tn
    (b_data_size b) (b_offsets_size b) (b_data b) (b_offs b).
Definition set_b_data (d : list Z) (b : buffer) : buffer :=
  Buffer (b_free b) (b_allow_user_free b) (b_async_transaction b) (b_debug_id b)
    (b_transaction b) (b_target_node b) (b_data_size b) (b_offsets_size b) d (b_offs b).
Definition set_b_offs (o : list Z) (b : buffer) : buffer :=
  Buffer (b_free b) (b_allow_user_free b) (b_async_transaction b) (b_debug_id b)
    (b_transaction b) (b_target_node b) (b_data_size b) (b_offsets_size b) (b_data b) o.

(** A header in memory nobody has written: the driver writes each field of it
    before reading it. *)
Definition blank_buffer : buffer := Buffer false false false 0 None None 0 0 [] [].

(** The allocator's part of [struct binder_proc]. *)
Record balloc := Balloc {
  a_vma : bool;                       (* vma != NULL *)
  a_buffer : Z;                       (* buffer: kernel address of the area *)
  a_user_buffer_offset : Z;
  a_list : list Z;                    (* buffers: by address *)
  a_headers : gmap Z buffer;
  a_free_buffers : rbtree;            (* by size *)
  a_allocated_buffers : rbtree;       (* by address *)
  a_free_async_space : Z;
  a_pages : gset Z;                   (* the i with pages[i] != NULL *)
  a_buffer_size : Z
}.

Definition set_a_list f (a : balloc) : balloc :=
  Balloc (a_vma a) (a_buffer a) (a_user_buffer_offset a) (f (a_list a)) (a_headers a)
    (a_free_buffers a) (a_allocated_buffers a) (a_free_async_space a) (a_pages a) (a_buffer_size a).
Definition set_a_headers f (a : balloc) : balloc :=
  Balloc (a_vma a) (a_buffer a) (a_user_buffer_offset a) (a_list a) (f (a_headers a))
    (a_free_buffers a) (a_allocated_buffers a) (a_free_async_space a) (a_pages a) (a_buffer_size a).
Definition set_a_free_buffers (t : rbtree) (a : balloc) : balloc :=
  Balloc (a_vma a) (a_buffer a) (a_user_buffer_offset a) (a_list a) (a_headers a)
    t (a_allocated_buffers a) (a_free_async_space a) (a_pages a) (a_buffer_size a).
Definition set_a_allocated_buffers (t : rbtree) (a : balloc) : balloc :=
  Balloc (a_vma a) (a_buffer a) (a_user_buffer_offset a) (a_list a) (a_headers a)
    (a_free_buffers a) t (a_free_async_space a) (a_pages a) (a_buffer_size a).
Definition set_a_free_async_space (n : Z) (a : balloc) : balloc :=
  Balloc (a_vma a) (a_buffer a) (a_user_buffer_offset a) (a_list a) (a_headers a)
    (a_free_buffers a) (a_allocated_buffers a) n (a_pages a) (a_buffer_size a).
Definition set_a_pages f (a : balloc) : balloc :=
  Balloc (a_vma a) (a_buffer a) (a_user_buffer_offset a) (a_list a) (a_headers a)
    (a_free_buffers a) (a_allocated_buffers a) (a_free_async_space a) (f (a_pages a)) (a_buffer_size a).
Definition set_a_vma (v : bool) (a : balloc) : balloc :=
  Balloc v (a_buffer a) (a_user_buffer_offset a) (a_list a) (a_headers a)
    (a_free_buffers a) (a_allocated_buffers a) (a_free_async_space a) (a_pages a) (a_buffer_size a).

Definition set_a_buffer (v : Z) (a : balloc) : balloc :=
  Balloc (a_vma a) v (a_user_buffer_offset a) (a_list a) (a_headers a)
    (a_free_buffers a) (a_allocated_buffers a) (a_free_async_space a) (a_pages a) (a_buffer_size a).
Definition set_a_user_buffer_offset (v : Z) (a : balloc) : balloc :=
  Balloc (a_vma a) (a_buffer a) v (a_list a) (a_headers a)
    (a_free_buffers a) (a_allocated_buffers a) (a_free_async_space a) (a_pages a) (a_buffer_size a).
Definition set_a_buffer_size (v : Z) (a : balloc) : balloc :=
  Balloc (a_vma a) (a_buffer a) (a_user_buffer_offset a) (a_list a) (a_headers a)
    (a_free_buffers a) (a_allocated_buffers a) (a_free_async_space a) (a_pages a) v.

(** What the memory manager answers during one call: whether the process still
    has its [mm], and what becomes of the request to back a page address. *)
Inductive page_result := PageOk | PageNoMem | PageMapFails | PageInsertFails.
Record mm_env := MmEnv { mm_alive : bool; mm_page : Z → page_result }.

(** [(page_addr - proc->buffer) / PAGE_SIZE]. *)
Definition page_index (a : balloc) (addr : Z) : Z := (addr - a_buffer a) / PAGE_SIZE.

Definition header_mapped (a : balloc) (b : Z) : bool :=
  bool_decide (page_index a b ∈ a_pages a) &&
  bool_decide (page_index a (b + BUF_HDR - 1) ∈ a_pages a).

(** Reading and writing a header. *)
Definition get_buf (b : Z) : M balloc buffer :=
  a <- getst ;;
  if header_mapped a b then deref (a_headers a !! b) else crash_with CrashOops.
Definition put_buf (b : Z) (f : buffer → buffer) : M balloc unit :=
  h <- get_buf b ;; modify (set_a_headers (<[b := f h]>)).

(** [buffer->entry.next] and [buffer->entry.prev]; [None] is the list head. *)
Fixpoint next_in (l : list Z) (x : Z) : option (option Z) :=
  match l with
  | [] => None
  | y :: l' => if decide (y = x) then Some (head l') else next_in l' x
  end.
Fixpoint prev_in (p : option Z) (l : list Z) (x : Z) : option (option Z) :=
  match l with
  | [] => None
  | y :: l' => if decide (y = x) then Some p else prev_in (Some y) l' x
  end.
Definition buf_next (b : Z) : M balloc (option Z) :=
  get_buf b ;;; a <- getst ;; deref (next_in (a_list a) b).
Definition buf_prev (b : Z) : M balloc (option Z) :=
  get_buf b ;;; a <- getst ;; deref (prev_in None (a_list a) b).

(** [list_add(&n->entry, &b->entry)]. *)
Fixpoint insert_after (b n : Z) (l : list Z) : list Z :=
  match l with
  | [] => []
  | y :: l' => if decide (y = b) then y :: n :: l' else y :: insert_after b n l'
  end.

Definition binder_buffer_size (b : Z) : M balloc Z :=
  nx <- buf_next b ;;
  a <- getst ;;
  ret (match nx with
       | None => u32 (a_buffer a + a_buffer_size a - (b + BUF_HDR))
       | Some n => u32 (n - (b + BUF_HDR))
       end).

Section allocator.
Context `{RbKernel}.

Definition binder_insert_free_buffer (new_buffer : Z) : M balloc unit :=
  nb <- get_buf new_buffer ;;
  bug_on (negb (b_free nb)) ;;;
  new_buffer_size <- binder_buffer_size new_buffer ;;
  a <- getst ;;
  t <- rb_link (λ b,
         h <- get_buf b ;;
         bug_on (negb (b_free h)) ;;;
         buffer_size <- binder_buffer_size b ;;
         ret (bool_decide (new_buffer_size < buffer_size)))
       new_buffer (a_free_buffers a) ;;
  modify (set_a_free_buffers (rb_insert_color t)).

Definition binder_insert_allocated_buffer (new_buffer : Z) : M balloc unit :=
  nb <- get_buf new_buffer ;;
  bug_on (b_free nb) ;;;
  a <- getst ;;
  t <- rb_link (λ b,
         h <- get_buf b ;;
         bug_on (b_free h) ;;;
         if decide (new_buffer < b) then ret true
         else if decide (new_buffer > b) then ret false
         else crash_with CrashBug)
       new_buffer (a_allocated_buffers a) ;;
  modify (set_a_allocated_buffers (rb_insert_color t)).

Definition binder_buffer_lookup (user_ptr : Z) : M balloc (option Z) :=
  a <- getst ;;
  let kern_ptr := u32 (user_ptr - a_user_buffer_offset a - BUF_HDR) in
  rb_search (λ b,
    h <- get_buf b ;;
    bug_on (b_free h) ;;;
    ret (if decide (kern_ptr < b) then Lt else if decide (kern_ptr > b) then Gt else Eq))
  (a_allocated_buffers a).

(** The loop that backs the pages from [addr] on; on failure, the page it
    failed at and how. *)
Fixpoint map_pages (env : mm_env) (n : nat) (addr : Z) : M balloc (option (Z * page_result)) :=
  match n with
  | O => ret None
  | S n =>
      a <- getst ;;
      bug_on (bool_decide (page_index a addr ∈ a_pages a)) ;;;
      match mm_page env addr with
      | PageNoMem => ret (Some (addr, PageNoMem))
      | PageOk =>
          modify (set_a_pages (λ p, {[page_index a addr]} ∪ p)) ;;;
          map_pages env n (addr + PAGE_SIZE)
      | r =>
          modify (set_a_pages (λ p, {[page_index a addr]} ∪ p)) ;;;
          ret (Some (addr, r))
      end
  end.

(** [__free_page] of a page that must be there, and its slot reset to [NULL]. *)
Definition free_one_page (addr : Z) : M balloc unit :=
  a <- getst ;;
  if decide (page_index a addr ∈ a_pages a)
  then modify (set_a_pages (λ p, p ∖ {[page_index a addr]}))
  else crash_with CrashOops.

(** The loop at [free_range], downwards from [addr]. *)
Fixpoint unmap_pages (n : nat) (addr : Z) : M balloc unit :=
  match n with
  | O => ret tt
  | S n => free_one_page addr ;;; unmap_pages n (addr - PAGE_SIZE)
  end.

Definition binder_update_page_range
    (env : mm_env) (allocate : bool) (start end_ : Z) (vma : bool) : M balloc Z :=
  if decide (end_ <= start) then ret 0 else
  a <- getst ;;
  let vma := if vma then true else mm_alive env && a_vma a in
  if allocate then
    if negb vma then ret (- ENOMEM) else
    failed <- map_pages env (Z.to_nat ((end_ - start + (PAGE_SIZE - 1)) / PAGE_SIZE)) start ;;
    match failed with
    | None => ret 0
    | Some (page_addr, r) =>
        (match r with PageNoMem => ret tt | _ => free_one_page page_addr end) ;;;
        unmap_pages (Z.to_nat ((page_addr - start) / PAGE_SIZE)) (page_addr - PAGE_SIZE) ;;;
        ret (- ENOMEM)
    end
  else
    unmap_pages (Z.to_nat ((end_ - start) / PAGE_SIZE)) (end_ - PAGE_SIZE) ;;;
    ret (- ENOMEM).

(** The search of [binder_alloc_buf]: [best_fit], and whether [n != NULL] when
    the loop ends, that is whether the fit is exact. *)
Fixpoint best_fit (size : Z) (t : rbtree) (best : option Z) : M balloc (option Z * bool) :=
  match t with
  | RbLeaf => ret (best, false)
  | RbNode l b r =>
      h <- get_buf b ;;
      bug_on (negb (b_free h)) ;;;
      buffer_size <- binder_buffer_size b ;;
      if decide (size < buffer_size) then best_fit size l (Some b)
      else if decide (size > buffer_size) then best_fit size r best
      else ret (Some b, true)
  end.

(** The two sizes, each rounded up to a multiple of the pointer size. *)
Definition buffer_need (data_size offsets_size : Z) : Z :=
  u32 (ALIGN data_size PTR_SIZE + ALIGN offsets_size PTR_SIZE).

(** The chunk that [binder_alloc_buf] has chosen is cut and handed out. *)
Definition alloc_from (env : mm_env) (b : Z) (exact : bool)
    (size data_size offsets_size : Z) (is_async : bool) : M balloc (option Z) :=
  buffer_size <- binder_buffer_size b ;;
  let data := b + BUF_HDR in
  let has_page_addr := page_mask (u32 (data + buffer_size)) in
  let buffer_size :=
    if exact then buffer_size
    else if decide (u32 (size + BUF_HDR + 4) >= buffer_size) then size
    else u32 (size + BUF_HDR) in
  let end_page_addr := PAGE_ALIGN (u32 (data + buffer_size)) in
  let end_page_addr := if decide (end_page_addr > has_page_addr) then has_page_addr else end_page_addr in
  failed <- binder_update_page_range env true (PAGE_ALIGN data) end_page_addr false ;;
  if decide (failed ≠ 0) then ret None else
  a <- getst ;;
  modify (set_a_free_buffers (rb_erase b (a_free_buffers a))) ;;;
  put_buf b (set_b_free false) ;;;
  binder_insert_allocated_buffer b ;;;
  (when bool_decide (buffer_size ≠ size) do (
     let new_buffer := data + size in
     a <- getst ;;
     (if header_mapped a new_buffer then ret tt else crash_with CrashOops) ;;;
     modify (set_a_list (insert_after b new_buffer)) ;;;
     modify (set_a_headers (<[new_buffer := set_b_free true blank_buffer]>)) ;;;
     binder_insert_free_buffer new_buffer)) ;;;
  put_buf b (set_b_sizes data_size offsets_size is_async) ;;;
  (when is_async do
     modify (λ a, set_a_free_async_space (u32 (a_free_async_space a - u32 (size + BUF_HDR))) a)) ;;;
  ret (Some b).

Definition binder_alloc_buf (env : mm_env) (data_size offsets_size : Z) (is_async : bool)
    : M balloc (option Z) :=
  a <- getst ;;
  if negb (a_vma a) then ret None else
  let size := buffer_need data_size offsets_size in
  if decide (size < data_size ∨ size < offsets_size) then ret None else
  if is_async && bool_decide (a_free_async_space a < u32 (size + BUF_HDR)) then ret None else
  let* (best, exact) := best_fit size (a_free_buffers a) None in
  match best with
  | None => ret None
  | Some b => alloc_from env b exact size data_size offsets_size is_async
  end.

Definition buffer_start_page (b : Z) : Z := page_mask b.
Definition buffer_end_page (b : Z) : Z := page_mask (b + BUF_HDR - 1).

Definition binder_delete_free_buffer (env : mm_env) (b : Z) : M balloc unit :=
  a <- getst ;;
  bug_on (bool_decide (head (a_list a) = Some b)) ;;;
  p <- buf_prev b ;;
  prev <- deref p ;;
  hp <- get_buf prev ;;
  bug_on (negb (b_free hp)) ;;;
  let free_page_start := negb (bool_decide (buffer_end_page prev = buffer_start_page b)) in
  let free_page_end :=
    negb (bool_decide (buffer_end_page prev = buffer_start_page b) &&
          bool_decide (buffer_end_page prev = buffer_end_page b)) in
  nx <- buf_next b ;;
  let '(free_page_start, free_page_end) :=
    match nx with
    | Some next =>
        if decide (buffer_start_page next = buffer_end_page b)
        then (free_page_start && negb (bool_decide (buffer_start_page next = buffer_start_page b)), false)
        else (free_page_start, free_page_end)
    | None => (free_page_start, free_page_end)
    end in
  modify (set_a_list (filter (λ y, y ≠ b))) ;;;
  (when free_page_start || free_page_end do (
     _ <- binder_update_page_range env false
            (if free_page_start : bool then buffer_start_page b else buffer_end_page b)
            ((if free_page_end : bool then buffer_end_page b else buffer_start_page b) + PAGE_SIZE)
            false ;;
     ret tt)) ;;;
  modify (set_a_headers (delete b)).

Definition binder_free_buf (env : mm_env) (b : Z) : M balloc unit :=
  buffer_size <- binder_buffer_size b ;;
  h <- get_buf b ;;
  let size := buffer_need (b_data_size h) (b_offsets_size h) in
  a <- getst ;;
  bug_on (b_free h) ;;;
  bug_on (bool_decide (size > buffer_size)) ;;;
  bug_on (bool_decide (b_transaction h ≠ None)) ;;;
  bug_on (bool_decide (b < a_buffer a)) ;;;
  bug_on (bool_decide (b > a_buffer a + a_buffer_size a)) ;;;
  (when b_async_transaction h do
     modify (λ a, set_a_free_async_space (u32 (a_free_async_space a + u32 (size + BUF_HDR))) a)) ;;;
  let data := b + BUF_HDR in
  binder_update_page_range env false (PAGE_ALIGN data) (page_mask (u32 (data + buffer_size))) false ;;;
  a <- getst ;;
  modify (set_a_allocated_buffers (rb_erase b (a_allocated_buffers a))) ;;;
  put_buf b (set_b_free true) ;;;
  nx <- buf_next b ;;
  (match nx with
   | Some next =>
       hn <- get_buf next ;;
       when b_free hn do (
         a <- getst ;;
         modify (set_a_free_buffers (rb_erase next (a_free_buffers a))) ;;;
         binder_delete_free_buffer env next)
   | None => ret tt
   end) ;;;
  p <- buf_prev b ;;
  merged <- match p with
   | Some prev =>
       hp <- get_buf prev ;;
       if b_free hp then
         binder_delete_free_buffer env b ;;;
         a <- getst ;;
         modify (set_a_free_buffers (rb_erase prev (a_free_buffers a))) ;;;
         ret prev
       else ret b
   | None => ret b
   end ;;
  binder_insert_free_buffer merged.

(** [binder_mmap], but for [proc->files]: the area [vm_start, vm_end) of the
    process, [forbidden] if its flags are [FORBIDDEN_MMAP_FLAGS], [vm_area] the
    result of [get_vm_area] and [pages_ok] whether [kzalloc] gave the array of
    pages. *)
Definition binder_mmap_area (env : mm_env) (vm_start vm_end : Z) (forbidden : bool)
    (vm_area : option Z) (pages_ok : bool) : M balloc Z :=
  let vm_end := if decide (u32 (vm_end - vm_start) > SZ_4M) then vm_start + SZ_4M else vm_end in
  if forbidden then ret (- EPERM) else
  a <- getst ;;
  if decide (a_buffer a ≠ 0) then ret (- EBUSY) else
  match vm_area with
  | None => ret (- ENOMEM)
  | Some addr =>
      modify (set_a_buffer addr) ;;;
      modify (set_a_user_buffer_offset (u32 (vm_start - addr))) ;;;
      if negb pages_ok then modify (set_a_buffer 0) ;;; ret (- ENOMEM) else
      modify (set_a_pages (λ _, ∅)) ;;;
      modify (set_a_buffer_size (u32 (vm_end - vm_start))) ;;;
      failed <- binder_update_page_range env true addr (addr + PAGE_SIZE) true ;;
      if decide (failed ≠ 0) then
        modify (set_a_pages (λ _, ∅)) ;;; modify (set_a_buffer 0) ;;; ret (- ENOMEM)
      else
        a <- getst ;;
        (if header_mapped a addr then ret tt else crash_with CrashOops) ;;;
        modify (set_a_list (λ _, [addr])) ;;;
        modify (set_a_headers (<[addr := set_b_free true blank_buffer]>)) ;;;
        binder_insert_free_buffer addr ;;;
        modify (λ a, set_a_free_async_space (a_buffer_size a / 2) a) ;;;
        modify (set_a_vma true) ;;;
        ret 0
  end.
End allocator.

(** The allocator of a process that has no mapping ([kzalloc]). *)
Definition balloc_init : balloc := Balloc false 0 0 [] ∅ RbLeaf RbLeaf 0 ∅ 0.
