(* ===== verification/BinderAllocShape.v ===== *)
(** * Shape of the allocator's area

    The chunks tile the area, their headers are always backed by pages and the
    pages that are backed are exactly those outside the gaps of the free chunks
    ([mem_ok]).  Under it no header access can fault. *)

From Stdlib Require Import ZArith Lia.
From stdpp Require Import base tactics list sets gmap sorting.
From S2P Require Import Prelude Rbtree BinderAlloc.

(** ** Neighbours in an address-ordered list *)

Definition spaced : list Z → Prop := StronglySorted (λ x y, x + BUF_HDR ≤ y).

Section neighbours.
Implicit Types l : list Z.

Lemma spaced_NoDup l : spaced l → NoDup l.
Proof.
  unfold spaced, BUF_HDR. induction 1 as [|x l _ IH Hx]; constructor; [|done].
  rewrite Forall_forall in Hx. intros ?%Hx. lia.
Qed.

Lemma next_in_mid l1 h l2 : h ∉ l1 → next_in (l1 ++ h :: l2) h = Some (head l2).
Proof. induction l1; simpl; intros; case_decide; try set_solver. Qed.

Lemma next_in_insert l1 h n l2 x :
  x ≠ n → x ≠ h → next_in (l1 ++ h :: n :: l2) x = next_in (l1 ++ h :: l2) x.
Proof.
  intros. induction l1 as [|y l1 IH]; simpl; repeat case_decide; simplify_eq; try done.
  by destruct l1.
Qed.

Lemma prev_in_mid p l1 h l2 :
  h ∉ l1 → prev_in p (l1 ++ h :: l2) h = Some (match last l1 with Some y => Some y | None => p end).
Proof.
  revert p. induction l1 as [|y l1 IH]; intros p Hl; simpl.
  - by rewrite decide_True.
  - rewrite decide_False by set_solver. rewrite IH by set_solver.
    rewrite last_cons. by destruct (last l1).
Qed.

Lemma insert_after_mid l1 h n l2 :
  h ∉ l1 → insert_after h n (l1 ++ h :: l2) = l1 ++ h :: n :: l2.
Proof. induction l1; simpl; intros; case_decide; try set_solver. f_equal. set_solver. Qed.

Lemma filter_ne_id l h : h ∉ l → filter (λ y, y ≠ h) l = l.
Proof.
  induction l as [|y l IH]; intros; [done|].
  rewrite filter_cons_True by set_solver. f_equal. apply IH. set_solver.
Qed.

Lemma filter_ne_mid l1 h l2 :
  h ∉ l1 → h ∉ l2 → filter (λ y, y ≠ h) (l1 ++ h :: l2) = l1 ++ l2.
Proof.
  intros H1 H2. rewrite filter_app, filter_cons_False by naive_solver.
  f_equal; by apply filter_ne_id.
Qed.
End neighbours.

(** Where the chunk of header [h] ends: the next header, or the end [e]. *)
Definition chunk_end (e : Z) (l : list Z) (h : Z) : Z :=
  match next_in l h with Some (Some n) => n | _ => e end.

Section chunks.
Context (e : Z).
Implicit Types l : list Z.

Lemma chunk_end_mid l1 h l2 : h ∉ l1 → chunk_end e (l1 ++ h :: l2) h = default e (head l2).
Proof. intros. unfold chunk_end. rewrite next_in_mid by done. by destruct l2. Qed.

Lemma chunk_end_insert l1 h n l2 x :
  x ≠ n → x ≠ h → chunk_end e (l1 ++ h :: n :: l2) x = chunk_end e (l1 ++ h :: l2) x.
Proof. intros. unfold chunk_end. by rewrite next_in_insert. Qed.

(** Splitting a spaced list around one of its headers. *)
Lemma spaced_split l h :
  spaced l → h ∈ l → ∃ l1 l2, l = l1 ++ h :: l2 ∧ (h ∉ l1) ∧ (h ∉ l2) ∧
    (∀ x, x ∈ l1 → x + BUF_HDR ≤ h) ∧ (∀ x, x ∈ l2 → h + BUF_HDR ≤ x).
Proof.
  intros Hs (l1 & l2 & ->)%list_elem_of_split.
  exists l1, l2. pose proof Hs as Hnd%spaced_NoDup.
  apply NoDup_app in Hnd as (_ & Hd & [? _]%NoDup_cons).
  unfold spaced in Hs. rewrite StronglySorted_app in Hs. destruct Hs as (H12 & _ & [_ H2]%StronglySorted_inv).
  rewrite Forall_forall in H2. split_and!; try done; [set_solver|].
  intros. apply H12; set_solver.
Qed.

Lemma chunk_end_bounds l h :
  spaced l → (∀ x, x ∈ l → x + BUF_HDR ≤ e) → h ∈ l →
  h + BUF_HDR ≤ chunk_end e l h ≤ e ∧
  ∀ x, x ∈ l → h < x → chunk_end e l h ≤ x.
Proof.
  intros Hs He Hh. destruct (spaced_split _ _ Hs Hh) as (l1 & l2 & -> & Hn & _ & H1 & H2).
  rewrite chunk_end_mid by done. pose proof He as He'. unfold BUF_HDR in *.
  assert (h + 40 ≤ e) by (apply He; set_solver).
  destruct l2 as [|y l2]; simpl.
  - split; [lia|]. intros x Hx ?. assert (x ∈ l1) as ?%H1; [set_solver by lia|lia].
  - assert (y + 40 ≤ e) by (apply He; set_solver).
    assert (h + 40 ≤ y) by (apply H2; set_solver). split; [lia|].
    unfold spaced in Hs. rewrite StronglySorted_app in Hs.
    destruct Hs as (_ & _ & [[_ Hy]%StronglySorted_inv _]%StronglySorted_inv).
    rewrite Forall_forall in Hy. unfold BUF_HDR in Hy. intros x Hx ?.
    rewrite elem_of_app, !elem_of_cons in Hx. destruct Hx as [?%H1|[->|[->|?%Hy]]]; lia.
Qed.
End chunks.

(** ** The area, its headers and its pages *)

Definition area_end (a : balloc) : Z := a_buffer a + a_buffer_size a.
Definition cend (a : balloc) : Z → Z := chunk_end (area_end a) (a_list a).
(** The data size of the chunk of header [h]. *)
Definition csize (a : balloc) (h : Z) : Z := cend a h - (h + BUF_HDR).

(** The pages strictly inside the chunk of [h], touching neither its header nor
    the next one. *)
Definition in_gap (a : balloc) (h i : Z) : Prop :=
  page_index a (h + BUF_HDR - 1) < i < page_index a (cend a h).

(** [H h i]: page [i] is one of the pages of the chunk of [h] that are not backed. *)
Record mem_ok (H : Z → Z → Prop) (a : balloc) : Prop := {
  mo_base : 0 < a_buffer a ∧ a_buffer a mod PAGE_SIZE = 0;
  mo_size : 0 < a_buffer_size a ∧ a_buffer_size a mod PAGE_SIZE = 0;
  mo_top : area_end a + PAGE_SIZE ≤ 2 ^ 32;
  mo_head : head (a_list a) = Some (a_buffer a);
  mo_spaced : spaced (a_list a);
  mo_in : ∀ h, h ∈ a_list a → a_buffer a ≤ h ∧ h mod PTR_SIZE = 0 ∧ h + BUF_HDR ≤ area_end a;
  mo_headers : ∀ h, is_Some (a_headers a !! h) ↔ h ∈ a_list a;
  mo_pages : ∀ i, i ∈ a_pages a ↔
    0 ≤ i < a_buffer_size a / PAGE_SIZE ∧ ∀ h, h ∈ a_list a → ¬ H h i;
  mo_gap : ∀ h i, h ∈ a_list a → H h i → in_gap a h i
}.

Section mem_ok.
Context (H : Z → Z → Prop) (a : balloc) (Hok : mem_ok H a).

Lemma mem_ok_NoDup : NoDup (a_list a).
Proof. apply spaced_NoDup, Hok. Qed.

Lemma cend_bounds h :
  h ∈ a_list a →
  h + BUF_HDR ≤ cend a h ≤ area_end a ∧ (∀ x, x ∈ a_list a → h < x → cend a h ≤ x).
Proof. intros. apply chunk_end_bounds; [apply Hok| |done]. intros x Hx. by apply Hok. Qed.

(** The pages of a header are never in a gap. *)
Lemma header_mapped_ok h : h ∈ a_list a → header_mapped a h = true.
Proof.
  intros Hh. destruct (mo_in _ _ Hok h Hh) as (Hb & _ & He).
  destruct (mo_base _ _ Hok) as [Hb0 Hbm]. destruct (mo_size _ _ Hok) as [Hs0 Hsm].
  assert (Hp : ∀ x, h ≤ x < h + BUF_HDR → page_index a x ∈ a_pages a).
  { intros x Hx. apply (mo_pages _ _ Hok). unfold area_end, BUF_HDR in *. split.
    - unfold page_index. divmod_lia.
    - intros h' Hh' [Hg1 Hg2]%(mo_gap _ _ Hok); [|done]. destruct (cend_bounds h' Hh') as [_ Hnext].
      assert (page_index a x ≤ page_index a (h' + BUF_HDR - 1) ∨
              page_index a (cend a h') ≤ page_index a x); [|unfold BUF_HDR in *; lia].
      destruct (decide (h' < h)) as [Hlt|Hge].
      + right. specialize (Hnext h Hh Hlt). apply Z.div_le_mono; unfold PAGE_SIZE; lia.
      + left. apply Z.div_le_mono; unfold PAGE_SIZE, BUF_HDR; [lia|].
        destruct (decide (h' = h)) as [->|Hne]; [lia|].
        destruct (spaced_split _ h (mo_spaced _ _ Hok) Hh) as (l1 & l2 & E & _ & _ & H1 & H2).
        rewrite E, elem_of_app, elem_of_cons in Hh'. unfold BUF_HDR in *.
        destruct Hh' as [?%H1|[->|?%H2]]; lia. }
  unfold header_mapped. rewrite !bool_decide_eq_true_2; [done|..]; apply Hp; unfold BUF_HDR; lia.
Qed.

Lemma get_buf_ok h b : a_headers a !! h = Some b → get_buf h a = Ret b a.
Proof.
  intros Hb. assert (h ∈ a_list a) by (apply (mo_headers _ _ Hok); eauto).
  unfold get_buf, bind, getst. by rewrite header_mapped_ok, Hb by done.
Qed.

Lemma put_buf_ok h b f :
  a_headers a !! h = Some b → put_buf h f a = Ret tt (set_a_headers (<[h := f b]>) a).
Proof. intros Hb. unfold put_buf, bind. by rewrite (get_buf_ok h b). Qed.

Lemma header_is_Some h : h ∈ a_list a → ∃ b, a_headers a !! h = Some b.
Proof. apply (mo_headers _ _ Hok). Qed.

Lemma buf_next_ok h :
  h ∈ a_list a → ∃ o, buf_next h a = Ret o a ∧ next_in (a_list a) h = Some o.
Proof.
  intros Hh. destruct (header_is_Some h Hh) as [b Hb].
  destruct (spaced_split _ _ (mo_spaced _ _ Hok) Hh) as (l1 & l2 & E & Hn & _).
  exists (head l2). unfold buf_next, bind, getst. rewrite (get_buf_ok h b) by done.
  rewrite E, next_in_mid by done. done.
Qed.

Lemma binder_buffer_size_ok h : h ∈ a_list a → binder_buffer_size h a = Ret (csize a h) a.
Proof.
  intros Hh. destruct (buf_next_ok h Hh) as (o & Ho & Hn).
  destruct (cend_bounds h Hh) as [Hb _]. destruct (mo_in _ _ Hok h Hh) as (Hl & _).
  pose proof (mo_top _ _ Hok). pose proof (mo_base _ _ Hok).
  unfold binder_buffer_size, bind, getst. rewrite Ho. unfold ret, csize, cend, chunk_end in *.
  rewrite Hn in *. unfold area_end, PAGE_SIZE, BUF_HDR in *.
  destruct o; f_equal; apply u32_small; lia.
Qed.

Lemma csize_nonneg h : h ∈ a_list a → 0 ≤ csize a h < 2 ^ 32.
Proof.
  intros Hh. destruct (cend_bounds h Hh) as [Hb _]. destruct (mo_in _ _ Hok h Hh) as (Hl & _).
  pose proof (mo_top _ _ Hok). pose proof (mo_base _ _ Hok).
  unfold csize, PAGE_SIZE, BUF_HDR in *. lia.
Qed.
End mem_ok.

(** ** Backing and releasing ranges of pages *)

(** The indices [lo, lo+1, ..., hi-1]. *)
Definition page_set (lo hi : Z) : gset Z := list_to_set (seqZ lo (hi - lo)).

Lemma elem_of_page_set lo hi i : i ∈ page_set lo hi ↔ lo ≤ i < hi.
Proof. unfold page_set. rewrite elem_of_list_to_set, elem_of_seqZ. lia. Qed.

Lemma page_index_add a x k : page_index a (x + k * PAGE_SIZE) = page_index a x + k.
Proof. unfold page_index, PAGE_SIZE. rewrite <-Z.div_add by lia. f_equal. lia. Qed.
Lemma page_index_sub1 a x : page_index a (x - PAGE_SIZE) = page_index a x - 1.
Proof. replace (x - PAGE_SIZE) with (x + (-1) * PAGE_SIZE) by lia. rewrite page_index_add. lia. Qed.
Lemma page_index_add1 a x : page_index a (x + PAGE_SIZE) = page_index a x + 1.
Proof. replace (x + PAGE_SIZE) with (x + 1 * PAGE_SIZE) by lia. by rewrite page_index_add. Qed.

Lemma set_a_pages_index f a x : page_index (set_a_pages f a) x = page_index a x.
Proof. done. Qed.
Lemma set_a_pages_id f a : f (a_pages a) = a_pages a → set_a_pages f a = a.
Proof. intros E. destruct a; unfold set_a_pages; simpl in *. by rewrite E. Qed.
Lemma set_a_pages_set_a_pages f g a : set_a_pages f (set_a_pages g a) = set_a_pages (λ p, f (g p)) a.
Proof. done. Qed.
Lemma set_a_pages_ext f g a : f (a_pages a) = g (a_pages a) → set_a_pages f a = set_a_pages g a.
Proof. unfold set_a_pages. by intros ->. Qed.

(** Decides equations between sets of pages. *)
Ltac page_sets :=
  apply set_eq; intros ?i;
  repeat rewrite ?elem_of_difference, ?elem_of_union, ?elem_of_singleton, ?elem_of_page_set;
  intuition lia.

Lemma free_one_page_ok addr a :
  page_index a addr ∈ a_pages a →
  free_one_page addr a = Ret tt (set_a_pages (λ p, p ∖ {[page_index a addr]}) a).
Proof. intros. unfold free_one_page, bind, getst. by rewrite decide_True. Qed.

Lemma unmap_pages_ok n addr a :
  let hi := page_index a addr + 1 in
  (∀ i, hi - Z.of_nat n ≤ i < hi → i ∈ a_pages a) →
  unmap_pages n addr a = Ret tt (set_a_pages (λ p, p ∖ page_set (hi - Z.of_nat n) hi) a).
Proof.
  revert addr a. induction n as [|n IH]; intros addr a hi Hp; subst hi.
  - unfold unmap_pages, ret. f_equal. symmetry. apply set_a_pages_id. page_sets.
  - simpl. unfold bind at 1. rewrite free_one_page_ok by (apply Hp; lia). cbv beta.
    rewrite IH; rewrite set_a_pages_index, page_index_sub1.
    + f_equal. rewrite set_a_pages_set_a_pages. apply set_a_pages_ext. page_sets.
    + intros i Hi. simpl. apply elem_of_difference. split; [apply Hp; lia|rewrite elem_of_singleton; lia].
Qed.

(** The backing loop: it stops at the first page that cannot be backed. *)
Lemma map_pages_ok env n addr a :
  let lo := page_index a addr in
  (∀ i, lo ≤ i < lo + Z.of_nat n → i ∉ a_pages a) →
  (map_pages env n addr a = Ret None (set_a_pages (λ p, p ∪ page_set lo (lo + Z.of_nat n)) a) ∧
   ∀ k, 0 ≤ k < Z.of_nat n → mm_page env (addr + k * PAGE_SIZE) = PageOk) ∨
  (∃ k r, 0 ≤ k < Z.of_nat n ∧ r ≠ PageOk ∧ mm_page env (addr + k * PAGE_SIZE) = r ∧
    map_pages env n addr a =
      Ret (Some (addr + k * PAGE_SIZE, r))
          (set_a_pages (λ p, p ∪ page_set lo (lo + k + match r with PageNoMem => 0 | _ => 1 end)) a)).
Proof.
  revert addr a. induction n as [|n IH]; intros addr a lo Hp; subst lo; simpl.
  { left. split; [|lia]. unfold ret. f_equal. symmetry. apply set_a_pages_id. page_sets. }
  assert (page_index a addr ∉ a_pages a) as Hn by (apply Hp; lia).
  set (m := bind _ _).
  assert (m a = match mm_page env addr with
                | PageNoMem => Ret (Some (addr, PageNoMem)) a
                | PageOk => map_pages env n (addr + PAGE_SIZE) (set_a_pages (λ p, {[page_index a addr]} ∪ p) a)
                | r => Ret (Some (addr, r)) (set_a_pages (λ p, {[page_index a addr]} ∪ p) a)
                end) as ->.
  { subst m. unfold bind, getst, bug_on. rewrite bool_decide_eq_false_2 by done.
    by destruct (mm_page env addr). }
  clear m. destruct (mm_page env addr) eqn:Hr.
  2-4: right; exists 0; eexists; rewrite !Z.add_0_r; split_and!; [lia|lia| |exact Hr|]; [done|f_equal].
  2: symmetry; apply set_a_pages_id; page_sets.
  2-3: apply set_a_pages_ext; page_sets.
  specialize (IH (addr + PAGE_SIZE) (set_a_pages (λ p, {[page_index a addr]} ∪ p) a)).
  cbv zeta in IH. rewrite set_a_pages_index, page_index_add1 in IH.
  destruct IH as [[E Hok]|(k & r & Hk & Hne & Hr' & E)].
  { intros i Hi. simpl. rewrite elem_of_union, elem_of_singleton.
    intros [->|Hi']; [lia|]. apply (Hp i); [lia|done]. }
  - left. rewrite E, set_a_pages_set_a_pages. split.
    + f_equal. apply set_a_pages_ext. page_sets.
    + intros k Hk. destruct (decide (k = 0)) as [->|]; [by rewrite Z.add_0_r|].
      rewrite <-(Hok (k - 1)) by lia. f_equal. lia.
  - right. exists (k + 1), r. split_and!; [lia..|done| |].
    + rewrite <-Hr'. f_equal. lia.
    + replace (addr + (k + 1) * PAGE_SIZE) with (addr + PAGE_SIZE + k * PAGE_SIZE) by lia.
      rewrite E, set_a_pages_set_a_pages. f_equal. apply set_a_pages_ext. destruct r; page_sets.
Qed.

(** The error path of the backing loop: when it failed at page number [k] of the
    range, the jump into the releasing loop takes back what was backed. *)
Lemma rollback_ok s k r a :
  0 ≤ k → r ≠ PageOk →
  (∀ i, page_index a s ≤ i ≤ page_index a s + k → i ∉ a_pages a) →
  ∃ a1,
    (match r with PageNoMem => ret tt | _ => free_one_page (s + k * PAGE_SIZE) end)
      (set_a_pages (λ p, p ∪ page_set (page_index a s)
         (page_index a s + k + match r with PageNoMem => 0 | _ => 1 end)) a) = Ret tt a1 ∧
    unmap_pages (Z.to_nat ((s + k * PAGE_SIZE - s) / PAGE_SIZE)) (s + k * PAGE_SIZE - PAGE_SIZE) a1 = Ret tt a.
Proof.
  intros Hk Hr Hp. exists (set_a_pages (λ p, p ∪ page_set (page_index a s) (page_index a s + k)) a). split.
  - destruct r; [done|by rewrite Z.add_0_r|..]; rewrite free_one_page_ok;
      rewrite set_a_pages_index, page_index_add; simpl;
      try (rewrite elem_of_union, elem_of_page_set; right; lia);
      f_equal; rewrite set_a_pages_set_a_pages; apply set_a_pages_ext;
      pose proof (Hp (page_index a s + k) ltac:(lia)) as Hn; apply set_eq; intros i;
      rewrite elem_of_difference, !elem_of_union, elem_of_singleton, !elem_of_page_set;
      destruct (decide (i = page_index a s + k)) as [->|]; intuition lia.
  - replace ((s + k * PAGE_SIZE - s) / PAGE_SIZE) with k
      by (rewrite Z.add_simpl_l, Z.div_mul; [done|unfold PAGE_SIZE; lia]).
    rewrite unmap_pages_ok; rewrite set_a_pages_index, page_index_sub1, page_index_add, Z2Nat.id by lia.
    + f_equal. rewrite set_a_pages_set_a_pages. apply set_a_pages_id. apply set_eq. intros i.
      rewrite elem_of_difference, elem_of_union, !elem_of_page_set. split; [intuition lia|].
      intros Hin. split; [by left|]. intros ?. apply (Hp i); [lia|done].
    + intros i ?. simpl. rewrite elem_of_union, elem_of_page_set. right. lia.
Qed.

Section update_page_range.
Context (env : mm_env) (s e : Z) (v : bool) (a : balloc).
Context (Hal : (e - s) mod PAGE_SIZE = 0).

Lemma range_index n : s ≤ e → (e - s) / PAGE_SIZE = n → e = s + n * PAGE_SIZE ∧ page_index a e = page_index a s + n.
Proof using Hal.
  intros ? Hn. assert (e = s + n * PAGE_SIZE) as ->; [|split; [done|apply page_index_add]].
  unfold PAGE_SIZE in *. pose proof (Z.div_mod (e - s) 4096). lia.
Qed.

(** Releasing a range that is backed. *)
Lemma update_free_ok :
  (∀ i, page_index a s ≤ i < page_index a e → i ∈ a_pages a) →
  ∃ r, binder_update_page_range env false s e v a =
         Ret r (set_a_pages (λ p, p ∖ page_set (page_index a s) (page_index a e)) a).
Proof using Hal.
  intros Hp. unfold binder_update_page_range. case_decide as Hse.
  - exists 0. unfold ret. f_equal. symmetry. apply set_a_pages_id.
    assert (page_index a e ≤ page_index a s) by (apply Z.div_le_mono; unfold PAGE_SIZE; lia). page_sets.
  - destruct (range_index _ ltac:(lia) eq_refl) as [He Hi].
    assert (0 < (e - s) / PAGE_SIZE) by (unfold PAGE_SIZE in *; pose proof (Z.div_mod (e - s) 4096); lia).
    exists (- ENOMEM). unfold bind, getst.
    rewrite unmap_pages_ok; rewrite page_index_sub1, Z2Nat.id by lia.
    + unfold ret. f_equal. apply set_a_pages_ext. page_sets.
    + intros i ?. apply Hp. lia.
Qed.

(** Backing can succeed: there is a mapping, and memory for each page. *)
Definition backing_ok : Prop :=
  e ≤ s ∨ (v = true ∨ (mm_alive env = true ∧ a_vma a = true)) ∧
          ∀ k, 0 ≤ k < (e - s) / PAGE_SIZE → mm_page env (s + k * PAGE_SIZE) = PageOk.

(** Backing a range no page of which is backed: all of it, or nothing. *)
Lemma update_alloc_ok :
  (∀ i, page_index a s ≤ i < page_index a e → i ∉ a_pages a) →
  (backing_ok ∧ binder_update_page_range env true s e v a =
     Ret 0 (set_a_pages (λ p, p ∪ page_set (page_index a s) (page_index a e)) a)) ∨
  (¬ backing_ok ∧ binder_update_page_range env true s e v a = Ret (- ENOMEM) a).
Proof using Hal.
  intros Hp. unfold binder_update_page_range, backing_ok. case_decide as Hse.
  { left. split; [by left|]. unfold ret. f_equal. symmetry. apply set_a_pages_id.
    assert (page_index a e ≤ page_index a s) by (apply Z.div_le_mono; unfold PAGE_SIZE; lia). page_sets. }
  destruct (range_index _ ltac:(lia) eq_refl) as [He Hi].
  assert (0 < (e - s) / PAGE_SIZE) by (unfold PAGE_SIZE in *; pose proof (Z.div_mod (e - s) 4096); lia).
  assert ((e - s + (PAGE_SIZE - 1)) / PAGE_SIZE = (e - s) / PAGE_SIZE) as Hup.
  { replace (e - s + (PAGE_SIZE - 1)) with ((e - s) / PAGE_SIZE * PAGE_SIZE + 4095) by (unfold PAGE_SIZE in *; lia).
    rewrite Z.div_add_l by done. apply Z.add_0_r. }
  run. destruct (negb _) eqn:Hv.
  { right. split; [|reflexivity]. intros [?|[Hv' _]]; [lia|].
    destruct v, (mm_alive env), (a_vma a), Hv' as [?|[??]]; done. }
  rewrite Hup.
  destruct (map_pages_ok env (Z.to_nat ((e - s) / PAGE_SIZE)) s a) as [[E Hok]|(k & r & Hk & Hne & Hr & E)];
    rewrite ?Z2Nat.id in * by lia; [intros i ?; apply Hp; lia|..]; rewrite !(bind_of _ E); clear E.
  - left. split.
    + right. split; [|done]. destruct v, (mm_alive env), (a_vma a); by auto.
    + unfold ret. f_equal. apply set_a_pages_ext. page_sets.
  - right. split.
    { intros [?|[_ Hall]]; [lia|]. by rewrite Hall in Hr by lia. }
    destruct (rollback_ok s k r a) as (a1 & E1 & E2); [lia|done|intros i ?; apply Hp; lia|].
    by rewrite (bind_of _ E1), (bind_of _ E2).
Qed.
End update_page_range.
