(* ===== verification/BinderAllocWf.v ===== *)
(** * Well-formed allocators

    The invariant [wf] of the buffer allocator, and what each of its tree and
    list primitives does to a well-formed state. *)

From Stdlib Require Import ZArith Lia.
From stdpp Require Import base tactics list sets gmap sorting.
From S2P Require Import Prelude Rbtree BinderAlloc BinderAllocShape.

Definition is_free (a : balloc) (h : Z) : Prop := ∃ b, a_headers a !! h = Some b ∧ b_free b = true.
Definition is_used (a : balloc) (h : Z) : Prop := ∃ b, a_headers a !! h = Some b ∧ b_free b = false.

(** Only the gaps of free chunks are not backed. *)
Definition hole (a : balloc) (h i : Z) : Prop := is_free a h ∧ in_gap a h i.

Definition round4 (x : Z) : Z := (x + 3) - (x + 3) mod 4.
(** The bytes the contents of a buffer take in its chunk. *)
Definition need (b : buffer) : Z := round4 (b_data_size b) + round4 (b_offsets_size b).

Definition fits (a : balloc) (h : Z) (b : buffer) : Prop :=
  0 ≤ b_data_size b ∧ 0 ≤ b_offsets_size b ∧ need b ≤ csize a h.

(** What a buffer takes from the space for asynchronous transactions. *)
Definition async_cost (b : buffer) : Z :=
  if b_free b then 0 else if b_async_transaction b then need b + BUF_HDR else 0.
Definition header_cost (a : balloc) (h : Z) : Z :=
  match a_headers a !! h with Some b => async_cost b | None => 0 end.
Definition zsum (f : Z → Z) (l : list Z) : Z := foldr (λ x acc, f x + acc) 0 l.
Definition async_used (a : balloc) : Z := zsum (header_cost a) (a_list a).

Definition free_tree_ok (a : balloc) (P : Z → Prop) (t : rbtree) : Prop :=
  NoDup (rb_inorder t) ∧ (∀ h, h ∈ rb_inorder t ↔ P h) ∧
  StronglySorted (λ x y, csize a x ≤ csize a y) (rb_inorder t).
Definition used_tree_ok (P : Z → Prop) (t : rbtree) : Prop :=
  (∀ h, h ∈ rb_inorder t ↔ P h) ∧ StronglySorted Z.lt (rb_inorder t).

Record wf (a : balloc) : Prop := {
  wf_mem : mem_ok (hole a) a;
  wf_free : free_tree_ok a (is_free a) (a_free_buffers a);
  wf_used : used_tree_ok (is_used a) (a_allocated_buffers a);
  wf_fits : ∀ h b, a_headers a !! h = Some b → b_free b = false → fits a h b;
  (** two free chunks never touch *)
  wf_coalesced : ∀ h, is_free a h → is_free a (cend a h) → False;
  wf_async : 0 ≤ a_free_async_space a ∧
             a_free_async_space a + async_used a = a_buffer_size a / 2
}.

(** ** Sums over the headers *)

Lemma zsum_app f l1 l2 : zsum f (l1 ++ l2) = zsum f l1 + zsum f l2.
Proof. unfold zsum. induction l1; simpl in *; lia. Qed.
Lemma zsum_ext f g l : (∀ x, x ∈ l → f x = g x) → zsum f l = zsum g l.
Proof.
  unfold zsum. induction l as [|x l IH]; simpl; intros Hfg; [done|].
  rewrite (Hfg x), IH by set_solver. done.
Qed.

Lemma round4_bounds x : x ≤ round4 x < x + 4 ∧ round4 x mod 4 = 0.
Proof. unfold round4. divmod_lia. Qed.

(** The check [size < data_size || size < offsets_size] of the driver catches
    every overflow of the computation of [size]. *)
Lemma buffer_need_exact ds os :
  0 ≤ ds < 2 ^ 32 → 0 ≤ os < 2 ^ 32 →
  ds ≤ buffer_need ds os → os ≤ buffer_need ds os →
  buffer_need ds os = round4 ds + round4 os.
Proof.
  intros Hd Ho. unfold buffer_need, PTR_SIZE.
  pose proof (ALIGN4_spec ds Hd) as Ed. pose proof (ALIGN4_spec os Ho) as Eo.
  pose proof (round4_bounds ds). pose proof (round4_bounds os).
  fold (round4 ds) in Ed. fold (round4 os) in Eo.
  assert (Hle : ∀ x, x ≤ 2 ^ 32 - 4 → round4 x ≤ 2 ^ 32 - 4) by (intros; unfold round4; divmod_lia).
  case_decide; case_decide; rewrite Ed, Eo; clear Ed Eo; unfold u32.
  - destruct (decide (round4 ds + round4 os < 2 ^ 32)); intros; [apply Z.mod_small; lia|].
    assert ((round4 ds + round4 os) mod 2 ^ 32 = round4 ds + round4 os - 2 ^ 32) as E;
      [symmetry; apply (Z.mod_unique_pos _ _ 1); pose proof (Hle ds); pose proof (Hle os); lia|].
    rewrite E in *. specialize (Hle ds). lia.
  - specialize (Hle os ltac:(lia)). rewrite Z.mod_small by lia. lia.
  - specialize (Hle ds ltac:(lia)). rewrite Z.mod_small by lia. lia.
  - simpl. rewrite Z.mod_0_l by done. lia.
Qed.

Lemma buffer_need_small ds os :
  0 ≤ ds → 0 ≤ os → round4 ds + round4 os < 2 ^ 32 → buffer_need ds os = round4 ds + round4 os.
Proof.
  intros Hd Ho Hs. pose proof (round4_bounds ds). pose proof (round4_bounds os).
  unfold buffer_need, PTR_SIZE.
  pose proof (ALIGN4_spec ds ltac:(lia)) as Ed. pose proof (ALIGN4_spec os ltac:(lia)) as Eo.
  fold (round4 ds) in Ed. fold (round4 os) in Eo.
  rewrite decide_True in Ed by divmod_lia. rewrite decide_True in Eo by divmod_lia.
  rewrite Ed, Eo. apply u32_small. lia.
Qed.

(** ** The trees *)

Lemma set_free_mem_ok H t a : mem_ok H a → mem_ok H (set_a_free_buffers t a).
Proof. by intros []. Qed.
Lemma set_used_mem_ok H t a : mem_ok H a → mem_ok H (set_a_allocated_buffers t a).
Proof. by intros []. Qed.

Lemma is_free_in H a h : mem_ok H a → is_free a h → h ∈ a_list a.
Proof. intros Hok (b & Hb & _). apply (mo_headers _ _ Hok). eauto. Qed.
Lemma is_used_in H a h : mem_ok H a → is_used a h → h ∈ a_list a.
Proof. intros Hok (b & Hb & _). apply (mo_headers _ _ Hok). eauto. Qed.

Section trees.
Context `{RbKernel}.
Context (H0 : Z → Z → Prop) (a : balloc) (Hok : mem_ok H0 a).

Lemma free_tree_erase P t x :
  free_tree_ok a P t → P x → free_tree_ok a (λ h, P h ∧ h ≠ x) (rb_erase x t).
Proof using.
  intros (Hnd & Hin & Hs) Hx. unfold free_tree_ok.
  rewrite rb_erase_inorder by (try apply Hin; done). split_and!.
  - by apply NoDup_filter.
  - intros h. rewrite list_elem_of_filter, Hin. tauto.
  - by apply StronglySorted_filter.
Qed.

Lemma used_tree_erase P t x :
  used_tree_ok P t → P x → used_tree_ok (λ h, P h ∧ h ≠ x) (rb_erase x t).
Proof using.
  intros (Hin & Hs) Hx. unfold used_tree_ok.
  assert (NoDup (rb_inorder t)) as Hnd by by apply Zlt_sorted_NoDup.
  rewrite rb_erase_inorder by (try apply Hin; done). split.
  - intros h. rewrite list_elem_of_filter, Hin. tauto.
  - by apply StronglySorted_filter.
Qed.

(** [binder_insert_free_buffer] files a free chunk under its size. *)
Lemma insert_free_ok P n :
  free_tree_ok a P (a_free_buffers a) → (∀ h, P h → is_free a h) →
  is_free a n → ¬ P n →
  ∃ t, binder_insert_free_buffer n a = Ret tt (set_a_free_buffers t a) ∧
       free_tree_ok a (λ h, h = n ∨ P h) t.
Proof using Hok.
  intros (Hnd & Hin & Hs) HP (nb & Hn & Hnf) HPn.
  assert (n ∈ a_list a) as Hnl by (apply (mo_headers _ _ Hok); eauto).
  unfold binder_insert_free_buffer.
  rewrite (bind_of _ (get_buf_ok _ _ Hok n nb Hn)), bind_bug_on by (by rewrite Hnf).
  rewrite (bind_of _ (binder_buffer_size_ok _ _ Hok n Hnl)). run.
  edestruct (rb_link_spec (λ b, h <- get_buf b ;; bug_on (negb (b_free h)) ;;;
      buffer_size <- binder_buffer_size b ;; ret (bool_decide (csize a n < buffer_size)))
    (λ x, bool_decide (csize a n < csize a x)) n (a_free_buffers a) a) as (t & Ht & Hins).
  { intros x Hx. apply Hin, HP in Hx as (b & Hb & Hf).
    rewrite (bind_of _ (get_buf_ok _ _ Hok x b Hb)), bind_bug_on by (by rewrite Hf).
    rewrite (bind_of _ (binder_buffer_size_ok _ _ Hok x ltac:(apply (mo_headers _ _ Hok); eauto))). done. }
  { eapply StronglySorted_mono; [exact Hs|]. simpl. intros x y _ _ ?. rewrite !bool_decide_eq_true. lia. }
  rewrite (bind_of _ Ht). eexists. split; [reflexivity|].
  unfold free_tree_ok. rewrite rb_insert_color_inorder. split_and!.
  - rewrite (inserted_at_perm _ _ _ _ Hins). constructor; [by rewrite Hin|done].
  - intros h. by rewrite (inserted_at_elem _ _ _ _ Hins), Hin.
  - eapply (inserted_at_sorted _ _ _ _ Hins); [intros ???; lia|done|..];
      intros y _; rewrite ?bool_decide_eq_true, ?bool_decide_eq_false; lia.
Qed.

(** [binder_insert_allocated_buffer] files a chunk in use under its address. *)
Lemma insert_used_ok P n :
  used_tree_ok P (a_allocated_buffers a) → (∀ h, P h → is_used a h) →
  is_used a n → ¬ P n →
  ∃ t, binder_insert_allocated_buffer n a = Ret tt (set_a_allocated_buffers t a) ∧
       used_tree_ok (λ h, h = n ∨ P h) t.
Proof using Hok.
  intros (Hin & Hs) HP (nb & Hn & Hnf) HPn. unfold binder_insert_allocated_buffer.
  rewrite (bind_of _ (get_buf_ok _ _ Hok n nb Hn)), bind_bug_on by done. run.
  edestruct (rb_link_spec (λ b, h <- get_buf b ;; bug_on (b_free h) ;;;
      if decide (n < b) then ret true else if decide (n > b) then ret false else crash_with CrashBug)
    (λ x, bool_decide (n < x)) n (a_allocated_buffers a) a) as (t & Ht & Hins).
  { intros x Hx. apply Hin in Hx. assert (x ≠ n) by congruence. apply HP in Hx as (b & Hb & Hf).
    rewrite (bind_of _ (get_buf_ok _ _ Hok x b Hb)), bind_bug_on by done.
    repeat case_decide; by try lia. }
  { eapply StronglySorted_mono; [exact Hs|]. simpl. intros x y _ _ ?. rewrite !bool_decide_eq_true. lia. }
  rewrite (bind_of _ Ht). eexists. split; [reflexivity|].
  unfold used_tree_ok. rewrite rb_insert_color_inorder. split.
  - intros h. by rewrite (inserted_at_elem _ _ _ _ Hins), Hin.
  - eapply (inserted_at_sorted _ _ _ _ Hins); [intros ???; lia|done|..].
    + intros y _. by rewrite bool_decide_eq_true.
    + intros y Hy. rewrite bool_decide_eq_false. assert (y ≠ n) by naive_solver. lia.
Qed.

(** The search of [binder_alloc_buf] finds an exact fit, or else the smallest
    chunk that is large enough, or else there is none. *)
Lemma best_fit_ok size t best :
  (∀ h, h ∈ rb_inorder t → is_free a h) →
  StronglySorted (λ x y, csize a x ≤ csize a y) (rb_inorder t) →
  ∃ r, best_fit size t best a = Ret r a ∧
    ((∃ h, r = (Some h, true) ∧ h ∈ rb_inorder t ∧ csize a h = size) ∨
     (∃ h, r = (Some h, false) ∧ h ∈ rb_inorder t ∧ size < csize a h ∧
        ∀ h', h' ∈ rb_inorder t → size ≤ csize a h' → csize a h ≤ csize a h') ∨
     (r = (best, false) ∧ ∀ h', h' ∈ rb_inorder t → csize a h' < size)).
Proof using Hok.
  revert best. induction t as [|l IHl b r IHr]; intros best Hf Hs; simpl in *.
  { eexists. split; [reflexivity|]. right; right. split; [done|set_solver]. }
  destruct (Hf b) as (hb & Hb & Hbf); [set_solver|].
  rewrite (bind_of _ (get_buf_ok _ _ Hok b hb Hb)), bind_bug_on by (by rewrite Hbf).
  rewrite (bind_of _ (binder_buffer_size_ok _ _ Hok b ltac:(apply (mo_headers _ _ Hok); eauto))).
  apply StronglySorted_app in Hs as (Hlr & Hsl & [Hsr Hbr]%StronglySorted_inv).
  rewrite Forall_forall in Hbr.
  assert (∀ x, x ∈ rb_inorder l → csize a x ≤ csize a b) as Hlb by (intros; apply Hlr; set_solver).
  setoid_rewrite elem_of_app. setoid_rewrite elem_of_cons.
  repeat case_decide.
  - destruct (IHl (Some b)) as (r' & E & Hr'); [set_solver|done|]. exists r'. split; [exact E|].
    destruct Hr' as [(h & -> & Hh & ?)|[(h & -> & Hh & ? & Hmin)|(-> & Hno)]].
    + left. exists h. auto.
    + right; left. exists h. split_and!; [done|by left|done|].
      intros h' [?|[->|Hh']] ?; [by apply Hmin|by apply Hlb|]. specialize (Hlb h Hh). specialize (Hbr h' Hh'). lia.
    + right; left. exists b. split_and!; [done|auto|done|].
      intros h' [Hh'|[->|Hh']] ?; [specialize (Hno h' Hh'); lia|done|by apply Hbr].
  - destruct (IHr best) as (r' & E & Hr'); [set_solver|done|]. exists r'. split; [exact E|].
    destruct Hr' as [(h & -> & Hh & ?)|[(h & -> & Hh & ? & Hmin)|(-> & Hno)]].
    + left. exists h. auto.
    + right; left. exists h. split_and!; [done|by auto|done|].
      intros h' [Hh'|[->|Hh']] ?; [specialize (Hlb h' Hh'); lia|lia|by apply Hmin].
    + right; right. split; [done|].
      intros h' [Hh'|[->|Hh']]; [specialize (Hlb h' Hh'); lia|lia|by apply Hno].
  - eexists. split; [reflexivity|]. left. exists b. split_and!; [done|by auto|lia].
Qed.
End trees.
