(* ===== verification/BinderAllocStep.v ===== *)
(** * What the allocator's updates do to the shape of the area

    Backing and releasing pages of a chunk, rewriting a header, cutting a chunk
    in two and joining two chunks: each preserves [mem_ok], for the set of holes
    it leaves. *)

From Stdlib Require Import ZArith Lia.
From stdpp Require Import base tactics list sets gmap sorting.
From S2P Require Import Prelude Rbtree BinderAlloc BinderAllocShape BinderAllocWf.

Definition page_count (a : balloc) : Z := a_buffer_size a / PAGE_SIZE.

(** The page an address lies in, as a number. *)
Lemma page_index_mono a x y : x ≤ y → page_index a x ≤ page_index a y.
Proof. intros. apply Z.div_le_mono; [done|lia]. Qed.

Section page_bounds.
Context (H : Z → Z → Prop) (a : balloc) (Hok : mem_ok H a).

(** [PAGE_ALIGN] goes to the first page after the byte before its argument. *)
Lemma page_index_PAGE_ALIGN x :
  a_buffer a < x ≤ area_end a →
  page_index a (PAGE_ALIGN x) = page_index a (x - 1) + 1 ∧ PAGE_ALIGN x mod PAGE_SIZE = 0.
Proof using Hok.
  intros Hx. destruct (mo_base _ _ Hok). pose proof (mo_top _ _ Hok).
  rewrite PAGE_ALIGN_spec by (unfold PAGE_SIZE, area_end in *; lia).
  unfold page_index. split; divmod_lia.
Qed.

Lemma page_index_page_mask x :
  a_buffer a ≤ x ≤ area_end a →
  page_index a (page_mask x) = page_index a x ∧ page_mask x mod PAGE_SIZE = 0.
Proof using Hok.
  intros Hx. destruct (mo_base _ _ Hok). pose proof (mo_top _ _ Hok).
  rewrite page_mask_spec by (unfold PAGE_SIZE, area_end in *; lia).
  unfold page_index. split; divmod_lia.
Qed.

Lemma page_index_range x : a_buffer a ≤ x < area_end a → 0 ≤ page_index a x < page_count a.
Proof using Hok.
  intros Hx. destruct (mo_base _ _ Hok), (mo_size _ _ Hok).
  unfold page_index, page_count, area_end in *. divmod_lia.
Qed.

Lemma chunk_bounds h :
  h ∈ a_list a → a_buffer a ≤ h ∧ h + BUF_HDR ≤ cend a h ≤ area_end a.
Proof using Hok.
  intros Hh. destruct (mo_in _ _ Hok h Hh). by destruct (cend_bounds _ _ Hok h Hh).
Qed.

Lemma in_gap_range h i : h ∈ a_list a → in_gap a h i → 0 ≤ i < page_count a.
Proof using Hok.
  intros Hh [H1 H2]. destruct (chunk_bounds h Hh) as [Hb He].
  destruct (page_index_range h); [unfold BUF_HDR in *; lia|].
  pose proof (page_index_mono a h (h + BUF_HDR - 1) ltac:(unfold BUF_HDR; lia)).
  pose proof (page_index_mono a (cend a h) (area_end a) ltac:(lia)).
  assert (page_index a (area_end a) = page_count a); [|lia].
  unfold page_index, page_count, area_end. f_equal. lia.
Qed.

(** The gaps of different chunks are disjoint. *)
Lemma in_gap_unique h h' i :
  h ∈ a_list a → h' ∈ a_list a → in_gap a h i → in_gap a h' i → h = h'.
Proof using Hok.
  assert (∀ x y, x ∈ a_list a → y ∈ a_list a → x < y → in_gap a x i → in_gap a y i → False) as Hlt.
  { intros x y Hx Hy Hxy [_ H2] [H3 _]. destruct (cend_bounds _ _ Hok x Hx) as [_ Hn].
    specialize (Hn y Hy Hxy). pose proof (page_index_mono a (cend a x) (y + BUF_HDR - 1)).
    unfold BUF_HDR in *. lia. }
  intros Hh Hh' Hg Hg'. destruct (Z.lt_trichotomy h h') as [?|[->|?]]; [exfalso; eauto|done|exfalso; eauto].
Qed.

(** The pages of a chunk without holes are backed. *)
Lemma gap_backed h i :
  h ∈ a_list a → in_gap a h i → ¬ H h i → i ∈ a_pages a.
Proof using Hok.
  intros Hh Hg Hn. apply (mo_pages _ _ Hok). split; [by apply (in_gap_range h)|].
  intros h' Hh' HH. pose proof (mo_gap _ _ Hok h' i Hh' HH) as Hg'.
  by rewrite (in_gap_unique h h' i Hh Hh' Hg Hg') in Hn.
Qed.

Lemma gap_not_backed h i : h ∈ a_list a → H h i → i ∉ a_pages a.
Proof using Hok. intros Hh HH [_ Hi]%(mo_pages _ _ Hok). by apply (Hi h). Qed.
End page_bounds.

(** ** Updates that keep the list *)

Lemma mem_ok_ext H H' a :
  (∀ h i, h ∈ a_list a → H h i ↔ H' h i) → mem_ok H a → mem_ok H' a.
Proof.
  intros HH []. split; try done.
  - intros i. rewrite mo_pages. apply and_iff_compat_l.
    split; intros Hx h Hh HHh; apply (Hx h Hh), HH; done.
  - intros h i Hh. rewrite <-HH by done. auto.
Qed.

Lemma mem_ok_async H n a : mem_ok H a → mem_ok H (set_a_free_async_space n a).
Proof. by intros []. Qed.

Lemma mem_ok_header H h f a :
  h ∈ a_list a → mem_ok H a → mem_ok H (set_a_headers (<[h := f]>) a).
Proof.
  intros Hh []. split; try done. intros x. simpl. rewrite <-mo_headers.
  destruct (decide (h = x)) as [->|]; [|by rewrite lookup_insert_ne].
  rewrite lookup_insert, decide_True by done. split; [intros; by apply mo_headers|eauto].
Qed.

Lemma mem_ok_map H lo hi a :
  (∀ i, lo ≤ i < hi → 0 ≤ i < page_count a) →
  mem_ok H a →
  mem_ok (λ h i, H h i ∧ ¬ (lo ≤ i < hi)) (set_a_pages (λ p, p ∪ page_set lo hi) a).
Proof.
  intros Hr []. split; try done.
  - intros i. simpl. rewrite elem_of_union, elem_of_page_set, mo_pages. split.
    + intros [[? Hx]|Hi]; split; [done|naive_solver|by apply Hr|naive_solver].
    + intros [? Hx]. destruct (decide (lo ≤ i < hi)); [by right|left]. naive_solver.
  - intros h i Hh [HH _]. by apply mo_gap.
Qed.

Lemma mem_ok_unmap H b lo hi a :
  b ∈ a_list a → (∀ i, lo ≤ i < hi → in_gap a b i) →
  mem_ok H a →
  mem_ok (λ h i, H h i ∨ h = b ∧ lo ≤ i < hi) (set_a_pages (λ p, p ∖ page_set lo hi) a).
Proof.
  intros Hb Hr []. split; try done.
  - intros i. simpl. rewrite elem_of_difference, elem_of_page_set, mo_pages. naive_solver.
  - intros h i Hh [HH|[-> Hi]]; [by apply mo_gap|by apply Hr].
Qed.

(** ** Cutting a chunk *)

Section split.
Context (H : Z → Z → Prop) (a : balloc) (Hok : mem_ok H a).
Context (b n : Z) (x : buffer) (Hb : b ∈ a_list a).
Context (Hlo : b + BUF_HDR ≤ n) (Hhi : n + BUF_HDR ≤ cend a b) (Hal : n mod PTR_SIZE = 0).

Definition cut : balloc := set_a_headers (<[n := x]>) (set_a_list (insert_after b n) a).

Lemma cut_list :
  ∃ l1 l2, a_list a = l1 ++ b :: l2 ∧ a_list cut = l1 ++ b :: n :: l2 ∧ (b ∉ l1) ∧ (b ∉ l2) ∧
    (n ∉ l1) ∧ (n ∉ l2) ∧ cend a b = default (area_end a) (head l2).
Proof using All.
  destruct (spaced_split _ _ (mo_spaced _ _ Hok) Hb) as (l1 & l2 & E & H1 & H2 & H3 & H4).
  exists l1, l2. unfold cut, cend in *. simpl. rewrite E in *.
  rewrite insert_after_mid by done. rewrite chunk_end_mid in * by done.
  unfold BUF_HDR in *. split_and!; try done; [intros ?%H3; lia|].
  intros Hn. destruct (chunk_end_bounds (area_end a) (a_list a) b) as [_ Hx];
    [apply Hok|intros y Hy; by apply (mo_in _ _ Hok)|by rewrite E|].
  rewrite E in Hx. specialize (Hx n). rewrite chunk_end_mid in Hx by done.
  assert (default (area_end a) (head l2) ≤ n) by (apply Hx; [set_solver|lia]). lia.
Qed.

Lemma cut_elem h : h ∈ a_list cut ↔ h = n ∨ h ∈ a_list a.
Proof using All.
  destruct cut_list as (l1 & l2 & -> & -> & _). set_solver.
Qed.

Lemma cut_fresh : n ∉ a_list a.
Proof using All.
  destruct cut_list as (l1 & l2 & -> & _ & _ & _ & ? & ? & _). unfold BUF_HDR in *. set_solver by lia.
Qed.

Lemma cut_cend_n : cend cut n = cend a b.
Proof using All.
  destruct cut_list as (l1 & l2 & E & E' & _ & _ & ? & ? & ->). unfold cend. rewrite E'.
  replace (l1 ++ b :: n :: l2) with ((l1 ++ [b]) ++ n :: l2) by by rewrite <-(assoc_L (++)).
  apply chunk_end_mid. unfold BUF_HDR in *. set_solver by lia.
Qed.

Lemma cut_cend_b : cend cut b = n.
Proof using All.
  destruct cut_list as (l1 & l2 & E & E' & ? & _ & ? & ? & _). unfold cend. rewrite E'.
  by apply chunk_end_mid.
Qed.

Lemma cut_cend_other h : h ≠ b → h ≠ n → cend cut h = cend a h.
Proof using All.
  intros. destruct cut_list as (l1 & l2 & E & E' & _). unfold cend. rewrite E', E.
  by apply chunk_end_insert.
Qed.

Lemma cut_ok :
  (∀ i, H b i → page_index a (n + BUF_HDR - 1) < i) →
  mem_ok (λ h i, if decide (h = n) then H b i else if decide (h = b) then False else H h i) cut.
Proof using All.
  intros Hg. pose proof cut_fresh as Hfr. pose proof cut_elem as Hel.
  destruct (chunk_bounds _ _ Hok b Hb) as [Hbl Hbe]. unfold BUF_HDR in *.
  pose proof Hok as [].
  split; try done.
  - destruct cut_list as (l1 & l2 & E & E' & _). rewrite E'. rewrite E in mo_head. by destruct l1.
  - destruct cut_list as (l1 & l2 & E & E' & _ & _ & _ & _ & En). rewrite E'.
    unfold spaced in *. rewrite E in mo_spaced.
    rewrite StronglySorted_app in *. destruct mo_spaced as (S1 & S2 & [S3 S4]%StronglySorted_inv).
    rewrite Forall_forall in S4. unfold BUF_HDR in *. split_and!; [|done|].
    + intros y z Hy. rewrite !elem_of_cons. intros [->|[->|Hz]]; [apply S1; set_solver| |apply S1; set_solver].
      assert (y + 40 ≤ b) by (apply S1; set_solver). lia.
    + assert (∀ z, z ∈ l2 → n + 40 ≤ z) as Hn.
      { destruct (cend_bounds _ _ Hok b Hb) as [_ Hx]. intros z Hz.
        specialize (Hx z). rewrite E in Hx. specialize (S4 z Hz).
        assert (cend a b ≤ z) by (apply Hx; [set_solver|lia]). lia. }
      constructor; [constructor; [done|]|constructor; [lia|]]; apply Forall_forall; auto.
  - intros h [->|Hh]%Hel; [|by apply mo_in]. change (area_end cut) with (area_end a).
    change (a_buffer cut) with (a_buffer a). unfold BUF_HDR. lia.
  - intros h. rewrite Hel. simpl. destruct (decide (n = h)) as [->|].
    + rewrite lookup_insert, decide_True by done. naive_solver.
    + rewrite lookup_insert_ne by done. rewrite mo_headers. naive_solver.
  - intros i. simpl. rewrite mo_pages. apply and_iff_compat_l. split.
    + intros Hx h [->|Hh]%Hel; [rewrite decide_True by done; auto|].
      repeat case_decide; auto.
    + intros Hx h Hh HH. destruct (decide (h = b)) as [->|].
      * apply (Hx n); [apply Hel; auto|]. by rewrite decide_True.
      * apply (Hx h); [apply Hel; auto|]. rewrite !decide_False by congruence. done.
  - intros h i Hh. rewrite Hel in Hh. unfold in_gap. change (page_index cut) with (page_index a).
    case_decide; [subst|case_decide; [done|]].
    + intros HH. rewrite cut_cend_n. split; [by apply Hg|]. by apply mo_gap.
    + intros HH. rewrite cut_cend_other by done. apply mo_gap; naive_solver.
Qed.
End split.

(** ** Joining two chunks *)

Section join.
Context (a : balloc) (Hok : mem_ok (hole a) a).
Context (l1 l2 : list Z) (p b : Z) (El : a_list a = l1 ++ p :: b :: l2).

Lemma join_fresh : (b ∉ l1) ∧ b ≠ p ∧ (b ∉ l2) ∧ (p ∉ l1) ∧ p ∉ l2.
Proof using All.
  pose proof (mem_ok_NoDup _ _ Hok) as Hnd. rewrite El in Hnd.
  apply NoDup_app in Hnd as (_ & Hd & [Hp [Hb _]%NoDup_cons]%NoDup_cons). set_solver.
Qed.

Lemma join_cend_p : cend a p = b.
Proof using All. unfold cend. rewrite El. destruct join_fresh as (_ & _ & _ & ? & _). by apply chunk_end_mid. Qed.

(** The pages of the header that goes away, less those it shares. *)
Definition join_pages : gset Z :=
  page_set (Z.max (page_index a (p + BUF_HDR - 1) + 1) (page_index a b))
           (Z.min (page_index a (cend a b)) (page_index a (b + BUF_HDR - 1) + 1)).

Definition joined : balloc :=
  set_a_headers (delete b) (set_a_pages (λ s, s ∖ join_pages) (set_a_list (filter (λ y, y ≠ b)) a)).

Lemma joined_list : a_list joined = l1 ++ p :: l2.
Proof using All.
  destruct join_fresh as (? & ? & ? & _). unfold joined. simpl. rewrite El.
  replace (l1 ++ p :: b :: l2) with ((l1 ++ [p]) ++ b :: l2) by by rewrite <-(assoc_L (++)).
  rewrite filter_ne_mid by set_solver. by rewrite <-(assoc_L (++)).
Qed.

Lemma joined_elem h : h ∈ a_list joined ↔ h ∈ a_list a ∧ h ≠ b.
Proof using All.
  destruct join_fresh as (? & ? & ? & _). rewrite joined_list, El. set_solver.
Qed.

Lemma joined_cend_p : cend joined p = cend a b.
Proof using All.
  destruct join_fresh as (? & ? & ? & ? & _). unfold cend. rewrite joined_list, El.
  change (area_end joined) with (area_end a).
  replace (l1 ++ p :: b :: l2) with ((l1 ++ [p]) ++ b :: l2) by by rewrite <-(assoc_L (++)).
  rewrite !chunk_end_mid by set_solver. done.
Qed.

Lemma joined_cend_other h : h ≠ p → h ≠ b → cend joined h = cend a h.
Proof using All.
  intros. unfold cend. rewrite joined_list, El. symmetry. by apply chunk_end_insert.
Qed.

Lemma joined_is_free h : is_free joined h ↔ is_free a h ∧ h ≠ b.
Proof using All.
  unfold is_free, joined. simpl. destruct (decide (b = h)) as [->|].
  - rewrite lookup_delete, decide_True by done. naive_solver.
  - rewrite lookup_delete_ne by done. naive_solver.
Qed.

Lemma joined_is_used h : is_used joined h ↔ is_used a h ∧ h ≠ b.
Proof using All.
  unfold is_used, joined. simpl. destruct (decide (b = h)) as [->|].
  - rewrite lookup_delete, decide_True by done. naive_solver.
  - rewrite lookup_delete_ne by done. naive_solver.
Qed.

Lemma join_in : p ∈ a_list a ∧ b ∈ a_list a ∧ p + BUF_HDR ≤ b.
Proof using All.
  pose proof (mo_spaced _ _ Hok) as Hs. rewrite El in *. split_and!; [set_solver..|].
  unfold spaced in Hs. rewrite StronglySorted_app in Hs. destruct Hs as (_ & _ & [_ Hx]%StronglySorted_inv).
  rewrite Forall_forall in Hx. apply Hx. set_solver.
Qed.

Lemma joined_gap i :
  in_gap joined p i ↔ in_gap a p i ∨ in_gap a b i ∨ i ∈ join_pages.
Proof using All.
  unfold in_gap, join_pages. rewrite elem_of_page_set, joined_cend_p, join_cend_p.
  change (page_index joined) with (page_index a).
  destruct join_in as (Hp & Hb & Hpb). destruct (chunk_bounds _ _ Hok b Hb) as [_ [Hbe _]].
  pose proof (page_index_mono a (p + BUF_HDR - 1) b ltac:(lia)).
  pose proof (page_index_mono a b (b + BUF_HDR - 1) ltac:(unfold BUF_HDR; lia)).
  pose proof (page_index_mono a (b + BUF_HDR - 1) (cend a b) ltac:(lia)). lia.
Qed.

Lemma joined_ok : is_free a p → is_free a b → mem_ok (hole joined) joined.
Proof using All.
  intros Hpf Hbf. destruct join_in as (Hp & Hb & Hpb). pose proof Hok as [].
  destruct (chunk_bounds _ _ Hok b Hb) as [Hbl [Hbe Hbe']].
  destruct join_fresh as (? & ? & ? & ? & ?).
  split; try done.
  - rewrite joined_list. rewrite El in mo_head. by destruct l1.
  - rewrite joined_list. unfold spaced in *. rewrite El in mo_spaced.
    rewrite StronglySorted_app in *. destruct mo_spaced as (S1 & S2 & [S3 S4]%StronglySorted_inv).
    apply StronglySorted_inv in S3 as [S3 _]. apply Forall_cons in S4 as [_ S4].
    split_and!; [intros; apply S1; set_solver|done|by constructor].
  - intros h [Hh _]%joined_elem. by apply mo_in.
  - intros h. rewrite joined_elem, <-mo_headers. unfold joined. simpl.
    destruct (decide (b = h)) as [->|].
    + rewrite lookup_delete, decide_True by done. split; [intros [? [=]]|naive_solver].
    + rewrite lookup_delete_ne by done. naive_solver.
  - intros i. change (a_pages joined) with (a_pages a ∖ join_pages).
    rewrite elem_of_difference, mo_pages. split.
    + intros [[? Hx] Hj]. split; [done|]. intros h [Hh Hne]%joined_elem [Hf Hg].
      apply joined_is_free in Hf as [Hf _]. destruct (decide (h = p)) as [->|].
      * apply joined_gap in Hg as [Hg|[Hg|Hg]]; [by apply (Hx p)|by apply (Hx b)|done].
      * apply (Hx h Hh). split; [done|]. unfold in_gap in *. by rewrite joined_cend_other in Hg.
    + intros [? Hx]. assert (¬ in_gap joined p i) as Hnp.
      { intros Hg. apply (Hx p); [apply joined_elem; auto|]. split; [apply joined_is_free; auto|done]. }
      rewrite joined_gap in Hnp. split; [|naive_solver]. split; [done|].
      intros h Hh [Hf Hg]. destruct (decide (h = p)) as [->|]; [naive_solver|].
      destruct (decide (h = b)) as [->|]; [naive_solver|].
      apply (Hx h); [apply joined_elem; auto|]. split; [apply joined_is_free; auto|].
      unfold in_gap in *. by rewrite joined_cend_other.
  - by intros h i Hh [_ Hg].
Qed.

Lemma join_pages_backed i : i ∈ join_pages → i ∈ a_pages a.
Proof using All.
  destruct join_in as (Hp & Hb & Hpb). unfold join_pages. rewrite elem_of_page_set. intros Hi.
  destruct (chunk_bounds _ _ Hok b Hb) as [Hbl [Hbe Hbe']].
  pose proof (header_mapped_ok _ _ Hok b Hb) as Hm. unfold header_mapped in Hm.
  apply andb_prop in Hm as [Hm1%bool_decide_eq_true Hm2%bool_decide_eq_true].
  assert (page_index a (b + BUF_HDR - 1) ≤ page_index a b + 1).
  { unfold page_index, BUF_HDR. divmod_lia. }
  assert (i = page_index a b ∨ i = page_index a (b + BUF_HDR - 1)) as [->| ->] by lia; done.
Qed.
End join.
