(* ===== verification/BinderAllocRun.v ===== *)
(** * Execution of the allocator's operations

    What [binder_delete_free_buffer], [alloc_from] and [binder_free_buf] do to a
    well-formed allocator, as equations between states. *)

From Stdlib Require Import ZArith Lia.
From stdpp Require Import base tactics list sets gmap sorting.
From S2P Require Import Prelude Rbtree BinderAlloc BinderAllocShape BinderAllocWf BinderAllocStep.

Lemma buf_prev_ok H a l1 h l2 :
  mem_ok H a → a_list a = l1 ++ h :: l2 → buf_prev h a = Ret (last l1) a.
Proof.
  intros Hok El. assert (h ∈ a_list a) as Hh by (rewrite El; set_solver).
  destruct (header_is_Some _ _ Hok h Hh) as [b Hb].
  pose proof (mem_ok_NoDup _ _ Hok) as Hnd. rewrite El in Hnd.
  apply NoDup_app in Hnd as (_ & Hd & _).
  unfold buf_prev. rewrite (bind_of _ (get_buf_ok _ _ Hok h b Hb)). run.
  rewrite El, prev_in_mid by set_solver. by destruct (last l1).
Qed.

Lemma buf_next_mid H a l1 h l2 :
  mem_ok H a → a_list a = l1 ++ h :: l2 → buf_next h a = Ret (head l2) a.
Proof.
  intros Hok El. assert (h ∈ a_list a) as Hh by (rewrite El; set_solver).
  destruct (buf_next_ok _ _ Hok h Hh) as (o & -> & Ho).
  pose proof (mem_ok_NoDup _ _ Hok) as Hnd. rewrite El in Hnd, Ho.
  apply NoDup_app in Hnd as (_ & Hd & _). rewrite next_in_mid in Ho by set_solver. congruence.
Qed.

Section delete.
Context (env : mm_env) (a : balloc) (Hok : mem_ok (hole a) a).
Context (l1 l2 : list Z) (p b : Z) (El : a_list a = l1 ++ p :: b :: l2).

Local Lemma El' : a_list a = (l1 ++ [p]) ++ b :: l2.
Proof. by rewrite El, <-(assoc_L (++)). Qed.

(** Two pages agree exactly when their masked addresses do. *)
Lemma page_mask_eq x y :
  a_buffer a ≤ x ≤ area_end a → a_buffer a ≤ y ≤ area_end a →
  page_mask x = page_mask y ↔ page_index a x = page_index a y.
Proof.
  intros Hx Hy.
  destruct (mo_base _ _ Hok). pose proof (mo_top _ _ Hok).
  rewrite !page_mask_spec by (unfold PAGE_SIZE, area_end in *; lia).
  unfold page_index. divmod_lia.
Qed.

Local Lemma delete_bounds : p ∈ a_list a ∧ b ∈ a_list a ∧ a_buffer a ≤ p ∧ p + BUF_HDR ≤ b ∧ a_buffer a ≤ b ∧ b + BUF_HDR ≤ cend a b ∧ cend a b ≤ area_end a ∧
  0 < a_buffer a ∧ a_buffer a mod PAGE_SIZE = 0 ∧ area_end a + PAGE_SIZE ≤ 2 ^ 32.
Proof.
  destruct (join_in _ Hok _ _ _ _ El) as (Hpl & Hbl & Hpb).
  destruct (chunk_bounds _ _ Hok b Hbl) as [Hb0 [Hb1 Hb2]]. destruct (chunk_bounds _ _ Hok p Hpl) as [Hp0 _].
  destruct (mo_base _ _ Hok) as [Hb00 Hbm]. by pose proof (mo_top _ _ Hok).
Qed.
(** The pages of the end of the previous header, of this header and of the end of its chunk. *)
Local Lemma delete_pages : page_index a (p + BUF_HDR - 1) ≤ page_index a b ∧ page_index a b ≤ page_index a (b + BUF_HDR - 1) ≤ page_index a b + 1 ∧
  page_index a (b + BUF_HDR - 1) ≤ page_index a (cend a b).
Proof.
  destruct delete_bounds as (_ & _ & Hp0 & Hpb & Hb0 & Hb1 & Hb2 & Hb00 & Hbm & Htop). split; [|split].
  - apply page_index_mono. lia.
  - unfold page_index, BUF_HDR. divmod_lia.
  - apply page_index_mono. lia.
Qed.

(** The pages that only this header was on are given back, then the header goes. *)
Lemma delete_pages_ok :
  let sb := page_index a b in let eb := page_index a (b + BUF_HDR - 1) in let ep := page_index a (p + BUF_HDR - 1) in let ce := page_index a (cend a b) in
  ((when bool_decide (ep < sb ∧ sb < ce) || bool_decide (ep < eb ∧ eb < ce) do (
      _ <- binder_update_page_range env false (if bool_decide (ep < sb ∧ sb < ce) then page_mask b else page_mask (b + BUF_HDR - 1))
        ((if bool_decide (ep < eb ∧ eb < ce) then page_mask (b + BUF_HDR - 1) else page_mask b) + PAGE_SIZE) false ;;
      ret tt)) ;;;
   modify (set_a_headers (delete b))) (set_a_list (filter (λ y, y ≠ b)) a) = Ret tt (joined a p b).
Proof.
  intros sb eb ep ce. destruct delete_bounds as (_ & _ & Hp0 & Hpb & Hb0 & Hb1 & Hb2 & Hb00 & Hbm & Htop). destruct delete_pages as (Hm1 & Hm & Hm2).
  fold sb eb ep ce in Hm1, Hm, Hm2.
  set (a1 := set_a_list (filter (λ y, y ≠ b)) a).
  assert (Hset : ∀ lo hi, (∀ i, lo ≤ i < hi ↔ i ∈ join_pages a p b) →
    set_a_headers (delete b) (set_a_pages (λ s, s ∖ page_set lo hi) a1) = joined a p b).
  { intros lo hi Hlh. unfold joined. f_equal. apply set_a_pages_ext. simpl. apply set_eq. intros i.
    by rewrite !elem_of_difference, <-Hlh, elem_of_page_set. }
  assert (Hjp : ∀ i, i ∈ join_pages a p b ↔ (i = sb ∨ i = eb) ∧ ep < i < ce).
  { intros i. unfold join_pages. rewrite elem_of_page_set. fold ep sb eb ce. lia. }
  destruct (page_index_page_mask _ _ Hok b ltac:(unfold BUF_HDR in *; lia)) as [Es Esm]. fold sb in Es.
  destruct (page_index_page_mask _ _ Hok (b + BUF_HDR - 1) ltac:(unfold BUF_HDR in *; lia)) as [Ee Eem]. fold eb in Ee.
  destruct (bool_decide (ep < sb < ce) || bool_decide (ep < eb < ce)) eqn:Hor.
  - set (s := if bool_decide (ep < sb < ce) then page_mask b else page_mask (b + BUF_HDR - 1)).
    set (e := (if bool_decide (ep < eb < ce) then page_mask (b + BUF_HDR - 1) else page_mask b) + PAGE_SIZE).
    assert (Hidx : ∀ i, page_index a1 s ≤ i < page_index a1 e ↔ i ∈ join_pages a p b).
    { intros i. rewrite Hjp. change (page_index a1) with (page_index a). subst s e.
      rewrite page_index_add1. repeat case_bool_decide; simpl in Hor; rewrite ?Es, ?Ee; try done; lia. }
    destruct (update_free_ok env s e false a1) as [r Er].
    + subst s e. repeat case_bool_decide; divmod_lia.
    + intros i Hi%Hidx. simpl. by apply (join_pages_backed _ Hok _ _ _ _ El).
    + run. rewrite (bind_of _ Er). run. unfold modify. f_equal. by apply Hset.
  - run. unfold modify. f_equal. rewrite <-(Hset 0 0); [f_equal; symmetry; apply set_a_pages_id; page_sets|].
    intros i. rewrite Hjp. apply orb_false_elim in Hor as [?%bool_decide_eq_false ?%bool_decide_eq_false]. intuition lia.
Qed.

(** The header goes, with the pages it shares with neither neighbour. *)
Lemma binder_delete_free_buffer_ok :
  is_free a p → binder_delete_free_buffer env b a = Ret tt (joined a p b).
Proof.
  intros (hp & Hp & Hpf). destruct delete_bounds as (Hpl & Hbl & Hp0 & Hpb & Hb0 & Hb1 & Hb2 & Hb00 & Hbm & Htop). destruct delete_pages as (Hm1 & Hm & Hm2).
  assert (Hcend : cend a b = default (area_end a) (head l2)).
  { unfold cend. rewrite El'. destruct (join_fresh _ Hok _ _ _ _ El) as (? & ? & _).
    apply chunk_end_mid. set_solver. }
  unfold binder_delete_free_buffer. run.
  rewrite bind_bug_on. 2:{ rewrite El. apply bool_decide_eq_false. destruct (join_fresh _ Hok _ _ _ _ El) as (? & ? & _). destruct l1; set_solver. }
  rewrite (bind_of _ (buf_prev_ok _ _ _ _ _ Hok El')). rewrite last_snoc. run.
  rewrite (bind_of _ (get_buf_ok _ _ Hok p hp Hp)), bind_bug_on by (by rewrite Hpf). cbv zeta.
  rewrite (bind_of _ (buf_next_mid _ _ _ _ _ Hok El')).
  unfold buffer_end_page, buffer_start_page.
  assert (Hend : l2 = [] → page_index a (b + BUF_HDR - 1) < page_index a (cend a b)).
  { intros ->. simpl in Hcend. rewrite Hcend. destruct (mo_size _ _ Hok).
    unfold page_index, area_end, BUF_HDR in *. divmod_lia. }
  set (sb := page_index a b) in *. set (eb := page_index a (b + BUF_HDR - 1)) in *.
  set (ep := page_index a (p + BUF_HDR - 1)) in *. set (ce := page_index a (cend a b)) in *.
  assert (E1 : page_mask (p + BUF_HDR - 1) = page_mask b ↔ ep = sb) by (apply page_mask_eq; unfold BUF_HDR in *; lia).
  assert (E2 : page_mask (p + BUF_HDR - 1) = page_mask (b + BUF_HDR - 1) ↔ ep = eb)
    by (apply page_mask_eq; unfold BUF_HDR in *; lia).
  assert (E3 : l2 ≠ [] → page_mask (cend a b) = page_mask (b + BUF_HDR - 1) ↔ ce = eb)
    by (intros _; apply page_mask_eq; unfold BUF_HDR in *; lia).
  assert (E4 : l2 ≠ [] → page_mask (cend a b) = page_mask b ↔ ce = sb)
    by (intros _; apply page_mask_eq; unfold BUF_HDR in *; lia).
  set (flags := match head l2 with Some _ => _ | None => _ end).
  assert (Hflags : flags = (bool_decide (ep < sb ∧ sb < ce), bool_decide (ep < eb ∧ eb < ce))).
  { subst flags. destruct l2 as [|nx l2']; simpl in *.
    - specialize (Hend eq_refl). f_equal; repeat case_bool_decide; simpl; intuition lia.
    - rewrite <-Hcend. specialize (E3 ltac:(done)). specialize (E4 ltac:(done)).
      case_decide; f_equal; repeat case_bool_decide; simpl; intuition lia. }
  rewrite Hflags. run. exact delete_pages_ok.
Qed.
End delete.

(** ** Transport of the invariant's parts *)

Lemma free_tree_ok_ext a a' (P P' : Z → Prop) t :
  (∀ h, P h ↔ P' h) → (∀ h, P h → cend a' h = cend a h) →
  free_tree_ok a P t → free_tree_ok a' P' t.
Proof.
  intros HP Hc (Hnd & Hin & Hs). split_and!; [done|intros; by rewrite Hin|].
  eapply StronglySorted_mono; [exact Hs|]. intros x y Hx%Hin Hy%Hin. simpl.
  unfold csize. by rewrite !Hc.
Qed.

Lemma used_tree_ok_ext (P P' : Z → Prop) t :
  (∀ h, P h ↔ P' h) → used_tree_ok P t → used_tree_ok P' t.
Proof. intros HP (Hin & Hs). split; [intros; by rewrite Hin|done]. Qed.

(** The shape depends on the area, the headers and the pages only. *)
Lemma mem_ok_same H a a' :
  a_buffer a' = a_buffer a → a_buffer_size a' = a_buffer_size a → a_list a' = a_list a →
  a_headers a' = a_headers a → a_pages a' = a_pages a → mem_ok H a → mem_ok H a'.
Proof. destruct a, a'; simpl; intros -> -> -> -> -> []. by split. Qed.

#[export] Instance is_free_dec a h : Decision (is_free a h).
Proof.
  destruct (a_headers a !! h) as [b|] eqn:E.
  - destruct (b_free b) eqn:Eb; [left; by exists b|right; intros (? & ? & ?); congruence].
  - right. intros (? & ? & ?). congruence.
Defined.

(** Where a chunk ends there is a header or the end of the area. *)
Lemma cend_cases H a h : mem_ok H a → h ∈ a_list a → cend a h ∈ a_list a ∨ cend a h = area_end a.
Proof.
  intros Hok Hh. destruct (spaced_split _ _ (mo_spaced _ _ Hok) Hh) as (l1 & l2 & E & Hn & _).
  unfold cend. rewrite E, chunk_end_mid by done. destruct l2; simpl; [by right|left; set_solver].
Qed.

(** Different chunks end at different places. *)
Lemma cend_inj H a x y :
  mem_ok H a → x ∈ a_list a → y ∈ a_list a → cend a x = cend a y → x = y.
Proof.
  intros Hok Hx Hy E. destruct (cend_bounds _ _ Hok x Hx) as [? Hxn].
  destruct (cend_bounds _ _ Hok y Hy) as [? Hyn]. specialize (Hxn y Hy). specialize (Hyn x Hx).
  unfold BUF_HDR in *. lia.
Qed.

(** Headers that are rewritten, but for one chunk that becomes several. *)
Lemma async_used_replace a a' l1 l2 l l' :
  a_list a = l1 ++ l ++ l2 → a_list a' = l1 ++ l' ++ l2 →
  (∀ x, x ∈ l1 ∨ x ∈ l2 → a_headers a' !! x = a_headers a !! x) →
  async_used a' = async_used a - zsum (header_cost a) l + zsum (header_cost a') l'.
Proof.
  intros E E' Hx. unfold async_used. rewrite E, E', !zsum_app.
  rewrite (zsum_ext (header_cost a') (header_cost a) l1), (zsum_ext (header_cost a') (header_cost a) l2); [lia|..];
    intros x ?; unfold header_cost; rewrite Hx by auto; done.
Qed.

Lemma header_cost_free a h : is_free a h → header_cost a h = 0.
Proof. intros (b & Hb & Hf). unfold header_cost, async_cost. by rewrite Hb, Hf. Qed.

(** What a buffer in use is charged is never negative. *)
Lemma async_used_nonneg a :
  (∀ h b, a_headers a !! h = Some b → b_free b = false → fits a h b) → 0 ≤ async_used a.
Proof.
  intros Hf. unfold async_used, zsum. induction (a_list a) as [|x l IH]; simpl; [lia|].
  assert (0 ≤ header_cost a x); [|lia]. unfold header_cost, async_cost.
  destruct (a_headers a !! x) as [b|] eqn:E; [|done]. destruct (b_free b) eqn:Eb; [done|].
  case_match; [|done]. destruct (Hf x b E Eb) as (? & ? & _).
  pose proof (round4_bounds (b_data_size b)). pose proof (round4_bounds (b_offsets_size b)).
  unfold need, BUF_HDR. lia.
Qed.

(** ** Cutting a buffer out of a free chunk *)

(** Whether what is left of a chunk of [cs] bytes can be a chunk of its own. *)
Definition leaves_room (cs size : Z) : bool := bool_decide (size + BUF_HDR + 4 < cs).

Section alloc_from.
Context `{RbKernel}.
Context (env : mm_env) (a : balloc) (Hwf : wf a).
Context (b : Z) (h : buffer) (Hb : a_headers a !! b = Some h) (Hbf : b_free h = true).
Context (ds os : Z) (is_async : bool) (Hds : 0 ≤ ds) (Hos : 0 ≤ os).
Let size := round4 ds + round4 os.
Context (Hsize : size ≤ csize a b).
Context (Hasync : is_async = true → size + BUF_HDR ≤ a_free_async_space a).

Let n := b + BUF_HDR + size.
Let room := leaves_room (csize a b) size.
Definition new_header : buffer := set_b_sizes ds os is_async (set_b_free false h).

Local Lemma Hok : mem_ok (hole a) a.
Proof. apply Hwf. Qed.
Local Lemma Hbl : b ∈ a_list a.
Proof. apply (mo_headers _ _ Hok). eauto. Qed.
Local Lemma Hbfree : is_free a b.
Proof. by exists h. Qed.
Local Lemma Hsz : 0 ≤ size ∧ size mod 4 = 0.
Proof. pose proof (round4_bounds ds). pose proof (round4_bounds os). subst size. divmod_lia. Qed.

(** The pages to back: up to the page of the new header or the next one. *)
Definition alloc_lo : Z := page_index a (b + BUF_HDR - 1) + 1.
Definition alloc_hi : Z :=
  if room then Z.min (page_index a (n + BUF_HDR - 1) + 1) (page_index a (cend a b))
  else page_index a (cend a b).

Definition room_pages : balloc := set_a_pages (λ p, p ∪ page_set alloc_lo alloc_hi) a.
Definition room_hole (x i : Z) : Prop := hole a x i ∧ ¬ (alloc_lo ≤ i < alloc_hi).

Local Lemma alloc_range_gap i : alloc_lo ≤ i < alloc_hi → in_gap a b i.
Proof. unfold alloc_lo, alloc_hi, in_gap. destruct room; lia. Qed.

Lemma room_pages_ok : mem_ok room_hole room_pages.
Proof.
  apply mem_ok_map; [|apply Hok]. intros i Hi%alloc_range_gap. by apply (in_gap_range _ _ Hok b i Hbl).
Qed.

(** The range that [alloc_from] computes. *)
Lemma alloc_range exact :
  (if exact : bool then size = csize a b else size < csize a b) →
  let has_page_addr := page_mask (u32 (b + BUF_HDR + csize a b)) in
  let buffer_size :=
    if exact then csize a b
    else if decide (u32 (size + BUF_HDR + 4) >= csize a b) then size
    else u32 (size + BUF_HDR) in
  let e := PAGE_ALIGN (u32 (b + BUF_HDR + buffer_size)) in
  let e := if decide (e > has_page_addr) then has_page_addr else e in
  page_index a (PAGE_ALIGN (b + BUF_HDR)) = alloc_lo ∧ page_index a e = alloc_hi ∧
  (e - PAGE_ALIGN (b + BUF_HDR)) mod PAGE_SIZE = 0 ∧
  bool_decide (buffer_size ≠ size) = room.
Proof.
  intros Hex. cbv zeta. pose proof Hok as Hok. destruct Hsz as [Hs0 _].
  destruct (chunk_bounds _ _ Hok b Hbl) as [H1 [H2 H3]].
  pose proof (mo_top _ _ Hok). destruct (mo_base _ _ Hok).
  assert (E : cend a b = b + BUF_HDR + csize a b) by (unfold csize; lia).
  rewrite <-E. unfold alloc_hi, alloc_lo, n, room, leaves_room in *. unfold BUF_HDR, PAGE_SIZE in *.
  rewrite (u32_small (cend a b)) by lia. rewrite (u32_small (size + 40 + 4)), (u32_small (size + 40)) by lia.
  destruct (page_index_page_mask _ _ Hok (cend a b)) as [E1 E1m]; [unfold BUF_HDR; lia|].
  destruct (page_index_PAGE_ALIGN _ _ Hok (b + 40)) as [E2 E2m]; [unfold BUF_HDR; lia|].
  set (bs := if exact then _ else _).
  assert (Hbs : bs = if decide (size + 44 < csize a b) then size + 40 else if exact then csize a b else size).
  { subst bs. destruct exact; repeat case_decide; lia. }
  clearbody bs. assert (Hbs' : size ≤ bs ≤ csize a b) by (rewrite Hbs; destruct exact; case_decide; lia).
  rewrite u32_small by lia.
  destruct (page_index_PAGE_ALIGN _ _ Hok (b + 40 + bs)) as [E3 E3m]; [unfold BUF_HDR; lia|].
  assert (bool_decide (bs ≠ size) = bool_decide (size + 40 + 4 < csize a b)) as ->.
  { rewrite Hbs. apply bool_decide_ext. destruct exact; case_decide; lia. }
  assert (Hbr : size + 40 + 4 < csize a b → bs = size + 40) by (intros; rewrite Hbs; case_decide; lia).
  assert (Hbn : csize a b ≤ size + 40 + 4 → cend a b - 45 < b + 40 + bs)
    by (intros; rewrite Hbs; destruct exact; case_decide; lia).
  clear Hbs. set (pa := PAGE_ALIGN (b + 40 + bs)) in *. set (pm := page_mask (cend a b)) in *.
  split_and!; [rewrite E2; f_equal; f_equal; lia| |case_decide; divmod_lia|done].
  set (e := if decide (pa > pm) then pm else pa).
  assert (page_index a e = Z.min (page_index a pm) (page_index a pa)) as ->.
  { subst e. clearbody pa pm. case_decide; [rewrite Z.min_l|rewrite Z.min_r]; try done; apply page_index_mono; lia. }
  rewrite E1, E3. case_bool_decide as Hroom.
  - rewrite Hbr by done. replace (b + 40 + (size + 40) - 1) with (b + 40 + size + 40 - 1) by lia. lia.
  - specialize (Hbn ltac:(lia)). clearbody pa pm. clear -Hbn H0 H2. unfold page_index. divmod_lia.
Qed.

(** The allocator after the cut, for the trees [t] and [t'] it ends with. *)
Definition alloc_result (t t' : rbtree) : balloc :=
  Balloc (a_vma a) (a_buffer a) (a_user_buffer_offset a)
    (if room then insert_after b n (a_list a) else a_list a)
    (<[b := new_header]> (if room then <[n := set_b_free true blank_buffer]> (a_headers a) else a_headers a))
    t t'
    (if is_async then a_free_async_space a - (size + BUF_HDR) else a_free_async_space a)
    (a_pages a ∪ page_set alloc_lo alloc_hi)
    (a_buffer_size a).

Lemma room_spec : room = true → b + BUF_HDR ≤ n ∧ n + BUF_HDR ≤ cend a b ∧ n mod PTR_SIZE = 0 ∧ n ≠ b.
Proof.
  unfold room, leaves_room, n, csize. intros ?%bool_decide_eq_true.
  destruct Hsz, (mo_in _ _ Hok b Hbl) as (_ & ? & _). unfold BUF_HDR, PTR_SIZE in *.
  split_and!; [lia|lia| |lia]. divmod_lia.
Qed.

Lemma result_new : room = true → (n ∉ a_list a) ∧ a_headers a !! n = None.
Proof.
  intros (H1 & H2 & H3 & _)%room_spec.
  pose proof (cut_fresh _ _ Hok b n blank_buffer Hbl H1 H2 H3) as Hn. split; [done|].
  apply eq_None_not_Some. by rewrite (mo_headers _ _ Hok).
Qed.

Section result.
Context (t t' : rbtree).
Let R := alloc_result t t'.

Lemma result_elem x : x ∈ a_list R ↔ room = true ∧ x = n ∨ x ∈ a_list a.
Proof.
  unfold alloc_result. simpl. destruct room eqn:Er; [|naive_solver].
  destruct (room_spec Er) as (H1 & H2 & H3 & _).
  pose proof (cut_elem _ _ Hok b n blank_buffer Hbl H1 H2 H3 x) as Hx. simpl in Hx. naive_solver.
Qed.

Lemma result_cend x :
  cend R x = if decide (x = b) then (if room then n else cend a b)
             else if room then (if decide (x = n) then cend a b else cend a x) else cend a x.
Proof.
  unfold alloc_result, cend. simpl. change (area_end R) with (area_end a).
  destruct room eqn:Er; [|by case_decide; subst].
  destruct (room_spec Er) as (H1 & H2 & H3 & H4).
  repeat case_decide; subst.
  - apply (cut_cend_b _ _ Hok b n blank_buffer Hbl H1 H2 H3).
  - apply (cut_cend_n _ _ Hok b n blank_buffer Hbl H1 H2 H3).
  - by apply (cut_cend_other _ _ Hok b n blank_buffer Hbl H1 H2 H3).
Qed.

Lemma result_header x :
  a_headers R !! x = if decide (x = b) then Some new_header
    else if room then (if decide (x = n) then Some (set_b_free true blank_buffer) else a_headers a !! x)
    else a_headers a !! x.
Proof.
  unfold alloc_result. simpl. case_decide; subst; [by rewrite lookup_insert_eq|].
  rewrite lookup_insert_ne by done. destruct room; [|done].
  case_decide; subst; [by rewrite lookup_insert_eq|by rewrite lookup_insert_ne].
Qed.

Lemma result_is_free x : is_free R x ↔ room = true ∧ x = n ∨ is_free a x ∧ x ≠ b.
Proof.
  unfold is_free. rewrite result_header. pose proof room_spec. pose proof result_new.
  destruct room; repeat case_decide; naive_solver.
Qed.

Lemma result_is_used x : is_used R x ↔ x = b ∨ is_used a x.
Proof.
  unfold is_used. rewrite result_header. pose proof room_spec. pose proof result_new.
  destruct room; repeat case_decide; naive_solver.
Qed.

Lemma result_mem : mem_ok (hole R) R.
Proof.
  pose proof room_pages_ok as Hp. destruct (chunk_bounds _ _ Hok b Hbl) as (? & ? & ?).
  assert (Hg : ∀ x i, x ∈ a_list R → hole R x i ↔
    if room then (if decide (x = n) then room_hole b i else if decide (x = b) then False else room_hole x i)
    else room_hole x i).
  { intros x i Hx%result_elem. unfold hole, in_gap. rewrite result_is_free, result_cend.
    change (page_index R) with (page_index a). unfold room_hole, hole, in_gap, alloc_lo, alloc_hi.
    pose proof room_spec as Hrs. pose proof result_new as Hrn. pose proof Hbfree.
    assert (x ≠ b → is_free a x → x ∈ a_list a → ∀ i,
      page_index a (x + BUF_HDR - 1) < i < page_index a (cend a x) →
      ¬ (page_index a (b + BUF_HDR - 1) < i < page_index a (cend a b))) as Hu.
    { intros Hne _ Hxl j Hj Hj'. apply Hne. by apply (in_gap_unique _ _ Hok x b j Hxl Hbl). }
    pose proof (page_index_mono a (b + BUF_HDR - 1) (n + BUF_HDR - 1)).
    destruct room; repeat case_decide; subst; try (intuition lia).
    - destruct (Hrs eq_refl) as (? & ? & _). unfold BUF_HDR in *. intuition lia.
    - destruct (decide (is_free a x)); [|naive_solver]. destruct Hx as [[_ ?]|Hx]; [done|].
      specialize (Hu ltac:(done) ltac:(done) Hx i). intuition lia.
    - destruct (decide (is_free a x)); [|naive_solver]. destruct Hx as [[? _]|Hx]; [done|].
      specialize (Hu ltac:(done) ltac:(done) Hx i). intuition lia. }
  eapply mem_ok_ext; [intros; symmetry; by apply Hg|]. clear Hg.
  assert (Hpr : mem_ok room_hole room_pages) by exact Hp.
  assert (b ∈ a_list room_pages) as Hbl' by apply Hbl.
  destruct room eqn:Er.
  - destruct (room_spec Er) as (E1 & E2 & E3 & E4).
    apply (mem_ok_same _ (set_a_headers (<[b := new_header]>)
      (cut room_pages b n (set_b_free true blank_buffer)))); try done.
    all: try (unfold R, alloc_result; simpl; by rewrite Er).
    apply mem_ok_header; [apply (cut_elem _ _ Hpr b n _ Hbl' E1 E2 E3); auto|].
    apply (cut_ok _ _ Hpr b n _ Hbl' E1 E2 E3).
    intros i [[_ [Hi1 Hi2]] Hi3]. unfold alloc_lo, alloc_hi in Hi3. rewrite Er in Hi3.
    change (page_index room_pages) with (page_index a). lia.
  - apply (mem_ok_same _ (set_a_headers (<[b := new_header]>) room_pages)); try done.
    all: try (unfold R, alloc_result; simpl; by rewrite Er).
    by apply mem_ok_header.
Qed.

Lemma result_async :
  0 ≤ a_free_async_space R ∧ a_free_async_space R + async_used R = a_buffer_size a / 2.
Proof.
  destruct (wf_async _ Hwf) as [Ha1 Ha2]. pose proof Hasync as Hs.
  destruct (spaced_split _ _ (mo_spaced _ _ Hok) Hbl) as (l1 & l2 & E & Hb1 & Hb2 & _).
  assert (header_cost a b = 0) as Hc0 by by apply header_cost_free, Hbfree.
  assert (header_cost R b = if is_async then size + BUF_HDR else 0) as Hcb.
  { unfold header_cost. rewrite result_header, decide_True by done. done. }
  set (mid := if room then [b; n] else [b]).
  assert (async_used R = async_used a - zsum (header_cost a) [b] + zsum (header_cost R) mid) as ->.
  { apply (async_used_replace a R l1 l2); [done| |].
    - unfold R, alloc_result, mid. simpl. rewrite E. destruct room; [|done].
      by rewrite insert_after_mid.
    - intros x Hx. rewrite result_header, decide_False by (destruct Hx; congruence).
      destruct room eqn:Er; [|done]. rewrite decide_False; [done|]. intros ->.
      destruct (result_new Er) as [Hn _]. apply Hn. rewrite E. set_solver. }
  assert (zsum (header_cost R) mid = header_cost R b) as ->.
  { subst mid. destruct room eqn:Er; simpl; [|lia].
    assert (header_cost R n = 0); [|lia]. apply header_cost_free, result_is_free. by left. }
  simpl. rewrite Hc0, Hcb. destruct is_async; [specialize (Hs eq_refl)|]; lia.
Qed.

Lemma result_wf :
  free_tree_ok R (is_free R) t → used_tree_ok (is_used R) t' → wf R.
Proof.
  intros Ht Ht'. split; [exact result_mem|exact Ht|exact Ht'| | |exact result_async].
  - intros x y. rewrite result_header. unfold fits, csize. rewrite result_cend.
    pose proof (wf_fits _ Hwf x y) as Hf. unfold fits, csize in Hf. pose proof (room_spec) as Hrs.
    destruct Hsz. case_decide; subst.
    + intros [= <-] _. simpl. change (need new_header) with size. split_and!; [done..|].
      unfold csize in Hsize. destruct room; [|lia]. unfold n. lia.
    + destruct room; [case_decide; [intros [= <-]; done|]|]; exact Hf.
  - intros x. rewrite !result_is_free, result_cend. intros Hx Hc.
    pose proof Hbl. pose proof (wf_coalesced _ Hwf) as Hco. pose proof Hbfree as Hbf'.
    pose proof room_spec. pose proof result_new as Hnew.
    assert (∀ y, room = true → is_free a y → cend a y = n → False) as Hn.
    { intros y Er Hy%(is_free_in _ _ _ Hok) Hcy. destruct (Hnew Er) as [Hnl _].
      destruct (room_spec Er) as (_ & ? & _). destruct (chunk_bounds _ _ Hok b Hbl) as (_ & _ & ?).
      destruct (cend_cases _ _ _ Hok Hy); [congruence|]. unfold BUF_HDR in *. lia. }
    destruct room; repeat case_decide; naive_solver.
Qed.
End result.

(** Whether the memory manager backs the pages that are needed. *)
Definition can_back : Prop :=
  alloc_lo < alloc_hi →
  mm_alive env = true ∧ a_vma a = true ∧
  ∀ i, alloc_lo ≤ i < alloc_hi → mm_page env (a_buffer a + i * PAGE_SIZE) = PageOk.

Lemma backing_can_back s e :
  page_index a s = alloc_lo → page_index a e = alloc_hi →
  s mod PAGE_SIZE = 0 → (e - s) mod PAGE_SIZE = 0 →
  backing_ok env s e false a ↔ can_back.
Proof.
  intros Hs He Hsm Hes. unfold backing_ok, can_back. destruct (mo_base _ _ Hok) as [_ Hbm].
  assert (s = a_buffer a + alloc_lo * PAGE_SIZE) as Es by (rewrite <-Hs; unfold page_index; divmod_lia).
  assert (e = a_buffer a + alloc_hi * PAGE_SIZE) as Ee.
  { rewrite <-He. unfold page_index. divmod_lia. }
  assert ((e - s) / PAGE_SIZE = alloc_hi - alloc_lo) as ->.
  { rewrite Es, Ee. replace (_ - _) with ((alloc_hi - alloc_lo) * PAGE_SIZE) by lia.
    by apply Z.div_mul. }
  split.
  - intros [?|[[?|[??]] Hk]] Hlt; [unfold PAGE_SIZE in *; lia|done|].
    split_and!; [done..|]. intros i Hi. rewrite <-(Hk (i - alloc_lo)) by lia. f_equal. lia.
  - intros Hc. destruct (decide (alloc_lo < alloc_hi)) as [Hlt|]; [|left; unfold PAGE_SIZE in *; lia].
    destruct (Hc Hlt) as (? & ? & Hi). right. split; [by right|].
    intros k Hk. rewrite <-(Hi (alloc_lo + k)) by lia. f_equal. lia.
Qed.

(** The last assignments of [alloc_from]. *)
Lemma alloc_finish H' a6 :
  mem_ok H' a6 → a_headers a6 !! b = Some (set_b_free false h) →
  a_free_async_space a6 = a_free_async_space a →
  (put_buf b (set_b_sizes ds os is_async) ;;;
   (when is_async do
     modify (λ a0, set_a_free_async_space (u32 (a_free_async_space a0 - u32 (size + BUF_HDR))) a0)) ;;;
   ret (Some b)) a6 =
  Ret (Some b) (set_a_free_async_space
    (if is_async then a_free_async_space a - (size + BUF_HDR) else a_free_async_space a)
    (set_a_headers (<[b := new_header]>) a6)).
Proof.
  intros Hok6 Hb6 Hf. rewrite (bind_of _ (put_buf_ok _ _ Hok6 b _ _ Hb6)).
  destruct Hsz, (wf_async _ Hwf). unfold new_header. pose proof Hasync as Has.
  destruct is_async; run; unfold ret; f_equal;
    unfold set_a_free_async_space, set_a_headers; simpl; rewrite ?Hf; [|done]. f_equal.
  specialize (Has eq_refl).
  pose proof (async_used_nonneg a (wf_fits _ Hwf)). pose proof (mo_top _ _ Hok). destruct (mo_base _ _ Hok).
  assert (a_buffer_size a / 2 < 2 ^ 31) by (unfold area_end in *; divmod_lia).
  rewrite (u32_small (size + BUF_HDR)) by (unfold BUF_HDR in *; lia). apply u32_small. unfold BUF_HDR in *. lia.
Qed.

(** The buffer is taken: its header says so, and the trees are [t0] and [t']. *)
Definition taken_state (t0 t' : rbtree) : balloc :=
  set_a_allocated_buffers t' (set_a_headers (<[b := set_b_free false h]>) (set_a_free_buffers t0 room_pages)).
Definition finish : M balloc (option Z) :=
  put_buf b (set_b_sizes ds os is_async) ;;;
  (when is_async do
     modify (λ a0, set_a_free_async_space (u32 (a_free_async_space a0 - u32 (size + BUF_HDR))) a0)) ;;;
  ret (Some b).

(** The rest of the work when there is room for another buffer behind. *)
Lemma finish_with_room t0 t' : room = true → mem_ok room_hole (taken_state t0 t') →
  free_tree_ok a (λ x, is_free a x ∧ x ≠ b) t0 → used_tree_ok (λ x, x = b ∨ is_used a x) t' →
  ∃ t t2, ((a0 <- getst ;;
      (if header_mapped a0 n then ret tt else crash_with CrashOops) ;;;
      modify (set_a_list (insert_after b n)) ;;;
      modify (set_a_headers (<[n := set_b_free true blank_buffer]>)) ;;;
      binder_insert_free_buffer n) ;;; finish) (taken_state t0 t') = Ret (Some b) (alloc_result t t2) ∧ wf (alloc_result t t2).
Proof.
  intros Er Hok4 Ht0 Ht'. pose proof Hbl as Hbl. unfold finish. set (a4 := taken_state t0 t') in *. set (a3 := set_a_headers (<[b := set_b_free false h]>) (set_a_free_buffers t0 room_pages)).
  destruct (room_spec Er) as (E1 & E2 & E3 & E4). run.
  pose proof (cut_ok _ _ Hok4 b n (set_b_free true blank_buffer) Hbl E1 E2 E3) as Hok5.
  set (a5 := cut a4 b n (set_b_free true blank_buffer)) in *.
  specialize (Hok5 ltac:(intros i [[_ [Hi1 Hi2]] Hi3]; unfold alloc_lo, alloc_hi in Hi3; rewrite Er in Hi3;
    change (page_index a4) with (page_index a); lia)).
  assert (n ∈ a_list a5) as Hnl by (apply (cut_elem _ _ Hok4 b n _ Hbl E1 E2 E3); auto).
  pose proof (header_mapped_ok _ _ Hok5 n Hnl) as Hm. change (header_mapped a5 n) with (header_mapped a4 n) in Hm.
  rewrite Hm. run. change (set_a_headers _ _) with a5.
  assert (Hf5 : ∀ x, is_free a5 x ↔ x = n ∨ is_free a x ∧ x ≠ b).
  { intros x. unfold is_free, a5, cut, a4, a3. simpl. destruct (result_new Er) as [_ Hnn].
    destruct (decide (x = n)) as [->|]; [rewrite lookup_insert_eq|rewrite lookup_insert_ne by done].
    - split; [by left|]. intros _. by eexists.
    - destruct (decide (x = b)) as [->|]; [rewrite lookup_insert_eq|rewrite lookup_insert_ne by done].
      + split; [intros (? & [= <-] & [=])|intros [?|[_ ?]]; done].
      + split; [by right; split|by intros [?|[? _]]]. }
  assert (Hc5 : ∀ x, is_free a x ∧ x ≠ b → cend a5 x = cend a x).
  { intros x [(y & Hy & _) Hx]. change (cend a x) with (cend a4 x).
    apply (cut_cend_other _ _ Hok4 b n _ Hbl E1 E2 E3); [done|]. intros ->. by destruct (result_new Er); simplify_eq. }
  destruct (insert_free_ok _ a5 Hok5 (λ x, is_free a x ∧ x ≠ b) n) as (t & Et & Ht).
  { by eapply free_tree_ok_ext; [|exact Hc5|exact Ht0]. }
  { intros x Hx. apply Hf5. by right. } { apply Hf5. by left. }
  { intros [(x & ? & ?) _]. destruct (result_new Er). congruence. }
  rewrite (bind_of _ Et). exists t, t'.
  erewrite alloc_finish; [|exact (set_free_mem_ok _ _ _ Hok5)| |done].
  2:{ simpl. rewrite lookup_insert_ne by done. by rewrite lookup_insert_eq. }
  split; [|apply result_wf].
  - f_equal. unfold alloc_result, set_a_free_async_space. simpl. rewrite Er. f_equal.
    rewrite (insert_insert_ne _ n b) by done. by rewrite insert_insert_eq.
  - eapply (free_tree_ok_ext a5); [|intros x _; unfold cend, alloc_result; simpl; rewrite Er; reflexivity|exact Ht].
    intros x. rewrite result_is_free, Er. clear. naive_solver.
  - eapply used_tree_ok_ext; [|exact Ht']. intros x. by rewrite result_is_used.
Qed.

(** All the work done once the pages are there. *)
Lemma alloc_from_ok exact :
  (if exact : bool then size = csize a b else size < csize a b) →
  (can_back ∧ ∃ t t', alloc_from env b exact size ds os is_async a = Ret (Some b) (alloc_result t t') ∧
     wf (alloc_result t t')) ∨
  (¬ can_back ∧ alloc_from env b exact size ds os is_async a = Ret None a).
Proof.
  intros Hex. pose proof Hok as Hok. pose proof Hbl as Hbl.
  destruct (alloc_range exact Hex) as (Elo & Ehi & Eal & Eroom).
  unfold alloc_from. rewrite (bind_of _ (binder_buffer_size_ok _ _ Hok b Hbl)). cbv zeta in *.
  set (bs := if exact then _ else _) in *. set (e := if decide (_ > _) then _ else _) in *.
  assert (PAGE_ALIGN (b + BUF_HDR) mod PAGE_SIZE = 0) as Hsm.
  { apply (page_index_PAGE_ALIGN _ _ Hok). destruct (chunk_bounds _ _ Hok b Hbl). unfold BUF_HDR in *. lia. }
  pose proof (backing_can_back _ _ Elo Ehi Hsm Eal) as Hcb.
  destruct (update_alloc_ok env (PAGE_ALIGN (b + BUF_HDR)) e false a Eal) as [[Hyes Er]|[Hno Er]].
  { intros i Hi. rewrite Elo, Ehi in Hi. apply (gap_not_backed _ _ Hok b i Hbl).
    split; [apply Hbfree|by apply alloc_range_gap]. }
  2:{ right. split; [by rewrite <-Hcb|]. by rewrite (bind_of _ Er). }
  left. split; [by apply Hcb|]. rewrite (bind_of _ Er), Elo, Ehi, decide_False by lia.
  fold room_pages. run. clear Hyes Er Hcb Hsm Eal Elo Ehi. clearbody e.
  rewrite Eroom. fold n.
  set (t0 := rb_erase b (a_free_buffers room_pages)).
  set (a2 := set_a_free_buffers t0 room_pages).
  assert (Hok2 : mem_ok room_hole a2) by exact (set_free_mem_ok _ _ _ room_pages_ok).
  rewrite (bind_of _ (put_buf_ok _ a2 Hok2 b h _ Hb)). set (a3 := set_a_headers _ a2).
  assert (Hok3 : mem_ok room_hole a3) by by apply mem_ok_header.
  assert (Hu3 : ∀ x, is_used a3 x ↔ x = b ∨ is_used a x).
  { intros x. unfold is_used, a3. simpl. destruct (decide (x = b)) as [->|].
    - rewrite lookup_insert_eq. split; [by left|]. intros _. by eexists.
    - rewrite lookup_insert_ne by done. split; [by right|by intros [?|?]]. }
  destruct (insert_used_ok _ a3 Hok3 (is_used a) b) as (t' & Et' & Ht').
  { exact (wf_used _ Hwf). } { intros x Hx. apply Hu3. by right. } { apply Hu3. by left. }
  { intros (x & ? & ?). congruence. }
  rewrite (bind_of _ Et'). set (a4 := set_a_allocated_buffers t' a3).
  assert (Hok4 : mem_ok room_hole a4) by exact (set_used_mem_ok _ _ _ Hok3).
  assert (Ht0 : free_tree_ok a (λ x, is_free a x ∧ x ≠ b) t0).
  { apply free_tree_erase; [apply Hwf|apply Hbfree]. }
  destruct room eqn:Er.
  - by apply finish_with_room.
  - run. exists t0, t'. erewrite alloc_finish; [|exact Hok4|by simpl; rewrite lookup_insert_eq|done].
    split; [|apply result_wf].
    + f_equal. unfold alloc_result, set_a_free_async_space. simpl. rewrite Er. f_equal.
      by rewrite insert_insert_eq.
    + eapply free_tree_ok_ext; [| |exact Ht0].
      * intros x. rewrite result_is_free, Er. clear. naive_solver.
      * intros x [_ Hx]. rewrite result_cend, decide_False by done. by rewrite Er.
    + eapply used_tree_ok_ext; [|exact Ht']. intros x. by rewrite result_is_used.
Qed.
End alloc_from.
