(* ===== verification/BinderAllocFree.v ===== *)
(** * Releasing a buffer

    [binder_free_buf] on a well-formed allocator: the pages only this buffer
    used are released, and the chunk is joined with the free chunks around it. *)

From Stdlib Require Import ZArith Lia.
From stdpp Require Import base tactics list sets gmap sorting.
From S2P Require Import Prelude Rbtree BinderAlloc BinderAllocShape BinderAllocWf BinderAllocStep BinderAllocRun.

(** The invariant while the free chunk [b] is in no tree. *)
Record unfiled (b : Z) (a : balloc) : Prop := {
  uf_mem : mem_ok (hole a) a;
  uf_free : free_tree_ok a (λ x, is_free a x ∧ x ≠ b) (a_free_buffers a);
  uf_used : used_tree_ok (is_used a) (a_allocated_buffers a);
  uf_fits : ∀ h x, a_headers a !! h = Some x → b_free x = false → fits a h x;
  uf_async : 0 ≤ a_free_async_space a ∧ a_free_async_space a + async_used a = a_buffer_size a / 2;
  uf_b : is_free a b
}.

(** ** Taking a buffer out of use *)

Section release.
Context `{RbKernel}.
Context (a : balloc) (Hwf : wf a) (b : Z) (h : buffer).
Context (Hb : a_headers a !! b = Some h) (Hbu : b_free h = false).

Local Lemma rel_ok : mem_ok (hole a) a.
Proof. apply Hwf. Qed.
Local Lemma rel_in : b ∈ a_list a.
Proof. apply (mo_headers _ _ rel_ok). eauto. Qed.

Definition gap_lo : Z := page_index a (b + BUF_HDR - 1) + 1.
Definition gap_hi : Z := page_index a (cend a b).

Definition released : balloc :=
  Balloc (a_vma a) (a_buffer a) (a_user_buffer_offset a) (a_list a)
    (<[b := set_b_free true h]> (a_headers a)) (a_free_buffers a)
    (rb_erase b (a_allocated_buffers a))
    (if b_async_transaction h then a_free_async_space a + (need h + BUF_HDR) else a_free_async_space a)
    (a_pages a ∖ page_set gap_lo gap_hi) (a_buffer_size a).

Lemma released_is_free x : is_free released x ↔ x = b ∨ is_free a x.
Proof.
  unfold is_free, released. simpl. destruct (decide (x = b)) as [->|].
  - rewrite lookup_insert_eq. split; [by left|]. intros _. by eexists.
  - rewrite lookup_insert_ne by done. split; [by right|by intros [?|?]].
Qed.

Lemma released_is_used x : is_used released x ↔ is_used a x ∧ x ≠ b.
Proof.
  unfold is_used, released. simpl. destruct (decide (x = b)) as [->|].
  - rewrite lookup_insert_eq. split; [by intros (? & [= <-] & [=])|by intros [_ ?]].
  - rewrite lookup_insert_ne by done. split; [by intros ?; split|by intros [? _]].
Qed.

Lemma released_mem : mem_ok (hole released) released.
Proof.
  pose proof (mem_ok_unmap (hole a) b gap_lo gap_hi a rel_in) as Hm.
  specialize (Hm ltac:(intros i; unfold in_gap, gap_lo, gap_hi; lia) rel_ok).
  eapply (mem_ok_header _ b (set_b_free true h)) in Hm; [|apply rel_in].
  eapply mem_ok_same, (mem_ok_ext _ _ _); [..|exact Hm]; try done.
  intros x i Hx. unfold hole, in_gap. change (cend released) with (cend a).
  change (page_index released) with (page_index a). rewrite released_is_free.
  unfold gap_lo, gap_hi. destruct (decide (x = b)) as [->|]; [|naive_solver].
  assert (¬ is_free a b) by (intros (? & ? & ?); congruence). intuition lia.
Qed.

Lemma released_async :
  0 ≤ a_free_async_space released ∧ a_free_async_space released + async_used released = a_buffer_size a / 2.
Proof.
  destruct (wf_async _ Hwf) as [Ha1 Ha2].
  destruct (spaced_split _ _ (mo_spaced _ _ rel_ok) rel_in) as (l1 & l2 & E & Hb1 & Hb2 & _).
  assert (async_used released = async_used a - zsum (header_cost a) [b] + zsum (header_cost released) [b]) as ->.
  { apply (async_used_replace a released l1 l2); [done..|].
    intros x Hx. simpl. rewrite lookup_insert_ne; [done|]. by destruct Hx as [?|?]; intros <-. }
  simpl. rewrite (header_cost_free released b) by (apply released_is_free; auto).
  unfold header_cost, async_cost. rewrite Hb, Hbu.
  destruct (wf_fits _ Hwf b h Hb Hbu) as (? & ? & _).
  pose proof (round4_bounds (b_data_size h)). pose proof (round4_bounds (b_offsets_size h)).
  unfold need, BUF_HDR. destruct (b_async_transaction h); lia.
Qed.

Lemma released_unfiled : unfiled b released.
Proof.
  split; [exact released_mem| | | |exact released_async|apply released_is_free; auto].
  - eapply (free_tree_ok_ext a); [|done|exact (wf_free _ Hwf)].
    intros x. rewrite released_is_free. split; [|naive_solver].
    intros Hx. split; [by right|]. intros ->. destruct Hx as (? & ? & ?). congruence.
  - eapply used_tree_ok_ext; [intros x; symmetry; apply released_is_used|].
    apply used_tree_erase; [apply Hwf|by exists h].
  - intros x y. simpl. destruct (decide (x = b)) as [->|].
    + rewrite lookup_insert_eq. by intros [= <-].
    + rewrite lookup_insert_ne by done. apply Hwf.
Qed.
End release.

(** ** Joining with the neighbours *)

Section join_unfiled.
Context `{RbKernel}.
Context (a : balloc) (l1 l2 : list Z) (p q : Z) (El : a_list a = l1 ++ p :: q :: l2).
Context (Hp : is_free a p) (Hq : is_free a q).

(** One of the two joined chunks was in no tree; the result is in no tree. *)
Lemma joined_unfiled x y (t := rb_erase y (a_free_buffers a)) :
  unfiled x a → (x = p ∧ y = q ∨ x = q ∧ y = p) →
  unfiled p (set_a_free_buffers t (joined a p q)) ∧
  set_a_free_buffers t (joined a p q) = joined (set_a_free_buffers t a) p q.
Proof.
  intros [Hok Hft Hut Hfits Hasync Hx] Hxy. split; [|done].
  destruct (join_fresh _ Hok _ _ _ _ El) as (? & Hne & ? & ? & ?).
  pose proof (joined_cend_other _ Hok _ _ _ _ El) as Hco.
  split.
  - apply set_free_mem_ok. exact (joined_ok _ Hok _ _ _ _ El Hp Hq).
  - eapply (free_tree_ok_ext a); [| |apply (free_tree_erase a _ _ y Hft)].
    + intros z. change (is_free (set_a_free_buffers t (joined a p q)) z) with (is_free (joined a p q) z).
      rewrite (joined_is_free _ Hok _ _ _ _ El). naive_solver.
    + intros z Hz. change (cend (joined a p q) z = cend a z). apply Hco; naive_solver.
    + naive_solver.
  - eapply used_tree_ok_ext; [|exact Hut]. intros z.
    change (is_used (set_a_free_buffers t (joined a p q)) z) with (is_used (joined a p q) z).
    rewrite (joined_is_used _ Hok _ _ _ _ El). split; [|tauto]. intros Hz. split; [done|]. intros ->.
    destruct Hz as (? & ? & ?), Hq as (? & ? & ?). congruence.
  - intros z w. simpl. intros Hz Hw. unfold fits, csize.
    change (cend (set_a_free_buffers t (joined a p q)) z) with (cend (joined a p q) z).
    destruct (decide (z = q)) as [->|]; [by rewrite lookup_delete_eq in Hz|].
    rewrite lookup_delete_ne in Hz by done. rewrite Hco; [by apply Hfits| |done].
    intros ->. destruct Hp as (? & ? & ?). congruence.
  - destruct Hasync as [Ha1 Ha2]. split; [done|].
    change (a_free_async_space a + async_used (joined a p q) = a_buffer_size a / 2).
    rewrite <-Ha2. f_equal.
    rewrite (async_used_replace a (joined a p q) (l1 ++ [p]) l2 [q] []).
    + simpl. rewrite (header_cost_free a q) by done. lia.
    + by rewrite El, <-(assoc_L (++)).
    + by rewrite (joined_list _ Hok _ _ _ _ El), <-(assoc_L (++)).
    + intros z Hz. simpl. rewrite lookup_delete_ne; [done|]. intros <-. set_solver.
  - change (is_free (joined a p q) p). by apply (joined_is_free _ Hok _ _ _ _ El).
Qed.
End join_unfiled.

(** ** The whole of [binder_free_buf] *)

Definition freeb (a : balloc) (h : Z) : bool :=
  match a_headers a !! h with Some b => b_free b | None => false end.

Lemma freeb_spec a h : freeb a h = true ↔ is_free a h.
Proof.
  unfold freeb, is_free. destruct (a_headers a !! h) as [b|]; [|naive_solver].
  split; [eauto|by intros (? & [= ->] & ?)].
Qed.

(** What is left of the headers after, and up to, the chunk. *)
Definition drop_free_next (a : balloc) (l2 : list Z) : list Z :=
  match l2 with n :: l2' => if freeb a n then l2' else l2 | [] => [] end.
Definition keep_if_used_prev (a : balloc) (l1 : list Z) (b : Z) : list Z :=
  match last l1 with Some p => if freeb a p then [] else [b] | None => [b] end.

Section free_buf.
Context `{RbKernel}.
Context (env : mm_env) (a : balloc) (Hwf : wf a) (b : Z) (h : buffer).
Context (Hb : a_headers a !! b = Some h) (Hbu : b_free h = false) (Hbt : b_transaction h = None).
Context (l1 l2 : list Z) (El : a_list a = l1 ++ b :: l2).

Local Lemma free_ok : mem_ok (hole a) a.
Proof. apply Hwf. Qed.
Local Lemma free_in : b ∈ a_list a.
Proof. rewrite El. set_solver. Qed.

Let F := released a b h.

Lemma released_async_space :
  (when b_async_transaction h do
     modify (λ a, set_a_free_async_space (u32 (a_free_async_space a + u32 (need h + BUF_HDR))) a)) a =
  Ret tt (set_a_free_async_space (a_free_async_space F) a).
Proof.
  pose proof free_ok as Hok. destruct (wf_fits _ Hwf b h Hb Hbu) as (? & ? & Hfit).
  pose proof (round4_bounds (b_data_size h)). pose proof (round4_bounds (b_offsets_size h)).
  pose proof (released_unfiled a Hwf b h Hb Hbu) as [_ _ _ Hfits Has _].
  apply async_used_nonneg in Hfits. simpl in Has, Hfits. destruct (wf_async _ Hwf) as [Ha _].
  pose proof (mo_top _ _ Hok). destruct (mo_base _ _ Hok).
  assert (a_buffer_size a / 2 < 2 ^ 31) by (unfold area_end in *; divmod_lia).
  unfold F. simpl. destruct (b_async_transaction h); [|by destruct a].
  unfold modify. f_equal. f_equal. unfold need, BUF_HDR in *.
  rewrite (u32_small (_ + 40)) by lia. apply u32_small. lia.
Qed.

(** The first part: no check fires and the chunk is taken out of use. *)
Lemma free_buf_release {B} (k : M balloc B) :
  (buffer_size <- binder_buffer_size b ;;
   h <- get_buf b ;;
   let size := buffer_need (b_data_size h) (b_offsets_size h) in
   a <- getst ;;
   bug_on (b_free h) ;;;
   bug_on (bool_decide (size > buffer_size)) ;;;
   bug_on (bool_decide (b_transaction h ≠ None)) ;;;
   bug_on (bool_decide (b < a_buffer a)) ;;;
   bug_on (bool_decide (b > a_buffer a + a_buffer_size a)) ;;;
   (when b_async_transaction h do
      modify (λ a, set_a_free_async_space (u32 (a_free_async_space a + u32 (size + BUF_HDR))) a)) ;;;
   let data := b + BUF_HDR in
   binder_update_page_range env false (PAGE_ALIGN data) (page_mask (u32 (data + buffer_size))) false ;;;
   a <- getst ;;
   modify (set_a_allocated_buffers (rb_erase b (a_allocated_buffers a))) ;;;
   put_buf b (set_b_free true) ;;;
   k) a = k F.
Proof.
  pose proof free_ok as Hok. pose proof free_in as Hbl. destruct (chunk_bounds _ _ Hok b Hbl) as (? & ? & ?).
  destruct (wf_fits _ Hwf b h Hb Hbu) as (? & ? & Hfit). unfold need in Hfit.
  pose proof (round4_bounds (b_data_size h)). pose proof (round4_bounds (b_offsets_size h)).
  pose proof (csize_nonneg _ _ Hok b Hbl). pose proof (mo_top _ _ Hok). destruct (mo_base _ _ Hok).
  assert (E : cend a b = b + BUF_HDR + csize a b) by (unfold csize; lia).
  rewrite (bind_of _ (binder_buffer_size_ok _ _ Hok b Hbl)), (bind_of _ (get_buf_ok _ _ Hok b h Hb)).
  cbv zeta. rewrite buffer_need_small by lia. run. fold (need h).
  unfold area_end, PAGE_SIZE, BUF_HDR in *.
  rewrite bind_bug_on by done. rewrite bind_bug_on by (apply bool_decide_eq_false; unfold need; lia).
  rewrite bind_bug_on by (apply bool_decide_eq_false; rewrite Hbt; by intros []).
  rewrite bind_bug_on by (apply bool_decide_eq_false; lia).
  rewrite bind_bug_on by (apply bool_decide_eq_false; lia).
  pose proof released_async_space as Has. unfold BUF_HDR in Has. rewrite (bind_of _ Has).
  set (a1 := set_a_free_async_space _ a).
  rewrite <-E, (u32_small (cend a b)) by lia.
  assert (Hok1 : mem_ok (hole a) a1) by by apply mem_ok_async.
  destruct (page_index_page_mask _ _ Hok1 (cend a b)) as [E1 E1m]; [unfold area_end; simpl; lia|].
  destruct (page_index_PAGE_ALIGN _ _ Hok1 (b + 40)) as [E2 E2m]; [unfold area_end; simpl; lia|].
  destruct (update_free_ok env (PAGE_ALIGN (b + 40)) (page_mask (cend a b)) false a1) as [r Er].
  { divmod_lia. }
  { intros i. rewrite E1, E2. intros Hi. apply (gap_backed _ _ Hok b i Hbl).
    - unfold in_gap, BUF_HDR. change (page_index a1) with (page_index a) in Hi. lia.
    - intros [(x & ? & ?) _]. congruence. }
  rewrite (bind_of _ Er), E1, E2. run. set (a2 := set_a_allocated_buffers _ _).
  change (page_index a1) with (page_index a) in *.
  pose proof (mem_ok_unmap (hole a) b (gap_lo a b) (gap_hi a b) a1 Hbl) as Hok2.
  specialize (Hok2 ltac:(intros i; change (in_gap a1 b i) with (in_gap a b i); unfold in_gap, gap_lo, gap_hi; lia) Hok1).
  apply (set_used_mem_ok _ (rb_erase b (a_allocated_buffers a))) in Hok2.
  by rewrite (bind_of _ (put_buf_ok _ a2 Hok2 b h _ Hb)).
Qed.

Definition same_area (a' : balloc) : Prop :=
  a_vma a' = a_vma a ∧ a_buffer a' = a_buffer a ∧ a_buffer_size a' = a_buffer_size a ∧
  a_user_buffer_offset a' = a_user_buffer_offset a ∧ a_free_async_space a' = a_free_async_space F ∧
  ∀ x, x ∈ a_list a' → a_headers a' !! x = a_headers F !! x.

Local Lemma F_unfiled : unfiled b F.
Proof. by apply released_unfiled. Qed.

Local Lemma F_coalesced x : is_free F x → is_free F (cend F x) → x = b ∨ cend F x = b.
Proof.
  unfold F. rewrite !released_is_free by done. change (cend (released a b h) x) with (cend a x).
  intros [?|Hx] [?|Hc]; auto. destruct (wf_coalesced _ Hwf x Hx Hc).
Qed.

Local Lemma mid_fresh : (b ∉ l1) ∧ b ∉ l2.
Proof.
  pose proof (mem_ok_NoDup _ _ free_ok) as Hnd. rewrite El in Hnd.
  apply NoDup_app in Hnd as (_ & Hd & [? _]%NoDup_cons). set_solver.
Qed.

Local Lemma F_header x : x ≠ b → a_headers F !! x = a_headers a !! x.
Proof. intros. unfold F. simpl. by rewrite lookup_insert_ne. Qed.

Local Lemma F_get x : x ∈ a_list a → x ≠ b → ∃ hx, get_buf x F = Ret hx F ∧ b_free hx = freeb a x.
Proof.
  intros Hx Hne. destruct (header_is_Some _ _ free_ok x Hx) as [hx Hhx]. exists hx.
  split; [|unfold freeb; by rewrite Hhx].
  apply (get_buf_ok _ _ (uf_mem _ _ F_unfiled)). by rewrite F_header.
Qed.

Local Lemma cend_b : cend F b = default (area_end a) (head l2).
Proof.
  change (cend F b) with (cend a b). unfold cend. rewrite El. apply chunk_end_mid, mid_fresh.
Qed.

Local Lemma area_end_not_free H' a' : mem_ok H' a' → ¬ is_free a' (area_end a').
Proof.
  intros Hok Hf%(is_free_in _ _ _ Hok). destruct (mo_in _ _ Hok _ Hf). unfold BUF_HDR in *. lia.
Qed.

(** The second part joins the chunk with the next one. *)
Lemma free_buf_next :
  ∃ a1, (nx <- buf_next b ;;
    match nx with
    | Some next =>
        hn <- get_buf next ;;
        when b_free hn do (
          a <- getst ;;
          modify (set_a_free_buffers (rb_erase next (a_free_buffers a))) ;;;
          binder_delete_free_buffer env next)
    | None => ret tt
    end) F = Ret tt a1 ∧
    unfiled b a1 ∧ same_area a1 ∧ a_list a1 = l1 ++ b :: drop_free_next a l2 ∧
    (∀ x, is_free a1 x → is_free a1 (cend a1 x) → cend a1 x = b).
Proof.
  pose proof F_unfiled as Hu. pose proof (uf_mem _ _ Hu) as HokF. destruct mid_fresh as [Hb1 Hb2].
  rewrite (bind_of _ (buf_next_mid _ _ _ _ _ HokF El)).
  assert (Hsame : same_area F) by done.
  pose proof cend_b as Hcb. destruct l2 as [|n l2']; simpl.
  { exists F. split_and!; try done. intros x Hx Hc.
    destruct (F_coalesced x Hx Hc) as [->|?]; [|done]. rewrite Hcb in Hc. simpl in Hc.
    by apply (area_end_not_free _ F HokF) in Hc. }
  assert (n ≠ b) as Hnb by set_solver.
  destruct (F_get n) as (hn & En & Hn); [rewrite El; set_solver|done|].
  rewrite (bind_of _ En), Hn. destruct (freeb a n) eqn:Efn.
  2:{ exists F. split_and!; try done. intros x Hx Hc.
      destruct (F_coalesced x Hx Hc) as [->|?]; [|done]. rewrite Hcb in Hc. simpl in Hc.
      unfold F in Hc. apply released_is_free in Hc as [?|Hc%freeb_spec]; try done. congruence. }
  apply freeb_spec in Efn. assert (is_free F n) as HnF by (unfold F; apply released_is_free; auto).
  destruct (joined_unfiled F l1 l2' b n El (uf_b _ _ Hu) HnF b n Hu) as [Hu' Ej]; [by left|].
  run. exists (joined (set_a_free_buffers (rb_erase n (a_free_buffers F)) F) b n).
  split_and!.
  - set (F' := set_a_free_buffers (rb_erase n (a_free_buffers F)) F).
    by apply (binder_delete_free_buffer_ok env F' (set_free_mem_ok _ _ _ HokF) l1 l2' b n El (uf_b _ _ Hu)).
  - by rewrite <-Ej.
  - rewrite <-Ej. split_and!; try done. intros x Hx.
    apply (joined_elem F HokF _ _ _ _ El) in Hx as [_ Hx]. simpl. by rewrite lookup_delete_ne.
  - rewrite <-Ej. exact (joined_list F HokF _ _ _ _ El).
  - rewrite <-Ej. intros x.
    change (is_free (joined F b n) x → is_free (joined F b n) (cend (joined F b n) x) → cend (joined F b n) x = b).
    rewrite !(joined_is_free F HokF _ _ _ _ El). intros [Hx Hxn] [Hc Hcn].
    destruct (decide (x = b)) as [->|Hxb].
    + rewrite (joined_cend_p F HokF _ _ _ _ El) in *.
      destruct (F_coalesced n) as [?|?]; [done..| |done]. done.
    + rewrite (joined_cend_other F HokF _ _ _ _ El) in * by done.
      by destruct (F_coalesced x) as [?|?].
Qed.

(** The third part joins the chunk with the previous one. *)
Lemma free_buf_prev a1 l2' :
  unfiled b a1 → same_area a1 → a_list a1 = l1 ++ b :: l2' →
  (∀ x, is_free a1 x → is_free a1 (cend a1 x) → cend a1 x = b) →
  ∃ m a2, (p <- buf_prev b ;;
    match p with
    | Some prev =>
        hp <- get_buf prev ;;
        if b_free hp then
          binder_delete_free_buffer env b ;;;
          a <- getst ;;
          modify (set_a_free_buffers (rb_erase prev (a_free_buffers a))) ;;;
          ret prev
        else ret b
    | None => ret b
    end) a1 = Ret m a2 ∧
    unfiled m a2 ∧ same_area a2 ∧ a_list a2 = l1 ++ keep_if_used_prev a l1 b ++ l2' ∧
    (∀ x, is_free a2 x → is_free a2 (cend a2 x) → False).
Proof.
  intros Hu Hsame El1 Hco. pose proof (uf_mem _ _ Hu) as Hok1. destruct mid_fresh as [Hb1 Hb2].
  rewrite (bind_of _ (buf_prev_ok _ _ _ _ _ Hok1 El1)). unfold keep_if_used_prev.
  destruct (last l1) as [p|] eqn:Ep.
  2:{ apply last_None in Ep as ->. exists b, a1. split_and!; try done. intros x Hx Hc.
      pose proof (Hco x Hx Hc) as E. apply (is_free_in _ _ _ Hok1) in Hx.
      destruct (cend_bounds _ _ Hok1 x Hx) as [Hxb _]. rewrite El1 in Hx.
      pose proof (mo_spaced _ _ Hok1) as Hs. rewrite El1 in Hs. apply StronglySorted_inv in Hs as [_ Hs].
      rewrite Forall_forall in Hs. apply elem_of_cons in Hx as [->|Hx%Hs]; unfold BUF_HDR in *; lia. }
  apply last_Some in Ep as [l1' ->]. rewrite <-(assoc_L (++)) in El1. simpl in El1.
  assert (p ≠ b) as Hpb by set_solver.
  assert (p ∈ a_list a1) as Hpl by (rewrite El1; set_solver).
  destruct (header_is_Some _ _ Hok1 p Hpl) as [hp Hhp].
  assert (b_free hp = freeb a p) as Hfp.
  { destruct Hsame as (_ & _ & _ & _ & _ & Hh). rewrite (Hh p Hpl), F_header in Hhp by done.
    unfold freeb. by rewrite Hhp. }
  rewrite (bind_of _ (get_buf_ok _ _ Hok1 p hp Hhp)), Hfp.
  assert (cend a1 p = b) as Hcp by exact (join_cend_p a1 Hok1 _ _ _ _ El1).
  destruct (freeb a p) eqn:Efp.
  - assert (is_free a1 p) as Hpf by by exists hp.
    rewrite (bind_of _ (binder_delete_free_buffer_ok env a1 Hok1 l1' l2' p b El1 Hpf)). run.
    destruct (joined_unfiled a1 l1' l2' p b El1 Hpf (uf_b _ _ Hu) b p Hu) as [Hu' _]; [by right|].
    eexists p, _. split; [reflexivity|]. split; [exact Hu'|].
    change (a_free_buffers (joined a1 p b)) with (a_free_buffers a1).
    split_and!.
    + destruct Hsame as (? & ? & ? & ? & ? & Hh). split_and!; try done.
      intros x [Hx Hxb]%(joined_elem a1 Hok1 _ _ _ _ El1). simpl. rewrite lookup_delete_ne by done. by apply Hh.
    + rewrite <-(assoc_L (++)). exact (joined_list a1 Hok1 _ _ _ _ El1).
    + intros x.
      change (is_free (joined a1 p b) x → is_free (joined a1 p b) (cend (joined a1 p b) x) → False).
      rewrite !(joined_is_free a1 Hok1 _ _ _ _ El1). intros [Hx Hxb] [Hc Hcb].
      destruct (decide (x = p)) as [->|Hxp].
      * rewrite (joined_cend_p a1 Hok1 _ _ _ _ El1) in *. specialize (Hco b (uf_b _ _ Hu) Hc). done.
      * rewrite (joined_cend_other a1 Hok1 _ _ _ _ El1) in * by done. by specialize (Hco x Hx Hc).
  - exists b, a1. split_and!; try done; [by rewrite <-(assoc_L (++))|]. intros x Hx Hc.
    pose proof (Hco x Hx Hc) as E.
    assert (x = p) as ->; [|destruct Hx as (? & ? & ?); congruence].
    apply (cend_inj _ _ _ _ Hok1); [by apply (is_free_in _ _ _ Hok1)|done|congruence].
Qed.

(** [binder_free_buf] never fails a check, restores the invariant and merges. *)
Lemma binder_free_buf_ok :
  ∃ a', binder_free_buf env b a = Ret tt a' ∧ wf a' ∧ same_area a' ∧
    a_list a' = l1 ++ keep_if_used_prev a l1 b ++ drop_free_next a l2.
Proof.
  unfold binder_free_buf. rewrite free_buf_release.
  destruct free_buf_next as (a1 & E1 & Hu1 & Hs1 & El1 & Hc1). rewrite <-bind_bind, (bind_of _ E1).
  destruct (free_buf_prev a1 _ Hu1 Hs1 El1 Hc1) as (m & a2 & E2 & Hu2 & Hs2 & El2 & Hc2).
  rewrite <-bind_bind, (bind_of _ E2). destruct Hu2 as [Hok2 Hft Hut Hfits Has Hm].
  destruct (insert_free_ok _ a2 Hok2 (λ x, is_free a2 x ∧ x ≠ m) m Hft) as (t & Et & Ht);
    [by intros x [? _]|done|by intros [_ ?]|].
  exists (set_a_free_buffers t a2). split_and!; [done| |exact Hs2|done].
  split; try done.
  - by apply set_free_mem_ok.
  - eapply free_tree_ok_ext; [|intros; reflexivity|exact Ht]. intros x. simpl.
    change (is_free (set_a_free_buffers t a2) x) with (is_free a2 x).
    destruct (decide (x = m)) as [->|]; naive_solver.
Qed.
End free_buf.
