(* ===== verification/BinderAllocSpec.v ===== *)
(** * Correctness of the buffer allocator

    The contract of [binder_alloc_buf], [binder_free_buf] and
    [binder_buffer_lookup] on every well-formed allocator, and what it gives to
    their callers: every sequence of calls keeps the allocator well formed,
    buffers in use never overlap, and no memory is lost. *)

From Stdlib Require Import ZArith Lia.
From stdpp Require Import base tactics list sets gmap sorting.
From S2P Require Import Prelude Rbtree BinderAlloc BinderAllocShape BinderAllocWf BinderAllocStep BinderAllocRun BinderAllocFree.

Definition size_needed (ds os : Z) : Z := round4 ds + round4 os.

(** What a successful allocation returns and changes. *)
Record alloc_post (env : mm_env) (a : balloc) (ds os : Z) (is_async : bool) (b : Z) (a' : balloc) : Prop := {
  ap_vma : a_vma a = true;
  ap_free : is_free a b;
  ap_fits : size_needed ds os ≤ csize a b;
  ap_best : ∀ x, is_free a x → size_needed ds os ≤ csize a x → csize a b ≤ csize a x;
  ap_back : can_back env a b ds os;
  ap_header : ∃ h, a_headers a !! b = Some h ∧
    a_headers a' !! b = Some (set_b_sizes ds os is_async (set_b_free false h));
  ap_list : a_list a' = if leaves_room (csize a b) (size_needed ds os)
    then insert_after b (b + BUF_HDR + size_needed ds os) (a_list a) else a_list a;
  ap_new : ∀ x, x ∈ a_list a' → x ∉ a_list a → is_free a' x;
  ap_others : ∀ x, x ∈ a_list a → x ≠ b → a_headers a' !! x = a_headers a !! x ∧ csize a' x = csize a x;
  ap_async : is_async = true → size_needed ds os + BUF_HDR ≤ a_free_async_space a;
  ap_space : a_free_async_space a' =
    if is_async then a_free_async_space a - (size_needed ds os + BUF_HDR) else a_free_async_space a;
  ap_area : a_vma a' = a_vma a ∧ a_buffer a' = a_buffer a ∧ a_buffer_size a' = a_buffer_size a ∧
    a_user_buffer_offset a' = a_user_buffer_offset a
}.

(** Why an allocation is refused. *)
Inductive alloc_refused (env : mm_env) (a : balloc) (ds os : Z) (is_async : bool) : Prop :=
  | RefusedNoVma : a_vma a = false → alloc_refused env a ds os is_async
  | RefusedTooLarge : 2 ^ 32 ≤ size_needed ds os → alloc_refused env a ds os is_async
  | RefusedAsyncSpace :
      is_async = true → a_free_async_space a < size_needed ds os + BUF_HDR → alloc_refused env a ds os is_async
  | RefusedNoChunk :
      (∀ x, is_free a x → csize a x < size_needed ds os) → alloc_refused env a ds os is_async
  | RefusedNoPages b :
      is_free a b → size_needed ds os ≤ csize a b →
      (∀ x, is_free a x → size_needed ds os ≤ csize a x → csize a b ≤ csize a x) →
      ¬ can_back env a b ds os → alloc_refused env a ds os is_async.

Section helpers.
Context `{RbKernel}.

(** The driver's overflow test refuses exactly the requests that do not fit 32 bits. *)
Lemma overflow_check ds os :
  0 ≤ ds < 2 ^ 32 → 0 ≤ os < 2 ^ 32 →
  (buffer_need ds os < ds ∨ buffer_need ds os < os) ∧ 2 ^ 32 ≤ size_needed ds os ∨
  ¬ (buffer_need ds os < ds ∨ buffer_need ds os < os) ∧
    buffer_need ds os = size_needed ds os ∧ size_needed ds os < 2 ^ 32.
Proof.
  intros Hd Ho. unfold size_needed. pose proof (round4_bounds ds). pose proof (round4_bounds os).
  destruct (decide (round4 ds + round4 os < 2 ^ 32)).
  - right. rewrite buffer_need_small by lia. lia.
  - left. split; [|lia]. destruct (decide (buffer_need ds os < ds)); [by left|].
    destruct (decide (buffer_need ds os < os)); [by right|].
    pose proof (buffer_need_exact ds os Hd Ho ltac:(lia) ltac:(lia)).
    pose proof (u32_range (ALIGN ds PTR_SIZE + ALIGN os PTR_SIZE)). unfold buffer_need in *. lia.
Qed.

Lemma alloc_result_post env a b h ds os is_async t t' :
  wf a → a_headers a !! b = Some h → b_free h = true → 0 ≤ ds → 0 ≤ os →
  size_needed ds os ≤ csize a b → a_vma a = true → can_back env a b ds os →
  (is_async = true → size_needed ds os + BUF_HDR ≤ a_free_async_space a) →
  (∀ x, is_free a x → size_needed ds os ≤ csize a x → csize a b ≤ csize a x) →
  alloc_post env a ds os is_async b (alloc_result a b h ds os is_async t t').
Proof.
  intros Hwf Hb Hbf Hds Hos Hs Hv Hback Has Hbest. split; try done.
  - by exists h.
  - exists h. split; [done|]. erewrite result_header by done. by rewrite decide_True.
  - intros x Hx Hn. erewrite result_elem in Hx by done. destruct Hx as [[Hr ->]|?]; [|done].
    erewrite result_is_free by done. by left.
  - intros x Hx Hne. unfold csize. erewrite result_header, result_cend by done.
    rewrite !(decide_False (P := x = b)) by done. case_match eqn:Er; [|done].
    destruct (result_new a Hwf b h Hb ds os Hds Hos Er) as [Hn _].
    rewrite !decide_False; [done|congruence..].
Qed.

(** The chunk the search chooses. *)
Lemma best_fit_wf a size :
  wf a →
  ∃ r, best_fit size (a_free_buffers a) None a = Ret r a ∧
    ((∃ b exact, r = (Some b, exact) ∧ is_free a b ∧
        (if exact : bool then size = csize a b else size < csize a b) ∧
        ∀ x, is_free a x → size ≤ csize a x → csize a b ≤ csize a x) ∨
     r = (None, false) ∧ ∀ x, is_free a x → csize a x < size).
Proof.
  intros Hwf. destruct (wf_free _ Hwf) as (_ & Hin & Hs).
  destruct (best_fit_ok _ a (wf_mem _ Hwf) size (a_free_buffers a) None) as (r & E & Hr);
    [intros; by apply Hin|done|].
  exists r. split; [exact E|]. setoid_rewrite Hin in Hr.
  destruct Hr as [(b & -> & Hb & ?)|[(b & -> & Hb & ? & Hmin)|(-> & Hno)]].
  - left. exists b, true. split_and!; [done..|]. intros. lia.
  - left. exists b, false. by split_and!.
  - by right.
Qed.
End helpers.

Lemma binder_alloc_buf_ok `{RbKernel} env a ds os is_async :
  wf a → 0 ≤ ds < 2 ^ 32 → 0 ≤ os < 2 ^ 32 →
  (∃ b a', binder_alloc_buf env ds os is_async a = Ret (Some b) a' ∧
     wf a' ∧ alloc_post env a ds os is_async b a') ∨
  (binder_alloc_buf env ds os is_async a = Ret None a ∧ alloc_refused env a ds os is_async).
Proof.
  intros Hwf Hd Ho. unfold binder_alloc_buf. run.
  destruct (a_vma a) eqn:Hv; [|right; split; [done|by apply RefusedNoVma]]. simpl.
  destruct (overflow_check ds os Hd Ho) as [[Hov Hbig]|(Hov & E & Hsmall)].
  { rewrite decide_True by done. right. split; [done|by apply RefusedTooLarge]. }
  rewrite decide_False by done. rewrite E. clear E Hov.
  destruct (best_fit_wf a (size_needed ds os) Hwf) as (r & Er & Hr).
  destruct (is_async && _) eqn:Has.
  { apply andb_prop in Has as [-> Hlt%bool_decide_eq_true]. right. split; [done|].
    apply RefusedAsyncSpace; [done|]. unfold u32 in Hlt.
    pose proof (Z.mod_le (size_needed ds os + BUF_HDR) (2 ^ 32)). unfold BUF_HDR, size_needed in *.
    pose proof (round4_bounds ds). pose proof (round4_bounds os). lia. }
  rewrite (bind_of _ Er). destruct Hr as [(b & exact & -> & Hbf & Hex & Hmin)|[-> Hno]].
  2:{ right. split; [done|by apply RefusedNoChunk]. }
  assert (size_needed ds os ≤ csize a b) as Hfit by (destruct exact; lia).
  assert (is_async = true → size_needed ds os + BUF_HDR ≤ a_free_async_space a) as Hspace.
  { intros ->. apply bool_decide_eq_false in Has. rewrite u32_small in Has; [lia|].
    assert (b ∈ a_list a) as Hbl by by apply (is_free_in _ _ _ (wf_mem _ Hwf)).
    destruct (chunk_bounds _ _ (wf_mem _ Hwf) b Hbl) as (? & ? & ?).
    pose proof (mo_top _ _ (wf_mem _ Hwf)). destruct (mo_base _ _ (wf_mem _ Hwf)).
    pose proof (round4_bounds ds). pose proof (round4_bounds os).
    unfold size_needed, csize, PAGE_SIZE, BUF_HDR in *. lia. }
  destruct Hbf as (h & Hb & Hf).
  destruct (alloc_from_ok env a Hwf b h Hb Hf ds os is_async ltac:(lia) ltac:(lia) Hfit Hspace exact Hex)
    as [(Hcan & t & t' & Et & Hwf')|[Hcant Et]].
  - left. exists b, (alloc_result a b h ds os is_async t t'). split_and!; [exact Et|done|].
    apply alloc_result_post; by (done || lia).
  - right. split; [exact Et|]. eapply RefusedNoPages; [by exists h|done..].
Qed.


(** ** Allocation and release *)

(** C21: on a well-formed allocator [binder_alloc_buf] never crashes.  Either it
    returns a free chunk that is large enough and the smallest such, now in use
    with the sizes that were asked for, the rest of it cut off as a new free
    chunk exactly when it can hold a header and data, every other chunk
    untouched, the asynchronous space charged, and the allocator well formed
    again; or it returns NULL for one of the five listed reasons, and changes
    nothing, even when it fails half-way through backing the pages. *)
Theorem binder_alloc_buf_spec `{RbKernel} env a ds os is_async :
  wf a → 0 ≤ ds < 2 ^ 32 → 0 ≤ os < 2 ^ 32 →
  (∃ b a', binder_alloc_buf env ds os is_async a = Ret (Some b) a' ∧
     wf a' ∧ alloc_post env a ds os is_async b a') ∨
  (binder_alloc_buf env ds os is_async a = Ret None a ∧ alloc_refused env a ds os is_async).
Proof. apply binder_alloc_buf_ok. Qed.

(** C22: [binder_free_buf], on a buffer in use that no transaction refers to,
    passes all the checks it makes, joins the chunk with the free chunks before
    and after it, returns the asynchronous space, leaves all other buffers as
    they are, and restores the invariant, in which no two free chunks touch and
    no page that is in no header and no buffer in use stays backed. *)
Theorem binder_free_buf_spec `{RbKernel} env a b h l1 l2 :
  wf a → a_headers a !! b = Some h → b_free h = false → b_transaction h = None →
  a_list a = l1 ++ b :: l2 →
  ∃ a', binder_free_buf env b a = Ret tt a' ∧ wf a' ∧
    a_list a' = l1 ++ keep_if_used_prev a l1 b ++ drop_free_next a l2 ∧
    (∀ x, x ∈ a_list a' → a_headers a' !! x = if decide (x = b) then Some (set_b_free true h) else a_headers a !! x) ∧
    a_free_async_space a' =
      (if b_async_transaction h then a_free_async_space a + (need h + BUF_HDR) else a_free_async_space a) ∧
    a_vma a' = a_vma a ∧ a_buffer a' = a_buffer a ∧ a_buffer_size a' = a_buffer_size a.
Proof.
  intros Hwf Hb Hbu Hbt El.
  destruct (binder_free_buf_ok env a Hwf b h Hb Hbu Hbt l1 l2 El)
    as (a' & E & Hwf' & (Ev & Eb & Es & _ & Ea & Hh) & El').
  exists a'. split_and!; try done. intros x Hx. rewrite (Hh x Hx). unfold released. simpl.
  case_decide as Hxb; subst; [by rewrite lookup_insert_eq|by rewrite lookup_insert_ne].
Qed.

(** ** What the invariant gives *)

Lemma wf_header_ext a b h h' :
  wf a → a_headers a !! b = Some h → b_free h' = b_free h →
  b_data_size h' = b_data_size h → b_offsets_size h' = b_offsets_size h →
  b_async_transaction h' = b_async_transaction h →
  wf (set_a_headers (<[b := h']>) a).
Proof.
  intros [Hok Hft Hut Hfits Hco Has] Hb Ef Ed Eo Ea. set (a' := set_a_headers _ a).
  assert (b ∈ a_list a) as Hbl by (apply (mo_headers _ _ Hok); eauto).
  assert (∀ (P : bool → Prop) x, (∃ y, a_headers a' !! x = Some y ∧ P (b_free y)) ↔
    ∃ y, a_headers a !! x = Some y ∧ P (b_free y)) as HP.
  { intros P x. unfold a'. simpl. destruct (decide (x = b)) as [->|]; [|by rewrite lookup_insert_ne].
    rewrite lookup_insert_eq. split; intros (y & E & Hy); simplify_eq; eexists; (split; [done|]); congruence. }
  assert (∀ x, is_free a' x ↔ is_free a x) as HF by (intros x; apply (HP (λ v, v = true))).
  assert (∀ x, is_used a' x ↔ is_used a x) as HU by (intros x; apply (HP (λ v, v = false))).
  split.
  - eapply mem_ok_ext; [|apply mem_ok_header; [exact Hbl|exact Hok]]. intros x i _. unfold hole. by rewrite HF.
  - eapply (free_tree_ok_ext a); [intros; symmetry; apply HF|done|exact Hft].
  - eapply used_tree_ok_ext; [intros; symmetry; apply HU|exact Hut].
  - intros x y. unfold a'. simpl. destruct (decide (x = b)) as [->|].
    + rewrite lookup_insert_eq. intros [= <-] Hu. rewrite Ef in Hu. specialize (Hfits b h Hb Hu).
      unfold fits, need in *. by rewrite Ed, Eo.
    + rewrite lookup_insert_ne by done. apply Hfits.
  - intros x. rewrite !HF. apply Hco.
  - destruct Has as [? Ha]. split; [done|].
    change (a_free_async_space a + async_used a' = a_buffer_size a / 2). rewrite <-Ha. f_equal. apply zsum_ext.
    intros x _. unfold header_cost, a'. simpl. destruct (decide (x = b)) as [->|]; [|by rewrite lookup_insert_ne].
    rewrite lookup_insert_eq, Hb. unfold async_cost, need. by rewrite Ef, Ed, Eo, Ea.
Qed.

(** The pages that are backed are determined by the chunks. *)
Lemma wf_pages a a' :
  wf a → wf a' → a_buffer a' = a_buffer a → a_buffer_size a' = a_buffer_size a →
  a_list a' = a_list a → (∀ x, x ∈ a_list a → is_free a' x ↔ is_free a x) → a_pages a' = a_pages a.
Proof.
  intros Hwf Hwf' Eb Es El Hf. apply set_eq. intros i.
  rewrite (mo_pages _ _ (wf_mem _ Hwf)), (mo_pages _ _ (wf_mem _ Hwf')), Es, El.
  apply and_iff_compat_l. unfold hole, in_gap, cend, area_end, page_index. rewrite Eb, Es, El.
  split; intros HH x Hx [Hfx Hi]; apply (HH x Hx); (split; [by apply Hf|done]).
Qed.

Section facts.
Context (a : balloc) (Hwf : wf a).

Lemma wf_list_split h : h ∈ a_list a → ∃ l1 l2, a_list a = l1 ++ h :: l2 ∧ (h ∉ l1) ∧ h ∉ l2.
Proof.
  intros Hh. destruct (spaced_split _ _ (mo_spaced _ _ (wf_mem _ Hwf)) Hh) as (l1 & l2 & ? & ? & ? & _).
  by exists l1, l2.
Qed.

Lemma free_or_used x : x ∈ a_list a → is_free a x ∨ is_used a x.
Proof.
  intros (y & Hy)%(header_is_Some _ _ (wf_mem _ Hwf)).
  destruct (b_free y) eqn:E; [left|right]; by exists y.
Qed.

Lemma not_free_used x : is_free a x → is_used a x → False.
Proof. intros (? & ? & ?) (? & ? & ?). congruence. Qed.
End facts.

(** A free chunk has no free neighbours. *)
Lemma free_neighbours a l1 b l2 :
  wf a → a_list a = l1 ++ b :: l2 → is_free a b →
  keep_if_used_prev a l1 b = [b] ∧ drop_free_next a l2 = l2.
Proof.
  intros Hwf El Hb. pose proof (wf_mem _ Hwf) as Hok. split.
  - unfold keep_if_used_prev. destruct (last l1) as [p|] eqn:Ep; [|done].
    apply last_Some in Ep as [l1' ->]. rewrite <-(assoc_L (++)) in El.
    destruct (freeb a p) eqn:Ef; [|done]. apply freeb_spec in Ef.
    destruct (wf_coalesced _ Hwf p Ef). by rewrite (join_cend_p a Hok _ _ _ _ El).
  - destruct l2 as [|n l2]; [done|]. simpl. destruct (freeb a n) eqn:Ef; [|done]. apply freeb_spec in Ef.
    destruct (wf_coalesced _ Hwf b Hb). by rewrite (join_cend_p a Hok _ _ _ _ El).
Qed.

(** ** Round trip *)

(** A buffer that is allocated, and freed once no transaction refers to it,
    leaves no trace: the chunks, the buffers in use, the pages that are backed
    and the asynchronous space are what they were, whatever the memory manager
    answers. *)
Theorem alloc_free_roundtrip `{RbKernel} env env' a ds os is_async b a1 :
  wf a → 0 ≤ ds < 2 ^ 32 → 0 ≤ os < 2 ^ 32 →
  binder_alloc_buf env ds os is_async a = Ret (Some b) a1 →
  ∃ a2, (put_buf b (set_b_transaction None) ;;; binder_free_buf env' b) a1 = Ret tt a2 ∧ wf a2 ∧
    a_list a2 = a_list a ∧ a_pages a2 = a_pages a ∧ a_free_async_space a2 = a_free_async_space a ∧
    ∀ x, x ∈ a_list a → (is_free a2 x ↔ is_free a x) ∧ (is_used a x → a_headers a2 !! x = a_headers a !! x).
Proof.
  intros Hwf Hd Ho Ea. destruct (binder_alloc_buf_ok env a ds os is_async Hwf Hd Ho)
    as [(b' & a' & E & Hwf1 & Hpost)|[E _]]; [|congruence].
  assert (b' = b ∧ a' = a1) as [-> ->] by (split; congruence). clear E.
  destruct (ap_header _ _ _ _ _ _ _ Hpost) as (h & Hh & Hh1).
  set (h1 := set_b_sizes ds os is_async (set_b_free false h)) in *.
  rewrite (bind_of _ (put_buf_ok _ _ (wf_mem _ Hwf1) b h1 _ Hh1)).
  set (a1' := set_a_headers _ a1). set (h1' := set_b_transaction None h1) in *.
  assert (wf a1') as Hwf1' by by eapply wf_header_ext.
  assert (a_headers a1' !! b = Some h1') as Hh1' by by unfold a1'; simpl; rewrite lookup_insert_eq.
  assert (b ∈ a_list a) as Hbl by (apply (mo_headers _ _ (wf_mem _ Hwf)); eauto).
  destruct (wf_list_split a Hwf b Hbl) as (l1 & l2 & El & Hb1 & Hb2).
  pose proof (ap_free _ _ _ _ _ _ _ Hpost) as Hbf.
  assert (Hsame : ∀ x, x ∈ a_list a → x ≠ b → a_headers a1' !! x = a_headers a !! x).
  { intros x Hx Hxb. unfold a1'. simpl. rewrite lookup_insert_ne by done. by apply Hpost. }
  assert (Hfb : ∀ x, x ∈ a_list a → x ≠ b → freeb a1' x = freeb a x).
  { intros. unfold freeb. by rewrite Hsame. }
  destruct (free_neighbours a l1 b l2 Hwf El Hbf) as [Hprev Hnext].
  assert (∃ l2', a_list a1' = l1 ++ b :: l2' ∧ drop_free_next a1' l2' = l2) as (l2' & El' & Hl2).
  { change (a_list a1') with (a_list a1). rewrite (ap_list _ _ _ _ _ _ _ Hpost).
    destruct (leaves_room _ _) eqn:Er.
    - rewrite El, insert_after_mid by done. eexists. split; [done|]. simpl.
      destruct (result_new a Hwf b h Hh ds os ltac:(lia) ltac:(lia) Er) as [Hn _].
      fold (size_needed ds os) in Hn. set (n := b + BUF_HDR + size_needed ds os) in *.
      assert (is_free a1 n) as (hn & Hhn & Hfn).
      { apply (ap_new _ _ _ _ _ _ _ Hpost); [|done]. rewrite (ap_list _ _ _ _ _ _ _ Hpost), Er, El.
        rewrite insert_after_mid by done. set_solver. }
      unfold freeb, a1'. simpl. rewrite lookup_insert_ne by (intros Ebn; by rewrite <-Ebn in Hn).
      rewrite Hhn, Hfn. done.
    - exists l2. split; [done|]. rewrite <-Hnext at 2. destruct l2 as [|n l2]; [done|]. simpl.
      rewrite Hfb; [done|rewrite El; set_solver|set_solver]. }
  destruct (binder_free_buf_ok env' a1' Hwf1' b h1' Hh1' eq_refl eq_refl l1 l2' El')
    as (a2 & E2 & Hwf2 & (_ & Eb2 & Es2 & _ & Ea2 & Hh2) & El2).
  assert (a_list a2 = a_list a) as El2'.
  { rewrite El2, Hl2, El. f_equal. change (b :: l2) with ([b] ++ l2). f_equal. rewrite <-Hprev. unfold keep_if_used_prev.
    destruct (last l1) as [p|] eqn:Ep; [|done]. apply last_Some in Ep as [l1' ->].
    rewrite Hfb; [done|rewrite El; set_solver|set_solver]. }
  assert (Hh2' : ∀ x, x ∈ a_list a → x ≠ b → a_headers a2 !! x = a_headers a !! x).
  { intros x Hx Hxb. rewrite Hh2 by (by rewrite El2'). unfold released. simpl.
    rewrite lookup_insert_ne by done. by apply Hsame. }
  assert (Hf2 : ∀ x, x ∈ a_list a → is_free a2 x ↔ is_free a x).
  { intros x Hx. destruct (decide (x = b)) as [->|Hxb]; [|unfold is_free; by rewrite Hh2'].
    split; [done|]. intros _. exists (set_b_free true h1'). split; [|done].
    rewrite Hh2 by (by rewrite El2'). unfold released. simpl. by rewrite lookup_insert_eq. }
  destruct (ap_area _ _ _ _ _ _ _ Hpost) as (_ & Eb1 & Es1 & _).
  exists a2. split_and!; [exact E2|done|done| | |].
  - apply wf_pages; [done|done| | |done|done]; [by rewrite Eb2|by rewrite Es2].
  - rewrite Ea2. unfold released, a1'. simpl. rewrite (ap_space _ _ _ _ _ _ _ Hpost).
    change (need h1') with (size_needed ds os). destruct is_async; lia.
  - intros x Hx. split; [by apply Hf2|]. intros Hu. apply Hh2'; [done|].
    intros ->. by eapply not_free_used.
Qed.

(** ** Lookup *)

(** The address at which the process sees the contents of buffer [b]. *)
Definition user_ptr (a : balloc) (b : Z) : Z := u32 (b + BUF_HDR + a_user_buffer_offset a).

Lemma kern_ptr_eq b off p :
  0 ≤ b < 2 ^ 32 → u32 (p - off - BUF_HDR) = b ↔ u32 p = u32 (b + BUF_HDR + off).
Proof.
  intros Hb. unfold u32. split; intros E.
  - rewrite <-(Z.mod_small b (2 ^ 32)) in E by lia. 
    replace p with ((p - off - BUF_HDR) + (BUF_HDR + off)) by lia.
    rewrite Zplus_mod, E, <-Zplus_mod. f_equal. lia.
  - replace (p - off - BUF_HDR) with (p + (- off - BUF_HDR)) by lia.
    rewrite Zplus_mod, E, <-Zplus_mod.
    replace (_ + _) with b by lia. by apply Z.mod_small.
Qed.

(** [binder_buffer_lookup] never crashes, changes nothing, and finds a
    buffer exactly when one in use has its contents at the given user address:
    every buffer handed to the process can be found back, and no other address
    is taken for a buffer. *)
Theorem binder_buffer_lookup_spec `{RbKernel} a p :
  wf a → 
  ∃ r, binder_buffer_lookup p a = Ret r a ∧ ∀ b, r = Some b ↔ is_used a b ∧ u32 p = user_ptr a b.
Proof.
  intros Hwf. destruct (wf_used _ Hwf) as [Hin Hs]. pose proof (wf_mem _ Hwf) as Hok.
  unfold binder_buffer_lookup. run. set (k := u32 _).
  set (cmp := λ x : Z, if decide (k < x) then Lt else if decide (k > x) then Gt else Eq).
  assert (∀ b, is_used a b → cmp b = Eq ↔ u32 p = user_ptr a b) as Hcmp.
  { intros b Hb%(is_used_in _ _ _ Hok). destruct (chunk_bounds _ _ Hok b Hb) as (? & ? & ?).
    pose proof (mo_top _ _ Hok). destruct (mo_base _ _ Hok).
    unfold user_ptr. rewrite <-kern_ptr_eq by (unfold PAGE_SIZE, BUF_HDR in *; lia). fold k.
    unfold cmp. repeat case_decide; split; try done; lia. }
  edestruct (rb_search_spec (λ b, h <- get_buf b ;; bug_on (b_free h) ;;;
      ret (if decide (k < b) then Lt else if decide (k > b) then Gt else Eq)) cmp
      (a_allocated_buffers a) a) as (r & E & Hr).
  { intros x Hx. apply Hin in Hx as (h & Hh & Hu).
    by rewrite (bind_of _ (get_buf_ok _ _ Hok x h Hh)), bind_bug_on. }
  { eapply StronglySorted_mono; [exact Hs|]. intros x y _ _ Hxy. unfold cmp.
    repeat case_decide; try done; lia. }
  exists r. split; [exact E|]. intros b. destruct r as [x|]; split.
  - intros [= <-]. destruct Hr as [Hx%Hin Hc]. split; [done|]. by apply Hcmp.
  - intros [Hb Hp]. apply Hcmp in Hp; [|done]. destruct Hr as [Hx%Hin Hc]. f_equal.
    unfold cmp in *. repeat case_decide; try done; lia.
  - done.
  - intros [Hb Hp]. apply Hcmp in Hp; [|done]. by destruct (Hr b); [apply Hin|].
Qed.

(** ** Memory safety *)

(** In a well-formed allocator the bytes of a buffer in use lie inside the
    area, all the pages they are in are backed, and the bytes of two different
    buffers in use never overlap. *)
Theorem buffers_safe a b h :
  wf a → a_headers a !! b = Some h → b_free h = false →
  (∀ x, b ≤ x < b + BUF_HDR + need h → a_buffer a ≤ x < area_end a ∧ page_index a x ∈ a_pages a) ∧
  ∀ b' h', a_headers a !! b' = Some h' → b_free h' = false → b ≠ b' →
    b + BUF_HDR + need h ≤ b' ∨ b' + BUF_HDR + need h' ≤ b.
Proof.
  intros Hwf Hb Hu. pose proof (wf_mem _ Hwf) as Hok.
  assert (∀ y hy, a_headers a !! y = Some hy → b_free hy = false →
    y ∈ a_list a ∧ a_buffer a ≤ y ∧ y + BUF_HDR + need hy ≤ cend a y ∧ cend a y ≤ area_end a) as Hfit.
  { intros y hy Hy Huy. assert (y ∈ a_list a) as Hyl by (apply (mo_headers _ _ Hok); eauto).
    destruct (chunk_bounds _ _ Hok y Hyl) as (? & ? & ?).
    destruct (wf_fits _ Hwf y hy Hy Huy) as (_ & _ & ?). unfold csize in *. split_and!; [done|lia..]. }
  destruct (Hfit b h Hb Hu) as (Hbl & Hlo & Hhi & Hend). split.
  - intros x Hx. split; [lia|]. destruct (decide (in_gap a b (page_index a x))) as [Hg|Hg].
    + apply (gap_backed _ _ Hok b); [done..|]. intros [Hf _]. eapply not_free_used; [done|]. by exists h.
    + pose proof (page_index_mono a b x). pose proof (page_index_mono a x (cend a b)).
      destruct (decide (page_index a x ≤ page_index a (b + BUF_HDR - 1))) as [Hx1|Hx1].
      * pose proof (header_mapped_ok _ _ Hok b Hbl) as Hm. unfold header_mapped in Hm.
        apply andb_prop in Hm as [Hm1%bool_decide_eq_true Hm2%bool_decide_eq_true].
        assert (page_index a (b + BUF_HDR - 1) ≤ page_index a b + 1) by (unfold page_index, BUF_HDR; divmod_lia).
        assert (page_index a x = page_index a b ∨ page_index a x = page_index a (b + BUF_HDR - 1))
          as [->| ->] by lia; done.
      * unfold in_gap in Hg. assert (page_index a x = page_index a (cend a b)) as -> by lia.
        destruct (cend_cases _ _ _ Hok Hbl) as [Hc|Hc].
        -- pose proof (header_mapped_ok _ _ Hok _ Hc) as Hm. unfold header_mapped in Hm.
           by apply andb_prop in Hm as [Hm1%bool_decide_eq_true _].
        -- pose proof (page_index_mono a x (area_end a - 1) ltac:(lia)).
           destruct (mo_base _ _ Hok), (mo_size _ _ Hok). rewrite Hc in *.
           unfold page_index, area_end in *. exfalso. divmod_lia.
  - intros b' h' Hb' Hu' Hne. destruct (Hfit b' h' Hb' Hu') as (Hbl' & ? & ? & ?).
    destruct (cend_bounds _ _ Hok b Hbl) as [_ Hn]. destruct (cend_bounds _ _ Hok b' Hbl') as [_ Hn'].
    specialize (Hn b' Hbl'). specialize (Hn' b Hbl). lia.
Qed.

(** Once the last buffer in use is freed, nothing is lost: the area is one
    free chunk again, all the asynchronous space is available and only the page
    of the first header stays backed. *)
Theorem no_leak a :
  wf a → (∀ h, ¬ is_used a h) →
  a_list a = [a_buffer a] ∧ a_free_async_space a = a_buffer_size a / 2 ∧ a_pages a = {[0]}.
Proof.
  intros Hwf Hno. pose proof (wf_mem _ Hwf) as Hok.
  assert (∀ x, x ∈ a_list a → is_free a x) as Hall.
  { intros x Hx. destruct (free_or_used a Hwf x Hx); [done|by destruct (Hno x)]. }
  pose proof (mo_head _ _ Hok) as Hhd. destruct (a_list a) as [|x [|y l]] eqn:El; simplify_eq/=.
  2:{ destruct (wf_coalesced _ Hwf (a_buffer a)); [apply Hall; set_solver|].
      rewrite (join_cend_p a Hok [] l _ y El). apply Hall. set_solver. }
  assert (cend a (a_buffer a) = area_end a) as Hce by (unfold cend; rewrite El; apply (chunk_end_mid _ [] _ []); set_solver).
  destruct (mo_base _ _ Hok), (mo_size _ _ Hok). split_and!; [done| |].
  - destruct (wf_async _ Hwf) as [_ <-]. unfold async_used. rewrite El. simpl.
    rewrite header_cost_free; [lia|]. apply Hall. set_solver.
  - apply set_eq. intros i. rewrite elem_of_singleton, (mo_pages _ _ Hok), El.
    assert (∀ j, hole a (a_buffer a) j ↔ 0 < j < a_buffer_size a / PAGE_SIZE) as Hh.
    { intros j. unfold hole, in_gap. rewrite Hce.
      assert (page_index a (a_buffer a + BUF_HDR - 1) = 0) as -> by (unfold page_index, BUF_HDR; divmod_lia).
      assert (page_index a (area_end a) = a_buffer_size a / PAGE_SIZE) as ->.
      { unfold page_index, area_end. f_equal. lia. }
      assert (is_free a (a_buffer a)) by (apply Hall; set_solver). tauto. }
    assert (0 < a_buffer_size a / PAGE_SIZE) by divmod_lia. split.
    + intros [Hi Hn]. specialize (Hn (a_buffer a) ltac:(set_solver)). rewrite Hh in Hn. lia.
    + intros ->. split; [lia|]. intros h ->%list_elem_of_singleton. rewrite Hh. lia.
Qed.

(** ** Setting up *)

(** The allocator of a process without a mapping. *)
Definition unmapped (a : balloc) : Prop :=
  a_vma a = false ∧ a_buffer a = 0 ∧ a_list a = [] ∧ a_headers a = ∅ ∧
  a_free_buffers a = RbLeaf ∧ a_allocated_buffers a = RbLeaf ∧ a_pages a = ∅.

Section fresh.
Context (base size off space : Z) (vma : bool) (t : rbtree).
Context (Hbase : 0 < base ∧ base mod PAGE_SIZE = 0) (Hsize : 0 < size ∧ size mod PAGE_SIZE = 0).
Context (Htop : base + size + PAGE_SIZE ≤ 2 ^ 32).

(** An area of one free chunk. *)
Definition fresh_area : balloc :=
  Balloc vma base off [base] {[base := set_b_free true blank_buffer]} t RbLeaf space {[0]} size.

Local Lemma fresh_is_free x : is_free fresh_area x ↔ x = base.
Proof.
  unfold is_free. simpl. split; [intros (? & [-> _]%lookup_singleton_Some & _); done|].
  intros ->. eexists. by rewrite lookup_singleton_eq.
Qed.

Local Lemma fresh_cend : cend fresh_area base = area_end fresh_area.
Proof. unfold cend. apply (chunk_end_mid _ [] _ []). set_solver. Qed.

Lemma fresh_mem : mem_ok (hole fresh_area) fresh_area.
Proof.
  split; try done.
  - by repeat constructor.
  - intros h ->%list_elem_of_singleton. unfold area_end, PTR_SIZE, BUF_HDR. simpl. split_and!; [lia|divmod_lia..].
  - intros h. simpl. rewrite lookup_singleton_is_Some, list_elem_of_singleton. naive_solver.
  - intros i. simpl. rewrite elem_of_singleton.
    assert (∀ j, hole fresh_area base j ↔ 0 < j < size / PAGE_SIZE) as Hh.
    { intros j. unfold hole, in_gap. rewrite fresh_cend, fresh_is_free.
      assert (page_index fresh_area (base + BUF_HDR - 1) = 0) as -> by (unfold page_index, BUF_HDR; simpl; divmod_lia).
      assert (page_index fresh_area (area_end fresh_area) = size / PAGE_SIZE) as ->.
      { unfold page_index, area_end. simpl. f_equal. lia. }
      tauto. }
    assert (0 < size / PAGE_SIZE) by divmod_lia. split.
    + intros ->. split; [lia|]. intros h ->%list_elem_of_singleton. rewrite Hh. lia.
    + intros [Hi Hn]. specialize (Hn base ltac:(set_solver)). rewrite Hh in Hn. lia.
  - by intros h i _ [_ ?].
Qed.

Lemma fresh_wf :
  free_tree_ok fresh_area (λ h, h = base) t → space = size / 2 → wf fresh_area.
Proof.
  intros Ht ->. split; [exact fresh_mem| | | | |].
  - eapply free_tree_ok_ext; [intros; symmetry; apply fresh_is_free|done|exact Ht].
  - split; [|constructor]. intros h. unfold is_used. simpl. split; [set_solver|].
    intros (y & [_ <-]%lookup_singleton_Some & [=]).
  - intros h y. simpl. by intros [_ <-]%lookup_singleton_Some [=].
  - intros h Hh%fresh_is_free. subst. rewrite fresh_cend, fresh_is_free. unfold area_end. simpl. lia.
  - simpl. unfold async_used. simpl. rewrite header_cost_free by by apply fresh_is_free. divmod_lia.
Qed.
End fresh.

(** Mapping an area of whole pages, at an address the kernel chose for it,
    into a process that has none either sets up a well-formed allocator with one
    free chunk that spans the (at most 4 MB) area, or returns an error and
    leaves the process without a mapping. *)
Theorem binder_mmap_area_spec `{RbKernel} env a vm_start vm_end forbidden vm_area pages_ok :
  unmapped a → 0 ≤ vm_start < vm_end → vm_end < 2 ^ 32 → (vm_end - vm_start) mod PAGE_SIZE = 0 →
  (∀ addr, vm_area = Some addr → 0 < addr ∧ addr mod PAGE_SIZE = 0 ∧
     addr + (vm_end - vm_start) + PAGE_SIZE ≤ 2 ^ 32) →
  ∃ r a', binder_mmap_area env vm_start vm_end forbidden vm_area pages_ok a = Ret r a' ∧
    (r = 0 ∧ wf a' ∧ a_vma a' = true ∧ vm_area = Some (a_buffer a') ∧ a_list a' = [a_buffer a'] ∧
       a_buffer_size a' = Z.min (vm_end - vm_start) SZ_4M ∧
       a_user_buffer_offset a' = u32 (vm_start - a_buffer a') ∨
     r ≠ 0 ∧ unmapped a').
Proof.
  intros Hun Hs He Hm Harea. destruct Hun as (Ev & Eb & El & Eh & Ef & Eu & Ep).
  assert (Hsize : u32 ((if decide (u32 (vm_end - vm_start) > SZ_4M) then vm_start + SZ_4M else vm_end) - vm_start)
    = Z.min (vm_end - vm_start) SZ_4M).
  { rewrite (u32_small (vm_end - vm_start)) by lia. unfold SZ_4M. case_decide; rewrite u32_small; lia. }
  unfold binder_mmap_area. cbv zeta. destruct forbidden; [by do 2 eexists; split; [reflexivity|right]|].
  run. rewrite Eb, decide_False by lia. destruct vm_area as [addr|]; [|by do 2 eexists; split; [reflexivity|right]].
  destruct (Harea addr eq_refl) as (Ha1 & Ha2 & Ha3). run.
  destruct pages_ok; simpl; run; [|do 2 eexists; split; [reflexivity|right]; done].
  rewrite Hsize. set (size := Z.min _ _). set (a1 := set_a_buffer_size _ _).
  assert (Hsz : 0 < size ∧ size mod PAGE_SIZE = 0 ∧ size ≤ vm_end - vm_start).
  { subst size. unfold SZ_4M. clear -Hs Hm.
    destruct (Z.min_spec (vm_end - vm_start) 4194304) as [[? ->]|[? ->]]; split_and!; try done; lia. }
  destruct (update_alloc_ok env addr (addr + PAGE_SIZE) true a1) as [[_ E]|[_ E]].
  { rewrite Z.add_simpl_l. done. }
  { intros i _. simpl. set_solver. }
  2:{ rewrite (bind_of _ E), decide_True by done. run. do 2 eexists; split; [reflexivity|right]. done. }
  rewrite (bind_of _ E), decide_False by lia. run. clear E.
  assert (page_index a1 addr = 0) as -> by (unfold page_index; simpl; by rewrite Z.sub_diag).
  assert (page_index a1 (addr + PAGE_SIZE) = 1) as -> by (unfold page_index; simpl; by rewrite Z.add_simpl_l).
  set (off := u32 (vm_start - addr)) in *.
  assert (Hm0 : ∀ s, a_buffer s = addr → a_pages s = {[0]} → header_mapped s addr = true).
  { intros s Eb' Ep'. unfold header_mapped, page_index. rewrite Eb', Ep', Z.sub_diag.
    assert ((addr + BUF_HDR - 1 - addr) / PAGE_SIZE = 0) as -> by (unfold BUF_HDR; divmod_lia).
    rewrite !bool_decide_eq_true_2 by (by apply elem_of_singleton). done. }
  assert (set_a_pages (λ p, p ∪ page_set 0 1) a1 = set_a_pages (λ _, {[0]}) a1) as ->.
  { apply set_a_pages_ext. simpl. rewrite (left_id_L ∅ (∪)). page_sets. }
  rewrite Hm0 by done. run. set (a2 := set_a_headers _ _).
  assert (a2 = fresh_area addr size off (a_free_async_space a) false RbLeaf) as ->.
  { subst a2 a1. unfold fresh_area, set_a_headers, set_a_list, set_a_pages. simpl.
    by rewrite Ev, Eh, Ef, Eu. }
  pose proof (fresh_mem addr size off (a_free_async_space a) false RbLeaf ltac:(lia) ltac:(tauto) ltac:(lia)) as Hok.
  destruct (insert_free_ok _ _ Hok (λ _, False) addr) as (t & Et & Ht).
  { split_and!; [constructor|set_solver|constructor]. }
  { done. } { eexists. simpl. by rewrite lookup_singleton_eq. } { tauto. }
  rewrite (bind_of _ Et). run. do 2 eexists. split; [reflexivity|]. left. split_and!; try done.
  apply (fresh_wf addr size off (size / 2) true t); [lia|tauto|lia| |done].
  eapply free_tree_ok_ext; [|intros; reflexivity|exact Ht]. simpl. naive_solver.
Qed.

(** ** Every sequence of calls *)

(** One call of the driver on the allocator of a process: an allocation, the
    release of a buffer in use that no transaction refers to, or an update of the
    fields of a header that do not concern the allocator. *)
Inductive alloc_step `{RbKernel} : balloc → balloc → Prop :=
  | AllocStep env ds os is_async r a a' :
      0 ≤ ds < 2 ^ 32 → 0 ≤ os < 2 ^ 32 →
      binder_alloc_buf env ds os is_async a = Ret r a' → alloc_step a a'
  | FreeStep env b h a a' :
      a_headers a !! b = Some h → b_free h = false → b_transaction h = None →
      binder_free_buf env b a = Ret tt a' → alloc_step a a'
  | HeaderStep b h f a a' :
      a_headers a !! b = Some h → b_free (f h) = b_free h → b_data_size (f h) = b_data_size h →
      b_offsets_size (f h) = b_offsets_size h → b_async_transaction (f h) = b_async_transaction h →
      put_buf b f a = Ret tt a' → alloc_step a a'.

Lemma binder_free_buf_wf `{RbKernel} env a b h :
  wf a → a_headers a !! b = Some h → b_free h = false → b_transaction h = None →
  ∃ a', binder_free_buf env b a = Ret tt a' ∧ wf a'.
Proof.
  intros Hwf Hb Hu Ht. assert (b ∈ a_list a) as Hbl by (apply (mo_headers _ _ (wf_mem _ Hwf)); eauto).
  destruct (wf_list_split a Hwf b Hbl) as (l1 & l2 & El & _).
  destruct (binder_free_buf_ok env a Hwf b h Hb Hu Ht l1 l2 El) as (a' & E & ? & _). eauto.
Qed.

(** C5: whatever sequence of calls the driver makes after a mapping is set up,
    the allocator stays well formed, so that the next allocation and the next
    legal release return (no [BUG_ON], no access to an unmapped header) and no
    memory the sequence could have lost is lost. *)
Theorem allocator_invariant `{RbKernel} a0 a :
  wf a0 → rtc alloc_step a0 a →
  wf a ∧
  (∀ env ds os is_async, 0 ≤ ds < 2 ^ 32 → 0 ≤ os < 2 ^ 32 →
     ∃ r a', binder_alloc_buf env ds os is_async a = Ret r a') ∧
  (∀ env b h, a_headers a !! b = Some h → b_free h = false → b_transaction h = None →
     ∃ a', binder_free_buf env b a = Ret tt a').
Proof.
  intros Hwf0 Hsteps. assert (wf a) as Hwf.
  { induction Hsteps as [|a a1 a2 Hstep _ IH]; [done|]. apply IH. clear IH.
    destruct Hstep as [env ds os as_ r a a' Hd Ho E|env b h a a' Hb Hu Ht E|b h f a a' Hb E1 E2 E3 E4 E].
    - destruct (binder_alloc_buf_ok env a ds os as_ Hwf0 Hd Ho) as [(b & a'' & E' & ? & _)|[E' _]]; congruence.
    - destruct (binder_free_buf_wf env a b h Hwf0 Hb Hu Ht) as (a'' & E' & ?). congruence.
    - rewrite (put_buf_ok _ _ (wf_mem _ Hwf0) b h f Hb) in E. injection E as <-. by eapply wf_header_ext. }
  split_and!; [done| |].
  - intros env ds os as_ Hd Ho.
    destruct (binder_alloc_buf_ok env a ds os as_ Hwf Hd Ho) as [(b & a' & E & _)|[E _]]; eauto.
  - intros env b h Hb Hu Ht. destruct (binder_free_buf_wf env a b h Hwf Hb Hu Ht) as (a' & E & _). eauto.
Qed.

(** ** Witnesses *)

Module Demo.
#[export] Existing Instance plain_rb.
Definition env : mm_env := MmEnv true (λ _, PageOk).
(** An area of four pages at address 65536, mapped for the process at 1065536. *)
Definition a0 : balloc := fresh_area 65536 16384 1000000 8192 true (RbNode RbLeaf 65536 RbLeaf).
Definition a1 : balloc :=
  match binder_alloc_buf env 100 8 true a0 with Ret _ a => a | Crash _ => a0 end.

Lemma a0_wf : wf a0.
Proof.
  apply fresh_wf; try done. split_and!; simpl; [repeat constructor; set_solver|set_solver|repeat constructor].
Qed.

Lemma a1_run : binder_alloc_buf env 100 8 true a0 = Ret (Some 65536) a1.
Proof. vm_compute. reflexivity. Qed.

Lemma a1_wf : wf a1.
Proof.
  destruct (binder_alloc_buf_ok env a0 100 8 true a0_wf) as [(b & a' & E & ? & _)|[E _]];
    [lia|lia|rewrite a1_run in E; congruence..].
Qed.

Lemma binder_alloc_buf_spec_witness :
  (∃ b a', binder_alloc_buf env 100 8 true a0 = Ret (Some b) a' ∧ wf a' ∧ alloc_post env a0 100 8 true b a') ∨
  (binder_alloc_buf env 100 8 true a0 = Ret None a0 ∧ alloc_refused env a0 100 8 true).
Proof. apply (binder_alloc_buf_spec env a0 100 8 true); [apply a0_wf|lia..]. Defined.

Lemma binder_free_buf_spec_witness :
  ∃ a', binder_free_buf env 65536 a1 = Ret tt a' ∧ wf a' ∧ a_list a' = [65536] ∧ a_free_async_space a' = 8192.
Proof.
  destruct (binder_free_buf_spec env a1 65536 (Buffer false false true 0 None None 100 8 [] []) [] [65684])
    as (a' & E & Hwf & El & _ & Ea & _); [apply a1_wf|reflexivity..|].
  exists a'. split; [exact E|]. split; [exact Hwf|]. rewrite El, Ea. vm_compute. split; reflexivity.
Defined.

Lemma alloc_free_roundtrip_witness :
  ∃ a2, (put_buf 65536 (set_b_transaction None) ;;; binder_free_buf env 65536) a1 = Ret tt a2 ∧ wf a2 ∧
    a_list a2 = a_list a0.
Proof.
  destruct (alloc_free_roundtrip env env a0 100 8 true 65536 a1) as (a2 & E & Hwf & El & _);
    [apply a0_wf|lia|lia|apply a1_run|]. exists a2. split; [exact E|]. split; [exact Hwf|exact El].
Defined.

Lemma binder_buffer_lookup_spec_witness :
  ∃ r, binder_buffer_lookup 1065576 a1 = Ret r a1 ∧
    ∀ b, r = Some b ↔ is_used a1 b ∧ u32 1065576 = user_ptr a1 b.
Proof. apply (binder_buffer_lookup_spec a1 1065576). apply a1_wf. Defined.

Lemma buffers_safe_witness :
  a_buffer a1 ≤ 65600 < area_end a1 ∧ page_index a1 65600 ∈ a_pages a1.
Proof.
  apply (proj1 (buffers_safe a1 65536 (Buffer false false true 0 None None 100 8 [] []) a1_wf eq_refl eq_refl)).
  vm_compute. split; [discriminate|reflexivity].
Defined.

Lemma no_leak_witness : a_list a0 = [a_buffer a0] ∧ a_free_async_space a0 = 8192.
Proof.
  destruct (no_leak a0) as (El & Ea & _); [apply a0_wf| |split; [exact El|exact Ea]].
  intros h (y & Hy & Hu). simpl in Hy. apply lookup_singleton_Some in Hy as [_ <-]. discriminate Hu.
Defined.

Lemma binder_mmap_area_spec_witness :
  ∃ r a', binder_mmap_area env 1069056 1081344 false (Some 65536) true balloc_init = Ret r a' ∧
    (r = 0 ∧ wf a' ∨ r ≠ 0 ∧ unmapped a').
Proof.
  destruct (binder_mmap_area_spec env balloc_init 1069056 1081344 false (Some 65536) true)
    as (r & a' & E & Hr); [by split_and!|lia|lia|done|intros ? [= <-]; by split_and!|].
  exists r, a'. split; [exact E|destruct Hr as [(? & ? & _)|?]; auto].
Defined.

Lemma allocator_invariant_witness : wf a1.
Proof.
  refine (proj1 (allocator_invariant a0 a1 a0_wf _)).
  eapply rtc_once, (AllocStep env 100 8 true); [lia|lia|apply a1_run].
Defined.
End Demo.
