(* ===== verification/Hashmap.v ===== *)
(** * The hash map of libcutils

    [libs/cutils/hashmap.c]: chained buckets whose number is a power of two, a
    secondary hash, and growth when the load factor exceeds 0.75.  The chains are
    lists of entries in the order of their [next] pointers.  What [malloc] and
    [calloc] answer is an argument of the operations that allocate; when they
    fail they set [errno] to [ENOMEM].  The client's
    [hash] and [equals] are the interface [HashKey]; [void*] values are addresses,
    0 being [NULL]. *)

From Stdlib Require Import ZArith Lia.
From stdpp Require Import base tactics list sets gmap fin_maps.
From S2P Require Import Prelude.

(** ** The keys

    [hash] and [equals] on key addresses.  [canon k] is what [equals] looks at. *)
Class HashKey (C : Type) `{Countable C} := {
  key_hash : Z → Z;
  key_equals : Z → Z → bool;
  canon : Z → C;
  key_equals_canon a b : key_equals a b = true ↔ canon a = canon b;
  key_hash_canon a b : canon a = canon b → key_hash a = key_hash b
}.

Record entry := Entry { e_addr : Z; e_key : Z; e_hash : Z; e_value : Z }.
Definition set_e_value (v : Z) (e : entry) : entry := Entry (e_addr e) (e_key e) (e_hash e) v.

Record hashmap := Hashmap { buckets : list (list entry); bucketCount : Z; hm_size : Z }.

Definition HM_ENOMEM : Z := 12.

(** What the C allocator answers during one call: the address of a new entry,
    and whether an array of so many bucket pointers can be had. *)
Record heap := Heap { new_entry : option Z; calloc_buckets : Z → bool }.

(** The secondary hash; [int] arithmetic wraps around. *)
Definition mix (h : Z) : Z :=
  let h := s32 (h + Z.lnot (s32 (Z.shiftl h 9))) in
  let h := s32 (Z.lxor (u32 h) (Z.shiftr (u32 h) 14)) in
  let h := s32 (h + s32 (Z.shiftl h 4)) in
  s32 (Z.lxor (u32 h) (Z.shiftr (u32 h) 10)).

Definition calculateIndex (bucketCount hash : Z) : Z := Z.land (u32 hash) (u32 (bucketCount - 1)).

(** [while (map->bucketCount <= minimumBucketCount) map->bucketCount <<= 1]. *)
Fixpoint grow_count (fuel : nat) (minimum count : Z) : option Z :=
  match fuel with
  | O => None
  | S fuel => if decide (count <= minimum) then grow_count fuel minimum (u32 (Z.shiftl count 1)) else Some count
  end.
Definition hashmapCreate (mem : heap) (map_ok : bool) (initialCapacity : Z) : option (option hashmap) :=
  if negb map_ok then Some None else
  let minimumBucketCount := u32 (initialCapacity * 4) / 3 in
  match grow_count 33 minimumBucketCount 1 with
  | None => None
  | Some n =>
      if calloc_buckets mem n then Some (Some (Hashmap (replicate (Z.to_nat n) []) n 0)) else Some None
  end.

Definition hashmapSize (map : hashmap) : Z := hm_size map.

(** [entry->next = newBuckets[index]; newBuckets[index] = entry]. *)
Definition push_entry (n : Z) (bs : list (list entry)) (e : entry) : list (list entry) :=
  alter (λ l, e :: l) (Z.to_nat (calculateIndex n (e_hash e))) bs.
(** The map and [errno], which a [calloc] that fails sets. *)
Definition expandIfNecessary (mem : heap) (map : hashmap) (errno : Z) : hashmap * Z :=
  if decide (hm_size map > u32 (bucketCount map * 3) / 4) then
    let newBucketCount := u32 (Z.shiftl (bucketCount map) 1) in
    if negb (calloc_buckets mem newBucketCount) then (map, HM_ENOMEM) else
    (Hashmap (foldl (foldl (push_entry newBucketCount)) (replicate (Z.to_nat newBucketCount) []) (buckets map))
       newBucketCount (hm_size map), errno)
  else (map, errno).

(** [h = h * 31 + *data], over the signed bytes of the key. *)
Definition hashmapHash (data : list Z) : Z :=
  foldl (λ h c, s32 (s32 (h * 31) + c)) (s32 (Z.of_nat (length data))) data.

Section operations.
Context {C : Type} `{HashKey C}.

Definition hashKey (key : Z) : Z := mix (key_hash key).

Definition equalKeys (keyA hashA keyB hashB : Z) : bool :=
  if decide (keyA = keyB) then true
  else if decide (hashA ≠ hashB) then false
  else key_equals keyA keyB.
Definition entry_matches (key hash : Z) (e : entry) : bool := equalKeys (e_key e) (e_hash e) key hash.

Definition bucket_of (map : hashmap) (key : Z) : nat :=
  Z.to_nat (calculateIndex (bucketCount map) (hashKey key)).
Definition chain (map : hashmap) (key : Z) : list entry := default [] (buckets map !! bucket_of map key).
Definition set_chain (map : hashmap) (key : Z) (l : list entry) (size : Z) : hashmap :=
  Hashmap (<[bucket_of map key := l]> (buckets map)) (bucketCount map) size.

(** The walk along a chain: the first entry with an equal key, if any. *)
Fixpoint find_entry (key hash : Z) (l : list entry) : option entry :=
  match l with
  | [] => None
  | e :: l => if entry_matches key hash e then Some e else find_entry key hash l
  end.
Fixpoint replace_value (key hash value : Z) (l : list entry) : list entry :=
  match l with
  | [] => []
  | e :: l => if entry_matches key hash e then set_e_value value e :: l else e :: replace_value key hash value l
  end.
Fixpoint unlink_entry (key hash : Z) (l : list entry) : list entry :=
  match l with
  | [] => []
  | e :: l => if entry_matches key hash e then l else e :: unlink_entry key hash l
  end.

Definition hashmapGet (map : hashmap) (key : Z) : Z :=
  match find_entry key (hashKey key) (chain map key) with Some e => e_value e | None => 0 end.
Definition hashmapContainsKey (map : hashmap) (key : Z) : bool :=
  match find_entry key (hashKey key) (chain map key) with Some _ => true | None => false end.

(** [hashmapPut]: the result, the map and [errno]. *)
Definition hashmapPut (mem : heap) (map : hashmap) (errno key value : Z) : Z * hashmap * Z :=
  let hash := hashKey key in
  match find_entry key hash (chain map key) with
  | None =>
      match new_entry mem with
      | None => (0, map, HM_ENOMEM)
      | Some p =>
          let '(map, errno) := expandIfNecessary mem
            (set_chain map key (chain map key ++ [Entry p key hash value]) (u32 (hm_size map + 1))) errno in
          (0, map, errno)
      end
  | Some current =>
      (e_value current, set_chain map key (replace_value key hash value (chain map key)) (hm_size map), errno)
  end.

Definition hashmapMemoize (mem : heap) (map : hashmap) (errno key : Z) (initialValue : Z → Z) : Z * hashmap * Z :=
  let hash := hashKey key in
  match find_entry key hash (chain map key) with
  | None =>
      match new_entry mem with
      | None => (0, map, HM_ENOMEM)
      | Some p =>
          let value := initialValue key in
          let '(map, errno) := expandIfNecessary mem
            (set_chain map key (chain map key ++ [Entry p key hash value]) (u32 (hm_size map + 1))) errno in
          (value, map, errno)
      end
  | Some current => (e_value current, map, errno)
  end.

(** [hashmapRemove]: the result, the map and the entry that is freed. *)
Definition hashmapRemove (map : hashmap) (key : Z) : Z * hashmap * option Z :=
  let hash := hashKey key in
  match find_entry key hash (chain map key) with
  | None => (0, map, None)
  | Some current =>
      (e_value current, set_chain map key (unlink_entry key hash (chain map key)) (u32 (hm_size map - 1)),
       Some (e_addr current))
  end.
End operations.

(** ** Iteration

    The callback works on a state that holds the map, and may change it.  The
    pointer to the next entry is read before the callback runs; an entry is
    looked up by its address in the chain as it is when it is read. *)
Section for_each.
Context {S : Type} (get_map : S → hashmap) (callback : Z → Z → M S bool).

Fixpoint entry_next (p : Z) (l : list entry) : option (option Z) :=
  match l with
  | [] => None
  | e :: l => if decide (e_addr e = p) then Some (head (e_addr <$> l)) else entry_next p l
  end.
Fixpoint entry_at (p : Z) (l : list entry) : option entry :=
  match l with [] => None | e :: l => if decide (e_addr e = p) then Some e else entry_at p l end.

(** The inner loop on bucket [i]; the result says whether to go on. *)
Fixpoint for_chain (fuel : nat) (i : nat) (cur : option Z) : M S bool :=
  match cur with
  | None => ret true
  | Some p =>
      match fuel with
      | O => crash_with CrashFuel
      | Datatypes.S fuel =>
          s <- getst ;;
          l <- deref (buckets (get_map s) !! i) ;;
          e <- deref (entry_at p l) ;;
          next <- deref (entry_next p l) ;;
          go <- callback (e_key e) (e_value e) ;;
          if negb go then ret false else for_chain fuel i next
      end
  end.
Fixpoint for_buckets (fuel : nat) (i : nat) : M S unit :=
  match fuel with
  | O => crash_with CrashFuel
  | Datatypes.S fuel =>
      s <- getst ;;
      if decide (Z.of_nat i < bucketCount (get_map s)) then
        l <- deref (buckets (get_map s) !! i) ;;
        go <- for_chain (length l) i (head (e_addr <$> l)) ;;
        if negb go then ret tt else for_buckets fuel (Datatypes.S i)
      else ret tt
  end.
Definition hashmapForEach : M S unit :=
  s <- getst ;; for_buckets (Datatypes.S (Z.to_nat (bucketCount (get_map s)))) 0.
End for_each.

(** The entries [hashmapFree] frees, in order. *)
Definition hashmapFree (map : hashmap) : list Z := e_addr <$> concat (buckets map).

Definition hashmapCurrentCapacity (map : hashmap) : Z := u32 (bucketCount map * 3) / 4.

Fixpoint chain_collisions (l : list entry) : Z :=
  match l with
  | [] => 0
  | e :: l => (match l with [] => 0 | _ => 1 end) + chain_collisions l
  end.
Definition hashmapCountCollisions (map : hashmap) : Z :=
  u32 (foldr (λ l n, chain_collisions l + n) 0 (buckets map)).

Section int_keys.
Context (mem : Z → Z).
Definition hashmapIntHash (key : Z) : Z := mem key.
Definition hashmapIntEquals (keyA keyB : Z) : bool := bool_decide (mem keyA = mem keyB).
End int_keys.

#[refine, export] Instance int_keys (mem : Z → Z) : HashKey Z := {
  key_hash := hashmapIntHash mem;
  key_equals := hashmapIntEquals mem;
  canon := mem
}.
Proof.
  - intros. unfold hashmapIntEquals. by rewrite bool_decide_eq_true.
  - done.
Defined.

Arguments mix : simpl never.
Arguments calculateIndex : simpl never.
Arguments u32 : simpl never.
Arguments bucket_of : simpl never.

(** ** The invariant and the finite map it stands for *)

Definition hm_entries (m : hashmap) : list entry := concat (buckets m).

Section map_proofs.
Context {C : Type} `{HashKey C}.

Definition in_bucket (n : Z) (i : nat) (e : entry) : Prop :=
  e_hash e = hashKey (e_key e) ∧ Z.to_nat (calculateIndex n (e_hash e)) = i.

(** [2 ^ 29] buckets are the most whose array fits the address space. *)
Record hm_wf (m : hashmap) : Prop := {
  hw_pow : ∃ k, 0 ≤ k ≤ 29 ∧ bucketCount m = 2 ^ k;
  hw_length : length (buckets m) = Z.to_nat (bucketCount m);
  hw_place : ∀ i l e, buckets m !! i = Some l → e ∈ l → in_bucket (bucketCount m) i e;
  hw_nodup : NoDup ((λ e, canon (e_key e)) <$> hm_entries m);
  hw_size : hm_size m = u32 (Z.of_nat (length (hm_entries m)))
}.

Definition binding (e : entry) : C * (Z * Z) := (canon (e_key e), (e_key e, e_value e)).
(** The map from what keys stand for to the key and the value that are stored. *)
Definition hm_map (m : hashmap) : gmap C (Z * Z) := list_to_map (binding <$> hm_entries m).

Lemma binding_keys l : (binding <$> l).*1 = (λ e, canon (e_key e)) <$> l.
Proof. by rewrite <-list_fmap_compose. Qed.

Lemma hm_map_perm m l :
  hm_wf m → hm_entries m ≡ₚ l → hm_map m = list_to_map (binding <$> l).
Proof.
  intros Hwf Hl. apply list_to_map_proper; [|by rewrite Hl]. rewrite binding_keys. apply Hwf.
Qed.

Lemma calculateIndex_range k h : 0 ≤ k ≤ 32 → 0 ≤ calculateIndex (2 ^ k) h < 2 ^ k.
Proof.
  intros Hk. unfold calculateIndex. destruct (decide (k = 32)) as [->|].
  - pose proof (u32_range h). change (u32 (2 ^ 32 - 1)) with (Z.ones 32).
    rewrite Z.land_ones by lia. apply Z.mod_pos_bound. lia.
  - assert (2 ^ k < 2 ^ 32) by (apply Z.pow_lt_mono_r; lia).
    rewrite (u32_small (2 ^ k - 1)) by lia.
    replace (2 ^ k - 1) with (Z.ones k) by (rewrite Z.ones_equiv; lia).
    rewrite Z.land_ones by lia. apply Z.mod_pos_bound. lia.
Qed.

Lemma entry_matches_spec key e :
  e_hash e = hashKey (e_key e) → entry_matches key (hashKey key) e = true ↔ canon (e_key e) = canon key.
Proof.
  intros He. unfold entry_matches, equalKeys. case_decide as Hk; [rewrite Hk; done|].
  case_decide as Hh; [|apply key_equals_canon].
  split; [done|]. intros Hc. destruct Hh. rewrite He. unfold hashKey. f_equal. by apply key_hash_canon.
Qed.

(** The walk, as a split of the chain. *)
Lemma find_entry_split key h l :
  match find_entry key h l with
  | Some e => ∃ l1 l2, l = l1 ++ e :: l2 ∧ entry_matches key h e = true ∧
      (∀ v, replace_value key h v l = l1 ++ set_e_value v e :: l2) ∧ unlink_entry key h l = l1 ++ l2
  | None => ∀ e, e ∈ l → entry_matches key h e = false
  end.
Proof.
  induction l as [|e l IH]; simpl; [set_solver|]. destruct (entry_matches key h e) eqn:E.
  - exists [], l. by split_and!.
  - destruct (find_entry key h l) as [e'|].
    + destruct IH as (l1 & l2 & -> & ? & Hr & Hu). exists (e :: l1), l2. simpl. split_and!; try done.
      * intros v. by rewrite Hr.
      * by rewrite Hu.
    + intros e'. rewrite elem_of_cons. intros [->|?]; auto.
Qed.

Section chain.
Context (m : hashmap) (Hwf : hm_wf m) (key : Z).

Lemma bucket_in_range : (bucket_of m key < length (buckets m))%nat.
Proof.
  destruct (hw_pow _ Hwf) as (k & Hk & E). rewrite (hw_length _ Hwf). unfold bucket_of. rewrite E.
  pose proof (calculateIndex_range k (hashKey key) ltac:(lia)). lia.
Qed.

Lemma chain_split : ∃ bs1 bs2, buckets m = bs1 ++ chain m key :: bs2 ∧ length bs1 = bucket_of m key.
Proof.
  destruct (lookup_lt_is_Some_2 _ _ bucket_in_range) as [l Hl].
  unfold chain. rewrite Hl. simpl. exists (take (bucket_of m key) (buckets m)), (drop (S (bucket_of m key)) (buckets m)).
  split; [by rewrite take_drop_middle|]. rewrite length_take. pose proof bucket_in_range. lia.
Qed.

Lemma chain_place e : e ∈ chain m key → in_bucket (bucketCount m) (bucket_of m key) e.
Proof.
  unfold chain. destruct (buckets m !! bucket_of m key) as [l|] eqn:E; [by apply (hw_place _ Hwf)|].
  by intros ?%not_elem_of_nil.
Qed.

(** An entry with an equal key is in the chain of the key. *)
Lemma same_key_in_chain e : e ∈ hm_entries m → canon (e_key e) = canon key → e ∈ chain m key.
Proof.
  unfold hm_entries. rewrite list_elem_of_In, in_concat. intros (l & Hl & He) Hc.
  apply list_elem_of_In in Hl, He. apply list_elem_of_lookup in Hl as [i Hi].
  destruct (hw_place _ Hwf i l e Hi He) as [Hh Hx].
  assert (i = bucket_of m key) as ->.
  { rewrite <-Hx, Hh. unfold bucket_of, hashKey. by rewrite (key_hash_canon _ _ Hc). }
  unfold chain. by rewrite Hi.
Qed.

Lemma chain_in_entries e : e ∈ chain m key → e ∈ hm_entries m.
Proof.
  destruct chain_split as (bs1 & bs2 & E & _). unfold hm_entries. rewrite E, concat_app. simpl. set_solver.
Qed.

Lemma hm_map_lookup :
  hm_map m !! canon key = (λ e, (e_key e, e_value e)) <$> find_entry key (hashKey key) (chain m key).
Proof.
  unfold hm_map. pose proof (find_entry_split key (hashKey key) (chain m key)) as Hf.
  destruct (find_entry _ _ _) as [e|]; simpl.
  - destruct Hf as (l1 & l2 & El & Hm & _). assert (e ∈ chain m key) as He by (rewrite El; set_solver).
    destruct (chain_place e He) as [Hh _]. apply (entry_matches_spec key e Hh) in Hm.
    apply elem_of_list_to_map_1; [rewrite binding_keys; apply Hwf|].
    apply list_elem_of_fmap. exists e. unfold binding. rewrite Hm. split; [done|by apply chain_in_entries].
  - apply not_elem_of_list_to_map_1. rewrite binding_keys. intros (e & Hc & He)%list_elem_of_fmap.
    pose proof (same_key_in_chain e He (eq_sym Hc)) as Hi. destruct (chain_place e Hi) as [Hh _].
    assert (entry_matches key (hashKey key) e = true) by by apply entry_matches_spec.
    rewrite Hf in * by done. done.
Qed.

(** What replacing the chain of a key does. *)
Lemma set_chain_spec l' sz :
  (∀ e, e ∈ l' → in_bucket (bucketCount m) (bucket_of m key) e) →
  ∃ rest, hm_entries m ≡ₚ chain m key ++ rest ∧ hm_entries (set_chain m key l' sz) ≡ₚ l' ++ rest ∧
    (NoDup ((λ e, canon (e_key e)) <$> l' ++ rest) → sz = u32 (Z.of_nat (length (l' ++ rest))) →
     hm_wf (set_chain m key l' sz)).
Proof.
  intros Hl'. destruct chain_split as (bs1 & bs2 & E & Hlen). exists (concat bs1 ++ concat bs2).
  assert (buckets (set_chain m key l' sz) = bs1 ++ l' :: bs2) as E'.
  { change (buckets (set_chain m key l' sz)) with (<[bucket_of m key := l']> (buckets m)).
    rewrite E, <-Hlen, <-(Nat.add_0_r (length bs1)). by rewrite insert_app_r. }
  assert (hm_entries (set_chain m key l' sz) ≡ₚ l' ++ concat bs1 ++ concat bs2) as Hp.
  { unfold hm_entries. rewrite E', concat_app. simpl. by rewrite Permutation_app_swap_app. }
  split_and!; [|exact Hp|].
  - unfold hm_entries. rewrite E, concat_app. simpl. by rewrite Permutation_app_swap_app.
  - intros Hnd Hsz. split.
    + apply Hwf.
    + change (length (<[bucket_of m key := l']> (buckets m)) = Z.to_nat (bucketCount m)).
      rewrite length_insert. apply Hwf.
    + intros i l e Hi He. change (buckets (set_chain m key l' sz)) with (<[bucket_of m key := l']> (buckets m)) in Hi.
      destruct (decide (i = bucket_of m key)) as [->|Hne].
      * rewrite list_lookup_insert_eq in Hi by apply bucket_in_range. simplify_eq. by apply Hl'.
      * rewrite list_lookup_insert_ne in Hi by done. by apply (hw_place _ Hwf i l).
    + by rewrite Hp.
    + by rewrite Hp.
Qed.
End chain.
End map_proofs.

(** The hash is never looked into from here on. *)
#[global] Opaque mix calculateIndex.
