(* ===== verification/HashmapSpec.v ===== *)
(** * Correctness of the hash map

    Every operation of [hashmap.c] refines the operation of the same name on a
    finite map from what the keys stand for to the stored key and value. *)

From Stdlib Require Import ZArith Lia.
From stdpp Require Import base tactics list sets gmap fin_maps.
From S2P Require Import Prelude Hashmap.

(** [calloc] gives no array larger than the 32-bit address space. *)
Definition calloc_bounded (mem : heap) : Prop := ∀ n, calloc_buckets mem n = true → n * 4 < 2 ^ 32.

Section growth.
Context {C : Type} `{HashKey C}.

Lemma concat_alter_cons i (e : entry) bs :
  (i < length bs)%nat → concat (alter (λ l, e :: l) i bs) ≡ₚ e :: concat bs.
Proof.
  revert i. induction bs as [|l bs IH]; intros [|i] Hi; simpl in *; [lia..|done|].
  rewrite (Permutation_middle l). apply Permutation_app_head, IH. lia.
Qed.

Lemma push_entry_perm n bs e :
  (Z.to_nat (calculateIndex n (e_hash e)) < length bs)%nat → concat (push_entry n bs e) ≡ₚ e :: concat bs.
Proof. apply concat_alter_cons. Qed.

(** The entries that are moved, one by one, into the new buckets. *)
Lemma push_entries n es bs :
  (∀ e, e ∈ es → e_hash e = hashKey (e_key e) ∧ (Z.to_nat (calculateIndex n (e_hash e)) < length bs)%nat) →
  (∀ i l e, bs !! i = Some l → e ∈ l → in_bucket n i e) →
  let bs' := foldl (push_entry n) bs es in
  concat bs' ≡ₚ es ++ concat bs ∧ length bs' = length bs ∧
  ∀ i l e, bs' !! i = Some l → e ∈ l → in_bucket n i e.
Proof.
  revert bs. induction es as [|e es IH]; intros bs Hes Hbs; simpl; [done|].
  destruct (Hes e) as [Hh Hi]; [set_solver|].
  assert (length (push_entry n bs e) = length bs) as Hlen by apply length_alter.
  destruct (IH (push_entry n bs e)) as (Hp & Hl & Hb).
  - intros e' He'. rewrite Hlen. apply Hes. set_solver.
  - intros i l e' Hl He'. unfold push_entry in Hl.
    destruct (decide (i = Z.to_nat (calculateIndex n (e_hash e)))) as [->|].
    + rewrite list_lookup_alter_eq in Hl. destruct (bs !! _) as [l0|] eqn:E; [|done].
      simpl in Hl. simplify_eq. apply elem_of_cons in He' as [->|He']; [by split|by apply (Hbs _ l0)].
    + rewrite list_lookup_alter_ne in Hl by done. by apply (Hbs i l).
  - split_and!; [|by rewrite Hl|done]. rewrite Hp, push_entry_perm by done.
    by rewrite Permutation_middle.
Qed.

Lemma push_buckets n bss bs :
  (∀ e, e ∈ concat bss → e_hash e = hashKey (e_key e) ∧ (Z.to_nat (calculateIndex n (e_hash e)) < length bs)%nat) →
  (∀ i l e, bs !! i = Some l → e ∈ l → in_bucket n i e) →
  let bs' := foldl (foldl (push_entry n)) bs bss in
  concat bs' ≡ₚ concat bss ++ concat bs ∧ length bs' = length bs ∧
  ∀ i l e, bs' !! i = Some l → e ∈ l → in_bucket n i e.
Proof.
  revert bs. induction bss as [|es bss IH]; intros bs Hes Hbs; simpl; [done|].
  destruct (push_entries n es bs) as (Hp & Hl & Hb); [intros; apply Hes; set_solver|done|].
  destruct (IH (foldl (push_entry n) bs es)) as (Hp' & Hl' & Hb'); [|done|].
  { intros e He. rewrite Hl. apply Hes. set_solver. }
  split_and!; [|congruence|done]. rewrite Hp', Hp, !(assoc_L (++)). f_equiv. apply Permutation_app_comm.
Qed.

Lemma empty_buckets n i l (e : entry) : replicate n [] !! i = Some l → e ∈ l → False.
Proof. intros [-> _]%lookup_replicate. by intros ?%not_elem_of_nil. Qed.
Lemma concat_empty n : concat (replicate n ([] : list entry)) = [].
Proof. induction n; simpl; done. Qed.

Definition over_load (m : hashmap) : Prop := hm_size m > u32 (bucketCount m * 3) / 4.

(** With [size] entries the array is to grow, and there is no memory for one
    of twice the size. *)
Definition growth_refused (mem : heap) (m : hashmap) (size : Z) : bool :=
  bool_decide (size > hashmapCurrentCapacity m) && negb (calloc_buckets mem (bucketCount m * 2)).

(** Growing keeps the invariant and the entries. *)
Lemma expand_ok mem m errno :
  hm_wf m → calloc_bounded mem →
  let '(m', errno') := expandIfNecessary mem m errno in
  hm_wf m' ∧ hm_entries m' ≡ₚ hm_entries m ∧ hm_size m' = hm_size m ∧
  (bucketCount m' = bucketCount m ∧ (over_load m → calloc_buckets mem (bucketCount m * 2) = false) ∨
   bucketCount m' = bucketCount m * 2 ∧ over_load m) ∧
  errno' = (if growth_refused mem m (hm_size m) then HM_ENOMEM else errno).
Proof.
  intros Hwf Hmem. unfold expandIfNecessary, over_load, growth_refused, hashmapCurrentCapacity. case_decide as Hload.
  2:{ rewrite bool_decide_eq_false_2 by done. split_and!; [done|done|done|left; split; [done|lia]|done]. }
  rewrite bool_decide_eq_true_2 by done.
  destruct (hw_pow _ Hwf) as (k & Hk & Ek).
  assert (2 ^ k < 2 ^ 30) by (apply Z.pow_lt_mono_r; lia).
  assert (u32 (Z.shiftl (bucketCount m) 1) = bucketCount m * 2) as ->.
  { rewrite Z.shiftl_mul_pow2 by lia. rewrite u32_small; lia. }
  destruct (calloc_buckets mem (bucketCount m * 2)) eqn:Ecal; simpl.
  2:{ split_and!; [done|done|done|by left|done]. }
  set (n := bucketCount m * 2) in *. assert (n = 2 ^ (k + 1)) as En by (rewrite Z.pow_add_r; lia).
  assert (k + 1 ≤ 29) as Hk1.
  { pose proof (Hmem _ Ecal). rewrite En in *. assert (2 ^ (k + 1) < 2 ^ 30) as Hlt by lia.
    apply Z.pow_lt_mono_r_iff in Hlt; lia. }
  destruct (push_buckets n (buckets m) (replicate (Z.to_nat n) [])) as (Hp & Hl & Hb).
  - intros e He. apply list_elem_of_In, in_concat in He as (l & Hlm & He). apply list_elem_of_In in Hlm, He.
    apply list_elem_of_lookup in Hlm as [i Hi]. destruct (hw_place _ Hwf i l e Hi He) as [Hh _].
    split; [done|]. rewrite length_replicate, En.
    pose proof (calculateIndex_range (k + 1) (e_hash e) ltac:(lia)). lia.
  - intros i l e Hi He. by destruct (empty_buckets _ _ _ _ Hi He).
  - rewrite concat_empty, app_nil_r in Hp. rewrite length_replicate in Hl.
    split_and!; [|exact Hp|done|by right|done]. split; try done.
    + exists (k + 1). split; [lia|done].
    + unfold hm_entries. simpl. rewrite Hp. apply Hwf.
    + simpl. rewrite (hw_size _ Hwf). unfold hm_entries. simpl. by rewrite Hp.
Qed.

(** Once there is room for an array of twice the size, the load is no longer too high. *)
Lemma expand_load mem m m1 errno :
  hm_wf m → hm_wf m1 → calloc_bounded mem → hm_size m1 = u32 (hm_size m + 1) → bucketCount m1 = bucketCount m →
  ¬ over_load m → calloc_buckets mem (bucketCount m * 2) = true → ¬ over_load (expandIfNecessary mem m1 errno).1.
Proof.
  intros Hwf Hwf1 Hmem Es Ec Hload Hcal. pose proof (expand_ok mem m1 errno Hwf1 Hmem) as Hx.
  destruct (expandIfNecessary mem m1 errno) as [m2 errno2]. destruct Hx as (Hwf2 & _ & Hsz & Hcase & _).
  simpl. rewrite Ec in Hcase. destruct Hcase as [[Hbc Hno]|[Hbc Hov]]; unfold over_load in *; rewrite Hsz, Hbc.
  - rewrite Ec in *. intros Hl. specialize (Hno Hl). congruence.
  - destruct (hw_pow _ Hwf) as (k & Hk & Ek). pose proof (hw_pow _ Hwf2) as (k2 & Hk2 & Ek2).
    assert (2 ^ k2 ≤ 2 ^ 29) by (apply Z.pow_le_mono_r; lia). assert (0 < 2 ^ k) by lia.
    rewrite Es. rewrite u32_small in Hload by lia. rewrite (u32_small (_ * 3)) by lia.
    assert (u32 (hm_size m + 1) ≤ hm_size m + 1).
    { unfold u32. apply Z.mod_le; [|lia]. rewrite (hw_size _ Hwf). pose proof (u32_range (Z.of_nat (length (hm_entries m)))). lia. }
    divmod_lia.
Qed.
Lemma expand_map mem m errno :
  hm_wf m → calloc_bounded mem → hm_map (expandIfNecessary mem m errno).1 = hm_map m.
Proof.
  intros Hwf Hmem. pose proof (expand_ok mem m errno Hwf Hmem) as Hx.
  destruct (expandIfNecessary mem m errno) as [m' errno']. destruct Hx as (Hwf' & Hp & _).
  simpl. by rewrite (hm_map_perm _ _ Hwf' Hp).
Qed.
End growth.

Section updates.
Context {C : Type} `{HashKey C}.
Context (m : hashmap) (Hwf : hm_wf m) (key : Z).
Let hash := hashKey key.

Lemma new_in_bucket p v : in_bucket (bucketCount m) (bucket_of m key) (Entry p key hash v).
Proof. by split. Qed.

(** A new entry at the end of the chain. *)
Lemma append_ok p v :
  find_entry key hash (chain m key) = None →
  let m' := set_chain m key (chain m key ++ [Entry p key hash v]) (u32 (hm_size m + 1)) in
  hm_wf m' ∧ hm_map m' = <[canon key := (key, v)]> (hm_map m) ∧ hm_entries m' ≡ₚ Entry p key hash v :: hm_entries m.
Proof.
  intros Hf. cbv zeta. pose proof (hm_map_lookup m Hwf key) as Hl. fold hash in Hl. rewrite Hf in Hl.
  destruct (set_chain_spec m Hwf key (chain m key ++ [Entry p key hash v]) (u32 (hm_size m + 1)))
    as (rest & Hp & Hp' & Hw).
  { intros e. rewrite elem_of_app, list_elem_of_singleton. intros [He| ->]; [by apply (chain_place _ Hwf)|apply new_in_bucket]. }
  set (m' := set_chain _ _ _ _) in *.
  assert (Hpe : hm_entries m' ≡ₚ Entry p key hash v :: hm_entries m).
  { rewrite Hp', Hp, <-(assoc_L (++)). symmetry. apply Permutation_middle. }
  assert (hm_wf m') as Hwf'.
  { apply Hw; rewrite <-Hp', Hpe.
    - simpl. constructor; [|apply Hwf]. intros (e & Hc & He)%list_elem_of_fmap.
      simpl in Hc. unfold hm_map in Hl. apply not_elem_of_list_to_map_2 in Hl. apply Hl.
      rewrite binding_keys. apply list_elem_of_fmap. by exists e.
    - rewrite (hw_size _ Hwf). unfold u32. rewrite Zplus_mod_idemp_l. f_equal. simpl. lia. }
  split; [done|]. split; [by rewrite (hm_map_perm _ _ Hwf' Hpe)|done].
Qed.

(** The value of an entry replaced. *)
Lemma replace_ok e v :
  find_entry key hash (chain m key) = Some e →
  let m' := set_chain m key (replace_value key hash v (chain m key)) (hm_size m) in
  hm_wf m' ∧ hm_map m' = <[canon key := (e_key e, v)]> (hm_map m) ∧ ∃ rest, hm_entries m ≡ₚ e :: rest ∧ hm_entries m' ≡ₚ set_e_value v e :: rest.
Proof.
  intros Hf. cbv zeta. pose proof (find_entry_split key hash (chain m key)) as Hs. rewrite Hf in Hs.
  destruct Hs as (l1 & l2 & El & Hm & Hr & _). rewrite Hr.
  destruct (chain_place m Hwf key e) as [Hh Hi]; [rewrite El; set_solver|].
  apply (entry_matches_spec key e Hh) in Hm.
  destruct (set_chain_spec m Hwf key (l1 ++ set_e_value v e :: l2) (hm_size m)) as (rest & Hp & Hp' & Hw).
  { intros e'. rewrite elem_of_app, elem_of_cons. intros [He|[->|He]]; [|by split|];
      apply (chain_place _ Hwf); rewrite El; set_solver. }
  set (m' := set_chain _ _ _ _) in *. rewrite El in Hp.
  rewrite <-!(assoc_L (++)) in *. simpl in *.
  assert (hm_wf m') as Hwf'.
  { apply Hw; [|rewrite (hw_size _ Hwf), Hp, !length_app; done].
    pose proof (hw_nodup _ Hwf) as Hnd. rewrite Hp in Hnd.
    by rewrite !fmap_app, !fmap_cons, !fmap_app in Hnd |- *. }
  assert (hm_entries m' ≡ₚ set_e_value v e :: l1 ++ l2 ++ rest) as Hp1 by (rewrite Hp'; symmetry; apply Permutation_middle).
  assert (hm_entries m ≡ₚ e :: l1 ++ l2 ++ rest) as Hp2 by (rewrite Hp; symmetry; apply Permutation_middle).
  split; [done|]. split; [|by exists (l1 ++ l2 ++ rest)]. rewrite (hm_map_perm _ _ Hwf' Hp1), (hm_map_perm _ _ Hwf Hp2).
  simpl. rewrite Hm, insert_insert_eq. done.
Qed.

Lemma unlink_ok e :
  find_entry key hash (chain m key) = Some e →
  let m' := set_chain m key (unlink_entry key hash (chain m key)) (u32 (hm_size m - 1)) in
  hm_wf m' ∧ hm_map m' = delete (canon key) (hm_map m) ∧ hm_entries m ≡ₚ e :: hm_entries m'.
Proof.
  intros Hf. cbv zeta. pose proof (find_entry_split key hash (chain m key)) as Hs. rewrite Hf in Hs.
  destruct Hs as (l1 & l2 & El & Hm & _ & Hu). rewrite Hu.
  destruct (chain_place m Hwf key e) as [Hh Hi]; [rewrite El; set_solver|].
  apply (entry_matches_spec key e Hh) in Hm.
  destruct (set_chain_spec m Hwf key (l1 ++ l2) (u32 (hm_size m - 1))) as (rest & Hp & Hp' & Hw).
  { intros e' He. apply (chain_place _ Hwf). rewrite El. set_solver. }
  set (m' := set_chain _ _ _ _) in *. rewrite El in Hp.
  assert (Hpe : hm_entries m ≡ₚ e :: hm_entries m').
  { rewrite Hp, Hp', <-!(assoc_L (++)). symmetry. apply Permutation_middle. }
  pose proof (hw_nodup _ Hwf) as Hnd. rewrite Hpe in Hnd. apply NoDup_cons in Hnd as [Hne Hnd].
  assert (hm_wf m') as Hwf'.
  { apply Hw; [by rewrite <-Hp'|]. rewrite <-Hp', (hw_size _ Hwf), Hpe. simpl.
    unfold u32. rewrite Zminus_mod_idemp_l. f_equal. lia. }
  split_and!; [done| |done]. rewrite (hm_map_perm _ _ Hwf Hpe). simpl. rewrite Hm.
  rewrite delete_insert_id; [done|]. apply not_elem_of_list_to_map_1. by rewrite binding_keys, <-Hm.
Qed.
End updates.

(** ** The operations *)

Lemma grow_count_ok fuel minimum j :
  0 ≤ j → j + Z.of_nat fuel = 33 → minimum < 2 ^ 31 →
  (j = 0 ∨ 2 ^ (j - 1) ≤ minimum) →
  ∃ k, j ≤ k ≤ 31 ∧ grow_count fuel minimum (2 ^ j) = Some (2 ^ k) ∧ minimum < 2 ^ k ∧ (k = 0 ∨ 2 ^ (k - 1) ≤ minimum).
Proof.
  revert j. induction fuel as [|fuel IH]; intros j Hj Hf Hm Hlow.
  { destruct Hlow as [?|Hlow]; [lia|]. assert (j = 33) as -> by lia. simpl in Hlow. lia. }
  assert (j ≤ 31) as Hj31.
  { destruct Hlow as [?|Hlow]; [lia|]. assert (2 ^ (j - 1) < 2 ^ 31) as Hlt by lia.
    apply Z.pow_lt_mono_r_iff in Hlt; lia. }
  simpl. case_decide as Hc; [|exists j; split_and!; try done; lia].
  assert (j < 31) by (destruct (decide (j = 31)) as [->|]; lia).
  assert (2 ^ (j + 1) < 2 ^ 32) by (apply Z.pow_lt_mono_r; lia).
  rewrite Z.shiftl_mul_pow2 by lia. replace (2 ^ j * 2 ^ 1) with (2 ^ (j + 1)) by (rewrite Z.pow_add_r; lia).
  rewrite u32_small by lia.
  destruct (IH (j + 1)) as (k & Hk & E & ?); [lia..|right; by rewrite Z.add_simpl_r|].
  exists k. split_and!; try tauto; lia.
Qed.

(** [hashmapCreate] terminates for every capacity; it returns NULL exactly
    when memory is short, and otherwise a well-formed empty map that takes
    [initialCapacity] entries before it grows. *)
Theorem hashmapCreate_spec {C} `{HashKey C} mem map_ok initialCapacity :
  0 ≤ initialCapacity < 2 ^ 32 → calloc_bounded mem →
  ∃ r, hashmapCreate mem map_ok initialCapacity = Some r ∧
    match r with
    | None => map_ok = false ∨ ∃ n, calloc_buckets mem n = false
    | Some m => hm_wf m ∧ hm_map m = ∅ ∧ hashmapSize m = 0 ∧
        (initialCapacity * 4 < 2 ^ 32 → initialCapacity ≤ hashmapCurrentCapacity m)
    end.
Proof.
  intros Hc Hmem. unfold hashmapCreate. destruct map_ok; cbn [negb]; [|exists None; auto].
  set (mn := u32 (initialCapacity * 4) / 3).
  assert (mn < 2 ^ 31) by (pose proof (u32_range (initialCapacity * 4)); subst mn; divmod_lia).
  destruct (grow_count_ok 33 mn 0) as (k & Hk & E & Hlt & _); [lia..|by left|].
  change (2 ^ 0) with 1 in E. cbv zeta. rewrite E.
  destruct (calloc_buckets mem (2 ^ k)) eqn:Ecal; [|exists None; eauto].
  eexists. split; [done|].
  assert (k ≤ 29) as Hk29.
  { pose proof (Hmem _ Ecal). assert (2 ^ k < 2 ^ 30) as Hlt' by lia. apply Z.pow_lt_mono_r_iff in Hlt'; lia. }
  assert (hm_entries (Hashmap (replicate (Z.to_nat (2 ^ k)) []) (2 ^ k) 0) = []) as He by apply concat_empty.
  split_and!; [split|unfold hm_map; by rewrite He|done|].
  - exists k. split; [lia|done].
  - apply length_replicate.
  - intros i l e Hi Hl. by destruct (empty_buckets _ _ _ _ Hi Hl).
  - rewrite He. constructor.
  - rewrite He. done.
  - intros Hsmall. unfold hashmapCurrentCapacity. simpl. subst mn. rewrite u32_small in Hlt by lia.
    assert (2 ^ k ≤ 2 ^ 29) by (apply Z.pow_le_mono_r; lia).
    rewrite u32_small by lia. divmod_lia.
Qed.

(** C29: [hashmapPut] refines insertion: for a key that is there it replaces the
    value, keeps the old key pointer and returns the old value; for a new key it
    adds the binding and returns NULL, or sets [errno] to [ENOMEM] and changes
    nothing when there is no memory for the entry.  Growing (or failing to grow)
    does not show in the map, and after an insertion that could grow the load
    factor is at most 0.75.  [errno] is left alone by a replacement and by an
    insertion, save by an insertion after which the array should grow and
    [calloc] fails: the binding is in the map and [errno] is [ENOMEM]. *)
Theorem hashmapPut_spec {C} `{HashKey C} mem m errno key value :
  hm_wf m → calloc_bounded mem →
  let '(r, m', errno') := hashmapPut mem m errno key value in
  hm_wf m' ∧
  match hm_map m !! canon key with
  | Some (key0, value0) =>
      r = value0 ∧ errno' = errno ∧ hm_map m' = <[canon key := (key0, value)]> (hm_map m) ∧
      hashmapSize m' = hashmapSize m
  | None =>
      r = 0 ∧
      match new_entry mem with
      | None => m' = m ∧ errno' = HM_ENOMEM
      | Some _ =>
          errno' = (if growth_refused mem m (u32 (hashmapSize m + 1)) then HM_ENOMEM else errno) ∧
          hm_map m' = <[canon key := (key, value)]> (hm_map m) ∧
          hashmapSize m' = u32 (hashmapSize m + 1) ∧
          (¬ over_load m → calloc_buckets mem (bucketCount m * 2) = true → ¬ over_load m')
      end
  end.
Proof.
  intros Hwf Hmem. unfold hashmapPut. rewrite (hm_map_lookup m Hwf key).
  destruct (find_entry key (hashKey key) (chain m key)) as [e|] eqn:Hf; simpl.
  { destruct (replace_ok m Hwf key e value Hf) as (? & ? & _). by split_and!. }
  destruct (new_entry mem) as [p|]; [|done].
  destruct (append_ok m Hwf key p value Hf) as (Hwf1 & Hmap1 & _). set (m1 := set_chain _ _ _ _) in *.
  pose proof (expand_ok mem m1 errno Hwf1 Hmem) as Hx. pose proof (expand_map mem m1 errno Hwf1 Hmem) as Hmap2.
  pose proof (λ Hl Hc, expand_load mem m m1 errno Hwf Hwf1 Hmem eq_refl eq_refl Hl Hc) as Hload.
  destruct (expandIfNecessary mem m1 errno) as [m2 errno2]. destruct Hx as (Hwf2 & _ & Hsz & _ & Herr).
  simpl in Hmap2. rewrite Hmap1 in Hmap2. split_and!; [exact Hwf2|done|exact Herr|exact Hmap2|exact Hsz|exact Hload].
Qed.

(** [hashmapGet] and [hashmapContainsKey] read the map. *)
Theorem hashmapGet_spec {C} `{HashKey C} m key :
  hm_wf m →
  hashmapGet m key = from_option snd 0 (hm_map m !! canon key) ∧
  (hashmapContainsKey m key = true ↔ is_Some (hm_map m !! canon key)).
Proof.
  intros Hwf. unfold hashmapGet, hashmapContainsKey. rewrite (hm_map_lookup m Hwf key).
  destruct (find_entry _ _ _) as [e|]; simpl; (split; [done|]); split; try done.
Qed.

(** [hashmapRemove] refines deletion, returns the value of the key and frees
    the one entry that held it. *)
Theorem hashmapRemove_spec {C} `{HashKey C} m key :
  hm_wf m →
  let '(r, m', freed) := hashmapRemove m key in
  hm_wf m' ∧ hm_map m' = delete (canon key) (hm_map m) ∧ r = from_option snd 0 (hm_map m !! canon key) ∧
  hashmapFree m ≡ₚ option_list freed ++ hashmapFree m' ∧
  (hm_map m !! canon key = None → m' = m ∧ freed = None).
Proof.
  intros Hwf. unfold hashmapRemove, hashmapFree. rewrite (hm_map_lookup m Hwf key).
  destruct (find_entry key (hashKey key) (chain m key)) as [e|] eqn:Hf; simpl.
  - destruct (unlink_ok m Hwf key e Hf) as (Hwf' & Hmap & Hp).
    split_and!; [done..| |done]. unfold hm_entries in Hp. by rewrite Hp.
  - split_and!; try done. rewrite delete_id; [done|]. by rewrite (hm_map_lookup m Hwf key), Hf.
Qed.

(** [hashmapMemoize] returns the value of a key that is there without calling
    [initialValue], and otherwise binds the key to the value it computes. *)
Theorem hashmapMemoize_spec {C} `{HashKey C} mem m errno key initialValue :
  hm_wf m → calloc_bounded mem →
  let '(r, m', errno') := hashmapMemoize mem m errno key initialValue in
  hm_wf m' ∧
  match hm_map m !! canon key, new_entry mem with
  | Some (_, value), _ => r = value ∧ m' = m ∧ errno' = errno
  | None, None => r = 0 ∧ m' = m ∧ errno' = HM_ENOMEM
  | None, Some _ =>
      r = initialValue key ∧ hm_map m' = <[canon key := (key, initialValue key)]> (hm_map m) ∧
      errno' = (if growth_refused mem m (u32 (hashmapSize m + 1)) then HM_ENOMEM else errno)
  end.
Proof.
  intros Hwf Hmem. unfold hashmapMemoize. rewrite (hm_map_lookup m Hwf key).
  destruct (find_entry key (hashKey key) (chain m key)) as [e|] eqn:Hf; simpl; [done|].
  destruct (new_entry mem) as [p|]; [|done].
  destruct (append_ok m Hwf key p (initialValue key) Hf) as (Hwf1 & Hmap1 & _).
  set (m1 := set_chain _ _ _ _) in *.
  pose proof (expand_ok mem m1 errno Hwf1 Hmem) as Hx. pose proof (expand_map mem m1 errno Hwf1 Hmem) as Hmap2.
  destruct (expandIfNecessary mem m1 errno) as [m2 errno2]. destruct Hx as (Hwf2 & _ & _ & _ & Herr).
  simpl in Hmap2. rewrite Hmap1 in Hmap2. split_and!; [exact Hwf2|done|exact Hmap2|exact Herr].
Qed.

(** ** Witnesses: keys that are integers, at the address of their value *)
Module HmDemo.
#[export] Instance demo_keys : HashKey Z := int_keys (λ p, p mod 100).
Definition mem : heap := Heap (Some 4096) (λ n, bool_decide (n * 4 < 2 ^ 32)).
Lemma mem_bounded : calloc_bounded mem.
Proof. intros n ?%bool_decide_eq_true. done. Qed.

Definition m0 : hashmap := Hashmap [[]] 1 0.
Lemma m0_wf : hm_wf m0.
Proof.
  split; try done.
  - by exists 0.
  - intros [|[]] l e [= <-] Hin. by apply not_elem_of_nil in Hin.
  - constructor.
Qed.
Definition m1 : hashmap := snd (fst (hashmapPut mem m0 0 105 7)).
Lemma m1_wf : hm_wf m1.
Proof.
  pose proof (append_ok m0 m0_wf 105 4096 7 eq_refl) as [Hwf _].
  apply (expand_ok mem _ 0) in Hwf; [|apply mem_bounded]. exact (proj1 Hwf).
Qed.

Lemma hashmapCreate_spec_witness :
  ∃ r, hashmapCreate mem true 5 = Some r ∧
    match r with
    | None => true = false ∨ ∃ n, calloc_buckets mem n = false
    | Some m => hm_wf m ∧ hm_map m = ∅ ∧ hashmapSize m = 0 ∧ (5 * 4 < 2 ^ 32 → 5 ≤ hashmapCurrentCapacity m)
    end.
Proof. apply (hashmapCreate_spec mem true 5); [lia|apply mem_bounded]. Defined.

Lemma m1_205 : hm_map m1 !! canon 205 = Some (105, 7).
Proof. vm_compute. reflexivity. Qed.
Lemma m1_107 : hm_map m1 !! canon 107 = None.
Proof. vm_compute. reflexivity. Qed.

(** A second pointer to the same key: the value is replaced and returned. *)
Lemma hashmapPut_spec_witness :
  let '(r, m', errno') := hashmapPut mem m1 0 205 8 in
  hm_wf m' ∧ r = 7 ∧ errno' = 0 ∧ hm_map m' = <[canon 205 := (105, 8)]> (hm_map m1).
Proof.
  pose proof (hashmapPut_spec mem m1 0 205 8 m1_wf mem_bounded) as Hs. rewrite m1_205 in Hs.
  destruct (hashmapPut mem m1 0 205 8) as [[r m'] errno']. destruct Hs as (Hwf & Hr & He & Hm & _).
  split; [exact Hwf|split; [exact Hr|split; [exact He|exact Hm]]].
Defined.

(** A new key when the array cannot grow: it is in the map, and [errno] is set. *)
Definition mem_full : heap := Heap (Some 8192) (λ _, false).
Lemma growth_refused_errno :
  let '(r, m', errno') := hashmapPut mem_full m1 0 107 9 in
  r = 0 ∧ errno' = HM_ENOMEM ∧ hashmapGet m' 107 = 9 ∧ hashmapSize m' = 2.
Proof. vm_compute. done. Qed.

Lemma hashmapGet_spec_witness :
  hashmapGet m1 205 = 7 ∧ (hashmapContainsKey m1 205 = true ↔ is_Some (hm_map m1 !! 5)).
Proof. exact (hashmapGet_spec m1 205 m1_wf). Defined.

Lemma hashmapRemove_spec_witness :
  let '(r, m', freed) := hashmapRemove m1 205 in hm_wf m' ∧ r = 7 ∧ hm_map m' = delete (canon 205) (hm_map m1).
Proof.
  pose proof (hashmapRemove_spec m1 205 m1_wf) as Hs. rewrite m1_205 in Hs.
  destruct (hashmapRemove m1 205) as [[r m'] freed]. destruct Hs as (Hwf & Hm & Hr & _).
  split; [exact Hwf|split; [exact Hr|exact Hm]].
Defined.

Lemma hashmapMemoize_spec_witness :
  let '(r, m', errno') := hashmapMemoize mem m1 0 107 (λ k, k + 1) in hm_wf m' ∧ r = 108.
Proof.
  pose proof (hashmapMemoize_spec mem m1 0 107 (λ k, k + 1) m1_wf mem_bounded) as Hs. rewrite m1_107 in Hs.
  destruct (hashmapMemoize mem m1 0 107 (λ k, k + 1)) as [[r m'] errno']. destruct Hs as (Hwf & Hr & _).
  split; [exact Hwf|exact Hr].
Defined.
End HmDemo.
