(* ===== verification/BinderState.v ===== *)
(** * The state of the binder driver

    The objects of [driver/binder/binder.c], each in a table under its kernel
    address: a pointer is an address ([Z]), [NULL] is [None], a read through an
    address that is not in the table is an oops ([deref]).  Everything runs under
    [binder_lock], so a routine is a function on the whole state.

    A [struct binder_work] is named by the object it is embedded in; the lists of
    work are in [k_lists], under the object and the field that holds their head,
    so that unlinking an entry needs no knowledge of its list.  A transaction's
    buffer lies in the area of a process ([BinderAlloc]).

    Not in the state: the debug output, the statistics counters and the
    transaction log, which the driver only prints. *)

From Stdlib Require Import ZArith Lia.
From stdpp Require Import base tactics list sets gmap countable fin_maps.
From S2P Require Import Prelude Rbtree BinderAlloc.

(** [struct binder_work]. *)
Inductive work :=
  | WTransaction (t : Z)
  | WComplete (c : Z)
  | WNode (n : Z)
  | WDeath (d : Z).
#[export] Instance work_eq_dec : EqDecision work.
Proof. solve_decision. Defined.

(** The heads of lists of work. *)
Inductive lid :=
  | LProcTodo (p : Z)
  | LDelivered (p : Z)
  | LThreadTodo (th : Z)
  | LAsyncTodo (n : Z).
#[export] Instance lid_eq_dec : EqDecision lid.
Proof. solve_decision. Defined.
Definition lid_encode (l : lid) : Z * Z :=
  match l with LProcTodo p => (0, p) | LDelivered p => (1, p) | LThreadTodo t => (2, t) | LAsyncTodo n => (3, n) end.
Definition lid_decode (c : Z * Z) : option lid :=
  match c with
  | (0, p) => Some (LProcTodo p) | (1, p) => Some (LDelivered p)
  | (2, t) => Some (LThreadTodo t) | (3, n) => Some (LAsyncTodo n) | _ => None
  end.
#[export] Instance lid_countable : Countable lid.
Proof. refine (inj_countable lid_encode lid_decode _). by intros []. Defined.

(** The types of the work of a death notification; [DtUnset] before the first
    assignment. *)
Inductive death_type := DtUnset | DtDeadBinder | DtDeadBinderAndClear | DtClearDeathNotification.
#[export] Instance death_type_eq_dec : EqDecision death_type.
Proof. solve_decision. Defined.

Inductive waitq := WqProc (p : Z) | WqThread (th : Z).

(** [current]: its pid, its process's pid, its effective uid, its open files. *)
Record caller := Caller { c_pid : Z; c_tgid : Z; c_euid : Z; c_files : Z }.

(** [struct binder_proc], less the lists (in [k_lists]) and the wait queue. *)
Record proc := Proc {
  p_pid : Z;
  p_euid : Z;
  p_threads : rbtree;
  p_nodes : rbtree;
  p_refs_by_desc : rbtree;
  p_refs_by_node : rbtree;
  p_files : option Z;
  p_deferred_work : Z;
  p_alloc : balloc;
  p_max_threads : Z;
  p_requested_threads : Z;
  p_requested_threads_started : Z;
  p_ready_threads : Z;
  p_default_priority : Z
}.
Definition set_p_pid (v : Z) (x : proc) : proc :=
  Proc v (p_euid x) (p_threads x) (p_nodes x) (p_refs_by_desc x) (p_refs_by_node x) (p_files x)
    (p_deferred_work x) (p_alloc x) (p_max_threads x) (p_requested_threads x) (p_requested_threads_started x)
    (p_ready_threads x) (p_default_priority x).
Definition set_p_euid (v : Z) (x : proc) : proc :=
  Proc (p_pid x) v (p_threads x) (p_nodes x) (p_refs_by_desc x) (p_refs_by_node x) (p_files x)
    (p_deferred_work x) (p_alloc x) (p_max_threads x) (p_requested_threads x) (p_requested_threads_started x)
    (p_ready_threads x) (p_default_priority x).
Definition set_p_threads (v : rbtree) (x : proc) : proc :=
  Proc (p_pid x) (p_euid x) v (p_nodes x) (p_refs_by_desc x) (p_refs_by_node x) (p_files x) (p_deferred_work
    x) (p_alloc x) (p_max_threads x) (p_requested_threads x) (p_requested_threads_started x) (p_ready_threads
    x) (p_default_priority x).
Definition set_p_nodes (v : rbtree) (x : proc) : proc :=
  Proc (p_pid x) (p_euid x) (p_threads x) v (p_refs_by_desc x) (p_refs_by_node x) (p_files x) (p_deferred_work
    x) (p_alloc x) (p_max_threads x) (p_requested_threads x) (p_requested_threads_started x) (p_ready_threads
    x) (p_default_priority x).
Definition set_p_refs_by_desc (v : rbtree) (x : proc) : proc :=
  Proc (p_pid x) (p_euid x) (p_threads x) (p_nodes x) v (p_refs_by_node x) (p_files x) (p_deferred_work x)
    (p_alloc x) (p_max_threads x) (p_requested_threads x) (p_requested_threads_started x) (p_ready_threads x)
    (p_default_priority x).
Definition set_p_refs_by_node (v : rbtree) (x : proc) : proc :=
  Proc (p_pid x) (p_euid x) (p_threads x) (p_nodes x) (p_refs_by_desc x) v (p_files x) (p_deferred_work x)
    (p_alloc x) (p_max_threads x) (p_requested_threads x) (p_requested_threads_started x) (p_ready_threads x)
    (p_default_priority x).
Definition set_p_files (v : option Z) (x : proc) : proc :=
  Proc (p_pid x) (p_euid x) (p_threads x) (p_nodes x) (p_refs_by_desc x) (p_refs_by_node x) v (p_deferred_work
    x) (p_alloc x) (p_max_threads x) (p_requested_threads x) (p_requested_threads_started x) (p_ready_threads
    x) (p_default_priority x).
Definition set_p_deferred_work (v : Z) (x : proc) : proc :=
  Proc (p_pid x) (p_euid x) (p_threads x) (p_nodes x) (p_refs_by_desc x) (p_refs_by_node x) (p_files x) v
    (p_alloc x) (p_max_threads x) (p_requested_threads x) (p_requested_threads_started x) (p_ready_threads x)
    (p_default_priority x).
Definition set_p_alloc (v : balloc) (x : proc) : proc :=
  Proc (p_pid x) (p_euid x) (p_threads x) (p_nodes x) (p_refs_by_desc x) (p_refs_by_node x) (p_files x)
    (p_deferred_work x) v (p_max_threads x) (p_requested_threads x) (p_requested_threads_started x)
    (p_ready_threads x) (p_default_priority x).
Definition set_p_max_threads (v : Z) (x : proc) : proc :=
  Proc (p_pid x) (p_euid x) (p_threads x) (p_nodes x) (p_refs_by_desc x) (p_refs_by_node x) (p_files x)
    (p_deferred_work x) (p_alloc x) v (p_requested_threads x) (p_requested_threads_started x) (p_ready_threads
    x) (p_default_priority x).
Definition set_p_requested_threads (v : Z) (x : proc) : proc :=
  Proc (p_pid x) (p_euid x) (p_threads x) (p_nodes x) (p_refs_by_desc x) (p_refs_by_node x) (p_files x)
    (p_deferred_work x) (p_alloc x) (p_max_threads x) v (p_requested_threads_started x) (p_ready_threads x)
    (p_default_priority x).
Definition set_p_requested_threads_started (v : Z) (x : proc) : proc :=
  Proc (p_pid x) (p_euid x) (p_threads x) (p_nodes x) (p_refs_by_desc x) (p_refs_by_node x) (p_files x)
    (p_deferred_work x) (p_alloc x) (p_max_threads x) (p_requested_threads x) v (p_ready_threads x)
    (p_default_priority x).
Definition set_p_ready_threads (v : Z) (x : proc) : proc :=
  Proc (p_pid x) (p_euid x) (p_threads x) (p_nodes x) (p_refs_by_desc x) (p_refs_by_node x) (p_files x)
    (p_deferred_work x) (p_alloc x) (p_max_threads x) (p_requested_threads x) (p_requested_threads_started x)
    v (p_default_priority x).
Definition set_p_default_priority (v : Z) (x : proc) : proc :=
  Proc (p_pid x) (p_euid x) (p_threads x) (p_nodes x) (p_refs_by_desc x) (p_refs_by_node x) (p_files x)
    (p_deferred_work x) (p_alloc x) (p_max_threads x) (p_requested_threads x) (p_requested_threads_started x)
    (p_ready_threads x) v.

(** [struct binder_thread]. *)
Record thread := Thread {
  th_proc : Z;
  th_pid : Z;
  th_looper : Z;
  th_transaction_stack : option Z;
  th_return_error : Z;
  th_return_error2 : Z
}.
Definition set_th_proc (v : Z) (x : thread) : thread :=
  Thread v (th_pid x) (th_looper x) (th_transaction_stack x) (th_return_error x) (th_return_error2 x).
Definition set_th_pid (v : Z) (x : thread) : thread :=
  Thread (th_proc x) v (th_looper x) (th_transaction_stack x) (th_return_error x) (th_return_error2 x).
Definition set_th_looper (v : Z) (x : thread) : thread :=
  Thread (th_proc x) (th_pid x) v (th_transaction_stack x) (th_return_error x) (th_return_error2 x).
Definition set_th_transaction_stack (v : option Z) (x : thread) : thread :=
  Thread (th_proc x) (th_pid x) (th_looper x) v (th_return_error x) (th_return_error2 x).
Definition set_th_return_error (v : Z) (x : thread) : thread :=
  Thread (th_proc x) (th_pid x) (th_looper x) (th_transaction_stack x) v (th_return_error2 x).
Definition set_th_return_error2 (v : Z) (x : thread) : thread :=
  Thread (th_proc x) (th_pid x) (th_looper x) (th_transaction_stack x) (th_return_error x) v.

(** [struct binder_node]; [n_refs] is the list [refs]. *)
Record node := Node {
  n_debug_id : Z;
  n_proc : option Z;
  n_refs : list Z;
  n_internal_strong_refs : Z;
  n_local_weak_refs : Z;
  n_local_strong_refs : Z;
  n_ptr : Z;
  n_cookie : Z;
  n_has_strong_ref : bool;
  n_pending_strong_ref : bool;
  n_has_weak_ref : bool;
  n_pending_weak_ref : bool;
  n_has_async_transaction : bool;
  n_accept_fds : bool;
  n_min_priority : Z
}.
Definition set_n_debug_id (v : Z) (x : node) : node :=
  Node v (n_proc x) (n_refs x) (n_internal_strong_refs x) (n_local_weak_refs x) (n_local_strong_refs x) (n_ptr
    x) (n_cookie x) (n_has_strong_ref x) (n_pending_strong_ref x) (n_has_weak_ref x) (n_pending_weak_ref x)
    (n_has_async_transaction x) (n_accept_fds x) (n_min_priority x).
Definition set_n_proc (v : option Z) (x : node) : node :=
  Node (n_debug_id x) v (n_refs x) (n_internal_strong_refs x) (n_local_weak_refs x) (n_local_strong_refs x)
    (n_ptr x) (n_cookie x) (n_has_strong_ref x) (n_pending_strong_ref x) (n_has_weak_ref x)
    (n_pending_weak_ref x) (n_has_async_transaction x) (n_accept_fds x) (n_min_priority x).
Definition set_n_refs (v : list Z) (x : node) : node :=
  Node (n_debug_id x) (n_proc x) v (n_internal_strong_refs x) (n_local_weak_refs x) (n_local_strong_refs x)
    (n_ptr x) (n_cookie x) (n_has_strong_ref x) (n_pending_strong_ref x) (n_has_weak_ref x)
    (n_pending_weak_ref x) (n_has_async_transaction x) (n_accept_fds x) (n_min_priority x).
Definition set_n_internal_strong_refs (v : Z) (x : node) : node :=
  Node (n_debug_id x) (n_proc x) (n_refs x) v (n_local_weak_refs x) (n_local_strong_refs x) (n_ptr x)
    (n_cookie x) (n_has_strong_ref x) (n_pending_strong_ref x) (n_has_weak_ref x) (n_pending_weak_ref x)
    (n_has_async_transaction x) (n_accept_fds x) (n_min_priority x).
Definition set_n_local_weak_refs (v : Z) (x : node) : node :=
  Node (n_debug_id x) (n_proc x) (n_refs x) (n_internal_strong_refs x) v (n_local_strong_refs x) (n_ptr x)
    (n_cookie x) (n_has_strong_ref x) (n_pending_strong_ref x) (n_has_weak_ref x) (n_pending_weak_ref x)
    (n_has_async_transaction x) (n_accept_fds x) (n_min_priority x).
Definition set_n_local_strong_refs (v : Z) (x : node) : node :=
  Node (n_debug_id x) (n_proc x) (n_refs x) (n_internal_strong_refs x) (n_local_weak_refs x) v (n_ptr x)
    (n_cookie x) (n_has_strong_ref x) (n_pending_strong_ref x) (n_has_weak_ref x) (n_pending_weak_ref x)
    (n_has_async_transaction x) (n_accept_fds x) (n_min_priority x).
Definition set_n_ptr (v : Z) (x : node) : node :=
  Node (n_debug_id x) (n_proc x) (n_refs x) (n_internal_strong_refs x) (n_local_weak_refs x)
    (n_local_strong_refs x) v (n_cookie x) (n_has_strong_ref x) (n_pending_strong_ref x) (n_has_weak_ref x)
    (n_pending_weak_ref x) (n_has_async_transaction x) (n_accept_fds x) (n_min_priority x).
Definition set_n_cookie (v : Z) (x : node) : node :=
  Node (n_debug_id x) (n_proc x) (n_refs x) (n_internal_strong_refs x) (n_local_weak_refs x)
    (n_local_strong_refs x) (n_ptr x) v (n_has_strong_ref x) (n_pending_strong_ref x) (n_has_weak_ref x)
    (n_pending_weak_ref x) (n_has_async_transaction x) (n_accept_fds x) (n_min_priority x).
Definition set_n_has_strong_ref (v : bool) (x : node) : node :=
  Node (n_debug_id x) (n_proc x) (n_refs x) (n_internal_strong_refs x) (n_local_weak_refs x)
    (n_local_strong_refs x) (n_ptr x) (n_cookie x) v (n_pending_strong_ref x) (n_has_weak_ref x)
    (n_pending_weak_ref x) (n_has_async_transaction x) (n_accept_fds x) (n_min_priority x).
Definition set_n_pending_strong_ref (v : bool) (x : node) : node :=
  Node (n_debug_id x) (n_proc x) (n_refs x) (n_internal_strong_refs x) (n_local_weak_refs x)
    (n_local_strong_refs x) (n_ptr x) (n_cookie x) (n_has_strong_ref x) v (n_has_weak_ref x)
    (n_pending_weak_ref x) (n_has_async_transaction x) (n_accept_fds x) (n_min_priority x).
Definition set_n_has_weak_ref (v : bool) (x : node) : node :=
  Node (n_debug_id x) (n_proc x) (n_refs x) (n_internal_strong_refs x) (n_local_weak_refs x)
    (n_local_strong_refs x) (n_ptr x) (n_cookie x) (n_has_strong_ref x) (n_pending_strong_ref x) v
    (n_pending_weak_ref x) (n_has_async_transaction x) (n_accept_fds x) (n_min_priority x).
Definition set_n_pending_weak_ref (v : bool) (x : node) : node :=
  Node (n_debug_id x) (n_proc x) (n_refs x) (n_internal_strong_refs x) (n_local_weak_refs x)
    (n_local_strong_refs x) (n_ptr x) (n_cookie x) (n_has_strong_ref x) (n_pending_strong_ref x)
    (n_has_weak_ref x) v (n_has_async_transaction x) (n_accept_fds x) (n_min_priority x).
Definition set_n_has_async_transaction (v : bool) (x : node) : node :=
  Node (n_debug_id x) (n_proc x) (n_refs x) (n_internal_strong_refs x) (n_local_weak_refs x)
    (n_local_strong_refs x) (n_ptr x) (n_cookie x) (n_has_strong_ref x) (n_pending_strong_ref x)
    (n_has_weak_ref x) (n_pending_weak_ref x) v (n_accept_fds x) (n_min_priority x).
Definition set_n_accept_fds (v : bool) (x : node) : node :=
  Node (n_debug_id x) (n_proc x) (n_refs x) (n_internal_strong_refs x) (n_local_weak_refs x)
    (n_local_strong_refs x) (n_ptr x) (n_cookie x) (n_has_strong_ref x) (n_pending_strong_ref x)
    (n_has_weak_ref x) (n_pending_weak_ref x) (n_has_async_transaction x) v (n_min_priority x).
Definition set_n_min_priority (v : Z) (x : node) : node :=
  Node (n_debug_id x) (n_proc x) (n_refs x) (n_internal_strong_refs x) (n_local_weak_refs x)
    (n_local_strong_refs x) (n_ptr x) (n_cookie x) (n_has_strong_ref x) (n_pending_strong_ref x)
    (n_has_weak_ref x) (n_pending_weak_ref x) (n_has_async_transaction x) (n_accept_fds x) v.

(** [struct binder_ref]. *)
Record bref := Ref {
  r_debug_id : Z;
  r_proc : Z;
  r_node : Z;
  r_desc : Z;
  r_strong : Z;
  r_weak : Z;
  r_death : option Z
}.
Definition set_r_debug_id (v : Z) (x : bref) : bref :=
  Ref v (r_proc x) (r_node x) (r_desc x) (r_strong x) (r_weak x) (r_death x).
Definition set_r_proc (v : Z) (x : bref) : bref :=
  Ref (r_debug_id x) v (r_node x) (r_desc x) (r_strong x) (r_weak x) (r_death x).
Definition set_r_node (v : Z) (x : bref) : bref :=
  Ref (r_debug_id x) (r_proc x) v (r_desc x) (r_strong x) (r_weak x) (r_death x).
Definition set_r_desc (v : Z) (x : bref) : bref :=
  Ref (r_debug_id x) (r_proc x) (r_node x) v (r_strong x) (r_weak x) (r_death x).
Definition set_r_strong (v : Z) (x : bref) : bref :=
  Ref (r_debug_id x) (r_proc x) (r_node x) (r_desc x) v (r_weak x) (r_death x).
Definition set_r_weak (v : Z) (x : bref) : bref :=
  Ref (r_debug_id x) (r_proc x) (r_node x) (r_desc x) (r_strong x) v (r_death x).
Definition set_r_death (v : option Z) (x : bref) : bref :=
  Ref (r_debug_id x) (r_proc x) (r_node x) (r_desc x) (r_strong x) (r_weak x) v.

(** [struct binder_ref_death]; [d_type] is [work.type]. *)
Record death := Death {
  d_cookie : Z;
  d_type : death_type
}.
Definition set_d_cookie (v : Z) (x : death) : death :=
  Death v (d_type x).
Definition set_d_type (v : death_type) (x : death) : death :=
  Death (d_cookie x) v.

(** [struct binder_transaction]; a buffer is named by its process and its address. *)
Record txn := Txn {
  t_debug_id : Z;
  t_from : option Z;
  t_from_parent : option Z;
  t_to_proc : option Z;
  t_to_thread : option Z;
  t_to_parent : option Z;
  t_need_reply : bool;
  t_buffer : option (Z * Z);
  t_code : Z;
  t_flags : Z;
  t_priority : Z;
  t_saved_priority : Z;
  t_sender_euid : Z
}.
Definition set_t_debug_id (v : Z) (x : txn) : txn :=
  Txn v (t_from x) (t_from_parent x) (t_to_proc x) (t_to_thread x) (t_to_parent x) (t_need_reply x) (t_buffer
    x) (t_code x) (t_flags x) (t_priority x) (t_saved_priority x) (t_sender_euid x).
Definition set_t_from (v : option Z) (x : txn) : txn :=
  Txn (t_debug_id x) v (t_from_parent x) (t_to_proc x) (t_to_thread x) (t_to_parent x) (t_need_reply x)
    (t_buffer x) (t_code x) (t_flags x) (t_priority x) (t_saved_priority x) (t_sender_euid x).
Definition set_t_from_parent (v : option Z) (x : txn) : txn :=
  Txn (t_debug_id x) (t_from x) v (t_to_proc x) (t_to_thread x) (t_to_parent x) (t_need_reply x) (t_buffer x)
    (t_code x) (t_flags x) (t_priority x) (t_saved_priority x) (t_sender_euid x).
Definition set_t_to_proc (v : option Z) (x : txn) : txn :=
  Txn (t_debug_id x) (t_from x) (t_from_parent x) v (t_to_thread x) (t_to_parent x) (t_need_reply x) (t_buffer
    x) (t_code x) (t_flags x) (t_priority x) (t_saved_priority x) (t_sender_euid x).
Definition set_t_to_thread (v : option Z) (x : txn) : txn :=
  Txn (t_debug_id x) (t_from x) (t_from_parent x) (t_to_proc x) v (t_to_parent x) (t_need_reply x) (t_buffer
    x) (t_code x) (t_flags x) (t_priority x) (t_saved_priority x) (t_sender_euid x).
Definition set_t_to_parent (v : option Z) (x : txn) : txn :=
  Txn (t_debug_id x) (t_from x) (t_from_parent x) (t_to_proc x) (t_to_thread x) v (t_need_reply x) (t_buffer
    x) (t_code x) (t_flags x) (t_priority x) (t_saved_priority x) (t_sender_euid x).
Definition set_t_need_reply (v : bool) (x : txn) : txn :=
  Txn (t_debug_id x) (t_from x) (t_from_parent x) (t_to_proc x) (t_to_thread x) (t_to_parent x) v (t_buffer x)
    (t_code x) (t_flags x) (t_priority x) (t_saved_priority x) (t_sender_euid x).
Definition set_t_buffer (v : option (Z * Z)) (x : txn) : txn :=
  Txn (t_debug_id x) (t_from x) (t_from_parent x) (t_to_proc x) (t_to_thread x) (t_to_parent x) (t_need_reply
    x) v (t_code x) (t_flags x) (t_priority x) (t_saved_priority x) (t_sender_euid x).
Definition set_t_code (v : Z) (x : txn) : txn :=
  Txn (t_debug_id x) (t_from x) (t_from_parent x) (t_to_proc x) (t_to_thread x) (t_to_parent x) (t_need_reply
    x) (t_buffer x) v (t_flags x) (t_priority x) (t_saved_priority x) (t_sender_euid x).
Definition set_t_flags (v : Z) (x : txn) : txn :=
  Txn (t_debug_id x) (t_from x) (t_from_parent x) (t_to_proc x) (t_to_thread x) (t_to_parent x) (t_need_reply
    x) (t_buffer x) (t_code x) v (t_priority x) (t_saved_priority x) (t_sender_euid x).
Definition set_t_priority (v : Z) (x : txn) : txn :=
  Txn (t_debug_id x) (t_from x) (t_from_parent x) (t_to_proc x) (t_to_thread x) (t_to_parent x) (t_need_reply
    x) (t_buffer x) (t_code x) (t_flags x) v (t_saved_priority x) (t_sender_euid x).
Definition set_t_saved_priority (v : Z) (x : txn) : txn :=
  Txn (t_debug_id x) (t_from x) (t_from_parent x) (t_to_proc x) (t_to_thread x) (t_to_parent x) (t_need_reply
    x) (t_buffer x) (t_code x) (t_flags x) (t_priority x) v (t_sender_euid x).
Definition set_t_sender_euid (v : Z) (x : txn) : txn :=
  Txn (t_debug_id x) (t_from x) (t_from_parent x) (t_to_proc x) (t_to_thread x) (t_to_parent x) (t_need_reply
    x) (t_buffer x) (t_code x) (t_flags x) (t_priority x) (t_saved_priority x) v.

(** [struct files_struct] and its [fdtable]. *)
Record fdtable := FdTable {
  fd_file : gmap Z Z;
  fd_open : gset Z;
  fd_cloexec : gset Z;
  fd_next_fd : Z;
  fd_max_fds : Z;
  fd_rlimit : Z
}.
Definition set_fd_file (v : gmap Z Z) (x : fdtable) : fdtable :=
  FdTable v (fd_open x) (fd_cloexec x) (fd_next_fd x) (fd_max_fds x) (fd_rlimit x).
Definition set_fd_open (v : gset Z) (x : fdtable) : fdtable :=
  FdTable (fd_file x) v (fd_cloexec x) (fd_next_fd x) (fd_max_fds x) (fd_rlimit x).
Definition set_fd_cloexec (v : gset Z) (x : fdtable) : fdtable :=
  FdTable (fd_file x) (fd_open x) v (fd_next_fd x) (fd_max_fds x) (fd_rlimit x).
Definition set_fd_next_fd (v : Z) (x : fdtable) : fdtable :=
  FdTable (fd_file x) (fd_open x) (fd_cloexec x) v (fd_max_fds x) (fd_rlimit x).
Definition set_fd_max_fds (v : Z) (x : fdtable) : fdtable :=
  FdTable (fd_file x) (fd_open x) (fd_cloexec x) (fd_next_fd x) v (fd_rlimit x).
Definition set_fd_rlimit (v : Z) (x : fdtable) : fdtable :=
  FdTable (fd_file x) (fd_open x) (fd_cloexec x) (fd_next_fd x) (fd_max_fds x) v.

(** The driver, what it sees of the kernel, and the caller of the current call. *)
Record kstate := KState {
  k_procs : gmap Z proc;
  k_threads : gmap Z thread;
  k_nodes : gmap Z node;
  k_refs : gmap Z bref;
  k_deaths : gmap Z death;
  k_txns : gmap Z txn;
  k_completes : gset Z;   (* the [binder_work]s allocated on their own *)
  k_lists : gmap lid (list work);
  k_binder_procs : list Z;
  k_dead_nodes : list Z;
  k_deferred_list : list Z;
  k_context_mgr_node : option Z;
  k_context_mgr_uid : Z;
  k_last_id : Z;
  k_fdtables : gmap Z fdtable;   (* the tables of open files *)
  k_wakes : list waitq;   (* the wake-ups so far, latest first *)
  k_heap : list (option Z);   (* the answers of the next [kzalloc]s *)
  k_user : gmap Z Z;   (* the bytes of the memory of the caller *)
  k_mm : mm_env;
  k_cur : caller;   (* the thread that makes the current call *)
  k_nice : Z;   (* the nice value of the caller *)
  k_uninit : Z   (* what an uninitialised local holds *)
}.
Definition set_k_procs (v : gmap Z proc) (x : kstate) : kstate :=
  KState v (k_threads x) (k_nodes x) (k_refs x) (k_deaths x) (k_txns x) (k_completes x) (k_lists x)
    (k_binder_procs x) (k_dead_nodes x) (k_deferred_list x) (k_context_mgr_node x) (k_context_mgr_uid x)
    (k_last_id x) (k_fdtables x) (k_wakes x) (k_heap x) (k_user x) (k_mm x) (k_cur x) (k_nice x) (k_uninit x).
Definition set_k_threads (v : gmap Z thread) (x : kstate) : kstate :=
  KState (k_procs x) v (k_nodes x) (k_refs x) (k_deaths x) (k_txns x) (k_completes x) (k_lists x)
    (k_binder_procs x) (k_dead_nodes x) (k_deferred_list x) (k_context_mgr_node x) (k_context_mgr_uid x)
    (k_last_id x) (k_fdtables x) (k_wakes x) (k_heap x) (k_user x) (k_mm x) (k_cur x) (k_nice x) (k_uninit x).
Definition set_k_nodes (v : gmap Z node) (x : kstate) : kstate :=
  KState (k_procs x) (k_threads x) v (k_refs x) (k_deaths x) (k_txns x) (k_completes x) (k_lists x)
    (k_binder_procs x) (k_dead_nodes x) (k_deferred_list x) (k_context_mgr_node x) (k_context_mgr_uid x)
    (k_last_id x) (k_fdtables x) (k_wakes x) (k_heap x) (k_user x) (k_mm x) (k_cur x) (k_nice x) (k_uninit x).
Definition set_k_refs (v : gmap Z bref) (x : kstate) : kstate :=
  KState (k_procs x) (k_threads x) (k_nodes x) v (k_deaths x) (k_txns x) (k_completes x) (k_lists x)
    (k_binder_procs x) (k_dead_nodes x) (k_deferred_list x) (k_context_mgr_node x) (k_context_mgr_uid x)
    (k_last_id x) (k_fdtables x) (k_wakes x) (k_heap x) (k_user x) (k_mm x) (k_cur x) (k_nice x) (k_uninit x).
Definition set_k_deaths (v : gmap Z death) (x : kstate) : kstate :=
  KState (k_procs x) (k_threads x) (k_nodes x) (k_refs x) v (k_txns x) (k_completes x) (k_lists x)
    (k_binder_procs x) (k_dead_nodes x) (k_deferred_list x) (k_context_mgr_node x) (k_context_mgr_uid x)
    (k_last_id x) (k_fdtables x) (k_wakes x) (k_heap x) (k_user x) (k_mm x) (k_cur x) (k_nice x) (k_uninit x).
Definition set_k_txns (v : gmap Z txn) (x : kstate) : kstate :=
  KState (k_procs x) (k_threads x) (k_nodes x) (k_refs x) (k_deaths x) v (k_completes x) (k_lists x)
    (k_binder_procs x) (k_dead_nodes x) (k_deferred_list x) (k_context_mgr_node x) (k_context_mgr_uid x)
    (k_last_id x) (k_fdtables x) (k_wakes x) (k_heap x) (k_user x) (k_mm x) (k_cur x) (k_nice x) (k_uninit x).
Definition set_k_completes (v : gset Z) (x : kstate) : kstate :=
  KState (k_procs x) (k_threads x) (k_nodes x) (k_refs x) (k_deaths x) (k_txns x) v (k_lists x)
    (k_binder_procs x) (k_dead_nodes x) (k_deferred_list x) (k_context_mgr_node x) (k_context_mgr_uid x)
    (k_last_id x) (k_fdtables x) (k_wakes x) (k_heap x) (k_user x) (k_mm x) (k_cur x) (k_nice x) (k_uninit x).
Definition set_k_lists (v : gmap lid (list work)) (x : kstate) : kstate :=
  KState (k_procs x) (k_threads x) (k_nodes x) (k_refs x) (k_deaths x) (k_txns x) (k_completes x) v
    (k_binder_procs x) (k_dead_nodes x) (k_deferred_list x) (k_context_mgr_node x) (k_context_mgr_uid x)
    (k_last_id x) (k_fdtables x) (k_wakes x) (k_heap x) (k_user x) (k_mm x) (k_cur x) (k_nice x) (k_uninit x).
Definition set_k_binder_procs (v : list Z) (x : kstate) : kstate :=
  KState (k_procs x) (k_threads x) (k_nodes x) (k_refs x) (k_deaths x) (k_txns x) (k_completes x) (k_lists x)
    v (k_dead_nodes x) (k_deferred_list x) (k_context_mgr_node x) (k_context_mgr_uid x) (k_last_id x)
    (k_fdtables x) (k_wakes x) (k_heap x) (k_user x) (k_mm x) (k_cur x) (k_nice x) (k_uninit x).
Definition set_k_dead_nodes (v : list Z) (x : kstate) : kstate :=
  KState (k_procs x) (k_threads x) (k_nodes x) (k_refs x) (k_deaths x) (k_txns x) (k_completes x) (k_lists x)
    (k_binder_procs x) v (k_deferred_list x) (k_context_mgr_node x) (k_context_mgr_uid x) (k_last_id x)
    (k_fdtables x) (k_wakes x) (k_heap x) (k_user x) (k_mm x) (k_cur x) (k_nice x) (k_uninit x).
Definition set_k_deferred_list (v : list Z) (x : kstate) : kstate :=
  KState (k_procs x) (k_threads x) (k_nodes x) (k_refs x) (k_deaths x) (k_txns x) (k_completes x) (k_lists x)
    (k_binder_procs x) (k_dead_nodes x) v (k_context_mgr_node x) (k_context_mgr_uid x) (k_last_id x)
    (k_fdtables x) (k_wakes x) (k_heap x) (k_user x) (k_mm x) (k_cur x) (k_nice x) (k_uninit x).
Definition set_k_context_mgr_node (v : option Z) (x : kstate) : kstate :=
  KState (k_procs x) (k_threads x) (k_nodes x) (k_refs x) (k_deaths x) (k_txns x) (k_completes x) (k_lists x)
    (k_binder_procs x) (k_dead_nodes x) (k_deferred_list x) v (k_context_mgr_uid x) (k_last_id x) (k_fdtables
    x) (k_wakes x) (k_heap x) (k_user x) (k_mm x) (k_cur x) (k_nice x) (k_uninit x).
Definition set_k_context_mgr_uid (v : Z) (x : kstate) : kstate :=
  KState (k_procs x) (k_threads x) (k_nodes x) (k_refs x) (k_deaths x) (k_txns x) (k_completes x) (k_lists x)
    (k_binder_procs x) (k_dead_nodes x) (k_deferred_list x) (k_context_mgr_node x) v (k_last_id x) (k_fdtables
    x) (k_wakes x) (k_heap x) (k_user x) (k_mm x) (k_cur x) (k_nice x) (k_uninit x).
Definition set_k_last_id (v : Z) (x : kstate) : kstate :=
  KState (k_procs x) (k_threads x) (k_nodes x) (k_refs x) (k_deaths x) (k_txns x) (k_completes x) (k_lists x)
    (k_binder_procs x) (k_dead_nodes x) (k_deferred_list x) (k_context_mgr_node x) (k_context_mgr_uid x) v
    (k_fdtables x) (k_wakes x) (k_heap x) (k_user x) (k_mm x) (k_cur x) (k_nice x) (k_uninit x).
Definition set_k_fdtables (v : gmap Z fdtable) (x : kstate) : kstate :=
  KState (k_procs x) (k_threads x) (k_nodes x) (k_refs x) (k_deaths x) (k_txns x) (k_completes x) (k_lists x)
    (k_binder_procs x) (k_dead_nodes x) (k_deferred_list x) (k_context_mgr_node x) (k_context_mgr_uid x)
    (k_last_id x) v (k_wakes x) (k_heap x) (k_user x) (k_mm x) (k_cur x) (k_nice x) (k_uninit x).
Definition set_k_wakes (v : list waitq) (x : kstate) : kstate :=
  KState (k_procs x) (k_threads x) (k_nodes x) (k_refs x) (k_deaths x) (k_txns x) (k_completes x) (k_lists x)
    (k_binder_procs x) (k_dead_nodes x) (k_deferred_list x) (k_context_mgr_node x) (k_context_mgr_uid x)
    (k_last_id x) (k_fdtables x) v (k_heap x) (k_user x) (k_mm x) (k_cur x) (k_nice x) (k_uninit x).
Definition set_k_heap (v : list (option Z)) (x : kstate) : kstate :=
  KState (k_procs x) (k_threads x) (k_nodes x) (k_refs x) (k_deaths x) (k_txns x) (k_completes x) (k_lists x)
    (k_binder_procs x) (k_dead_nodes x) (k_deferred_list x) (k_context_mgr_node x) (k_context_mgr_uid x)
    (k_last_id x) (k_fdtables x) (k_wakes x) v (k_user x) (k_mm x) (k_cur x) (k_nice x) (k_uninit x).
Definition set_k_user (v : gmap Z Z) (x : kstate) : kstate :=
  KState (k_procs x) (k_threads x) (k_nodes x) (k_refs x) (k_deaths x) (k_txns x) (k_completes x) (k_lists x)
    (k_binder_procs x) (k_dead_nodes x) (k_deferred_list x) (k_context_mgr_node x) (k_context_mgr_uid x)
    (k_last_id x) (k_fdtables x) (k_wakes x) (k_heap x) v (k_mm x) (k_cur x) (k_nice x) (k_uninit x).
Definition set_k_mm (v : mm_env) (x : kstate) : kstate :=
  KState (k_procs x) (k_threads x) (k_nodes x) (k_refs x) (k_deaths x) (k_txns x) (k_completes x) (k_lists x)
    (k_binder_procs x) (k_dead_nodes x) (k_deferred_list x) (k_context_mgr_node x) (k_context_mgr_uid x)
    (k_last_id x) (k_fdtables x) (k_wakes x) (k_heap x) (k_user x) v (k_cur x) (k_nice x) (k_uninit x).
Definition set_k_cur (v : caller) (x : kstate) : kstate :=
  KState (k_procs x) (k_threads x) (k_nodes x) (k_refs x) (k_deaths x) (k_txns x) (k_completes x) (k_lists x)
    (k_binder_procs x) (k_dead_nodes x) (k_deferred_list x) (k_context_mgr_node x) (k_context_mgr_uid x)
    (k_last_id x) (k_fdtables x) (k_wakes x) (k_heap x) (k_user x) (k_mm x) v (k_nice x) (k_uninit x).
Definition set_k_nice (v : Z) (x : kstate) : kstate :=
  KState (k_procs x) (k_threads x) (k_nodes x) (k_refs x) (k_deaths x) (k_txns x) (k_completes x) (k_lists x)
    (k_binder_procs x) (k_dead_nodes x) (k_deferred_list x) (k_context_mgr_node x) (k_context_mgr_uid x)
    (k_last_id x) (k_fdtables x) (k_wakes x) (k_heap x) (k_user x) (k_mm x) (k_cur x) v (k_uninit x).
Definition set_k_uninit (v : Z) (x : kstate) : kstate :=
  KState (k_procs x) (k_threads x) (k_nodes x) (k_refs x) (k_deaths x) (k_txns x) (k_completes x) (k_lists x)
    (k_binder_procs x) (k_dead_nodes x) (k_deferred_list x) (k_context_mgr_node x) (k_context_mgr_uid x)
    (k_last_id x) (k_fdtables x) (k_wakes x) (k_heap x) (k_user x) (k_mm x) (k_cur x) (k_nice x) v.
Abbreviation K := (M kstate).

(** The rest of the kernel: its red-black trees, [expand_files] (an error, 0, or
    1 after it changed the table), [filp_close], [can_nice], the nice limit,
    [set_user_nice] (from the old and the requested value) and the pid by which
    the caller knows a process. *)
Class KernelEnv := {
  ke_rb :: RbKernel;
  expand_files : fdtable → Z → Z * fdtable;
  filp_close : Z → Z;
  can_nice : Z → bool;
  rlimit_nice : Z;
  set_user_nice : Z → Z → Z;
  task_tgid_nr_ns : Z → Z
}.

(** ** Access to the objects *)

Definition get_proc (p : Z) : K proc := k <- getst ;; deref (k_procs k !! p).
Definition get_thr (th : Z) : K thread := k <- getst ;; deref (k_threads k !! th).
Definition get_nd (n : Z) : K node := k <- getst ;; deref (k_nodes k !! n).
Definition get_rf (r : Z) : K bref := k <- getst ;; deref (k_refs k !! r).
Definition get_dth (d : Z) : K death := k <- getst ;; deref (k_deaths k !! d).
Definition get_txn (t : Z) : K txn := k <- getst ;; deref (k_txns k !! t).

Definition upd_proc (p : Z) (f : proc → proc) : K unit :=
  x <- get_proc p ;; modify (λ k, set_k_procs (<[p := f x]> (k_procs k)) k).
Definition upd_thr (th : Z) (f : thread → thread) : K unit :=
  x <- get_thr th ;; modify (λ k, set_k_threads (<[th := f x]> (k_threads k)) k).
Definition upd_nd (n : Z) (f : node → node) : K unit :=
  x <- get_nd n ;; modify (λ k, set_k_nodes (<[n := f x]> (k_nodes k)) k).
Definition upd_rf (r : Z) (f : bref → bref) : K unit :=
  x <- get_rf r ;; modify (λ k, set_k_refs (<[r := f x]> (k_refs k)) k).
Definition upd_dth (d : Z) (f : death → death) : K unit :=
  x <- get_dth d ;; modify (λ k, set_k_deaths (<[d := f x]> (k_deaths k)) k).
Definition upd_txn (t : Z) (f : txn → txn) : K unit :=
  x <- get_txn t ;; modify (λ k, set_k_txns (<[t := f x]> (k_txns k)) k).

(** [kfree]: the object must be there. *)
Definition free_nd (n : Z) : K unit :=
  get_nd n ;;; modify (λ k, set_k_nodes (delete n (k_nodes k)) k).
Definition free_rf (r : Z) : K unit :=
  get_rf r ;;; modify (λ k, set_k_refs (delete r (k_refs k)) k).
Definition free_dth (d : Z) : K unit :=
  get_dth d ;;; modify (λ k, set_k_deaths (delete d (k_deaths k)) k).
Definition free_txn (t : Z) : K unit :=
  get_txn t ;;; modify (λ k, set_k_txns (delete t (k_txns k)) k).
Definition free_thr (th : Z) : K unit :=
  get_thr th ;;; modify (λ k, set_k_threads (delete th (k_threads k)) k).
Definition free_complete (c : Z) : K unit :=
  k <- getst ;;
  if decide (c ∈ k_completes k) then modify (λ k, set_k_completes (k_completes k ∖ {[c]}) k)
  else crash_with CrashOops.

(** [kzalloc]. *)
Definition kzalloc : K (option Z) :=
  k <- getst ;;
  match k_heap k with
  | [] => ret None
  | a :: h => modify (set_k_heap h) ;;; ret a
  end.

(** A routine of the allocator of process [p]. *)
Definition in_alloc {A} (p : Z) (m : M balloc A) : K A :=
  x <- get_proc p ;;
  match m (p_alloc x) with
  | Ret v b => upd_proc p (set_p_alloc b) ;;; ret v
  | Crash c => crash_with c
  end.
Definition get_buffer (b : Z * Z) : K buffer := in_alloc (fst b) (get_buf (snd b)).
Definition upd_buffer (b : Z * Z) (f : buffer → buffer) : K unit := in_alloc (fst b) (put_buf (snd b) f).

(** ** Lists of work *)

Definition on_list (w : work) (k : kstate) : Prop := ¬ map_Forall (λ _ l, w ∉ l) (k_lists k).
#[export] Instance on_list_dec w k : Decision (on_list w k).
Proof. unfold on_list. apply _. Defined.

(** [list_empty(&w->entry)] and [list_empty(head)]. *)
Definition entry_unlinked (w : work) : K bool := gets (λ k, negb (bool_decide (on_list w k))).
Definition read_list (l : lid) : K (list work) := k <- getst ;; deref (k_lists k !! l).
Definition list_empty (l : lid) : K bool :=
  ws <- read_list l ;; ret (match ws with [] => true | _ => false end).

(** [list_add_tail] of an entry that must be on no list, to a list that must exist. *)
Definition list_add_tail (w : work) (l : lid) : K unit :=
  k <- getst ;;
  if decide (on_list w k) then crash_with CrashOops else
  ws <- read_list l ;; modify (λ k, set_k_lists (<[l := ws ++ [w]]> (k_lists k)) k).
Definition list_add (w : work) (l : lid) : K unit :=
  k <- getst ;;
  if decide (on_list w k) then crash_with CrashOops else
  ws <- read_list l ;; modify (λ k, set_k_lists (<[l := w :: ws]> (k_lists k)) k).
(** [list_del], [list_del_init]. *)
Definition list_del (w : work) : K unit :=
  modify (λ k, set_k_lists (filter (λ x, x ≠ w) <$> k_lists k) k).
Definition list_move_tail (w : work) (l : lid) : K unit := list_del w ;;; list_add_tail w l.
Definition list_move (w : work) (l : lid) : K unit := list_del w ;;; list_add w l.
Definition init_list_head (l : lid) : K unit := modify (λ k, set_k_lists (<[l := []]> (k_lists k)) k).

Definition wake_up_interruptible (q : waitq) : K unit := modify (λ k, set_k_wakes (q :: k_wakes k) k).

(** ** The memory of the caller *)

Definition word (b0 b1 b2 b3 : Z) : Z := b0 + b1 * 2 ^ 8 + b2 * 2 ^ 16 + b3 * 2 ^ 24.
Definition word_bytes (w : Z) : list Z := [w mod 2 ^ 8; w / 2 ^ 8 mod 2 ^ 8; w / 2 ^ 16 mod 2 ^ 8; w / 2 ^ 24 mod 2 ^ 8].

(** [copy_from_user]; [None] is a fault. *)
Fixpoint user_bytes (mem : gmap Z Z) (addr : Z) (n : nat) : option (list Z) :=
  match n with
  | O => Some []
  | S n => b ← mem !! u32 addr; l ← user_bytes mem (addr + 1) n; Some (b :: l)
  end.
Fixpoint words_of (l : list Z) : list Z :=
  match l with b0 :: b1 :: b2 :: b3 :: l => word b0 b1 b2 b3 :: words_of l | _ => [] end.
Definition copy_from_user (addr n : Z) : K (option (list Z)) := gets (λ k, user_bytes (k_user k) addr (Z.to_nat n)).
Definition get_user (addr : Z) : K (option Z) :=
  o <- copy_from_user addr 4 ;;
  ret (match o with Some l => head (words_of l) | None => None end).

(** [copy_to_user] and [put_user]: the bytes must be mapped; the result says
    whether there was a fault, before which a part may have been written. *)
Fixpoint store_bytes (mem : gmap Z Z) (addr : Z) (l : list Z) : gmap Z Z * bool :=
  match l with
  | [] => (mem, false)
  | b :: l =>
      match mem !! u32 addr with
      | Some _ => store_bytes (<[u32 addr := b]> mem) (addr + 1) l
      | None => (mem, true)
      end
  end.
Definition copy_to_user (addr : Z) (l : list Z) : K bool :=
  k <- getst ;;
  let '(mem, fault) := store_bytes (k_user k) addr l in
  modify (set_k_user mem) ;;; ret fault.
Definition put_user (v addr : Z) : K bool := copy_to_user addr (word_bytes v).

(** ** Constants of [binder.h] *)

Definition EINVAL : Z := 22.
Definition EFAULT : Z := 14.
Definition EAGAIN : Z := 11.
Definition ESRCH : Z := 3.
Definition EMFILE : Z := 24.

(** [_IOC(dir, type, nr, size)]. *)
Definition IOC (dir type nr size : Z) : Z := dir * 2 ^ 30 + size * 2 ^ 16 + type * 2 ^ 8 + nr.
Definition BR_ERROR : Z := Eval vm_compute in IOC 2 114 0 4.
Definition BR_OK : Z := Eval vm_compute in IOC 0 114 1 0.
Definition BR_TRANSACTION : Z := Eval vm_compute in IOC 2 114 2 40.
Definition BR_REPLY : Z := Eval vm_compute in IOC 2 114 3 40.
Definition BR_ACQUIRE_RESULT : Z := Eval vm_compute in IOC 2 114 4 4.
Definition BR_DEAD_REPLY : Z := Eval vm_compute in IOC 0 114 5 0.
Definition BR_TRANSACTION_COMPLETE : Z := Eval vm_compute in IOC 0 114 6 0.
Definition BR_INCREFS : Z := Eval vm_compute in IOC 2 114 7 8.
Definition BR_ACQUIRE : Z := Eval vm_compute in IOC 2 114 8 8.
Definition BR_RELEASE : Z := Eval vm_compute in IOC 2 114 9 8.
Definition BR_DECREFS : Z := Eval vm_compute in IOC 2 114 10 8.
Definition BR_NOOP : Z := Eval vm_compute in IOC 0 114 12 0.
Definition BR_SPAWN_LOOPER : Z := Eval vm_compute in IOC 0 114 13 0.
Definition BR_DEAD_BINDER : Z := Eval vm_compute in IOC 2 114 15 4.
Definition BR_CLEAR_DEATH_NOTIFICATION_DONE : Z := Eval vm_compute in IOC 2 114 16 4.
Definition BR_FAILED_REPLY : Z := Eval vm_compute in IOC 0 114 17 0.
Definition BC_TRANSACTION : Z := Eval vm_compute in IOC 1 99 0 40.
Definition BC_REPLY : Z := Eval vm_compute in IOC 1 99 1 40.
Definition BC_ACQUIRE_RESULT : Z := Eval vm_compute in IOC 1 99 2 4.
Definition BC_FREE_BUFFER : Z := Eval vm_compute in IOC 1 99 3 4.
Definition BC_INCREFS : Z := Eval vm_compute in IOC 1 99 4 4.
Definition BC_ACQUIRE : Z := Eval vm_compute in IOC 1 99 5 4.
Definition BC_RELEASE : Z := Eval vm_compute in IOC 1 99 6 4.
Definition BC_DECREFS : Z := Eval vm_compute in IOC 1 99 7 4.
Definition BC_INCREFS_DONE : Z := Eval vm_compute in IOC 1 99 8 8.
Definition BC_ACQUIRE_DONE : Z := Eval vm_compute in IOC 1 99 9 8.
Definition BC_ATTEMPT_ACQUIRE : Z := Eval vm_compute in IOC 1 99 10 8.
Definition BC_REGISTER_LOOPER : Z := Eval vm_compute in IOC 0 99 11 0.
Definition BC_ENTER_LOOPER : Z := Eval vm_compute in IOC 0 99 12 0.
Definition BC_EXIT_LOOPER : Z := Eval vm_compute in IOC 0 99 13 0.
Definition BC_REQUEST_DEATH_NOTIFICATION : Z := Eval vm_compute in IOC 1 99 14 8.
Definition BC_CLEAR_DEATH_NOTIFICATION : Z := Eval vm_compute in IOC 1 99 15 8.
Definition BC_DEAD_BINDER_DONE : Z := Eval vm_compute in IOC 1 99 16 4.
Definition BINDER_WRITE_READ : Z := Eval vm_compute in IOC 3 98 1 24.
Definition BINDER_SET_MAX_THREADS : Z := Eval vm_compute in IOC 1 98 5 4.
Definition BINDER_SET_CONTEXT_MGR : Z := Eval vm_compute in IOC 1 98 7 4.
Definition BINDER_THREAD_EXIT : Z := Eval vm_compute in IOC 1 98 8 4.
Definition BINDER_VERSION : Z := Eval vm_compute in IOC 3 98 9 4.
(** [B_PACK_CHARS]. *)
Definition PACK (c1 c2 c3 c4 : Z) : Z := c1 * 2 ^ 24 + c2 * 2 ^ 16 + c3 * 2 ^ 8 + c4.
Definition BINDER_TYPE_BINDER : Z := Eval vm_compute in PACK 115 98 42 133.
Definition BINDER_TYPE_WEAK_BINDER : Z := Eval vm_compute in PACK 119 98 42 133.
Definition BINDER_TYPE_HANDLE : Z := Eval vm_compute in PACK 115 104 42 133.
Definition BINDER_TYPE_WEAK_HANDLE : Z := Eval vm_compute in PACK 119 104 42 133.
Definition BINDER_TYPE_FD : Z := Eval vm_compute in PACK 102 100 42 133.
Definition TF_ONE_WAY : Z := 1.
Definition TF_ACCEPT_FDS : Z := 16.
Definition LOOPER_REGISTERED : Z := 1.
Definition LOOPER_ENTERED : Z := 2.
Definition LOOPER_EXITED : Z := 4.
Definition LOOPER_INVALID : Z := 8.
Definition LOOPER_WAITING : Z := 16.
Definition LOOPER_NEED_RETURN : Z := 32.
Definition DEFERRED_PUT_FILES : Z := 1.
Definition DEFERRED_FLUSH : Z := 2.
Definition DEFERRED_RELEASE : Z := 4.
(** [x & flag]. *)
Definition has_flag (x flag : Z) : bool := negb (bool_decide (Z.land x flag = 0)).
