(* ===== verification/BinderRefs.v ===== *)
(** * Nodes and references of the binder driver

    [driver/binder/binder.c], from [binder_get_node] to [binder_dec_ref]: a node
    stands for an object of the process that serves it, a reference for what
    another process holds on it, under a descriptor of its own.  A node counts
    the references that are held strongly ([internal_strong_refs]) and what the
    driver itself holds ([local_strong_refs], [local_weak_refs]); changes its
    process must hear of are queued as the node's work. *)

From Stdlib Require Import ZArith Lia.
From stdpp Require Import base tactics list sets gmap.
From S2P Require Import Prelude Rbtree BinderAlloc BinderState.

Section refs.
Context `{RbKernel}.

Definition binder_get_node (proc ptr : Z) : K (option Z) :=
  p <- get_proc proc ;;
  rb_search (λ n, nd <- get_nd n ;; ret (cmp3 ptr (n_ptr nd))) (p_nodes p).

Definition free_node (n : Z) : K unit :=
  free_nd n ;;; modify (λ k, set_k_lists (delete (LAsyncTodo n) (k_lists k)) k).

Definition next_id : K Z :=
  modify (λ k, set_k_last_id (s32 (k_last_id k + 1)) k) ;;; gets k_last_id.

Definition binder_new_node (proc ptr cookie : Z) : K (option Z) :=
  p <- get_proc proc ;;
  found <- rb_search (λ n, nd <- get_nd n ;; ret (cmp3 ptr (n_ptr nd))) (p_nodes p) ;;
  match found with
  | Some _ => ret None
  | None =>
      a <- kzalloc ;;
      match a with
      | None => ret None
      | Some n =>
          t <- rb_link (λ x, nd <- get_nd x ;; ret (bool_decide (ptr < n_ptr nd))) n (p_nodes p) ;;
          upd_proc proc (set_p_nodes (rb_insert_color t)) ;;;
          id <- next_id ;;
          modify (λ k, set_k_nodes (<[n := Node id (Some proc) [] 0 0 0 ptr cookie
                                             false false false false false false 0]> (k_nodes k)) k) ;;;
          init_list_head (LAsyncTodo n) ;;;
          ret (Some n)
      end
  end.

(** [node->work] moved to the end of [l], from whatever list it is on. *)
Definition requeue_node (node : Z) (l : lid) : K unit :=
  list_del (WNode node) ;;; list_add_tail (WNode node) l.

Definition binder_inc_node (node : Z) (strong internal : bool) (target_list : option lid) : K Z :=
  nd <- get_nd node ;;
  if strong then
    k <- getst ;;
    if internal && bool_decide (target_list = None) && bool_decide (n_internal_strong_refs nd = 0) &&
       negb (bool_decide (k_context_mgr_node k = Some node) && n_has_strong_ref nd)
    then ret (- EINVAL)
    else
      (if internal then upd_nd node (set_n_internal_strong_refs (s32 (n_internal_strong_refs nd + 1)))
       else upd_nd node (set_n_local_strong_refs (s32 (n_local_strong_refs nd + 1)))) ;;;
      match target_list with
      | Some l => (when negb (n_has_strong_ref nd) do requeue_node node l) ;;; ret 0
      | None => ret 0
      end
  else
    (when negb internal do upd_nd node (set_n_local_weak_refs (s32 (n_local_weak_refs nd + 1)))) ;;;
    unlinked <- entry_unlinked (WNode node) ;;
    if negb (n_has_weak_ref nd) && unlinked then
      match target_list with
      | None => ret (- EINVAL)
      | Some l => list_add_tail (WNode node) l ;;; ret 0
      end
    else ret 0.

(** The second half of [binder_dec_node]: the process is told, or the node that
    nothing refers to any more is freed. *)
Definition node_released (node : Z) : K Z :=
  nd <- get_nd node ;;
  match n_proc nd with
  | Some p =>
      if n_has_strong_ref nd || n_has_weak_ref nd then
        unlinked <- entry_unlinked (WNode node) ;;
        (when unlinked do (list_add_tail (WNode node) (LProcTodo p) ;;; wake_up_interruptible (WqProc p))) ;;;
        ret 0
      else
        (when bool_decide (n_refs nd = []) && bool_decide (n_local_strong_refs nd = 0) &&
              bool_decide (n_local_weak_refs nd = 0) do (
           list_del (WNode node) ;;;
           x <- get_proc p ;;
           upd_proc p (set_p_nodes (rb_erase node (p_nodes x))) ;;;
           free_node node)) ;;;
        ret 0
  | None =>
      (when bool_decide (n_refs nd = []) && bool_decide (n_local_strong_refs nd = 0) &&
            bool_decide (n_local_weak_refs nd = 0) do (
         list_del (WNode node) ;;;
         modify (λ k, set_k_dead_nodes (filter (λ x, x ≠ node) (k_dead_nodes k)) k) ;;;
         free_node node)) ;;;
      ret 0
  end.

Definition binder_dec_node (node : Z) (strong internal : bool) : K Z :=
  nd <- get_nd node ;;
  if strong then
    (if internal then upd_nd node (set_n_internal_strong_refs (s32 (n_internal_strong_refs nd - 1)))
     else upd_nd node (set_n_local_strong_refs (s32 (n_local_strong_refs nd - 1)))) ;;;
    nd <- get_nd node ;;
    if bool_decide (n_local_strong_refs nd ≠ 0) || bool_decide (n_internal_strong_refs nd ≠ 0) then ret 0
    else node_released node
  else
    (when negb internal do upd_nd node (set_n_local_weak_refs (s32 (n_local_weak_refs nd - 1)))) ;;;
    nd <- get_nd node ;;
    if bool_decide (n_local_weak_refs nd ≠ 0) || bool_decide (n_refs nd ≠ []) then ret 0
    else node_released node.

Definition binder_get_ref (proc desc : Z) : K (option Z) :=
  p <- get_proc proc ;;
  rb_search (λ r, rf <- get_rf r ;; ret (cmp3 desc (r_desc rf))) (p_refs_by_desc p).

(** The loop over [refs_by_desc] that looks for a descriptor not in use. *)
Fixpoint free_desc (refs : list Z) (desc : Z) : K Z :=
  match refs with
  | [] => ret desc
  | r :: refs =>
      rf <- get_rf r ;;
      if decide (r_desc rf > desc) then ret desc else free_desc refs (u32 (r_desc rf + 1))
  end.

Definition binder_get_ref_for_node (proc node : Z) : K (option Z) :=
  p <- get_proc proc ;;
  found <- rb_search (λ r, rf <- get_rf r ;; ret (cmp3 node (r_node rf))) (p_refs_by_node p) ;;
  match found with
  | Some r => ret (Some r)
  | None =>
      a <- kzalloc ;;
      match a with
      | None => ret None
      | Some new_ref =>
          id <- next_id ;;
          t <- rb_link (λ r, rf <- get_rf r ;; ret (bool_decide (node < r_node rf))) new_ref (p_refs_by_node p) ;;
          upd_proc proc (set_p_refs_by_node (rb_insert_color t)) ;;;
          k <- getst ;;
          desc <- free_desc (rb_walk (p_refs_by_desc p))
                    (if decide (k_context_mgr_node k = Some node) then 0 else 1) ;;
          t <- rb_link (λ r,
                 rf <- get_rf r ;;
                 if decide (desc < r_desc rf) then ret true
                 else if decide (desc > r_desc rf) then ret false
                 else crash_with CrashBug) new_ref (p_refs_by_desc p) ;;
          upd_proc proc (set_p_refs_by_desc (rb_insert_color t)) ;;;
          modify (λ k, set_k_refs (<[new_ref := Ref id proc node desc 0 0 None]> (k_refs k)) k) ;;;
          nd <- get_nd node ;;
          upd_nd node (set_n_refs (new_ref :: n_refs nd)) ;;;
          ret (Some new_ref)
      end
  end.

Definition binder_delete_ref (ref : Z) : K unit :=
  rf <- get_rf ref ;;
  p <- get_proc (r_proc rf) ;;
  upd_proc (r_proc rf) (set_p_refs_by_desc (rb_erase ref (p_refs_by_desc p))) ;;;
  upd_proc (r_proc rf) (set_p_refs_by_node (rb_erase ref (p_refs_by_node p))) ;;;
  (when bool_decide (r_strong rf ≠ 0) do (binder_dec_node (r_node rf) true true ;;; ret tt)) ;;;
  nd <- get_nd (r_node rf) ;;
  upd_nd (r_node rf) (set_n_refs (filter (λ x, x ≠ ref) (n_refs nd))) ;;;
  binder_dec_node (r_node rf) false true ;;;
  match r_death rf with
  | Some d => list_del (WDeath d) ;;; free_dth d
  | None => ret tt
  end ;;;
  free_rf ref.

Definition binder_inc_ref (ref : Z) (strong : bool) (target_list : option lid) : K Z :=
  rf <- get_rf ref ;;
  if strong then
    r <- (if decide (r_strong rf = 0) then binder_inc_node (r_node rf) true true target_list else ret 0) ;;
    if decide (r ≠ 0) then ret r
    else upd_rf ref (set_r_strong (s32 (r_strong rf + 1))) ;;; ret 0
  else
    r <- (if decide (r_weak rf = 0) then binder_inc_node (r_node rf) false true target_list else ret 0) ;;
    if decide (r ≠ 0) then ret r
    else upd_rf ref (set_r_weak (s32 (r_weak rf + 1))) ;;; ret 0.

Definition binder_dec_ref (ref : Z) (strong : bool) : K Z :=
  rf <- get_rf ref ;;
  if decide ((if strong then r_strong rf else r_weak rf) = 0) then ret (- EINVAL) else
  r <- (if strong then
          upd_rf ref (set_r_strong (s32 (r_strong rf - 1))) ;;;
          if decide (s32 (r_strong rf - 1) = 0) then binder_dec_node (r_node rf) strong true else ret 0
        else upd_rf ref (set_r_weak (s32 (r_weak rf - 1))) ;;; ret 0) ;;
  if decide (r ≠ 0) then ret r else
  rf <- get_rf ref ;;
  (when bool_decide (r_strong rf = 0) && bool_decide (r_weak rf = 0) do binder_delete_ref ref) ;;;
  ret 0.
End refs.
