(* ===== verification/BinderFds.v ===== *)
(** * File descriptors and priorities

    The routines of [driver/binder/binder.c] that work on the file table of
    another process ([task_get_unused_fd_flags], [task_fd_install],
    [__put_unused_fd], [task_close_fd], copied there from the kernel) and
    [binder_set_nice]. *)

From Stdlib Require Import ZArith Lia.
From stdpp Require Import base tactics list sets gmap.
From S2P Require Import Prelude Rbtree BinderAlloc BinderState.

Definition get_fdt (f : Z) : K fdtable := k <- getst ;; deref (k_fdtables k !! f).
Definition put_fdt (f : Z) (t : fdtable) : K unit := modify (λ k, set_k_fdtables (<[f := t]> (k_fdtables k)) k).

(** [find_next_zero_bit]: [max] if there is none. *)
Fixpoint next_zero_bit (n : nat) (open : gset Z) (fd : Z) : Z :=
  match n with
  | O => fd
  | S n => if decide (fd ∈ open) then next_zero_bit n open (fd + 1) else fd
  end.
Definition find_next_zero_bit (open : gset Z) (max start : Z) : Z :=
  if decide (start < max) then next_zero_bit (Z.to_nat (max - start)) open start else max.

Section fds.
Context `{KernelEnv}.

(** The search for a free descriptor and its reservation; [fuel] bounds how often
    [expand_files] may ask to try again. *)
Fixpoint get_unused_fd (fuel : nat) (files : Z) (cloexec : bool) : K Z :=
  match fuel with
  | O => crash_with CrashFuel
  | S fuel =>
      fdt <- get_fdt files ;;
      let fd := find_next_zero_bit (fd_open fdt) (fd_max_fds fdt) (fd_next_fd fdt) in
      if decide (fd >= fd_rlimit fdt) then ret (- EMFILE) else
      let '(error, fdt) := expand_files fdt fd in
      put_fdt files fdt ;;;
      if decide (error < 0) then ret error else
      if decide (error ≠ 0) then get_unused_fd fuel files cloexec else
      put_fdt files
        (set_fd_file (delete fd (fd_file fdt))
           (set_fd_next_fd (fd + 1)
              (set_fd_cloexec (if cloexec then {[fd]} ∪ fd_cloexec fdt else fd_cloexec fdt ∖ {[fd]})
                 (set_fd_open ({[fd]} ∪ fd_open fdt) fdt)))) ;;;
      ret fd
  end.

Definition task_get_unused_fd_flags (proc : Z) (cloexec : bool) : K Z :=
  p <- get_proc proc ;;
  match p_files p with
  | None => ret (- ESRCH)
  | Some files => get_unused_fd 32 files cloexec
  end.

Definition task_fd_install (proc fd file : Z) : K unit :=
  p <- get_proc proc ;;
  match p_files p with
  | None => ret tt
  | Some files =>
      fdt <- get_fdt files ;;
      bug_on (bool_decide (is_Some (fd_file fdt !! fd))) ;;;
      put_fdt files (set_fd_file (<[fd := file]> (fd_file fdt)) fdt)
  end.

Definition put_unused_fd (fd : Z) (fdt : fdtable) : fdtable :=
  let fdt := set_fd_open (fd_open fdt ∖ {[fd]}) fdt in
  if decide (fd < fd_next_fd fdt) then set_fd_next_fd fd fdt else fdt.

Definition EBADF : Z := 9.
Definition EINTR : Z := 4.
Definition ERESTARTSYS : Z := 512.
Definition ERESTARTNOINTR : Z := 513.
Definition ERESTARTNOHAND : Z := 514.
Definition ERESTART_RESTARTBLOCK : Z := 516.

Definition task_close_fd (proc fd : Z) : K Z :=
  p <- get_proc proc ;;
  match p_files p with
  | None => ret (- ESRCH)
  | Some files =>
      fdt <- get_fdt files ;;
      if decide (fd >= fd_max_fds fdt) then ret (- EBADF) else
      match fd_file fdt !! fd with
      | None => ret (- EBADF)
      | Some filp =>
          put_fdt files (put_unused_fd fd
            (set_fd_cloexec (fd_cloexec fdt ∖ {[fd]}) (set_fd_file (delete fd (fd_file fdt)) fdt))) ;;;
          let retval := filp_close filp in
          ret (if decide (retval ∈ [- ERESTARTSYS; - ERESTARTNOINTR; - ERESTARTNOHAND; - ERESTART_RESTARTBLOCK])
               then - EINTR else retval)
      end
  end.

Definition do_set_user_nice (nice : Z) : K unit := modify (λ k, set_k_nice (set_user_nice (k_nice k) nice) k).

Definition binder_set_nice (nice : Z) : K unit :=
  if can_nice nice then do_set_user_nice nice else do_set_user_nice (20 - rlimit_nice).
End fds.
