(* ===== verification/BinderTxn.v ===== *)
(** * Transactions of the binder driver

    [driver/binder/binder.c], from [binder_pop_transaction] to
    [binder_transaction]: a call or a reply is copied into a buffer of the target
    process, the objects in it are translated between the two processes, and the
    transaction is queued as work of a thread, of the process, or, for a second
    one-way call to a node, of the node itself. *)

From Stdlib Require Import ZArith Lia.
From stdpp Require Import base tactics list sets gmap.
From S2P Require Import Prelude Rbtree BinderAlloc BinderState BinderRefs BinderFds.

(** [struct binder_transaction_data]. *)
Record txn_data := TxnData {
  tr_target : Z;
  tr_cookie : Z;
  tr_code : Z;
  tr_flags : Z;
  tr_sender_pid : Z;
  tr_sender_euid : Z;
  tr_data_size : Z;
  tr_offsets_size : Z;
  tr_buffer : Z;
  tr_offsets : Z
}.
Definition txn_data_of_words (l : list Z) : option txn_data :=
  match l with
  | [target; cookie; code; flags; pid; euid; ds; os; buf; offs] =>
      Some (TxnData target cookie code flags pid euid ds os buf offs)
  | _ => None
  end.
Definition txn_data_words (t : txn_data) : list Z :=
  [tr_target t; tr_cookie t; tr_code t; tr_flags t; tr_sender_pid t; tr_sender_euid t;
   tr_data_size t; tr_offsets_size t; tr_buffer t; tr_offsets t].
Definition TR_SIZE : Z := 40.

(** [struct flat_binder_object], in the bytes of a buffer. *)
Record flat := Flat { f_type : Z; f_flags : Z; f_binder : Z; f_cookie : Z }.
Definition FLAT_SIZE : Z := 16.
Definition flat_at (data : list Z) (off : Z) : option flat :=
  match words_of (take 16 (drop (Z.to_nat off) data)) with
  | [ty; fl; bi; co] => Some (Flat ty fl bi co)
  | _ => None
  end.
Definition put_bytes (data : list Z) (off : Z) (l : list Z) : list Z :=
  take (Z.to_nat off) data ++ l ++ drop (Z.to_nat off + length l) data.
Definition put_flat (off : Z) (o : flat) (data : list Z) : list Z :=
  put_bytes data off (word_bytes (f_type o) ++ word_bytes (f_flags o) ++ word_bytes (f_binder o) ++ word_bytes (f_cookie o)).

(** The test on an offset before the object at it is looked at. *)
Definition bad_offset (off data_size : Z) : bool :=
  bool_decide (off > u32 (data_size - FLAT_SIZE)) || bool_decide (data_size < FLAT_SIZE) ||
  negb (IS_ALIGNED off PTR_SIZE).

Section txn.
Context `{KernelEnv}.

(** ** Giving up a transaction *)

Definition binder_pop_transaction (target_thread : option Z) (t : Z) : K unit :=
  (match target_thread with
   | Some th =>
       x <- get_thr th ;;
       bug_on (bool_decide (th_transaction_stack x ≠ Some t)) ;;;
       tx <- get_txn t ;;
       bug_on (bool_decide (t_from tx ≠ Some th)) ;;;
       upd_thr th (set_th_transaction_stack (t_from_parent tx)) ;;;
       upd_txn t (set_t_from None)
   | None => ret tt
   end) ;;;
  upd_txn t (set_t_need_reply false) ;;;
  tx <- get_txn t ;;
  (match t_buffer tx with
   | Some b => upd_buffer b (set_b_transaction None)
   | None => ret tt
   end) ;;;
  free_txn t.

(** The loop of [binder_send_failed_reply], up the chain of calls whose threads
    have died. *)
Fixpoint send_failed_reply (fuel : nat) (t error_code : Z) : K unit :=
  match fuel with
  | O => crash_with CrashFuel
  | S fuel =>
      tx <- get_txn t ;;
      match t_from tx with
      | Some th =>
          x <- get_thr th ;;
          (when bool_decide (th_return_error x ≠ BR_OK) && bool_decide (th_return_error2 x = BR_OK) do (
             upd_thr th (set_th_return_error2 (th_return_error x)) ;;;
             upd_thr th (set_th_return_error BR_OK))) ;;;
          x <- get_thr th ;;
          (when bool_decide (th_return_error x = BR_OK) do (
             binder_pop_transaction (Some th) t ;;;
             upd_thr th (set_th_return_error error_code) ;;;
             wake_up_interruptible (WqThread th)))
      | None =>
          binder_pop_transaction None t ;;;
          match t_from_parent tx with
          | None => ret tt
          | Some next => send_failed_reply fuel next error_code
          end
      end
  end.
Definition binder_send_failed_reply (t error_code : Z) : K unit :=
  tx <- get_txn t ;;
  bug_on (has_flag (t_flags tx) TF_ONE_WAY) ;;;
  k <- getst ;;
  send_failed_reply (S (size (k_txns k))) t error_code.

(** ** Releasing what a buffer refers to *)

Definition release_object (proc : Z) (o : flat) (failed : bool) : K unit :=
  if decide (f_type o = BINDER_TYPE_BINDER ∨ f_type o = BINDER_TYPE_WEAK_BINDER) then
    node <- binder_get_node proc (f_binder o) ;;
    match node with
    | None => ret tt
    | Some n => binder_dec_node n (bool_decide (f_type o = BINDER_TYPE_BINDER)) false ;;; ret tt
    end
  else if decide (f_type o = BINDER_TYPE_HANDLE ∨ f_type o = BINDER_TYPE_WEAK_HANDLE) then
    ref <- binder_get_ref proc (f_binder o) ;;
    match ref with
    | None => ret tt
    | Some r => binder_dec_ref r (bool_decide (f_type o = BINDER_TYPE_HANDLE)) ;;; ret tt
    end
  else if decide (f_type o = BINDER_TYPE_FD) then
    when failed do (task_close_fd proc (f_binder o) ;;; ret tt)
  else ret tt.

(** The loop over the offsets. *)
Fixpoint release_objects (proc : Z) (buf : Z * Z) (failed : bool) (offs : list Z) : K unit :=
  match offs with
  | [] => ret tt
  | off :: offs =>
      h <- get_buffer buf ;;
      (if bad_offset off (b_data_size h) then ret tt
       else (o <- deref (flat_at (b_data h) off) ;; release_object proc o failed)) ;;;
      release_objects proc buf failed offs
  end.

(** [failed_at] is the number of the offset at which the transfer failed. *)
Definition binder_transaction_buffer_release (proc : Z) (buf : Z * Z) (failed_at : option nat) : K unit :=
  h <- get_buffer buf ;;
  (match b_target_node h with
   | Some n => binder_dec_node n true false ;;; ret tt
   | None => ret tt
   end) ;;;
  let n := match failed_at with
           | Some i => i
           | None => Z.to_nat ((b_offsets_size h + 3) / 4)
           end in
  if decide (n <= length (b_offs h))%nat
  then release_objects proc buf (bool_decide (failed_at ≠ None)) (take n (b_offs h))
  else crash_with CrashOops.

(** ** Choosing the target *)

(** A target, or the error that is returned and the call it answers, if any. *)
Record target := Target {
  tg_proc : Z;
  tg_thread : option Z;
  tg_node : option Z;
  tg_in_reply_to : option Z
}.
Inductive choice :=
  | Chosen (tg : target)
  | Refused (return_error : Z) (in_reply_to : option Z).

Definition reply_target (thread : Z) : K choice :=
  x <- get_thr thread ;;
  match th_transaction_stack x with
  | None => ret (Refused BR_FAILED_REPLY None)
  | Some irt =>
      tx <- get_txn irt ;;
      binder_set_nice (t_saved_priority tx) ;;;
      if decide (t_to_thread tx ≠ Some thread) then ret (Refused BR_FAILED_REPLY None) else
      upd_thr thread (set_th_transaction_stack (t_to_parent tx)) ;;;
      match t_from tx with
      | None => ret (Refused BR_DEAD_REPLY (Some irt))
      | Some target_thread =>
          y <- get_thr target_thread ;;
          if decide (th_transaction_stack y ≠ Some irt) then ret (Refused BR_FAILED_REPLY None)
          else ret (Chosen (Target (th_proc y) (Some target_thread) None (Some irt)))
      end
  end.

(** The loop that looks for a thread of the target process in the chain of calls:
    the last one found is the outermost. *)
Fixpoint stack_thread (fuel : nat) (target_proc : Z) (tmp : option Z) (found : option Z) : K (option Z) :=
  match tmp with
  | None => ret found
  | Some t =>
      match fuel with
      | O => crash_with CrashFuel
      | S fuel =>
          tx <- get_txn t ;;
          found <- match t_from tx with
                   | Some th =>
                       x <- get_thr th ;;
                       ret (if decide (th_proc x = target_proc) then Some th else found)
                   | None => ret found
                   end ;;
          stack_thread fuel target_proc (t_from_parent tx) found
      end
  end.

Definition call_target (proc thread : Z) (tr : txn_data) : K choice :=
  node <- (if decide (tr_target tr ≠ 0) then
             (ref <- binder_get_ref proc (tr_target tr) ;;
              match ref with
              | None => ret (inr BR_FAILED_REPLY)
              | Some r => rf <- get_rf r ;; ret (inl (r_node rf))
              end)
           else
             (k <- getst ;;
              match k_context_mgr_node k with
              | None => ret (inr BR_DEAD_REPLY)
              | Some n => ret (inl n)
              end)) ;;
  match node with
  | inr e => ret (Refused e None)
  | inl n =>
      nd <- get_nd n ;;
      match n_proc nd with
      | None => ret (Refused BR_DEAD_REPLY None)
      | Some target_proc =>
          x <- get_thr thread ;;
          match th_transaction_stack x with
          | Some tmp =>
              if has_flag (tr_flags tr) TF_ONE_WAY then ret (Chosen (Target target_proc None (Some n) None)) else
              tx <- get_txn tmp ;;
              if decide (t_to_thread tx ≠ Some thread) then ret (Refused BR_FAILED_REPLY None) else
              k <- getst ;;
              th <- stack_thread (S (size (k_txns k))) target_proc (Some tmp) None ;;
              ret (Chosen (Target target_proc th (Some n) None))
          | None => ret (Chosen (Target target_proc None (Some n) None))
          end
      end
  end.

(** ** Translating the objects of a buffer *)

(** Looking an object up, or making its node. *)
Definition find_node (proc : Z) (o : flat) : K (option Z) :=
  node <- binder_get_node proc (f_binder o) ;;
  match node with
  | Some n => ret (Some n)
  | None =>
      n <- binder_new_node proc (f_binder o) (f_cookie o) ;;
      match n with
      | None => ret None
      | Some n =>
          upd_nd n (set_n_min_priority (Z.land (f_flags o) 255)) ;;;
          upd_nd n (set_n_accept_fds (has_flag (f_flags o) 256)) ;;;
          ret (Some n)
      end
  end.

(** An object of the sender becomes a handle of the receiver. *)
Definition translate_binder (proc thread target_proc : Z) (o : flat) : K (flat + Z) :=
  node <- find_node proc o ;;
  match node with
  | None => ret (inr BR_FAILED_REPLY)
  | Some n =>
      nd <- get_nd n ;;
      if decide (f_cookie o ≠ n_cookie nd) then (k <- getst ;; ret (inr (k_uninit k))) else
      ref <- binder_get_ref_for_node target_proc n ;;
      match ref with
      | None => ret (inr BR_FAILED_REPLY)
      | Some r =>
          rf <- get_rf r ;;
          let ty := if decide (f_type o = BINDER_TYPE_BINDER) then BINDER_TYPE_HANDLE else BINDER_TYPE_WEAK_HANDLE in
          binder_inc_ref r (bool_decide (ty = BINDER_TYPE_HANDLE)) (Some (LThreadTodo thread)) ;;;
          ret (inl (Flat ty (f_flags o) (r_desc rf) (f_cookie o)))
      end
  end.

(** A handle of the sender becomes the receiver's own object, or a handle of it. *)
Definition translate_handle (proc target_proc : Z) (o : flat) : K (flat + Z) :=
  ref <- binder_get_ref proc (f_binder o) ;;
  match ref with
  | None => ret (inr BR_FAILED_REPLY)
  | Some r =>
      rf <- get_rf r ;;
      nd <- get_nd (r_node rf) ;;
      if decide (n_proc nd = Some target_proc) then
        let ty := if decide (f_type o = BINDER_TYPE_HANDLE) then BINDER_TYPE_BINDER else BINDER_TYPE_WEAK_BINDER in
        binder_inc_node (r_node rf) (bool_decide (ty = BINDER_TYPE_BINDER)) false None ;;;
        ret (inl (Flat ty (f_flags o) (n_ptr nd) (n_cookie nd)))
      else
        new_ref <- binder_get_ref_for_node target_proc (r_node rf) ;;
        match new_ref with
        | None => ret (inr BR_FAILED_REPLY)
        | Some nr =>
            nrf <- get_rf nr ;;
            binder_inc_ref nr (bool_decide (f_type o = BINDER_TYPE_HANDLE)) None ;;;
            ret (inl (Flat (f_type o) (f_flags o) (r_desc nrf) (f_cookie o)))
        end
  end.

(** A file is opened in the receiver. *)
Definition translate_fd (target_proc : Z) (allowed : bool) (o : flat) : K (flat + Z) :=
  if negb allowed then ret (inr BR_FAILED_REPLY) else
  k <- getst ;;
  fdt <- get_fdt (c_files (k_cur k)) ;;
  match fd_file fdt !! f_binder o with
  | None => ret (inr BR_FAILED_REPLY)
  | Some file =>
      target_fd <- task_get_unused_fd_flags target_proc true ;;
      if decide (target_fd < 0) then ret (inr BR_FAILED_REPLY) else
      task_fd_install target_proc target_fd file ;;;
      ret (inl (Flat (f_type o) (f_flags o) (u32 target_fd) (f_cookie o)))
  end.

(** Whether the receiver accepts files. *)
Definition fds_allowed (tg : target) : K bool :=
  match tg_in_reply_to tg with
  | Some irt => tx <- get_txn irt ;; ret (has_flag (t_flags tx) TF_ACCEPT_FDS)
  | None => n <- deref (tg_node tg) ;; nd <- get_nd n ;; ret (n_accept_fds nd)
  end.

Definition translate_object (proc thread : Z) (tg : target) (o : flat) : K (flat + Z) :=
  if decide (f_type o = BINDER_TYPE_BINDER ∨ f_type o = BINDER_TYPE_WEAK_BINDER) then
    translate_binder proc thread (tg_proc tg) o
  else if decide (f_type o = BINDER_TYPE_HANDLE ∨ f_type o = BINDER_TYPE_WEAK_HANDLE) then
    translate_handle proc (tg_proc tg) o
  else if decide (f_type o = BINDER_TYPE_FD) then
    (allowed <- fds_allowed tg ;; translate_fd (tg_proc tg) allowed o)
  else ret (inr BR_FAILED_REPLY).

(** The loop over the offsets, from number [i] on: the error, and where. *)
Fixpoint translate_objects (proc thread : Z) (tg : target) (buf : Z * Z) (offs : list Z) (i : nat)
    : K (option (Z * nat)) :=
  match offs with
  | [] => ret None
  | off :: offs =>
      h <- get_buffer buf ;;
      if bad_offset off (b_data_size h) then ret (Some (BR_FAILED_REPLY, i)) else
      o <- deref (flat_at (b_data h) off) ;;
      r <- translate_object proc thread tg o ;;
      match r with
      | inr e => ret (Some (e, i))
      | inl o' =>
          upd_buffer buf (λ h, set_b_data (put_flat off o' (b_data h)) h) ;;;
          translate_objects proc thread tg buf offs (S i)
      end
  end.

(** The contents are copied in and translated. *)
Definition fill_buffer (proc thread : Z) (tg : target) (buf : Z * Z) (tr : txn_data) : K (option (Z * nat)) :=
  data <- copy_from_user (tr_buffer tr) (tr_data_size tr) ;;
  match data with
  | None => ret (Some (BR_FAILED_REPLY, 0%nat))
  | Some data =>
      upd_buffer buf (set_b_data data) ;;;
      offs <- copy_from_user (tr_offsets tr) (tr_offsets_size tr) ;;
      match offs with
      | None => ret (Some (BR_FAILED_REPLY, 0%nat))
      | Some offs =>
          upd_buffer buf (set_b_offs (words_of offs)) ;;;
          if negb (IS_ALIGNED (tr_offsets_size tr) PTR_SIZE) then ret (Some (BR_FAILED_REPLY, 0%nat))
          else translate_objects proc thread tg buf (words_of offs) 0
      end
  end.

(** ** Queueing *)

(** The transaction [t], with its buffer filled, becomes work of the target. *)
Definition queue_transaction (thread : Z) (tg : target) (t c : Z) (reply : bool) : K unit :=
  let target_list := match tg_thread tg with Some th => LThreadTodo th | None => LProcTodo (tg_proc tg) end in
  let target_wait := match tg_thread tg with Some th => WqThread th | None => WqProc (tg_proc tg) end in
  tx <- get_txn t ;;
  b <- deref (t_buffer tx) ;;
  h <- get_buffer b ;;
  dest <- (if reply then
             bug_on (b_async_transaction h) ;;;
             irt <- deref (tg_in_reply_to tg) ;;
             binder_pop_transaction (tg_thread tg) irt ;;;
             ret (target_list, Some target_wait)
           else if negb (has_flag (t_flags tx) TF_ONE_WAY) then
             bug_on (b_async_transaction h) ;;;
             x <- get_thr thread ;;
             upd_txn t (set_t_need_reply true) ;;;
             upd_txn t (set_t_from_parent (th_transaction_stack x)) ;;;
             upd_thr thread (set_th_transaction_stack (Some t)) ;;;
             ret (target_list, Some target_wait)
           else
             match tg_node tg with
             | None => crash_with CrashBug
             | Some n =>
                 bug_on (negb (b_async_transaction h)) ;;;
                 nd <- get_nd n ;;
                 if n_has_async_transaction nd then ret (LAsyncTodo n, None)
                 else upd_nd n (set_n_has_async_transaction true) ;;; ret (target_list, Some target_wait)
             end) ;;
  list_add_tail (WTransaction t) (fst dest) ;;;
  list_add_tail (WComplete c) (LThreadTodo thread) ;;;
  match snd dest with
  | Some q => wake_up_interruptible q
  | None => ret tt
  end.

(** Everything after the target is known; the result is the error, if any. *)
Definition send_to (proc thread : Z) (tr : txn_data) (reply : bool) (tg : target) : K (option Z) :=
  a <- kzalloc ;;
  match a with
  | None => ret (Some BR_FAILED_REPLY)
  | Some t =>
      modify (λ k, set_k_txns (<[t := Txn 0 None None None None None false None 0 0 0 0 0]> (k_txns k)) k) ;;;
      a <- kzalloc ;;
      match a with
      | None => free_txn t ;;; ret (Some BR_FAILED_REPLY)
      | Some c =>
          modify (λ k, set_k_completes ({[c]} ∪ k_completes k) k) ;;;
          id <- next_id ;;
          p <- get_proc proc ;;
          k <- getst ;;
          let one_way := has_flag (tr_flags tr) TF_ONE_WAY in
          upd_txn t (λ _, Txn id (if negb reply && negb one_way then Some thread else None) None
            (Some (tg_proc tg)) (tg_thread tg) None false None (tr_code tr) (tr_flags tr)
            (k_nice k) 0 (p_euid p)) ;;;
          b <- in_alloc (tg_proc tg)
                 (binder_alloc_buf (k_mm k) (tr_data_size tr) (tr_offsets_size tr) (negb reply && one_way)) ;;
          match b with
          | None => free_complete c ;;; free_txn t ;;; ret (Some BR_FAILED_REPLY)
          | Some b =>
              let buf := (tg_proc tg, b) in
              upd_txn t (set_t_buffer (Some buf)) ;;;
              upd_buffer buf (set_b_owner (id mod 2 ^ 29) (Some t) (tg_node tg)) ;;;
              (match tg_node tg with
               | Some n => binder_inc_node n true false None ;;; ret tt
               | None => ret tt
               end) ;;;
              e <- fill_buffer proc thread tg buf tr ;;
              match e with
              | None => queue_transaction thread tg t c reply ;;; ret None
              | Some (e, i) =>
                  binder_transaction_buffer_release (tg_proc tg) buf (Some i) ;;;
                  upd_buffer buf (set_b_transaction None) ;;;
                  k <- getst ;;
                  in_alloc (tg_proc tg) (binder_free_buf (k_mm k) b) ;;;
                  free_complete c ;;;
                  free_txn t ;;;
                  ret (Some e)
              end
          end
      end
  end.

(** The tail all errors end in. *)
Definition transaction_failed (thread return_error : Z) (in_reply_to : option Z) : K unit :=
  x <- get_thr thread ;;
  bug_on (bool_decide (th_return_error x ≠ BR_OK)) ;;;
  match in_reply_to with
  | Some irt =>
      upd_thr thread (set_th_return_error BR_TRANSACTION_COMPLETE) ;;;
      binder_send_failed_reply irt return_error
  | None => upd_thr thread (set_th_return_error return_error)
  end.

Definition binder_transaction (proc thread : Z) (tr : txn_data) (reply : bool) : K unit :=
  ch <- (if reply then reply_target thread else call_target proc thread tr) ;;
  match ch with
  | Refused e irt => transaction_failed thread e irt
  | Chosen tg =>
      e <- send_to proc thread tr reply tg ;;
      match e with
      | None => ret tt
      | Some e => transaction_failed thread e (tg_in_reply_to tg)
      end
  end.
End txn.
