(* ===== verification/BinderWrite.v ===== *)
(** * Commands to the binder driver

    [binder_thread_write] of [driver/binder/binder.c]: the buffer of commands that
    a thread writes, one definition per group of commands.  A command reads its
    arguments at [ptr] and returns the pointer behind them, or an error that ends
    the call ([-EFAULT] when an argument cannot be read). *)

From Stdlib Require Import ZArith Lia.
From stdpp Require Import base tactics list sets gmap.
From S2P Require Import Prelude Rbtree BinderAlloc BinderState BinderRefs BinderFds BinderTxn.

(** Where the next command starts, or the error the call returns. *)
Definition cmd_result : Type := Z + Z.

Section write.
Context `{KernelEnv}.

(** [if (get_user(x, ptr)) return -EFAULT; ptr += 4]. *)
Definition arg (ptr : Z) (k : Z → Z → K cmd_result) : K cmd_result :=
  o <- get_user ptr ;;
  match o with
  | None => ret (inr (- EFAULT))
  | Some x => k x (ptr + 4)
  end.

(** [BC_INCREFS], [BC_ACQUIRE], [BC_RELEASE], [BC_DECREFS]. *)
Definition cmd_refs (proc cmd ptr : Z) : K cmd_result :=
  arg ptr (λ target ptr,
    k <- getst ;;
    ref <- match k_context_mgr_node k with
           | Some n =>
               if decide (target = 0 ∧ (cmd = BC_INCREFS ∨ cmd = BC_ACQUIRE))
               then (ref <- binder_get_ref_for_node proc n ;; r <- deref ref ;; get_rf r ;;; ret (Some r))
               else binder_get_ref proc target
           | None => binder_get_ref proc target
           end ;;
    match ref with
    | None => ret (inl ptr)
    | Some r =>
        (if decide (cmd = BC_INCREFS) then binder_inc_ref r false None
         else if decide (cmd = BC_ACQUIRE) then binder_inc_ref r true None
         else if decide (cmd = BC_RELEASE) then binder_dec_ref r true
         else binder_dec_ref r false) ;;;
        ret (inl ptr)
    end).

(** [BC_INCREFS_DONE], [BC_ACQUIRE_DONE]. *)
Definition cmd_refs_done (proc cmd ptr : Z) : K cmd_result :=
  arg ptr (λ node_ptr ptr, arg ptr (λ cookie ptr,
    node <- binder_get_node proc node_ptr ;;
    match node with
    | None => ret (inl ptr)
    | Some n =>
        nd <- get_nd n ;;
        if decide (cookie ≠ n_cookie nd) then ret (inl ptr) else
        if decide (cmd = BC_ACQUIRE_DONE) then
          if negb (n_pending_strong_ref nd) then ret (inl ptr)
          else upd_nd n (set_n_pending_strong_ref false) ;;; binder_dec_node n true false ;;; ret (inl ptr)
        else
          if negb (n_pending_weak_ref nd) then ret (inl ptr)
          else upd_nd n (set_n_pending_weak_ref false) ;;; binder_dec_node n false false ;;; ret (inl ptr)
    end)).

(** The next one-way call to the node of a buffer that is given back. *)
Definition next_async (thread : Z) (h : buffer) : K unit :=
  match b_target_node h with
  | Some n =>
      when b_async_transaction h do (
        nd <- get_nd n ;;
        bug_on (negb (n_has_async_transaction nd)) ;;;
        ws <- read_list (LAsyncTodo n) ;;
        match ws with
        | [] => upd_nd n (set_n_has_async_transaction false)
        | w :: _ => list_move_tail w (LThreadTodo thread)
        end)
  | None => ret tt
  end.

(** [BC_FREE_BUFFER]. *)
Definition cmd_free_buffer (proc thread ptr : Z) : K cmd_result :=
  arg ptr (λ data_ptr ptr,
    b <- in_alloc proc (binder_buffer_lookup data_ptr) ;;
    match b with
    | None => ret (inl ptr)
    | Some b =>
        let buf := (proc, b) in
        h <- get_buffer buf ;;
        if negb (b_allow_user_free h) then ret (inl ptr) else
        (match b_transaction h with
         | Some t => upd_txn t (set_t_buffer None) ;;; upd_buffer buf (set_b_transaction None)
         | None => ret tt
         end) ;;;
        next_async thread h ;;;
        binder_transaction_buffer_release proc buf None ;;;
        k <- getst ;;
        in_alloc proc (binder_free_buf (k_mm k) b) ;;;
        ret (inl ptr)
    end).

(** [BC_TRANSACTION], [BC_REPLY]. *)
Definition cmd_transaction (proc thread cmd ptr : Z) : K cmd_result :=
  l <- copy_from_user ptr TR_SIZE ;;
  match l with
  | None => ret (inr (- EFAULT))
  | Some l =>
      tr <- deref (txn_data_of_words (words_of l)) ;;
      binder_transaction proc thread tr (bool_decide (cmd = BC_REPLY)) ;;;
      ret (inl (ptr + TR_SIZE))
  end.

(** [BC_REGISTER_LOOPER], [BC_ENTER_LOOPER], [BC_EXIT_LOOPER]: the new state of the
    looper and what becomes of the process's request for threads. *)
Definition looper_step (cmd looper requested started : Z) : Z * Z * Z :=
  if decide (cmd = BC_REGISTER_LOOPER) then
    let '(l, rq, st) :=
      if has_flag looper LOOPER_ENTERED then (Z.lor looper LOOPER_INVALID, requested, started)
      else if decide (requested = 0) then (Z.lor looper LOOPER_INVALID, requested, started)
      else (looper, requested - 1, started + 1) in
    (Z.lor l LOOPER_REGISTERED, rq, st)
  else if decide (cmd = BC_ENTER_LOOPER) then
    let l := if has_flag looper LOOPER_REGISTERED then Z.lor looper LOOPER_INVALID else looper in
    (Z.lor l LOOPER_ENTERED, requested, started)
  else (Z.lor looper LOOPER_EXITED, requested, started).
Definition cmd_looper (proc thread cmd ptr : Z) : K cmd_result :=
  x <- get_thr thread ;;
  p <- get_proc proc ;;
  let '(l, rq, st) := looper_step cmd (th_looper x) (p_requested_threads p) (p_requested_threads_started p) in
  upd_proc proc (λ p, set_p_requested_threads rq (set_p_requested_threads_started st p)) ;;;
  upd_thr thread (set_th_looper l) ;;;
  ret (inl ptr).

(** A death notification is queued where the thread, if it is a looper, or the
    process will find it. *)
Definition queue_death (proc thread d : Z) : K unit :=
  x <- get_thr thread ;;
  if has_flag (th_looper x) (Z.lor LOOPER_REGISTERED LOOPER_ENTERED) then list_add_tail (WDeath d) (LThreadTodo thread)
  else list_add_tail (WDeath d) (LProcTodo proc) ;;; wake_up_interruptible (WqProc proc).

(** [BC_REQUEST_DEATH_NOTIFICATION], [BC_CLEAR_DEATH_NOTIFICATION]. *)
Definition request_death (proc thread r cookie : Z) : K unit :=
  rf <- get_rf r ;;
  match r_death rf with
  | Some _ => ret tt
  | None =>
      a <- kzalloc ;;
      match a with
      | None => upd_thr thread (set_th_return_error BR_ERROR)
      | Some d =>
          modify (λ k, set_k_deaths (<[d := Death cookie DtUnset]> (k_deaths k)) k) ;;;
          upd_rf r (set_r_death (Some d)) ;;;
          nd <- get_nd (r_node rf) ;;
          when bool_decide (n_proc nd = None) do (
            upd_dth d (set_d_type DtDeadBinder) ;;; queue_death proc thread d)
      end
  end.
Definition clear_death (proc thread r cookie : Z) : K unit :=
  rf <- get_rf r ;;
  match r_death rf with
  | None => ret tt
  | Some d =>
      dd <- get_dth d ;;
      if decide (d_cookie dd ≠ cookie) then ret tt else
      upd_rf r (set_r_death None) ;;;
      unlinked <- entry_unlinked (WDeath d) ;;
      if unlinked : bool then upd_dth d (set_d_type DtClearDeathNotification) ;;; queue_death proc thread d
      else
        bug_on (bool_decide (d_type dd ≠ DtDeadBinder)) ;;;
        upd_dth d (set_d_type DtDeadBinderAndClear)
  end.
Definition cmd_death (proc thread cmd ptr : Z) : K cmd_result :=
  arg ptr (λ target ptr, arg ptr (λ cookie ptr,
    ref <- binder_get_ref proc target ;;
    match ref with
    | None => ret (inl ptr)
    | Some r =>
        (if decide (cmd = BC_REQUEST_DEATH_NOTIFICATION) then request_death proc thread r cookie
         else clear_death proc thread r cookie) ;;;
        ret (inl ptr)
    end)).

(** [list_for_each_entry] over the delivered notifications. *)
Fixpoint find_delivered (cookie : Z) (ws : list work) : K (option Z) :=
  match ws with
  | [] => ret None
  | WDeath d :: ws =>
      dd <- get_dth d ;;
      if decide (d_cookie dd = cookie) then ret (Some d) else find_delivered cookie ws
  | _ :: _ => crash_with CrashOops
  end.
(** [BC_DEAD_BINDER_DONE]. *)
Definition cmd_dead_binder_done (proc thread ptr : Z) : K cmd_result :=
  arg ptr (λ cookie ptr,
    ws <- read_list (LDelivered proc) ;;
    o <- find_delivered cookie ws ;;
    match o with
    | None => ret (inl ptr)
    | Some d =>
        list_del (WDeath d) ;;;
        dd <- get_dth d ;;
        (when bool_decide (d_type dd = DtDeadBinderAndClear) do (
           upd_dth d (set_d_type DtClearDeathNotification) ;;; queue_death proc thread d)) ;;;
        ret (inl ptr)
    end).

(** The switch over the commands. *)
Definition binder_command (proc thread cmd ptr : Z) : K cmd_result :=
  if decide (cmd ∈ [BC_INCREFS; BC_ACQUIRE; BC_RELEASE; BC_DECREFS]) then cmd_refs proc cmd ptr
  else if decide (cmd ∈ [BC_INCREFS_DONE; BC_ACQUIRE_DONE]) then cmd_refs_done proc cmd ptr
  else if decide (cmd ∈ [BC_ATTEMPT_ACQUIRE; BC_ACQUIRE_RESULT]) then ret (inr (- EINVAL))
  else if decide (cmd = BC_FREE_BUFFER) then cmd_free_buffer proc thread ptr
  else if decide (cmd ∈ [BC_TRANSACTION; BC_REPLY]) then cmd_transaction proc thread cmd ptr
  else if decide (cmd ∈ [BC_REGISTER_LOOPER; BC_ENTER_LOOPER; BC_EXIT_LOOPER]) then cmd_looper proc thread cmd ptr
  else if decide (cmd ∈ [BC_REQUEST_DEATH_NOTIFICATION; BC_CLEAR_DEATH_NOTIFICATION]) then cmd_death proc thread cmd ptr
  else if decide (cmd = BC_DEAD_BINDER_DONE) then cmd_dead_binder_done proc thread ptr
  else ret (inr (- EINVAL)).

(** The loop: the result of the call and [*consumed]. *)
Fixpoint write_loop (fuel : nat) (proc thread buffer end_ ptr consumed : Z) : K (Z * Z) :=
  match fuel with
  | O => crash_with CrashFuel
  | S fuel =>
      x <- get_thr thread ;;
      if decide (ptr < end_ ∧ th_return_error x = BR_OK) then
        cmd <- get_user ptr ;;
        match cmd with
        | None => ret (- EFAULT, consumed)
        | Some cmd =>
            r <- binder_command proc thread cmd (ptr + 4) ;;
            match r with
            | inr e => ret (e, consumed)
            | inl ptr => write_loop fuel proc thread buffer end_ ptr (s32 (ptr - buffer))
            end
        end
      else ret (0, consumed)
  end.

(** Every command takes at least four bytes. *)
Definition binder_thread_write (proc thread buffer size consumed : Z) : K (Z * Z) :=
  let ptr := u32 (buffer + consumed) in
  let end_ := u32 (buffer + size) in
  write_loop (S (Z.to_nat (end_ - ptr))) proc thread buffer end_ ptr consumed.
End write.
