(* ===== verification/BinderRead.v ===== *)
(** * Answers of the binder driver

    [binder_thread_read] of [driver/binder/binder.c].  The lock is released while
    the thread waits for work: the routine is split there ([read_start] before the
    wait, [read_work] after it), and [binder_thread_read] takes what the rest of
    the system does during the wait as an argument. *)

From Stdlib Require Import ZArith Lia.
From stdpp Require Import base tactics list sets gmap.
From S2P Require Import Prelude Rbtree BinderAlloc BinderState BinderRefs BinderFds BinderTxn.

(** What becomes of a read, or of one of its steps: it goes on at a place in the
    user's buffer, it is done there, or it returns an error. *)
Inductive read_result :=
  | ReadOn (ptr : Z)
  | ReadDone (ptr : Z)
  | ReadErr (e : Z).

Section read.
Context `{KernelEnv}.

Definition binder_has_proc_work (proc thread : Z) : K bool :=
  e <- list_empty (LProcTodo proc) ;;
  x <- get_thr thread ;;
  ret (negb e || has_flag (th_looper x) LOOPER_NEED_RETURN).
Definition binder_has_thread_work (thread : Z) : K bool :=
  e <- list_empty (LThreadTodo thread) ;;
  x <- get_thr thread ;;
  ret (negb e || bool_decide (th_return_error x ≠ BR_OK) || has_flag (th_looper x) LOOPER_NEED_RETURN).

(** [if (put_user(x, ptr)) return -EFAULT; ptr += 4]. *)
Definition out (v ptr : Z) (k : Z → K read_result) : K read_result :=
  fault <- put_user v ptr ;;
  if fault : bool then ret (ReadErr (- EFAULT)) else k (ptr + 4).

(** The errors of earlier writes are delivered first. *)
Definition read_errors (thread ptr end_ : Z) : K read_result :=
  x <- get_thr thread ;;
  if decide (th_return_error x ≠ BR_OK ∧ ptr < end_) then
    let second ptr :=
      out (th_return_error x) ptr (λ ptr,
        upd_thr thread (set_th_return_error BR_OK) ;;; ret (ReadDone ptr)) in
    if decide (th_return_error2 x ≠ BR_OK) then
      out (th_return_error2 x) ptr (λ ptr,
        if decide (ptr = end_) then ret (ReadDone ptr)
        else upd_thr thread (set_th_return_error2 BR_OK) ;;; second ptr)
    else second ptr
  else ret (ReadOn ptr).

Definition waits_for_proc (thread : Z) : K bool :=
  x <- get_thr thread ;;
  e <- list_empty (LThreadTodo thread) ;;
  ret (bool_decide (th_transaction_stack x = None) && e).

(** Before the wait: the thread counts as ready if it waits for the process's work. *)
Definition enter_wait (proc thread : Z) (for_proc : bool) : K unit :=
  x <- get_thr thread ;;
  upd_thr thread (set_th_looper (Z.lor (th_looper x) LOOPER_WAITING)) ;;;
  (when for_proc do (
     p <- get_proc proc ;;
     upd_proc proc (set_p_ready_threads (s32 (p_ready_threads p + 1))) ;;;
     binder_set_nice (p_default_priority p))).
(** After it. *)
Definition leave_wait (proc thread : Z) (for_proc : bool) : K unit :=
  (when for_proc do (
     p <- get_proc proc ;;
     upd_proc proc (set_p_ready_threads (s32 (p_ready_threads p - 1))))) ;;;
  x <- get_thr thread ;;
  upd_thr thread (set_th_looper (Z.land (th_looper x) (Z.lnot LOOPER_WAITING))).

(** The wait itself, while others run ([others]): [-EAGAIN] for a caller that does
    not block and finds no work, what [wait_event_interruptible] returns otherwise. *)
Definition wait_for_work (proc thread : Z) (for_proc non_block : bool) (others : K Z) : K Z :=
  if non_block then
    b <- (if for_proc then binder_has_proc_work proc thread else binder_has_thread_work thread) ;;
    ret (if b : bool then 0 else - EAGAIN)
  else others.

(** ** One piece of work *)

(** The next thing a node's process must hear, and the node after it is told. *)
Definition node_command (nd : node) : Z * node :=
  let strong := bool_decide (n_internal_strong_refs nd ≠ 0) || bool_decide (n_local_strong_refs nd ≠ 0) in
  let weak := bool_decide (n_refs nd ≠ []) || bool_decide (n_local_weak_refs nd ≠ 0) || strong in
  if weak && negb (n_has_weak_ref nd) then
    (BR_INCREFS, set_n_local_weak_refs (s32 (n_local_weak_refs nd + 1))
                   (set_n_pending_weak_ref true (set_n_has_weak_ref true nd)))
  else if strong && negb (n_has_strong_ref nd) then
    (BR_ACQUIRE, set_n_local_strong_refs (s32 (n_local_strong_refs nd + 1))
                   (set_n_pending_strong_ref true (set_n_has_strong_ref true nd)))
  else if negb strong && n_has_strong_ref nd then (BR_RELEASE, set_n_has_strong_ref false nd)
  else if negb weak && n_has_weak_ref nd then (BR_DECREFS, set_n_has_weak_ref false nd)
  else (BR_NOOP, nd).
Definition node_in_use (nd : node) : bool :=
  bool_decide (n_internal_strong_refs nd ≠ 0) || bool_decide (n_local_strong_refs nd ≠ 0) ||
  bool_decide (n_refs nd ≠ []) || bool_decide (n_local_weak_refs nd ≠ 0).

Definition read_node (proc n ptr : Z) : K read_result :=
  nd <- get_nd n ;;
  let '(cmd, nd') := node_command nd in
  upd_nd n (λ _, nd') ;;;
  if decide (cmd ≠ BR_NOOP) then
    out cmd ptr (λ ptr, out (n_ptr nd) ptr (λ ptr, out (n_cookie nd) ptr (λ ptr, ret (ReadOn ptr))))
  else
    list_del (WNode n) ;;;
    (when negb (node_in_use nd) do (
       p <- get_proc proc ;;
       upd_proc proc (set_p_nodes (rb_erase n (p_nodes p))) ;;;
       free_node n)) ;;;
    ret (ReadOn ptr).

Definition read_death (proc d ptr : Z) : K read_result :=
  dd <- get_dth d ;;
  if decide (d_type dd = DtUnset) then ret (ReadOn ptr) else
  let clear := bool_decide (d_type dd = DtClearDeathNotification) in
  out (if clear then BR_CLEAR_DEATH_NOTIFICATION_DONE else BR_DEAD_BINDER) ptr (λ ptr,
  out (d_cookie dd) ptr (λ ptr,
    if clear then list_del (WDeath d) ;;; free_dth d ;;; ret (ReadOn ptr)
    else list_move (WDeath d) (LDelivered proc) ;;; ret (ReadDone ptr))).

(** The priority a call runs at, and what is kept of the thread's own. *)
Definition adopt_priority (t : Z) (tx : txn) (nd : node) : K unit :=
  k <- getst ;;
  upd_txn t (set_t_saved_priority (k_nice k)) ;;;
  let one_way := has_flag (t_flags tx) TF_ONE_WAY in
  if bool_decide (t_priority tx < n_min_priority nd) && negb one_way then binder_set_nice (t_priority tx)
  else if negb one_way || bool_decide (k_nice k > n_min_priority nd) then binder_set_nice (n_min_priority nd)
  else ret tt.

Definition read_transaction (proc thread t ptr : Z) : K read_result :=
  tx <- get_txn t ;;
  match t_buffer tx with
  | None => crash_with CrashBug
  | Some b =>
      h <- get_buffer b ;;
      hd <- match b_target_node h with
            | Some n =>
                nd <- get_nd n ;;
                adopt_priority t tx nd ;;;
                ret (n_ptr nd, n_cookie nd, BR_TRANSACTION)
            | None => ret (0, 0, BR_REPLY)
            end ;;
      let '(tptr, cookie, cmd) := hd in
      pid <- match t_from tx with
             | Some th => x <- get_thr th ;; p <- get_proc (th_proc x) ;; ret (task_tgid_nr_ns (p_pid p))
             | None => ret 0
             end ;;
      p <- get_proc proc ;;
      let data := u32 (snd b + BUF_HDR + a_user_buffer_offset (p_alloc p)) in
      let tr := TxnData tptr cookie (t_code tx) (t_flags tx) pid (t_sender_euid tx)
                  (b_data_size h) (b_offsets_size h) data (u32 (data + ALIGN (b_data_size h) PTR_SIZE)) in
      out cmd ptr (λ ptr,
        fault <- copy_to_user ptr (concat (word_bytes <$> txn_data_words tr)) ;;
        if fault : bool then ret (ReadErr (- EFAULT)) else
        list_del (WTransaction t) ;;;
        upd_buffer b (set_b_allow_user_free true) ;;;
        (if bool_decide (cmd = BR_TRANSACTION) && negb (has_flag (t_flags tx) TF_ONE_WAY) then
           x <- get_thr thread ;;
           upd_txn t (set_t_to_parent (th_transaction_stack x)) ;;;
           upd_txn t (set_t_to_thread (Some thread)) ;;;
           upd_thr thread (set_th_transaction_stack (Some t))
         else
           upd_buffer b (set_b_transaction None) ;;; free_txn t) ;;;
        ret (ReadDone (ptr + TR_SIZE)))
  end.

(** One turn of the loop on work [w]. *)
Definition read_one (proc thread ptr : Z) (w : work) : K read_result :=
  match w with
  | WTransaction t => read_transaction proc thread t ptr
  | WComplete c =>
      out BR_TRANSACTION_COMPLETE ptr (λ ptr, list_del w ;;; free_complete c ;;; ret (ReadOn ptr))
  | WNode n => read_node proc n ptr
  | WDeath d => read_death proc d ptr
  end.

(** The work to take up next. *)
Definition next_work (proc thread : Z) (for_proc : bool) : K (option work) :=
  ws <- read_list (LThreadTodo thread) ;;
  match ws with
  | w :: _ => ret (Some w)
  | [] => ps <- read_list (LProcTodo proc) ;; ret (if for_proc : bool then head ps else None)
  end.

(** The loop.  [ReadOn]: nothing was there and the thread must wait again.
    [end - ptr < sizeof(tr) + 4] compares unsigned numbers. *)
Fixpoint read_work (fuel : nat) (proc thread buffer end_ ptr : Z) (for_proc : bool) : K read_result :=
  match fuel with
  | O => crash_with CrashFuel
  | S fuel =>
      w <- next_work proc thread for_proc ;;
      match w with
      | None =>
          x <- get_thr thread ;;
          ret (if bool_decide (s32 (ptr - buffer) = 4) && negb (has_flag (th_looper x) LOOPER_NEED_RETURN)
               then ReadOn ptr else ReadDone ptr)
      | Some w =>
          if decide (u32 (end_ - ptr) < TR_SIZE + 4) then ret (ReadDone ptr) else
          r <- read_one proc thread ptr w ;;
          match r with
          | ReadOn ptr => read_work fuel proc thread buffer end_ ptr for_proc
          | r => ret r
          end
      end
  end.

(** The tail: [*consumed], and a request for another thread when none is left
    waiting. *)
Definition read_finish (proc thread buffer ptr : Z) : K (Z * Z) :=
  p <- get_proc proc ;;
  x <- get_thr thread ;;
  if bool_decide (s32 (p_requested_threads p + p_ready_threads p) = 0) &&
     bool_decide (p_requested_threads_started p < p_max_threads p) &&
     has_flag (th_looper x) (Z.lor LOOPER_REGISTERED LOOPER_ENTERED)
  then
    upd_proc proc (set_p_requested_threads (s32 (p_requested_threads p + 1))) ;;;
    fault <- put_user BR_SPAWN_LOOPER buffer ;;
    ret (if fault : bool then - EFAULT else 0, s32 (ptr - buffer))
  else ret (0, s32 (ptr - buffer)).

(** [retry]: errors, the wait, the work. *)
Fixpoint read_rounds (rounds fuel : nat) (proc thread buffer end_ ptr consumed : Z) (non_block : bool)
    (others : K Z) : K (Z * Z) :=
  match rounds with
  | O => crash_with CrashFuel
  | S rounds =>
      for_proc <- waits_for_proc thread ;;
      r <- read_errors thread ptr end_ ;;
      match r with
      | ReadErr e => ret (e, consumed)
      | ReadDone ptr => read_finish proc thread buffer ptr
      | ReadOn ptr =>
          enter_wait proc thread for_proc ;;;
          e <- wait_for_work proc thread for_proc non_block others ;;
          leave_wait proc thread for_proc ;;;
          if decide (e ≠ 0) then ret (e, consumed) else
          r <- read_work fuel proc thread buffer end_ ptr for_proc ;;
          match r with
          | ReadErr e => ret (e, consumed)
          | ReadDone ptr => read_finish proc thread buffer ptr
          | ReadOn ptr => read_rounds rounds fuel proc thread buffer end_ ptr consumed non_block others
          end
      end
  end.

Definition binder_thread_read (rounds fuel : nat) (proc thread buffer size consumed : Z) (non_block : bool)
    (others : K Z) : K (Z * Z) :=
  let ptr := u32 (buffer + consumed) in
  let end_ := u32 (buffer + size) in
  if decide (consumed = 0) then
    fault <- put_user BR_NOOP ptr ;;
    if fault : bool then ret (- EFAULT, consumed)
    else read_rounds rounds fuel proc thread buffer end_ (ptr + 4) consumed non_block others
  else read_rounds rounds fuel proc thread buffer end_ ptr consumed non_block others.
End read.
