(* ===== verification/BinderLifecycle.v ===== *)
(** * Threads, processes and the entry points of the binder driver

    [driver/binder/binder.c], from [binder_release_work] to [binder_defer_work]:
    how threads and processes come and go, the calls on the device's file
    ([binder_open], [binder_mmap], [binder_ioctl], [binder_poll], [binder_flush],
    [binder_release]) and the work that is put off ([binder_deferred_func]).
    [binder_stop_on_user_error] has its default, so nobody waits for it. *)

From Stdlib Require Import ZArith Lia.
From stdpp Require Import base tactics list sets gmap.
From S2P Require Import Prelude Rbtree BinderAlloc BinderState BinderRefs BinderFds BinderTxn BinderWrite BinderRead.

Definition POLLIN : Z := 1.
Definition BINDER_CURRENT_PROTOCOL_VERSION : Z := 7.

(** [_IOC_SIZE(cmd)]. *)
Definition IOC_SIZE (cmd : Z) : Z := Z.land (Z.shiftr cmd 16) 16383.

(** [struct binder_write_read]. *)
Record write_read := WriteRead {
  write_size : Z;
  write_consumed : Z;
  write_buffer : Z;
  read_size : Z;
  read_consumed : Z;
  read_buffer : Z
}.
Definition write_read_of_words (l : list Z) : option write_read :=
  match l with
  | [ws; wc; wb; rs; rc; rb] => Some (WriteRead (s32 ws) (s32 wc) wb (s32 rs) (s32 rc) rb)
  | _ => None
  end.
Definition write_read_words (b : write_read) : list Z :=
  [u32 (write_size b); u32 (write_consumed b); write_buffer b; u32 (read_size b); u32 (read_consumed b); read_buffer b].
Definition WR_SIZE : Z := 24.

(** What [copy_from_user] leaves in the kernel's copy: zeros from a fault on. *)
Fixpoint padded_bytes (mem : gmap Z Z) (addr : Z) (n : nat) : list Z :=
  match n with
  | O => []
  | S n =>
      match mem !! u32 addr with
      | Some b => b :: padded_bytes mem (addr + 1) n
      | None => replicate (S n) 0
      end
  end.

Section lifecycle.
Context `{KernelEnv}.

(** ** Threads *)

Fixpoint release_work (fuel : nat) (l : lid) : K unit :=
  match fuel with
  | O => crash_with CrashFuel
  | S fuel =>
      ws <- read_list l ;;
      match ws with
      | [] => ret tt
      | w :: _ =>
          list_del w ;;;
          (match w with
           | WTransaction t =>
               tx <- get_txn t ;;
               b <- deref (t_buffer tx) ;;
               h <- get_buffer b ;;
               when bool_decide (is_Some (b_target_node h)) && negb (has_flag (t_flags tx) TF_ONE_WAY) do
                 binder_send_failed_reply t BR_DEAD_REPLY
           | WComplete c => free_complete c
           | _ => ret tt
           end) ;;;
          release_work fuel l
      end
  end.
Definition binder_release_work (l : lid) : K unit :=
  ws <- read_list l ;; release_work (S (length ws)) l.

Definition binder_get_thread (proc : Z) : K (option Z) :=
  p <- get_proc proc ;;
  k <- getst ;;
  let pid := c_pid (k_cur k) in
  found <- rb_search (λ th, x <- get_thr th ;; ret (cmp3 pid (th_pid x))) (p_threads p) ;;
  match found with
  | Some th => ret (Some th)
  | None =>
      a <- kzalloc ;;
      match a with
      | None => ret None
      | Some th =>
          modify (λ k, set_k_threads (<[th := Thread proc pid 0 None 0 0]> (k_threads k)) k) ;;;
          init_list_head (LThreadTodo th) ;;;
          t <- rb_link (λ y, x <- get_thr y ;; ret (bool_decide (pid < th_pid x))) th (p_threads p) ;;
          upd_proc proc (set_p_threads (rb_insert_color t)) ;;;
          x <- get_thr th ;;
          upd_thr th (set_th_looper (Z.lor (th_looper x) LOOPER_NEED_RETURN)) ;;;
          upd_thr th (set_th_return_error BR_OK) ;;;
          upd_thr th (set_th_return_error2 BR_OK) ;;;
          ret (Some th)
      end
  end.

(** The walk down the stack of a thread that goes away; the number of transactions. *)
Fixpoint leave_transactions (fuel : nat) (thread : Z) (t : option Z) (active : Z) : K Z :=
  match t with
  | None => ret active
  | Some t =>
      match fuel with
      | O => crash_with CrashFuel
      | S fuel =>
          tx <- get_txn t ;;
          if decide (t_to_thread tx = Some thread) then
            upd_txn t (set_t_to_proc None) ;;;
            upd_txn t (set_t_to_thread None) ;;;
            (match t_buffer tx with
             | Some b => upd_buffer b (set_b_transaction None) ;;; upd_txn t (set_t_buffer None)
             | None => ret tt
             end) ;;;
            leave_transactions fuel thread (t_to_parent tx) (active + 1)
          else if decide (t_from tx = Some thread) then
            upd_txn t (set_t_from None) ;;;
            leave_transactions fuel thread (t_from_parent tx) (active + 1)
          else crash_with CrashBug
      end
  end.

Definition binder_free_thread (proc thread : Z) : K Z :=
  p <- get_proc proc ;;
  upd_proc proc (set_p_threads (rb_erase thread (p_threads p))) ;;;
  x <- get_thr thread ;;
  send_reply <- match th_transaction_stack x with
                | None => ret None
                | Some t => tx <- get_txn t ;; ret (if decide (t_to_thread tx = Some thread) then Some t else None)
                end ;;
  k <- getst ;;
  active_transactions <- leave_transactions (size (k_txns k)) thread (th_transaction_stack x) 0 ;;
  (match send_reply with
   | Some t => binder_send_failed_reply t BR_DEAD_REPLY
   | None => ret tt
   end) ;;;
  binder_release_work (LThreadTodo thread) ;;;
  free_thr thread ;;;
  modify (λ k, set_k_lists (delete (LThreadTodo thread) (k_lists k)) k) ;;;
  ret active_transactions.

(** ** Work that is put off *)

Definition binder_defer_work (proc defer : Z) : K unit :=
  p <- get_proc proc ;;
  upd_proc proc (set_p_deferred_work (Z.lor (p_deferred_work p) defer)) ;;;
  k <- getst ;;
  if decide (proc ∈ k_deferred_list k) then ret tt
  else modify (λ k, set_k_deferred_list (proc :: k_deferred_list k) k).

Definition binder_vma_close (proc : Z) : K unit :=
  in_alloc proc (modify (set_a_vma false)) ;;; binder_defer_work proc DEFERRED_PUT_FILES.
Definition binder_flush (proc : Z) : K Z := binder_defer_work proc DEFERRED_FLUSH ;;; ret 0.
Definition binder_release (proc : Z) : K Z := binder_defer_work proc DEFERRED_RELEASE ;;; ret 0.

Fixpoint flush_threads (ths : list Z) : K unit :=
  match ths with
  | [] => ret tt
  | th :: ths =>
      x <- get_thr th ;;
      upd_thr th (set_th_looper (Z.lor (th_looper x) LOOPER_NEED_RETURN)) ;;;
      (when has_flag (th_looper x) LOOPER_WAITING do wake_up_interruptible (WqThread th)) ;;;
      flush_threads ths
  end.
Definition binder_deferred_flush (proc : Z) : K unit :=
  p <- get_proc proc ;;
  flush_threads (rb_walk (p_threads p)) ;;;
  wake_up_interruptible (WqProc proc).

(** [while ((n = rb_first(root))) ...], with the turns left. *)
Fixpoint drain (fuel : nat) (root : K rbtree) (turn : Z → K unit) : K unit :=
  t <- root ;;
  match rb_first t with
  | None => ret tt
  | Some x => match fuel with O => crash_with CrashFuel | S fuel => turn x ;;; drain fuel root turn end
  end.
Definition drain_all (root : K rbtree) (turn : Z → K unit) : K unit :=
  t <- root ;; drain (length (rb_walk t)) root turn.

(** The holders of references to a node that died are told. *)
Fixpoint notify_refs (refs : list Z) : K unit :=
  match refs with
  | [] => ret tt
  | r :: refs =>
      rf <- get_rf r ;;
      (match r_death rf with
       | None => ret tt
       | Some d =>
           unlinked <- entry_unlinked (WDeath d) ;;
           bug_on (negb unlinked) ;;;
           upd_dth d (set_d_type DtDeadBinder) ;;;
           list_add_tail (WDeath d) (LProcTodo (r_proc rf)) ;;;
           wake_up_interruptible (WqProc (r_proc rf))
       end) ;;;
      notify_refs refs
  end.
Definition release_node (proc node : Z) : K unit :=
  p <- get_proc proc ;;
  upd_proc proc (set_p_nodes (rb_erase node (p_nodes p))) ;;;
  list_del (WNode node) ;;;
  nd <- get_nd node ;;
  if decide (n_refs nd = []) then free_node node
  else
    upd_nd node (set_n_proc None) ;;;
    upd_nd node (set_n_local_strong_refs 0) ;;;
    upd_nd node (set_n_local_weak_refs 0) ;;;
    modify (λ k, set_k_dead_nodes (node :: k_dead_nodes k) k) ;;;
    notify_refs (n_refs nd).

Definition release_buffer (proc b : Z) : K unit :=
  h <- get_buffer (proc, b) ;;
  (match b_transaction h with
   | Some t => upd_txn t (set_t_buffer None) ;;; upd_buffer (proc, b) (set_b_transaction None)
   | None => ret tt
   end) ;;;
  k <- getst ;;
  in_alloc proc (binder_free_buf (k_mm k) b).

Definition binder_deferred_release (proc : Z) : K unit :=
  p <- get_proc proc ;;
  bug_on (a_vma (p_alloc p)) ;;;
  bug_on (bool_decide (p_files p ≠ None)) ;;;
  modify (λ k, set_k_binder_procs (filter (λ x, x ≠ proc) (k_binder_procs k)) k) ;;;
  k <- getst ;;
  (match k_context_mgr_node k with
   | Some n =>
       nd <- get_nd n ;;
       when bool_decide (n_proc nd = Some proc) do modify (set_k_context_mgr_node None)
   | None => ret tt
   end) ;;;
  drain_all (p <- get_proc proc ;; ret (p_threads p)) (λ th, binder_free_thread proc th ;;; ret tt) ;;;
  drain_all (p <- get_proc proc ;; ret (p_nodes p)) (release_node proc) ;;;
  drain_all (p <- get_proc proc ;; ret (p_refs_by_desc p)) binder_delete_ref ;;;
  binder_release_work (LProcTodo proc) ;;;
  drain_all (p <- get_proc proc ;; ret (a_allocated_buffers (p_alloc p))) (release_buffer proc) ;;;
  get_proc proc ;;;
  modify (λ k, set_k_procs (delete proc (k_procs k)) k) ;;;
  modify (λ k, set_k_lists (delete (LProcTodo proc) (delete (LDelivered proc) (k_lists k))) k).

(** One turn of [binder_deferred_func] on a process taken from the list. *)
Definition deferred_turn (proc : Z) : K unit :=
  modify (λ k, set_k_deferred_list (filter (λ x, x ≠ proc) (k_deferred_list k)) k) ;;;
  p <- get_proc proc ;;
  let defer := p_deferred_work p in
  upd_proc proc (set_p_deferred_work 0) ;;;
  (when has_flag defer DEFERRED_PUT_FILES do upd_proc proc (set_p_files None)) ;;;
  (when has_flag defer DEFERRED_FLUSH do binder_deferred_flush proc) ;;;
  (when has_flag defer DEFERRED_RELEASE do binder_deferred_release proc).
Fixpoint binder_deferred_func (fuel : nat) : K unit :=
  match fuel with
  | O => crash_with CrashFuel
  | S fuel =>
      k <- getst ;;
      match k_deferred_list k with
      | [] => ret tt
      | proc :: _ => deferred_turn proc ;;; binder_deferred_func fuel
      end
  end.

(** ** Calls on the file of a process *)

(** [filp->private_data], or [-ENOMEM]. *)
Definition binder_open : K (option Z) :=
  a <- kzalloc ;;
  match a with
  | None => ret None
  | Some p =>
      k <- getst ;;
      let cur := k_cur k in
      modify (λ k, set_k_procs (<[p := Proc (c_tgid cur) (c_euid cur) RbLeaf RbLeaf RbLeaf RbLeaf None 0
                                         balloc_init 0 0 0 0 (k_nice k)]> (k_procs k)) k) ;;;
      init_list_head (LProcTodo p) ;;;
      modify (λ k, set_k_binder_procs (p :: k_binder_procs k) k) ;;;
      init_list_head (LDelivered p) ;;;
      ret (Some p)
  end.

Definition binder_mmap (proc vm_start vm_end : Z) (forbidden : bool) (vm_area : option Z) (pages_ok : bool) : K Z :=
  k <- getst ;;
  r <- in_alloc proc (binder_mmap_area (k_mm k) vm_start vm_end forbidden vm_area pages_ok) ;;
  (when bool_decide (r = 0) do upd_proc proc (set_p_files (Some (c_files (k_cur k))))) ;;;
  ret r.

(** [poll_wait] lets others run between the two looks at the lists. *)
Definition binder_poll (proc : Z) (others : K unit) : K Z :=
  o <- binder_get_thread proc ;;
  thread <- deref o ;;
  x <- get_thr thread ;;
  e <- list_empty (LThreadTodo thread) ;;
  let wait_for_proc_work :=
    bool_decide (th_transaction_stack x = None) && e && bool_decide (th_return_error x = BR_OK) in
  let has_work := if wait_for_proc_work then binder_has_proc_work proc thread else binder_has_thread_work thread in
  b <- has_work ;;
  if b : bool then ret POLLIN else
  others ;;;
  b <- has_work ;;
  ret (if b : bool then POLLIN else 0).

(** [BINDER_WRITE_READ]. *)
Definition ioctl_write_read (rounds fuel : nat) (proc thread ubuf : Z) (non_block : bool) (others : K Z) : K Z :=
  let copy_back bwr r :=
    fault <- copy_to_user ubuf (concat (word_bytes <$> write_read_words bwr)) ;;
    ret (if fault : bool then - EFAULT else r) in
  l <- copy_from_user ubuf WR_SIZE ;;
  match l with
  | None => ret (- EFAULT)
  | Some l =>
      b <- deref (write_read_of_words (words_of l)) ;;
      w <- (if decide (write_size b > 0)
            then binder_thread_write proc thread (write_buffer b) (write_size b) (write_consumed b)
            else ret (0, write_consumed b)) ;;
      let '(r, wc) := w in
      if decide (r < 0) then
        copy_back (WriteRead (write_size b) wc (write_buffer b) (read_size b) 0 (read_buffer b)) r
      else
      w <- (if decide (read_size b > 0) then
              (w <- binder_thread_read rounds fuel proc thread (read_buffer b) (read_size b) (read_consumed b)
                      non_block others ;;
               e <- list_empty (LProcTodo proc) ;;
               (when negb e do wake_up_interruptible (WqProc proc)) ;;;
               ret w)
            else ret (0, read_consumed b)) ;;
      let '(r, rc) := w in
      copy_back (WriteRead (write_size b) wc (write_buffer b) (read_size b) rc (read_buffer b)) (if decide (r < 0) then r else 0)
  end.

(** [BINDER_SET_CONTEXT_MGR]. *)
Definition ioctl_set_context_mgr (proc : Z) : K Z :=
  k <- getst ;;
  if decide (k_context_mgr_node k ≠ None) then ret (- EBUSY) else
  let euid := c_euid (k_cur k) in
  if decide (k_context_mgr_uid k ≠ -1 ∧ k_context_mgr_uid k ≠ euid) then ret (- EPERM) else
  (when bool_decide (k_context_mgr_uid k = -1) do modify (set_k_context_mgr_uid euid)) ;;;
  o <- binder_new_node proc 0 0 ;;
  modify (set_k_context_mgr_node o) ;;;
  match o with
  | None => ret (- ENOMEM)
  | Some n =>
      upd_nd n (λ nd, set_n_local_weak_refs (s32 (n_local_weak_refs nd + 1)) nd) ;;;
      upd_nd n (λ nd, set_n_local_strong_refs (s32 (n_local_strong_refs nd + 1)) nd) ;;;
      upd_nd n (set_n_has_strong_ref true) ;;;
      upd_nd n (set_n_has_weak_ref true) ;;;
      ret 0
  end.

(** The switch: the result, and whether the thread is still there. *)
Definition ioctl_command (rounds fuel : nat) (proc thread cmd ubuf : Z) (non_block : bool) (others : K Z) : K (Z * bool) :=
  if decide (cmd = BINDER_WRITE_READ) then
    if decide (IOC_SIZE cmd ≠ WR_SIZE) then ret (- EINVAL, true) else
    r <- ioctl_write_read rounds fuel proc thread ubuf non_block others ;; ret (r, true)
  else if decide (cmd = BINDER_SET_MAX_THREADS) then
    k <- getst ;;
    upd_proc proc (set_p_max_threads (s32 (default 0 (head (words_of (padded_bytes (k_user k) ubuf 4)))))) ;;;
    l <- copy_from_user ubuf 4 ;;
    ret (match l with None => - EINVAL | Some _ => 0 end, true)
  else if decide (cmd = BINDER_SET_CONTEXT_MGR) then r <- ioctl_set_context_mgr proc ;; ret (r, true)
  else if decide (cmd = BINDER_THREAD_EXIT) then binder_free_thread proc thread ;;; ret (0, false)
  else if decide (cmd = BINDER_VERSION) then
    if decide (IOC_SIZE cmd ≠ 4) then ret (- EINVAL, true) else
    fault <- put_user BINDER_CURRENT_PROTOCOL_VERSION ubuf ;;
    ret (if fault : bool then - EINVAL else 0, true)
  else ret (- EINVAL, true).

Definition binder_ioctl (rounds fuel : nat) (proc cmd arg : Z) (non_block : bool) (others : K Z) : K Z :=
  o <- binder_get_thread proc ;;
  match o with
  | None => ret (- ENOMEM)
  | Some thread =>
      w <- ioctl_command rounds fuel proc thread cmd arg non_block others ;;
      let '(r, alive) := w in
      (when alive do (
         x <- get_thr thread ;;
         upd_thr thread (set_th_looper (Z.land (th_looper x) (Z.lnot LOOPER_NEED_RETURN))))) ;;;
      ret r
  end.
End lifecycle.
