(* ===== verification/BinderRules.v ===== *)
(** * Rules for the driver's state

    Postconditions of the accesses to the driver's objects and lists, and the
    tactics that apply them: [proj] reads a field of an updated record, [kstep]
    executes one primitive command of a routine. *)

From Stdlib Require Import ZArith Lia.
From stdpp Require Import base tactics list sets gmap.
From S2P Require Import Prelude Rbtree BinderAlloc BinderState BinderRefs BinderFds.

(** A field of an updated record. *)
Ltac proj_at p s v x :=
  first [ progress change (p (s v x)) with v | progress change (p (s v x)) with (p x) ].
Ltac is_record x :=
  match type of x with
  | kstate => idtac | proc => idtac | thread => idtac | node => idtac | bref => idtac
  | death => idtac | txn => idtac | fdtable => idtac | buffer => idtac
  end.
Ltac proj :=
  repeat match goal with
  | |- context [?p (?s ?v ?x)] => is_record x; proj_at p s v x
  end.
Ltac proj_in H :=
  repeat match type of H with
  | context [?p (?s ?v ?x)] =>
      is_record x; first [ progress change (p (s v x)) with v in H | progress change (p (s v x)) with (p x) in H ]
  end.

Section rules.
Context {A : Type}.
Implicit Types (k : kstate) (Q : unit → kstate → Prop).

Lemma wp_get_proc a x (Q : proc → kstate → Prop) k : k_procs k !! a = Some x → Q x k → wp (get_proc a) Q k.
Proof. unfold wp, get_proc, bind, getst. by intros ->. Qed.
Lemma wp_get_thr a x (Q : thread → kstate → Prop) k : k_threads k !! a = Some x → Q x k → wp (get_thr a) Q k.
Proof. unfold wp, get_thr, bind, getst. by intros ->. Qed.
Lemma wp_get_nd a x (Q : node → kstate → Prop) k : k_nodes k !! a = Some x → Q x k → wp (get_nd a) Q k.
Proof. unfold wp, get_nd, bind, getst. by intros ->. Qed.
Lemma wp_get_rf a x (Q : bref → kstate → Prop) k : k_refs k !! a = Some x → Q x k → wp (get_rf a) Q k.
Proof. unfold wp, get_rf, bind, getst. by intros ->. Qed.
Lemma wp_get_dth a x (Q : death → kstate → Prop) k : k_deaths k !! a = Some x → Q x k → wp (get_dth a) Q k.
Proof. unfold wp, get_dth, bind, getst. by intros ->. Qed.
Lemma wp_get_txn a x (Q : txn → kstate → Prop) k : k_txns k !! a = Some x → Q x k → wp (get_txn a) Q k.
Proof. unfold wp, get_txn, bind, getst. by intros ->. Qed.

Lemma wp_upd_proc a f x Q k :
  k_procs k !! a = Some x → Q tt (set_k_procs (<[a := f x]> (k_procs k)) k) → wp (upd_proc a f) Q k.
Proof. intros E HQ. apply wp_bind. by eapply wp_get_proc. Qed.
Lemma wp_upd_thr a f x Q k :
  k_threads k !! a = Some x → Q tt (set_k_threads (<[a := f x]> (k_threads k)) k) → wp (upd_thr a f) Q k.
Proof. intros E HQ. apply wp_bind. by eapply wp_get_thr. Qed.
Lemma wp_upd_nd a f x Q k :
  k_nodes k !! a = Some x → Q tt (set_k_nodes (<[a := f x]> (k_nodes k)) k) → wp (upd_nd a f) Q k.
Proof. intros E HQ. apply wp_bind. by eapply wp_get_nd. Qed.
Lemma wp_upd_rf a f x Q k :
  k_refs k !! a = Some x → Q tt (set_k_refs (<[a := f x]> (k_refs k)) k) → wp (upd_rf a f) Q k.
Proof. intros E HQ. apply wp_bind. by eapply wp_get_rf. Qed.
Lemma wp_upd_dth a f x Q k :
  k_deaths k !! a = Some x → Q tt (set_k_deaths (<[a := f x]> (k_deaths k)) k) → wp (upd_dth a f) Q k.
Proof. intros E HQ. apply wp_bind. by eapply wp_get_dth. Qed.
Lemma wp_upd_txn a f x Q k :
  k_txns k !! a = Some x → Q tt (set_k_txns (<[a := f x]> (k_txns k)) k) → wp (upd_txn a f) Q k.
Proof. intros E HQ. apply wp_bind. by eapply wp_get_txn. Qed.

Lemma wp_free_nd a Q k :
  is_Some (k_nodes k !! a) → Q tt (set_k_nodes (delete a (k_nodes k)) k) → wp (free_nd a) Q k.
Proof. intros [x E] HQ. apply wp_bind. by eapply wp_get_nd. Qed.
Lemma wp_free_rf a Q k :
  is_Some (k_refs k !! a) → Q tt (set_k_refs (delete a (k_refs k)) k) → wp (free_rf a) Q k.
Proof. intros [x E] HQ. apply wp_bind. by eapply wp_get_rf. Qed.
Lemma wp_free_dth a Q k :
  is_Some (k_deaths k !! a) → Q tt (set_k_deaths (delete a (k_deaths k)) k) → wp (free_dth a) Q k.
Proof. intros [x E] HQ. apply wp_bind. by eapply wp_get_dth. Qed.
Lemma wp_free_txn a Q k :
  is_Some (k_txns k !! a) → Q tt (set_k_txns (delete a (k_txns k)) k) → wp (free_txn a) Q k.
Proof. intros [x E] HQ. apply wp_bind. by eapply wp_get_txn. Qed.

Lemma wp_kzalloc (Q : option Z → kstate → Prop) k :
  Q (default None (head (k_heap k))) (set_k_heap (tail (k_heap k)) k) → wp kzalloc Q k.
Proof.
  unfold wp, kzalloc, bind, getst. destruct (k_heap k) eqn:E; simpl; [|done].
  assert (set_k_heap [] k = k) as ->; [|done]. destruct k. cbn in *. by subst.
Qed.

Lemma wp_read_list l ws (Q : list work → kstate → Prop) k :
  k_lists k !! l = Some ws → Q ws k → wp (read_list l) Q k.
Proof. unfold wp, read_list, bind, getst. by intros ->. Qed.
Lemma wp_list_empty l ws (Q : bool → kstate → Prop) k :
  k_lists k !! l = Some ws → Q (match ws with [] => true | _ => false end) k → wp (list_empty l) Q k.
Proof. intros E HQ. apply wp_bind. by eapply wp_read_list. Qed.
Lemma wp_list_add_tail w l ws Q k :
  ¬ on_list w k → k_lists k !! l = Some ws →
  Q tt (set_k_lists (<[l := ws ++ [w]]> (k_lists k)) k) → wp (list_add_tail w l) Q k.
Proof.
  intros Hw El HQ. apply wp_bind, wp_getst. rewrite decide_False by done.
  apply wp_bind. by eapply wp_read_list.
Qed.
Lemma wp_list_add w l ws Q k :
  ¬ on_list w k → k_lists k !! l = Some ws →
  Q tt (set_k_lists (<[l := w :: ws]> (k_lists k)) k) → wp (list_add w l) Q k.
Proof.
  intros Hw El HQ. apply wp_bind, wp_getst. rewrite decide_False by done.
  apply wp_bind. by eapply wp_read_list.
Qed.
Lemma wp_list_del w Q k :
  Q tt (set_k_lists (filter (λ x, x ≠ w) <$> k_lists k) k) → wp (list_del w) Q k.
Proof. done. Qed.
Lemma wp_entry_unlinked w (Q : bool → kstate → Prop) k :
  Q (negb (bool_decide (on_list w k))) k → wp (entry_unlinked w) Q k.
Proof. done. Qed.
Lemma wp_wake q Q k : Q tt (set_k_wakes (q :: k_wakes k) k) → wp (wake_up_interruptible q) Q k.
Proof. done. Qed.
Lemma wp_init_list_head l Q k :
  Q tt (set_k_lists (<[l := []]> (k_lists k)) k) → wp (init_list_head l) Q k.
Proof. done. Qed.
End rules.

(** An entry that has been taken off its list is on none. *)
Lemma list_del_unlinked w (m : gmap lid (list work)) k : ¬ on_list w (set_k_lists (filter (λ x, x ≠ w) <$> m) k).
Proof.
  unfold on_list. intros H. apply H. intros l ws. proj. rewrite lookup_fmap_Some.
  intros (ws' & <- & _). rewrite list_elem_of_filter. tauto.
Qed.

Lemma on_list_iff w k : on_list w k ↔ ∃ l ws, k_lists k !! l = Some ws ∧ w ∈ ws.
Proof.
  unfold on_list. split.
  - intros H. apply map_not_Forall in H as (l & ws & E & Hw); [|apply _].
    exists l, ws. split; [done|]. by apply dec_stable.
  - intros (l & ws & E & Hw) H. by apply (H l ws E).
Qed.

(** What a command reads is found by the assumptions, after projecting. *)
Ltac klook :=
  proj; first
    [ eassumption
    | rewrite lookup_insert_eq; reflexivity
    | rewrite lookup_insert_ne by congruence; klook
    | rewrite lookup_delete_ne by congruence; klook ].
Ltac kstep :=
  lazymatch goal with
  | |- wp (bind _ _) _ _ => apply wp_bind
  | |- wp (ret _) _ _ => apply wp_ret
  | |- wp getst _ _ => apply wp_getst
  | |- wp (gets _) _ _ => apply wp_gets
  | |- wp (modify _) _ _ => apply wp_modify
  | |- wp (bug_on false) _ _ => apply wp_bug_on; [reflexivity|]
  | |- wp (deref (Some _)) _ _ => eapply wp_deref; [reflexivity|]
  | |- wp (get_proc _) _ _ => eapply wp_get_proc; [klook|]
  | |- wp (get_thr _) _ _ => eapply wp_get_thr; [klook|]
  | |- wp (get_nd _) _ _ => eapply wp_get_nd; [klook|]
  | |- wp (get_rf _) _ _ => eapply wp_get_rf; [klook|]
  | |- wp (get_dth _) _ _ => eapply wp_get_dth; [klook|]
  | |- wp (get_txn _) _ _ => eapply wp_get_txn; [klook|]
  | |- wp (upd_proc _ _) _ _ => eapply wp_upd_proc; [klook|]
  | |- wp (upd_thr _ _) _ _ => eapply wp_upd_thr; [klook|]
  | |- wp (upd_nd _ _) _ _ => eapply wp_upd_nd; [klook|]
  | |- wp (upd_rf _ _) _ _ => eapply wp_upd_rf; [klook|]
  | |- wp (upd_dth _ _) _ _ => eapply wp_upd_dth; [klook|]
  | |- wp (upd_txn _ _) _ _ => eapply wp_upd_txn; [klook|]
  | |- wp (free_nd _) _ _ => apply wp_free_nd; [eexists; klook|]
  | |- wp (free_rf _) _ _ => apply wp_free_rf; [eexists; klook|]
  | |- wp (free_dth _) _ _ => apply wp_free_dth; [eexists; klook|]
  | |- wp (free_txn _) _ _ => apply wp_free_txn; [eexists; klook|]
  | |- wp kzalloc _ _ => apply wp_kzalloc
  | |- wp (read_list _) _ _ => eapply wp_read_list; [klook|]
  | |- wp (list_empty _) _ _ => eapply wp_list_empty; [klook|]
  | |- wp (list_del _) _ _ => apply wp_list_del
  | |- wp (entry_unlinked _) _ _ => apply wp_entry_unlinked
  | |- wp (wake_up_interruptible _) _ _ => apply wp_wake
  | |- wp (init_list_head _) _ _ => apply wp_init_list_head
  end; cbv beta iota.
Ltac ksteps := repeat (kstep; proj).
