(* ===== verification/BinderRefsInv.v ===== *)
(** * The invariant of nodes and references

    [refs_rel T R k]: the trees of every process, the lists of every node and the
    nodes' counts of strong references say the same about the references as the
    table [R].  [refs_ok] is the invariant of the driver, with the references
    there are; [R] differs from them while a reference is being changed.  The
    lemmas give the behaviour of the routines on nodes under the invariant. *)

From Stdlib Require Import ZArith Lia.
From stdpp Require Import base tactics list sets gmap sorting.
From S2P Require Import Prelude Rbtree BinderAlloc BinderState BinderRefs BinderFds BinderRules.

Definition key_of {A} (f : A → Z) (m : gmap Z A) (x : Z) : Z := default 0 (f <$> m !! x).
Definition owned_by (R : gmap Z bref) (p r : Z) : Prop := ∃ rf, R !! r = Some rf ∧ r_proc rf = p.
Definition refers_to (R : gmap Z bref) (n r : Z) : Prop := ∃ rf, R !! r = Some rf ∧ r_node rf = n.
Definition served_by (N : gmap Z node) (p n : Z) : Prop := ∃ nd, N !! n = Some nd ∧ n_proc nd = Some p.
Definition held_strong (R : gmap Z bref) (r : Z) : bool := bool_decide (key_of r_strong R r ≠ 0).
Definition strong_count (R : gmap Z bref) (l : list Z) : Z := Z.of_nat (length (filter (held_strong R) l)).

Record ref_rel (k : kstate) (rf : bref) : Prop := {
  rr_proc_alive : is_Some (k_procs k !! r_proc rf);
  rr_node_alive : is_Some (k_nodes k !! r_node rf);
  rr_desc : 0 ≤ r_desc rf < 2 ^ 32;
  rr_strong : 0 ≤ r_strong rf < 2 ^ 31;
  rr_weak : 0 ≤ r_weak rf < 2 ^ 31
}.
Record proc_rel (R : gmap Z bref) (k : kstate) (p : Z) (x : proc) : Prop := {
  pr_desc : tree_of (p_refs_by_desc x) (owned_by R p) (key_of r_desc R);
  pr_node : tree_of (p_refs_by_node x) (owned_by R p) (key_of r_node R);
  pr_nodes : tree_of (p_nodes x) (served_by (k_nodes k) p) (key_of n_ptr (k_nodes k));
  pr_todo : is_Some (k_lists k !! LProcTodo p)
}.
Record node_rel (R : gmap Z bref) (k : kstate) (n : Z) (nd : node) : Prop := {
  nr_NoDup : NoDup (n_refs nd);
  nr_refs r : r ∈ n_refs nd ↔ refers_to R n r;
  nr_strong : n_internal_strong_refs nd = strong_count R (n_refs nd);
  nr_proc p : n_proc nd = Some p → is_Some (k_procs k !! p)
}.
Record refs_rel (T R : gmap Z bref) (k : kstate) : Prop := {
  rr_ref r rf : R !! r = Some rf → ref_rel k rf;
  rr_proc p x : k_procs k !! p = Some x → proc_rel T k p x;
  rr_node n nd : k_nodes k !! n = Some nd → node_rel R k n nd
}.
Definition refs_ok (k : kstate) : Prop := refs_rel (k_refs k) (k_refs k) k.

Lemma key_of_Some {A} (f : A → Z) m x a : m !! x = Some a → key_of f m x = f a.
Proof. unfold key_of. by intros ->. Qed.

(** The invariant looks at processes, nodes and the presence of lists. *)
Lemma refs_rel_frame T R k k' :
  k_procs k' = k_procs k → k_nodes k' = k_nodes k →
  (∀ p, is_Some (k_lists k !! LProcTodo p) → is_Some (k_lists k' !! LProcTodo p)) →
  refs_rel T R k → refs_rel T R k'.
Proof.
  intros Ep En Hl [H1 H2 H3]. split.
  - intros r rf []%H1. split; by rewrite ?Ep, ?En.
  - intros p x. rewrite Ep. intros [????]%H2. split; rewrite ?En; auto.
  - intros n nd. rewrite En. intros []%H3. split; try done. intros. rewrite Ep. auto.
Qed.

Lemma refs_rel_lists T R k ls :
  (∀ p, is_Some (k_lists k !! LProcTodo p) → is_Some (ls !! LProcTodo p)) →
  refs_rel T R k → refs_rel T R (set_k_lists ls k).
Proof. intros. by apply (refs_rel_frame T R k). Qed.

Lemma tree_of_served_update N n nd nd' p t :
  N !! n = Some nd → n_proc nd' = n_proc nd → n_ptr nd' = n_ptr nd →
  tree_of t (served_by N p) (key_of n_ptr N) →
  tree_of t (served_by (<[n := nd']> N) p) (key_of n_ptr (<[n := nd']> N)).
Proof.
  intros E Ep Eptr Ht. eapply tree_of_ext; [exact Ht| |].
  - intros m. unfold served_by. destruct (decide (m = n)) as [->|].
    + rewrite lookup_insert_eq, E. naive_solver congruence.
    + by rewrite lookup_insert_ne.
  - intros m _. unfold key_of. destruct (decide (m = n)) as [->|].
    + rewrite lookup_insert_eq, E. simpl. congruence.
    + by rewrite lookup_insert_ne.
Qed.

(** A node changes but for what the invariant says of it. *)
Lemma refs_rel_node T R k n nd nd' :
  k_nodes k !! n = Some nd →
  n_proc nd' = n_proc nd → n_ptr nd' = n_ptr nd → node_rel R k n nd' →
  refs_rel T R k → refs_rel T R (set_k_nodes (<[n := nd']> (k_nodes k)) k).
Proof.
  intros En Ep Eptr Hn [H1 H2 H3]. split; proj.
  - intros r rf []%H1. split; proj; try done. destruct (decide (r_node rf = n)) as [->|].
    + rewrite lookup_insert_eq. eauto.
    + by rewrite lookup_insert_ne.
  - intros p x [? ? Ht ?]%H2. split; proj; try done. by eapply tree_of_served_update.
  - intros m nd0. rewrite lookup_insert_Some. intros [[<- <-]|[_ E]].
    + destruct Hn. by split.
    + destruct (H3 m nd0 E). by split.
Qed.

(** A process changes but for its three trees. *)
Lemma refs_rel_proc T R k p x x' :
  k_procs k !! p = Some x → proc_rel T k p x' →
  refs_rel T R k → refs_rel T R (set_k_procs (<[p := x']> (k_procs k)) k).
Proof.
  intros Ep Hp [H1 H2 H3]. split; proj.
  - intros r rf []%H1. split; proj; try done. rewrite lookup_insert_is_Some. destruct (decide (p = r_proc rf)); auto.
  - intros q y. rewrite lookup_insert_Some. intros [[<- <-]|[_ E]].
    + by destruct Hp.
    + by destruct (H2 q y E).
  - intros n nd E. destruct (H3 n nd E). split; try done. proj. intros q Hq.
    rewrite lookup_insert_is_Some. destruct (decide (p = q)); auto.
Qed.

Section inv.
Context `{RbKernel}.

(** ** Searches *)

Lemma binder_get_ref_ok T R k proc x desc :
  refs_rel T R k → k_procs k !! proc = Some x → k_refs k = T →
  wp (binder_get_ref proc desc) (λ o k', k' = k ∧
    match o with
    | Some r => ∃ rf, T !! r = Some rf ∧ r_proc rf = proc ∧ r_desc rf = desc
    | None => ∀ r rf, T !! r = Some rf → r_proc rf = proc → r_desc rf ≠ desc
    end) k.
Proof.
  intros HR Hx Hk. unfold binder_get_ref. ksteps. eapply wp_mono.
  - apply tree_of_search with (k := desc); [apply (rr_proc _ _ _ HR _ _ Hx)|].
    intros r (rf & E & _). rewrite (key_of_Some _ _ _ _ E). unfold get_rf.
    rewrite bind_bind, bind_getst, Hk, E. done.
  - intros o k' [-> Ho]. split; [done|]. destruct o as [r|].
    + destruct Ho as [(rf & E & Hp) Hd]. exists rf. by rewrite <-Hd, (key_of_Some _ _ _ _ E).
    + intros r rf E Hp. rewrite <-(key_of_Some r_desc _ _ _ E). apply Ho. by exists rf.
Qed.

Lemma search_nodes_ok T R k proc x ptr :
  refs_rel T R k → k_procs k !! proc = Some x →
  wp (rb_search (λ n, nd <- get_nd n ;; ret (cmp3 ptr (n_ptr nd))) (p_nodes x)) (λ o k', k' = k ∧
    match o with
    | Some n => ∃ nd, k_nodes k !! n = Some nd ∧ n_proc nd = Some proc ∧ n_ptr nd = ptr
    | None => ∀ n nd, k_nodes k !! n = Some nd → n_proc nd = Some proc → n_ptr nd ≠ ptr
    end) k.
Proof.
  intros HR Hx. eapply wp_mono.
  - apply tree_of_search with (k := ptr); [apply (rr_proc _ _ _ HR _ _ Hx)|].
    intros n (nd & E & _). rewrite (key_of_Some _ _ _ _ E). unfold get_nd.
    rewrite bind_bind, bind_getst, E. done.
  - intros o k' [-> Ho]. split; [done|]. destruct o as [n|].
    + destruct Ho as [(nd & E & Hp) Hd]. exists nd. by rewrite <-Hd, (key_of_Some _ _ _ _ E).
    + intros n nd E Hp. rewrite <-(key_of_Some n_ptr _ _ _ E). apply Ho. by exists nd.
Qed.
Lemma binder_get_node_ok T R k proc x ptr :
  refs_rel T R k → k_procs k !! proc = Some x →
  wp (binder_get_node proc ptr) (λ o k', k' = k ∧
    match o with
    | Some n => ∃ nd, k_nodes k !! n = Some nd ∧ n_proc nd = Some proc ∧ n_ptr nd = ptr
    | None => ∀ n nd, k_nodes k !! n = Some nd → n_proc nd = Some proc → n_ptr nd ≠ ptr
    end) k.
Proof. intros HR Hx. unfold binder_get_node. ksteps. by eapply search_nodes_ok. Qed.

Lemma search_refs_by_node_ok k proc x node :
  refs_ok k → k_procs k !! proc = Some x →
  wp (rb_search (λ r, rf <- get_rf r ;; ret (cmp3 node (r_node rf))) (p_refs_by_node x)) (λ o k', k' = k ∧
    match o with
    | Some r => ∃ rf, k_refs k !! r = Some rf ∧ r_proc rf = proc ∧ r_node rf = node
    | None => ∀ r rf, k_refs k !! r = Some rf → r_proc rf = proc → r_node rf ≠ node
    end) k.
Proof.
  intros HR Hx. eapply wp_mono.
  - apply tree_of_search with (k := node); [apply (rr_proc _ _ _ HR _ _ Hx)|].
    intros r (rf & E & _). rewrite (key_of_Some _ _ _ _ E). unfold get_rf.
    rewrite bind_bind, bind_getst, E. done.
  - intros o k' [-> Ho]. split; [done|]. destruct o as [r|].
    + destruct Ho as [(rf & E & Hp) Hd]. exists rf. by rewrite <-Hd, (key_of_Some _ _ _ _ E).
    + intros r rf E Hp. rewrite <-(key_of_Some r_node _ _ _ E). apply Ho. by exists rf.
Qed.

(** ** The descriptor of a new reference *)

Lemma free_desc_ok k refs desc :
  (∀ r, r ∈ refs → is_Some (k_refs k !! r)) →
  StronglySorted (λ r s, key_of r_desc (k_refs k) r < key_of r_desc (k_refs k) s) refs →
  (∀ r, r ∈ refs → desc - 1 ≤ key_of r_desc (k_refs k) r) → 0 ≤ desc →
  desc + Z.of_nat (length refs) < 2 ^ 32 →
  wp (free_desc refs desc) (λ d k', k' = k ∧ desc ≤ d ≤ desc + Z.of_nat (length refs) ∧
    (∀ r, r ∈ refs → key_of r_desc (k_refs k) r ≠ d) ∧
    (∀ e, desc ≤ e < d → ∃ r, r ∈ refs ∧ key_of r_desc (k_refs k) r = e)) k.
Proof.
  revert desc. induction refs as [|r refs IH]; simpl; intros desc Hin Hs Hlow H0 Hmax.
  { split; [done|]. split; [lia|]. split; [set_solver|]. intros; lia. }
  destruct (Hin r) as [rf E]; [set_solver|]. pose proof (key_of_Some r_desc _ _ _ E) as Er.
  apply StronglySorted_inv in Hs as [Hs Hr]. rewrite Forall_forall in Hr.
  pose proof (Hlow r ltac:(set_solver)). kstep. kstep. case_decide.
  - kstep. split; [done|]. split; [lia|]. split; [|intros; lia].
    intros s [->|Hs']%elem_of_cons; [lia|]. specialize (Hr s Hs'). lia.
  - rewrite u32_small by lia. eapply wp_mono.
    + apply IH; [set_solver|done| |lia|lia]. intros s Hs'. specialize (Hr s Hs'). lia.
    + intros d k' (-> & Hd & Hne & Hall). split; [done|]. split; [lia|]. split.
      * intros s [->|Hs']%elem_of_cons; [lia|auto].
      * intros e He. destruct (decide (e = r_desc rf)) as [->|].
        { exists r. split; [set_solver|done]. }
        destruct (Hall e) as (s & ? & ?); [lia|]. exists s. split; [set_solver|done].
Qed.

(** ** Counting on a node *)

Definition incremented (strong internal : bool) (nd : node) : node :=
  if strong then
    if internal then set_n_internal_strong_refs (s32 (n_internal_strong_refs nd + 1)) nd
    else set_n_local_strong_refs (s32 (n_local_strong_refs nd + 1)) nd
  else if internal then nd else set_n_local_weak_refs (s32 (n_local_weak_refs nd + 1)) nd.
Definition decremented (strong internal : bool) (nd : node) : node :=
  if strong then
    if internal then set_n_internal_strong_refs (s32 (n_internal_strong_refs nd - 1)) nd
    else set_n_local_strong_refs (s32 (n_local_strong_refs nd - 1)) nd
  else if internal then nd else set_n_local_weak_refs (s32 (n_local_weak_refs nd - 1)) nd.

(** Lists may gain and lose entries, none goes away. *)
Definition lists_kept (k : kstate) (ls : gmap lid (list work)) : Prop :=
  ∀ l, is_Some (k_lists k !! l) → is_Some (ls !! l).

Lemma node_unchanged k n nd :
  k_nodes k !! n = Some nd → k = set_k_lists (k_lists k) (set_k_nodes (<[n := nd]> (k_nodes k)) k).
Proof. intros E. destruct k. cbn in *. by rewrite insert_id. Qed.

Lemma lists_unchanged {A} (e : A) (P : Prop) k k' :
  k_lists k' = k_lists k →
  ∃ ls, lists_kept k ls ∧ (P → ls = k_lists k) ∧ e = e ∧ k' = set_k_lists ls k'.
Proof. intros E. exists (k_lists k). split; [by intros ?|]. split; [done|]. split; [done|]. destruct k'. cbn in *. by subst. Qed.

(** When a count on a node cannot be taken: nobody is there to tell its process. *)
Definition inc_refused (k : kstate) (n : Z) (nd : node) (strong internal : bool) (tl : option lid) : bool :=
  if strong then
    internal && bool_decide (tl = None) && bool_decide (n_internal_strong_refs nd = 0) &&
    negb (bool_decide (k_context_mgr_node k = Some n) && n_has_strong_ref nd)
  else negb (n_has_weak_ref nd) && negb (bool_decide (on_list (WNode n) k)) && bool_decide (tl = None).

Lemma binder_inc_node_ok k node nd strong internal tl :
  k_nodes k !! node = Some nd → (∀ l, tl = Some l → is_Some (k_lists k !! l)) →
  wp (binder_inc_node node strong internal tl) (λ e k',
    let refused := inc_refused k node nd strong internal tl in
    ∃ ls, lists_kept k ls ∧ (refused = true → ls = k_lists k) ∧
      e = (if refused then - EINVAL else 0) ∧
      k' = set_k_lists ls (set_k_nodes
             (<[node := if strong && refused then nd else incremented strong internal nd]> (k_nodes k)) k)) k.
Proof.
  intros E Hl. unfold binder_inc_node, inc_refused. ksteps. destruct strong.
  - kstep. kstep. destruct (internal && _ && _ && _) eqn:Href; simpl.
    { kstep. exists (k_lists k). split; [by intros ?|]. split; [done|]. split; [done|]. by apply node_unchanged. }
    apply wp_bind, wp_mono with (P := λ _ k', k' = set_k_nodes (<[node := incremented true internal nd]> (k_nodes k)) k).
    { destruct internal; by ksteps. }
    intros _ _ ->. destruct tl as [l|]; ksteps; [|by apply lists_unchanged].
    destruct (Hl l) as [ws El]; [done|]. apply wp_when; intros _.
    + unfold requeue_node. ksteps.
      set (ls := filter (λ x, x ≠ WNode node) <$> k_lists k).
      assert (ls !! l = Some (filter (λ x, x ≠ WNode node) ws)) as Els by (unfold ls; by rewrite lookup_fmap, El).
      eapply wp_list_add_tail; [apply list_del_unlinked|exact Els|]. ksteps.
      eexists. split; [|split; [intros [=]|split; [done|reflexivity]]].
      intros m Hm. proj. rewrite lookup_insert_is_Some. destruct (decide (l = m)); [by left|right].
      split; [done|]. unfold ls. by rewrite lookup_fmap, fmap_is_Some.
    + kstep. by apply lists_unchanged.
  - apply wp_bind, wp_mono with (P := λ _ k', k' = set_k_nodes (<[node := incremented false internal nd]> (k_nodes k)) k).
    { destruct internal; simpl; ksteps; [|done]. by apply node_unchanged. }
    intros _ _ ->. ksteps.
    change (on_list (WNode node) (set_k_nodes _ k)) with (on_list (WNode node) k).
    destruct (n_has_weak_ref nd); simpl; [ksteps; by apply lists_unchanged|].
    destruct (bool_decide (on_list (WNode node) k)) eqn:Hw; simpl; [ksteps; by apply lists_unchanged|].
    destruct tl as [l|]; simpl; [|ksteps; by apply lists_unchanged].
    destruct (Hl l) as [ws El]; [done|]. kstep. apply bool_decide_eq_false in Hw.
    eapply wp_list_add_tail; [exact Hw|exact El|]. ksteps.
    eexists. split; [|split; [intros [=]|split; [done|reflexivity]]].
    intros m Hm. proj. rewrite lookup_insert_is_Some. destruct (decide (l = m)); [by left|by right].
Qed.

(** ** Counting down *)

(** What a routine on a node leaves alone. *)
Record quiet (k k' : kstate) : Prop := {
  q_refs : k_refs k' = k_refs k;
  q_deaths : k_deaths k' = k_deaths k;
  q_threads : k_threads k' = k_threads k;
  q_txns : k_txns k' = k_txns k;
  q_heap : k_heap k' = k_heap k;
  q_procs p x : k_procs k !! p = Some x → ∃ t, k_procs k' !! p = Some (set_p_nodes t x)
}.
Lemma same_proc k p x : k_procs k !! p = Some x → ∃ t, k_procs k !! p = Some (set_p_nodes t x).
Proof. intros E. exists (p_nodes x). rewrite E. by destruct x. Qed.

(** The node is as it was, or gone because nothing refers to it. *)
Definition kept_or_freed (k k' : kstate) (n : Z) (nd : node) : Prop :=
  k_nodes k' = k_nodes k ∨
  (n_refs nd = [] ∧ n_local_strong_refs nd = 0 ∧ n_local_weak_refs nd = 0 ∧ k_nodes k' = delete n (k_nodes k)).

(** A node to which nothing refers goes away. *)
Lemma refs_rel_free T R k k' n nd :
  k_nodes k !! n = Some nd → n_refs nd = [] → k_nodes k' = delete n (k_nodes k) →
  (∀ p, is_Some (k_procs k !! p) → is_Some (k_procs k' !! p)) →
  (∀ p x, k_procs k' !! p = Some x → proc_rel T k' p x) →
  refs_rel T R k → refs_rel T R k'.
Proof.
  intros E Erefs En Hp Hproc HR. split; [|exact Hproc|].
  - intros r rf Er. destruct (rr_ref _ _ _ HR r rf Er) as [? [nd' Hn] ???]. split; auto. rewrite En.
    rewrite lookup_delete_ne; [by eauto|]. intros En'.
    assert (r ∈ n_refs nd) as Hin by (apply (nr_refs _ _ _ _ (rr_node _ _ _ HR _ _ E)); by exists rf).
    rewrite Erefs in Hin. set_solver.
  - intros m nd'. rewrite En. intros [Hne Em]%lookup_delete_Some.
    destruct (rr_node _ _ _ HR m nd' Em). split; auto.
Qed.

Lemma served_by_delete N p n m : served_by (delete n N) p m ↔ served_by N p m ∧ m ≠ n.
Proof.
  unfold served_by. setoid_rewrite lookup_delete_Some. naive_solver.
Qed.
Lemma key_of_delete {A} (f : A → Z) (N : gmap Z A) n m : m ≠ n → key_of f (delete n N) m = key_of f N m.
Proof. intros. unfold key_of. by rewrite lookup_delete_ne. Qed.

(** The tree of a process after node [n] is freed: erased there, or never in it. *)
Lemma tree_of_served_erase N p n t :
  tree_of t (served_by N p) (key_of n_ptr N) → served_by N p n →
  tree_of (rb_erase n t) (served_by (delete n N) p) (key_of n_ptr (delete n N)).
Proof.
  intros Ht Hn. eapply tree_of_ext; [by apply tree_of_erase|..].
  - intros m. by rewrite served_by_delete.
  - intros m [_ Hm]. by rewrite key_of_delete.
Qed.
Lemma tree_of_served_other N p n t :
  tree_of t (served_by N p) (key_of n_ptr N) → ¬ served_by N p n →
  tree_of t (served_by (delete n N) p) (key_of n_ptr (delete n N)).
Proof.
  intros Ht Hn. eapply tree_of_ext; [exact Ht|..].
  - intros m. rewrite served_by_delete. split; [|tauto]. intros Hm. split; [done|]. by intros ->.
  - intros m Hm. rewrite key_of_delete; [done|]. by intros ->.
Qed.

Lemma quiet_refl k : quiet k k.
Proof. split; try done. apply same_proc. Qed.
Lemma quiet_frame k k' :
  k_refs k' = k_refs k → k_deaths k' = k_deaths k → k_threads k' = k_threads k → k_txns k' = k_txns k →
  k_heap k' = k_heap k → k_procs k' = k_procs k → quiet k k'.
Proof. intros ????? E. split; try done. rewrite E. apply same_proc. Qed.
Lemma quiet_trans k1 k2 k3 : quiet k1 k2 → quiet k2 k3 → quiet k1 k3.
Proof.
  intros [????? H1] [????? H2]. split; try congruence. intros p x Ex.
  destruct (H1 p x Ex) as (t & E). destruct (H2 p _ E) as (t' & E'). by exists t'.
Qed.

Lemma released_served_ok T R k n nd p x :
  refs_rel T R k → k_nodes k !! n = Some nd → n_proc nd = Some p → k_procs k !! p = Some x → n_refs nd = [] →
  wp (upd_proc p (set_p_nodes (rb_erase n (p_nodes x))) ;;; free_node n)
     (λ _ k', refs_rel T R k' ∧ quiet k k' ∧ k_nodes k' = delete n (k_nodes k)) k.
Proof.
  intros HR E Ep Ex Erefs. unfold free_node. ksteps. split; [|split; [|done]].
  - eapply (refs_rel_free T R k); try done.
    + intros q Hq. proj. rewrite lookup_insert_is_Some. destruct (decide (p = q)); auto.
    + assert (∀ q, is_Some (k_lists k !! LProcTodo q) → is_Some (delete (LAsyncTodo n) (k_lists k) !! LProcTodo q)) as Hl.
      { intros q. by rewrite lookup_delete_ne. }
      intros q y. proj. rewrite lookup_insert_Some. intros [[<- <-]|[Hne Ey]].
      * destruct (rr_proc _ _ _ HR p x Ex). split; proj; auto. apply tree_of_served_erase; [done|]. by exists nd.
      * destruct (rr_proc _ _ _ HR q y Ey). split; proj; auto. apply tree_of_served_other; [done|].
        intros (nd' & E' & ?). congruence.
  - split; try done. intros q y Ey. proj. destruct (decide (q = p)) as [->|].
    + rewrite lookup_insert_eq. exists (rb_erase n (p_nodes x)). congruence.
    + rewrite lookup_insert_ne by done. by apply same_proc.
Qed.

Lemma released_dead_ok T R k n nd :
  refs_rel T R k → k_nodes k !! n = Some nd → n_proc nd = None → n_refs nd = [] →
  wp (modify (λ k, set_k_dead_nodes (filter (λ x, x ≠ n) (k_dead_nodes k)) k) ;;; free_node n)
     (λ _ k', refs_rel T R k' ∧ quiet k k' ∧ k_nodes k' = delete n (k_nodes k)) k.
Proof.
  intros HR E Ep Erefs. unfold free_node. ksteps. split; [|split; [|done]].
  - eapply (refs_rel_free T R k); try done. proj. intros q y Ey. destruct (rr_proc _ _ _ HR q y Ey).
    split; proj; auto.
    + apply tree_of_served_other; [done|]. intros (nd' & E' & ?). congruence.
    + by rewrite lookup_delete_ne.
  - by apply quiet_frame.
Qed.

Lemma node_released_ok T R k n nd :
  refs_rel T R k → k_nodes k !! n = Some nd →
  wp (node_released n) (λ e k', e = 0 ∧ refs_rel T R k' ∧ quiet k k' ∧ kept_or_freed k k' n nd) k.
Proof.
  intros HR E. unfold node_released. ksteps.
  assert (∀ w k1, k_lists (set_k_lists w k1) = w) as Hls by done.
  destruct (n_proc nd) as [p|] eqn:Ep.
  - destruct (nr_proc _ _ _ _ (rr_node _ _ _ HR _ _ E) p Ep) as [x Ex].
    destruct (pr_todo _ _ _ _ (rr_proc _ _ _ HR p x Ex)) as [ws Ews].
    destruct (n_has_strong_ref nd || n_has_weak_ref nd).
    + ksteps. apply wp_when; intros Hw.
      * apply negb_true_iff, bool_decide_eq_false in Hw. kstep.
        eapply wp_list_add_tail; [exact Hw|exact Ews|]. ksteps. split; [done|]. split_and!.
        -- eapply (refs_rel_frame T R k); try done. intros q Hq. proj. rewrite lookup_insert_is_Some.
           destruct (decide (LProcTodo p = LProcTodo q)); auto.
        -- by apply quiet_frame.
        -- by left.
      * kstep. split_and!; [done..|by apply quiet_refl|by left].
    + kstep. apply wp_when; [|intros _; kstep; split_and!; [done..|by apply quiet_refl|by left]].
      intros [[Hr%bool_decide_eq_true Hs%bool_decide_eq_true]%andb_true_iff Hw%bool_decide_eq_true]%andb_true_iff.
      kstep. kstep. kstep. kstep.
      eapply wp_mono; [eapply (released_served_ok T R _ n nd p x)|]; proj; try done.
      { apply refs_rel_lists; [|done]. intros q. by rewrite lookup_fmap, fmap_is_Some. }
      intros [] k' (HR' & Hq & Hn). kstep. split_and!; [done..| |by right].
      eapply quiet_trans; [|exact Hq]. by apply quiet_frame.
  - kstep. apply wp_when; [|intros _; kstep; split_and!; [done..|by apply quiet_refl|by left]].
    intros [[Hr%bool_decide_eq_true Hs%bool_decide_eq_true]%andb_true_iff Hw%bool_decide_eq_true]%andb_true_iff.
    kstep. kstep. eapply wp_mono; [eapply (released_dead_ok T R _ n nd)|]; proj; try done.
    { apply refs_rel_lists; [|done]. intros q. by rewrite lookup_fmap, fmap_is_Some. }
    intros [] k' (HR' & Hq & Hn). kstep. split_and!; [done..| |by right].
    eapply quiet_trans; [|exact Hq]. by apply quiet_frame.
Qed.

(** [R]: what is true of the references once the count is down. *)
Lemma binder_dec_node_ok T R k n nd strong internal :
  k_nodes k !! n = Some nd →
  refs_rel T R (set_k_nodes (<[n := decremented strong internal nd]> (k_nodes k)) k) →
  wp (binder_dec_node n strong internal) (λ e k', e = 0 ∧ refs_rel T R k' ∧ quiet k k' ∧
    kept_or_freed (set_k_nodes (<[n := decremented strong internal nd]> (k_nodes k)) k) k' n (decremented strong internal nd)) k.
Proof.
  intros E HR. set (k1 := set_k_nodes _ k) in *. unfold binder_dec_node. ksteps.
  assert (k_nodes k1 !! n = Some (decremented strong internal nd)) as E1 by (unfold k1; proj; by rewrite lookup_insert_eq).
  assert (wp (node_released n) (λ e k', e = 0 ∧ refs_rel T R k' ∧ quiet k k' ∧ kept_or_freed k1 k' n (decremented strong internal nd)) k1) as Hrel.
  { eapply wp_mono; [by eapply node_released_ok|]. intros e k' (-> & HR' & Hq & Hk).
    split_and!; [done..| |done]. eapply quiet_trans; [|exact Hq]. by apply quiet_frame. }
  assert (refs_rel T R k1 ∧ quiet k k1 ∧ kept_or_freed k1 k1 n (decremented strong internal nd)) as (?&?&?).
  { split_and!; [done|by apply quiet_frame|by left]. }
  destruct strong.
  - apply wp_bind, wp_mono with (P := λ _ k', k' = k1); [destruct internal; by ksteps|].
    intros _ _ ->. kstep. kstep. destruct (_ || _); [by kstep|done].
  - apply wp_bind, wp_mono with (P := λ _ k', k' = k1).
    { destruct internal; simpl; ksteps; [|done]. unfold k1. simpl. rewrite insert_id by done. by destruct k. }
    intros _ _ ->. kstep. kstep. destruct (_ || _); [by kstep|done].
Qed.
End inv.
