(* ===== verification/BinderRefsOps.v ===== *)
(** * Making, counting and dropping references

    The behaviour of [binder_new_node], [binder_get_ref_for_node],
    [binder_inc_ref], [binder_dec_ref] and [binder_delete_ref] under the invariant
    of [BinderRefsInv]. *)

From Stdlib Require Import ZArith Lia.
From stdpp Require Import base tactics list sets gmap sorting fin_map_dom.
From S2P Require Import Prelude Rbtree BinderAlloc BinderState BinderRefs BinderFds BinderRules BinderRefsInv.

(** The addresses [kzalloc] will give are not in use. *)
Definition fresh_addr (k : kstate) (a : Z) : Prop :=
  k_procs k !! a = None ∧ k_nodes k !! a = None ∧ k_refs k !! a = None.
Definition heap_ok (k : kstate) : Prop :=
  NoDup (omap id (k_heap k)) ∧ ∀ a, Some a ∈ k_heap k → fresh_addr k a.
Definition heap_next (k : kstate) : option Z := default None (head (k_heap k)).

Lemma heap_next_fresh k a : heap_ok k → heap_next k = Some a → fresh_addr k a.
Proof.
  unfold heap_next. intros [_ Hf] Ha. apply Hf. destruct (k_heap k) as [|o h]; [done|].
  simpl in *. subst. set_solver.
Qed.
(** Taking the next address, and using it for a new object. *)
Lemma heap_ok_tail k k' :
  heap_ok k → k_heap k' = tail (k_heap k) →
  (∀ a, Some a ∈ tail (k_heap k) → Some a ≠ heap_next k → fresh_addr k a → fresh_addr k' a) →
  heap_ok k'.
Proof.
  unfold heap_next. intros [Hnd Hf] E Hk. split; rewrite E.
  - destruct (k_heap k) as [|[a|] h]; simpl in *; [done| |done]. by apply NoDup_cons in Hnd as [_ ?].
  - intros a Ha. apply Hk; [done| |].
    + destruct (k_heap k) as [|[b|] h]; simpl in *; [done| |done]. intros [= ->].
      apply NoDup_cons in Hnd as [Hnd _]. apply Hnd. apply list_elem_of_omap. by exists (Some b).
    + apply Hf. destruct (k_heap k); [done|]. simpl in Ha. set_solver.
Qed.

Lemma strong_count_cons R r l :
  strong_count R (r :: l) = (if held_strong R r then 1 else 0) + strong_count R l.
Proof.
  unfold strong_count. rewrite filter_cons.
  destruct (held_strong R r); [rewrite decide_True by done|rewrite decide_False by (intros [])]; simpl; lia.
Qed.
Lemma strong_count_ext R R' l :
  (∀ r, r ∈ l → key_of r_strong R r = key_of r_strong R' r) → strong_count R l = strong_count R' l.
Proof.
  induction l as [|r l IH]; intros Hl; [done|]. rewrite !strong_count_cons.
  unfold held_strong. rewrite (Hl r) by set_solver. rewrite IH by (intros; apply Hl; set_solver). done.
Qed.
Lemma strong_count_le R l : 0 ≤ strong_count R l ≤ Z.of_nat (length l).
Proof. unfold strong_count. pose proof (length_filter (held_strong R) l). lia. Qed.

(** The count when what is held of one of the references changes. *)
Lemma strong_count_insert R r rf l :
  NoDup l → r ∈ l →
  strong_count (<[r := rf]> R) l =
    strong_count R l - (if held_strong R r then 1 else 0) + (if decide (r_strong rf ≠ 0) then 1 else 0).
Proof.
  intros Hnd Hr. induction Hnd as [|s l Hs Hnd IH]; [set_solver|]. rewrite !strong_count_cons.
  assert (held_strong (<[r := rf]> R) r = bool_decide (r_strong rf ≠ 0)) as Hh.
  { unfold held_strong, key_of. by rewrite lookup_insert_eq. }
  destruct (decide (s = r)) as [->|Hne].
  - rewrite (strong_count_ext _ R) by (intros t Ht; unfold key_of; rewrite lookup_insert_ne by congruence; done).
    rewrite Hh. destruct (decide (r_strong rf ≠ 0)); [rewrite bool_decide_true by done|rewrite bool_decide_false by done]; lia.
  - rewrite IH by set_solver.
    assert (held_strong (<[r := rf]> R) s = held_strong R s) as ->; [|lia].
    unfold held_strong, key_of. by rewrite lookup_insert_ne.
Qed.
Lemma strong_count_filter R r l :
  held_strong R r = false → strong_count R (filter (λ x, x ≠ r) l) = strong_count R l.
Proof.
  intros Hr. induction l as [|s l IH]; [done|]. rewrite filter_cons, strong_count_cons.
  destruct (decide (s = r)) as [->|Hs].
  - rewrite decide_False by tauto. by rewrite Hr, IH.
  - rewrite decide_True by done. by rewrite strong_count_cons, IH.
Qed.

(** Lists of references are no longer than the table. *)
Lemma refs_length (R : gmap Z bref) l :
  NoDup l → (∀ r, r ∈ l → is_Some (R !! r)) → (length l ≤ size R)%nat.
Proof.
  intros Hnd Hl. rewrite <-size_dom, <-(size_list_to_set (C:=gset Z) l) by done.
  apply subseteq_size. intros r. rewrite elem_of_list_to_set, elem_of_dom. auto.
Qed.

Section ops.
Context `{RbKernel}.

(** What the routines that make objects leave alone. *)
Record grown (k k' : kstate) : Prop := {
  g_lists l : is_Some (k_lists k !! l) → is_Some (k_lists k' !! l);
  g_procs p : is_Some (k_procs k !! p) → is_Some (k_procs k' !! p);
  g_mgr : k_context_mgr_node k' = k_context_mgr_node k;
  g_threads : k_threads k' = k_threads k;
  g_txns : k_txns k' = k_txns k
}.

Lemma refs_ok_heap k h : refs_ok k → refs_ok (set_k_heap h k).
Proof. intros. by apply (refs_rel_frame (k_refs k) (k_refs k) k). Qed.

(** *** A new node *)

Definition blank_node (id proc ptr cookie : Z) : node :=
  Node id (Some proc) [] 0 0 0 ptr cookie false false false false false false 0.

(** The invariant with a node that nothing refers to yet. *)
Lemma refs_ok_new_node k k' proc x t n id ptr cookie :
  refs_ok k → k_procs k !! proc = Some x → fresh_addr k n →
  k_refs k' = k_refs k → k_nodes k' = <[n := blank_node id proc ptr cookie]> (k_nodes k) →
  k_procs k' = <[proc := set_p_nodes t x]> (k_procs k) →
  (∀ l, is_Some (k_lists k !! l) → is_Some (k_lists k' !! l)) →
  tree_of t (served_by (k_nodes k') proc) (key_of n_ptr (k_nodes k')) →
  refs_ok k'.
Proof.
  intros HR Ex (_ & Hfn & _) Er En Ep El Ht. unfold refs_ok. rewrite Er.
  assert (∀ p, is_Some (k_procs k !! p) → is_Some (k_procs k' !! p)) as Hp.
  { intros p Hp. rewrite Ep, lookup_insert_is_Some. destruct (decide (proc = p)); auto. }
  assert (∀ m, m ≠ n → k_nodes k' !! m = k_nodes k !! m) as Hm.
  { intros m Hm. rewrite En. by rewrite lookup_insert_ne. }
  split.
  - intros r rf E. destruct (rr_ref _ _ _ HR r rf E) as [? [nd ?] ???]. split; auto. rewrite Hm; [by eauto|]. congruence.
  - intros p y. rewrite Ep, lookup_insert_Some. intros [[<- <-]|[Hne Ey]].
    + destruct (rr_proc _ _ _ HR proc x Ex). split; proj; auto.
    + destruct (rr_proc _ _ _ HR p y Ey) as [?? Hn ?]. split; auto. eapply tree_of_ext; [exact Hn| |].
      * intros m. unfold served_by. destruct (decide (m = n)) as [->|Hmn]; [|by rewrite Hm].
        rewrite Hfn, En, lookup_insert_eq. unfold blank_node. naive_solver.
      * intros m (nd & Em & _). unfold key_of. rewrite Hm by congruence. done.
  - intros m nd. rewrite En, lookup_insert_Some. intros [[<- <-]|[Hne Em]].
    + split; simpl; [constructor| |done|].
      * intros r. split; [set_solver|]. intros (rf & E & E').
        destruct (rr_node_alive _ _ (rr_ref _ _ _ HR r rf E)) as [nd Hnd]. congruence.
      * intros p [= <-]. apply Hp. eauto.
    + destruct (rr_node _ _ _ HR m nd Em). split; auto.
Qed.

Lemma served_by_insert N n p nd m :
  N !! n = None → n_proc nd = Some p → served_by (<[n := nd]> N) p m ↔ m = n ∨ served_by N p m.
Proof.
  intros Hn Hp. unfold served_by. destruct (decide (m = n)) as [->|].
  - rewrite lookup_insert_eq, Hn. naive_solver.
  - rewrite lookup_insert_ne by done. naive_solver.
Qed.
Lemma key_of_insert_ne {A} (f : A → Z) (m : gmap Z A) i a j : j ≠ i → key_of f (<[i := a]> m) j = key_of f m j.
Proof. intros. unfold key_of. by rewrite lookup_insert_ne. Qed.
Lemma key_of_insert_eq {A} (f : A → Z) (m : gmap Z A) i a : key_of f (<[i := a]> m) i = f a.
Proof. unfold key_of. by rewrite lookup_insert_eq. Qed.

Lemma binder_new_node_ok k proc x ptr cookie :
  refs_ok k → heap_ok k → k_procs k !! proc = Some x →
  wp (binder_new_node proc ptr cookie) (λ o k',
    refs_ok k' ∧ heap_ok k' ∧ grown k k' ∧ k_refs k' = k_refs k ∧
    match o with
    | Some n => heap_next k = Some n ∧ k_nodes k !! n = None ∧ k_heap k' = tail (k_heap k) ∧
        (∀ m nd, k_nodes k !! m = Some nd → n_proc nd = Some proc → n_ptr nd ≠ ptr) ∧
        ∃ id, k_nodes k' = <[n := blank_node id proc ptr cookie]> (k_nodes k)
    | None => k_nodes k' = k_nodes k ∧
        (heap_next k = None ∨ ∃ n nd, k_nodes k !! n = Some nd ∧ n_proc nd = Some proc ∧ n_ptr nd = ptr)
    end) k.
Proof.
  intros HR Hh Ex. unfold binder_new_node. kstep. kstep. kstep.
  eapply wp_mono; [by eapply search_nodes_ok|]. intros o k1 [-> Ho].
  destruct o as [n|]; [kstep; split_and!; try done; destruct Ho as (nd & ? & ? & ?); eauto 10|].
  kstep. kstep. change (default None (head (k_heap k))) with (heap_next k).
  destruct (heap_next k) as [n|] eqn:En.
  2:{ kstep. split_and!; try done; [by apply refs_ok_heap| |by left]. by eapply heap_ok_tail. }
  pose proof (heap_next_fresh _ _ Hh En) as Hfr. destruct (Hfr) as (_ & Hfn & _).
  set (bn id := blank_node id proc ptr cookie). kstep.
  eapply wp_mono.
  { eapply (tree_of_insert _ _ (served_by (k_nodes k) proc) (served_by (<[n := bn 0]> (k_nodes k)) proc)
              (key_of n_ptr (k_nodes k)) (key_of n_ptr (<[n := bn 0]> (k_nodes k)))).
    - apply (rr_proc _ _ _ HR proc x Ex).
    - intros y (nd & E & Hp). rewrite key_of_insert_eq, (key_of_Some _ _ _ _ E).
      unfold get_nd. rewrite bind_bind, bind_getst. proj. by rewrite E.
    - intros y (nd & E & Hp). rewrite key_of_insert_eq, (key_of_Some _ _ _ _ E). by apply (Ho y nd).
    - intros y. by apply served_by_insert.
    - intros y (nd & E & Hp). apply key_of_insert_ne. congruence. }
  intros t k1 [-> Ht]. unfold next_id. ksteps. split_and!; try done; [| | |by eexists].
  - eapply (refs_ok_new_node k _ proc x _ n _ ptr cookie); try done; proj.
    + intros l Hl. rewrite lookup_insert_is_Some. destruct (decide (LAsyncTodo n = l)); auto.
    + eapply tree_of_ext; [exact Ht| |].
      * intros y. rewrite !served_by_insert by done. done.
      * intros y _. destruct (decide (y = n)) as [->|]; [by rewrite !key_of_insert_eq|by rewrite !key_of_insert_ne].
  - eapply heap_ok_tail; [exact Hh|done|]. intros a Ha Hne (?&?&?). repeat split; proj; try done.
    + rewrite lookup_insert_None. split; [done|]. congruence.
    + rewrite lookup_insert_None. split; [done|]. congruence.
  - split; try done; proj.
    + intros l Hl. rewrite lookup_insert_is_Some. destruct (decide (LAsyncTodo n = l)); auto.
    + intros p Hp. rewrite lookup_insert_is_Some. destruct (decide (proc = p)); auto.
Qed.

(** *** A reference to a node *)

Lemma owned_by_insert R r p rf q :
  R !! r = None → owned_by (<[r := rf]> R) p q ↔ (q = r ∧ r_proc rf = p) ∨ owned_by R p q.
Proof.
  intros Hr. unfold owned_by. destruct (decide (q = r)) as [->|].
  - rewrite lookup_insert_eq, Hr. naive_solver.
  - rewrite lookup_insert_ne by done. naive_solver.
Qed.
Lemma refers_to_insert R r n rf q :
  R !! r = None → refers_to (<[r := rf]> R) n q ↔ (q = r ∧ r_node rf = n) ∨ refers_to R n q.
Proof.
  intros Hr. unfold refers_to. destruct (decide (q = r)) as [->|].
  - rewrite lookup_insert_eq, Hr. naive_solver.
  - rewrite lookup_insert_ne by done. naive_solver.
Qed.

Lemma refs_tree_ext R p r rf t (f : bref → Z) :
  R !! r = None → r_proc rf ≠ p → tree_of t (owned_by R p) (key_of f R) →
  tree_of t (owned_by (<[r := rf]> R) p) (key_of f (<[r := rf]> R)).
Proof.
  intros Hr Hp Ht. eapply tree_of_ext; [exact Ht| |].
  - intros q. rewrite owned_by_insert by done. naive_solver.
  - intros q (rf' & E & _). rewrite key_of_insert_ne; congruence.
Qed.

(** The invariant with a reference that has just been made. *)
Lemma refs_ok_new_ref k k' proc x r rf nd t1 t2 :
  refs_ok k → k_procs k !! proc = Some x → fresh_addr k r → k_nodes k !! r_node rf = Some nd →
  r_proc rf = proc → r_strong rf = 0 → r_weak rf = 0 → 0 ≤ r_desc rf < 2 ^ 32 →
  k_refs k' = <[r := rf]> (k_refs k) →
  k_nodes k' = <[r_node rf := set_n_refs (r :: n_refs nd) nd]> (k_nodes k) →
  k_procs k' = <[proc := set_p_refs_by_desc t2 (set_p_refs_by_node t1 x)]> (k_procs k) →
  k_lists k' = k_lists k →
  tree_of t1 (owned_by (k_refs k') proc) (key_of r_node (k_refs k')) →
  tree_of t2 (owned_by (k_refs k') proc) (key_of r_desc (k_refs k')) →
  refs_ok k'.
Proof.
  intros HR Ex (_ & _ & Hfr) End Hp Hs Hw Hd Er En Ep El Ht1 Ht2.
  assert (∀ p, is_Some (k_procs k !! p) → is_Some (k_procs k' !! p)) as Hpk.
  { intros p. rewrite Ep, lookup_insert_is_Some. destruct (decide (proc = p)); auto. }
  assert (∀ n, is_Some (k_nodes k !! n) → is_Some (k_nodes k' !! n)) as Hnk.
  { intros n. rewrite En, lookup_insert_is_Some. destruct (decide (r_node rf = n)); auto. }
  assert (∀ l, NoDup l → r ∉ l → strong_count (<[r := rf]> (k_refs k)) l = strong_count (k_refs k) l) as Hcount.
  { intros l _ Hl. apply strong_count_ext. intros s Hs'. apply key_of_insert_ne. by intros ->. }
  assert (∀ n (l : list Z), (∀ s, s ∈ l ↔ refers_to (k_refs k) n s) → r ∉ l) as Hnot.
  { intros n l Hl (rf' & E & _)%Hl. congruence. }
  split.
  - intros s rf'. rewrite Er, lookup_insert_Some. intros [[<- <-]|[_ E]].
    + rewrite <-Hp in Ex. split; eauto; lia.
    + destruct (rr_ref _ _ _ HR s rf' E). split; auto.
  - intros p y. rewrite Ep, lookup_insert_Some. intros [[<- <-]|[Hne Ey]].
    + destruct (rr_proc _ _ _ HR proc x Ex) as [?? Hn ?]. split; proj; [done..| |by rewrite El].
      rewrite En. by eapply tree_of_served_update.
    + destruct (rr_proc _ _ _ HR p y Ey) as [?? Hn ?].
      split; rewrite ?Er; [apply refs_tree_ext; congruence..| |by rewrite El].
      rewrite En. by eapply tree_of_served_update.
  - intros n nd'. rewrite En, lookup_insert_Some. intros [[<- <-]|[Hne E]].
    + destruct (rr_node _ _ _ HR _ nd End) as [Hnd Hin Hst Hpr]. split; proj; rewrite ?Er.
      * constructor; [by eapply Hnot|done].
      * intros s. rewrite refers_to_insert, elem_of_cons, Hin by done. naive_solver.
      * rewrite strong_count_cons, Hcount by (try done; by eapply Hnot). unfold held_strong.
        rewrite key_of_insert_eq, Hs, bool_decide_false by tauto. lia.
      * intros p Hp'. by apply Hpk, Hpr.
    + destruct (rr_node _ _ _ HR _ nd' E) as [Hnd Hin Hst Hpr]. split; rewrite ?Er; [done| | |auto].
      * intros s. rewrite refers_to_insert, Hin by done. naive_solver.
      * by rewrite Hcount by (try done; by eapply Hnot).
Qed.

(** [desc] is the smallest descriptor from [start] on that [proc] does not use. *)
Definition smallest_desc (R : gmap Z bref) (proc start desc : Z) : Prop :=
  start ≤ desc ∧ (∀ r rf, R !! r = Some rf → r_proc rf = proc → r_desc rf ≠ desc) ∧
  ∀ d, start ≤ d < desc → ∃ r rf, R !! r = Some rf ∧ r_proc rf = proc ∧ r_desc rf = d.
Definition first_desc (k : kstate) (node : Z) : Z := if decide (k_context_mgr_node k = Some node) then 0 else 1.

Lemma free_desc_smallest k k1 proc x start :
  refs_ok k → k_procs k !! proc = Some x → 0 ≤ start ≤ 1 → Z.of_nat (size (k_refs k)) < 2 ^ 31 →
  k_refs k1 = k_refs k →
  wp (free_desc (rb_walk (p_refs_by_desc x)) start)
     (λ d k', k' = k1 ∧ smallest_desc (k_refs k) proc start d ∧ d < 2 ^ 32) k1.
Proof.
  intros HR Ex Hstart Hsize Ek1. destruct (rr_proc _ _ _ HR proc x Ex) as [Ht _ _ _].
  pose proof (tree_of_NoDup _ _ _ Ht) as Hnd. destruct Ht as [Hin Hs]. rewrite rb_walk_inorder.
  assert (∀ r, r ∈ rb_inorder (p_refs_by_desc x) → is_Some (k_refs k !! r)) as Hsome.
  { intros r (rf & E & _)%Hin. eauto. }
  pose proof (refs_length _ _ Hnd Hsome) as Hlen. eapply wp_mono.
  { apply free_desc_ok; rewrite ?Ek1; [done|done| |lia|lia]. intros r (rf & E & _)%Hin. rewrite (key_of_Some _ _ _ _ E).
    destruct (rr_ref _ _ _ HR r rf E). lia. }
  rewrite Ek1. intros d k' (-> & Hd & Hne & Hall). split; [done|]. split; [|lia]. split_and!; [lia| |].
  - intros r rf E Hp. rewrite <-(key_of_Some r_desc _ _ _ E). apply Hne, Hin. by exists rf.
  - intros e He. destruct (Hall e He) as (r & (rf & E & Hp)%Hin & Hk). exists r, rf.
    by rewrite <-(key_of_Some r_desc _ _ _ E).
Qed.

(** What [binder_get_ref_for_node] does: the reference the process has, or a new
    one, or nothing when memory is short. *)
Definition new_ref_made (k k' : kstate) (proc node r : Z) : Prop :=
  (∀ s rf, k_refs k !! s = Some rf → r_proc rf = proc → r_node rf ≠ node) ∧
  heap_next k = Some r ∧ k_refs k !! r = None ∧ k_heap k' = tail (k_heap k) ∧
  ∃ id desc nd, k_nodes k !! node = Some nd ∧ smallest_desc (k_refs k) proc (first_desc k node) desc ∧
    k_refs k' = <[r := Ref id proc node desc 0 0 None]> (k_refs k) ∧
    k_nodes k' = <[node := set_n_refs (r :: n_refs nd) nd]> (k_nodes k).
Definition ref_for_node (k k' : kstate) (proc node : Z) (o : option Z) : Prop :=
  match o with
  | Some r => (k' = k ∧ ∃ rf, k_refs k !! r = Some rf ∧ r_proc rf = proc ∧ r_node rf = node) ∨
              new_ref_made k k' proc node r
  | None => (∀ s rf, k_refs k !! s = Some rf → r_proc rf = proc → r_node rf ≠ node) ∧
            heap_next k = None ∧ k_refs k' = k_refs k ∧ k_nodes k' = k_nodes k
  end.

(** The new reference linked into a tree of its process. *)
Lemma link_ref_ok R k proc r rf t (f : bref → Z) (left : Z → K bool) :
  tree_of t (owned_by R proc) (key_of f R) → R !! r = None → r_proc rf = proc →
  (∀ s sf, R !! s = Some sf → r_proc sf = proc →
     f sf ≠ f rf ∧ left s k = Ret (bool_decide (f rf < f sf)) k) →
  wp (rb_link left r t) (λ t' k', k' = k ∧
    tree_of (rb_insert_color t') (owned_by (<[r := rf]> R) proc) (key_of f (<[r := rf]> R))) k.
Proof.
  intros Ht Hr Hp Hs. eapply tree_of_insert; [exact Ht| | | |].
  - intros y (sf & E & Hsf). rewrite key_of_insert_eq, (key_of_Some _ _ _ _ E). by apply Hs.
  - intros y (sf & E & Hsf). rewrite key_of_insert_eq, (key_of_Some _ _ _ _ E). by apply (Hs y sf).
  - intros y. rewrite owned_by_insert by done. tauto.
  - intros y (sf & E & _). apply key_of_insert_ne. congruence.
Qed.

Lemma binder_get_ref_for_node_ok k proc x node nd :
  refs_ok k → heap_ok k → k_procs k !! proc = Some x → k_nodes k !! node = Some nd →
  Z.of_nat (size (k_refs k)) < 2 ^ 31 →
  wp (binder_get_ref_for_node proc node) (λ o k',
    refs_ok k' ∧ heap_ok k' ∧ grown k k' ∧ ref_for_node k k' proc node o) k.
Proof.
  intros HR Hh Ex End Hsize. unfold binder_get_ref_for_node. kstep. kstep. kstep.
  eapply wp_mono; [by eapply search_refs_by_node_ok|]. intros o k1 [-> Ho].
  destruct o as [r|]; [kstep; split_and!; try done; left; split; [done|]; destruct Ho as (rf & ?); by exists rf|].
  kstep. kstep. change (default None (head (k_heap k))) with (heap_next k).
  destruct (heap_next k) as [r|] eqn:En.
  2:{ kstep. split_and!; try done; [by apply refs_ok_heap|by eapply heap_ok_tail]. }
  pose proof (heap_next_fresh _ _ Hh En) as Hfr. destruct (Hfr) as (_ & _ & Hfn).
  destruct (rr_proc _ _ _ HR proc x Ex) as [Htd Htn _ _].
  unfold next_id. kstep. kstep. kstep. proj. kstep. proj. kstep.
  set (rf d := Ref (s32 (k_last_id k + 1)) proc node d 0 0 None).
  eapply wp_mono.
  { apply (link_ref_ok (k_refs k) _ proc r (rf 0) _ r_node); [done|done|done|]. intros s sf E Hsf.
    split; [by apply (Ho s sf)|]. unfold get_rf. rewrite bind_bind, bind_getst. proj. by rewrite E. }
  intros t1 k2 [-> Ht1]. kstep. kstep. proj. kstep. kstep. proj. kstep.
  eapply wp_mono; [apply (free_desc_smallest k _ proc x); [done|done|case_decide; lia|done|done]|].
  intros d k2 (-> & Hd & Hmax). change (if decide _ then 0 else 1) with (first_desc k node) in Hd.
  assert (0 ≤ d) as Hd0 by (destruct Hd; unfold first_desc in *; case_decide; lia).
  pose proof Hd as (_ & Hdne & _). kstep. eapply wp_mono.
  { apply (link_ref_ok (k_refs k) _ proc r (rf d) _ r_desc); [done|done|done|]. intros s sf E Hsf.
    pose proof (Hdne s sf E Hsf). split; [done|]. unfold get_rf. rewrite bind_bind, bind_getst. proj.
    rewrite E, bind_deref. unfold bool_decide. simpl. repeat case_decide; done || lia. }
  intros t2 k2 [-> Ht2]. ksteps. split_and!.
  - eapply (refs_ok_new_ref k _ proc x r (rf d) nd (rb_insert_color t1) (rb_insert_color t2)); try done; proj.
    + by rewrite insert_insert_eq.
    + eapply tree_of_ext; [exact Ht1| |].
      * intros y. rewrite !owned_by_insert by done. done.
      * intros y _. destruct (decide (y = r)) as [->|]; [by rewrite !key_of_insert_eq|by rewrite !key_of_insert_ne].
  - eapply heap_ok_tail; [exact Hh|done|]. intros a Ha Hne (?&?&?). repeat split; proj.
    + rewrite !lookup_insert_None. split; [split; [done|congruence]|congruence].
    + rewrite !lookup_insert_None. split; [done|congruence].
    + rewrite !lookup_insert_None. split; [done|congruence].
  - split; try done; proj. intros p Hp. rewrite !lookup_insert_is_Some.
    destruct (decide (proc = p)); auto.
  - right. do 4 (split; [done|]). by eexists _, d, nd.
Qed.

(** *** Counting on a reference *)

Definition same_ids (rf rf' : bref) : Prop :=
  r_proc rf' = r_proc rf ∧ r_node rf' = r_node rf ∧ r_desc rf' = r_desc rf.

Lemma owned_by_update R r rf rf' p q :
  R !! r = Some rf → same_ids rf rf' → owned_by (<[r := rf']> R) p q ↔ owned_by R p q.
Proof.
  intros E (Hp & _ & _). unfold owned_by. destruct (decide (q = r)) as [->|].
  - rewrite lookup_insert_eq, E. naive_solver congruence.
  - by rewrite lookup_insert_ne.
Qed.
Lemma key_of_update R r rf rf' (f : bref → Z) q :
  R !! r = Some rf → f rf' = f rf → key_of f (<[r := rf']> R) q = key_of f R q.
Proof.
  intros E Hf. unfold key_of. destruct (decide (q = r)) as [->|].
  - rewrite lookup_insert_eq, E. simpl. congruence.
  - by rewrite lookup_insert_ne.
Qed.

(** The counts of a reference play no part in the trees. *)
Lemma refs_rel_trees T R k r rf rf' :
  refs_rel T R k → T !! r = Some rf → same_ids rf rf' → refs_rel (<[r := rf']> T) R k.
Proof.
  intros [H1 H2 H3] E Hids. pose proof Hids as (Hp & Hn & Hd). split; try done.
  intros p x Ex. destruct (H2 p x Ex). split; try done.
  - eapply tree_of_ext; [done| |].
    + intros q. by rewrite (owned_by_update _ _ _ _ _ _ E Hids).
    + intros q _. by rewrite (key_of_update _ _ _ _ _ _ E).
  - eapply tree_of_ext; [done| |].
    + intros q. by rewrite (owned_by_update _ _ _ _ _ _ E Hids).
    + intros q _. by rewrite (key_of_update _ _ _ _ _ _ E).
Qed.

(** A count of a reference changes, and its node follows. *)
Lemma refs_rel_recount T R k r rf rf' nd nd' :
  refs_rel T R k → R !! r = Some rf → k_nodes k !! r_node rf = Some nd → same_ids rf rf' →
  0 ≤ r_strong rf' < 2 ^ 31 → 0 ≤ r_weak rf' < 2 ^ 31 →
  n_proc nd' = n_proc nd → n_ptr nd' = n_ptr nd → n_refs nd' = n_refs nd →
  n_internal_strong_refs nd' = n_internal_strong_refs nd
    - (if decide (r_strong rf ≠ 0) then 1 else 0) + (if decide (r_strong rf' ≠ 0) then 1 else 0) →
  refs_rel T (<[r := rf']> R) (set_k_nodes (<[r_node rf := nd']> (k_nodes k)) k).
Proof.
  intros HR E End Hids Hs Hw Ep Eptr Erefs Eint. pose proof Hids as (Hp & Hn & Hd).
  assert (∀ n s, refers_to (<[r := rf']> R) n s ↔ refers_to R n s) as Href.
  { intros n s. unfold refers_to. destruct (decide (s = r)) as [->|].
    - rewrite lookup_insert_eq, E. naive_solver congruence.
    - by rewrite lookup_insert_ne. }
  assert (∀ n, is_Some (k_nodes k !! n) → is_Some (<[r_node rf := nd']> (k_nodes k) !! n)) as Hnk.
  { intros n. rewrite lookup_insert_is_Some. destruct (decide (r_node rf = n)); auto. }
  split; proj.
  - intros s sf. rewrite lookup_insert_Some. intros [[<- <-]|[_ Es]].
    + destruct (rr_ref _ _ _ HR r rf E). split; proj; rewrite ?Hp, ?Hn, ?Hd; auto.
    + destruct (rr_ref _ _ _ HR s sf Es). split; proj; auto.
  - intros p x Ex. destruct (rr_proc _ _ _ HR p x Ex). split; proj; try done. by eapply tree_of_served_update.
  - intros n nd0. rewrite lookup_insert_Some. intros [[<- <-]|[Hne En]].
    + destruct (rr_node _ _ _ HR _ nd End) as [Hnd Hin Hst Hpr]. split; proj; rewrite ?Erefs, ?Ep; try done.
      * intros s. by rewrite Href.
      * rewrite strong_count_insert by (try done; apply Hin; by exists rf). rewrite <-Hst, Eint.
        unfold held_strong. rewrite (key_of_Some _ _ _ _ E).
        destruct (decide (r_strong rf ≠ 0)); [rewrite bool_decide_true by done|rewrite bool_decide_false by done]; lia.
    + destruct (rr_node _ _ _ HR n nd0 En) as [Hnd Hin Hst Hpr]. split; try done.
      * intros s. by rewrite Href.
      * rewrite Hst. apply strong_count_ext. intros s (sf & Es & Hsn)%Hin. rewrite key_of_insert_ne; [done|congruence].
Qed.

Definition ref_count (strong : bool) (rf : bref) : Z := if strong then r_strong rf else r_weak rf.
Definition recounted (strong : bool) (d : Z) (rf : bref) : bref :=
  if strong then set_r_strong (s32 (r_strong rf + d)) rf else set_r_weak (s32 (r_weak rf + d)) rf.
(** The nodes after the first, or the last, strong count of a reference. *)
Definition nodes_with (k : kstate) (n : Z) (b : bool) (nd : node) : gmap Z node :=
  if b then <[n := nd]> (k_nodes k) else k_nodes k.

Lemma node_at k r rf : refs_ok k → k_refs k !! r = Some rf → ∃ nd, k_nodes k !! r_node rf = Some nd ∧ r ∈ n_refs nd.
Proof.
  intros HR E. destruct (rr_node_alive _ _ (rr_ref _ _ _ HR r rf E)) as [nd End]. exists nd. split; [done|].
  apply (nr_refs _ _ _ _ (rr_node _ _ _ HR _ _ End)). by exists rf.
Qed.
Lemma node_refs_length k n nd : refs_ok k → k_nodes k !! n = Some nd → (length (n_refs nd) ≤ size (k_refs k))%nat.
Proof.
  intros HR E. destruct (rr_node _ _ _ HR n nd E) as [Hnd Hin _ _]. apply refs_length; [done|].
  intros r (rf & Er & _)%Hin. eauto.
Qed.

(** The invariant after a count has changed by one. *)
Lemma refs_ok_recount k ls r rf nd strong d :
  refs_ok k → k_refs k !! r = Some rf → k_nodes k !! r_node rf = Some nd → lists_kept k ls →
  Z.of_nat (size (k_refs k)) < 2 ^ 31 - 1 → 0 ≤ ref_count strong rf + d < 2 ^ 31 → (d = 1 ∨ d = -1) →
  refs_ok (set_k_refs (<[r := recounted strong d rf]> (k_refs k)) (set_k_lists ls
    (set_k_nodes (nodes_with k (r_node rf)
       (strong && bool_decide ((d = 1 ∧ r_strong rf = 0) ∨ (d = -1 ∧ r_strong rf = 1)))
       (set_n_internal_strong_refs (s32 (n_internal_strong_refs nd + d)) nd)) k))).
Proof.
  intros HR E End Hl Hsize Hc Hd. destruct (rr_ref _ _ _ HR r rf E) as [_ _ _ Hs Hw].
  pose proof (rr_node _ _ _ HR _ nd End) as [Hnd Hin Hst Hpr].
  pose proof (strong_count_le (k_refs k) (n_refs nd)) as Hsc.
  pose proof (node_refs_length k _ nd HR End) as Hlen.
  assert (strong = true → r_strong (recounted strong d rf) = r_strong rf + d ∧ r_weak (recounted strong d rf) = r_weak rf) as Hs1.
  { intros ->. simpl in *. rewrite s32_small by lia. done. }
  assert (strong = false → r_strong (recounted strong d rf) = r_strong rf ∧ r_weak (recounted strong d rf) = r_weak rf + d) as Hs2.
  { intros ->. simpl in *. rewrite s32_small by lia. done. }
  assert (same_ids rf (recounted strong d rf)) as Hids by (by destruct strong).
  assert (r_strong rf ≠ 0 → 1 ≤ n_internal_strong_refs nd) as Hpos.
  { intros Hne. rewrite Hst. assert (r ∈ n_refs nd) as Hr by (apply Hin; by exists rf).
    pose proof (strong_count_insert (k_refs k) r (set_r_strong 0 rf) (n_refs nd) Hnd Hr) as Hi.
    pose proof (strong_count_le (<[r := set_r_strong 0 rf]> (k_refs k)) (n_refs nd)).
    unfold held_strong in Hi. rewrite (key_of_Some _ _ _ _ E), bool_decide_true, decide_False in Hi by (simpl; tauto). lia. }
  eapply (refs_rel_frame _ _ (set_k_nodes (nodes_with k _ _ _) k)); [done|done|exact (λ p, Hl (LProcTodo p))|].
  proj. eapply refs_rel_trees; [|exact E|exact Hids]. unfold nodes_with.
  destruct strong; cbn [andb].
  - destruct Hs1 as [Hs1 Hw1]; [done|]. clear Hs2. cbn [ref_count] in Hc. case_bool_decide as Hb.
    + apply refs_rel_recount with (nd := nd); try done; [lia..|]. proj. rewrite Hs1.
      rewrite s32_small by lia. repeat case_decide; lia.
    + replace (set_k_nodes (k_nodes k) k) with (set_k_nodes (<[r_node rf := nd]> (k_nodes k)) k) by (by rewrite insert_id).
      apply refs_rel_recount with (nd := nd); try done; [lia..|]. rewrite Hs1. repeat case_decide; lia.
  - destruct Hs2 as [Hs2 Hw2]; [done|]. clear Hs1. cbn [ref_count] in Hc.
    replace (set_k_nodes (k_nodes k) k) with (set_k_nodes (<[r_node rf := nd]> (k_nodes k)) k) by (by rewrite insert_id).
    apply refs_rel_recount with (nd := nd); try done; [lia..|]. rewrite Hs2. repeat case_decide; lia.
Qed.

Lemma binder_inc_ref_ok k r rf nd strong tl :
  refs_ok k → k_refs k !! r = Some rf → k_nodes k !! r_node rf = Some nd →
  Z.of_nat (size (k_refs k)) < 2 ^ 31 - 1 → ref_count strong rf < 2 ^ 31 - 1 →
  (∀ l, tl = Some l → is_Some (k_lists k !! l)) →
  wp (binder_inc_ref r strong tl) (λ e k',
    if bool_decide (ref_count strong rf = 0) && inc_refused k (r_node rf) nd strong true tl
    then e = - EINVAL ∧ k' = k
    else e = 0 ∧ refs_ok k' ∧ ∃ ls, lists_kept k ls ∧
      k' = set_k_refs (<[r := recounted strong 1 rf]> (k_refs k)) (set_k_lists ls
             (set_k_nodes (nodes_with k (r_node rf) (strong && bool_decide (r_strong rf = 0))
                (set_n_internal_strong_refs (s32 (n_internal_strong_refs nd + 1)) nd)) k))) k.
Proof.
  intros HR E End Hsize Hc Hl. destruct (rr_ref _ _ _ HR r rf E) as [_ _ _ Hs Hw].
  assert (∀ ls, lists_kept k ls → refs_ok (set_k_refs (<[r := recounted strong 1 rf]> (k_refs k)) (set_k_lists ls
             (set_k_nodes (nodes_with k (r_node rf) (strong && bool_decide (r_strong rf = 0))
                (set_n_internal_strong_refs (s32 (n_internal_strong_refs nd + 1)) nd)) k)))) as Hok.
  { intros ls Hls. replace (bool_decide (r_strong rf = 0)) with
      (bool_decide ((1 = 1 ∧ r_strong rf = 0) ∨ (1 = -1 ∧ r_strong rf = 1))) by (apply bool_decide_ext; naive_solver).
    apply refs_ok_recount; auto. destruct strong; simpl in *; lia. }
  assert (∀ nd0, nodes_with k (r_node rf) false nd0 = k_nodes k) as Hnw by done.
  assert (set_k_lists (k_lists k) (set_k_nodes (k_nodes k) k) = k) as Ek by (by destruct k).
  assert (wp (binder_inc_node (r_node rf) strong true tl) (λ e k',
            if inc_refused k (r_node rf) nd strong true tl then e = - EINVAL ∧ k' = k
            else e = 0 ∧ ∃ ls, lists_kept k ls ∧ k' = set_k_lists ls (set_k_nodes
              (nodes_with k (r_node rf) strong (set_n_internal_strong_refs (s32 (n_internal_strong_refs nd + 1)) nd)) k)) k) as Hinc.
  { eapply wp_mono; [by apply binder_inc_node_ok|]. cbv zeta. destruct (inc_refused k _ nd strong true tl).
    - intros e k' (ls & Hls & Href & -> & ->). split; [done|]. rewrite Href, andb_true_r by done.
      destruct strong; [symmetry; by apply node_unchanged|]. simpl. by rewrite insert_id, Ek.
    - intros e k' (ls & Hls & Href & -> & ->). rewrite andb_false_r. split; [done|]. exists ls. split; [done|].
      destruct strong; [done|]. simpl. by rewrite insert_id. }
  set (Q := λ (e : Z) (k' : kstate), e = 0 ∧ refs_ok k' ∧ ∃ ls, lists_kept k ls ∧
      k' = set_k_refs (<[r := recounted strong 1 rf]> (k_refs k)) (set_k_lists ls
             (set_k_nodes (nodes_with k (r_node rf) (strong && bool_decide (r_strong rf = 0))
                (set_n_internal_strong_refs (s32 (n_internal_strong_refs nd + 1)) nd)) k))).
  change (wp (binder_inc_ref r strong tl) (λ e k',
    if bool_decide (ref_count strong rf = 0) && inc_refused k (r_node rf) nd strong true tl
    then e = - EINVAL ∧ k' = k else Q e k') k).
  assert (bool_decide (ref_count strong rf = 0) = false → Q 0 (set_k_refs (<[r := recounted strong 1 rf]> (k_refs k)) k)) as Hagain.
  { intros Hne%bool_decide_eq_false. specialize (Hok (k_lists k) ltac:(by intros ?)).
    assert (strong && bool_decide (r_strong rf = 0) = false) as Hb.
    { destruct strong; [simpl; by apply bool_decide_eq_false|done]. }
    rewrite Hb, Hnw, Ek in Hok. split; [done|]. split; [done|]. exists (k_lists k). rewrite Hb, Hnw, Ek. by split; [intros ?|]. }
  assert (∀ ls, lists_kept k ls → ref_count strong rf = 0 → Q 0 (set_k_refs (<[r := recounted strong 1 rf]> (k_refs k)) (set_k_lists ls
      (set_k_nodes (nodes_with k (r_node rf) strong (set_n_internal_strong_refs (s32 (n_internal_strong_refs nd + 1)) nd)) k)))) as Hfirst.
  { intros ls Hls H0. specialize (Hok ls Hls).
    assert (strong && bool_decide (r_strong rf = 0) = strong) as Hb.
    { destruct strong; [simpl; by apply bool_decide_eq_true|done]. }
    rewrite Hb in Hok. split; [done|]. split; [exact Hok|]. exists ls. by rewrite Hb. }
  unfold binder_inc_ref. kstep. kstep.
  destruct strong; cbn [ref_count] in *; (destruct (decide (_ = 0)) as [H0|H0]; kstep;
    [rewrite bool_decide_true by done; eapply wp_mono; [exact Hinc|]; cbn [andb];
     destruct (inc_refused k _ nd _ true tl); [intros e k' [-> ->]; rewrite decide_True by done; by kstep|];
     intros e k' (-> & ls & Hls & ->); rewrite decide_False by tauto; ksteps; exact (Hfirst ls Hls H0)
    |kstep; rewrite decide_False by tauto; rewrite bool_decide_false by done; ksteps; exact (Hagain ltac:(by apply bool_decide_eq_false))]).
Qed.

(** *** A reference goes away *)

Lemma owned_by_delete R r p q : owned_by (delete r R) p q ↔ owned_by R p q ∧ q ≠ r.
Proof. unfold owned_by. setoid_rewrite lookup_delete_Some. naive_solver. Qed.
Lemma refers_to_delete R r n q : refers_to (delete r R) n q ↔ refers_to R n q ∧ q ≠ r.
Proof. unfold refers_to. setoid_rewrite lookup_delete_Some. naive_solver. Qed.

Lemma tree_of_owned_erase R p r t f :
  tree_of t (owned_by R p) (key_of f R) → owned_by R p r →
  tree_of (rb_erase r t) (owned_by (delete r R) p) (key_of f (delete r R)).
Proof.
  intros Ht Hr. eapply tree_of_ext; [by apply tree_of_erase|..].
  - intros q. by rewrite owned_by_delete.
  - intros q [_ Hq]. by rewrite key_of_delete.
Qed.

(** The trees of its process let go of it, *)
Lemma refs_rel_untree R k r rf x :
  refs_rel R R k → R !! r = Some rf → k_procs k !! r_proc rf = Some x →
  refs_rel (delete r R) R (set_k_procs (<[r_proc rf := set_p_refs_by_node (rb_erase r (p_refs_by_node x))
                (set_p_refs_by_desc (rb_erase r (p_refs_by_desc x)) x)]> (k_procs k)) k).
Proof.
  intros HR E Ex. assert (owned_by R (r_proc rf) r) as Hown by (by exists rf).
  assert (∀ (y : proc) p, is_Some (k_procs k !! p) → is_Some (<[r_proc rf := y]> (k_procs k) !! p)) as Hpk.
  { intros y p. rewrite lookup_insert_is_Some. destruct (decide (r_proc rf = p)); auto. }
  split; proj.
  - intros s sf Es. destruct (rr_ref _ _ _ HR s sf Es). split; proj; auto.
  - intros p y. rewrite lookup_insert_Some. intros [[<- <-]|[Hne Ey]].
    + destruct (rr_proc _ _ _ HR _ x Ex). split; proj; try done; by apply tree_of_owned_erase.
    + destruct (rr_proc _ _ _ HR p y Ey) as [Hd Hn ? ?].
      assert (∀ q, owned_by R p q → q ≠ r) as Hqr by (intros q (sf & Eq & Hq) ->; congruence).
      assert (∀ q, owned_by R p q ↔ owned_by (delete r R) p q) as Hq.
      { intros q. rewrite owned_by_delete. split; [|tauto]. auto. }
      split; proj; try done.
      * eapply tree_of_ext; [exact Hd|done|]. intros q ?%Hqr. by rewrite key_of_delete.
      * eapply tree_of_ext; [exact Hn|done|]. intros q ?%Hqr. by rewrite key_of_delete.
  - intros n nd En. destruct (rr_node _ _ _ HR n nd En). split; proj; auto.
Qed.

(** and then the list of its node. *)
Lemma refs_rel_unlist T R k r rf nd :
  refs_rel T R k → R !! r = Some rf → r_strong rf = 0 → k_nodes k !! r_node rf = Some nd →
  refs_rel T (delete r R) (set_k_nodes (<[r_node rf := set_n_refs (filter (λ x, x ≠ r) (n_refs nd)) nd]> (k_nodes k)) k).
Proof.
  intros HR E Hs End.
  assert (∀ l, r ∉ l → strong_count (delete r R) l = strong_count R l) as Hcount.
  { intros l Hl. apply strong_count_ext. intros s Hs'. apply key_of_delete. by intros ->. }
  split; proj.
  - intros s sf [_ Es]%lookup_delete_Some. destruct (rr_ref _ _ _ HR s sf Es). split; proj; try done.
    rewrite lookup_insert_is_Some. destruct (decide (r_node rf = r_node sf)); auto.
  - intros p x Ex. destruct (rr_proc _ _ _ HR p x Ex). split; proj; try done. by eapply tree_of_served_update.
  - intros n nd0. rewrite lookup_insert_Some. intros [[<- <-]|[Hne En]].
    + destruct (rr_node _ _ _ HR _ nd End) as [Hnd Hin Hst Hpr]. split; proj; try done.
      * by apply NoDup_filter.
      * intros s. rewrite list_elem_of_filter, refers_to_delete, Hin. tauto.
      * rewrite Hcount by (rewrite list_elem_of_filter; tauto). rewrite strong_count_filter; [done|].
        unfold held_strong. rewrite (key_of_Some _ _ _ _ E). apply bool_decide_eq_false. tauto.
    + destruct (rr_node _ _ _ HR n nd0 En) as [Hnd Hin Hst Hpr].
      assert (r ∉ n_refs nd0) as Hr by (intros (sf & Es & ?)%Hin; congruence). split; proj; try done.
      * intros s. rewrite refers_to_delete, Hin. split; [|tauto]. intros Hsn. split; [done|]. intros ->. by apply Hr, Hin.
      * by rewrite Hcount.
Qed.

Lemma set_strong_same rf : r_strong rf = 0 → set_r_strong 0 rf = rf.
Proof. destruct rf. simpl. by intros ->. Qed.

(** The strong counts the reference held on its node are given back. *)
Lemma drop_strong_ok T k r rf nd :
  refs_rel T (k_refs k) k → k_refs k !! r = Some rf → k_nodes k !! r_node rf = Some nd →
  Z.of_nat (size (k_refs k)) < 2 ^ 31 - 1 →
  wp (when bool_decide (r_strong rf ≠ 0) do (binder_dec_node (r_node rf) true true ;;; ret tt)) (λ _ k',
    refs_rel T (<[r := set_r_strong 0 rf]> (k_refs k)) k' ∧ quiet k k' ∧
    ∃ nd', k_nodes k' = <[r_node rf := nd']> (k_nodes k) ∧ n_refs nd' = n_refs nd) k.
Proof.
  intros HR E End Hsize. apply wp_when; intros Hb.
  - apply bool_decide_eq_true in Hb. destruct (rr_node _ _ _ HR _ nd End) as [Hnd Hin Hst _].
    assert (r ∈ n_refs nd) as Hr by (apply Hin; by exists rf).
    assert (length (n_refs nd) ≤ size (k_refs k))%nat as Hlen.
    { apply refs_length; [done|]. intros s (sf & Es & _)%Hin. eauto. }
    pose proof (strong_count_le (k_refs k) (n_refs nd)).
    pose proof (strong_count_insert (k_refs k) r (set_r_strong 0 rf) (n_refs nd) Hnd Hr) as Hi.
    pose proof (strong_count_le (<[r := set_r_strong 0 rf]> (k_refs k)) (n_refs nd)).
    unfold held_strong in Hi. rewrite (key_of_Some _ _ _ _ E), bool_decide_true, decide_False in Hi by (simpl; tauto).
    destruct (rr_ref _ _ _ HR r rf E). kstep. eapply wp_mono.
    { eapply (binder_dec_node_ok T (<[r := set_r_strong 0 rf]> (k_refs k))); [exact End|].
      eapply refs_rel_recount; try done. cbn [decremented]. proj.
      rewrite s32_small by lia. rewrite decide_True, decide_False by (simpl; tauto). lia. }
    intros e k' (_ & HR' & Hq & Hk). kstep. split; [done|]. split; [done|].
    destruct Hk as [Hk|(Hn & _)]; [|simpl in Hn; rewrite Hn in Hr; set_solver].
    eexists. split; [exact Hk|done].
  - apply bool_decide_eq_false in Hb. assert (r_strong rf = 0) as H0 by (destruct (decide (r_strong rf = 0)); tauto).
    rewrite set_strong_same, insert_id by done. split; [done|]. split; [apply quiet_refl|].
    exists nd. by rewrite insert_id.
Qed.

(** Node [n] after reference [r] to it is gone. *)
Definition node_less (k k' : kstate) (n r : Z) (nd : node) : Prop :=
  (∀ m, m ≠ n → k_nodes k' !! m = k_nodes k !! m) ∧
  match k_nodes k' !! n with
  | Some nd' => n_refs nd' = filter (λ x, x ≠ r) (n_refs nd)
  | None => n_refs nd = [r]
  end.

Lemma filter_nil_singleton (l : list Z) r : NoDup l → r ∈ l → filter (λ x, x ≠ r) l = [] → l = [r].
Proof.
  intros Hnd Hr Hf. assert (∀ x, x ∈ l → x = r) as Hall.
  { intros x Hx. destruct (decide (x = r)); [done|]. assert (x ∈ filter (λ x, x ≠ r) l); [|rewrite Hf in *; set_solver].
    by apply list_elem_of_filter. }
  destruct l as [|a [|b l]]; [set_solver|f_equal; apply Hall; set_solver|].
  apply NoDup_cons in Hnd as [Ha _]. rewrite (Hall a), (Hall b) in Ha by set_solver. set_solver.
Qed.

(** Freeing the death notification of a reference and the reference. *)
Lemma free_ref_ok k r rf :
  refs_rel (delete r (k_refs k)) (delete r (k_refs k)) k → k_refs k !! r = Some rf →
  (∀ d, r_death rf = Some d → is_Some (k_deaths k !! d)) →
  wp (match r_death rf with
      | Some d => list_del (WDeath d) ;;; free_dth d
      | None => ret tt
      end ;;; free_rf r)
     (λ _ k', refs_ok k' ∧ k_refs k' = delete r (k_refs k) ∧ k_nodes k' = k_nodes k) k.
Proof.
  intros HR E Hd. kstep. destruct (r_death rf) as [d|].
  - destruct (Hd d) as [dd Edd]; [done|]. ksteps. split; [|done]. unfold refs_ok. proj.
    eapply (refs_rel_frame _ _ k); try done. intros p. proj. by rewrite lookup_fmap, fmap_is_Some.
  - ksteps. split; [|done]. by apply (refs_rel_frame _ _ k).
Qed.

Lemma binder_delete_ref_ok k r rf nd :
  refs_ok k → k_refs k !! r = Some rf → k_nodes k !! r_node rf = Some nd →
  (∀ d, r_death rf = Some d → is_Some (k_deaths k !! d)) → Z.of_nat (size (k_refs k)) < 2 ^ 31 - 1 →
  wp (binder_delete_ref r) (λ _ k', refs_ok k' ∧ k_refs k' = delete r (k_refs k) ∧ node_less k k' (r_node rf) r nd) k.
Proof.
  intros HR E End Hd Hsize. destruct (rr_proc_alive _ _ (rr_ref _ _ _ HR r rf E)) as [x Ex].
  pose proof (rr_node _ _ _ HR _ nd End) as [Hnd Hin _ _].
  assert (r ∈ n_refs nd) as Hr by (apply Hin; by exists rf).
  unfold binder_delete_ref. ksteps. rewrite insert_insert_eq.
  set (k1 := set_k_procs _ _).
  assert (refs_rel (delete r (k_refs k)) (k_refs k) k1) as HR1 by exact (refs_rel_untree _ k r rf x HR E Ex).
  eapply wp_mono; [by apply (drop_strong_ok _ k1 r rf nd HR1)|].
  intros _ k2 (HR2 & Hq2 & nd2 & Hn2 & Hrefs2). change (k_refs k1) with (k_refs k) in *.
  assert (k_nodes k2 !! r_node rf = Some nd2) as End2 by (by rewrite Hn2, lookup_insert_eq).
  ksteps. rewrite Hrefs2. set (nd3 := set_n_refs _ nd2).
  assert (refs_rel (delete r (k_refs k)) (delete r (k_refs k)) (set_k_nodes (<[r_node rf := nd3]> (k_nodes k2)) k2)) as HR3.
  { replace (delete r (k_refs k)) with (delete r (<[r := set_r_strong 0 rf]> (k_refs k))) at 2 by apply delete_insert_eq.
    unfold nd3. rewrite <-Hrefs2. eapply (refs_rel_unlist _ _ k2 r (set_r_strong 0 rf) nd2); try done.
    by rewrite lookup_insert_eq. }
  set (k3 := set_k_nodes _ k2) in *.
  assert (k_nodes k3 !! r_node rf = Some nd3) as End3 by (unfold k3; proj; by rewrite lookup_insert_eq).
  eapply wp_mono.
  { eapply (binder_dec_node_ok _ (delete r (k_refs k)) k3 _ nd3 false true); [done|]. cbn [decremented].
    rewrite insert_id by done. by destruct k3. }
  cbn [decremented]. intros e k4 (_ & HR4 & Hq4 & Hk4). rewrite insert_id in Hk4 by done.
  assert (k_refs k4 = k_refs k) as Er4 by (rewrite (q_refs _ _ Hq4); apply (q_refs _ _ Hq2)).
  eapply wp_mono.
  { rewrite <-Er4 in HR4, E. apply (free_ref_ok k4 r rf HR4 E). intros d Ed. rewrite (q_deaths _ _ Hq4).
    unfold k3. proj. rewrite (q_deaths _ _ Hq2). by apply Hd. }
  intros _ k5 (HR5 & Er5 & En5). split; [done|]. split; [congruence|].
  assert (∀ m, m ≠ r_node rf → k_nodes k3 !! m = k_nodes k !! m) as Hm3.
  { intros m Hm. unfold k3. proj. by rewrite lookup_insert_ne, Hn2, lookup_insert_ne. }
  unfold node_less. rewrite En5. destruct Hk4 as [Hk4|(Hn & _ & _ & Hk4)].
  - change (k_nodes k4 = k_nodes k3) in Hk4. rewrite Hk4, End3. done.
  - change (k_nodes k4 = delete (r_node rf) (k_nodes k3)) in Hk4. rewrite Hk4, lookup_delete_eq. split.
    + intros m Hm. by rewrite lookup_delete_ne, Hm3.
    + by apply filter_nil_singleton.
Qed.

(** One count down; the state before it is seen whether the reference is still held. *)
Definition dec_count (r : Z) (rf : bref) (strong : bool) : K Z :=
  if strong then
    upd_rf r (set_r_strong (s32 (r_strong rf - 1))) ;;;
    if decide (s32 (r_strong rf - 1) = 0) then binder_dec_node (r_node rf) strong true else ret 0
  else upd_rf r (set_r_weak (s32 (r_weak rf - 1))) ;;; ret 0.

Lemma dec_count_ok k r rf nd strong :
  refs_ok k → k_refs k !! r = Some rf → k_nodes k !! r_node rf = Some nd →
  Z.of_nat (size (k_refs k)) < 2 ^ 31 - 1 → ref_count strong rf ≠ 0 →
  wp (dec_count r rf strong) (λ e k', e = 0 ∧ refs_ok k' ∧
    k_refs k' = <[r := recounted strong (-1) rf]> (k_refs k) ∧ k_deaths k' = k_deaths k ∧
    ∃ nd', k_nodes k' = <[r_node rf := nd']> (k_nodes k) ∧ n_refs nd' = n_refs nd) k.
Proof.
  intros HR E End Hsize Hc. destruct (rr_ref _ _ _ HR r rf E) as [_ _ _ Hs Hw].
  pose proof (node_at k r rf HR E) as (nd0 & End' & Hr). rewrite End in End'. injection End' as <-.
  assert (0 ≤ ref_count strong rf + -1 < 2 ^ 31) as Hc1 by (destruct strong; simpl in *; lia).
  pose proof (refs_ok_recount k (k_lists k) r rf nd strong (-1) HR E End ltac:(by intros ?) Hsize Hc1 ltac:(by right)) as Hok.
  unfold nodes_with in Hok.
  assert (¬ (strong = true ∧ r_strong rf = 1) →
    refs_ok (set_k_refs (<[r := recounted strong (-1) rf]> (k_refs k)) k)) as Hsame.
  { intros Hne. replace (strong && _) with false in Hok; [exact Hok|]. symmetry. apply andb_false_iff.
    destruct strong; [right; apply bool_decide_eq_false; naive_solver|by left]. }
  assert (∃ nd', k_nodes k = <[r_node rf := nd']> (k_nodes k) ∧ n_refs nd' = n_refs nd) as Hnodes.
  { exists nd. by rewrite insert_id. }
  unfold dec_count. destruct strong; cbv beta iota; cbn [ref_count] in *; kstep; kstep.
  - destruct (decide (s32 (r_strong rf - 1) = 0)) as [H1|H1]; rewrite s32_small in H1 by lia.
    + assert (r_strong rf = 1) as H2 by lia. rewrite bool_decide_true in Hok by naive_solver. cbn [andb] in Hok.
      eapply wp_mono.
      { eapply (binder_dec_node_ok (<[r := recounted true (-1) rf]> (k_refs k)) (<[r := recounted true (-1) rf]> (k_refs k)));
          [proj; exact End|exact Hok]. }
      intros e k' (-> & HR' & Hq & Hk). pose proof (q_refs _ _ Hq) as Er.
      split; [done|]. split; [unfold refs_ok; rewrite Er; exact HR'|]. split; [exact Er|]. split; [exact (q_deaths _ _ Hq)|].
      destruct Hk as [Hk|(Hn & _)]; [|cbn [decremented] in Hn; proj_in Hn; rewrite Hn in Hr; set_solver].
      eexists. split; [exact Hk|done].
    + kstep. split; [done|]. split; [apply Hsame; intros [_ ?]; lia|done].
  - kstep. split; [done|]. split; [apply Hsame; by intros []|done].
Qed.

Lemma binder_dec_ref_ok k r rf nd strong :
  refs_ok k → k_refs k !! r = Some rf → k_nodes k !! r_node rf = Some nd →
  (∀ d, r_death rf = Some d → is_Some (k_deaths k !! d)) → Z.of_nat (size (k_refs k)) < 2 ^ 31 - 1 →
  wp (binder_dec_ref r strong) (λ e k',
    if decide (ref_count strong rf = 0) then e = - EINVAL ∧ k' = k
    else e = 0 ∧ refs_ok k' ∧ (∀ m, m ≠ r_node rf → k_nodes k' !! m = k_nodes k !! m) ∧
      let rf' := recounted strong (-1) rf in
      if decide (r_strong rf' = 0 ∧ r_weak rf' = 0)
      then k_refs k' = delete r (k_refs k) ∧ node_less k k' (r_node rf) r nd
      else k_refs k' = <[r := rf']> (k_refs k)) k.
Proof.
  intros HR E End Hd Hsize. unfold binder_dec_ref. ksteps.
  change (if strong then r_strong rf else r_weak rf) with (ref_count strong rf).
  case_decide as H0; [by kstep|]. kstep.
  eapply wp_mono; [apply (dec_count_ok k r rf nd strong HR E End Hsize H0)|].
  intros e k1 (-> & HR1 & Er1 & Ed1 & nd1 & En1 & Hn1). rewrite decide_False by tauto.
  assert (k_refs k1 !! r = Some (recounted strong (-1) rf)) as E1 by (by rewrite Er1, lookup_insert_eq).
  assert (∀ m, m ≠ r_node rf → k_nodes k1 !! m = k_nodes k !! m) as Hm.
  { intros m Hm. by rewrite En1, lookup_insert_ne. }
  assert (r_node (recounted strong (-1) rf) = r_node rf) as Hids by (by destruct strong).
  kstep. kstep. kstep. cbv zeta. set (rf' := recounted strong (-1) rf) in *. case_decide as Hz.
  - rewrite !bool_decide_true by tauto. cbn [andb]. eapply wp_mono.
    { apply (binder_delete_ref_ok k1 r rf' nd1); [done|done|by rewrite Hids, En1, lookup_insert_eq| |].
      - intros d. rewrite Ed1. replace (r_death rf') with (r_death rf) by (unfold rf'; by destruct strong). apply Hd.
      - rewrite Er1, map_size_insert_Some; [done|by eauto]. }
    intros _ k2 (HR2 & Er2 & Hnl & Hn2). rewrite Hids in *. kstep. split; [done|]. split; [done|]. split.
    { intros m ?. rewrite Hnl by done. by apply Hm. }
    split; [by rewrite Er2, Er1, delete_insert_eq|]. split; [intros m ?; rewrite Hnl by done; by apply Hm|].
    by rewrite <-Hn1.
  - replace (_ && _) with false; [by kstep|]. symmetry. apply andb_false_iff. rewrite !bool_decide_eq_false.
    destruct (decide (r_strong rf' = 0)); tauto.
Qed.

(** A reference is found again by its node and by its descriptor. *)
Lemma ref_unique k r rf s sf :
  refs_ok k → k_refs k !! r = Some rf → k_refs k !! s = Some sf → r_proc sf = r_proc rf →
  r_node sf = r_node rf ∨ r_desc sf = r_desc rf → s = r.
Proof.
  intros HR E Es Hp Hk. destruct (rr_proc_alive _ _ (rr_ref _ _ _ HR r rf E)) as [x Ex].
  destruct (rr_proc _ _ _ HR _ x Ex) as [Hd Hn _ _].
  assert (owned_by (k_refs k) (r_proc rf) r ∧ owned_by (k_refs k) (r_proc rf) s) as [H1 H2].
  { split; [by exists rf|by exists sf]. }
  destruct Hk as [Hk|Hk].
  - eapply (tree_of_inj _ _ _ s r Hn); [done..|]. by rewrite (key_of_Some _ _ _ _ E), (key_of_Some _ _ _ _ Es).
  - eapply (tree_of_inj _ _ _ s r Hd); [done..|]. by rewrite (key_of_Some _ _ _ _ E), (key_of_Some _ _ _ _ Es).
Qed.
Lemma ref_for_node_Some k k' proc node r :
  ref_for_node k k' proc node (Some r) → ∃ rf, k_refs k' !! r = Some rf ∧ r_proc rf = proc ∧ r_node rf = node ∧
    (k_refs k' = k_refs k ∨ (k_refs k !! r = None ∧ k_refs k' = <[r := rf]> (k_refs k) ∧ r_strong rf = 0 ∧ r_weak rf = 0)).
Proof.
  intros [(-> & rf & E & Hp & Hn)|(_ & _ & Hr & _ & id & desc & nd & _ & _ & Er & _)].
  - exists rf. by do 3 (split; [done|]); left.
  - eexists. rewrite Er, lookup_insert_eq. do 3 (split; [done|]). by right.
Qed.

(** The nodes keep who serves them and what they stand for. *)
Definition nodes_kept (k k' : kstate) : Prop :=
  ∀ n nd, k_nodes k !! n = Some nd → ∃ nd', k_nodes k' !! n = Some nd' ∧
    n_proc nd' = n_proc nd ∧ n_ptr nd' = n_ptr nd ∧ n_cookie nd' = n_cookie nd.
Lemma ref_for_node_nodes k k' proc node o : ref_for_node k k' proc node o → nodes_kept k k'.
Proof.
  intros Ho n nd E. destruct o as [r|].
  - destruct Ho as [[-> _]|(_ & _ & _ & _ & id & desc & nd0 & E0 & _ & _ & En)]; [by exists nd|].
    rewrite En. destruct (decide (n = node)) as [->|]; [|rewrite lookup_insert_ne by done; by exists nd].
    rewrite lookup_insert_eq. eexists. split; [done|]. proj. naive_solver congruence.
  - destruct Ho as (_ & _ & _ & En). rewrite En. by exists nd.
Qed.
End ops.
