(* ===== verification/BinderDemo.v ===== *)
(** * A small system

    Two processes with one thread each: process 1000 serves an object (node 3000,
    user pointer 5, cookie 6), to which process 2000 holds the strong reference
    4000 under descriptor 1.  The theorems on the binder driver are applied to it. *)

From Stdlib Require Import ZArith Lia.
From stdpp Require Import base tactics list sets gmap sorting.
From S2P Require Import Prelude Rbtree BinderAlloc BinderState BinderRefs BinderFds BinderRules BinderRefsInv BinderRefsOps.

#[export] Instance demo_env : KernelEnv := {|
  ke_rb := plain_rb;
  expand_files t fd := (0, t);
  filp_close _ := 0;
  can_nice n := bool_decide (0 ≤ n);
  rlimit_nice := 20;
  set_user_nice _ n := n;
  task_tgid_nr_ns p := p
|}.

(** An area of four pages at address [kaddr], mapped by the process at [uaddr]. *)
Definition demo_area (kaddr uaddr : Z) : balloc :=
  match binder_mmap_area (MmEnv true (λ _, PageOk)) uaddr (uaddr + 16384) false (Some kaddr) true balloc_init with
  | Ret _ a => a
  | Crash _ => balloc_init
  end.
Definition demo_proc (pid : Z) (thread kaddr uaddr : Z) : proc :=
  Proc pid 0 (RbNode RbLeaf thread RbLeaf) RbLeaf RbLeaf RbLeaf (Some pid) 0 (demo_area kaddr uaddr) 15 0 0 0 0.
Definition demo_thread (proc pid : Z) : thread := Thread proc pid LOOPER_ENTERED None BR_OK BR_OK.

Definition demo_node : node :=
  Node 1 (Some 1000) [4000] 1 0 0 5 6 true false true false false true 0.
Definition demo_ref : bref := Ref 2 2000 3000 1 1 0 None.

Definition demo : kstate := KState
  {[ 1000 := set_p_nodes (RbNode RbLeaf 3000 RbLeaf) (demo_proc 10 1001 65536 1000000);
     2000 := set_p_refs_by_desc (RbNode RbLeaf 4000 RbLeaf) (set_p_refs_by_node (RbNode RbLeaf 4000 RbLeaf)
               (demo_proc 20 2001 131072 2000000)) ]}
  {[ 1001 := demo_thread 1000 10; 2001 := demo_thread 2000 20 ]}
  {[ 3000 := demo_node ]}
  {[ 4000 := demo_ref ]}
  ∅ ∅ ∅
  {[ LProcTodo 1000 := []; LDelivered 1000 := []; LThreadTodo 1001 := [];
     LProcTodo 2000 := []; LDelivered 2000 := []; LThreadTodo 2001 := []; LAsyncTodo 3000 := [] ]}
  [2000; 1000] [] [] None (-1) 2
  {[ 10 := FdTable ∅ ∅ ∅ 0 64 1024; 20 := FdTable ∅ ∅ ∅ 0 64 1024 ]}
  [] [Some 5000; Some 5100; Some 5200; Some 5300] ∅ (MmEnv true (λ _, PageOk)) (Caller 20 20 0 20) 0 0.

Lemma tree_of_leaf (P : Z → Prop) key : (∀ x, ¬ P x) → tree_of RbLeaf P key.
Proof. intros HP. split; [|constructor]. intros x. simpl. split; [set_solver|]. intros []%HP. Qed.
Lemma tree_of_single (P : Z → Prop) key x : (∀ y, P y ↔ y = x) → tree_of (RbNode RbLeaf x RbLeaf) P key.
Proof. intros HP. split; [|repeat constructor]. intros y. rewrite HP. simpl. set_solver. Qed.

Lemma demo_ref_inv r rf : k_refs demo !! r = Some rf → r = 4000 ∧ rf = demo_ref.
Proof. unfold demo. cbn [k_refs]. rewrite lookup_singleton_Some. naive_solver. Qed.
Lemma demo_node_inv n nd : k_nodes demo !! n = Some nd → n = 3000 ∧ nd = demo_node.
Proof. unfold demo. cbn [k_nodes]. rewrite lookup_singleton_Some. naive_solver. Qed.

Lemma demo_owned p q : owned_by (k_refs demo) p q ↔ q = 4000 ∧ p = 2000.
Proof.
  unfold owned_by. split; [|intros [-> ->]; by exists demo_ref].
  by intros (rf & [-> ->]%demo_ref_inv & <-).
Qed.
Lemma demo_served p n : served_by (k_nodes demo) p n ↔ n = 3000 ∧ p = 1000.
Proof.
  unfold served_by. split; [|intros [-> ->]; by exists demo_node].
  by intros (nd & [-> ->]%demo_node_inv & [= <-]).
Qed.

Lemma demo_refs_ok : refs_ok demo.
Proof.
  split.
  - intros r rf [-> ->]%demo_ref_inv. split; [by eexists|by eexists|by vm_compute..].
  - intros p x. change (k_procs demo !! p = Some x → proc_rel (k_refs demo) demo p x).
    unfold demo at 1. cbn [k_procs]. rewrite lookup_insert_Some, lookup_singleton_Some.
    intros [[<- <-]|[_ [<- <-]]]; split; try (by eexists).
    + apply tree_of_leaf. intros q [_ ?]%demo_owned. done.
    + apply tree_of_leaf. intros q [_ ?]%demo_owned. done.
    + apply tree_of_single. intros n. rewrite demo_served. naive_solver.
    + apply tree_of_single. intros n. rewrite demo_owned. naive_solver.
    + apply tree_of_single. intros n. rewrite demo_owned. naive_solver.
    + apply tree_of_leaf. intros q [_ ?]%demo_served. done.
  - intros n nd [-> ->]%demo_node_inv. split.
    + apply NoDup_singleton.
    + intros r. change (r ∈ [4000] ↔ refers_to (k_refs demo) 3000 r). rewrite list_elem_of_singleton.
      split; [intros ->; by exists demo_ref|]. by intros (rf & [-> _]%demo_ref_inv & _).
    + vm_compute. reflexivity.
    + intros p [= <-]. by eexists.
Qed.

Lemma demo_heap_ok : heap_ok demo.
Proof.
  split; [apply (bool_decide_unpack _); vm_compute; exact I|].
  intros a Ha. change (Some a ∈ [Some 5000; Some 5100; Some 5200; Some 5300]) in Ha.
  rewrite !elem_of_cons, elem_of_nil in Ha. destruct Ha as [[= ->]|[[= ->]|[[= ->]|[[= ->]|[]]]]]; vm_compute; done.
Qed.
