(* ===== verification/BinderRefsSpec.v ===== *)
(** * Nodes and references: what they promise

    The properties of the references of [BinderRefs], with a small system in which
    one process holds a reference to an object of another as witness. *)

From Stdlib Require Import ZArith Lia.
From stdpp Require Import base tactics list sets gmap sorting relations.
From S2P Require Import Prelude Rbtree BinderAlloc BinderState BinderRefs BinderFds BinderTxn BinderRules BinderRefsInv BinderRefsOps BinderDemo.

Section spec.
Context `{KernelEnv}.

(** The tables are so small that no count or descriptor wraps: the kernel has no
    room for more. *)
Definition small (k : kstate) : Prop :=
  Z.of_nat (size (k_refs k)) < 2 ^ 31 - 2 ∧
  ∀ r rf, k_refs k !! r = Some rf → r_strong rf < 2 ^ 31 - 1 ∧ r_weak rf < 2 ^ 31 - 1.
(** The notification of a reference is an object of the driver. *)
Definition deaths_alive (k : kstate) : Prop :=
  ∀ r rf d, k_refs k !! r = Some rf → r_death rf = Some d → is_Some (k_deaths k !! d).

(** One call of the routines that make, count or drop nodes and references. *)
Inductive ref_call :=
  | CNewNode (proc ptr cookie : Z)
  | CGetRef (proc node : Z)
  | CIncRef (ref : Z) (strong : bool) (tl : option lid)
  | CDecRef (ref : Z) (strong : bool).
Definition run_call (c : ref_call) : K unit :=
  match c with
  | CNewNode p ptr cookie => binder_new_node p ptr cookie ;;; ret tt
  | CGetRef p n => binder_get_ref_for_node p n ;;; ret tt
  | CIncRef r s tl => binder_inc_ref r s tl ;;; ret tt
  | CDecRef r s => binder_dec_ref r s ;;; ret tt
  end.
(** The objects it is given exist, and so does memory for what it makes. *)
Definition call_legal (c : ref_call) (k : kstate) : Prop :=
  heap_ok k ∧ small k ∧ deaths_alive k ∧
  match c with
  | CNewNode p _ _ => is_Some (k_procs k !! p)
  | CGetRef p n => is_Some (k_procs k !! p) ∧ is_Some (k_nodes k !! n)
  | CIncRef r _ tl => is_Some (k_refs k !! r) ∧ ∀ l, tl = Some l → is_Some (k_lists k !! l)
  | CDecRef r _ => is_Some (k_refs k !! r)
  end.
Inductive ref_step (k : kstate) : kstate → Prop :=
  | RefStep c k' : call_legal c k → run_call c k = Ret tt k' → ref_step k k'.

Lemma run_call_ok c k : refs_ok k → call_legal c k → wp (run_call c) (λ _ k', refs_ok k') k.
Proof.
  intros HR (Hh & [Hsize Hcounts] & Hd & Hc). destruct c as [p ptr cookie|p n|r s tl|r s]; simpl; kstep.
  - destruct Hc as [x Ex]. eapply wp_mono; [by eapply binder_new_node_ok|]. intros o k' (? & _). by kstep.
  - destruct Hc as [[x Ex] [nd En]].
    eapply wp_mono; [apply (binder_get_ref_for_node_ok k p x n nd HR Hh Ex En); lia|]. intros o k' (? & _). by kstep.
  - destruct Hc as [[rf E] Hl]. destruct (node_at k r rf HR E) as (nd & En & _).
    eapply wp_mono; [apply (binder_inc_ref_ok k r rf nd s tl HR E En); [lia| |exact Hl]|].
    { destruct (Hcounts r rf E). destruct s; simpl; lia. }
    intros e k'. destruct (_ && _); [intros [_ ->]; by kstep|intros (_ & ? & _); by kstep].
  - destruct Hc as [rf E]. destruct (node_at k r rf HR E) as (nd & En & _).
    eapply wp_mono; [apply (binder_dec_ref_ok k r rf nd s HR E En); [|lia]|].
    { intros d. by apply (Hd r rf). }
    intros e k'. case_decide; [intros [_ ->]; by kstep|intros (_ & ? & _); by kstep].
Qed.

(** C4: whatever sequence of calls makes, counts and drops nodes and references,
    the trees of the processes, the lists of the nodes and the nodes' counts of
    strong references stay consistent, and the next call does not crash: no BUG of
    the driver fires and no freed reference or node is touched. *)
Theorem refs_invariant (k k' : kstate) (c : ref_call) (HR : refs_ok k) (Hrun : rtc ref_step k k') (Hc : call_legal c k') :
  refs_ok k' ∧ ∃ k'', run_call c k' = Ret tt k'' ∧ refs_ok k''.
Proof.
  assert (refs_ok k') as HR'.
  { clear Hc. induction Hrun as [|k1 k2 k3 [c1 k2' Hc1 Hrun1] _ IH]; [done|]. apply IH.
    destruct (wp_elim _ _ _ (run_call_ok c1 k1 HR Hc1)) as ([] & k4 & E & HR4). congruence. }
  split; [done|]. destruct (wp_elim _ _ _ (run_call_ok c k' HR' Hc)) as ([] & k4 & E & HR4). eauto.
Qed.

(** Asked for its reference to a node, a process gets the one it has, with
    nothing changed, or a new one under the smallest descriptor it does not use
    (from 0 for the context manager, from 1 for others), or nothing when memory is
    short; it never has two references to a node or two under one descriptor. *)
Theorem binder_get_ref_for_node_spec (k : kstate) (proc node : Z) (HR : refs_ok k) (Hh : heap_ok k) (Hs : small k)
    (Hp : is_Some (k_procs k !! proc)) (Hn : is_Some (k_nodes k !! node)) :
  ∃ o k', binder_get_ref_for_node proc node k = Ret o k' ∧ refs_ok k' ∧ ref_for_node k k' proc node o ∧
    ∀ r, o = Some r → ∃ rf, k_refs k' !! r = Some rf ∧ r_proc rf = proc ∧ r_node rf = node ∧
      ∀ s sf, k_refs k' !! s = Some sf → r_proc sf = proc → r_node sf = node ∨ r_desc sf = r_desc rf → s = r.
Proof.
  destruct Hp as [x Ex], Hn as [nd En], Hs as [Hs _].
  destruct (wp_elim _ _ _ (binder_get_ref_for_node_ok k proc x node nd HR Hh Ex En ltac:(lia)))
    as (o & k' & E & HR' & _ & _ & Ho).
  exists o, k'. do 3 (split; [done|]). intros r ->.
  destruct (ref_for_node_Some _ _ _ _ _ Ho) as (rf & Er & Hp & Hn & _). exists rf. do 3 (split; [done|]).
  intros s sf Es Hps Hk. apply (ref_unique k' r rf s sf HR' Er Es); [congruence|]. naive_solver congruence.
Qed.

(** A count on a reference goes up by one, the first strong one also on the
    node, unless it is the first and there is nobody through whom to tell the
    node's process: then the call is refused and nothing changes. *)
Theorem binder_inc_ref_spec (k : kstate) (r : Z) (rf : bref) (nd : node) (strong : bool) (tl : option lid)
    (HR : refs_ok k) (Hs : small k) (E : k_refs k !! r = Some rf) (En : k_nodes k !! r_node rf = Some nd)
    (Hl : ∀ l, tl = Some l → is_Some (k_lists k !! l)) :
  if bool_decide (ref_count strong rf = 0) && inc_refused k (r_node rf) nd strong true tl
  then binder_inc_ref r strong tl k = Ret (- EINVAL) k
  else ∃ k', binder_inc_ref r strong tl k = Ret 0 k' ∧ refs_ok k' ∧
    k_refs k' = <[r := if strong then set_r_strong (r_strong rf + 1) rf else set_r_weak (r_weak rf + 1) rf]> (k_refs k) ∧
    k_nodes k' = (if strong && bool_decide (r_strong rf = 0)
                  then <[r_node rf := set_n_internal_strong_refs (n_internal_strong_refs nd + 1) nd]> (k_nodes k)
                  else k_nodes k) ∧
    k_procs k' = k_procs k.
Proof.
  destruct Hs as [Hs Hc]. destruct (Hc r rf E) as [Hc1 Hc2]. destruct (rr_ref _ _ _ HR r rf E).
  assert (ref_count strong rf < 2 ^ 31 - 1) as Hc3 by (destruct strong; simpl; lia).
  destruct (wp_elim _ _ _ (binder_inc_ref_ok k r rf nd strong tl HR E En ltac:(lia) Hc3 Hl)) as (e & k' & Ei & Hpost).
  destruct (_ && inc_refused _ _ _ _ _ _); [destruct Hpost as [-> ->]; done|].
  destruct Hpost as (-> & HR' & ls & _ & Ek). exists k'. do 2 (split; [done|]). rewrite Ek. split_and!; [| |done].
  - proj. unfold recounted. destruct strong; by rewrite s32_small by lia.
  - change (k_nodes (set_k_refs ?R (set_k_lists ?ls (set_k_nodes ?N k)))) with N. unfold nodes_with.
    pose proof (node_refs_length k _ nd HR En). pose proof (strong_count_le (k_refs k) (n_refs nd)).
    pose proof (nr_strong _ _ _ _ (rr_node _ _ _ HR _ nd En)). by rewrite s32_small by lia.
Qed.

(** A count that is zero cannot go down ([-EINVAL], nothing changes); when
    both counts have reached zero the reference is gone, from its process, from
    the node's list and from the table, and its node is freed only if that was the
    last reference to it. *)
Theorem binder_dec_ref_spec (k : kstate) (r : Z) (rf : bref) (nd : node) (strong : bool)
    (HR : refs_ok k) (Hs : small k) (Hd : deaths_alive k)
    (E : k_refs k !! r = Some rf) (En : k_nodes k !! r_node rf = Some nd) :
  if decide (ref_count strong rf = 0) then binder_dec_ref r strong k = Ret (- EINVAL) k
  else ∃ k', binder_dec_ref r strong k = Ret 0 k' ∧ refs_ok k' ∧
    (∀ m, m ≠ r_node rf → k_nodes k' !! m = k_nodes k !! m) ∧
    let rf' := recounted strong (-1) rf in
    if decide (r_strong rf' = 0 ∧ r_weak rf' = 0)
    then k_refs k' = delete r (k_refs k) ∧ node_less k k' (r_node rf) r nd
    else k_refs k' = <[r := rf']> (k_refs k).
Proof.
  destruct Hs as [Hs _].
  destruct (wp_elim _ _ _ (binder_dec_ref_ok k r rf nd strong HR E En (λ d, Hd r rf d E) ltac:(lia))) as (e & k' & Ei & Hpost).
  case_decide; [destruct Hpost as [-> ->]; done|]. destruct Hpost as (-> & HR' & Hm & Hz). by exists k'.
Qed.
End spec.

Lemma demo_small : small demo.
Proof.
  split; [by vm_compute|]. intros r rf [_ ->]%demo_ref_inv. by vm_compute.
Qed.
Lemma demo_deaths_alive : deaths_alive demo.
Proof. by intros r rf d [_ ->]%demo_ref_inv. Qed.

Module RefsDemo.
Lemma refs_invariant_witness : refs_ok demo ∧ ∃ k'', run_call (CDecRef 4000 true) demo = Ret tt k'' ∧ refs_ok k''.
Proof.
  apply (refs_invariant demo demo (CDecRef 4000 true)); [apply demo_refs_ok|apply rtc_refl|].
  split_and!; [apply demo_heap_ok|apply demo_small|apply demo_deaths_alive|by eexists].
Defined.

Lemma binder_get_ref_for_node_spec_witness :
  ∃ o k', binder_get_ref_for_node 1000 3000 demo = Ret o k' ∧ refs_ok k' ∧ ref_for_node demo k' 1000 3000 o.
Proof.
  destruct (binder_get_ref_for_node_spec demo 1000 3000) as (o & k' & E & HR & Ho & _);
    [apply demo_refs_ok|apply demo_heap_ok|apply demo_small|by eexists|by eexists|]. eauto.
Defined.

Lemma binder_inc_ref_spec_witness :
  ∃ k', binder_inc_ref 4000 true None demo = Ret 0 k' ∧ refs_ok k' ∧
    k_refs k' = <[4000 := set_r_strong 2 demo_ref]> (k_refs demo) ∧ k_nodes k' = k_nodes demo ∧ k_procs k' = k_procs demo.
Proof.
  exact (binder_inc_ref_spec demo 4000 demo_ref demo_node true None demo_refs_ok demo_small eq_refl eq_refl
           ltac:(done)).
Defined.

Lemma binder_dec_ref_spec_witness :
  ∃ k', binder_dec_ref 4000 true demo = Ret 0 k' ∧ refs_ok k' ∧ (∀ m, m ≠ 3000 → k_nodes k' !! m = k_nodes demo !! m) ∧
    (k_refs k' = delete 4000 (k_refs demo) ∧ node_less demo k' 3000 4000 demo_node).
Proof.
  exact (binder_dec_ref_spec demo 4000 demo_ref demo_node true demo_refs_ok demo_small demo_deaths_alive
           eq_refl eq_refl).
Defined.
End RefsDemo.
