(* ===== verification/BinderObjects.v ===== *)
(** * Objects that travel between processes

    What the translation of the objects in a transaction ([translate_binder] and
    [translate_handle], the loop of [binder_transaction]) keeps: an object that is
    sent away and comes back is the same object. *)

From Stdlib Require Import ZArith Lia.
From stdpp Require Import base tactics list sets gmap sorting.
From S2P Require Import Prelude Rbtree BinderAlloc BinderState BinderRefs BinderFds BinderTxn BinderRules.
From S2P Require Import BinderRefsInv BinderRefsOps BinderDemo BinderRefsSpec.

Section objects.
Context `{KernelEnv}.

Definition is_binder (o : flat) : Prop := f_type o = BINDER_TYPE_BINDER ∨ f_type o = BINDER_TYPE_WEAK_BINDER.
Definition handle_type (ty : Z) : Z := if decide (ty = BINDER_TYPE_BINDER) then BINDER_TYPE_HANDLE else BINDER_TYPE_WEAK_HANDLE.

(** [n] is the node for the object [o] of process [p]. *)
Definition node_of (k : kstate) (p n : Z) (o : flat) : Prop :=
  ∃ nd, k_nodes k !! n = Some nd ∧ n_proc nd = Some p ∧ n_ptr nd = f_binder o ∧ n_cookie nd = f_cookie o.

Lemma node_of_kept k k' p n o : nodes_kept k k' → node_of k p n o → node_of k' p n o.
Proof.
  intros Hk (nd & E & Hp & Hptr & Hc). destruct (Hk n nd E) as (nd' & E' & ? & ? & ?). exists nd'. naive_solver congruence.
Qed.

(** A node changes in what the invariant does not look at. *)
Lemma refs_ok_minor k n nd nd' :
  refs_ok k → k_nodes k !! n = Some nd →
  n_proc nd' = n_proc nd → n_ptr nd' = n_ptr nd → n_refs nd' = n_refs nd →
  n_internal_strong_refs nd' = n_internal_strong_refs nd →
  refs_ok (set_k_nodes (<[n := nd']> (k_nodes k)) k).
Proof.
  intros HR E Hp Hptr Hr Hi. apply (refs_rel_node (k_refs k) (k_refs k) k n nd nd'); try done.
  destruct (rr_node _ _ _ HR n nd E). split; rewrite ?Hp, ?Hr, ?Hi; done.
Qed.

(** Memory for [n] more objects. *)
Definition room (n : nat) (k : kstate) : Prop := ∀ i, (i < n)%nat → ∃ a, k_heap k !! i = Some (Some a).

Lemma room_next n k : room (S n) k → ∃ a, heap_next k = Some a.
Proof.
  intros Hr. destruct (Hr 0%nat) as [a Ha]; [lia|]. exists a. unfold heap_next. by destruct (k_heap k); simplify_eq/=.
Qed.
Lemma room_tail n k k' : room (S n) k → k_heap k' = tail (k_heap k) → room n k'.
Proof.
  intros Hr E i Hi. destruct (Hr (S i)) as [a Ha]; [lia|]. exists a. rewrite E. by destruct (k_heap k).
Qed.

Definition cookies_agree (k : kstate) (p : Z) (o : flat) : Prop :=
  ∀ n nd, k_nodes k !! n = Some nd → n_proc nd = Some p → n_ptr nd = f_binder o → n_cookie nd = f_cookie o.

Lemma find_node_ok k p x o :
  refs_ok k → heap_ok k → k_procs k !! p = Some x → cookies_agree k p o → room 2 k →
  wp (find_node p o) (λ r k', ∃ n, r = Some n ∧ refs_ok k' ∧ heap_ok k' ∧ grown k k' ∧ k_refs k' = k_refs k ∧
    room 1 k' ∧ node_of k' p n o) k.
Proof.
  intros HR Hh Ex Hc Hroom. unfold find_node. kstep.
  eapply wp_mono; [by eapply (binder_get_node_ok (k_refs k))|]. intros r k1 [-> Hr]. destruct r as [n|].
  { kstep. exists n. split_and!; try done.
    - intros i Hi. apply Hroom. lia.
    - destruct Hr as (nd & E & Hp & Hptr). exists nd. split_and!; try done. by apply (Hc n). }
  kstep. eapply wp_mono; [by eapply binder_new_node_ok|].
  intros r k1 (HR1 & Hh1 & Hg1 & Er1 & Hr1). destruct (room_next _ _ Hroom) as [a Ha].
  destruct r as [n|]; [|destruct Hr1 as [_ [Hnone|(n & nd & E & Hp & Hptr)]]; [congruence|by destruct (Hr n nd)]].
  destruct Hr1 as (_ & Hfresh & Hh' & _ & id & En).
  set (nd := blank_node id p (f_binder o) (f_cookie o)) in *.
  assert (k_nodes k1 !! n = Some nd) as E1 by (by rewrite En, lookup_insert_eq).
  ksteps. exists n. rewrite insert_insert_eq. set (nd2 := set_n_accept_fds _ _).
  split; [done|]. split_and!.
  - apply (refs_rel_frame (k_refs k1) (k_refs k1) (set_k_nodes (<[n := nd2]> (k_nodes k1)) k1)); try done.
    by apply (refs_ok_minor k1 n nd nd2).
  - destruct Hh1 as [Hnd Hf]. split; [done|]. intros b Hb. destruct (Hf b Hb) as (? & Hbn & ?).
    split_and!; try done. proj. rewrite lookup_insert_None. split; [done|]. congruence.
  - destruct Hg1. by split.
  - done.
  - by apply (room_tail 1 k).
  - exists nd2. proj. by rewrite lookup_insert_eq.
Qed.

(** The handle of [q] that stands for the object. *)
Definition handle_of (k : kstate) (q n : Z) (o o' : flat) : Prop :=
  (∃ r rf, k_refs k !! r = Some rf ∧ r_proc rf = q ∧ r_node rf = n ∧ r_desc rf = f_binder o') ∧
  f_type o' = handle_type (f_type o) ∧ f_flags o' = f_flags o ∧ f_cookie o' = f_cookie o.

Lemma translate_binder_ok k p q x y thread o :
  refs_ok k → heap_ok k → small k → k_procs k !! p = Some x → k_procs k !! q = Some y →
  is_Some (k_lists k !! LThreadTodo thread) → cookies_agree k p o → room 2 k →
  wp (translate_binder p thread q o) (λ r k', ∃ n o', r = inl o' ∧ refs_ok k' ∧ grown k k' ∧
    node_of k' p n o ∧ handle_of k' q n o o') k.
Proof.
  intros HR Hh [Hsize Hcnt] Ex Ey Hl Hc Hroom. unfold translate_binder. kstep.
  eapply wp_mono; [by apply (find_node_ok k p x o)|].
  intros r k1 (n & -> & HR1 & Hh1 & Hg1 & Er1 & Hroom1 & Hn1). pose proof Hn1 as (nd & End & Hp & Hptr & Hck).
  kstep. kstep. rewrite decide_False by (intros Hne; by apply Hne). kstep.
  destruct (g_procs _ _ Hg1 q ltac:(eauto)) as [y1 Ey1]. rewrite <-Er1 in Hsize, Hcnt.
  eapply wp_mono; [apply (binder_get_ref_for_node_ok k1 q y1 n nd HR1 Hh1 Ey1 End); lia|].
  intros r k2 (HR2 & _ & Hg2 & Hr2). destruct (room_next _ _ Hroom1) as [a Ha].
  destruct r as [r|]; [|destruct Hr2 as (_ & ? & _); congruence].
  destruct (ref_for_node_Some _ _ _ _ _ Hr2) as (rf & Erf & Hq & Hn & Hsame).
  pose proof (node_of_kept _ _ _ _ _ (ref_for_node_nodes _ _ _ _ _ Hr2) Hn1) as (nd2 & End2 & Hp2 & Hptr2 & Hck2).
  kstep. kstep. kstep. rewrite <-Hn in End2.
  assert (is_Some (k_lists k2 !! LThreadTodo thread)) as Hl2 by (apply (g_lists _ _ Hg2), (g_lists _ _ Hg1), Hl).
  assert (r_strong rf < 2 ^ 31 - 1 ∧ r_weak rf < 2 ^ 31 - 1 ∧ Z.of_nat (size (k_refs k2)) < 2 ^ 31 - 1) as (Hs & Hw & Hsz).
  { destruct Hsame as [Er2|(Hno & -> & -> & ->)].
    - rewrite Er2 in Erf |- *. destruct (Hcnt r rf Erf). lia.
    - rewrite map_size_insert_None by done. lia. }
  set (strong := bool_decide _). eapply wp_mono.
  { apply (binder_inc_ref_ok k2 r rf nd2 strong (Some (LThreadTodo thread)) HR2 Erf End2 Hsz); [by destruct strong|].
    by intros l [= <-]. }
  assert (inc_refused k2 (r_node rf) nd2 strong true (Some (LThreadTodo thread)) = false) as ->.
  { unfold inc_refused. rewrite (bool_decide_false (Some _ = None)) by done. destruct strong; [done|by rewrite andb_false_r]. }
  rewrite andb_false_r. intros e k3 (-> & HR3 & ls & Hls & ->). kstep. do 2 eexists. split; [done|]. split; [done|].
  split.
  { destruct Hg1, Hg2. split; proj; try congruence; auto. }
  split.
  - eapply node_of_kept; [|exact Hn1]. intros m md Em.
    destruct (ref_for_node_nodes _ _ _ _ _ Hr2 m md Em) as (md' & Em' & Hm). proj. unfold nodes_with.
    destruct (_ && _); [|by exists md']. destruct (decide (m = r_node rf)) as [->|].
    + rewrite lookup_insert_eq. eexists. split; [done|]. proj. naive_solver congruence.
    + rewrite lookup_insert_ne by done. by exists md'.
  - split; [|by rewrite Hck || done]. exists r. proj. rewrite lookup_insert_eq. eexists. split; [done|].
    by destruct strong.
Qed.

(** The way back: the handle becomes the object again. *)
Lemma translate_handle_back k p q n y o o' :
  refs_ok k → k_procs k !! q = Some y → is_binder o → node_of k p n o → handle_of k q n o o' →
  wp (translate_handle q p o') (λ r _, r = inl o) k.
Proof.
  intros HR Ey Ho (nd & End & Hp & Hptr & Hck) ((r & rf & Erf & Hq & Hn & Hd) & Hty & Hfl & Hco).
  unfold translate_handle. kstep.
  eapply wp_mono; [by apply (binder_get_ref_ok (k_refs k) (k_refs k) k q y (f_binder o'))|].
  intros r' k1 [-> Hr]. destruct r' as [s|]; [|by destruct (Hr r rf Erf Hq)].
  destruct Hr as (sf & Es & Hsq & Hsd). assert (s = r) as ->.
  { apply (ref_unique k r rf s sf HR Erf Es); [congruence|]. right. congruence. }
  rewrite Erf in Es. injection Es as <-. subst n. kstep. kstep. kstep. kstep. rewrite decide_True by done. kstep.
  eapply wp_mono; [by apply (binder_inc_node_ok k _ nd)|]. intros e k2 _. kstep. f_equal.
  rewrite Hty, Hfl, Hptr, Hck. unfold handle_type. destruct o as [ty fl bi co]. unfold is_binder in Ho. cbn [f_type f_flags f_binder f_cookie] in *.
  by destruct Ho as [-> | ->].
Qed.

(** C32: an object that a process sends to another, and that comes back from there,
    is the object that was sent: the same pointer, cookie, type and flags.  (Both
    processes are open, there is memory for a node and a reference, and the
    cookie is the one the process gave when it first sent the object.) *)
Theorem object_roundtrip (k : kstate) (p q thread : Z) (o : flat)
    (HR : refs_ok k) (Hh : heap_ok k) (Hs : small k) (Hp : is_Some (k_procs k !! p)) (Hq : is_Some (k_procs k !! q))
    (Hl : is_Some (k_lists k !! LThreadTodo thread)) (Hc : cookies_agree k p o) (Hroom : room 2 k) (Ho : is_binder o) :
  ∃ o' k1 k2, translate_binder p thread q o k = Ret (inl o') k1 ∧ f_type o' = handle_type (f_type o) ∧
    translate_handle q p o' k1 = Ret (inl o) k2.
Proof.
  destruct Hp as [x Ex], Hq as [y Ey].
  destruct (wp_elim _ _ _ (translate_binder_ok k p q x y thread o HR Hh Hs Ex Ey Hl Hc Hroom))
    as (r & k1 & E1 & n & o' & -> & HR1 & Hg & Hn & Hh').
  destruct (g_procs _ _ Hg q ltac:(eauto)) as [y1 Ey1].
  destruct (wp_elim _ _ _ (translate_handle_back k1 p q n y1 o o' HR1 Ey1 Ho Hn Hh')) as (r & k2 & E2 & ->).
  exists o', k1, k2. split_and!; [done|apply Hh'|done].
Qed.
End objects.

(** Process 1000 sends process 2000 an object it has not sent before. *)
Lemma object_roundtrip_witness :
  ∃ o' k1 k2, translate_binder 1000 1001 2000 (Flat BINDER_TYPE_BINDER 383 7 8) demo = Ret (inl o') k1 ∧
    f_type o' = BINDER_TYPE_HANDLE ∧ translate_handle 2000 1000 o' k1 = Ret (inl (Flat BINDER_TYPE_BINDER 383 7 8)) k2.
Proof.
  destruct (object_roundtrip demo 1000 2000 1001 (Flat BINDER_TYPE_BINDER 383 7 8)) as (o' & k1 & k2 & E1 & Et & E2);
    [apply demo_refs_ok|apply demo_heap_ok|apply demo_small|by eexists|by eexists|by eexists| | |by left|].
  - intros n nd [_ ->]%demo_node_inv _. vm_compute. done.
  - intros [|[|i]] Hi; [by eexists|by eexists|lia].
  - exists o', k1, k2. split; [exact E1|]. split; [rewrite Et; reflexivity|exact E2].
Defined.
