(* ===== verification/BinderUser.v ===== *)
(** * What passes between the driver and user memory

    Copies to and from the caller's memory, and the encoding of the words and
    structures that are copied. *)

From Stdlib Require Import ZArith Lia.
From stdpp Require Import base tactics list sets gmap.
From S2P Require Import Prelude Rbtree BinderAlloc BinderState BinderRefs BinderFds BinderTxn BinderRules.

Definition is_byte (b : Z) : Prop := 0 ≤ b < 2 ^ 8.
Definition is_word (w : Z) : Prop := 0 ≤ w < 2 ^ 32.

Lemma word_bytes_spec w : is_word w → word (w mod 2 ^ 8) (w / 2 ^ 8 mod 2 ^ 8) (w / 2 ^ 16 mod 2 ^ 8) (w / 2 ^ 24 mod 2 ^ 8) = w.
Proof. unfold is_word, word. intros. Z.to_euclidean_division_equations; lia. Qed.

Lemma words_of_bytes l : Forall is_word l → words_of (concat (word_bytes <$> l)) = l.
Proof.
  induction 1 as [|w l Hw _ IH]; [done|]. cbn [fmap list_fmap concat word_bytes app words_of].
  rewrite word_bytes_spec by done. by f_equal.
Qed.

Lemma concat_word_bytes_length l : length (concat (word_bytes <$> l)) = (4 * length l)%nat.
Proof. induction l as [|w l IH]; [done|]. cbn [fmap list_fmap concat]. rewrite length_app, IH. simpl. lia. Qed.

(** Bytes written are read back, and nothing else has changed. *)
Lemma store_bytes_other mem addr l mem' fault a :
  store_bytes mem addr l = (mem', fault) → (∀ i, (i < length l)%nat → a ≠ u32 (addr + Z.of_nat i)) → mem' !! a = mem !! a.
Proof.
  revert mem addr. induction l as [|b l IH]; simpl; intros mem addr E Ha; [congruence|].
  destruct (mem !! u32 addr) eqn:Em; [|congruence].
  rewrite (IH _ _ E).
  - apply lookup_insert_ne. intros Heq. apply (Ha 0%nat); [lia|]. rewrite Z.add_0_r. congruence.
  - intros i Hi. replace (addr + 1 + Z.of_nat i) with (addr + Z.of_nat (S i)) by lia. apply Ha. lia.
Qed.

Lemma u32_inj_near a i j : 0 ≤ i < 2 ^ 32 → 0 ≤ j < 2 ^ 32 → u32 (a + i) = u32 (a + j) → i = j.
Proof. unfold u32. intros. Z.to_euclidean_division_equations; lia. Qed.

Lemma store_bytes_read mem addr l mem' :
  store_bytes mem addr l = (mem', false) → Z.of_nat (length l) ≤ 2 ^ 32 → user_bytes mem' addr (length l) = Some l.
Proof.
  revert mem addr. induction l as [|b l IH]; cbn [store_bytes length user_bytes]; intros mem addr E Hl; [done|].
  destruct (mem !! u32 addr) eqn:Em; [|congruence].
  rewrite (store_bytes_other _ _ _ _ _ (u32 addr) E), lookup_insert_eq.
  - simpl. rewrite (IH _ _ E) by lia. done.
  - intros i Hi Heq. rewrite <-(Z.add_0_r addr) in Heq at 1.
    replace (addr + 1 + Z.of_nat i) with (addr + Z.of_nat (S i)) in Heq by lia.
    apply u32_inj_near in Heq; lia.
Qed.

Lemma store_bytes_mapped mem addr l :
  (∀ i, (i < length l)%nat → is_Some (mem !! u32 (addr + Z.of_nat i))) → ∃ mem', store_bytes mem addr l = (mem', false).
Proof.
  revert mem addr. induction l as [|b l IH]; simpl; intros mem addr Hm; [by exists mem|].
  destruct (Hm 0%nat) as [c Hc]; [lia|]. rewrite Z.add_0_r in Hc. rewrite Hc. apply IH.
  intros i Hi. rewrite lookup_insert_is_Some. destruct (decide (u32 addr = u32 (addr + 1 + Z.of_nat i))); [by left|right].
  split; [done|]. replace (addr + 1 + Z.of_nat i) with (addr + Z.of_nat (S i)) by lia. apply Hm. lia.
Qed.

(** [m'] is [m] with the bytes [l] at [addr]. *)
Definition wrote (m m' : gmap Z Z) (addr : Z) (l : list Z) : Prop :=
  user_bytes m' addr (length l) = Some l ∧
  ∀ a, (∀ i, (i < length l)%nat → a ≠ u32 (addr + Z.of_nat i)) → m' !! a = m !! a.

Lemma user_bytes_ext m m' addr n :
  (∀ i, (i < n)%nat → m' !! u32 (addr + Z.of_nat i) = m !! u32 (addr + Z.of_nat i)) →
  user_bytes m' addr n = user_bytes m addr n.
Proof.
  revert addr. induction n as [|n IH]; intros addr Ha; [done|]. simpl.
  pose proof (Ha 0%nat ltac:(lia)) as Ha0. rewrite Z.add_0_r in Ha0. rewrite Ha0, (IH (addr + 1)); [done|].
  intros i Hi. replace (addr + 1 + Z.of_nat i) with (addr + Z.of_nat (S i)) by lia. apply Ha. lia.
Qed.
Lemma user_bytes_app m addr n1 n2 :
  user_bytes m addr (n1 + n2) = (l1 ← user_bytes m addr n1; l2 ← user_bytes m (addr + Z.of_nat n1) n2; Some (l1 ++ l2)).
Proof.
  revert addr. induction n1 as [|n1 IH]; intros addr; simpl.
  - rewrite Z.add_0_r. by destruct (user_bytes m addr n2).
  - destruct (m !! u32 addr) as [b|]; [|done]. simpl. rewrite IH.
    replace (addr + 1 + Z.of_nat n1) with (addr + Z.of_nat (S n1)) by lia.
    destruct (user_bytes m (addr + 1) n1); [|done]. simpl. by destruct (user_bytes m _ n2).
Qed.
Lemma wrote_nil m addr : wrote m m addr [].
Proof. split; [done|]. done. Qed.
Lemma wrote_app m0 m1 m2 addr l1 l2 :
  wrote m0 m1 addr l1 → wrote m1 m2 (addr + Z.of_nat (length l1)) l2 → Z.of_nat (length (l1 ++ l2)) ≤ 2 ^ 32 →
  wrote m0 m2 addr (l1 ++ l2).
Proof.
  rewrite length_app. intros [E1 H1] [E2 H2] Hl. split.
  - rewrite length_app, user_bytes_app, (user_bytes_ext m1 m2 addr), E1, E2; [done|].
    intros i Hi. apply H2. intros j Hj Heq. rewrite <-Z.add_assoc in Heq. apply u32_inj_near in Heq; lia.
  - intros a Ha. rewrite H2, H1; [done| |].
    + intros i Hi. apply Ha. rewrite length_app. lia.
    + intros i Hi. replace (addr + Z.of_nat (length l1) + Z.of_nat i) with (addr + Z.of_nat (length l1 + i)) by lia.
      apply Ha. rewrite length_app. lia.
Qed.

Section user.

(** [n] bytes from [addr] on are the caller's to write. *)
Definition writable (k : kstate) (addr : Z) (n : nat) : Prop :=
  ∀ i, (i < n)%nat → is_Some (k_user k !! u32 (addr + Z.of_nat i)).

Lemma copy_to_user_ok k addr l :
  writable k addr (length l) → Z.of_nat (length l) ≤ 2 ^ 32 →
  ∃ mem, copy_to_user addr l k = Ret false (set_k_user mem k) ∧ wrote (k_user k) mem addr l.
Proof.
  intros Hw Hl. destruct (store_bytes_mapped (k_user k) addr l Hw) as [mem Em]. exists mem. split; [|split].
  - unfold copy_to_user. rewrite bind_getst, Em. done.
  - by eapply store_bytes_read.
  - intros a Ha. by eapply store_bytes_other.
Qed.

Lemma wrote_writable k mem addr l addr' n :
  wrote (k_user k) mem addr l → writable k addr' n → writable (set_k_user mem k) addr' n.
Proof.
  intros [E Ho] Hw i Hi. proj. specialize (Hw i Hi). set (a := u32 _) in *. clearbody a. clear Hi i.
  assert ((∀ j, (j < length l)%nat → a ≠ u32 (addr + Z.of_nat j)) ∨ is_Some (mem !! a)) as [Ha|]; [|by rewrite Ho|done].
  clear Ho Hw. revert addr E. induction l as [|b l IH]; intros addr E; [left; simpl; lia|].
  simpl in E. destruct (mem !! u32 addr) eqn:Em; [|done]. simpl in E.
  destruct (user_bytes mem (addr + 1) (length l)) eqn:El; [|done]. simpl in E. injection E as -> ->.
  destruct (decide (a = u32 addr)) as [->|Hne]; [right; eauto|].
  destruct (IH (addr + 1) El) as [Hn|]; [left|by right]. intros [|j] Hj; [by rewrite Z.add_0_r|].
  replace (addr + Z.of_nat (S j)) with (addr + 1 + Z.of_nat j) by lia. apply Hn. simpl in Hj. lia.
Qed.
Lemma writable_sub k addr n d m : writable k addr n → (d + m ≤ n)%nat → writable k (addr + Z.of_nat d) m.
Proof. intros Hw Hd i Hi. rewrite <-Z.add_assoc, <-Nat2Z.inj_add. apply Hw. lia. Qed.

(** What the driver writes, the driver reads: words, *)
Lemma put_get_user k addr v :
  writable k addr 4 → is_word v →
  ∃ mem, put_user v addr k = Ret false (set_k_user mem k) ∧ get_user addr (set_k_user mem k) = Ret (Some v) (set_k_user mem k).
Proof.
  intros Hw Hv. destruct (copy_to_user_ok k addr (word_bytes v)) as (mem & E & Hr & _); [done|simpl; lia|].
  exists mem. split; [done|]. unfold get_user, copy_from_user. rewrite bind_gets. proj.
  change (Z.to_nat 4) with (length (word_bytes v)). rewrite Hr. unfold word_bytes. cbn [words_of head].
  by rewrite word_bytes_spec.
Qed.

(** and sequences of words. *)
Lemma copy_words k addr ws :
  writable k addr (4 * length ws) → Forall is_word ws → Z.of_nat (4 * length ws) ≤ 2 ^ 32 →
  ∃ mem, copy_to_user addr (concat (word_bytes <$> ws)) k = Ret false (set_k_user mem k) ∧
    copy_from_user addr (Z.of_nat (4 * length ws)) (set_k_user mem k) =
      Ret (Some (concat (word_bytes <$> ws))) (set_k_user mem k) ∧
    words_of (concat (word_bytes <$> ws)) = ws.
Proof.
  intros Hw Hws Hl. destruct (copy_to_user_ok k addr (concat (word_bytes <$> ws))) as (mem & E & Hr & _).
  - by rewrite concat_word_bytes_length.
  - by rewrite concat_word_bytes_length.
  - exists mem. split; [done|]. rewrite concat_word_bytes_length in Hr. split; [|by apply words_of_bytes].
    unfold copy_from_user, gets. proj. by rewrite Nat2Z.id, Hr.
Qed.
End user.

(** ** The objects in a buffer *)

Lemma IS_ALIGNED4 x : 0 ≤ x → IS_ALIGNED x 4 = bool_decide (x mod 4 = 0).
Proof.
  intros. unfold IS_ALIGNED. apply bool_decide_ext. change (4 - 1) with (Z.ones 2).
  rewrite Z.land_ones by lia. done.
Qed.

(** The test on an offset, with the subtraction of unsigned numbers in it, is what
    it is meant to be: the object lies in the data, and is aligned. *)
Lemma bad_offset_false off size :
  0 ≤ off < 2 ^ 32 → 0 ≤ size < 2 ^ 32 → bad_offset off size = false ↔ off + FLAT_SIZE ≤ size ∧ off mod 4 = 0.
Proof.
  intros Ho Hs. unfold bad_offset, FLAT_SIZE, PTR_SIZE. rewrite IS_ALIGNED4 by lia.
  rewrite !orb_false_iff, negb_false_iff, !bool_decide_eq_false, bool_decide_eq_true.
  unfold u32. destruct (decide (16 ≤ size)).
  - rewrite Z.mod_small by lia. lia.
  - lia.
Qed.

Lemma take_drop_put_bytes data off l :
  0 ≤ off → (Z.to_nat off + length l ≤ length data)%nat →
  take (length l) (drop (Z.to_nat off) (put_bytes data off l)) = l.
Proof.
  intros H0 Hl. unfold put_bytes. rewrite drop_app_length' by (rewrite length_take; lia).
  by rewrite take_app_length.
Qed.
Lemma put_bytes_length data off l :
  (Z.to_nat off + length l ≤ length data)%nat → length (put_bytes data off l) = length data.
Proof. intros Hl. unfold put_bytes. rewrite !length_app, length_take, length_drop. lia. Qed.
Lemma lookup_put_bytes_other data off l i :
  (Z.to_nat off + length l ≤ length data)%nat → (i < Z.to_nat off ∨ Z.to_nat off + length l ≤ i)%nat →
  put_bytes data off l !! i = data !! i.
Proof.
  intros Hl [Hi|Hi]; unfold put_bytes.
  - rewrite lookup_app_l by (rewrite length_take; lia). by rewrite lookup_take_lt by lia.
  - rewrite lookup_app_r by (rewrite length_take; lia). rewrite length_take.
    rewrite lookup_app_r by lia. rewrite lookup_drop. f_equal. lia.
Qed.

Definition flat_words (o : flat) : Prop := is_word (f_type o) ∧ is_word (f_flags o) ∧ is_word (f_binder o) ∧ is_word (f_cookie o).

Lemma flat_at_put o off data :
  flat_words o → 0 ≤ off → (Z.to_nat off + 16 ≤ length data)%nat → flat_at (put_flat off o data) off = Some o.
Proof.
  intros (? & ? & ? & ?) Hp Hl. unfold flat_at, put_flat. set (l := word_bytes (f_type o) ++ _).
  change 16%nat with (length l). rewrite take_drop_put_bytes by (done || simpl; lia).
  unfold l, word_bytes. cbn [app words_of]. rewrite !word_bytes_spec by done. by destruct o.
Qed.
Lemma flat_at_put_other o off off' data :
  0 ≤ off → 0 ≤ off' → (Z.to_nat off + 16 ≤ length data)%nat → off' + 16 ≤ off ∨ off + 16 ≤ off' →
  flat_at (put_flat off o data) off' = flat_at data off'.
Proof.
  intros Hp Hp' Hl Hd. unfold flat_at, put_flat. set (l := word_bytes (f_type o) ++ _).
  assert (length l = 16%nat) as El by done.
  assert (take 16 (drop (Z.to_nat off') (put_bytes data off l)) = take 16 (drop (Z.to_nat off') data)) as ->; [|done].
  apply list_eq. intros i.
  destruct (decide (i < 16)%nat); [|by rewrite !lookup_take_ge by lia].
  rewrite !lookup_take_lt, !lookup_drop by lia. apply lookup_put_bytes_other; rewrite El; lia.
Qed.

(** The check of an offset before the object at it is looked at accepts
    exactly the aligned offsets at which a whole object lies in the data, and an
    object written back there is read again as written, with the objects that do
    not overlap it and the size of the buffer unchanged. *)
Theorem flat_object_spec (data : list Z) (off : Z) (o : flat)
    (Hoff : 0 ≤ off < 2 ^ 32) (Hsize : Z.of_nat (length data) < 2 ^ 32) (Ho : flat_words o) :
  (bad_offset off (Z.of_nat (length data)) = false ↔ off + FLAT_SIZE ≤ Z.of_nat (length data) ∧ off mod 4 = 0) ∧
  (bad_offset off (Z.of_nat (length data)) = false →
   flat_at (put_flat off o data) off = Some o ∧ length (put_flat off o data) = length data ∧
   ∀ off', 0 ≤ off' → off' + FLAT_SIZE ≤ off ∨ off + FLAT_SIZE ≤ off' →
     flat_at (put_flat off o data) off' = flat_at data off').
Proof.
  pose proof (bad_offset_false off (Z.of_nat (length data)) Hoff ltac:(lia)) as Hb. split; [exact Hb|].
  intros [Hin _]%Hb. unfold FLAT_SIZE in *. split_and!.
  - apply flat_at_put; [done|lia|lia].
  - apply put_bytes_length. simpl. lia.
  - intros off' Hp Hd. apply flat_at_put_other; lia.
Qed.

(** What the driver hands a thread as [struct binder_transaction_data] is read
    back, field by field, when the thread passes the same bytes to a command. *)
Theorem txn_data_roundtrip (k : kstate) (addr : Z) (t : txn_data)
    (Hw : writable k addr 40) (Ht : Forall is_word (txn_data_words t)) :
  ∃ k', copy_to_user addr (concat (word_bytes <$> txn_data_words t)) k = Ret false k' ∧
    ∃ l, copy_from_user addr TR_SIZE k' = Ret (Some l) k' ∧ txn_data_of_words (words_of l) = Some t.
Proof.
  destruct (copy_words k addr (txn_data_words t) Hw Ht) as (mem & E1 & E2 & E3); [simpl; lia|].
  exists (set_k_user mem k). split; [done|]. eexists. split; [exact E2|]. rewrite E3. by destruct t.
Qed.

Module UserDemo.
Lemma flat_object_spec_witness :
  flat_at (put_flat 4 (Flat BINDER_TYPE_FD 1 2 3) (replicate 20 0)) 4 = Some (Flat BINDER_TYPE_FD 1 2 3).
Proof.
  apply (flat_object_spec (replicate 20 0) 4 (Flat BINDER_TYPE_FD 1 2 3));
    [lia|by vm_compute|repeat split; by vm_compute|by vm_compute].
Defined.

Definition user_page : gmap Z Z := list_to_map ((λ i, (Z.of_nat i, 0)) <$> seq 0 64).
Definition user_state : kstate := KState ∅ ∅ ∅ ∅ ∅ ∅ ∅ ∅ [] [] [] None (-1) 0 ∅ [] [] user_page (MmEnv true (λ _, PageOk))
  (Caller 1 1 0 1) 0 0.
Lemma user_state_writable : writable user_state 8 40.
Proof.
  intros i Hi. assert (i ∈ seq 0 40) as Hin by (apply elem_of_seq; lia). revert i Hi Hin.
  cut (Forall (λ i, is_Some (k_user user_state !! u32 (8 + Z.of_nat i))) (seq 0 40)).
  { intros Hf i _ Hin. rewrite Forall_forall in Hf. auto. }
  apply (bool_decide_unpack _). by vm_compute.
Qed.
Lemma txn_data_roundtrip_witness :
  ∃ k', copy_to_user 8 (concat (word_bytes <$> txn_data_words (TxnData 1 2 3 4 5 6 7 8 9 4294967295))) user_state = Ret false k' ∧
    ∃ l, copy_from_user 8 TR_SIZE k' = Ret (Some l) k' ∧
      txn_data_of_words (words_of l) = Some (TxnData 1 2 3 4 5 6 7 8 9 4294967295).
Proof.
  apply (txn_data_roundtrip user_state 8 (TxnData 1 2 3 4 5 6 7 8 9 4294967295) user_state_writable).
  apply (bool_decide_unpack _). by vm_compute.
Defined.
End UserDemo.
