(* ===== verification/BinderProtocol.v ===== *)
(** * The conversation between the driver and a process

    What [binder_thread_read] tells the process that serves a node, and how
    [binder_thread_write] works through a buffer of commands. *)

From Stdlib Require Import ZArith Lia.
From stdpp Require Import base tactics list sets gmap.
From S2P Require Import Prelude Rbtree BinderAlloc BinderState BinderRefs BinderFds BinderTxn BinderWrite BinderRead.
From S2P Require Import BinderRules BinderRefsInv BinderRefsOps BinderDemo BinderUser.

(** ** A node and its process *)

Definition node_strong (nd : node) : bool :=
  bool_decide (n_internal_strong_refs nd ≠ 0) || bool_decide (n_local_strong_refs nd ≠ 0).
Definition node_weak (nd : node) : bool :=
  bool_decide (n_refs nd ≠ []) || bool_decide (n_local_weak_refs nd ≠ 0) || node_strong nd.

(** The commands the process hears while the node stays on its list. *)
Fixpoint node_commands (fuel : nat) (nd : node) : list Z * node :=
  match fuel with
  | O => ([], nd)
  | S fuel =>
      let '(cmd, nd') := node_command nd in
      if decide (cmd = BR_NOOP) then ([], nd)
      else let '(cmds, nd'') := node_commands fuel nd' in (cmd :: cmds, nd'')
  end.

(** The process's idea of the node before and after. *)
Definition news (nd : node) : list Z :=
  (if node_weak nd && negb (n_has_weak_ref nd) then [BR_INCREFS] else []) ++
  (if node_strong nd && negb (n_has_strong_ref nd) then [BR_ACQUIRE] else []) ++
  (if negb (node_strong nd) && n_has_strong_ref nd then [BR_RELEASE] else []) ++
  (if negb (node_weak nd) && n_has_weak_ref nd then [BR_DECREFS] else []).

(** The driver's own counts have room for what the process is told. *)
Definition counts_fit (nd : node) : Prop :=
  (n_has_weak_ref nd = false → 0 ≤ n_local_weak_refs nd < 2 ^ 31 - 1) ∧
  (n_has_strong_ref nd = false → 0 ≤ n_local_strong_refs nd < 2 ^ 31 - 1).

Lemma s32_succ_ne x : 0 ≤ x < 2 ^ 31 - 1 → bool_decide (s32 (x + 1) ≠ 0) = true.
Proof. intros. apply bool_decide_eq_true. rewrite s32_small by lia. lia. Qed.

(** One turn: what is told, or nothing is left to tell. *)
Lemma node_command_news nd cmd nd' :
  counts_fit nd → node_command nd = (cmd, nd') →
  n_ptr nd' = n_ptr nd ∧ n_cookie nd' = n_cookie nd ∧
  match news nd with
  | [] => cmd = BR_NOOP ∧ nd' = nd
  | c :: cs => cmd = c ∧ news nd' = cs ∧ counts_fit nd'
  end.
Proof.
  destruct nd as [id p refs i lw ls ptr ck hs ps hw pw ha af mp]. unfold counts_fit, node_command, news, node_weak, node_strong.
  cbn [n_internal_strong_refs n_local_strong_refs n_local_weak_refs n_refs n_has_weak_ref n_has_strong_ref].
  intros [Hw Hs].
  destruct hw, hs; try (specialize (Hw eq_refl); pose proof (s32_succ_ne lw Hw) as Hlw);
    try (specialize (Hs eq_refl); pose proof (s32_succ_ne ls Hs) as Hls);
    destruct (bool_decide (i ≠ 0)) eqn:Ei, (bool_decide (ls ≠ 0)) eqn:Els, (bool_decide (refs ≠ [])) eqn:Er,
      (bool_decide (lw ≠ 0)) eqn:Elw; cbn [orb andb negb app]; intros [= <- <-]; proj;
    cbn [n_internal_strong_refs n_local_strong_refs n_local_weak_refs n_refs n_has_weak_ref n_has_strong_ref];
    rewrite ?Ei, ?Els, ?Er, ?Elw, ?Hlw, ?Hls; cbn [orb andb negb app]; split_and!;
    first [done | intros; discriminate | intros; lia | intros; apply bool_decide_eq_false in Els; lia | intros; apply bool_decide_eq_false in Elw; lia].
Qed.

Lemma news_length nd : (length (news nd) ≤ 2)%nat.
Proof.
  unfold news, node_weak. destruct (node_strong nd).
  - rewrite orb_true_r. destruct (n_has_weak_ref nd), (n_has_strong_ref nd); simpl; lia.
  - rewrite orb_false_r. destruct (bool_decide _ || bool_decide _), (n_has_weak_ref nd), (n_has_strong_ref nd); simpl; lia.
Qed.
Lemma news_noop nd : BR_NOOP ∉ news nd.
Proof.
  unfold news. repeat case_match; rewrite ?app_nil_r; cbn [app]; rewrite ?elem_of_cons, ?elem_of_nil; naive_solver discriminate.
Qed.

Lemma node_commands_news fuel nd :
  counts_fit nd → (length (news nd) ≤ fuel)%nat →
  ∃ nd', node_commands (S fuel) nd = (news nd, nd') ∧ news nd' = [].
Proof.
  revert nd. induction fuel as [|fuel IH]; intros nd Hc Hl.
  - cbn [node_commands]. destruct (node_command nd) as [cmd nd'] eqn:E.
    destruct (node_command_news nd cmd nd' Hc E) as (_ & _ & Hn).
    destruct (news nd) as [|c cs] eqn:En; [|simpl in Hl; lia]. destruct Hn as [-> ->].
    rewrite decide_True by done. by exists nd.
  - remember (S fuel) as f. cbn [node_commands]. destruct (node_command nd) as [cmd nd'] eqn:E.
    destruct (node_command_news nd cmd nd' Hc E) as (_ & _ & Hn).
    pose proof (news_noop nd) as Hnoop. destruct (news nd) as [|c cs] eqn:En.
    + destruct Hn as [-> ->]. rewrite decide_True by done. by exists nd.
    + destruct Hn as (-> & Hn & Hc'). rewrite decide_False by set_solver. simpl in Hl. subst f.
      destruct (IH nd' Hc') as (nd'' & -> & ?); [rewrite Hn; lia|]. rewrite Hn. by exists nd''.
Qed.

Lemma news_nil_noop nd : news nd = [] → node_command nd = (BR_NOOP, nd) ∧
  n_has_weak_ref nd = node_weak nd ∧ n_has_strong_ref nd = node_strong nd.
Proof.
  unfold news, node_command. fold (node_strong nd). fold (node_weak nd).
  assert (node_strong nd = true → node_weak nd = true) as Himp by (unfold node_weak; intros ->; apply orb_true_r).
  destruct (node_weak nd), (n_has_weak_ref nd), (node_strong nd), (n_has_strong_ref nd); simpl; try discriminate;
    try (specialize (Himp eq_refl); discriminate); by intros _.
Qed.

Section tell.
Context `{KernelEnv}.

Lemma out_ok k v ptr (f : Z → K read_result) (Q : read_result → kstate → Prop) :
  writable k ptr 4 →
  (∀ mem, wrote (k_user k) mem ptr (word_bytes v) → wp (f (ptr + 4)) Q (set_k_user mem k)) →
  wp (out v ptr f) Q k.
Proof.
  intros Hw Hf. destruct (copy_to_user_ok k ptr (word_bytes v) Hw) as (mem & E & Hm); [simpl; lia|].
  unfold out. apply wp_bind. eapply wp_det; [exact E|]. by apply Hf.
Qed.

(** A command with its two words. *)
Definition told (nd : node) (cmd : Z) : list Z := word_bytes cmd ++ word_bytes (n_ptr nd) ++ word_bytes (n_cookie nd).

Lemma read_node_told k proc n ptr nd cmd nd' :
  k_nodes k !! n = Some nd → node_command nd = (cmd, nd') → cmd ≠ BR_NOOP → writable k ptr 12 →
  wp (read_node proc n ptr) (λ r k', r = ReadOn (ptr + 12) ∧
    ∃ mem, wrote (k_user k) mem ptr (told nd cmd) ∧
      k' = set_k_user mem (set_k_nodes (<[n := nd']> (k_nodes k)) k)) k.
Proof.
  intros E Ec Hne Hw. unfold read_node. kstep. kstep. rewrite Ec. kstep. kstep. rewrite decide_True by done.
  apply out_ok; [apply (writable_sub k ptr 12 0 4) in Hw; [by rewrite Z.add_0_r in Hw|lia]|].
  intros mem1 H1. apply out_ok.
  { apply (wrote_writable _ _ ptr (word_bytes cmd)); [done|]. by apply (writable_sub k ptr 12 4 4); [|lia]. }
  intros mem2 H2. apply out_ok.
  { apply (wrote_writable (set_k_user mem1 k) _ (ptr + 4) (word_bytes (n_ptr nd))); [done|].
    apply (wrote_writable _ _ ptr (word_bytes cmd)); [done|].
    replace (ptr + 4 + 4) with (ptr + Z.of_nat 8) by lia. by apply (writable_sub k ptr 12 8 4); [|lia]. }
  intros mem3 H3. kstep. split; [f_equal; lia|]. exists mem3. split; [|done].
  eapply wrote_app; [exact H1| |simpl; lia]. eapply wrote_app; [exact H2|exact H3|simpl; lia].
Qed.

(** Nothing left to tell: the node leaves the list, and is freed if nothing needs it. *)
Lemma read_node_quiet k proc p n ptr nd :
  k_nodes k !! n = Some nd → news nd = [] → k_procs k !! proc = Some p →
  wp (read_node proc n ptr) (λ r k', r = ReadOn ptr ∧ k_user k' = k_user k ∧ k_threads k' = k_threads k ∧
    (∀ th, k_lists k' !! LThreadTodo th = filter (λ x, x ≠ WNode n) <$> k_lists k !! LThreadTodo th) ∧
    (∀ q, is_Some (k_lists k !! LProcTodo q) → is_Some (k_lists k' !! LProcTodo q)) ∧
    k_nodes k' = (if node_in_use nd then k_nodes k else delete n (k_nodes k))) k.
Proof.
  intros E Hn Ep. unfold read_node. kstep. kstep. destruct (news_nil_noop nd Hn) as [-> _].
  kstep. kstep. rewrite decide_False by tauto. ksteps. rewrite insert_id by done.
  apply wp_when; intros Hu; unfold free_node.
  - apply negb_true_iff in Hu. rewrite Hu. ksteps. split_and!; try done.
    + intros th. proj. by rewrite lookup_delete_ne, lookup_fmap.
    + intros q Hq. proj. rewrite lookup_delete_ne by done. by rewrite lookup_fmap, fmap_is_Some.
  - apply negb_false_iff in Hu. rewrite Hu. ksteps. split_and!; try done.
    + intros th. proj. by rewrite lookup_fmap.
    + intros q Hq. proj. by rewrite lookup_fmap, fmap_is_Some.
Qed.

Lemma told_length nd cmd : length (told nd cmd) = 12%nat.
Proof. done. Qed.
Lemma concat_told_length nd cs : length (concat (told nd <$> cs)) = (12 * length cs)%nat.
Proof. induction cs as [|c cs IH]; [done|]. cbn [fmap list_fmap concat]. rewrite length_app, IH, told_length. simpl. lia. Qed.

(** A turn of the loop, and its end. *)
Lemma wp_read_work_turn f k proc thread buffer end_ ptr fp w ws (Q : read_result → kstate → Prop) :
  k_lists k !! LThreadTodo thread = Some (w :: ws) → TR_SIZE + 4 ≤ u32 (end_ - ptr) →
  wp (read_one proc thread ptr w) (λ r k',
    match r with ReadOn ptr' => wp (read_work f proc thread buffer end_ ptr' fp) Q k' | r => Q r k' end) k →
  wp (read_work (S f) proc thread buffer end_ ptr fp) Q k.
Proof.
  intros El Hroom Hone. cbn [read_work]. unfold next_work. ksteps.
  rewrite decide_False by lia. kstep. eapply wp_mono; [exact Hone|]. intros [] k' Hr; [exact Hr|by kstep..].
Qed.
Lemma wp_read_work_end f k proc thread x buffer end_ ptr (Q : read_result → kstate → Prop) :
  k_lists k !! LThreadTodo thread = Some [] → is_Some (k_lists k !! LProcTodo proc) → k_threads k !! thread = Some x →
  (∀ r, r = ReadOn ptr ∨ r = ReadDone ptr → Q r k) →
  wp (read_work (S f) proc thread buffer end_ ptr false) Q k.
Proof.
  intros El [ws Els] Ex HQ. cbn [read_work]. unfold next_work. ksteps.
  apply HQ. case_match; auto.
Qed.

(** The loop when the node is all there is to do. *)
Lemma read_work_tells cs f k proc p thread x n nd buffer end_ ptr :
  news nd = cs → counts_fit nd → k_nodes k !! n = Some nd → k_procs k !! proc = Some p →
  k_threads k !! thread = Some x → k_lists k !! LThreadTodo thread = Some [WNode n] →
  is_Some (k_lists k !! LProcTodo proc) → 0 ≤ ptr → ptr + 12 * Z.of_nat (length cs) + 44 ≤ end_ < 2 ^ 32 →
  writable k ptr (12 * length cs) →
  wp (read_work (S (S (length cs + f))) proc thread buffer end_ ptr false) (λ r k',
    let ptr' := ptr + 12 * Z.of_nat (length cs) in
    (r = ReadOn ptr' ∨ r = ReadDone ptr') ∧ wrote (k_user k) (k_user k') ptr (concat (told nd <$> cs)) ∧
    k_lists k' !! LThreadTodo thread = Some [] ∧
    ∀ nd', k_nodes k' !! n = Some nd' → n_has_weak_ref nd' = node_weak nd' ∧ n_has_strong_ref nd' = node_strong nd') k.
Proof.
  revert k nd ptr. induction cs as [|c cs IH]; intros k nd ptr Hn Hc E Ep Ex El [ws Els] H0 Hend Hw.
  - eapply wp_read_work_turn; [exact El|rewrite u32_small; unfold TR_SIZE; simpl in *; lia|]. cbn [read_one].
    eapply wp_mono; [by eapply read_node_quiet|]. intros r k' (-> & Eu & Et & Elk & Elp & En).
    specialize (Elk thread). rewrite El in Elk. cbn [fmap option_fmap option_map] in Elk.
    rewrite filter_cons, decide_False, filter_nil in Elk by tauto.
    rewrite <-Et in Ex. eapply wp_read_work_end; [exact Elk|apply Elp; by exists ws|exact Ex|].
    simpl. rewrite Z.add_0_r. intros r Hr. split; [done|].
    split; [rewrite Eu; apply wrote_nil|]. split; [exact Elk|].
    intros nd' End. destruct (news_nil_noop nd Hn) as (_ & Hww & Hss).
    assert (nd' = nd) as ->; [|done]. rewrite En in End. destruct (node_in_use nd); [congruence|].
    rewrite lookup_delete_eq in End. done.
  - cbn [length] in *. eapply wp_read_work_turn; [exact El|rewrite u32_small; unfold TR_SIZE; lia|]. cbn [read_one].
    destruct (node_command nd) as [cmd nd'] eqn:Ec.
    destruct (node_command_news nd cmd nd' Hc Ec) as (Hptr & Hck & Hnews). rewrite Hn in Hnews.
    destruct Hnews as (-> & Hn' & Hc'). pose proof (news_noop nd) as Hnoop. rewrite Hn in Hnoop.
    eapply wp_mono.
    { eapply read_node_told; [done|exact Ec|set_solver|]. apply (writable_sub k ptr _ 0 12) in Hw; [by rewrite Z.add_0_r in Hw|lia]. }
    intros r k' (-> & mem & Hm & ->). eapply wp_mono.
    { apply (IH _ nd'); proj; try done; [by rewrite lookup_insert_eq|lia|lia|].
      apply (wrote_writable (set_k_nodes (<[n:=nd']> (k_nodes k)) k) mem ptr (told nd c)); [done|].
      apply (writable_sub k ptr (12 * S (length cs)) 12); [done|lia]. }
    assert (told nd' = told nd) as Etold by (unfold told; by rewrite Hptr, Hck).
    cbv zeta. intros r k' (Hr & Hm' & Hl & Hnd). proj_in Hm'. rewrite Etold in Hm'.
    replace (ptr + 12 + 12 * Z.of_nat (length cs)) with (ptr + 12 * Z.of_nat (S (length cs))) in Hr by lia.
    split; [done|]. split; [|done]. cbn [fmap list_fmap concat].
    eapply wrote_app; [exact Hm|exact Hm'|]. rewrite length_app, concat_told_length, told_length. lia.
Qed.

(** C20: a process that takes up a node from a thread's list hears exactly what
    has changed since it last heard of it, in an order it can follow: that it is
    now referred to, weakly before strongly ([BR_INCREFS], [BR_ACQUIRE]), or no
    longer, strongly before weakly ([BR_RELEASE], [BR_DECREFS]), each command with
    the pointer and cookie of its object.  The node then leaves the list, and what
    the process has been told is what is so. *)
Theorem node_protocol (k : kstate) (pr th n : Z) (p : proc) (x : thread) (nd : node) (buffer end_ ptr : Z)
    (Hc : counts_fit nd) (E : k_nodes k !! n = Some nd) (Ep : k_procs k !! pr = Some p)
    (Ex : k_threads k !! th = Some x) (El : k_lists k !! LThreadTodo th = Some [WNode n])
    (Hp : is_Some (k_lists k !! LProcTodo pr)) (H0 : 0 ≤ ptr) (Hend : ptr + 12 * Z.of_nat (length (news nd)) + 44 ≤ end_ < 2 ^ 32)
    (Hw : writable k ptr (12 * length (news nd))) :
  ∃ r k', read_work 4 pr th buffer end_ ptr false k = Ret r k' ∧
    (r = ReadOn (ptr + 12 * Z.of_nat (length (news nd))) ∨ r = ReadDone (ptr + 12 * Z.of_nat (length (news nd)))) ∧
    wrote (k_user k) (k_user k') ptr (concat (told nd <$> news nd)) ∧
    k_lists k' !! LThreadTodo th = Some [] ∧
    ∀ nd', k_nodes k' !! n = Some nd' → n_has_weak_ref nd' = node_weak nd' ∧ n_has_strong_ref nd' = node_strong nd'.
Proof.
  pose proof (news_length nd) as Hl. apply wp_elim.
  replace 4%nat with (S (S (length (news nd) + (2 - length (news nd)))))%nat by lia.
  by eapply read_work_tells.
Qed.
End tell.

(** ** A buffer of commands *)

Section commands.
Context `{KernelEnv}.

(** A command never moves backwards. *)
Definition advances (ptr : Z) (m : K cmd_result) : Prop := ∀ k ptr' k', m k = Ret (inl ptr') k' → ptr ≤ ptr'.

Lemma advances_bind {A} ptr (m : K A) f : (∀ a, advances ptr (f a)) → advances ptr (bind m f).
Proof. intros Hf k ptr' k' (a & k1 & _ & E)%bind_Ret. by eapply Hf. Qed.
Lemma advances_inl ptr q : ptr ≤ q → advances ptr (ret (inl q)).
Proof. by intros Hq k ptr' k' [= <- _]. Qed.
Lemma advances_inr ptr e : advances ptr (ret (inr e)).
Proof. by intros k ptr' k' [=]. Qed.
Lemma advances_crash ptr c : advances ptr (crash_with c).
Proof. by intros k ptr' k' [=]. Qed.
Lemma advances_arg ptr q f : (∀ x, advances ptr (f x (q + 4))) → advances ptr (arg q f).
Proof. intros Hf. apply advances_bind. intros [x|]; [done|apply advances_inr]. Qed.

Ltac advance :=
  repeat match goal with
  | |- advances _ (bind _ _) => apply advances_bind; intros ?
  | |- advances _ (ret (inl _)) => apply advances_inl; unfold TR_SIZE; lia
  | |- advances _ (ret (inr _)) => apply advances_inr
  | |- advances _ (crash_with _) => apply advances_crash
  | |- advances _ (arg _ _) => apply advances_arg; intros ?
  | |- advances _ (if _ then _ else _) => case_match
  | |- advances _ (match _ with _ => _ end) => case_match
  end.

Lemma binder_command_advances proc thread cmd ptr : advances ptr (binder_command proc thread cmd ptr).
Proof.
  unfold binder_command, cmd_refs, cmd_refs_done, cmd_free_buffer, cmd_transaction, cmd_looper, cmd_death,
    cmd_dead_binder_done. cbv zeta. advance.
Qed.

(** [commands proc thread ptr k ptr' k']: the commands from [ptr] to [ptr'] were
    carried out one after the other, none while an error was pending. *)
Inductive commands (proc thread end_ : Z) : Z → kstate → Z → kstate → Prop :=
  | CommandsNil ptr k : commands proc thread end_ ptr k ptr k
  | CommandsCons ptr k x cmd ptr1 k1 ptr2 k2 :
      ptr < end_ → k_threads k !! thread = Some x → th_return_error x = BR_OK →
      get_user ptr k = Ret (Some cmd) k → binder_command proc thread cmd (ptr + 4) k = Ret (inl ptr1) k1 →
      commands proc thread end_ ptr1 k1 ptr2 k2 →
      commands proc thread end_ ptr k ptr2 k2.

(** How the call ends, at [ptr] in state [k]. *)
Definition write_ends (proc thread end_ ptr : Z) (k : kstate) (e : Z) (k' : kstate) : Prop :=
  ∃ x, k_threads k !! thread = Some x ∧
    ((k' = k ∧ e = 0 ∧ (end_ ≤ ptr ∨ th_return_error x ≠ BR_OK)) ∨
     (ptr < end_ ∧ th_return_error x = BR_OK ∧
        ((k' = k ∧ e = - EFAULT ∧ get_user ptr k = Ret None k) ∨
         ∃ cmd, get_user ptr k = Ret (Some cmd) k ∧ binder_command proc thread cmd (ptr + 4) k = Ret (inr e) k'))).

Lemma get_user_state ptr k : ∃ o, get_user ptr k = Ret o k.
Proof. unfold get_user, copy_from_user. rewrite bind_gets. by eexists. Qed.

Lemma write_loop_spec fuel proc thread buffer end_ ptr consumed k e c k' :
  write_loop fuel proc thread buffer end_ ptr consumed k = Ret (e, c) k' →
  ∃ ptr1 k1, commands proc thread end_ ptr k ptr1 k1 ∧ write_ends proc thread end_ ptr1 k1 e k' ∧
    c = (if decide (ptr1 = ptr) then consumed else s32 (ptr1 - buffer)).
Proof.
  revert ptr consumed k. induction fuel as [|fuel IH]; [done|]. intros ptr consumed k. cbn [write_loop].
  intros (x & k1 & E1 & E)%bind_Ret. unfold get_thr in E1. rewrite bind_getst in E1.
  destruct (k_threads k !! thread) as [x'|] eqn:Ex; [|done]. injection E1 as <- <-.
  case_decide as Hgo.
  2:{ injection E as <- <- <-. exists ptr, k. split; [constructor|]. rewrite decide_True by done.
      split; [|done]. exists x'. split; [done|]. left. do 2 (split; [done|]).
      destruct (decide (end_ ≤ ptr)); [by left|right]. intros Hok. apply Hgo. split; [lia|done]. }
  destruct Hgo as [Hlt Hok]. destruct (get_user_state ptr k) as [o Eo]. rewrite (bind_of _ Eo) in E.
  destruct o as [cmd|].
  2:{ injection E as <- <- <-. exists ptr, k. split; [constructor|]. rewrite decide_True by done.
      split; [|done]. exists x'. split; [done|]. right. do 2 (split; [done|]). by left. }
  apply bind_Ret in E as (r & k1 & Er & E). destruct r as [ptr1|e1].
  - destruct (IH _ _ _ E) as (ptr2 & k2 & Hc & He & ->). pose proof (binder_command_advances _ _ _ _ _ _ _ Er).
    exists ptr2, k2. split; [by eapply CommandsCons|]. split; [done|].
    assert (ptr1 ≤ ptr2) as Hle.
    { clear -Hc. induction Hc; [lia|]. pose proof (binder_command_advances _ _ _ _ _ _ _ H4). lia. }
    rewrite (decide_False (P := ptr2 = ptr)) by lia. case_decide; [by subst|done].
  - injection E as <- <- <-. exists ptr, k. split; [constructor|]. rewrite decide_True by done.
    split; [|done]. exists x'. split; [done|]. right. do 2 (split; [done|]). right. by exists cmd.
Qed.

(** More iterations than there are bytes left make no difference. *)
Lemma write_loop_fuel f1 f2 proc thread buffer end_ ptr consumed k :
  (Z.to_nat (end_ - ptr) < f1)%nat → (Z.to_nat (end_ - ptr) < f2)%nat →
  write_loop f1 proc thread buffer end_ ptr consumed k = write_loop f2 proc thread buffer end_ ptr consumed k.
Proof.
  revert f2 ptr consumed k. induction f1 as [|f1 IH]; [lia|]. intros [|f2]; [lia|]. intros ptr consumed k H1 H2.
  cbn [write_loop]. unfold bind at 1 4. destruct (get_thr thread k) as [x k1|]; [|done].
  case_decide as Hgo; [|done]. unfold bind at 1 3. destruct (get_user ptr k1) as [[cmd|] k2|]; [|done..].
  unfold bind. destruct (binder_command proc thread cmd (ptr + 4) k2) as [[ptr1|e] k3|] eqn:Er; [|done..].
  pose proof (binder_command_advances _ _ _ _ _ _ _ Er). apply IH; lia.
Qed.

(** C38: a call of [binder_thread_write] carries out the commands of the buffer one
    after the other, for as long as there are any and no error is pending; it ends
    there, with 0, or at the first command that cannot be read or fails, with that
    error.  [*consumed] then stands at the end of the last command that was
    carried out.  The iterations the model allows always suffice: with more the
    call does the same. *)
Theorem binder_thread_write_spec (proc thread buffer size consumed : Z) (k : kstate) :
  (∀ e c k', binder_thread_write proc thread buffer size consumed k = Ret (e, c) k' →
    ∃ ptr1 k1, commands proc thread (u32 (buffer + size)) (u32 (buffer + consumed)) k ptr1 k1 ∧
      write_ends proc thread (u32 (buffer + size)) ptr1 k1 e k' ∧
      c = (if decide (ptr1 = u32 (buffer + consumed)) then consumed else s32 (ptr1 - buffer))) ∧
  ∀ n, binder_thread_write proc thread buffer size consumed k =
       write_loop (S (Z.to_nat (u32 (buffer + size) - u32 (buffer + consumed))) + n) proc thread buffer
         (u32 (buffer + size)) (u32 (buffer + consumed)) consumed k.
Proof.
  split; [intros e c k'; apply write_loop_spec|]. intros n. apply write_loop_fuel; lia.
Qed.
End commands.

Module ProtocolDemo.
(** A page of user memory from address 64 on: [BC_ENTER_LOOPER], [BC_EXIT_LOOPER]
    and a command that does not exist. *)
Definition page : gmap Z Z :=
  list_to_map (imap (λ i b, (64 + Z.of_nat i, b))
    (concat (word_bytes <$> [BC_ENTER_LOOPER; BC_EXIT_LOOPER; 7]) ++ replicate 100 0)).
Definition k0 : kstate := set_k_user page demo.

Lemma binder_thread_write_spec_witness :
  ∃ k' ptr1 k1, binder_thread_write 1000 1001 64 12 0 k0 = Ret (- EINVAL, 8) k' ∧
    commands 1000 1001 76 64 k0 ptr1 k1 ∧ write_ends 1000 1001 76 ptr1 k1 (- EINVAL) k'.
Proof.
  set (r := binder_thread_write 1000 1001 64 12 0 k0).
  assert (∃ k', r = Ret (- EINVAL, 8) k') as [k' E] by (eexists; vm_compute; reflexivity).
  destruct (proj1 (binder_thread_write_spec 1000 1001 64 12 0 k0) (- EINVAL) 8 k' E) as (ptr1 & k1 & Hc & He & _).
  exists k', ptr1, k1. split; [exact E|]. split; [exact Hc|exact He].
Defined.

(** Node 3000 before its process has heard of the reference to it. *)
Definition quiet_node : node := Node 1 (Some 1000) [4000] 1 0 0 5 6 false false false false false true 0.
Definition k1 : kstate :=
  set_k_lists (<[LThreadTodo 1001 := [WNode 3000]]> (k_lists demo)) (set_k_nodes {[3000 := quiet_node]} k0).
Lemma k1_writable : writable k1 64 24.
Proof.
  intros i Hi. assert (i ∈ seq 0 24) as Hin by (apply elem_of_seq; lia). revert i Hi Hin.
  cut (Forall (λ i, is_Some (k_user k1 !! u32 (64 + Z.of_nat i))) (seq 0 24)).
  { intros Hf i _ Hin. rewrite Forall_forall in Hf. auto. }
  apply (bool_decide_unpack _). by vm_compute.
Qed.

Lemma node_protocol_witness :
  ∃ r k', read_work 4 1000 1001 64 164 64 false k1 = Ret r k' ∧
    (r = ReadOn 88 ∨ r = ReadDone 88) ∧
    wrote (k_user k1) (k_user k') 64 (concat (told quiet_node <$> [BR_INCREFS; BR_ACQUIRE])) ∧
    k_lists k' !! LThreadTodo 1001 = Some [] ∧
    ∀ nd', k_nodes k' !! 3000 = Some nd' → n_has_weak_ref nd' = node_weak nd' ∧ n_has_strong_ref nd' = node_strong nd'.
Proof.
  apply (node_protocol k1 1000 1001 3000
    (set_p_nodes (RbNode RbLeaf 3000 RbLeaf) (demo_proc 10 1001 65536 1000000)) (demo_thread 1000 10) quiet_node 64 164 64).
  - split; intros _; simpl; lia.
  - reflexivity.
  - reflexivity.
  - reflexivity.
  - reflexivity.
  - eexists. reflexivity.
  - lia.
  - vm_compute. split; [discriminate|reflexivity].
  - apply k1_writable.
Defined.
End ProtocolDemo.
