(* ===== verification/BinderReplies.v ===== *)
(** * Replies that will not come

    [binder_send_failed_reply]: when the thread that should answer a call is gone,
    the call fails for the first thread, up the chain of calls, that is still
    there to be told. *)

From Stdlib Require Import ZArith Lia.
From stdpp Require Import base tactics list sets gmap fin_map_dom.
From S2P Require Import Prelude Rbtree BinderAlloc BinderState BinderRefs BinderFds BinderTxn BinderRules.
From S2P Require Import BinderDemo.

(** ** Buffers in the state of the driver *)

(** The header of a buffer can be reached. *)
Definition buf_at (k : kstate) (b : Z * Z) (h : buffer) : Prop :=
  ∃ x, k_procs k !! fst b = Some x ∧ header_mapped (p_alloc x) (snd b) = true ∧ a_headers (p_alloc x) !! snd b = Some h.
Definition buf_alive (k : kstate) (b : Z * Z) : Prop := ∃ h, buf_at k b h.
(** The buffers of transactions can. *)
Definition buffers_alive (k : kstate) : Prop :=
  ∀ t tx b, k_txns k !! t = Some tx → t_buffer tx = Some b → buf_alive k b.

(** A change of one header. *)
Definition set_header (b : Z * Z) (h : buffer) (x : proc) (k : kstate) : kstate :=
  set_k_procs (<[fst b := set_p_alloc (set_a_headers (<[snd b := h]>) (p_alloc x)) x]> (k_procs k)) k.

Lemma wp_get_buffer b h (Q : buffer → kstate → Prop) k : buf_at k b h → Q h k → wp (get_buffer b) Q k.
Proof.
  intros (x & Ex & Hm & Eh) HQ. unfold get_buffer, in_alloc. kstep. kstep.
  unfold get_buf. rewrite bind_getst, Hm, Eh. simpl. kstep. kstep. kstep.
  replace (set_k_procs _ k) with k; [done|]. destruct k. cbn in *. rewrite insert_id; [done|]. rewrite Ex. by destruct x.
Qed.
Lemma wp_upd_buffer b f h (Q : unit → kstate → Prop) k :
  buf_at k b h → (∀ x, k_procs k !! fst b = Some x → Q tt (set_header b (f h) x k)) → wp (upd_buffer b f) Q k.
Proof.
  intros (x & Ex & Hm & Eh) HQ. unfold upd_buffer, in_alloc. kstep. kstep.
  unfold put_buf, get_buf. rewrite bind_bind, bind_getst, Hm, Eh, bind_deref. unfold modify. kstep. kstep. kstep. by apply HQ.
Qed.

Lemma buf_alive_header k b b' h x :
  k_procs k !! fst b' = Some x → buf_alive k b → buf_alive (set_header b' h x k) b.
Proof.
  intros Ex (hb & y & Ey & Hm & Eh). unfold buf_alive, buf_at, set_header. proj.
  destruct (decide (fst b = fst b')) as [Hb|].
  - rewrite Hb in *. rewrite lookup_insert_eq. assert (y = x) as -> by congruence.
    destruct (decide (snd b = snd b')) as [Hs|].
    + exists h. eexists. split; [done|]. split; [done|]. proj. simpl. rewrite Hs. apply lookup_insert_eq.
    + exists hb. eexists. split; [done|]. split; [done|]. proj. simpl. by rewrite lookup_insert_ne.
  - exists hb, y. by rewrite lookup_insert_ne.
Qed.

Section replies.
Context `{KernelEnv}.

(** ** The chain of calls *)

(** [dead_chain k t l o]: from [t] on, the calls [l] have lost their caller; [o] is
    the first one that has not, if there is one. *)
Inductive dead_chain (k : kstate) : Z → list Z → option Z → Prop :=
  | DcAlive t tx th : k_txns k !! t = Some tx → t_from tx = Some th → dead_chain k t [] (Some t)
  | DcEnd t tx : k_txns k !! t = Some tx → t_from tx = None → t_from_parent tx = None → dead_chain k t [t] None
  | DcNext t tx t' l o :
      k_txns k !! t = Some tx → t_from tx = None → t_from_parent tx = Some t' →
      dead_chain k t' l o → dead_chain k t (t :: l) o.

Lemma dead_chain_det k t l o l' o' : dead_chain k t l o → dead_chain k t l' o' → l = l' ∧ o = o'.
Proof.
  intros Hc. revert l' o'. induction Hc as [t tx th E Ef|t tx E Ef Ep|t tx t' l o E Ef Ep Hc IH]; intros l' o' Hc';
    inversion Hc'; subst; simplify_eq; try done.
  destruct (IH _ _ H3) as [-> ->]. done.
Qed.
Lemma dead_chain_suffix k t l o s : dead_chain k t l o → s ∈ l → ∃ l', dead_chain k s l' o ∧ (length l' ≤ length l)%nat.
Proof.
  induction 1 as [t tx th E Ef|t tx E Ef Ep|t tx t' l o E Ef Ep Hc IH]; [set_solver| |].
  - intros ->%list_elem_of_singleton. exists [t]. split; [by eapply DcEnd|done].
  - intros [->|Hs]%elem_of_cons; [exists (t :: l); split; [by eapply DcNext|done]|].
    destruct (IH Hs) as (l' & ? & ?). exists l'. split; [done|]. simpl. lia.
Qed.
Lemma dead_chain_NoDup k t l o : dead_chain k t l o → NoDup l.
Proof.
  induction 1 as [t tx th E Ef|t tx E Ef Ep|t tx t' l o E Ef Ep Hc IH]; [constructor|apply NoDup_singleton|].
  constructor; [|done]. intros Ht. destruct (dead_chain_suffix _ _ _ _ _ Hc Ht) as (l' & Hc' & Hl).
  assert (dead_chain k t (t :: l) o) as Hc2 by (by eapply DcNext).
  destruct (dead_chain_det _ _ _ _ _ _ Hc' Hc2) as [-> _]. simpl in Hl. lia.
Qed.
Lemma dead_chain_elem k t l o s : dead_chain k t l o → s ∈ l → ∃ tx, k_txns k !! s = Some tx ∧ t_from tx = None.
Proof. induction 1; set_solver. Qed.
Lemma dead_chain_alive k t l s : dead_chain k t l (Some s) → ∃ tx th, k_txns k !! s = Some tx ∧ t_from tx = Some th.
Proof. intros Hc. remember (Some s) as o. induction Hc; simplify_eq; eauto. Qed.
Lemma dead_chain_length k t l o : dead_chain k t l o → (length l ≤ size (k_txns k))%nat.
Proof.
  intros Hc. pose proof (dead_chain_NoDup _ _ _ _ Hc) as Hnd.
  rewrite <-size_dom, <-(size_list_to_set (C:=gset Z) l) by done. apply subseteq_size.
  intros s. rewrite elem_of_list_to_set, elem_of_dom. intros Hs.
  destruct (dead_chain_elem _ _ _ _ _ Hc Hs) as (tx & -> & _). eauto.
Qed.

(** ** Taking a transaction off *)

Lemma buf_alive_frame k k' b : k_procs k' = k_procs k → buf_alive k b → buf_alive k' b.
Proof. intros E (h & x & ?). exists h, x. by rewrite E. Qed.

(** What a transaction that goes away leaves alone. *)
Record popped (k k' : kstate) : Prop := {
  pp_lists : k_lists k' = k_lists k;
  pp_wakes : k_wakes k' = k_wakes k;
  pp_bufs b : buf_alive k b → buf_alive k' b
}.

(** The second half of [binder_pop_transaction]. *)
Definition drop_txn (t : Z) : K unit :=
  upd_txn t (set_t_need_reply false) ;;;
  tx <- get_txn t ;;
  (match t_buffer tx with
   | Some b => upd_buffer b (set_b_transaction None)
   | None => ret tt
   end) ;;;
  free_txn t.

Lemma drop_txn_ok k t tx :
  k_txns k !! t = Some tx → (∀ b, t_buffer tx = Some b → buf_alive k b) →
  wp (drop_txn t) (λ _ k', k_txns k' = delete t (k_txns k) ∧ k_threads k' = k_threads k ∧ popped k k') k.
Proof.
  intros E Hb. unfold drop_txn. do 2 kstep. kstep. kstep. kstep. proj.
  destruct (t_buffer tx) as [b|] eqn:Eb.
  - destruct (Hb b eq_refl) as (h & Hbuf). eapply wp_upd_buffer; [exact Hbuf|]. proj. intros x Ex.
    unfold set_header. ksteps. split; [by rewrite delete_insert_eq|]. split; [done|]. split; [done..|].
    intros b' Hb'. eapply buf_alive_frame; [|exact (buf_alive_header k b' b (set_b_transaction None h) x Ex Hb')]. done.
  - ksteps. split; [by rewrite delete_insert_eq|]. split; [done|]. by split.
Qed.

Lemma pop_none_ok k t tx :
  k_txns k !! t = Some tx → (∀ b, t_buffer tx = Some b → buf_alive k b) →
  wp (binder_pop_transaction None t) (λ _ k',
    k_txns k' = delete t (k_txns k) ∧ k_threads k' = k_threads k ∧ popped k k') k.
Proof. intros E Hb. unfold binder_pop_transaction. kstep. kstep. by eapply drop_txn_ok. Qed.

Lemma pop_some_ok k t tx th x :
  k_txns k !! t = Some tx → t_from tx = Some th → k_threads k !! th = Some x → th_transaction_stack x = Some t →
  (∀ b, t_buffer tx = Some b → buf_alive k b) →
  wp (binder_pop_transaction (Some th) t) (λ _ k', k_txns k' = delete t (k_txns k) ∧
    k_threads k' = <[th := set_th_transaction_stack (t_from_parent tx) x]> (k_threads k) ∧ popped k k') k.
Proof.
  intros E Ef Ex Es Hb. unfold binder_pop_transaction. do 3 kstep. kstep.
  rewrite Es, bool_decide_false by tauto. kstep. kstep. kstep. kstep.
  rewrite Ef, bool_decide_false by tauto. kstep. kstep. kstep. kstep.
  eapply wp_mono; [eapply drop_txn_ok; [klook|]|]; proj.
  - intros b Eb. by apply (buf_alive_frame k), Hb.
  - proj. intros _ k' (Et & Eth & [Hl Hw Hbufs]). split; [by rewrite Et, delete_insert_eq|].
    split; [done|]. split; [done..|]. intros b Hbk. by apply Hbufs, (buf_alive_frame k).
Qed.

(** ** The reply *)

(** The thread is told, unless it has two errors to hear of already. *)
Definition told_error (e : Z) (stack : option Z) (x : thread) : thread :=
  set_th_return_error e (set_th_transaction_stack stack
    (if decide (th_return_error x = BR_OK) then x
     else set_th_return_error BR_OK (set_th_return_error2 (th_return_error x) x))).
Definition can_hear (x : thread) : bool :=
  bool_decide (th_return_error x = BR_OK) || bool_decide (th_return_error2 x = BR_OK).

Definition reply_failed (k k' : kstate) (l : list Z) (o : option Z) (e : Z) : Prop :=
  match o with
  | None => k_txns k' = foldr delete (k_txns k) l ∧ k_threads k' = k_threads k ∧ k_wakes k' = k_wakes k
  | Some t => ∃ tx th x, k_txns k !! t = Some tx ∧ t_from tx = Some th ∧ k_threads k !! th = Some x ∧
      if can_hear x then
        k_txns k' = foldr delete (k_txns k) (t :: l) ∧
        k_threads k' = <[th := told_error e (t_from_parent tx) x]> (k_threads k) ∧
        k_wakes k' = WqThread th :: k_wakes k
      else k_txns k' = foldr delete (k_txns k) l ∧ k_threads k' = k_threads k ∧ k_wakes k' = k_wakes k
  end.

(** The caller that is told waits for this call: it is the last one it made. *)
Definition waits_for (k : kstate) (o : option Z) : Prop :=
  ∀ t tx th, o = Some t → k_txns k !! t = Some tx → t_from tx = Some th →
    ∃ x, k_threads k !! th = Some x ∧ th_transaction_stack x = Some t.

Lemma dead_chain_frame k k' s t l o :
  k_txns k' = delete s (k_txns k) → dead_chain k t l o → s ∉ l → o ≠ Some s → dead_chain k' t l o.
Proof.
  intros E. induction 1 as [t tx th Et Ef|t tx Et Ef Ep|t tx t' l o Et Ef Ep Hc IH]; intros Hs Ho.
  - eapply DcAlive; [|done]. rewrite E, lookup_delete_ne; congruence.
  - eapply DcEnd; [|done..]. rewrite E, lookup_delete_ne; set_solver.
  - eapply DcNext; [| |done|]; [|done|]; [rewrite E, lookup_delete_ne; [done|set_solver]|]. apply IH; [set_solver|done].
Qed.

(** The first one that is still there is told. *)
Lemma send_to_alive k fuel t tx th x e :
  k_txns k !! t = Some tx → t_from tx = Some th → k_threads k !! th = Some x → th_transaction_stack x = Some t →
  buffers_alive k →
  wp (send_failed_reply (S fuel) t e) (λ _ k', reply_failed k k' [] (Some t) e) k.
Proof.
  intros E Ef Ex Es Hb. cbn [send_failed_reply]. do 2 kstep. rewrite Ef. kstep. kstep. kstep.
  unfold reply_failed.
  destruct (decide (th_return_error x = BR_OK)) as [Hok|Hok].
  - rewrite (bool_decide_false (th_return_error x ≠ BR_OK)) by tauto.
    cbn [andb]. ksteps. rewrite bool_decide_true by done. kstep.
    eapply wp_mono; [eapply pop_some_ok; [exact E|exact Ef|exact Ex|exact Es|intros b Eb; by apply (Hb t tx)]|].
    intros _ k' (Et & Eth & [Hl Hw Hbufs]).
    assert (k_threads k' !! th = Some (set_th_transaction_stack (t_from_parent tx) x)) as Ex' by (by rewrite Eth, lookup_insert_eq).
    ksteps. exists tx, th, x. split_and!; [done..|]. unfold can_hear, told_error.
    rewrite bool_decide_true, decide_True by done. cbn [orb]. proj.
    split; [done|]. by rewrite Eth, insert_insert_eq, Hw.
  - rewrite (bool_decide_true (th_return_error x ≠ BR_OK)) by tauto. cbn [andb].
    destruct (bool_decide (th_return_error2 x = BR_OK)) eqn:H2.
    + ksteps. rewrite bool_decide_true by done. rewrite insert_insert_eq. kstep.
      set (y := set_th_return_error BR_OK _). set (k1 := set_k_threads _ _).
      eapply wp_mono.
      { eapply (pop_some_ok k1 t tx th y); [exact E|exact Ef|unfold k1; klook|exact Es|].
        intros b Eb. by apply (buf_alive_frame k), (Hb t tx). }
      intros _ k' (Et & Eth & [Hl Hw Hbufs]).
      assert (k_threads k' !! th = Some (set_th_transaction_stack (t_from_parent tx) y)) as Ex' by (by rewrite Eth, lookup_insert_eq).
      ksteps. exists tx, th, x. split_and!; [done..|]. unfold can_hear, told_error.
      rewrite H2, orb_true_r, decide_False by done. proj.
      split; [done|]. rewrite Eth, Hw. unfold k1. proj. by rewrite !insert_insert_eq.
    + ksteps. rewrite bool_decide_false by done. kstep. exists tx, th, x. split_and!; [done..|]. unfold can_hear.
      rewrite H2, bool_decide_false by done. done.
Qed.
(** ** The walk up the chain *)

Lemma foldr_delete_comm (s : Z) (m : gmap Z BinderState.txn) l :
  foldr delete (delete s m) l = delete s (foldr delete m l).
Proof. induction l as [|t l IH]; [done|]. cbn. by rewrite IH, delete_delete. Qed.

Lemma buffers_alive_popped k k' t :
  k_txns k' = delete t (k_txns k) → popped k k' → buffers_alive k → buffers_alive k'.
Proof.
  intros E Hp Hb s tx b. rewrite E. intros [_ Es]%lookup_delete_Some Eb. eapply pp_bufs; [done|]. by apply (Hb s tx).
Qed.

Lemma waits_for_popped k k' t o :
  k_txns k' = delete t (k_txns k) → k_threads k' = k_threads k → waits_for k o → waits_for k' o.
Proof. intros E Eth Hw s tx th Ho. rewrite E, Eth. intros [_ Es]%lookup_delete_Some. by apply Hw. Qed.

Lemma reply_failed_popped k k1 k2 t l o e :
  k_txns k1 = delete t (k_txns k) → k_threads k1 = k_threads k → k_wakes k1 = k_wakes k →
  reply_failed k1 k2 l o e → reply_failed k k2 (t :: l) o e.
Proof.
  intros E Eth Ew. destruct o as [s|]; cbn [reply_failed foldr].
  - intros (tx & th & x & Es & Ef & Ex & Hr). rewrite E in Es. apply lookup_delete_Some in Es as [_ Es].
    rewrite Eth in Ex. exists tx, th, x. split_and!; [done..|].
    rewrite E, Eth, Ew, foldr_delete_comm in Hr. done.
  - by rewrite E, Eth, Ew, foldr_delete_comm.
Qed.

Lemma send_failed_reply_ok k t l o e : dead_chain k t l o →
  ∀ fuel, (length l < fuel)%nat → buffers_alive k → waits_for k o →
  wp (send_failed_reply fuel t e) (λ _ k', reply_failed k k' l o e) k.
Proof.
  remember (length l) as n eqn:Hn. revert k t l Hn. induction n as [|n IH]; intros k t l Hn Hc [|fuel] Hfuel Hb Hw; try lia.
  - inversion Hc; subst; try done. destruct (Hw t tx th eq_refl) as (x & Ex & Es); [done..|].
    by eapply send_to_alive.
  - inversion Hc as [|t1 tx E Ef Ep|t1 tx t' l' o1 E Ef Ep Hc']; subst; try done.
    + cbn [send_failed_reply]. do 2 kstep. rewrite Ef. kstep.
      eapply wp_mono; [eapply pop_none_ok; [exact E|intros b; by apply (Hb t tx)]|].
      intros _ k' (Et & Eth & [Hl Hwk Hbufs]). rewrite Ep. kstep. cbn [reply_failed foldr]. done.
    + cbn [send_failed_reply]. do 2 kstep. rewrite Ef. kstep.
      eapply wp_mono; [eapply pop_none_ok; [exact E|intros b; by apply (Hb t tx)]|].
      intros _ k' (Et & Eth & Hp). rewrite Ep. pose proof (dead_chain_NoDup _ _ _ _ Hc) as [Ht _]%NoDup_cons.
      assert (o ≠ Some t) as Ho.
      { intros ->. destruct (dead_chain_alive _ _ _ _ Hc) as (? & ? & ? & ?). congruence. }
      eapply wp_mono; [apply (IH k' t' l')|]; [simpl in Hn; lia|idtac|simpl in Hn; lia| | |].
      * by eapply (dead_chain_frame k k' t).
      * by eapply buffers_alive_popped.
      * by eapply waits_for_popped.
      * intros [] k2 Hr. exact (reply_failed_popped _ _ _ _ _ _ _ Et Eth (pp_wakes _ _ Hp) Hr).
Qed.

(** [binder_send_failed_reply] always ends. It takes away, one after the other, the
    calls whose callers are gone; the first caller that is still there loses its call,
    finds the error in its [return_error] (the one it may have had moves to
    [return_error2]) and is woken; when both its error fields are taken its call stays. *)
Theorem binder_send_failed_reply_spec k t tx l o e :
  k_txns k !! t = Some tx → has_flag (t_flags tx) TF_ONE_WAY = false →
  dead_chain k t l o → buffers_alive k → waits_for k o →
  ∃ k', binder_send_failed_reply t e k = Ret tt k' ∧ reply_failed k k' l o e.
Proof.
  intros E Hf Hc Hb Hw.
  assert (wp (binder_send_failed_reply t e) (λ _ k', reply_failed k k' l o e) k) as Hwp.
  { unfold binder_send_failed_reply. do 2 kstep. rewrite Hf. do 3 kstep.
    apply send_failed_reply_ok; [done| |done..]. pose proof (dead_chain_length _ _ _ _ Hc). lia. }
  unfold wp in Hwp. destruct (binder_send_failed_reply t e k) as [[] k'|]; [|done]. by exists k'.
Qed.
End replies.

(** Thread 2001 made the call 6001; its callee's own call 6000 has lost its caller. *)
Module RepliesDemo.
Definition orphan : BinderState.txn := Txn 7 None (Some 6001) None None None true None 1 0 0 0 0.
Definition waiting : BinderState.txn := Txn 6 (Some 2001) None (Some 1000) (Some 1001) None true None 1 0 0 0 0.
Definition chained : kstate :=
  set_k_threads (<[2001 := set_th_transaction_stack (Some 6001) (demo_thread 2000 20)]> (k_threads demo))
    (set_k_txns {[ 6000 := orphan; 6001 := waiting ]} demo).

Lemma binder_send_failed_reply_spec_witness :
  dead_chain chained 6000 [6000] (Some 6001) ∧
  ∃ k', binder_send_failed_reply 6000 BR_DEAD_REPLY chained = Ret tt k' ∧
    reply_failed chained k' [6000] (Some 6001) BR_DEAD_REPLY.
Proof.
  assert (dead_chain chained 6000 [6000] (Some 6001)) as Hc.
  { eapply (DcNext _ 6000 orphan 6001); [reflexivity..|]. by eapply (DcAlive _ 6001 waiting 2001). }
  split; [exact Hc|]. apply (binder_send_failed_reply_spec chained 6000 orphan); [reflexivity..|exact Hc| |].
  - intros t tx b Et Eb. exfalso. unfold chained in Et. cbn [k_txns set_k_txns set_k_threads] in Et. apply lookup_insert_Some in Et as [[<- <-]|[_ Et]]; [discriminate Eb|].
    apply lookup_singleton_Some in Et as [<- <-]. discriminate Eb.
  - intros t tx th Ho Et Eth. injection Ho as <-. vm_compute in Et. injection Et as <-. injection Eth as <-.
    eexists. split; vm_compute; reflexivity.
Defined.
End RepliesDemo.
