(* ===== verification/Words.v ===== *)
(** * Machine words and bytes of the C++ libraries

    64-bit integers with their wrap-around, the bit patterns the sources use
    (masks, top bits, halves of a word) and [memcpy] on lists of bytes. *)

From Stdlib Require Import ZArith Lia.
From stdpp Require Import base tactics numbers option list.
From S2P Require Import Prelude.

(** ** 64-bit integers *)

Definition u64 (x : Z) : Z := x mod 2 ^ 64.
Definition s64 (x : Z) : Z := (x + 2 ^ 63) mod 2 ^ 64 - 2 ^ 63.
Definition UINT32_MAX : Z := 2 ^ 32 - 1.
Definition UINT64_MAX : Z := 2 ^ 64 - 1.
Definition INT64_MIN : Z := - 2 ^ 63.
Definition INT64_MAX : Z := 2 ^ 63 - 1.

Definition is_u32 (x : Z) : Prop := 0 ≤ x < 2 ^ 32.
Definition is_s32 (x : Z) : Prop := - 2 ^ 31 ≤ x < 2 ^ 31.
Definition is_u64 (x : Z) : Prop := 0 ≤ x < 2 ^ 64.
Definition is_s64 (x : Z) : Prop := - 2 ^ 63 ≤ x < 2 ^ 63.

Lemma u64_range x : 0 ≤ u64 x < 2 ^ 64.
Proof. apply Z.mod_pos_bound. lia. Qed.
Lemma u64_small x : 0 ≤ x < 2 ^ 64 → u64 x = x.
Proof. apply Z.mod_small. Qed.
Lemma s64_small x : - 2 ^ 63 ≤ x < 2 ^ 63 → s64 x = x.
Proof. intros. unfold s64. rewrite Z.mod_small by lia. lia. Qed.
Lemma s64_range x : - 2 ^ 63 ≤ s64 x < 2 ^ 63.
Proof. unfold s64. pose proof (Z.mod_pos_bound (x + 2 ^ 63) (2 ^ 64) ltac:(lia)). lia. Qed.
Lemma u32_mod x y : x mod 2 ^ 32 = y mod 2 ^ 32 → u32 x = u32 y.
Proof. done. Qed.

(** ** Bit patterns *)

Lemma land_ones_mod x k : 0 ≤ k → Z.land x (2 ^ k - 1) = x mod 2 ^ k.
Proof. intros. replace (2 ^ k - 1) with (Z.ones k) by (rewrite Z.ones_equiv; lia). by apply Z.land_ones. Qed.
Lemma land_u32_max x : Z.land x UINT32_MAX = x mod 2 ^ 32.
Proof. by apply (land_ones_mod x 32). Qed.
(** A word put together of a high part and a low one. *)
Lemma lor_halves lo hi k : 0 ≤ k → 0 ≤ lo < 2 ^ k → Z.lor lo (hi * 2 ^ k) = lo + hi * 2 ^ k.
Proof.
  intros Hk Hlo. rewrite <-Z.shiftl_mul_pow2 by done.
  apply Z.bits_inj'. intros i Hi. rewrite Z.lor_spec, Z.shiftl_spec by done.
  destruct (Z.lt_ge_cases i k) as [Hik|Hik].
  - rewrite (Z.testbit_neg_r hi) by lia. rewrite orb_false_r, Z.shiftl_mul_pow2 by done.
    rewrite <-(Z.mod_pow2_bits_low (lo + hi * 2 ^ k) k) by lia.
    rewrite Z.mod_add, Z.mod_pow2_bits_low by lia. done.
  - rewrite <-(Z.mod_small lo (2 ^ k)) at 1 by done. rewrite Z.mod_pow2_bits_high by lia. cbn.
    rewrite Z.shiftl_mul_pow2 by done.
    replace i with ((i - k) + k) at 2 by lia. rewrite <-Z.div_pow2_bits by lia.
    rewrite Z.div_add, (Z.div_small lo) by lia. done.
Qed.
(** The sign bit of a 64-bit word. *)
Lemma testbit_63 x : 0 ≤ x < 2 ^ 64 → Z.testbit x 63 = bool_decide (2 ^ 63 ≤ x).
Proof.
  intros Hx. rewrite Z.testbit_odd, Z.shiftr_div_pow2 by lia. case_bool_decide.
  - replace (x / 2 ^ 63) with 1; [done|]. apply (Z.div_unique _ _ _ (x - 2 ^ 63)); lia.
  - by rewrite Z.div_small by lia.
Qed.
Lemma land_63 x : Z.land x (2 ^ 63) = 0 ↔ Z.testbit x 63 = false.
Proof.
  split; intros Hx.
  - assert (Z.testbit (Z.land x (2 ^ 63)) 63 = false) as Hb by (by rewrite Hx, Z.bits_0).
    rewrite Z.land_spec, Z.pow2_bits_true, andb_true_r in Hb by lia. done.
  - apply Z.bits_inj'. intros i Hi. rewrite Z.land_spec, Z.bits_0.
    destruct (decide (i = 63)) as [->|]; [by rewrite Hx|]. rewrite Z.pow2_bits_false by lia. apply andb_false_r.
Qed.

(** ** Bytes *)

(** [memcpy(dst + off, src + from, n)]: stops when it leaves either block. *)
Definition memcpy {A} (dst : list A) (off : Z) (src : list A) (from n : Z) : option (list A) :=
  if bool_decide (0 ≤ off ∧ 0 ≤ from ∧ 0 ≤ n ∧ off + n ≤ Z.of_nat (length dst) ∧ from + n ≤ Z.of_nat (length src))
  then Some (take (Z.to_nat off) dst ++ take (Z.to_nat n) (drop (Z.to_nat from) src) ++ drop (Z.to_nat (off + n)) dst)
  else None.

(** What [memcpy] reads when the destination is a buffer of the caller. *)
Definition slice {A} (src : list A) (from n : Z) : option (list A) :=
  if bool_decide (0 ≤ from ∧ 0 ≤ n ∧ from + n ≤ Z.of_nat (length src))
  then Some (take (Z.to_nat n) (drop (Z.to_nat from) src))
  else None.

Section bytes.
Context {A : Type}.
Implicit Types l dst src : list A.

Lemma memcpy_ok dst off src from n :
  0 ≤ off → 0 ≤ from → 0 ≤ n → off + n ≤ Z.of_nat (length dst) → from + n ≤ Z.of_nat (length src) →
  ∃ dst', memcpy dst off src from n = Some dst' ∧ length dst' = length dst ∧
    ∀ i, 0 ≤ i → dst' !! Z.to_nat i =
      if bool_decide (off ≤ i < off + n) then src !! Z.to_nat (from + (i - off)) else dst !! Z.to_nat i.
Proof.
  intros. unfold memcpy. rewrite bool_decide_true by lia. eexists. split; [done|].
  assert (length (take (Z.to_nat off) dst) = Z.to_nat off) as Hl1 by (rewrite length_take; lia).
  assert (length (take (Z.to_nat n) (drop (Z.to_nat from) src)) = Z.to_nat n) as Hl2
    by (rewrite length_take, length_drop; lia).
  split; [rewrite !length_app, Hl1, Hl2, length_drop; lia|]. intros i Hi.
  destruct (decide (i < off)).
  - rewrite lookup_app_l by lia. rewrite lookup_take_lt by lia. by rewrite bool_decide_false by lia.
  - rewrite lookup_app_r by lia. rewrite Hl1. destruct (decide (i < off + n)).
    + rewrite lookup_app_l by lia. rewrite lookup_take_lt, lookup_drop by lia.
      rewrite bool_decide_true by lia. f_equal. lia.
    + rewrite lookup_app_r by lia. rewrite Hl2, lookup_drop. rewrite bool_decide_false by lia. f_equal. lia.
Qed.
Lemma memcpy_nothing dst off src from :
  0 ≤ off ≤ Z.of_nat (length dst) → 0 ≤ from ≤ Z.of_nat (length src) → memcpy dst off src from 0 = Some dst.
Proof.
  intros. unfold memcpy. rewrite bool_decide_true by lia. rewrite Z.add_0_r. change (Z.to_nat 0) with 0%nat. rewrite take_0. cbn [app]. by rewrite take_drop.
Qed.
Lemma slice_ok src from n : 0 ≤ from → 0 ≤ n → from + n ≤ Z.of_nat (length src) →
  slice src from n = Some (take (Z.to_nat n) (drop (Z.to_nat from) src)).
Proof. intros. unfold slice. by rewrite bool_decide_true by lia. Qed.
Lemma slice_length src from n l : slice src from n = Some l → Z.of_nat (length l) = n.
Proof. unfold slice. case_bool_decide; [|done]. intros [= <-]. rewrite length_take, length_drop. lia. Qed.
End bytes.

(** ** Positions that wrap around *)

Lemma s32_eq x : ∃ j, s32 x = x + j * 2 ^ 32.
Proof. unfold s32. exists (- ((x + 2 ^ 31) / 2 ^ 32)). pose proof (Z.div_mod (x + 2 ^ 31) (2 ^ 32) ltac:(lia)). lia. Qed.
Lemma u32_eq x : ∃ j, u32 x = x + j * 2 ^ 32.
Proof. unfold u32. exists (- (x / 2 ^ 32)). pose proof (Z.div_mod x (2 ^ 32) ltac:(lia)). lia. Qed.
Lemma u32_cong x y j : x = y + j * 2 ^ 32 → u32 x = u32 y.
Proof. intros ->. unfold u32. by rewrite Z.mod_add. Qed.
Lemma s32_cong x y j : x = y + j * 2 ^ 32 → s32 x = s32 y.
Proof. intros ->. unfold s32. replace (y + j * 2 ^ 32 + 2 ^ 31) with (y + 2 ^ 31 + j * 2 ^ 32) by ring. by rewrite Z.mod_add. Qed.
Lemma u32_s32_sub x y : u32 (s32 x - y) = u32 (x - y).
Proof. destruct (s32_eq x) as [j ->]. apply (u32_cong _ _ j). ring. Qed.
Lemma u32_sub_s32 x y : u32 (x - s32 y) = u32 (x - y).
Proof. destruct (s32_eq y) as [j ->]. apply (u32_cong _ _ (- j)). ring. Qed.
Lemma u32_s32 x : u32 (s32 x) = u32 x.
Proof. destruct (s32_eq x) as [j ->]. by apply (u32_cong _ _ j). Qed.
(** A difference that is small either way. *)
Lemma s32_of_u32 x : u32 x < 2 ^ 31 → s32 x = u32 x.
Proof.
  intros Hx. pose proof (u32_range x). destruct (u32_eq x) as [j Ej]. rewrite Ej in *.
  rewrite <-(s32_cong (x + j * 2 ^ 32) x j) by done. apply s32_small. lia.
Qed.
(** A power of two below the range only sees the low bits. *)
Lemma mod_pow2_cong x y j k : 0 ≤ k ≤ 32 → x = y + j * 2 ^ 32 → x mod 2 ^ k = y mod 2 ^ k.
Proof.
  intros Hk ->. replace (j * 2 ^ 32) with (j * 2 ^ (32 - k) * 2 ^ k).
  - apply Z.mod_add. pose proof (Z.pow_pos_nonneg 2 k). lia.
  - rewrite <-Z.mul_assoc, <-Z.pow_add_r by lia. do 2 f_equal. lia.
Qed.
