(* ===== verification/AudioPrimitives.v ===== *)
(** * Sample arithmetic

    [libs/audio_utils/primitives.c] and [include/audio_utils/primitives.h]: the
    saturating and multiplying primitives of the mixers and the conversions between
    sample formats.  A frame of stereo samples is packed in one 32-bit word, the left
    sample below. *)

From Stdlib Require Import ZArith Lia.
From stdpp Require Import base tactics numbers option list.
From S2P Require Import Prelude Words.

(** ** 16-bit integers *)

Definition u16 (x : Z) : Z := x mod 2 ^ 16.
Definition s16 (x : Z) : Z := (x + 2 ^ 15) mod 2 ^ 16 - 2 ^ 15.
Definition is_s16 (x : Z) : Prop := - 2 ^ 15 ≤ x < 2 ^ 15.

(** ** The primitives *)

Definition clamp16 (sample : Z) : Z :=
  s16 (if bool_decide (Z.lxor (Z.shiftr sample 15) (Z.shiftr sample 31) = 0) then sample
       else Z.lxor 0x7FFF (Z.shiftr sample 31)).

Definition mulAdd (in_ v a : Z) : Z := s32 (a + in_ * v).
Definition mul (in_ v : Z) : Z := s32 (in_ * v).

(** [(int16_t)(x & 0xFFFF)] and [(int16_t)(x >> 16)]. *)
Definition low16 (x : Z) : Z := s16 (Z.land x 0xFFFF).
Definition high16 (x : Z) : Z := s16 (Z.shiftr x 16).

Definition mulAddRL (left : bool) (inRL vRL a : Z) : Z :=
  if left then s32 (a + low16 inRL * low16 vRL) else s32 (a + high16 inRL * high16 vRL).
Definition mulRL (left : bool) (inRL vRL : Z) : Z :=
  if left then s32 (low16 inRL * low16 vRL) else s32 (high16 inRL * high16 vRL).

(** [(r<<16) | (l & 0xFFFF)]. *)
Definition pack (l r : Z) : Z := s32 (Z.lor (Z.shiftl r 16) (Z.land l 0xFFFF)).

(** What it stores at [out]; stops when [sums] is too short. *)
Fixpoint ditherAndClamp (sums : list Z) (c : nat) {struct c} : option (list Z) :=
  match c, sums with
  | O, _ => Some []
  | S c, l :: r :: sums =>
      let nl := Z.shiftr l 12 in
      let nr := Z.shiftr r 12 in
      out ← ditherAndClamp sums c;
      Some (pack (clamp16 nl) (clamp16 nr) :: out)
  | S _, _ => None
  end.

Fixpoint memcpy_to_u8_from_i16 (src : list Z) (count : nat) {struct count} : option (list Z) :=
  match count, src with
  | O, _ => Some []
  | S count, x :: src => out ← memcpy_to_u8_from_i16 src count; Some ((Z.shiftr x 8 + 0x80) mod 2 ^ 8 :: out)
  | S _, [] => None
  end.

Fixpoint downmix_to_mono_i16_from_stereo_i16 (src : list Z) (count : nat) {struct count} : option (list Z) :=
  match count, src with
  | O, _ => Some []
  | S count, l :: r :: src =>
      out ← downmix_to_mono_i16_from_stereo_i16 src count; Some (s16 (Z.shiftr (l + r) 1) :: out)
  | S _, _ => None
  end.

Fixpoint upmix_to_stereo_i16_from_mono_i16 (src : list Z) (count : nat) {struct count} : option (list Z) :=
  match count, src with
  | O, _ => Some []
  | S count, temp :: src => out ← upmix_to_stereo_i16_from_mono_i16 src count; Some (temp :: temp :: out)
  | S _, [] => None
  end.

(** ** Laws *)

Lemma s16_range x : is_s16 (s16 x).
Proof. unfold is_s16, s16. pose proof (Z.mod_pos_bound (x + 2 ^ 15) (2 ^ 16)). lia. Qed.
Lemma s16_small x : is_s16 x → s16 x = x.
Proof. unfold is_s16, s16. intros. rewrite Z.mod_small; lia. Qed.
Lemma s16_mod x y : x mod 2 ^ 16 = y mod 2 ^ 16 → s16 x = s16 y.
Proof.
  intros E. unfold s16. f_equal. rewrite <-(Zplus_mod_idemp_l x), E, Zplus_mod_idemp_l. done.
Qed.
Lemma u16_range x : 0 ≤ u16 x < 2 ^ 16.
Proof. apply Z.mod_pos_bound. lia. Qed.
Lemma s16_u16 x : is_s16 x → s16 (u16 x) = x.
Proof. intros Hx. rewrite <-(s16_small x Hx) at 2. apply s16_mod. unfold u16. by rewrite Z.mod_mod. Qed.

(** Saturation. *)
Definition saturate (x : Z) : Z := Z.max (- 2 ^ 15) (Z.min x (2 ^ 15 - 1)).

Lemma clamp16_spec x : is_s32 x → clamp16 x = saturate x.
Proof.
  unfold is_s32. intros Hx. unfold clamp16, saturate.
  assert (Z.shiftr x 31 = if bool_decide (x < 0) then -1 else 0) as ->.
  { rewrite Z.shiftr_div_pow2 by lia. case_bool_decide; Z.to_euclidean_division_equations; lia. }
  assert (Z.shiftr x 15 = x / 2 ^ 15) as -> by (by rewrite Z.shiftr_div_pow2 by lia).
  destruct (decide (x < 0)).
  - rewrite (bool_decide_true (x < 0)) by done. rewrite !Z.lxor_m1_r. case_bool_decide as Hc.
    + assert (x / 2 ^ 15 = -1) by (unfold Z.lnot in Hc; lia).
      rewrite s16_small; unfold is_s16; Z.to_euclidean_division_equations; lia.
    + assert (x / 2 ^ 15 ≠ -1) by (unfold Z.lnot in Hc; lia).
      change (s16 (Z.lnot 0x7FFF)) with (-32768). Z.to_euclidean_division_equations; lia.
  - rewrite (bool_decide_false (x < 0)) by done. rewrite !Z.lxor_0_r. case_bool_decide as Hc.
    + rewrite s16_small; unfold is_s16; Z.to_euclidean_division_equations; lia.
    + change (s16 0x7FFF) with 32767. Z.to_euclidean_division_equations; lia.
Qed.

Lemma saturate_range x : is_s16 (saturate x).
Proof. unfold is_s16, saturate. lia. Qed.
Lemma saturate_small x : is_s16 x → saturate x = x.
Proof. unfold is_s16, saturate. lia. Qed.

(** The packed word of a frame, and its halves. *)
Definition word_of (l r : Z) : Z := Z.lor (u16 l) (Z.shiftl (u16 r) 16).

Lemma word_of_eq l r : word_of l r = u16 l + u16 r * 2 ^ 16.
Proof.
  unfold word_of. rewrite Z.shiftl_mul_pow2 by lia. apply lor_halves; [lia|apply u16_range].
Qed.
Lemma low16_word l r : is_s16 l → low16 (word_of l r) = l.
Proof.
  intros Hl. unfold low16. rewrite (land_ones_mod _ 16), word_of_eq by lia.
  rewrite Z.mod_add by lia. rewrite (Z.mod_small (u16 l)) by apply u16_range. by apply s16_u16.
Qed.
Lemma high16_word l r : is_s16 r → high16 (word_of l r) = r.
Proof.
  intros Hr. unfold high16. rewrite word_of_eq, Z.shiftr_div_pow2 by lia.
  rewrite Z.div_add, Z.div_small by (apply u16_range || lia). by apply s16_u16.
Qed.
Lemma s16_mul l v : is_s16 l → is_s16 v → - 2 ^ 30 ≤ l * v ≤ 2 ^ 30.
Proof. unfold is_s16. intros. nia. Qed.
Lemma mulRL_word left l r vl vr : is_s16 l → is_s16 r → is_s16 vl → is_s16 vr →
  mulRL left (word_of l r) (word_of vl vr) = if left then l * vl else r * vr.
Proof.
  intros Hl Hr Hvl Hvr. unfold mulRL. rewrite !low16_word, !high16_word by done.
  pose proof (s16_mul l vl Hl Hvl). pose proof (s16_mul r vr Hr Hvr). destruct left; apply s32_small; lia.
Qed.
Lemma mulAddRL_word left l r vl vr a : is_s16 l → is_s16 r → is_s16 vl → is_s16 vr →
  mulAddRL left (word_of l r) (word_of vl vr) a = s32 (a + if left then l * vl else r * vr).
Proof. intros. unfold mulAddRL. rewrite !low16_word, !high16_word by done. by destruct left. Qed.

Lemma s32_add_l x y : s32 (s32 x + y) = s32 (x + y).
Proof.
  unfold s32. f_equal. rewrite <-(Zplus_mod_idemp_l (x + y)).
  replace ((x + 2 ^ 31) mod 2 ^ 32 - 2 ^ 31 + y + 2 ^ 31) with ((x + 2 ^ 31) mod 2 ^ 32 + y) by lia.
  rewrite !Zplus_mod_idemp_l. f_equal. lia.
Qed.
Lemma s32_idem x : s32 (s32 x) = s32 x.
Proof. apply s32_small, s32_range. Qed.

Lemma ditherAndClamp_length sums c out : ditherAndClamp sums c = Some out → length out = c.
Proof.
  revert sums out. induction c as [|c IH]; intros sums out; [intros Ho; by injection Ho as <-|].
  destruct sums as [|l [|r sums]]; cbn; [done..|]. destruct (ditherAndClamp sums c) as [o|] eqn:E; cbn; [|done].
  intros Ho. injection Ho as <-. cbn. f_equal. by apply (IH sums).
Qed.
