(* ===== verification/Ring.v ===== *)
(** * Ring buffers

    The pipes keep a queue in a buffer of fixed size, at positions that only grow
    and are reduced modulo the size; a transfer that reaches the end of the buffer
    is continued at its start by a second [memcpy].  What such a pair of copies
    does to the queue is stated here once for all of them. *)

From Stdlib Require Import ZArith Lia.
From stdpp Require Import base tactics numbers option list.
From S2P Require Import Prelude Words.

Section ring.
Context {A : Type}.
Implicit Types buf q d : list A.

(** The buffer holds the queue [q] from position [pos] on. *)
Record ring buf (pos : Z) q : Prop := {
  ring_fits : (length q ≤ length buf)%nat;
  ring_at i : (i < length q)%nat → buf !! Z.to_nat ((pos + Z.of_nat i) mod Z.of_nat (length buf)) = q !! i
}.

(** The transfers, from index [idx] of the buffer on. *)
Definition copy_in buf (idx : Z) d : option (list A) :=
  let part1 := Z.min (Z.of_nat (length buf) - idx) (Z.of_nat (length d)) in
  match memcpy buf idx d 0 part1 with
  | Some buf' => memcpy buf' 0 d part1 (Z.of_nat (length d) - part1)
  | None => None
  end.
Definition copy_out buf (idx n : Z) : option (list A) :=
  let part1 := Z.min (Z.of_nat (length buf) - idx) n in
  match slice buf idx part1, slice buf 0 (n - part1) with
  | Some l1, Some l2 => Some (l1 ++ l2)
  | _, _ => None
  end.

Lemma ring_nil buf pos : ring buf pos [].
Proof. split; simpl; lia. Qed.
Lemma ring_congr buf pos pos' q :
  pos mod Z.of_nat (length buf) = pos' mod Z.of_nat (length buf) → ring buf pos q → ring buf pos' q.
Proof.
  intros E [Hf Ha]. split; [done|]. intros i Hi. rewrite <-Ha by done. f_equal. f_equal.
  by rewrite <-Zplus_mod_idemp_l, <-E, Zplus_mod_idemp_l.
Qed.
Lemma ring_drop buf pos q n : ring buf pos q → ring buf (pos + Z.of_nat n) (drop n q).
Proof.
  intros [Hf Ha]. split; [rewrite length_drop; lia|]. intros i. rewrite length_drop. intros Hi.
  rewrite lookup_drop, <-Ha by lia. f_equal. f_equal. f_equal. lia.
Qed.
Lemma ring_take buf pos q n : ring buf pos q → ring buf pos (take n q).
Proof.
  intros [Hf Ha]. split; [rewrite length_take; lia|]. intros i. rewrite length_take. intros Hi.
  rewrite lookup_take_lt, <-Ha by lia. done.
Qed.

(** Where a position past the end of the buffer is. *)
Lemma wrap_index idx i n : 0 ≤ idx < n → 0 ≤ i ≤ n →
  (idx + i) mod n = if bool_decide (idx + i < n) then idx + i else idx + i - n.
Proof.
  intros. case_bool_decide; [by apply Z.mod_small; lia|]. symmetry. apply (Z.mod_unique _ _ 1); lia.
Qed.

Lemma copy_in_ok buf idx d (n := Z.of_nat (length buf)) :
  0 ≤ idx < n → Z.of_nat (length d) ≤ n →
  ∃ buf', copy_in buf idx d = Some buf' ∧ length buf' = length buf ∧
    ∀ i, 0 ≤ i < n → buf' !! Z.to_nat ((idx + i) mod n) =
      if bool_decide (i < Z.of_nat (length d)) then d !! Z.to_nat i else buf !! Z.to_nat ((idx + i) mod n).
Proof.
  intros Hidx Hd. unfold copy_in. fold n. set (part1 := Z.min (n - idx) (Z.of_nat (length d))).
  destruct (memcpy_ok buf idx d 0 part1) as (b1 & -> & Hl1 & H1); [lia..|].
  destruct (memcpy_ok b1 0 d part1 (Z.of_nat (length d) - part1)) as (b2 & -> & Hl2 & H2); [lia..|].
  exists b2. split; [done|]. split; [lia|]. intros i Hi. rewrite wrap_index by lia.
  case_bool_decide as Hw.
  - rewrite H2, (bool_decide_false (0 ≤ _ < _)), H1 by lia. destruct (decide (i < Z.of_nat (length d))).
    + rewrite !bool_decide_true by lia. f_equal. lia.
    + by rewrite !bool_decide_false by lia.
  - rewrite H2 by lia. destruct (decide (i < Z.of_nat (length d))).
    + rewrite !bool_decide_true by lia. f_equal. lia.
    + rewrite !bool_decide_false by lia. rewrite H1, bool_decide_false by lia. done.
Qed.

(** A transfer behind the queue appends to it. *)
Lemma ring_write buf pos q d (n := Z.of_nat (length buf)) :
  ring buf pos q → (length q + length d ≤ length buf)%nat → (0 < length buf)%nat →
  ∃ buf', copy_in buf ((pos + Z.of_nat (length q)) mod n) d = Some buf' ∧ length buf' = length buf ∧
    ring buf' pos (q ++ d).
Proof.
  intros [Hf Ha] Hroom Hpos. pose proof (Z.mod_pos_bound (pos + Z.of_nat (length q)) n ltac:(lia)) as Hidx.
  destruct (copy_in_ok buf ((pos + Z.of_nat (length q)) mod n) d) as (buf' & E & Hl & Hb); [done|lia|].
  fold n in Hb. exists buf'. split; [done|]. split; [done|]. split; [rewrite length_app; lia|].
  intros i. rewrite length_app, Hl. fold n. intros Hi. destruct (decide (i < length q)%nat).
  - rewrite lookup_app_l by done. rewrite <-Ha by done. fold n.
    specialize (Hb (n - Z.of_nat (length q) + Z.of_nat i) ltac:(lia)). rewrite Zplus_mod_idemp_l in Hb.
    replace (pos + Z.of_nat (length q) + (n - Z.of_nat (length q) + Z.of_nat i)) with
      (pos + Z.of_nat i + 1 * n) in Hb by lia.
    rewrite Z.mod_add in Hb by lia. rewrite Hb. by rewrite bool_decide_false by lia.
  - rewrite lookup_app_r by lia. specialize (Hb (Z.of_nat (i - length q)) ltac:(lia)).
    rewrite Zplus_mod_idemp_l, bool_decide_true in Hb by lia.
    replace (pos + Z.of_nat (length q) + Z.of_nat (i - length q)) with (pos + Z.of_nat i) in Hb by lia.
    rewrite Hb. f_equal. lia.
Qed.

(** A transfer from the head of the queue gives its first elements. *)
Lemma ring_read buf pos q (k : Z) (n := Z.of_nat (length buf)) :
  ring buf pos q → 0 ≤ k ≤ Z.of_nat (length q) → (0 < length buf)%nat →
  copy_out buf (pos mod n) k = Some (take (Z.to_nat k) q).
Proof.
  intros [Hf Ha] Hk Hpos. pose proof (Z.mod_pos_bound pos n ltac:(lia)) as Hidx.
  unfold copy_out. fold n. set (idx := pos mod n) in *. set (part1 := Z.min (n - idx) k).
  rewrite !slice_ok by lia. f_equal. apply list_eq. intros i.
  assert (length (take (Z.to_nat part1) (drop (Z.to_nat idx) buf)) = Z.to_nat part1) as Hl1
    by (rewrite length_take, length_drop; lia).
  assert (∀ i, (i < length q)%nat → buf !! Z.to_nat ((idx + Z.of_nat i) mod n) = q !! i) as Hat.
  { intros j Hj. rewrite <-Ha by done. f_equal. f_equal. unfold idx. by rewrite Zplus_mod_idemp_l. }
  destruct (decide (i < Z.to_nat k)%nat) as [Hik|Hik].
  - rewrite (lookup_take_lt q) by done. rewrite <-Hat, wrap_index by lia. case_bool_decide.
    + rewrite lookup_app_l by lia. rewrite lookup_take_lt, lookup_drop by lia. f_equal. lia.
    + rewrite lookup_app_r by lia. rewrite Hl1, lookup_take_lt, lookup_drop by lia. f_equal. lia.
  - rewrite !lookup_ge_None_2; [done| |].
    + rewrite length_take. lia.
    + rewrite length_app, Hl1, length_take, length_drop. lia.
Qed.
End ring.

(** ** Copies in a buffer of frames

    The positions are counted in frames; the copies are made in bytes. *)

Lemma memcpy_take {A} (dst src : list A) off from n m :
  from + n ≤ m ≤ Z.of_nat (length src) →
  memcpy dst off src from n = memcpy dst off (take (Z.to_nat m) src) from n.
Proof.
  intros Hm. unfold memcpy. rewrite length_take.
  destruct (decide (0 ≤ off ∧ 0 ≤ from ∧ 0 ≤ n ∧ off + n ≤ Z.of_nat (length dst))) as [Hb|Hb].
  - rewrite !bool_decide_true by lia. do 3 f_equal. apply list_eq. intros i.
    destruct (decide (i < Z.to_nat n)%nat) as [Hi|Hi]; [|by rewrite !lookup_take_ge by lia].
    by rewrite !lookup_take_lt, !lookup_drop, lookup_take_lt by lia.
  - by rewrite !bool_decide_false by lia.
Qed.

(** The index of a position: [x & (frames - 1)], shifted to bytes. *)
Lemma frame_index x frames k s :
  frames = 2 ^ k → 0 ≤ k ≤ 32 → 0 ≤ s →
  Z.land (u32 x) (frames - 1) = x mod frames ∧ 0 ≤ x mod frames < frames ∧
  Z.shiftl (x mod frames) s = (x * 2 ^ s) mod (Z.shiftl frames s).
Proof.
  intros -> Hk Hs. pose proof (Z.pow_pos_nonneg 2 k ltac:(lia) ltac:(lia)).
  pose proof (Z.pow_pos_nonneg 2 s ltac:(lia) ltac:(lia)). split_and!.
  - rewrite land_ones_mod by lia. unfold u32. apply Z.mod_mod_divide.
    exists (2 ^ (32 - k)). rewrite <-Z.pow_add_r by lia. f_equal. lia.
  - apply Z.mod_pos_bound. lia.
  - apply Z.mod_pos_bound. lia.
  - rewrite !Z.shiftl_mul_pow2 by lia. rewrite Z.mul_mod_distr_r by lia. done.
Qed.

(** The transfers as the sources write them: the second copy is made only when the
    first has reached the end and something is left. *)
Definition frames_in (buf : list Z) (frames shift idx : Z) (src : list Z) (n : Z) : option (list Z) :=
  let part1 := if bool_decide (frames - idx > n) then n else frames - idx in
  if bool_decide (part1 > 0) then
    match memcpy buf (Z.shiftl idx shift) src 0 (Z.shiftl part1 shift) with
    | None => None
    | Some b =>
        if bool_decide (idx + part1 = frames) then
          let part2 := n - part1 in
          if bool_decide (part2 > 0) then memcpy b 0 src (Z.shiftl part1 shift) (Z.shiftl part2 shift)
          else Some b
        else Some b
    end
  else Some buf.
Definition frames_out (buf : list Z) (frames shift idx n : Z) : option (list Z) :=
  let part1 := if bool_decide (frames - idx > n) then n else frames - idx in
  if bool_decide (part1 > 0) then
    match slice buf (Z.shiftl idx shift) (Z.shiftl part1 shift) with
    | None => None
    | Some l1 =>
        if bool_decide (idx + part1 = frames) then
          let part2 := n - part1 in
          if bool_decide (part2 > 0) then
            match slice buf 0 (Z.shiftl part2 shift) with Some l2 => Some (l1 ++ l2) | None => None end
          else Some l1
        else Some l1
    end
  else Some [].

Lemma frames_in_ok buf frames shift idx src n :
  0 ≤ idx < frames → 0 ≤ n ≤ frames → 0 ≤ shift →
  Z.of_nat (length buf) = Z.shiftl frames shift → Z.shiftl n shift ≤ Z.of_nat (length src) →
  frames_in buf frames shift idx src n = copy_in buf (Z.shiftl idx shift) (take (Z.to_nat (Z.shiftl n shift)) src).
Proof.
  intros Hidx Hn Hs Hl Hsrc. unfold frames_in, copy_in. rewrite length_take.
  rewrite !Z.shiftl_mul_pow2 in * by done. pose proof (Z.pow_pos_nonneg 2 shift ltac:(lia) Hs) as Hp.
  set (w := 2 ^ shift) in *.
  set (part1 := if bool_decide (frames - idx > n) then n else frames - idx).
  assert (part1 = Z.min (frames - idx) n) as Hp1 by (unfold part1; case_bool_decide; lia). clearbody part1.
  assert (Z.of_nat (Nat.min (Z.to_nat (n * w)) (length src)) = n * w) as -> by nia.
  assert (Z.min (Z.of_nat (length buf) - idx * w) (n * w) = part1 * w) as -> by nia.
  replace (n * w - part1 * w) with ((n - part1) * w) by ring.
  rewrite <-!(memcpy_take _ src) by nia.
  destruct (decide (part1 > 0)) as [Hpos|Hpos].
  - rewrite (bool_decide_true (part1 > 0)) by done.
    destruct (memcpy_ok buf (idx * w) src 0 (part1 * w)) as (b & -> & Hlb & _); [nia..|].
    rewrite <-(memcpy_take b src) by nia.
    case_bool_decide; [case_bool_decide; [done|]|].
    + assert (n - part1 = 0) as -> by lia. rewrite memcpy_nothing by nia. done.
    + assert (n - part1 = 0) as -> by lia. rewrite memcpy_nothing by nia. done.
  - rewrite bool_decide_false by done. assert (n = 0 ∧ part1 = 0) as [-> ->] by lia.
    rewrite Z.mul_0_l, memcpy_nothing by nia. rewrite Z.sub_diag, memcpy_nothing by (cbn; nia). done.
Qed.

Lemma frames_out_ok buf frames shift idx n :
  0 ≤ idx < frames → 0 ≤ n ≤ frames → 0 ≤ shift → Z.of_nat (length buf) = Z.shiftl frames shift →
  frames_out buf frames shift idx n = copy_out buf (Z.shiftl idx shift) (Z.shiftl n shift).
Proof.
  intros Hidx Hn Hs Hl. unfold frames_out, copy_out. rewrite !Z.shiftl_mul_pow2 in * by done.
  pose proof (Z.pow_pos_nonneg 2 shift ltac:(lia) Hs) as Hp. set (w := 2 ^ shift) in *.
  set (part1 := if bool_decide (frames - idx > n) then n else frames - idx).
  assert (part1 = Z.min (frames - idx) n) as Hp1 by (unfold part1; case_bool_decide; lia). clearbody part1.
  assert (Z.min (Z.of_nat (length buf) - idx * w) (n * w) = part1 * w) as -> by nia.
  replace (n * w - part1 * w) with ((n - part1) * w) by ring.
  rewrite !slice_ok by nia.
  destruct (decide (part1 > 0)) as [Hpos|Hpos].
  - rewrite (bool_decide_true (part1 > 0)) by done.
    destruct (decide (n - part1 > 0)).
    + by rewrite !bool_decide_true by lia.
    + assert (n - part1 = 0) as -> by lia. cbn. rewrite app_nil_r. by case_bool_decide.
  - rewrite bool_decide_false by done. assert (n = 0 ∧ part1 = 0) as [-> ->] by lia. done.
Qed.

(** ** Copies byte by byte

    [memcpy] is not atomic: a thread that runs meanwhile sees the buffer with some
    bytes written. *)

Section bytewise.
Context {A : Type}.
Implicit Types buf q d : list A.

(** The store of the byte that goes to position [pos]. *)
Definition put_at buf (pos : Z) (b : A) : list A := <[Z.to_nat (pos mod Z.of_nat (length buf)) := b]> buf.
Fixpoint put_all buf (pos : Z) d : list A :=
  match d with
  | [] => buf
  | b :: d => put_all (put_at buf pos b) (pos + 1) d
  end.

Lemma put_at_length buf pos b : length (put_at buf pos b) = length buf.
Proof. apply length_insert. Qed.
Lemma put_all_length buf pos d : length (put_all buf pos d) = length buf.
Proof. revert buf pos. induction d as [|b d IH]; intros; [done|]. cbn. by rewrite IH, put_at_length. Qed.

Lemma mod_offset_inj pos i j n : 0 ≤ i < n → 0 ≤ j < n → (pos + i) mod n = (pos + j) mod n → i = j.
Proof.
  intros Hi Hj E. pose proof (Z.div_mod (pos + i) n ltac:(lia)). pose proof (Z.div_mod (pos + j) n ltac:(lia)).
  assert ((pos + i) / n = (pos + j) / n) by nia. nia.
Qed.

Lemma put_all_lookup d : ∀ buf pos i, 0 ≤ i < Z.of_nat (length buf) → (length d ≤ length buf)%nat →
  put_all buf pos d !! Z.to_nat ((pos + i) mod Z.of_nat (length buf)) =
    if bool_decide (i < Z.of_nat (length d)) then d !! Z.to_nat i
    else buf !! Z.to_nat ((pos + i) mod Z.of_nat (length buf)).
Proof.
  induction d as [|b d IH]; intros buf pos i Hi Hd; [by rewrite bool_decide_false by (simpl; lia)|].
  cbn [put_all length]. simpl in Hd. set (n := Z.of_nat (length buf)) in *.
  pose proof (Z.mod_pos_bound pos n ltac:(lia)) as Hp.
  destruct (decide (i = 0)) as [->|].
  - rewrite bool_decide_true by lia. rewrite Z.add_0_r. cbn.
    specialize (IH (put_at buf pos b) (pos + 1) (n - 1)). rewrite put_at_length in IH. fold n in IH.
    replace (pos + 1 + (n - 1)) with (pos + 1 * n) in IH by lia. rewrite Z.mod_add in IH by lia.
    rewrite IH by lia. rewrite bool_decide_false by lia. unfold put_at. fold n.
    rewrite list_lookup_insert_eq; [done|lia].
  - specialize (IH (put_at buf pos b) (pos + 1) (i - 1)). rewrite put_at_length in IH. fold n in IH.
    replace (pos + 1 + (i - 1)) with (pos + i) in IH by lia. rewrite IH by lia.
    destruct (decide (i < Z.of_nat (S (length d)))).
    + rewrite !bool_decide_true by lia. replace (Z.to_nat i) with (S (Z.to_nat (i - 1))) by lia. done.
    + rewrite !bool_decide_false by lia. unfold put_at. fold n. apply list_lookup_insert_ne. intros E.
      apply Z2Nat.inj in E; [|lia|apply Z.mod_pos_bound; lia].
      rewrite <-(Z.add_0_r pos) in E at 1. apply mod_offset_inj in E; lia.
Qed.

(** The two copies of a transfer store the bytes one after the other. *)
Lemma copy_in_bytes buf idx d :
  0 ≤ idx < Z.of_nat (length buf) → (length d ≤ length buf)%nat → copy_in buf idx d = Some (put_all buf idx d).
Proof.
  intros Hidx Hd. destruct (copy_in_ok buf idx d) as (buf' & -> & Hl & Hb); [done|lia|]. f_equal.
  apply list_eq. intros j. destruct (decide (j < length buf)%nat) as [Hj|Hj].
  - set (n := Z.of_nat (length buf)) in *. set (i := (Z.of_nat j - idx) mod n).
    assert (0 ≤ i < n) as Hi by (apply Z.mod_pos_bound; lia).
    assert (Z.to_nat ((idx + i) mod n) = j) as Ej.
    { unfold i. rewrite Zplus_mod_idemp_r. replace (idx + (Z.of_nat j - idx)) with (Z.of_nat j) by lia.
      rewrite Z.mod_small by lia. lia. }
    rewrite <-Ej, Hb by done. unfold n. by rewrite put_all_lookup.
  - rewrite !lookup_ge_None_2; [done|rewrite put_all_length; lia|lia].
Qed.

(** A byte behind the queue. *)
Lemma ring_snoc buf pos q b :
  ring buf pos q → (length q < length buf)%nat → ring (put_at buf (pos + Z.of_nat (length q)) b) pos (q ++ [b]).
Proof.
  intros Hr Hl. set (n := Z.of_nat (length buf)).
  destruct (ring_write buf pos q [b] Hr) as (buf' & E & _ & Hr'); [simpl; lia|lia|]. fold n in E.
  rewrite copy_in_bytes in E by (try apply Z.mod_pos_bound; simpl; lia). injection E as <-.
  cbn [put_all] in Hr'. unfold put_at in *. fold n in Hr'. fold n. rewrite Z.mod_mod in Hr' by lia. done.
Qed.
End bytewise.
