(* ===== verification/LinearTransform.v ===== *)
(** * Linear transformations of 64-bit times

    [libs/utils/LinearTransform.cpp]: a time line is mapped to another by a
    rational factor of two 32-bit integers and two 64-bit origins.  The scaling
    goes through 96-bit intermediate values held in two 64-bit words; the
    conversions report every result that does not fit. *)

From Stdlib Require Import ZArith Lia Znumtheory.
From stdpp Require Import base tactics numbers option list.
From S2P Require Import Prelude Words.

(** [ABS], at the types it is used with: the negation wraps around. *)
Definition ABS32 (x : Z) : Z := if bool_decide (x < 0) then s32 (- x) else x.
Definition ABS64 (x : Z) : Z := if bool_decide (x < 0) then s64 (- x) else x.

(** [*res] and the value returned. *)
Definition scale_u64_to_u64 (val N D : Z) (round_up_not_down : bool) : Z * bool :=
  let tmp2 := u64 (Z.shiftr val 32 * N) in
  let tmp1 := u64 (Z.land val UINT32_MAX * N) in
  let tmp2 := u64 (tmp2 + Z.shiftr tmp1 32) in
  if bool_decide (Z.shiftr tmp2 32 >= D) then (UINT64_MAX, false) else
  let r := u32 (tmp2 mod D) in
  let tmp2 := tmp2 / D in
  let tmp1 := Z.lor (Z.land tmp1 UINT32_MAX) (u64 (Z.shiftl r 32)) in
  let r := u32 (tmp1 mod D) in
  let tmp1 := tmp1 / D in
  let res := Z.lor (u64 (Z.shiftl tmp2 32)) tmp1 in
  if negb (bool_decide (r = 0)) && round_up_not_down then
    let res := u64 (res + 1) in
    if bool_decide (res = 0) then (UINT64_MAX, false) else (res, true)
  else (res, true).

(** The second half of the transformation: the scaled magnitude gets its sign and
    the origin [basis2] is added; [None] when that does not fit. *)
Definition add_basis (is_neg : bool) (scaled basis2 : Z) : option Z :=
  if negb (bool_decide (Z.land scaled (u64 INT64_MIN) = 0)) then
    if is_neg && bool_decide (basis2 < 0) then None else
    if negb is_neg && bool_decide (basis2 >= 0) then None else
    if bool_decide (ABS64 basis2 <= s64 (Z.land scaled INT64_MAX)) then None else
    Some (s64 (u64 ((if is_neg then u64 (- scaled) else scaled) + basis2)))
  else
    let scaled := if is_neg then u64 (- scaled) else scaled in
    let res := u64 (scaled + basis2) in
    if negb (bool_decide (Z.land (Z.land (Z.lxor (Z.lxor scaled (u64 basis2)) (u64 INT64_MIN)) (Z.lxor scaled res))
                            (u64 INT64_MIN) = 0)) then None
    else Some (s64 res).

(** [Some out], or [None] when false is returned; [out] is never null at the callers. *)
Definition linear_transform_s64_to_s64 (val basis1 N D : Z) (invert_frac : bool) (basis2 : Z) : option Z :=
  let '(is_neg, abs_val) :=
    if bool_decide (val < basis1) then (true, u64 (s64 (basis1 - val)))
    else (false, u64 (s64 (val - basis1))) in
  let is_neg := if bool_decide (N < 0) then negb is_neg else is_neg in
  match scale_u64_to_u64 abs_val (if invert_frac then D else u32 (ABS32 N))
          (if invert_frac then u32 (ABS32 N) else D) is_neg with
  | (_, false) => None
  | (scaled, true) => add_basis is_neg scaled basis2
  end.

(** [struct LinearTransform]. *)
Record transform := LinearTransform {
  a_zero : Z;
  b_zero : Z;
  a_to_b_numer : Z;
  a_to_b_denom : Z
}.
Definition doForwardTransform (t : transform) (a_in : Z) : option Z :=
  if bool_decide (0 = a_to_b_denom t) then None
  else linear_transform_s64_to_s64 a_in (a_zero t) (a_to_b_numer t) (a_to_b_denom t) false (b_zero t).
Definition doReverseTransform (t : transform) (b_in : Z) : option Z :=
  if bool_decide (0 = a_to_b_numer t) then None
  else linear_transform_s64_to_s64 b_in (b_zero t) (a_to_b_numer t) (a_to_b_denom t) true (a_zero t).

(** [reduce]: the loop, with the values of [*N] and [*D] it divides. *)
Fixpoint reduce_loop (fuel : nat) (n d a b : Z) : option (Z * Z) :=
  match fuel with
  | O => None
  | S fuel =>
      let remainder := a mod b in
      if bool_decide (remainder = 0) then Some (n / b, d / b)
      else reduce_loop fuel n d b remainder
  end.
(** [*N] and [*D] afterwards; the pointers are never null at the callers.  A zero
    [*D] is left alone when assertions are off. *)
Definition reduce (n d : Z) : option (Z * Z) :=
  if bool_decide (d = 0) then Some (n, d) else
  if bool_decide (n = 0) then Some (n, 1) else
  let '(a, b) := if bool_decide (n < d) then (d, n) else (n, d) in
  reduce_loop (S (Z.to_nat b)) n d a b.
(** The instance for a signed numerator, which is reduced as a [uint32_t]. *)
Definition reduce_s32 (n d : Z) : option (Z * Z) :=
  if bool_decide (d = 0) then Some (n, d) else
  if bool_decide (n < 0) then
    match reduce (u32 (s32 (- n))) d with
    | Some (n', d') => Some (s32 (- s32 n'), d')
    | None => None
    end
  else match reduce (u32 n) d with Some (n', d') => Some (s32 n', d') | None => None end.

(** ** Scaling *)

(** [val * N / D], rounded down or up. *)
Definition scaled (val N D : Z) (up : bool) : Z := if up then (val * N + D - 1) / D else val * N / D.

Lemma div_up m d : 0 ≤ m → 0 < d → (m + d - 1) / d = if bool_decide (m mod d = 0) then m / d else m / d + 1.
Proof.
  intros Hm Hd. pose proof (Z.div_mod m d ltac:(lia)). pose proof (Z.mod_pos_bound m d Hd). case_bool_decide.
  - symmetry. apply (Z.div_unique _ _ _ (d - 1)); lia.
  - symmetry. apply (Z.div_unique _ _ _ (m mod d - 1)); lia.
Qed.

(** The two words the product is kept in. *)
Lemma product_words val N :
  is_u64 val → is_u32 N →
  u64 (Z.land val UINT32_MAX * N) = val mod 2 ^ 32 * N ∧
  (val mod 2 ^ 32 * N) mod 2 ^ 32 = (val * N) mod 2 ^ 32 ∧
  u64 (u64 (Z.shiftr val 32 * N) + Z.shiftr (val mod 2 ^ 32 * N) 32) = val * N / 2 ^ 32.
Proof.
  unfold is_u64, is_u32. intros Hv HN. rewrite land_u32_max, !Z.shiftr_div_pow2 by lia.
  pose proof (Z.div_mod val (2 ^ 32) ltac:(lia)) as Hval.
  pose proof (Z.mod_pos_bound val (2 ^ 32) ltac:(lia)) as Hlo.
  assert (0 ≤ val / 2 ^ 32 < 2 ^ 32) as Hhi by (split; [apply Z.div_pos|apply Z.div_lt_upper_bound]; lia).
  set (hi := val / 2 ^ 32) in *. set (lo := val mod 2 ^ 32) in *.
  assert (0 ≤ lo * N < 2 ^ 64) by nia. assert (0 ≤ hi * N < 2 ^ 64) by nia.
  assert (val * N = hi * N * 2 ^ 32 + lo * N) as Hm by (rewrite Hval; ring).
  assert (0 ≤ val * N < 2 ^ 96) by nia.
  split; [by apply u64_small|]. split.
  - rewrite Hm, Z.add_comm, Z.mod_add by lia. done.
  - rewrite (u64_small (hi * N)) by done. rewrite Hm, Z.div_add_l by lia. apply u64_small.
    rewrite <-Z.div_add_l, <-Hm by lia. split; [apply Z.div_pos; lia|apply Z.div_lt_upper_bound; lia].
Qed.

(** The long division of a 96-bit value by a 32-bit one, a word at a time. *)
Lemma long_division m D (t := m / 2 ^ 32) (w := m mod 2 ^ 32 + t mod D * 2 ^ 32) :
  0 ≤ m → 0 < D < 2 ^ 32 → t / 2 ^ 32 < D →
  0 ≤ t / D < 2 ^ 32 ∧ 0 ≤ w / D < 2 ^ 32 ∧ m / D = w / D + t / D * 2 ^ 32 ∧ m mod D = w mod D.
Proof.
  intros Hm HD Ht.
  pose proof (Z.div_mod m (2 ^ 32) ltac:(lia)) as Em. fold t in Em.
  pose proof (Z.mod_pos_bound m (2 ^ 32) ltac:(lia)) as Hlo.
  assert (0 ≤ t) as Ht0 by (apply Z.div_pos; lia).
  pose proof (Z.div_mod t D ltac:(lia)) as Et. pose proof (Z.mod_pos_bound t D ltac:(lia)) as Hr.
  pose proof (Z.div_mod t (2 ^ 32) ltac:(lia)). pose proof (Z.mod_pos_bound t (2 ^ 32) ltac:(lia)).
  assert (0 ≤ w < D * 2 ^ 32) as Hw by (unfold w; nia).
  assert (m = w + t / D * 2 ^ 32 * D) as Ew by (unfold w; nia).
  split_and!.
  - by apply Z.div_pos; lia.
  - apply Z.div_lt_upper_bound; nia.
  - apply Z.div_pos; lia.
  - apply Z.div_lt_upper_bound; lia.
  - rewrite Ew at 1. by rewrite Z.div_add by lia.
  - rewrite Ew at 1. by rewrite Z.mod_add by lia.
Qed.

Lemma scale_ok val N D up :
  is_u64 val → is_u32 N → is_u32 D → 0 < D →
  scale_u64_to_u64 val N D up =
    (if bool_decide (scaled val N D up < 2 ^ 64) then (scaled val N D up, true) else (UINT64_MAX, false)).
Proof.
  intros Hv HN HD HD0. unfold scale_u64_to_u64.
  destruct (product_words val N Hv HN) as (-> & Elo & ->).
  unfold is_u64, is_u32 in *. set (m := val * N) in *. assert (0 ≤ m) as Hm by (unfold m; nia).
  set (t := m / 2 ^ 32). rewrite Z.shiftr_div_pow2 by lia.
  assert (scaled val N D up = if up then (m + D - 1) / D else m / D) as -> by done.
  assert (t / 2 ^ 32 = m / 2 ^ 64) as Et by (unfold t; rewrite Z.div_div by lia; done).
  rewrite div_up by lia. destruct (bool_decide (t / 2 ^ 32 >= D)) eqn:Eov.
  - apply bool_decide_eq_true in Eov. rewrite Et in Eov.
    assert (2 ^ 64 ≤ m / D) as Hbig.
    { apply Z.div_le_lower_bound; [lia|]. pose proof (Z.mul_div_le m (2 ^ 64) ltac:(lia)). nia. }
    rewrite bool_decide_false; [done|]. destruct up; [case_bool_decide|]; lia.
  - apply bool_decide_eq_false in Eov.
    destruct (long_division m D Hm ltac:(lia) ltac:(fold t; lia)) as (Hhi & Hlo & Ediv & Emod). fold t in Hhi, Hlo, Ediv, Emod.
    rewrite land_u32_max, Elo.
    pose proof (Z.mod_pos_bound t D ltac:(lia)) as Hr.
    rewrite (u32_small (t mod D)), !Z.shiftl_mul_pow2 by lia.
    rewrite (u64_small (t mod D * 2 ^ 32)) by lia.
    rewrite lor_halves by (try apply Z.mod_pos_bound; lia).
    set (w := m mod 2 ^ 32 + t mod D * 2 ^ 32) in *.
    pose proof (Z.mod_pos_bound w D ltac:(lia)) as Hr2.
    rewrite (u32_small (w mod D)) by lia. rewrite (u64_small (t / D * 2 ^ 32)) by lia.
    rewrite Z.lor_comm, lor_halves by lia. rewrite <-Ediv, <-Emod.
    assert (0 ≤ m / D < 2 ^ 64) as Hq by lia.
    destruct (bool_decide (m mod D = 0)) eqn:Er; destruct up; cbn [negb andb];
      try (rewrite bool_decide_true by lia; done).
    destruct (decide (m / D + 1 = 2 ^ 64)) as [Heq|Hne].
    + rewrite Heq. rewrite (bool_decide_true (u64 (2 ^ 64) = 0)) by done. by rewrite bool_decide_false by lia.
    + rewrite u64_small by lia. rewrite bool_decide_false by lia. by rewrite bool_decide_true by lia.
Qed.

(** ** The transformation *)

(** The exact value, as the header documents it, rounded towards minus infinity. *)
Definition exact (val basis1 n d basis2 : Z) : Z := (val - basis1) * n / d + basis2.

(** The values the code returns: those that fit a 64-bit integer, but for two corners
    in which a scaled distance of 2^63 or more is brought back by the other origin. *)
Definition fits (q basis2 : Z) : Prop :=
  is_s64 (q + basis2) ∧ ¬ (q + basis2 = INT64_MIN ∧ q ≤ INT64_MIN) ∧ ¬ (basis2 = INT64_MIN ∧ 2 ^ 63 ≤ q).
#[export] Instance fits_dec q b : Decision (fits q b).
Proof. unfold fits, is_s64. apply _. Defined.

Lemma u64_INT64_MIN : u64 INT64_MIN = 2 ^ 63.
Proof. done. Qed.
Lemma s64_u64 x : s64 (u64 x) = s64 x.
Proof. unfold s64, u64. by rewrite Zplus_mod_idemp_l. Qed.
Lemma s64_u64_add x y : s64 (u64 (u64 x + y)) = s64 (x + y).
Proof. rewrite s64_u64. unfold s64, u64. by rewrite <-Z.add_assoc, Zplus_mod_idemp_l, Z.add_assoc. Qed.
Lemma u64_neg (x : Z) : - 2 ^ 64 ≤ x < 0 → u64 x = x + 2 ^ 64.
Proof. intros. unfold u64. symmetry. apply (Z.mod_unique x (2 ^ 64) (-1)); lia. Qed.
Lemma u64_sign x : is_s64 x → Z.testbit (u64 x) 63 = bool_decide (x < 0).
Proof.
  unfold is_s64. intros Hx. rewrite testbit_63 by apply u64_range. destruct (decide (x < 0)).
  - rewrite u64_neg by lia. rewrite !bool_decide_true; [done|lia|lia].
  - rewrite u64_small by lia. rewrite !bool_decide_false; [done|lia|lia].
Qed.

Lemma add_basis_ok (is_neg : bool) (sc b : Z) (q : Z := if is_neg then - sc else sc) :
  is_u64 sc → is_s64 b → add_basis is_neg sc b = if bool_decide (fits q b) then Some (q + b) else None.
Proof.
  intros Hsc Hb. unfold add_basis. rewrite u64_INT64_MIN. unfold is_u64, is_s64 in *.
  rewrite (bool_decide_ext _ _ (land_63 sc)), testbit_63 by done.
  destruct (decide (2 ^ 63 ≤ sc)) as [Hbig|Hsmall].
  - rewrite (bool_decide_true (2 ^ 63 ≤ sc)) by done. rewrite (bool_decide_false (true = false)) by done. cbn [negb].
    change INT64_MAX with (2 ^ 63 - 1). rewrite (land_ones_mod sc 63) by lia.
    assert (sc mod 2 ^ 63 = sc - 2 ^ 63) as -> by (symmetry; apply (Z.mod_unique sc (2 ^ 63) 1); lia).
    rewrite (s64_small (sc - 2 ^ 63)) by lia. unfold ABS64.
    assert ((if is_neg then u64 (- sc) else sc) = u64 q) as ->.
    { unfold q. destruct is_neg; [done|]. by rewrite u64_small. }
    rewrite s64_u64_add.
    destruct (bool_decide (fits q b)) eqn:Ef; [apply bool_decide_eq_true in Ef|apply bool_decide_eq_false in Ef];
      unfold fits, is_s64, INT64_MIN in Ef; destruct is_neg; cbn [andb negb]; unfold q in *.
    + rewrite (bool_decide_false (b < 0)) by lia. rewrite bool_decide_false by lia. by rewrite s64_small by lia.
    + rewrite (bool_decide_false (b >= 0)) by lia. rewrite (bool_decide_true (b < 0)) by lia.
      rewrite (s64_small (- b)) by lia. rewrite bool_decide_false by lia. by rewrite s64_small by lia.
    + case_bool_decide; [done|]. by rewrite bool_decide_true by lia.
    + case_bool_decide; [done|]. rewrite (bool_decide_true (b < 0)) by lia.
      destruct (decide (b = - 2 ^ 63)) as [->|].
      { change (s64 (- - 2 ^ 63)) with (- 2 ^ 63). by rewrite bool_decide_true by lia. }
      rewrite (s64_small (- b)) by lia. by rewrite bool_decide_true by lia.
  - rewrite (bool_decide_false (2 ^ 63 ≤ sc)) by done. rewrite (bool_decide_true (false = false)) by done. cbn [negb].
    assert ((if is_neg then u64 (- sc) else sc) = u64 q) as ->.
    { unfold q. destruct is_neg; [done|]. by rewrite u64_small. }
    assert (- 2 ^ 63 < q < 2 ^ 63) as Hq by (unfold q; destruct is_neg; lia). clearbody q.
    assert (u64 (u64 q + b) = u64 (q + b)) as -> by (unfold u64; by rewrite Zplus_mod_idemp_l).
    rewrite s64_u64, (bool_decide_ext _ _ (land_63 _)), Z.land_spec, !Z.lxor_spec, !u64_sign by (unfold is_s64; lia).
    rewrite (Z.pow2_bits_true 63), testbit_63 by (apply u64_range || lia).
    destruct (decide (fits q b)) as [Hf|Hf]; [rewrite (bool_decide_true (fits q b)) by done|
      rewrite (bool_decide_false (fits q b)) by done]; unfold fits, is_s64, INT64_MIN in Hf.
    + rewrite s64_small by lia. destruct (decide (q + b < 0)).
      * rewrite u64_neg by lia. rewrite (bool_decide_true (2 ^ 63 ≤ _)) by lia.
        by repeat case_bool_decide; try lia.
      * rewrite u64_small by lia. rewrite (bool_decide_false (2 ^ 63 ≤ _)) by lia.
        by repeat case_bool_decide; try lia.
    + destruct (decide (q + b < 0)).
      * rewrite u64_neg by lia. rewrite (bool_decide_false (2 ^ 63 ≤ _)) by lia.
        by rewrite (bool_decide_true (q < 0)), (bool_decide_true (b < 0)) by lia.
      * rewrite u64_small by lia. rewrite (bool_decide_true (2 ^ 63 ≤ _)) by lia.
        by rewrite (bool_decide_false (q < 0)), (bool_decide_false (b < 0)) by lia.
Qed.

Lemma div_neg m d : 0 ≤ m → 0 < d → - m / d = - ((m + d - 1) / d).
Proof.
  intros Hm Hd. pose proof (Z.div_mod (m + d - 1) d ltac:(lia)). pose proof (Z.mod_pos_bound (m + d - 1) d Hd).
  symmetry. apply (Z.div_unique _ _ _ (d - 1 - (m + d - 1) mod d)); lia.
Qed.
Lemma u64_s64 x : u64 (s64 x) = u64 x.
Proof. unfold u64, s64. rewrite Zminus_mod_idemp_l. f_equal. lia. Qed.
Lemma u32_ABS32 n : is_s32 n → u32 (ABS32 n) = Z.abs n.
Proof.
  unfold is_s32, ABS32. intros Hn. case_bool_decide; [|rewrite u32_small; lia].
  destruct (decide (n = - 2 ^ 31)) as [->|]; [done|]. rewrite s32_small, u32_small by lia. lia.
Qed.

Lemma linear_ok val basis1 N D inv basis2
    (n := if inv : bool then D else N) (d := if inv then N else D) (q := (val - basis1) * n / d) :
  is_s64 val → is_s64 basis1 → is_s32 N → is_u32 D → is_s64 basis2 → d ≠ 0 →
  linear_transform_s64_to_s64 val basis1 N D inv basis2 =
    if bool_decide (fits q basis2) then Some (q + basis2) else None.
Proof.
  intros Hv Hb1 HN HD Hb2 Hd. unfold linear_transform_s64_to_s64. rewrite u32_ABS32 by done.
  unfold is_s64, is_s32, is_u32 in Hv, Hb1, HN, HD, Hb2.
  set (x := val - basis1) in *. set (neg := xorb (bool_decide (x < 0)) (bool_decide (N < 0))).
  assert ((if bool_decide (val < basis1) then (true, u64 (s64 (basis1 - val))) else (false, u64 (s64 x))) =
    (bool_decide (x < 0), Z.abs x)) as ->.
  { rewrite !u64_s64. unfold x. destruct (decide (val < basis1)).
    - rewrite !bool_decide_true by lia. rewrite u64_small by lia. f_equal. lia.
    - rewrite !bool_decide_false by lia. rewrite u64_small by lia. f_equal. lia. }
  assert ((if bool_decide (N < 0) then negb (bool_decide (x < 0)) else bool_decide (x < 0)) = neg) as ->
    by (unfold neg; by repeat case_bool_decide).
  set (n' := if inv then D else Z.abs N). set (d' := if inv then Z.abs N else D).
  assert (0 < d' ∧ 0 ≤ n' < 2 ^ 32 ∧ 0 ≤ d' < 2 ^ 32) as (Hd' & Hn' & Hd2) by (unfold n', d', d in *; destruct inv; lia).
  assert (q = if neg then - scaled (Z.abs x) n' d' true else scaled (Z.abs x) n' d' false) as Hq.
  { assert (q = (if neg then - (Z.abs x * n') else Z.abs x * n') / d') as ->.
    - unfold q, n, d, n', d', neg. destruct inv; repeat case_bool_decide; cbn [xorb]; try (f_equal; lia).
      + rewrite <-(Z.div_opp_opp _ N) by (unfold d in *; lia). f_equal; lia.
      + rewrite <-(Z.div_opp_opp _ N) by (unfold d in *; lia). f_equal; lia.
    - unfold scaled. destruct neg; [|done]. apply div_neg; nia. }
  assert (is_u64 (Z.abs x)) as Hx by (unfold is_u64; lia).
  rewrite scale_ok by done.
  assert (0 ≤ scaled (Z.abs x) n' d' neg) as Hs0 by (unfold scaled; destruct neg; apply Z.div_pos; nia).
  assert (q = if neg then - scaled (Z.abs x) n' d' neg else scaled (Z.abs x) n' d' neg) as Hq' by (rewrite Hq; by destruct neg).
  case_bool_decide as Hfit.
  - rewrite add_basis_ok by done. by rewrite <-Hq'.
  - rewrite bool_decide_false; [done|]. unfold fits, is_s64. destruct neg; lia.
Qed.

(** The conversions compute what the header documents, in unbounded arithmetic
    and rounded towards minus infinity, through their 64-bit intermediate values;
    they fail exactly for a singular factor, for a result that does not fit 64
    bits, and in the two corners that [fits] describes. *)
Theorem transform_spec (t : transform) (x : Z)
    (Ha : is_s64 (a_zero t)) (Hb : is_s64 (b_zero t)) (Hn : is_s32 (a_to_b_numer t)) (Hd : is_u32 (a_to_b_denom t))
    (Hx : is_s64 x) :
  doForwardTransform t x =
    (if decide (a_to_b_denom t ≠ 0 ∧ fits ((x - a_zero t) * a_to_b_numer t / a_to_b_denom t) (b_zero t))
     then Some (exact x (a_zero t) (a_to_b_numer t) (a_to_b_denom t) (b_zero t)) else None) ∧
  doReverseTransform t x =
    (if decide (a_to_b_numer t ≠ 0 ∧ fits ((x - b_zero t) * a_to_b_denom t / a_to_b_numer t) (a_zero t))
     then Some (exact x (b_zero t) (a_to_b_denom t) (a_to_b_numer t) (a_zero t)) else None).
Proof.
  unfold doForwardTransform, doReverseTransform, exact. split.
  - case_bool_decide; [by rewrite decide_False by naive_solver|]. rewrite linear_ok by (done || lia).
    case_bool_decide; [by rewrite decide_True by (split; [lia|done])|by rewrite decide_False by naive_solver].
  - case_bool_decide; [by rewrite decide_False by naive_solver|]. rewrite linear_ok by (done || lia).
    case_bool_decide; [by rewrite decide_True by (split; [lia|done])|by rewrite decide_False by naive_solver].
Qed.
Lemma transform_spec_witness :
  doForwardTransform (LinearTransform 7 (-5) (-1000) 3) 8 = Some (-339) ∧
  doReverseTransform (LinearTransform 7 (-5) (-1000) 3) (-339) = Some 8 ∧
  doForwardTransform (LinearTransform 0 0 2 1) INT64_MAX = None.
Proof.
  pose proof (transform_spec (LinearTransform 7 (-5) (-1000) 3) 8) as H1.
  pose proof (transform_spec (LinearTransform 7 (-5) (-1000) 3) (-339)) as H2.
  pose proof (transform_spec (LinearTransform 0 0 2 1) INT64_MAX) as H3.
  unfold is_s64, is_s32, is_u32 in *. cbn [a_zero b_zero a_to_b_numer a_to_b_denom] in *.
  specialize (H1 ltac:(lia) ltac:(lia) ltac:(lia) ltac:(lia) ltac:(lia)) as [H1 _].
  specialize (H2 ltac:(lia) ltac:(lia) ltac:(lia) ltac:(lia) ltac:(lia)) as [_ H2].
  specialize (H3 ltac:(lia) ltac:(lia) ltac:(lia) ltac:(lia) ltac:(unfold INT64_MAX; lia)) as [H3 _].
  split_and!; [rewrite H1|rewrite H2|rewrite H3]; vm_compute; reflexivity.
Defined.

(** ** Reducing a fraction *)

Lemma reduce_loop_ok n d : ∀ fuel a b,
  0 ≤ a → 0 < b → (Z.to_nat b < fuel)%nat → Z.gcd a b = Z.gcd n d →
  reduce_loop fuel n d a b = Some (n / Z.gcd n d, d / Z.gcd n d).
Proof.
  induction fuel as [|fuel IH]; intros a b Ha Hb Hf Hg; [lia|]. cbn [reduce_loop].
  pose proof (Z.mod_pos_bound a b Hb) as Hr.
  assert (Z.gcd a b = Z.gcd b (a mod b)) as Hg' by (by rewrite Z.gcd_comm, <-Z.gcd_mod, Z.gcd_comm by lia).
  case_bool_decide as H0.
  - rewrite H0, Z.gcd_0_r, Z.abs_eq in Hg' by lia. by rewrite <-Hg, Hg'.
  - apply IH; [lia|lia|lia|congruence].
Qed.

(** C39: [reduce] ends for every fraction (the loop needs no more rounds than the
    smaller of its two numbers) and leaves it in lowest terms. *)
Theorem reduce_spec (n d : Z) (Hn : 0 ≤ n) (Hd : 0 < d) :
  ∃ n' d', reduce n d = Some (n', d') ∧ n' * d = n * d' ∧ Z.gcd n' d' = 1 ∧ 0 < d' ≤ d ∧ 0 ≤ n' ≤ n.
Proof.
  assert (reduce n d = Some (n / Z.gcd n d, d / Z.gcd n d)) as ->.
  { unfold reduce. rewrite bool_decide_false by lia. case_bool_decide as H0.
    - subst n. rewrite Z.gcd_0_l, Z.abs_eq by lia. by rewrite Z.div_same by lia.
    - case_bool_decide; apply reduce_loop_ok; try lia. apply Z.gcd_comm. }
  assert (0 < Z.gcd n d) as Hg by (pose proof (Z.gcd_nonneg n d); destruct (decide (Z.gcd n d = 0)) as [?%Z.gcd_eq_0|]; lia).
  destruct (Z.gcd_divide_l n d) as [a Ha]. destruct (Z.gcd_divide_r n d) as [b Hb].
  eexists _, _. split; [done|].
  assert (n / Z.gcd n d = a) as Ea by (rewrite Ha at 1; by apply Z.div_mul; lia).
  assert (d / Z.gcd n d = b) as Eb by (rewrite Hb at 1; by apply Z.div_mul; lia).
  split; [rewrite Ea, Eb; nia|]. split; [by apply Z.gcd_div_gcd; lia|]. rewrite Ea, Eb. split; nia.
Qed.
Lemma reduce_spec_witness :
  reduce 44100 48000 = Some (147, 160) ∧
  ∃ n' d', reduce 44100 48000 = Some (n', d') ∧ n' * 48000 = 44100 * d' ∧ Z.gcd n' d' = 1 ∧ 0 < d' ≤ 48000 ∧ 0 ≤ n' ≤ 44100.
Proof. split; [vm_compute; reflexivity|]. apply (reduce_spec 44100 48000); lia. Defined.
