(* ===== verification/Nbaio.v ===== *)
(** * Ports of the audio data path

    [libs/libnbaio/NBAIO.cpp], [libs/libnbaio/roundup.cpp]: formats, their
    negotiation between the two ends of a connection, and the default transfers by
    callback.  [size_t] and [ssize_t] have 32 bits, as in the binaries of the
    repository. *)

From Stdlib Require Import ZArith Lia.
From stdpp Require Import base tactics numbers option list sets.
From S2P Require Import Prelude Words.

(** ** Status values *)

Definition OK : Z := 0.
Definition WOULD_BLOCK : Z := -11.
Definition NOT_ENOUGH_DATA : Z := -61.
Definition UNKNOWN_ERROR : Z := s32 2147483648.
Definition NEGOTIATE : Z := s32 2147483664.
Definition OVERRUN : Z := s32 2147483665.
Definition UNDERRUN : Z := s32 2147483666.

(** ** Formats *)

Definition Format_Invalid : Z := 0.
Definition Format_SR_Mask : Z := 7.
Definition Format_C_1 : Z := 8.
Definition Format_C_2 : Z := 16.
Definition Format_C_Mask : Z := 24.

Definition Format_sampleRate (format : Z) : Z :=
  if bool_decide (format = Format_Invalid) then 0
  else match Z.land format Format_SR_Mask with
  | 0 => 8000 | 1 => 11025 | 2 => 16000 | 3 => 22050
  | 4 => 24000 | 5 => 32000 | 6 => 44100 | 7 => 48000
  | _ => 0
  end.
Definition Format_channelCount (format : Z) : Z :=
  if bool_decide (format = Format_Invalid) then 0
  else match Z.land format Format_C_Mask with
  | 8 => 1 | 16 => 2
  | _ => 0
  end.
Definition Format_frameSize (format : Z) : Z := Format_channelCount format * 2.
Definition Format_frameBitShift (format : Z) : Z := Format_channelCount format.

(** The rates, at their positions in the enumeration. *)
Definition sample_rates : list Z := [8000; 11025; 16000; 22050; 24000; 32000; 44100; 48000].
Fixpoint rate_index (rates : list Z) (sampleRate i : Z) : option Z :=
  match rates with
  | [] => None
  | r :: rates => if bool_decide (sampleRate = r) then Some i else rate_index rates sampleRate (i + 1)
  end.
Definition Format_from_SR_C (sampleRate channelCount : Z) : Z :=
  match rate_index sample_rates sampleRate 0 with
  | None => Format_Invalid
  | Some format =>
      if bool_decide (channelCount = 1) then Z.lor format Format_C_1
      else if bool_decide (channelCount = 2) then Z.lor format Format_C_2
      else Format_Invalid
  end.

(** ** [roundup] *)

(** [__builtin_clz] on a 32-bit value that is not zero. *)
Definition clz32 (v : Z) : Z := 31 - Z.log2 v.
Definition roundup (v : Z) : Z :=
  let v := if bool_decide (v = 0) then 1 else v in
  let lz := clz32 v in
  let rounded := Z.shiftr 2147483648 lz in
  if bool_decide (v > rounded) && bool_decide (lz > 0) then u32 (Z.shiftl rounded 1) else rounded.

(** ** Negotiation *)

(** The fields of [NBAIO_Port]. *)
Record port := Port { mNegotiated : bool; mFormat : Z; mBitShift : Z }.
Definition port_new (format : Z) : port := Port false format (Format_frameBitShift format).
Definition port_format (p : port) : Z := if mNegotiated p then mFormat p else Format_Invalid.

(** The value returned, the counter-offers and their number. *)
Fixpoint find_offer (offers : list Z) (format i : Z) : option Z :=
  match offers with
  | [] => None
  | o :: rest => if bool_decide (o = format) then Some i else find_offer rest format (i + 1)
  end.
Definition negotiate (p : port) (offers counterOffers : list Z) (numCounterOffers : Z)
    : Z * list Z * Z * port :=
  if bool_decide (mFormat p ≠ Format_Invalid) then
    match find_offer offers (mFormat p) 0 with
    | Some i => (i, counterOffers, numCounterOffers, Port true (mFormat p) (mBitShift p))
    | None =>
        let counterOffers := if bool_decide (numCounterOffers > 0) then <[0%nat := mFormat p]> counterOffers else counterOffers in
        (NEGOTIATE, counterOffers, 1, p)
    end
  else (NEGOTIATE, counterOffers, 0, p).

(** ** Transfers by callback

    The default [writeVia] and [readVia] on any sink or source; the callback and
    the sink work on one common state, which holds all they can reach. *)

(** What a sink and a source offer: [write(buffer, count)] and [read(buffer, count,
    readPTS)]; a source returns the bytes it has put into the buffer. *)
Class NBAIO_Sink (St : Type) := {
  sink_port : St → port;
  sink_write : list Z → Z → M St Z
}.
Class NBAIO_Source (St : Type) := {
  source_port : St → port;
  source_set_port : port → St → St;
  source_availableToRead : M St Z;
  source_read : Z → Z → M St (Z * list Z)
}.

Definition maxBlock : Z := 32.

Fixpoint writeVia_loop {St} `{!NBAIO_Sink St} (fuel : nat) (via : Z → M St (Z * list Z)) (total block accumulator : Z) : M St Z :=
  match fuel with
  | O => crash_with CrashFuel
  | S fuel =>
      if bool_decide (accumulator < total) then
        let count := total - accumulator in
        let count := if bool_decide (count > block) then block else count in
        r <- via count ;;
        let '(ret_, buffer) := r in
        ret_ <- (if bool_decide (ret_ > 0) then sink_write buffer ret_ else ret ret_) ;;
        (if bool_decide (ret_ > 0) then writeVia_loop fuel via total block (u32 (accumulator + ret_))
        else ret (if bool_decide (accumulator > 0) then s32 accumulator else ret_))
      else ret (s32 accumulator)
  end.
Definition writeVia {St} `{!NBAIO_Sink St} (via : Z → M St (Z * list Z)) (total block : Z) : M St Z :=
  s <- getst ;;
  if negb (mNegotiated (sink_port s)) then ret NEGOTIATE else
  let block := if bool_decide (block = 0) || bool_decide (block > maxBlock) then maxBlock else block in
  writeVia_loop (S (Z.to_nat total)) via total block 0.

Fixpoint readVia_loop {St} `{!NBAIO_Source St} (fuel : nat) (via : list Z → Z → Z → M St Z) (total readPTS block accumulator : Z) : M St Z :=
  match fuel with
  | O => crash_with CrashFuel
  | S fuel =>
      if bool_decide (accumulator < total) then
        let count := total - accumulator in
        let count := if bool_decide (count > block) then block else count in
        r <- source_read count readPTS ;;
        let '(ret_, buffer) := r in
        ret_ <- (if bool_decide (ret_ > 0) then via buffer ret_ readPTS else ret ret_) ;;
        (if bool_decide (ret_ > 0) then readVia_loop fuel via total readPTS block (u32 (accumulator + ret_))
        else ret (if bool_decide (accumulator > 0) then s32 accumulator else ret_))
      else ret (s32 accumulator)
  end.
Definition readVia {St} `{!NBAIO_Source St} (via : list Z → Z → Z → M St Z) (total readPTS block : Z) : M St Z :=
  s <- getst ;;
  if negb (mNegotiated (source_port s)) then ret NEGOTIATE else
  let block := if bool_decide (block = 0) || bool_decide (block > maxBlock) then maxBlock else block in
  readVia_loop (S (Z.to_nat total)) via total readPTS block 0.

(** ** Formats, rounding and negotiation are what they should be *)

Lemma rate_index_None rates r i : r ∉ rates → rate_index rates r i = None.
Proof.
  revert i. induction rates as [|x rates IH]; intros i Hr; [done|]. cbn.
  rewrite bool_decide_false by set_solver. apply IH. set_solver.
Qed.

Lemma Format_from_ok rate channels : rate ∈ sample_rates → channels = 1 ∨ channels = 2 →
  let format := Format_from_SR_C rate channels in
  Format_sampleRate format = rate ∧ Format_channelCount format = channels ∧ format ≠ Format_Invalid.
Proof.
  unfold sample_rates. rewrite !elem_of_cons. intros Hr Hc.
  destruct Hc as [-> | ->]; repeat (destruct Hr as [->|Hr]; [by vm_compute|]); by apply elem_of_nil in Hr.
Qed.
Lemma frame_size_shift channels : channels = 1 ∨ channels = 2 → channels * 2 = 2 ^ channels.
Proof. by intros [-> | ->]. Qed.

(** C40: the formats that can be made are in one-to-one correspondence with the sixteen
    pairs of a supported rate and one or two channels: a format gives its pair
    back, every other pair gives [Format_Invalid], and a frame then has
    [2 ^ mBitShift] bytes. *)
Theorem Format_roundtrip (rate channels : Z) :
  if decide (rate ∈ sample_rates ∧ (channels = 1 ∨ channels = 2)) then
    Format_sampleRate (Format_from_SR_C rate channels) = rate ∧
    Format_channelCount (Format_from_SR_C rate channels) = channels ∧
    Format_frameSize (Format_from_SR_C rate channels) = 2 ^ Format_frameBitShift (Format_from_SR_C rate channels)
  else Format_from_SR_C rate channels = Format_Invalid.
Proof.
  case_decide as Hd.
  - destruct Hd as [Hr Hc]. destruct (Format_from_ok rate channels Hr Hc) as (E1 & E2 & _). cbv zeta in *.
    split; [done|]. split; [done|]. unfold Format_frameSize, Format_frameBitShift. rewrite E2. by apply frame_size_shift.
  - unfold Format_from_SR_C. destruct (decide (rate ∈ sample_rates)) as [Hr|Hr].
    + destruct (rate_index sample_rates rate 0); [|done]. by rewrite !bool_decide_false by tauto.
    + by rewrite rate_index_None.
Qed.

Lemma roundup_ok (v : Z) : 0 ≤ v < 2 ^ 32 →
  ∃ k, 0 ≤ k ≤ 31 ∧ roundup v = 2 ^ k ∧
    (v ≤ 2 ^ 31 → v ≤ 2 ^ k ∧ ∀ j, 0 ≤ j → v ≤ 2 ^ j → k ≤ j) ∧ (2 ^ 31 < v → k = 31).
Proof.
  intros Hv. unfold roundup, clz32. set (w := if bool_decide (v = 0) then 1 else v).
  assert (1 ≤ w < 2 ^ 32 ∧ v ≤ w ∧ (v = 0 ∧ w = 1 ∨ w = v)) as (Hw & Hvw & Hwv) by (unfold w; case_bool_decide; lia).
  clearbody w.
  pose proof (Z.log2_spec w ltac:(lia)) as Hl. set (l := Z.log2 w) in *.
  assert (0 ≤ l) as Hl0 by apply Z.log2_nonneg.
  assert (l < 32) as Hl32 by (apply (Z.pow_lt_mono_r_iff 2); lia).
  assert (Z.shiftr 2147483648 (31 - l) = 2 ^ l) as ->.
  { rewrite Z.shiftr_div_pow2 by lia. change 2147483648 with (2 ^ 31).
    rewrite <-Z.pow_sub_r by lia. f_equal. lia. }
  assert (∀ j, 0 ≤ j → 2 ^ l < w → w ≤ 2 ^ j → l + 1 ≤ j) as Hmin.
  { intros j Hj H1 H2. apply Z.le_succ_l, (Z.pow_lt_mono_r_iff 2); lia. }
  assert (∀ j, 0 ≤ j → w ≤ 2 ^ j → l ≤ j) as Hmin2.
  { intros j Hj H2. apply (Z.pow_le_mono_r_iff 2); lia. }
  destruct (bool_decide (w > 2 ^ l)) eqn:E1; [apply bool_decide_eq_true in E1|apply bool_decide_eq_false in E1];
    [destruct (bool_decide (31 - l > 0)) eqn:E2; [apply bool_decide_eq_true in E2|apply bool_decide_eq_false in E2]|];
    cbn [andb].
  - exists (l + 1). rewrite Z.shiftl_mul_pow2 by lia.
    assert (2 ^ (l + 1) = 2 ^ l * 2 ^ 1) as Hp by (rewrite Z.pow_add_r; lia).
    assert (2 ^ (l + 1) ≤ 2 ^ 31) by (apply Z.pow_le_mono_r; lia).
    rewrite u32_small by lia. split_and!; [lia|lia|lia| |].
    + intros _. rewrite Z.pow_succ_r in Hl by lia. split; [lia|]. intros j Hj Hvj. apply Hmin; [done|lia|].
      destruct Hwv as [[-> ->]|]; [|lia]. pose proof (Z.pow_pos_nonneg 2 j). lia.
    + intros. assert (2 ^ 31 < 2 ^ Z.succ l) as Hlt by lia. apply (Z.pow_lt_mono_r_iff 2) in Hlt; lia.
  - exists l. split_and!; [lia|lia|done| |lia]. intros Hle. exfalso.
    assert (l = 31) as Hl31 by lia. rewrite Hl31 in *. lia.
  - exists l. split_and!; [lia|lia|done| |].
    + intros _. split; [lia|]. intros j Hj Hvj. apply Hmin2; [done|].
      destruct Hwv as [[-> ->]|]; [|lia]. pose proof (Z.pow_pos_nonneg 2 j). lia.
    + intros. assert (2 ^ 31 < 2 ^ l) as Hlt by lia. apply (Z.pow_lt_mono_r_iff 2) in Hlt; lia.
Qed.

(** [roundup] returns a power of two; up to 2^31 it is the least one that is not
    smaller than its argument (1 for 0), and above that it is 2^31. *)
Theorem roundup_spec (v : Z) (Hv : 0 ≤ v < 2 ^ 32) :
  ∃ k, 0 ≤ k ≤ 31 ∧ roundup v = 2 ^ k ∧
    (v ≤ 2 ^ 31 → v ≤ 2 ^ k ∧ ∀ j, 0 ≤ j → v ≤ 2 ^ j → k ≤ j) ∧ (2 ^ 31 < v → k = 31).
Proof. by apply roundup_ok. Qed.
Lemma roundup_spec_witness : roundup 1000 = 1024 ∧
  ∃ k, 0 ≤ k ≤ 31 ∧ roundup 1000 = 2 ^ k ∧
    (1000 ≤ 2 ^ 31 → 1000 ≤ 2 ^ k ∧ ∀ j, 0 ≤ j → 1000 ≤ 2 ^ j → k ≤ j) ∧ (2 ^ 31 < 1000 → k = 31).
Proof. split; [reflexivity|]. apply (roundup_spec 1000). lia. Defined.

(** Asking a port for its format, and giving it the format. *)
Lemma negotiate_ask p counterOffers n : mFormat p ≠ Format_Invalid → 0 < n →
  negotiate p [] counterOffers n = (NEGOTIATE, <[0%nat := mFormat p]> counterOffers, 1, p).
Proof. intros Hf Hn. unfold negotiate. rewrite bool_decide_true by done. cbn [find_offer]. by rewrite bool_decide_true by lia. Qed.
Lemma negotiate_accept p counterOffers n : mFormat p ≠ Format_Invalid →
  negotiate p [mFormat p] counterOffers n = (0, counterOffers, n, Port true (mFormat p) (mBitShift p)).
Proof. intros Hf. unfold negotiate. rewrite bool_decide_true by done. cbn [find_offer]. by rewrite bool_decide_true. Qed.
