(* ===== verification/MonoPipe.v ===== *)
(** * MonoPipe

    [libs/libnbaio/MonoPipe.cpp], [libs/libnbaio/MonoPipeReader.cpp]: the pipe
    between a writer and the mixer thread that is its only reader.  Frames are
    passed in a ring buffer; with the position of the reader goes the time at which
    its next frame will be heard.  A write may block: it then sleeps so as to keep
    the pipe near a set point, while the reader goes on. *)

From Stdlib Require Import ZArith Lia.
From stdpp Require Import base tactics numbers option list.
From S2P Require Import Prelude Words LinearTransform Nbaio Ring.

(** [AudioBufferProvider::kInvalidPTS]. *)
Definition kInvalidPTS : Z := 2 ^ 63 - 1.

(** [class MonoPipe], with the [NBAIO_Sink] it derives from. *)
Record monopipe := MonoPipe_ {
  mPort : port;
  mFramesWritten : Z;
  mUpdateSeq : Z;
  mReqFrames : Z;
  mMaxFrames : Z;
  mBuffer : list Z;
  mFront : Z;
  mRear : Z;
  mNextRdPTS : Z;
  mWriteTsValid : bool;
  mWriteTs : Z * Z;
  mSetpoint : Z;
  mWriteCanBlock : bool;
  mSamplesToLocalTime : transform;
  mIsShutdown : bool
}.
Definition set_mPort (v : port) (x : monopipe) : monopipe :=
  MonoPipe_ v (mFramesWritten x) (mUpdateSeq x) (mReqFrames x) (mMaxFrames x) (mBuffer x) (mFront x) (mRear x)
    (mNextRdPTS x) (mWriteTsValid x) (mWriteTs x) (mSetpoint x) (mWriteCanBlock x) (mSamplesToLocalTime x)
    (mIsShutdown x).
Definition set_mFramesWritten (v : Z) (x : monopipe) : monopipe :=
  MonoPipe_ (mPort x) v (mUpdateSeq x) (mReqFrames x) (mMaxFrames x) (mBuffer x) (mFront x) (mRear x)
    (mNextRdPTS x) (mWriteTsValid x) (mWriteTs x) (mSetpoint x) (mWriteCanBlock x) (mSamplesToLocalTime x)
    (mIsShutdown x).
Definition set_mUpdateSeq (v : Z) (x : monopipe) : monopipe :=
  MonoPipe_ (mPort x) (mFramesWritten x) v (mReqFrames x) (mMaxFrames x) (mBuffer x) (mFront x) (mRear x)
    (mNextRdPTS x) (mWriteTsValid x) (mWriteTs x) (mSetpoint x) (mWriteCanBlock x) (mSamplesToLocalTime x)
    (mIsShutdown x).
Definition set_mReqFrames (v : Z) (x : monopipe) : monopipe :=
  MonoPipe_ (mPort x) (mFramesWritten x) (mUpdateSeq x) v (mMaxFrames x) (mBuffer x) (mFront x) (mRear x)
    (mNextRdPTS x) (mWriteTsValid x) (mWriteTs x) (mSetpoint x) (mWriteCanBlock x) (mSamplesToLocalTime x)
    (mIsShutdown x).
Definition set_mMaxFrames (v : Z) (x : monopipe) : monopipe :=
  MonoPipe_ (mPort x) (mFramesWritten x) (mUpdateSeq x) (mReqFrames x) v (mBuffer x) (mFront x) (mRear x)
    (mNextRdPTS x) (mWriteTsValid x) (mWriteTs x) (mSetpoint x) (mWriteCanBlock x) (mSamplesToLocalTime x)
    (mIsShutdown x).
Definition set_mBuffer (v : list Z) (x : monopipe) : monopipe :=
  MonoPipe_ (mPort x) (mFramesWritten x) (mUpdateSeq x) (mReqFrames x) (mMaxFrames x) v (mFront x) (mRear x)
    (mNextRdPTS x) (mWriteTsValid x) (mWriteTs x) (mSetpoint x) (mWriteCanBlock x) (mSamplesToLocalTime x)
    (mIsShutdown x).
Definition set_mFront (v : Z) (x : monopipe) : monopipe :=
  MonoPipe_ (mPort x) (mFramesWritten x) (mUpdateSeq x) (mReqFrames x) (mMaxFrames x) (mBuffer x) v (mRear x)
    (mNextRdPTS x) (mWriteTsValid x) (mWriteTs x) (mSetpoint x) (mWriteCanBlock x) (mSamplesToLocalTime x)
    (mIsShutdown x).
Definition set_mRear (v : Z) (x : monopipe) : monopipe :=
  MonoPipe_ (mPort x) (mFramesWritten x) (mUpdateSeq x) (mReqFrames x) (mMaxFrames x) (mBuffer x) (mFront x) v
    (mNextRdPTS x) (mWriteTsValid x) (mWriteTs x) (mSetpoint x) (mWriteCanBlock x) (mSamplesToLocalTime x)
    (mIsShutdown x).
Definition set_mNextRdPTS (v : Z) (x : monopipe) : monopipe :=
  MonoPipe_ (mPort x) (mFramesWritten x) (mUpdateSeq x) (mReqFrames x) (mMaxFrames x) (mBuffer x) (mFront x)
    (mRear x) v (mWriteTsValid x) (mWriteTs x) (mSetpoint x) (mWriteCanBlock x) (mSamplesToLocalTime x)
    (mIsShutdown x).
Definition set_mWriteTsValid (v : bool) (x : monopipe) : monopipe :=
  MonoPipe_ (mPort x) (mFramesWritten x) (mUpdateSeq x) (mReqFrames x) (mMaxFrames x) (mBuffer x) (mFront x)
    (mRear x) (mNextRdPTS x) v (mWriteTs x) (mSetpoint x) (mWriteCanBlock x) (mSamplesToLocalTime x) (mIsShutdown
    x).
Definition set_mWriteTs (v : Z * Z) (x : monopipe) : monopipe :=
  MonoPipe_ (mPort x) (mFramesWritten x) (mUpdateSeq x) (mReqFrames x) (mMaxFrames x) (mBuffer x) (mFront x)
    (mRear x) (mNextRdPTS x) (mWriteTsValid x) v (mSetpoint x) (mWriteCanBlock x) (mSamplesToLocalTime x)
    (mIsShutdown x).
Definition set_mSetpoint (v : Z) (x : monopipe) : monopipe :=
  MonoPipe_ (mPort x) (mFramesWritten x) (mUpdateSeq x) (mReqFrames x) (mMaxFrames x) (mBuffer x) (mFront x)
    (mRear x) (mNextRdPTS x) (mWriteTsValid x) (mWriteTs x) v (mWriteCanBlock x) (mSamplesToLocalTime x)
    (mIsShutdown x).
Definition set_mWriteCanBlock (v : bool) (x : monopipe) : monopipe :=
  MonoPipe_ (mPort x) (mFramesWritten x) (mUpdateSeq x) (mReqFrames x) (mMaxFrames x) (mBuffer x) (mFront x)
    (mRear x) (mNextRdPTS x) (mWriteTsValid x) (mWriteTs x) (mSetpoint x) v (mSamplesToLocalTime x) (mIsShutdown
    x).
Definition set_mSamplesToLocalTime (v : transform) (x : monopipe) : monopipe :=
  MonoPipe_ (mPort x) (mFramesWritten x) (mUpdateSeq x) (mReqFrames x) (mMaxFrames x) (mBuffer x) (mFront x)
    (mRear x) (mNextRdPTS x) (mWriteTsValid x) (mWriteTs x) (mSetpoint x) (mWriteCanBlock x) v (mIsShutdown x).
Definition set_mIsShutdown (v : bool) (x : monopipe) : monopipe :=
  MonoPipe_ (mPort x) (mFramesWritten x) (mUpdateSeq x) (mReqFrames x) (mMaxFrames x) (mBuffer x) (mFront x)
    (mRear x) (mNextRdPTS x) (mWriteTsValid x) (mWriteTs x) (mSetpoint x) (mWriteCanBlock x) (mSamplesToLocalTime
    x) v.

(** The constructor: [buffer] is the block [malloc] returned, [localFreq] what
    [CCHelper::getLocalFreq] answered. *)
Definition MonoPipe (reqFrames format : Z) (writeCanBlock : bool) (buffer : list Z) (localFreq : option Z) : monopipe :=
  let p t := MonoPipe_ (port_new format) 0 0 reqFrames (roundup reqFrames) buffer 0 0 kInvalidPTS
    false (0, 0) (u32 (reqFrames * 11) / 16) writeCanBlock t false in
  let none := LinearTransform.LinearTransform 0 0 0 0 in
  match localFreq with
  | None => p none
  | Some n =>
      match reduce n (Format_sampleRate format) with
      | None => p none
      | Some (n, d) =>
          if negb (bool_decide (Z.land n (u64 (Z.lnot 2147483647)) = 0)) ||
             negb (bool_decide (Z.land d (u64 (Z.lnot 4294967295)) = 0))
          then p none
          else p (LinearTransform.LinearTransform 0 0 (s32 n) (u32 d))
      end
  end.

(** ** The position of the reader and its time *)

(** [updateFrontAndNRPTS], store by store. *)
Definition update_begin (p : monopipe) : monopipe :=
  set_mUpdateSeq (s32 (Z.lor (u32 (mUpdateSeq p)) 2147483648)) p.
Definition update_end (p : monopipe) : monopipe :=
  set_mUpdateSeq (Z.land (u32 (mUpdateSeq p + 1)) 2147483647) p.
Definition updateFrontAndNRPTS (newFront newNextRdPTS : Z) (p : monopipe) : monopipe :=
  update_end (set_mNextRdPTS newNextRdPTS (set_mFront newFront (update_begin p))).

(** The test at the end of a round of [observeFrontAndNRPTS]. *)
Definition observe_again (seqOne seqTwo : Z) : bool :=
  bool_decide (seqOne ≠ seqTwo) || negb (bool_decide (Z.land (u32 seqOne) 2147483648 = 0)).

Definition offsetTimestampByAudioFrames (ts audFrames : Z) : M monopipe Z :=
  p <- getst ;;
  if bool_decide (0 = a_to_b_denom (mSamplesToLocalTime p)) then ret kInvalidPTS else
  if bool_decide (ts = kInvalidPTS) then ret kInvalidPTS else
  match doForwardTransform (mSamplesToLocalTime p) audFrames with
  | None =>
      let t := mSamplesToLocalTime p in
      modify (set_mSamplesToLocalTime (LinearTransform.LinearTransform (a_zero t) (b_zero t) 0 0)) ;;;
      ret kInvalidPTS
  | Some frame_lt_duration => ret (s64 (ts + frame_lt_duration))
  end.

(** ** Writing *)

Definition availableToWrite (p : monopipe) : Z :=
  if negb (mNegotiated (mPort p)) then NEGOTIATE else
  s32 (mMaxFrames p - u32 (s32 (mRear p - mFront p))).

(** The frames of [buffer] that find room, from the current [mRear] on.  The buffer
    is the rest of the caller's, in bytes; it holds [count] frames. *)
Definition write_copy (buffer : list Z) (written : Z) (p : monopipe) : option (list Z) :=
  frames_in (mBuffer p) (mMaxFrames p) (mBitShift (mPort p)) (Z.land (u32 (mRear p)) (mMaxFrames p - 1)) buffer written.
Definition write_some (buffer : list Z) (count : Z) : M monopipe (Z * Z) :=
  p <- getst ;;
  let avail := u32 (availableToWrite p) in
  let written := if bool_decide (avail > count) then count else avail in
  b <- deref (write_copy buffer written p) ;;
  modify (set_mBuffer b) ;;;
  (when bool_decide (written > 0) do modify (λ p, set_mRear (s32 (written + mRear p)) p)) ;;;
  ret (written, avail).

(** The time to sleep after [written] of [count] frames were taken. *)
Definition throttle (p : monopipe) (count written avail : Z) : Z :=
  let rate := Format_sampleRate (mFormat (mPort p)) in
  let ns :=
    if bool_decide (written > 0) then
      let filled := u32 (mMaxFrames p - avail + written) in
      let sp := mSetpoint p in
      if bool_decide (filled <= sp / 2) then u32 (written * (500000000 / rate))
      else if bool_decide (filled <= u32 (sp * 3) / 4) then u32 (written * (750000000 / rate))
      else if bool_decide (filled <= u32 (sp * 5) / 4) then u32 (written * (1000000000 / rate))
      else if bool_decide (filled <= u32 (sp * 3) / 2) then u32 (written * (1150000000 / rate))
      else if bool_decide (filled <= u32 (sp * 7) / 4) then u32 (written * (1350000000 / rate))
      else u32 (written * (1750000000 / rate))
    else u32 (count * (1350000000 / rate)) in
  if bool_decide (ns > 999999999) then 999999999 else ns.

(** The time since the previous write is deducted from the sleep. *)
Definition deduct (p : monopipe) (now : option (Z * Z)) (ns : Z) : Z :=
  match now with
  | Some (now_sec, now_nsec) =>
      if mWriteTsValid p then
        let sec := now_sec - fst (mWriteTs p) in
        let nsec := now_nsec - snd (mWriteTs p) in
        let '(sec, nsec) := if bool_decide (nsec < 0) then (sec - 1, nsec + 1000000000) else (sec, nsec) in
        if bool_decide (sec = 0) then (if bool_decide (ns > nsec) then ns - nsec else 0) else ns
      else ns
  | None => ns
  end.
(** The time at which the write is over. *)
Definition stamp (now : option (Z * Z)) (ns : Z) (p : monopipe) : monopipe :=
  match now with
  | Some (sec, nsec) =>
      set_mWriteTsValid true (set_mWriteTs (if bool_decide (nsec + ns >= 1000000000)
        then (sec + 1, nsec + ns - 1000000000) else (sec, nsec + ns)) p)
  | None => set_mWriteTsValid false p
  end.

(** A turn of the rest of the system, while a write sleeps: what the clock shows when
    it is asked before the sleep, and what the other threads do until the write goes
    on.  When the turns are used up the write is still asleep. *)
Record turn := Turn { t_now : option (Z * Z); t_others : M monopipe unit }.

(** The loop; with the value it adds to [mFramesWritten]. *)
Fixpoint write_loop (turns : list turn) (buffer : list Z) (count total : Z) : M monopipe Z :=
  if bool_decide (count > 0) then
    let* (written, avail) := write_some buffer count in
    let total := u32 (total + written) in
    p <- getst ;;
    if negb (mWriteCanBlock p) || mIsShutdown p then ret total else
    let count := count - written in
    let buffer := drop (Z.to_nat (Z.shiftl written (mBitShift (mPort p)))) buffer in
    match turns with
    | [] => crash_with CrashFuel
    | Turn now others :: turns =>
        let ns := deduct p now (throttle p count written avail) in
        modify (stamp now ns) ;;;
        others ;;;
        write_loop turns buffer count total
    end
  else ret total.
Definition write (turns : list turn) (buffer : list Z) (count : Z) : M monopipe Z :=
  p <- getst ;;
  if negb (mNegotiated (mPort p)) then ret NEGOTIATE else
  totalFramesWritten <- write_loop turns buffer count 0 ;;
  modify (λ p, set_mFramesWritten (u32 (mFramesWritten p + totalFramesWritten)) p) ;;;
  ret (s32 totalFramesWritten).

Definition setAvgFrames (setpoint : Z) : monopipe → monopipe := set_mSetpoint setpoint.
Definition shutdown (newState : bool) : monopipe → monopipe := set_mIsShutdown newState.

(** [getNextWriteTimestamp], when no update is in progress. *)
Definition getNextWriteTimestamp : M monopipe (Z * option Z) :=
  p <- getst ;;
  if bool_decide (0 = a_to_b_denom (mSamplesToLocalTime p)) then ret (UNKNOWN_ERROR, None) else
  let front := mFront p in
  let timestamp := mNextRdPTS p in
  timestamp <- (if bool_decide (kInvalidPTS ≠ timestamp) then
      let pendingFrames := Z.land (u32 (s32 (mRear p - front))) (mMaxFrames p - 1) in
      offsetTimestampByAudioFrames timestamp pendingFrames
    else ret timestamp) ;;
  ret (OK, Some timestamp).

(** ** Reading *)

(** [class MonoPipeReader]: its own port and count of frames; it works on the pipe. *)
Record reader := Reader { rd_port : port; mFramesRead : Z }.
Definition MonoPipeReader (p : monopipe) : reader := Reader (port_new (mFormat (mPort p))) 0.

Definition availableToRead (r : reader) (p : monopipe) : Z :=
  if negb (mNegotiated (rd_port r)) then NEGOTIATE else s32 (mRear p - mFront p).

(** The bytes of [red] frames from the current [mFront] on. *)
Definition read_copy (r : reader) (red : Z) (p : monopipe) : option (list Z) :=
  frames_out (mBuffer p) (mMaxFrames p) (mBitShift (rd_port r)) (Z.land (u32 (mFront p)) (mMaxFrames p - 1)) red.

(** The state the two ends share. *)
Record mono := Mono { m_pipe : monopipe; m_reader : reader }.
Definition set_m_pipe (p : monopipe) (s : mono) : mono := Mono p (m_reader s).
Definition in_pipe {A} : M monopipe A → M mono A := zoom m_pipe set_m_pipe.

Definition read (count readPTS : Z) : M mono (Z * list Z) :=
  nextReadPTS <- in_pipe (offsetTimestampByAudioFrames readPTS count) ;;
  s <- getst ;;
  let r := m_reader s in
  let p := m_pipe s in
  let red := availableToRead r p in
  if bool_decide (red <= 0) then
    in_pipe (modify (updateFrontAndNRPTS (mFront p) nextReadPTS)) ;;;
    ret (red, [])
  else
    let red := if bool_decide (u32 red > count) then count else red in
    data <- deref (read_copy r red p) ;;
    (when bool_decide (red > 0) do (
      in_pipe (modify (updateFrontAndNRPTS (s32 (red + mFront p)) nextReadPTS)) ;;;
      modify (λ s, Mono (m_pipe s) (Reader (rd_port r) (u32 (mFramesRead r + red)))))) ;;;
    ret (red, data).
