(* ===== verification/MonoPipeSpec.v ===== *)
(** * MonoPipe is a bounded queue

    The pipe refines a queue of bytes: every sequence of writes and reads returns
    what the queue returns, for any number of frames (the positions wrap around).
    A blocking write comes to its end as long as the reader goes on. *)

From Stdlib Require Import ZArith Lia.
From stdpp Require Import base tactics numbers option list.
From S2P Require Import Prelude Words LinearTransform Nbaio Ring MonoPipe.

(** ** The representation *)

(** The frames in the pipe. *)
Definition frames (p : monopipe) : Z := u32 (mRear p - mFront p).

(** The pipe holds the bytes [q]. *)
Record repr (p : monopipe) (q : list Z) : Prop := {
  r_neg : mNegotiated (mPort p) = true;
  r_shift : 0 ≤ mBitShift (mPort p) ≤ 2;
  r_frames : ∃ k, 0 ≤ k ≤ 28 ∧ mMaxFrames p = 2 ^ k;
  r_len : Z.of_nat (length (mBuffer p)) = Z.shiftl (mMaxFrames p) (mBitShift (mPort p));
  r_size : Z.of_nat (length q) = Z.shiftl (frames p) (mBitShift (mPort p));
  r_ring : ring (mBuffer p) (mFront p * 2 ^ mBitShift (mPort p)) q
}.

(** The reader belongs to the pipe. *)
Definition reads_from (r : reader) (p : monopipe) : Prop :=
  mNegotiated (rd_port r) = true ∧ mBitShift (rd_port r) = mBitShift (mPort p).

Lemma shiftl_bytes n s : 0 ≤ s ≤ 2 → Z.shiftl n s = n * 2 ^ s ∧ 1 ≤ 2 ^ s ≤ 4.
Proof.
  intros Hs. split; [apply Z.shiftl_mul_pow2; lia|].
  assert (s = 0 ∨ s = 1 ∨ s = 2) as [-> | [-> | ->]] by lia; lia.
Qed.
Lemma repr_bounds p q : repr p q →
  1 ≤ mMaxFrames p ≤ 2 ^ 28 ∧ 0 ≤ frames p ≤ mMaxFrames p ∧ (0 < length (mBuffer p))%nat.
Proof.
  intros [_ Hs (k & Hk & Em) El Esz [Hf _]]. pose proof (u32_range (mRear p - mFront p)) as Hu.
  fold (frames p) in Hu. destruct (shiftl_bytes (mMaxFrames p) _ Hs) as [E1 Hw].
  destruct (shiftl_bytes (frames p) _ Hs) as [E2 _]. rewrite E1 in El. rewrite E2 in Esz.
  pose proof (Z.pow_pos_nonneg 2 k ltac:(lia) ltac:(lia)).
  assert (2 ^ k ≤ 2 ^ 28) by (apply Z.pow_le_mono_r; lia).
  split; [lia|]. split; [nia|nia].
Qed.
Lemma availableToWrite_ok p q : repr p q → availableToWrite p = mMaxFrames p - frames p.
Proof.
  intros Hr. destruct (repr_bounds p q Hr) as (Hm & Hf & _). unfold availableToWrite.
  rewrite (r_neg _ _ Hr). cbn [negb]. rewrite u32_s32. fold (frames p). apply s32_small. lia.
Qed.
Lemma availableToRead_ok r p q : repr p q → reads_from r p → availableToRead r p = frames p.
Proof.
  intros Hr [Hn _]. destruct (repr_bounds p q Hr) as (Hm & Hf & _). unfold availableToRead.
  rewrite Hn. cbn [negb]. apply s32_of_u32. fold (frames p). lia.
Qed.

(** What a transfer leaves alone. *)
Definition same_pipe (p p' : monopipe) : Prop :=
  mPort p' = mPort p ∧ mMaxFrames p' = mMaxFrames p ∧ mWriteCanBlock p' = mWriteCanBlock p.

(** Where the writer puts its frames: behind the queue. *)
Lemma rear_index p q : repr p q →
  let s := mBitShift (mPort p) in
  Z.land (u32 (mRear p)) (mMaxFrames p - 1) = mRear p mod mMaxFrames p ∧
  0 ≤ mRear p mod mMaxFrames p < mMaxFrames p ∧
  Z.shiftl (mRear p mod mMaxFrames p) s = (mFront p * 2 ^ s + Z.of_nat (length q)) mod Z.of_nat (length (mBuffer p)).
Proof.
  intros Hr s. pose proof (r_shift _ _ Hr) as Hs. fold s in Hs. destruct (r_frames _ _ Hr) as (k & Hk & Em).
  destruct (frame_index (mRear p) (mMaxFrames p) k s Em) as (E1 & E2 & E3); [lia..|].
  split; [done|]. split; [done|]. rewrite E3, (r_size _ _ Hr), (r_len _ _ Hr). fold s.
  destruct (shiftl_bytes (frames p) s Hs) as [-> ?]. destruct (shiftl_bytes (mMaxFrames p) s Hs) as [-> _].
  rewrite <-Z.mul_add_distr_r. rewrite !Z.mul_mod_distr_r by lia. f_equal. rewrite Em.
  unfold frames. destruct (u32_eq (mRear p - mFront p)) as [j ->].
  apply (mod_pow2_cong _ _ (- j)); [lia|ring].
Qed.

Lemma write_some_ok p q buffer count :
  repr p q → 0 ≤ count < 2 ^ 32 → Z.shiftl count (mBitShift (mPort p)) ≤ Z.of_nat (length buffer) →
  let written := Z.min count (mMaxFrames p - frames p) in
  wp (write_some buffer count) (λ '(w, avail) p',
    w = written ∧ avail = mMaxFrames p - frames p ∧ same_pipe p p' ∧ mFront p' = mFront p ∧
    mIsShutdown p' = mIsShutdown p ∧ mFramesWritten p' = mFramesWritten p ∧
    repr p' (q ++ take (Z.to_nat (Z.shiftl written (mBitShift (mPort p)))) buffer)) p.
Proof.
  intros Hr Hc Hlen written. destruct (repr_bounds p q Hr) as (Hm & Hf & Hpos).
  pose proof (r_shift _ _ Hr) as Hs. set (s := mBitShift (mPort p)) in *.
  unfold write_some. apply wp_bind, wp_getst.
  rewrite (availableToWrite_ok p q Hr), u32_small by lia.
  assert ((if bool_decide (mMaxFrames p - frames p > count) then count else mMaxFrames p - frames p) = written) as ->
    by (unfold written; case_bool_decide; lia).
  assert (0 ≤ written ≤ mMaxFrames p - frames p ∧ written ≤ count) as Hw by lia. clearbody written.
  destruct (shiftl_bytes written s Hs) as [Ew Hp2]. destruct (shiftl_bytes count s Hs) as [Ec _].
  rewrite Ec in Hlen. destruct (rear_index p q Hr) as (Ei & Hi & Epos). fold s in Epos.
  set (d := take (Z.to_nat (Z.shiftl written s)) buffer).
  assert (Z.of_nat (length d) = written * 2 ^ s) as Hd by (unfold d; rewrite length_take; nia).
  pose proof (r_size _ _ Hr) as Hq. pose proof (r_len _ _ Hr) as Hl. fold s in Hq, Hl.
  destruct (shiftl_bytes (frames p) s Hs) as [Ef _]. destruct (shiftl_bytes (mMaxFrames p) s Hs) as [Eb _].
  destruct (ring_write (mBuffer p) (mFront p * 2 ^ s) q d (r_ring _ _ Hr)) as (buf' & Ebuf & Hl' & Hring); [nia|done|].
  assert (write_copy buffer written p = Some buf') as ->.
  { unfold write_copy. rewrite Ei. fold s. rewrite frames_in_ok by (done || lia || (rewrite Ew; nia)). rewrite Epos. done. }
  apply wp_bind, (wp_deref _ buf'); [done|]. apply wp_bind, wp_modify.
  assert (∀ p', same_pipe p p' → mFront p' = mFront p → mBuffer p' = buf' →
    frames p' = frames p + written → repr p' (q ++ d)) as Hrepr.
  { intros p' (Eport & Emax & _) Efr Ebu Efs. destruct Hr as [Hn _ Hk _ _ _].
    split; rewrite ?Eport, ?Emax, ?Ebu, ?Efs, ?Efr; fold s; try done.
    - by rewrite Hl'.
    - rewrite length_app. destruct (shiftl_bytes (frames p + written) s Hs) as [-> _]. lia. }
  apply wp_bind, wp_when; [intros Hpw|intros Hpw].
  - apply wp_modify. cbn beta. split; [done|]. split; [done|]. split; [done|]. do 3 (split; [done|]).
    apply Hrepr; [done..|]. unfold frames. cbn [set_mRear set_mBuffer mRear mFront].
    rewrite u32_s32_sub. destruct (u32_eq (mRear p - mFront p)) as [j Ej]. fold (frames p) in Ej |- *.
    rewrite (u32_cong _ (frames p + written) (- j)) by lia. apply u32_small. lia.
  - apply bool_decide_eq_false in Hpw. split; [done|]. split; [done|]. split; [done|]. do 3 (split; [done|]).
    apply Hrepr; [done..|]. assert (written = 0) as -> by lia. rewrite Z.add_0_r. done.
Qed.

Lemma repr_ext p p' q :
  mPort p' = mPort p → mMaxFrames p' = mMaxFrames p → mBuffer p' = mBuffer p → mFront p' = mFront p → mRear p' = mRear p →
  repr p q → repr p' q.
Proof.
  intros E1 E2 E3 E4 E5 [H1 H2 H3 H4 H5 H6].
  split; unfold frames; rewrite ?E1, ?E2, ?E3, ?E4, ?E5; done.
Qed.

Lemma offset_ok ts n p (Q : Z → monopipe → Prop) :
  (∀ v x, Q v (set_mSamplesToLocalTime x p)) → wp (offsetTimestampByAudioFrames ts n) Q p.
Proof.
  intros HQ.
  assert (∀ v, Q v p) as HQ' by (intros v; specialize (HQ v (mSamplesToLocalTime p)); by destruct p).
  unfold offsetTimestampByAudioFrames. apply wp_bind, wp_getst.
  case_bool_decide; [by apply wp_ret|]. case_bool_decide; [by apply wp_ret|].
  destruct (doForwardTransform _ _); [by apply wp_ret|]. apply wp_bind, wp_modify, wp_ret. apply HQ.
Qed.

Lemma wp_in_pipe {A} (m : M monopipe A) (Q : A → mono → Prop) s :
  wp m (λ a p, Q a (set_m_pipe p s)) (m_pipe s) → wp (in_pipe m) Q s.
Proof. apply wp_zoom. Qed.

(** The queue after its first frames have been taken. *)
Lemma repr_advance p q n seq pts :
  repr p q → 0 ≤ n ≤ frames p →
  let p' := set_mUpdateSeq seq (set_mNextRdPTS pts (set_mFront (s32 (n + mFront p)) p)) in
  repr p' (drop (Z.to_nat (Z.shiftl n (mBitShift (mPort p)))) q) ∧ frames p' = frames p - n.
Proof.
  intros Hr Hn p'. destruct (repr_bounds p q Hr) as (Hm & Hf & Hpos).
  pose proof (r_shift _ _ Hr) as Hs. set (s := mBitShift (mPort p)) in *.
  assert (frames p' = frames p - n) as Efr.
  { unfold frames, p'. cbn [set_mUpdateSeq set_mNextRdPTS set_mFront mRear mFront]. rewrite u32_sub_s32.
    destruct (u32_eq (mRear p - mFront p)) as [j Ej]. fold (frames p) in *.
    rewrite (u32_cong _ (frames p - n) (- j)) by lia. apply u32_small. lia. }
  split; [|done]. destruct (shiftl_bytes n s Hs) as [En Hp2]. destruct (shiftl_bytes (frames p) s Hs) as [Ef _].
  destruct Hr as [Hneg _ Hk Hl Hsz Hring]. destruct Hk as (k & Hk & Em). fold s in Hl, Hsz, Hring.
  split; cbn [p' set_mUpdateSeq set_mNextRdPTS set_mFront mPort mMaxFrames mBuffer mFront]; fold s; try done.
  - by exists k.
  - fold p'. rewrite length_drop, Efr. destruct (shiftl_bytes (frames p - n) s Hs) as [-> _]. nia.
  - apply (ring_congr _ (mFront p * 2 ^ s + Z.of_nat (Z.to_nat (Z.shiftl n s)))); [|by apply ring_drop].
    rewrite Hl, Z2Nat.id by nia. destruct (shiftl_bytes (mMaxFrames p) s Hs) as [-> _].
    rewrite En, <-Z.mul_add_distr_r, !Z.mul_mod_distr_r by lia. f_equal. rewrite Em.
    destruct (s32_eq (n + mFront p)) as [j ->]. apply (mod_pow2_cong _ _ (- j)); [lia|ring].
Qed.

Lemma read_copy_ok r p q red :
  repr p q → reads_from r p → 0 ≤ red ≤ frames p →
  read_copy r red p = Some (take (Z.to_nat (Z.shiftl red (mBitShift (mPort p)))) q).
Proof.
  intros Hr [_ Es] Hred. destruct (repr_bounds p q Hr) as (Hm & Hf & Hpos).
  pose proof (r_shift _ _ Hr) as Hs. unfold read_copy. rewrite Es. set (s := mBitShift (mPort p)) in *.
  destruct (r_frames _ _ Hr) as (k & Hk & Em).
  destruct (frame_index (mFront p) (mMaxFrames p) k s Em) as (E1 & E2 & E3); [lia..|].
  pose proof (r_len _ _ Hr) as Hl. pose proof (r_size _ _ Hr) as Hsz. fold s in Hl, Hsz.
  destruct (shiftl_bytes red s Hs) as [En Hp2]. destruct (shiftl_bytes (frames p) s Hs) as [Ef _].
  rewrite E1, frames_out_ok by (done || lia). rewrite E3, <-Hl. apply ring_read; [apply (r_ring _ _ Hr)|nia|done].
Qed.

Lemma read_ok st q count pts :
  repr (m_pipe st) q → reads_from (m_reader st) (m_pipe st) → 0 ≤ count < 2 ^ 32 →
  let p := m_pipe st in
  let n := Z.min count (frames p) in
  wp (read count pts) (λ '(red, data) st',
    red = n ∧ data = take (Z.to_nat (Z.shiftl n (mBitShift (mPort p)))) q ∧
    repr (m_pipe st') (drop (Z.to_nat (Z.shiftl n (mBitShift (mPort p)))) q) ∧
    reads_from (m_reader st') (m_pipe st') ∧ same_pipe p (m_pipe st') ∧
    frames (m_pipe st') = frames p - n ∧ mIsShutdown (m_pipe st') = mIsShutdown p) st.
Proof.
  intros Hr Hrd Hc p n. destruct (repr_bounds p q Hr) as (Hm & Hf & Hpos).
  unfold read. apply wp_bind, wp_in_pipe, offset_ok. intros nextReadPTS x. fold p.
  set (p1 := set_mSamplesToLocalTime x p).
  assert (repr p1 q) as Hr1 by (by apply (repr_ext p)). assert (reads_from (m_reader st) p1) as Hrd1 by done.
  apply wp_bind, wp_getst. cbn [m_reader m_pipe set_m_pipe]. rewrite (availableToRead_ok _ p1 q Hr1 Hrd1).
  change (frames p1) with (frames p). case_bool_decide as H0.
  - assert (n = 0) as -> by lia. apply wp_bind, wp_in_pipe, wp_modify. apply wp_ret. cbn [m_pipe m_reader set_m_pipe].
    split; [lia|]. split; [by rewrite Z.shiftl_0_l|]. rewrite Z.shiftl_0_l, drop_0.
    split; [by apply (repr_ext p)|]. split; [done|]. split; [done|]. split; [|done].
    unfold frames. cbn. fold (frames p). lia.
  - rewrite (u32_small (frames p)) by lia.
    assert ((if bool_decide (frames p > count) then count else frames p) = n) as -> by (unfold n; case_bool_decide; lia).
    rewrite (read_copy_ok _ p1 q n Hr1 Hrd1) by (change (frames p1) with (frames p); lia).
    apply wp_bind. eapply wp_deref; [done|]. change (mBitShift (mPort p1)) with (mBitShift (mPort p)).
    apply wp_bind, wp_when; intros Hn; [apply bool_decide_eq_true in Hn|apply bool_decide_eq_false in Hn].
    + apply wp_bind, wp_in_pipe, wp_modify, wp_modify, wp_ret. cbn [m_pipe m_reader set_m_pipe].
      destruct (repr_advance p1 q n (Z.land (u32 (mUpdateSeq (set_mNextRdPTS nextReadPTS (set_mFront (s32 (n + mFront p))
        (update_begin p1))) + 1)) 2147483647) nextReadPTS Hr1) as [Hra Hfa]; [change (frames p1) with (frames p); lia|].
      split; [done|]. split; [done|]. split; [by apply (repr_ext _ _ _ eq_refl eq_refl eq_refl eq_refl eq_refl Hra)|].
      split; [done|]. split; [done|]. split; [|done]. exact Hfa.
    + apply wp_ret. cbn [m_pipe m_reader set_m_pipe]. assert (n = 0) as -> by lia.
      split; [done|]. split; [done|]. rewrite Z.shiftl_0_l, drop_0. split; [done|]. split; [done|].
      split; [done|]. split; [|done]. change (frames p1) with (frames p). lia.
Qed.

(** ** Refinement of the queue *)

(** An operation at either end: [write] of [count] frames from a buffer, [read] of at
    most [count] frames. *)
Inductive op := OpWrite (buffer : list Z) (count : Z) | OpRead (count readPTS : Z).
Definition run_op (o : op) : M mono (Z * list Z) :=
  match o with
  | OpWrite buffer count => n <- in_pipe (write [] buffer count) ;; ret (n, [])
  | OpRead count pts => read count pts
  end.
Fixpoint run_ops (l : list op) : M mono (list (Z * list Z)) :=
  match l with
  | [] => ret []
  | o :: l => r <- run_op o ;; rs <- run_ops l ;; ret (r :: rs)
  end.

(** The queue of at most [cap] frames of [2 ^ shift] bytes. *)
Definition queue_op (cap shift : Z) (o : op) (q : list Z) : (Z * list Z) * list Z :=
  let len := Z.of_nat (length q) / 2 ^ shift in
  match o with
  | OpWrite buffer count =>
      let n := Z.min count (cap - len) in ((n, []), q ++ take (Z.to_nat (n * 2 ^ shift)) buffer)
  | OpRead count _ =>
      let n := Z.min count len in ((n, take (Z.to_nat (n * 2 ^ shift)) q), drop (Z.to_nat (n * 2 ^ shift)) q)
  end.
Fixpoint queue_ops (cap shift : Z) (l : list op) (q : list Z) : list (Z * list Z) :=
  match l with
  | [] => []
  | o :: l => let '(r, q') := queue_op cap shift o q in r :: queue_ops cap shift l q'
  end.

(** The caller's buffers hold what they are said to hold. *)
Definition valid_op (shift : Z) (o : op) : Prop :=
  match o with
  | OpWrite buffer count => 0 ≤ count < 2 ^ 32 ∧ count * 2 ^ shift ≤ Z.of_nat (length buffer)
  | OpRead count _ => 0 ≤ count < 2 ^ 32
  end.

Lemma repr_len p q : repr p q → Z.of_nat (length q) / 2 ^ mBitShift (mPort p) = frames p.
Proof.
  intros Hr. rewrite (r_size _ _ Hr). destruct (shiftl_bytes (frames p) _ (r_shift _ _ Hr)) as [-> ?].
  by rewrite Z.div_mul by lia.
Qed.

Lemma write_nonblocking_ok p q buffer count :
  repr p q → mWriteCanBlock p = false → valid_op (mBitShift (mPort p)) (OpWrite buffer count) →
  let n := Z.min count (mMaxFrames p - frames p) in
  wp (write [] buffer count) (λ r p',
    r = n ∧ same_pipe p p' ∧ repr p' (q ++ take (Z.to_nat (Z.shiftl n (mBitShift (mPort p)))) buffer)) p.
Proof.
  intros Hr Hb [Hc Hlen] n. destruct (repr_bounds p q Hr) as (Hm & Hf & Hpos).
  destruct (shiftl_bytes count _ (r_shift _ _ Hr)) as [Ec _].
  unfold write. apply wp_bind, wp_getst. rewrite (r_neg _ _ Hr). cbn [negb write_loop].
  apply wp_bind. case_bool_decide as H0.
  - apply wp_bind. eapply wp_mono; [apply write_some_ok; [done|done|lia]|]. fold n.
    intros [w avail] p' (-> & -> & Hsame & _ & _ & Hfw & Hr'). cbn beta iota. apply wp_bind, wp_getst.
    assert (mWriteCanBlock p' = false) as -> by (destruct Hsame as (_ & _ & ->); done). cbn [negb orb].
    apply wp_ret. apply wp_bind, wp_modify, wp_ret.
    rewrite Z.add_0_l, u32_small, s32_small by lia. split; [done|]. split; [done|]. by apply (repr_ext p').
  - apply wp_ret, wp_bind, wp_modify, wp_ret. assert (n = 0) as -> by lia. split; [done|]. split; [done|].
    rewrite Z.shiftl_0_l, take_0, app_nil_r. by apply (repr_ext p).
Qed.

Lemma run_ops_ok l : ∀ st q,
  repr (m_pipe st) q → reads_from (m_reader st) (m_pipe st) → mWriteCanBlock (m_pipe st) = false →
  Forall (valid_op (mBitShift (mPort (m_pipe st)))) l →
  wp (run_ops l) (λ rs _, rs = queue_ops (mMaxFrames (m_pipe st)) (mBitShift (mPort (m_pipe st))) l q) st.
Proof.
  induction l as [|o l IH]; intros st q Hr Hrd Hb Hv; [done|]. apply Forall_cons in Hv as [Ho Hl].
  pose proof (repr_len _ _ Hr) as Elen. pose proof (r_shift _ _ Hr) as Hs.
  cbn [run_ops queue_ops]. apply wp_bind. destruct o as [buffer count|count pts]; cbn [run_op queue_op];
    rewrite Elen.
  - apply wp_bind, wp_in_pipe. eapply wp_mono; [by apply write_nonblocking_ok|]. cbv beta zeta.
    intros r p' (-> & (Ep & Em & Ew) & Hr'). apply wp_ret, wp_bind. eapply wp_mono; [apply IH|].
    + exact Hr'.
    + destruct Hrd as [Hn Es]. split; [done|]. cbn [m_reader m_pipe set_m_pipe]. by rewrite Ep.
    + cbn [m_pipe set_m_pipe]. by rewrite Ew.
    + cbn [m_pipe set_m_pipe]. by rewrite Ep.
    + cbv beta. cbn [m_pipe set_m_pipe]. intros rs st2 ->. apply wp_ret. rewrite Ep, Em.
      by destruct (shiftl_bytes (Z.min count (mMaxFrames (m_pipe st) - frames (m_pipe st))) _ Hs) as [-> _].
  - eapply wp_mono; [by apply (read_ok st q)|]. cbv beta zeta.
    intros [red data] st' (-> & -> & Hr' & Hrd' & (Ep & Em & Ew) & _). apply wp_bind. eapply wp_mono; [apply IH|].
    + exact Hr'.
    + done.
    + by rewrite Ew.
    + by rewrite Ep.
    + cbv beta. intros rs st2 ->. apply wp_ret. rewrite Ep, Em.
      by destruct (shiftl_bytes (Z.min count (frames (m_pipe st))) _ Hs) as [-> _].
Qed.

(** A pipe and its reader after both ends have been negotiated. *)
Definition open_pipe (reqFrames format : Z) (writeCanBlock : bool) (buffer : list Z) (localFreq : option Z) : mono :=
  let p := MonoPipe reqFrames format writeCanBlock buffer localFreq in
  let r := MonoPipeReader p in
  let '(_, _, _, wport) := negotiate (mPort p) [format] [] 0 in
  let '(_, _, _, rport) := negotiate (rd_port r) [format] [] 0 in
  Mono (set_mPort wport p) (Reader rport (mFramesRead r)).

Lemma open_pipe_ok reqFrames rate channels block buffer lf (format := Format_from_SR_C rate channels) :
  0 ≤ reqFrames ≤ 2 ^ 28 → rate ∈ sample_rates → channels = 1 ∨ channels = 2 →
  Z.of_nat (length buffer) = roundup reqFrames * Format_frameSize format →
  let st := open_pipe reqFrames format block buffer lf in
  repr (m_pipe st) [] ∧ reads_from (m_reader st) (m_pipe st) ∧ mWriteCanBlock (m_pipe st) = block ∧
  mMaxFrames (m_pipe st) = roundup reqFrames ∧ mBitShift (mPort (m_pipe st)) = channels ∧ mIsShutdown (m_pipe st) = false.
Proof.
  intros Hreq Hrate Hch Hbuf. unfold open_pipe. destruct (Format_from_ok rate channels Hrate Hch) as (Erate & Ech & Hinv).
  fold format in Erate, Ech, Hinv.
  assert (∃ t, MonoPipe reqFrames format block buffer lf = MonoPipe_ (port_new format) 0 0 reqFrames (roundup reqFrames)
    buffer 0 0 kInvalidPTS false (0, 0) (u32 (reqFrames * 11) / 16) block t false) as [t ->].
  { unfold MonoPipe. destruct lf as [n|]; [|eauto]. destruct (reduce _ _) as [[n' d']|]; [|eauto]. case_match; eauto. }
  unfold MonoPipeReader, port_new, negotiate. cbn [mPort mFormat mBitShift rd_port find_offer].
  rewrite (bool_decide_true (format ≠ Format_Invalid)) by done. rewrite (bool_decide_true (format = format)) by done.
  cbn [m_pipe m_reader set_mPort mPort rd_port mMaxFrames mWriteCanBlock mIsShutdown mBitShift].
  unfold Format_frameSize in Hbuf. unfold Format_frameBitShift. rewrite Ech in *. rewrite frame_size_shift in Hbuf by done.
  split; [|done].
  destruct (roundup_ok reqFrames) as (k & Hk & Ek & Hle & _); [lia|]. destruct (Hle ltac:(lia)) as [Hrk Hmin].
  split; unfold frames; cbn [set_mPort mPort mNegotiated mBitShift mMaxFrames mBuffer mRear mFront].
  - done.
  - lia.
  - exists k. split; [|done]. split; [lia|]. apply Hmin; lia.
  - rewrite Z.shiftl_mul_pow2 by lia. done.
  - by rewrite Z.shiftl_0_l.
  - apply ring_nil.
Qed.

(** C19: a pipe whose writes do not block is a queue of bytes of bounded length: every
    sequence of writes and reads, however long, returns the counts and the bytes
    that the queue returns; what does not fit is not taken. *)
Theorem MonoPipe_refines_queue (reqFrames rate channels : Z) (buffer : list Z) (lf : option Z) (ops : list op)
    (Hreq : 0 ≤ reqFrames ≤ 2 ^ 28) (Hrate : rate ∈ sample_rates) (Hch : channels = 1 ∨ channels = 2)
    (Hbuf : Z.of_nat (length buffer) = roundup reqFrames * Format_frameSize (Format_from_SR_C rate channels))
    (Hops : Forall (valid_op channels) ops) :
  ∃ st', run_ops ops (open_pipe reqFrames (Format_from_SR_C rate channels) false buffer lf) =
    Ret (queue_ops (roundup reqFrames) channels ops []) st'.
Proof.
  destruct (open_pipe_ok reqFrames rate channels false buffer lf Hreq Hrate Hch Hbuf) as (Hr & Hrd & Hb & Em & Es & _).
  pose proof (run_ops_ok ops _ [] Hr Hrd Hb) as Hwp. rewrite Es, Em in Hwp. specialize (Hwp Hops).
  destruct (wp_elim _ _ _ Hwp) as (rs & st' & E & ->). by exists st'.
Qed.

(** ** A write that may block *)

(** What the rest of the system may do while a write sleeps: take frames out, at
    least one if there is one, and not shut the pipe down. *)
Definition goes_on (shift : Z) (others : M monopipe unit) : Prop :=
  ∀ p q, repr p q → mBitShift (mPort p) = shift → mIsShutdown p = false →
    wp others (λ _ p', ∃ n, 0 ≤ n ≤ frames p ∧ (0 < frames p → 0 < n) ∧ frames p' = frames p - n ∧
      repr p' (drop (Z.to_nat (Z.shiftl n (mBitShift (mPort p)))) q) ∧ same_pipe p p' ∧ mIsShutdown p' = false) p.

(** The mixer thread reads. *)
Definition reads (r : reader) (count readPTS : Z) : M monopipe unit :=
  λ p, match read count readPTS (Mono p r) with Ret _ st => Ret tt (m_pipe st) | Crash c => Crash c end.

Lemma stamp_repr now ns p q : repr p q → repr (stamp now ns p) q ∧ same_pipe p (stamp now ns p) ∧
  mIsShutdown (stamp now ns p) = mIsShutdown p ∧ frames (stamp now ns p) = frames p.
Proof. intros Hr. unfold stamp. destruct now as [[sec nsec]|]; split_and!; try done; by apply (repr_ext p). Qed.

Lemma same_pipe_trans p1 p2 p3 : same_pipe p1 p2 → same_pipe p2 p3 → same_pipe p1 p3.
Proof. intros (E1 & E2 & E3) (F1 & F2 & F3). unfold same_pipe. by rewrite F1, F2, F3. Qed.

(** The bytes that have gone through: some have been taken, the rest is in the pipe. *)
Lemma write_loop_ok turns : ∀ p q buffer count total,
  repr p q → mWriteCanBlock p = true → mIsShutdown p = false → Forall (λ t, goes_on (mBitShift (mPort p)) (t_others t)) turns →
  0 ≤ count → 0 ≤ total → total + count < 2 ^ 32 →
  count * 2 ^ mBitShift (mPort p) ≤ Z.of_nat (length buffer) →
  count + (if bool_decide (frames p < mMaxFrames p) then 0 else 1) ≤ Z.of_nat (length turns) →
  wp (write_loop turns buffer count total) (λ r p',
    r = total + count ∧ same_pipe p p' ∧
    ∃ n, repr p' (drop n (q ++ take (Z.to_nat (count * 2 ^ mBitShift (mPort p))) buffer))) p.
Proof.
  induction turns as [|[now others] turns IH]; intros p q buffer count total Hr Hb Hsd Hgo Hc Ht Htot Hlen Hn;
    (assert (count > 0 ∨ count = 0) as [H0|H0] by lia; cbn [write_loop];
      [rewrite bool_decide_true by lia|rewrite bool_decide_false by lia; apply wp_ret; subst count;
        rewrite Z.add_0_r; split; [done|]; split; [done|]; exists 0%nat;
        by rewrite Z.mul_0_l, take_0, app_nil_r, drop_0]).
  { simpl in Hn. case_bool_decide; lia. }
  apply Forall_cons in Hgo as [Hgo Hgos]. destruct (repr_bounds p q Hr) as (Hm & Hf & Hpos).
  pose proof (r_shift _ _ Hr) as Hs. set (s := mBitShift (mPort p)) in *.
  destruct (shiftl_bytes count s Hs) as [Ec Hp2].
  apply wp_bind. eapply wp_mono; [apply (write_some_ok p q buffer count Hr); [lia|fold s; lia]|]. fold s.
  set (w := Z.min count (mMaxFrames p - frames p)).
  intros [w' avail] p1 (-> & -> & (Ep & Em & Ew) & Efr & Esd & _ & Hr1). cbn beta iota zeta.
  rewrite (u32_small (total + w)) by lia. apply wp_bind, wp_getst.
  rewrite Ew, Hb, Esd, Hsd, Ep. fold s. cbn [negb orb].
  apply wp_bind, wp_modify.
  set (ns := deduct _ _ _). destruct (stamp_repr now ns p1 _ Hr1) as (Hr2 & Hsame2 & Esd2 & Efr2).
  set (p2 := stamp now ns p1) in *. apply wp_bind.
  assert (same_pipe p p2) as Hs2 by (by eapply same_pipe_trans).
  destruct (shiftl_bytes w s Hs) as [Esw _].
  assert (frames p1 = frames p + w) as Ef1.
  { pose proof (repr_len _ _ Hr1) as E. rewrite Ep in E. fold s in E. rewrite <-E, length_app, length_take, Nat2Z.inj_add.
    rewrite (r_size _ _ Hr). fold s. destruct (shiftl_bytes (frames p) s Hs) as [-> _].
    replace (Z.of_nat (Nat.min (Z.to_nat (Z.shiftl w s)) (length buffer))) with (w * 2 ^ s) by nia.
    rewrite <-Z.mul_add_distr_r. by rewrite Z.div_mul by lia. }
  eapply wp_mono; [apply (Hgo p2 _ Hr2); [by destruct Hs2 as [-> _]|by rewrite Esd2, Esd]|]. cbn beta.
  intros [] p3 (n & Hnn & Hprog & Ef3 & Hr3 & Hsame3 & Esd3).
  assert (same_pipe p p3) as Hs3 by (by eapply same_pipe_trans).
  destruct Hs2 as (Ep2 & Em2 & _). pose proof Hs3 as (Ep3 & Em3 & Ew3). rewrite Ep2 in Hr3. fold s in Hr3.
  eapply wp_mono; [eapply (IH p3 _ _ (count - w) (total + w) Hr3)|]; rewrite ?Ep3, ?Em3, ?Ew3; fold s; try done; try lia.
  - rewrite length_drop. nia.
  - simpl in Hn. rewrite Ef3, Efr2, Ef1 in *. revert Hn. repeat case_bool_decide; lia.
  - intros r p4 (-> & Hs4 & m & Hr4). split; [lia|]. split; [by eapply same_pipe_trans|].
    exists (Z.to_nat (Z.shiftl n s) + m)%nat.
    replace (take (Z.to_nat (count * 2 ^ s)) buffer) with
      (take (Z.to_nat (Z.shiftl w s)) buffer ++ take (Z.to_nat ((count - w) * 2 ^ s)) (drop (Z.to_nat (Z.shiftl w s)) buffer)).
    + rewrite app_assoc, <-drop_drop. rewrite drop_app_le; [done|].
      pose proof (r_size _ _ Hr2) as Hsz. rewrite Ep2 in Hsz. fold s in Hsz.
      destruct (shiftl_bytes n s Hs) as [-> _]. destruct (shiftl_bytes (frames p2) s Hs) as [Ex _]. nia.
    + rewrite take_take_drop. f_equal. nia.
Qed.

Lemma reads_go_on r count pts :
  mNegotiated (rd_port r) = true → 0 < count < 2 ^ 32 → goes_on (mBitShift (rd_port r)) (reads r count pts).
Proof.
  intros Hn Hc p q Hr Es Hsd. unfold reads.
  pose proof (read_ok (Mono p r) q count pts Hr (conj Hn (eq_sym Es)) ltac:(lia)) as Hwp. cbn [m_pipe] in Hwp.
  apply wp_elim in Hwp as ([red data] & st & E & _ & _ & Hr' & _ & Hsame & Hf & Hsd').
  unfold wp. rewrite E. exists (Z.min count (frames p)). destruct (repr_bounds p q Hr) as (_ & Hfr & _).
  split; [lia|]. split; [lia|]. split; [done|]. split; [done|]. split; [done|congruence].
Qed.

(** A blocking write comes to its end.  If the pipe is not shut down and the reader
    takes at least a frame, when there is one, in every turn the write sleeps, then
    [count + 1] turns are enough for it to take all its frames; they enter the pipe in
    their order behind the ones that were there, of which the reader has taken some. *)
Theorem write_completes (p : monopipe) (q buffer : list Z) (count : Z) (turns : list turn)
    (Hr : repr p q) (Hb : mWriteCanBlock p = true) (Hsd : mIsShutdown p = false)
    (Hgo : Forall (λ t, goes_on (mBitShift (mPort p)) (t_others t)) turns)
    (Hc : 0 ≤ count < 2 ^ 31) (Hlen : count * 2 ^ mBitShift (mPort p) ≤ Z.of_nat (length buffer))
    (Hn : count + 1 ≤ Z.of_nat (length turns)) :
  ∃ p', write turns buffer count p = Ret count p' ∧
    ∃ n, repr p' (drop n (q ++ take (Z.to_nat (count * 2 ^ mBitShift (mPort p))) buffer)).
Proof.
  cut (wp (write turns buffer count) (λ r p', r = count ∧
    ∃ n, repr p' (drop n (q ++ take (Z.to_nat (count * 2 ^ mBitShift (mPort p))) buffer))) p).
  { intros (r & p' & E & -> & Hn')%wp_elim. by exists p'. }
  unfold write. apply wp_bind, wp_getst. rewrite (r_neg _ _ Hr). cbn [negb].
  apply wp_bind. eapply wp_mono; [apply (write_loop_ok turns p q buffer count 0 Hr Hb Hsd Hgo)|]; try lia.
  { case_bool_decide; lia. }
  intros r p' (-> & _ & n & Hr'). apply wp_bind, wp_modify, wp_ret. rewrite Z.add_0_l, s32_small by lia.
  split; [done|]. exists n. by apply (repr_ext p').
Qed.

Module MonoPipeDemo.
(** Four frames of two bytes, negotiated; the memory block is what [malloc] gave. *)
Definition demo (block : bool) : mono := open_pipe 3 (Format_from_SR_C 44100 1) block (replicate 8 0) (Some 1000000000).

Lemma MonoPipe_refines_queue_witness :
  ∃ st', run_ops [OpWrite [1; 2; 3; 4; 5; 6; 7; 8; 9; 10] 5; OpRead 3 0; OpWrite [11; 12; 13; 14] 2; OpRead 9 0] (demo false) =
    Ret [(4, []); (3, [1; 2; 3; 4; 5; 6]); (2, []); (3, [7; 8; 11; 12; 13; 14])] st'.
Proof.
  apply (MonoPipe_refines_queue 3 44100 1 (replicate 8 0) (Some 1000000000)
    [OpWrite [1; 2; 3; 4; 5; 6; 7; 8; 9; 10] 5; OpRead 3 0; OpWrite [11; 12; 13; 14] 2; OpRead 9 0]).
  - lia.
  - apply (bool_decide_unpack _). reflexivity.
  - by left.
  - reflexivity.
  - repeat constructor; vm_compute; congruence.
Defined.

Definition demo_turn : turn := Turn (Some (5, 0)) (reads (m_reader (demo true)) 2 0).
Lemma write_completes_witness :
  ∃ p', write (replicate 7 demo_turn) [1; 2; 3; 4; 5; 6; 7; 8; 9; 10; 11; 12] 6 (m_pipe (demo true)) = Ret 6 p' ∧
    ∃ n, repr p' (drop n [1; 2; 3; 4; 5; 6; 7; 8; 9; 10; 11; 12]).
Proof.
  destruct (open_pipe_ok 3 44100 1 true (replicate 8 0) (Some 1000000000)) as (Hr & _);
    [lia|apply (bool_decide_unpack _); reflexivity|by left|reflexivity|].
  apply (write_completes (m_pipe (demo true)) [] [1; 2; 3; 4; 5; 6; 7; 8; 9; 10; 11; 12] 6 (replicate 7 demo_turn) Hr);
    [reflexivity|reflexivity| |lia|vm_compute; congruence|vm_compute; congruence].
  apply Forall_replicate. apply (reads_go_on (m_reader (demo true)) 2 0); [reflexivity|lia].
Defined.
End MonoPipeDemo.
