(* ===== verification/MonoPipeSteps.v ===== *)
(** * MonoPipe between two threads

    No lock protects a [MonoPipe]: the writer and the reader work on it at the same
    time.  Here their operations are taken apart into the accesses to the shared
    fields and interleaved in every way; each access is atomic and all threads see
    them in one order, as the acquire and release operations are there to ensure. *)

From Stdlib Require Import ZArith Lia.
From stdpp Require Import base tactics numbers option list relations.
From S2P Require Import Prelude Words LinearTransform Nbaio Ring MonoPipe MonoPipeSpec.

(** ** The two ends *)

(** Where [MonoPipe::write] is: before it has looked at [mFront], or copying, with the
    bytes of [written] frames to put, the first [put] of which are in the buffer. *)
Inductive writing := WIdle | WCopying (data : list Z) (written : Z) (put : nat).
(** Where [MonoPipeReader::read] is: before it has looked at [mRear], or copying [red]
    frames, of which it has the bytes [got]. *)
Inductive reading := RIdle | RCopying (red : Z) (got : list Z).

(** The pipe, both ends, and for the record the bytes written and read so far. *)
Record conc := Conc {
  c_pipe : monopipe;
  c_reader : reader;
  c_writing : writing;
  c_reading : reading;
  c_sent : list Z;
  c_received : list Z
}.

Inductive step : conc → conc → Prop :=
  (** [write] computes how much it will take; with no room it leaves the pipe alone. *)
  | step_write p r rs sent recv buffer count written :
      0 ≤ count < 2 ^ 32 → Z.shiftl count (mBitShift (mPort p)) ≤ Z.of_nat (length buffer) →
      written = Z.min count (u32 (availableToWrite p)) → written > 0 →
      step (Conc p r WIdle rs sent recv)
        (Conc p r (WCopying (take (Z.to_nat (Z.shiftl written (mBitShift (mPort p)))) buffer) written 0) rs sent recv)
  (** A byte is copied into the buffer. *)
  | step_put p r rs sent recv data written put b :
      data !! put = Some b →
      step (Conc p r (WCopying data written put) rs sent recv)
        (Conc (set_mBuffer (put_at (mBuffer p) (mRear p * 2 ^ mBitShift (mPort p) + Z.of_nat put) b) p) r
          (WCopying data written (S put)) rs sent recv)
  (** [mRear] is stored. *)
  | step_publish p r rs sent recv data written :
      step (Conc p r (WCopying data written (length data)) rs sent recv)
        (Conc (set_mRear (s32 (written + mRear p)) p) r WIdle rs (sent ++ data) recv)
  (** [read] computes how much it can get. *)
  | step_read p r ws sent recv count :
      0 ≤ count < 2 ^ 32 → availableToRead r p > 0 →
      step (Conc p r ws RIdle sent recv) (Conc p r ws (RCopying (Z.min count (availableToRead r p)) []) sent recv)
  (** A byte is copied out of the buffer. *)
  | step_get p r ws sent recv red got b :
      Z.of_nat (length got) < Z.shiftl red (mBitShift (rd_port r)) →
      mBuffer p !! Z.to_nat ((mFront p * 2 ^ mBitShift (rd_port r) + Z.of_nat (length got)) mod Z.of_nat (length (mBuffer p))) = Some b →
      step (Conc p r ws (RCopying red got) sent recv) (Conc p r ws (RCopying red (got ++ [b])) sent recv)
  (** The new position is stored, with the next time. *)
  | step_release p r ws sent recv red got pts :
      Z.of_nat (length got) = Z.shiftl red (mBitShift (rd_port r)) →
      step (Conc p r ws (RCopying red got) sent recv)
        (Conc (updateFrontAndNRPTS (s32 (red + mFront p)) pts p) r ws RIdle sent (recv ++ got)).

(** ** The invariant *)

(** The writer's bytes lie behind the queue, where the reader does not look. *)
Definition writing_ok (p : monopipe) (q : list Z) (w : writing) : Prop :=
  match w with
  | WIdle => True
  | WCopying data written put =>
      0 ≤ written ∧ written + frames p ≤ mMaxFrames p ∧ Z.of_nat (length data) = Z.shiftl written (mBitShift (mPort p)) ∧
      (put ≤ length data)%nat ∧ ring (mBuffer p) (mFront p * 2 ^ mBitShift (mPort p)) (q ++ take put data)
  end.
(** The reader's are the first of the queue. *)
Definition reading_ok (p : monopipe) (q : list Z) (r : reading) : Prop :=
  match r with
  | RIdle => True
  | RCopying red got => 0 ≤ red ≤ frames p ∧ got = take (length got) q ∧
      Z.of_nat (length got) ≤ Z.shiftl red (mBitShift (mPort p))
  end.
Record conc_ok (c : conc) (q : list Z) : Prop := {
  co_repr : repr (c_pipe c) q;
  co_reader : reads_from (c_reader c) (c_pipe c);
  co_writing : writing_ok (c_pipe c) q (c_writing c);
  co_reading : reading_ok (c_pipe c) q (c_reading c);
  co_stream : c_sent c = c_received c ++ q
}.

(** The reader can go on: the byte it needs is in the buffer. *)
Lemma get_enabled c q red got :
  conc_ok c q → c_reading c = RCopying red got → Z.of_nat (length got) < Z.shiftl red (mBitShift (mPort (c_pipe c))) →
  ∃ b, q !! length got = Some b ∧ mBuffer (c_pipe c) !! Z.to_nat ((mFront (c_pipe c) * 2 ^ mBitShift (mPort (c_pipe c)) +
    Z.of_nat (length got)) mod Z.of_nat (length (mBuffer (c_pipe c)))) = Some b.
Proof.
  intros [Hr _ _ Hrd _] Erd Hlt. rewrite Erd in Hrd. destruct Hrd as (Hred & _ & _).
  destruct (shiftl_bytes red _ (r_shift _ _ Hr)) as [E1 Hp].
  destruct (shiftl_bytes (frames (c_pipe c)) _ (r_shift _ _ Hr)) as [E2 _].
  assert (length got < length q)%nat as Hq by (pose proof (r_size _ _ Hr); nia).
  destruct (lookup_lt_is_Some_2 q (length got) Hq) as [b Eb]. exists b. split; [done|].
  rewrite (ring_at _ _ _ (r_ring _ _ Hr)) by done. done.
Qed.

(** A byte that is copied in lies behind those before it. *)
Lemma step_put_ok p r rs sent recv data written put b q : data !! put = Some b → conc_ok (Conc p r (WCopying data written put) rs sent recv) q →
  conc_ok (Conc (set_mBuffer (put_at (mBuffer p) (mRear p * 2 ^ mBitShift (mPort p) + Z.of_nat put) b) p) r (WCopying data written (S put)) rs sent recv) q.
Proof.
  intros Eb Hok. pose proof Hok as [Hr Hrd Hw Hrg Hst]. pose proof (repr_bounds _ _ Hr) as (Hm & Hf & Hpos). pose proof (r_shift _ _ Hr) as Hs.
  cbn [c_pipe c_reader c_writing c_reading c_sent c_received] in *. set (s := mBitShift (mPort p)) in *.
  destruct Hw as (Hw0 & Hw1 & Hw2 & Hw3 & Hw4). fold s in Hw2, Hw4.
  pose proof (lookup_lt_Some _ _ _ Eb) as Hput.
  destruct (shiftl_bytes written s Hs) as [Ew Hp]. destruct (shiftl_bytes (frames p) s Hs) as [Ef _].
  destruct (shiftl_bytes (mMaxFrames p) s Hs) as [Em _].
  pose proof (r_size _ _ Hr) as Hsz. pose proof (r_len _ _ Hr) as Hl. fold s in Hsz, Hl.
  assert (length (q ++ take put data) = length q + put)%nat as Hlq by (rewrite length_app, length_take; lia).
  pose proof (ring_snoc _ _ _ b Hw4 ltac:(nia)) as Hring. rewrite Hlq in Hring.
  assert (put_at (mBuffer p) (mFront p * 2 ^ s + Z.of_nat (length q + put)) b =
    put_at (mBuffer p) (mRear p * 2 ^ s + Z.of_nat put) b) as Eput.
  { unfold put_at. do 2 f_equal. destruct (rear_index p q Hr) as (_ & _ & Epos). fold s in Epos.
    rewrite Nat2Z.inj_add, Z.add_assoc, <-(Zplus_mod_idemp_l (_ + _)), <-Epos.
    destruct (r_frames _ _ Hr) as (k & Hk & Emax).
    destruct (frame_index (mRear p) (mMaxFrames p) k s Emax) as (_ & _ & ->); [lia..|].
    rewrite Hl, Zplus_mod_idemp_l. done. }
  rewrite Eput in Hring. rewrite <-app_assoc, <-take_S_r in Hring by done.
  split; cbn [c_pipe c_reader c_writing c_reading c_sent c_received].
  - destruct Hr as [H1 H2 H3 H4 H5 H6]. split; try done.
    + cbn [set_mBuffer mBuffer mMaxFrames mPort]. by rewrite put_at_length.
    + cbn [set_mBuffer mBuffer mFront mPort]. fold s.
      rewrite <-(take_app_length q (take (S put) data)) at 1. by apply ring_take.
  - done.
  - cbn [writing_ok set_mBuffer mBuffer mFront mPort]. fold s. split_and!; try done; lia.
  - done.
  - done.
Qed.
(** The bytes that are published become part of the queue. *)
Lemma step_publish_ok p r rs sent recv data written q : conc_ok (Conc p r (WCopying data written (length data)) rs sent recv) q →
  conc_ok (Conc (set_mRear (s32 (written + mRear p)) p) r WIdle rs (sent ++ data) recv) (q ++ data).
Proof.
  intros Hok. pose proof Hok as [Hr Hrd Hw Hrg Hst]. pose proof (repr_bounds _ _ Hr) as (Hm & Hf & Hpos). pose proof (r_shift _ _ Hr) as Hs.
  cbn [c_pipe c_reader c_writing c_reading c_sent c_received] in *. set (s := mBitShift (mPort p)) in *.
  destruct Hw as (Hw0 & Hw1 & Hw2 & Hw3 & Hw4). fold s in Hw2, Hw4. rewrite firstn_all in Hw4.
  destruct (shiftl_bytes written s Hs) as [Ew Hp]. destruct (shiftl_bytes (frames p) s Hs) as [Ef _].
  set (p' := set_mRear (s32 (written + mRear p)) p).
  assert (frames p' = frames p + written) as Efr.
  { unfold frames, p'. cbn [set_mRear mRear mFront]. rewrite u32_s32_sub.
    destruct (u32_eq (mRear p - mFront p)) as [j Ej]. fold (frames p) in Ej |- *.
    rewrite (u32_cong _ (frames p + written) (- j)) by lia. apply u32_small. lia. }
  split; cbn [c_pipe c_reader c_writing c_reading c_sent c_received]; try done.
  - destruct Hr as [H1 H2 H3 H4 H5 H6]. split; try done. fold p'. rewrite Efr.
    cbn [p' set_mRear mPort]. fold s. fold s in H5. rewrite length_app.
    destruct (shiftl_bytes (frames p + written) s Hs) as [-> _]. lia.
  - destruct rs as [|red got]; [done|]. destruct Hrg as (Hr1 & Hr2 & Hr3). cbn [reading_ok]. fold s in Hr3.
    rewrite Efr. split; [lia|]. split; [|done].
    destruct (shiftl_bytes red s Hs) as [Er _]. pose proof (r_size _ _ Hr) as Hsz. fold s in Hsz.
    rewrite take_app_le by nia. done.
  - by rewrite Hst, app_assoc.
Qed.
(** Those that are released are no longer. *)
Lemma step_release_ok p r ws sent recv red got pts q : Z.of_nat (length got) = Z.shiftl red (mBitShift (rd_port r)) → conc_ok (Conc p r ws (RCopying red got) sent recv) q →
  ∃ q', conc_ok (Conc (updateFrontAndNRPTS (s32 (red + mFront p)) pts p) r ws RIdle sent (recv ++ got)) q'.
Proof.
  intros Hlen Hok. pose proof Hok as [Hr Hrd Hw Hrg Hst]. pose proof (repr_bounds _ _ Hr) as (Hm & Hf & Hpos). pose proof (r_shift _ _ Hr) as Hs.
  cbn [c_pipe c_reader c_writing c_reading c_sent c_received] in *. set (s := mBitShift (mPort p)) in *.
  destruct Hrg as (Hr1 & Hr2 & Hr3). destruct Hrd as [Hn Es]. rewrite Es in *. fold s in Hr3, Hlen.
  destruct (repr_advance p q red (Z.land (u32 (mUpdateSeq (set_mNextRdPTS pts (set_mFront (s32 (red + mFront p))
      (update_begin p))) + 1)) 2147483647) pts Hr Hr1) as [Hra Hfa]. fold s in Hra.
  set (q' := drop (Z.to_nat (Z.shiftl red s)) q) in *.
  set (p' := updateFrontAndNRPTS (s32 (red + mFront p)) pts p).
  assert (repr p' q') as Hr' by (exact (repr_ext _ _ _ eq_refl eq_refl eq_refl eq_refl eq_refl Hra)).
  assert (frames p' = frames p - red) as Hfp by exact Hfa.
  assert (q = got ++ q') as Eq by (unfold q'; rewrite Hr2, <-Hlen, Nat2Z.id; by rewrite take_drop).
  exists q'. split; cbn [c_pipe c_reader c_writing c_reading c_sent c_received]; try done.
  - destruct ws as [|data written put]; [done|]. destruct Hw as (Hw0 & Hw1 & Hw2 & Hw3 & Hw4). cbn [writing_ok].
    rewrite Hfp. fold s in Hw2, Hw4. split; [done|]. split; [change (mMaxFrames p') with (mMaxFrames p); lia|].
    split; [done|]. split; [done|]. change (mBuffer p') with (mBuffer p). change (mBitShift (mPort p')) with s.
    apply (ring_congr _ (mFront p * 2 ^ s + Z.of_nat (length got))).
    + change (mFront p') with (s32 (red + mFront p)). rewrite Hlen, (r_len _ _ Hr). fold s.
      destruct (shiftl_bytes red s Hs) as [-> Hp]. destruct (shiftl_bytes (mMaxFrames p) s Hs) as [-> _].
      rewrite <-Z.mul_add_distr_r, !Z.mul_mod_distr_r by lia. f_equal.
      destruct (r_frames _ _ Hr) as (k & Hk & ->). destruct (s32_eq (red + mFront p)) as [j ->].
      apply (mod_pow2_cong _ _ (- j)); [lia|ring].
    + replace (q' ++ take put data) with (drop (length got) (q ++ take put data)); [by apply ring_drop|].
      rewrite Eq, <-app_assoc. by rewrite drop_app_length.
  - by rewrite Hst, Eq, <-app_assoc.
Qed.

Lemma step_ok c c' q : step c c' → conc_ok c q → ∃ q', conc_ok c' q'.
Proof.
  intros Hstep Hok. pose proof Hok as [Hr Hrd Hw Hrg Hst]. pose proof (repr_bounds _ _ Hr) as (Hm & Hf & Hpos).
  pose proof (r_shift _ _ Hr) as Hs.
  destruct Hstep as [p r rs sent recv buffer count written Hc Hlen Ewr Hw0
    |p r rs sent recv data written put b Eb
    |p r rs sent recv data written
    |p r ws sent recv count Hc Hav
    |p r ws sent recv red got b Hlt Eb
    |p r ws sent recv red got pts Hlen];
    cbn [c_pipe c_reader c_writing c_reading c_sent c_received] in *; set (s := mBitShift (mPort p)) in *.
  - exists q. split; cbn [c_pipe c_reader c_writing c_reading c_sent c_received]; try done.
    rewrite (availableToWrite_ok p q Hr), u32_small in Ewr by lia. cbn [writing_ok]. fold s.
    destruct (shiftl_bytes count s Hs) as [Ec Hp]. destruct (shiftl_bytes written s Hs) as [Ew _].
    split; [lia|]. split; [lia|]. split; [rewrite length_take; nia|]. split; [lia|].
    rewrite take_0, app_nil_r. apply (r_ring _ _ Hr).
  - exists q. by apply step_put_ok.
  - exists (q ++ data). by apply step_publish_ok.
  - exists q. split; cbn [c_pipe c_reader c_writing c_reading c_sent c_received]; try done.
    rewrite (availableToRead_ok r p q Hr Hrd) in *. cbn [reading_ok]. split; [lia|]. split; [done|].
    cbn [length]. fold s. destruct (shiftl_bytes (Z.min count (frames p)) _ Hs) as [-> ?]. nia.
  - exists q. destruct Hrd as [Hn Es]. rewrite Es in *. fold s in Hlt, Eb.
    destruct (get_enabled _ q red got Hok eq_refl Hlt) as (b' & Eq & Eb').
    cbn [c_pipe] in Eb'. fold s in Eb'. assert (b' = b) as -> by congruence.
    split; cbn [c_pipe c_reader c_writing c_reading c_sent c_received]; try done.
    destruct Hrg as (Hr1 & Hr2 & Hr3). cbn [reading_ok]. fold s in Hr3 |- *. rewrite length_app. cbn [length].
    split; [done|]. split; [|lia]. rewrite Nat.add_1_r, (take_S_r _ _ _ Eq). by rewrite <-Hr2.
  - by eapply step_release_ok.
Qed.

(** ** The operations are runs of steps *)

Lemma put_all_congr {A} (d : list A) : ∀ buf pos pos',
  pos mod Z.of_nat (length buf) = pos' mod Z.of_nat (length buf) → put_all buf pos d = put_all buf pos' d.
Proof.
  induction d as [|b d IH]; intros buf pos pos' E; [done|]. cbn [put_all]. unfold put_at. rewrite E.
  apply IH. rewrite length_insert. by rewrite <-(Zplus_mod_idemp_l pos), E, Zplus_mod_idemp_l.
Qed.

Lemma set_mBuffer_id p : set_mBuffer (mBuffer p) p = p.
Proof. by destruct p. Qed.

Lemma put_steps n : ∀ p r rs sent recv data written put,
  n = (length data - put)%nat → (put ≤ length data)%nat →
  rtc step (Conc p r (WCopying data written put) rs sent recv)
    (Conc (set_mBuffer (put_all (mBuffer p) (mRear p * 2 ^ mBitShift (mPort p) + Z.of_nat put) (drop put data)) p) r
       (WCopying data written (length data)) rs sent recv).
Proof.
  induction n as [|n IH]; intros p r rs sent recv data written put Hn Hput.
  - assert (put = length data) as -> by lia. rewrite drop_all. cbn [put_all]. by rewrite set_mBuffer_id.
  - destruct (lookup_lt_is_Some_2 data put) as [b Eb]; [lia|].
    eapply rtc_l; [by apply step_put|]. rewrite (drop_S _ _ _ Eb). cbn [put_all].
    set (p1 := set_mBuffer (put_at (mBuffer p) (mRear p * 2 ^ mBitShift (mPort p) + Z.of_nat put) b) p).
    pose proof (IH p1 r rs sent recv data written (S put) ltac:(lia) ltac:(lia)) as Hs.
    change (mRear p1) with (mRear p) in Hs. change (mPort p1) with (mPort p) in Hs.
    replace (mRear p * 2 ^ mBitShift (mPort p) + Z.of_nat put + 1) with
      (mRear p * 2 ^ mBitShift (mPort p) + Z.of_nat (S put)) by lia. exact Hs.
Qed.

(** Undisturbed, the steps of the writer are [write_some]. *)
Lemma write_some_steps p q r rs sent recv buffer count :
  repr p q → 0 ≤ count < 2 ^ 32 → Z.shiftl count (mBitShift (mPort p)) ≤ Z.of_nat (length buffer) →
  ∃ written p', write_some buffer count p = Ret (written, mMaxFrames p - frames p) p' ∧
    rtc step (Conc p r WIdle rs sent recv)
      (Conc p' r WIdle rs (sent ++ take (Z.to_nat (Z.shiftl written (mBitShift (mPort p)))) buffer) recv).
Proof.
  intros Hr Hc Hlen. destruct (repr_bounds p q Hr) as (Hm & Hf & Hpos). pose proof (r_shift _ _ Hr) as Hs.
  set (s := mBitShift (mPort p)) in *. set (written := Z.min count (mMaxFrames p - frames p)).
  destruct (shiftl_bytes written s Hs) as [Ew Hp2]. destruct (shiftl_bytes count s Hs) as [Ec _].
  destruct (shiftl_bytes (mMaxFrames p) s Hs) as [Em _].
  set (d := take (Z.to_nat (Z.shiftl written s)) buffer).
  destruct (rear_index p q Hr) as (Ei & Hi & _). destruct (r_frames _ _ Hr) as (k & Hk & Emax).
  destruct (frame_index (mRear p) (mMaxFrames p) k s Emax) as (_ & _ & Epos); [lia..|].
  pose proof (r_len _ _ Hr) as Hl. fold s in Hl.
  assert (write_copy buffer written p = Some (put_all (mBuffer p) (mRear p * 2 ^ s) d)) as Ecopy.
  { unfold write_copy. rewrite Ei. fold s. rewrite frames_in_ok by (done || lia || (rewrite Ew; nia)). fold d. rewrite copy_in_bytes.
    - f_equal. apply put_all_congr. rewrite Epos, Hl. apply Z.mod_mod. nia.
    - rewrite Hl, Epos. apply Z.mod_pos_bound. nia.
    - unfold d. rewrite length_take. nia. }
  assert (u32 (availableToWrite p) = mMaxFrames p - frames p) as Eav.
  { rewrite (availableToWrite_ok p q Hr). apply u32_small. lia. }
  set (p1 := set_mBuffer (put_all (mBuffer p) (mRear p * 2 ^ s) d) p).
  exists written, (if bool_decide (written > 0) then set_mRear (s32 (written + mRear p)) p1 else p1). split.
  - unfold write_some. rewrite bind_getst, Eav.
    assert ((if bool_decide (mMaxFrames p - frames p > count) then count else mMaxFrames p - frames p) = written) as ->
      by (unfold written; case_bool_decide; lia).
    rewrite Ecopy, bind_deref, bind_modify. fold p1. by case_bool_decide.
  - case_bool_decide as Hw.
    + eapply rtc_l; [apply (step_write p r rs sent recv buffer count written); [done|done|by rewrite Eav|done]|].
      fold s. fold d. etrans; [apply (put_steps _ p r rs sent recv d written 0 eq_refl); lia|].
      rewrite drop_0, Z.add_0_r. fold s. fold p1. eapply rtc_l; [apply step_publish|done].
    + assert (written = 0) as H0 by lia. unfold p1, d. rewrite H0, Z.shiftl_0_l, take_0, app_nil_r. cbn [put_all].
      by rewrite set_mBuffer_id.
Qed.

(** ** The stream *)

(** C1: whatever way the accesses of the two threads interleave, the reader gets the
    bytes that were written, in their order, each once, and no byte of a frame that
    is still being written; between the two ends there are never more than
    [mMaxFrames] frames, and a reader in the middle of a copy can always go on, with
    the next byte of the stream. *)
Theorem MonoPipe_stream (reqFrames rate channels : Z) (buffer : list Z) (lf : option Z) (c : conc)
    (Hreq : 0 ≤ reqFrames ≤ 2 ^ 28) (Hrate : rate ∈ sample_rates) (Hch : channels = 1 ∨ channels = 2)
    (Hbuf : Z.of_nat (length buffer) = roundup reqFrames * Format_frameSize (Format_from_SR_C rate channels))
    (st := open_pipe reqFrames (Format_from_SR_C rate channels) false buffer lf)
    (Hreach : rtc step (Conc (m_pipe st) (m_reader st) WIdle RIdle [] []) c) :
  ∃ q, c_sent c = c_received c ++ q ∧ Z.of_nat (length q) ≤ roundup reqFrames * 2 ^ channels ∧
    ∀ red got, c_reading c = RCopying red got →
      got = take (length got) q ∧
      (Z.of_nat (length got) < red * 2 ^ channels →
       ∃ b c', q !! length got = Some b ∧ step c c' ∧ c_reading c' = RCopying red (got ++ [b])).
Proof.
  destruct (open_pipe_ok reqFrames rate channels false buffer lf Hreq Hrate Hch Hbuf) as (Hr & Hrd & _ & Em & Es & _).
  fold st in Hr, Hrd, Em, Es.
  assert (∃ q, conc_ok c q ∧ mMaxFrames (c_pipe c) = roundup reqFrames ∧ mBitShift (mPort (c_pipe c)) = channels)
    as (q & Hok & Em' & Es').
  { eapply (rtc_ind_r (λ c, ∃ q, conc_ok c q ∧ mMaxFrames (c_pipe c) = roundup reqFrames ∧
      mBitShift (mPort (c_pipe c)) = channels)); [| |exact Hreach].
    - exists []. split; [split; cbn; done|done].
    - intros c1 c2 _ Hstep (q & Hok & E1 & E2). destruct (step_ok _ _ _ Hstep Hok) as [q' Hok'].
      exists q'. split; [done|]. destruct Hstep; by split. }
  pose proof Hok as [Hr' Hrd' _ Hrg Hstream]. exists q. split; [done|].
  destruct (repr_bounds _ _ Hr') as (Hm & Hf & _). destruct (shiftl_bytes (frames (c_pipe c)) _ (r_shift _ _ Hr')) as [Ef Hp].
  pose proof (r_size _ _ Hr') as Hsz. rewrite Es' in *. split; [nia|].
  intros red got Erd. rewrite Erd in Hrg. destruct Hrg as (H1 & H2 & H3). split; [done|]. intros Hlt.
  destruct (shiftl_bytes red channels ltac:(lia)) as [Ered _].
  destruct (get_enabled c q red got Hok Erd) as (b & Eq & Eb); [rewrite Es'; lia|]. rewrite Es' in Eb.
  destruct c as [p r ws rs sent recv]. cbn [c_pipe c_reader c_reading] in *. subst rs. exists b.
  exists (Conc p r ws (RCopying red (got ++ [b])) sent recv). split; [done|]. split; [|reflexivity]. destruct Hrd' as [_ Er].
  apply step_get; rewrite Er, Es'; [lia|done].
Qed.

(** ** The position and its time, together

    [updateFrontAndNRPTS] makes four stores; [observeFrontAndNRPTS] makes four loads
    and starts again unless it has seen the same number, without the mark of an update, before and after. *)

(** The [n]th store of a reader that goes through the updates [ups] for ever. *)
Definition store_step (ups : nat → Z * Z) (n : nat) (p : monopipe) : monopipe :=
  let '(front, pts) := ups (n / 4)%nat in
  match (n mod 4)%nat with
  | 0%nat => update_begin p
  | 1%nat => set_mFront front p
  | 2%nat => set_mNextRdPTS pts p
  | _ => update_end p
  end.
(** The pipe after [n] stores. *)
Fixpoint stores (ups : nat → Z * Z) (n : nat) (p : monopipe) : monopipe :=
  match n with
  | O => p
  | S n => store_step ups n (stores ups n p)
  end.

Lemma store_step_at ups i j p : (j < 4)%nat → store_step ups (4 * i + j) p =
  match j with
  | 0%nat => update_begin p
  | 1%nat => set_mFront (fst (ups i)) p
  | 2%nat => set_mNextRdPTS (snd (ups i)) p
  | _ => update_end p
  end.
Proof.
  intros Hj. unfold store_step.
  rewrite (Nat.mul_comm 4 i), Nat.div_add_l, Nat.div_small, Nat.add_0_r by lia.
  rewrite Nat.add_comm, Nat.Div0.mod_add, Nat.mod_small by lia. destruct (ups i). by destruct j as [|[|[|[|j]]]].
Qed.

Lemma update_stores ups i p : stores ups (4 * S i) p = updateFrontAndNRPTS (fst (ups i)) (snd (ups i)) (stores ups (4 * i) p).
Proof.
  replace (4 * S i)%nat with (S (S (S (S (4 * i))))) by lia. cbn [stores].
  replace (S (S (S (4 * i)))) with (4 * i + 3)%nat by lia. replace (S (S (4 * i))) with (4 * i + 2)%nat by lia.
  replace (S (4 * i)) with (4 * i + 1)%nat by lia. pose proof (store_step_at ups i 0) as H0.
  rewrite Nat.add_0_r in H0. rewrite H0, !store_step_at by lia. done.
Qed.

(** The sequence number: marked by its top bit while an update is going on, and one
    more after it. *)
Lemma seq_busy x : 0 ≤ x < 2 ^ 31 → s32 (Z.lor (u32 x) 2147483648) = x - 2 ^ 31.
Proof.
  intros Hx. rewrite u32_small by lia. change 2147483648 with (1 * 2 ^ 31). rewrite lor_halves by lia.
  rewrite (s32_cong _ (x - 2 ^ 31) 1) by lia. apply s32_small. lia.
Qed.
Lemma seq_next x : 0 ≤ x < 2 ^ 31 → Z.land (u32 (x - 2 ^ 31 + 1)) 2147483647 = (x + 1) mod 2 ^ 31.
Proof.
  intros Hx. change 2147483647 with (2 ^ 31 - 1). rewrite land_ones_mod by lia.
  destruct (u32_eq (x - 2 ^ 31 + 1)) as [j ->]. replace (x - 2 ^ 31 + 1 + j * 2 ^ 32) with (x + 1 + (2 * j - 1) * 2 ^ 31) by ring.
  apply Z.mod_add. lia.
Qed.
Lemma seq_at ups p i : 0 ≤ mUpdateSeq p < 2 ^ 31 →
  mUpdateSeq (stores ups (4 * i) p) = (mUpdateSeq p + Z.of_nat i) mod 2 ^ 31 ∧
  ∀ j, (1 ≤ j ≤ 3)%nat → mUpdateSeq (stores ups (4 * i + j) p) = (mUpdateSeq p + Z.of_nat i) mod 2 ^ 31 - 2 ^ 31.
Proof.
  intros Hp.
  assert (∀ i, mUpdateSeq (stores ups (4 * i) p) = (mUpdateSeq p + Z.of_nat i) mod 2 ^ 31) as Hidle.
  { intros n. induction n as [|n IH]; [cbn; rewrite Z.add_0_r, Z.mod_small by lia; done|].
    rewrite update_stores. unfold updateFrontAndNRPTS, update_end, update_begin.
    cbn [set_mUpdateSeq set_mNextRdPTS set_mFront mUpdateSeq].
    pose proof (Z.mod_pos_bound (mUpdateSeq p + Z.of_nat n) (2 ^ 31) ltac:(lia)).
    rewrite IH, seq_busy, seq_next by done. rewrite Zplus_mod_idemp_l. f_equal. lia. }
  split; [apply Hidle|]. intros j Hj. rewrite <-Hidle.
  assert (0 ≤ mUpdateSeq (stores ups (4 * i) p) < 2 ^ 31) as Hb by (rewrite Hidle; apply Z.mod_pos_bound; lia).
  assert (mUpdateSeq (stores ups (4 * i + 1) p) = mUpdateSeq (stores ups (4 * i) p) - 2 ^ 31) as H1.
  { replace (4 * i + 1)%nat with (S (4 * i)) by lia. cbn [stores]. pose proof (store_step_at ups i 0) as H0.
    rewrite Nat.add_0_r in H0. rewrite H0 by lia. unfold update_begin. cbn [set_mUpdateSeq mUpdateSeq]. by apply seq_busy. }
  assert (mUpdateSeq (stores ups (4 * i + 2) p) = mUpdateSeq (stores ups (4 * i + 1) p)) as H2.
  { replace (4 * i + 2)%nat with (S (4 * i + 1)) by lia. cbn [stores]. by rewrite store_step_at by lia. }
  assert (mUpdateSeq (stores ups (4 * i + 3) p) = mUpdateSeq (stores ups (4 * i + 2) p)) as H3.
  { replace (4 * i + 3)%nat with (S (4 * i + 2)) by lia. cbn [stores]. by rewrite store_step_at by lia. }
  assert (j = 1 ∨ j = 2 ∨ j = 3)%nat as [-> | [-> | ->]] by lia; congruence.
Qed.

Lemma observe_again_false x y : observe_again x y = false → x = y ∧ (0 ≤ u32 x < 2 ^ 31).
Proof.
  unfold observe_again. intros [H1 H2]%orb_false_iff. apply bool_decide_eq_false in H1. apply negb_false_iff, bool_decide_eq_true in H2.
  split; [by destruct (decide (x = y))|]. pose proof (u32_range x) as Hu. change 2147483648 with (2 ^ 31) in H2.
  split; [lia|]. destruct (decide (u32 x < 2 ^ 31)) as [|Hge]; [done|exfalso].
  assert (Z.testbit (Z.land (u32 x) (2 ^ 31)) 31 = false) as Hb by (by rewrite H2, Z.bits_0).
  rewrite Z.land_spec, Z.pow2_bits_true, andb_true_r, Z.testbit_odd, Z.shiftr_div_pow2 in Hb by lia.
  replace (u32 x / 2 ^ 31) with 1 in Hb; [done|]. apply (Z.div_unique _ _ _ (u32 x - 2 ^ 31)); lia.
Qed.

(** The pair that [observeFrontAndNRPTS] returns was there at one time, whatever
    stores the reader made between its loads (at the times [t1] to [t4], counted in
    stores), unless so many updates fell between them that the 31-bit sequence number
    came round. *)
Theorem observe_consistent (ups : nat → Z * Z) (p : monopipe) (t1 t2 t3 t4 : nat)
    (Hseq : 0 ≤ mUpdateSeq p < 2 ^ 31) (Ht : (t1 ≤ t2 ≤ t3)%nat ∧ (t3 ≤ t4)%nat)
    (Hfew : Z.of_nat t4 - Z.of_nat t1 < 4 * 2 ^ 31)
    (Hexit : observe_again (mUpdateSeq (stores ups t1 p)) (mUpdateSeq (stores ups t4 p)) = false) :
  ∃ i, mFront (stores ups t2 p) = mFront (stores ups (4 * i) p) ∧
       mNextRdPTS (stores ups t3 p) = mNextRdPTS (stores ups (4 * i) p) ∧
       (∀ n, i = S n → (mFront (stores ups t2 p), mNextRdPTS (stores ups t3 p)) = ups n).
Proof.
  apply observe_again_false in Hexit as [Heq Hidle].
  assert (∀ t, ∃ i j, t = (4 * i + j)%nat ∧ (j < 4)%nat) as Hsplit.
  { intros t. exists (t / 4)%nat, (t mod 4)%nat. split; [apply Nat.div_mod_eq|]. apply Nat.mod_upper_bound. lia. }
  assert (∀ t, 0 ≤ u32 (mUpdateSeq (stores ups t p)) < 2 ^ 31 →
    ∃ i, t = (4 * i)%nat ∧ mUpdateSeq (stores ups t p) = (mUpdateSeq p + Z.of_nat i) mod 2 ^ 31) as Hev.
  { intros t Hu. destruct (Hsplit t) as (i & j & -> & Hj). destruct (seq_at ups p i Hseq) as [H0 H1].
    destruct (decide (j = 0)%nat) as [->|]; [exists i; by rewrite Nat.add_0_r in *|exfalso].
    rewrite H1 in Hu by lia. pose proof (Z.mod_pos_bound (mUpdateSeq p + Z.of_nat i) (2 ^ 31) ltac:(lia)).
    rewrite (u32_cong _ ((mUpdateSeq p + Z.of_nat i) mod 2 ^ 31 + 2 ^ 31) (-1)) in Hu by lia.
    rewrite u32_small in Hu by lia. lia. }
  destruct (Hev t1 Hidle) as (i1 & -> & E1). rewrite Heq in Hidle. destruct (Hev t4 Hidle) as (i4 & -> & E4).
  assert (i4 = i1) as ->.
  { rewrite E1, E4 in Heq. set (a := mUpdateSeq p) in *.
    pose proof (Z.div_mod (a + Z.of_nat i1) (2 ^ 31) ltac:(lia)). pose proof (Z.div_mod (a + Z.of_nat i4) (2 ^ 31) ltac:(lia)).
    assert (0 ≤ Z.of_nat i4 - Z.of_nat i1 < 2 ^ 31) by lia.
    assert ((a + Z.of_nat i1) / 2 ^ 31 = (a + Z.of_nat i4) / 2 ^ 31) by nia. lia. }
  assert (t2 = 4 * i1 ∧ t3 = 4 * i1)%nat as [-> ->] by lia. exists i1. split; [done|]. split; [done|].
  intros n ->. rewrite update_stores. by destruct (ups n).
Qed.

Module StepsDemo.
Definition start : conc :=
  let st := open_pipe 3 (Format_from_SR_C 44100 1) false (replicate 8 0) None in
  Conc (m_pipe st) (m_reader st) WIdle RIdle [] [].

(** The reader starts on the first frame while the second is being written. *)
Definition mid : conc :=
  let p0 := c_pipe start in
  let p1 := set_mRear 1 (set_mBuffer [7; 8; 9; 0; 0; 0; 0; 0] p0) in
  Conc p1 (c_reader start) (WCopying [9; 10] 1 1) (RCopying 1 [7]) [7; 8] [].

Lemma mid_reached : rtc step start mid.
Proof.
  eapply rtc_l; [apply (step_write _ _ _ _ _ [7; 8] 1 1); vm_compute; repeat split; congruence|].
  eapply rtc_l; [apply (step_put _ _ _ _ _ _ _ _ 7); reflexivity|].
  eapply rtc_l; [apply (step_put _ _ _ _ _ _ _ _ 8); reflexivity|].
  eapply rtc_l; [apply step_publish|].
  eapply rtc_l; [apply (step_write _ _ _ _ _ [9; 10] 1 1); vm_compute; repeat split; congruence|].
  eapply rtc_l; [apply (step_read _ _ _ _ _ 1); vm_compute; repeat split; congruence|].
  eapply rtc_l; [apply (step_put _ _ _ _ _ _ _ _ 9); reflexivity|].
  eapply rtc_l; [apply (step_get _ _ _ _ _ _ _ 7); reflexivity|].
  reflexivity.
Qed.
Lemma MonoPipe_stream_witness :
  ∃ q, c_sent mid = c_received mid ++ q ∧ Z.of_nat (length q) ≤ roundup 3 * 2 ^ 1 ∧
    ∀ red got, c_reading mid = RCopying red got →
      got = take (length got) q ∧
      (Z.of_nat (length got) < red * 2 ^ 1 →
       ∃ b c', q !! length got = Some b ∧ step mid c' ∧ c_reading c' = RCopying red (got ++ [b])).
Proof.
  apply (MonoPipe_stream 3 44100 1 (replicate 8 0) None mid).
  - lia.
  - apply (bool_decide_unpack _). reflexivity.
  - by left.
  - reflexivity.
  - exact mid_reached.
Defined.

Definition demo_ups (n : nat) : Z * Z := (Z.of_nat n + 1, 100 * Z.of_nat n).
Lemma observe_consistent_witness :
  ∃ i, mFront (stores demo_ups 8 (c_pipe start)) = mFront (stores demo_ups (4 * i) (c_pipe start)) ∧
       mNextRdPTS (stores demo_ups 8 (c_pipe start)) = mNextRdPTS (stores demo_ups (4 * i) (c_pipe start)) ∧
       (∀ n, i = S n → (mFront (stores demo_ups 8 (c_pipe start)), mNextRdPTS (stores demo_ups 8 (c_pipe start))) = demo_ups n).
Proof. apply (observe_consistent demo_ups (c_pipe start) 8 8 8 8); [vm_compute; split; congruence|lia|lia|reflexivity]. Defined.
End StepsDemo.
