(* ===== verification/Pipe.v ===== *)
(** * Pipe

    [libs/libnbaio/Pipe.cpp], [libs/libnbaio/PipeReader.cpp]: a pipe with any number
    of readers.  The writer never waits; a reader that falls behind by more than the
    pipe holds has lost frames, is told so by its next call, and goes on with what is
    still there. *)

From Stdlib Require Import ZArith Lia.
From stdpp Require Import base tactics numbers option list.
From S2P Require Import Prelude Words Nbaio Ring.

(** [class Pipe], with the [NBAIO_Sink] it derives from. *)
Record pipe := Pipe_ {
  mPort : port;
  mFramesWritten : Z;
  mMaxFrames : Z;
  mBuffer : list Z;
  mRear : Z;
  mReaders : Z
}.
Definition set_mPort (v : port) (x : pipe) : pipe :=
  Pipe_ v (mFramesWritten x) (mMaxFrames x) (mBuffer x) (mRear x) (mReaders x).
Definition set_mFramesWritten (v : Z) (x : pipe) : pipe :=
  Pipe_ (mPort x) v (mMaxFrames x) (mBuffer x) (mRear x) (mReaders x).
Definition set_mMaxFrames (v : Z) (x : pipe) : pipe :=
  Pipe_ (mPort x) (mFramesWritten x) v (mBuffer x) (mRear x) (mReaders x).
Definition set_mBuffer (v : list Z) (x : pipe) : pipe :=
  Pipe_ (mPort x) (mFramesWritten x) (mMaxFrames x) v (mRear x) (mReaders x).
Definition set_mRear (v : Z) (x : pipe) : pipe :=
  Pipe_ (mPort x) (mFramesWritten x) (mMaxFrames x) (mBuffer x) v (mReaders x).
Definition set_mReaders (v : Z) (x : pipe) : pipe :=
  Pipe_ (mPort x) (mFramesWritten x) (mMaxFrames x) (mBuffer x) (mRear x) v.

(** [class PipeReader]. *)
Record preader := PReader {
  rd_port : port;
  mFramesRead : Z;
  mFront : Z;
  mFramesOverrun : Z;
  mOverruns : Z
}.
Definition set_rd_port (v : port) (x : preader) : preader :=
  PReader v (mFramesRead x) (mFront x) (mFramesOverrun x) (mOverruns x).
Definition set_mFramesRead (v : Z) (x : preader) : preader :=
  PReader (rd_port x) v (mFront x) (mFramesOverrun x) (mOverruns x).
Definition set_mFront (v : Z) (x : preader) : preader :=
  PReader (rd_port x) (mFramesRead x) v (mFramesOverrun x) (mOverruns x).
Definition set_mFramesOverrun (v : Z) (x : preader) : preader :=
  PReader (rd_port x) (mFramesRead x) (mFront x) v (mOverruns x).
Definition set_mOverruns (v : Z) (x : preader) : preader :=
  PReader (rd_port x) (mFramesRead x) (mFront x) (mFramesOverrun x) v.

(** The constructors; [buffer] is the block [malloc] returned. *)
Definition Pipe (maxFrames format : Z) (buffer : list Z) : pipe :=
  Pipe_ (port_new format) 0 (roundup maxFrames) buffer 0 0.
Definition PipeReader (p : pipe) : preader * pipe :=
  (PReader (port_new (mFormat (mPort p))) 0 (mRear p) 0 0, set_mReaders (s32 (mReaders p + 1)) p).
(** [~PipeReader]. *)
Definition PipeReader_delete (p : pipe) : M unit pipe :=
  bug_on (bool_decide (mReaders p <= 0)) ;;; ret (set_mReaders (s32 (mReaders p - 1)) p).

Definition write (buffer : list Z) (count : Z) : M pipe Z :=
  p <- getst ;;
  if negb (mNegotiated (mPort p)) then ret NEGOTIATE else
  let shift := mBitShift (mPort p) in
  let rear := Z.land (u32 (mRear p)) (mMaxFrames p - 1) in
  let written := mMaxFrames p - rear in
  let written := if bool_decide (written > count) then count else written in
  b <- deref (memcpy (mBuffer p) (Z.shiftl rear shift) buffer 0 (Z.shiftl written shift)) ;;
  let* (b, written) :=
    (if bool_decide (rear + written = mMaxFrames p) then
      let count := count - written in
      let count := if bool_decide (count > rear) then rear else count in
      if bool_decide (count > 0) then
        b <- deref (memcpy b 0 buffer (Z.shiftl written shift) (Z.shiftl count shift)) ;;
        ret (b, written + count)
      else ret (b, written)
    else ret (b, written)) in
  modify (λ p, set_mRear (s32 (written + mRear p)) (set_mBuffer b p)) ;;;
  modify (λ p, set_mFramesWritten (u32 (mFramesWritten p + written)) p) ;;;
  ret (s32 written).

Definition availableToRead (p : pipe) : M preader Z :=
  r <- getst ;;
  if negb (mNegotiated (rd_port r)) then ret NEGOTIATE else
  let rear := mRear p in
  let avail := u32 (s32 (rear - mFront r)) in
  if bool_decide (avail > mMaxFrames p) then
    let oldFront := mFront r in
    modify (set_mFront (s32 (rear - mMaxFrames p + Z.shiftr (mMaxFrames p) 4))) ;;;
    modify (λ r, set_mFramesOverrun (u32 (mFramesOverrun r + u32 (s32 (mFront r - oldFront)))) r) ;;;
    modify (λ r, set_mOverruns (u32 (mOverruns r + 1)) r) ;;;
    ret OVERRUN
  else ret (s32 avail).

(** The value returned and the bytes put into the caller's buffer. *)
Definition read (p : pipe) (count readPTS : Z) : M preader (Z * list Z) :=
  avail <- availableToRead p ;;
  if bool_decide (avail <= 0) then ret (avail, []) else
  r <- getst ;;
  let shift := mBitShift (rd_port r) in
  let count := if bool_decide (count > u32 avail) then avail else count in
  let front := Z.land (u32 (mFront r)) (mMaxFrames p - 1) in
  let red := mMaxFrames p - front in
  let red := if bool_decide (red > count) then count else red in
  l <- deref (slice (mBuffer p) (Z.shiftl front shift) (Z.shiftl red shift)) ;;
  let* (l, red) :=
    (if bool_decide (front + red = mMaxFrames p) then
      let count := count - red in
      let count := if bool_decide (count > front) then front else count in
      if bool_decide (count > 0) then
        l2 <- deref (slice (mBuffer p) 0 (Z.shiftl count shift)) ;;
        ret (l ++ l2, red + count)
      else ret (l, red)
    else ret (l, red)) in
  modify (λ r, set_mFront (s32 (mFront r + red)) r) ;;;
  modify (λ r, set_mFramesRead (u32 (mFramesRead r + red)) r) ;;;
  ret (s32 red, l).

(** ** The stream *)

(** The pipe holds the last frames of the stream of bytes [hist]. *)
Record holds (p : pipe) (hist : list Z) : Prop := {
  h_neg : mNegotiated (mPort p) = true;
  h_shift : 1 ≤ mBitShift (mPort p) ≤ 2;
  h_frames : ∃ k, 0 ≤ k ≤ 28 ∧ mMaxFrames p = 2 ^ k;
  h_len : Z.of_nat (length (mBuffer p)) = mMaxFrames p * 2 ^ mBitShift (mPort p);
  h_rear : ∃ n j, Z.of_nat (length hist) = n * 2 ^ mBitShift (mPort p) ∧ mRear p = n + j * 2 ^ 32;
  h_at i : (i < length hist)%nat → (length hist ≤ i + length (mBuffer p))%nat →
    mBuffer p !! Z.to_nat (Z.of_nat i mod Z.of_nat (length (mBuffer p))) = hist !! i
}.
(** The frames written since the pipe was made. *)
Definition total (p : pipe) (hist : list Z) : Z := Z.of_nat (length hist) / 2 ^ mBitShift (mPort p).
(** The reader has got as far as frame [pos] of the stream. *)
Record reader_at (r : preader) (p : pipe) (pos : Z) : Prop := {
  ra_neg : mNegotiated (rd_port r) = true;
  ra_shift : mBitShift (rd_port r) = mBitShift (mPort p);
  ra_front : ∃ j, mFront r = pos + j * 2 ^ 32
}.

Lemma pow_shift s : 1 ≤ s ≤ 2 → 2 ≤ 2 ^ s ≤ 4.
Proof. intros Hs. assert (s = 1 ∨ s = 2) as [-> | ->] by lia; lia. Qed.
Lemma holds_total p hist : holds p hist →
  Z.of_nat (length hist) = total p hist * 2 ^ mBitShift (mPort p) ∧ 0 ≤ total p hist ∧
  (∃ j, mRear p = total p hist + j * 2 ^ 32) ∧ 1 ≤ mMaxFrames p ≤ 2 ^ 28.
Proof.
  intros [_ Hs (k & Hk & Em) _ (n & j & En & Er) _]. pose proof (pow_shift _ Hs) as Hp.
  assert (total p hist = n) as -> by (unfold total; rewrite En; apply Z.div_mul; lia).
  pose proof (Z.pow_pos_nonneg 2 k). assert (2 ^ k ≤ 2 ^ 28) by (apply Z.pow_le_mono_r; lia).
  split; [done|]. split; [nia|]. split; [by exists j|lia].
Qed.

(** The index of frame [pos] of the stream. *)
Lemma stream_index (x pos j : Z) p hist : holds p hist → x = pos + j * 2 ^ 32 →
  Z.land (u32 x) (mMaxFrames p - 1) = pos mod mMaxFrames p ∧ 0 ≤ pos mod mMaxFrames p < mMaxFrames p ∧
  Z.shiftl (pos mod mMaxFrames p) (mBitShift (mPort p)) =
    (pos * 2 ^ mBitShift (mPort p)) mod Z.of_nat (length (mBuffer p)).
Proof.
  intros [_ Hs (k & Hk & Em) Hl _ _] ->. destruct (frame_index (pos + j * 2 ^ 32) (mMaxFrames p) k
    (mBitShift (mPort p)) Em) as (E1 & _ & _); [lia..|].
  destruct (frame_index pos (mMaxFrames p) k (mBitShift (mPort p)) Em) as (_ & E2 & E3); [lia..|].
  rewrite E1, Hl. rewrite <-(Z.shiftl_mul_pow2 (mMaxFrames p)), <-E3 by lia.
  rewrite Em in *. by rewrite (mod_pow2_cong (pos + j * 2 ^ 32) pos j k) by lia.
Qed.

(** The buffer [b'] after the frames [d] have been copied in behind the stream. *)
Definition copied (p : pipe) (hist : list Z) (n : Z) (d b' : list Z) : Prop :=
  let w := 2 ^ mBitShift (mPort p) in
  length b' = length (mBuffer p) ∧ ∀ i, 0 ≤ i < mMaxFrames p * w → b' !! Z.to_nat ((total p hist * w + i) mod (mMaxFrames p * w)) =
    if bool_decide (i < n * w) then d !! Z.to_nat i else mBuffer p !! Z.to_nat ((total p hist * w + i) mod (mMaxFrames p * w)).
Lemma copied_in p hist buffer n : holds p hist → 0 ≤ n ≤ mMaxFrames p → n * 2 ^ mBitShift (mPort p) ≤ Z.of_nat (length buffer) →
  ∃ b', frames_in (mBuffer p) (mMaxFrames p) (mBitShift (mPort p)) (total p hist mod mMaxFrames p) buffer n = Some b' ∧
    copied p hist n (take (Z.to_nat (n * 2 ^ mBitShift (mPort p))) buffer) b'.
Proof.
  intros Hh Hn Hlen. pose proof (holds_total p hist Hh) as (ET & HT & (j & Ej) & HM).
  pose proof (pow_shift _ (h_shift _ _ Hh)) as Hw2. pose proof (h_len _ _ Hh) as HN.
  destruct (stream_index (mRear p) _ j p hist Hh Ej) as (Ei & Hi & Epos). unfold copied.
  set (s := mBitShift (mPort p)) in *. set (w := 2 ^ s) in *. set (M := mMaxFrames p) in *. set (d := take (Z.to_nat (n * w)) buffer).
  assert (Z.of_nat (length d) = n * w) as Hd by (unfold d; rewrite length_take; nia). assert (0 ≤ n * w ≤ M * w) as Hnw by nia.
  pose proof (h_shift _ _ Hh) as Hs. fold s in Hs.
  rewrite frames_in_ok; rewrite ?Z.shiftl_mul_pow2 by lia; fold w; try lia; try nia. fold d.
  rewrite Z.shiftl_mul_pow2 in Epos by lia. fold w in Epos. rewrite Epos, HN.
  destruct (copy_in_ok (mBuffer p) ((total p hist * w) mod (M * w)) d) as (b' & E & Hl & Hb);
    [rewrite HN; apply Z.mod_pos_bound; nia|nia|].
  exists b'. split; [done|]. split; [done|]. intros i Hi'. specialize (Hb i ltac:(lia)).
  rewrite HN, Zplus_mod_idemp_l, Hd in Hb. done.
Qed.
(** A pipe with that buffer, and its rear behind the frames, holds the longer stream. *)
Lemma holds_append p hist n d b' p' : holds p hist → 0 ≤ n ≤ mMaxFrames p → Z.of_nat (length d) = n * 2 ^ mBitShift (mPort p) → copied p hist n d b' →
  mPort p' = mPort p → mMaxFrames p' = mMaxFrames p → mBuffer p' = b' → mRear p' = s32 (n + mRear p) → holds p' (hist ++ d).
Proof.
  intros Hh Hn Hd [Hl Hb] E1 E2 E3 E4. pose proof (holds_total p hist Hh) as (ET & HT & (j & Ej) & HM).
  pose proof (pow_shift _ (h_shift _ _ Hh)) as Hw2. pose proof (h_len _ _ Hh) as HN.
  destruct Hh as [H1 H2 H3 H4 H5 H6]. set (w := 2 ^ mBitShift (mPort p)) in *. set (M := mMaxFrames p) in *. assert (0 ≤ n * w ≤ M * w) as Hnw by nia.
  split; rewrite ?E1, ?E2, ?E3, ?E4; fold w; fold M; try done; try (rewrite Hl; done).
  - rewrite length_app. destruct (s32_eq (n + mRear p)) as [j' ->]. exists (total p hist + n), (j + j'). split; lia.
  - intros i. rewrite length_app, Hl, HN. intros Hi1 Hi2. destruct (decide (i < length hist)%nat).
    + rewrite lookup_app_l by done. rewrite <-H6 by lia. rewrite HN.
      specialize (Hb (Z.of_nat i - Z.of_nat (length hist) + M * w) ltac:(lia)).
      rewrite bool_decide_false in Hb by lia.
      replace (total p hist * w + (Z.of_nat i - Z.of_nat (length hist) + M * w)) with (Z.of_nat i + 1 * (M * w)) in Hb by lia.
      rewrite Z.mod_add in Hb by nia. exact Hb.
    + rewrite lookup_app_r by lia. specialize (Hb (Z.of_nat i - Z.of_nat (length hist)) ltac:(lia)).
      rewrite bool_decide_true in Hb by lia.
      replace (total p hist * w + (Z.of_nat i - Z.of_nat (length hist))) with (Z.of_nat i) in Hb by lia.
      rewrite Hb. f_equal. lia.
Qed.

(** What the writer appends: as much of the buffer as the pipe can hold. *)
Lemma write_ok p hist buffer count :
  holds p hist → 0 ≤ count < 2 ^ 32 → count * 2 ^ mBitShift (mPort p) ≤ Z.of_nat (length buffer) →
  let n := Z.min count (mMaxFrames p) in
  wp (write buffer count) (λ r p', r = n ∧ mPort p' = mPort p ∧ mMaxFrames p' = mMaxFrames p ∧
    length (mBuffer p') = length (mBuffer p) ∧
    holds p' (hist ++ take (Z.to_nat (n * 2 ^ mBitShift (mPort p))) buffer)) p.
Proof.
  intros Hh Hc Hlen n. pose proof (holds_total p hist Hh) as (ET & HT & (j & Ej) & HM).
  pose proof (pow_shift _ (h_shift _ _ Hh)) as Hw2. pose proof (h_len _ _ Hh) as HN.
  destruct (stream_index (mRear p) _ j p hist Hh Ej) as (Ei & Hi & Epos).
  set (s := mBitShift (mPort p)) in *. set (w := 2 ^ s) in *.
  set (idx := total p hist mod mMaxFrames p) in *. set (M := mMaxFrames p) in *.
  set (d := take (Z.to_nat (n * w)) buffer).
  assert (Z.of_nat (length d) = n * w) as Hd by (unfold d; rewrite length_take; nia).
  assert (n = Z.min count M) as En by done.
  assert (0 ≤ n * w ≤ M * w) as Hnw by nia.
  destruct (copied_in p hist buffer n Hh ltac:(fold M; lia) ltac:(fold s w; nia)) as (b' & Eb & Hcopied). pose proof (proj1 Hcopied) as Hl. fold M s idx in Eb.
  assert (∀ p', mPort p' = mPort p → mMaxFrames p' = M → mBuffer p' = b' → mRear p' = s32 (n + mRear p) → holds p' (hist ++ d)) as Hholds
    by (intros p' E1 E2 E3 E4; apply (holds_append p hist n d b'); try done; fold M; lia).
  assert (∀ p', mPort p' = mPort p → mMaxFrames p' = M → mBuffer p' = b' → mRear p' = s32 (n + mRear p) →
    n = n ∧ mPort p' = mPort p ∧ mMaxFrames p' = M ∧ length (mBuffer p') = length (mBuffer p) ∧ holds p' (hist ++ d))
    as Hpost by (intros p' E1 E2 E3 E4; split_and!; [done|done|done|by rewrite E3|by apply Hholds]).
  unfold write. apply wp_bind, wp_getst. rewrite (h_neg _ _ Hh). cbn [negb]. fold s. fold M. rewrite Ei.
  set (w1 := if bool_decide (M - idx > count) then count else M - idx).
  assert (w1 = Z.min (M - idx) count) as Hw1 by (unfold w1; case_bool_decide; lia).
  assert ((if bool_decide (M - idx > n) then n else M - idx) = w1) as Ep1 by (clear Eb; case_bool_decide; lia).
  unfold frames_in in Eb. rewrite Ep1 in Eb. clear Ep1.
  clearbody w1. destruct (decide (w1 > 0)) as [Hpos|Hpos].
  - rewrite bool_decide_true in Eb by done. destruct (memcpy (mBuffer p) _ _ _ _) as [b1|]; [|done].
    apply wp_bind. eapply wp_deref; [done|]. apply wp_bind. case_bool_decide as He.
    + set (c2 := if bool_decide (count - w1 > idx) then idx else count - w1).
      assert (c2 = n - w1) as -> by (clear Eb; unfold c2; case_bool_decide; lia). case_bool_decide as Hp2.
      * apply wp_bind. eapply wp_deref; [exact Eb|]. apply wp_ret. replace (w1 + (n - w1)) with n by lia.
        apply wp_bind, wp_modify, wp_bind, wp_modify, wp_ret. rewrite s32_small by lia. by apply Hpost.
      * apply wp_ret. injection Eb as ->. replace w1 with n by lia.
        apply wp_bind, wp_modify, wp_bind, wp_modify, wp_ret. rewrite s32_small by lia. by apply Hpost.
    + apply wp_ret. injection Eb as ->. replace w1 with n by lia.
      apply wp_bind, wp_modify, wp_bind, wp_modify, wp_ret. rewrite s32_small by lia. by apply Hpost.
  - rewrite bool_decide_false in Eb by done. injection Eb as Eb. assert (w1 = 0 ∧ n = 0 ∧ count = 0) as (-> & Hn0 & ->) by lia.
    pose proof (h_shift _ _ Hh) as Hs. fold s in Hs.
    apply wp_bind. eapply wp_deref; [rewrite Z.shiftl_0_l; apply memcpy_nothing; [|lia]|].
    { rewrite HN, Z.shiftl_mul_pow2 by lia. fold w. nia. }
    apply wp_bind. rewrite bool_decide_false by lia. apply wp_ret.
    apply wp_bind, wp_modify, wp_bind, wp_modify, wp_ret. rewrite <-Hn0. rewrite s32_small by lia. by apply Hpost.
Qed.

(** ** The reader *)

Lemma preader_available_ok r p hist pos :
  holds p hist → reader_at r p pos → 0 ≤ pos ≤ total p hist → total p hist - pos < 2 ^ 32 →
  wp (availableToRead p) (λ a r',
    if decide (total p hist - pos ≤ mMaxFrames p) then a = total p hist - pos ∧ r' = r
    else a = OVERRUN ∧
      let pos' := total p hist - mMaxFrames p + mMaxFrames p / 16 in
      reader_at r' p pos' ∧ mFramesRead r' = mFramesRead r ∧
      mFramesOverrun r' = u32 (mFramesOverrun r + (pos' - pos)) ∧ mOverruns r' = u32 (mOverruns r + 1)) r.
Proof.
  intros Hh [Hn Es (jf & Ef)] Hpos Hlag. destruct (holds_total p hist Hh) as (ET & HT & (j & Ej) & HM).
  unfold availableToRead. apply wp_bind, wp_getst. rewrite Hn. cbn [negb].
  set (T := total p hist) in *. set (M := mMaxFrames p) in *.
  assert (u32 (s32 (mRear p - mFront r)) = T - pos) as ->.
  { rewrite u32_s32. rewrite (u32_cong _ (T - pos) (j - jf)) by lia. apply u32_small. lia. }
  destruct (decide (T - pos ≤ M)).
  - rewrite bool_decide_false by lia. apply wp_ret. split; [apply s32_small; lia|done].
  - rewrite bool_decide_true by lia.
    apply wp_bind, wp_modify, wp_bind, wp_modify, wp_bind, wp_modify, wp_ret. split; [done|].
    rewrite Z.shiftr_div_pow2 by lia. change (2 ^ 4) with 16.
    assert (∃ j', s32 (mRear p - M + M / 16) = T - M + M / 16 + j' * 2 ^ 32) as [j' E'].
    { destruct (s32_eq (mRear p - M + M / 16)) as [i ->]. exists (j + i). rewrite Ej. ring. }
    split; [split; [done|done|by exists j']|]. split; [done|]. cbn [set_mOverruns set_mFramesOverrun set_mFront mFramesOverrun mOverruns mFront].
    split; [|done]. rewrite u32_s32, E'. destruct (u32_eq (T - M + M / 16 + j' * 2 ^ 32 - mFront r)) as [i ->].
    apply (u32_cong _ _ (j' - jf + i)). rewrite Ef. ring.
Qed.

Lemma ring_of_stream p hist pos :
  holds p hist → 0 ≤ pos ≤ total p hist → total p hist - pos ≤ mMaxFrames p →
  let w := 2 ^ mBitShift (mPort p) in ring (mBuffer p) (pos * w) (drop (Z.to_nat (pos * w)) hist).
Proof.
  intros Hh Hpos Hin w. destruct (holds_total p hist Hh) as (ET & HT & _ & HM). pose proof (pow_shift _ (h_shift _ _ Hh)) as Hw.
  fold w in ET, Hw. pose proof (h_len _ _ Hh) as HN. fold w in HN.
  assert (total p hist * w - pos * w ≤ mMaxFrames p * w ∧ 0 ≤ pos * w) as [Hb Hb0] by nia.
  split; [rewrite length_drop; lia|]. intros i. rewrite length_drop. intros Hi. rewrite lookup_drop.
  rewrite <-(h_at _ _ Hh) by lia. replace (Z.of_nat (Z.to_nat (pos * w) + i)) with (pos * w + Z.of_nat i) by lia. done.
Qed.

(** The two copies of [read] are those of a ring. *)
Lemma read_frames {B} (f : list Z * Z → M preader B) (p : pipe) (front shift n : Z) l (Q : B → preader → Prop) r :
  0 ≤ front < mMaxFrames p → 0 ≤ n ≤ mMaxFrames p → 0 ≤ shift →
  Z.of_nat (length (mBuffer p)) = Z.shiftl (mMaxFrames p) shift →
  frames_out (mBuffer p) (mMaxFrames p) shift front n = Some l → wp (f (l, n)) Q r →
  let red := if bool_decide (mMaxFrames p - front > n) then n else mMaxFrames p - front in
  wp (l <- deref (slice (mBuffer p) (Z.shiftl front shift) (Z.shiftl red shift)) ;;
      bind (if bool_decide (front + red = mMaxFrames p) then
          let count := n - red in
          let count := if bool_decide (count > front) then front else count in
          if bool_decide (count > 0) then
            l2 <- deref (slice (mBuffer p) 0 (Z.shiftl count shift)) ;;
            ret (l ++ l2, red + count)
          else ret (l, red)
        else ret (l, red)) f) Q r.
Proof.
  intros Hf Hn Hs Hl El HQ red. unfold frames_out in El. fold red in El.
  assert (red = Z.min (mMaxFrames p - front) n) as Hred by (clear El; unfold red; case_bool_decide; lia). clearbody red.
  apply wp_bind. destruct (decide (red > 0)) as [Hpos|Hpos].
  - rewrite bool_decide_true in El by done. destruct (slice (mBuffer p) _ _) as [l1|]; [|done].
    eapply wp_deref; [done|]. apply wp_bind. case_bool_decide as He.
    + cbv zeta. replace (if bool_decide (n - red > front) then front else n - red) with (n - red)
        by (clear El; case_bool_decide; lia).
      case_bool_decide as Hp2.
      * apply wp_bind. destruct (slice (mBuffer p) 0 _) as [l2|]; [|done]. eapply wp_deref; [done|]. apply wp_ret.
        injection El as ->. by replace (red + (n - red)) with n by lia.
      * apply wp_ret. injection El as ->. by replace red with n by lia.
    + apply wp_ret. injection El as ->. by replace red with n by lia.
  - rewrite bool_decide_false in El by done. injection El as <-. assert (red = 0 ∧ n = 0) as (-> & ->) by lia.
    assert (0 < 2 ^ shift) by (apply Z.pow_pos_nonneg; lia). rewrite Z.shiftl_mul_pow2 in Hl by done.
    eapply wp_deref; [apply slice_ok; rewrite ?Z.shiftl_0_l, ?Z.shiftl_mul_pow2 by done; nia|]. rewrite Z.shiftl_0_l. cbn [Z.to_nat take].
    apply wp_bind. rewrite bool_decide_false by lia. apply wp_ret. by rewrite take_0.
Qed.

Lemma preader_read_ok r p hist pos count pts :
  holds p hist → reader_at r p pos → 0 ≤ pos ≤ total p hist → total p hist - pos < 2 ^ 32 → 0 ≤ count < 2 ^ 32 →
  let w := 2 ^ mBitShift (mPort p) in
  wp (read p count pts) (λ '(a, l) r',
    if decide (total p hist - pos ≤ mMaxFrames p) then
      let n := Z.min count (total p hist - pos) in
      a = n ∧ l = take (Z.to_nat (n * w)) (drop (Z.to_nat (pos * w)) hist) ∧ reader_at r' p (pos + n)
    else a = OVERRUN ∧ l = [] ∧
      let pos' := total p hist - mMaxFrames p + mMaxFrames p / 16 in
      reader_at r' p pos' ∧ mFramesOverrun r' = u32 (mFramesOverrun r + (pos' - pos)) ∧ mOverruns r' = u32 (mOverruns r + 1)) r.
Proof.
  intros Hh Hra Hpos Hlag Hc w. destruct (holds_total p hist Hh) as (ET & HT & _ & HM).
  unfold read. apply wp_bind. eapply wp_mono; [by apply (preader_available_ok r p hist pos)|]. cbn beta.
  destruct (decide (total p hist - pos ≤ mMaxFrames p)) as [Hin|Hout]; intros a r'.
  - intros [-> ->]. set (n := Z.min count (total p hist - pos)). set (T := total p hist) in *.
    case_bool_decide as H0.
    + apply wp_ret. assert (n = 0) as -> by lia. split; [lia|]. rewrite Z.mul_0_l, Z.add_0_r. by split.
    + apply wp_bind, wp_getst. destruct Hra as [Hn Es (jf & Ef)]. rewrite (u32_small (T - pos)) by lia.
      assert ((if bool_decide (count > T - pos) then T - pos else count) = n) as -> by (unfold n; case_bool_decide; lia).
      destruct (stream_index (mFront r) pos jf p hist Hh Ef) as (-> & Hi & Epos). rewrite Es.
      pose proof (h_len _ _ Hh) as HN. pose proof (h_shift _ _ Hh) as Hs. pose proof (pow_shift _ Hs) as Hw.
      fold w in HN, Epos, Hw, ET.
      apply (read_frames _ p _ _ _ (take (Z.to_nat (n * w)) (drop (Z.to_nat (pos * w)) hist))); try lia.
      * rewrite Z.shiftl_mul_pow2 by lia. done.
      * rewrite frames_out_ok; [|lia..|by rewrite Z.shiftl_mul_pow2 by lia]. rewrite Epos, Z.shiftl_mul_pow2 by lia. fold w.
        apply ring_read; [by apply ring_of_stream|rewrite length_drop; nia|nia].
      * apply wp_bind, wp_modify, wp_bind, wp_modify, wp_ret. rewrite s32_small by lia. split; [done|]. split; [done|].
        split; [done|done|]. cbn [set_mFramesRead set_mFront mFront]. destruct (s32_eq (mFront r + n)) as [i ->].
        exists (jf + i). rewrite Ef. ring.
  - intros (-> & Hra' & _ & Ho & Hov). rewrite bool_decide_true by done. apply wp_ret. done.
Qed.

(** ** A reader against the stream *)

Inductive op := OpWrite (buffer : list Z) (count : Z) | OpRead (count readPTS : Z).
Record end_points := Ends { e_pipe : pipe; e_reader : preader }.
Definition run_op (o : op) : M end_points (Z * list Z) :=
  match o with
  | OpWrite buffer count =>
      n <- zoom e_pipe (λ p e, Ends p (e_reader e)) (write buffer count) ;; ret (n, [])
  | OpRead count pts =>
      e <- getst ;;
      zoom e_reader (λ r e, Ends (e_pipe e) r) (read (e_pipe e) count pts)
  end.
Fixpoint run_ops (l : list op) : M end_points (list (Z * list Z)) :=
  match l with
  | [] => ret []
  | o :: l => r <- run_op o ;; rs <- run_ops l ;; ret (r :: rs)
  end.

(** The stream so far and how far the reader has got, in frames of [2 ^ shift] bytes;
    a reader 2^32 frames behind cannot know. *)
Definition stream_op (cap shift : Z) (o : op) (hist : list Z) (pos : Z) : option ((Z * list Z) * list Z * Z) :=
  let w := 2 ^ shift in
  let len := Z.of_nat (length hist) / w in
  match o with
  | OpWrite buffer count => let n := Z.min count cap in Some ((n, []), hist ++ take (Z.to_nat (n * w)) buffer, pos)
  | OpRead count _ =>
      if decide (len - pos < 2 ^ 32) then
        if decide (len - pos ≤ cap) then
          let n := Z.min count (len - pos) in
          Some ((n, take (Z.to_nat (n * w)) (drop (Z.to_nat (pos * w)) hist)), hist, pos + n)
        else Some ((OVERRUN, []), hist, len - cap + cap / 16)
      else None
  end.
Fixpoint stream_ops (cap shift : Z) (l : list op) (hist : list Z) (pos : Z) : option (list (Z * list Z)) :=
  match l with
  | [] => Some []
  | o :: l =>
      match stream_op cap shift o hist pos with
      | Some (r, hist', pos') =>
          match stream_ops cap shift l hist' pos' with Some rs => Some (r :: rs) | None => None end
      | None => None
      end
  end.

Definition valid_op (shift : Z) (o : op) : Prop :=
  match o with
  | OpWrite buffer count => 0 ≤ count < 2 ^ 32 ∧ count * 2 ^ shift ≤ Z.of_nat (length buffer)
  | OpRead count _ => 0 ≤ count < 2 ^ 32
  end.

Lemma pipe_ops_ok l : ∀ e hist pos rs,
  holds (e_pipe e) hist → reader_at (e_reader e) (e_pipe e) pos → 0 ≤ pos ≤ total (e_pipe e) hist →
  Forall (valid_op (mBitShift (mPort (e_pipe e)))) l →
  stream_ops (mMaxFrames (e_pipe e)) (mBitShift (mPort (e_pipe e))) l hist pos = Some rs →
  wp (run_ops l) (λ rs' _, rs' = rs) e.
Proof.
  induction l as [|o l IH]; intros [p r] hist pos rs Hh Hra Hpos Hv; cbn [e_pipe e_reader] in *; [by intros [= <-]|].
  apply Forall_cons in Hv as [Ho Hl]. cbn [stream_ops run_ops]. intros Hs.
  destruct (stream_op _ _ o hist pos) as [[[r1 hist'] pos']|] eqn:E1; [|done].
  destruct (stream_ops _ _ l hist' pos') as [rs1|] eqn:E2; [|done]. injection Hs as <-.
  destruct (holds_total p hist Hh) as (ET & HT & _ & HM). pose proof (pow_shift _ (h_shift _ _ Hh)) as Hw.
  apply wp_bind. destruct o as [buffer count|count pts]; cbn [run_op stream_op] in *.
  - destruct Ho as [Hc Hlen]. injection E1 as <- <- <-. apply wp_bind.
    apply wp_zoom. eapply wp_mono; [by apply (write_ok p hist buffer count Hh)|]. cbv beta.
    intros n p' (-> & Ep & Em & _ & Hh'). cbn [e_pipe e_reader]. apply wp_ret, wp_bind.
    eapply wp_mono; [eapply (IH (Ends p' r) _ pos rs1); cbn [e_pipe e_reader]; rewrite ?Ep, ?Em; [exact Hh'|..]; try done|].
    + destruct Hra as [H1 H2 H3]. split; [done|by rewrite Ep|done].
    + destruct (holds_total p' _ Hh') as (ET' & _ & _ & _). rewrite Ep, length_app in ET'. nia.
    + by intros rs' e' ->.
  - apply wp_bind, wp_getst. fold (total p hist) in E1. destruct (decide (total p hist - pos < 2 ^ 32)) as [Hlag|]; [|done].
    apply wp_zoom. eapply wp_mono; [by apply (preader_read_ok r p hist pos count pts)|]. cbv beta.
    intros [a la] r' Hpost. cbn [e_pipe e_reader]. apply wp_bind. destruct (decide (total p hist - pos ≤ mMaxFrames p)) as [Hin|Hout]; injection E1 as <- <- <-.
    + destruct Hpost as (-> & -> & Hra'). eapply wp_mono; [eapply (IH (Ends p r') hist _ rs1 Hh Hra'); try done|].
      * cbn [e_pipe]. simpl in Ho. lia.
      * by intros rs' e' ->.
    + destruct Hpost as (-> & -> & Hra' & _). eapply wp_mono; [eapply (IH (Ends p r') hist _ rs1 Hh Hra'); try done|].
      * cbn [e_pipe]. pose proof (Z.div_pos (mMaxFrames p) 16). pose proof (Z.div_le_upper_bound (mMaxFrames p) 16 (mMaxFrames p)). lia.
      * by intros rs' e' ->.
Qed.

(** A pipe with a reader, both negotiated. *)
Definition open_pipe (maxFrames format : Z) (buffer : list Z) : end_points :=
  let '(r, p) := PipeReader (Pipe maxFrames format buffer) in
  let '(_, _, _, wport) := negotiate (mPort p) [format] [] 0 in
  let '(_, _, _, rport) := negotiate (rd_port r) [format] [] 0 in
  Ends (set_mPort wport p) (set_rd_port rport r).

Lemma pipe_opened_ok maxFrames rate channels buffer (format := Format_from_SR_C rate channels) :
  0 ≤ maxFrames ≤ 2 ^ 28 → rate ∈ sample_rates → channels = 1 ∨ channels = 2 →
  Z.of_nat (length buffer) = roundup maxFrames * Format_frameSize format →
  let e := open_pipe maxFrames format buffer in
  holds (e_pipe e) [] ∧ reader_at (e_reader e) (e_pipe e) 0 ∧
  mMaxFrames (e_pipe e) = roundup maxFrames ∧ mBitShift (mPort (e_pipe e)) = channels.
Proof.
  intros Hreq Hrate Hch Hbuf. destruct (Format_from_ok rate channels Hrate Hch) as (_ & Ech & Hinv).
  fold format in Ech, Hinv. unfold open_pipe, PipeReader, Pipe, port_new, negotiate.
  cbn [set_mReaders mPort mFormat mBitShift rd_port find_offer].
  rewrite (bool_decide_true (format ≠ Format_Invalid)) by done. rewrite (bool_decide_true (format = format)) by done.
  cbn [e_pipe e_reader set_mPort set_rd_port mPort rd_port mMaxFrames mBitShift mFormat].
  unfold Format_frameSize in Hbuf. unfold Format_frameBitShift. rewrite Ech in *. rewrite frame_size_shift in Hbuf by done.
  destruct (roundup_ok maxFrames) as (k & Hk & Ek & Hle & _); [lia|]. destruct (Hle ltac:(lia)) as [Hrk Hmin].
  split; [|split; [|done]].
  - split; cbn [set_mPort set_mReaders mPort mNegotiated mBitShift mMaxFrames mBuffer mRear].
    + done.
    + lia.
    + exists k. split; [|done]. split; [lia|]. apply Hmin; lia.
    + done.
    + by exists 0, 0.
    + simpl. lia.
  - split; [done|done|]. by exists 0.
Qed.

(** C31: a reader of a [Pipe] gets the bytes of the stream in their order; it is told of
    an overrun exactly when frames it has not read have been overwritten, and it
    then goes on a sixteenth of the pipe after the oldest frame that is left.  The
    writer is never held up. *)
Theorem Pipe_stream (maxFrames rate channels : Z) (buffer : list Z) (ops : list op) (rs : list (Z * list Z))
    (Hreq : 0 ≤ maxFrames ≤ 2 ^ 28) (Hrate : rate ∈ sample_rates) (Hch : channels = 1 ∨ channels = 2)
    (Hbuf : Z.of_nat (length buffer) = roundup maxFrames * Format_frameSize (Format_from_SR_C rate channels))
    (Hops : Forall (valid_op channels) ops) (Hspec : stream_ops (roundup maxFrames) channels ops [] 0 = Some rs) :
  ∃ e', run_ops ops (open_pipe maxFrames (Format_from_SR_C rate channels) buffer) = Ret rs e'.
Proof.
  destruct (pipe_opened_ok maxFrames rate channels buffer Hreq Hrate Hch Hbuf) as (Hh & Hra & Em & Es).
  pose proof (pipe_ops_ok ops _ [] 0 rs Hh Hra) as Hwp. rewrite Es, Em in Hwp.
  destruct (holds_total _ _ Hh) as (_ & HT & _).
  apply wp_elim in Hwp as (rs' & e' & E & ->); [by exists e'|lia|done|done].
Qed.

Module PipeDemo.
(** Two frames of one byte pair; the reader reads late. *)
Definition ops : list op :=
  [OpWrite [1; 2; 3; 4; 5; 6] 3; OpRead 1 0; OpWrite [7; 8; 9; 10] 2; OpRead 5 0; OpRead 5 0].
Lemma Pipe_stream_witness :
  ∃ e', run_ops ops (open_pipe 2 (Format_from_SR_C 8000 1) (replicate 4 0)) =
    Ret [(2, []); (1, [1; 2]); (2, []); (OVERRUN, []); (2, [7; 8; 9; 10])] e'.
Proof.
  apply (Pipe_stream 2 8000 1 (replicate 4 0) ops).
  - lia.
  - apply (bool_decide_unpack _). reflexivity.
  - by left.
  - reflexivity.
  - repeat constructor; vm_compute; congruence.
  - reflexivity.
Defined.
End PipeDemo.
