(* ===== verification/NbaioProviders.v ===== *)
(** * Sources and buffer providers

    [libs/libnbaio/SourceAudioBufferProvider.cpp],
    [libs/libnbaio/AudioBufferProviderSource.cpp]: adapters between the two ways in
    which audio data is asked for, by a copy ([read]) and by the loan of a buffer
    ([getNextBuffer] and [releaseBuffer]).  Each adapter is verified against the
    contract of what it wraps and meets the contract of what it offers, so the two
    can be stacked in any order and number. *)

From Stdlib Require Import ZArith Lia.
From stdpp Require Import base tactics numbers option list.
From S2P Require Import Prelude Words Nbaio.

(** ** The contracts *)

(** [AudioBufferProvider::Buffer]; [raw] is an offset in the provider's memory. *)
Record buffer := Buffer { raw : option Z; frameCount : Z }.

(** [class AudioBufferProvider]. *)
Class AudioBufferProvider (St : Type) := {
  provider_memory : St → list Z;
  getNextBuffer : buffer → Z → M St (Z * buffer);
  releaseBuffer : buffer → M St buffer
}.

(** A source yields the bytes of a stream, a number of whole frames at a time. *)
Class SourceLaws (St : Type) `{!NBAIO_Source St} := {
  source_ok : St → Prop;
  source_rest : St → list Z;
  source_read_ok s count pts : source_ok s → mNegotiated (source_port s) = true → 0 < count < 2 ^ 29 →
    wp (source_read count pts) (λ '(n, data) s',
      source_ok s' ∧ source_port s' = source_port s ∧ n ≤ count ∧
      let m := Z.max n 0 in
      data = take (Z.to_nat (Z.shiftl m (mBitShift (source_port s)))) (source_rest s) ∧
      Z.of_nat (length data) = Z.shiftl m (mBitShift (source_port s)) ∧
      source_rest s' = drop (length data) (source_rest s)) s;
  source_set_port_ok s p : source_ok s → mBitShift p = mBitShift (source_port s) → mFormat p = mFormat (source_port s) →
    source_ok (source_set_port p s) ∧ source_port (source_set_port p s) = p ∧ source_rest (source_set_port p s) = source_rest s;
  source_shift s : source_ok s → 0 ≤ mBitShift (source_port s) ≤ 2 ∧ mBitShift (source_port s) = Format_frameBitShift (mFormat (source_port s))
}.

(** A provider lends the next bytes of a stream; what is given back unused comes again. *)
Class ProviderLaws (St : Type) `{!AudioBufferProvider St} := {
  provider_ok : St → Prop;
  provider_shift : St → Z;
  provider_rest : St → list Z;
  (** The loan that is out: where, and how many frames. *)
  provider_loan : St → option (Z * Z);
  provider_loan_ok s r n : provider_ok s → provider_loan s = Some (r, n) →
    0 < n ∧ Z.shiftl n (provider_shift s) ≤ Z.of_nat (length (provider_rest s)) ∧
    slice (provider_memory s) r (Z.shiftl n (provider_shift s)) =
      Some (take (Z.to_nat (Z.shiftl n (provider_shift s))) (provider_rest s));
  getNextBuffer_ok s b pts : provider_ok s → provider_loan s = None → 0 < frameCount b < 2 ^ 29 →
    wp (getNextBuffer b pts) (λ '(status, b') s',
      provider_ok s' ∧ provider_shift s' = provider_shift s ∧ provider_rest s' = provider_rest s ∧
      (if bool_decide (status = OK)
       then frameCount b' ≤ frameCount b ∧ ∃ r, raw b' = Some r ∧ provider_loan s' = Some (r, frameCount b')
       else raw b' = None ∧ provider_loan s' = None ∧ status < 0)) s;
  releaseBuffer_ok s r n k : provider_ok s → provider_loan s = Some (r, n) → 0 ≤ k ≤ n →
    wp (releaseBuffer (Buffer (Some r) k)) (λ b' s',
      provider_ok s' ∧ provider_shift s' = provider_shift s ∧ provider_loan s' = None ∧ raw b' = None ∧
      provider_rest s' = drop (Z.to_nat (Z.shiftl k (provider_shift s))) (provider_rest s)) s
}.

(** ** SourceAudioBufferProvider *)

Record sabp := Sabp {
  mFrameBitShift : Z;
  mAllocated : list Z;
  mSize : Z;
  mOffset : Z;
  mRemaining : Z;
  mGetCount : Z
}.

Section source_provider.
Context {St : Type} `{!NBAIO_Source St}.
(** [malloc]: a block of the given size with whatever it holds. *)
Context (malloc : Z → list Z).

(** The constructor: the source is asked for its format and then given it. *)
Definition SourceAudioBufferProvider : M St sabp :=
  s <- getst ;;
  let '(index, counterOffers, numCounterOffers, port) := negotiate (source_port s) [] [0] 1 in
  bug_on (negb (bool_decide (index = NEGOTIATE) && bool_decide (numCounterOffers > 0))) ;;;
  let '(index, _, _, port) := negotiate port counterOffers [] 0 in
  bug_on (negb (bool_decide (index = 0))) ;;;
  modify (source_set_port port) ;;;
  ret (Sabp (Format_frameBitShift (port_format port)) [] 0 0 0 0).

Definition sabp_getNextBuffer (b : buffer) (pts : Z) : M (sabp * St) (Z * buffer) :=
  s <- getst ;;
  let p := fst s in
  bug_on (negb (bool_decide (frameCount b > 0) && bool_decide (mGetCount p = 0))) ;;;
  if bool_decide (mRemaining p > 0) then
    bug_on (negb (bool_decide (mOffset p + mRemaining p <= mSize p))) ;;;
    let n := if bool_decide (mRemaining p < frameCount b) then mRemaining p else frameCount b in
    modify (λ s, (Sabp (mFrameBitShift p) (mAllocated p) (mSize p) (mOffset p) (mRemaining p) n, snd s)) ;;;
    ret (OK, Buffer (Some (Z.shiftl (mOffset p) (mFrameBitShift p))) n)
  else
    let '(alloc, size) :=
      if bool_decide (frameCount b > mSize p) then (malloc (u32 (Z.shiftl (frameCount b) (mFrameBitShift p))), frameCount b)
      else (mAllocated p, mSize p) in
    r <- zoom snd (λ t s, (fst s, t)) (source_read (frameCount b) pts) ;;
    let '(actual, data) := r in
    alloc <- deref (memcpy alloc 0 data 0 (Z.of_nat (length data))) ;;
    if bool_decide (actual > 0) then
      bug_on (negb (bool_decide (actual <= frameCount b))) ;;;
      modify (λ s, (Sabp (mFrameBitShift p) alloc size 0 actual actual, snd s)) ;;;
      ret (OK, Buffer (Some 0) actual)
    else
      modify (λ s, (Sabp (mFrameBitShift p) alloc size (mOffset p) (mRemaining p) 0, snd s)) ;;;
      ret (NOT_ENOUGH_DATA, Buffer None 0).

Definition sabp_releaseBuffer (b : buffer) : M (sabp * St) buffer :=
  s <- getst ;;
  let p := fst s in
  bug_on (negb (bool_decide (raw b = Some (Z.shiftl (mOffset p) (mFrameBitShift p))) &&
    bool_decide (frameCount b <= mGetCount p) && bool_decide (mGetCount p <= mRemaining p) &&
    bool_decide (mOffset p + mRemaining p <= mSize p))) ;;;
  modify (λ s, (Sabp (mFrameBitShift p) (mAllocated p) (mSize p) (mOffset p + frameCount b)
    (mRemaining p - frameCount b) 0, snd s)) ;;;
  ret (Buffer None 0).

Definition sabp_framesReady : M (sabp * St) Z :=
  avail <- zoom snd (λ t s, (fst s, t)) source_availableToRead ;;
  ret (if bool_decide (avail < 0) then 0 else avail).

#[export] Instance sabp_provider : AudioBufferProvider (sabp * St) := {|
  provider_memory s := mAllocated (fst s);
  getNextBuffer := sabp_getNextBuffer;
  releaseBuffer := sabp_releaseBuffer
|}.
End source_provider.

(** ** AudioBufferProviderSource *)

Record abps := Abps { mPort : port; mFramesRead : Z; mBuffer : buffer; mConsumed : Z }.

Section provider_source.
Context {P : Type} `{!AudioBufferProvider P}.

Definition AudioBufferProviderSource (format : Z) : abps := Abps (port_new format) 0 (Buffer None 0) 0.
Definition provider {A} : M P A → M (abps * P) A := zoom snd (λ t s, (fst s, t)).

(** [~AudioBufferProviderSource]. *)
Definition AudioBufferProviderSource_delete : M (abps * P) unit :=
  s <- getst ;;
  if bool_decide (raw (mBuffer (fst s)) = None) then ret tt
  else provider (releaseBuffer (mBuffer (fst s))) ;;; ret tt.

Definition abps_availableToRead : M (abps * P) Z :=
  s <- getst ;;
  let a := fst s in
  if negb (mNegotiated (mPort a)) then ret NEGOTIATE
  else ret (if bool_decide (raw (mBuffer a) = None) then 0 else frameCount (mBuffer a) - mConsumed a).

(** [mBuffer] is given back when all of it has been consumed. *)
Definition release_if_consumed (count : Z) : M (abps * P) unit :=
  s <- getst ;;
  let a := fst s in
  let consumed := mConsumed a + count in
  if bool_decide (consumed >= frameCount (mBuffer a)) then
    b <- provider (releaseBuffer (mBuffer a)) ;;
    modify (λ s, (Abps (mPort a) (mFramesRead a) (Buffer None (frameCount b)) 0, snd s))
  else modify (λ s, (Abps (mPort a) (mFramesRead a) (mBuffer a) consumed, snd s)).

Definition abps_read (count readPTS : Z) : M (abps * P) (Z * list Z) :=
  s <- getst ;;
  let a := fst s in
  if negb (mNegotiated (mPort a)) then ret (NEGOTIATE, []) else
  status <- (if bool_decide (raw (mBuffer a) = None) then
      r <- provider (getNextBuffer (Buffer None count) readPTS) ;;
      let '(status, b) := r in
      modify (λ s, (Abps (mPort a) (mFramesRead a) b (mConsumed a), snd s)) ;;;
      ret status
    else ret OK) ;;
  if bool_decide (status ≠ OK) then
    ret (if bool_decide (status = NOT_ENOUGH_DATA) then WOULD_BLOCK else status, [])
  else
    s <- getst ;;
    let a := fst s in
    r <- deref (raw (mBuffer a)) ;;
    let available := frameCount (mBuffer a) - mConsumed a in
    let count := if bool_decide (count > available) then available else count in
    let shift := mBitShift (mPort a) in
    data <- deref (slice (provider_memory (snd s)) (r + Z.shiftl (mConsumed a) shift) (Z.shiftl count shift)) ;;
    release_if_consumed count ;;;
    modify (λ s, (Abps (mPort (fst s)) (u32 (mFramesRead (fst s) + count)) (mBuffer (fst s)) (mConsumed (fst s)), snd s)) ;;;
    ret (count, data).

(** [readVia] hands the loan itself to the callback, which has a state of its own. *)
Context {U : Type}.
Definition on_source {A} : M (abps * P) A → M (abps * P * U) A := zoom fst (λ t s, (t, snd s)).
Fixpoint abps_readVia_loop (fuel : nat) (via : list Z → Z → Z → M U Z) (total readPTS block accumulator : Z)
    : M (abps * P * U) Z :=
  match fuel with
  | O => crash_with CrashFuel
  | S fuel =>
      let count := total - accumulator in
      if bool_decide (count = 0) then ret accumulator else
      let count := if bool_decide (count > block) then block else count in
      s <- getst ;;
      let a := fst (fst s) in
      if bool_decide (raw (mBuffer a) = None) then
        r <- on_source (provider (getNextBuffer (Buffer None count) readPTS)) ;;
        let '(status, b) := r in
        on_source (modify (λ s, (Abps (mPort a) (mFramesRead a) b (mConsumed a), snd s))) ;;;
        if bool_decide (status = OK) then abps_readVia_loop fuel via total readPTS block accumulator
        else
          let status := if bool_decide (status = NOT_ENOUGH_DATA) then WOULD_BLOCK else status in
          ret (if bool_decide (accumulator > 0) then accumulator else status)
      else
        let available := frameCount (mBuffer a) - mConsumed a in
        let count := if bool_decide (count > available) then available else count in
        r <- deref (raw (mBuffer a)) ;;
        let shift := mBitShift (mPort a) in
        data <- deref (slice (provider_memory (snd (fst s))) (r + Z.shiftl (mConsumed a) shift) (Z.shiftl count shift)) ;;
        n <- (if bool_decide (count > 0) then zoom snd (λ u s, (fst s, u)) (via data count readPTS) else ret 0) ;;
        if bool_decide (count > 0) && bool_decide (n <= 0) then
          ret (if bool_decide (accumulator > 0) then accumulator else n)
        else
          on_source (modify (λ s, (Abps (mPort (fst s)) (u32 (mFramesRead (fst s) + n)) (mBuffer (fst s)) (mConsumed (fst s)), snd s))) ;;;
          on_source (release_if_consumed n) ;;;
          abps_readVia_loop fuel via total readPTS block (accumulator + n)
  end.
Definition abps_readVia (via : list Z → Z → Z → M U Z) (total readPTS block : Z) : M (abps * P * U) Z :=
  s <- getst ;;
  if negb (mNegotiated (mPort (fst (fst s)))) then ret NEGOTIATE else
  let block := if bool_decide (block = 0) then 2 ^ 32 - 1 else block in
  abps_readVia_loop (S (S (2 * Z.to_nat total))) via total readPTS block 0.

#[export] Instance abps_source : NBAIO_Source (abps * P) := {|
  source_port s := mPort (fst s);
  source_set_port p s := (Abps p (mFramesRead (fst s)) (mBuffer (fst s)) (mConsumed (fst s)), snd s);
  source_availableToRead := abps_availableToRead;
  source_read := abps_read
|}.
End provider_source.

(** ** A provider over a lawful source is lawful *)

Section source_provider_laws.
Context {St : Type} `{!NBAIO_Source St} `{!SourceLaws St}.
Context (malloc : Z → list Z) (malloc_ok : ∀ n, 0 ≤ n → Z.of_nat (length (malloc n)) = n).

(** The bytes of the block that have not been given back yet. *)
Definition leftover (p : sabp) : list Z :=
  take (Z.to_nat (Z.shiftl (mRemaining p) (mFrameBitShift p))) (drop (Z.to_nat (Z.shiftl (mOffset p) (mFrameBitShift p))) (mAllocated p)).

Record sabp_ok (s : sabp * St) : Prop := {
  so_source : source_ok (snd s);
  so_neg : mNegotiated (source_port (snd s)) = true;
  so_shift : mFrameBitShift (fst s) = mBitShift (source_port (snd s));
  so_offset : 0 ≤ mOffset (fst s);
  so_get : 0 ≤ mGetCount (fst s) ≤ mRemaining (fst s);
  so_size : mOffset (fst s) + mRemaining (fst s) ≤ mSize (fst s);
  so_block : Z.of_nat (length (mAllocated (fst s))) = Z.shiftl (mSize (fst s)) (mFrameBitShift (fst s))
}.

Lemma shift_mul n s : 0 ≤ s ≤ 2 → Z.shiftl n s = n * 2 ^ s ∧ 1 ≤ 2 ^ s ≤ 4.
Proof.
  intros Hs. split; [apply Z.shiftl_mul_pow2; lia|].
  assert (s = 0 ∨ s = 1 ∨ s = 2) as [-> | [-> | ->]] by lia; lia.
Qed.
Lemma sabp_shift s : sabp_ok s → 0 ≤ mFrameBitShift (fst s) ≤ 2.
Proof. intros [H1 _ -> _ _ _ _]. by apply source_shift. Qed.

Lemma leftover_length s : sabp_ok s →
  Z.of_nat (length (leftover (fst s))) = Z.shiftl (mRemaining (fst s)) (mFrameBitShift (fst s)).
Proof.
  intros Hs. pose proof (sabp_shift s Hs) as Hsh. destruct Hs as [_ _ _ Ho Hg Hz Hb]. unfold leftover.
  destruct (shift_mul (mRemaining (fst s)) _ Hsh) as [E1 Hw]. destruct (shift_mul (mOffset (fst s)) _ Hsh) as [E2 _].
  destruct (shift_mul (mSize (fst s)) _ Hsh) as [E3 _]. rewrite length_take, length_drop. nia.
Qed.

Lemma leftover_release p k w : w = 2 ^ mFrameBitShift p → 0 ≤ mFrameBitShift p ≤ 2 → 0 ≤ mOffset p → 0 ≤ k ≤ mRemaining p →
  ∀ g, leftover (Sabp (mFrameBitShift p) (mAllocated p) (mSize p) (mOffset p + k) (mRemaining p - k) g) =
    drop (Z.to_nat (Z.shiftl k (mFrameBitShift p))) (leftover p).
Proof.
  intros -> Hsh Ho Hk g. unfold leftover. cbn [mFrameBitShift mAllocated mOffset mRemaining].
  destruct (shift_mul k _ Hsh) as [-> Hw]. destruct (shift_mul (mOffset p) _ Hsh) as [-> _].
  destruct (shift_mul (mOffset p + k) _ Hsh) as [-> _]. destruct (shift_mul (mRemaining p) _ Hsh) as [-> _].
  destruct (shift_mul (mRemaining p - k) _ Hsh) as [-> _].
  rewrite skipn_firstn_comm, drop_drop. f_equal; [nia|]. f_equal. nia.
Qed.

Lemma memcpy_prefix (dst data : list Z) : (length data ≤ length dst)%nat →
  memcpy dst 0 data 0 (Z.of_nat (length data)) = Some (data ++ drop (length data) dst).
Proof.
  intros Hl. unfold memcpy. rewrite bool_decide_true by lia. rewrite Z.add_0_l, Nat2Z.id. cbn [Z.to_nat].
  by rewrite take_0, drop_0, firstn_all.
Qed.

Lemma sabp_getNextBuffer_ok s b pts :
  sabp_ok s → mGetCount (fst s) = 0 → 0 < frameCount b < 2 ^ 29 →
  wp (sabp_getNextBuffer malloc b pts) (λ '(status, b') s',
    sabp_ok s' ∧ mFrameBitShift (fst s') = mFrameBitShift (fst s) ∧
    leftover (fst s') ++ source_rest (snd s') = leftover (fst s) ++ source_rest (snd s) ∧
    (if bool_decide (status = OK)
     then 0 < frameCount b' ≤ frameCount b ∧ raw b' = Some (Z.shiftl (mOffset (fst s')) (mFrameBitShift (fst s'))) ∧
       mGetCount (fst s') = frameCount b'
     else raw b' = None ∧ mGetCount (fst s') = 0 ∧ status < 0)) s.
Proof.
  intros Hs Hg Hc. pose proof (sabp_shift s Hs) as Hsh. pose proof (leftover_length s Hs) as Hll.
  destruct s as [p st]. destruct Hs as [H1 H2 H3 H4 H5 H6 H7]. cbn [fst snd] in *.
  destruct (shift_mul (frameCount b) _ Hsh) as [Efc Hw].
  unfold sabp_getNextBuffer. apply wp_bind, wp_getst. cbn [fst snd].
  apply wp_bind, wp_bug_on; [rewrite !bool_decide_true by lia; done|].
  case_bool_decide as Hrem.
  - apply wp_bind, wp_bug_on; [rewrite bool_decide_true by lia; done|].
    apply wp_bind, wp_modify, wp_ret. cbn [fst snd]. split; [|split; [done|split; [done|]]].
    + split; cbn [fst snd mFrameBitShift mAllocated mSize mOffset mRemaining mGetCount]; try done. case_bool_decide; lia.
    + rewrite bool_decide_true by done. cbn [frameCount raw mOffset mFrameBitShift mGetCount]. case_bool_decide; split_and!; done || lia.
  - assert (mRemaining p = 0) as Hr0 by lia. rewrite Hr0, Z.shiftl_0_l in Hll.
    set (sz := if bool_decide (frameCount b > mSize p) then (malloc (u32 (Z.shiftl (frameCount b) (mFrameBitShift p))), frameCount b)
      else (mAllocated p, mSize p)).
    assert (Z.of_nat (length (fst sz)) = Z.shiftl (snd sz) (mFrameBitShift p) ∧ frameCount b ≤ snd sz ∧ mSize p ≤ snd sz) as (Hal & Hsz & Hsz2).
    { unfold sz. case_bool_decide; cbn [fst snd]; [|lia]. rewrite u32_small by nia. rewrite malloc_ok by nia. lia. }
    destruct sz as [alloc size]. cbn [fst snd] in *.
    apply wp_bind, wp_zoom. eapply wp_mono; [by apply source_read_ok|]. cbn beta zeta.
    intros [actual data] st' (K1 & K2 & K3 & K4 & K5 & K6). cbn [snd fst] in *. rewrite <-H3 in K4, K5.
    destruct (shift_mul (Z.max actual 0) _ Hsh) as [Em _]. destruct (shift_mul size _ Hsh) as [Es _].
    apply wp_bind. eapply wp_deref; [apply memcpy_prefix; nia|].
    case_bool_decide as Hact.
    + apply wp_bind, wp_bug_on; [rewrite bool_decide_true by lia; done|].
      apply wp_bind, wp_modify, wp_ret. cbn [fst snd]. split; [|split; [done|split]].
      * split; cbn [fst snd mFrameBitShift mAllocated mSize mOffset mRemaining mGetCount]; try done || congruence || lia.
        rewrite length_app, length_drop. nia.
      * destruct (leftover p) eqn:El; [|simpl in Hll; lia]. cbn [app].
        unfold leftover. cbn [mFrameBitShift mAllocated mOffset mRemaining]. rewrite Z.shiftl_0_l. cbn [Z.to_nat]. rewrite drop_0.
        rewrite Z.max_l in K4, K5 by lia. rewrite <-K5, Nat2Z.id, take_app_length, K6.
        rewrite K4 at 1. rewrite <-K5, Nat2Z.id. by rewrite take_drop.
      * rewrite bool_decide_true by done. cbn [frameCount raw mOffset mFrameBitShift mGetCount]. rewrite Z.shiftl_0_l. split_and!; done || lia.
    + apply wp_bind, wp_modify, wp_ret. cbn [fst snd].
      rewrite Z.max_r, Z.shiftl_0_l in K5 by lia. assert (length data = 0%nat) as Hd0 by lia.
      split; [|split; [done|split]].
      * split; cbn [fst snd mFrameBitShift mAllocated mSize mOffset mRemaining mGetCount]; try done || congruence || lia.
        rewrite length_app, length_drop. lia.
      * destruct (leftover p) eqn:El; [|simpl in Hll; lia]. cbn [app].
        unfold leftover. cbn [mFrameBitShift mAllocated mOffset mRemaining]. rewrite Hr0, Z.shiftl_0_l. cbn [Z.to_nat].
        by rewrite take_0, K6, Hd0, drop_0.
      * rewrite bool_decide_false by done. done.
Qed.

Lemma sabp_releaseBuffer_ok s k :
  sabp_ok s → 0 ≤ k ≤ mGetCount (fst s) →
  wp (sabp_releaseBuffer (Buffer (Some (Z.shiftl (mOffset (fst s)) (mFrameBitShift (fst s)))) k)) (λ b' s',
    sabp_ok s' ∧ mFrameBitShift (fst s') = mFrameBitShift (fst s) ∧ mGetCount (fst s') = 0 ∧ raw b' = None ∧
    leftover (fst s') = drop (Z.to_nat (Z.shiftl k (mFrameBitShift (fst s)))) (leftover (fst s)) ∧ snd s' = snd s) s.
Proof.
  intros Hs Hk. pose proof (sabp_shift s Hs) as Hsh. destruct s as [p st]. destruct Hs as [H1 H2 H3 H4 H5 H6 H7].
  cbn [fst snd] in *. unfold sabp_releaseBuffer. apply wp_bind, wp_getst. cbn [fst snd raw frameCount].
  apply wp_bind, wp_bug_on; [rewrite !bool_decide_true by (done || lia); done|].
  apply wp_bind, wp_modify, wp_ret. cbn [fst snd mFrameBitShift mGetCount raw].
  split; [split; cbn [fst snd mFrameBitShift mAllocated mSize mOffset mRemaining mGetCount]; done || lia|].
  split; [done|]. split; [done|]. split; [done|]. split; [|done]. apply (leftover_release p k _ eq_refl); lia.
Qed.

#[export] Instance sabp_provider_laws : ProviderLaws (sabp * St) (AudioBufferProvider0 := sabp_provider malloc).
Proof.
  refine {|
    provider_ok := sabp_ok;
    provider_shift s := mFrameBitShift (fst s);
    provider_rest s := leftover (fst s) ++ source_rest (snd s);
    provider_loan s := if bool_decide (mGetCount (fst s) = 0) then None
      else Some (Z.shiftl (mOffset (fst s)) (mFrameBitShift (fst s)), mGetCount (fst s))
  |}.
  - intros s r n Hs. pose proof (sabp_shift s Hs) as Hsh. pose proof (leftover_length s Hs) as Hll.
    destruct Hs as [H1 H2 H3 H4 H5 H6 H7]. case_bool_decide; [done|]. intros [= <- <-].
    destruct (shift_mul (mGetCount (fst s)) _ Hsh) as [E1 Hw]. destruct (shift_mul (mOffset (fst s)) _ Hsh) as [E2 _].
    destruct (shift_mul (mRemaining (fst s)) _ Hsh) as [E3 _]. destruct (shift_mul (mSize (fst s)) _ Hsh) as [E4 _].
    unfold leftover in *. rewrite E1, E2, E3, E4 in *. set (w := 2 ^ mFrameBitShift (fst s)) in *.
    assert (mOffset (fst s) * w + mRemaining (fst s) * w ≤ mSize (fst s) * w ∧ 0 ≤ mOffset (fst s) * w ∧
      0 ≤ mGetCount (fst s) * w ≤ mRemaining (fst s) * w) as (N1 & N2 & N3) by nia.
    split; [lia|]. split; [rewrite length_app; lia|]. change (provider_memory s) with (mAllocated (fst s)).
    rewrite slice_ok by lia. f_equal. rewrite take_app_le by lia. rewrite take_take. f_equal. lia.
  - intros s b pts Hs Hl Hc. case_bool_decide as Hg; [|done].
    eapply wp_mono; [by apply sabp_getNextBuffer_ok|]. cbn beta. intros [status b'] s' (K1 & K2 & K3 & K4).
    split; [done|]. split; [done|]. split; [done|]. case_bool_decide.
    + destruct K4 as (K4 & K5 & K6). split; [lia|]. eexists. split; [exact K5|]. by rewrite bool_decide_false, K6 by lia.
    + destruct K4 as (K4 & K5 & K6). split; [done|]. split; [by rewrite bool_decide_true|done].
  - intros s r n k Hs. pose proof (sabp_shift s Hs) as Hsh. pose proof (leftover_length s Hs) as Hll.
    case_bool_decide; [done|]. intros [= <- <-] Hk.
    eapply wp_mono; [apply sabp_releaseBuffer_ok; done|]. cbn beta. intros b' s' (K1 & K2 & K3 & K4 & K5 & K6).
    split; [done|]. split; [done|]. split; [by rewrite bool_decide_true|]. split; [done|].
    rewrite K5, K6. destruct Hs as [H1 H2 H3 H4 H5 H6 H7].
    destruct (shift_mul k _ Hsh) as [E1 Hw]. destruct (shift_mul (mRemaining (fst s)) _ Hsh) as [E3 _].
    rewrite drop_app_le by nia. done.
Defined.
End source_provider_laws.

(** ** A source over a lawful provider is lawful *)

Section provider_source_laws.
Context {P : Type} `{!AudioBufferProvider P} `{!ProviderLaws P}.

Record abps_ok (s : abps * P) : Prop := {
  ao_provider : provider_ok (snd s);
  ao_shift : 0 ≤ mBitShift (mPort (fst s)) ≤ 2 ∧ mBitShift (mPort (fst s)) = Format_frameBitShift (mFormat (mPort (fst s)));
  ao_same : mBitShift (mPort (fst s)) = provider_shift (snd s);
  ao_loan : match raw (mBuffer (fst s)) with
    | None => provider_loan (snd s) = None ∧ mConsumed (fst s) = 0
    | Some r => provider_loan (snd s) = Some (r, frameCount (mBuffer (fst s))) ∧
        0 ≤ mConsumed (fst s) < frameCount (mBuffer (fst s))
    end
}.
Definition abps_rest (s : abps * P) : list Z :=
  drop (Z.to_nat (Z.shiftl (mConsumed (fst s)) (mBitShift (mPort (fst s))))) (provider_rest (snd s)).

Lemma slice_part (l : list Z) from n d off m :
  slice l from n = Some d → 0 ≤ off → 0 ≤ m → off + m ≤ n →
  slice l (from + off) m = Some (take (Z.to_nat m) (drop (Z.to_nat off) d)).
Proof.
  unfold slice. case_bool_decide as Hb; [|done]. intros [= <-] Ho Hm Hom. rewrite bool_decide_true by lia. f_equal.
  rewrite skipn_firstn_comm, drop_drop, take_take. f_equal; [lia|]. f_equal. lia.
Qed.

(** With a loan in hand, the next frames are copied out of it. *)
Lemma take_from_loan p s r count :
  abps_ok (p, s) → raw (mBuffer p) = Some r → 0 < count →
  let n := Z.min count (frameCount (mBuffer p) - mConsumed p) in
  let bytes := Z.to_nat (Z.shiftl n (mBitShift (mPort p))) in
  slice (provider_memory s) (r + Z.shiftl (mConsumed p) (mBitShift (mPort p))) (Z.shiftl n (mBitShift (mPort p))) =
    Some (take bytes (abps_rest (p, s))) ∧
  Z.of_nat (length (take bytes (abps_rest (p, s)))) = Z.shiftl n (mBitShift (mPort p)) ∧
  wp (release_if_consumed n) (λ _ s', abps_ok s' ∧ mPort (fst s') = mPort p ∧
    abps_rest s' = drop bytes (abps_rest (p, s))) (p, s).
Proof.
  intros [H1 [H2 H2'] H3 H4] Er Hc n bytes. cbn [fst snd] in *. rewrite Er in H4. destruct H4 as [H4 H5].
  destruct (provider_loan_ok s r (frameCount (mBuffer p)) H1 H4) as (L1 & L2 & L3). rewrite <-H3 in L2, L3.
  set (sh := mBitShift (mPort p)) in *.
  destruct (shift_mul (mConsumed p) sh H2) as [E1 Hw]. destruct (shift_mul n sh H2) as [E2 _].
  destruct (shift_mul (frameCount (mBuffer p)) sh H2) as [E3 _]. assert (0 ≤ n ≤ frameCount (mBuffer p) - mConsumed p) as Hn by lia.
  assert (0 ≤ n * 2 ^ sh ∧ 0 ≤ mConsumed p * 2 ^ sh ∧ mConsumed p * 2 ^ sh + n * 2 ^ sh ≤ frameCount (mBuffer p) * 2 ^ sh)
    as (N1 & N2 & N3) by nia.
  assert (frameCount (mBuffer p) = mConsumed p + n → frameCount (mBuffer p) * 2 ^ sh = mConsumed p * 2 ^ sh + n * 2 ^ sh)
    as N4 by (intros ->; ring).
  unfold abps_rest. cbn [fst snd]. fold sh.
  split; [|split].
  - rewrite (slice_part _ _ _ _ (Z.shiftl (mConsumed p) sh) (Z.shiftl n sh) L3) by nia. f_equal. fold bytes.
    rewrite skipn_firstn_comm, take_take. f_equal. unfold bytes. nia.
  - rewrite length_take, length_drop. unfold bytes. nia.
  - unfold release_if_consumed. apply wp_bind, wp_getst. cbn [fst snd]. case_bool_decide as Hall.
    + apply wp_bind. unfold provider. apply wp_zoom. cbn [fst snd].
      assert (mBuffer p = Buffer (Some r) (frameCount (mBuffer p))) as Eb by (destruct (mBuffer p); cbn in *; congruence).
      rewrite Eb. cbn [frameCount]. eapply wp_mono; [apply (releaseBuffer_ok s r (frameCount (mBuffer p))); [done|done|lia]|].
      cbn beta. intros b' s' (K1 & K2 & K3 & K4 & K5). apply wp_modify. cbn [fst snd].
      split; [split; cbn [fst snd mPort mBuffer raw mConsumed]; [done|done|by rewrite K2|done]|]. split; [done|].
      cbn [mConsumed mPort]. rewrite Z.shiftl_0_l. cbn [Z.to_nat]. rewrite drop_0, K5, <-H3, drop_drop. f_equal. unfold bytes. nia.
    + apply wp_modify. cbn [fst snd]. split; [split; cbn [fst snd mPort mBuffer mConsumed]; [done|done|done|rewrite Er; split; [done|lia]]|].
      split; [done|]. cbn [mConsumed mPort]. fold sh. rewrite drop_drop. f_equal.
      destruct (shift_mul (mConsumed p + n) sh H2) as [-> _]. unfold bytes. nia.
Qed.

(** The part of [abps_read] after a loan is there. *)
Lemma abps_copy_ok p s count p1 s1 : 0 < count < 2 ^ 29 → abps_ok (p1, s1) → mPort p1 = mPort p → abps_rest (p1, s1) = abps_rest (p, s) → is_Some (raw (mBuffer p1)) →
  wp (s <- getst ;;
      let a := fst s in
      r <- deref (raw (mBuffer a)) ;;
      let available := frameCount (mBuffer a) - mConsumed a in
      let count := if bool_decide (count > available) then available else count in
      let shift := mBitShift (mPort a) in
      data <- deref (slice (provider_memory (snd s)) (r + Z.shiftl (mConsumed a) shift) (Z.shiftl count shift)) ;;
      release_if_consumed count ;;;
      modify (λ s, (Abps (mPort (fst s)) (u32 (mFramesRead (fst s) + count)) (mBuffer (fst s)) (mConsumed (fst s)), snd s)) ;;;
      ret (count, data))
    (λ '(n, data) s', abps_ok s' ∧ mPort (fst s') = mPort p ∧ n ≤ count ∧
      data = take (Z.to_nat (Z.shiftl (Z.max n 0) (mBitShift (mPort p)))) (abps_rest (p, s)) ∧
      Z.of_nat (length data) = Z.shiftl (Z.max n 0) (mBitShift (mPort p)) ∧
      abps_rest s' = drop (length data) (abps_rest (p, s))) (p1, s1).
Proof.
  intros Hc Hok Ep Erest [r Er]. apply wp_bind, wp_getst. cbn [fst snd]. rewrite Er. apply wp_bind. eapply wp_deref; [done|].
  set (n := if bool_decide (count > frameCount (mBuffer p1) - mConsumed p1) then frameCount (mBuffer p1) - mConsumed p1 else count).
  pose proof Hok as [_ _ _ Hloan]. cbn [fst snd] in Hloan. rewrite Er in Hloan. destruct Hloan as [_ Hloan].
  assert (n = Z.min count (frameCount (mBuffer p1) - mConsumed p1)) as -> by (unfold n; case_bool_decide; lia).
  destruct (take_from_loan p1 s1 r count Hok Er ltac:(lia)) as (T1 & T2 & T3).
  set (m := Z.min count (frameCount (mBuffer p1) - mConsumed p1)) in *.
  apply wp_bind. eapply wp_deref; [exact T1|]. apply wp_bind. eapply wp_mono; [exact T3|]. cbn beta.
  intros [] [p2 s2] (K1 & K2 & K3). apply wp_bind, wp_modify, wp_ret. cbn [fst snd] in *.
  rewrite Ep in *. rewrite Erest in *. rewrite Z.max_l by lia.
  split; [destruct K1 as [M1 M2 M3 M4]; by split|]. split; [done|]. split; [lia|]. split; [done|].
  split; [done|]. rewrite <-T2, Nat2Z.id in K3. exact K3.
Qed.

Lemma abps_read_ok s count pts : abps_ok s → mNegotiated (mPort (fst s)) = true → 0 < count < 2 ^ 29 →
  wp (abps_read count pts) (λ '(n, data) s',
    abps_ok s' ∧ mPort (fst s') = mPort (fst s) ∧ n ≤ count ∧
    let m := Z.max n 0 in
    data = take (Z.to_nat (Z.shiftl m (mBitShift (mPort (fst s))))) (abps_rest s) ∧
    Z.of_nat (length data) = Z.shiftl m (mBitShift (mPort (fst s))) ∧
    abps_rest s' = drop (length data) (abps_rest s)) s.
Proof.
  intros Hs Hn Hc. destruct s as [p s]. cbn [fst] in *.
  unfold abps_read. apply wp_bind, wp_getst. cbn [fst snd]. rewrite Hn. cbn [negb]. apply wp_bind.
  destruct (raw (mBuffer p)) as [r|] eqn:Er.
  - rewrite bool_decide_false by done. apply wp_ret. rewrite bool_decide_false by tauto. apply abps_copy_ok; [done|done|done|done|by rewrite Er].
  - rewrite bool_decide_true by done. pose proof Hs as [H1 H2 H3 H4]. cbn [fst snd] in *. rewrite Er in H4. destruct H4 as [H4 H5].
    apply wp_bind. unfold provider. apply wp_zoom. cbn [fst snd].
    eapply wp_mono; [apply (getNextBuffer_ok s (Buffer None count) pts); [done|done|done]|]. cbn beta.
    intros [status b'] s1 (K1 & K2 & K3 & K4). apply wp_bind, wp_modify, wp_ret. cbn [fst snd frameCount] in *.
    case_bool_decide as Hst.
    + rewrite bool_decide_false by tauto. destruct K4 as (K4 & r & K5 & K6).
      apply abps_copy_ok; [done| |done| |cbn [mBuffer]; by rewrite K5].
      * split; cbn [fst snd mPort mBuffer mConsumed]; [done|done|congruence|]. rewrite K5, H5. split; [done|].
        destruct (provider_loan_ok s1 r (frameCount b') K1 K6) as (? & _). lia.
      * unfold abps_rest. cbn [fst snd mPort mConsumed]. by rewrite K3.
    + rewrite bool_decide_true by done. destruct K4 as (K4 & K5 & K6). apply wp_ret. cbn [fst snd mPort].
      set (n := if bool_decide (status = NOT_ENOUGH_DATA) then WOULD_BLOCK else status).
      assert (n < 0) as Hneg by (unfold n, WOULD_BLOCK; case_bool_decide; lia).
      split; [split; cbn [fst snd mPort mBuffer mConsumed]; [done|done|congruence|by rewrite K4]|]. split; [done|]. split; [lia|].
      rewrite Z.max_r, Z.shiftl_0_l by lia. split; [done|]. split; [done|].
      unfold abps_rest. cbn [fst snd mPort mConsumed length]. by rewrite drop_0, K3.
Qed.

#[export] Instance abps_source_laws : SourceLaws (abps * P).
Proof.
  refine {| source_ok := abps_ok; source_rest := abps_rest |}.
  - intros s count pts Hs Hn Hc. exact (abps_read_ok s count pts Hs Hn Hc).
  - intros [p s] pt [H1 H2 H3 H4] E1 E2. cbn [source_set_port source_port abps_source fst snd] in *.
    split; [|split; [done|]].
    + split; cbn [fst snd mPort mBuffer mConsumed]; [done|by rewrite E1, E2|by rewrite E1|done].
    + unfold abps_rest. cbn [fst snd mPort mConsumed]. by rewrite E1.
  - intros s [_ H2 _ _]. exact H2.
Defined.
End provider_source_laws.
