(* ===== verification/AudioMixer.v ===== *)
(** * The mixer of AudioFlinger

    [libs/audioflinger/AudioMixer.h] and [AudioMixer.cpp]: the tracks of a mixer and
    their parameters, the volume ramps, the choice of the routines that mix them, and
    those routines.  The interfaces the mixer calls are a class [MixerEnv] over the
    state [W] of what is behind them: the providers of the tracks' buffers, the
    resamplers, the down-mix effect.  A pointer to 32-bit words (main and auxiliary
    buffers) is the number of the word in [words]; a pointer to 16-bit samples is a
    byte address in the memory of the providers.  The result of [int] arithmetic is
    wrapped, as the instructions of the targets do. *)

From Stdlib Require Import ZArith Lia.
From stdpp Require Import base tactics numbers option list gmap.
From S2P Require Import Prelude Words AudioPrimitives Nbaio NbaioProviders.

(** ** What the mixer calls *)

Definition kInvalidPTS : Z := 0x7FFFFFFFFFFFFFFF.

Inductive src_quality := DEFAULT_QUALITY | LOW_QUALITY | MED_QUALITY | HIGH_QUALITY | VERY_HIGH_QUALITY.

Record buffer_config_t := BufferConfig {
  c_buffer : buffer;
  samplingRate : Z;
  channels : Z;
  format : Z;
  accessMode : Z;
  c_mask : Z
}.
Record effect_config_t := EffectConfig { inputCfg : buffer_config_t; outputCfg : buffer_config_t }.

(** The commands given to an effect, with their data. *)
Inductive effect_command :=
  | EFFECT_CMD_SET_CONFIG (c : effect_config_t)
  | EFFECT_CMD_ENABLE
  | EFFECT_CMD_SET_PARAM (psize vsize param value : Z).

Class MixerEnv (W : Type) := {
  (** The sample a provider's memory holds at an address. *)
  i16_at : W → Z → option Z;
  (** [AudioBufferProvider], by the provider it is called on. *)
  p_getNextBuffer : Z → buffer → Z → M W (Z * buffer);
  p_releaseBuffer : Z → buffer → M W buffer;
  (** [AudioResampler]; [resample] adds to the words given, and takes the provider
      to call as its two operations. *)
  rs_create : Z → Z → Z → src_quality → M W Z;
  rs_delete : Z → M W unit;
  rs_reset : Z → M W unit;
  rs_setLocalTimeFreq : Z → Z → M W unit;
  rs_setSampleRate : Z → Z → M W unit;
  rs_setVolume : Z → Z → Z → M W unit;
  rs_setPTS : Z → Z → M W unit;
  rs_getUnreleasedFrames : W → Z → Z;
  rs_resample : Z → list Z → Z → (buffer → Z → M W (Z * buffer)) → (buffer → M W buffer) → M W (list Z);
  (** The effect library and an effect; a query yields its status and whether
      the type of the effect is [EFFECT_UIID_DOWNMIX]. *)
  EffectQueryNumberEffects : M W (Z * Z);
  EffectQueryEffect : Z → M W (Z * bool);
  EffectCreate : Z → Z → M W (Z * option Z);
  EffectRelease : option Z → M W unit;
  (** Status, reply and the size of the reply. *)
  effect_do : Z → effect_command → Z → M W (Z * Z * Z);
  effect_process : Z → buffer → buffer → M W Z;
  (** [LocalClock::getLocalFreq]. *)
  getLocalFreq : W → Z
}.

(** ** Constants *)

Definition MAX_NUM_TRACKS : Z := 32.
Definition MAX_NUM_CHANNELS : Z := 2.
Definition MAX_NUM_CHANNELS_TO_DOWNMIX : Z := 8.
Definition UNITY_GAIN : Z := 0x1000.
Definition TRACK0 : Z := 0x1000.
Definition BLOCKSIZE : Z := 16.

Definition NEEDS_CHANNEL_COUNT__MASK : Z := 0x00000007.
Definition NEEDS_MUTE__MASK : Z := 0x00000100.
Definition NEEDS_RESAMPLE__MASK : Z := 0x00001000.
Definition NEEDS_AUX__MASK : Z := 0x00010000.
Definition NEEDS_CHANNEL_1 : Z := 0x00000000.
Definition NEEDS_CHANNEL_2 : Z := 0x00000001.
Definition NEEDS_FORMAT_16 : Z := 0x00000010.
Definition NEEDS_MUTE_ENABLED : Z := 0x00000100.
Definition NEEDS_RESAMPLE_DISABLED : Z := 0x00000000.
Definition NEEDS_RESAMPLE_ENABLED : Z := 0x00001000.
Definition NEEDS_AUX_ENABLED : Z := 0x00010000.

Definition AUDIO_CHANNEL_OUT_STEREO : Z := 3.
Definition AUDIO_FORMAT_PCM_16_BIT : Z := 1.
Definition EFFECT_BUFFER_ACCESS_WRITE : Z := 0.
Definition EFFECT_BUFFER_ACCESS_READ : Z := 1.
Definition EFFECT_CONFIG_SMP_RATE : Z := 0x0002.
Definition EFFECT_CONFIG_CHANNELS : Z := 0x0004.
Definition EFFECT_CONFIG_FORMAT : Z := 0x0008.
Definition EFFECT_CONFIG_ACC_MODE : Z := 0x0010.
Definition DOWNMIX_PARAM_TYPE : Z := 0.
Definition DOWNMIX_TYPE_FOLD : Z := 1.
Definition NO_ERROR : Z := 0.
Definition NO_INIT : Z := -19.

(** ** State *)

(** One gain: [volume[i]], [prevVolume[i]] and [volumeInc[i]], and alike
    [auxLevel], [prevAuxLevel] and [auxInc]. *)
Record ramp := Ramp {
  volume : Z;
  prevVolume : Z;
  volumeInc : Z
}.
Definition set_volume (v : Z) (x : ramp) : ramp :=
  Ramp v (prevVolume x) (volumeInc x).
Definition set_prevVolume (v : Z) (x : ramp) : ramp :=
  Ramp (volume x) v (volumeInc x).
Definition set_volumeInc (v : Z) (x : ramp) : ramp :=
  Ramp (volume x) (prevVolume x) v.

(** [typedef void ( *hook_t)(...)]: the routine that mixes a track. *)
Inductive hook_t := track__genericResample | track__nop | track__16BitsStereo | track__16BitsMono.
(** [state_t::hook]. *)
Inductive process_t :=
  | process__validate | process__nop | process__genericNoResampling | process__genericResampling
  | process__OneTrack16BitsStereoNoResampling.

#[export] Instance hook_t_eq_dec : EqDecision hook_t.
Proof. solve_decision. Defined.
#[export] Instance process_t_eq_dec : EqDecision process_t.
Proof. solve_decision. Defined.

(** The wrapper that mixes a track of many channels down to two. *)
Record DownmixerBufferProvider := Downmixer {
  mTrackBufferProvider : option Z;
  mDownmixHandle : option Z;
  mDownmixConfig : option effect_config_t
}.

(** What a track's [bufferProvider] points to: a provider, or the track's own wrapper. *)
Inductive provider_ptr := Direct (p : Z) | Wrapped.

Record track_t := Track {
  needs : Z;
  ramp0 : ramp;
  ramp1 : ramp;
  aux_ramp : ramp;
  t_frameCount : Z;
  channelCount : Z;
  enabled : bool;
  channelMask : Z;
  bufferProvider : option provider_ptr;
  t_buffer : buffer;
  t_hook : option hook_t;
  in_ : option Z;
  resampler : option Z;
  sampleRate : Z;
  mainBuffer : option Z;
  auxBuffer : option Z;
  downmixerBufferProvider : option DownmixerBufferProvider;
  sessionId : Z
}.
Definition set_needs (v : Z) (x : track_t) : track_t :=
  Track v (ramp0 x) (ramp1 x) (aux_ramp x) (t_frameCount x) (channelCount x) (enabled x) (channelMask x)
    (bufferProvider x) (t_buffer x) (t_hook x) (in_ x) (resampler x) (sampleRate x) (mainBuffer x) (auxBuffer x)
    (downmixerBufferProvider x) (sessionId x).
Definition set_ramp0 (v : ramp) (x : track_t) : track_t :=
  Track (needs x) v (ramp1 x) (aux_ramp x) (t_frameCount x) (channelCount x) (enabled x) (channelMask x)
    (bufferProvider x) (t_buffer x) (t_hook x) (in_ x) (resampler x) (sampleRate x) (mainBuffer x) (auxBuffer x)
    (downmixerBufferProvider x) (sessionId x).
Definition set_ramp1 (v : ramp) (x : track_t) : track_t :=
  Track (needs x) (ramp0 x) v (aux_ramp x) (t_frameCount x) (channelCount x) (enabled x) (channelMask x)
    (bufferProvider x) (t_buffer x) (t_hook x) (in_ x) (resampler x) (sampleRate x) (mainBuffer x) (auxBuffer x)
    (downmixerBufferProvider x) (sessionId x).
Definition set_aux_ramp (v : ramp) (x : track_t) : track_t :=
  Track (needs x) (ramp0 x) (ramp1 x) v (t_frameCount x) (channelCount x) (enabled x) (channelMask x)
    (bufferProvider x) (t_buffer x) (t_hook x) (in_ x) (resampler x) (sampleRate x) (mainBuffer x) (auxBuffer x)
    (downmixerBufferProvider x) (sessionId x).
Definition set_t_frameCount (v : Z) (x : track_t) : track_t :=
  Track (needs x) (ramp0 x) (ramp1 x) (aux_ramp x) v (channelCount x) (enabled x) (channelMask x)
    (bufferProvider x) (t_buffer x) (t_hook x) (in_ x) (resampler x) (sampleRate x) (mainBuffer x) (auxBuffer x)
    (downmixerBufferProvider x) (sessionId x).
Definition set_channelCount (v : Z) (x : track_t) : track_t :=
  Track (needs x) (ramp0 x) (ramp1 x) (aux_ramp x) (t_frameCount x) v (enabled x) (channelMask x)
    (bufferProvider x) (t_buffer x) (t_hook x) (in_ x) (resampler x) (sampleRate x) (mainBuffer x) (auxBuffer x)
    (downmixerBufferProvider x) (sessionId x).
Definition set_enabled (v : bool) (x : track_t) : track_t :=
  Track (needs x) (ramp0 x) (ramp1 x) (aux_ramp x) (t_frameCount x) (channelCount x) v (channelMask x)
    (bufferProvider x) (t_buffer x) (t_hook x) (in_ x) (resampler x) (sampleRate x) (mainBuffer x) (auxBuffer x)
    (downmixerBufferProvider x) (sessionId x).
Definition set_channelMask (v : Z) (x : track_t) : track_t :=
  Track (needs x) (ramp0 x) (ramp1 x) (aux_ramp x) (t_frameCount x) (channelCount x) (enabled x) v
    (bufferProvider x) (t_buffer x) (t_hook x) (in_ x) (resampler x) (sampleRate x) (mainBuffer x) (auxBuffer x)
    (downmixerBufferProvider x) (sessionId x).
Definition set_bufferProvider (v : option provider_ptr) (x : track_t) : track_t :=
  Track (needs x) (ramp0 x) (ramp1 x) (aux_ramp x) (t_frameCount x) (channelCount x) (enabled x) (channelMask x)
    v (t_buffer x) (t_hook x) (in_ x) (resampler x) (sampleRate x) (mainBuffer x) (auxBuffer x)
    (downmixerBufferProvider x) (sessionId x).
Definition set_t_buffer (v : buffer) (x : track_t) : track_t :=
  Track (needs x) (ramp0 x) (ramp1 x) (aux_ramp x) (t_frameCount x) (channelCount x) (enabled x) (channelMask x)
    (bufferProvider x) v (t_hook x) (in_ x) (resampler x) (sampleRate x) (mainBuffer x) (auxBuffer x)
    (downmixerBufferProvider x) (sessionId x).
Definition set_t_hook (v : option hook_t) (x : track_t) : track_t :=
  Track (needs x) (ramp0 x) (ramp1 x) (aux_ramp x) (t_frameCount x) (channelCount x) (enabled x) (channelMask x)
    (bufferProvider x) (t_buffer x) v (in_ x) (resampler x) (sampleRate x) (mainBuffer x) (auxBuffer x)
    (downmixerBufferProvider x) (sessionId x).
Definition set_in_ (v : option Z) (x : track_t) : track_t :=
  Track (needs x) (ramp0 x) (ramp1 x) (aux_ramp x) (t_frameCount x) (channelCount x) (enabled x) (channelMask x)
    (bufferProvider x) (t_buffer x) (t_hook x) v (resampler x) (sampleRate x) (mainBuffer x) (auxBuffer x)
    (downmixerBufferProvider x) (sessionId x).
Definition set_resampler (v : option Z) (x : track_t) : track_t :=
  Track (needs x) (ramp0 x) (ramp1 x) (aux_ramp x) (t_frameCount x) (channelCount x) (enabled x) (channelMask x)
    (bufferProvider x) (t_buffer x) (t_hook x) (in_ x) v (sampleRate x) (mainBuffer x) (auxBuffer x)
    (downmixerBufferProvider x) (sessionId x).
Definition set_sampleRate (v : Z) (x : track_t) : track_t :=
  Track (needs x) (ramp0 x) (ramp1 x) (aux_ramp x) (t_frameCount x) (channelCount x) (enabled x) (channelMask x)
    (bufferProvider x) (t_buffer x) (t_hook x) (in_ x) (resampler x) v (mainBuffer x) (auxBuffer x)
    (downmixerBufferProvider x) (sessionId x).
Definition set_mainBuffer (v : option Z) (x : track_t) : track_t :=
  Track (needs x) (ramp0 x) (ramp1 x) (aux_ramp x) (t_frameCount x) (channelCount x) (enabled x) (channelMask x)
    (bufferProvider x) (t_buffer x) (t_hook x) (in_ x) (resampler x) (sampleRate x) v (auxBuffer x)
    (downmixerBufferProvider x) (sessionId x).
Definition set_auxBuffer (v : option Z) (x : track_t) : track_t :=
  Track (needs x) (ramp0 x) (ramp1 x) (aux_ramp x) (t_frameCount x) (channelCount x) (enabled x) (channelMask x)
    (bufferProvider x) (t_buffer x) (t_hook x) (in_ x) (resampler x) (sampleRate x) (mainBuffer x) v
    (downmixerBufferProvider x) (sessionId x).
Definition set_downmixerBufferProvider (v : option DownmixerBufferProvider) (x : track_t) : track_t :=
  Track (needs x) (ramp0 x) (ramp1 x) (aux_ramp x) (t_frameCount x) (channelCount x) (enabled x) (channelMask x)
    (bufferProvider x) (t_buffer x) (t_hook x) (in_ x) (resampler x) (sampleRate x) (mainBuffer x) (auxBuffer x) v
    (sessionId x).
Definition set_sessionId (v : Z) (x : track_t) : track_t :=
  Track (needs x) (ramp0 x) (ramp1 x) (aux_ramp x) (t_frameCount x) (channelCount x) (enabled x) (channelMask x)
    (bufferProvider x) (t_buffer x) (t_hook x) (in_ x) (resampler x) (sampleRate x) (mainBuffer x) (auxBuffer x)
    (downmixerBufferProvider x) v.

(** [volumeRL]: the two volumes as one word, read as unsigned. *)
Definition volumeRL (t : track_t) : Z := word_of (volume (ramp0 t)) (volume (ramp1 t)).

Section mixer.
Context {W : Type} `{!MixerEnv W}.

(** [class AudioMixer] and its [state_t]. *)
Record mixer := Mixer {
  mTrackNames : Z;
  mConfiguredNames : Z;
  mSampleRate : Z;
  enabledTracks : Z;
  needsChanged : Z;
  m_frameCount : Z;
  hook : process_t;
  outputTemp : option (list Z);
  resampleTemp : option (list Z);
  tracks : list track_t;
  isMultichannelCapable : bool;
  sLocalTimeFreq : Z;
  words : gmap Z Z;
  world : W
}.
Definition set_mTrackNames (v : Z) (x : mixer) : mixer :=
  Mixer v (mConfiguredNames x) (mSampleRate x) (enabledTracks x) (needsChanged x) (m_frameCount x) (hook x)
    (outputTemp x) (resampleTemp x) (tracks x) (isMultichannelCapable x) (sLocalTimeFreq x) (words x) (world x).
Definition set_mConfiguredNames (v : Z) (x : mixer) : mixer :=
  Mixer (mTrackNames x) v (mSampleRate x) (enabledTracks x) (needsChanged x) (m_frameCount x) (hook x)
    (outputTemp x) (resampleTemp x) (tracks x) (isMultichannelCapable x) (sLocalTimeFreq x) (words x) (world x).
Definition set_mSampleRate (v : Z) (x : mixer) : mixer :=
  Mixer (mTrackNames x) (mConfiguredNames x) v (enabledTracks x) (needsChanged x) (m_frameCount x) (hook x)
    (outputTemp x) (resampleTemp x) (tracks x) (isMultichannelCapable x) (sLocalTimeFreq x) (words x) (world x).
Definition set_enabledTracks (v : Z) (x : mixer) : mixer :=
  Mixer (mTrackNames x) (mConfiguredNames x) (mSampleRate x) v (needsChanged x) (m_frameCount x) (hook x)
    (outputTemp x) (resampleTemp x) (tracks x) (isMultichannelCapable x) (sLocalTimeFreq x) (words x) (world x).
Definition set_needsChanged (v : Z) (x : mixer) : mixer :=
  Mixer (mTrackNames x) (mConfiguredNames x) (mSampleRate x) (enabledTracks x) v (m_frameCount x) (hook x)
    (outputTemp x) (resampleTemp x) (tracks x) (isMultichannelCapable x) (sLocalTimeFreq x) (words x) (world x).
Definition set_m_frameCount (v : Z) (x : mixer) : mixer :=
  Mixer (mTrackNames x) (mConfiguredNames x) (mSampleRate x) (enabledTracks x) (needsChanged x) v (hook x)
    (outputTemp x) (resampleTemp x) (tracks x) (isMultichannelCapable x) (sLocalTimeFreq x) (words x) (world x).
Definition set_hook (v : process_t) (x : mixer) : mixer :=
  Mixer (mTrackNames x) (mConfiguredNames x) (mSampleRate x) (enabledTracks x) (needsChanged x) (m_frameCount x)
    v (outputTemp x) (resampleTemp x) (tracks x) (isMultichannelCapable x) (sLocalTimeFreq x) (words x) (world x).
Definition set_outputTemp (v : option (list Z)) (x : mixer) : mixer :=
  Mixer (mTrackNames x) (mConfiguredNames x) (mSampleRate x) (enabledTracks x) (needsChanged x) (m_frameCount x)
    (hook x) v (resampleTemp x) (tracks x) (isMultichannelCapable x) (sLocalTimeFreq x) (words x) (world x).
Definition set_resampleTemp (v : option (list Z)) (x : mixer) : mixer :=
  Mixer (mTrackNames x) (mConfiguredNames x) (mSampleRate x) (enabledTracks x) (needsChanged x) (m_frameCount x)
    (hook x) (outputTemp x) v (tracks x) (isMultichannelCapable x) (sLocalTimeFreq x) (words x) (world x).
Definition set_tracks (v : list track_t) (x : mixer) : mixer :=
  Mixer (mTrackNames x) (mConfiguredNames x) (mSampleRate x) (enabledTracks x) (needsChanged x) (m_frameCount x)
    (hook x) (outputTemp x) (resampleTemp x) v (isMultichannelCapable x) (sLocalTimeFreq x) (words x) (world x).
Definition set_isMultichannelCapable (v : bool) (x : mixer) : mixer :=
  Mixer (mTrackNames x) (mConfiguredNames x) (mSampleRate x) (enabledTracks x) (needsChanged x) (m_frameCount x)
    (hook x) (outputTemp x) (resampleTemp x) (tracks x) v (sLocalTimeFreq x) (words x) (world x).
Definition set_sLocalTimeFreq (v : Z) (x : mixer) : mixer :=
  Mixer (mTrackNames x) (mConfiguredNames x) (mSampleRate x) (enabledTracks x) (needsChanged x) (m_frameCount x)
    (hook x) (outputTemp x) (resampleTemp x) (tracks x) (isMultichannelCapable x) v (words x) (world x).
Definition set_words (v : gmap Z Z) (x : mixer) : mixer :=
  Mixer (mTrackNames x) (mConfiguredNames x) (mSampleRate x) (enabledTracks x) (needsChanged x) (m_frameCount x)
    (hook x) (outputTemp x) (resampleTemp x) (tracks x) (isMultichannelCapable x) (sLocalTimeFreq x) v (world x).
Definition set_world (v : W) (x : mixer) : mixer :=
  Mixer (mTrackNames x) (mConfiguredNames x) (mSampleRate x) (enabledTracks x) (needsChanged x) (m_frameCount x)
    (hook x) (outputTemp x) (resampleTemp x) (tracks x) (isMultichannelCapable x) (sLocalTimeFreq x) (words x) v.

#[local] Notation MX := (M mixer).

(** [state->tracks[i]]; outside the array, a stray access. *)
Definition get_track (i : Z) : MX track_t :=
  s <- getst ;; if bool_decide (0 ≤ i) then deref (tracks s !! Z.to_nat i) else crash_with CrashOops.
Definition upd_track (i : Z) (f : track_t → track_t) : MX unit :=
  get_track i ;;; modify (λ s, set_tracks (alter f (Z.to_nat i) (tracks s)) s).
Definition in_world {A} (m : M W A) : MX A := zoom world set_world m.

(** ** Bit masks *)

Definition bit (i : Z) : Z := Z.shiftl 1 i.
(** [31 - __builtin_clz(e)], for a mask that is not zero. *)
Definition top_bit (e : Z) : Z := Z.log2 e.
(** [e & ~(1<<i)]. *)
Definition clear_bit (e i : Z) : Z := Z.land e (Z.lnot (bit i)).
(** The bits of a mask in the order in which the loops [while (e)] meet them. *)
Fixpoint bits_of (fuel : nat) (e : Z) : list Z :=
  match fuel with
  | O => []
  | S fuel => if bool_decide (e = 0) then [] else top_bit e :: bits_of fuel (clear_bit e (top_bit e))
  end.
Definition bits (e : Z) : list Z := bits_of 32 e.
Fixpoint for_each {A} (l : list Z) (body : A → Z → MX A) (a : A) : MX A :=
  match l with
  | [] => ret a
  | i :: l => a <- body a i ;; for_each l body a
  end.

Fixpoint popcount_of (fuel : nat) (x : Z) : Z :=
  match fuel with O => 0 | S fuel => (if Z.odd x then 1 else 0) + popcount_of fuel (Z.shiftr x 1) end.
Definition popcount (x : Z) : Z := popcount_of 32 x.

(** ** The down-mixer of a track *)

Definition deref_world {A} (o : option A) : M W A := deref o.

Definition dbp_getNextBuffer (d : DownmixerBufferProvider) (b : buffer) (pts : Z) : M W (Z * buffer) :=
  match mTrackBufferProvider d with
  | Some p =>
      let* (res, b) := p_getNextBuffer p b pts in
      if bool_decide (res = OK) then
        h <- deref (mDownmixHandle d) ;;
        res <- effect_process h (Buffer (raw b) (frameCount b)) (Buffer (raw b) (frameCount b)) ;;
        ret (res, b)
      else ret (res, b)
  | None => ret (NO_INIT, b)
  end.

Definition dbp_releaseBuffer (d : DownmixerBufferProvider) (b : buffer) : M W buffer :=
  match mTrackBufferProvider d with
  | Some p => p_releaseBuffer p b
  | None => ret b
  end.

(** [t.bufferProvider->getNextBuffer(...)] and [releaseBuffer]: the virtual calls. *)
Definition provider_get (t : track_t) (b : buffer) (pts : Z) : M W (Z * buffer) :=
  match bufferProvider t with
  | Some (Direct p) => p_getNextBuffer p b pts
  | Some Wrapped => d <- deref (downmixerBufferProvider t) ;; dbp_getNextBuffer d b pts
  | None => crash_with CrashOops
  end.
Definition provider_release (t : track_t) (b : buffer) : M W buffer :=
  match bufferProvider t with
  | Some (Direct p) => p_releaseBuffer p b
  | Some Wrapped => d <- deref (downmixerBufferProvider t) ;; dbp_releaseBuffer d b
  | None => crash_with CrashOops
  end.

(** [delete] of a wrapper. *)
Definition dbp_delete (d : DownmixerBufferProvider) : M W unit := EffectRelease (mDownmixHandle d).

Definition unprepareTrackForDownmix (i : Z) : MX unit :=
  t <- get_track i ;;
  match downmixerBufferProvider t with
  | Some d =>
      upd_track i (set_bufferProvider (option_map Direct (mTrackBufferProvider d))) ;;;
      in_world (dbp_delete d) ;;;
      upd_track i (set_downmixerBufferProvider None)
  | None => ret tt
  end.

Definition CONFIG_MASK : Z :=
  Z.lor (Z.lor (Z.lor EFFECT_CONFIG_SMP_RATE EFFECT_CONFIG_CHANNELS) EFFECT_CONFIG_FORMAT) EFFECT_CONFIG_ACC_MODE.

(** The configuration for a track's channels; [b1] and [b2] are its buffers, not in the mask. *)
Definition downmix_config (t : track_t) (b1 b2 : buffer) : effect_config_t :=
  EffectConfig
    (BufferConfig b1 (sampleRate t) (channelMask t) AUDIO_FORMAT_PCM_16_BIT EFFECT_BUFFER_ACCESS_READ CONFIG_MASK)
    (BufferConfig b2 (sampleRate t) AUDIO_CHANNEL_OUT_STEREO AUDIO_FORMAT_PCM_16_BIT EFFECT_BUFFER_ACCESS_WRITE CONFIG_MASK).

(** A command failed: its status, or the one it replied, is not zero. *)
Definition cmd_failed (status cmdStatus : Z) : bool := bool_decide (status ≠ 0) || bool_decide (cmdStatus ≠ 0).

(** [goto noDownmixForActiveTrack]. *)
Definition noDownmixForActiveTrack (i : Z) (d : DownmixerBufferProvider) : MX Z :=
  in_world (dbp_delete d) ;;;
  upd_track i (set_downmixerBufferProvider None) ;;;
  ret NO_INIT.

Definition prepareTrackForDownmix (i : Z) : MX Z :=
  unprepareTrackForDownmix i ;;;
  s <- getst ;;
  t <- get_track i ;;
  let d := Downmixer None None None in
  if negb (isMultichannelCapable s) then noDownmixForActiveTrack i d else
  let* (status, handle) := in_world (EffectCreate (sessionId t) (-2)) in
  let d := Downmixer None handle None in
  if bool_decide (status ≠ 0) then noDownmixForActiveTrack i d else
  let cfg := downmix_config t (Buffer None 0) (Buffer None 0) in
  let d := Downmixer None handle (Some cfg) in
  h <- deref handle ;;
  let* (status, cmdStatus, _) := in_world (effect_do h (EFFECT_CMD_SET_CONFIG cfg) 4) in
  if cmd_failed status cmdStatus then noDownmixForActiveTrack i d else
  let* (status, cmdStatus, replySize) := in_world (effect_do h EFFECT_CMD_ENABLE 4) in
  if cmd_failed status cmdStatus then noDownmixForActiveTrack i d else
  let* (status, cmdStatus, _) := in_world (effect_do h (EFFECT_CMD_SET_PARAM 4 4 DOWNMIX_PARAM_TYPE DOWNMIX_TYPE_FOLD) replySize) in
  if cmd_failed status cmdStatus then noDownmixForActiveTrack i d else
  let d := Downmixer (match bufferProvider t with Some (Direct p) => Some p | _ => None end) handle (Some cfg) in
  upd_track i (set_downmixerBufferProvider (Some d)) ;;;
  upd_track i (set_bufferProvider (Some Wrapped)) ;;;
  ret NO_ERROR.

Definition initTrackDownmix (i mask : Z) : MX Z :=
  let n := popcount mask in
  bug_on (negb (bool_decide (n ≤ MAX_NUM_CHANNELS_TO_DOWNMIX) && bool_decide (n ≠ 0))) ;;;
  if bool_decide (n > MAX_NUM_CHANNELS) then
    upd_track i (set_channelMask mask) ;;;
    upd_track i (set_channelCount (n mod 2 ^ 8)) ;;;
    prepareTrackForDownmix i
  else unprepareTrackForDownmix i ;;; ret OK.

(** ** Construction and names *)

(** The loop over the effects that are installed. *)
Fixpoint find_downmix (i : Z) (n : nat) : MX unit :=
  match n with
  | O => ret tt
  | S n =>
      let* (status, downmix) := in_world (EffectQueryEffect i) in
      if bool_decide (status = 0) && downmix then modify (set_isMultichannelCapable true)
      else find_downmix (i + 1) n
  end.

(** The constructor; [raw_tracks] is what the memory of the object holds, [capable] the
    static variable. *)
Definition AudioMixer (F rate maxNumTracks : Z) (raw_tracks : list track_t) (capable : bool) (mem : gmap Z Z) (w : W) : outcome mixer unit :=
  if bool_decide (maxNumTracks > MAX_NUM_TRACKS) then Crash CrashBug else
  (numEffects <- in_world EffectQueryNumberEffects ;;
   let '(status, n) := numEffects in
   if bool_decide (status ≠ 0) then ret tt else find_downmix 0 (Z.to_nat n))
  (Mixer 0 (u32 ((if bool_decide (maxNumTracks >= 32) then 0 else bit maxNumTracks) - 1)) rate 0 0 F process__nop None None
     ((λ t, set_downmixerBufferProvider None (set_resampler None t)) <$> raw_tracks) capable (getLocalFreq w) mem w).

(** The destructor. *)
Definition AudioMixer_delete : MX unit :=
  s <- getst ;;
  for_each (seqZ 0 32) (λ _ i,
    t <- get_track i ;;
    (match resampler t with Some r => in_world (rs_delete r) | None => ret tt end) ;;;
    (match downmixerBufferProvider t with Some d => in_world (dbp_delete d) | None => ret tt end)) tt ;;;
  modify (λ s, set_outputTemp None (set_resampleTemp None s)).

Definition invalidateState (mask : Z) : MX unit :=
  when negb (bool_decide (mask = 0)) do
    modify (λ s, set_hook process__validate (set_needsChanged (Z.lor (needsChanged s) mask) s)).

(** The defaults a name starts with. *)
Definition fresh_track (rate session : Z) (t : track_t) : track_t :=
  Track 0 (Ramp UNITY_GAIN (prevVolume (ramp0 t)) 0) (Ramp UNITY_GAIN (prevVolume (ramp1 t)) 0) (Ramp 0 (prevVolume (aux_ramp t)) 0)
    (t_frameCount t) 2 false AUDIO_CHANNEL_OUT_STEREO None (Buffer None (frameCount (t_buffer t))) None None None rate None None None session.

(** [__builtin_ctz] of a mask that is not zero. *)
Fixpoint ctz (fuel : nat) (x : Z) : Z :=
  match fuel with O => 0 | S fuel => if Z.odd x then 0 else 1 + ctz fuel (Z.shiftr x 1) end.

Definition getTrackName (mask session : Z) : MX Z :=
  s <- getst ;;
  let names := Z.land (Z.lnot (mTrackNames s)) (mConfiguredNames s) in
  if bool_decide (names ≠ 0) then
    let n := ctz 32 names in
    modify (set_mTrackNames (Z.lor (mTrackNames s) (bit n))) ;;;
    upd_track n (fresh_track (mSampleRate s) session) ;;;
    status <- initTrackDownmix n mask ;;
    if bool_decide (status = OK) then ret (TRACK0 + n) else ret (-1)
  else ret (-1).

(** [name -= TRACK0], and the check of the range. *)
Definition track_index (name : Z) : MX Z :=
  bug_on (negb (bool_decide (u32 (name - TRACK0) < MAX_NUM_TRACKS))) ;;; ret (name - TRACK0).

Definition deleteTrackName (name : Z) : MX unit :=
  i <- track_index name ;;
  t <- get_track i ;;
  (when enabled t do (upd_track i (set_enabled false) ;;; invalidateState (bit i))) ;;;
  (match resampler t with Some r => in_world (rs_delete r) | None => ret tt end) ;;;
  upd_track i (set_resampler None) ;;;
  unprepareTrackForDownmix i ;;;
  modify (λ s, set_mTrackNames (clear_bit (mTrackNames s) i) s).

Definition enable (name : Z) : MX unit :=
  i <- track_index name ;;
  t <- get_track i ;;
  when negb (enabled t) do (upd_track i (set_enabled true) ;;; invalidateState (bit i)).

Definition disable (name : Z) : MX unit :=
  i <- track_index name ;;
  t <- get_track i ;;
  when enabled t do (upd_track i (set_enabled false) ;;; invalidateState (bit i)).

(** ** Parameters *)

(** [t.setResampler(value, devSampleRate)]. *)
Definition setResampler (i value devSampleRate : Z) : MX bool :=
  t <- get_track i ;;
  if bool_decide (value ≠ devSampleRate) || bool_decide (resampler t ≠ None) then
    if bool_decide (sampleRate t ≠ value) then
      upd_track i (set_sampleRate value) ;;;
      (when bool_decide (resampler t = None) do
        (let quality :=
           if negb (bool_decide (value = 44100 ∧ devSampleRate = 48000) || bool_decide (value = 48000 ∧ devSampleRate = 44100))
           then LOW_QUALITY else DEFAULT_QUALITY in
         s <- getst ;;
         r <- in_world (rs_create 16 (if bool_decide (downmixerBufferProvider t ≠ None) then MAX_NUM_CHANNELS else channelCount t) devSampleRate quality) ;;
         upd_track i (set_resampler (Some r)) ;;;
         in_world (rs_setLocalTimeFreq r (sLocalTimeFreq s)))) ;;;
      ret true
    else ret false
  else ret false.

(** The cases [VOLUME0], [VOLUME1] and [AUXLEVEL] on the gain they are about:
    the new gain, or [None] if the level is the one it has. *)
Definition set_level (jump : bool) (value F : Z) (r : ramp) : option ramp :=
  if bool_decide (volume r ≠ value) then
    let prev := s32 (Z.shiftl (volume r) 16) in
    Some (if jump then Ramp (s16 value) (s32 (Z.shiftl value 16)) 0
          else
            let d := s32 (s32 (Z.shiftl value 16) - prev) in
            let volInc := Z.quot d (s32 F) in
            Ramp (s16 value) (if bool_decide (volInc = 0) then s32 (Z.shiftl value 16) else prev) volInc)
  else None.

(** The targets and parameters, with the value each takes. *)
Inductive parameter :=
  | CHANNEL_MASK (mask : Z)
  | MAIN_BUFFER (p : option Z)
  | AUX_BUFFER (p : option Z)
  | FORMAT (valueInt : Z)
  | SAMPLE_RATE (valueInt : Z)
  | RESET
  | REMOVE
  (** Targets [RAMP_VOLUME] ([jump] false) and [VOLUME] ([jump] true). *)
  | VOLUME0 (jump : bool) (valueInt : Z)
  | VOLUME1 (jump : bool) (valueInt : Z)
  | AUXLEVEL (jump : bool) (valueInt : Z).

Definition set_gain (i : Z) (get : track_t → ramp) (put : ramp → track_t → track_t) (jump : bool) (value : Z) : MX unit :=
  s <- getst ;;
  t <- get_track i ;;
  match set_level jump value (m_frameCount s) (get t) with
  | Some r => upd_track i (put r) ;;; invalidateState (bit i)
  | None => ret tt
  end.

Definition setParameter (name : Z) (param : parameter) : MX unit :=
  i <- track_index name ;;
  s <- getst ;;
  t <- get_track i ;;
  match param with
  | CHANNEL_MASK mask =>
      when bool_decide (channelMask t ≠ mask) do
        (bug_on (negb (bool_decide (popcount mask ≤ MAX_NUM_CHANNELS_TO_DOWNMIX) && bool_decide (popcount mask ≠ 0))) ;;;
         upd_track i (set_channelMask mask) ;;;
         upd_track i (set_channelCount (popcount mask mod 2 ^ 8)) ;;;
         initTrackDownmix i mask ;;;
         invalidateState (bit i))
  | MAIN_BUFFER p =>
      when bool_decide (mainBuffer t ≠ p) do (upd_track i (set_mainBuffer p) ;;; invalidateState (bit i))
  | AUX_BUFFER p =>
      when bool_decide (auxBuffer t ≠ p) do (upd_track i (set_auxBuffer p) ;;; invalidateState (bit i))
  | FORMAT v => bug_on (negb (bool_decide (v = AUDIO_FORMAT_PCM_16_BIT)))
  | SAMPLE_RATE v =>
      bug_on (negb (bool_decide (v > 0))) ;;;
      changed <- setResampler i (u32 v) (mSampleRate s) ;;
      when changed do invalidateState (bit i)
  | RESET =>
      (match resampler t with Some r => in_world (rs_reset r) | None => ret tt end) ;;;
      invalidateState (bit i)
  | REMOVE =>
      (match resampler t with Some r => in_world (rs_delete r) | None => ret tt end) ;;;
      upd_track i (set_resampler None) ;;;
      upd_track i (set_sampleRate (mSampleRate s)) ;;;
      invalidateState (bit i)
  | VOLUME0 jump v => set_gain i ramp0 set_ramp0 jump v
  | VOLUME1 jump v => set_gain i ramp1 set_ramp1 jump v
  | AUXLEVEL jump v => set_gain i aux_ramp set_aux_ramp jump v
  end.

Definition getUnreleasedFrames (name : Z) : MX Z :=
  if bool_decide (u32 (name - TRACK0) < MAX_NUM_TRACKS) then
    t <- get_track (name - TRACK0) ;;
    s <- getst ;;
    ret (match resampler t with Some r => rs_getUnreleasedFrames (world s) r | None => 0 end)
  else ret 0.

Definition setBufferProvider (name : Z) (p : option Z) : MX unit :=
  i <- track_index name ;;
  t <- get_track i ;;
  match downmixerBufferProvider t with
  | Some d =>
      when bool_decide (mTrackBufferProvider d ≠ p) do
        (upd_track i (set_bufferProvider (Some Wrapped)) ;;;
         upd_track i (set_downmixerBufferProvider (Some (Downmixer p (mDownmixHandle d) (mDownmixConfig d)))))
  | None => upd_track i (set_bufferProvider (option_map Direct p))
  end.

(** The end of a ramp: the next step would reach the level. *)
Definition ramp_reached (r : ramp) : bool :=
  let next := Z.shiftr (s32 (prevVolume r + volumeInc r)) 16 in
  (bool_decide (volumeInc r > 0) && bool_decide (next >= volume r)) ||
  (bool_decide (volumeInc r < 0) && bool_decide (next <= volume r)).
Definition adjust_ramp (r : ramp) : ramp :=
  if ramp_reached r then Ramp (volume r) (s32 (Z.shiftl (volume r) 16)) 0 else r.
Definition adjustVolumeRamp (aux : bool) (t : track_t) : track_t :=
  let t := set_ramp1 (adjust_ramp (ramp1 t)) (set_ramp0 (adjust_ramp (ramp0 t)) t) in
  if aux then set_aux_ramp (adjust_ramp (aux_ramp t)) t else t.

(** ** Mixing a track *)

(** [*p += d] on a buffer of words. *)
Definition add_word (p d : Z) : MX unit :=
  s <- getst ;; v <- deref (words s !! p) ;; modify (set_words (<[p := s32 (v + d)]> (words s))).
(** [*in]. *)
Definition load_i16 (p : Z) : MX Z := s <- getst ;; deref (i16_at (world s) p).
(** The word of a frame at [in]. *)
Definition load_frame (p : Z) : MX Z := l <- load_i16 p ;; r <- load_i16 (p + 2) ;; ret (word_of l r).
Definition load_temp (l : list Z) : MX (Z * Z * list Z) :=
  match l with a :: b :: l => ret (a, b, l) | _ => crash_with CrashOops end.

(** What the bodies of the loops move on: [in], [aux], [temp], and [vl], [vr], [va]. *)
Record cursor := Cursor {
  c_in : Z;
  c_aux : Z;
  c_temp : list Z;
  c_vl : Z;
  c_vr : Z;
  c_va : Z
}.

(** [do { body } while (--n)]: the body takes the two words at [out] and yields what it
    stores there.  A count of zero wraps around, which leaves the array. *)
Fixpoint frames (body : cursor → Z → Z → MX (Z * Z * cursor)) (n : nat) (c : cursor) (out : list Z) : MX (list Z * cursor) :=
  match n with
  | O => ret (out, c)
  | S n =>
      match out with
      | o0 :: o1 :: rest =>
          let* (o0, o1, c) := body c o0 o1 in
          let* (rest, c) := frames body n c rest in
          ret (o0 :: o1 :: rest, c)
      | _ => crash_with CrashOops
      end
  end.
Definition do_frames (body : cursor → Z → Z → MX (Z * Z * cursor)) (n : Z) (c : cursor) (out : list Z) : MX (list Z * cursor) :=
  if bool_decide (n = 0) then crash_with CrashOops else frames body (Z.to_nat n) c out.

(** The products of a step of a ramp, and the additions of its increments. *)
Definition ramp_mul (v x : Z) : Z := s32 (Z.shiftr v 16 * x).
Definition ramp_mul_aux (v x : Z) : Z := s32 (Z.shiftr v 17 * x).
Definition ramp_next (incl incr inca : Z) (in_step aux_step : Z) (temp : list Z) (c : cursor) : cursor :=
  Cursor (c_in c + in_step) (c_aux c + aux_step) temp (s32 (c_vl c + incl)) (s32 (c_vr c + incr)) (s32 (c_va c + inca)).
(** A step without a ramp. *)
Definition next (in_step aux_step : Z) (temp : list Z) (c : cursor) : cursor :=
  Cursor (c_in c + in_step) (c_aux c + aux_step) temp (c_vl c) (c_vr c) (c_va c).

(** [volumeRampStereo]. *)
Definition resampled_ramp_aux (il ir ia : Z) (c : cursor) (o0 o1 : Z) : MX (Z * Z * cursor) :=
  let* (l, r, temp) := load_temp (c_temp c) in
  let l := Z.shiftr l 12 in let r := Z.shiftr r 12 in
  add_word (c_aux c) (ramp_mul_aux (c_va c) (l + r)) ;;;
  ret (s32 (o0 + ramp_mul (c_vl c) l), s32 (o1 + ramp_mul (c_vr c) r), ramp_next il ir ia 0 1 temp c).
Definition resampled_ramp (il ir : Z) (c : cursor) (o0 o1 : Z) : MX (Z * Z * cursor) :=
  let* (l, r, temp) := load_temp (c_temp c) in
  ret (s32 (o0 + ramp_mul (c_vl c) (Z.shiftr l 12)), s32 (o1 + ramp_mul (c_vr c) (Z.shiftr r 12)), ramp_next il ir 0 0 0 temp c).

(** [volumeStereo]. *)
Definition resampled_aux (vl vr va : Z) (c : cursor) (o0 o1 : Z) : MX (Z * Z * cursor) :=
  let* (l, r, temp) := load_temp (c_temp c) in
  let l := s16 (Z.shiftr l 12) in let r := s16 (Z.shiftr r 12) in
  let a := s16 (Z.shiftr (l + r) 1) in
  add_word (c_aux c) (a * va) ;;;
  ret (mulAdd l vl o0, mulAdd r vr o1, next 0 1 temp c).
Definition resampled_const (vl vr : Z) (c : cursor) (o0 o1 : Z) : MX (Z * Z * cursor) :=
  let* (l, r, temp) := load_temp (c_temp c) in
  ret (mulAdd (s16 (Z.shiftr l 12)) vl o0, mulAdd (s16 (Z.shiftr r 12)) vr o1, next 0 0 temp c).

(** [track__16BitsStereo]. *)
Definition stereo_ramp_aux (il ir ia : Z) (c : cursor) (o0 o1 : Z) : MX (Z * Z * cursor) :=
  l <- load_i16 (c_in c) ;; r <- load_i16 (c_in c + 2) ;;
  add_word (c_aux c) (ramp_mul_aux (c_va c) (l + r)) ;;;
  ret (s32 (o0 + ramp_mul (c_vl c) l), s32 (o1 + ramp_mul (c_vr c) r), ramp_next il ir ia 4 1 [] c).
Definition stereo_aux (vrl va : Z) (c : cursor) (o0 o1 : Z) : MX (Z * Z * cursor) :=
  rl <- load_frame (c_in c) ;;
  l <- load_i16 (c_in c) ;; r <- load_i16 (c_in c + 2) ;;
  let a := s16 (Z.shiftr (l + r) 1) in
  add_word (c_aux c) (a * va) ;;;
  ret (mulAddRL true rl vrl o0, mulAddRL false rl vrl o1, next 4 1 [] c).
Definition stereo_ramp (il ir : Z) (c : cursor) (o0 o1 : Z) : MX (Z * Z * cursor) :=
  l <- load_i16 (c_in c) ;; r <- load_i16 (c_in c + 2) ;;
  ret (s32 (o0 + ramp_mul (c_vl c) l), s32 (o1 + ramp_mul (c_vr c) r), ramp_next il ir 0 4 0 [] c).
Definition stereo_const (vrl : Z) (c : cursor) (o0 o1 : Z) : MX (Z * Z * cursor) :=
  rl <- load_frame (c_in c) ;;
  ret (mulAddRL true rl vrl o0, mulAddRL false rl vrl o1, next 4 0 [] c).

(** [track__16BitsMono]. *)
Definition mono_ramp_aux (il ir ia : Z) (c : cursor) (o0 o1 : Z) : MX (Z * Z * cursor) :=
  l <- load_i16 (c_in c) ;;
  add_word (c_aux c) (ramp_mul (c_va c) l) ;;;
  ret (s32 (o0 + ramp_mul (c_vl c) l), s32 (o1 + ramp_mul (c_vr c) l), ramp_next il ir ia 2 1 [] c).
Definition mono_aux (vl vr va : Z) (c : cursor) (o0 o1 : Z) : MX (Z * Z * cursor) :=
  l <- load_i16 (c_in c) ;;
  add_word (c_aux c) (l * va) ;;;
  ret (mulAdd l vl o0, mulAdd l vr o1, next 2 1 [] c).
Definition mono_ramp (il ir : Z) (c : cursor) (o0 o1 : Z) : MX (Z * Z * cursor) :=
  l <- load_i16 (c_in c) ;;
  ret (s32 (o0 + ramp_mul (c_vl c) l), s32 (o1 + ramp_mul (c_vr c) l), ramp_next il ir 0 2 0 [] c).
Definition mono_const (vl vr : Z) (c : cursor) (o0 o1 : Z) : MX (Z * Z * cursor) :=
  l <- load_i16 (c_in c) ;;
  ret (mulAdd l vl o0, mulAdd l vr o1, next 2 0 [] c).

(** The gains change, those of the output or also the one of the auxiliary buffer. *)
Definition ramping (t : track_t) : bool := bool_decide (Z.lor (volumeInc (ramp0 t)) (volumeInc (ramp1 t)) ≠ 0).
Definition ramping_aux (t : track_t) : bool :=
  bool_decide (Z.lor (Z.lor (volumeInc (ramp0 t)) (volumeInc (ramp1 t))) (volumeInc (aux_ramp t)) ≠ 0).

(** The start of a loop, and what its end leaves in the track. *)
Definition start (in_ : Z) (aux : option Z) (temp : list Z) (t : track_t) : cursor :=
  Cursor in_ (default 0 aux) temp (prevVolume (ramp0 t)) (prevVolume (ramp1 t)) (prevVolume (aux_ramp t)).
Definition ramped (aux : bool) (c : cursor) (t : track_t) : track_t :=
  let t := set_ramp1 (set_prevVolume (c_vr c) (ramp1 t)) (set_ramp0 (set_prevVolume (c_vl c) (ramp0 t)) t) in
  adjustVolumeRamp aux (if aux then set_aux_ramp (set_prevVolume (c_va c) (aux_ramp t)) t else t).
Definition ramp_incs (t : track_t) (f : Z → Z → Z → cursor → Z → Z → MX (Z * Z * cursor)) : cursor → Z → Z → MX (Z * Z * cursor) :=
  f (volumeInc (ramp0 t)) (volumeInc (ramp1 t)) (volumeInc (aux_ramp t)).

Definition volumeRampStereo (i : Z) (out : list Z) (n : Z) (temp : list Z) (aux : option Z) : MX (list Z) :=
  t <- get_track i ;;
  let body := match aux with Some _ => ramp_incs t resampled_ramp_aux | None => ramp_incs t (λ il ir _, resampled_ramp il ir) end in
  let* (out, c) := do_frames body n (start 0 aux temp t) out in
  upd_track i (ramped (bool_decide (aux ≠ None)) c) ;;;
  ret out.

Definition volumeStereo (i : Z) (out : list Z) (n : Z) (temp : list Z) (aux : option Z) : MX (list Z) :=
  t <- get_track i ;;
  let vl := volume (ramp0 t) in let vr := volume (ramp1 t) in
  let body := match aux with Some _ => resampled_aux vl vr (volume (aux_ramp t)) | None => resampled_const vl vr end in
  let* (out, _) := do_frames body n (start 0 aux temp t) out in
  ret out.

(** The common part of [track__16BitsStereo] and [track__16BitsMono]: a loop that ramps or
    one that does not. *)
Definition mix_16bits (i : Z) (out : list Z) (n : Z) (aux : option Z)
    (ramp_body const_body : track_t → cursor → Z → Z → MX (Z * Z * cursor)) : MX (list Z) :=
  t <- get_track i ;;
  p <- deref (in_ t) ;;
  if (match aux with Some _ => ramping_aux t | None => ramping t end) then
    let* (out, c) := do_frames (ramp_body t) n (start p aux [] t) out in
    upd_track i (ramped (bool_decide (aux ≠ None)) c) ;;;
    upd_track i (set_in_ (Some (c_in c))) ;;;
    ret out
  else
    let* (out, c) := do_frames (const_body t) n (start p aux [] t) out in
    upd_track i (set_in_ (Some (c_in c))) ;;;
    ret out.

Definition mix_16BitsStereo (i : Z) (out : list Z) (n : Z) (aux : option Z) : MX (list Z) :=
  match aux with
  | Some _ => mix_16bits i out n aux (λ t, ramp_incs t stereo_ramp_aux) (λ t, stereo_aux (volumeRL t) (volume (aux_ramp t)))
  | None => mix_16bits i out n aux (λ t, ramp_incs t (λ il ir _, stereo_ramp il ir)) (λ t, stereo_const (volumeRL t))
  end.
Definition mix_16BitsMono (i : Z) (out : list Z) (n : Z) (aux : option Z) : MX (list Z) :=
  match aux with
  | Some _ => mix_16bits i out n aux (λ t, ramp_incs t mono_ramp_aux) (λ t, mono_aux (volume (ramp0 t)) (volume (ramp1 t)) (volume (aux_ramp t)))
  | None => mix_16bits i out n aux (λ t, ramp_incs t (λ il ir _, mono_ramp il ir)) (λ t, mono_const (volume (ramp0 t)) (volume (ramp1 t)))
  end.

(** [memset(temp, 0, ...)] of [n] frames of [state->resampleTemp]. *)
Definition clear_temp (temp : list Z) (n : Z) : MX (list Z) :=
  if bool_decide (2 * n ≤ Z.of_nat (length temp)) then ret (replicate (Z.to_nat (2 * n)) 0 ++ drop (Z.to_nat (2 * n)) temp)
  else crash_with CrashOops.

(** The call of the resampler, with the provider of the track. *)
Definition resample (i r : Z) (out : list Z) (n : Z) : MX (list Z) :=
  t <- get_track i ;; in_world (rs_resample r out n (provider_get t) (provider_release t)).

(** [t->resampler->setVolume(UNITY_GAIN, UNITY_GAIN)], and the resampling to [state->resampleTemp]. *)
Definition resample_temp (i r n : Z) : MX (list Z) :=
  in_world (rs_setVolume r UNITY_GAIN UNITY_GAIN) ;;;
  s <- getst ;;
  temp <- deref (resampleTemp s) ;;
  temp <- clear_temp temp n ;;
  temp <- resample i r temp n ;;
  modify (set_resampleTemp (Some temp)) ;;;
  ret temp.

Definition mix_genericResample (i : Z) (out : list Z) (n : Z) (aux : option Z) : MX (list Z) :=
  t <- get_track i ;;
  r <- deref (resampler t) ;;
  in_world (rs_setSampleRate r (s32 (sampleRate t))) ;;;
  match aux with
  | Some _ =>
      temp <- resample_temp i r n ;;
      if ramping_aux t then volumeRampStereo i out n temp aux else volumeStereo i out n temp aux
  | None =>
      if ramping t then temp <- resample_temp i r n ;; volumeRampStereo i out n temp aux
      else
        in_world (rs_setVolume r (volume (ramp0 t)) (volume (ramp1 t))) ;;;
        resample i r out n
  end.

(** [t.hook(&t, out, n, state->resampleTemp, aux)]; [out] is the array from the pointer on. *)
Definition call_hook (i : Z) (out : list Z) (n : Z) (aux : option Z) : MX (list Z) :=
  t <- get_track i ;;
  match t_hook t with
  | Some track__genericResample => mix_genericResample i out n aux
  | Some track__nop => ret out
  | Some track__16BitsStereo => mix_16BitsStereo i out n aux
  | Some track__16BitsMono => mix_16BitsMono i out n aux
  | None => crash_with CrashOops
  end.
(** The call with a pointer into the array. *)
Definition call_hook_at (i : Z) (out : list Z) (off n : Z) (aux : option Z) : MX (list Z) :=
  rest <- call_hook i (drop (Z.to_nat off) out) n aux ;; ret (take (Z.to_nat off) out ++ rest).

(** ** Mixing all tracks *)

Definition calculateOutputPTS (t : track_t) (freq basePTS outputFrameIndex : Z) : Z :=
  if bool_decide (basePTS = kInvalidPTS) then kInvalidPTS
  else s64 (basePTS + u64 (s32 outputFrameIndex * freq) / sampleRate t).

(** [t.buffer.frameCount = n; t.bufferProvider->getNextBuffer(&t.buffer, pts)]. *)
Definition acquire (i n pts : Z) : MX unit :=
  t <- get_track i ;;
  let* (_, b) := in_world (provider_get t (Buffer (raw (t_buffer t)) n) pts) in
  upd_track i (set_t_buffer b).
(** [t.bufferProvider->releaseBuffer(&t.buffer)]. *)
Definition release (i : Z) : MX unit :=
  t <- get_track i ;;
  b <- in_world (provider_release t (t_buffer t)) ;;
  upd_track i (set_t_buffer b).
(** The time of the frame that a track's buffer is asked for. *)
Definition output_pts (i pts off : Z) : MX Z :=
  s <- getst ;; t <- get_track i ;; ret (calculateOutputPTS t (sLocalTimeFreq s) pts off).

(** Stores at [p] and behind; [memset(p, 0, n words)]. *)
Fixpoint store_words (p : Z) (l : list Z) : MX unit :=
  match l with
  | [] => ret tt
  | v :: l =>
      s <- getst ;;
      bug <- deref (words s !! p) ;;
      modify (set_words (<[p := v]> (words s))) ;;;
      store_words (p + 1) l
  end.
Definition zeros (n : Z) : list Z := replicate (Z.to_nat n) 0.

(** The tracks of a mask that have the main buffer of its first one: [e1]. *)
Definition same_buffer (e0 : Z) : MX Z :=
  let j := top_bit e0 in
  t1 <- get_track j ;;
  for_each (bits (clear_bit e0 j)) (λ e1 k,
    t2 <- get_track k ;;
    ret (if bool_decide (mainBuffer t2 ≠ mainBuffer t1) then clear_bit e1 k else e1)) e0.

(** [while (e0)] over the groups of tracks with the same main buffer. *)
Fixpoint for_groups (fuel : nat) (body : Z → track_t → Z → MX Z) (e0 : Z) (acc : Z) : MX Z :=
  if bool_decide (e0 = 0) then ret acc
  else match fuel with
    | O => crash_with CrashFuel
    | S fuel =>
        t1 <- get_track (top_bit e0) ;;
        e1 <- same_buffer e0 ;;
        acc <- body acc t1 e1 ;;
        for_groups fuel body (Z.land e0 (Z.lnot e1)) acc
    end.

(** [process__nop]: the frames of a track are asked for and dropped. *)
Fixpoint skip_frames (fuel : nat) (i pts F outFrames : Z) : MX unit :=
  if bool_decide (outFrames = 0) then ret tt
  else match fuel with
    | O => crash_with CrashFuel
    | S fuel =>
        when_pts <- output_pts i pts (F - outFrames) ;;
        acquire i outFrames when_pts ;;;
        t <- get_track i ;;
        match raw (t_buffer t) with
        | None => ret tt
        | Some _ =>
            let outFrames := u32 (outFrames - frameCount (t_buffer t)) in
            release i ;;;
            skip_frames fuel i pts F outFrames
        end
    end.

Definition run_nop (pts : Z) : MX unit :=
  s <- getst ;;
  let F := m_frameCount s in
  for_groups 32 (λ acc t1 e1,
    out <- deref (mainBuffer t1) ;;
    store_words out (zeros F) ;;;
    for_each (bits e1) (λ _ i, skip_frames (S (Z.to_nat F)) i pts F F) tt ;;;
    ret acc) (enabledTracks s) 0 ;;;
  ret tt.

(** [process__genericNoResampling]: the loop [while (outFrames)] that mixes up to a block of
    a track; it yields the block, and whether the track goes on. *)
Fixpoint mix_block (fuel : nat) (i pts F numFrames : Z) (outTemp : list Z) (outFrames : Z) (aux : option Z) : MX (list Z * bool) :=
  if bool_decide (outFrames = 0) then ret (outTemp, true)
  else match fuel with
    | O => crash_with CrashFuel
    | S fuel =>
        t <- get_track i ;;
        let inFrames := if bool_decide (t_frameCount t > outFrames) then outFrames else t_frameCount t in
        let* (outTemp, outFrames, aux) :=
          (if bool_decide (inFrames ≠ 0) then
             outTemp <- call_hook_at i outTemp ((BLOCKSIZE - outFrames) * MAX_NUM_CHANNELS) inFrames aux ;;
             upd_track i (λ t, set_t_frameCount (t_frameCount t - inFrames) t) ;;;
             ret (outTemp, outFrames - inFrames, (λ p, p + inFrames) <$> aux)
           else ret (outTemp, outFrames, aux)) in
        t <- get_track i ;;
        if bool_decide (t_frameCount t = 0) && bool_decide (outFrames ≠ 0) then
          release i ;;;
          outputPTS <- output_pts i pts (numFrames + (BLOCKSIZE - outFrames)) ;;
          acquire i (u32 (F - numFrames - (BLOCKSIZE - outFrames))) outputPTS ;;;
          t <- get_track i ;;
          upd_track i (set_in_ (raw (t_buffer t))) ;;;
          match raw (t_buffer t) with
          | None => ret (outTemp, false)
          | Some _ =>
              upd_track i (set_t_frameCount (u16 (frameCount (t_buffer t)))) ;;;
              mix_block fuel i pts F numFrames outTemp outFrames aux
          end
        else mix_block fuel i pts F numFrames outTemp outFrames aux
    end.
Definition BLOCK_FUEL : nat := 18.

Definition needs_aux (t : track_t) : bool := bool_decide (Z.land (needs t) NEEDS_AUX__MASK = NEEDS_AUX_ENABLED).

(** One turn of [do ... while (numFrames < state->frameCount)]: a block of all tracks of a group. *)
Definition mix_tracks (pts F numFrames : Z) (e1 enabled : Z) : MX (list Z * Z * Z) :=
  for_each (bits e1) (λ '(outTemp, e1, enabled) i,
    t <- get_track i ;;
    aux <- (if needs_aux t then p <- deref (auxBuffer t) ;; ret (Some (p + numFrames)) else ret None) ;;
    let* (outTemp, goes_on) := mix_block BLOCK_FUEL i pts F numFrames outTemp BLOCKSIZE aux in
    ret (if goes_on : bool then (outTemp, e1, enabled) else (outTemp, clear_bit e1 i, clear_bit enabled i)))
    (zeros (BLOCKSIZE * MAX_NUM_CHANNELS), e1, enabled).
Fixpoint mix_blocks (fuel : nat) (pts F numFrames out : Z) (e1 enabled : Z) : MX Z :=
  match fuel with
  | O => crash_with CrashFuel
  | S fuel =>
      let* (outTemp, e1, enabled) := mix_tracks pts F numFrames e1 enabled in
      packed <- deref (ditherAndClamp outTemp (Z.to_nat BLOCKSIZE)) ;;
      store_words out packed ;;;
      let out := out + BLOCKSIZE in
      let numFrames := numFrames + BLOCKSIZE in
      if bool_decide (numFrames < F) then mix_blocks fuel pts F numFrames out e1 enabled else ret enabled
  end.

Definition run_genericNoResampling (pts : Z) : MX unit :=
  s <- getst ;;
  let F := m_frameCount s in
  en <- for_each (bits (enabledTracks s)) (λ en i,
    acquire i F pts ;;;
    t <- get_track i ;;
    upd_track i (λ t, set_in_ (raw (t_buffer t)) (set_t_frameCount (u16 (frameCount (t_buffer t))) t)) ;;;
    ret (if bool_decide (raw (t_buffer t) = None) then clear_bit en i else en)) (enabledTracks s) ;;
  en <- for_groups 32 (λ en t1 e1,
    out <- deref (mainBuffer t1) ;;
    mix_blocks (S (Z.to_nat F)) pts F 0 out e1 en) en en ;;
  for_each (bits en) (λ _ i, release i) tt.

(** [process__genericResampling]: a track that is not resampled. *)
Fixpoint mix_buffers (fuel : nat) (i pts F : Z) (outTemp : list Z) (outFrames : Z) (aux : option Z) : MX (list Z) :=
  if bool_decide (outFrames < F) then
    match fuel with
    | O => crash_with CrashFuel
    | S fuel =>
        outputPTS <- output_pts i pts outFrames ;;
        acquire i (F - outFrames) outputPTS ;;;
        t <- get_track i ;;
        upd_track i (set_in_ (raw (t_buffer t))) ;;;
        match raw (t_buffer t) with
        | None => ret outTemp
        | Some _ =>
            let aux := (λ p, p + outFrames) <$> aux in
            outTemp <- call_hook_at i outTemp (outFrames * MAX_NUM_CHANNELS) (frameCount (t_buffer t)) aux ;;
            release i ;;;
            mix_buffers fuel i pts F outTemp (u32 (outFrames + frameCount (t_buffer t))) aux
        end
    end
  else ret outTemp.

Definition run_genericResampling (pts : Z) : MX unit :=
  s <- getst ;;
  let F := m_frameCount s in
  for_groups 32 (λ acc t1 e1,
    out <- deref (mainBuffer t1) ;;
    s <- getst ;;
    old <- deref (outputTemp s) ;;
    outTemp <- (if bool_decide (2 * F ≤ Z.of_nat (length old)) then ret (zeros (2 * F) ++ drop (Z.to_nat (2 * F)) old) else crash_with CrashOops) ;;
    outTemp <- for_each (bits e1) (λ outTemp i,
      t <- get_track i ;;
      aux <- (if needs_aux t then p <- deref (auxBuffer t) ;; ret (Some p) else ret None) ;;
      if bool_decide (Z.land (needs t) NEEDS_RESAMPLE__MASK = NEEDS_RESAMPLE_ENABLED) then
        r <- deref (resampler t) ;;
        in_world (rs_setPTS r pts) ;;;
        call_hook i outTemp F aux
      else mix_buffers (S (Z.to_nat F)) i pts F outTemp 0 aux) outTemp ;;
    modify (set_outputTemp (Some outTemp)) ;;;
    packed <- deref (ditherAndClamp outTemp (Z.to_nat F)) ;;
    store_words out packed ;;;
    ret acc) (enabledTracks s) 0 ;;;
  ret tt.

(** [process__OneTrack16BitsStereoNoResampling]: one buffer of the track, clamped if the
    volume is above unity. *)
Definition one_word (boosted : bool) (vrl rl : Z) : Z :=
  let l := Z.shiftr (mulRL true rl vrl) 12 in
  let r := Z.shiftr (mulRL false rl vrl) 12 in
  if boosted then pack (clamp16 l) (clamp16 r) else pack l r.
Fixpoint one_words (n : nat) (boosted : bool) (vrl p out : Z) : MX unit :=
  match n with
  | O => ret tt
  | S n =>
      rl <- load_frame p ;;
      store_words out [one_word boosted vrl rl] ;;;
      one_words n boosted vrl (p + 4) (out + 1)
  end.
Definition boosted (t : track_t) : bool :=
  bool_decide (u32 (volume (ramp0 t)) > UNITY_GAIN) || bool_decide (u32 (volume (ramp1 t)) > UNITY_GAIN).

Fixpoint one_track (fuel : nat) (i pts mainBuffer out numFrames : Z) : MX unit :=
  if bool_decide (numFrames = 0) then ret tt
  else match fuel with
    | O => crash_with CrashFuel
    | S fuel =>
        outputPTS <- output_pts i pts (out - mainBuffer) ;;
        acquire i numFrames outputPTS ;;;
        t <- get_track i ;;
        match raw (t_buffer t) with
        | Some p =>
            if bool_decide (Z.land p 3 ≠ 0) then store_words out (zeros numFrames)
            else
              let outFrames := frameCount (t_buffer t) in
              (if bool_decide (outFrames = 0) then crash_with CrashOops
               else one_words (Z.to_nat outFrames) (boosted t) (volumeRL t) p out) ;;;
              release i ;;;
              one_track fuel i pts mainBuffer (out + outFrames) (u32 (numFrames - outFrames))
        | None => store_words out (zeros numFrames)
        end
    end.
Definition run_OneTrack16BitsStereoNoResampling (pts : Z) : MX unit :=
  s <- getst ;;
  let i := top_bit (enabledTracks s) in
  t <- get_track i ;;
  out <- deref (mainBuffer t) ;;
  one_track (S (Z.to_nat (m_frameCount s))) i pts out out (m_frameCount s).

(** *** The choice of the routines *)

(** What a track needs. *)
Definition needs_of (t : track_t) : Z :=
  let n := Z.lor (u32 (NEEDS_CHANNEL_1 + channelCount t - 1)) NEEDS_FORMAT_16 in
  let n := Z.lor n (if bool_decide (resampler t ≠ None) then NEEDS_RESAMPLE_ENABLED else NEEDS_RESAMPLE_DISABLED) in
  let n := if bool_decide (volume (aux_ramp t) ≠ 0) && bool_decide (auxBuffer t ≠ None) then Z.lor n NEEDS_AUX_ENABLED else n in
  if ramping t then n
  else if bool_decide (resampler t = None) && bool_decide (volumeRL t = 0) then Z.lor n NEEDS_MUTE_ENABLED else n.

(** The hook for these needs. *)
Definition hook_of (n : Z) : hook_t :=
  if bool_decide (Z.land n NEEDS_MUTE__MASK = NEEDS_MUTE_ENABLED) then track__nop
  else if bool_decide (Z.land n NEEDS_RESAMPLE__MASK = NEEDS_RESAMPLE_ENABLED) then track__genericResample
  else if bool_decide (Z.land n NEEDS_CHANNEL_COUNT__MASK = NEEDS_CHANNEL_1) then track__16BitsMono
  else track__16BitsStereo.
(** The track can be mixed as 16-bit stereo without resampling. *)
Definition plain_stereo (n : Z) : bool :=
  match hook_of n with
  | track__nop => true
  | track__genericResample | track__16BitsMono => false
  | track__16BitsStereo => negb (bool_decide (Z.land n NEEDS_AUX__MASK = NEEDS_AUX_ENABLED))
  end.
(** [!t.doesResample() && t.volumeRL == 0]. *)
Definition silent (t : track_t) : bool := bool_decide (resampler t = None) && bool_decide (volumeRL t = 0).

(** [countActiveTracks], [all16BitsStereoNoResample], [resampling] and [volumeRamp]. *)
Record survey := Survey { countActive : Z; all16 : bool; resampling : bool; volumeRamp : bool }.

(** The enabled tracks after the changes. *)
Definition recompute_enabled : MX unit :=
  s <- getst ;;
  modify (set_needsChanged 0) ;;;
  let* (en, dis) := for_each (bits (needsChanged s)) (λ '(en, dis) i,
    t <- get_track i ;;
    ret (if enabled t then (Z.lor en (bit i), dis) else (en, Z.lor dis (bit i)))) (0, 0) in
  modify (λ s, set_enabledTracks (Z.lor (Z.land (enabledTracks s) (Z.lnot dis)) en) s).

Definition survey_tracks (en : Z) : MX survey :=
  for_each (bits en) (λ v i,
    t <- get_track i ;;
    let n := needs_of t in
    upd_track i (λ t, set_t_hook (Some (hook_of n)) (set_needs n t)) ;;;
    ret (Survey (countActive v + 1) (all16 v && plain_stereo n)
           (resampling v || bool_decide (hook_of n = track__genericResample)) (volumeRamp v || ramping t)))
    (Survey 0 true false false).

(** [new int32_t[...]] for the two arrays: what the memory holds. *)
Definition select_hook (v : survey) (raw_array : list Z) : MX unit :=
  modify (set_hook process__nop) ;;;
  when negb (bool_decide (countActive v = 0)) do
    (if resampling v then
       modify (λ s, set_hook process__genericResampling
         (set_outputTemp (Some (default (take (Z.to_nat (2 * m_frameCount s)) raw_array) (outputTemp s)))
         (set_resampleTemp (Some (default (take (Z.to_nat (2 * m_frameCount s)) raw_array) (resampleTemp s))) s)))
     else
       modify (λ s, set_hook (if all16 v && negb (volumeRamp v) && bool_decide (countActive v = 1)
                              then process__OneTrack16BitsStereoNoResampling else process__genericNoResampling)
         (set_outputTemp None (set_resampleTemp None s)))).

(** The calls [state->hook(state, pts)] of a routine that mixes. *)
Definition run_process (h : process_t) (pts : Z) : MX unit :=
  match h with
  | process__nop => run_nop pts
  | process__genericNoResampling => run_genericNoResampling pts
  | process__genericResampling => run_genericResampling pts
  | process__OneTrack16BitsStereoNoResampling => run_OneTrack16BitsStereoNoResampling pts
  | process__validate => crash_with CrashFuel
  end.

(** After the mixing: tracks with no volume are skipped from now on. *)
Definition mute_tracks (en : Z) : MX bool :=
  for_each (bits en) (λ allMuted i,
    t <- get_track i ;;
    if silent t then
      upd_track i (λ t, set_t_hook (Some track__nop) (set_needs (Z.lor (needs t) NEEDS_MUTE_ENABLED) t)) ;;;
      ret allMuted
    else ret false) true.

Definition run_validate (raw_array : list Z) (pts : Z) : MX unit :=
  recompute_enabled ;;;
  s <- getst ;;
  v <- survey_tracks (enabledTracks s) ;;
  select_hook v raw_array ;;;
  s <- getst ;;
  run_process (hook s) pts ;;;
  when negb (bool_decide (countActive v = 0)) do
    (s <- getst ;;
     allMuted <- mute_tracks (enabledTracks s) ;;
     if allMuted then modify (set_hook process__nop)
     else when all16 v && bool_decide (countActive v = 1) do modify (set_hook process__OneTrack16BitsStereoNoResampling)).

(** [process(pts)]. *)
Definition process (raw_array : list Z) (pts : Z) : MX unit :=
  s <- getst ;;
  match hook s with
  | process__validate => run_validate raw_array pts
  | h => run_process h pts
  end.
End mixer.
Arguments mixer W : clear implicits.
