(* ===== verification/AudioMixerRules.v ===== *)
(** * Rules for the mixer

    Masks as sets of tracks, loops over them, and the accesses to tracks and to
    buffers of words. *)

From Stdlib Require Import ZArith Lia.
From stdpp Require Import base tactics numbers option list gmap.
From S2P Require Import Prelude Words AudioPrimitives Nbaio NbaioProviders AudioMixer.

(** ** Masks *)

Definition is_mask (e : Z) : Prop := 0 ≤ e < 2 ^ 32.

Lemma bit_eq i : 0 ≤ i → bit i = 2 ^ i.
Proof. intros. unfold bit. by rewrite Z.shiftl_1_l. Qed.
Lemma testbit_bit i j : 0 ≤ i → 0 ≤ j → Z.testbit (bit i) j = bool_decide (i = j).
Proof. intros. rewrite bit_eq by done. rewrite Z.pow2_bits_eqb by done. case_bool_decide; [by apply Z.eqb_eq|by apply Z.eqb_neq]. Qed.
Lemma testbit_clear e i j : 0 ≤ i → 0 ≤ j → Z.testbit (clear_bit e i) j = Z.testbit e j && bool_decide (i ≠ j).
Proof.
  intros. unfold clear_bit. rewrite Z.land_spec, Z.lnot_spec, testbit_bit by done.
  f_equal. by repeat case_bool_decide.
Qed.
Lemma mask_below e i : is_mask e → 32 ≤ i → Z.testbit e i = false.
Proof.
  intros [H0 H1] Hi. destruct (decide (e = 0)) as [->|]; [by apply Z.bits_0|].
  apply Z.bits_above_log2; [done|]. assert (Z.log2 e < 32) by (apply Z.log2_lt_pow2; lia). lia.
Qed.
Lemma mask_intro e : 0 ≤ e → (∀ i, 32 ≤ i → Z.testbit e i = false) → is_mask e.
Proof.
  intros H0 Hb. split; [done|]. destruct (decide (e = 0)) as [->|]; [lia|].
  apply Z.log2_lt_pow2; [lia|]. destruct (Z.lt_ge_cases (Z.log2 e) 32) as [|Hl]; [done|].
  pose proof (Z.bit_log2 e ltac:(lia)). rewrite Hb in *; done.
Qed.
Lemma mask_clear e i : 0 ≤ i → is_mask e → is_mask (clear_bit e i).
Proof.
  intros Hi He. apply mask_intro.
  - unfold clear_bit. apply Z.land_nonneg. left. apply He.
  - intros j Hj. rewrite testbit_clear, mask_below by (done || lia). done.
Qed.
Lemma mask_land e e' : is_mask e → is_mask (Z.land e e').
Proof.
  intros He. apply mask_intro; [apply Z.land_nonneg; left; apply He|].
  intros j Hj. by rewrite Z.land_spec, (mask_below e).
Qed.
Lemma mask_lor e e' : is_mask e → is_mask e' → is_mask (Z.lor e e').
Proof.
  intros He He'. apply mask_intro; [apply Z.lor_nonneg; split; [apply He|apply He']|].
  intros j Hj. by rewrite Z.lor_spec, !mask_below.
Qed.
Lemma mask_bit i : 0 ≤ i < 32 → is_mask (bit i).
Proof. intros. rewrite bit_eq by lia. split; [lia|]. apply Z.pow_lt_mono_r; lia. Qed.
Lemma mask_zero : is_mask 0.
Proof. done. Qed.
Lemma mask_eq e e' : is_mask e → is_mask e' → (∀ i, 0 ≤ i < 32 → Z.testbit e i = Z.testbit e' i) → e = e'.
Proof.
  intros He He' Hb. apply Z.bits_inj'. intros i Hi. destruct (decide (i < 32)); [apply Hb; lia|].
  by rewrite !mask_below by (done || lia).
Qed.

Lemma filter_ext_in {A} (P Q : A → Prop) `{∀ x, Decision (P x), ∀ x, Decision (Q x)} (l : list A) :
  (∀ x, x ∈ l → P x ↔ Q x) → filter P l = filter Q l.
Proof.
  induction l as [|x l IH]; intros HPQ; [done|]. rewrite !filter_cons, IH by (intros; apply HPQ; by right).
  pose proof (HPQ x ltac:(by left)). repeat case_decide; tauto.
Qed.

Lemma filter_all_in {A} (P : A → Prop) `{∀ x, Decision (P x)} (l : list A) : (∀ x, x ∈ l → P x) → filter P l = l.
Proof.
  induction l as [|x l IH]; intros HP; [done|]. rewrite filter_cons, decide_True by (apply HP; by left).
  f_equal. apply IH. intros; apply HP; by right.
Qed.

(** The bits of a mask, from the highest. *)
Definition below (n : nat) : list Z := reverse (seqZ 0 (Z.of_nat n)).
Lemma below_S n : below (S n) = Z.of_nat n :: below n.
Proof. unfold below. rewrite Nat2Z.inj_succ, <-Z.add_1_r, seqZ_app, reverse_app by lia. done. Qed.
Lemma elem_of_below i n : i ∈ below n ↔ 0 ≤ i < Z.of_nat n.
Proof. unfold below. rewrite elem_of_reverse, elem_of_seqZ. lia. Qed.
Lemma NoDup_below n : NoDup (below n).
Proof. unfold below. by rewrite reverse_Permutation; apply NoDup_seqZ. Qed.

Lemma bits_of_filter n m e : (m ≤ n)%nat → 0 ≤ e → (∀ i, Z.of_nat m ≤ i → Z.testbit e i = false) →
  bits_of n e = filter (λ i, Z.testbit e i = true) (below m).
Proof.
  revert m e. induction n as [|n IH]; intros m e; [by destruct m; [|lia]|].
  induction m as [|m IHm]; intros Hm He Hb.
  { cbn [bits_of]. assert (e = 0) as -> by (apply Z.bits_inj'; intros; rewrite Z.bits_0; apply Hb; lia). done. }
  rewrite below_S, filter_cons. case_decide as Hn.
  - assert (e ≠ 0) by (intros ->; by rewrite Z.bits_0 in Hn). cbn [bits_of]. rewrite bool_decide_false by done.
    assert (0 ≤ top_bit e) as Ht0 by apply Z.log2_nonneg.
    assert (Z.testbit e (top_bit e) = true) as Ht by (apply Z.bit_log2; lia).
    assert (top_bit e = Z.of_nat m) as ->.
    { destruct (Z.lt_trichotomy (top_bit e) (Z.of_nat m)) as [Hl|[|Hl]]; [|done|].
      - unfold top_bit in *. rewrite Z.bits_above_log2 in Hn by lia. done.
      - rewrite Hb in Ht by lia. done. }
    f_equal. rewrite (IH m); [|lia|by apply Z.land_nonneg; left|].
    + apply filter_ext_in. intros i Hi%elem_of_below. rewrite testbit_clear by lia.
      rewrite bool_decide_true by lia. by rewrite andb_true_r.
    + intros i Hi. rewrite testbit_clear by lia. destruct (decide (i = Z.of_nat m)) as [->|].
      * rewrite (bool_decide_false (_ ≠ _)) by tauto. apply andb_false_r.
      * rewrite Hb by lia. done.
  - apply IHm; [lia|done|]. intros i Hi. destruct (decide (i = Z.of_nat m)) as [->|]; [by destruct (Z.testbit e _)|].
    apply Hb. lia.
Qed.

Lemma bits_filter e : is_mask e → bits e = filter (λ i, Z.testbit e i = true) (below 32).
Proof. intros He. apply bits_of_filter; [done|apply He|]. intros. by apply mask_below. Qed.
Lemma elem_of_bits e i : is_mask e → i ∈ bits e ↔ 0 ≤ i < 32 ∧ Z.testbit e i = true.
Proof. intros. rewrite bits_filter, list_elem_of_filter, elem_of_below by done. tauto. Qed.
Lemma NoDup_bits e : is_mask e → NoDup (bits e).
Proof. intros. rewrite bits_filter by done. apply NoDup_filter, NoDup_below. Qed.
Lemma bits_ext e (P : Z → Prop) `{∀ i, Decision (P i)} e' : is_mask e → is_mask e' →
  (∀ i, 0 ≤ i < 32 → Z.testbit e' i = true ↔ Z.testbit e i = true ∧ P i) → bits e' = filter P (bits e).
Proof.
  intros He He' Hb. rewrite !bits_filter by done. rewrite list_filter_filter.
  apply filter_ext_in. intros i Hi%elem_of_below. rewrite Hb by lia. tauto.
Qed.
Lemma bits_zero : bits 0 = [].
Proof. done. Qed.
Lemma bits_nil e : is_mask e → bits e = [] → e = 0.
Proof.
  intros He Hn. apply mask_eq; [done..|]. intros i Hi. rewrite Z.bits_0.
  destruct (Z.testbit e i) eqn:E; [|done]. assert (i ∈ bits e) as Hi' by (by apply elem_of_bits).
  rewrite Hn in Hi'. by apply elem_of_nil in Hi'.
Qed.
Lemma top_in e : is_mask e → e ≠ 0 → top_bit e ∈ bits e.
Proof.
  intros He Hne. apply elem_of_bits; [done|]. assert (Z.testbit e (top_bit e) = true) as Ht by (apply Z.bit_log2; destruct He; lia).
  split; [|done]. split; [apply Z.log2_nonneg|]. destruct (Z.lt_ge_cases (top_bit e) 32); [done|]. by rewrite mask_below in Ht.
Qed.

(** ** Loops *)

Section rules.
Context {W : Type} `{!MixerEnv W}.
Implicit Types s : mixer W.

Lemma wp_for_each {A} (I : list Z → A → mixer W → Prop) l (body : A → Z → M (mixer W) A) a s :
  I [] a s →
  (∀ l1 i l2 a s, l = l1 ++ i :: l2 → I l1 a s → wp (body a i) (I (l1 ++ [i])) s) →
  wp (for_each l body a) (I l) s.
Proof.
  intros H0 Hb. enough (∀ l1 l2 a s, l = l1 ++ l2 → I l1 a s → wp (for_each l2 body a) (I l) s) as Hx by by apply (Hx []).
  intros l1 l2. revert l1. induction l2 as [|i l2 IH]; intros l1 a' s' Hl HI; cbn [for_each].
  - rewrite app_nil_r in Hl. subst. by apply wp_ret.
  - apply wp_bind. eapply wp_mono; [by eapply Hb|]. intros a1 s1 H1. apply (IH (l1 ++ [i])); [|done].
    by rewrite <-app_assoc.
Qed.

(** ** Tracks *)

Definition track (s : mixer W) (i : Z) : option track_t := if bool_decide (0 ≤ i) then tracks s !! Z.to_nat i else None.

Lemma get_track_eq s i t : track s i = Some t → get_track i s = Ret t s.
Proof. unfold track, get_track. case_bool_decide; [|done]. intros Ht. by rewrite bind_getst, Ht. Qed.
Lemma upd_track_eq s i f t : track s i = Some t →
  upd_track i f s = Ret tt (set_tracks (<[Z.to_nat i := f t]> (tracks s)) s).
Proof.
  intros Ht. unfold upd_track. rewrite (bind_of _ (get_track_eq _ _ _ Ht)). unfold modify. do 2 f_equal.
  unfold track in Ht. case_bool_decide; [|done]. apply list_eq. intros j.
  destruct (decide (j = Z.to_nat i)) as [->|].
  - rewrite list_lookup_alter_eq, Ht, list_lookup_insert_eq; [done|]. by eapply lookup_lt_Some.
  - by rewrite list_lookup_alter_ne, list_lookup_insert_ne by done.
Qed.
Lemma wp_get_track s i t (Q : track_t → mixer W → Prop) : track s i = Some t → Q t s → wp (get_track i) Q s.
Proof. intros Ht. apply wp_det. by apply get_track_eq. Qed.

(** What the routines that mix change: tracks, words, and what is behind the interfaces. *)
Definition with_ (ts : list track_t) (ws : gmap Z Z) (w : W) (s : mixer W) : mixer W :=
  set_tracks ts (set_words ws (set_world w s)).
Definition put_track (i : Z) (t : track_t) (s : mixer W) : mixer W := set_tracks (<[Z.to_nat i := t]> (tracks s)) s.

Lemma track_put s i t t' : track s i = Some t → track (put_track i t' s) i = Some t'.
Proof.
  unfold track. case_bool_decide; [|done]. intros Hl%lookup_lt_Some. by apply list_lookup_insert_eq.
Qed.
Lemma track_put_ne s i j t' : 0 ≤ i → i ≠ j → track (put_track i t' s) j = track s j.
Proof. intros. unfold track. case_bool_decide; [|done]. apply list_lookup_insert_ne. lia. Qed.
End rules.
