(* ===== verification/AudioMixerHooks.v ===== *)
(** * Mixing one track

    What the loops of [track__16BitsStereo] and [track__16BitsMono] do to the frames
    of the output and to the auxiliary buffer, with constant gains and in a ramp, and
    how a ramp goes from call to call. *)

From Stdlib Require Import ZArith Lia.
From stdpp Require Import base tactics numbers option list gmap.
From S2P Require Import Prelude Words AudioPrimitives Nbaio NbaioProviders AudioMixer AudioMixerRules.

(** ** Frames *)

(** The frame of a list of words. *)
Definition frame_of (out : list Z) (j : nat) : option (Z * Z) :=
  l ← out !! (2 * j)%nat; r ← out !! S (2 * j)%nat; Some (l, r).

Lemma frame_of_S a b out j : frame_of (a :: b :: out) (S j) = frame_of out j.
Proof. unfold frame_of. by replace (2 * S j)%nat with (S (S (2 * j))) by lia. Qed.
Lemma frame_of_some out j : (2 * j + 1 < length out)%nat → ∃ f, frame_of out j = Some f.
Proof.
  intros Hj. unfold frame_of.
  destruct (lookup_lt_is_Some_2 out (2 * j)) as [a ->]; [lia|]. destruct (lookup_lt_is_Some_2 out (S (2 * j))) as [b ->]; [lia|]. eauto.
Qed.
Lemma frame_of_app_l a b j : (2 * j + 1 < length a)%nat → frame_of (a ++ b) j = frame_of a j.
Proof. intros. unfold frame_of. by rewrite !lookup_app_l by lia. Qed.
Lemma frame_of_app_r a b k j : length a = (2 * k)%nat → frame_of (a ++ b) (k + j) = frame_of b j.
Proof.
  intros Ha. unfold frame_of. rewrite !lookup_app_r by lia.
  by replace (2 * (k + j) - length a)%nat with (2 * j)%nat by lia; replace (S (2 * (k + j)) - length a)%nat with (S (2 * j)) by lia.
Qed.
Lemma frame_of_drop out k j : frame_of (drop (2 * k) out) j = frame_of out (k + j).
Proof. unfold frame_of. rewrite !lookup_drop. by replace (2 * k + 2 * j)%nat with (2 * (k + j))%nat by lia; replace (2 * k + S (2 * j))%nat with (S (2 * (k + j))) by lia. Qed.
Lemma ditherAndClamp_frames sums c : (2 * c ≤ length sums)%nat →
  ∃ out, ditherAndClamp sums c = Some out ∧ length out = c ∧
    ∀ j f, (j < c)%nat → frame_of sums j = Some f →
      out !! j = Some (pack (clamp16 (Z.shiftr f.1 12)) (clamp16 (Z.shiftr f.2 12))).
Proof.
  revert sums. induction c as [|c IH]; intros sums Hl; [exists []; split_and!; [done..|lia]|].
  destruct sums as [|l [|r sums]]; [cbn in Hl; lia..|].
  destruct (IH sums) as (out & E & Hlen & Hout); [cbn in Hl; lia|].
  eexists. split; [cbn; by rewrite E|]. cbn. split; [by rewrite Hlen|].
  intros [|j] f Hj Hf; [by injection Hf as <-|]. rewrite frame_of_S in Hf. apply Hout; [lia|done].
Qed.

Section hooks.
Context {W : Type} `{!MixerEnv W}.
Implicit Types s : mixer W.

(** The frame a provider's memory holds: of two samples, or one sample for both sides. *)
Definition frame_at (w : W) (width a : Z) : option (Z * Z) :=
  if bool_decide (width = 4) then l ← i16_at w a; r ← i16_at w (a + 2); Some (l, r)
  else x ← i16_at w a; Some (x, x).
Definition frame_ok (f : Z * Z) : Prop := is_s16 f.1 ∧ is_s16 f.2.
Definition lends (w : W) (width a : Z) (fs : list (Z * Z)) : Prop :=
  ∀ k f, fs !! k = Some f → frame_at w width (a + width * Z.of_nat k) = Some f.

Lemma lends_cons w width a f fs : lends w width a (f :: fs) → frame_at w width a = Some f ∧ lends w width (a + width) fs.
Proof.
  intros Hl. split; [specialize (Hl 0%nat f eq_refl); by replace (a + width * Z.of_nat 0) with a in Hl by lia|].
  intros k g Hk. specialize (Hl (S k) g Hk). by replace (a + width * Z.of_nat (S k)) with (a + width + width * Z.of_nat k) in Hl by lia.
Qed.
Lemma lends_drop w width a fs n : lends w width a fs → lends w width (a + width * Z.of_nat n) (drop n fs).
Proof. intros Hl k f Hk. rewrite lookup_drop in Hk. rewrite <-(Hl _ _ Hk). f_equal. lia. Qed.
Lemma lends_take w width a fs n : lends w width a fs → lends w width a (take n fs).
Proof. intros Hl k f Hk. apply lookup_take_Some in Hk as [Hk _]. by apply Hl. Qed.

(** ** The loops *)

(** What the body of a loop adds to the two words and to the auxiliary one, and how it
    moves on. *)
Record loop := Loop {
  add_l : cursor → Z * Z → Z;
  add_r : cursor → Z * Z → Z;
  add_a : option (cursor → Z * Z → Z);
  move : cursor → cursor
}.

Definition touch_aux (L : loop) (c : cursor) (f : Z * Z) (ws : gmap Z Z) : gmap Z Z :=
  match add_a L with Some a => alter (λ v, s32 (v + a c f)) (c_aux c) ws | None => ws end.

Fixpoint loop_out (L : loop) (c : cursor) (fs : list (Z * Z)) (out : list Z) : list Z :=
  match fs, out with
  | f :: fs, o0 :: o1 :: out => s32 (o0 + add_l L c f) :: s32 (o1 + add_r L c f) :: loop_out L (move L c) fs out
  | _, _ => out
  end.
Fixpoint loop_words (L : loop) (c : cursor) (fs : list (Z * Z)) (ws : gmap Z Z) : gmap Z Z :=
  match fs with
  | [] => ws
  | f :: fs => loop_words L (move L c) fs (touch_aux L c f ws)
  end.
Definition moved (L : loop) (n : nat) (c : cursor) : cursor := Nat.iter n (move L) c.
Lemma moved_S L n c : moved L (S n) c = moved L n (move L c).
Proof. unfold moved. by rewrite Nat.iter_succ_r. Qed.

(** The body does what [L] says, on frames that are lent. *)
Definition body_ok (width : Z) (L : loop) (body : cursor → Z → Z → M (mixer W) (Z * Z * cursor)) : Prop :=
  ∀ c o0 o1 s f, frame_at (world s) width (c_in c) = Some f → frame_ok f →
    (is_Some (add_a L) → is_Some (words s !! c_aux c)) →
    body c o0 o1 s = Ret (s32 (o0 + add_l L c f), s32 (o1 + add_r L c f), move L c) (set_words (touch_aux L c f (words s)) s).
Definition loop_ok (width : Z) (L : loop) : Prop :=
  (∀ c, c_in (move L c) = c_in c + width) ∧ (∀ c, is_Some (add_a L) → c_aux (move L c) = c_aux c + 1).

Lemma set_words_id s : set_words (words s) s = s.
Proof. by destruct s. Qed.

Lemma frames_eq width L body fs c out s : loop_ok width L → body_ok width L body →
  lends (world s) width (c_in c) fs → Forall frame_ok fs → (2 * length fs ≤ length out)%nat →
  (is_Some (add_a L) → ∀ k, (k < length fs)%nat → is_Some (words s !! (c_aux c + Z.of_nat k))) →
  frames body (length fs) c out s = Ret (loop_out L c fs out, moved L (length fs) c) (set_words (loop_words L c fs (words s)) s).
Proof.
  intros [Hin Haux] Hb. revert c out s. induction fs as [|f fs IH]; intros c out s Hl Hfs Ho Ha.
  { cbn [frames loop_out loop_words length]. by rewrite set_words_id; destruct out as [|? [|? ?]]. }
  destruct out as [|o0 [|o1 out]]; [cbn in Ho; lia..|].
  apply lends_cons in Hl as [Hf Hl]. apply Forall_cons in Hfs as [Hf' Hfs].
  cbn [frames length]. rewrite (bind_of _ (Hb c o0 o1 s f Hf Hf' (λ Hs, ltac:(rewrite <-(Z.add_0_r (c_aux c)); apply (Ha Hs 0%nat); cbn; lia)))).
  cbv beta iota. erewrite bind_of; [|apply IH].
  - cbv beta iota. rewrite moved_S. cbn [loop_out loop_words]. unfold ret. by destruct s.
  - rewrite Hin. by destruct s.
  - done.
  - cbn in Ho. lia.
  - intros Hs k Hk. rewrite Haux by done. specialize (Ha Hs (S k) ltac:(cbn; lia)).
    replace (c_aux c + 1 + Z.of_nat k) with (c_aux c + Z.of_nat (S k)) by lia.
    unfold touch_aux. destruct s; cbn in *. destruct (add_a L); [|done].
    destruct (decide (c_aux c = c_aux c + Z.of_nat (S k))); [lia|]. by rewrite lookup_alter_ne.
Qed.

Lemma loop_out_length L c fs out : length (loop_out L c fs out) = length out.
Proof. revert c out. induction fs as [|f fs IH]; intros c out; [by destruct out|]. destruct out as [|? [|? ?]]; cbn; auto. Qed.
Lemma loop_out_frame L c fs out j : frame_of (loop_out L c fs out) j =
  match fs !! j with
  | Some f => (λ o, (s32 (o.1 + add_l L (moved L j c) f), s32 (o.2 + add_r L (moved L j c) f))) <$> frame_of out j
  | None => frame_of out j
  end.
Proof.
  revert c out j. induction fs as [|f fs IH]; intros c out j; [by destruct out as [|? [|? ?]]|].
  destruct out as [|o0 [|o1 out]]; cbn [loop_out].
  - unfold frame_of. by destruct ((f :: fs) !! j).
  - assert (frame_of [o0] j = None) as -> by (destruct j as [|j]; [done|]; unfold frame_of; by replace (2 * S j)%nat with (S (S (2 * j))) by lia).
    by destruct ((f :: fs) !! j).
  - destruct j as [|j]; [done|]. rewrite !frame_of_S, IH, moved_S. done.
Qed.

(** The auxiliary words that a loop adds to. *)
Lemma loop_words_none L c fs ws : add_a L = None → loop_words L c fs ws = ws.
Proof. intros Ha. revert c ws. induction fs as [|f fs IH]; intros c ws; [done|]. cbn. rewrite IH. unfold touch_aux. by rewrite Ha. Qed.
Lemma loop_words_lookup L a c fs ws p : add_a L = Some a → (∀ c, c_aux (move L c) = c_aux c + 1) →
  loop_words L c fs ws !! p =
  match (if bool_decide (c_aux c ≤ p) then fs !! Z.to_nat (p - c_aux c) else None) with
  | Some f => (λ v, s32 (v + a (moved L (Z.to_nat (p - c_aux c)) c) f)) <$> ws !! p
  | None => ws !! p
  end.
Proof.
  intros Ha Hm. revert c ws. induction fs as [|f fs IH]; intros c ws; cbn [loop_words].
  { by destruct (bool_decide _). }
  rewrite IH, Hm. unfold touch_aux. rewrite Ha. destruct (decide (p = c_aux c)) as [->|Hp].
  - rewrite bool_decide_false by lia. rewrite bool_decide_true by lia. rewrite Z.sub_diag. cbn.
    by rewrite lookup_alter_eq.
  - rewrite lookup_alter_ne by done. destruct (decide (c_aux c ≤ p)).
    + rewrite !bool_decide_true by lia. replace (Z.to_nat (p - c_aux c)) with (S (Z.to_nat (p - (c_aux c + 1)))) by lia.
      rewrite moved_S. done.
    + by rewrite !bool_decide_false by lia.
Qed.
Lemma moved_in L width n c : (∀ c, c_in (move L c) = c_in c + width) → c_in (moved L n c) = c_in c + width * Z.of_nat n.
Proof. intros Hm. revert c. induction n as [|n IH]; intros c; [cbn; lia|]. rewrite moved_S, IH, Hm. lia. Qed.

(** ** The bodies *)

Definition aux_mean (f : Z * Z) : Z := s16 (Z.shiftr (f.1 + f.2) 1).

(** Constant gains. *)
Definition const_loop (width vl vr : Z) (va : option Z) : loop :=
  Loop (λ _ f, f.1 * vl) (λ _ f, f.2 * vr) ((λ va _ f, aux_mean f * va) <$> va)
    (next width (match va with Some _ => 1 | None => 0 end) []).
(** Ramps. *)
Definition ramp_loop (width il ir : Z) : loop :=
  Loop (λ c f, ramp_mul (c_vl c) f.1) (λ c f, ramp_mul (c_vr c) f.2) None (ramp_next il ir 0 width 0 []).

Lemma load_frame_eq s p l r : i16_at (world s) p = Some l → i16_at (world s) (p + 2) = Some r →
  load_i16 p s = Ret l s ∧ load_i16 (p + 2) s = Ret r s ∧ load_frame p s = Ret (word_of l r) s.
Proof.
  intros Hl Hr.
  assert (load_i16 p s = Ret l s) as E1 by (unfold load_i16; by rewrite bind_getst, Hl).
  assert (load_i16 (p + 2) s = Ret r s) as E2 by (unfold load_i16; by rewrite bind_getst, Hr).
  unfold load_frame. by rewrite (bind_of _ E1), (bind_of _ E2).
Qed.
Lemma add_word_eq s p d v : words s !! p = Some v → add_word p d s = Ret tt (set_words (alter (λ v, s32 (v + d)) p (words s)) s).
Proof.
  intros Hv. unfold add_word. rewrite bind_getst, Hv, bind_deref. unfold modify. do 2 f_equal.
  apply map_eq. intros q. destruct (decide (q = p)) as [->|].
  - by rewrite lookup_insert_eq, lookup_alter_eq, Hv.
  - by rewrite lookup_insert_ne, lookup_alter_ne.
Qed.
Lemma frame_at_stereo (w : W) a f : frame_at w 4 a = Some f → i16_at w a = Some f.1 ∧ i16_at w (a + 2) = Some f.2.
Proof. unfold frame_at. cbn. destruct (i16_at w a), (i16_at w (a + 2)); try done. cbn. by intros [= <-]. Qed.
Lemma frame_at_mono (w : W) a f : frame_at w 2 a = Some f → i16_at w a = Some f.1 ∧ f.2 = f.1.
Proof. unfold frame_at. cbn. destruct (i16_at w a); try done. cbn. by intros [= <-]. Qed.

Lemma stereo_const_ok vl vr : is_s16 vl → is_s16 vr → body_ok 4 (const_loop 4 vl vr None) (stereo_const (word_of vl vr)).
Proof.
  intros Hvl Hvr c o0 o1 s f [Hl Hr]%frame_at_stereo [H1 H2] _. unfold stereo_const.
  destruct (load_frame_eq _ _ _ _ Hl Hr) as (_ & _ & E). rewrite (bind_of _ E). unfold ret.
  rewrite !mulAddRL_word by done. cbn. by rewrite set_words_id.
Qed.
Lemma stereo_aux_ok vl vr va : is_s16 vl → is_s16 vr → body_ok 4 (const_loop 4 vl vr (Some va)) (stereo_aux (word_of vl vr) va).
Proof.
  intros Hvl Hvr c o0 o1 s f [Hl Hr]%frame_at_stereo [H1 H2] Ha. unfold stereo_aux.
  destruct (load_frame_eq _ _ _ _ Hl Hr) as (E1 & E2 & E3). rewrite (bind_of _ E3), (bind_of _ E1), (bind_of _ E2).
  destruct Ha as [v Hv]; [done|]. cbv zeta. rewrite (bind_of _ (add_word_eq _ _ _ _ Hv)). unfold ret.
  rewrite !mulAddRL_word by done. done.
Qed.
Lemma aux_mean_mono f : f.2 = f.1 → frame_ok f → aux_mean f = f.1.
Proof.
  intros E [H1 _]. unfold aux_mean. rewrite E, Z.shiftr_div_pow2 by lia.
  replace ((f.1 + f.1) / 2 ^ 1) with f.1 by (change (2 ^ 1) with 2; Z.to_euclidean_division_equations; lia). by apply s16_small.
Qed.
Lemma load_i16_eq s p l : i16_at (world s) p = Some l → load_i16 p s = Ret l s.
Proof. intros Hl. unfold load_i16. by rewrite bind_getst, Hl. Qed.
Lemma mono_const_ok vl vr : body_ok 2 (const_loop 2 vl vr None) (mono_const vl vr).
Proof.
  intros c o0 o1 s f [Hl Hr]%frame_at_mono Hf _. unfold mono_const. rewrite (bind_of _ (load_i16_eq _ _ _ Hl)).
  unfold ret, mulAdd. cbn. by rewrite Hr, set_words_id.
Qed.
Lemma mono_aux_ok vl vr va : body_ok 2 (const_loop 2 vl vr (Some va)) (mono_aux vl vr va).
Proof.
  intros c o0 o1 s f [Hl Hr]%frame_at_mono Hf Ha. unfold mono_aux. rewrite (bind_of _ (load_i16_eq _ _ _ Hl)).
  destruct Ha as [v Hv]; [done|]. rewrite (bind_of _ (add_word_eq _ _ _ _ Hv)). unfold ret, mulAdd, touch_aux. cbn [add_l add_r add_a const_loop fmap option_fmap option_map].
  by rewrite aux_mean_mono, Hr.
Qed.
Lemma stereo_ramp_ok il ir : body_ok 4 (ramp_loop 4 il ir) (stereo_ramp il ir).
Proof.
  intros c o0 o1 s f [Hl Hr]%frame_at_stereo _ _. unfold stereo_ramp.
  destruct (load_frame_eq _ _ _ _ Hl Hr) as (E1 & E2 & _). rewrite (bind_of _ E1), (bind_of _ E2). unfold ret. cbn.
  by rewrite set_words_id.
Qed.
Lemma mono_ramp_ok il ir : body_ok 2 (ramp_loop 2 il ir) (mono_ramp il ir).
Proof.
  intros c o0 o1 s f [Hl Hr]%frame_at_mono _ _. unfold mono_ramp. rewrite (bind_of _ (load_i16_eq _ _ _ Hl)). unfold ret. cbn.
  by rewrite Hr, set_words_id.
Qed.
Lemma const_loop_ok width vl vr va : loop_ok width (const_loop width vl vr va).
Proof. split; intros c; [done|]. intros Ha. cbn. destruct va; [done|]. by destruct Ha. Qed.
Lemma ramp_loop_ok width il ir : loop_ok width (ramp_loop width il ir).
Proof. split; intros c; [done|]. intros [? Ha]. by cbn in Ha. Qed.

(** ** The calls of the hooks *)

(** A track whose hook mixes frames of the given width. *)
Definition plays (t : track_t) (width : Z) : Prop :=
  (t_hook t = Some track__16BitsStereo ∧ width = 4) ∨ (t_hook t = Some track__16BitsMono ∧ width = 2).
Definition volumes_ok (t : track_t) : Prop := is_s16 (volume (ramp0 t)) ∧ is_s16 (volume (ramp1 t)).

(** The loop of a call with constant gains, and of one with a ramp. *)
Definition hook_loop (t : track_t) (width : Z) (aux : option Z) : loop :=
  const_loop width (volume (ramp0 t)) (volume (ramp1 t)) ((λ _, volume (aux_ramp t)) <$> aux).
Definition hook_ramp (t : track_t) (width : Z) : loop := ramp_loop width (volumeInc (ramp0 t)) (volumeInc (ramp1 t)).

Lemma do_frames_eq width L body fs c out s : loop_ok width L → body_ok width L body → fs ≠ [] →
  lends (world s) width (c_in c) fs → Forall frame_ok fs → (2 * length fs ≤ length out)%nat →
  (is_Some (add_a L) → ∀ k, (k < length fs)%nat → is_Some (words s !! (c_aux c + Z.of_nat k))) →
  do_frames body (Z.of_nat (length fs)) c out s = Ret (loop_out L c fs out, moved L (length fs) c) (set_words (loop_words L c fs (words s)) s).
Proof.
  intros HL Hb Hne. unfold do_frames. rewrite bool_decide_false by (destruct fs; cbn; [done|lia]).
  rewrite Nat2Z.id. by apply frames_eq.
Qed.

Lemma mix_const_eq i out aux width L rb cb fs s t p : track s i = Some t → in_ t = Some p →
  (match aux with Some _ => ramping_aux t | None => ramping t end) = false →
  loop_ok width L → body_ok width L (cb t) → fs ≠ [] → lends (world s) width p fs → Forall frame_ok fs → (2 * length fs ≤ length out)%nat →
  (is_Some (add_a L) → ∀ k, (k < length fs)%nat → is_Some (words s !! (default 0 aux + Z.of_nat k))) →
  mix_16bits i out (Z.of_nat (length fs)) aux rb cb s =
  Ret (loop_out L (start p aux [] t) fs out)
    (put_track i (set_in_ (Some (p + width * Z.of_nat (length fs))) t) (set_words (loop_words L (start p aux [] t) fs (words s)) s)).
Proof.
  intros Ht Hp Hr HL Hb Hne Hl Hfs Ho Ha. unfold mix_16bits. rewrite (bind_of _ (get_track_eq _ _ _ Ht)), Hp, bind_deref, Hr.
  erewrite bind_of; [|by apply (do_frames_eq width L)]. cbv beta iota.
  erewrite bind_of; [|apply upd_track_eq; exact Ht]. unfold ret. do 4 f_equal.
  by rewrite (moved_in L width) by apply HL.
Qed.

Lemma call_hook_const i out aux width fs s t p : track s i = Some t → in_ t = Some p → plays t width → volumes_ok t →
  (match aux with Some _ => ramping_aux t | None => ramping t end) = false →
  fs ≠ [] → lends (world s) width p fs → Forall frame_ok fs → (2 * length fs ≤ length out)%nat →
  (∀ q, aux = Some q → ∀ k, (k < length fs)%nat → is_Some (words s !! (q + Z.of_nat k))) →
  call_hook i out (Z.of_nat (length fs)) aux s =
  Ret (loop_out (hook_loop t width aux) (start p aux [] t) fs out)
    (put_track i (set_in_ (Some (p + width * Z.of_nat (length fs))) t)
      (set_words (loop_words (hook_loop t width aux) (start p aux [] t) fs (words s)) s)).
Proof.
  intros Ht Hp Hpl [Hv0 Hv1] Hr Hne Hl Hfs Ho Ha. unfold call_hook. rewrite (bind_of _ (get_track_eq _ _ _ Ht)).
  assert (∀ L, is_Some (add_a L) → L = hook_loop t width aux → ∀ k, (k < length fs)%nat → is_Some (words s !! (default 0 aux + Z.of_nat k))) as Ha'.
  { intros L Hs -> k Hk. destruct aux as [q|]; [by apply Ha|]. by destruct Hs. }
  destruct Hpl as [[-> ->]|[-> ->]]; destruct aux as [q|];
    (eapply mix_const_eq; [exact Ht|exact Hp|exact Hr|apply const_loop_ok| |exact Hne|exact Hl|exact Hfs|exact Ho|by intros Hs; apply (Ha' _ Hs)]).
  - by apply stereo_aux_ok.
  - by apply stereo_const_ok.
  - apply mono_aux_ok.
  - apply mono_const_ok.
Qed.

(** A call in a ramp of the volumes. *)
Lemma call_hook_ramp i out width fs s t p : track s i = Some t → in_ t = Some p → plays t width → ramping t = true →
  fs ≠ [] → lends (world s) width p fs → Forall frame_ok fs → (2 * length fs ≤ length out)%nat →
  call_hook i out (Z.of_nat (length fs)) None s =
  Ret (loop_out (hook_ramp t width) (start p None [] t) fs out)
    (put_track i (set_in_ (Some (p + width * Z.of_nat (length fs)))
      (ramped false (moved (hook_ramp t width) (length fs) (start p None [] t)) t)) s).
Proof.
  intros Ht Hp Hpl Hr Hne Hl Hfs Ho. unfold call_hook. rewrite (bind_of _ (get_track_eq _ _ _ Ht)).
  assert (∀ body, body_ok width (hook_ramp t width) body →
    do_frames body (Z.of_nat (length fs)) (start p None [] t) out s =
    Ret (loop_out (hook_ramp t width) (start p None [] t) fs out, moved (hook_ramp t width) (length fs) (start p None [] t)) s) as Hdo.
  { intros body Hb. erewrite (do_frames_eq width); [|apply ramp_loop_ok|exact Hb|done..|by intros [? ?]].
    by rewrite loop_words_none, set_words_id. }
  assert (∀ t', upd_track i (set_in_ (Some (c_in (moved (hook_ramp t width) (length fs) (start p None [] t))))) (put_track i t' s) =
    Ret tt (put_track i (set_in_ (Some (p + width * Z.of_nat (length fs))) t') s)) as Hin.
  { intros t'. erewrite upd_track_eq; [|by eapply track_put]. rewrite (moved_in _ width) by apply ramp_loop_ok.
    unfold put_track. cbn. by rewrite list_insert_insert_eq. }
  destruct Hpl as [[-> ->]|[-> ->]]; unfold mix_16BitsStereo, mix_16BitsMono, mix_16bits;
    rewrite (bind_of _ (get_track_eq _ _ _ Ht)), Hp, bind_deref, Hr;
    (erewrite bind_of; [|apply Hdo; first [apply stereo_ramp_ok|apply mono_ramp_ok]]); cbv beta iota;
    (erewrite bind_of; [|by apply upd_track_eq]); (erewrite bind_of; [|apply Hin]); done.
Qed.
End hooks.

(** * Volume ramps

    A gain that is set with a ramp goes in equal steps from the old level to the new
    one, whatever the calls that mix the frames, and stops there. *)

(** The level after [n] steps, and the ramp after a call for [n] frames. *)
Definition level (n : nat) (r : ramp) : Z := Nat.iter n (λ v, s32 (v + volumeInc r)) (prevVolume r).
Definition advance (r : ramp) (n : nat) : ramp := adjust_ramp (set_prevVolume (level n r) r).
(** The calls for [ns] frames one after the other. *)
Definition advances (ns : list nat) (r : ramp) : ramp := fold_left advance ns r.
Definition total (ns : list nat) : Z := Z.of_nat (sum_list ns).

(** The steps of [n] frames do not overflow. *)
Definition ramp_fits (n : nat) (r : ramp) : Prop := is_s32 (prevVolume r) ∧ is_s32 (prevVolume r + Z.of_nat n * volumeInc r).

Lemma level_eq n r : ramp_fits n r → ∀ k, (k ≤ n)%nat → level k r = prevVolume r + Z.of_nat k * volumeInc r.
Proof.
  intros [H0 Hn] k. unfold level. induction k as [|k IH]; intros Hk; [cbn; lia|].
  rewrite Nat.iter_succ, IH by lia. rewrite s32_small; [lia|]. unfold is_s32 in *. nia.
Qed.
Lemma shl16 v : 0 ≤ v ≤ UNITY_GAIN → s32 (Z.shiftl v 16) = v * 65536.
Proof. unfold UNITY_GAIN. intros. rewrite Z.shiftl_mul_pow2 by lia. rewrite s32_small; lia. Qed.

Section a_ramp.
Context (v0 value F : Z) (Hv0 : 0 ≤ v0 ≤ UNITY_GAIN) (Hv : 0 ≤ value ≤ UNITY_GAIN) (HF : 0 < F < 2 ^ 16).
Let d : Z := (value - v0) * 65536.
Let inc : Z := Z.quot d F.

(** A ramp under way after [m] frames, or at its end. *)
Definition ramp_at (m : Z) (r : ramp) : Prop :=
  volume r = value ∧
  ((volumeInc r = 0 ∧ prevVolume r = value * 65536) ∨
   (volumeInc r = inc ∧ inc ≠ 0 ∧ prevVolume r = v0 * 65536 + m * inc ∧ 0 ≤ m ∧
    (0 < inc → v0 < value ∧ prevVolume r < value * 65536) ∧
    (inc < 0 → value < v0 ∧ value * 65536 < prevVolume r) ∧
    (0 < m → (m + 1) * Z.abs inc < Z.abs d))).

Lemma inc_bounds : Z.abs inc * F ≤ Z.abs d < (Z.abs inc + 1) * F ∧ (0 < inc → 0 < d) ∧ (inc < 0 → d < 0) ∧ Z.abs inc ≤ 2 ^ 28.
Proof. unfold inc, d, UNITY_GAIN in *. Z.to_euclidean_division_equations; nia. Qed.

Lemma ramp_set r : volume r = v0 → v0 ≠ value →
  ∃ r', set_level false value F r = Some r' ∧ ramp_at 0 r'.
Proof.
  intros Hr Hne. unfold set_level. rewrite bool_decide_true by (by rewrite Hr).
  rewrite Hr, !shl16 by done. rewrite (s32_small (value * 65536 - v0 * 65536)) by (unfold UNITY_GAIN in *; lia).
  rewrite (s32_small F), (s16_small value) by (unfold is_s16, UNITY_GAIN in *; lia).
  replace (value * 65536 - v0 * 65536) with d by (unfold d; lia). fold inc.
  eexists. split; [done|]. unfold ramp_at. cbn [volume prevVolume volumeInc]. split; [done|].
  destruct (decide (inc = 0)) as [E|E]; [left; by rewrite bool_decide_true|right].
  rewrite bool_decide_false by done. pose proof inc_bounds. unfold d in *. split_and!; lia.
Qed.

Lemma ramp_fits_at n m r : ramp_at m r → (Z.of_nat n ≤ F) → ramp_fits n r.
Proof.
  unfold ramp_at, ramp_fits, is_s32. pose proof inc_bounds as (B & B1 & B2 & B3). intros [_ [(-> & ->)|(-> & Hne & -> & Hm & Hp & Hq & Ht)]] Hn.
  - unfold UNITY_GAIN in *. lia.
  - unfold UNITY_GAIN in *. unfold d in *.
    assert (- 2 ^ 28 ≤ Z.of_nat n * inc ≤ 2 ^ 28) by nia.
    destruct (Z.lt_trichotomy inc 0) as [Hi|[|Hi]]; [specialize (Hq Hi)|done|specialize (Hp Hi)]; nia.
Qed.

(** A call moves the ramp on by its frames, or ends it. *)
Lemma ramp_advance n m r : ramp_at m r → (0 < n)%nat → Z.of_nat n ≤ F → ramp_at (m + Z.of_nat n) (advance r n).
Proof.
  intros Hr H0 Hn. unfold advance. pose proof (ramp_fits_at n m r Hr Hn) as Hf.
  rewrite (level_eq n r Hf n) by done. pose proof inc_bounds as (B & B1 & B2 & B3).
  destruct Hr as [Ev [(Ei & Ep)|(Ei & Hne & Ep & Hm & Hp & Hq & Ht)]].
  - rewrite Ei. unfold adjust_ramp, ramp_reached. cbn [volumeInc set_prevVolume prevVolume]. rewrite Ei.
    rewrite (bool_decide_false (0 > 0)), (bool_decide_false (0 < 0)) by lia. cbn [andb orb].
    unfold ramp_at. cbn. split; [done|left]. split; [done|lia].
  - assert (is_s32 (prevVolume r + Z.of_nat n * inc + inc)) as Hs.
    { clear Hf Ht. assert (- 2 ^ 28 ≤ Z.of_nat n * inc ≤ 2 ^ 28) by (unfold d, UNITY_GAIN in *; nia).
      rewrite Ep. unfold is_s32, UNITY_GAIN, d in *.
      destruct (Z.lt_trichotomy inc 0) as [Hi|[|Hi]]; [specialize (Hq Hi)|done|specialize (Hp Hi)]; lia. }
    unfold adjust_ramp, ramp_reached. cbn [volumeInc set_prevVolume prevVolume volume]. rewrite Ei, Ev.
    rewrite (s32_small (prevVolume r + Z.of_nat n * inc + inc)) by done.
    rewrite Z.shiftr_div_pow2, shl16 by done. change (2 ^ 16) with 65536. unfold ramp_at.
    match goal with |- context [if ?b then _ else _] => destruct b eqn:Eb end; cbn [volume volumeInc prevVolume set_prevVolume].
    { split; [done|by left]. }
    split; [done|right]. apply orb_false_iff in Eb as [E1 E2]. unfold d in *.
    split_and!; [done|done|rewrite Ep; ring|lia| | |].
    + intros Hi. rewrite (bool_decide_true (inc > 0)) in E1 by lia. cbn in E1. apply bool_decide_eq_false in E1.
      split; [apply Hp; done|]. Z.to_euclidean_division_equations; lia.
    + intros Hi. rewrite (bool_decide_true (inc < 0)) in E2 by lia. cbn in E2. apply bool_decide_eq_false in E2.
      split; [apply Hq; done|]. Z.to_euclidean_division_equations; lia.
    + intros _. assert (prevVolume r + Z.of_nat n * inc + inc = v0 * 65536 + (m + Z.of_nat n + 1) * inc) as En by (rewrite Ep; ring).
      rewrite En in *. destruct (Z.lt_trichotomy inc 0) as [Hi|[|Hi]]; [|done|].
      * rewrite (bool_decide_true (inc < 0)) in E2 by lia. cbn in E2. apply bool_decide_eq_false in E2.
        specialize (B2 Hi). rewrite (Z.abs_neq inc) by lia. Z.to_euclidean_division_equations; lia.
      * rewrite (bool_decide_true (inc > 0)) in E1 by lia. cbn in E1. apply bool_decide_eq_false in E1.
        specialize (B1 Hi). rewrite (Z.abs_eq inc) by lia. Z.to_euclidean_division_equations; lia.
Qed.

Lemma ramp_advances ns m r : ramp_at m r → Forall (λ n, 0 < n)%nat ns → Forall (λ n, Z.of_nat n ≤ F) ns →
  ramp_at (m + total ns) (advances ns r).
Proof.
  intros Hr Hp Hn. revert m r Hr. induction ns as [|n ns IH]; intros m r Hr.
  { unfold total. cbn. by rewrite Z.add_0_r. }
  apply Forall_cons in Hp as [Hp1 Hp]. apply Forall_cons in Hn as [Hn1 Hn].
  cbn [advances fold_left]. specialize (IH Hp Hn _ _ (ramp_advance n m r Hr Hp1 Hn1)).
  unfold total in *. cbn. by replace (m + Z.of_nat (n + sum_list ns)) with (m + Z.of_nat n + Z.of_nat (sum_list ns)) by lia.
Qed.

Lemma ramp_over m r : ramp_at m r → 2 * F ≤ m → volumeInc r = 0 ∧ prevVolume r = value * 65536.
Proof.
  pose proof inc_bounds as (B & _). intros [_ [?|(_ & Hne & _ & Hm & _ & _ & Ht)]] HmF; [done|exfalso].
  specialize (Ht ltac:(lia)). nia.
Qed.

(** The levels of a call lie between the old one and the new one, but for the steps of that call. *)
Lemma ramp_levels m r n k : ramp_at m r → Z.of_nat n ≤ F → (k ≤ n)%nat →
  Z.min (v0 * 65536) (value * 65536) - Z.of_nat k * Z.abs inc ≤ level k r ≤ Z.max (v0 * 65536) (value * 65536) + Z.of_nat k * Z.abs inc.
Proof.
  intros Hr Hn Hk. rewrite (level_eq n r (ramp_fits_at n m r Hr Hn) k Hk).
  destruct Hr as [_ [(-> & ->)|(-> & Hne & Ep & Hm & Hp & Hq & _)]]; [nia|]. rewrite Ep in *.
  destruct (Z.lt_trichotomy inc 0) as [Hi|[|Hi]]; [specialize (Hq Hi)|done|specialize (Hp Hi)]; nia.
Qed.
End a_ramp.

(** ** The ramp of a track *)

Section code.
Context {W : Type} `{!MixerEnv W}.
Implicit Types s : mixer W.

(** The gain of a side, the parameter that sets it with a ramp, and a side of a frame. *)
Definition gain (right : bool) (t : track_t) : ramp := if right then ramp1 t else ramp0 t.
Definition ramp_volume (right : bool) (value : Z) : parameter := if right then VOLUME1 false value else VOLUME0 false value.
Definition side (right : bool) (f : Z * Z) : Z := if right then f.2 else f.1.

Lemma moved_levels width il ir k c :
  c_vl (moved (ramp_loop width il ir) k c) = Nat.iter k (λ v, s32 (v + il)) (c_vl c) ∧
  c_vr (moved (ramp_loop width il ir) k c) = Nat.iter k (λ v, s32 (v + ir)) (c_vr c).
Proof.
  revert c. induction k as [|k IH]; intros c; [done|]. rewrite moved_S, !Nat.iter_succ_r. apply IH.
Qed.
Lemma ramped_gain right t width p n t' : t' = ramped false (moved (hook_ramp t width) n (start p None [] t)) t →
  gain right t' = advance (gain right t) n.
Proof.
  intros ->. unfold hook_ramp. destruct (moved_levels width (volumeInc (ramp0 t)) (volumeInc (ramp1 t)) n (start p None [] t)) as [E1 E2].
  unfold ramped, adjustVolumeRamp, advance, level. rewrite E1, E2. by destruct right.
Qed.
Lemma ramp_mul_small v x : is_s32 v → is_s16 x → ramp_mul v x = Z.shiftr v 16 * x.
Proof.
  unfold is_s32, is_s16, ramp_mul. intros Hv Hx. rewrite Z.shiftr_div_pow2 by lia.
  assert (- 2 ^ 15 ≤ v / 2 ^ 16 < 2 ^ 15) by (Z.to_euclidean_division_equations; lia). apply s32_small. nia.
Qed.
Lemma set_gain_eq s i t get put r value : track s i = Some t → set_level false value (m_frameCount s) (get t) = Some r →
  0 ≤ i < 32 → set_gain i get put false value s = Ret tt (set_hook process__validate (set_needsChanged (Z.lor (needsChanged s) (bit i)) (put_track i (put r t) s))).
Proof.
  intros Ht Hr Hi. unfold set_gain. rewrite bind_getst, (bind_of _ (get_track_eq _ _ _ Ht)), Hr, (bind_of _ (upd_track_eq _ _ _ _ Ht)).
  unfold invalidateState. rewrite bool_decide_false; [done|]. rewrite bit_eq by lia. lia.
Qed.
Lemma track_index_eq s i : 0 ≤ i < 32 → track_index (TRACK0 + i) s = Ret i s.
Proof.
  intros Hi. unfold track_index, TRACK0, MAX_NUM_TRACKS. replace (0x1000 + i - 0x1000) with i by lia.
  rewrite bool_decide_true by (rewrite u32_small; lia). done.
Qed.
Lemma set_ramp_volume right value s i t r : 0 ≤ i < 32 → track s i = Some t → set_level false value (m_frameCount s) (gain right t) = Some r →
  ∃ s' t', setParameter (TRACK0 + i) (ramp_volume right value) s = Ret tt s' ∧ track s' i = Some t' ∧ gain right t' = r ∧
    hook s' = process__validate.
Proof.
  intros Hi Ht Hr. unfold setParameter. rewrite (bind_of _ (track_index_eq s i Hi)), bind_getst, (bind_of _ (get_track_eq _ _ _ Ht)).
  destruct right; cbn [ramp_volume gain] in *; (eexists _, _; split; [by eapply set_gain_eq|]); unfold put_track, track in *;
    rewrite bool_decide_true in * by lia; cbn; (rewrite list_lookup_insert_eq by (by eapply lookup_lt_Some)); done.
Qed.
End code.
