(* ===== verification/AudioMixerMix.v ===== *)
(** * Mixing without resampling

    The contract of the providers of a mixer, and what [process__genericNoResampling]
    does with a block of a track: whatever the sizes of the buffers the provider lends,
    the block gets the next frames of the stream, each times the gain. *)

From Stdlib Require Import ZArith Lia.
From stdpp Require Import base tactics numbers option list gmap.
From S2P Require Import Prelude Words AudioPrimitives Nbaio NbaioProviders AudioMixer AudioMixerRules AudioMixerHooks.

(** ** The contract of the providers *)

(** Each provider lends the frames of a stream, some at a time, and the calls to one do
    not disturb the others. *)
Class StreamLaws (W : Type) `{!MixerEnv W} := {
  env_ok : W → Prop;
  (** The frames to come, the ones on loan included, and their width in bytes. *)
  stream : W → Z → list (Z * Z);
  width_of : Z → Z;
  (** The loan that is out: where, and how many frames. *)
  loan : W → Z → option (Z * Z);
  stream_ok w p : env_ok w → Forall frame_ok (stream w p);
  loan_ok w p a n : env_ok w → loan w p = Some (a, n) →
    0 < n ≤ Z.of_nat (length (stream w p)) ∧ (width_of p = 4 → Z.land a 3 = 0) ∧
    lends w (width_of p) a (take (Z.to_nat n) (stream w p));
  get_ok w p r n pts : env_ok w → loan w p = None → 0 < n < 2 ^ 16 →
    wp (p_getNextBuffer p (Buffer r n) pts) (λ '(_, b) w',
      env_ok w' ∧ (∀ q, stream w' q = stream w q) ∧ (∀ q, q ≠ p → loan w' q = loan w q) ∧
      match raw b with
      | Some a => 0 < frameCount b ≤ n ∧ loan w' p = Some (a, frameCount b)
      | None => stream w p = [] ∧ loan w' p = None
      end) w;
  release_ok w p a n : env_ok w → loan w p = Some (a, n) →
    wp (p_releaseBuffer p (Buffer (Some a) n)) (λ _ w',
      env_ok w' ∧ stream w' p = drop (Z.to_nat n) (stream w p) ∧ loan w' p = None ∧
      ∀ q, q ≠ p → stream w' q = stream w q ∧ loan w' q = loan w q) w
}.

Section mix.
Context {W : Type} `{!MixerEnv W, !StreamLaws W}.
Implicit Types s : mixer W.

(** What the mixing leaves alone. *)
Definition static s := (mTrackNames s, mConfiguredNames s, mSampleRate s, enabledTracks s, needsChanged s, m_frameCount s, hook s,
  outputTemp s, resampleTemp s, isMultichannelCapable s, sLocalTimeFreq s).

(** The step from [s] to [s'] is about the track [i] and its provider [p] alone. *)
Definition only (i p : Z) (s s' : mixer W) : Prop :=
  static s' = static s ∧ env_ok (world s') ∧
  (∀ j, j ≠ i → track s' j = track s j) ∧
  (∀ q, q ≠ p → stream (world s') q = stream (world s) q ∧ loan (world s') q = loan (world s) q).

Lemma only_refl i p s : env_ok (world s) → only i p s s.
Proof. intros. split; [done|]. by split. Qed.
Lemma only_trans i p s1 s2 s3 : only i p s1 s2 → only i p s2 s3 → only i p s1 s3.
Proof.
  intros (A1 & _ & A3 & A4) (B1 & B2 & B3 & B4). split; [congruence|]. split; [done|]. split.
  - intros j Hj. by rewrite B3, A3.
  - intros q Hq. destruct (B4 q Hq) as [-> ->]. by apply A4.
Qed.
Lemma only_put i p s t : 0 ≤ i → env_ok (world s) → only i p s (put_track i t s).
Proof. intros Hi He. split; [done|]. split; [done|]. split; [|done]. intros j Hj. by apply track_put_ne. Qed.
Lemma only_words i p s ws : env_ok (world s) → only i p s (set_words ws s).
Proof. intros. split; [done|]. by split. Qed.

(** ** One track *)

(** The hook skips the track. *)
Definition muted (t : track_t) : bool := bool_decide (t_hook t = Some track__nop).
(** The auxiliary buffer in use. *)
Definition aux_of (t : track_t) : option Z := if needs_aux t then auxBuffer t else None.

(** The frame of a track, if the stream still has one, added to a frame of the mix. *)
Definition add_frame (t : track_t) (f : option (Z * Z)) (o : Z * Z) : Z * Z :=
  match f with
  | Some f => if muted t then o else (s32 (o.1 + f.1 * volume (ramp0 t)), s32 (o.2 + f.2 * volume (ramp1 t)))
  | None => o
  end.
(** The frames from [lo] to [hi] added to the word at [x] of the auxiliary buffer. *)
Definition aux_add (t : track_t) (fs : list (Z * Z)) (lo hi x : Z) (v : Z) : Z :=
  match aux_of t with
  | Some b =>
      if bool_decide (b + lo ≤ x < b + hi) then
        match fs !! Z.to_nat (x - b) with
        | Some f => if muted t then v else s32 (v + aux_mean f * volume (aux_ramp t))
        | None => v
        end
      else v
  | None => v
  end.

(** The track can be mixed without a ramp and without a resampler. *)
Record ready (t : track_t) (p : Z) : Prop := {
  ready_provider : bufferProvider t = Some (Direct p);
  ready_hook : t_hook t = Some track__nop ∨ plays t (width_of p);
  ready_volumes : volumes_ok t;
  ready_level : (if needs_aux t then ramping_aux t else ramping t) = false;
  ready_aux : needs_aux t = true → is_Some (auxBuffer t)
}.

(** The track [t0] has mixed [k] frames of its stream [fs]. *)
Definition same_track (t0 t : track_t) : Prop := ∃ b y x, t = set_in_ x (set_t_frameCount y (set_t_buffer b t0)).
Definition lent (t : track_t) (p a n c : Z) : Prop :=
  t_buffer t = Buffer (Some a) n ∧ t_frameCount t = n - c ∧ 0 ≤ c ≤ n ∧ n < 2 ^ 16 ∧
  (muted t = false → in_ t = Some (a + width_of p * c)).
Definition at_frame (F : nat) (t0 : track_t) (p : Z) (fs : list (Z * Z)) (k : nat) (live : bool) (t : track_t) (w : W) : Prop :=
  same_track t0 t ∧
  if live then ∃ a n c, loan w p = Some (a, n) ∧ lent t p a n c ∧ c ≤ Z.of_nat k ∧ Z.of_nat k + (n - c) ≤ Z.of_nat F ∧ stream w p = drop (k - Z.to_nat c) fs
  else loan w p = None ∧ stream w p = [] ∧ (length fs ≤ k)%nat.

Lemma same_refl t : same_track t t.
Proof. exists (t_buffer t), (t_frameCount t), (in_ t). by destruct t. Qed.
Lemma same_step t0 t b y x : same_track t0 t → same_track t0 (set_in_ x (set_t_frameCount y (set_t_buffer b t))).
Proof. intros (b' & y' & x' & ->). by exists b, y, x. Qed.
Lemma same_buffer_step t0 t b : same_track t0 t → same_track t0 (set_t_buffer b t).
Proof. intros (b' & y' & x' & ->). by exists b, y', x'. Qed.
Lemma same_count_step t0 t y : same_track t0 t → same_track t0 (set_t_frameCount y t).
Proof. intros (b' & y' & x' & ->). by exists b', y, x'. Qed.
Lemma same_in_step t0 t x : same_track t0 t → same_track t0 (set_in_ x t).
Proof. intros (b' & y' & x' & ->). by exists b', y', x. Qed.

Lemma same_ready t0 t p : same_track t0 t → ready t0 p → ready t p.
Proof. intros (b & y & x & ->) [? ? ? ? ?]. by split. Qed.
Lemma same_aux t0 t : same_track t0 t → aux_of t = aux_of t0 ∧ muted t = muted t0 ∧ needs_aux t = needs_aux t0 ∧
  ramp0 t = ramp0 t0 ∧ ramp1 t = ramp1 t0 ∧ aux_ramp t = aux_ramp t0 ∧ sampleRate t = sampleRate t0 ∧ mainBuffer t = mainBuffer t0 ∧ auxBuffer t = auxBuffer t0.
Proof. by intros (b & y & x & ->). Qed.

(** *** Calls of the provider *)

Lemma wp_in_world {A} (m : M W A) (Q : A → mixer W → Prop) s :
  wp m (λ a w, Q a (set_world w s)) (world s) → wp (in_world m) Q s.
Proof. intros Hm. by apply wp_zoom. Qed.
Lemma wp_upd_track i f s t (Q : unit → mixer W → Prop) : track s i = Some t → Q tt (put_track i (f t) s) → wp (upd_track i f) Q s.
Proof. intros Ht. apply wp_det. by apply upd_track_eq. Qed.

Lemma track_nonneg s i t : track s i = Some t → 0 ≤ i.
Proof. unfold track. by case_bool_decide. Qed.
Lemma track_world s i w : track (set_world w s) i = track s i.
Proof. done. Qed.

Lemma acquire_ok i p n pts s t : track s i = Some t → bufferProvider t = Some (Direct p) → env_ok (world s) →
  loan (world s) p = None → 0 < n < 2 ^ 16 →
  wp (acquire i n pts) (λ _ s', only i p s s' ∧ words s' = words s ∧ stream (world s') p = stream (world s) p ∧
    ∃ b, track s' i = Some (set_t_buffer b t) ∧
      match raw b with
      | Some a => 0 < frameCount b ≤ n ∧ loan (world s') p = Some (a, frameCount b)
      | None => stream (world s) p = [] ∧ loan (world s') p = None
      end) s.
Proof.
  intros Ht Hp He Hl Hn. pose proof (track_nonneg _ _ _ Ht). unfold acquire. apply wp_bind. eapply wp_get_track; [done|]. apply wp_bind.
  apply wp_in_world. unfold provider_get. rewrite Hp. eapply wp_mono; [by apply get_ok|].
  intros [st b] w' (H1 & H2 & H3 & H4). cbv beta iota. eapply wp_upd_track; [by rewrite track_world|].
  split; [split; [done|split; [done|split]]|split; [done|split]].
  - intros j Hj. by rewrite track_put_ne by done.
  - intros q Hq. split; [apply H2|by apply H3].
  - apply H2.
  - exists b. split; [|done]. by eapply track_put.
Qed.

Lemma release_ok' i p s t a n : track s i = Some t → bufferProvider t = Some (Direct p) → env_ok (world s) →
  t_buffer t = Buffer (Some a) n → loan (world s) p = Some (a, n) →
  wp (release i) (λ _ s', only i p s s' ∧ words s' = words s ∧ stream (world s') p = drop (Z.to_nat n) (stream (world s) p) ∧
    loan (world s') p = None ∧ ∃ b, track s' i = Some (set_t_buffer b t)) s.
Proof.
  intros Ht Hp He Hb Hl. pose proof (track_nonneg _ _ _ Ht). unfold release. apply wp_bind. eapply wp_get_track; [done|]. apply wp_bind.
  apply wp_in_world. unfold provider_release. rewrite Hp, Hb. eapply wp_mono; [by apply release_ok|].
  intros b w' (H1 & H2 & H3 & H4). eapply wp_upd_track; [by rewrite track_world|].
  split; [split; [done|split; [done|split; [|done]]]|split; [done|split; [done|split; [done|]]]].
  - intros j Hj. by rewrite track_put_ne by done.
  - exists b. by eapply track_put.
Qed.

(** *** A call of the hook *)

(** The frames [lo ≤ j < hi] of the mix get the frames from [base] on of a stream. *)
Definition mixed (t : track_t) (fs : list (Z * Z)) (base lo hi : nat) (out out' : list Z) : Prop :=
  length out' = length out ∧
  ∀ j, frame_of out' j = (if bool_decide (lo ≤ j < hi)%nat then add_frame t (fs !! (base + j)%nat) else id) <$> frame_of out j.
Definition aux_mixed (t : track_t) (fs : list (Z * Z)) (lo hi : nat) (ws ws' : gmap Z Z) : Prop :=
  ∀ x, ws' !! x = aux_add t fs (Z.of_nat lo) (Z.of_nat hi) x <$> ws !! x.

(** The words of the auxiliary buffer for [F] frames are there. *)
Definition aux_there (t : track_t) (F : nat) (ws : gmap Z Z) : Prop :=
  ∀ b, aux_of t = Some b → ∀ k, (k < F)%nat → is_Some (ws !! (b + Z.of_nat k)).

Lemma option_fmap_id_id (A : Type) (o : option A) : id <$> o = o.
Proof. by destruct o. Qed.

Lemma aux_mixed_refl t fs lo ws : aux_mixed t fs lo lo ws ws.
Proof.
  intros x. unfold aux_add. destruct (aux_of t); [rewrite bool_decide_false by lia|]; by destruct (ws !! x).
Qed.
Lemma aux_mixed_trans t fs lo mid hi ws1 ws2 ws3 : (lo ≤ mid ≤ hi)%nat →
  aux_mixed t fs lo mid ws1 ws2 → aux_mixed t fs mid hi ws2 ws3 → aux_mixed t fs lo hi ws1 ws3.
Proof.
  intros Hm H1 H2 x. rewrite H2, H1. destruct (ws1 !! x) as [v|]; [|done]. cbn. f_equal. unfold aux_add.
  destruct (aux_of t) as [b|]; [|done].
  destruct (decide (b + Z.of_nat lo ≤ x < b + Z.of_nat mid)).
  - rewrite (bool_decide_true (_ ≤ _ < b + Z.of_nat mid)), (bool_decide_false (b + Z.of_nat mid ≤ _ < _)), bool_decide_true by lia. done.
  - rewrite (bool_decide_false (_ ≤ _ < b + Z.of_nat mid)) by lia.
    destruct (decide (b + Z.of_nat mid ≤ x < b + Z.of_nat hi)).
    + by rewrite !bool_decide_true by lia.
    + by rewrite !bool_decide_false by lia.
Qed.
Lemma aux_there_mixed t t' fs F lo hi ws ws' : aux_there t F ws → aux_mixed t' fs lo hi ws ws' → aux_there t F ws'.
Proof. intros Ha Hm b Hb k Hk. rewrite Hm. destruct (Ha b Hb k Hk) as [v ->]. by eexists. Qed.
Lemma mixed_refl t fs base lo out : mixed t fs base lo lo out out.
Proof. split; [done|]. intros j. rewrite bool_decide_false by lia. by rewrite option_fmap_id_id. Qed.
Lemma mixed_trans t fs base lo mid hi o1 o2 o3 : (lo ≤ mid ≤ hi)%nat →
  mixed t fs base lo mid o1 o2 → mixed t fs base mid hi o2 o3 → mixed t fs base lo hi o1 o3.
Proof.
  intros Hm [L1 H1] [L2 H2]. split; [by rewrite L2|]. intros j. rewrite H2, H1, <-option_fmap_compose.
  apply option_fmap_ext. intros f. cbn.
  destruct (decide (lo ≤ j < mid)%nat).
  - by rewrite (bool_decide_true (lo ≤ j < mid)%nat), (bool_decide_false (mid ≤ j < hi)%nat), bool_decide_true by lia.
  - rewrite (bool_decide_false (lo ≤ j < mid)%nat) by lia. destruct (decide (mid ≤ j < hi)%nat).
    + by rewrite !bool_decide_true by lia.
    + by rewrite !bool_decide_false by lia.
Qed.
(** A muted track, or one whose stream has ended, adds nothing. *)
Lemma mixed_nothing t fs base lo hi out :
  (∀ j, (lo ≤ j < hi)%nat → muted t = true ∨ fs !! (base + j)%nat = None) → mixed t fs base lo hi out out.
Proof.
  intros Hn. split; [done|]. intros j. case_bool_decide as Hj; [|by rewrite option_fmap_id_id].
  destruct (frame_of out j) as [o|]; [|done]. cbn. f_equal. unfold add_frame.
  destruct (Hn j Hj) as [-> | ->]; by destruct (fs !! (base + j)%nat).
Qed.
Lemma aux_mixed_nothing t fs lo hi ws :
  (∀ j, (lo ≤ j < hi)%nat → muted t = true ∨ fs !! j = None) → aux_mixed t fs lo hi ws ws.
Proof.
  intros Hn x. destruct (ws !! x) as [v|]; [|done]. cbn. f_equal. unfold aux_add. destruct (aux_of t) as [b|]; [|done].
  case_bool_decide as Hx; [|done]. destruct (Hn (Z.to_nat (x - b))) as [-> | ->]; [lia| |done].
  by destruct (fs !! Z.to_nat (x - b)).
Qed.

Lemma call_hook_at_eq i out off n aux s out' s' : (off ≤ length out)%nat →
  call_hook i (drop off out) n aux s = Ret out' s' →
  call_hook_at i out (Z.of_nat off) n aux s = Ret (take off out ++ out') s'.
Proof. intros Ho E. unfold call_hook_at. rewrite Nat2Z.id. by rewrite (bind_of _ E). Qed.

Lemma const_moved width vl vr va k c : c_aux (moved (const_loop width vl vr va) k c) = c_aux c + match va with Some _ => Z.of_nat k | None => 0 end.
Proof.
  revert c. induction k as [|k IH]; intros c; [cbn; destruct va; lia|]. rewrite moved_S, IH. cbn. destruct va; lia.
Qed.

Lemma hook_mixed t fs width aux c out base o cnt : muted t = false →
  (base + o + cnt ≤ length fs)%nat → (2 * (o + cnt) ≤ length out)%nat →
  mixed t fs base o (o + cnt) out (take (2 * o) out ++ loop_out (hook_loop t width aux) c (take cnt (drop (base + o) fs)) (drop (2 * o) out)).
Proof.
  intros Hmu Hfs Ho. split; [rewrite length_app, loop_out_length, length_take, length_drop; lia|].
  intros j. destruct (decide (j < o)%nat).
  { rewrite frame_of_app_l by (rewrite length_take; lia). rewrite bool_decide_false, option_fmap_id_id by lia.
    rewrite <-(take_drop (2 * o) out) at 2. by rewrite frame_of_app_l by (rewrite length_take; lia). }
  replace j with (o + (j - o))%nat at 1 by lia. rewrite (frame_of_app_r _ _ o) by (rewrite length_take; lia).
  rewrite loop_out_frame, frame_of_drop. replace (o + (j - o))%nat with j by lia.
  destruct (decide (j < o + cnt)%nat) as [Hj|Hj].
  - rewrite bool_decide_true, lookup_take_lt, lookup_drop by lia. replace (base + o + (j - o))%nat with (base + j)%nat by lia.
    destruct (lookup_lt_is_Some_2 fs (base + j)) as [f ->]; [lia|]. unfold add_frame. by rewrite Hmu.
  - rewrite bool_decide_false, option_fmap_id_id by lia. by rewrite lookup_take_ge by lia.
Qed.
Lemma hook_aux_mixed t fs width p k cnt ws : muted t = false → (k + cnt ≤ length fs)%nat →
  let aux := (λ p, p + Z.of_nat k) <$> aux_of t in
  aux_mixed t fs k (k + cnt) ws (loop_words (hook_loop t width aux) (start p aux [] t) (take cnt (drop k fs)) ws).
Proof.
  intros Hmu Hfs aux x. unfold aux_add, aux, hook_loop. destruct (aux_of t) as [q|] eqn:Eq; cbn [fmap option_fmap option_map].
  2:{ rewrite loop_words_none by done. by destruct (ws !! x). }
  erewrite loop_words_lookup; [|done|done]. cbn [start c_aux default from_option]. unfold id.
  destruct (decide (q + Z.of_nat k ≤ x < q + Z.of_nat (k + cnt))) as [Hx|Hx].
  - rewrite !bool_decide_true, lookup_take_lt, lookup_drop by lia.
    replace (k + Z.to_nat (x - (q + Z.of_nat k)))%nat with (Z.to_nat (x - q)) by lia.
    destruct (lookup_lt_is_Some_2 fs (Z.to_nat (x - q))) as [f ->]; [lia|]. by rewrite Hmu.
  - rewrite (bool_decide_false (_ ≤ x < _)) by lia. case_bool_decide; [|by destruct (ws !! x)].
    rewrite lookup_take_ge by lia. by destruct (ws !! x).
Qed.

Lemma hook_step i p t s out base o cnt F fs b :
  track s i = Some t → ready t p → in_ t = Some b → muted t = false →
  (0 < cnt)%nat → (base + o + cnt ≤ F)%nat → (base + o + cnt ≤ length fs)%nat → (2 * (o + cnt) ≤ length out)%nat →
  lends (world s) (width_of p) b (take cnt (drop (base + o) fs)) → Forall frame_ok fs → aux_there t F (words s) →
  ∃ out' ws', call_hook_at i out (Z.of_nat o * MAX_NUM_CHANNELS) (Z.of_nat cnt) ((λ p, p + Z.of_nat (base + o)) <$> aux_of t) s =
    Ret out' (put_track i (set_in_ (Some (b + width_of p * Z.of_nat cnt)) t) (set_words ws' s)) ∧
    mixed t fs base o (o + cnt) out out' ∧ aux_mixed t fs (base + o) (base + o + cnt) (words s) ws'.
Proof.
  intros Ht Hr Hin Hmu Hc HF Hfs Ho Hl Hok Ha.
  assert (length (take cnt (drop (base + o) fs)) = cnt) as Hgl by (rewrite length_take, length_drop; lia).
  assert (plays t (width_of p)) as Hpl.
  { destruct (ready_hook _ _ Hr) as [Hh|]; [|done]. unfold muted in Hmu. by rewrite bool_decide_true in Hmu. }
  set (aux := (λ p, p + Z.of_nat (base + o)) <$> aux_of t).
  assert ((match aux with Some _ => ramping_aux t | None => ramping t end) = false) as Hramp.
  { pose proof (ready_level _ _ Hr) as Hv. unfold aux, aux_of. destruct (needs_aux t) eqn:En; [|done].
    destruct (ready_aux _ _ Hr En) as [? ->]. done. }
  eexists _, _. split; [|split; [by apply (hook_mixed t fs (width_of p) aux (start b aux [] t))|by apply (hook_aux_mixed t fs (width_of p) b)]].
  replace (Z.of_nat o * MAX_NUM_CHANNELS) with (Z.of_nat (2 * o)) by (unfold MAX_NUM_CHANNELS; lia).
  apply call_hook_at_eq; [lia|].
  pose proof (call_hook_const i (drop (2 * o) out) aux (width_of p) (take cnt (drop (base + o) fs)) s t b Ht Hin Hpl (ready_volumes _ _ Hr) Hramp) as E. rewrite Hgl in E. apply E; try done.
  - intros Hn. rewrite Hn in Hgl. cbn in Hgl. lia.
  - by apply Forall_take, Forall_drop.
  - rewrite length_drop. lia.
  - intros q Hq j Hj. unfold aux in Hq. apply fmap_Some in Hq as (b' & Hb' & ->).
    replace (b' + Z.of_nat (base + o) + Z.of_nat j) with (b' + Z.of_nat (base + o + j)) by lia. apply Ha; [done|lia].
Qed.

(** *** A block of a track *)

Lemma same_add_frame t0 t : same_track t0 t → (∀ f o, add_frame t f o = add_frame t0 f o) ∧ (∀ fs lo hi x v, aux_add t fs lo hi x v = aux_add t0 fs lo hi x v).
Proof. by intros (b & y & x & ->). Qed.
Lemma same_mixed t0 t fs base lo hi o o' : same_track t0 t → mixed t fs base lo hi o o' → mixed t0 fs base lo hi o o'.
Proof. intros Hs [L Hm]. split; [done|]. intros j. rewrite Hm. apply option_fmap_ext. intros f. case_bool_decide; [|done]. by apply same_add_frame. Qed.
Lemma same_aux_mixed t0 t fs lo hi ws ws' : same_track t0 t → aux_mixed t fs lo hi ws ws' → aux_mixed t0 fs lo hi ws ws'.
Proof. intros Hs Hm x. rewrite Hm. apply option_fmap_ext. intros v. by apply same_add_frame. Qed.
Lemma same_aux_there t0 t F ws : same_track t0 t → aux_there t0 F ws → aux_there t F ws.
Proof. by intros (b & y & x & ->). Qed.

(** What a track has on loan is the next part of its stream. *)
Lemma at_frame_lends F t0 p fs k t w : at_frame F t0 p fs k true t w → env_ok w →
  ∃ a n c, loan w p = Some (a, n) ∧ lent t p a n c ∧ c ≤ Z.of_nat k ∧ Z.of_nat k + (n - c) ≤ Z.of_nat F ∧ stream w p = drop (k - Z.to_nat c) fs ∧
    Z.of_nat k + (n - c) ≤ Z.of_nat (length fs) ∧
    ∀ cnt, Z.of_nat cnt ≤ n - c → lends w (width_of p) (a + width_of p * c) (take cnt (drop k fs)).
Proof.
  intros [_ (a & n & c & Hl & Hle & Hc & HF & Hs)] He. exists a, n, c. split_and!; try done.
  - destruct (loan_ok w p a n He Hl) as ([H0 H1] & _). destruct Hle as (_ & _ & ? & _). rewrite Hs, length_drop in H1.
    destruct (decide (k - Z.to_nat c ≤ length fs)%nat); lia.
  - intros cnt Hcnt. destruct (loan_ok w p a n He Hl) as (_ & _ & Hw). destruct Hle as (_ & _ & ? & _).
    rewrite Hs in Hw. apply (lends_drop _ _ _ _ (Z.to_nat c)) in Hw. rewrite Z2Nat.id in Hw by lia.
    rewrite skipn_firstn_comm, drop_drop in Hw. replace (k - Z.to_nat c + Z.to_nat c)%nat with k in Hw by lia.
    apply (lends_take _ _ _ _ cnt) in Hw. by rewrite take_take, Nat.min_l in Hw by lia.
Qed.

Lemma mix_some_ok i p t0 fs F s N o cnt out t :
  track s i = Some t → at_frame F t0 p fs (N + o) true t (world s) → ready t0 p → Forall frame_ok fs → env_ok (world s) →
  aux_there t0 F (words s) → (0 < cnt)%nat → (N + o + cnt ≤ F)%nat → Z.of_nat cnt ≤ t_frameCount t → (2 * (o + cnt) ≤ length out)%nat →
  wp (out <- call_hook_at i out (Z.of_nat o * MAX_NUM_CHANNELS) (Z.of_nat cnt) ((λ p, p + Z.of_nat (N + o)) <$> aux_of t0) ;;
      upd_track i (λ t, set_t_frameCount (t_frameCount t - Z.of_nat cnt) t) ;;; ret out)
    (λ out' s', only i p s s' ∧ (∃ t', track s' i = Some t' ∧ t_frameCount t' = t_frameCount t - Z.of_nat cnt ∧
       at_frame F t0 p fs (N + (o + cnt)) true t' (world s')) ∧
       mixed t0 fs N o (o + cnt) out out' ∧ aux_mixed t0 fs (N + o) (N + (o + cnt)) (words s) (words s')) s.
Proof.
  intros Ht Hat Hr Hok He Ha Hc HF Hcnt Ho. pose proof (track_nonneg _ _ _ Ht) as Hi. pose proof Hat as [Hsame _].
  destruct (at_frame_lends _ _ _ _ _ _ _ Hat He) as (a & n & c & Hl & (Hb & Hfc & Hc1 & Hn & Hin) & Hck & HkF & Hst & Hlen & Hle).
  destruct (same_aux _ _ Hsame) as (Eaux & Emu & _). rewrite Nat.add_assoc. apply wp_bind.
  assert (∀ x, (muted t = false → x = Some (a + width_of p * (c + Z.of_nat cnt))) →
    at_frame F t0 p fs (N + o + cnt) true (set_t_frameCount (t_frameCount t - Z.of_nat cnt) (set_in_ x t)) (world s)) as Hat'.
  { intros x Hx. split; [by apply same_count_step, same_in_step|]. exists a, n, (c + Z.of_nat cnt).
    split; [done|]. split; [|split; [lia|split; [lia|]]].
    - split; [done|]. split; [cbn; lia|]. split; [lia|]. split; [done|]. intros Hm. by apply Hx.
    - rewrite Hst. f_equal. lia. }
  destruct (muted t) eqn:Em.
  - eapply wp_det.
    { unfold call_hook_at, call_hook. rewrite bind_bind. rewrite (bind_of _ (get_track_eq _ _ _ Ht)).
      unfold muted in Em. apply bool_decide_eq_true in Em. rewrite Em. rewrite bind_ret. unfold ret. by rewrite take_drop. }
    apply wp_bind. eapply wp_upd_track; [done|]. apply wp_ret. split; [by apply only_put|]. split.
    + eexists. split; [by eapply track_put|]. split; [done|].
      specialize (Hat' (in_ t) ltac:(done)). by replace (set_in_ (in_ t) t) with t in Hat' by (by destruct t).
    + split; [apply mixed_nothing; intros; left; congruence|apply aux_mixed_nothing; intros; left; congruence].
  - destruct (hook_step i p t s out N o cnt F fs (a + width_of p * c)) as (out' & ws' & E & Hm & Hx); try done.
    + by eapply same_ready.
    + by apply Hin.
    + lia.
    + apply Hle. lia.
    + by eapply same_aux_there.
    + rewrite Eaux in E. eapply wp_det; [exact E|]. apply wp_bind. eapply wp_upd_track; [by eapply track_put|].
      apply wp_ret. split; [|split; [|split]].
      * eapply only_trans; [by apply (only_words _ _ _ ws')|]. eapply only_trans; [by apply only_put|]. by apply only_put.
      * eexists. split; [by eapply track_put, track_put|]. split; [done|]. apply Hat'. intros _. f_equal. lia.
      * by eapply same_mixed.
      * by eapply same_aux_mixed.
Qed.

(** The next buffer of a track that has used up its loan. *)
Lemma refill_ok {A} F i p t0 fs k n pts off s t (k_end : M (mixer W) A) (k_go : M (mixer W) A) (Q : A → mixer W → Prop) :
  track s i = Some t → at_frame F t0 p fs k true t (world s) → ready t0 p → env_ok (world s) → t_frameCount t = 0 → 0 < n < 2 ^ 16 → Z.of_nat k + n ≤ Z.of_nat F →
  (∀ s' t', only i p s s' → words s' = words s → track s' i = Some t' → at_frame F t0 p fs k false t' (world s') → wp k_end Q s') →
  (∀ s' t', only i p s s' → words s' = words s → track s' i = Some t' → at_frame F t0 p fs k true t' (world s') → 0 < t_frameCount t' → wp k_go Q s') →
  wp (release i ;;;
      outputPTS <- output_pts i pts off ;;
      acquire i n outputPTS ;;;
      t <- get_track i ;;
      upd_track i (set_in_ (raw (t_buffer t))) ;;;
      match raw (t_buffer t) with
      | None => k_end
      | Some _ => upd_track i (set_t_frameCount (u16 (frameCount (t_buffer t)))) ;;; k_go
      end) Q s.
Proof.
  intros Ht Hat Hr He H0 Hn HnF Hend Hgo. pose proof (track_nonneg _ _ _ Ht) as Hi. pose proof Hat as [Hsame _].
  destruct (at_frame_lends _ _ _ _ _ _ _ Hat He) as (a & m & c & Hl & (Hb & Hfc & Hc1 & Hm & Hin) & Hck & HkF & Hst & Hlen & Hle).
  pose proof (same_ready _ _ _ Hsame Hr) as Hrt.
  apply wp_bind. eapply wp_mono; [by eapply release_ok'; [done|apply Hrt|..]|].
  intros _ s1 (O1 & W1 & S1 & L1 & b1 & T1). rewrite Hst, drop_drop in S1. replace (k - Z.to_nat c + Z.to_nat m)%nat with k in S1 by lia.
  apply wp_bind. unfold output_pts. apply wp_bind, wp_getst, wp_bind. eapply wp_get_track; [done|]. apply wp_ret.
  apply wp_bind. eapply wp_mono; [eapply acquire_ok; [exact T1|apply Hrt|by apply O1|done|done]|].
  intros _ s2 (O2 & W2 & S2 & b2 & T2 & Hcase). pose proof (only_trans _ _ _ _ _ O1 O2) as O.
  apply wp_bind. eapply wp_get_track; [done|]. apply wp_bind. eapply wp_upd_track; [done|]. cbn [raw t_buffer set_t_buffer].
  assert (env_ok (world s2)) as He2 by apply O2.
  destruct (raw b2) as [a2|] eqn:Eraw.
  - destruct Hcase as [Hcnt Hl2]. apply wp_bind. eapply wp_upd_track; [by eapply track_put|].
    assert (u16 (frameCount b2) = frameCount b2) as Eu by (unfold u16; apply Z.mod_small; lia).
    eapply Hgo; [|by rewrite <-W1, <-W2|by eapply track_put, track_put| |].
    + eapply only_trans; [exact O|]. eapply only_trans; [by apply only_put|]. by apply only_put.
    + split; [by apply same_count_step, same_in_step, same_buffer_step, same_buffer_step|].
      exists a2, (frameCount b2), 0. split; [done|]. split; [|split; [lia|split; [lia|]]].
      * split; [by cbn; destruct b2; cbn in *; subst|]. split; [cbn; lia|]. split; [lia|]. split; [lia|]. intros _. cbn. f_equal. lia.
      * cbn [world put_track set_tracks]. change (Z.to_nat 0) with 0%nat. rewrite Nat.sub_0_r. by rewrite <-S1, <-S2.
    + cbn. rewrite Eu. lia.
  - destruct Hcase as [Hnil Hl2]. eapply Hend; [|by rewrite <-W1, <-W2|by eapply track_put|].
    + eapply only_trans; [exact O|]. by apply only_put.
    + split; [by apply same_in_step, same_buffer_step, same_buffer_step|]. split; [done|]. split; [by rewrite <-Hnil; apply S2|].
      rewrite S1 in Hnil. apply (f_equal length) in Hnil. rewrite length_drop in Hnil. cbn in Hnil. lia.
Qed.

(** The block from frame [N] of the output on, from its frame [o] on. *)
Definition block_done (i p : Z) (t0 : track_t) (fs : list (Z * Z)) (F N o : nat) (out : list Z) s (out' : list Z) (live : bool) s' : Prop :=
  only i p s s' ∧ (∃ t', track s' i = Some t' ∧ at_frame F t0 p fs (N + 16) live t' (world s')) ∧
  mixed t0 fs N o 16 out out' ∧ aux_mixed t0 fs (N + o) (N + 16) (words s) (words s').
(** What a turn of the loop starts from. *)
Definition block_at (i p : Z) (t0 : track_t) (fs : list (Z * Z)) (F N o : nat) (out : list Z) (t : track_t) s : Prop :=
  track s i = Some t ∧ at_frame F t0 p fs (N + o) true t (world s) ∧ env_ok (world s) ∧ aux_there t0 F (words s) ∧
  (o ≤ 16)%nat ∧ (N + 16 ≤ F)%nat ∧ length out = 32%nat.

Section block.
Context (i p : Z) (t0 : track_t) (fs : list (Z * Z)) (F N : nat) (pts : Z).
Context (Hr : ready t0 p) (Hok : Forall frame_ok fs) (HF : Z.of_nat F < 2 ^ 16).

Lemma block_done_refl t s out : block_at i p t0 fs F N 16 out t s → block_done i p t0 fs F N 16 out s out true s.
Proof.
  intros (Ht & Hat & He & _). split; [by apply only_refl|]. split; [by exists t|]. split; [apply mixed_refl|apply aux_mixed_refl].
Qed.
Lemma block_done_step o o' out out1 out2 live s s1 s2 : (o ≤ o' ≤ 16)%nat → only i p s s1 → mixed t0 fs N o o' out out1 →
  aux_mixed t0 fs (N + o) (N + o') (words s) (words s1) → block_done i p t0 fs F N o' out1 s1 out2 live s2 →
  block_done i p t0 fs F N o out s out2 live s2.
Proof.
  intros Ho O M A (O' & T' & M' & A'). split; [by eapply only_trans|]. split; [done|].
  split; [by eapply mixed_trans|]. eapply aux_mixed_trans; [|done..]. lia.
Qed.

Let loop (fuel : nat) (out : list Z) (o : nat) :=
  mix_block fuel i pts (Z.of_nat F) (Z.of_nat N) out (16 - Z.of_nat o) ((λ p, p + Z.of_nat (N + o)) <$> aux_of t0).
Definition enough (fuel o : nat) (t : track_t) : Prop :=
  o = 16%nat ∨ (16 - o + (if bool_decide (t_frameCount t = 0)%Z then 1 else 0) ≤ fuel)%nat.

(** After the mixing: the loop goes on, with a new buffer if the old one is used up. *)
Lemma block_rest fuel o out t s :
  (∀ o out t s, block_at i p t0 fs F N o out t s → enough fuel o t →
     wp (loop fuel out o) (λ '(out', live) s', block_done i p t0 fs F N o out s out' live s') s) →
  block_at i p t0 fs F N o out t s → (16 - o ≤ fuel)%nat →
  wp (t <- get_track i ;;
      if bool_decide (t_frameCount t = 0) && bool_decide (16 - Z.of_nat o ≠ 0) then
        release i ;;;
        outputPTS <- output_pts i pts (Z.of_nat N + (BLOCKSIZE - (16 - Z.of_nat o))) ;;
        acquire i (u32 (Z.of_nat F - Z.of_nat N - (BLOCKSIZE - (16 - Z.of_nat o)))) outputPTS ;;;
        t <- get_track i ;;
        upd_track i (set_in_ (raw (t_buffer t))) ;;;
        match raw (t_buffer t) with
        | None => ret (out, false)
        | Some _ => upd_track i (set_t_frameCount (u16 (frameCount (t_buffer t)))) ;;; loop fuel out o
        end
      else loop fuel out o)
    (λ '(out', live) s', block_done i p t0 fs F N o out s out' live s') s.
Proof.
  intros IH Hb Hfuel. pose proof Hb as (Ht & Hat & He & Ha & Ho & HN & Hout).
  apply wp_bind. eapply wp_get_track; [done|]. destruct (bool_decide _ && bool_decide _) eqn:Eb.
  - apply andb_true_iff in Eb as [E1%bool_decide_eq_true E2%bool_decide_eq_true].
    eapply refill_ok; try done.
    + unfold BLOCKSIZE. rewrite u32_small by lia. lia.
    + unfold BLOCKSIZE. rewrite u32_small by lia. lia.
    + intros s' t' O Ew T' At'. apply wp_ret. split; [done|]. destruct At' as (? & ? & ? & Hlen).
      split; [exists t'; split; [done|]; split; [done|]; split_and!; [done..|lia]|].
      rewrite Ew. split; [apply mixed_nothing|apply aux_mixed_nothing]; intros j Hj; right; apply lookup_ge_None_2; lia.
    + intros s' t' O Ew T' At' Hpos. eapply wp_mono; [eapply (IH o out t')|].
      * split; [done|]. split; [done|]. split; [apply O|]. by rewrite Ew.
      * right. rewrite bool_decide_false by lia. lia.
      * intros [out' live] s2 Hd. eapply (block_done_step o o); [lia|exact O|apply mixed_refl|rewrite Ew; apply aux_mixed_refl|done].
  - eapply IH; [done|]. apply andb_false_iff in Eb as [E1%bool_decide_eq_false|E2%bool_decide_eq_false].
    + right. rewrite bool_decide_false by done. lia.
    + left. lia.
Qed.

Lemma mix_block_ok fuel o out t s : block_at i p t0 fs F N o out t s → enough fuel o t →
  wp (loop fuel out o) (λ '(out', live) s', block_done i p t0 fs F N o out s out' live s') s.
Proof.
  revert o out t s. induction fuel as [|fuel IH]; intros o out t s Hb Hfuel; pose proof Hb as (Ht & Hat & He & Ha & Ho & HN & Hout).
  { assert (o = 16%nat) as -> by (destruct Hfuel; [done|case_bool_decide; lia]). apply (wp_ret (out, true)). by eapply block_done_refl. }
  unfold loop. cbn [mix_block]. destruct (decide (o = 16%nat)) as [->|Hne].
  { rewrite bool_decide_true by lia. apply (wp_ret (out, true)). by eapply block_done_refl. }
  rewrite bool_decide_false by lia. destruct Hfuel as [|Hfuel]; [lia|]. apply wp_bind. eapply wp_get_track; [done|]. cbv zeta.
  destruct (at_frame_lends _ _ _ _ _ _ _ Hat He) as (a & m & c & _ & (_ & Hfc & Hc & _ & _) & _).
  set (cnt := Z.to_nat (if bool_decide (t_frameCount t > 16 - Z.of_nat o) then 16 - Z.of_nat o else t_frameCount t)).
  assert ((if bool_decide (t_frameCount t > 16 - Z.of_nat o) then 16 - Z.of_nat o else t_frameCount t) = Z.of_nat cnt) as ->
    by (unfold cnt; destruct (bool_decide_reflect (t_frameCount t > 16 - Z.of_nat o)); lia).
  assert ((o + cnt ≤ 16)%nat ∧ Z.of_nat cnt ≤ t_frameCount t ∧ (cnt = 0%nat → t_frameCount t = 0)) as (Hc1 & Hc2 & Hc3) by (unfold cnt; destruct (bool_decide_reflect (t_frameCount t > 16 - Z.of_nat o)); lia).
  destruct (decide (cnt = 0%nat)) as [E0|E0].
  - rewrite (bool_decide_false (Z.of_nat cnt ≠ 0)) by lia. apply wp_bind, wp_ret.
    apply (block_rest fuel o out t s IH Hb). rewrite bool_decide_true in Hfuel by auto. lia.
  - rewrite (bool_decide_true (Z.of_nat cnt ≠ 0)) by lia. apply wp_bind.
    unfold BLOCKSIZE at 1. replace (16 - (16 - Z.of_nat o)) with (Z.of_nat o) by lia.
    pose proof (mix_some_ok i p t0 fs F s N o cnt out t Ht Hat Hr Hok He Ha ltac:(lia) ltac:(lia) Hc2 ltac:(lia)) as Hmix.
    apply wp_bind_inv in Hmix. apply wp_bind. eapply wp_mono; [exact Hmix|]. intros out1 s1 H1.
    apply wp_bind_inv in H1. apply wp_bind. eapply wp_mono; [exact H1|]. intros [] s2 (O & (t' & T' & Ef & At') & Hm & Hx).
    apply wp_ret. replace (16 - Z.of_nat o - Z.of_nat cnt) with (16 - Z.of_nat (o + cnt)) by lia.
    replace ((λ p, p + Z.of_nat cnt) <$> ((λ p, p + Z.of_nat (N + o)) <$> aux_of t0)) with ((λ p, p + Z.of_nat (N + (o + cnt))) <$> aux_of t0)
      by (destruct (aux_of t0); cbn; [f_equal; lia|done]).
    eapply wp_mono; [eapply (block_rest fuel (o + cnt) out1 t' s2 IH); [|case_bool_decide; lia]|].
    + split; [done|]. split; [done|]. split; [apply O|]. split; [by eapply aux_there_mixed|]. split; [lia|]. split; [lia|]. destruct Hm as [-> _]. done.
    + intros [out2 live] s3. apply block_done_step; [lia|done..].
Qed.
End block.
End mix.
