(* ===== verification/AudioMixerGroups.v ===== *)
(** * Mixing all tracks

    [process__genericNoResampling] on all enabled tracks, group by group of the tracks
    with the same main buffer, and the reference it is compared with: for each frame the
    sum of the frames of the tracks, each times its gain. *)

From Stdlib Require Import ZArith Lia.
From stdpp Require Import base tactics numbers option list gmap.
From S2P Require Import Prelude Words AudioPrimitives Nbaio NbaioProviders AudioMixer AudioMixerRules AudioMixerHooks AudioMixerMix.

#[local] Opaque bits top_bit.

(** ** What is stored and what is added *)

(** The words [m] are stored, to the others [g] is added. *)
Definition upd (g : Z → Z) (m : Z → option Z) (ws ws' : gmap Z Z) : Prop :=
  ∀ x, ws' !! x = match m x with Some v => Some v | None => (λ v, s32 (v + g x)) <$> ws !! x end.
Definition words_ok (ws : gmap Z Z) : Prop := ∀ x v, ws !! x = Some v → is_s32 v.
Definition none {A} (x : Z) : option A := None.

Lemma upd_trans g1 m1 g2 m2 a b c : (∀ x v, m1 x = Some v → is_s32 v ∧ g2 x = 0) →
  upd g1 m1 a b → upd g2 m2 b c →
  upd (λ x, g1 x + g2 x) (λ x, match m2 x with Some v => Some v | None => m1 x end) a c.
Proof.
  intros Hm H1 H2 x. rewrite H2, H1. destruct (m2 x); [done|]. destruct (m1 x) as [v|] eqn:E.
  - destruct (Hm x v E) as [Hv ->]. cbn. rewrite Z.add_0_r. by rewrite s32_small.
  - destruct (a !! x); [|done]. cbn. by rewrite s32_add_l, Z.add_assoc.
Qed.
Lemma upd_ext g1 m1 g2 m2 a b : (∀ x, m1 x = m2 x) → (∀ x, m1 x = None → g1 x = g2 x) → upd g1 m1 a b → upd g2 m2 a b.
Proof. intros Hm Hg H x. rewrite H, <-Hm. destruct (m1 x) eqn:E; [done|]. by rewrite Hg. Qed.
Lemma upd_refl a : words_ok a → upd (λ _, 0) none a a.
Proof.
  intros Ha x. cbn. destruct (a !! x) as [v|] eqn:E; [|done]. cbn. rewrite Z.add_0_r, s32_small; [done|]. by eapply Ha.
Qed.
Lemma upd_words_ok g m a b : (∀ x v, m x = Some v → is_s32 v) → upd g m a b → words_ok b.
Proof.
  intros Hm H x v Hx. rewrite H in Hx. destruct (m x) eqn:E; [injection Hx as <-; by eapply Hm|].
  apply fmap_Some in Hx as (? & _ & ->). apply s32_range.
Qed.
Lemma upd_is_Some g m a b x : upd g m a b → is_Some (a !! x) → is_Some (b !! x).
Proof. intros H [v Hv]. rewrite H, Hv. destruct (m x); by eexists. Qed.

Section stores.
Context {W : Type} `{!MixerEnv W}.
Implicit Types s : mixer W.

Lemma store_words_eq b l s : words_ok (words s) → (∀ k, (k < length l)%nat → is_Some (words s !! (b + Z.of_nat k))) →
  ∃ ws, store_words b l s = Ret tt (set_words ws s) ∧
    upd (λ _, 0) (λ x, if bool_decide (b ≤ x) then l !! Z.to_nat (x - b) else None) (words s) ws.
Proof.
  intros Hw Hl. enough (∃ ws, store_words b l s = Ret tt (set_words ws s) ∧
    ∀ x, ws !! x = match (if bool_decide (b ≤ x) then l !! Z.to_nat (x - b) else None) with Some v => Some v | None => words s !! x end) as (ws & E & H).
  { exists ws. split; [done|]. intros x. rewrite H. destruct (if bool_decide (b ≤ x) then _ else _); [done|].
    destruct (words s !! x) as [v|] eqn:Ev; [|done]. cbn. rewrite Z.add_0_r, s32_small; [done|]. by eapply Hw. }
  clear Hw. revert b s Hl. induction l as [|v l IH]; intros b s Hl.
  { exists (words s). split; [by rewrite set_words_id|]. intros x. by destruct (bool_decide _). }
  cbn [store_words]. destruct (Hl 0%nat) as [v0 E0]; [cbn; lia|]. replace (b + Z.of_nat 0) with b in E0 by lia.
  rewrite bind_getst, E0, bind_deref, bind_modify. destruct (IH (b + 1) (set_words (<[b:=v]> (words s)) s)) as (ws & E & H).
  { intros k Hk. cbn. rewrite lookup_insert_ne by lia. replace (b + 1 + Z.of_nat k) with (b + Z.of_nat (S k)) by lia. apply Hl. cbn. lia. }
  exists ws. split; [by rewrite E; destruct s|]. intros x. rewrite H. cbn [words set_words].
  destruct (decide (x = b)) as [->|].
  - rewrite bool_decide_false, bool_decide_true, Z.sub_diag by lia. cbn. by rewrite lookup_insert_eq.
  - rewrite lookup_insert_ne by done. destruct (decide (b ≤ x)).
    + rewrite !bool_decide_true by lia. by replace (Z.to_nat (x - b)) with (S (Z.to_nat (x - (b + 1)))) by lia.
    + by rewrite !bool_decide_false by lia.
Qed.
End stores.

(** The mask [e] holds the tracks of [G] that go on. *)
Definition masks (e : Z) (G : list Z) (live : Z → bool) : Prop :=
  is_mask e ∧ ∀ i, 0 ≤ i < 32 → Z.testbit e i = true ↔ i ∈ G ∧ live i = true.

Lemma masks_bits e g G live : is_mask g → G = bits g → masks e G live → bits e = filter (λ i, live i = true) G.
Proof.
  intros Hg -> [He Hb]. apply bits_ext; [done..|]. intros i Hi. rewrite Hb by done. rewrite elem_of_bits by done. tauto.
Qed.
Lemma masks_ext e G live live' : (∀ i, i ∈ G → live i = live' i) → masks e G live → masks e G live'.
Proof. intros Hl [He Hb]. split; [done|]. intros i Hi. rewrite Hb by done. split; intros [H1 H2]; split; try done; [rewrite <-Hl|rewrite Hl]; done. Qed.
Lemma masks_clear e G live i : 0 ≤ i → masks e G live → masks (clear_bit e i) G (λ j, if decide (j = i) then false else live j).
Proof.
  intros Hi [He Hb]. split; [by apply mask_clear|]. intros j Hj. rewrite testbit_clear by lia. rewrite andb_true_iff, Hb, bool_decide_eq_true by done.
  case_decide; naive_solver.
Qed.
Lemma masks_live e G live i (l : bool) : 0 ≤ i → masks e G live → live i = true →
  masks (if l then e else clear_bit e i) G (λ j, if decide (j = i) then l else live j).
Proof.
  intros Hi Hm Hl. destruct l; [|by apply masks_clear]. eapply masks_ext; [|done]. intros j _. case_decide; [by subst|done].
Qed.

Section groups.
Context {W : Type} `{!MixerEnv W, !StreamLaws W}.
Implicit Types s : mixer W.

(** ** The enabled tracks *)

(** The tracks when the mixing starts, their providers and their streams. *)
Context (T : Z → track_t) (P : Z → Z) (FS : Z → list (Z * Z)) (en : list Z) (F : nat).
Context (Hready : ∀ i, i ∈ en → ready (T i) (P i)) (Hframes : ∀ i, i ∈ en → Forall frame_ok (FS i)).
Context (Hinj : ∀ i j, i ∈ en → j ∈ en → P i = P j → i = j) (HF : Z.of_nat F < 2 ^ 16).

(** The tracks of [en] have mixed [pos i] frames each. *)
Definition mixing (pos : Z → nat) (live : Z → bool) s : Prop :=
  env_ok (world s) ∧ ∀ i, i ∈ en → ∃ t, track s i = Some t ∧ at_frame F (T i) (P i) (FS i) (pos i) (live i) t (world s).

Lemma at_frame_world t0 p fs k live t w w' : stream w' p = stream w p → loan w' p = loan w p →
  at_frame F t0 p fs k live t w → at_frame F t0 p fs k live t w'.
Proof. intros E1 E2 [H1 H2]. split; [done|]. destruct live; by rewrite E1, E2. Qed.
Lemma at_frame_dead t0 p fs k k' t w : (k ≤ k')%nat → at_frame F t0 p fs k false t w → at_frame F t0 p fs k' false t w.
Proof. intros Hk (H1 & H2 & H3 & H4). split_and!; [done..|lia]. Qed.

Lemma mixing_step pos live i k l s s' t : i ∈ en → mixing pos live s → only i (P i) s s' → track s' i = Some t →
  at_frame F (T i) (P i) (FS i) k l t (world s') →
  mixing (λ j, if decide (j = i) then k else pos j) (λ j, if decide (j = i) then l else live j) s'.
Proof.
  intros Hi [He Hm] (_ & He' & Ht & Hw) Ti Hat. split; [done|]. intros j Hj. case_decide as E; [subst; by exists t|].
  destruct (Hm j Hj) as (tj & Tj & Aj). exists tj. split; [by rewrite Ht|].
  destruct (Hw (P j)) as [E1 E2]; [intros Ep; by apply E, Hinj|]. by eapply at_frame_world.
Qed.
Lemma mixing_ext pos live pos' live' s : (∀ i, i ∈ en → pos i = pos' i ∧ live i = live' i) → mixing pos live s → mixing pos' live' s.
Proof. intros Hx [He Hm]. split; [done|]. intros i Hi. destruct (Hx i Hi) as [<- <-]. by apply Hm. Qed.
Lemma mixing_words pos live ws s : mixing pos live s → mixing pos live (set_words ws s).
Proof. done. Qed.

(** ** The reference *)

(** A frame of the mix of the tracks [l], and the word it is packed in. *)
Definition mix_frame (l : list Z) (q : nat) : Z * Z := foldl (λ o i, add_frame (T i) (FS i !! q) o) (0, 0) l.
Definition mix_word (l : list Z) (q : nat) : Z :=
  let o := mix_frame l q in pack (clamp16 (Z.shiftr o.1 12)) (clamp16 (Z.shiftr o.2 12)).
(** What a track adds to the word at [x] of the auxiliary buffers, in the frames from [lo] to [hi]. *)
Definition aux_gain (t : track_t) (fs : list (Z * Z)) (lo hi x : Z) : Z :=
  match aux_of t with
  | Some b =>
      if bool_decide (b + lo ≤ x < b + hi) && negb (muted t) then
        match fs !! Z.to_nat (x - b) with Some f => aux_mean f * volume (aux_ramp t) | None => 0 end
      else 0
  | None => 0
  end.
Definition aux_sum (l : list Z) (lo hi : nat) (x : Z) : Z :=
  foldr (λ i a, aux_gain (T i) (FS i) (Z.of_nat lo) (Z.of_nat hi) x + a) 0 l.

Lemma aux_gain_add t fs lo hi x v : is_s32 v → aux_add t fs lo hi x v = s32 (v + aux_gain t fs lo hi x).
Proof.
  intros Hv. unfold aux_add, aux_gain. assert (v = s32 (v + 0)) as E by (rewrite Z.add_0_r; symmetry; by apply s32_small).
  destruct (aux_of t); [|done]. case_bool_decide; [|done]. cbn [andb]. destruct (muted t); cbn [negb]; [by destruct (fs !! _)|].
  by destruct (fs !! _).
Qed.
Lemma aux_mixed_upd t fs lo hi ws ws' : words_ok ws → aux_mixed t fs lo hi ws ws' →
  upd (aux_gain t fs (Z.of_nat lo) (Z.of_nat hi)) none ws ws'.
Proof.
  intros Hw Hm x. cbn. rewrite Hm. destruct (ws !! x) as [v|] eqn:E; [|done]. cbn. f_equal. apply aux_gain_add. by eapply Hw.
Qed.
Lemma aux_gain_split t fs lo mid hi x : lo ≤ mid ≤ hi → aux_gain t fs lo mid x + aux_gain t fs mid hi x = aux_gain t fs lo hi x.
Proof.
  intros Hm. unfold aux_gain. destruct (aux_of t) as [b|]; [|done].
  destruct (decide (b + lo ≤ x < b + mid)).
  - rewrite (bool_decide_true (b + lo ≤ x < b + mid)), (bool_decide_false (b + mid ≤ x < b + hi)), (bool_decide_true (b + lo ≤ x < b + hi)) by lia.
    cbn [andb]. by rewrite Z.add_0_r.
  - rewrite (bool_decide_false (b + lo ≤ x < b + mid)) by lia. cbn [andb]. destruct (decide (b + mid ≤ x < b + hi)).
    + by rewrite (bool_decide_true (b + mid ≤ x < b + hi)), (bool_decide_true (b + lo ≤ x < b + hi)) by lia.
    + by rewrite (bool_decide_false (b + mid ≤ x < b + hi)), (bool_decide_false (b + lo ≤ x < b + hi)) by lia.
Qed.
Lemma aux_sum_cons i l lo hi x : aux_sum (i :: l) lo hi x = aux_gain (T i) (FS i) (Z.of_nat lo) (Z.of_nat hi) x + aux_sum l lo hi x.
Proof. done. Qed.
Lemma aux_sum_split l lo mid hi x : (lo ≤ mid ≤ hi)%nat → aux_sum l lo mid x + aux_sum l mid hi x = aux_sum l lo hi x.
Proof.
  intros Hm. induction l as [|i l IH]; [done|]. rewrite !aux_sum_cons, <-IH, <-(aux_gain_split _ _ (Z.of_nat lo) (Z.of_nat mid) (Z.of_nat hi)) by lia. lia.
Qed.
Lemma aux_sum_nil l lo x : aux_sum l lo lo x = 0.
Proof.
  induction l as [|i l IH]; [done|]. rewrite aux_sum_cons, IH. unfold aux_gain. destruct (aux_of _); [|done]. by rewrite bool_decide_false by lia.
Qed.
Lemma aux_sum_app l1 l2 lo hi x : aux_sum (l1 ++ l2) lo hi x = aux_sum l1 lo hi x + aux_sum l2 lo hi x.
Proof. induction l1 as [|i l IH]; [done|]. cbn [app]. rewrite !aux_sum_cons, IH. lia. Qed.

(** Tracks whose streams have ended add nothing. *)
Lemma foldl_filter_id {A B} (f : A → B → A) (Q : B → Prop) `{∀ x, Decision (Q x)} (l : list B) a :
  (∀ a x, x ∈ l → ¬ Q x → f a x = a) → foldl f a (filter Q l) = foldl f a l.
Proof.
  revert a. induction l as [|x l IH]; intros a Hf; [done|]. rewrite filter_cons. case_decide as Hx; cbn.
  - apply IH. intros; apply Hf; [by right|done].
  - rewrite (Hf a x) by (by left || done). apply IH. intros; apply Hf; [by right|done].
Qed.
Lemma mix_frame_filter (Q : Z → Prop) `{∀ i, Decision (Q i)} l q : (∀ i, i ∈ l → ¬ Q i → FS i !! q = None) →
  mix_frame (filter Q l) q = mix_frame l q.
Proof. intros Hq. apply foldl_filter_id. intros a i Hi Hn. by rewrite Hq. Qed.
Lemma aux_sum_filter (Q : Z → Prop) `{∀ i, Decision (Q i)} l lo hi x : (∀ i q, i ∈ l → ¬ Q i → (lo ≤ q)%nat → FS i !! q = None) →
  aux_sum (filter Q l) lo hi x = aux_sum l lo hi x.
Proof.
  intros Hq. induction l as [|i l IH]; [done|]. rewrite filter_cons. case_decide as Hi; rewrite !aux_sum_cons.
  - f_equal. apply IH. intros. apply Hq; [by right|done..].
  - rewrite IH by (intros; apply Hq; [by right|done..]). unfold aux_gain. destruct (aux_of (T i)) as [b|]; [|done].
    case_bool_decide; [|done]. rewrite (Hq i) by (by left || done || lia). by destruct (negb _).
Qed.

(** ** A block of a group of tracks *)

(** The invariant of the loop over the tracks of the group: those of [l] have mixed the block. *)
Record block_inv (G : list Z) (N : nat) (pos : Z → nat) (live : Z → bool) (s0 : mixer W) (l : list Z) (a : list Z * Z * Z)
    (pos1 : Z → nat) (live1 : Z → bool) s : Prop := {
  bi_static : static s = static s0;
  bi_mixing : mixing pos1 live1 s;
  bi_pos : ∀ i, pos1 i = if decide (i ∈ l) then (N + 16)%nat else pos i;
  bi_live : ∀ i, live1 i = true → live i = true;
  bi_same : ∀ i, i ∉ l → live1 i = live i;
  bi_group : masks a.1.2 G live1;
  bi_enabled : masks a.2 en live1;
  bi_length : length a.1.1 = 32%nat;
  bi_frames : ∀ j, (j < 16)%nat → frame_of a.1.1 j = Some (mix_frame l (N + j));
  bi_words : upd (aux_sum l N (N + 16)) none (words s0) (words s)
}.

Lemma mix_frame_snoc l i q : mix_frame (l ++ [i]) q = add_frame (T i) (FS i !! q) (mix_frame l q).
Proof. unfold mix_frame. by rewrite foldl_app. Qed.
Lemma aux_sum_snoc l i lo hi x : aux_sum (l ++ [i]) lo hi x = aux_sum l lo hi x + aux_gain (T i) (FS i) (Z.of_nat lo) (Z.of_nat hi) x.
Proof. rewrite aux_sum_app. cbn. lia. Qed.

(** The pointer into the auxiliary buffer. *)
Lemma aux_pointer t i (N : nat) s : ready t (P i) →
  (if needs_aux t then p <- deref (auxBuffer t) ;; ret (Some (p + Z.of_nat N)) else ret None) s = Ret ((λ p, p + Z.of_nat N) <$> aux_of t) s.
Proof.
  intros Hr. unfold aux_of. destruct (needs_aux t) eqn:E; [|done]. destruct (ready_aux _ _ Hr E) as [p ->]. done.
Qed.

Lemma block_inv_step G N pos live s0 l i out e1 enabled pos1 live1 s s' out' lv t :
  block_inv G N pos live s0 l (out, e1, enabled) pos1 live1 s → i ∈ en → 0 ≤ i → i ∉ l → live i = true → words_ok (words s0) →
  track s i = Some t → block_done i (P i) (T i) (FS i) F N 0 out s out' lv s' →
  block_inv G N pos live s0 (l ++ [i]) (if lv : bool then (out', e1, enabled) else (out', clear_bit e1 i, clear_bit enabled i))
    (λ j, if decide (j = i) then (N + 16)%nat else pos1 j) (λ j, if decide (j = i) then lv else live1 j) s'.
Proof.
  intros [B1 B2 B3 B4 B5 B6 B7 B8 B9 B10] Hi H0 Hn Hl Hw Ht (O & (t' & T' & At') & [M1 M2] & A). cbn [fst snd] in *.
  assert (live1 i = true) as Hl1 by (by rewrite B5). split; cbn [fst snd].
  - rewrite <-B1. apply O.
  - by eapply mixing_step.
  - intros j. rewrite B3. destruct (decide (j = i)) as [->|]; [by rewrite decide_True by set_solver|].
    destruct (decide (j ∈ l)); [by rewrite decide_True by set_solver|by rewrite decide_False by set_solver].
  - intros j. destruct (decide (j = i)) as [->|]; [done|]. apply B4.
  - intros j Hj. rewrite decide_False by set_solver. apply B5. set_solver.
  - pose proof (masks_live _ _ _ _ lv H0 B6 Hl1). by destruct lv.
  - pose proof (masks_live _ _ _ _ lv H0 B7 Hl1). by destruct lv.
  - destruct lv; cbn; by rewrite M1.
  - intros j Hj. assert (frame_of out' j = Some (mix_frame (l ++ [i]) (N + j))) as E; [|by destruct lv].
    rewrite M2, bool_decide_true, B9 by lia. cbn. by rewrite mix_frame_snoc.
  - rewrite Nat.add_0_r in A. eapply aux_mixed_upd in A; [|by eapply upd_words_ok; [|done]].
    eapply upd_ext; [| |eapply upd_trans; [|exact B10|exact A]]; [done| |done]. intros x _. cbn. by rewrite aux_sum_snoc.
Qed.

Lemma mix_tracks_ok g G e1 enabled N pts pos live s :
  is_mask g → G = bits g → (∀ i, i ∈ G → i ∈ en) → masks e1 G live → masks enabled en live → (N + 16 ≤ F)%nat →
  mixing pos live s → (∀ i, i ∈ G → pos i = N) → words_ok (words s) → (∀ i, i ∈ G → aux_there (T i) F (words s)) →
  wp (mix_tracks pts (Z.of_nat F) (Z.of_nat N) e1 enabled)
    (λ a s', ∃ pos' live', block_inv G N pos live s (bits e1) a pos' live' s') s.
Proof.
  intros Hg HG Hsub He1 Hen HN Hmix Hpos Hw Haux. unfold mix_tracks. pose proof (masks_bits _ _ _ _ Hg HG He1) as Eb.
  assert (∀ i, i ∈ bits e1 → i ∈ G ∧ live i = true ∧ 0 ≤ i) as Hin.
  { intros i. rewrite Eb, list_elem_of_filter. intros [Hl Hi]. split; [done|]. split; [done|]. rewrite HG, elem_of_bits in Hi by done. lia. }
  apply (wp_for_each (λ l a s1, ∃ pos1 live1, block_inv G N pos live s l a pos1 live1 s1)).
  { exists pos, live. split; try done.
    - intros j Hj. cbn. do 16 (destruct j as [|j]; [done|]). lia.
    - by apply upd_refl. }
  intros l1 i l2 [[out e] enab] s1 El (pos1 & live1 & B).
  assert (i ∈ bits e1) as Hi by (rewrite El; set_solver). destruct (Hin i Hi) as (HiG & Hli & Hi0). pose proof (Hsub i HiG) as Hien.
  assert (i ∉ l1) as Hil1. { pose proof (NoDup_bits e1 (proj1 He1)) as Hnd. rewrite El in Hnd. apply NoDup_app in Hnd as (_ & Hd & _). intros ?. eapply Hd; [done|set_solver]. }
  pose proof (bi_mixing _ _ _ _ _ _ _ _ _ _ B) as [He Hm]. destruct (Hm i Hien) as (t & Ti & At).
  rewrite (bi_pos _ _ _ _ _ _ _ _ _ _ B), decide_False, (Hpos i HiG), (bi_same _ _ _ _ _ _ _ _ _ _ B), Hli in At by done.
  assert (same_track (T i) t) as Hst by apply At. destruct (same_aux _ _ Hst) as (Ea & _).
  pose proof (same_ready _ _ _ Hst (Hready i Hien)) as Hrt.
  apply wp_bind. eapply wp_get_track; [done|]. apply wp_bind. eapply wp_det; [by apply (aux_pointer t i N)|]. rewrite Ea.
  apply wp_bind. eapply wp_mono.
  - pose proof (mix_block_ok i (P i) (T i) (FS i) F N pts (Hready i Hien) (Hframes i Hien) HF BLOCK_FUEL 0 out t s1) as Hb.
    cbv beta zeta in Hb. replace (N + 0)%nat with N in Hb by lia. apply Hb.
    + split; [done|]. split; [by rewrite Nat.add_0_r|]. split; [done|]. split.
      * intros b Hb' k Hk. eapply upd_is_Some; [apply (bi_words _ _ _ _ _ _ _ _ _ _ B)|]. by apply (Haux i HiG b).
      * split; [lia|]. split; [lia|]. apply (bi_length _ _ _ _ _ _ _ _ _ _ B).
    + right. unfold BLOCK_FUEL. case_bool_decide; lia.
  - intros [out' lv] s2 Hd. cbv beta iota. apply wp_ret. eexists _, _. by eapply block_inv_step.
Qed.

(** ** A group of tracks *)

(** The words of a main buffer that are written. *)
Definition main_words (b : Z) (G : list Z) (lo hi : nat) (x : Z) : option Z :=
  if bool_decide (b + Z.of_nat lo ≤ x < b + Z.of_nat hi) then Some (mix_word G (Z.to_nat (x - b))) else None.
(** The main buffer is there, and apart from the auxiliary ones. *)
Definition main_there (b : Z) (ws : gmap Z Z) : Prop := ∀ k, (k < F)%nat → is_Some (ws !! (b + Z.of_nat k)).
Definition apart (b : Z) : Prop := ∀ i q, i ∈ en → aux_of (T i) = Some q → q + Z.of_nat F ≤ b ∨ b + Z.of_nat F ≤ q.

Lemma main_words_s32 b G lo hi x v : main_words b G lo hi x = Some v → is_s32 v.
Proof. unfold main_words. case_bool_decide; [|done]. intros [= <-]. apply s32_range. Qed.
Lemma main_words_split b G lo mid hi x : (lo ≤ mid ≤ hi)%nat →
  match main_words b G mid hi x with Some v => Some v | None => main_words b G lo mid x end = main_words b G lo hi x.
Proof.
  intros Hm. unfold main_words. destruct (decide (b + Z.of_nat mid ≤ x < b + Z.of_nat hi)).
  - by rewrite (bool_decide_true (b + Z.of_nat mid ≤ _ < _)), bool_decide_true by lia.
  - rewrite (bool_decide_false (b + Z.of_nat mid ≤ _ < _)) by lia. destruct (decide (b + Z.of_nat lo ≤ x < b + Z.of_nat mid)).
    + by rewrite !bool_decide_true by lia.
    + by rewrite !bool_decide_false by lia.
Qed.
Lemma aux_gain_apart b i lo hi x : apart b → i ∈ en → 0 ≤ lo → hi ≤ Z.of_nat F → b ≤ x < b + Z.of_nat F → aux_gain (T i) (FS i) lo hi x = 0.
Proof.
  intros Ha Hi Hlo Hhi Hx. unfold aux_gain. destruct (aux_of (T i)) as [q|] eqn:E; [|done].
  rewrite bool_decide_false; [done|]. destruct (Ha i q Hi E); lia.
Qed.
Lemma aux_sum_apart b l lo hi x : apart b → (∀ i, i ∈ l → i ∈ en) → (hi ≤ F)%nat → b ≤ x < b + Z.of_nat F → aux_sum l lo hi x = 0.
Proof.
  intros Ha Hl Hhi Hx. induction l as [|i l IH]; [done|]. rewrite aux_sum_cons, IH by (intros; apply Hl; by right).
  rewrite (aux_gain_apart b); [done|done|apply Hl; by left|lia..].
Qed.

(** The group [G] has mixed [N] frames to its main buffer at [b]. *)
Record group_inv (G : list Z) (b : Z) (N : nat) (pos0 : Z → nat) (live0 : Z → bool) (s0 : mixer W) (e1 enabled : Z)
    (pos : Z → nat) (live : Z → bool) s : Prop := {
  gi_static : static s = static s0;
  gi_mixing : mixing pos live s;
  gi_pos : ∀ i, pos i = if decide (i ∈ G) then N else pos0 i;
  gi_live : ∀ i, live i = true → live0 i = true;
  gi_same : ∀ i, i ∉ G → live i = live0 i;
  gi_group : masks e1 G live;
  gi_enabled : masks enabled en live;
  gi_words : upd (aux_sum G 0 N) (main_words b G 0 N) (words s0) (words s)
}.

(** The tracks of the group that have stopped have no frames left. *)
Lemma group_ended G b N pos0 live0 s0 e1 enabled pos live s i q : (∀ i, i ∈ G → i ∈ en) →
  group_inv G b N pos0 live0 s0 e1 enabled pos live s → i ∈ G → live i ≠ true → (N ≤ q)%nat → FS i !! q = None.
Proof.
  intros Hsub [_ [_ Hm] G3 _ _ _ _ _] Hi Hn Hq. apply lookup_ge_None_2.
  destruct (Hm i (Hsub i Hi)) as (t & _ & At). rewrite G3, decide_True in At by done.
  destruct (live i); [done|]. destruct At as (_ & _ & _ & Hlen). lia.
Qed.
Lemma block_group g G b N pos0 live0 s0 e1 enabled pos live s out e1' enabled' pos1 live1 s1 ws packed :
  is_mask g → G = bits g → (∀ i, i ∈ G → i ∈ en) → apart b → (N + 16 ≤ F)%nat → words_ok (words s0) →
  group_inv G b N pos0 live0 s0 e1 enabled pos live s →
  block_inv G N pos live s (bits e1) (out, e1', enabled') pos1 live1 s1 →
  length packed = 16%nat → (∀ j, (j < 16)%nat → packed !! j = Some (mix_word G (N + j))) →
  upd (λ _, 0) (λ x, if bool_decide (b + Z.of_nat N ≤ x) then packed !! Z.to_nat (x - (b + Z.of_nat N)) else None) (words s1) ws →
  group_inv G b (N + 16) pos0 live0 s0 e1' enabled' (λ i, if decide (i ∈ G) then (N + 16)%nat else pos0 i) live1 (set_words ws s1).
Proof.
  intros Hg HG Hsub Hap HN Hw Hinv [B1 B2 B3 B4 B5 B6 B7 B8 B9 B10] Hl Hp Hws. pose proof Hinv as [G1 G2 G3 G4 G5 G6 G7 G8]. cbn [fst snd] in *.
  pose proof (masks_bits _ _ _ _ Hg HG G6) as Eb.
  assert (∀ i, i ∈ G → i ∉ bits e1 → live1 i = false ∧ live i = false) as Hdead.
  { intros i Hi Hn. rewrite B5 by done. rewrite Eb, list_elem_of_filter in Hn. destruct (live i); tauto. }
  split.
  - by rewrite <-G1, <-B1.
  - destruct B2 as [He Hm]. split; [done|]. intros i Hi. destruct (Hm i Hi) as (t & Ti & At). exists t. split; [done|].
    rewrite B3, G3 in At. destruct (decide (i ∈ bits e1)) as [Hb|Hb].
    + rewrite decide_True; [done|]. rewrite Eb, list_elem_of_filter in Hb. tauto.
    + destruct (decide (i ∈ G)) as [HiG|HiG]; [|done]. destruct (Hdead i HiG Hb) as [Ed _]. rewrite Ed in *.
      eapply at_frame_dead; [|done]. lia.
  - done.
  - intros i Hi. by apply G4, B4.
  - intros i Hi. rewrite B5; [by apply G5|]. rewrite Eb, list_elem_of_filter. tauto.
  - done.
  - done.
  - cbn [words set_words].
    assert (∀ x, aux_sum (bits e1) N (N + 16) x = aux_sum G N (N + 16) x) as Ea.
    { intros x. rewrite Eb. apply aux_sum_filter. intros i q Hi Hn Hq. by eapply group_ended. }
    assert (upd (λ x, aux_sum G 0 N x + aux_sum G N (N + 16) x) (main_words b G 0 N) (words s0) (words s1)) as U1.
    { eapply upd_ext; [| |eapply upd_trans; [|exact G8|exact B10]]; [done| |].
      - intros x _. cbv beta. by rewrite Ea.
      - intros x v Hx. split; [by eapply main_words_s32|]. rewrite Ea. apply (aux_sum_apart b); [done..|].
        unfold main_words in Hx. case_bool_decide; [lia|done]. }
    eapply upd_ext; [| |eapply upd_trans; [|exact U1|exact Hws]].
    + intros x. cbv beta. rewrite <-(main_words_split b G 0 N (N + 16)) by lia.
      unfold main_words at 2. case_bool_decide as H1.
      * destruct (decide (x < b + Z.of_nat (N + 16))).
        { rewrite bool_decide_true, Hp by lia. do 2 f_equal. lia. }
        { rewrite bool_decide_false, lookup_ge_None_2 by lia. done. }
      * by rewrite bool_decide_false by lia.
    + intros x _. cbv beta. rewrite Z.add_0_r. apply aux_sum_split. lia.
    + intros x v Hx. split; [by eapply main_words_s32|done].
Qed.

Definition group_ok (g : Z) (G : list Z) (b : Z) (s0 : mixer W) : Prop :=
  is_mask g ∧ G = bits g ∧ (∀ i, i ∈ G → i ∈ en) ∧ apart b ∧ words_ok (words s0) ∧ main_there b (words s0) ∧
  ∀ i, i ∈ G → aux_there (T i) F (words s0).

Lemma mix_blocks_ok fuel nb g G b N pts pos0 live0 s0 e1 enabled pos live s :
  group_ok g G b s0 → (0 < nb ≤ fuel)%nat → F = (N + 16 * nb)%nat →
  group_inv G b N pos0 live0 s0 e1 enabled pos live s →
  wp (mix_blocks fuel pts (Z.of_nat F) (Z.of_nat N) (b + Z.of_nat N) e1 enabled)
    (λ enabled' s', ∃ e1' pos' live', group_inv G b F pos0 live0 s0 e1' enabled' pos' live' s') s.
Proof.
  intros Hok. pose proof Hok as (Hg & HG & Hsub & Hap & Hw & Hmain & Haux).
  revert nb N e1 enabled pos live s. induction fuel as [|fuel IH]; intros nb N e1 enabled pos live s Hnb EF Hinv; [lia|].
  cbn [mix_blocks]. pose proof Hinv as [_ I2 I3 _ _ I6 I7 I8].
  assert (∀ x, is_Some (words s0 !! x) → is_Some (words s !! x)) as Hthere by (intros x; apply (upd_is_Some _ _ _ _ _ I8)).
  apply wp_bind. eapply wp_mono.
  - eapply (mix_tracks_ok g G e1 enabled N pts pos live s); try done; [lia| | |].
    + intros i Hi. by rewrite I3, decide_True.
    + eapply upd_words_ok; [|exact I8]. intros x v. apply main_words_s32.
    + intros i Hi q Hq k Hk. apply Hthere. by eapply Haux.
  - intros [[out e1'] enabled'] s1 (pos1 & live1 & B). cbv beta iota.
    destruct (ditherAndClamp_frames out 16) as (packed & Ep & Hlen & Hp); [rewrite (bi_length _ _ _ _ _ _ _ _ _ _ B : length out = 32%nat); lia|].
    apply wp_bind. eapply wp_deref; [exact Ep|]. apply wp_bind.
    destruct (store_words_eq (b + Z.of_nat N) packed s1) as (ws & Es & Hws).
    { eapply upd_words_ok; [|apply (bi_words _ _ _ _ _ _ _ _ _ _ B)]. done. }
    { intros k Hk. eapply upd_is_Some; [apply (bi_words _ _ _ _ _ _ _ _ _ _ B)|]. apply Hthere.
      replace (b + Z.of_nat N + Z.of_nat k) with (b + Z.of_nat (N + k)) by lia. apply Hmain. lia. }
    eapply wp_det; [exact Es|]. cbv zeta.
    assert (group_inv G b (N + 16) pos0 live0 s0 e1' enabled' (λ i, if decide (i ∈ G) then (N + 16)%nat else pos0 i) live1 (set_words ws s1)) as Hinv'.
    { eapply (block_group g G b N pos0 live0 s0 e1 enabled pos live s out); try done; try lia.
      intros j Hj. rewrite (Hp j _ Hj (bi_frames _ _ _ _ _ _ _ _ _ _ B j Hj)). unfold mix_word. f_equal.
      rewrite (masks_bits _ _ _ _ Hg HG I6), mix_frame_filter; [done|]. intros i Hi Hn. eapply group_ended; [done..|lia]. }
    replace (Z.of_nat N + BLOCKSIZE) with (Z.of_nat (N + 16)) by (unfold BLOCKSIZE; lia).
    replace (b + Z.of_nat N + BLOCKSIZE) with (b + Z.of_nat (N + 16)) by (unfold BLOCKSIZE; lia).
    case_bool_decide as Hlt.
    + eapply (IH (nb - 1)%nat); [lia|lia|exact Hinv'].
    + apply wp_ret. assert (N + 16 = F)%nat as <- by lia. by eexists _, _, _.
Qed.

(** ** All groups *)

Lemma same_buffer_ok e0 s t1 : is_mask e0 → e0 ≠ 0 → (∀ i, i ∈ bits e0 → ∃ t, track s i = Some t ∧ mainBuffer t = mainBuffer (T i)) →
  track s (top_bit e0) = Some t1 →
  wp (same_buffer e0) (λ e1 s', s' = s ∧ is_mask e1 ∧
    bits e1 = filter (λ i, mainBuffer (T i) = mainBuffer (T (top_bit e0))) (bits e0)) s.
Proof.
  intros He Hne Ht Ht1. pose proof (top_in e0 He Hne) as Htop.
  assert (mainBuffer t1 = mainBuffer (T (top_bit e0))) as Em by (destruct (Ht _ Htop) as (t & Et & <-); congruence).
  assert (0 ≤ top_bit e0) as H0 by apply Z.log2_nonneg.
  unfold same_buffer. apply wp_bind. eapply wp_get_track; [done|].
  assert (is_mask (clear_bit e0 (top_bit e0))) as Hc by by apply mask_clear.
  eapply wp_mono; [apply (wp_for_each (λ l e1 s', s' = s ∧ is_mask e1 ∧ ∀ i, 0 ≤ i < 32 →
    Z.testbit e1 i = true ↔ Z.testbit e0 i = true ∧ (i ∈ l → mainBuffer (T i) = mainBuffer (T (top_bit e0)))))|].
  - split; [done|]. split; [done|]. intros i _. set_solver.
  - intros l1 i l2 e1 s1 El (-> & He1 & Hb). assert (i ∈ bits (clear_bit e0 (top_bit e0))) as Hi by (rewrite El; set_solver).
    apply elem_of_bits in Hi as [Hi Hi1]; [|done]. rewrite testbit_clear, andb_true_iff, bool_decide_eq_true in Hi1 by lia.
    destruct Hi1 as [Hi1 Hi2]. destruct (Ht i) as (t & Et & Etm); [by apply elem_of_bits|].
    apply wp_bind. eapply wp_get_track; [done|]. apply wp_ret. split; [done|]. rewrite Em, Etm.
    case_bool_decide as Hm.
    + split; [apply mask_clear; [lia|done]|]. intros j Hj. rewrite testbit_clear, andb_true_iff, Hb, bool_decide_eq_true by lia. set_solver.
    + split; [done|]. intros j Hj. rewrite Hb by done. set_solver.
  - intros e1 s1 (-> & He1 & Hb). split; [done|]. split; [done|]. apply bits_ext; [done..|]. intros i Hi. rewrite Hb by done.
    split; intros [Hi1 Hi2]; split; try done.
    + destruct (decide (i = top_bit e0)) as [->|]; [done|]. apply Hi2. apply elem_of_bits; [done|]. split; [done|].
      rewrite testbit_clear by lia. by rewrite bool_decide_true, andb_true_r.
Qed.

Lemma length_bits e : is_mask e → (length (bits e) ≤ 32)%nat.
Proof.
  intros He. rewrite bits_filter by done. etrans; [apply length_filter|]. done.
Qed.
Lemma bits_without e e1 (Q : Z → Prop) `{∀ i, Decision (Q i)} : is_mask e → is_mask e1 → bits e1 = filter Q (bits e) →
  is_mask (Z.land e (Z.lnot e1)) ∧ bits (Z.land e (Z.lnot e1)) = filter (λ i, ¬ Q i) (bits e).
Proof.
  intros He He1 Hb. assert (is_mask (Z.land e (Z.lnot e1))) as Hm by by apply mask_land. split; [done|].
  apply bits_ext; [done..|]. intros i Hi. rewrite Z.land_spec, Z.lnot_spec, andb_true_iff by lia.
  assert (Z.testbit e1 i = true ↔ Z.testbit e i = true ∧ Q i) as Hx.
  { pose proof (elem_of_bits e1 i He1) as H1. rewrite Hb, list_elem_of_filter, elem_of_bits in H1 by done. tauto. }
  destruct (Z.testbit e1 i), (Z.testbit e i); cbn; naive_solver.
Qed.

Section all_groups.
Context (e0 : Z) (live0 : Z → bool) (s0 : mixer W) (He0 : is_mask e0) (Hlive0 : ∀ i, i ∈ bits e0 ↔ i ∈ en ∧ live0 i = true).
Context (Hw0 : words_ok (words s0)) (Haux0 : ∀ i, i ∈ en → aux_there (T i) F (words s0)).
Context (Hmain0 : ∀ i, i ∈ en → ∃ b, mainBuffer (T i) = Some b ∧ main_there b (words s0) ∧ apart b).
Context (Hdisj : ∀ i j b b', i ∈ en → j ∈ en → mainBuffer (T i) = Some b → mainBuffer (T j) = Some b' → b ≠ b' →
  b + Z.of_nat F ≤ b' ∨ b' + Z.of_nat F ≤ b).

(** The tracks that play to a main buffer, and what they store there. *)
Definition group (b : Z) : list Z := filter (λ i, mainBuffer (T i) = Some b) (bits e0).
Definition track_words (x i : Z) : option Z := b ← mainBuffer (T i); main_words b (group b) 0 F x.
Definition mains (D : list Z) (x : Z) : option Z := head (omap (track_words x) D).

Lemma mains_s32 D x v : mains D x = Some v → is_s32 v.
Proof.
  unfold mains. intros Hx. apply head_Some_elem_of, list_elem_of_omap in Hx as (i & _ & Hi).
  unfold track_words in Hi. apply bind_Some in Hi as (b & _ & Hb). by eapply main_words_s32.
Qed.
Lemma mains_at i b x D : (∀ j, j ∈ D → j ∈ en) → i ∈ D → mainBuffer (T i) = Some b → b ≤ x < b + Z.of_nat F →
  mains D x = Some (mix_word (group b) (Z.to_nat (x - b))).
Proof.
  intros HD Hi Hb Hx. assert (track_words x i = Some (mix_word (group b) (Z.to_nat (x - b)))) as E.
  { unfold track_words, main_words. rewrite Hb. cbn [mbind option_bind]. rewrite bool_decide_true by lia. reflexivity. }
  unfold mains. destruct (head (omap (track_words x) D)) as [v|] eqn:Eh.
  - apply head_Some_elem_of, list_elem_of_omap in Eh as (j & Hj & Ej). unfold track_words in Ej.
    apply bind_Some in Ej as (b' & Hb' & Ej). unfold main_words in Ej. case_bool_decide as Hx'; [|done].
    destruct (decide (b = b')) as [<-|Hne]; [by rewrite <-Ej|]. destruct (Hdisj i j b b'); [by apply HD..|done|done|done|lia|lia].
  - apply head_None in Eh. assert (mix_word (group b) (Z.to_nat (x - b)) ∈ omap (track_words x) D) as Hin by (apply list_elem_of_omap; by exists i).
    rewrite Eh in Hin. by apply elem_of_nil in Hin.
Qed.
Lemma mains_none D x : (∀ i b, i ∈ D → mainBuffer (T i) = Some b → ¬ b ≤ x < b + Z.of_nat F) → mains D x = None.
Proof.
  intros Hn. unfold mains. destruct (head _) as [v|] eqn:Eh; [|done].
  apply head_Some_elem_of, list_elem_of_omap in Eh as (j & Hj & Ej). unfold track_words in Ej.
  apply bind_Some in Ej as (b' & Hb' & Ej). unfold main_words in Ej. case_bool_decide as Hx'; [|done]. exfalso. eapply Hn; [done..|lia].
Qed.

Lemma mains_aux D x v l : (∀ i, i ∈ D → i ∈ en) → mains D x = Some v → (∀ i, i ∈ l → i ∈ en) → aux_sum l 0 F x = 0.
Proof.
  intros HD Hx Hl. unfold mains in Hx. apply head_Some_elem_of, list_elem_of_omap in Hx as (i & Hi & Ei).
  unfold track_words in Ei. apply bind_Some in Ei as (b & Hb & Ei). unfold main_words in Ei. case_bool_decide; [|done].
  destruct (Hmain0 i (HD i Hi)) as (b' & Hb' & _ & Hap). assert (b' = b) as -> by congruence. apply (aux_sum_apart b); [done..|lia].
Qed.

(** The tracks of [D] have been mixed, those of [e] are to come. *)
Record all_inv (e : Z) (D : list Z) (enabled : Z) (pos : Z → nat) (live : Z → bool) s : Prop := {
  ai_static : static s = static s0;
  ai_mixing : mixing pos live s;
  ai_mask : is_mask e;
  ai_left : bits e = filter (λ i, i ∉ D) (bits e0);
  ai_sub : ∀ i, i ∈ D → i ∈ bits e0;
  ai_nodup : NoDup D;
  ai_closed : ∀ i j, i ∈ bits e0 → j ∈ bits e0 → mainBuffer (T i) = mainBuffer (T j) → i ∈ D → j ∈ D;
  ai_pos : ∀ i, pos i = if decide (i ∈ D) then F else 0%nat;
  ai_live : ∀ i, live i = true → live0 i = true;
  ai_same : ∀ i, i ∉ D → live i = live0 i;
  ai_enabled : masks enabled en live;
  ai_words : upd (aux_sum D 0 F) (mains D) (words s0) (words s)
}.

Lemma all_inv_words_ok e D enabled pos live s : all_inv e D enabled pos live s → words_ok (words s).
Proof. intros [_ _ _ _ _ _ _ _ _ _ _ A]. eapply upd_words_ok; [|exact A]. apply mains_s32. Qed.
Lemma all_inv_there e D enabled pos live s x : all_inv e D enabled pos live s → is_Some (words s0 !! x) → is_Some (words s !! x).
Proof. intros [_ _ _ _ _ _ _ _ _ _ _ A]. by eapply upd_is_Some. Qed.

(** The next group is all the tracks of its main buffer. *)
Lemma next_group e D enabled pos live s b : all_inv e D enabled pos live s → e ≠ 0 → mainBuffer (T (top_bit e)) = Some b →
  filter (λ i, mainBuffer (T i) = mainBuffer (T (top_bit e))) (bits e) = group b ∧ (∀ i, i ∈ group b → (i ∉ D) ∧ i ∈ bits e0) ∧ top_bit e ∈ group b.
Proof.
  intros [_ _ A3 A4 A5 _ A7 _ _ _ _ _] Hne Hb. pose proof (top_in e A3 Hne) as Htop. rewrite A4, list_elem_of_filter in Htop.
  assert (∀ i, i ∈ bits e0 → mainBuffer (T i) = Some b → i ∉ D) as Hn.
  { intros i Hi Hm Hd. apply Htop. eapply (A7 i); [done|apply Htop|congruence|done]. }
  split; [|split].
  - rewrite A4, Hb. unfold group. rewrite list_filter_filter. apply filter_ext_in. intros i Hi. split; [by intros [? _]|]. intros. split; [done|]. by apply Hn.
  - intros i [Hm Hi]%list_elem_of_filter. split; [by apply Hn|done].
  - apply list_elem_of_filter. by split; [|apply Htop].
Qed.

Lemma mains_app b D x : (∀ j, j ∈ D → j ∈ bits e0) → (∀ i, i ∈ group b → i ∉ D) → (∃ i, i ∈ group b) →
  match main_words b (group b) 0 F x with Some v => Some v | None => mains D x end = mains (D ++ group b) x.
Proof.
  intros HD Hn [i Hi].
  assert (∀ j, j ∈ D ++ group b → j ∈ en) as Hsub.
  { intros j Hj. apply Hlive0. apply elem_of_app in Hj as [Hj|Hj]; [by apply HD|]. apply list_elem_of_filter in Hj. tauto. }
  assert (mainBuffer (T i) = Some b) as Hb by (apply list_elem_of_filter in Hi; tauto).
  unfold main_words. case_bool_decide as Hx.
  - symmetry. apply (mains_at i); [done|set_solver|done|lia].
  - unfold mains. rewrite omap_app. assert (omap (track_words x) (group b) = []) as ->; [|by rewrite app_nil_r].
    destruct (omap (track_words x) (group b)) as [|v l] eqn:E; [done|].
    assert (v ∈ omap (track_words x) (group b)) as Hv by (rewrite E; by left).
    apply list_elem_of_omap in Hv as (j & [Hj _]%list_elem_of_filter & Ej). unfold track_words in Ej. rewrite Hj in Ej.
    cbn [mbind option_bind] in Ej. unfold main_words in Ej. by rewrite bool_decide_false in Ej.
Qed.

(** The state after a group, seen from the start of all. *)
Lemma all_group_step e e1 D b enabled enabled' pos live pos' live' s s' e1' :
  all_inv e D enabled pos live s → e ≠ 0 → mainBuffer (T (top_bit e)) = Some b → is_mask e1 → bits e1 = group b → apart b →
  group_inv (group b) b F pos live s e1' enabled' pos' live' s' →
  all_inv (Z.land e (Z.lnot e1)) (D ++ group b) enabled' pos' live' s'.
Proof.
  intros A Hne Hb He1 Eb Hap [G1 G2 G3 G4 G5 G6 G7 G8]. destruct (next_group _ _ _ _ _ _ _ A Hne Hb) as (Eg & Hg & Htop).
  pose proof A as [A1 A2 A3 A4 A5 A6 A7 A8 A9 A10 A11 A12].
  assert (bits e1 = filter (λ i, mainBuffer (T i) = mainBuffer (T (top_bit e))) (bits e)) as Ee1 by (by rewrite Eg).
  destruct (bits_without e e1 _ A3 He1 Ee1) as [Hm El]. split; try done.
  - congruence.
  - rewrite El, A4, list_filter_filter. apply filter_ext_in. intros i Hi. rewrite not_elem_of_app. unfold group. rewrite list_elem_of_filter, Hb. tauto.
  - intros i [Hi|Hi]%elem_of_app; [by apply A5|by apply Hg].
  - apply NoDup_app. split; [done|]. split; [intros i Hi Hi'; by apply (proj1 (Hg i Hi'))|]. apply NoDup_filter. by apply NoDup_bits.
  - intros i j Hi Hj Em. rewrite !elem_of_app. intros [Hd|Hd]; [left; by eapply (A7 i)|right].
    apply list_elem_of_filter in Hd as [Hd _]. apply list_elem_of_filter. split; [congruence|done].
  - intros i. rewrite G3, A8. destruct (decide (i ∈ group b)); [by rewrite decide_True by set_solver|].
    destruct (decide (i ∈ D)); [by rewrite decide_True by set_solver|by rewrite decide_False by set_solver].
  - intros i Hi. by apply A9, G4.
  - intros i Hi. rewrite not_elem_of_app in Hi. rewrite G5, A10; tauto.
  - eapply upd_ext; [| |eapply upd_trans; [|exact A12|exact G8]].
    + intros x. cbv beta. apply mains_app; [done|by intros i Hi; apply Hg|by eexists].
    + intros x _. cbv beta. by rewrite aux_sum_app.
    + intros x v Hx. split; [by eapply mains_s32|].
      eapply mains_aux; [|done|intros i Hi; by apply Hlive0, Hg]. intros i Hi. by apply Hlive0, A5.
Qed.

(** The groups one after the other. *)
Context (nb : nat) (HFnb : F = (16 * nb)%nat) (Hnb : (0 < nb)%nat).
Lemma for_groups_ok fuel pts e D enabled pos live s :
  all_inv e D enabled pos live s → (length (bits e) ≤ fuel)%nat →
  wp (for_groups fuel (λ en t1 e1, out <- deref (mainBuffer t1) ;; mix_blocks (S (Z.to_nat (Z.of_nat F))) pts (Z.of_nat F) 0 out e1 en) e enabled)
    (λ enabled' s', ∃ D' pos' live', all_inv 0 D' enabled' pos' live' s') s.
Proof.
  revert e D enabled pos live s. induction fuel as [|fuel IH]; intros e D enabled pos live s A Hf.
  - assert (e = 0) as -> by (apply bits_nil; [by eapply ai_mask|apply nil_length_inv; lia]). apply wp_ret. by exists D, pos, live.
  - cbn [for_groups]. case_bool_decide as He; [subst; apply wp_ret; by exists D, pos, live|].
    pose proof A as [A1 [Aw Am] A3 A4 A5 A6 A7 A8 A9 A10 A11 A12].
    assert (∀ i, i ∈ bits e → i ∈ en) as Hen by (intros i Hi; rewrite A4, list_elem_of_filter in Hi; apply Hlive0, Hi).
    destruct (Hmain0 _ (Hen _ (top_in e A3 He))) as (b & Hb & Hthere & Hap).
    assert (∀ i, i ∈ bits e → ∃ t, track s i = Some t ∧ mainBuffer t = mainBuffer (T i)) as Htr.
    { intros i Hi. destruct (Am i (Hen i Hi)) as (t & Ti & [Hsame _]). exists t. split; [done|]. by apply same_aux in Hsame as (_ & _ & _ & _ & _ & _ & _ & ? & _). }
    destruct (Htr _ (top_in e A3 He)) as (t1 & T1 & Em1).
    destruct (next_group _ _ _ _ _ _ _ A He Hb) as (Eg & Hg & Htop).
    apply wp_bind. eapply wp_get_track; [done|]. apply wp_bind. eapply wp_mono; [by apply (same_buffer_ok e s t1)|].
    intros e1 s1 (-> & He1 & Eb1). rewrite Eg in Eb1. apply wp_bind. apply wp_bind. eapply wp_deref; [by rewrite Em1|].
    eapply wp_mono.
    + pose proof (mix_blocks_ok (S (Z.to_nat (Z.of_nat F))) nb e1 (group b) b 0 pts pos live s e1 enabled pos live s) as Hmb.
      rewrite Z.add_0_r in Hmb. apply Hmb; [|lia|lia|].
      * split; [done|]. split; [done|]. split; [intros i Hi; by apply Hlive0, Hg|]. split; [done|].
        split; [by eapply all_inv_words_ok|]. split; [intros k Hk; by eapply all_inv_there, Hthere|].
        intros i Hi q Hq k Hk. eapply all_inv_there; [done|]. eapply Haux0; [by apply Hlive0, Hg|done|done].
      * split; try done.
        -- intros i. destruct (decide (i ∈ group b)); [|done]. rewrite A8, decide_False by (by apply Hg). done.
        -- split; [done|]. intros i Hi. rewrite <-Eb1, elem_of_bits by done. split; [|tauto]. intros Hbit. split; [done|].
           assert (i ∈ group b) as Hig by (rewrite <-Eb1; by apply elem_of_bits). rewrite A10 by (by apply Hg). by apply Hlive0, Hg.
        -- eapply upd_ext; [| |apply upd_refl; by eapply all_inv_words_ok].
           ++ intros x. unfold main_words. by rewrite bool_decide_false by lia.
           ++ intros x _. by rewrite aux_sum_nil.
    + intros enabled' s' (e1' & pos' & live' & G). eapply IH; [by eapply all_group_step|].
      destruct (bits_without e e1 _ A3 He1 (eq_trans Eb1 (eq_sym Eg))) as [_ El].
      assert (length (filter (λ i, mainBuffer (T i) = mainBuffer (T (top_bit e))) (bits e)) + length (bits (Z.land e (Z.lnot e1))) = length (bits e))%nat as Hlen.
      { rewrite El. rewrite <-length_app. apply Permutation_length. apply filter_app_complement. }
      rewrite Eg in Hlen. assert (0 < length (group b))%nat; [|lia]. destruct (group b); [by apply elem_of_nil in Htop|cbn; lia].
Qed.
End all_groups.
End groups.
