(* ===== verification/AudioMixerSpec.v ===== *)
(** * The output of the mixer

    What [process__genericNoResampling] and
    [process__OneTrack16BitsStereoNoResampling] store, for any tracks whose providers
    keep their contract. *)

From Stdlib Require Import ZArith Lia.
From stdpp Require Import base tactics numbers option list gmap.
From S2P Require Import Prelude Words AudioPrimitives Nbaio NbaioProviders AudioMixer AudioMixerRules AudioMixerHooks AudioMixerMix AudioMixerGroups.

#[local] Opaque bits top_bit.

Section spec.
Context {W : Type} `{!MixerEnv W, !StreamLaws W}.
Implicit Types s : mixer W.

(** ** The reference *)

(** What the frame [q] of a track adds to a side of the mix. *)
Definition frame_gain (right : bool) (t : track_t) (fs : list (Z * Z)) (q : nat) : Z :=
  match fs !! q with
  | Some f => if muted t then 0 else (if right then f.2 else f.1) * volume (if right then ramp1 t else ramp0 t)
  | None => 0
  end.
Definition sum_of (f : Z → Z) (l : list Z) : Z := foldr (λ i a, f i + a) 0 l.

(** The word of a frame: the sums in 32 bits, scaled, saturated and packed. *)
Definition mixed_word (T : Z → track_t) (FS : Z → list (Z * Z)) (l : list Z) (q : nat) : Z :=
  let sum right := s32 (sum_of (λ i, frame_gain right (T i) (FS i) q) l) in
  pack (saturate (Z.shiftr (sum false) 12)) (saturate (Z.shiftr (sum true) 12)).

Lemma sum_of_perm f l l' : l ≡ₚ l' → sum_of f l = sum_of f l'.
Proof. unfold sum_of. induction 1; cbn; lia. Qed.
Lemma sum_of_filter f (Q : Z → Prop) `{∀ i, Decision (Q i)} l : (∀ i, i ∈ l → ¬ Q i → f i = 0) → sum_of f (filter Q l) = sum_of f l.
Proof.
  induction l as [|i l IH]; intros Hf; [done|]. rewrite filter_cons. case_decide as Hi; cbn.
  - unfold sum_of in IH. rewrite IH; [done|]. intros; apply Hf; [by right|done].
  - rewrite (Hf i) by (by left || done). apply IH. intros; apply Hf; [by right|done].
Qed.
Lemma aux_sum_of T FS l lo hi x : aux_sum T FS l lo hi x = sum_of (λ i, aux_gain (T i) (FS i) (Z.of_nat lo) (Z.of_nat hi) x) l.
Proof. done. Qed.

Lemma add_frame_gain t fs q o : is_s32 o.1 → is_s32 o.2 →
  add_frame t (fs !! q) o = (s32 (o.1 + frame_gain false t fs q), s32 (o.2 + frame_gain true t fs q)).
Proof.
  intros H1 H2. unfold add_frame, frame_gain. destruct (fs !! q); [destruct (muted t)|]; [|done|];
    rewrite !Z.add_0_r, !s32_small by done; by destruct o.
Qed.
Lemma mix_frame_sum T FS l q : mix_frame T FS l q =
  (s32 (sum_of (λ i, frame_gain false (T i) (FS i) q) l), s32 (sum_of (λ i, frame_gain true (T i) (FS i) q) l)).
Proof.
  unfold mix_frame.
  enough (∀ a b, foldl (λ o i, add_frame (T i) (FS i !! q) o) (s32 a, s32 b) l =
    (s32 (a + sum_of (λ i, frame_gain false (T i) (FS i) q) l), s32 (b + sum_of (λ i, frame_gain true (T i) (FS i) q) l))) as Hx.
  { specialize (Hx 0 0). by rewrite !Z.add_0_l in Hx. }
  induction l as [|i l IH]; intros a b; cbn [foldl]; [by rewrite !Z.add_0_r|].
  rewrite add_frame_gain by apply s32_range. cbn [fst snd]. rewrite !s32_add_l, IH. unfold sum_of. cbn [foldr]. by rewrite !Z.add_assoc.
Qed.
Lemma mix_word_mixed T FS l q : mix_word T FS l q = mixed_word T FS l q.
Proof.
  unfold mix_word, mixed_word. cbv zeta. rewrite mix_frame_sum. cbn [fst snd].
  assert (∀ a, is_s32 a → is_s32 (Z.shiftr a 12)) as Hs.
  { unfold is_s32. intros a Ha. rewrite Z.shiftr_div_pow2 by lia. Z.to_euclidean_division_equations; lia. }
  by rewrite !clamp16_spec by (apply Hs, s32_range).
Qed.

(** ** What is asked of the mixer *)

(** The enabled tracks can be mixed without resampling: [T] are the tracks, [P] their providers. *)
Record mixable (F : nat) (T : Z → track_t) (P : Z → Z) s : Prop := {
  mx_count : m_frameCount s = Z.of_nat F;
  mx_size : Z.of_nat F < 2 ^ 16;
  mx_blocks : ∃ nb, (0 < nb)%nat ∧ F = (16 * nb)%nat;
  mx_mask : is_mask (enabledTracks s);
  mx_env : env_ok (world s);
  mx_tracks i : i ∈ bits (enabledTracks s) → track s i = Some (T i) ∧ ready (T i) (P i) ∧ loan (world s) (P i) = None;
  mx_inj i j : i ∈ bits (enabledTracks s) → j ∈ bits (enabledTracks s) → P i = P j → i = j;
  mx_words : words_ok (words s);
  mx_aux i : i ∈ bits (enabledTracks s) → aux_there (T i) F (words s);
  mx_main i : i ∈ bits (enabledTracks s) → ∃ b, mainBuffer (T i) = Some b ∧ main_there F b (words s) ∧ apart T (bits (enabledTracks s)) F b;
  mx_apart i j b b' : i ∈ bits (enabledTracks s) → j ∈ bits (enabledTracks s) → mainBuffer (T i) = Some b → mainBuffer (T j) = Some b' →
    b ≠ b' → b + Z.of_nat F ≤ b' ∨ b' + Z.of_nat F ≤ b
}.

Section run.
Context (F : nat) (T : Z → track_t) (P : Z → Z) (s0 : mixer W) (Hmx : mixable F T P s0) (pts : Z).
Let en : list Z := bits (enabledTracks s0).
Let FS (i : Z) : list (Z * Z) := stream (world s0) (P i).

(** The track has frames when the mixing starts. *)
Definition has_frames (i : Z) : bool := match FS i with [] => false | _ => true end.

Lemma en_ready i : i ∈ en → ready (T i) (P i).
Proof. intros Hi. by apply (mx_tracks _ _ _ _ Hmx). Qed.
Lemma en_frames i : i ∈ en → Forall frame_ok (FS i).
Proof. intros _. by apply stream_ok, (mx_env _ _ _ _ Hmx). Qed.
Lemma F_pos : 0 < Z.of_nat F < 2 ^ 16.
Proof. destruct (mx_blocks _ _ _ _ Hmx) as (nb & ? & ->). pose proof (mx_size _ _ _ _ Hmx). lia. Qed.

(** The first buffers: those of the tracks in [l] have been asked for. *)
Record acquired (l : list Z) (e : Z) s : Prop := {
  aq_static : static s = static s0;
  aq_env : env_ok (world s);
  aq_words : words s = words s0;
  aq_stream i : stream (world s) (P i) = FS i;
  aq_done i : i ∈ l → ∃ t, track s i = Some t ∧ at_frame F (T i) (P i) (FS i) 0 (has_frames i) t (world s);
  aq_left i : i ∈ en → i ∉ l → track s i = Some (T i) ∧ loan (world s) (P i) = None;
  aq_mask : masks e en (λ i, if decide (i ∈ l) then has_frames i else true)
}.

Lemma masks_all : masks (enabledTracks s0) en (λ _, true).
Proof.
  split; [apply (mx_mask _ _ _ _ Hmx)|]. intros i Hi. unfold en. rewrite elem_of_bits by apply (mx_mask _ _ _ _ Hmx). tauto.
Qed.

(** The track after its first buffer. *)
Definition with_buffer (i : Z) (b : buffer) : track_t := set_in_ (raw b) (set_t_frameCount (u16 (frameCount b)) (set_t_buffer b (T i))).
Lemma first_buffer i b w : env_ok w → stream w (P i) = FS i →
  match raw b with
  | Some a => 0 < frameCount b ≤ Z.of_nat F ∧ loan w (P i) = Some (a, frameCount b)
  | None => FS i = [] ∧ loan w (P i) = None
  end →
  has_frames i = negb (bool_decide (raw b = None)) ∧ at_frame F (T i) (P i) (FS i) 0 (has_frames i) (with_buffer i b) w.
Proof.
  intros He Hs Hc. unfold has_frames. assert (same_track (T i) (with_buffer i b)) as Hsame by (eexists _, _, _; reflexivity).
  destruct (raw b) as [a|] eqn:Er.
  - destruct Hc as [Hcnt Hl]. destruct (loan_ok _ _ _ _ He Hl) as ([_ Hlen] & _). rewrite Hs in Hlen. pose proof F_pos.
    destruct (FS i) as [|f fs] eqn:Ef; [cbn in Hlen; lia|]. split; [done|]. split; [done|].
    exists a, (frameCount b), 0. split; [done|]. split; [|split; [lia|split; [lia|by rewrite Hs]]].
    split; [by destruct b; cbn in *; subst|]. split; [cbn; unfold u16; rewrite Z.mod_small; lia|].
    split; [lia|]. split; [lia|]. intros _. cbn. rewrite Er. f_equal. lia.
  - destruct Hc as [Hnil Hl]. rewrite Hnil. split; [done|]. split; [done|]. split; [done|]. split; [by rewrite Hs|cbn; lia].
Qed.

Lemma acquire_step l e i b s1 s2 : acquired l e s1 → i ∈ en → i ∉ l → (∀ j, j ∈ l → j ∈ en) → 0 ≤ i →
  only i (P i) s1 s2 → words s2 = words s1 → stream (world s2) (P i) = stream (world s1) (P i) →
  track s2 i = Some (with_buffer i b) →
  has_frames i = negb (bool_decide (raw b = None)) → at_frame F (T i) (P i) (FS i) 0 (has_frames i) (with_buffer i b) (world s2) →
  acquired (l ++ [i]) (if bool_decide (raw b = None) then clear_bit e i else e) s2.
Proof.
  intros [A1 A2 A3 A4 A5 A6 A7] Hi Hn Hl H0 (O1 & O2 & O3 & O4) Ew Es Tb Eh At.
  assert (∀ j, j ∈ en → j ≠ i → P j ≠ P i) as Hinj by (intros j Hj Hne Ep; by apply Hne, (mx_inj _ _ _ _ Hmx)).
  split.
  - by rewrite <-A1.
  - done.
  - by rewrite Ew.
  - intros j. destruct (decide (P j = P i)) as [Ep|Ep]; [by rewrite Ep, Es, <-Ep|]. by rewrite (proj1 (O4 _ Ep)).
  - intros j Hj. destruct (decide (j = i)) as [->|Hne]; [by eexists|].
    assert (j ∈ l) as Hj1 by set_solver. destruct (A5 j Hj1) as (t & Tj & At'). exists t. split; [by rewrite O3|].
    destruct (O4 (P j)) as [E1 E2]; [apply Hinj; [by apply Hl|done]|]. by eapply at_frame_world.
  - intros j Hj Hjn. assert (j ≠ i) as Hne by set_solver. assert (j ∉ l) as Hjn1 by set_solver. destruct (A6 j Hj Hjn1) as [Tj Lj].
    rewrite O3, (proj2 (O4 _ (Hinj j Hj Hne))) by done. done.
  - assert ((if decide (i ∈ l) then has_frames i else true) = true) as Hl1 by by rewrite decide_False.
    assert (masks (if has_frames i then e else clear_bit e i) en (λ j, if decide (j = i) then has_frames i else if decide (j ∈ l) then has_frames j else true)) as Hm
      by by apply (masks_live e en (λ j, if decide (j ∈ l) then has_frames j else true)).
    replace (if bool_decide (raw b = None) then clear_bit e i else e) with (if has_frames i then e else clear_bit e i) by (rewrite Eh; by destruct (bool_decide _)).
    eapply masks_ext; [|exact Hm]. intros j Hj. cbv beta. destruct (decide (j = i)) as [->|Hne]; [by rewrite decide_True by set_solver|].
    destruct (decide (j ∈ l)); [by rewrite decide_True by set_solver|by rewrite decide_False by set_solver].
Qed.

Lemma acquire_all : wp (for_each en (λ e i,
    acquire i (Z.of_nat F) pts ;;;
    t <- get_track i ;;
    upd_track i (λ t, set_in_ (raw (t_buffer t)) (set_t_frameCount (u16 (frameCount (t_buffer t))) t)) ;;;
    ret (if bool_decide (raw (t_buffer t) = None) then clear_bit e i else e)) (enabledTracks s0)) (acquired en) s0.
Proof.
  apply wp_for_each.
  { split; try done; [apply (mx_env _ _ _ _ Hmx)|by intros i ?%elem_of_nil| |].
    - intros i Hi _. destruct (mx_tracks _ _ _ _ Hmx i Hi) as (? & _ & ?). done.
    - eapply masks_ext; [|apply masks_all]. intros i _. by rewrite decide_False by apply not_elem_of_nil. }
  intros l1 i l2 e s1 El A. assert (i ∈ en) as Hi by (rewrite El; set_solver).
  assert (i ∉ l1) as Hn. { pose proof (NoDup_bits _ (mx_mask _ _ _ _ Hmx)) as Hnd. fold en in Hnd. rewrite El in Hnd. apply NoDup_app in Hnd as (_ & Hd & _). intros ?. eapply Hd; [done|set_solver]. }
  destruct (aq_left _ _ _ A i Hi Hn) as [Ti Li]. pose proof (en_ready i Hi) as Hr. pose proof (track_nonneg _ _ _ Ti) as H0.
  apply wp_bind. eapply wp_mono; [apply (acquire_ok i (P i) (Z.of_nat F) pts s1 (T i) Ti (ready_provider _ _ Hr) (aq_env _ _ _ A) Li F_pos)|].
  intros _ s2 (O & Ew & Es & b & Tb & Hc). apply wp_bind. eapply wp_get_track; [done|].
  apply wp_bind. eapply wp_upd_track; [done|]. apply wp_ret. change (t_buffer (set_t_buffer b (T i))) with b.
  assert (env_ok (world s2)) as He by apply O. rewrite (aq_stream _ _ _ A) in Es, Hc.
  destruct (first_buffer i b (world s2) He Es Hc) as [Eh At].
  eapply acquire_step; try done.
  - intros j Hj. rewrite El. set_solver.
  - eapply only_trans; [exact O|]. by apply only_put.
  - cbn. by rewrite (aq_stream _ _ _ A).
  - by eapply track_put.
Qed.

(** The last buffers are given back. *)
Lemma release_last enabled pos live s : masks enabled en live → mixing T P FS en F pos live s →
  (∀ i, i ∈ en → (if live i then pos i = F else (pos i ≤ F)%nat)) →
  wp (for_each (bits enabled) (λ _ i, release i) tt) (λ _ s', static s' = static s ∧ words s' = words s ∧
    ∀ i, i ∈ en → stream (world s') (P i) = drop F (FS i) ∧ loan (world s') (P i) = None) s.
Proof.
  intros Hm [He Hmix] Hpos. assert (∀ i, i ∈ bits enabled → i ∈ en ∧ live i = true) as Hb.
  { intros i Hi. apply elem_of_bits in Hi as [Hi Hb]; [|apply Hm]. by apply Hm. }
  eapply wp_mono; [apply (wp_for_each (λ l _ s', static s' = static s ∧ words s' = words s ∧ env_ok (world s') ∧
    (∀ i, i ∈ l → stream (world s') (P i) = drop F (FS i) ∧ loan (world s') (P i) = None) ∧
    (∀ i, i ∈ en → i ∉ l → ∃ t, track s' i = Some t ∧ at_frame F (T i) (P i) (FS i) (pos i) (live i) t (world s'))))|].
  - split_and!; try done; [by intros i ?%elem_of_nil|]. intros i Hi _. by apply Hmix.
  - intros l1 i l2 [] s1 El (S1 & W1 & E1 & Hd & Hl).
    assert (i ∈ bits enabled) as Hi by (rewrite El; set_solver). destruct (Hb i Hi) as [Hen Hlive].
    assert (i ∉ l1) as Hn. { pose proof (NoDup_bits _ (proj1 Hm)) as Hnd. rewrite El in Hnd. apply NoDup_app in Hnd as (_ & Hd' & _). intros ?. eapply Hd'; [done|set_solver]. }
    destruct (Hl i Hen Hn) as (t & Ti & At). specialize (Hpos i Hen). rewrite Hlive in *. rewrite Hpos in At.
    pose proof At as [Hsame (a & n & c & Ln & (Hbuf & _ & Hc & _) & Hck & HkF & Hst)].
    pose proof (same_ready _ _ _ Hsame (en_ready i Hen)) as Hr.
    eapply wp_mono; [by apply (release_ok' i (P i) s1 t a n Ti (ready_provider _ _ Hr))|].
    intros _ s2 (O & Ew & Es & El2 & _). destruct O as (O1 & O2 & O3 & O4).
    assert (∀ j, j ∈ en → j ≠ i → P j ≠ P i) as Hinj by (intros j Hj Hne Ep; by apply Hne, (mx_inj _ _ _ _ Hmx)).
    split; [by rewrite O1|]. split; [by rewrite Ew|]. split; [done|]. split.
    + intros j Hj. destruct (decide (j = i)) as [->|Hne].
      * split; [|done]. rewrite Es, Hst, drop_drop. f_equal. lia.
      * assert (j ∈ l1) as Hj1 by set_solver. destruct (O4 (P j)) as [-> ->]; [|by apply Hd].
        apply Hinj; [|done]. apply (Hb j). rewrite El. set_solver.
    + intros j Hj Hjn. assert (j ≠ i) as Hne by set_solver. destruct (Hl j Hj) as (tj & Tj & Atj); [set_solver|].
      exists tj. split; [by rewrite O3|]. destruct (O4 (P j)) as [F1 F2]; [by apply Hinj|]. by eapply at_frame_world.
  - intros _ s' (S1 & W1 & _ & Hd & Hl). split; [done|]. split; [done|]. intros i Hi.
    destruct (decide (i ∈ bits enabled)) as [Hin|Hin]; [by apply Hd|]. destruct (Hl i Hi Hin) as (t & _ & At).
    assert (live i = false) as Hlf.
    { destruct (live i) eqn:E; [|done]. exfalso. apply Hin. unfold en in Hi. rewrite elem_of_bits in Hi by apply (mx_mask _ _ _ _ Hmx).
      apply elem_of_bits; [apply Hm|]. split; [tauto|]. apply Hm; [tauto|]. split; [|done]. apply elem_of_bits; [apply (mx_mask _ _ _ _ Hmx)|]. tauto. }
    specialize (Hpos i Hi). rewrite Hlf in *. destruct At as (_ & L & Es & Hlen). split; [|done]. rewrite Es. symmetry. apply drop_ge. lia.
Qed.

(** ** The result *)

(** The buffers hold the mix of the streams, and the providers have gone on by [F] frames. *)
Record mixed_to s' : Prop := {
  md_static : static s' = static s0;
  md_stream i : i ∈ en → stream (world s') (P i) = drop F (FS i) ∧ loan (world s') (P i) = None;
  md_main i b k : i ∈ en → FS i ≠ [] → mainBuffer (T i) = Some b → (k < F)%nat →
    words s' !! (b + Z.of_nat k) = Some (mixed_word T FS (filter (λ j, mainBuffer (T j) = Some b) en) k);
  md_rest x : (∀ i b, i ∈ en → FS i ≠ [] → mainBuffer (T i) = Some b → ¬ (b ≤ x < b + Z.of_nat F)) →
    words s' !! x = (λ v, s32 (v + sum_of (λ i, aux_gain (T i) (FS i) 0 (Z.of_nat F) x) en)) <$> words s0 !! x
}.

Lemma has_frames_true i : has_frames i = true ↔ FS i ≠ [].
Proof. unfold has_frames. destruct (FS i); naive_solver. Qed.

(** The tracks that have frames. *)
Lemma acquired_bits e s1 : acquired en e s1 → is_mask e ∧ bits e = filter (λ i, has_frames i = true) en ∧ masks e en has_frames.
Proof.
  intros A. assert (masks e en has_frames) as Hm.
  { eapply masks_ext; [|apply (aq_mask _ _ _ A)]. intros i Hi. cbv beta. by rewrite decide_True. }
  split; [apply Hm|]. split; [|done]. eapply masks_bits; [apply (mx_mask _ _ _ _ Hmx)|done|done].
Qed.
Lemma acquired_inv e s1 : acquired en e s1 → all_inv T P FS en F e has_frames s1 e [] e (λ _, 0%nat) has_frames s1.
Proof.
  intros A. destruct (acquired_bits _ _ A) as (He & Hb & Hm). pose proof A as [A1 A2 A3 A4 A5 A6 A7].
  split; try done.
  - symmetry. apply filter_all_in. intros i _. apply not_elem_of_nil.
  - by intros i ?%elem_of_nil.
  - constructor.
  - by intros i j _ _ _ ?%elem_of_nil.
  - apply upd_refl. rewrite A3. apply (mx_words _ _ _ _ Hmx).
Qed.

(** The words after all groups are those of the reference. *)
Lemma final_words e s1 D ws : acquired en e s1 → D ≡ₚ bits e →
  upd (aux_sum T FS D 0 F) (mains T FS F e D) (words s0) ws →
  (∀ i b k, i ∈ en → FS i ≠ [] → mainBuffer (T i) = Some b → (k < F)%nat →
     ws !! (b + Z.of_nat k) = Some (mixed_word T FS (filter (λ j, mainBuffer (T j) = Some b) en) k)) ∧
  (∀ x, (∀ i b, i ∈ en → FS i ≠ [] → mainBuffer (T i) = Some b → ¬ (b ≤ x < b + Z.of_nat F)) →
     ws !! x = (λ v, s32 (v + sum_of (λ i, aux_gain (T i) (FS i) 0 (Z.of_nat F) x) en)) <$> words s0 !! x).
Proof.
  intros A HD Hu. destruct (acquired_bits _ _ A) as (He & Hb & Hm).
  assert (∀ i, i ∈ D ↔ i ∈ en ∧ FS i ≠ []) as Hin.
  { intros i. rewrite HD, Hb, list_elem_of_filter, has_frames_true. tauto. }
  assert (∀ i, ¬ has_frames i = true → ∀ q : nat, FS i !! q = None) as Hnone.
  { intros i Hi q. unfold has_frames in Hi. by destruct (FS i). }
  split.
  - intros i b k Hi Hf Hbuf Hk. rewrite Hu. rewrite (mains_at T FS en F e (mx_apart _ _ _ _ Hmx) i b); [|intros j Hj; by apply Hin|by apply Hin|exact Hbuf|lia].
    replace (Z.to_nat (b + Z.of_nat k - b)) with k by lia. rewrite mix_word_mixed. unfold group, mixed_word. cbv zeta. rewrite Hb.
    assert (∀ right, sum_of (λ i, frame_gain right (T i) (FS i) k) (filter (λ j, mainBuffer (T j) = Some b) (filter (λ i, has_frames i = true) en)) =
      sum_of (λ i, frame_gain right (T i) (FS i) k) (filter (λ j, mainBuffer (T j) = Some b) en)) as Hs; [|by rewrite !Hs].
    intros right. rewrite list_filter_filter. erewrite (filter_ext_in _ (λ j, has_frames j = true ∧ mainBuffer (T j) = Some b)) by tauto.
    rewrite <-list_filter_filter. apply sum_of_filter. intros j _ Hj. unfold frame_gain. by rewrite Hnone.
  - intros x Hx. rewrite Hu, mains_none.
    + apply option_fmap_ext. intros v. do 2 f_equal. rewrite aux_sum_of. change (Z.of_nat 0) with 0. rewrite (sum_of_perm _ _ _ HD), Hb.
      apply sum_of_filter. intros j _ Hj. unfold aux_gain. destruct (aux_of (T j)); [|done]. rewrite Hnone by done. by destruct (_ && _).
    + intros i b Hi Hbuf. apply Hin in Hi as [Hi Hf]. by eapply Hx.
Qed.

Lemma genericNoResampling_ok : wp (run_genericNoResampling pts) (λ _, mixed_to) s0.
Proof.
  unfold run_genericNoResampling. apply wp_bind, wp_getst. rewrite (mx_count _ _ _ _ Hmx). cbv zeta.
  apply wp_bind. eapply wp_mono; [apply acquire_all|]. intros e s1 A. destruct (acquired_bits _ _ A) as (He & Hb & Hm).
  pose proof A as [A1 A2 A3 A4 A5 A6 A7]. destruct (mx_blocks _ _ _ _ Hmx) as (nb & Hnb & HFnb).
  apply wp_bind. eapply wp_mono.
  - eapply (for_groups_ok T P FS en F en_ready en_frames (mx_inj _ _ _ _ Hmx) (proj2 F_pos) e has_frames s1 He); try exact HFnb; try done.
    + intros i. rewrite Hb, list_elem_of_filter. tauto.
    + rewrite A3. apply (mx_words _ _ _ _ Hmx).
    + intros i Hi. rewrite A3. by apply (mx_aux _ _ _ _ Hmx).
    + intros i Hi. rewrite A3. by apply (mx_main _ _ _ _ Hmx).
    + apply (mx_apart _ _ _ _ Hmx).
    + by apply acquired_inv.
    + by apply length_bits.
  - intros enabled s2 (D & pos & live & [G1 G2 _ G4 G5 G6 _ G8 G9 G10 G11 G12]).
    assert (D ≡ₚ bits e) as HD.
    { apply NoDup_Permutation; [done|by apply NoDup_bits|]. intros i. split; [apply G5|]. intros Hi.
      destruct (decide (i ∈ D)) as [|Hn]; [done|]. assert (i ∈ filter (λ i, i ∉ D) (bits e)) as Hf by (by apply list_elem_of_filter).
      rewrite <-G4, bits_zero in Hf. by apply elem_of_nil in Hf. }
    eapply wp_mono; [apply (release_last enabled pos live s2 G11 G2)|].
    + intros i Hi. rewrite G8. destruct (live i) eqn:El; [|case_decide; lia].
      rewrite decide_True; [done|]. rewrite HD, Hb, list_elem_of_filter. split; [by apply G9|done].
    + intros _ s3 (S3 & W3 & Hst). rewrite A3 in G12. destruct (final_words e s1 D (words s2) A HD G12) as [H1 H2].
      split; [by rewrite S3, G1|done| |]; rewrite W3; done.
Qed.
End run.
End spec.
