(* ===== verification/AudioMixerFast.v ===== *)
(** * The fast path of the mixer

    [process__OneTrack16BitsStereoNoResampling] stores what
    [process__genericNoResampling] would. *)

From Stdlib Require Import ZArith Lia.
From stdpp Require Import base tactics numbers option list gmap.
From S2P Require Import Prelude Words AudioPrimitives Nbaio NbaioProviders AudioMixer AudioMixerRules AudioMixerHooks AudioMixerMix AudioMixerGroups AudioMixerSpec.

#[local] Opaque bits top_bit.

Section fast.
Context {W : Type} `{!MixerEnv W, !StreamLaws W}.
Implicit Types s : mixer W.

(** ** One buffer *)

(** A frame at constant gains, as the reference packs it. *)
Definition frame_word (t : track_t) (f : Z * Z) : Z :=
  pack (saturate (Z.shiftr (f.1 * volume (ramp0 t)) 12)) (saturate (Z.shiftr (f.2 * volume (ramp1 t)) 12)).

Lemma unity_product l v : is_s16 l → is_s16 v → u32 v ≤ UNITY_GAIN → is_s16 (Z.shiftr (l * v) 12).
Proof.
  unfold is_s16, UNITY_GAIN. intros Hl Hv Hu.
  assert (0 ≤ v ≤ 4096).
  { destruct (decide (0 ≤ v)); [rewrite u32_small in Hu; lia|]. unfold u32 in Hu.
    replace (v mod 2 ^ 32) with (v + 2 ^ 32) in Hu; [lia|]. apply (Z.mod_unique_pos _ _ (-1)); lia. }
  rewrite Z.shiftr_div_pow2 by lia. change (2 ^ 12) with 4096.
  assert (- 32768 * 4096 ≤ l * v ≤ 32767 * 4096) by nia. Z.to_euclidean_division_equations; lia.
Qed.
Lemma one_word_eq t f : frame_ok f → volumes_ok t → one_word (boosted t) (volumeRL t) (word_of f.1 f.2) = frame_word t f.
Proof.
  intros [H1 H2] [V1 V2]. unfold one_word, frame_word, volumeRL. cbv zeta. rewrite !mulRL_word by done.
  assert (∀ l v, is_s16 l → is_s16 v → is_s32 (Z.shiftr (l * v) 12)) as Hs.
  { intros l v Hl Hv. pose proof (s16_mul l v Hl Hv). unfold is_s32. rewrite Z.shiftr_div_pow2 by lia. Z.to_euclidean_division_equations; lia. }
  destruct (boosted t) eqn:Eb; [by rewrite !clamp16_spec by auto|].
  unfold boosted in Eb. apply orb_false_iff in Eb as [B1%bool_decide_eq_false B2%bool_decide_eq_false].
  by rewrite !saturate_small by (apply unity_product; done || lia).
Qed.

Lemma one_words_eq t fs p out s : lends (world s) 4 p fs → Forall frame_ok fs → volumes_ok t →
  one_words (length fs) (boosted t) (volumeRL t) p out s = store_words out (frame_word t <$> fs) s.
Proof.
  intros Hl Hfs Hv. revert p out s Hl. induction fs as [|f fs IH]; intros p out s Hl; [done|].
  apply lends_cons in Hl as [Hf Hl]. apply Forall_cons in Hfs as [Hf' Hfs]. apply frame_at_stereo in Hf as [F1 F2].
  cbn [length one_words fmap list_fmap]. destruct (load_frame_eq s _ _ _ F1 F2) as (_ & _ & E). rewrite (bind_of _ E).
  rewrite (one_word_eq t f Hf' Hv). cbn [store_words]. rewrite !bind_bind, !bind_getst. destruct (words s !! out) as [v|]; [|done].
  rewrite bind_bind, !bind_deref, bind_bind, !bind_modify, bind_ret. rewrite IH; done.
Qed.

(** ** The loop *)

Section run.
Context (F : nat) (T : Z → track_t) (P : Z → Z) (s0 : mixer W) (Hmx : mixable F T P s0) (pts i : Z).
Context (Hi : 0 ≤ i < 32) (Hone : enabledTracks s0 = bit i) (Hhook : t_hook (T i) = Some track__16BitsStereo).
Context (Haux : needs_aux (T i) = false).
Let fs : list (Z * Z) := stream (world s0) (P i).

Lemma en_one : bits (enabledTracks s0) = [i].
Proof.
  pose proof (mx_mask _ _ _ _ Hmx) as Hm. apply Permutation_singleton_r. apply NoDup_Permutation; [by apply NoDup_bits|apply NoDup_singleton|].
  intros j. rewrite elem_of_bits by done. rewrite list_elem_of_singleton, Hone. split.
  - intros [Hj Hb]. rewrite testbit_bit, bool_decide_eq_true in Hb by lia. done.
  - intros ->. split; [done|]. rewrite testbit_bit by lia. by apply bool_decide_true.
Qed.
Lemma in_one : i ∈ bits (enabledTracks s0).
Proof. rewrite en_one. by apply list_elem_of_singleton. Qed.

(** The words of the first [k] frames; past the end of the stream they are silent. *)
Definition word_at (k : nat) : Z := match fs !! k with Some f => frame_word (T i) f | None => 0 end.
Definition one_main (b : Z) (k : nat) (x : Z) : option Z := if bool_decide (b ≤ x < b + Z.of_nat k) then Some (word_at (Z.to_nat (x - b))) else None.

Record one_inv (b : Z) (k : nat) s : Prop := {
  oi_static : static s = static s0;
  oi_env : env_ok (world s);
  oi_stream : stream (world s) (P i) = drop k fs;
  oi_loan : loan (world s) (P i) = None;
  oi_track : ∃ t, track s i = Some t ∧ same_track (T i) t;
  oi_words : upd (λ _, 0) (one_main b k) (words s0) (words s)
}.

Lemma one_main_s32 b k x v : one_main b k x = Some v → is_s32 v.
Proof.
  unfold one_main, word_at. case_bool_decide; [|done]. destruct (fs !! _); intros [= <-]; [apply s32_range|done].
Qed.
Lemma one_store b k l s : main_there F b (words s0) → upd (λ _, 0) (one_main b k) (words s0) (words s) → (k + length l ≤ F)%nat →
  (∀ j, (j < length l)%nat → l !! j = Some (word_at (k + j))) →
  ∃ ws, store_words (b + Z.of_nat k) l s = Ret tt (set_words ws s) ∧ upd (λ _, 0) (one_main b (k + length l)) (words s0) ws.
Proof.
  intros Hmain Hw Hk Hl. destruct (store_words_eq (b + Z.of_nat k) l s) as (ws & E & Hu).
  - eapply upd_words_ok; [|exact Hw]. apply one_main_s32.
  - intros j Hj. eapply upd_is_Some; [exact Hw|]. replace (b + Z.of_nat k + Z.of_nat j) with (b + Z.of_nat (k + j)) by lia. apply Hmain. lia.
  - exists ws. split; [done|]. eapply upd_ext; [| |eapply upd_trans; [|exact Hw|exact Hu]].
    + intros x. cbv beta. unfold one_main. destruct (decide (b + Z.of_nat k ≤ x)).
      * rewrite (bool_decide_true (b + Z.of_nat k ≤ x)), (bool_decide_false (b ≤ x < b + Z.of_nat k)) by lia.
        destruct (decide (x < b + Z.of_nat (k + length l))).
        -- rewrite bool_decide_true, Hl by lia. do 2 f_equal. lia.
        -- rewrite bool_decide_false, lookup_ge_None_2 by lia. done.
      * rewrite (bool_decide_false (b + Z.of_nat k ≤ x)) by lia.
        destruct (decide (b ≤ x)); [by rewrite !bool_decide_true by lia|by rewrite !bool_decide_false by lia].
    + done.
    + intros x v Hx. split; [by eapply one_main_s32|done].
Qed.

Lemma one_zeros b k s : main_there F b (words s0) → one_inv b k s → (k ≤ F)%nat → (length fs ≤ k)%nat →
  wp (store_words (b + Z.of_nat k) (zeros (Z.of_nat F - Z.of_nat k))) (λ _, one_inv b F) s.
Proof.
  intros Hmain Hinv Hk Hlen. assert (length (zeros (Z.of_nat F - Z.of_nat k)) = (F - k)%nat) as Hz by (unfold zeros; rewrite length_replicate; lia).
  destruct (one_store b k (zeros (Z.of_nat F - Z.of_nat k)) s Hmain (oi_words _ _ _ Hinv)) as (ws & E & Hu); [lia| |].
  - intros j Hj. unfold word_at. rewrite (lookup_ge_None_2 fs) by lia. unfold zeros. apply lookup_replicate_2. lia.
  - eapply wp_det; [exact E|]. rewrite Hz in Hu. replace (k + (F - k))%nat with F in Hu by lia.
    destruct Hinv as [I1 I2 I3 I4 I5 _]. split; try done. cbn [world set_words]. rewrite I3, !drop_ge by lia. done.
Qed.

(** A buffer of [n] frames is stored and given back. *)
Lemma one_buffer_ok {A} b k n a t s (rest : M (mixer W) A) (Q : A → mixer W → Prop) :
  main_there F b (words s0) → track s i = Some t → same_track (T i) t → t_buffer t = Buffer (Some a) (Z.of_nat n) →
  static s = static s0 → env_ok (world s) → stream (world s) (P i) = drop k fs → loan (world s) (P i) = Some (a, Z.of_nat n) →
  upd (λ _, 0) (one_main b k) (words s0) (words s) → (0 < n)%nat → (k + n ≤ F)%nat →
  (∀ s', one_inv b (k + n) s' → wp rest Q s') →
  wp ((if bool_decide (Z.of_nat n = 0) then crash_with CrashOops
       else one_words n (boosted t) (volumeRL t) a (b + Z.of_nat k)) ;;;
      release i ;;; rest) Q s.
Proof.
  intros Hmain Ti Hsame Hbuf I1 I2 I3 Hl Hw Hn Hk Hrest. destruct (mx_tracks _ _ _ _ Hmx i in_one) as (_ & Hr0 & _).
  pose proof (same_ready _ _ _ Hsame Hr0) as Hr.
  assert (width_of (P i) = 4) as Hwidth by (destruct (ready_hook _ _ Hr0) as [Hh|[[_ ?]|[Hh _]]]; congruence).
  destruct (loan_ok _ _ _ _ I2 Hl) as ([_ Hlen] & _ & Hlends). rewrite Hwidth, I3, Nat2Z.id in Hlends. rewrite I3, length_drop in Hlen.
  rewrite bool_decide_false by lia.
  set (gs := take n (drop k fs)) in *. assert (length gs = n) as Hgl by (unfold gs; rewrite length_take, length_drop; lia).
  assert (Forall frame_ok gs) as Hok by (apply Forall_take, Forall_drop, stream_ok, (mx_env _ _ _ _ Hmx)).
  pose proof (one_words_eq t gs a (b + Z.of_nat k) s Hlends Hok (ready_volumes _ _ Hr)) as Ew. rewrite Hgl in Ew.
  assert (∀ f, frame_word t f = frame_word (T i) f) as Hfw.
  { destruct (same_aux _ _ Hsame) as (_ & _ & _ & E1 & E2 & _). intros f. unfold frame_word. by rewrite E1, E2. }
  destruct (one_store b k (frame_word t <$> gs) s Hmain Hw) as (ws & E & Hu); [rewrite length_fmap; lia| |].
  { intros j Hj. rewrite length_fmap in Hj. rewrite list_lookup_fmap. unfold gs, word_at. rewrite lookup_take_lt, lookup_drop by lia.
    destruct (lookup_lt_is_Some_2 fs (k + j)) as [f ->]; [lia|]. cbn. by rewrite Hfw. }
  apply wp_bind. eapply wp_det; [by rewrite Ew|]. rewrite length_fmap, Hgl in Hu.
  apply wp_bind. eapply wp_mono; [by apply (release_ok' i (P i) (set_words ws s) t a (Z.of_nat n) Ti (ready_provider _ _ Hr))|].
  intros _ s2 (O & Ew2 & Es2 & El2 & buf & T2). apply Hrest. split.
  - rewrite (proj1 O). exact I1.
  - apply O.
  - rewrite Es2. cbn [world set_words]. rewrite I3, drop_drop, Nat2Z.id. done.
  - done.
  - eexists. split; [done|]. by apply same_buffer_step.
  - by rewrite Ew2.
Qed.

Lemma one_track_ok fuel b k s : mainBuffer (T i) = Some b → main_there F b (words s0) → one_inv b k s → (k ≤ F)%nat → (F - k < fuel)%nat →
  wp (one_track fuel i pts b (b + Z.of_nat k) (Z.of_nat F - Z.of_nat k)) (λ _, one_inv b F) s.
Proof.
  intros Hb Hmain. revert k s. induction fuel as [|fuel IH]; intros k s Hinv Hk Hf; [lia|]. cbn [one_track].
  case_bool_decide as E0; [apply wp_ret; by assert (k = F) as <- by lia|].
  pose proof Hinv as [I1 I2 I3 I4 (t & Ti & Hsame) I6]. destruct (mx_tracks _ _ _ _ Hmx i in_one) as (_ & Hr0 & _).
  pose proof (same_ready _ _ _ Hsame Hr0) as Hr. pose proof (mx_size _ _ _ _ Hmx) as HF.
  apply wp_bind. unfold output_pts. apply wp_bind, wp_getst, wp_bind. eapply wp_get_track; [done|]. apply wp_ret.
  apply wp_bind. eapply wp_mono; [apply (acquire_ok i (P i) _ _ s t Ti (ready_provider _ _ Hr) I2 I4); lia|].
  intros _ s1 (O & W1 & S1 & buf & T1 & Hc). apply wp_bind. eapply wp_get_track; [done|]. cbn [raw t_buffer set_t_buffer].
  rewrite I3 in S1, Hc. pose proof O as (O1 & O2 & _). destruct (raw buf) as [a|] eqn:Er.
  - destruct Hc as [Hn Hl]. destruct (loan_ok _ _ _ _ O2 Hl) as (_ & Hal & _).
    assert (width_of (P i) = 4) as Hwidth by (destruct (ready_hook _ _ Hr0) as [Hh|[[_ ?]|[Hh _]]]; congruence).
    rewrite bool_decide_false by (rewrite Hal by done; lia). cbv zeta.
    set (n := Z.to_nat (frameCount buf)). assert (frameCount buf = Z.of_nat n) as En by (unfold n; lia). rewrite En in *.
    apply (one_buffer_ok b k n a (set_t_buffer buf t) s1); try done; try lia.
    + by apply same_buffer_step.
    + cbn. rewrite <-En, <-Er. clear. by destruct buf.
    + by rewrite O1.
    + by rewrite W1.
    + intros s2 H2. replace (b + Z.of_nat k + Z.of_nat n) with (b + Z.of_nat (k + n)) by lia.
      replace (u32 (Z.of_nat F - Z.of_nat k - Z.of_nat n)) with (Z.of_nat F - Z.of_nat (k + n)) by (rewrite u32_small; lia).
      apply IH; [done|lia|lia].
  - destruct Hc as [Hnil Hl]. apply one_zeros; [done| |done|].
    + split; [by rewrite O1|done|done|done|eexists; split; [done|by apply same_buffer_step]|by rewrite W1].
    + apply (f_equal length) in Hnil. rewrite length_drop in Hnil. cbn in Hnil. lia.
Qed.

(** ** The whole run *)

Lemma frame_gain_s32 right k : is_s32 (frame_gain right (T i) fs k).
Proof.
  unfold frame_gain. destruct (fs !! k) as [f|] eqn:E; [|done].
  assert (frame_ok f) as [H1 H2].
  { pose proof (stream_ok _ (P i) (mx_env _ _ _ _ Hmx)) as Hok. rewrite Forall_forall in Hok. apply Hok. apply list_elem_of_lookup. by exists k. }
  destruct (mx_tracks _ _ _ _ Hmx i in_one) as (_ & Hr0 & _). destruct (ready_volumes _ _ Hr0) as [V1 V2].
  destruct (muted (T i)); [done|].
  destruct right; [pose proof (s16_mul _ _ H2 V2)|pose proof (s16_mul _ _ H1 V1)]; unfold is_s32; lia.
Qed.
Lemma word_at_mixed k : word_at k = mixed_word T (λ j, stream (world s0) (P j)) [i] k.
Proof.
  unfold mixed_word. cbv zeta. unfold sum_of. cbn [foldr]. rewrite !Z.add_0_r. fold fs.
  rewrite !s32_small by apply frame_gain_s32. unfold word_at, frame_gain, frame_word. destruct (fs !! k); [|done].
  assert (muted (T i) = false) as ->; [|done]. unfold muted. rewrite Hhook. by apply bool_decide_false.
Qed.

Lemma OneTrack_ok : fs ≠ [] → wp (run_OneTrack16BitsStereoNoResampling pts) (λ _, mixed_to F T P s0) s0.
Proof.
  intros Hne. unfold run_OneTrack16BitsStereoNoResampling. apply wp_bind, wp_getst.
  assert (top_bit (enabledTracks s0) = i) as ->.
  { pose proof (top_in (enabledTracks s0) (mx_mask _ _ _ _ Hmx)) as Ht. rewrite en_one, list_elem_of_singleton in Ht. apply Ht.
    rewrite Hone, bit_eq by lia. lia. }
  destruct (mx_tracks _ _ _ _ Hmx i in_one) as (Ti & Hr & Li). destruct (mx_main _ _ _ _ Hmx i in_one) as (b & Hb & Hthere & _).
  pose proof (mx_count _ _ _ _ Hmx) as HF.
  apply wp_bind. eapply wp_get_track; [done|]. apply wp_bind. eapply wp_deref; [done|]. rewrite HF.
  pose proof (one_track_ok (S (Z.to_nat (Z.of_nat F))) b 0 s0 Hb Hthere) as Hrun. rewrite Z.add_0_r, Z.sub_0_r in Hrun.
  eapply wp_mono; [apply Hrun; [|lia|lia]|].
  - split; [done|apply (mx_env _ _ _ _ Hmx)|done|done|by exists (T i); split; [|apply same_refl]|].
    eapply upd_ext; [| |apply upd_refl, (mx_words _ _ _ _ Hmx)]; [|done]. intros x. unfold one_main. by rewrite bool_decide_false by lia.
  - intros _ s' [I1 I2 I3 I4 I5 I6]. split; [done| | |]; rewrite ?en_one.
    + intros j Hj%list_elem_of_singleton. by subst.
    + intros j b' k Hj%list_elem_of_singleton _ Hb' Hk. subst j. assert (b' = b) as -> by congruence.
      rewrite I6. unfold one_main. rewrite bool_decide_true by lia. replace (Z.to_nat (b + Z.of_nat k - b)) with k by lia.
      rewrite word_at_mixed, filter_all_in; [done|]. intros j Hj%list_elem_of_singleton. by subst.
    + intros x Hx. rewrite I6. unfold one_main. rewrite bool_decide_false by (apply (Hx i); [by apply list_elem_of_singleton|done|done]).
      apply option_fmap_ext. intros v. cbv beta. unfold sum_of. cbn [foldr]. unfold aux_gain, aux_of. by rewrite Haux, !Z.add_0_r.
Qed.
End run.

(** Two runs that end in what the reference says leave the same words. *)
Definition writes (F : nat) (T : Z → track_t) (P : Z → Z) s (x i : Z) : bool :=
  bool_decide (stream (world s) (P i) ≠ []) &&
  match mainBuffer (T i) with Some b => bool_decide (b ≤ x < b + Z.of_nat F) | None => false end.
Lemma mixed_to_words F T P s0 s1 s2 : mixed_to F T P s0 s1 → mixed_to F T P s0 s2 → words s1 = words s2.
Proof.
  intros [_ _ M1 R1] [_ _ M2 R2]. apply map_eq. intros x.
  destruct (decide (Exists (λ i, writes F T P s0 x i = true) (bits (enabledTracks s0)))) as [He|Hn].
  - apply Exists_exists in He as (i & Hi & Hw). unfold writes in Hw. destruct (mainBuffer (T i)) as [b|] eqn:Eb; [|by rewrite andb_false_r in Hw].
    rewrite andb_true_iff, !bool_decide_eq_true in Hw. destruct Hw as [Hs Hx].
    replace x with (b + Z.of_nat (Z.to_nat (x - b))) by lia. by rewrite (M1 i b), (M2 i b) by (done || lia).
  - assert (∀ i b, i ∈ bits (enabledTracks s0) → stream (world s0) (P i) ≠ [] → mainBuffer (T i) = Some b → ¬ (b ≤ x < b + Z.of_nat F)) as Hx.
    { intros i b Hi Hs Hb Hx. apply Hn, Exists_exists. exists i. split; [done|]. unfold writes. rewrite Hb, andb_true_iff, !bool_decide_eq_true. done. }
    by rewrite R1, R2 by done.
Qed.
End fast.
