(* ===== verification/AudioMixerDemo.v ===== *)
(** * An environment for the mixer

    Providers that lend a list of frames some at a time, which keep the contract of
    [StreamLaws]; the inputs of the examples. *)

From Stdlib Require Import ZArith Lia.
From stdpp Require Import base tactics numbers option list gmap.
From S2P Require Import Prelude Words AudioPrimitives Nbaio NbaioProviders AudioMixer AudioMixerRules AudioMixerHooks AudioMixerMix.

(** A provider: the frames to come, the most it lends at a time, and what is on loan. *)
Record feed := Feed { f_frames : list (Z * Z); f_most : Z; f_out : option Z }.
Notation feeds := (gmap Z feed).

(** The memory of provider [p] starts at [p * 2 ^ 20]; those with an odd number are mono. *)
Definition feed_base (p : Z) : Z := p * 2 ^ 20.
Definition feed_width (p : Z) : Z := if Z.odd p then 2 else 4.
Definition feed_at (w : feeds) (a : Z) : option Z :=
  f ← w !! (a / 2 ^ 20);
  let off := a mod 2 ^ 20 in
  g ← f_frames f !! Z.to_nat (off / feed_width (a / 2 ^ 20));
  Some (if bool_decide (off mod feed_width (a / 2 ^ 20) < 2) then g.1 else g.2).

Definition feed_get (p : Z) (b : buffer) (pts : Z) : M feeds (Z * buffer) := λ w,
  match w !! p with
  | Some f =>
      let n := Z.min (f_most f) (Z.min (frameCount b) (Z.of_nat (length (f_frames f)))) in
      if bool_decide (n = 0) then Ret (NOT_ENOUGH_DATA, Buffer None 0) w
      else Ret (OK, Buffer (Some (feed_base p)) n) (<[p := Feed (f_frames f) (f_most f) (Some n)]> w)
  | None => Ret (NOT_ENOUGH_DATA, Buffer None 0) w
  end.
Definition feed_release (p : Z) (b : buffer) : M feeds buffer := λ w,
  match w !! p with
  | Some f => Ret (Buffer None 0) (<[p := Feed (drop (Z.to_nat (frameCount b)) (f_frames f)) (f_most f) None]> w)
  | None => Ret (Buffer None 0) w
  end.

#[export] Instance feeds_env : MixerEnv feeds := {
  i16_at := feed_at;
  p_getNextBuffer := feed_get;
  p_releaseBuffer := feed_release;
  rs_create _ _ _ _ := ret 1;
  rs_delete _ := ret tt;
  rs_reset _ := ret tt;
  rs_setLocalTimeFreq _ _ := ret tt;
  rs_setSampleRate _ _ := ret tt;
  rs_setVolume _ _ _ := ret tt;
  rs_setPTS _ _ := ret tt;
  rs_getUnreleasedFrames _ _ := 0;
  rs_resample _ out _ _ _ := ret out;
  EffectQueryNumberEffects := ret (0, 0);
  EffectQueryEffect _ := ret (0, false);
  EffectCreate _ _ := ret (0, Some 1);
  EffectRelease _ := ret tt;
  effect_do _ _ _ := ret (0, 0, 4);
  effect_process _ _ _ := ret 0;
  getLocalFreq _ := 1000000
}.

(** ** The contract *)

Definition feed_ok (p : Z) (f : feed) : Prop :=
  Forall frame_ok (f_frames f) ∧ 0 < f_most f ∧ 4 * Z.of_nat (length (f_frames f)) < 2 ^ 20 ∧
  (Z.odd p = true → Forall (λ g, g.2 = g.1) (f_frames f)) ∧
  match f_out f with Some n => 0 < n ≤ Z.of_nat (length (f_frames f)) | None => True end.

Lemma feed_at_frame w p f k off : w !! p = Some f → feed_ok p f → (k < length (f_frames f))%nat → 0 ≤ off < feed_width p →
  feed_at w (feed_base p + feed_width p * Z.of_nat k + off) =
  g ← f_frames f !! k; Some (if bool_decide (off < 2) then g.1 else g.2).
Proof.
  intros Hp (_ & _ & Hlen & _) Hk Ho. unfold feed_at, feed_base.
  assert (0 ≤ feed_width p * Z.of_nat k + off < 2 ^ 20) as Hb by (unfold feed_width in *; destruct (Z.odd p); lia).
  replace (p * 2 ^ 20 + feed_width p * Z.of_nat k + off) with ((feed_width p * Z.of_nat k + off) + p * 2 ^ 20) by lia.
  rewrite Z.div_add, Z.div_small, Z.add_0_l, Z.mod_add, (Z.mod_small (feed_width p * Z.of_nat k + off)) by lia. rewrite Hp. cbn [mbind option_bind].
  assert (0 < feed_width p) by (unfold feed_width; destruct (Z.odd p); lia).
  replace ((feed_width p * Z.of_nat k + off) / feed_width p) with (Z.of_nat k) by (apply (Z.div_unique_pos _ _ _ off); lia).
  replace ((feed_width p * Z.of_nat k + off) mod feed_width p) with off by (apply (Z.mod_unique_pos _ _ (Z.of_nat k)); lia).
  by rewrite Nat2Z.id.
Qed.
Lemma feed_lends w p f n : w !! p = Some f → feed_ok p f → lends w (feed_width p) (feed_base p) (take n (f_frames f)).
Proof.
  intros Hp Hf k g Hk. apply lookup_take_Some in Hk as [Hk _]. pose proof (lookup_lt_Some _ _ _ Hk) as Hlt.
  unfold frame_at. change (@i16_at feeds feeds_env) with feed_at.
  pose proof (feed_at_frame w p f k 0 Hp Hf Hlt) as E0. rewrite Z.add_0_r in E0.
  pose proof Hf as (_ & _ & _ & Hmono & _). pose proof (feed_at_frame w p f k 2 Hp Hf Hlt) as E2. unfold feed_width in *. destruct (Z.odd p).
  - rewrite bool_decide_false by lia. rewrite E0, Hk by lia. cbn. specialize (Hmono eq_refl).
    rewrite Forall_forall in Hmono. rewrite <-(Hmono g) at 2 by (apply list_elem_of_lookup; by exists k). by destruct g.
  - rewrite bool_decide_true by done. rewrite E0, E2, Hk by lia. cbn. by destruct g.
Qed.

Definition feeds_ok (w : feeds) : Prop := ∀ p f, w !! p = Some f → feed_ok p f.
Definition feed_stream (w : feeds) (p : Z) : list (Z * Z) := match w !! p with Some f => f_frames f | None => [] end.
Definition feed_loan (w : feeds) (p : Z) : option (Z * Z) := f ← w !! p; n ← f_out f; Some (feed_base p, n).

Lemma feed_insert w p f q : feed_stream (<[p := f]> w) q = (if decide (q = p) then f_frames f else feed_stream w q) ∧
  feed_loan (<[p := f]> w) q = (if decide (q = p) then n ← f_out f; Some (feed_base p, n) else feed_loan w q).
Proof.
  unfold feed_stream, feed_loan. case_decide as E; [subst; by rewrite lookup_insert_eq|by rewrite lookup_insert_ne].
Qed.
Lemma feeds_insert w p f : feeds_ok w → feed_ok p f → feeds_ok (<[p := f]> w).
Proof. intros Hw Hf q g. destruct (decide (q = p)) as [->|]; [rewrite lookup_insert_eq; by intros [= <-]|rewrite lookup_insert_ne by done; apply Hw]. Qed.

#[export, refine] Instance feeds_laws : StreamLaws feeds := {
  env_ok := feeds_ok;
  stream := feed_stream;
  width_of := feed_width;
  loan := feed_loan
}.
Proof.
  - intros w p Hw. unfold feed_stream. destruct (w !! p) as [f|] eqn:E; [apply (Hw p f E)|constructor].
  - intros w p a n Hw Hl. unfold feed_loan in Hl. destruct (w !! p) as [f|] eqn:E; [|done]. cbn in Hl.
    destruct (f_out f) as [n'|] eqn:Eo; [|done]. cbn in Hl. injection Hl as <- <-. pose proof (Hw p f E) as (Hf & Hm & Hlen & Hmono & Hout).
    rewrite Eo in Hout. unfold feed_stream. rewrite E. split; [done|]. split; [|by apply feed_lends, Hw].
    intros _. unfold feed_base. change 3 with (2 ^ 2 - 1). rewrite land_ones_mod by lia. replace (p * 2 ^ 20) with (p * 2 ^ 18 * 2 ^ 2) by lia. by apply Z.mod_mul.
  - intros w p r n pts Hw Hl Hn. unfold wp. cbn [p_getNextBuffer feeds_env]. unfold feed_get. cbn [frameCount].
    destruct (w !! p) as [f|] eqn:E.
    + pose proof (Hw p f E) as (Hf & Hm & Hlen & Hmono & Hout). case_bool_decide as Hz; cbn [raw frameCount].
      * split_and!; try done. unfold feed_stream. rewrite E. apply nil_length_inv. lia.
      * split; [|split; [|split; [|split]]].
        -- apply feeds_insert; [done|]. split_and!; try done. cbn. lia.
        -- intros q. rewrite (proj1 (feed_insert _ _ _ _)). case_decide; [subst; unfold feed_stream; by rewrite E|done].
        -- intros q Hq. rewrite (proj2 (feed_insert _ _ _ _)). by rewrite decide_False.
        -- lia.
        -- rewrite (proj2 (feed_insert _ _ _ _)). by rewrite decide_True.
    + cbn. split_and!; try done. unfold feed_stream. by rewrite E.
  - intros w p a n Hw Hl. unfold wp. cbn [p_releaseBuffer feeds_env]. unfold feed_release. cbn [frameCount].
    unfold feed_loan in Hl. destruct (w !! p) as [f|] eqn:E; [|done].
    pose proof (Hw p f E) as (Hf & Hm & Hlen & Hmono & Hout). split; [|split; [|split]].
    + apply feeds_insert; [done|]. split_and!; cbn; [by apply Forall_drop|done|rewrite length_drop; lia|intros Ho; apply Forall_drop; auto|done].
    + rewrite (proj1 (feed_insert _ _ _ _)), decide_True by done. unfold feed_stream. by rewrite E.
    + rewrite (proj2 (feed_insert _ _ _ _)). by rewrite decide_True.
    + intros q Hq. destruct (feed_insert w p (Feed (drop (Z.to_nat n) (f_frames f)) (f_most f) None) q) as [-> ->]. by rewrite !decide_False.
Defined.
