(* ===== verification/AudioMixerKeeps.v ===== *)
(** * What mixing leaves alone

    The routines that mix change samples, positions and the progress of ramps, never
    the parameters of a track or the choices made for it, whatever is behind the
    interfaces they call; and the invariant of the mixer's choices. *)

From Stdlib Require Import ZArith Lia.
From stdpp Require Import base tactics numbers option list gmap.
From S2P Require Import Prelude Words AudioPrimitives Nbaio NbaioProviders AudioMixer AudioMixerRules.

Section keeps.
Context {W : Type} `{!MixerEnv W}.
Implicit Types s : mixer W.

(** The parameters and choices of a track, and of the mixer. *)
Definition config (t : track_t) :=
  (needs t, volume (ramp0 t), volume (ramp1 t), volume (aux_ramp t), channelCount t, enabled t, channelMask t, bufferProvider t,
   t_hook t, resampler t, sampleRate t, (mainBuffer t, auxBuffer t, downmixerBufferProvider t, sessionId t)).
Definition control s :=
  (mTrackNames s, mConfiguredNames s, mSampleRate s, enabledTracks s, needsChanged s, m_frameCount s, hook s,
   isMultichannelCapable s, sLocalTimeFreq s, config <$> tracks s).
Definition arrays s : bool := match outputTemp s, resampleTemp s with Some _, Some _ => true | _, _ => false end.
Definition alike s s' : Prop := control s' = control s ∧ (arrays s = true → arrays s' = true).

#[export] Instance alike_preorder : PreOrder alike.
Proof. split; [by intros s|]. intros s1 s2 s3 [H1 H2] [H3 H4]. split; [congruence|auto]. Qed.

Definition keeps {A} (m : M (mixer W) A) : Prop := ∀ s a s', m s = Ret a s' → alike s s'.

Lemma keeps_ret {A} (a : A) : keeps (ret a).
Proof. by intros s b s' [= _ <-]. Qed.
Lemma keeps_getst : keeps getst.
Proof. by intros s b s' [= _ <-]. Qed.
Lemma keeps_crash {A} c : keeps (crash_with c : M (mixer W) A).
Proof. by intros s a s'. Qed.
Lemma keeps_deref {A} (o : option A) : keeps (deref o).
Proof. destruct o; [apply keeps_ret|apply keeps_crash]. Qed.
Lemma keeps_bind {A B} (m : M (mixer W) A) (k : A → M (mixer W) B) : keeps m → (∀ a, keeps (k a)) → keeps (bind m k).
Proof. intros Hm Hk s b s' (a & s1 & H1 & H2)%bind_Ret. etrans; [by eapply Hm|by eapply Hk]. Qed.
Lemma keeps_in_world {A} (m : M W A) : keeps (in_world m).
Proof. intros s a s'. unfold in_world, zoom. destruct (m (world s)); [|done]. by intros [= _ <-]. Qed.
Lemma keeps_get_track i : keeps (get_track i).
Proof. apply keeps_bind; [apply keeps_getst|]. intros s. destruct (bool_decide _); [apply keeps_deref|apply keeps_crash]. Qed.
Lemma keeps_words (f : mixer W → gmap Z Z) : keeps (modify (λ s, set_words (f s) s)).
Proof. by intros s a s' [= _ <-]. Qed.
Lemma keeps_upd_track i f : (∀ t, config (f t) = config t) → keeps (upd_track i f).
Proof.
  intros Hf. apply keeps_bind; [apply keeps_get_track|]. intros _ s a s' [= _ <-]. split; [|done].
  assert (config <$> alter f (Z.to_nat i) (tracks s) = config <$> tracks s) as E; [|unfold control; f_equal; exact E].
  apply list_eq. intros j. rewrite !list_lookup_fmap.
  destruct (decide (j = Z.to_nat i)) as [->|]; [|by rewrite list_lookup_alter_ne].
  rewrite list_lookup_alter_eq. destruct (tracks s !! Z.to_nat i); [|done]. cbn. by rewrite Hf.
Qed.
Lemma keeps_for_each {A} l (body : A → Z → M (mixer W) A) a : (∀ a i, keeps (body a i)) → keeps (for_each l body a).
Proof. intros Hb. revert a. induction l as [|i l IH]; intros a; [apply keeps_ret|]. apply keeps_bind; [apply Hb|intros; apply IH]. Qed.
Lemma keeps_temp l : keeps (modify (set_resampleTemp (Some l))).
Proof. intros s a s' [= _ <-]. split; [done|]. unfold arrays. cbn. by destruct (outputTemp s). Qed.
Lemma keeps_output l : keeps (modify (set_outputTemp (Some l))).
Proof. intros s a s' [= _ <-]. split; [done|]. unfold arrays. cbn. by destruct (resampleTemp s), (outputTemp s). Qed.

Create HintDb keeps.
#[local] Hint Resolve keeps_ret keeps_getst keeps_crash keeps_deref keeps_in_world keeps_get_track keeps_words keeps_temp keeps_output : keeps.
Ltac keeps := repeat first
  [ progress eauto with keeps
  | lazymatch goal with |- keeps (upd_track _ _) => apply keeps_upd_track; intros ?; reflexivity | |- keeps (bind _ _) => apply keeps_bind; [|intros ?] end
  | apply keeps_for_each; intros ? ?
  | match goal with
    | |- keeps (if ?b then _ else _) => destruct b
    | |- keeps (match ?x with _ => _ end) => destruct x
    | |- keeps (let _ := _ in _) => cbv zeta
    end ].

Lemma keeps_add_word p d : keeps (add_word p d).
Proof. unfold add_word. keeps. Qed.
Lemma keeps_load_i16 p : keeps (load_i16 p).
Proof. unfold load_i16. keeps. Qed.
#[local] Hint Resolve keeps_add_word keeps_load_i16 : keeps.
Lemma keeps_load_frame p : keeps (load_frame p).
Proof. unfold load_frame. keeps. Qed.
Lemma keeps_load_temp l : keeps (load_temp l).
Proof. unfold load_temp. keeps. Qed.
#[local] Hint Resolve keeps_load_frame keeps_load_temp : keeps.

Lemma keeps_frames body n c out : (∀ c o0 o1, keeps (body c o0 o1)) → keeps (frames body n c out).
Proof.
  intros Hb. revert c out. induction n as [|n IH]; intros c out; cbn [frames]; [keeps|].
  destruct out as [|o0 [|o1 out]]; keeps; by apply Hb || apply IH.
Qed.
Lemma keeps_do_frames body n c out : (∀ c o0 o1, keeps (body c o0 o1)) → keeps (do_frames body n c out).
Proof. intros. unfold do_frames. keeps. by apply keeps_frames. Qed.

Lemma config_ramped aux c t : config (ramped aux c t) = config t.
Proof.
  unfold ramped, adjustVolumeRamp, adjust_ramp, config. destruct t as [? [] [] [] ? ? ? ? ? ? ? ? ? ? ? ? ? ?].
  destruct aux; cbn; repeat match goal with |- context [if ?b then _ else _] => destruct b end; done.
Qed.
Lemma keeps_ramped i aux c : keeps (upd_track i (ramped aux c)).
Proof. apply keeps_upd_track. intros. apply config_ramped. Qed.
#[local] Hint Resolve keeps_ramped : keeps.

Ltac keeps_body := apply keeps_do_frames; intros; unfold ramp_incs, resampled_ramp_aux, resampled_ramp, resampled_aux, resampled_const,
  stereo_ramp_aux, stereo_aux, stereo_ramp, stereo_const, mono_ramp_aux, mono_aux, mono_ramp, mono_const; keeps.

Lemma keeps_volumeRampStereo i out n temp aux : keeps (volumeRampStereo i out n temp aux).
Proof. unfold volumeRampStereo. destruct aux; keeps; keeps_body. Qed.
Lemma keeps_volumeStereo i out n temp aux : keeps (volumeStereo i out n temp aux).
Proof. unfold volumeStereo. destruct aux; keeps; keeps_body. Qed.
Lemma keeps_mix_16BitsStereo i out n aux : keeps (mix_16BitsStereo i out n aux).
Proof. unfold mix_16BitsStereo, mix_16bits. destruct aux; keeps; keeps_body. Qed.
Lemma keeps_mix_16BitsMono i out n aux : keeps (mix_16BitsMono i out n aux).
Proof. unfold mix_16BitsMono, mix_16bits. destruct aux; keeps; keeps_body. Qed.
#[local] Hint Resolve keeps_volumeRampStereo keeps_volumeStereo keeps_mix_16BitsStereo keeps_mix_16BitsMono : keeps.
Lemma keeps_resample i r out n : keeps (resample i r out n).
Proof. unfold resample. keeps. Qed.
Lemma keeps_clear_temp l n : keeps (clear_temp l n).
Proof. unfold clear_temp. keeps. Qed.
#[local] Hint Resolve keeps_resample keeps_clear_temp : keeps.
Lemma keeps_resample_temp i r n : keeps (resample_temp i r n).
Proof. unfold resample_temp. keeps. Qed.
#[local] Hint Resolve keeps_resample_temp : keeps.
Lemma keeps_mix_genericResample i out n aux : keeps (mix_genericResample i out n aux).
Proof. unfold mix_genericResample. keeps. Qed.
#[local] Hint Resolve keeps_mix_genericResample : keeps.
Lemma keeps_call_hook i out n aux : keeps (call_hook i out n aux).
Proof. unfold call_hook. keeps. Qed.
#[local] Hint Resolve keeps_call_hook : keeps.
Lemma keeps_call_hook_at i out off n aux : keeps (call_hook_at i out off n aux).
Proof. unfold call_hook_at. keeps. Qed.
#[local] Hint Resolve keeps_call_hook_at : keeps.

(** ** The routines *)

Lemma keeps_acquire i n pts : keeps (acquire i n pts).
Proof. unfold acquire. keeps. Qed.
Lemma keeps_release i : keeps (release i).
Proof. unfold release. keeps. Qed.
Lemma keeps_output_pts i pts off : keeps (output_pts i pts off).
Proof. unfold output_pts. keeps. Qed.
Lemma keeps_store_words p l : keeps (store_words p l).
Proof. revert p. induction l as [|v l IH]; intros p; cbn [store_words]; keeps. Qed.
Lemma keeps_same_buffer e : keeps (same_buffer e).
Proof. unfold same_buffer. keeps. Qed.
#[local] Hint Resolve keeps_acquire keeps_release keeps_output_pts keeps_store_words keeps_same_buffer : keeps.
Lemma keeps_for_groups fuel body e acc : (∀ acc t e, keeps (body acc t e)) → keeps (for_groups fuel body e acc).
Proof. intros Hb. revert e acc. induction fuel as [|fuel IH]; intros e acc; cbn [for_groups]; keeps; apply Hb. Qed.

Lemma keeps_skip_frames fuel i pts F n : keeps (skip_frames fuel i pts F n).
Proof. revert n. induction fuel as [|fuel IH]; intros n; cbn [skip_frames]; keeps. Qed.
#[local] Hint Resolve keeps_skip_frames : keeps.
Lemma keeps_nop pts : keeps (run_nop pts).
Proof. unfold run_nop. keeps. apply keeps_for_groups. intros. keeps. Qed.

Lemma keeps_mix_block fuel i pts F N out n aux : keeps (mix_block fuel i pts F N out n aux).
Proof. revert out n aux. induction fuel as [|fuel IH]; intros out n aux; cbn [mix_block]; keeps. Qed.
#[local] Hint Resolve keeps_mix_block : keeps.
Lemma keeps_mix_tracks pts F N e enabled : keeps (mix_tracks pts F N e enabled).
Proof. unfold mix_tracks. apply keeps_for_each. intros [[? ?] ?] ?. keeps. Qed.
#[local] Hint Resolve keeps_mix_tracks : keeps.
Lemma keeps_mix_blocks fuel pts F N out e enabled : keeps (mix_blocks fuel pts F N out e enabled).
Proof. revert N out e enabled. induction fuel as [|fuel IH]; intros N out e enabled; cbn [mix_blocks]; keeps. Qed.
#[local] Hint Resolve keeps_mix_blocks : keeps.
Lemma keeps_genericNoResampling pts : keeps (run_genericNoResampling pts).
Proof. unfold run_genericNoResampling. keeps. apply keeps_for_groups. intros. keeps. Qed.

Lemma keeps_mix_buffers fuel i pts F out n aux : keeps (mix_buffers fuel i pts F out n aux).
Proof. revert out n aux. induction fuel as [|fuel IH]; intros out n aux; cbn [mix_buffers]; keeps. Qed.
#[local] Hint Resolve keeps_mix_buffers : keeps.
Lemma keeps_genericResampling pts : keeps (run_genericResampling pts).
Proof. unfold run_genericResampling. keeps. apply keeps_for_groups. intros. keeps. Qed.

Lemma keeps_one_words n b vrl p out : keeps (one_words n b vrl p out).
Proof. revert p out. induction n as [|n IH]; intros p out; cbn [one_words]; keeps. Qed.
#[local] Hint Resolve keeps_one_words : keeps.
Lemma keeps_one_track fuel i pts b out n : keeps (one_track fuel i pts b out n).
Proof. revert out n. induction fuel as [|fuel IH]; intros out n; cbn [one_track]; keeps. Qed.
#[local] Hint Resolve keeps_one_track : keeps.
Lemma keeps_OneTrack pts : keeps (run_OneTrack16BitsStereoNoResampling pts).
Proof. unfold run_OneTrack16BitsStereoNoResampling. keeps. Qed.

Lemma keeps_run_process h pts : keeps (run_process h pts).
Proof.
  destruct h; cbn [run_process]; [apply keeps_crash|apply keeps_nop|apply keeps_genericNoResampling|apply keeps_genericResampling|apply keeps_OneTrack].
Qed.
End keeps.

(** * The mixer's choices are up to date

    Over any sequence of calls the mask of enabled tracks, the needs and hooks of the
    tracks and the routine chosen for [process] agree with the parameters, or the
    choice is marked to be made again. *)

#[local] Opaque bits top_bit.

(** ** Needs *)

(** The needs of a track of [c + 1] channels. *)
Definition needs_enc (c : Z) (resample aux mute : bool) : Z :=
  c + 0x10 + (if mute then 0x100 else 0) + (if resample then 0x1000 else 0) + (if aux then 0x10000 else 0).
Definition wants_aux (t : track_t) : bool := bool_decide (volume (aux_ramp t) ≠ 0) && bool_decide (auxBuffer t ≠ None).
Definition resamples (t : track_t) : bool := bool_decide (resampler t ≠ None).
Definition channels_ok (t : track_t) : Prop := 1 ≤ channelCount t ≤ 8.

Lemma eight c : 0 ≤ c < 8 → c = 0 ∨ c = 1 ∨ c = 2 ∨ c = 3 ∨ c = 4 ∨ c = 5 ∨ c = 6 ∨ c = 7.
Proof. lia. Qed.
Ltac eight H := destruct (eight _ H) as [->|[->|[->|[->|[->|[->|[->| ->]]]]]]].

Lemma needs_of_enc t : channels_ok t →
  needs_of t = needs_enc (channelCount t - 1) (resamples t) (wants_aux t) (negb (ramping t) && silent t).
Proof.
  intros Hc. unfold needs_of. rewrite (u32_small (NEEDS_CHANNEL_1 + channelCount t - 1)) by (unfold NEEDS_CHANNEL_1, channels_ok in *; lia).
  replace (NEEDS_CHANNEL_1 + channelCount t - 1) with (channelCount t - 1) by (unfold NEEDS_CHANNEL_1; lia).
  fold (resamples t). fold (wants_aux t). fold (silent t). assert (0 ≤ channelCount t - 1 < 8) as H8 by (unfold channels_ok in Hc; lia).
  cbv zeta. destruct (resamples t), (wants_aux t), (ramping t), (silent t); eight H8; reflexivity.
Qed.

Section enc.
Context (c : Z) (H8 : 0 ≤ c < 8).
Lemma enc_mute r a : Z.lor (needs_enc c r a false) NEEDS_MUTE_ENABLED = needs_enc c r a true ∧ Z.lor (needs_enc c r a true) NEEDS_MUTE_ENABLED = needs_enc c r a true.
Proof. destruct r, a; eight H8; done. Qed.
Lemma enc_aux r a m : bool_decide (Z.land (needs_enc c r a m) NEEDS_AUX__MASK = NEEDS_AUX_ENABLED) = a.
Proof. destruct r, a, m; eight H8; done. Qed.
Lemma enc_resample r a m : bool_decide (Z.land (needs_enc c r a m) NEEDS_RESAMPLE__MASK = NEEDS_RESAMPLE_ENABLED) = r.
Proof. destruct r, a, m; eight H8; done. Qed.
Lemma enc_hook r a m : hook_of (needs_enc c r a m) =
  if m then track__nop else if r then track__genericResample else if bool_decide (c = 0) then track__16BitsMono else track__16BitsStereo.
Proof. destruct r, a, m; eight H8; done. Qed.
End enc.

(** The needs recorded for a track and its hook follow from its parameters; a track is only
    muted when it is silent. *)
Definition choice_ok (t : track_t) : Prop :=
  channels_ok t ∧ ∃ m, needs t = needs_enc (channelCount t - 1) (resamples t) (wants_aux t) m ∧
    t_hook t = Some (hook_of (needs t)) ∧ (m = true → silent t = true).

(** What the choice made for a track depends on. *)
Definition view (t : track_t) :=
  (needs t, volume (ramp0 t), volume (ramp1 t), volume (aux_ramp t), channelCount t, t_hook t, resampler t, auxBuffer t).

Lemma view_choice t t' : view t' = view t → choice_ok t → choice_ok t'.
Proof.
  unfold view. intros [= E1 E2 E3 E4 E5 E6 E7 E8] (Hc & m & Hn & Hh & Hm).
  split; [unfold channels_ok in *; congruence|]. exists m.
  assert (resamples t' = resamples t) as -> by (unfold resamples; by rewrite E7).
  assert (wants_aux t' = wants_aux t) as -> by (unfold wants_aux; by rewrite E4, E8).
  split; [congruence|]. split; [congruence|]. intros Hmt. rewrite <-(Hm Hmt). unfold silent, volumeRL. by rewrite E2, E3, E7.
Qed.
Lemma config_view t t' : config t' = config t → view t' = view t.
Proof. unfold config, view. intros [= -> -> -> -> -> _ _ _ -> -> _ _ -> _ _]. done. Qed.
Lemma choice_survey t : channels_ok t → let n := needs_of t in choice_ok (set_t_hook (Some (hook_of n)) (set_needs n t)).
Proof.
  intros Hc n. split; [done|]. exists (negb (ramping t) && silent t). split; [exact (needs_of_enc t Hc)|]. split; [done|].
  intros Hm. apply andb_true_iff in Hm as [_ Hm]. done.
Qed.
Lemma choice_mute t : choice_ok t → silent t = true →
  choice_ok (set_t_hook (Some track__nop) (set_needs (Z.lor (needs t) NEEDS_MUTE_ENABLED) t)).
Proof.
  intros (Hc & m & Hn & Hh & Hm) Hs. split; [done|]. exists true. assert (0 ≤ channelCount t - 1 < 8) as H8 by (unfold channels_ok in Hc; lia).
  assert (Z.lor (needs t) NEEDS_MUTE_ENABLED = needs_enc (channelCount t - 1) (resamples t) (wants_aux t) true) as E.
  { rewrite Hn. destruct (enc_mute _ H8 (resamples t) (wants_aux t)) as [E1 E2]. by destruct m. }
  cbn [needs t_hook set_t_hook set_needs]. rewrite E. split; [done|]. split; [|done]. by rewrite (enc_hook _ H8).
Qed.

Section inv.
Context {W : Type} `{!MixerEnv W}.
Implicit Types s : mixer W.

(** ** The invariant *)

Definition named s (i : Z) : Prop := Z.testbit (mTrackNames s) i = true.
Definition mixes s (i : Z) : Prop := Z.testbit (enabledTracks s) i = true.

(** What the routine chosen for [process] relies on. *)
Definition hook_ok s : Prop :=
  match hook s with
  | process__validate => True
  | process__nop => ∀ i t, track s i = Some t → mixes s i → silent t = true
  | process__genericNoResampling => ∀ i t, track s i = Some t → mixes s i → resampler t = None
  | process__genericResampling => arrays s = true
  | process__OneTrack16BitsStereoNoResampling => ∃ i t, 0 ≤ i < 32 ∧ enabledTracks s = bit i ∧ track s i = Some t ∧
      t_hook t = Some track__16BitsStereo ∧ resampler t = None ∧ needs_aux t = false
  end.
Definition chosen s : Prop := (∀ i t, track s i = Some t → mixes s i → choice_ok t) ∧ hook_ok s.

Record consistent s : Prop := {
  co_tracks : length (tracks s) = 32%nat;
  co_names : is_mask (mTrackNames s);
  co_configured i : named s i → Z.testbit (mConfiguredNames s) i = true;
  co_masks : is_mask (enabledTracks s) ∧ is_mask (needsChanged s) ∧ is_mask (mConfiguredNames s);
  co_channels i t : track s i = Some t → named s i → channels_ok t;
  (** A track is mixed if it has been enabled, unless that is still to be looked at. *)
  co_enabled i t : track s i = Some t → Z.testbit (needsChanged s) i = false → mixes s i ↔ named s i ∧ enabled t = true;
  co_deleted i t : track s i = Some t → ¬ named s i → Z.testbit (needsChanged s) i = true → enabled t = false;
  co_pending : needsChanged s ≠ 0 → hook s = process__validate;
  co_chosen : hook s ≠ process__validate → chosen s
}.

Lemma track_lt s i t : length (tracks s) = 32%nat → track s i = Some t → 0 ≤ i < 32.
Proof. unfold track. case_bool_decide; [|done]. intros Hl Ht%lookup_lt_Some. lia. Qed.
Lemma track_there s i : length (tracks s) = 32%nat → 0 ≤ i < 32 → ∃ t, track s i = Some t.
Proof. intros Hl Hi. unfold track. rewrite bool_decide_true by lia. apply lookup_lt_is_Some_2. lia. Qed.

(** It only depends on the parameters and choices. *)
Lemma chosen_view s s' :
  enabledTracks s' = enabledTracks s → hook s' = hook s → (arrays s = true → arrays s' = true) →
  (∀ i, mixes s i → view <$> track s' i = view <$> track s i) → chosen s → chosen s'.
Proof.
  intros Ee Eh Ha Hv [H1 H2].
  assert (∀ i t', track s' i = Some t' → mixes s' i → ∃ t, track s i = Some t ∧ mixes s i ∧ view t' = view t) as Hback.
  { intros i t' Ht Hi. unfold mixes in Hi. rewrite Ee in Hi. pose proof (Hv i Hi) as E. rewrite Ht in E. symmetry in E.
    apply fmap_Some in E as (t & Et & E). eauto. }
  split.
  { intros i t' Ht Hi. destruct (Hback i t' Ht Hi) as (t & Et & Hm & E). eapply view_choice; [exact E|]. by eapply H1. }
  unfold hook_ok in *. rewrite Eh. destruct (hook s); [done| | |by apply Ha|].
  - intros i t' Ht Hi. destruct (Hback i t' Ht Hi) as (t & Et & Hm & E). rewrite <-(H2 i t Et Hm).
    unfold view in E. injection E as _ E2 E3 _ _ _ E7 _. unfold silent, volumeRL. by rewrite E2, E3, E7.
  - intros i t' Ht Hi. destruct (Hback i t' Ht Hi) as (t & Et & Hm & E). rewrite <-(H2 i t Et Hm).
    unfold view in E. by injection E.
  - destruct H2 as (i & t & Hi & He & Ht & Hh & Hr & Hx).
    assert (mixes s i) as Hm by (unfold mixes; rewrite He, testbit_bit by lia; by rewrite bool_decide_true by done).
    pose proof (Hv i Hm) as E. rewrite Ht in E. apply fmap_Some in E as (t' & Et & E). exists i, t'.
    unfold view in E. injection E as E1 _ _ _ _ E6 E7 _. rewrite Ee.
    split; [done|]. split; [done|]. split; [done|]. split; [by rewrite <-E6|]. split; [by rewrite <-E7|]. unfold needs_aux. by rewrite <-E1.
Qed.

Lemma alike_track s s' i : alike s s' → config <$> track s' i = config <$> track s i.
Proof.
  intros [Hc _]. unfold control in Hc. injection Hc as _ _ _ _ _ _ _ _ _ Htr. unfold track. case_bool_decide; [|done].
  rewrite <-!list_lookup_fmap. by rewrite Htr.
Qed.
Lemma consistent_alike s s' : alike s s' → consistent s → consistent s'.
Proof.
  intros Ha [C1 C2 C3 C4 C5 C6 C7 C8 C9]. pose proof Ha as [Hc Harr]. unfold control in Hc. injection Hc as E1 E2 _ E4 E5 _ E7 _ _ Htr.
  assert (∀ i t', track s' i = Some t' → ∃ t, track s i = Some t ∧ channelCount t' = channelCount t ∧ enabled t' = enabled t) as Hb.
  { intros i t' Ht. pose proof (alike_track _ _ i Ha) as E. rewrite Ht in E. symmetry in E. apply fmap_Some in E as (t & Et & E).
    exists t. unfold config in E. by injection E. }
  split; unfold named, mixes; rewrite ?E1, ?E2, ?E4, ?E5, ?E7; try done.
  - apply (f_equal length) in Htr. by rewrite !length_fmap, C1 in Htr.
  - intros i t' Ht Hn. destruct (Hb _ _ Ht) as (t & Et & Ec & _). unfold channels_ok. rewrite Ec. by eapply C5.
  - intros i t' Ht Hn. destruct (Hb _ _ Ht) as (t & Et & _ & ->). by apply C6.
  - intros i t' Ht Hn Hx. destruct (Hb _ _ Ht) as (t & Et & _ & ->). by eapply C7.
  - intros Hh. eapply (chosen_view s); [done..| |by apply C9]. intros i _. pose proof (alike_track _ _ i Ha) as E.
    destruct (track s' i), (track s i); try done.
    apply (f_equal Some), config_view. by apply (inj Some).
Qed.
End inv.
