(* ===== verification/AudioMixerCalls.v ===== *)
(** * The calls on a mixer

    Each call keeps the mixer's choices consistent: it changes one track and marks it
    to be looked at again, or changes nothing that a choice depends on; [process]
    makes the choices that are marked. *)

From Stdlib Require Import ZArith Lia.
From stdpp Require Import base tactics numbers option list gmap.
From S2P Require Import Prelude Words AudioPrimitives Nbaio NbaioProviders AudioMixer AudioMixerRules AudioMixerKeeps.

#[local] Opaque bits top_bit.

Section calls.
Context {W : Type} `{!MixerEnv W}.
Implicit Types s : mixer W.

(** ** Changes of one track *)

Definition masks s := (mTrackNames s, mConfiguredNames s, enabledTracks s, needsChanged s, hook s, arrays s).
(** Only track [i] changes, and it stays enabled or not unless [E] is [false]. *)
Record touches (E : bool) (i : Z) s s' : Prop := {
  to_masks : masks s' = masks s;
  to_length : length (tracks s') = length (tracks s);
  to_others j : j ≠ i → track s' j = track s j;
  to_track t' : track s' i = Some t' → ∃ t, track s i = Some t ∧ (channels_ok t → channels_ok t') ∧ (E = true → enabled t' = enabled t)
}.
Lemma touches_refl E i s : touches E i s s.
Proof. split; try done. eauto. Qed.
Lemma touches_trans E i s1 s2 s3 : touches E i s1 s2 → touches E i s2 s3 → touches E i s1 s3.
Proof.
  intros [A1 A2 A3 A4] [B1 B2 B3 B4]. split; try congruence.
  - intros j Hj. rewrite B3, A3 by done. done.
  - intros t3 Ht3. destruct (B4 _ Ht3) as (t2 & Ht2 & Hc2 & He2). destruct (A4 _ Ht2) as (t1 & Ht1 & Hc1 & He1).
    exists t1. split; [done|]. split; [tauto|]. intros HE. rewrite He2 by done. by apply He1.
Qed.
Lemma touches_weaken i s s' E : touches true i s s' → touches E i s s'.
Proof. intros [A1 A2 A3 A4]. split; try done. intros t' Ht'. destruct (A4 _ Ht') as (t & Ht & Hc & He). eauto 6. Qed.

Lemma invalidated i s s' : consistent s → 0 ≤ i < 32 → named s i → touches false i s s' →
  consistent (set_hook process__validate (set_needsChanged (Z.lor (needsChanged s') (bit i)) s')).
Proof.
  intros [C1 C2 C3 C4 C5 C6 C7 C8 C9] Hi Hn [T1 T2 T3 T4]. unfold masks in T1. injection T1 as E1 E2 E3 E4 E5 E6.
  destruct C4 as (Ce & Cn & Cc). split; unfold named, mixes; cbn -[bit];
    change (track (set_hook _ (set_needsChanged ?n s'))) with (track s'); rewrite ?E1, ?E2, ?E3, ?E4, ?T2; try done.
  - split; [done|]. split; [|done]. apply mask_lor; [done|by apply mask_bit].
  - intros j t' Ht Hj. destruct (decide (j = i)) as [->|]; [|rewrite T3 in Ht by done; by eapply C5].
    destruct (T4 _ Ht) as (t & Et & Hc & _). by eapply Hc, C5.
  - intros j t' Ht Hj. rewrite Z.lor_spec in Hj. apply orb_false_iff in Hj as [Hj1 Hj2].
    assert (j ≠ i). { intros ->. rewrite testbit_bit, bool_decide_true in Hj2 by lia. done. }
    rewrite T3 in Ht by done. by apply C6.
  - intros j t' Ht Hj Hb. destruct (decide (j = i)) as [->|]; [done|]. rewrite T3 in Ht by done. eapply C7; [done..|].
    rewrite Z.lor_spec, testbit_bit in Hb; [|lia|unfold track in Ht; case_bool_decide; [lia|done]].
    rewrite bool_decide_false, orb_false_r in Hb by done. done.
Qed.

Lemma quietly i s s' : consistent s → named s i → touches true i s s' →
  (hook s ≠ process__validate → mixes s i → view <$> track s' i = view <$> track s i) → consistent s'.
Proof.
  intros [C1 C2 C3 C4 C5 C6 C7 C8 C9] Hn [T1 T2 T3 T4] Hv. unfold masks in T1. injection T1 as E1 E2 E3 E4 E5 E6.
  split; unfold named, mixes; rewrite ?E1, ?E2, ?E3, ?E4, ?E5, ?T2; try done.
  - intros j t' Ht Hj. destruct (decide (j = i)) as [->|]; [|rewrite T3 in Ht by done; by eapply C5].
    destruct (T4 _ Ht) as (t & Et & Hc & _). by eapply Hc, C5.
  - intros j t' Ht Hj. destruct (decide (j = i)) as [->|]; [|rewrite T3 in Ht by done; by eapply C6].
    destruct (T4 _ Ht) as (t & Et & _ & He). rewrite He by done. by apply C6.
  - intros j t' Ht Hj Hb. destruct (decide (j = i)) as [->|]; [done|]. rewrite T3 in Ht by done. by eapply C7.
  - intros Hh. apply (chosen_view s); [done|done|by rewrite E6| |by apply C9]. intros j Hj.
    destruct (decide (j = i)) as [->|]; [by apply Hv|]. by rewrite T3.
Qed.

(** ** Operations on one track *)

Definition touch {A} (E : bool) (i : Z) (m : M (mixer W) A) : Prop := ∀ s a s', m s = Ret a s' → touches E i s s'.

Lemma touch_ret {A} E i (a : A) : touch E i (ret a).
Proof. intros s b s' [= _ <-]. apply touches_refl. Qed.
Lemma touch_getst E i : touch E i getst.
Proof. intros s b s' [= _ <-]. apply touches_refl. Qed.
Lemma touch_crash {A} E i c : touch E i (crash_with c : M (mixer W) A).
Proof. by intros s a s'. Qed.
Lemma touch_deref {A} E i (o : option A) : touch E i (deref o).
Proof. destruct o; [apply touch_ret|apply touch_crash]. Qed.
Lemma touch_bind {A B} E i (m : M (mixer W) A) (k : A → M (mixer W) B) : touch E i m → (∀ a, touch E i (k a)) → touch E i (bind m k).
Proof. intros Hm Hk s b s' (a & s1 & H1 & H2)%bind_Ret. eapply touches_trans; [by eapply Hm|by eapply Hk]. Qed.
Lemma touch_bug_on {A} E i b (m : M (mixer W) A) : (b = false → touch E i m) → touch E i (bind (bug_on b) (λ _, m)).
Proof. destruct b; intros Hm; [by intros s a s'|]. apply touch_bind; [apply touch_ret|]. intros _. by apply Hm. Qed.
Lemma touch_in_world {A} E i (m : M W A) : touch E i (in_world m).
Proof.
  intros s a s'. unfold in_world, zoom. destruct (m (world s)); [|done]. intros [= _ <-]. split; try done. eauto.
Qed.
Lemma touch_get_track E i j : touch E i (get_track j).
Proof. apply touch_bind; [apply touch_getst|]. intros s. destruct (bool_decide _); [apply touch_deref|apply touch_crash]. Qed.
Lemma track_upd i f s s' a j : upd_track i f s = Ret a s' → track s' j = (if bool_decide (j = i) then f <$> track s j else track s j) ∧
  masks s' = masks s ∧ length (tracks s') = length (tracks s) ∧ 0 ≤ i.
Proof.
  unfold upd_track. intros (t & s1 & H1 & H2)%bind_Ret. unfold get_track in H1. rewrite bind_getst in H1.
  case_bool_decide as Hi; [|done]. unfold deref in H1. destruct (tracks s !! Z.to_nat i) eqn:Ht; [|done]. injection H1 as _ <-. injection H2 as _ <-.
  split; [|split; [done|]; split; [apply length_alter|done]]. unfold track.
  change (tracks (set_tracks ?x s)) with x. destruct (decide (j = i)) as [->|].
  - rewrite (bool_decide_true (i = i)), !bool_decide_true by done. apply list_lookup_alter_eq.
  - rewrite (bool_decide_false (j = i)) by done. case_bool_decide; [|done]. apply list_lookup_alter_ne. lia.
Qed.
Lemma touch_upd_track E i f : (∀ t, (channels_ok t → channels_ok (f t)) ∧ (E = true → enabled (f t) = enabled t)) → touch E i (upd_track i f).
Proof.
  intros Hf s a s' Hu. split.
  - by destruct (track_upd _ _ _ _ _ i Hu) as (_ & H & _).
  - by destruct (track_upd _ _ _ _ _ i Hu) as (_ & _ & H & _).
  - intros j Hj. destruct (track_upd _ _ _ _ _ j Hu) as (-> & _). by rewrite bool_decide_false by done.
  - intros t'. destruct (track_upd _ _ _ _ _ i Hu) as (-> & _). rewrite bool_decide_true by done.
    intros (t & Ht & ->)%fmap_Some. exists t. split; [done|]. apply Hf.
Qed.
Lemma touch_when E i b (m : M (mixer W) unit) : touch E i m → touch E i (when b do m).
Proof. destruct b; intros Hm; [done|apply touch_ret]. Qed.

Create HintDb touch.
#[local] Hint Resolve touch_ret touch_getst touch_crash touch_deref touch_in_world touch_get_track : touch.
Ltac touch := repeat first
  [ progress eauto with touch
  | lazymatch goal with |- touch _ _ (upd_track _ _) => apply touch_upd_track; intros ?; done
    | |- touch _ _ (bind (bug_on _) _) => apply touch_bug_on; intros ? | |- touch _ _ (bind _ _) => apply touch_bind; [|intros ?] end
  | match goal with
    | |- touch _ _ (if ?b then _ else _) => destruct b
    | |- touch _ _ (match ?x with _ => _ end) => destruct x
    | |- touch _ _ (let _ := _ in _) => cbv zeta
    end ].

Lemma touch_unprepare E i : touch E i (unprepareTrackForDownmix i).
Proof. unfold unprepareTrackForDownmix. touch. Qed.
#[local] Hint Resolve touch_unprepare : touch.
Lemma touch_no_downmix E i d : touch E i (noDownmixForActiveTrack i d).
Proof. unfold noDownmixForActiveTrack. touch. Qed.
#[local] Hint Resolve touch_no_downmix : touch.
Lemma touch_prepare E i : touch E i (prepareTrackForDownmix i).
Proof. unfold prepareTrackForDownmix. touch. Qed.
#[local] Hint Resolve touch_prepare : touch.
Lemma popcount_nonneg x : 0 ≤ popcount x.
Proof. unfold popcount. generalize 32%nat as n. intros n. revert x. induction n as [|n IH]; intros x; [done|]. cbn. pose proof (IH (Z.shiftr x 1)). destruct (Z.odd x); lia. Qed.
Lemma channels_mask n : 0 ≤ n → negb (bool_decide (n ≤ MAX_NUM_CHANNELS_TO_DOWNMIX) && bool_decide (n ≠ 0)) = false → 1 ≤ n mod 2 ^ 8 ≤ 8.
Proof.
  unfold MAX_NUM_CHANNELS_TO_DOWNMIX. intros H0 (H1%bool_decide_eq_true & H2%bool_decide_eq_true)%negb_false_iff%andb_true_iff.
  rewrite Z.mod_small by lia. lia.
Qed.
Lemma touch_channels E i mask : negb (bool_decide (popcount mask ≤ MAX_NUM_CHANNELS_TO_DOWNMIX) && bool_decide (popcount mask ≠ 0)) = false →
  touch E i (upd_track i (set_channelCount (popcount mask mod 2 ^ 8))).
Proof. intros Hn. apply touch_upd_track. intros t. split; [|done]. intros _. exact (channels_mask _ (popcount_nonneg _) Hn). Qed.
#[local] Hint Resolve touch_channels : touch.
Lemma touch_initTrackDownmix E i mask : touch E i (initTrackDownmix i mask).
Proof. unfold initTrackDownmix. cbv zeta. touch. Qed.
Lemma touch_setResampler E i v d : touch E i (setResampler i v d).
Proof. unfold setResampler. touch. Qed.
Lemma setResampler_false i v d s s' : setResampler i v d s = Ret false s' → s' = s.
Proof.
  unfold setResampler. intros (t & s1 & H1 & H2)%bind_Ret.
  assert (s1 = s) as ->.
  { unfold get_track in H1. rewrite bind_getst in H1. destruct (bool_decide _); [|done]. unfold deref in H1. destruct (tracks s !! _); [|done]. by injection H1. }
  destruct (_ || _); [|by injection H2]. destruct (bool_decide _); [|by injection H2].
  apply bind_Ret in H2 as (? & ? & _ & (? & ? & _ & H2)%bind_Ret). done.
Qed.

(** ** Calls that change a track *)

Definition preserves {A} (m : M (mixer W) A) s : Prop := ∀ a s', m s = Ret a s' → consistent s → consistent s'.

Lemma invalidate_eq i s a s' : 0 ≤ i → invalidateState (bit i) s = Ret a s' →
  s' = set_hook process__validate (set_needsChanged (Z.lor (needsChanged s) (bit i)) s).
Proof.
  intros Hi. unfold invalidateState. rewrite bool_decide_false; [by intros [= _ <-]|].
  intros Hb. pose proof (testbit_bit i i Hi Hi) as Ht. rewrite Hb, Z.bits_0, bool_decide_true in Ht by done. done.
Qed.
Lemma invalidates {A} i s (m : M (mixer W) A) (k : A → M (mixer W) unit) : 0 ≤ i < 32 → named s i → touch false i m →
  (∀ a, k a = invalidateState (bit i)) → preserves (bind m k) s.
Proof.
  intros Hi Hn Hm Hk b s' (a & s1 & H1 & H2)%bind_Ret HC. rewrite Hk in H2. apply invalidate_eq in H2 as ->; [|lia].
  eapply invalidated; [done..|]. by eapply Hm.
Qed.
Lemma preserves_same s (m : M (mixer W) unit) : (∀ a s', m s = Ret a s' → s' = s) → preserves m s.
Proof. intros Hm a s' H. by rewrite (Hm _ _ H). Qed.
Lemma preserves_when s (b : bool) (m : M (mixer W) unit) : preserves m s → preserves (if b then m else ret tt) s.
Proof. intros Hm. destruct b; [done|]. by intros a s' [= _ <-]. Qed.

Lemma get_track_Ret s i t s' : get_track i s = Ret t s' → s' = s ∧ track s i = Some t.
Proof.
  unfold get_track, track. rewrite bind_getst. case_bool_decide; [|done]. unfold deref. destruct (tracks s !! _); [|done].
  by intros [= <- <-].
Qed.
Lemma preserves_get_track {A} s i (k : track_t → M (mixer W) A) : (∀ t, track s i = Some t → preserves (k t) s) → preserves (bind (get_track i) k) s.
Proof. intros Hk a s' (t & s1 & H1 & H2)%bind_Ret. apply get_track_Ret in H1 as [-> Ht]. by eapply Hk. Qed.
Lemma preserves_getst {A} s (k : mixer W → M (mixer W) A) : preserves (k s) s → preserves (bind getst k) s.
Proof. intros Hk a s'. rewrite bind_getst. apply Hk. Qed.
Lemma preserves_bug_on {A} s b (m : M (mixer W) A) : (b = false → preserves m s) → preserves (bind (bug_on b) (λ _, m)) s.
Proof. destruct b; intros Hm; [by intros a s'|]. intros a s' H. by eapply Hm. Qed.

(** The index of a name that [track_index] accepts. *)
Lemma track_index_Ret name s i s' : track_index name s = Ret i s' → s' = s ∧ i = name - TRACK0.
Proof. unfold track_index. destruct (negb _); [done|]. by intros [= <- <-]. Qed.
Lemma preserves_track_index {A} s name (k : Z → M (mixer W) A) :
  preserves (k (name - TRACK0)) s → preserves (bind (track_index name) k) s.
Proof. intros Hk a s' (i & s1 & H1 & H2)%bind_Ret. apply track_index_Ret in H1 as [-> ->]. by eapply Hk. Qed.

Lemma named_range s i : is_mask (mTrackNames s) → 0 ≤ i → named s i → i < 32.
Proof. intros Hm Hi Hn. destruct (Z.lt_ge_cases i 32); [done|]. unfold named in Hn. by rewrite mask_below in Hn. Qed.

Section one.
Context s (name : Z) (Hi : 0 ≤ name - TRACK0 < 32) (Hn : named s (name - TRACK0)).

Lemma preserves_enable : preserves (enable name) s.
Proof.
  apply preserves_track_index, preserves_get_track. intros t Ht. apply preserves_when.
  apply (invalidates (name - TRACK0)); [done|done| |done]. apply touch_upd_track. done.
Qed.
Lemma preserves_disable : preserves (disable name) s.
Proof.
  apply preserves_track_index, preserves_get_track. intros t Ht. apply preserves_when.
  apply (invalidates (name - TRACK0)); [done|done| |done]. apply touch_upd_track. done.
Qed.
Lemma preserves_gain get put jump v : (∀ r, ∀ t, channels_ok t → channels_ok (put r t)) →
  preserves (set_gain (name - TRACK0) get put jump v) s.
Proof.
  intros Hp. apply preserves_getst, preserves_get_track. intros t Ht. destruct (set_level _ _ _ _) as [r|].
  - apply (invalidates (name - TRACK0)); [done|done| |done]. apply touch_upd_track. intros t'. split; [apply Hp|done].
  - apply preserves_same. by intros a s' [= _ <-].
Qed.
Lemma assoc_preserves {A B} s0 (m : M (mixer W) A) (k : A → M (mixer W) B) (f : B → M (mixer W) unit) :
  preserves (bind (bind m k) f) s0 → preserves (bind m (λ a, bind (k a) f)) s0.
Proof.
  intros H a s' (x & s1 & H1 & (y & s2 & H2 & H3)%bind_Ret)%bind_Ret. refine (H a s' _). apply bind_Ret. exists y, s2. split; [|done].
  apply bind_Ret. eauto.
Qed.
Lemma preserves_setParameter param : preserves (setParameter name param) s.
Proof.
  apply preserves_track_index, preserves_getst, preserves_get_track. intros t Ht. destruct param as [mask|p|p|v|v| | |jump v|jump v|jump v].
  - apply preserves_when, preserves_bug_on. intros Hc. repeat apply assoc_preserves.
    apply (invalidates (name - TRACK0)); [done|done| |done].
    apply touch_bind; [apply touch_bind; [by apply touch_upd_track|intros; by apply touch_channels]|intros; apply touch_initTrackDownmix].
  - apply preserves_when, (invalidates (name - TRACK0)); [done|done|by apply touch_upd_track|done].
  - apply preserves_when, (invalidates (name - TRACK0)); [done|done|by apply touch_upd_track|done].
  - apply preserves_same. intros a s'. destruct (negb _); [done|]. by intros [= _ <-].
  - apply preserves_bug_on. intros _ a s' H HC. apply bind_Ret in H as (b & s1 & H1 & H2). destruct b.
    + apply invalidate_eq in H2 as ->; [|lia]. eapply invalidated; [done..|]. by eapply touch_setResampler.
    + injection H2 as _ <-. by rewrite (setResampler_false _ _ _ _ _ H1).
  - apply (invalidates (name - TRACK0)); [done|done| |done]. destruct (resampler t); [apply touch_in_world|apply touch_ret].
  - repeat apply assoc_preserves. apply (invalidates (name - TRACK0)); [done|done| |done].
    apply touch_bind; [apply touch_bind; [|intros; by apply touch_upd_track]|intros; by apply touch_upd_track].
    destruct (resampler t); [apply touch_in_world|apply touch_ret].
  - by apply preserves_gain.
  - by apply preserves_gain.
  - by apply preserves_gain.
Qed.
End one.

(** ** Names and providers *)

Lemma idle s i t : consistent s → track s i = Some t → enabled t = false → hook s ≠ process__validate → ¬ mixes s i.
Proof.
  intros [C1 C2 C3 C4 C5 C6 C7 C8 C9] Ht He Hh Hm.
  assert (needsChanged s = 0) as E0 by (destruct (decide (needsChanged s = 0)); [done|tauto]).
  apply (C6 i t Ht) in Hm as [_ Hx]; [congruence|]. by rewrite E0, Z.bits_0.
Qed.
Lemma touches_idle s s' i t : consistent s → named s i → track s i = Some t → enabled t = false → touches true i s s' →
  consistent s' ∧ named s' i ∧ (∀ t', track s' i = Some t' → enabled t' = false).
Proof.
  intros HC Hn Ht He HT. split; [|split].
  - eapply quietly; [done..|]. intros Hh Hm. exfalso. by eapply idle.
  - destruct HT as [T1 _ _ _]. unfold masks in T1. unfold named in *. congruence.
  - intros t' Ht'. destruct (to_track _ _ _ _ HT _ Ht') as (t0 & Et & _ & ->); [|done]. congruence.
Qed.

Lemma unnamed s i t : consistent s → 0 ≤ i → track s i = Some t → enabled t = false →
  consistent (set_mTrackNames (clear_bit (mTrackNames s) i) s).
Proof.
  intros HC Hi Ht He. pose proof (λ H, idle s i t HC Ht He H) as Hidle. destruct HC as [C1 C2 C3 C4 C5 C6 C7 C8 C9].
  assert (∀ j, named (set_mTrackNames (clear_bit (mTrackNames s) i) s) j ↔ named s j ∧ j ≠ i) as Hn.
  { intros j. unfold named. cbn -[clear_bit]. destruct (Z.lt_ge_cases j 0); [rewrite !Z.testbit_neg_r by done; naive_solver|].
    rewrite testbit_clear, andb_true_iff, bool_decide_eq_true by done. naive_solver. }
  split; [done|by apply mask_clear| |done| | | |done|done]; intros j.
  - intros [Hj _]%Hn. by apply C3.
  - intros t' Ht' [Hj _]%Hn. by eapply C5.
  - intros t' Ht' Hj. rewrite Hn. change (mixes s j ↔ (named s j ∧ j ≠ i) ∧ enabled t' = true). rewrite (C6 j t' Ht' Hj).
    change (track s j = Some t') in Ht'. destruct (decide (j = i)) as [->|]; [|naive_solver]. assert (t' = t) as -> by congruence. rewrite He. naive_solver.
  - intros t' Ht' Hj Hb. rewrite Hn in Hj. change (track s j = Some t') in Ht'. destruct (decide (j = i)) as [->|]; [congruence|].
    eapply C7; [done| |done]. naive_solver.
Qed.

Lemma newly_named s s' n t : consistent s → 0 ≤ n < 32 → Z.testbit (mConfiguredNames s) n = true → ¬ named s n →
  masks s' = masks (set_mTrackNames (Z.lor (mTrackNames s) (bit n)) s) → length (tracks s') = length (tracks s) →
  (∀ j, j ≠ n → track s' j = track s j) → track s' n = Some t → enabled t = false → channels_ok t → consistent s'.
Proof.
  intros [C1 C2 C3 C4 C5 C6 C7 C8 C9] Hi Hc Hu T1 T2 T3 Ht He Hch. unfold masks in T1. injection T1 as E1 E2 E3 E4 E5 E6.
  change (mTrackNames s' = Z.lor (mTrackNames s) (bit n)) in E1. change (mConfiguredNames s' = mConfiguredNames s) in E2.
  change (enabledTracks s' = enabledTracks s) in E3. change (needsChanged s' = needsChanged s) in E4. change (hook s' = hook s) in E5. change (arrays s' = arrays s) in E6.
  assert (∀ j, named s' j ↔ named s j ∨ j = n) as Hn.
  { intros j. unfold named. rewrite E1. destruct (Z.lt_ge_cases j 0); [rewrite !Z.testbit_neg_r by done; naive_solver lia|].
    rewrite Z.lor_spec, orb_true_iff, testbit_bit, bool_decide_eq_true by lia. naive_solver. }
  assert (Z.testbit (needsChanged s) n = false → ¬ mixes s n) as Hnm.
  { intros Hb. destruct (track_there s n C1 Hi) as (t0 & Ht0). rewrite (C6 _ _ Ht0 Hb). tauto. }
  split; unfold mixes; rewrite ?E2, ?E3, ?E4, ?E5, ?T2; try done.
  - rewrite E1. apply mask_lor; [done|by apply mask_bit].
  - intros j [Hj| ->]%Hn; [by apply C3|done].
  - intros j t' Ht' [Hj| ->]%Hn; [|congruence]. destruct (decide (j = n)) as [->|]; [congruence|]. rewrite T3 in Ht' by done. by eapply C5.
  - intros j t' Ht' Hj. rewrite Hn. destruct (decide (j = n)) as [->|].
    + assert (t' = t) as -> by congruence. rewrite He. specialize (Hnm Hj). unfold mixes in Hnm. naive_solver.
    + rewrite T3 in Ht' by done. pose proof (C6 j t' Ht' Hj) as E. unfold mixes in E. naive_solver.
  - intros j t' Ht' Hj Hb. rewrite Hn in Hj. rewrite T3 in Ht' by naive_solver. eapply C7; [done| |done]. naive_solver.
  - intros Hh. apply (chosen_view s); [done|done|by rewrite E6| |by apply C9]. intros j Hj. rewrite T3; [done|]. intros ->.
    apply Hnm; [|done]. assert (needsChanged s = 0) as -> by (destruct (decide (needsChanged s = 0)); [done|tauto]). apply Z.bits_0.
Qed.

Lemma ctz_spec n x : 0 < x < 2 ^ Z.of_nat n → 0 ≤ ctz n x < Z.of_nat n ∧ Z.testbit x (ctz n x) = true.
Proof.
  revert x. induction n as [|n IH]; intros x Hx; [cbn in Hx; lia|]. cbn [ctz]. destruct (Z.odd x) eqn:Ho.
  - split; [lia|]. by rewrite Z.bit0_odd.
  - assert (Z.even x = true) as He by (by rewrite <-Z.negb_odd, Ho). apply Z.even_spec in He as [y ->].
    rewrite Nat2Z.inj_succ, Z.pow_succ_r in Hx by lia. rewrite Z.shiftr_div_pow2 by done.
    replace (2 * y / 2 ^ 1) with y by (rewrite Z.pow_1_r, Z.mul_comm, Z.div_mul; done).
    destruct (IH y ltac:(lia)) as [H1 H2]. split; [lia|]. replace (1 + ctz n y) with (Z.succ (ctz n y)) by lia.
    by rewrite Z.double_bits_succ.
Qed.
Lemma free_name s : consistent s → let names := Z.land (Z.lnot (mTrackNames s)) (mConfiguredNames s) in names ≠ 0 →
  0 ≤ ctz 32 names < 32 ∧ ¬ named s (ctz 32 names) ∧ Z.testbit (mConfiguredNames s) (ctz 32 names) = true.
Proof.
  intros [C1 C2 C3 C4 C5 C6 C7 C8 C9] names Hne. assert (is_mask names) as [Hm0 Hm1] by (unfold names; rewrite Z.land_comm; apply mask_land; tauto).
  destruct (ctz_spec 32 names) as [H1 H2]; [change (2 ^ Z.of_nat 32) with (2 ^ 32); lia|]. split; [exact H1|].
  unfold names in H2 at 1. rewrite Z.land_spec, Z.lnot_spec in H2 by lia. apply andb_true_iff in H2 as [H2 H3].
  split; [|done]. unfold named. by destruct (Z.testbit (mTrackNames s) _).
Qed.

Lemma preserves_getTrackName mask session s : preserves (getTrackName mask session) s.
Proof.
  apply preserves_getst. destruct (decide (Z.land (Z.lnot (mTrackNames s)) (mConfiguredNames s) ≠ 0)) as [Hne|Hne]; cbv zeta.
  2:{ rewrite bool_decide_false by done. by intros a s' [= _ <-]. }
  rewrite bool_decide_true by done. intros a s' H HC. destruct (free_name s HC Hne) as (Hn & Hu & Hc). revert Hn Hu Hc H.
  generalize (ctz 32 (Z.land (Z.lnot (mTrackNames s)) (mConfiguredNames s))) as n. intros n Hn Hu Hc H.
  apply bind_Ret in H as ([] & s1 & [= <-] & (? & s2 & H2 & (st & s3 & H3 & H4)%bind_Ret)%bind_Ret).
  set (s1 := set_mTrackNames _ s) in *. destruct (track_there s n (co_tracks _ HC) Hn) as (t & Ht).
  destruct (track_upd _ _ _ _ _ n H2) as (Ht2 & Hm2 & Hl2 & _). rewrite bool_decide_true in Ht2 by done. change (track s1 n) with (track s n) in Ht2. rewrite Ht in Ht2.
  assert (consistent s2) as HC2.
  { eapply newly_named; [exact HC|exact Hn|exact Hc|exact Hu|exact Hm2|exact Hl2| |exact Ht2|done|by unfold channels_ok].
    intros j Hj. destruct (track_upd _ _ _ _ _ j H2) as (-> & _). by rewrite bool_decide_false by done. }
  assert (named s2 n) as Hn2.
  { unfold masks in Hm2. injection Hm2 as E _ _ _ _ _. unfold named. rewrite E. cbn -[bit]. rewrite Z.lor_spec, testbit_bit, bool_decide_true by lia. apply orb_true_r. }
  destruct (touches_idle s2 s3 n _ HC2 Hn2 Ht2 eq_refl (touch_initTrackDownmix true n mask _ _ _ H3)) as [HC3 _].
  destruct (bool_decide _); injection H4 as _ <-; exact HC3.
Qed.

Lemma preserves_deleteTrackName name s : 0 ≤ name - TRACK0 < 32 → named s (name - TRACK0) → preserves (deleteTrackName name) s.
Proof.
  intros Hi Hn. apply preserves_track_index, preserves_get_track. intros t Ht a s' H HC.
  apply bind_Ret in H as ([] & s1 & H1 & H2). generalize dependent (name - TRACK0). intros i Hi Hn Ht H1 H2.
  assert (consistent s1 ∧ named s1 i ∧ ∃ t1, track s1 i = Some t1 ∧ enabled t1 = false) as (HC1 & Hn1 & t1 & Ht1 & He1).
  { destruct (enabled t) eqn:He; [|injection H1 as <-; eauto].
    apply bind_Ret in H1 as (? & s0 & H0 & H1). apply invalidate_eq in H1 as ->; [|lia].
    destruct (track_upd _ _ _ _ _ i H0) as (Ht0 & Hm0 & _). rewrite bool_decide_true, Ht in Ht0 by done.
    split; [eapply invalidated; [done..|]; eapply touch_upd_track; [|exact H0]; done|]. split; [|eexists; split; [exact Ht0|done]].
    unfold masks in Hm0. unfold named in *. cbn -[bit]. congruence. }
  apply bind_Ret in H2 as (? & s2 & H2 & (? & s3 & H3 & (? & s4 & H4 & H5)%bind_Ret)%bind_Ret). injection H5 as _ <-.
  assert (touches true i s1 s4) as HT.
  { eapply touches_trans; [|eapply touches_trans; [eapply touch_upd_track, H3; done|eapply touch_unprepare, H4]].
    destruct (resampler t); [by eapply touch_in_world|by eapply touch_ret]. }
  destruct (touches_idle _ _ _ _ HC1 Hn1 Ht1 He1 HT) as (HC4 & _ & He4).
  destruct (track_there s4 i (co_tracks _ HC4) Hi) as (t4 & Ht4). eapply unnamed; [done|lia|done|by apply He4].
Qed.

Lemma preserves_setBufferProvider name p s : named s (name - TRACK0) → preserves (setBufferProvider name p) s.
Proof.
  intros Hn. apply preserves_track_index, preserves_get_track. intros t Ht a s' H HC.
  assert (∀ f s0 a s0', (∀ t, view (f t) = view t) → upd_track (name - TRACK0) f s0 = Ret a s0' → view <$> track s0' (name - TRACK0) = view <$> track s0 (name - TRACK0)) as Hv.
  { intros f s0 a0 s0' Hf Hu. destruct (track_upd _ _ _ _ _ (name - TRACK0) Hu) as (-> & _). rewrite bool_decide_true by done.
    destruct (track s0 _); [|done]. cbn -[view]. by rewrite Hf. }
  destruct (downmixerBufferProvider t) as [d|].
  - destruct (bool_decide _); [|by injection H as _ <-]. apply bind_Ret in H as (? & s1 & H1 & H2).
    eapply quietly; [done|done| |].
    + eapply touches_trans; eapply touch_upd_track; [|exact H1| |exact H2]; done.
    + intros _ _. etrans; eapply Hv; [|exact H2| |exact H1]; done.
  - eapply quietly; [done|done|eapply touch_upd_track; [|exact H]; done|]. intros _ _. eapply Hv; [|exact H]; done.
Qed.
End calls.
