(* ===== verification/AudioMixerProcess.v ===== *)
(** * [process] makes the choices

    The first call of [process] after a change recomputes the mask of tracks to mix,
    looks at what each of them needs, and chooses the routine for all; what it then
    leaves is consistent. *)

From Stdlib Require Import ZArith Lia.
From stdpp Require Import base tactics numbers option list gmap.
From S2P Require Import Prelude Words AudioPrimitives Nbaio NbaioProviders AudioMixer AudioMixerRules AudioMixerKeeps AudioMixerCalls.

#[local] Opaque bits top_bit.

Section process.
Context {W : Type} `{!MixerEnv W}.
Implicit Types s : mixer W.

Lemma for_each_Ret {A} (I : list Z → A → mixer W → Prop) l (body : A → Z → M (mixer W) A) a s a' s' :
  I [] a s → (∀ l1 i l2 a s a' s', l = l1 ++ i :: l2 → I l1 a s → body a i s = Ret a' s' → I (l1 ++ [i]) a' s') →
  for_each l body a s = Ret a' s' → I l a' s'.
Proof.
  intros H0 Hb. enough (∀ l1 l2 a s, l = l1 ++ l2 → I l1 a s → for_each l2 body a s = Ret a' s' → I l a' s') as Hx by by apply (Hx []).
  intros l1 l2. revert l1. induction l2 as [|i l2 IH]; intros l1 b s1 Hl HI; cbn [for_each].
  - intros [= <- <-]. rewrite app_nil_r in Hl. by subst.
  - intros (b1 & s2 & H1 & H2)%bind_Ret. apply (IH (l1 ++ [i]) b1 s2); [by rewrite <-app_assoc| |done].
    by eapply Hb.
Qed.

(** ** The tracks to mix *)

(** [consistent], but for the choices of the tracks. *)
Record settled s : Prop := {
  se_tracks : length (tracks s) = 32%nat;
  se_names : is_mask (mTrackNames s);
  se_configured i : named s i → Z.testbit (mConfiguredNames s) i = true;
  se_masks : is_mask (enabledTracks s) ∧ is_mask (mConfiguredNames s);
  se_changed : needsChanged s = 0;
  se_channels i t : track s i = Some t → named s i → channels_ok t;
  se_enabled i t : track s i = Some t → mixes s i ↔ named s i ∧ enabled t = true
}.
Lemma settled_consistent s : settled s → chosen s → consistent s.
Proof.
  intros [S1 S2 S3 [S4 S5] S6 S7 S8] HC. split; try done.
  - by rewrite S6.
  - intros i t Ht _. by apply S8.
  - intros i t Ht Hn. by rewrite S6, Z.bits_0.
Qed.
Lemma consistent_settled s : consistent s → needsChanged s = 0 → settled s.
Proof.
  intros [C1 C2 C3 (C4 & C4' & C4'') C5 C6 C7 C8 C9] E. split; try done. intros i t Ht. apply C6; [done|]. by rewrite E, Z.bits_0.
Qed.
(** What it depends on. *)
Definition members s := (mTrackNames s, mConfiguredNames s, enabledTracks s, needsChanged s).
Definition member (t : track_t) := (channelCount t, enabled t).
Lemma settled_same s s' : members s' = members s → length (tracks s') = length (tracks s) →
  (∀ i, member <$> track s' i = member <$> track s i) → settled s → settled s'.
Proof.
  intros Hm Hl Ht [S1 S2 S3 S4 S6 S7 S8]. unfold members in Hm. injection Hm as E1 E2 E3 E4.
  assert (∀ i t', track s' i = Some t' → ∃ t, track s i = Some t ∧ channelCount t' = channelCount t ∧ enabled t' = enabled t) as Hb.
  { intros i t' Ht'. pose proof (Ht i) as E. rewrite Ht' in E. symmetry in E. apply fmap_Some in E as (t & Et & E). exists t. by injection E. }
  split; unfold named, mixes; rewrite ?E1, ?E2, ?E3, ?E4, ?Hl; try done.
  - intros i t' Ht' Hn. destruct (Hb _ _ Ht') as (t & Et & Ec & _). unfold channels_ok. rewrite Ec. by eapply S7.
  - intros i t' Ht'. destruct (Hb _ _ Ht') as (t & Et & _ & ->). by apply S8.
Qed.

(** What [recompute_enabled] collects: the tracks of a list that are enabled, and that are not. *)
Definition sorted_out s (l : list Z) (en dis : Z) : Prop := is_mask en ∧ is_mask dis ∧ ∀ j t, track s j = Some t →
  (Z.testbit en j = true ↔ j ∈ l ∧ enabled t = true) ∧ (Z.testbit dis j = true ↔ j ∈ l ∧ enabled t = false).
Lemma sorted_out_next s l en dis i t : length (tracks s) = 32%nat → track s i = Some t → sorted_out s l en dis →
  if enabled t then sorted_out s (l ++ [i]) (Z.lor en (bit i)) dis else sorted_out s (l ++ [i]) en (Z.lor dis (bit i)).
Proof.
  intros Hlen Ht (He & Hd & Hl). pose proof (track_lt _ _ _ Hlen Ht) as Hi.
  assert (∀ e, is_mask e → is_mask (Z.lor e (bit i))) by (intros; apply mask_lor; [done|by apply mask_bit]).
  assert (∀ e j t', track s j = Some t' → Z.testbit (Z.lor e (bit i)) j = true ↔ Z.testbit e j = true ∨ j = i) as Hlor.
  { intros e j t' Hj. apply track_lt in Hj; [|done]. rewrite Z.lor_spec, orb_true_iff, testbit_bit, bool_decide_eq_true by lia. naive_solver. }
  destruct (enabled t) eqn:Hen; (split; [by auto|]; split; [by auto|]; intros j t' Hj; destruct (Hl j t' Hj) as [L1 L2]);
    rewrite ?(Hlor _ _ _ Hj), L1, L2, !elem_of_app, !list_elem_of_singleton;
    (destruct (decide (j = i)) as [->|]; [assert (t' = t) as -> by congruence; rewrite Hen|]); intuition congruence.
Qed.
Lemma recompute_loop s l en dis s' : length (tracks s) = 32%nat →
  for_each l (λ '(en, dis) i, t <- get_track i ;; ret (if enabled t then (Z.lor en (bit i), dis) else (en, Z.lor dis (bit i)))) (0, 0) s = Ret (en, dis) s' →
  s' = s ∧ sorted_out s l en dis.
Proof.
  intros Hlen. apply (for_each_Ret (λ l x s1, s1 = s ∧ sorted_out s l x.1 x.2)).
  - split; [done|]. split; [done|]. split; [done|]. intros j t _. cbn. rewrite Z.bits_0. set_solver.
  - intros l1 i l2 [en1 dis1] s1' [en2 dis2] s2 _ (-> & HS) Hs. apply bind_Ret in Hs as (t & s3 & Ht & H3). apply get_track_Ret in Ht as [-> Ht].
    pose proof (sorted_out_next _ _ _ _ _ _ Hlen Ht HS) as Hnext. destruct (enabled t); injection H3 as <- <- <-; done.
Qed.

Lemma recompute_settled s a s' : consistent s → recompute_enabled s = Ret a s' → settled s' ∧ hook s' = hook s.
Proof.
  intros HC. unfold recompute_enabled. rewrite bind_getst. intros ([] & s0 & [= <-] & ([en dis] & s1 & H1 & H2)%bind_Ret)%bind_Ret. injection H2 as _ <-.
  destruct HC as [C1 C2 C3 (C4 & C4' & C4'') C5 C6 C7 C8 C9]. set (s0 := set_needsChanged 0 s) in *.
  apply (recompute_loop s0) in H1 as (-> & He & Hd & Hb); [|done].
  split; [|done]. set (e' := Z.lor (Z.land (enabledTracks s0) (Z.lnot dis)) en).
  change (settled (set_enabledTracks e' s0)). assert (is_mask e') by (apply mask_lor; [by apply mask_land|done]).
  split; try done.
  intros i t Ht. change (Z.testbit e' i = true ↔ named s i ∧ enabled t = true). change (track s i = Some t) in Ht.
  pose proof (track_lt s i t C1 Ht) as Hi. destruct (Hb i t Ht) as [B1 B2]. unfold e'.
  rewrite Z.lor_spec, Z.land_spec, Z.lnot_spec, orb_true_iff, andb_true_iff, negb_true_iff, B1 by lia.
  change (Z.testbit (enabledTracks s0) i = true) with (mixes s i). rewrite elem_of_bits in * by done.
  pose proof (C7 i t Ht) as H7. pose proof (C6 i t Ht) as H6. unfold named in *.
  destruct (Z.testbit (needsChanged s) i) eqn:Hx, (enabled t) eqn:Hen, (Z.testbit dis i) eqn:Hdi, (Z.testbit (mTrackNames s) i) eqn:Hni; intuition congruence.
Qed.

(** ** The choices *)

(** What is recorded for a track that is looked at. *)
Definition looked_at (t : track_t) : track_t := set_t_hook (Some (hook_of (needs_of t))) (set_needs (needs_of t) t).
Definition muted (t : track_t) : track_t := set_t_hook (Some track__nop) (set_needs (Z.lor (needs t) NEEDS_MUTE_ENABLED) t).

(** The tracks [l] of [s] are changed by [f]. *)
Record changes (f : track_t → track_t) (l : list Z) s s' : Prop := {
  ch_masks : masks s' = masks s;
  ch_length : length (tracks s') = length (tracks s);
  ch_tracks j : track s' j = if bool_decide (j ∈ l) then f <$> track s j else track s j
}.
Lemma changes_nil f s : changes f [] s s.
Proof. split; [done|done|]. intros j. by rewrite bool_decide_false by apply not_elem_of_nil. Qed.
Lemma changes_next f l i t s s' s'' a g : changes f l s s' → i ∉ l → track s' i = Some t → upd_track i g s' = Ret a s'' → g t = f t →
  changes f (l ++ [i]) s s''.
Proof.
  intros [A1 A2 A3] Hi Ht Hu Hg. pose proof (λ j, track_upd _ _ _ _ _ j Hu) as Hj.
  split; [destruct (Hj i) as (_ & -> & _); done|destruct (Hj i) as (_ & _ & -> & _); done|].
  intros j. destruct (Hj j) as (-> & _). rewrite A3. rewrite A3, bool_decide_false in Ht by done.
  destruct (decide (j = i)) as [->|].
  - rewrite (bool_decide_true (i = i)), (bool_decide_false (i ∈ l)), bool_decide_true, Ht by (done || set_solver). cbn. by rewrite Hg.
  - rewrite (bool_decide_false (j = i)) by done. rewrite (bool_decide_ext (j ∈ l ++ [i]) (j ∈ l)) by set_solver. done.
Qed.

(** What the survey says of the tracks [l] of [s]. *)
Definition surveyed (v : survey) (l : list Z) s : Prop :=
  countActive v = Z.of_nat (length l) ∧ ∀ i t, i ∈ l → track s i = Some t →
  (all16 v = true → plain_stereo (needs_of t) = true) ∧ (resampling v = false → hook_of (needs_of t) ≠ track__genericResample).

Lemma survey_loop en s v s' : NoDup (bits en) → survey_tracks en s = Ret v s' → changes looked_at (bits en) s s' ∧ surveyed v (bits en) s.
Proof.
  intros Hnd. apply (for_each_Ret (λ l v s', changes looked_at l s s' ∧ surveyed v l s)).
  - split; [apply changes_nil|]. split; [done|]. intros i t Hi. by apply elem_of_nil in Hi.
  - intros l1 i l2 v1 s1 v2 s2 Hl (HCh & Hc & Hf) Hs. apply bind_Ret in Hs as (t & s3 & Ht & H3). apply get_track_Ret in Ht as [-> Ht]. cbv zeta in H3.
    apply bind_Ret in H3 as (? & s4 & H3 & H4). injection H4 as <- <-.
    assert (i ∉ l1) as Hi by (rewrite Hl in Hnd; apply NoDup_app in Hnd as (_ & Hd & _); intros Hx; apply (Hd _ Hx); by left).
    split; [by eapply changes_next|]. split; [cbn [countActive]; rewrite length_app; cbn [length]; lia|].
    assert (track s i = Some t) as Ht' by (rewrite (ch_tracks _ _ _ _ HCh), bool_decide_false in Ht by done; done).
    intros j t' Hj Ht2. apply elem_of_app in Hj. rewrite list_elem_of_singleton in Hj. cbn [all16 resampling].
    destruct (decide (j = i)) as [->|Hne].
    + assert (t' = t) as -> by congruence. split; [by intros [_ ?]%andb_true_iff|]. by intros [_ ?%bool_decide_eq_false]%orb_false_iff.
    + destruct (Hf j t') as [F1 F2]; [by destruct Hj|done|]. split; [intros [? _]%andb_true_iff; auto|intros [? _]%orb_false_iff; auto].
Qed.

(** The choices recorded, and what the survey says of them. *)
Definition picked (v : survey) s : Prop :=
  countActive v = Z.of_nat (length (bits (enabledTracks s))) ∧ ∀ i t, track s i = Some t → mixes s i →
  choice_ok t ∧ (all16 v = true → plain_stereo (needs t) = true) ∧ (resampling v = false → hook_of (needs t) ≠ track__genericResample).
Lemma picked_alike v s s' : enabledTracks s' = enabledTracks s → (∀ i, view <$> track s' i = view <$> track s i) → picked v s → picked v s'.
Proof.
  intros He Hv [P1 P2]. split; [by rewrite He|]. intros i t' Ht' Hm. unfold mixes in Hm. rewrite He in Hm.
  pose proof (Hv i) as E. rewrite Ht' in E. symmetry in E. apply fmap_Some in E as (t & Et & E). destruct (P2 i t Et Hm) as (Hc & Ha & Hr).
  assert (needs t' = needs t) as -> by (unfold view in E; by injection E). split; [|done]. by eapply view_choice.
Qed.

Lemma survey_picked s v s' : settled s → survey_tracks (enabledTracks s) s = Ret v s' → settled s' ∧ picked v s' ∧ hook s' = hook s.
Proof.
  intros HS Hv. pose proof HS as [S1 S2 S3 [S4 S5] S6 S7 S8]. apply survey_loop in Hv as [[A1 A2 A3] [B1 B2]]; [|by apply NoDup_bits].
  unfold masks in A1. injection A1 as E1 E2 E3 E4 E5 E6. split; [|split; [|done]].
  - eapply settled_same; [..|exact HS]; [unfold members; congruence|done|]. intros i. rewrite A3. case_bool_decide; [|done]. by destruct (track s i).
  - split; [by rewrite E3|]. intros i t' Ht' Hm. unfold mixes in Hm. rewrite E3 in Hm. rewrite A3 in Ht'.
    assert (i ∈ bits (enabledTracks s)) as Hi.
    { apply elem_of_bits; [done|]. split; [|done]. case_bool_decide; [apply fmap_Some in Ht' as (t & Ht & _)|]; by eapply track_lt. }
    rewrite bool_decide_true in Ht' by done. apply fmap_Some in Ht' as (t & Ht & ->). destruct (B2 i t Hi Ht) as [F1 F2].
    split; [|done]. apply choice_survey. eapply S7; [done|]. by apply (S8 i t Ht).
Qed.

(** What [select_hook] chooses. *)
Definition selected (v : survey) s : Prop :=
  match hook s with
  | process__validate => False
  | process__nop => countActive v = 0
  | process__genericResampling => countActive v ≠ 0 ∧ arrays s = true
  | process__genericNoResampling => countActive v ≠ 0 ∧ resampling v = false
  | process__OneTrack16BitsStereoNoResampling => countActive v = 1 ∧ all16 v = true
  end.
Lemma select_hook_selected v raw s a s' : select_hook v raw s = Ret a s' → selected v s' ∧ members s' = members s ∧ tracks s' = tracks s.
Proof.
  unfold select_hook. intros ([] & s1 & [= <-] & H2)%bind_Ret. destruct (decide (countActive v = 0)) as [E|E].
  - rewrite bool_decide_true in H2 by done. by injection H2 as _ <-.
  - rewrite bool_decide_false in H2 by done. cbn [negb] in H2. unfold selected. destruct (resampling v) eqn:Hr.
    + by injection H2 as _ <-.
    + injection H2 as _ <-. split; [|done]. cbn [hook set_hook].
      destruct (all16 v), (volumeRamp v); cbn [andb negb]; try done. by case_bool_decide.
Qed.

Lemma mute_loop en s am s' : NoDup (bits en) → mute_tracks en s = Ret am s' →
  changes (λ t, if silent t then muted t else t) (bits en) s s' ∧
  if am then ∀ i t, i ∈ bits en → track s i = Some t → silent t = true else ∃ i t, i ∈ bits en ∧ track s i = Some t ∧ silent t = false.
Proof.
  intros Hnd. apply (for_each_Ret (λ l (am : bool) s', changes (λ t, if silent t then muted t else t) l s s' ∧
    if am then ∀ i t, i ∈ l → track s i = Some t → silent t = true else ∃ i t, i ∈ l ∧ track s i = Some t ∧ silent t = false)).
  - split; [apply changes_nil|]. intros i t Hi. by apply elem_of_nil in Hi.
  - intros l1 i l2 am1 s1 am2 s2 Hl (HCh & Hf) Hs. apply bind_Ret in Hs as (t & s3 & Ht & H3). apply get_track_Ret in Ht as [-> Ht].
    assert (i ∉ l1) as Hi by (rewrite Hl in Hnd; apply NoDup_app in Hnd as (_ & Hd & _); intros Hx; apply (Hd _ Hx); by left).
    assert (track s i = Some t) as Ht' by (rewrite (ch_tracks _ _ _ _ HCh), bool_decide_false in Ht by done; done).
    destruct (silent t) eqn:Hsil.
    + apply bind_Ret in H3 as (? & s4 & H3 & H4). injection H4 as <- <-. split; [eapply changes_next; [done..|]; by rewrite Hsil|].
      destruct am1; [|destruct Hf as (j & tj & ? & ? & ?); exists j, tj; set_solver].
      intros j tj Hj Htj. apply elem_of_app in Hj as [Hj|Hj%list_elem_of_singleton]; [by eapply Hf|]. subst j. congruence.
    + injection H3 as <- <-. split; [|exists i, t; set_solver]. destruct HCh as [A1 A2 A3]. split; [done..|]. intros j. rewrite A3.
      destruct (decide (j = i)) as [->|]; [|by rewrite (bool_decide_ext (j ∈ l1 ++ [i]) (j ∈ l1)) by set_solver].
      rewrite (bool_decide_true (i ∈ l1 ++ [i])), bool_decide_false, Ht' by set_solver. cbn. by rewrite Hsil.
Qed.

Lemma not_resampled t : resamples t = false → resampler t = None.
Proof. unfold resamples. intros E%bool_decide_eq_false. destruct (resampler t); [|done]. by destruct E. Qed.
(** A track that is mixed and not silent needs what the survey says. *)
Lemma picked_sounds v s i t : picked v s → track s i = Some t → mixes s i → silent t = false →
  (all16 v = true → t_hook t = Some track__16BitsStereo ∧ needs_aux t = false ∧ resampler t = None).
Proof.
  intros [_ HP] Ht Hm Hs Ha. destruct (HP i t Ht Hm) as ((Hc & m & Hn & Hh & Hmute) & H16 & _). specialize (H16 Ha).
  assert (m = false) as -> by (destruct m; [|done]; rewrite Hmute in Hs; done). assert (0 ≤ channelCount t - 1 < 8) as H8 by (unfold channels_ok in Hc; lia).
  pose proof (enc_hook _ H8 (resamples t) (wants_aux t) false) as Eh. rewrite <-Hn in Eh. pose proof (enc_aux _ H8 (resamples t) (wants_aux t) false) as Ea. rewrite <-Hn in Ea.
  unfold plain_stereo in H16. rewrite Hh. unfold needs_aux. rewrite Ea in H16 |- *. rewrite Eh in H16 |- *.
  destruct (resamples t) eqn:Hr; [done|]. destruct (bool_decide (channelCount t - 1 = 0)); [done|].
  split; [done|]. split; [by destruct (wants_aux t)|]. by apply not_resampled.
Qed.
Lemma picked_no_resampler v s i t : picked v s → track s i = Some t → mixes s i → resampling v = false → resampler t = None.
Proof.
  intros [_ HP] Ht Hm Hr. destruct (HP i t Ht Hm) as ((Hc & m & Hn & Hh & Hmute) & _ & Hng). specialize (Hng Hr). destruct m.
  { specialize (Hmute eq_refl). unfold silent in Hmute. by apply andb_true_iff in Hmute as [?%bool_decide_eq_true _]. }
  assert (0 ≤ channelCount t - 1 < 8) as H8 by (unfold channels_ok in Hc; lia). rewrite Hn, (enc_hook _ H8) in Hng.
  destruct (resamples t) eqn:E; [done|]. by apply not_resampled.
Qed.

Lemma one_bit e i : is_mask e → bits e = [i] → 0 ≤ i < 32 ∧ e = bit i.
Proof.
  intros He Hb. assert (0 ≤ i < 32) as Hi by (apply (elem_of_bits e); [done|rewrite Hb; by left]). split; [done|].
  apply mask_eq; [done|by apply mask_bit|]. intros j Hj. rewrite testbit_bit by lia. pose proof (elem_of_bits e j He) as E.
  rewrite Hb, list_elem_of_singleton in E. case_bool_decide as Hx; [by apply E|]. destruct (Z.testbit e j); [|done]. destruct Hx. symmetry. by apply E.
Qed.

(** What the muting leaves. *)
Lemma mute_settled v s am s' : settled s → picked v s → mute_tracks (enabledTracks s) s = Ret am s' →
  settled s' ∧ hook s' = hook s ∧ arrays s' = arrays s ∧ enabledTracks s' = enabledTracks s ∧
  (∀ i t', track s' i = Some t' → mixes s i → ∃ t, track s i = Some t ∧ t' = if silent t then muted t else t) ∧
  (∀ i t', track s' i = Some t' → mixes s i → choice_ok t').
Proof.
  intros HS HP Hm. pose proof HS as [S1 S2 S3 [S4 S5] S6 S7 S8]. apply mute_loop in Hm as [[A1 A2 A3] _]; [|by apply NoDup_bits].
  unfold masks in A1. injection A1 as E1 E2 E3 E4 E5 E6.
  assert (∀ i t', track s' i = Some t' → mixes s i → ∃ t, track s i = Some t ∧ t' = if silent t then muted t else t) as Hb.
  { intros i t' Ht' Hi. rewrite A3 in Ht'. assert (0 ≤ i < 32) as Hr.
    { case_bool_decide; [apply fmap_Some in Ht' as (t & Ht & _)|]; by eapply track_lt. }
    rewrite bool_decide_true in Ht' by (by apply elem_of_bits). apply fmap_Some in Ht' as (t & Ht & ->). eauto. }
  split; [|split; [done|]; split; [done|]; split; [done|]; split; [done|]].
  - eapply settled_same; [..|exact HS]; [unfold members; congruence|done|]. intros i. rewrite A3. case_bool_decide; [|done].
    destruct (track s i) as [t|]; [|done]. cbn. by destruct (silent t).
  - intros i t' Ht' Hi. destruct (Hb _ _ Ht' Hi) as (t & Ht & ->). destruct HP as [_ HP]. destruct (HP i t Ht Hi) as [Hc _].
    destruct (silent t) eqn:Hsil; [|done]. by apply choice_mute.
Qed.
Lemma silent_muted t : silent t = true → silent (if silent t then muted t else t) = true.
Proof. intros Hs. by rewrite Hs. Qed.

Lemma muting_chosen v s am s' : settled s → picked v s → selected v s → countActive v ≠ 0 → mute_tracks (enabledTracks s) s = Ret am s' →
  chosen (if am then set_hook process__nop s'
          else if all16 v && bool_decide (countActive v = 1) then set_hook process__OneTrack16BitsStereoNoResampling s' else s').
Proof.
  intros HS HP Hsel Hne Hmute. pose proof (mute_settled _ _ _ _ HS HP Hmute) as (_ & Eh & Ea & Ee & Hb & Hch). pose proof HS as [S1 _ _ [S4 _] _ _ _].
  apply mute_loop in Hmute as [[A1 A2 A3] Ham]; [|by apply NoDup_bits].
  assert (∀ i, mixes s' i ↔ mixes s i) as Hmix by (intros; unfold mixes; by rewrite Ee).
  destruct am; [|destruct (all16 v && bool_decide (countActive v = 1)) eqn:Hone].
  - split; [intros i t' Ht' Hi; eapply Hch; [done|by apply Hmix]|]. intros i t' Ht' Hi. change (track s' i = Some t') in Ht'. apply Hmix in Hi.
    destruct (Hb i t' Ht' Hi) as (t & Ht & ->).
    apply silent_muted. eapply Ham; [|exact Ht]. apply elem_of_bits; [done|]. split; [by eapply track_lt|done].
  - split; [intros i t' Ht' Hi; eapply Hch; [done|by apply Hmix]|]. apply andb_true_iff in Hone as [H16 Hcount%bool_decide_eq_true].
    destruct Ham as (i & t & Hi & Ht & Hsil). assert (bits (enabledTracks s) = [i]) as Hbits.
    { destruct HP as [HP _]. rewrite Hcount in HP. destruct (bits (enabledTracks s)) as [|j [|]]; [set_solver|f_equal; set_solver|cbn in HP; lia]. }
    destruct (one_bit _ _ S4 Hbits) as [Hr He]. exists i, t. apply elem_of_bits in Hi as [_ Hi]; [|done].
    destruct (picked_sounds v s i t HP Ht Hi Hsil H16) as (P1 & P2 & P3). split; [done|]. split; [change (enabledTracks s' = bit i); congruence|].
    split; [|done]. change (track s' i = Some t). rewrite A3, bool_decide_true, Ht by (rewrite Hbits; set_solver). cbn. by rewrite Hsil.
  - split; [intros i t' Ht' Hi; eapply Hch; [done|by apply Hmix]|]. unfold hook_ok, selected in *. rewrite Eh. destruct (hook s).
    + done.
    + done.
    + intros i t' Ht' Hi. apply Hmix in Hi. destruct (Hb i t' Ht' Hi) as (t & Ht & ->).
      assert (resampler t = None) as Hx by (eapply picked_no_resampler; [done..|apply Hsel]). by destruct (silent t).
    + rewrite Ea. apply Hsel.
    + destruct Hsel as [Hc H16]. by rewrite H16, bool_decide_true in Hone.
Qed.

Lemma settled_hook h s : settled s → settled (set_hook h s).
Proof. intros [S1 S2 S3 S4 S6 S7 S8]. by split. Qed.

Lemma preserves_validate raw pts s : preserves (run_validate raw pts) s.
Proof.
  intros a s' H HC. apply bind_Ret in H as ([] & s1 & H1 & H). destruct (recompute_settled _ _ _ HC H1) as [HS1 _].
  rewrite bind_getst in H. apply bind_Ret in H as (v & s2 & H2 & H). destruct (survey_picked _ _ _ HS1 H2) as (HS2 & HP2 & _).
  apply bind_Ret in H as ([] & s3 & H3 & H). destruct (select_hook_selected _ _ _ _ _ H3) as (Hsel & Em & Et).
  assert (∀ i, track s3 i = track s2 i) as Et' by (intros i; unfold track; by rewrite Et).
  assert (settled s3) as HS3 by (apply (settled_same s2); [done|by rewrite Et|intros; by rewrite Et'|done]).
  assert (picked v s3) as HP3 by (apply (picked_alike v s2); [|intros; by rewrite Et'|done]; unfold members in Em; by injection Em).
  rewrite bind_getst in H. apply bind_Ret in H as ([] & s4 & H4 & H). apply keeps_run_process in H4 as Ha. pose proof (λ i, alike_track _ _ i Ha) as Hal.
  pose proof Ha as [Hc Harr]. unfold control in Hc. injection Hc as E1 E2 _ E4 E5 _ E7 _ _ Etr.
  assert (∀ (B : Type) (f : track_t → B), (∀ t t', config t' = config t → f t' = f t) → ∀ i, f <$> track s4 i = f <$> track s3 i) as Hv.
  { intros B f Hf i. pose proof (Hal i) as E. destruct (track s4 i), (track s3 i); try done. apply (f_equal Some), Hf. by apply (inj Some). }
  assert (settled s4) as HS4.
  { apply (settled_same s3); [unfold members; congruence|by apply (f_equal length) in Etr; rewrite !length_fmap in Etr|apply Hv|exact HS3].
    unfold config, member. intros t t' E. by injection E as _ _ _ _ -> -> _ _ _ _ _ _ _ _ _. }
  assert (picked v s4) as HP4 by (apply (picked_alike v s3); [exact E4|apply Hv, config_view|done]).
  assert (selected v s4) as Hsel4 by (unfold selected in *; rewrite E7; destruct (hook s3); try done; destruct Hsel; auto).
  destruct (decide (countActive v = 0)) as [E0|E0].
  - rewrite bool_decide_true in H by done. injection H as _ <-. apply settled_consistent; [done|]. destruct HP4 as [Hn HP4].
    assert (bits (enabledTracks s4) = []) as Hb by (destruct (bits (enabledTracks s4)); [done|cbn in Hn; lia]).
    split; [intros i t Ht Hi; by apply (HP4 i t)|]. unfold hook_ok, selected in *. destruct (hook s4); [done| |by destruct Hsel4|by destruct Hsel4|destruct Hsel4; lia].
    intros i t Ht Hi. exfalso. assert (i ∈ bits (enabledTracks s4)) as Hx; [|rewrite Hb in Hx; by apply elem_of_nil in Hx].
    apply elem_of_bits; [apply HS4|]. split; [by eapply track_lt; [apply HS4|]|done].
  - rewrite bool_decide_false in H by done. cbn [negb] in H. rewrite bind_getst in H. apply bind_Ret in H as (am & s5 & H5 & H).
    pose proof (mute_settled _ _ _ _ HS4 HP4 H5) as (HS5 & _). pose proof (muting_chosen _ _ _ _ HS4 HP4 Hsel4 E0 H5) as HC5.
    apply settled_consistent; destruct am; [|destruct (all16 v && bool_decide (countActive v = 1))| |destruct (all16 v && bool_decide (countActive v = 1))];
      injection H as _ <-; by try apply settled_hook.
Qed.

Lemma preserves_process raw pts s : preserves (process raw pts) s.
Proof.
  apply preserves_getst. destruct (decide (hook s = process__validate)) as [->|Hh]; [apply preserves_validate|].
  intros a s' H HC. apply (consistent_alike s); [|done]. destruct (hook s) eqn:E; [done|..]; by eapply keeps_run_process.
Qed.
End process.
