(* ===== verification/AudioMixerLaws.v ===== *)
(** * The laws of the mixer

    The output of the mixing routines, the agreement of the fast one with the general
    one, the progress of volume ramps, and the invariant of the calls. *)

From Stdlib Require Import ZArith Lia.
From stdpp Require Import base tactics numbers option list gmap.
From S2P Require Import Prelude Words AudioPrimitives Nbaio NbaioProviders AudioMixer AudioMixerRules AudioMixerHooks AudioMixerMix AudioMixerGroups AudioMixerSpec AudioMixerFast AudioMixerDemo AudioMixerKeeps AudioMixerCalls AudioMixerProcess.

#[local] Opaque bits top_bit.

(** ** The calls on a mixer *)

Inductive mixer_call :=
  | GetTrackName (mask session : Z)
  | DeleteTrackName (name : Z)
  | Enable (name : Z)
  | Disable (name : Z)
  | SetParameter (name : Z) (p : parameter)
  | SetBufferProvider (name : Z) (p : option Z)
  | GetUnreleasedFrames (name : Z)
  | Process (raw_array : list Z) (pts : Z).

Section laws.
Context {W : Type} `{!MixerEnv W}.
Implicit Types s : mixer W.

(** A call, and its result where it has one. *)
Definition run_call (c : mixer_call) : M (mixer W) Z :=
  match c with
  | GetTrackName mask session => getTrackName mask session
  | DeleteTrackName name => deleteTrackName name ;;; ret 0
  | Enable name => enable name ;;; ret 0
  | Disable name => disable name ;;; ret 0
  | SetParameter name p => setParameter name p ;;; ret 0
  | SetBufferProvider name p => setBufferProvider name p ;;; ret 0
  | GetUnreleasedFrames name => getUnreleasedFrames name
  | Process raw_array pts => process raw_array pts ;;; ret 0
  end.
(** Callers use the names they have been given. *)
Definition in_use s (name : Z) : Prop := 0 ≤ name - TRACK0 < 32 ∧ named s (name - TRACK0).
Definition allowed s (c : mixer_call) : Prop :=
  match c with
  | DeleteTrackName n | Enable n | Disable n | SetParameter n _ | SetBufferProvider n _ | GetUnreleasedFrames n => in_use s n
  | GetTrackName _ _ | Process _ _ => True
  end.

(** The states of a mixer for up to [n] tracks. *)
Inductive reachable (n : Z) : mixer W → Prop :=
  | reach_new F rate raw_tracks capable mem w s :
      0 ≤ n → length raw_tracks = 32%nat → AudioMixer F rate n raw_tracks capable mem w = Ret tt s → reachable n s
  | reach_call s c r s' : reachable n s → allowed s c → run_call c s = Ret r s' → reachable n s'.

Lemma find_downmix_keeps i n s a s' : find_downmix i n s = Ret a s' → ∃ b w, s' = set_isMultichannelCapable b (set_world w s).
Proof.
  revert i s. induction n as [|n IH]; intros i s; cbn [find_downmix].
  - intros [= _ <-]. exists (isMultichannelCapable s), (world s). by destruct s.
  - intros ([status d] & s1 & H1 & H2)%bind_Ret. unfold in_world, zoom in H1. destruct (EffectQueryEffect i (world s)) as [x w|]; [|done].
    injection H1 as -> <-. destruct (_ && _); [injection H2 as _ <-; exists true, w; done|].
    apply IH in H2 as (b & w' & ->). exists b, w'. done.
Qed.
Lemma AudioMixer_new F rate n raw_tracks capable mem w s : AudioMixer F rate n raw_tracks capable mem w = Ret tt s →
  n ≤ 32 ∧ members s = (0, u32 ((if bool_decide (n >= 32) then 0 else bit n) - 1), 0, 0) ∧ hook s = process__nop ∧
  tracks s = (λ t, set_downmixerBufferProvider None (set_resampler None t)) <$> raw_tracks ∧ m_frameCount s = F.
Proof.
  unfold AudioMixer. case_bool_decide as Hn; [done|]. intros H. split; [unfold MAX_NUM_TRACKS in Hn; lia|].
  apply bind_Ret in H as ([st k] & s1 & H1 & H2). unfold in_world, zoom in H1. destruct (EffectQueryNumberEffects _) as [x w1|]; [|done].
  injection H1 as -> <-. destruct (bool_decide _); [by injection H2 as <-|]. apply find_downmix_keeps in H2 as (b & w' & ->). done.
Qed.
Lemma mask_minus_one n : 0 ≤ n ≤ 32 → is_mask (u32 ((if bool_decide (n >= 32) then 0 else bit n) - 1)) ∧
  ∀ i, Z.testbit (u32 ((if bool_decide (n >= 32) then 0 else bit n) - 1)) i = true → i < n.
Proof.
  intros Hn. split; [apply u32_range|]. intros i Hi.
  assert (u32 ((if bool_decide (n >= 32) then 0 else bit n) - 1) = Z.ones n) as E.
  { case_bool_decide; [by replace n with 32 by lia|]. rewrite bit_eq, Z.ones_equiv by lia. rewrite u32_small; [lia|].
    assert (2 ^ n < 2 ^ 32) by (apply Z.pow_lt_mono_r; lia). assert (0 < 2 ^ n) by (apply Z.pow_pos_nonneg; lia). lia. }
  rewrite E in Hi. destruct (Z.lt_ge_cases i n); [done|]. by rewrite Z.ones_spec_high in Hi by lia.
Qed.

Lemma new_consistent F rate n raw_tracks capable mem w s : 0 ≤ n → length raw_tracks = 32%nat →
  AudioMixer F rate n raw_tracks capable mem w = Ret tt s → consistent s.
Proof.
  intros H0 Hlen H. destruct (AudioMixer_new _ _ _ _ _ _ _ _ H) as (Hn & Hm & Hh & Ht & _). unfold members in Hm. injection Hm as E1 E2 E3 E4.
  assert (∀ i, ¬ named s i) as Hno by (intros i; unfold named; rewrite E1; by rewrite Z.bits_0).
  assert (∀ i, ¬ mixes s i) as Hnm by (intros i; unfold mixes; rewrite E3; by rewrite Z.bits_0).
  apply settled_consistent; [|split; [intros i t _ Hi; by apply Hnm in Hi|]; unfold hook_ok; rewrite Hh; intros i t _ Hi; by apply Hnm in Hi].
  split; try done.
  - by rewrite Ht, length_fmap.
  - by rewrite E1.
  - intros i Hi. by apply Hno in Hi.
  - split; [by rewrite E3|]. rewrite E2. apply u32_range.
  - intros i t _ Hi. by apply Hno in Hi.
  - intros i t _. specialize (Hno i). specialize (Hnm i). tauto.
Qed.

Lemma preserves_ret s (m : M (mixer W) unit) : preserves m s → preserves (m ;;; ret 0) s.
Proof. intros Hm r s' (a & s1 & H1 & H2)%bind_Ret. injection H2 as _ <-. by eapply Hm. Qed.
Lemma preserves_call c s : allowed s c → preserves (run_call c) s.
Proof.
  destruct c; cbn [allowed run_call]; intros Ha; try (lazymatch type of Ha with True => fail | _ => destruct Ha as [Hi Hn] end).
  - apply preserves_getTrackName.
  - by apply preserves_ret, preserves_deleteTrackName.
  - by apply preserves_ret, preserves_enable.
  - by apply preserves_ret, preserves_disable.
  - by apply preserves_ret, preserves_setParameter.
  - by apply preserves_ret, preserves_setBufferProvider.
  - intros r s' H. unfold getUnreleasedFrames in H. destruct (bool_decide _); [|by injection H as _ <-].
    apply bind_Ret in H as (t & s1 & H1 & H2). apply get_track_Ret in H1 as [-> _]. rewrite bind_getst in H2. by injection H2 as _ <-.
  - apply preserves_ret, preserves_process.
Qed.
Lemma reachable_consistent n s : reachable n s → consistent s.
Proof. induction 1 as [F rate raw_tracks capable mem w s H0 Hl H|s c r s' _ IH Ha H]; [by eapply new_consistent|by eapply preserves_call]. Qed.

Lemma getTrackName_fresh mask session s r s' : consistent s → getTrackName mask session s = Ret r s' →
  r = -1 ∨ (in_use s' r ∧ ¬ named s (r - TRACK0)).
Proof.
  intros HC. unfold getTrackName. rewrite bind_getst. cbv zeta. case_bool_decide as Hne; [|intros [= <- _]; by left].
  destruct (free_name s HC Hne) as (Hn & Hu & _). revert Hn Hu. generalize (ctz 32 (Z.land (Z.lnot (mTrackNames s)) (mConfiguredNames s))) as n.
  intros n Hn Hu H. apply bind_Ret in H as ([] & s1 & [= <-] & (? & s2 & H2 & (st & s3 & H3 & H4)%bind_Ret)%bind_Ret).
  case_bool_decide; [|injection H4 as <- _; by left]. injection H4 as <- <-. right. unfold in_use. replace (TRACK0 + n - TRACK0) with n by lia.
  split; [|done]. split; [done|]. destruct (track_upd _ _ _ _ _ n H2) as (_ & Hm2 & _). pose proof (to_masks _ _ _ _ (touch_initTrackDownmix true n mask _ _ _ H3)) as Hm3.
  unfold masks in *. injection Hm2 as E2 _ _ _ _ _. injection Hm3 as E3 _ _ _ _ _. unfold named. rewrite E3, E2. cbn -[bit].
  rewrite Z.lor_spec, testbit_bit, bool_decide_true by lia. apply orb_true_r.
Qed.
End laws.

(** ** Output *)

Section output.
Context {W : Type} `{!MixerEnv W, !StreamLaws W}.
Implicit Types s : mixer W.

(** C10: when the tracks are mixed without resampling and none is in a ramp, [process]
    returns, and each main buffer of a track that has frames holds the frames of the
    providers' streams that go to it,
    each sample times its gain, summed in 32 bits, scaled and saturated to 16; each word of
    an auxiliary buffer has the sum of its sends added to it; no other word changes, so that a
    main buffer none of whose tracks has frames keeps the block before ([stale_output]); and every
    stream has gone on by the frames of the mixer, whatever the sizes of the buffers lent. *)
Theorem mixer_output F T P s raw_array pts : hook s = process__genericNoResampling → mixable F T P s →
  wp (process raw_array pts) (λ _, mixed_to F T P s) s.
Proof. intros Hh Hmx. unfold process. apply wp_bind, wp_getst. rewrite Hh. by apply genericNoResampling_ok. Qed.

(** C33: for one stereo track that is not in a ramp, without an auxiliary send and with
    frames to give (with none the general routine keeps the block before, [stale_output];
    in a ramp the fast one plays the last volume at once, [ramp_cut_short]),
    [process__OneTrack16BitsStereoNoResampling] leaves the same words, and the same
    position of the provider, as [process__genericNoResampling]. *)
Theorem fast_path_agrees F T P s i pts : mixable F T P s → 0 ≤ i < 32 → enabledTracks s = bit i →
  t_hook (T i) = Some track__16BitsStereo → needs_aux (T i) = false → stream (world s) (P i) ≠ [] →
  ∃ s1 s2, run_OneTrack16BitsStereoNoResampling pts s = Ret tt s1 ∧ run_genericNoResampling pts s = Ret tt s2 ∧
    words s1 = words s2 ∧ static s1 = static s2 ∧
    stream (world s1) (P i) = stream (world s2) (P i) ∧ loan (world s1) (P i) = loan (world s2) (P i).
Proof.
  intros Hmx Hi He Hh Ha Hf. pose proof (OneTrack_ok F T P s Hmx pts i Hi He Hh Ha Hf) as H1. pose proof (genericNoResampling_ok F T P s Hmx pts) as H2.
  unfold wp in H1, H2. destruct (run_OneTrack16BitsStereoNoResampling pts s) as [[] s1|]; [|done]. destruct (run_genericNoResampling pts s) as [[] s2|]; [|done].
  exists s1, s2. split; [done|]. split; [done|]. split; [by eapply mixed_to_words|]. destruct H1 as [S1 D1 _ _], H2 as [S2 D2 _ _]. split; [congruence|].
  assert (i ∈ bits (enabledTracks s)) as Hin by (rewrite (en_one F T P s Hmx i Hi He); by left). destruct (D1 i Hin) as [-> ->], (D2 i Hin) as [-> ->]. done.
Qed.
End output.

(** ** Ramps *)

Section ramps.
Context {W : Type} `{!MixerEnv W}.
Implicit Types s : mixer W.

Lemma ramp_frame right t width p fs out k f o : fs !! k = Some f → frame_ok f → frame_of out k = Some o → is_s32 (level k (gain right t)) →
  ∃ o', frame_of (loop_out (hook_ramp t width) (start p None [] t) fs out) k = Some o' ∧
    side right o' = s32 (side right o + Z.shiftr (level k (gain right t)) 16 * side right f).
Proof.
  intros Hf [F1 F2] Ho Hl. rewrite loop_out_frame, Hf, Ho. eexists. split; [done|]. unfold hook_ramp.
  destruct (moved_levels width (volumeInc (ramp0 t)) (volumeInc (ramp1 t)) k (start p None [] t)) as [E1 E2].
  destruct right; cbn [side snd fst add_l add_r ramp_loop]; rewrite ?E1, ?E2; f_equal; f_equal; by apply ramp_mul_small.
Qed.
Lemma advances_app ns n r : advances (ns ++ [n]) r = advance (advances ns r) n.
Proof. unfold advances. by rewrite fold_left_app. Qed.

(** The level after [m] frames of a ramp from [v0] to [value] in steps of a block of [F]: on
    the line between them, or at its end. *)
Definition on_ramp (v0 value F m lv : Z) : Prop :=
  lv = v0 * 65536 + m * Z.quot ((value - v0) * 65536) F ∨ lv = value * 65536.
(** It is between the two, but for the frames [k] since the end was last looked at. *)
Definition near_ramp (v0 value F k lv : Z) : Prop :=
  F * (Z.min v0 value * 65536 - lv) ≤ k * (Z.abs (value - v0) * 65536) ∧ F * (lv - Z.max v0 value * 65536) ≤ k * (Z.abs (value - v0) * 65536).

Lemma ramp_at_level v0 value F m r n k : 0 ≤ v0 ≤ UNITY_GAIN → 0 ≤ value ≤ UNITY_GAIN → 0 < F < 2 ^ 16 → ramp_at v0 value F m r → Z.of_nat n ≤ F → (k ≤ n)%nat →
  is_s32 (level k r) ∧ on_ramp v0 value F (m + Z.of_nat k) (level k r) ∧ near_ramp v0 value F (Z.of_nat k) (level k r).
Proof.
  intros Hv0 Hv HF Hr Hn Hk. pose proof (ramp_fits_at v0 value F Hv0 Hv HF k m r Hr ltac:(lia)) as Hfit.
  pose proof (level_eq k r Hfit k ltac:(done)) as E. pose proof (ramp_levels v0 value F Hv0 Hv HF m r n k Hr Hn Hk) as Hb.
  pose proof (inc_bounds v0 value F Hv0 Hv HF) as (B & _). split; [rewrite E; apply Hfit|]. split.
  - unfold on_ramp. destruct Hr as [_ [(Ei & Ep)|(Ei & _ & Ep & _)]]; rewrite E, Ei, Ep; [right; lia|left; ring].
  - unfold near_ramp. clear Hr Hfit E. revert Hb B. generalize (level k r) as lv. cbv zeta.
    generalize (Z.quot ((value - v0) * 65536) F) as inc. intros inc lv Hb [B _].
    assert (F * (Z.of_nat k * Z.abs inc) ≤ Z.of_nat k * (Z.abs (value - v0) * 65536)) as Hx.
    { replace (Z.abs (value - v0) * 65536) with (Z.abs ((value - v0) * 65536)) by lia. nia. }
    clear B Hn Hk. set (slack := Z.of_nat k * Z.abs inc) in *. nia.
Qed.


(** C11: in every state that calls reach, callers using only the names they have been
    given, the choices of the mixer are up to date or marked to be made again: unless
    [process] will validate, the tracks it mixes are those in use and enabled, the needs and
    hook recorded for each are what its parameters call for, and the routine chosen suits
    them all, ramps under way apart: the routine for one track, or no hook for a track whose
    new volume is zero, is chosen before a ramp is over ([ramp_cut_short]).
    A name that is given out was not in use. *)
Theorem mixer_consistent n s : reachable n s → consistent s ∧
  ∀ mask session r s', getTrackName mask session s = Ret r s' → r = -1 ∨ (in_use s' r ∧ ¬ in_use s r).
Proof.
  intros Hs. pose proof (reachable_consistent n s Hs) as HC. split; [done|]. intros mask session r s' H.
  destruct (getTrackName_fresh mask session s r s' HC H) as [|[H1 H2]]; [by left|right]. split; [done|]. by intros [_ ?].
Qed.
End ramps.

(** ** The examples *)

Module MixerDemo.
#[local] Transparent bits top_bit.

(** A track as memory happens to hold it. *)
Definition junk : track_t :=
  Track 7 (Ramp 1 0x7000000 5) (Ramp 2 0x7000000 5) (Ramp 3 4 5) 6 1 true 1 None (Buffer None 9) None None (Some 4) 8 None None None 0.
(** A mixer for 16 frames, with main buffers of 16 words at 100 and 200, and an auxiliary one at 300. *)
Definition demo_words : gmap Z Z := list_to_map (map (λ i, (i, 0)) (seqZ 100 16 ++ seqZ 200 16 ++ seqZ 300 16)).
Definition demo_feeds : gmap Z feed :=
  <[2 := Feed (map (λ i, (1000 + i, -900 * i)) (seqZ 0 36)) 5 None]> (<[1 := Feed (map (λ i, (300 * i, 300 * i)) (seqZ 0 25)) 4 None]>
  (<[4 := Feed (replicate 9 (1000, 1000)) 16 None]> (<[3 := Feed (replicate 16 (7, 7)) 16 None]> ∅))).
Definition run_from {S A} (o : outcome S unit) (m : M S A) : outcome S A := match o with Ret _ s => m s | Crash c => Crash c end.
Definition demo_new : outcome (mixer (gmap Z feed)) unit := AudioMixer 16 48000 4 (replicate 32 junk) false demo_words demo_feeds.
(** The calls that set up a track for provider [p]. *)
Definition setup (name p mask main : Z) : list mixer_call :=
  [GetTrackName AUDIO_CHANNEL_OUT_STEREO 1; SetBufferProvider name (Some p); SetParameter name (MAIN_BUFFER (Some main));
   SetParameter name (CHANNEL_MASK mask); Enable name].
Definition in_useb (s : mixer (gmap Z feed)) (name : Z) : bool := bool_decide (0 ≤ name - TRACK0 ∧ name - TRACK0 < 32) && Z.testbit (mTrackNames s) (name - TRACK0).
Definition allowedb (s : mixer (gmap Z feed)) (c : mixer_call) : bool :=
  match c with
  | DeleteTrackName n | Enable n | Disable n | SetParameter n _ | SetBufferProvider n _ | GetUnreleasedFrames n => in_useb s n
  | GetTrackName _ _ | Process _ _ => true
  end.
(** Calls that callers are allowed to make, one after the other. *)
Fixpoint run_calls (l : list mixer_call) (o : outcome (mixer (gmap Z feed)) unit) : outcome (mixer (gmap Z feed)) unit :=
  match l, o with
  | c :: l, Ret _ s => run_calls l (if allowedb s c then match run_call c s with Ret _ s => Ret tt s | Crash c => Crash c end else Crash CrashBug)
  | _, _ => o
  end.

(** Two tracks, one of them with an auxiliary send, after a first block. *)
Definition two_tracks : outcome (mixer (gmap Z feed)) unit :=
  run_calls (setup 4096 2 3 100 ++ [SetParameter 4096 (AUX_BUFFER (Some 300)); SetParameter 4096 (AUXLEVEL true 2048)] ++ setup 4097 1 1 200 ++ [Process [] 5]) demo_new.
(** One track, after a first block. *)
Definition one_track_only : outcome (mixer (gmap Z feed)) unit := run_calls (setup 4096 2 3 100 ++ [Process [] 5]) demo_new.
Definition demo_tracks (s : mixer (gmap Z feed)) (i : Z) : track_t := default junk (track s i).
Definition demo_provider (i : Z) : Z := if bool_decide (i = 0) then 2 else 1.

(** *** Checks *)

Definition s16b (x : Z) : bool := bool_decide (- 2 ^ 15 ≤ x ∧ x < 2 ^ 15).
Definition s32b (x : Z) : bool := bool_decide (- 2 ^ 31 ≤ x ∧ x < 2 ^ 31).
Definition feed_okb (p : Z) (f : feed) : bool :=
  forallb (λ g, s16b g.1 && s16b g.2) (f_frames f) && bool_decide (0 < f_most f) && bool_decide (4 * Z.of_nat (length (f_frames f)) < 2 ^ 20) &&
  (if Z.odd p then forallb (λ g, bool_decide (g.2 = g.1)) (f_frames f) else true) &&
  match f_out f with Some n => bool_decide (0 < n ∧ n ≤ Z.of_nat (length (f_frames f))) | None => true end.
Definition feeds_okb (w : gmap Z feed) : bool := forallb (λ '(p, f), feed_okb p f) (map_to_list w).
Definition words_okb (ws : gmap Z Z) : bool := forallb (λ '(_, v), s32b v) (map_to_list ws).

Lemma forallb_in {A} (f : A → bool) l x : forallb f l = true → x ∈ l → f x = true.
Proof. intros H Hx. rewrite forallb_forall in H. apply H. by apply list_elem_of_In. Qed.
Lemma feeds_okb_ok w : feeds_okb w = true → feeds_ok w.
Proof.
  intros H p f Hf. apply (forallb_in _ _ (p, f)) in H; [|by apply elem_of_map_to_list]. unfold feed_okb in H.
  rewrite !andb_true_iff, !bool_decide_eq_true in H. destruct H as ((((H1 & H2) & H3) & H4) & H5). split; [|split; [done|split; [done|split]]].
  - apply Forall_forall. intros g Hg. pose proof (forallb_in _ _ _ H1 Hg) as Hx. unfold s16b in Hx. rewrite andb_true_iff, !bool_decide_eq_true in Hx.
    unfold frame_ok, is_s16. lia.
  - intros Ho. rewrite Ho in H4. apply Forall_forall. intros g Hg. pose proof (forallb_in _ _ _ H4 Hg) as Hx. by apply bool_decide_eq_true in Hx.
  - destruct (f_out f); [|done]. by apply bool_decide_eq_true in H5.
Qed.
Lemma words_okb_ok ws : words_okb ws = true → words_ok ws.
Proof.
  intros H x v Hv. apply (forallb_in _ _ (x, v)) in H; [|by apply elem_of_map_to_list]. unfold s32b in H. apply bool_decide_eq_true in H. unfold is_s32. lia.
Qed.
Definition there (b : Z) (ws : gmap Z Z) : bool := forallb (λ k, bool_decide (is_Some (ws !! k))) (seqZ b 16).
Lemma there_ok b ws : there b ws = true → main_there 16 b ws.
Proof. intros H k Hk. apply (forallb_in _ _ (b + Z.of_nat k)) in H; [by apply bool_decide_eq_true in H|]. apply elem_of_seqZ. lia. Qed.

(** What the examples need to know of a state. *)
Definition demo_state (o : outcome (mixer (gmap Z feed)) unit) : mixer (gmap Z feed) :=
  match o with Ret _ s => s | Crash _ => Mixer 0 0 0 0 0 0 process__nop None None [] false 0 ∅ ∅ end.
Definition plain (w : gmap Z feed) (t : track_t) (p width : Z) : Prop :=
  bufferProvider t = Some (Direct p) ∧ t_hook t = Some (if bool_decide (width = 4) then track__16BitsStereo else track__16BitsMono) ∧
  s16b (volume (ramp0 t)) && s16b (volume (ramp1 t)) = true ∧ ramping_aux t = false ∧ ramping t = false ∧ feed_loan w p = None.
Lemma plain_ready w t p width : plain w t p width → feed_width p = width → (needs_aux t = true → is_Some (auxBuffer t)) → ready t p ∧ feed_loan w p = None.
Proof.
  intros (H1 & H2 & H3 & H4 & H5 & H6) Hw Ha. split; [|done]. split; [done| | | |done].
  - right. unfold plays. change (width_of p) with (feed_width p). rewrite Hw, H2. unfold feed_width in Hw. destruct (Z.odd p); subst; [by right|by left].
  - unfold s16b in H3. rewrite andb_true_iff, !bool_decide_eq_true in H3. unfold volumes_ok, is_s16. lia.
  - by destruct (needs_aux t).
Qed.

Lemma two_tracks_mixable : hook (demo_state two_tracks) = process__genericNoResampling ∧ mixable 16 (demo_tracks (demo_state two_tracks)) demo_provider (demo_state two_tracks).
Proof.
  destruct two_tracks as [[] s|] eqn:E; [|vm_compute in E; discriminate E]. cbn [demo_state].
  set (T := demo_tracks s).
  assert ((hook s, m_frameCount s, enabledTracks s, bits (enabledTracks s)) = (process__genericNoResampling, 16, 3, [1; 0]) ∧
    track s 0 = Some (T 0) ∧ track s 1 = Some (T 1) ∧
    words_okb (words s) && feeds_okb (world s) && there 100 (words s) && there 200 (words s) && there 300 (words s) = true ∧
    plain (world s) (T 0) 2 4 ∧ plain (world s) (T 1) 1 2 ∧
    (mainBuffer (T 0), mainBuffer (T 1), aux_of (T 0), aux_of (T 1), auxBuffer (T 0), needs_aux (T 1)) = (Some 100, Some 200, Some 300, None, Some 300, false))
    as ([= Hh HF He Hbits] & T0 & T1 & Hb & P0 & P1 & [= M0 M1 A0 A1 X0 X1]).
  { unfold T. clear T. vm_compute in E. injection E as <-. vm_compute. repeat split. }
  clear E. rewrite !andb_true_iff in Hb. destruct Hb as ((((Hw & Hf) & W1) & W2) & W3).
  apply there_ok in W1, W2, W3. split; [done|].
  assert (∀ i, i ∈ bits (enabledTracks s) → i = 0 ∨ i = 1) as Hin.
  { rewrite Hbits. intros i [->|[->|Hi]%elem_of_cons]%elem_of_cons; [by right|by left|by apply elem_of_nil in Hi]. }
  clearbody T. split; try done.
  - exists 1%nat. split; [lia|reflexivity].
  - by rewrite He.
  - by apply feeds_okb_ok.
  - intros i [-> | ->]%Hin; (split; [done|]).
    + apply (plain_ready _ _ 2 4); [done|done|]. by rewrite X0.
    + apply (plain_ready _ _ 1 2); [done|done|]. by rewrite X1.
  - intros i j [-> | ->]%Hin [-> | ->]%Hin; done.
  - by apply words_okb_ok.
  - intros i [-> | ->]%Hin b; rewrite ?A0, ?A1; [|done]. intros [= <-]. done.
  - intros i [-> | ->]%Hin; [exists 100|exists 200]; (split; [done|split; [done|]]); intros j q [-> | ->]%Hin; rewrite ?A0, ?A1; try done; intros [= <-]; lia.
  - intros i j b b' [-> | ->]%Hin [-> | ->]%Hin; rewrite ?M0, ?M1; intros [= <-] [= <-]; lia.
Qed.

Lemma mixer_output_witness :
  wp (process [] 9) (λ _, mixed_to 16 (demo_tracks (demo_state two_tracks)) demo_provider (demo_state two_tracks)) (demo_state two_tracks).
Proof. exact (mixer_output 16 (demo_tracks (demo_state two_tracks)) demo_provider (demo_state two_tracks) [] 9 (proj1 two_tracks_mixable) (proj2 two_tracks_mixable)). Defined.

Lemma one_track_mixable : let s := demo_state one_track_only in
  mixable 16 (demo_tracks s) demo_provider s ∧ enabledTracks s = bit 0 ∧ t_hook (demo_tracks s 0) = Some track__16BitsStereo ∧
  needs_aux (demo_tracks s 0) = false ∧ stream (world s) (demo_provider 0) ≠ [].
Proof.
  destruct one_track_only as [[] s|] eqn:E; [|vm_compute in E; discriminate E]. cbn [demo_state]. cbv zeta.
  set (T := demo_tracks s).
  assert ((m_frameCount s, enabledTracks s, bits (enabledTracks s)) = (16, 1, [0]) ∧ track s 0 = Some (T 0) ∧
    words_okb (words s) && feeds_okb (world s) && there 100 (words s) = true ∧ plain (world s) (T 0) 2 4 ∧
    (mainBuffer (T 0), aux_of (T 0), auxBuffer (T 0), needs_aux (T 0), length (feed_stream (world s) 2)) = (Some 100, None, None, false, 20%nat))
    as ([= HF He Hbits] & T0 & Hb & P0 & [= M0 A0 X0 N0 L0]).
  { unfold T. clear T. vm_compute in E. injection E as <-. vm_compute. repeat split. }
  clear E. rewrite !andb_true_iff in Hb. destruct Hb as ((Hw & Hf) & W1). apply there_ok in W1.
  assert (∀ i, i ∈ bits (enabledTracks s) → i = 0) as Hin by (rewrite Hbits; by intros i ?%list_elem_of_singleton).
  clearbody T. split.
  2:{ split; [by rewrite He|]. split; [by destruct P0 as (_ & -> & _)|]. split; [done|]. change (feed_stream (world s) 2 ≠ []). by destruct (feed_stream (world s) 2). }
  split; try done.
  - exists 1%nat. split; [lia|reflexivity].
  - by rewrite He.
  - by apply feeds_okb_ok.
  - intros i ->%Hin. split; [done|]. apply (plain_ready _ _ 2 4); [done|done|]. by rewrite N0.
  - intros i j ->%Hin ->%Hin. done.
  - by apply words_okb_ok.
  - intros i ->%Hin b. by rewrite A0.
  - intros i ->%Hin. exists 100. split; [done|]. split; [done|]. intros j q ->%Hin. by rewrite A0.
  - intros i j b b' ->%Hin ->%Hin. rewrite M0. intros [= <-] [= <-]. lia.
Qed.
Lemma fast_path_agrees_witness : let s := demo_state one_track_only in ∃ s1 s2,
  run_OneTrack16BitsStereoNoResampling 9 s = Ret tt s1 ∧ run_genericNoResampling 9 s = Ret tt s2 ∧ words s1 = words s2 ∧ static s1 = static s2 ∧
  stream (world s1) (demo_provider 0) = stream (world s2) (demo_provider 0) ∧ loan (world s1) (demo_provider 0) = loan (world s2) (demo_provider 0).
Proof.
  destruct one_track_mixable as (H1 & H2 & H3 & H4 & H5).
  exact (fast_path_agrees 16 (demo_tracks (demo_state one_track_only)) demo_provider (demo_state one_track_only) 0 9 H1 (conj (Z.le_refl 0) eq_refl) H2 H3 H4 H5).
Defined.

(** The first track of [one_track_only] goes from unity to a quarter of it. *)
Lemma one_track_there : let s := demo_state one_track_only in
  track s 0 = Some (demo_tracks s 0) ∧ m_frameCount s = 16 ∧ volume (gain true (demo_tracks s 0)) = 4096.
Proof. cbv zeta. split; [|split]; vm_compute; reflexivity. Qed.

Lemma allowedb_ok s c : allowedb s c = true → allowed s c.
Proof.
  assert (∀ name, in_useb s name = true → in_use s name) as Hx.
  { intros name [H1%bool_decide_eq_true H2]%andb_true_iff. split; [lia|done]. }
  destruct c; cbn; auto.
Qed.
Lemma run_calls_reachable l s s' : reachable 4 s → run_calls l (Ret tt s) = Ret tt s' → reachable 4 s'.
Proof.
  revert s. induction l as [|c l IH]; intros s Hs; cbn [run_calls]; [by intros [= <-]|].
  destruct (allowedb s c) eqn:Ha; [|by destruct l]. destruct (run_call c s) as [r s1|] eqn:E; [|by destruct l].
  apply IH. eapply reach_call; [exact Hs|by apply allowedb_ok|exact E].
Qed.
Lemma demo_reachable l s : run_calls l demo_new = Ret tt s → reachable 4 s.
Proof.
  unfold demo_new. destruct (AudioMixer 16 48000 4 (replicate 32 junk) false demo_words demo_feeds) as [[] s0|] eqn:E; [|by destruct l].
  apply run_calls_reachable. eapply reach_new; [| |exact E]; [lia|done].
Qed.
Lemma mixer_consistent_witness : consistent (demo_state two_tracks).
Proof.
  assert (reachable 4 (demo_state two_tracks)) as Hr.
  { apply (demo_reachable (setup 4096 2 3 100 ++ [SetParameter 4096 (AUX_BUFFER (Some 300)); SetParameter 4096 (AUXLEVEL true 2048)] ++ setup 4097 1 1 200 ++ [Process [] 5])).
    vm_compute. reflexivity. }
  exact (proj1 (mixer_consistent 4 (demo_state two_tracks) Hr)).
Defined.

(** *** What the mixer gets wrong *)

Definition words_at (b n : Z) (o : outcome (mixer (gmap Z feed)) unit) : list (option Z) := map (λ k, words (demo_state o) !! k) (seqZ b n).

(** A ramp of one volume takes the other one from [prevVolume], which nothing has set: the
    left side of the first frame is 1000 * 0x700 in 4.12, not 1000. *)
Example stale_prevVolume :
  words_at 100 1 (run_calls (setup 4096 2 3 100 ++ [SetParameter 4096 (VOLUME1 false 1024); Process [] 5]) demo_new) = [Some (Z.shiftr (1000 * 0x700) 12)].
Proof. vm_compute. reflexivity. Qed.
(** A name stays taken when the preparation of the down-mixer fails. *)
Example lost_name : match run_from demo_new (getTrackName 0x3f 1) with Ret r s => r = -1 ∧ mTrackNames s = 1 | Crash _ => False end.
Proof. vm_compute. done. Qed.
(** One mono track with no volume is mixed as stereo once, and read past its end. *)
Example silent_mono_read_past :
  run_calls (setup 4096 3 1 100 ++ [SetParameter 4096 (VOLUME0 true 0); SetParameter 4096 (VOLUME1 true 0); Process [] 5]) demo_new = Crash CrashOops.
Proof. vm_compute. reflexivity. Qed.
(** Tracks without frames leave the main buffer as it was. *)
Example stale_output :
  let o := run_calls [Process [] 6; Process [] 7] two_tracks in
  words_at 100 16 (run_calls [Process [] 8] o) = words_at 100 16 o ∧ words_at 100 1 o ≠ [Some 0].
Proof. vm_compute. done. Qed.
(** A ramp set during another one starts at the end of that one. *)
Example ramp_jumps : set_level false 0 16 (Ramp 4096 (2048 * 65536) (256 * 65536)) = Some (Ramp 0 (4096 * 65536) (-256 * 65536)).
Proof. reflexivity. Qed.
(** The fast routine, which knows no ramps, is chosen before a ramp is over. *)
Example ramp_cut_short :
  let s := demo_state (run_calls (setup 4096 4 3 100 ++ [SetParameter 4096 (VOLUME0 false 0); Process [] 5]) demo_new) in
  hook s = process__OneTrack16BitsStereoNoResampling ∧ ramp0 (demo_tracks s 0) = Ramp 0 (1792 * 65536) (-256 * 65536).
Proof. vm_compute. done. Qed.
End MixerDemo.
