(* ===== verification/NbaioStack.v ===== *)
(** * A stack of adapters is the source

    The adapters of [NbaioProviders] on top of each other, on any source that keeps
    its contract; and [MonoPipeReader] as such a source. *)

From Stdlib Require Import ZArith Lia.
From stdpp Require Import base tactics numbers option list.
From S2P Require Import Prelude Words LinearTransform Nbaio Ring NbaioProviders.
From S2P Require MonoPipe MonoPipeSpec.

(** ** Reading through the stack *)

Section stack.
Context {St : Type} `{!NBAIO_Source St} `{!SourceLaws St}.
Context (malloc : Z → list Z) (malloc_ok : ∀ n, 0 ≤ n → Z.of_nat (length (malloc n)) = n).

#[local] Instance stack_provider : AudioBufferProvider (sabp * St) := sabp_provider malloc.
#[local] Instance stack_provider_laws : ProviderLaws (sabp * St) := sabp_provider_laws malloc malloc_ok.

(** The stack on the source: a provider for it, and a source for that provider, with
    its end negotiated. *)
Definition stack (s : St) : outcome St (abps * (sabp * St)) :=
  match SourceAudioBufferProvider s with
  | Crash c => Crash c
  | Ret p s =>
      let a := AudioBufferProviderSource (mFormat (source_port s)) in
      let '(_, _, _, pt) := negotiate (mPort a) [mFormat (source_port s)] [] 0 in
      Ret (Abps pt (mFramesRead a) (mBuffer a) (mConsumed a), (p, s)) s
  end.
(** Calls of [read] with the given counts; what they put into the buffer. *)
Fixpoint read_all (counts : list Z) : M (abps * (sabp * St)) (list (Z * list Z)) :=
  match counts with
  | [] => ret []
  | count :: counts => r <- source_read count 0 ;; rs <- read_all counts ;; ret (r :: rs)
  end.

Lemma read_all_ok counts : ∀ a, source_ok a → mNegotiated (source_port a) = true → Forall (λ c, 0 < c < 2 ^ 29) counts →
  wp (read_all counts) (λ rs a', concat (snd <$> rs) ++ source_rest a' = source_rest a ∧ length rs = length counts ∧
    Forall (λ r, Z.of_nat (length (snd r)) = Z.shiftl (Z.max (fst r) 0) (mBitShift (source_port a))) rs) a.
Proof.
  induction counts as [|count counts IH]; intros a Ha Hn Hc.
  { apply wp_ret. by split. }
  apply Forall_cons in Hc as [Hc Hcs]. cbn [read_all]. apply wp_bind. eapply wp_mono; [by apply source_read_ok|].
  cbn beta zeta. intros [n data] a1 (K1 & K2 & K3 & K4 & K5 & K6). apply wp_bind.
  eapply wp_mono; [apply IH; [done|by rewrite K2|done]|]. cbn beta. rewrite K2. intros rs a2 (L1 & L2 & L3).
  apply wp_ret. cbn [fmap list_fmap concat snd]. split; [|split; [by f_equal/=|by constructor]].
  rewrite <-app_assoc, L1, K6. rewrite <-(take_drop (length data) (source_rest a)) at 2. f_equal.
  rewrite K4 at 1. f_equal. lia.
Qed.

Lemma stack_ok s :
  source_ok s → mFormat (source_port s) ≠ Format_Invalid →
  ∃ a s', stack s = Ret a s' ∧ source_ok a ∧ mNegotiated (source_port a) = true ∧ source_rest a = source_rest s ∧
    mBitShift (source_port a) = mBitShift (source_port s).
Proof.
  intros Hs Hf. destruct (source_shift s Hs) as [Hsh Hsh'].
  unfold stack, SourceAudioBufferProvider. rewrite bind_getst, negotiate_ask by (done || lia).
  rewrite bind_bug_on by done. change (<[0%nat:=mFormat (source_port s)]> [0]) with [mFormat (source_port s)].
  rewrite negotiate_accept by done. rewrite bind_bug_on by done. rewrite bind_modify.
  set (pt := Port true (mFormat (source_port s)) (mBitShift (source_port s))).
  destruct (source_set_port_ok s pt Hs eq_refl eq_refl) as (K1 & K2 & K3).
  unfold ret. rewrite K2. unfold AudioBufferProviderSource. cbn [mPort mFramesRead mBuffer mConsumed].
  pose proof (negotiate_accept (port_new (mFormat pt)) [] 0 Hf) as E.
  change (mFormat (port_new (mFormat pt))) with (mFormat pt) in E. rewrite E. clear E.
  eexists _, _. split; [reflexivity|]. cbn [source_port abps_source fst mPort mNegotiated mBitShift].
  split; [|split; [done|split; [|by rewrite Hsh']]].
  - unfold source_ok, abps_source_laws. split; cbn [fst snd mPort mBitShift mFormat mBuffer raw mConsumed].
    + unfold provider_ok, stack_provider_laws, sabp_provider_laws. split; cbn [fst snd mFrameBitShift mAllocated mSize mOffset mRemaining mGetCount]; try done || lia.
      * by rewrite K2.
      * rewrite K2. cbn [pt mBitShift]. unfold port_format. cbn [mNegotiated mFormat]. by rewrite Hsh'.
      * by rewrite Z.shiftl_0_l.
    + split; [|done]. change (0 ≤ Format_frameBitShift (mFormat pt) ≤ 2). change (mFormat pt) with (mFormat (source_port s)). lia.
    + done.
    + by split.
  - unfold source_rest at 1, abps_source_laws. unfold abps_rest, provider_rest, stack_provider_laws, sabp_provider_laws. cbn [fst snd mConsumed mPort mBitShift].
    unfold leftover. cbn [mFrameBitShift mAllocated mOffset mRemaining]. by rewrite !Z.shiftl_0_l, K3.
Qed.

(** C30: reading through [AudioBufferProviderSource] on [SourceAudioBufferProvider] is
    reading the source: whatever the counts asked for, the bytes obtained are, in
    order and without gap or repetition, the first bytes of the source's stream, and
    the stack goes on with the rest of it. *)
Theorem stack_is_source (s : St) (counts : list Z)
    (Hs : source_ok s) (Hf : mFormat (source_port s) ≠ Format_Invalid) (Hc : Forall (λ c, 0 < c < 2 ^ 29) counts) :
  ∃ a s' rs a', stack s = Ret a s' ∧ read_all counts a = Ret rs a' ∧
    concat (snd <$> rs) ++ source_rest a' = source_rest s ∧
    Forall (λ r, Z.of_nat (length (snd r)) = Z.shiftl (Z.max (fst r) 0) (mBitShift (source_port s))) rs.
Proof.
  destruct (stack_ok s Hs Hf) as (a & s' & E & Ha & Hn & Er & Esh).
  destruct (wp_elim _ _ _ (read_all_ok counts a Ha Hn Hc)) as (rs & a' & E' & K1 & _ & K3).
  exists a, s', rs, a'. rewrite <-Er, <-Esh. done.
Qed.
End stack.

(** ** MonoPipeReader is a source *)

Section mono.
Import MonoPipe MonoPipeSpec.

#[export] Instance mono_source : NBAIO_Source mono := {|
  source_port s := rd_port (m_reader s);
  source_set_port p s := Mono (m_pipe s) (Reader p (MonoPipe.mFramesRead (m_reader s)));
  source_availableToRead := gets (λ s, availableToRead (m_reader s) (m_pipe s));
  source_read := read
|}.

(** The bytes in the pipe. *)
Definition pipe_bytes (p : monopipe) : list Z :=
  default [] (copy_out (MonoPipe.mBuffer p)
    ((mFront p * 2 ^ mBitShift (mPort p)) mod Z.of_nat (length (MonoPipe.mBuffer p)))
    (Z.shiftl (frames p) (mBitShift (mPort p)))).
Lemma pipe_bytes_ok p q : repr p q → pipe_bytes p = q.
Proof.
  intros Hr. destruct (repr_bounds p q Hr) as (Hm & Hf & Hpos). unfold pipe_bytes.
  rewrite (ring_read _ _ q); [|apply (r_ring _ _ Hr)| |done].
  - cbn [default]. apply take_ge. pose proof (r_size _ _ Hr). lia.
  - pose proof (r_size _ _ Hr). destruct (shiftl_bytes (frames p) _ (r_shift _ _ Hr)) as [E Hw]. lia.
Qed.

Record mono_ok (s : mono) : Prop := {
  mo_repr : repr (m_pipe s) (pipe_bytes (m_pipe s));
  mo_shift : mBitShift (rd_port (m_reader s)) = mBitShift (mPort (m_pipe s));
  mo_format : mBitShift (rd_port (m_reader s)) = Format_frameBitShift (mFormat (rd_port (m_reader s)))
}.

Lemma read_port s count pts n d s' : read count pts s = Ret (n, d) s' → rd_port (m_reader s') = rd_port (m_reader s).
Proof.
  unfold read. intros (nx & s1 & E1 & E2)%bind_Ret.
  assert (m_reader s1 = m_reader s) as Es1.
  { unfold in_pipe, zoom in E1. destruct (offsetTimestampByAudioFrames _ _ _); [|done]. by injection E1 as _ <-. }
  rewrite bind_getst in E2. destruct (bool_decide (availableToRead (m_reader s1) (m_pipe s1) <= 0)).
  - apply bind_Ret in E2 as ([] & s2 & E2 & [= _ _ <-]). injection E2 as <-. cbn. by rewrite Es1.
  - apply bind_Ret in E2 as (l & s2 & E2 & E3). destruct (read_copy _ _ _); [|done]. injection E2 as _ <-.
    apply bind_Ret in E3 as ([] & s3 & E3 & [= _ _ <-]). destruct (bool_decide _) in E3.
    + apply bind_Ret in E3 as ([] & s4 & E3 & E4). injection E3 as <-. injection E4 as <-. cbn. by rewrite Es1.
    + injection E3 as <-. by rewrite Es1.
Qed.

#[export] Instance mono_source_laws : SourceLaws mono.
Proof.
  refine {| source_ok := mono_ok; source_rest s := pipe_bytes (m_pipe s) |}.
  - intros s count pts [Hr Hs Hf] Hn Hc. cbn [source_port source_read mono_source] in *.
    destruct (repr_bounds _ _ Hr) as (Hm & Hfr & _). pose proof (r_shift _ _ Hr) as Hsh.
    destruct (wp_elim _ _ _ (read_ok s _ count pts Hr (conj Hn Hs) ltac:(lia)))
      as ([n data] & s' & E & -> & -> & Hr' & Hrd' & Hsame & Hfr' & _).
    pose proof (read_port _ _ _ _ _ _ E) as Ep. unfold wp. rewrite E. rewrite Hs.
    set (k := Z.min count (frames (m_pipe s))) in *. rewrite Z.max_l by lia.
    set (q := pipe_bytes (m_pipe s)) in *. destruct (shiftl_bytes k _ Hsh) as [Ek Hw].
    destruct (shiftl_bytes (frames (m_pipe s)) _ Hsh) as [Ef _]. pose proof (r_size _ _ Hr) as Hsz.
    assert (Z.of_nat (length (take (Z.to_nat (Z.shiftl k (mBitShift (mPort (m_pipe s))))) q)) =
      Z.shiftl k (mBitShift (mPort (m_pipe s)))) as Hlen by (rewrite length_take; nia).
    pose proof (pipe_bytes_ok _ _ Hr') as Eb'. destruct Hsame as (Esame & _ & _).
    split; [split; [by rewrite Eb'|by rewrite Ep, Esame|by rewrite Ep]|].
    split; [done|]. split; [lia|]. split; [done|]. split; [done|]. rewrite Eb'. f_equal. lia.
  - intros s p [Hr Hs Hf] E1 E2. cbn [source_port source_set_port mono_source m_pipe m_reader rd_port] in *.
    split; [split; cbn [m_pipe m_reader rd_port]; [done|congruence|by rewrite E1, E2]|]. done.
  - intros s [Hr Hs Hf]. cbn [source_port mono_source]. split; [|done]. rewrite Hs. apply (r_shift _ _ Hr).
Defined.
End mono.

Module StackDemo.
Import MonoPipe MonoPipeSpec.
(** A pipe with three frames written. *)
Definition full : mono :=
  match in_pipe (write [] [1; 2; 3; 4; 5; 6] 3) (open_pipe 4 (Format_from_SR_C 48000 1) false (replicate 8 0) None) with
  | Ret _ s => s
  | Crash _ => open_pipe 4 0 false [] None
  end.
Lemma full_ok : mono_ok full.
Proof.
  destruct (open_pipe_ok 4 48000 1 false (replicate 8 0) None) as (Hr & _ & Hb & _ & _ & _);
    [lia|apply (bool_decide_unpack _); reflexivity|by left|reflexivity|].
  destruct (wp_elim _ _ _ (write_nonblocking_ok _ [] [1; 2; 3; 4; 5; 6] 3 Hr Hb ltac:(split; [lia|vm_compute; congruence])))
    as (n & p' & E & _ & _ & Hr').
  assert (m_pipe full = p') as Ep.
  { unfold full, in_pipe, zoom. rewrite E. reflexivity. }
  split; [rewrite Ep, (pipe_bytes_ok _ _ Hr'); done|vm_compute; reflexivity|vm_compute; reflexivity].
Qed.
Definition zeros (n : Z) : list Z := replicate (Z.to_nat n) 0.

Lemma zeros_ok n : 0 ≤ n → Z.of_nat (length (zeros n)) = n.
Proof. intros. unfold zeros. rewrite length_replicate. lia. Qed.

Lemma stack_is_source_witness :
  source_rest full = [1; 2; 3; 4; 5; 6] ∧
  ∃ a s' rs a', stack full = Ret a s' ∧ read_all zeros [2; 5; 1] a = Ret rs a' ∧
    concat (snd <$> rs) ++ abps_rest (ProviderLaws0 := sabp_provider_laws zeros zeros_ok) a' = source_rest full ∧
    Forall (λ r, Z.of_nat (length (snd r)) = Z.shiftl (Z.max (fst r) 0) (mBitShift (source_port full))) rs.
Proof.
  split; [vm_compute; reflexivity|].
  apply (stack_is_source zeros zeros_ok full [2; 5; 1]);
    [exact full_ok|vm_compute; congruence|repeat constructor; lia].
Defined.
End StackDemo.
