(* ===== verification/AudioTrackShared.v ===== *)
(** * The control block of a track

    [libs/libmedia/AudioTrackShared.cpp], [include/private/media/AudioTrackShared.h]:
    the block of shared memory by which an application ([AudioTrack] that plays,
    [AudioRecord] that records) and the server pass frames.  Both count frames in
    32-bit words that wrap: [user] for the application, [server] for the server; the
    [Base] of each is the count at which its current round of the buffer began. *)

From Stdlib Require Import ZArith Lia.
From stdpp Require Import base tactics numbers option list.
From S2P Require Import Prelude Words.

Definition MAX_STARTUP_TIMEOUT_MS : Z := 3000.
Definition MAX_RUN_TIMEOUT_MS : Z := 1000.
Definition WAIT_PERIOD_MS : Z := 10.
Definition CBLK_UNDERRUN : Z := 1.
Definition CBLK_FORCEREADY : Z := 2.
Definition CBLK_INVALID : Z := 4.
Definition CBLK_DISABLED : Z := 8.
Definition UINT_MAX : Z := 4294967295.

(** [status_t]. *)
Definition NO_ERROR : Z := 0.
Definition EBUSY : Z := 16.

(** [struct audio_track_cblk_t]; the mutex and the condition are outside. *)
Record cblk := Cblk {
  user : Z;
  server : Z;
  userBase : Z;
  serverBase : Z;
  frameCount_ : Z;
  loopStart : Z;
  loopEnd : Z;
  loopCount : Z;
  mVolumeLR : Z;
  mSampleRate : Z;
  mSendLevel : Z;
  bufferTimeoutMs : Z;
  waitTimeMs : Z;
  flags : Z
}.
Definition set_user (v : Z) (x : cblk) : cblk :=
  Cblk v (server x) (userBase x) (serverBase x) (frameCount_ x) (loopStart x) (loopEnd x) (loopCount x)
    (mVolumeLR x) (mSampleRate x) (mSendLevel x) (bufferTimeoutMs x) (waitTimeMs x) (flags x).
Definition set_server (v : Z) (x : cblk) : cblk :=
  Cblk (user x) v (userBase x) (serverBase x) (frameCount_ x) (loopStart x) (loopEnd x) (loopCount x) (mVolumeLR
    x) (mSampleRate x) (mSendLevel x) (bufferTimeoutMs x) (waitTimeMs x) (flags x).
Definition set_userBase (v : Z) (x : cblk) : cblk :=
  Cblk (user x) (server x) v (serverBase x) (frameCount_ x) (loopStart x) (loopEnd x) (loopCount x) (mVolumeLR
    x) (mSampleRate x) (mSendLevel x) (bufferTimeoutMs x) (waitTimeMs x) (flags x).
Definition set_serverBase (v : Z) (x : cblk) : cblk :=
  Cblk (user x) (server x) (userBase x) v (frameCount_ x) (loopStart x) (loopEnd x) (loopCount x) (mVolumeLR x)
    (mSampleRate x) (mSendLevel x) (bufferTimeoutMs x) (waitTimeMs x) (flags x).
Definition set_frameCount_ (v : Z) (x : cblk) : cblk :=
  Cblk (user x) (server x) (userBase x) (serverBase x) v (loopStart x) (loopEnd x) (loopCount x) (mVolumeLR x)
    (mSampleRate x) (mSendLevel x) (bufferTimeoutMs x) (waitTimeMs x) (flags x).
Definition set_loopStart (v : Z) (x : cblk) : cblk :=
  Cblk (user x) (server x) (userBase x) (serverBase x) (frameCount_ x) v (loopEnd x) (loopCount x) (mVolumeLR x)
    (mSampleRate x) (mSendLevel x) (bufferTimeoutMs x) (waitTimeMs x) (flags x).
Definition set_loopEnd (v : Z) (x : cblk) : cblk :=
  Cblk (user x) (server x) (userBase x) (serverBase x) (frameCount_ x) (loopStart x) v (loopCount x) (mVolumeLR
    x) (mSampleRate x) (mSendLevel x) (bufferTimeoutMs x) (waitTimeMs x) (flags x).
Definition set_loopCount (v : Z) (x : cblk) : cblk :=
  Cblk (user x) (server x) (userBase x) (serverBase x) (frameCount_ x) (loopStart x) (loopEnd x) v (mVolumeLR x)
    (mSampleRate x) (mSendLevel x) (bufferTimeoutMs x) (waitTimeMs x) (flags x).
Definition set_mVolumeLR (v : Z) (x : cblk) : cblk :=
  Cblk (user x) (server x) (userBase x) (serverBase x) (frameCount_ x) (loopStart x) (loopEnd x) (loopCount x) v
    (mSampleRate x) (mSendLevel x) (bufferTimeoutMs x) (waitTimeMs x) (flags x).
Definition set_mSampleRate (v : Z) (x : cblk) : cblk :=
  Cblk (user x) (server x) (userBase x) (serverBase x) (frameCount_ x) (loopStart x) (loopEnd x) (loopCount x)
    (mVolumeLR x) v (mSendLevel x) (bufferTimeoutMs x) (waitTimeMs x) (flags x).
Definition set_mSendLevel (v : Z) (x : cblk) : cblk :=
  Cblk (user x) (server x) (userBase x) (serverBase x) (frameCount_ x) (loopStart x) (loopEnd x) (loopCount x)
    (mVolumeLR x) (mSampleRate x) v (bufferTimeoutMs x) (waitTimeMs x) (flags x).
Definition set_bufferTimeoutMs (v : Z) (x : cblk) : cblk :=
  Cblk (user x) (server x) (userBase x) (serverBase x) (frameCount_ x) (loopStart x) (loopEnd x) (loopCount x)
    (mVolumeLR x) (mSampleRate x) (mSendLevel x) v (waitTimeMs x) (flags x).
Definition set_waitTimeMs (v : Z) (x : cblk) : cblk :=
  Cblk (user x) (server x) (userBase x) (serverBase x) (frameCount_ x) (loopStart x) (loopEnd x) (loopCount x)
    (mVolumeLR x) (mSampleRate x) (mSendLevel x) (bufferTimeoutMs x) v (flags x).
Definition set_flags (v : Z) (x : cblk) : cblk :=
  Cblk (user x) (server x) (userBase x) (serverBase x) (frameCount_ x) (loopStart x) (loopEnd x) (loopCount x)
    (mVolumeLR x) (mSampleRate x) (mSendLevel x) (bufferTimeoutMs x) (waitTimeMs x) v.

(** The constructor; it is used to build a block in shared memory, and leaves there
    the fields that it does not name. *)
Definition audio_track_cblk_t (c : cblk) : cblk :=
  Cblk 0 0 0 0 0 UINT_MAX UINT_MAX 0 268439552 0 0 (bufferTimeoutMs c) (waitTimeMs c) 0.

(** [android_atomic_and], [android_atomic_or] on the flags, and the tests of a flag. *)
Definition flags_and (mask : Z) (c : cblk) : cblk := set_flags (s32 (Z.land (u32 (flags c)) (u32 mask))) c.
Definition flags_or (mask : Z) (c : cblk) : cblk := set_flags (s32 (Z.lor (u32 (flags c)) (u32 mask))) c.
Definition flag (f : Z) (c : cblk) : bool := negb (bool_decide (Z.land (u32 (flags c)) f = 0)).

(** [tryLock]: what the mutex answers to the two attempts. *)
Definition tryLock (attempts : Z * Z) : bool :=
  let err := fst attempts in
  let err := if bool_decide (err = - EBUSY) then snd attempts else err in
  if bool_decide (err ≠ NO_ERROR) then false else true.

(** The base of a count that has reached [x]. *)
Definition rebase (base x frameCount : Z) : Z :=
  if bool_decide (x >= frameCount) then
    (if bool_decide (u32 (x - frameCount) >= base) then u32 (base + frameCount) else base)
  else if bool_decide (x >= u32 (base + frameCount)) then u32 (base + frameCount) else base.

Definition stepUser (stepCount frameCount : Z) (isOut : bool) : M cblk Z :=
  c <- getst ;;
  let u := u32 (user c + stepCount) in
  u <- (if isOut then
      (when bool_decide (bufferTimeoutMs c = MAX_STARTUP_TIMEOUT_MS - 1) do
        modify (set_bufferTimeoutMs MAX_RUN_TIMEOUT_MS)) ;;;
      ret u
    else if bool_decide (u > server c) then ret (server c) else ret u) ;;
  modify (set_userBase (rebase (userBase c) u frameCount)) ;;;
  modify (set_user u) ;;;
  (when flag CBLK_UNDERRUN c do modify (flags_and (Z.lnot CBLK_UNDERRUN))) ;;;
  ret u.

(** [stepServer]; [attempts] is what [tryLock] meets. *)
Definition stepServer (attempts : Z * Z) (stepCount frameCount : Z) (isOut : bool) : M cblk bool :=
  if negb (tryLock attempts) then ret false else
  c <- getst ;;
  let s := server c in
  let flushed := bool_decide (s = user c) in
  let s := u32 (s + stepCount) in
  s <- (if isOut then
      (when bool_decide (bufferTimeoutMs c = MAX_STARTUP_TIMEOUT_MS) do
        modify (set_bufferTimeoutMs (MAX_STARTUP_TIMEOUT_MS - 1))) ;;;
      ret (if flushed then user c else s)
    else ret s) ;;
  s <- (if bool_decide (s >= loopEnd c) then
      let n := s32 (loopCount c - 1) in
      modify (set_loopCount n) ;;;
      (when bool_decide (n = 0) do (modify (set_loopEnd UINT_MAX) ;;; modify (set_loopStart UINT_MAX))) ;;;
      ret (loopStart c)
    else ret s) ;;
  modify (set_serverBase (rebase (serverBase c) s frameCount)) ;;;
  modify (set_server s) ;;;
  ret true.

(** [buffer]: the address of the frame at [offset]. *)
Definition buffer (buffers frameSize offset : Z) (c : cblk) : Z :=
  u32 (buffers + u32 (u32 (offset - userBase c) * frameSize)).

Definition framesAvailable_l (frameCount : Z) (isOut : bool) (c : cblk) : Z :=
  let u := user c in
  let s := server c in
  if isOut then
    let limit := if bool_decide (s < loopStart c) then s else loopStart c in
    u32 (limit + frameCount - u)
  else u32 (frameCount + u - s).

Definition framesReady (attempts : Z * Z) (isOut : bool) (c : cblk) : Z :=
  let u := user c in
  let s := server c in
  if isOut then
    if bool_decide (u < loopEnd c) then u32 (u - s)
    else if negb (tryLock attempts) then 0
    else if bool_decide (loopCount c >= 0) then u32 ((loopEnd c - loopStart c) * loopCount c + u - s)
    else UINT_MAX
  else u32 (s - u).

(** ** The buffer with its control block *)

Record shared := Shared { cb : cblk; mem : list Z }.
Definition set_cb (c : cblk) (s : shared) : shared := Shared c (mem s).
Definition set_mem (m : list Z) (s : shared) : shared := Shared (cb s) m.

(** One end of it has a state [T] of its own. *)
Definition in_cb {T A} : M cblk A → M (shared * T) A := zoom (λ s, cb (fst s)) (λ c s, (set_cb c (fst s), snd s)).
Definition in_own {T A} : M T A → M (shared * T) A := zoom snd (λ t s, (fst s, t)).

(** [AudioBufferProvider::Buffer], the request and the answer of both sides. *)
Record abuffer := ABuffer { raw : option Z; b_frameCount : Z }.

(** ** The counts as the words show them

    [U] frames have been written and [S] read since both words were [o]. *)

Record counts (o fc U S : Z) (c : cblk) : Prop := {
  k_size : 0 < fc ≤ 2 ^ 31;
  k_order : 0 ≤ S ≤ U ∧ U ≤ S + fc;
  k_user : user c = u32 (o + U);
  k_server : server c = u32 (o + S);
  k_userBase : userBase c = u32 (o + (U - U mod fc));
  k_serverBase : serverBase c = u32 (o + (S - S mod fc))
}.

(** [rebase] moves the base exactly when a round is complete. *)
Lemma rebase_ok base n fc : 0 < fc ≤ 2 ^ 31 → 0 ≤ n ≤ fc →
  rebase (u32 base) (u32 (base + n)) fc = u32 (if bool_decide (n = fc) then base + fc else base).
Proof.
  intros Hfc Hn. unfold rebase. pose proof (u32_range base) as Hb. pose proof (u32_range (base + n)) as Hx.
  destruct (u32_eq base) as [i Ei]. destruct (u32_eq (base + n)) as [j Ej].
  assert (u32 (u32 base + fc) = u32 (base + fc)) as -> by (apply (u32_cong _ _ i); lia).
  pose proof (u32_range (base + fc)) as Hy. destruct (u32_eq (base + fc)) as [k Ek].
  assert (u32 (base + n) = u32 base + n ∨ u32 (base + n) = u32 base + n - 2 ^ 32) as Hc by lia.
  assert (u32 (base + fc) = u32 base + fc ∨ u32 (base + fc) = u32 base + fc - 2 ^ 32) as Hd by lia.
  case_bool_decide as H1.
  - rewrite (u32_small (u32 (base + n) - fc)) by lia. destruct (decide (n = fc)) as [->|].
    + rewrite (bool_decide_true (fc = fc)) by done. case_bool_decide; [done|lia].
    + rewrite (bool_decide_false (n = fc)) by done. case_bool_decide; [lia|done].
  - destruct (decide (n = fc)) as [->|].
    + rewrite (bool_decide_true (fc = fc)) by done. case_bool_decide; [done|lia].
    + rewrite (bool_decide_false (n = fc)) by done. case_bool_decide; [lia|done].
Qed.

(** The same for a count of frames: the round of [x + n] when [n] frames do not go
    past the end of the round of [x]. *)
Lemma rebase_count o x n fc : 0 < fc ≤ 2 ^ 31 → 0 ≤ n → n ≤ fc - x mod fc →
  rebase (u32 (o + (x - x mod fc))) (u32 (o + (x + n))) fc = u32 (o + (x + n - (x + n) mod fc)).
Proof.
  intros Hfc Hn Hend. pose proof (Z.mod_pos_bound x fc ltac:(lia)) as Hm.
  replace (o + (x + n)) with (o + (x - x mod fc) + (x mod fc + n)) by lia.
  rewrite rebase_ok by lia. f_equal.
  assert ((x + n) mod fc = (x mod fc + n) mod fc) as -> by (by rewrite Zplus_mod_idemp_l).
  set (r := x mod fc) in *. clearbody r. case_bool_decide as He.
  - rewrite He, Z.mod_same by lia. lia.
  - rewrite Z.mod_small by lia. lia.
Qed.

Section counts.
Context (o fc U S : Z) (c : cblk) (K : counts o fc U S c).

Lemma ahead : u32 (user c - server c) = U - S.
Proof.
  destruct K as [? ? -> -> _ _]. destruct (u32_eq (o + U)) as [i Ei]. destruct (u32_eq (o + S)) as [j Ej].
  rewrite Ei, Ej. rewrite (u32_cong _ (U - S) (i - j)) by lia. apply u32_small. lia.
Qed.
Lemma framesAvailable_count : loopStart c = UINT_MAX → framesAvailable_l fc true c = fc - (U - S).
Proof.
  intros El. unfold framesAvailable_l. rewrite El. pose proof ahead as Ha. destruct (k_size _ _ _ _ _ K), (k_order _ _ _ _ _ K).
  assert ((if bool_decide (server c < UINT_MAX) then server c else UINT_MAX) = server c) as ->.
  { case_bool_decide; [done|]. pose proof (u32_range (o + S)). rewrite (k_server _ _ _ _ _ K) in *.
    unfold UINT_MAX in *. lia. }
  destruct (u32_eq (user c - server c)) as [i Ei].
  rewrite (u32_cong _ (fc - (U - S)) i) by lia. apply u32_small. lia.
Qed.
Lemma framesReady_count attempts : loopEnd c = UINT_MAX → loopStart c = UINT_MAX → loopCount c = 0 →
  framesReady attempts true c = if bool_decide (user c = UINT_MAX) && negb (tryLock attempts) then 0 else U - S.
Proof.
  intros E1 E2 E3. unfold framesReady. rewrite E1, E2, E3.
  pose proof (u32_range (o + U)) as Hu. pose proof (k_user _ _ _ _ _ K) as Eu. unfold UINT_MAX in *.
  destruct (decide (user c = 4294967295)) as [E|E].
  - rewrite bool_decide_false, (bool_decide_true (_ = _)) by lia. destruct (tryLock attempts); [|done]. cbn [negb andb].
    rewrite bool_decide_true by lia. rewrite <-ahead. done.
  - rewrite bool_decide_true, (bool_decide_false (_ = _)) by lia. cbn [andb]. apply ahead.
Qed.
(** What is left of the round of a side. *)
Lemma user_room : u32 (u32 (userBase c + fc) - user c) = fc - U mod fc.
Proof.
  destruct K as [Hs ? -> _ -> _]. pose proof (Z.mod_pos_bound U fc ltac:(lia)).
  destruct (u32_eq (o + U)) as [i Ei]. destruct (u32_eq (o + (U - U mod fc))) as [j Ej].
  destruct (u32_eq (u32 (o + (U - U mod fc)) + fc)) as [k Ek].
  rewrite (u32_cong _ (fc - U mod fc) (j + k - i)) by lia. apply u32_small. lia.
Qed.
Lemma server_room : u32 (u32 (serverBase c + fc) - server c) = fc - S mod fc.
Proof.
  destruct K as [Hs ? _ -> _ ->]. pose proof (Z.mod_pos_bound S fc ltac:(lia)).
  destruct (u32_eq (o + S)) as [i Ei]. destruct (u32_eq (o + (S - S mod fc))) as [j Ej].
  destruct (u32_eq (u32 (o + (S - S mod fc)) + fc)) as [k Ek].
  rewrite (u32_cong _ (fc - S mod fc) (j + k - i)) by lia. apply u32_small. lia.
Qed.
Lemma user_index : u32 (user c - userBase c) = U mod fc.
Proof.
  destruct K as [Hs ? -> _ -> _]. pose proof (Z.mod_pos_bound U fc ltac:(lia)).
  destruct (u32_eq (o + U)) as [i Ei]. destruct (u32_eq (o + (U - U mod fc))) as [j Ej].
  rewrite (u32_cong _ (U mod fc) (i - j)) by lia. apply u32_small. lia.
Qed.
Lemma server_index : u32 (server c - serverBase c) = S mod fc.
Proof.
  destruct K as [Hs ? _ -> _ ->]. pose proof (Z.mod_pos_bound S fc ltac:(lia)).
  destruct (u32_eq (o + S)) as [i Ei]. destruct (u32_eq (o + (S - S mod fc))) as [j Ej].
  rewrite (u32_cong _ (S mod fc) (i - j)) by lia. apply u32_small. lia.
Qed.
Lemma buffer_address buffers frameSize : 0 ≤ buffers → 0 < frameSize → buffers + fc * frameSize < 2 ^ 32 →
  buffer buffers frameSize (user c) c = buffers + U mod fc * frameSize.
Proof.
  intros Hb Hs Hend. unfold buffer. rewrite user_index. pose proof (Z.mod_pos_bound U fc ltac:(destruct K; lia)).
  rewrite (u32_small (_ * _)) by nia. apply u32_small. nia.
Qed.

(** The steps of the counts. *)
Lemma stepUser_count n : 0 ≤ n → n ≤ fc - (U - S) → n ≤ fc - U mod fc →
  ∃ c', stepUser n fc true c = Ret (u32 (o + (U + n))) c' ∧ counts o fc (U + n) S c' ∧
    loopStart c' = loopStart c ∧ loopEnd c' = loopEnd c ∧ loopCount c' = loopCount c.
Proof.
  intros Hn Havail Hroom. pose proof K as [Hs Ho Eu Es Eub Esb].
  assert (u32 (user c + n) = u32 (o + (U + n))) as E.
  { destruct (u32_eq (o + U)) as [i Ei]. apply (u32_cong _ _ i). lia. }
  unfold stepUser. rewrite bind_getst, E. cbn [Z.to_nat].
  pose proof (rebase_count o U n fc Hs Hn Hroom) as Er. rewrite <-Eub in Er.
  destruct (bool_decide (bufferTimeoutMs c = _)), (flag CBLK_UNDERRUN c); cbn;
    (eexists; split; [reflexivity|]; split; [split; cbn; try done; lia|done]).
Qed.
Lemma stepServer_count attempts n : loopEnd c = UINT_MAX →
  0 ≤ n ≤ U - S → n ≤ fc - S mod fc → u32 (o + (S + n)) ≠ UINT_MAX → tryLock attempts = true →
  ∃ c', stepServer attempts n fc true c = Ret true c' ∧ counts o fc U (S + n) c' ∧
    loopStart c' = loopStart c ∧ loopEnd c' = loopEnd c ∧ loopCount c' = loopCount c.
Proof.
  intros El Hn Hroom Hmax Hlock. pose proof K as [Hs Ho Eu Es Eub Esb].
  assert (u32 (server c + n) = u32 (o + (S + n))) as E.
  { destruct (u32_eq (o + S)) as [i Ei]. apply (u32_cong _ _ i). lia. }
  assert ((if bool_decide (server c = user c) then user c else u32 (o + (S + n))) = u32 (o + (S + n))) as E'.
  { case_bool_decide as H; [|done]. pose proof ahead as Ha. rewrite H, Z.sub_diag in Ha.
    change (u32 0) with 0 in Ha. rewrite Eu. f_equal. lia. }
  assert (bool_decide (u32 (o + (S + n)) >= loopEnd c) = false) as El'.
  { apply bool_decide_false. pose proof (u32_range (o + (S + n))). rewrite El. unfold UINT_MAX in *. lia. }
  unfold stepServer. rewrite Hlock. cbn [negb]. rewrite bind_getst. cbn zeta. rewrite E, E'.
  pose proof (rebase_count o S n fc Hs ltac:(lia) Hroom) as Er. rewrite <-Esb in Er.
  destruct (bool_decide (bufferTimeoutMs c = _)); cbn; rewrite El'; cbn;
    (eexists; split; [reflexivity|]; split; [split; cbn; try done; lia|done]).
Qed.
End counts.
