(* ===== verification/AudioTrackClient.v ===== *)
(** * The application's side of a track

    [libs/libmedia/AudioTrack.cpp], [libs/libmedia/AudioRecord.cpp]: an application
    obtains room (or frames) in the buffer, waiting if there is none, and releases it
    when it has written (or read) them.  [write] and [read] do so until the caller's
    data is used up. *)

From Stdlib Require Import ZArith Lia.
From stdpp Require Import base tactics numbers option list.
From S2P Require Import Prelude Words AudioTrackShared.

Definition NO_MORE_BUFFERS : Z := - 2147483647.
Definition STOPPED_STATUS : Z := 1.
Definition INVALID_OPERATION : Z := - 38.
Definition BAD_VALUE : Z := - 22.
Definition WOULD_BLOCK : Z := - 11.
Definition TIMED_OUT : Z := - 110.
Definition DEAD_OBJECT : Z := - 32.

(** The fields of [class AudioTrack], and of [class AudioRecord], that concern the
    buffer; [mStatic] says whether there is a [mSharedBuffer], [mExpand] whether the
    caller's samples are of 8 bits and the track's of 16. *)
Record client := Client {
  mBuffers : Z;
  mFrameCount : Z;
  mFrameSize : Z;
  mFrameSizeAF : Z;
  mActive : bool;
  mStatic : bool;
  mIsTimed : bool;
  mExpand : bool;
  mLoopCount : Z;
  mFlushed : bool;
  mUpdatePeriod : Z;
  mNewPosition : Z
}.
Definition set_mBuffers (v : Z) (x : client) : client :=
  Client v (mFrameCount x) (mFrameSize x) (mFrameSizeAF x) (mActive x) (mStatic x) (mIsTimed x) (mExpand x)
    (mLoopCount x) (mFlushed x) (mUpdatePeriod x) (mNewPosition x).
Definition set_mFrameCount (v : Z) (x : client) : client :=
  Client (mBuffers x) v (mFrameSize x) (mFrameSizeAF x) (mActive x) (mStatic x) (mIsTimed x) (mExpand x)
    (mLoopCount x) (mFlushed x) (mUpdatePeriod x) (mNewPosition x).
Definition set_mFrameSize (v : Z) (x : client) : client :=
  Client (mBuffers x) (mFrameCount x) v (mFrameSizeAF x) (mActive x) (mStatic x) (mIsTimed x) (mExpand x)
    (mLoopCount x) (mFlushed x) (mUpdatePeriod x) (mNewPosition x).
Definition set_mFrameSizeAF (v : Z) (x : client) : client :=
  Client (mBuffers x) (mFrameCount x) (mFrameSize x) v (mActive x) (mStatic x) (mIsTimed x) (mExpand x)
    (mLoopCount x) (mFlushed x) (mUpdatePeriod x) (mNewPosition x).
Definition set_mActive (v : bool) (x : client) : client :=
  Client (mBuffers x) (mFrameCount x) (mFrameSize x) (mFrameSizeAF x) v (mStatic x) (mIsTimed x) (mExpand x)
    (mLoopCount x) (mFlushed x) (mUpdatePeriod x) (mNewPosition x).
Definition set_mStatic (v : bool) (x : client) : client :=
  Client (mBuffers x) (mFrameCount x) (mFrameSize x) (mFrameSizeAF x) (mActive x) v (mIsTimed x) (mExpand x)
    (mLoopCount x) (mFlushed x) (mUpdatePeriod x) (mNewPosition x).
Definition set_mIsTimed (v : bool) (x : client) : client :=
  Client (mBuffers x) (mFrameCount x) (mFrameSize x) (mFrameSizeAF x) (mActive x) (mStatic x) v (mExpand x)
    (mLoopCount x) (mFlushed x) (mUpdatePeriod x) (mNewPosition x).
Definition set_mExpand (v : bool) (x : client) : client :=
  Client (mBuffers x) (mFrameCount x) (mFrameSize x) (mFrameSizeAF x) (mActive x) (mStatic x) (mIsTimed x) v
    (mLoopCount x) (mFlushed x) (mUpdatePeriod x) (mNewPosition x).
Definition set_mLoopCount (v : Z) (x : client) : client :=
  Client (mBuffers x) (mFrameCount x) (mFrameSize x) (mFrameSizeAF x) (mActive x) (mStatic x) (mIsTimed x)
    (mExpand x) v (mFlushed x) (mUpdatePeriod x) (mNewPosition x).
Definition set_mFlushed (v : bool) (x : client) : client :=
  Client (mBuffers x) (mFrameCount x) (mFrameSize x) (mFrameSizeAF x) (mActive x) (mStatic x) (mIsTimed x)
    (mExpand x) (mLoopCount x) v (mUpdatePeriod x) (mNewPosition x).
Definition set_mUpdatePeriod (v : Z) (x : client) : client :=
  Client (mBuffers x) (mFrameCount x) (mFrameSize x) (mFrameSizeAF x) (mActive x) (mStatic x) (mIsTimed x)
    (mExpand x) (mLoopCount x) (mFlushed x) v (mNewPosition x).
Definition set_mNewPosition (v : Z) (x : client) : client :=
  Client (mBuffers x) (mFrameCount x) (mFrameSize x) (mFrameSizeAF x) (mActive x) (mStatic x) (mIsTimed x)
    (mExpand x) (mLoopCount x) (mFlushed x) (mUpdatePeriod x) v.

Definition app : Type := shared * client.

(** What the client is answered by the server, with what the rest of the system does
    meanwhile: [v_create] is the call of [createTrack_l] (or [openRecord_l]), which asks
    the server for a new track and puts a new buffer and block in place; [v_start] that
    of [start] of the server's interface. *)
Record service := Service { v_create : M app Z; v_start : M app Z }.
(** A turn of a client that waits: the answer of [waitRelative], what others do until
    the client has its locks again, and the service it gets afterwards. *)
Record turn := Turn { t_result : Z; t_others : M app unit; t_service : service }.

(** ** Positions and loops of [AudioTrack] *)

Definition setLoop_l (loopStart loopEnd loopCount : Z) : M app Z :=
  s <- getst ;;
  if mIsTimed (snd s) then ret INVALID_OPERATION else
  if bool_decide (loopCount = 0) then
    in_cb (modify (set_loopStart UINT_MAX)) ;;;
    in_cb (modify (set_loopEnd UINT_MAX)) ;;;
    in_cb (modify (set_loopCount 0)) ;;;
    in_own (modify (set_mLoopCount 0)) ;;;
    ret NO_ERROR
  else if bool_decide (loopStart >= loopEnd) || bool_decide (u32 (loopEnd - loopStart) > mFrameCount (snd s)) ||
     bool_decide (server (cb (fst s)) > loopStart) then ret BAD_VALUE
  else if mStatic (snd s) && bool_decide (loopEnd > mFrameCount (snd s)) then ret BAD_VALUE
  else
    in_cb (modify (set_loopStart loopStart)) ;;;
    in_cb (modify (set_loopEnd loopEnd)) ;;;
    in_cb (modify (set_loopCount loopCount)) ;;;
    in_own (modify (set_mLoopCount loopCount)) ;;;
    ret NO_ERROR.

Definition setPosition (position : Z) : M app Z :=
  s <- getst ;;
  if negb (mStatic (snd s)) || mIsTimed (snd s) then ret INVALID_OPERATION else
  if mActive (snd s) then ret INVALID_OPERATION else
  if bool_decide (position > user (cb (fst s))) then ret BAD_VALUE else
  in_cb (modify (set_server position)) ;;;
  in_cb (modify (flags_or CBLK_FORCEREADY)) ;;;
  ret NO_ERROR.

Definition getPosition : M app Z :=
  gets (λ s, if mFlushed (snd s) then 0 else server (cb (fst s))).

(** ** A new track in the place of a lost one *)

Definition restoreTrack_l (v : service) (fromStart : bool) : M app Z :=
  s <- getst ;;
  let old := cb (fst s) in
  result <- v_create v ;;
  if negb (bool_decide (result = NO_ERROR)) then ret result else
  in_cb (modify (set_user (user old))) ;;;
  in_cb (modify (set_server (user old))) ;;;
  in_cb (modify (set_userBase (user old))) ;;;
  in_cb (modify (set_serverBase (user old))) ;;;
  _ <- setLoop_l (loopStart old) (loopEnd old) (loopCount old) ;;
  s <- getst ;;
  let t := snd s in
  let lost := bool_decide (user old > server old) in
  let n := if bool_decide (user old - server old > mFrameCount t) then mFrameCount t else user old - server old in
  (when negb fromStart do (
    in_cb (modify (set_bufferTimeoutMs MAX_RUN_TIMEOUT_MS)) ;;;
    (when negb (mStatic t) do (
      (when lost do (
        m <- deref (memcpy (mem (fst s)) 0 (replicate (Z.to_nat (n * mFrameSizeAF t)) 0) 0 (n * mFrameSizeAF t)) ;;
        modify (λ s, (set_mem m (fst s), snd s)))) ;;;
      in_cb (modify (flags_or CBLK_FORCEREADY)))))) ;;;
  let frames := if mStatic t then mFrameCount t else if negb fromStart && lost then n else 0 in
  (when bool_decide (frames > 0) do (_ <- in_cb (stepUser frames (mFrameCount t) true) ;; ret tt)) ;;;
  result <- (if mActive t then v_start v else ret result) ;;
  (when fromStart && bool_decide (result = NO_ERROR) do
    modify (λ s, (fst s, set_mNewPosition (u32 (server (cb (fst s)) + mUpdatePeriod (snd s))) (snd s)))) ;;;
  ret result.

(** ** Obtaining a buffer *)

(** [Buffer] of the client; after an error its address is that of before. *)
Record ubuffer := UBuffer { u_raw : Z; u_frameCount : Z; u_size : Z }.

Definition new_track (v : service) (k : M app (Z + Z)) (waitCount : Z) : M app (Z + Z) :=
  result <- restoreTrack_l v false ;;
  if negb (bool_decide (result = NO_ERROR)) then ret (inl result) else
  in_cb (modify (set_waitTimeMs 0)) ;;;
  if bool_decide (s32 (waitCount - 1) = 0) then ret (inl TIMED_OUT) else k.

(** The loop of [AudioTrack::obtainBuffer] from [start_loop_here] on: the status it
    returns with, or the number of frames available.  When the turns are used up, it
    is still waiting. *)
Fixpoint obtain_loop (turns : list turn) (waitCount waitTimeMs : Z) : M app (Z + Z) :=
  s <- getst ;;
  let framesAvail := framesAvailable_l (mFrameCount (snd s)) true (cb (fst s)) in
  if negb (bool_decide (framesAvail = 0)) then ret (inr framesAvail) else
  if negb (mActive (snd s)) then ret (inl NO_MORE_BUFFERS) else
  if bool_decide (waitCount = 0) then ret (inl WOULD_BLOCK) else
  match turns with
  | [] => crash_with CrashFuel
  | Turn result others v :: turns =>
      let again := obtain_loop turns (s32 (waitCount - 1)) waitTimeMs in
      let invalid := flag CBLK_INVALID (cb (fst s)) in
      (when negb invalid do others) ;;;
      s <- getst ;;
      if negb invalid && negb (mActive (snd s)) then ret (inl STOPPED_STATUS) else
      if flag CBLK_INVALID (cb (fst s)) then new_track v again waitCount
      else if negb (bool_decide (result = NO_ERROR)) then
        in_cb (modify (λ c, set_waitTimeMs ((AudioTrackShared.waitTimeMs c + waitTimeMs) mod 2 ^ 16) c)) ;;;
        s <- getst ;;
        let c := cb (fst s) in
        if bool_decide (AudioTrackShared.waitTimeMs c >= bufferTimeoutMs c) then
          if bool_decide (user c < loopEnd c) then
            result <- v_start v ;;
            if bool_decide (result = DEAD_OBJECT) then
              in_cb (modify (flags_or CBLK_INVALID)) ;;;
              new_track v again waitCount
            else if negb (bool_decide (result = NO_ERROR)) then ret (inl result)
            else
              in_cb (modify (set_waitTimeMs 0)) ;;;
              if bool_decide (s32 (waitCount - 1) = 0) then ret (inl TIMED_OUT) else again
          else
            in_cb (modify (set_waitTimeMs 0)) ;;;
            if bool_decide (s32 (waitCount - 1) = 0) then ret (inl TIMED_OUT) else again
        else if bool_decide (s32 (waitCount - 1) = 0) then ret (inl TIMED_OUT) else again
      else obtain_loop turns waitCount waitTimeMs
  end.

(** The frames granted: no more than are available, and up to the end of the buffer. *)
Definition grant (framesReq framesAvail : Z) (c : cblk) (t : client) : Z :=
  let framesReq := if bool_decide (framesReq > framesAvail) then framesAvail else framesReq in
  let room := u32 (u32 (userBase c + mFrameCount t) - user c) in
  if bool_decide (framesReq > room) then room else framesReq.

Definition obtainBuffer (v : service) (turns : list turn) (b : ubuffer) (waitCount : Z) : M app (Z * ubuffer) :=
  s <- getst ;;
  let c := cb (fst s) in
  let waitTimeMs := if bool_decide (waitCount < 0) then bufferTimeoutMs c else WAIT_PERIOD_MS in
  let framesAvail := framesAvailable_l (mFrameCount (snd s)) true c in
  r <- (if flag CBLK_INVALID c then
          new_track v (obtain_loop turns (s32 (waitCount - 1)) waitTimeMs) waitCount
        else if bool_decide (framesAvail = 0) then obtain_loop turns waitCount waitTimeMs
        else ret (inr framesAvail)) ;;
  match r with
  | inl status => ret (status, UBuffer (u_raw b) 0 0)
  | inr framesAvail =>
      in_cb (modify (set_waitTimeMs 0)) ;;;
      s <- getst ;;
      let c := cb (fst s) in
      let t := snd s in
      let n := grant (u_frameCount b) framesAvail c t in
      ret (if mActive t then NO_ERROR else STOPPED_STATUS,
           UBuffer (buffer (mBuffers t) (mFrameSizeAF t) (user c) c) n (u32 (n * mFrameSizeAF t)))
  end.

Definition releaseBuffer (v : service) (b : ubuffer) : M app unit :=
  s <- getst ;;
  _ <- in_cb (stepUser (u_frameCount b) (mFrameCount (snd s)) true) ;;
  (when bool_decide (u_frameCount b > 0) do (
    s <- getst ;;
    (when mActive (snd s) && flag CBLK_DISABLED (cb (fst s)) do (
      in_cb (modify (flags_and (Z.lnot CBLK_DISABLED))) ;;;
      _ <- v_start v ;; ret tt)))).

(** ** Writing *)

(** [memcpy_to_i16_from_u8]: the two bytes, low first, of each sample. *)
Definition i16_from_u8 (src : list Z) : list Z := src ≫= (λ b, [0; (b - 128) mod 256]).

(** The copy into the buffer, at the address [obtainBuffer] gave. *)
Definition write_copy (src : list Z) (b : ubuffer) : M app Z :=
  s <- getst ;;
  let off := u_raw b - mBuffers (snd s) in
  if mExpand (snd s) then
    let toWrite := Z.shiftr (u_size b) 1 in
    src <- deref (slice src 0 toWrite) ;;
    m <- deref (memcpy (mem (fst s)) off (i16_from_u8 src) 0 (2 * toWrite)) ;;
    modify (λ s, (set_mem m (fst s), snd s)) ;;;
    ret toWrite
  else
    let toWrite := u_size b in
    m <- deref (memcpy (mem (fst s)) off src 0 toWrite) ;;
    modify (λ s, (set_mem m (fst s), snd s)) ;;;
    ret toWrite.

(** The loop of [write]; each round makes one call of [obtainBuffer], for which it is
    given the turns, and one of [releaseBuffer]. *)
Fixpoint write_loop (rounds : list (service * list turn)) (src : list Z) (userSize written : Z) : M app Z :=
  match rounds with
  | [] => crash_with CrashFuel
  | (v, turns) :: rounds =>
      s <- getst ;;
      let frameSz := mFrameSize (snd s) in
      let* (err, b) := obtainBuffer v turns (UBuffer 0 (userSize / frameSz) 0) (-1) in
      if bool_decide (err < 0) then ret (if bool_decide (err = NO_MORE_BUFFERS) then written else err) else
      toWrite <- write_copy src b ;;
      let userSize := u32 (userSize - toWrite) in
      releaseBuffer v b ;;;
      if bool_decide (userSize >= frameSz)
      then write_loop rounds (drop (Z.to_nat toWrite) src) userSize (written + toWrite)
      else ret (written + toWrite)
  end.
Definition write (rounds : list (service * list turn)) (src : list Z) (userSize : Z) : M app Z :=
  s <- getst ;;
  if mStatic (snd s) || mIsTimed (snd s) then ret INVALID_OPERATION else
  if bool_decide (s32 userSize < 0) then ret BAD_VALUE else
  if bool_decide (userSize = 0) then ret 0 else
  write_loop rounds src userSize 0.

(** ** Recording *)

(** [restoreRecord_l]. *)
Definition restoreRecord_l (v : service) : M app Z :=
  result <- v_create v ;;
  result <- (if bool_decide (result = NO_ERROR) then v_start v else ret result) ;;
  (when negb (bool_decide (result = NO_ERROR)) do in_own (modify (set_mActive false))) ;;;
  ret result.

Definition new_record (v : service) (k : M app (Z + Z)) (waitCount : Z) : M app (Z + Z) :=
  result <- restoreRecord_l v ;;
  if negb (bool_decide (result = NO_ERROR)) then ret (inl result) else
  in_cb (modify (set_waitTimeMs 0)) ;;;
  if bool_decide (s32 (waitCount - 1) = 0) then ret (inl TIMED_OUT) else k.

(** The loop of [AudioRecord::obtainBuffer] from [start_loop_here] on. *)
Fixpoint record_loop (turns : list turn) (waitCount waitTimeMs : Z) : M app (Z + Z) :=
  s <- getst ;;
  let ready := framesReady (0, 0) false (cb (fst s)) in
  if negb (bool_decide (ready = 0)) then ret (inr ready) else
  if negb (mActive (snd s)) then ret (inl NO_MORE_BUFFERS) else
  if bool_decide (waitCount = 0) then ret (inl WOULD_BLOCK) else
  match turns with
  | [] => crash_with CrashFuel
  | Turn result others v :: turns =>
      let again := record_loop turns (s32 (waitCount - 1)) waitTimeMs in
      let invalid := flag CBLK_INVALID (cb (fst s)) in
      (when negb invalid do others) ;;;
      s <- getst ;;
      if negb invalid && negb (mActive (snd s)) then ret (inl STOPPED_STATUS) else
      if flag CBLK_INVALID (cb (fst s)) then new_record v again waitCount
      else if negb (bool_decide (result = NO_ERROR)) then
        in_cb (modify (λ c, set_waitTimeMs ((AudioTrackShared.waitTimeMs c + waitTimeMs) mod 2 ^ 16) c)) ;;;
        s <- getst ;;
        let c := cb (fst s) in
        if bool_decide (AudioTrackShared.waitTimeMs c >= bufferTimeoutMs c) then
          result <- v_start v ;;
          if bool_decide (result = DEAD_OBJECT) then
            in_cb (modify (flags_or CBLK_INVALID)) ;;;
            new_record v again waitCount
          else if negb (bool_decide (result = NO_ERROR)) then ret (inl result)
          else
            in_cb (modify (set_waitTimeMs 0)) ;;;
            if bool_decide (s32 (waitCount - 1) = 0) then ret (inl TIMED_OUT) else again
        else if bool_decide (s32 (waitCount - 1) = 0) then ret (inl TIMED_OUT) else again
      else record_loop turns waitCount waitTimeMs
  end.

Definition record_obtainBuffer (turns : list turn) (b : ubuffer) (waitCount : Z) : M app (Z * ubuffer) :=
  s <- getst ;;
  let c := cb (fst s) in
  let waitTimeMs := if bool_decide (waitCount < 0) then bufferTimeoutMs c else WAIT_PERIOD_MS in
  let ready := framesReady (0, 0) false c in
  r <- (if bool_decide (ready = 0) then record_loop turns waitCount waitTimeMs else ret (inr ready)) ;;
  match r with
  | inl status => ret (status, UBuffer (u_raw b) 0 0)
  | inr ready =>
      in_cb (modify (set_waitTimeMs 0)) ;;;
      in_cb (modify (set_bufferTimeoutMs MAX_RUN_TIMEOUT_MS)) ;;;
      s <- getst ;;
      let c := cb (fst s) in
      let t := snd s in
      let n := grant (u_frameCount b) ready c t in
      ret (if mActive t then NO_ERROR else STOPPED_STATUS,
           UBuffer (buffer (mBuffers t) (mFrameSize t) (user c) c) n (u32 (n * mFrameSize t)))
  end.

Definition record_releaseBuffer (b : ubuffer) : M app unit :=
  s <- getst ;; _ <- in_cb (stepUser (u_frameCount b) (mFrameCount (snd s)) false) ;; ret tt.

(** [AudioRecord::read]: the number of bytes or the status, and the bytes. *)
Fixpoint read_loop (rounds : list (list turn)) (userSize : Z) (got : list Z) : M app (Z * list Z) :=
  match rounds with
  | [] => crash_with CrashFuel
  | turns :: rounds =>
      s <- getst ;;
      let* (err, b) := record_obtainBuffer turns (UBuffer 0 (userSize / mFrameSize (snd s)) 0)
        (2 * MAX_RUN_TIMEOUT_MS / WAIT_PERIOD_MS) in
      if bool_decide (err < 0) then
        ret (if bool_decide (err = NO_MORE_BUFFERS) || bool_decide (err = TIMED_OUT) then Z.of_nat (length got) else err, got)
      else
      s <- getst ;;
      data <- deref (slice (mem (fst s)) (u_raw b - mBuffers (snd s)) (u_size b)) ;;
      let userSize := u32 (userSize - u_size b) in
      record_releaseBuffer b ;;;
      if bool_decide (userSize ≠ 0) then read_loop rounds userSize (got ++ data)
      else ret (Z.of_nat (length (got ++ data)), got ++ data)
  end.
Definition read (rounds : list (list turn)) (userSize : Z) : M app (Z * list Z) :=
  if bool_decide (s32 userSize < 0) then ret (BAD_VALUE, []) else read_loop rounds userSize [].
