(* ===== verification/AudioTrackServer.v ===== *)
(** * The server's side of a track

    [libs/audioflinger/Tracks.cpp]: [TrackBase], which takes frames out of the buffer
    of a playing track and puts frames into that of a recording one; and the buffers
    that [Track], which plays, and [RecordTrack] hand to the mixer and the recorder. *)

From Stdlib Require Import ZArith Lia.
From stdpp Require Import base tactics numbers option list.
From S2P Require Import Prelude Words AudioTrackShared.

Definition BAD_VALUE : Z := - 22.
Definition NOT_ENOUGH_DATA : Z := - 61.

Inductive track_state :=
  | IDLE | TERMINATED | FLUSHED | STOPPED | STOPPING_1 | STOPPING_2 | RESUMING | ACTIVE | PAUSING | PAUSED.
#[export] Instance track_state_eq : EqDecision track_state.
Proof. solve_decision. Defined.

(** [class TrackBase]. *)
Record trackbase := TrackBase_ {
  mBuffer : Z;
  mBufferEnd : Z;
  mStepCount : Z;
  mState : track_state;
  mFrameCount : Z;
  mFrameSize : Z;
  mStepServerFailed : bool;
  mIsOut : bool
}.
Definition set_mBuffer (v : Z) (x : trackbase) : trackbase :=
  TrackBase_ v (mBufferEnd x) (mStepCount x) (mState x) (mFrameCount x) (mFrameSize x) (mStepServerFailed x)
    (mIsOut x).
Definition set_mBufferEnd (v : Z) (x : trackbase) : trackbase :=
  TrackBase_ (mBuffer x) v (mStepCount x) (mState x) (mFrameCount x) (mFrameSize x) (mStepServerFailed x)
    (mIsOut x).
Definition set_mStepCount (v : Z) (x : trackbase) : trackbase :=
  TrackBase_ (mBuffer x) (mBufferEnd x) v (mState x) (mFrameCount x) (mFrameSize x) (mStepServerFailed x)
    (mIsOut x).
Definition set_mState (v : track_state) (x : trackbase) : trackbase :=
  TrackBase_ (mBuffer x) (mBufferEnd x) (mStepCount x) v (mFrameCount x) (mFrameSize x) (mStepServerFailed x)
    (mIsOut x).
Definition set_mFrameCount (v : Z) (x : trackbase) : trackbase :=
  TrackBase_ (mBuffer x) (mBufferEnd x) (mStepCount x) (mState x) v (mFrameSize x) (mStepServerFailed x) (mIsOut
    x).
Definition set_mFrameSize (v : Z) (x : trackbase) : trackbase :=
  TrackBase_ (mBuffer x) (mBufferEnd x) (mStepCount x) (mState x) (mFrameCount x) v (mStepServerFailed x)
    (mIsOut x).
Definition set_mStepServerFailed (v : bool) (x : trackbase) : trackbase :=
  TrackBase_ (mBuffer x) (mBufferEnd x) (mStepCount x) (mState x) (mFrameCount x) (mFrameSize x) v (mIsOut x).
Definition set_mIsOut (v : bool) (x : trackbase) : trackbase :=
  TrackBase_ (mBuffer x) (mBufferEnd x) (mStepCount x) (mState x) (mFrameCount x) (mFrameSize x)
    (mStepServerFailed x) v.

(** The constructor, once the memory at [buffer] has been found, and the control block
    it builds there. *)
Definition TrackBase (buffer frameSize frameCount : Z) (isOut : bool) : trackbase :=
  TrackBase_ buffer (u32 (buffer + frameCount * frameSize)) 0 IDLE frameCount frameSize false isOut.
Definition TrackBase_cblk (frameCount : Z) (sharedBuffer : bool) (c : cblk) : cblk :=
  let c := set_frameCount_ frameCount (audio_track_cblk_t c) in
  if sharedBuffer then c else set_flags CBLK_UNDERRUN c.

Definition isStopped (t : trackbase) : bool := bool_decide (mState t = STOPPED) || bool_decide (mState t = FLUSHED).
Definition isStopping (t : trackbase) : bool := bool_decide (mState t = STOPPING_1) || bool_decide (mState t = STOPPING_2).

(** [step]; [attempts] is what [tryLock] meets. *)
Definition step (attempts : Z * Z) : M (shared * trackbase) bool :=
  s <- getst ;;
  let t := snd s in
  result <- in_cb (stepServer attempts (mStepCount t) (mFrameCount t) (mIsOut t)) ;;
  (when negb result do in_own (modify (set_mStepServerFailed true))) ;;;
  ret result.

Definition releaseBuffer (attempts : Z * Z) (buffer : abuffer) : M (shared * trackbase) abuffer :=
  in_own (modify (set_mStepCount (b_frameCount buffer))) ;;;
  _ <- step attempts ;;
  ret (ABuffer None 0).

Definition base_reset : M (shared * trackbase) unit :=
  in_cb (modify (set_user 0)) ;;;
  in_cb (modify (set_server 0)) ;;;
  in_cb (modify (set_userBase 0)) ;;;
  in_cb (modify (set_serverBase 0)) ;;;
  in_own (modify (set_mStepServerFailed false)).

(** [getBuffer]: the address of the frame at [offset]; and the condition that the
    assertion in it (which builds leave out) states. *)
Definition getBuffer (offset : Z) (c : cblk) (t : trackbase) : Z :=
  u32 (mBuffer t + u32 (u32 (offset - serverBase c) * mFrameSize t)).
Definition getBuffer_assert (offset frames : Z) (c : cblk) (t : trackbase) : bool :=
  let bufferStart := getBuffer offset c t in
  let bufferEnd := u32 (bufferStart + u32 (frames * mFrameSize t)) in
  negb (bool_decide (bufferStart < mBuffer t) || bool_decide (bufferStart > bufferEnd) ||
        bool_decide (bufferEnd > mBufferEnd t)).

(** The beginning of both [getNextBuffer]: a step that failed is tried again. *)
Definition retry_step (attempts : Z * Z) : M (shared * trackbase) bool :=
  s <- getst ;;
  if mStepServerFailed (snd s) then
    ok <- step attempts ;;
    if negb ok then ret false else
    in_own (modify (set_mStepServerFailed false)) ;;; ret true
  else ret true.

(** [Track::getNextBuffer]; [first] and [second] are what the two [tryLock] meet. *)
Definition Track_getNextBuffer (first second : Z * Z) (buffer : abuffer) : M (shared * trackbase) (Z * abuffer) :=
  let framesReq := b_frameCount buffer in
  ok <- retry_step first ;;
  if negb ok then ret (NOT_ENOUGH_DATA, ABuffer None 0) else
  st <- getst ;;
  let c := cb (fst st) in
  let t := snd st in
  let ready := framesReady second true c in
  if bool_decide (ready ≠ 0) then
    let s := server c in
    let bufferEnd := u32 (serverBase c + mFrameCount t) in
    let bufferEnd := if bool_decide (loopEnd c < bufferEnd) then loopEnd c else bufferEnd in
    let framesReq := if bool_decide (framesReq > ready) then ready else framesReq in
    let framesReq := if bool_decide (framesReq > u32 (bufferEnd - s)) then u32 (bufferEnd - s) else framesReq in
    ret (NO_ERROR, ABuffer (Some (getBuffer s c t)) framesReq)
  else ret (NOT_ENOUGH_DATA, ABuffer None 0).

(** [RecordTrack::getNextBuffer]. *)
Definition RecordTrack_getNextBuffer (first : Z * Z) (buffer : abuffer) : M (shared * trackbase) (Z * abuffer) :=
  let framesReq := b_frameCount buffer in
  ok <- retry_step first ;;
  if negb ok then ret (NOT_ENOUGH_DATA, ABuffer None 0) else
  st <- getst ;;
  let c := cb (fst st) in
  let t := snd st in
  let framesAvail := framesAvailable_l (mFrameCount t) false c in
  if bool_decide (framesAvail ≠ 0) then
    let s := server c in
    let bufferEnd := u32 (serverBase c + mFrameCount t) in
    let framesReq := if bool_decide (framesReq > framesAvail) then framesAvail else framesReq in
    let framesReq := if bool_decide (framesReq > u32 (bufferEnd - s)) then u32 (bufferEnd - s) else framesReq in
    ret (NO_ERROR, ABuffer (Some (getBuffer s c t)) framesReq)
  else ret (NOT_ENOUGH_DATA, ABuffer None 0).
