(* ===== verification/AudioTrackStream.v ===== *)
(** * The stream of a track

    An application that writes with [AudioTrack::obtainBuffer] and [releaseBuffer],
    and the server that takes the frames with [Track::getNextBuffer] and
    [releaseBuffer], run at the same time.  Each of these calls is one step (it looks
    at one word of the other side, once); the bytes are copied one by one in between. *)

From Stdlib Require Import ZArith Lia.
From stdpp Require Import base tactics numbers option list relations.
From S2P Require Import Prelude Words Ring AudioTrackShared AudioTrackClient AudioTrackServer.

(** Where the application is: between calls, or filling the buffer [b] with [data], of
    which [put] bytes are there. *)
Inductive writing := WIdle | WFilling (b : ubuffer) (data : list Z) (put : nat).
(** Where the server is: between calls, or taking bytes from the buffer [b]. *)
Inductive reading := RIdle | RMixing (b : abuffer) (got : list Z).

(** Both sides, and for the record what was written and what was played. *)
Record tsys := TSys {
  t_shared : shared;
  t_client : client;
  t_base : trackbase;
  t_writing : writing;
  t_reading : reading;
  t_sent : list Z;
  t_played : list Z
}.

(** A service whose calls do not touch the buffer. *)
Definition quiet (status : Z) : service := Service (ret status) (ret status).

Inductive play : tsys → tsys → Prop :=
  | play_obtain sh cl tb rs sent played status frames waitCount err b sh' cl' data :
      0 ≤ frames < 2 ^ 32 → flag CBLK_INVALID (cb sh) = false →
      obtainBuffer (quiet status) [] (UBuffer 0 frames 0) waitCount (sh, cl) = Ret (err, b) (sh', cl') → 0 ≤ err →
      Z.of_nat (length data) = u_size b →
      play (TSys sh cl tb WIdle rs sent played) (TSys sh' cl' tb (WFilling b data 0) rs sent played)
  | play_put sh cl tb b data put x rs sent played :
      data !! put = Some x →
      play (TSys sh cl tb (WFilling b data put) rs sent played)
        (TSys (set_mem (<[Z.to_nat (u_raw b - mBuffers cl + Z.of_nat put) := x]> (mem sh)) sh) cl tb
          (WFilling b data (S put)) rs sent played)
  | play_publish sh cl tb b data rs sent played status sh' cl' :
      AudioTrackClient.releaseBuffer (quiet status) b (sh, cl) = Ret tt (sh', cl') →
      play (TSys sh cl tb (WFilling b data (length data)) rs sent played) (TSys sh' cl' tb WIdle rs (sent ++ data) played)
  | play_get sh cl tb ws sent played first second frames err b sh' tb' :
      0 ≤ frames < 2 ^ 32 →
      Track_getNextBuffer first second (ABuffer None frames) (sh, tb) = Ret (err, b) (sh', tb') →
      play (TSys sh cl tb ws RIdle sent played)
        (TSys sh' cl tb' ws (if bool_decide (err = NO_ERROR) then RMixing b [] else RIdle) sent played)
  | play_mix sh cl tb ws sent played b raw got x :
      AudioTrackShared.raw b = Some raw → Z.of_nat (length got) < b_frameCount b * mFrameSize tb →
      mem sh !! Z.to_nat (raw - mBuffer tb + Z.of_nat (length got)) = Some x →
      play (TSys sh cl tb ws (RMixing b got) sent played) (TSys sh cl tb ws (RMixing b (got ++ [x])) sent played)
  (** The mixer may release a part; the word that counts its frames must not become
      [UINT_MAX], which [stepServer] takes for the end of a loop. *)
  | play_release sh cl tb ws sent played b raw got k attempts b' sh' tb' :
      Z.of_nat (length got) = k * mFrameSize tb → u32 (server (cb sh) + k) ≠ UINT_MAX →
      AudioTrackServer.releaseBuffer attempts (ABuffer raw k) (sh, tb) = Ret b' (sh', tb') →
      play (TSys sh cl tb ws (RMixing b got) sent played) (TSys sh' cl tb' ws RIdle sent (played ++ got)).

(** ** The invariant *)

(** Both sides agree on the buffer, which lies within each address space. *)
Record geometry (fc fs : Z) (cl : client) (tb : trackbase) : Prop := {
  g_frames : 0 < fc;
  g_size : 0 < fs;
  g_client : 0 ≤ mBuffers cl ∧ mBuffers cl + fc * fs < 2 ^ 32 ∧ AudioTrackClient.mFrameCount cl = fc ∧ mFrameSizeAF cl = fs;
  g_server : 0 ≤ mBuffer tb ∧ mBuffer tb + fc * fs < 2 ^ 32 ∧ mFrameCount tb = fc ∧ mFrameSize tb = fs ∧
    mBufferEnd tb = mBuffer tb + fc * fs ∧ mIsOut tb = true
}.
(** No loop is set. *)
Definition streaming (c : cblk) : Prop := loopStart c = UINT_MAX ∧ loopEnd c = UINT_MAX ∧ loopCount c = 0.
(** Frames played whose step has not been made yet, for want of the lock. *)
Definition owed (tb : trackbase) : Z := if mStepServerFailed tb then mStepCount tb else 0.

Definition writing_ok (fc fs U S : Z) (cl : client) (w : writing) : Prop :=
  match w with
  | WIdle => True
  | WFilling b data put =>
      let n := u_frameCount b in
      u_raw b = mBuffers cl + U mod fc * fs ∧ 0 ≤ n ∧ n ≤ fc - (U - S) ∧ n ≤ fc - U mod fc ∧
      Z.of_nat (length data) = n * fs ∧ (put ≤ length data)%nat
  end.
Definition filled (w : writing) : list Z := match w with WIdle => [] | WFilling _ data put => take put data end.
Definition reading_ok (fc fs U S : Z) (tb : trackbase) (q : list Z) (r : reading) : Prop :=
  match r with
  | RIdle => True
  | RMixing b got =>
      let n := b_frameCount b in
      mStepServerFailed tb = false ∧ raw b = Some (mBuffer tb + S mod fc * fs) ∧ 0 ≤ n ≤ U - S ∧ n ≤ fc - S mod fc ∧
      got = take (length got) q ∧ Z.of_nat (length got) ≤ n * fs
  end.

Record tsys_ok (o fc fs U S : Z) (q : list Z) (t : tsys) : Prop := {
  p_geometry : geometry fc fs (t_client t) (t_base t);
  p_counts : counts o fc U S (cb (t_shared t));
  p_streaming : streaming (cb (t_shared t));
  p_len : Z.of_nat (length (mem (t_shared t))) = fc * fs;
  p_queue : Z.of_nat (length q) = (U - S) * fs;
  p_ring : ring (mem (t_shared t)) (S * fs) (q ++ filled (t_writing t));
  p_writing : writing_ok fc fs U S (t_client t) (t_writing t);
  p_reading : reading_ok fc fs U S (t_base t) q (t_reading t);
  p_owed : 0 ≤ owed (t_base t) ∧ owed (t_base t) ≤ U - S ∧ owed (t_base t) ≤ fc - S mod fc ∧
    (mStepServerFailed (t_base t) = true → u32 (o + (S + owed (t_base t))) ≠ UINT_MAX);
  p_stream : t_sent t = t_played t ++ drop (Z.to_nat (owed (t_base t) * fs)) q
}.

(** ** The calls *)

Lemma in_cb_run {T A} (m : M cblk A) a c (sh : shared) (t : T) :
  m (cb sh) = Ret a c → in_cb m (sh, t) = Ret a (set_cb c sh, t).
Proof. unfold in_cb, zoom. cbn [fst]. by intros ->. Qed.

Lemma counts_ext o fc U S c c' :
  user c' = user c → server c' = server c → userBase c' = userBase c → serverBase c' = serverBase c →
  counts o fc U S c → counts o fc U S c'.
Proof. intros E1 E2 E3 E4 []. split; congruence. Qed.

(** What an [obtainBuffer] that does not wait grants. *)
Lemma obtain_ok o fc fs U S sh cl tb v b waitCount err b' s' :
  geometry fc fs cl tb → counts o fc U S (cb sh) → streaming (cb sh) → flag CBLK_INVALID (cb sh) = false →
  0 ≤ u_frameCount b →
  obtainBuffer v [] b waitCount (sh, cl) = Ret (err, b') s' → 0 ≤ err →
  ∃ n, n = Z.min (u_frameCount b) (Z.min (fc - (U - S)) (fc - U mod fc)) ∧ 0 < fc - (U - S) ∧
    b' = UBuffer (mBuffers cl + U mod fc * fs) n (n * fs) ∧ s' = (set_cb (set_waitTimeMs 0 (cb sh)) sh, cl).
Proof.
  intros G K (Es & _) Hinv Hreq E Herr. destruct G as [Hfc Hfs (Hb0 & Hb1 & Ef & Ea) _].
  pose proof (k_size _ _ _ _ _ K) as Hsz. pose proof (k_order _ _ _ _ _ K) as Ho.
  pose proof (Z.mod_pos_bound U fc Hfc) as Hm.
  unfold obtainBuffer in E. rewrite bind_getst in E. cbn [fst snd] in E. rewrite Hinv, Ef in E.
  rewrite (framesAvailable_count _ _ _ _ _ K Es) in E.
  destruct (decide (fc - (U - S) = 0)) as [E0|E0].
  - exfalso. rewrite bool_decide_true in E by done. cbn [obtain_loop] in E.
    unfold bind at 1 2 in E. unfold getst in E. cbn [fst snd] in E.
    rewrite Ef, (framesAvailable_count _ _ _ _ _ K Es), E0 in E. rewrite bool_decide_true in E by done. cbn [negb] in E.
    destruct (mActive cl); cbn [negb] in E; [|injection E as <-; unfold NO_MORE_BUFFERS in Herr; lia].
    destruct (bool_decide (waitCount = 0)); [injection E as <-; unfold WOULD_BLOCK in Herr; lia|discriminate].
  - rewrite bool_decide_false in E by done. rewrite bind_ret in E. cbn beta iota in E.
    rewrite (bind_of _ (in_cb_run (modify (set_waitTimeMs 0)) tt _ sh cl eq_refl)), bind_getst in E. cbn [fst snd cb set_cb] in E.
    set (c' := set_waitTimeMs 0 (cb sh)) in *.
    assert (counts o fc U S c') as K' by (eapply counts_ext; [..|exact K]; done).
    injection E as E1 E2 E3. exists (Z.min (u_frameCount b) (Z.min (fc - (U - S)) (fc - U mod fc))).
    split; [done|]. split; [lia|]. split; [|by rewrite <-E3].
    rewrite Ea in E2. rewrite (buffer_address _ _ _ _ _ K') in E2 by done.
    assert (grant (u_frameCount b) (fc - (U - S)) c' cl = Z.min (u_frameCount b) (Z.min (fc - (U - S)) (fc - U mod fc))) as Eg.
    { unfold grant. rewrite Ef, (user_room _ _ _ _ _ K'). repeat case_bool_decide; lia. }
    rewrite Eg in E2. rewrite <-E2. f_equal. apply u32_small. nia.
Qed.

(** [releaseBuffer] advances [user]. *)
Lemma publish_ok o fc fs U S sh cl tb status b s' :
  geometry fc fs cl tb → counts o fc U S (cb sh) → streaming (cb sh) →
  0 ≤ u_frameCount b → u_frameCount b ≤ fc - (U - S) → u_frameCount b ≤ fc - U mod fc →
  AudioTrackClient.releaseBuffer (quiet status) b (sh, cl) = Ret tt s' →
  ∃ c', s' = (set_cb c' sh, cl) ∧ counts o fc (U + u_frameCount b) S c' ∧ streaming c'.
Proof.
  intros G K (Es1 & Es2 & Es3) Hn Ha Hr E. destruct G as [Hfc Hfs (Hb0 & Hb1 & Ef & Ea) _].
  unfold AudioTrackClient.releaseBuffer in E. rewrite bind_getst in E. cbn [fst snd] in E. rewrite Ef in E.
  destruct (stepUser_count _ _ _ _ _ K (u_frameCount b) Hn Ha Hr) as (c1 & E1 & K1 & L1 & L2 & L3).
  rewrite (bind_of _ (in_cb_run _ _ _ sh cl E1)) in E.
  assert (streaming c1) as Hs1 by (unfold streaming; by rewrite L1, L2, L3).
  destruct (bool_decide (u_frameCount b > 0)); [|injection E as <-; eauto].
  rewrite bind_getst in E. cbn [fst snd cb set_cb] in E.
  destruct (mActive cl && flag CBLK_DISABLED c1); [|injection E as <-; eauto].
  injection E as <-. eexists. split; [reflexivity|]. split; [|done].
  eapply counts_ext; [..|exact K1]; done.
Qed.

(** A step of the server that may fail. *)
Lemma server_step_ok o fc fs U S sh cl tb attempts :
  geometry fc fs cl tb → counts o fc U S (cb sh) → streaming (cb sh) →
  0 ≤ mStepCount tb ≤ U - S → mStepCount tb ≤ fc - S mod fc → u32 (o + (S + mStepCount tb)) ≠ UINT_MAX →
  (tryLock attempts = false ∧ step attempts (sh, tb) = Ret false (sh, set_mStepServerFailed true tb)) ∨
  (∃ c', step attempts (sh, tb) = Ret true (set_cb c' sh, tb) ∧ counts o fc U (S + mStepCount tb) c' ∧ streaming c' ∧
    tryLock attempts = true).
Proof.
  intros G K (Es1 & Es2 & Es3) Hn Hr Hmax. destruct G as [Hfc Hfs _ (Hb0 & Hb1 & Ef & Ea & Eend & Eout)].
  unfold step. rewrite bind_getst. cbn [snd]. rewrite Ef, Eout. destruct (tryLock attempts) eqn:El.
  - right. destruct (stepServer_count _ _ _ _ _ K attempts _ Es2 Hn Hr Hmax El) as (c1 & E1 & K1 & L1 & L2 & L3).
    rewrite (bind_of _ (in_cb_run _ _ _ sh tb E1)). exists c1. split; [done|]. split; [done|]. split; [|done].
    unfold streaming. by rewrite L1, L2, L3.
  - left. split; [done|].
    assert (stepServer attempts (mStepCount tb) fc true (cb sh) = Ret false (cb sh)) as E1
      by (unfold stepServer; by rewrite El).
    rewrite (bind_of _ (in_cb_run _ _ _ sh tb E1)). by destruct sh.
Qed.

Lemma set_cb_id sh : set_cb (cb sh) sh = sh.
Proof. by destruct sh. Qed.
Lemma failed_id tb : set_mStepServerFailed (mStepServerFailed tb) tb = tb.
Proof. by destruct tb. Qed.

(** The step that is owed is made, or not. *)
Lemma retry_ok o fc fs U S sh cl tb attempts :
  geometry fc fs cl tb → counts o fc U S (cb sh) → streaming (cb sh) →
  0 ≤ owed tb → owed tb ≤ U - S → owed tb ≤ fc - S mod fc →
  (mStepServerFailed tb = true → u32 (o + (S + owed tb)) ≠ UINT_MAX) →
  (retry_step attempts (sh, tb) = Ret false (sh, tb) ∧ tryLock attempts = false) ∨
  (∃ c', retry_step attempts (sh, tb) = Ret true (set_cb c' sh, set_mStepServerFailed false tb) ∧
    counts o fc U (S + owed tb) c' ∧ streaming c').
Proof.
  intros G K Hs Hp0 Hp1 Hp2 Hmax. unfold retry_step. rewrite bind_getst. cbn [snd].
  unfold owed in *. destruct (mStepServerFailed tb) eqn:Ef.
  - destruct (server_step_ok _ _ _ _ _ sh cl tb attempts G K Hs ltac:(lia) ltac:(lia) (Hmax eq_refl))
      as [[El E]|(c' & E & K' & Hs' & _)].
    + left. split; [|done]. rewrite (bind_of _ E). cbn. by rewrite <-Ef, failed_id.
    + right. exists c'. rewrite (bind_of _ E). cbn. done.
  - right. exists (cb sh). rewrite Z.add_0_r. by rewrite set_cb_id, <-Ef, failed_id.
Qed.

Lemma geometry_failed fc fs cl tb v : geometry fc fs cl tb → geometry fc fs cl (set_mStepServerFailed v tb).
Proof. intros []. by split. Qed.
Lemma geometry_count fc fs cl tb v : geometry fc fs cl tb → geometry fc fs cl (set_mStepCount v tb).
Proof. intros []. by split. Qed.

(** What the server is given, at the position [S]. *)
Lemma next_ok o fc fs U S c cl tb frames second :
  geometry fc fs cl tb → counts o fc U S c → streaming c → 0 ≤ frames →
  framesReady second true c ≠ 0 →
  let room := u32 (u32 (serverBase c + mFrameCount tb) - server c) in
  framesReady second true c = U - S ∧ room = fc - S mod fc ∧ getBuffer (server c) c tb = mBuffer tb + S mod fc * fs ∧
  bool_decide (loopEnd c < u32 (serverBase c + mFrameCount tb)) = false.
Proof.
  intros G K (Es1 & Es2 & Es3) Hf Hready. destruct G as [Hfc Hfs _ (Hb0 & Hb1 & Ef & Ea & Eend & Eout)].
  rewrite (framesReady_count _ _ _ _ _ K second Es2 Es1 Es3) in *. rewrite Ef.
  pose proof (Z.mod_pos_bound S fc Hfc) as Hm. split_and!.
  - by destruct (bool_decide _ && _).
  - apply (server_room _ _ _ _ _ K).
  - unfold getBuffer. rewrite Ea, (server_index _ _ _ _ _ K), (u32_small (_ * _)) by nia. apply u32_small. nia.
  - apply bool_decide_false. pose proof (u32_range (serverBase c + fc)). rewrite Es2. unfold UINT_MAX. lia.
Qed.

Lemma track_get_ok o fc fs U S sh cl tb first second frames err b s' :
  geometry fc fs cl tb → counts o fc U S (cb sh) → streaming (cb sh) →
  0 ≤ owed tb → owed tb ≤ U - S → owed tb ≤ fc - S mod fc →
  (mStepServerFailed tb = true → u32 (o + (S + owed tb)) ≠ UINT_MAX) → 0 ≤ frames →
  Track_getNextBuffer first second (ABuffer None frames) (sh, tb) = Ret (err, b) s' →
  (err = NOT_ENOUGH_DATA ∧ s' = (sh, tb) ∧ tryLock first = false) ∨
  (∃ c', s' = (set_cb c' sh, set_mStepServerFailed false tb) ∧ counts o fc U (S + owed tb) c' ∧ streaming c' ∧
    (err = NOT_ENOUGH_DATA ∧ (U = S + owed tb ∨ tryLock second = false) ∨
     err = NO_ERROR ∧ let S' := S + owed tb in
       b = ABuffer (Some (mBuffer tb + S' mod fc * fs)) (Z.min frames (Z.min (U - S') (fc - S' mod fc))) ∧ S' < U)).
Proof.
  intros G K Hs Hp0 Hp1 Hp2 Hmax Hfr E. unfold Track_getNextBuffer in E. cbn [b_frameCount] in E.
  destruct (retry_ok _ _ _ _ _ sh cl tb first G K Hs Hp0 Hp1 Hp2 Hmax) as [[Er El]|(c' & Er & K' & Hs')].
  - left. rewrite (bind_of _ Er) in E. injection E as <- <- <-. done.
  - right. rewrite (bind_of _ Er) in E. cbn [negb] in E. rewrite bind_getst in E. cbn [fst snd cb set_cb] in E.
    exists c'. set (S' := S + owed tb) in *.
    pose proof (next_ok _ _ _ _ _ c' cl _ frames second (geometry_failed _ _ _ _ false G) K' Hs' Hfr) as Hn. cbn zeta in Hn.
    destruct (decide (framesReady second true c' = 0)) as [E0|E0].
    + rewrite bool_decide_false in E by (intros H; by apply H). injection E as <- <- <-.
      split; [done|]. split; [done|]. split; [done|]. left. split; [done|].
      destruct Hs' as (Es1 & Es2 & Es3). rewrite (framesReady_count _ _ _ _ _ K' second Es2 Es1 Es3) in E0.
      destruct (tryLock second); [left|by right]. rewrite andb_false_r in E0. lia.
    + destruct (Hn E0) as (E1 & E2 & E3 & E4). rewrite bool_decide_true in E by done. rewrite E4, E1, E2, E3 in E.
      injection E as <- <- <-. split; [done|]. split; [done|]. split; [done|]. right. split; [done|].
      pose proof (k_order _ _ _ _ _ K'). split; [|lia]. f_equal. repeat case_bool_decide; lia.
Qed.

Lemma server_release_ok o fc fs U S sh cl tb attempts r k b' s' :
  geometry fc fs cl tb → counts o fc U S (cb sh) → streaming (cb sh) → mStepServerFailed tb = false →
  0 ≤ k ≤ U - S → k ≤ fc - S mod fc → u32 (o + (S + k)) ≠ UINT_MAX →
  releaseBuffer attempts (ABuffer r k) (sh, tb) = Ret b' s' →
  (s' = (sh, set_mStepServerFailed true (set_mStepCount k tb))) ∨
  (∃ c', s' = (set_cb c' sh, set_mStepCount k tb) ∧ counts o fc U (S + k) c' ∧ streaming c').
Proof.
  intros G K Hs Hf Hk Hr Hmax E. unfold releaseBuffer in E. cbn [b_frameCount] in E.
  assert (in_own (modify (set_mStepCount k)) (sh, tb) = Ret tt (sh, set_mStepCount k tb)) as E1 by done.
  rewrite (bind_of _ E1) in E.
  destruct (server_step_ok _ _ _ _ _ sh cl (set_mStepCount k tb) attempts (geometry_count _ _ _ _ k G) K Hs Hk Hr Hmax)
    as [[_ E2]|(c' & E2 & K' & Hs' & _)]; rewrite (bind_of _ E2) in E; injection E as <- <-; [by left|right; eauto].
Qed.

(** ** Each step keeps the invariant *)

(** The server is [p] frames further. *)
Lemma queue_advance (buf : list Z) S U p fs q d :
  ring buf (S * fs) (q ++ d) → Z.of_nat (length q) = (U - S) * fs → 0 ≤ p ≤ U - S → 0 < fs →
  ring buf ((S + p) * fs) (drop (Z.to_nat (p * fs)) q ++ d) ∧
  Z.of_nat (length (drop (Z.to_nat (p * fs)) q)) = (U - (S + p)) * fs.
Proof.
  intros Hr Hq Hp Hfs. rewrite length_drop. split; [|nia].
  rewrite <-(drop_app_le q d) by nia. replace ((S + p) * fs) with (S * fs + Z.of_nat (Z.to_nat (p * fs))) by nia.
  by apply ring_drop.
Qed.

(** Where byte [i] after the frame [x] is, in the round of [x]. *)
Lemma slot_index x i fc fs : 0 < fc → 0 < fs → 0 ≤ i < (fc - x mod fc) * fs → (x * fs + i) mod (fc * fs) = x mod fc * fs + i.
Proof.
  intros Hfc Hfs Hi. pose proof (Z.mod_pos_bound x fc Hfc).
  replace (x * fs + i) with (x mod fc * fs + i + (x / fc) * (fc * fs)).
  - rewrite Z.mod_add by nia. apply Z.mod_small. nia.
  - pose proof (Z.div_mod x fc ltac:(lia)) as E. transitivity ((fc * (x / fc) + x mod fc) * fs + i); [ring|].
    rewrite <-E. ring.
Qed.

(** The word of the server, at the position [S + k]. *)
Lemma server_word o fc U S c k : counts o fc U S c → u32 (server c + k) = u32 (o + (S + k)).
Proof. intros K. rewrite (k_server _ _ _ _ _ K). destruct (u32_eq (o + S)) as [i Ei]. apply (u32_cong _ _ i). lia. Qed.

Lemma writing_advance fc fs U S p cl w : 0 ≤ p → writing_ok fc fs U S cl w → writing_ok fc fs U (S + p) cl w.
Proof. intros Hp. destruct w as [|b data put]; [done|]. intros (H1 & H2 & H3 & H4 & H5 & H6). split_and!; try done; lia. Qed.

Ltac show_parts := cbn [t_shared t_client t_base t_writing t_reading t_sent t_played] in *.

Lemma put_ok o fc fs U S q sh cl tb b data put x rs sent played :
  data !! put = Some x →
  tsys_ok o fc fs U S q (TSys sh cl tb (WFilling b data put) rs sent played) →
  tsys_ok o fc fs U S q (TSys (set_mem (<[Z.to_nat (u_raw b - mBuffers cl + Z.of_nat put) := x]> (mem sh)) sh) cl tb
    (WFilling b data (Datatypes.S put)) rs sent played).
Proof.
  intros Ex [G K Hst Hlen Hq Hr Hw Hrd Hp Hs]. show_parts. pose proof Hw as (Eraw & Hn0 & Hn1 & Hn2 & Hd & Hput).
  pose proof (lookup_lt_Some _ _ _ Ex) as Hlt. pose proof (g_frames _ _ _ _ G) as Hfc. pose proof (g_size _ _ _ _ G) as Hfs.
  pose proof (Z.mod_pos_bound U fc Hfc) as Hm. cbn [filled] in Hr.
  set (n := u_frameCount b) in *.
  assert (length (q ++ take put data) = length q + put)%nat as Hl by (rewrite length_app, length_take; lia).
  pose proof (ring_snoc _ _ _ x Hr ltac:(nia)) as Hring. rewrite Hl in Hring.
  assert (put_at (mem sh) (S * fs + Z.of_nat (length q + put)) x = <[Z.to_nat (u_raw b - mBuffers cl + Z.of_nat put) := x]> (mem sh)) as Eput.
  { unfold put_at. f_equal. f_equal. rewrite Hlen, Eraw.
    replace (S * fs + Z.of_nat (length q + put)) with (U * fs + Z.of_nat put) by lia.
    rewrite slot_index by nia. lia. }
  rewrite Eput, <-app_assoc, <-take_S_r in Hring by done.
  split; show_parts; cbn [set_mem cb mem]; try done.
  by rewrite length_insert.
Qed.

Lemma publish_step_ok o fc fs U S q sh cl tb b (data : list Z) rs sent played c' :
  counts o fc (U + u_frameCount b) S c' → streaming c' →
  tsys_ok o fc fs U S q (TSys sh cl tb (WFilling b data (length data)) rs sent played) →
  tsys_ok o fc fs (U + u_frameCount b) S (q ++ data) (TSys (set_cb c' sh) cl tb WIdle rs (sent ++ data) played).
Proof.
  intros K' Hst' [G K Hst Hlen Hq Hr Hw Hrd Hp Hs]. show_parts. destruct Hw as (Eraw & Hn0 & Hn1 & Hn2 & Hd & Hput).
  pose proof (g_size _ _ _ _ G) as Hfs. cbn [filled] in Hr. rewrite firstn_all in Hr. set (n := u_frameCount b) in *.
  destruct Hp as (Hp1 & Hp2 & Hp3 & Hp4).
  split; show_parts; cbn [set_cb cb mem filled writing_ok]; try done.
  - rewrite length_app. lia.
  - by rewrite app_nil_r.
  - destruct rs as [|rb got]; [done|]. destruct Hrd as (H1 & H2 & H3 & H4 & H5 & H6). cbn [reading_ok].
    split_and!; try done; try lia. rewrite take_app_le; [done|]. set (nr := b_frameCount rb) in *. nia.
  - split_and!; try done; lia.
  - rewrite drop_app_le by nia. by rewrite Hs, app_assoc.
Qed.

Lemma release_step_ok o fc fs U S q sh cl tb ws sent played b r (got : list Z) k attempts b' sh' tb' :
  Z.of_nat (length got) = k * mFrameSize tb → u32 (server (cb sh) + k) ≠ UINT_MAX →
  releaseBuffer attempts (ABuffer r k) (sh, tb) = Ret b' (sh', tb') →
  tsys_ok o fc fs U S q (TSys sh cl tb ws (RMixing b got) sent played) →
  ∃ S' q', tsys_ok o fc fs U S' q' (TSys sh' cl tb' ws RIdle sent (played ++ got)).
Proof.
  intros Hk Hmax E [G K Hst Hlen Hq Hr Hw Hrd Hp Hs]. show_parts. destruct Hrd as (Hf & _ & H3 & H4 & H5 & H6).
  pose proof (g_size _ _ _ _ G) as Hfs. pose proof (g_server _ _ _ _ G) as (_ & _ & _ & Efs & _). rewrite Efs in Hk.
  rewrite (server_word _ _ _ _ _ _ K) in Hmax. set (n := b_frameCount b) in *.
  assert (0 ≤ k ≤ n) as Hkn by nia.
  assert (owed tb = 0) as Eo by (unfold owed; by rewrite Hf). rewrite Eo in Hs. rewrite Z.mul_0_l, drop_0 in Hs.
  assert (q = got ++ drop (Z.to_nat (k * fs)) q) as Eq by (rewrite H5, <-Hk, Nat2Z.id; by rewrite take_drop).
  destruct (server_release_ok _ _ _ _ _ sh cl tb attempts r k b' _ G K Hst Hf ltac:(lia) ltac:(lia) Hmax E)
    as [E'|(c' & E' & K' & Hst')]; injection E' as -> ->.
  - exists S, q. split; show_parts; try done.
    + by apply geometry_failed, geometry_count.
    + cbn. split_and!; try done; lia.
    + cbn. by rewrite Hs, <-app_assoc, <-Eq.
  - exists (S + k), (drop (Z.to_nat (k * fs)) q).
    destruct (queue_advance _ S U k fs q _ Hr Hq ltac:(lia) Hfs) as [Hr' Hq'].
    assert (owed (set_mStepCount k tb) = 0) as Eo' by (unfold owed; cbn; by rewrite Hf).
    pose proof (k_order _ _ _ _ _ K'). pose proof (Z.mod_pos_bound (S + k) fc (g_frames _ _ _ _ G)).
    split; show_parts; cbn [set_cb cb mem]; try done.
    + by apply geometry_count.
    + apply writing_advance; [lia|done].
    + rewrite Eo'. split_and!; try lia. cbn. by rewrite Hf.
    + rewrite Eo', Z.mul_0_l, drop_0. by rewrite Hs, <-app_assoc, <-Eq.
Qed.

Lemma get_step_ok o fc fs U S q sh cl tb ws sent played first second frames err b sh' tb' :
  0 ≤ frames → Track_getNextBuffer first second (ABuffer None frames) (sh, tb) = Ret (err, b) (sh', tb') →
  tsys_ok o fc fs U S q (TSys sh cl tb ws RIdle sent played) →
  ∃ S' q', tsys_ok o fc fs U S' q'
    (TSys sh' cl tb' ws (if bool_decide (err = NO_ERROR) then RMixing b [] else RIdle) sent played).
Proof.
  intros Hfr E [G K Hst Hlen Hq Hr Hw Hrd (Hp1 & Hp2 & Hp3 & Hp4) Hs]. show_parts. pose proof (g_size _ _ _ _ G) as Hfs.
  destruct (track_get_ok _ _ _ _ _ sh cl tb first second frames err b _ G K Hst Hp1 Hp2 Hp3 Hp4 Hfr E)
    as [(-> & E' & _)|(c' & E' & K' & Hst' & Hcase)]; injection E' as -> ->.
  - exists S, q. split; show_parts; done.
  - set (p := owed tb) in *. exists (S + p), (drop (Z.to_nat (p * fs)) q).
    destruct (queue_advance _ S U p fs q _ Hr Hq ltac:(lia) Hfs) as [Hr' Hq'].
    assert (owed (set_mStepServerFailed false tb) = 0) as Eo' by done.
    pose proof (k_order _ _ _ _ _ K'). pose proof (Z.mod_pos_bound (S + p) fc (g_frames _ _ _ _ G)).
    split; show_parts; cbn [set_cb cb mem]; try done.
    + by apply geometry_failed.
    + apply writing_advance; [lia|done].
    + destruct Hcase as [(-> & _)|(-> & -> & Hlt)]; [done|]. rewrite bool_decide_true by done. cbn [reading_ok b_frameCount raw].
      split_and!; try done; try lia. cbn. nia.
    + rewrite Eo'. split_and!; try lia. done.
Qed.

Lemma play_ok t t' : play t t' → ∀ o fc fs U S q, tsys_ok o fc fs U S q t → ∃ U' S' q', tsys_ok o fc fs U' S' q' t'.
Proof.
  intros Hstep o fc fs U S q Hok. destruct Hstep as
    [sh cl tb rs sent played status frames waitCount err b sh' cl' data Hfr Hinv E Herr Hd
    |sh cl tb b data put x rs sent played Ex
    |sh cl tb b data rs sent played status sh' cl' E
    |sh cl tb ws sent played first second frames err b sh' tb' Hfr E
    |sh cl tb ws sent played b r got x Eraw Hlt Ex
    |sh cl tb ws sent played b r got k attempts b' sh' tb' Hk Hmax E].
  - pose proof Hok as [G K Hst Hlen Hq Hr Hw Hrd Hp Hs]. show_parts.
    destruct (obtain_ok _ _ _ _ _ sh cl tb _ (UBuffer 0 frames 0) waitCount err b _ G K Hst Hinv (proj1 Hfr) E Herr) as (n & En & Hpos & -> & E').
    injection E' as -> ->. cbn [u_frameCount u_size] in *. pose proof (Z.mod_pos_bound U fc (g_frames _ _ _ _ G)).
    pose proof (g_size _ _ _ _ G). exists U, S, q. split; show_parts; cbn [set_cb cb mem]; try done.
    + eapply counts_ext; [..|exact K]; done.
    + cbn [writing_ok u_frameCount u_raw]. split_and!; try done; lia.
  - exists U, S, q. by apply put_ok.
  - pose proof Hok as [G K Hst _ _ _ Hw _ _ _]. show_parts. destruct Hw as (_ & Hn0 & Hn1 & Hn2 & _).
    destruct (publish_ok _ _ _ _ _ sh cl tb status b _ G K Hst Hn0 Hn1 Hn2 E) as (c' & E' & K' & Hst'). injection E' as -> ->.
    exists (U + u_frameCount b), S, (q ++ data). by apply publish_step_ok.
  - destruct (get_step_ok _ _ _ _ _ _ _ _ _ _ _ _ _ _ _ _ _ _ _ (proj1 Hfr) E Hok) as (S' & q' & Hok'). eauto.
  - exists U, S, q. pose proof Hok as [G K Hst Hlen Hq Hr Hw Hrd Hp Hs]. split; show_parts; try done.
    destruct Hrd as (H1 & H2 & H3 & H4 & H5 & H6). pose proof (g_size _ _ _ _ G) as Hfs.
    pose proof (g_server _ _ _ _ G) as (_ & _ & _ & Efs & _). rewrite Efs in Hlt.
    set (n := b_frameCount b) in *. pose proof (Z.mod_pos_bound S fc (g_frames _ _ _ _ G)) as Hm.
    assert (q !! length got = Some x) as Eq.
    { rewrite <-(lookup_app_l q (filled ws)) by nia.
      rewrite <-(ring_at _ _ _ Hr) by (rewrite length_app; nia). rewrite <-Ex. f_equal. f_equal.
      assert (r = mBuffer tb + S mod fc * fs) as -> by congruence. rewrite Hlen.
      rewrite slot_index by nia. lia. }
    cbn [reading_ok]. fold n. rewrite length_app. cbn [length].
    split_and!; try done; try lia. rewrite Nat.add_1_r, (take_S_r _ _ _ Eq). by rewrite <-H5.
  - destruct (release_step_ok _ _ _ _ _ _ _ _ _ _ _ _ _ _ _ _ _ _ _ _ Hk Hmax E Hok) as (S' & q' & Hok'). eauto.
Qed.

(** ** The stream *)

(** The block of a new track, with both counts at [o] ([restoreTrack_l] starts them
    where those of the lost track were). *)
Definition started (o fc : Z) (c0 : cblk) : cblk :=
  set_user o (set_server o (set_userBase o (set_serverBase o (TrackBase_cblk fc false c0)))).

Lemma stream_start_ok o fc fs buf c0 m cl :
  0 ≤ o < 2 ^ 32 → 0 < fc ≤ 2 ^ 31 → 0 < fs → 0 ≤ buf ∧ buf + fc * fs < 2 ^ 32 →
  0 ≤ mBuffers cl ∧ mBuffers cl + fc * fs < 2 ^ 32 ∧ AudioTrackClient.mFrameCount cl = fc ∧ mFrameSizeAF cl = fs →
  Z.of_nat (length m) = fc * fs →
  tsys_ok o fc fs 0 0 [] (TSys (Shared (started o fc c0) m) cl (TrackBase buf fs fc true) WIdle RIdle [] []).
Proof.
  intros Ho Hfc Hfs [Hb1 Hb2] Hcl Hm. split; show_parts; cbn [cb mem]; try done.
  - split; [lia|done|done|]. cbn. split_and!; try done. apply u32_small. nia.
  - split; cbn; try lia; rewrite ?Z.mod_0_l, ?Z.sub_diag, ?Z.add_0_r by lia; symmetry; by apply u32_small.
  - apply ring_nil.
  - unfold owed. cbn [TrackBase mStepServerFailed]. rewrite Z.mod_0_l by lia. split_and!; try lia.
Qed.

(** The mixer is never refused while there are frames and both locks can be had. *)
Lemma get_succeeds o fc fs U S q sh cl tb ws sent played first second frames :
  tsys_ok o fc fs U S q (TSys sh cl tb ws RIdle sent played) → 0 < frames → tryLock first = true → tryLock second = true →
  drop (Z.to_nat (owed tb * fs)) q ≠ [] →
  ∃ b s', Track_getNextBuffer first second (ABuffer None frames) (sh, tb) = Ret (NO_ERROR, b) s' ∧ 0 < b_frameCount b.
Proof.
  intros [G K Hst Hlen Hq Hr Hw Hrd (Hp1 & Hp2 & Hp3 & Hp4) Hs] Hfr Hl1 Hl2 Hne. show_parts.
  pose proof (g_size _ _ _ _ G) as Hfs. pose proof (g_frames _ _ _ _ G) as Hfc.
  assert (∃ err b s', Track_getNextBuffer first second (ABuffer None frames) (sh, tb) = Ret (err, b) s') as (err & b & s' & E).
  { unfold Track_getNextBuffer.
    destruct (retry_ok _ _ _ _ _ sh cl tb first G K Hst Hp1 Hp2 Hp3 Hp4) as [[Er _]|(c' & Er & _)]; rewrite (bind_of _ Er);
      cbn [negb]; [by eexists _, _, _|]. rewrite bind_getst. destruct (bool_decide _); by eexists _, _, _. }
  assert (U ≠ S + owed tb) as Hneq.
  { intros Eu. apply Hne. apply length_zero_iff_nil. rewrite length_drop. nia. }
  exists b, s'. destruct (track_get_ok _ _ _ _ _ sh cl tb first second frames err b s' G K Hst Hp1 Hp2 Hp3 Hp4 ltac:(lia) E)
    as [(_ & _ & ?)|(c' & _ & _ & _ & [(_ & [?|?])|(-> & -> & Hlt)])]; try congruence.
  split; [done|]. cbn [b_frameCount]. pose proof (Z.mod_pos_bound (S + owed tb) fc Hfc). lia.
Qed.

(** The pointer that the server gets passes the assertion of [getBuffer]. *)
Lemma assert_ok fc fs U S c cl tb o n :
  geometry fc fs cl tb → counts o fc U S c → 0 ≤ n ≤ fc - S mod fc → getBuffer_assert (server c) n c tb = true.
Proof.
  intros G K Hn. destruct G as [Hfc Hfs _ (Hb0 & Hb1 & Ef & Ea & Eend & Eout)]. pose proof (Z.mod_pos_bound S fc Hfc).
  unfold getBuffer_assert, getBuffer. rewrite Ea, (server_index _ _ _ _ _ K), (u32_small (S mod fc * fs)) by nia.
  rewrite (u32_small (mBuffer tb + _)), (u32_small (n * fs)), (u32_small (_ + n * fs)) by nia. rewrite Eend.
  rewrite !bool_decide_false by nia. done.
Qed.

(** C2: a track that streams (no loop is set), whose application asks for buffers without
    waiting, and whose server never releases frames so that its 32-bit count becomes
    [UINT_MAX] ([stepServer] takes that for the end of a loop: [stepServer_uint_max]):
    what the server plays is what the application wrote, in order, each byte once,
    none of a buffer that is still being filled, however the calls of the two sides
    interleave, however often the words that count the frames wrap around past that
    value, and however often the server fails to take the lock. There is never more between them than the
    buffer holds; the pointers they get stay inside it, also by the assertion that the
    builds leave out; and the server is refused only when nothing is there or a lock
    is not to be had. *)
Theorem Track_stream (o fc fs buf : Z) (c0 : cblk) (m : list Z) (cl : client) (t : tsys)
    (Ho : 0 ≤ o < 2 ^ 32) (Hfc : 0 < fc ≤ 2 ^ 31) (Hfs : 0 < fs) (Hbuf : 0 ≤ buf ∧ buf + fc * fs < 2 ^ 32)
    (Hcl : 0 ≤ mBuffers cl ∧ mBuffers cl + fc * fs < 2 ^ 32 ∧ AudioTrackClient.mFrameCount cl = fc ∧ mFrameSizeAF cl = fs)
    (Hm : Z.of_nat (length m) = fc * fs)
    (Hreach : rtc play (TSys (Shared (started o fc c0) m) cl (TrackBase buf fs fc true) WIdle RIdle [] []) t) :
  ∃ q, t_sent t = t_played t ++ q ∧ Z.of_nat (length q) ≤ fc * fs ∧
    (∀ b data put, t_writing t = WFilling b data put →
      mBuffers (t_client t) ≤ u_raw b ∧ u_raw b + Z.of_nat (length data) ≤ mBuffers (t_client t) + fc * fs) ∧
    (∀ b got, t_reading t = RMixing b got →
      got = take (length got) q ∧
      getBuffer_assert (server (cb (t_shared t))) (b_frameCount b) (cb (t_shared t)) (t_base t) = true ∧
      (Z.of_nat (length got) < b_frameCount b * fs →
       ∃ x t', q !! length got = Some x ∧ play t t' ∧ t_reading t' = RMixing b (got ++ [x]))) ∧
    (∀ first second frames, t_reading t = RIdle → q ≠ [] → 0 < frames → tryLock first = true → tryLock second = true →
      ∃ b s', Track_getNextBuffer first second (ABuffer None frames) (t_shared t, t_base t) = Ret (NO_ERROR, b) s' ∧
        0 < b_frameCount b).
Proof.
  assert (∃ U S q, tsys_ok o fc fs U S q t) as (U & S & q & Hok).
  { eapply (rtc_ind_r (λ t, ∃ U S q, tsys_ok o fc fs U S q t)); [| |exact Hreach].
    - exists 0, 0, []. by apply stream_start_ok.
    - intros t1 t2 _ Hstep (U & S & q & Hok). by eapply play_ok. }
  pose proof Hok as [G K Hst Hlen Hq Hr Hw Hrd (Hp1 & Hp2 & Hp3 & Hp4) Hs].
  exists (drop (Z.to_nat (owed (t_base t) * fs)) q). split; [done|].
  pose proof (k_order _ _ _ _ _ K) as Hord. split; [rewrite length_drop; nia|]. split_and!.
  - intros b data put Ew. rewrite Ew in Hw. destruct Hw as (-> & Hn0 & Hn1 & Hn2 & Hd & _).
    pose proof (Z.mod_pos_bound U fc ltac:(lia)). set (n := u_frameCount b) in *. nia.
  - intros b got Er. rewrite Er in Hrd. destruct Hrd as (H1 & H2 & H3 & H4 & H5 & H6).
    assert (owed (t_base t) = 0) as -> by (unfold owed; by rewrite H1). rewrite Z.mul_0_l, drop_0. split; [done|].
    split; [eapply assert_ok; [done|done|lia]|]. intros Hlt. set (n := b_frameCount b) in *.
    destruct (lookup_lt_is_Some_2 q (length got)) as [x Ex]; [nia|]. exists x.
    destruct t as [sh cl' tb ws rs sent played]. show_parts. subst rs.
    exists (TSys sh cl' tb ws (RMixing b (got ++ [x])) sent played). split; [done|]. split; [|done].
    pose proof (g_server _ _ _ _ G) as (_ & _ & _ & Efs & _).
    eapply play_mix; [done|by rewrite Efs|]. rewrite <-Ex, <-(lookup_app_l q (filled ws)) by nia.
    rewrite <-(ring_at _ _ _ Hr) by (rewrite length_app; nia). f_equal. f_equal. rewrite Hlen.
    rewrite slot_index by nia. lia.
  - intros first second frames Er Hne Hfr Hl1 Hl2. destruct t as [sh cl' tb ws rs sent played]. show_parts. subst rs.
    by eapply get_succeeds.
Qed.

(** ** Where the counts go wrong *)

(** A count of the server that becomes [UINT_MAX] is taken for the end of a loop,
    though none is set: the count of loops becomes negative, and from then on an empty
    buffer is said to hold [UINT_MAX] frames. *)
Lemma stepServer_uint_max :
  let c := started (2 ^ 32 - 9) 8 (audio_track_cblk_t (Cblk 0 0 0 0 0 0 0 0 0 0 0 3000 0 0)) in
  ∃ c1 c2, stepUser 8 8 true c = Ret UINT_MAX c1 ∧ stepServer (0, 0) 8 8 true c1 = Ret true c2 ∧
    server c2 = user c2 ∧ loopCount c2 = -1 ∧ framesReady (0, 0) true c2 = UINT_MAX.
Proof. intros c. eexists _, _. split; [vm_compute; reflexivity|]. split; [vm_compute; reflexivity|]. by vm_compute. Qed.

(** A client that records: when the server's count has wrapped and its own has not,
    releasing 2 of the 12 frames that are ready drops them all. *)
Lemma stepUser_record_wrap :
  let c := set_server 4 (started (2 ^ 32 - 8) 16 (audio_track_cblk_t (Cblk 0 0 0 0 0 0 0 0 0 0 0 3000 0 0))) in
  framesReady (0, 0) false c = 12 ∧
  ∃ c', stepUser 2 16 false c = Ret 4 c' ∧ framesReady (0, 0) false c' = 0.
Proof. split; [vm_compute; reflexivity|]. eexists. split; [vm_compute; reflexivity|]. by vm_compute. Qed.

(** A loop that [setLoop_l] accepts, from frame 6 to frame 12 of a buffer of 8: when the
    server goes back to its start, the base of its round stays at 8, and the next frames
    it is given lie before the buffer. The assertion in [getBuffer] would see it. *)
Definition after {S A} (m : M S A) (s : S) : S := match m s with Ret _ s' => s' | Crash _ => s end.
Lemma loop_before_buffer :
  let c0 := started 0 8 (audio_track_cblk_t (Cblk 0 0 0 0 0 0 0 0 0 0 0 3000 0 0)) in
  let c1 := after (stepUser 4 8 true) (after (stepServer (0, 0) 6 8 true) (after (stepUser 8 8 true) c0)) in
  let t := TrackBase 8192 1 8 true in
  ∃ c2 cl c3 sh, setLoop_l 6 12 2 (Shared c1 (replicate 8 0), Client 4096 8 1 1 true false false false 0 false 0 0) =
      Ret NO_ERROR (Shared c2 (replicate 8 0), cl) ∧
    c3 = after (stepServer (0, 0) 4 8 true) (after (stepServer (0, 0) 2 8 true) c2) ∧
    Track_getNextBuffer (0, 0) (0, 0) (ABuffer None 4) (Shared c3 (replicate 8 0), t) =
      Ret (NO_ERROR, ABuffer (Some 8190) 4) sh ∧
    getBuffer_assert (server c3) 4 c3 t = false.
Proof.
  intros c0 c1 t. eexists _, _, _, _. split; [vm_compute; reflexivity|]. split; [vm_compute; reflexivity|].
  split; vm_compute; reflexivity.
Qed.

(** [AudioRecord::read] of a number of bytes that is not a whole number of frames: at
    the end it asks for no frames, gets none, and asks again, as long as there is a
    frame in the buffer. *)
Section read_odd.
Let cl : client := Client 4096 16 4 4 true false false false 0 false 0 0.
(** One of eight frames has been read. *)
Let sh : shared := Shared (Cblk 1 8 0 0 16 UINT_MAX UINT_MAX 0 268439552 0 0 1000 0 0) (replicate 64 0).

Lemma read_round rounds got : read_loop ([] :: rounds) 2 got (sh, cl) = read_loop rounds 2 (got ++ []) (sh, cl).
Proof.
  cbn [read_loop]. rewrite bind_getst. cbn [snd].
  assert (record_obtainBuffer [] (UBuffer 0 (2 / AudioTrackClient.mFrameSize cl) 0) (2 * MAX_RUN_TIMEOUT_MS / WAIT_PERIOD_MS)
    (sh, cl) = Ret (0, UBuffer 4100 0 0) (sh, cl)) as E by (vm_compute; reflexivity).
  rewrite (bind_of _ E). rewrite bool_decide_false by lia. rewrite bind_getst. cbn [u_raw u_size].
  rewrite slice_ok by (cbn; lia). rewrite bind_deref. cbn [Z.to_nat take].
  assert (record_releaseBuffer (UBuffer 4100 0 0) (sh, cl) = Ret tt (sh, cl)) as E' by (vm_compute; reflexivity).
  rewrite (bind_of _ E'). change (u32 (2 - 0)) with 2. by rewrite bool_decide_true by lia.
Qed.
Lemma read_never_returns rounds : ∃ sh0, AudioTrackShared.framesReady (0, 0) false (cb sh0) = 8 ∧
  read (replicate rounds []) 6 (sh0, cl) = Crash CrashFuel.
Proof.
  exists (Shared (set_server 8 (started 0 16 (audio_track_cblk_t (Cblk 0 0 0 0 0 0 0 0 0 0 0 3000 0 0)))) (replicate 64 0)).
  split; [reflexivity|]. set (sh0 := Shared _ _). unfold read. rewrite bool_decide_false by (vm_compute; congruence).
  assert (∀ n got, read_loop (replicate n []) 2 got (sh, cl) = Crash CrashFuel) as H.
  { induction n as [|n IH]; intros got; [done|]. cbn [replicate]. by rewrite read_round. }
  destruct rounds as [|n]; [done|]. cbn [replicate read_loop]. rewrite bind_getst. cbn [snd].
  assert (record_obtainBuffer [] (UBuffer 0 (6 / AudioTrackClient.mFrameSize cl) 0) (2 * MAX_RUN_TIMEOUT_MS / WAIT_PERIOD_MS)
    (sh0, cl) = Ret (0, UBuffer 4096 1 4) (set_cb (set_bufferTimeoutMs 1000 (cb sh0)) sh0, cl)) as E by (vm_compute; reflexivity).
  rewrite (bind_of _ E). rewrite bool_decide_false by lia. rewrite bind_getst. cbn [u_raw u_size].
  rewrite slice_ok by (cbn; lia). rewrite bind_deref.
  assert (record_releaseBuffer (UBuffer 4096 1 4) (set_cb (set_bufferTimeoutMs 1000 (cb sh0)) sh0, cl) = Ret tt (sh, cl)) as E'
    by (vm_compute; reflexivity).
  rewrite (bind_of _ E'). change (u32 (6 - 4)) with 2. rewrite bool_decide_true by lia. apply H.
Qed.
End read_odd.

(** ** A run *)

Module TrackDemo.
Definition cl : client := Client 4096 4 1 1 true false false false 0 false 0 0.
Definition st0 : tsys := TSys (Shared (started (2 ^ 32 - 2) 4 (Cblk 0 0 0 0 0 0 0 0 0 0 0 3000 0 0)) [0; 0; 0; 0]) cl
  (TrackBase 8192 1 4 true) WIdle RIdle [] [].

(** Three frames are written across the wrap of the words, two of them are played;
    the lock is not to be had at the release, and is later. *)
Lemma run : ∃ t, rtc play st0 t ∧ t_sent t = [7; 8; 9] ∧ t_played t = [7; 8] ∧ server (cb (t_shared t)) = 0.
Proof.
  eexists. split.
  - eapply rtc_l; [eapply (play_obtain _ _ _ _ _ _ 0 3 (-1) _ _ _ _ [7; 8; 9]); [lia|reflexivity|vm_compute; reflexivity|lia|reflexivity]|].
    do 3 (eapply rtc_l; [by eapply play_put|]).
    eapply rtc_l; [eapply (play_publish _ _ _ _ [7; 8; 9] _ _ _ 0); vm_compute; reflexivity|].
    eapply rtc_l; [eapply (play_get _ _ _ _ _ _ (0, 0) (0, 0) 2); [lia|vm_compute; reflexivity]|].
    do 2 (eapply rtc_l; [eapply play_mix; [reflexivity|reflexivity|reflexivity]|]).
    eapply rtc_l; [eapply (play_release _ _ _ _ _ _ _ None _ 2 (- EBUSY, - EBUSY)); [reflexivity|by vm_compute|vm_compute; reflexivity]|].
    eapply rtc_l; [eapply (play_get _ _ _ _ _ _ (- EBUSY, 0) (0, 0) 2); [lia|vm_compute; reflexivity]|].
    apply rtc_refl.
  - split_and!; reflexivity.
Qed.

Lemma Track_stream_witness : ∃ t q, t_sent t = [7; 8; 9] ∧ t_played t = [7; 8] ∧ t_sent t = t_played t ++ q ∧
  Z.of_nat (length q) ≤ 4 * 1.
Proof.
  destruct run as (t & Hrun & Hs & Hp & _).
  destruct (Track_stream (2 ^ 32 - 2) 4 1 8192 (Cblk 0 0 0 0 0 0 0 0 0 0 0 3000 0 0) [0; 0; 0; 0] cl t) as (q & Hq & Hl & _).
  - lia.
  - lia.
  - lia.
  - lia.
  - cbn. lia.
  - reflexivity.
  - exact Hrun.
  - exists t, q. by split_and!.
Defined.
End TrackDemo.
