(* ===== verification/TrackLife.v ===== *)
(** * The life of a track

    [libs/audioflinger/Tracks.cpp], [Threads.cpp]: the states of a playing track, the
    calls of the application that change them ([start], [stop], [pause], [flush],
    [destroy]), and what the thread of the mixer does with an active track in each of
    its rounds ([prepareTracks_l]): a normal track is mixed by that thread, a fast one
    by the fast mixer, which is told which tracks to play by a mask of bits. *)

From Stdlib Require Import ZArith Lia.
From stdpp Require Import base tactics numbers option list relations.
From S2P Require Import Prelude Words AudioTrackShared AudioTrackServer.

Definition kMaxTrackRetries : Z := 50.
Definition kMaxTrackStartupRetries : Z := 50.
Definition ALREADY_EXISTS : Z := - 17.
Inductive filling := FS_INVALID | FS_FILLING | FS_FILLED | FS_ACTIVE.
#[export] Instance filling_eq : EqDecision filling.
Proof. solve_decision. Defined.

(** [class Track], with what its thread keeps of it: [active], whether it is in
    [mActiveTracks]; [inMask], whether its bit is set in the mask of the fast mixer;
    [removed], how often [removeTrack_l] has been called for it. *)
Record track := Track_ {
  base : trackbase;
  mFillingUpStatus : filling;
  mRetryCount : Z;
  mSharedBuffer : bool;
  mResetDone : bool;
  mPresentationCompleteFrames : Z;
  mFast : bool;
  mOutput : bool;
  mUnderrunCount : Z;
  mIsInvalid : bool;
  mSyncEvents : list Z;
  active : bool;
  inMask : bool;
  removed : nat
}.
Definition set_base (v : trackbase) (x : track) : track :=
  Track_ v (mFillingUpStatus x) (mRetryCount x) (mSharedBuffer x) (mResetDone x) (mPresentationCompleteFrames x)
    (mFast x) (mOutput x) (mUnderrunCount x) (mIsInvalid x) (mSyncEvents x) (active x) (inMask x) (removed x).
Definition set_mFillingUpStatus (v : filling) (x : track) : track :=
  Track_ (base x) v (mRetryCount x) (mSharedBuffer x) (mResetDone x) (mPresentationCompleteFrames x) (mFast x)
    (mOutput x) (mUnderrunCount x) (mIsInvalid x) (mSyncEvents x) (active x) (inMask x) (removed x).
Definition set_mRetryCount (v : Z) (x : track) : track :=
  Track_ (base x) (mFillingUpStatus x) v (mSharedBuffer x) (mResetDone x) (mPresentationCompleteFrames x) (mFast
    x) (mOutput x) (mUnderrunCount x) (mIsInvalid x) (mSyncEvents x) (active x) (inMask x) (removed x).
Definition set_mSharedBuffer (v : bool) (x : track) : track :=
  Track_ (base x) (mFillingUpStatus x) (mRetryCount x) v (mResetDone x) (mPresentationCompleteFrames x) (mFast
    x) (mOutput x) (mUnderrunCount x) (mIsInvalid x) (mSyncEvents x) (active x) (inMask x) (removed x).
Definition set_mResetDone (v : bool) (x : track) : track :=
  Track_ (base x) (mFillingUpStatus x) (mRetryCount x) (mSharedBuffer x) v (mPresentationCompleteFrames x)
    (mFast x) (mOutput x) (mUnderrunCount x) (mIsInvalid x) (mSyncEvents x) (active x) (inMask x) (removed x).
Definition set_mPresentationCompleteFrames (v : Z) (x : track) : track :=
  Track_ (base x) (mFillingUpStatus x) (mRetryCount x) (mSharedBuffer x) (mResetDone x) v (mFast x) (mOutput x)
    (mUnderrunCount x) (mIsInvalid x) (mSyncEvents x) (active x) (inMask x) (removed x).
Definition set_mFast (v : bool) (x : track) : track :=
  Track_ (base x) (mFillingUpStatus x) (mRetryCount x) (mSharedBuffer x) (mResetDone x)
    (mPresentationCompleteFrames x) v (mOutput x) (mUnderrunCount x) (mIsInvalid x) (mSyncEvents x) (active x)
    (inMask x) (removed x).
Definition set_mOutput (v : bool) (x : track) : track :=
  Track_ (base x) (mFillingUpStatus x) (mRetryCount x) (mSharedBuffer x) (mResetDone x)
    (mPresentationCompleteFrames x) (mFast x) v (mUnderrunCount x) (mIsInvalid x) (mSyncEvents x) (active x)
    (inMask x) (removed x).
Definition set_mUnderrunCount (v : Z) (x : track) : track :=
  Track_ (base x) (mFillingUpStatus x) (mRetryCount x) (mSharedBuffer x) (mResetDone x)
    (mPresentationCompleteFrames x) (mFast x) (mOutput x) v (mIsInvalid x) (mSyncEvents x) (active x) (inMask x)
    (removed x).
Definition set_mIsInvalid (v : bool) (x : track) : track :=
  Track_ (base x) (mFillingUpStatus x) (mRetryCount x) (mSharedBuffer x) (mResetDone x)
    (mPresentationCompleteFrames x) (mFast x) (mOutput x) (mUnderrunCount x) v (mSyncEvents x) (active x) (inMask
    x) (removed x).
Definition set_mSyncEvents (v : list Z) (x : track) : track :=
  Track_ (base x) (mFillingUpStatus x) (mRetryCount x) (mSharedBuffer x) (mResetDone x)
    (mPresentationCompleteFrames x) (mFast x) (mOutput x) (mUnderrunCount x) (mIsInvalid x) v (active x) (inMask
    x) (removed x).
Definition set_active (v : bool) (x : track) : track :=
  Track_ (base x) (mFillingUpStatus x) (mRetryCount x) (mSharedBuffer x) (mResetDone x)
    (mPresentationCompleteFrames x) (mFast x) (mOutput x) (mUnderrunCount x) (mIsInvalid x) (mSyncEvents x) v
    (inMask x) (removed x).
Definition set_inMask (v : bool) (x : track) : track :=
  Track_ (base x) (mFillingUpStatus x) (mRetryCount x) (mSharedBuffer x) (mResetDone x)
    (mPresentationCompleteFrames x) (mFast x) (mOutput x) (mUnderrunCount x) (mIsInvalid x) (mSyncEvents x)
    (active x) v (removed x).
Definition set_removed (v : nat) (x : track) : track :=
  Track_ (base x) (mFillingUpStatus x) (mRetryCount x) (mSharedBuffer x) (mResetDone x)
    (mPresentationCompleteFrames x) (mFast x) (mOutput x) (mUnderrunCount x) (mIsInvalid x) (mSyncEvents x)
    (active x) (inMask x) v.

Definition life : Type := shared * track.
Definition state (s : life) : track_state := mState (base (snd s)).
Definition set_state (v : track_state) (s : life) : life := (fst s, set_base (set_mState v (base (snd s))) (snd s)).
Definition on_track (f : track → track) : M life unit := modify (λ s, (fst s, f (snd s))).
Definition in_base {A} : M (shared * trackbase) A → M life A :=
  zoom (λ s, (fst s, base (snd s))) (λ b s, (fst b, set_base (snd b) (snd s))).

(** The constructor; it does not initialize [mRetryCount], which is set before it is
    read, nor [mResetDone]: [resetDone] is what was there. *)
Definition Track (b : trackbase) (sharedBuffer resetDone fast output : bool) (retryCount : Z) : track :=
  Track_ b FS_INVALID retryCount sharedBuffer resetDone 0 fast output 0 false [] false false 0.

(** [triggerEvents]: the events of that type are triggered, and dropped. *)
Definition SYNC_EVENT_PRESENTATION_COMPLETE : Z := 1.
Definition triggerEvents (type : Z) : M life unit :=
  on_track (λ t, set_mSyncEvents (filter (λ e, e ≠ type) (mSyncEvents t)) t).

Definition Track_reset : M life unit :=
  s <- getst ;;
  when negb (mResetDone (snd s)) do (
    in_base base_reset ;;;
    in_cb (modify (flags_and (Z.lnot CBLK_FORCEREADY))) ;;;
    in_cb (modify (flags_or CBLK_UNDERRUN)) ;;;
    on_track (set_mFillingUpStatus FS_FILLING) ;;;
    on_track (set_mResetDone true) ;;;
    s <- getst ;;
    (when bool_decide (state s = FLUSHED) do modify (set_state IDLE))).

(** [addTrack_l]; the effect chain of the session is another component. *)
Definition addTrack_l : M life Z :=
  on_track (set_mRetryCount kMaxTrackStartupRetries) ;;;
  s <- getst ;;
  if negb (active (snd s)) then
    on_track (set_mFillingUpStatus FS_FILLING) ;;;
    on_track (set_mResetDone false) ;;;
    on_track (set_mPresentationCompleteFrames 0) ;;;
    on_track (set_active true) ;;;
    ret NO_ERROR
  else ret ALREADY_EXISTS.

(** [removeTrack_l]. *)
Definition removeTrack_l : M life unit :=
  triggerEvents SYNC_EVENT_PRESENTATION_COMPLETE ;;; on_track (λ t, set_removed (S (removed t)) t).

(** The calls; [thread] says whether the thread of the track is still there. [stop],
    [pause] and [destroy] answer whether they call [AudioSystem::stopOutput]. *)
Definition start (thread : bool) : M life Z :=
  if negb thread then ret BAD_VALUE else
  s <- getst ;;
  modify (set_state (if bool_decide (state s = PAUSED) then RESUMING else ACTIVE)) ;;;
  _ <- addTrack_l ;;
  ret NO_ERROR.

Definition stop (thread : bool) : M life bool :=
  if negb thread then ret false else
  s <- getst ;;
  let st := state s in
  (when bool_decide (st = RESUMING ∨ st = ACTIVE ∨ st = PAUSING ∨ st = PAUSED) do
    (if negb (active (snd s)) then Track_reset ;;; modify (set_state STOPPED)
     else if negb (mFast (snd s)) then modify (set_state STOPPED)
     else modify (set_state STOPPING_1))) ;;;
  ret (negb (mOutput (snd s)) && bool_decide (st = ACTIVE ∨ st = RESUMING)).

Definition pause (thread : bool) : M life bool :=
  if negb thread then ret false else
  s <- getst ;;
  if bool_decide (state s = ACTIVE ∨ state s = RESUMING) then
    modify (set_state PAUSING) ;;; ret (negb (mOutput (snd s)))
  else ret false.

Definition flush (thread : bool) : M life unit :=
  if negb thread then ret tt else
  s <- getst ;;
  let st := state s in
  if bool_decide (st ≠ STOPPING_1 ∧ st ≠ STOPPING_2 ∧ st ≠ STOPPED ∧ st ≠ PAUSED ∧ st ≠ PAUSING ∧ st ≠ IDLE ∧ st ≠ FLUSHED)
  then ret tt else
  modify (set_state FLUSHED) ;;;
  (when negb (active (snd s)) do Track_reset).

Definition destroyTrack_l : M life unit :=
  modify (set_state TERMINATED) ;;;
  s <- getst ;;
  (when negb (active (snd s)) do removeTrack_l).

Definition destroy (thread : bool) : M life bool :=
  if negb thread then ret false else
  s <- getst ;;
  destroyTrack_l ;;;
  ret (negb (mOutput (snd s)) && bool_decide (state s = ACTIVE ∨ state s = RESUMING)).

Definition invalidate : M life unit :=
  in_cb (modify (flags_or CBLK_INVALID)) ;;; on_track (set_mIsInvalid true).

(** [isReady]; [attempts] is what [framesReady] meets. *)
Definition isReady (attempts : Z * Z) : M life bool :=
  s <- getst ;;
  if bool_decide (mFillingUpStatus (snd s) ≠ FS_FILLING) || isStopped (base (snd s)) || bool_decide (state s = PAUSING)
  then ret true
  else if bool_decide (framesReady attempts true (cb (fst s)) >= mFrameCount (base (snd s))) || flag CBLK_FORCEREADY (cb (fst s))
  then
    on_track (set_mFillingUpStatus FS_FILLED) ;;;
    in_cb (modify (flags_and (Z.lnot CBLK_FORCEREADY))) ;;;
    ret true
  else ret false.

(** [presentationComplete]; the sizes are 32-bit words. *)
Definition presentationComplete (framesWritten audioHalFrames : Z) : M life bool :=
  s <- getst ;;
  (when bool_decide (mPresentationCompleteFrames (snd s) = 0) do
    on_track (set_mPresentationCompleteFrames (u32 (framesWritten + audioHalFrames)))) ;;;
  s <- getst ;;
  if bool_decide (framesWritten >= mPresentationCompleteFrames (snd s)) then
    triggerEvents SYNC_EVENT_PRESENTATION_COMPLETE ;;; ret true
  else ret false.

(** ** A round of the mixer's thread *)

Definition s8 (x : Z) : Z := (x + 2 ^ 7) mod 2 ^ 8 - 2 ^ 7.
Inductive mixer_state := MIXER_IDLE | MIXER_TRACKS_ENABLED | MIXER_TRACKS_READY.
#[export] Instance mixer_state_eq : EqDecision mixer_state.
Proof. solve_decision. Defined.

(** What a round finds: the underruns of a fast track since the last round, the state
    of the output, the locks. *)
Record round := Round {
  recentFull : Z;
  recentPartial : Z;
  recentEmpty : Z;
  mStandby : bool;
  framesWritten : Z;
  audioHALFrames : Z;
  lock1 : Z * Z;
  lock2 : Z * Z
}.
(** [mStandby || track->presentationComplete(...)]. *)
Definition presented (r : round) : M life bool :=
  if mStandby r then ret true else presentationComplete (framesWritten r) (audioHALFrames r).

(** The end of the round for a track that is in [tracksToRemove]. *)
Definition remove_active : M life unit :=
  on_track (set_active false) ;;;
  s <- getst ;;
  (when bool_decide (state s = TERMINATED) do removeTrack_l).

(** A fast track that has been played to the end: whether it is active still, whether
    it is to be reset. *)
Definition fast_end (r : round) : M life (bool * bool) :=
  ok <- presented r ;;
  if negb ok then ret (true, false) else
  s <- getst ;;
  (when bool_decide (state s = STOPPING_2) do modify (set_state STOPPED)) ;;;
  s <- getst ;;
  ret (false, isStopped (base (snd s))).

(** The [switch] on the state; the last answer is whether it got to [LOG_FATAL]. *)
Definition fast_switch (r : round) : M life (bool * bool * bool) :=
  s <- getst ;;
  let recentUnderruns := u32 (recentPartial r + recentEmpty r) in
  let stay : M life (bool * bool * bool) := ret (true, false, false) in
  let finish : M life (bool * bool * bool) := x <- fast_end r ;; ret (x, false) in
  match state s with
  | STOPPING_1 => (when bool_decide (recentUnderruns > 0) do modify (set_state STOPPING_2)) ;;; stay
  | PAUSING => modify (set_state PAUSED) ;;; stay
  | RESUMING => modify (set_state ACTIVE) ;;; stay
  | ACTIVE =>
      (when bool_decide (recentFull r > 0) || bool_decide (recentPartial r > 0) do on_track (set_mRetryCount kMaxTrackRetries)) ;;;
      if bool_decide (recentUnderruns = 0) then stay else
      if negb (mSharedBuffer (snd s)) then
        if bool_decide (recentEmpty r = 0) then stay else
        on_track (λ t, set_mRetryCount (s8 (mRetryCount t - 1)) t) ;;;
        s <- getst ;;
        if bool_decide (mRetryCount (snd s) > 0) then stay else
        in_cb (modify (flags_or CBLK_DISABLED)) ;;; ret (false, false, false)
      else finish
  | STOPPING_2 | PAUSED | TERMINATED | STOPPED | FLUSHED => finish
  | IDLE => ret (true, false, true)
  end.

(** The round of a fast track, but for the entry of the table of the fast mixer that is
    filled in or cleared with the bit of the mask; the answers are whether the first and whether the second
    [LOG_FATAL] is reached. *)
Definition prepare_fast (r : round) : M life (bool * bool) :=
  s <- getst ;;
  (when negb (isStopping (base (snd s)) || bool_decide (state s = PAUSING) || isStopped (base (snd s))) do
    on_track (λ t, set_mUnderrunCount (u32 (mUnderrunCount t + u32 (recentPartial r + recentEmpty r))) t)) ;;;
  let* (isActive, reset, fatal) := fast_switch r in
  if isActive : bool then on_track (set_inMask true) ;;; ret (fatal, false)
  else
    s <- getst ;;
    let missing := negb (inMask (snd s)) in
    on_track (set_inMask false) ;;;
    (when reset do Track_reset) ;;;
    remove_active ;;;
    ret (fatal, missing).

(** The frames a normal track must have to be mixed. *)
Definition minFrames (t : track) (ready : bool) (trackRate mSampleRate mNormalFrameCount unreleased : Z) : Z :=
  if negb (mSharedBuffer t) && negb (isStopped (base t)) && negb (bool_decide (mState (base t) = PAUSING)) && ready then
    if bool_decide (trackRate = mSampleRate) then mNormalFrameCount
    else u32 (u32 (mNormalFrameCount * trackRate) / mSampleRate + 2 + unreleased)
  else 1.

(** The round of a normal track, but for the volumes and the calls of [AudioMixer] that
    pass them on: whether it is mixed, and the state of the mixer. [prev] is that of
    the last round. *)
Definition prepare_normal (r : round) (min : Z) (prev status : mixer_state) : M life (bool * mixer_state) :=
  s <- getst ;;
  ok <- (if bool_decide (framesReady (lock1 r) true (cb (fst s)) >= min) then
      ready <- isReady (lock2 r) ;;
      s <- getst ;;
      ret (ready && negb (bool_decide (state s = PAUSED)) && negb (bool_decide (state s = TERMINATED)))
    else ret false) ;;
  if ok then
    s <- getst ;;
    (when bool_decide (mFillingUpStatus (snd s) = FS_FILLED) do (
      on_track (set_mFillingUpStatus FS_ACTIVE) ;;;
      (when bool_decide (state s = RESUMING) do modify (set_state ACTIVE)))) ;;;
    s <- getst ;;
    (when bool_decide (state s = PAUSING) do modify (set_state PAUSED)) ;;;
    on_track (set_mRetryCount kMaxTrackRetries) ;;;
    ret (true, if bool_decide (prev ≠ MIXER_TRACKS_READY) || bool_decide (status ≠ MIXER_TRACKS_ENABLED)
               then MIXER_TRACKS_READY else status)
  else
    s <- getst ;;
    if mSharedBuffer (snd s) || bool_decide (state s = TERMINATED) || isStopped (base (snd s)) || bool_decide (state s = PAUSED) then
      done <- presented r ;;
      (when done do (
        s <- getst ;;
        (when isStopped (base (snd s)) do Track_reset) ;;;
        remove_active)) ;;;
      ret (false, status)
    else
      on_track (λ t, set_mUnderrunCount (u32 (mUnderrunCount t + 1)) t) ;;;
      on_track (λ t, set_mRetryCount (s8 (mRetryCount t - 1)) t) ;;;
      s <- getst ;;
      if bool_decide (mRetryCount (snd s) <= 0) then
        in_cb (modify (flags_or CBLK_DISABLED)) ;;;
        remove_active ;;;
        ret (false, status)
      else ret (false, if bool_decide (prev = MIXER_TRACKS_READY) || bool_decide (status ≠ MIXER_TRACKS_READY)
                       then MIXER_TRACKS_ENABLED else status).

(** ** The invariant

    [handle]: the application still has the track. *)

Record life_ok (handle : bool) (s : life) : Prop := {
  l_idle : active (snd s) = true → state s ≠ IDLE;
  l_reset : active (snd s) = true → mResetDone (snd s) = false;
  l_mask : inMask (snd s) = true → active (snd s) = true ∧ mFast (snd s) = true;
  l_stopping : state s = STOPPING_1 ∨ state s = STOPPING_2 → active (snd s) = true ∧ mFast (snd s) = true;
  l_stopped : active (snd s) = false → state s = STOPPED → mResetDone (snd s) = true;
  l_handle : handle = false ↔ state s = TERMINATED;
  l_removed : removed (snd s) = if handle || active (snd s) then 0%nat else 1%nat
}.

(** Changes of the shared memory, and of the fields the invariant is not about, leave
    it alone. *)
Definition same_life (s s' : life) : Prop :=
  state s' = state s ∧ active (snd s') = active (snd s) ∧ mResetDone (snd s') = mResetDone (snd s) ∧
  inMask (snd s') = inMask (snd s) ∧ mFast (snd s') = mFast (snd s) ∧ removed (snd s') = removed (snd s).
Lemma same_life_ok h s s' : same_life s s' → life_ok h s → life_ok h s'.
Proof. intros (E1 & E2 & E3 & E4 & E5 & E6) []. split; rewrite ?E1, ?E2, ?E3, ?E4, ?E5, ?E6; done. Qed.

Lemma wp_in_cb_modify f (Q : unit → life → Prop) (s : life) : Q tt (set_cb (f (cb (fst s))) (fst s), snd s) → wp (in_cb (modify f)) Q s.
Proof. done. Qed.

(** [Track_reset] but for the counts: what it does to the state. *)
Definition reset_life (s s' : life) : Prop :=
  state s' = (if mResetDone (snd s) then state s else if bool_decide (state s = FLUSHED) then IDLE else state s) ∧
  mResetDone (snd s') = true ∧ active (snd s') = active (snd s) ∧
  inMask (snd s') = inMask (snd s) ∧ mFast (snd s') = mFast (snd s) ∧ removed (snd s') = removed (snd s).
Lemma reset_ok (s : life) : wp Track_reset (λ _ s', reset_life s s') s.
Proof.
  destruct s as [sh t]. unfold reset_life, state. destruct (mResetDone t) eqn:E; unfold Track_reset, wp, bind, getst; cbn [snd fst]; rewrite E; cbn.
  - by rewrite E.
  - by destruct (bool_decide (mState (base t) = FLUSHED)) eqn:Es; cbn.
Qed.

(** Running an operation: its tests are made in turn. *)
Ltac life_step :=
  first
    [ wp_step
    | progress unfold on_track
    | apply wp_in_cb_modify
    | match goal with |- wp (if ?b then _ else _) _ _ => let E := fresh "E" in destruct b eqn:E end
    | match goal with |- wp Track_reset _ _ => eapply wp_mono; [apply reset_ok|intros _ ? (? & ? & ? & ? & ? & ?)] end ].
Ltac life_steps := repeat life_step.
(** The goals that are left: the invariant, from that of the state before. *)
Ltac life_done :=
  match goal with H : life_ok _ _ |- _ => destruct H end;
  split; unfold state, set_state in *; cbn [fst snd] in *; cbn in *;
  repeat match goal with
    | H : negb _ = true |- _ => apply negb_true_iff in H
    | H : negb _ = false |- _ => apply negb_false_iff in H
    | H : bool_decide _ = true |- _ => apply bool_decide_eq_true in H
    | H : bool_decide _ = false |- _ => apply bool_decide_eq_false in H
    end;
  repeat match goal with
    | E : ?f (snd ?s) = _ |- context [?f (snd ?s)] => rewrite E
    | E : mState (base (snd ?s)) = _ |- context [mState (base (snd ?s))] => rewrite E
    end;
  repeat case_bool_decide; repeat match goal with |- context [if ?b then _ else _] => destruct b eqn:? end;
  try solve [done|congruence|tauto|intros; intuition congruence].

Lemma start_ok s : life_ok true s → wp (start true) (λ _, life_ok true) s.
Proof. intros H. unfold start, addTrack_l. cbn [negb]. life_steps. all: life_done. Qed.
Lemma pause_ok s : life_ok true s → wp (pause true) (λ _, life_ok true) s.
Proof. intros H. unfold pause. cbn [negb]. life_steps. all: life_done. Qed.
Lemma stop_ok s : life_ok true s → wp (stop true) (λ _, life_ok true) s.
Proof. intros H. unfold stop. cbn [negb]. life_steps. all: life_done. Qed.
Lemma flush_ok s : life_ok true s → wp (flush true) (λ _, life_ok true) s.
Proof. intros H. unfold flush. cbn [negb]. life_steps. all: life_done. Qed.
Lemma destroy_ok s : life_ok true s → wp (destroy true) (λ _, life_ok false) s.
Proof. intros H. unfold destroy, destroyTrack_l, removeTrack_l, triggerEvents. cbn [negb]. life_steps. all: life_done. Qed.
Lemma invalidate_ok h s : life_ok h s → wp invalidate (λ _, life_ok h) s.
Proof. intros H. unfold invalidate. life_steps. by apply (same_life_ok h s). Qed.

(** The rounds. *)
Lemma presented_ok r s : wp (presented r) (λ _ s', same_life s s') s.
Proof. unfold presented, presentationComplete, triggerEvents. life_steps. all: done. Qed.
Lemma isReady_ok a s : wp (isReady a) (λ _ s', same_life s s') s.
Proof. unfold isReady. life_steps. all: done. Qed.

(** A track leaves the list of the active ones, reset if it was stopped. *)
Lemma retire_ok h s (reset : bool) : life_ok h s → active (snd s) = true → inMask (snd s) = false →
  state s ≠ STOPPING_1 → state s ≠ STOPPING_2 → reset = isStopped (base (snd s)) →
  wp ((when reset do Track_reset) ;;; remove_active) (λ _, life_ok h) s.
Proof.
  intros H Ha Hm H1 H2 Er. pose proof (l_reset _ _ H Ha) as Hd. unfold remove_active, removeTrack_l, triggerEvents, isStopped in *.
  destruct reset; symmetry in Er; [apply orb_true_iff in Er|apply orb_false_iff in Er]; life_steps.
  all: destruct Er, h; rewrite ?Hd, ?Ha in *; life_done; exfalso; intuition congruence.
Qed.

Lemma prepare_normal_ok h r min prev status s : life_ok h s → active (snd s) = true → mFast (snd s) = false →
  wp (prepare_normal r min prev status) (λ _, life_ok h) s.
Proof.
  intros H Ha Hf. unfold prepare_normal. apply wp_bind, wp_getst, wp_bind.
  apply (wp_mono _ (λ ok s1, same_life s s1)).
  { destruct (bool_decide _); [|by repeat split]. apply wp_bind. eapply wp_mono; [apply isReady_ok|]. intros b s1 Hs1. by life_steps. }
  intros ok s1 Hs1. pose proof (same_life_ok _ _ _ Hs1 H) as H'. destruct Hs1 as (_ & E2 & _ & _ & E5 & _).
  rewrite <-E2 in Ha. rewrite <-E5 in Hf. clear E2 E5 H. destruct ok.
  - life_steps. all: life_done.
  - assert (inMask (snd s1) = false) as Hm.
    { destruct (inMask (snd s1)) eqn:E; [|done]. destruct (l_mask _ _ H' E). congruence. }
    assert (state s1 ≠ STOPPING_1 ∧ state s1 ≠ STOPPING_2) as [N1 N2].
    { split; intros E; destruct (l_stopping _ _ H'); auto; congruence. }
    apply wp_bind, wp_getst. destruct (_ || _) eqn:Eb.
    + apply wp_bind. eapply wp_mono; [apply presented_ok|]. intros done s2 Hs2. pose proof (same_life_ok _ _ _ Hs2 H') as H2.
      destruct Hs2 as (E1 & E2 & _ & E4 & _ & _). rewrite <-E2 in Ha. rewrite <-E4 in Hm. rewrite <-E1 in N1, N2.
      apply wp_bind. destruct done; [|by apply wp_ret, wp_ret]. apply wp_bind, wp_getst.
      eapply wp_mono; [by apply (retire_ok h s2 _ H2)|]. intros ? s3 H3. by apply wp_ret.
    + do 2 (apply wp_bind; apply wp_modify). apply wp_bind, wp_getst.
      assert (∀ s2, same_life s1 s2 → life_ok h s2) as Hsame by (intros s2 Hs2; by apply (same_life_ok _ _ _ Hs2)).
      match goal with |- wp (if ?b then _ else _) _ _ => destruct b end; [|by apply wp_ret, Hsame]. apply wp_bind, wp_in_cb_modify, wp_bind.
      match goal with |- wp _ _ ?x => set (s2 := x) end.
      apply orb_false_iff in Eb as [Eb _]. apply orb_false_iff in Eb as [_ Eb].
      change (wp ((when false do Track_reset) ;;; remove_active) (λ _ s', wp (ret (false, status)) (λ _, life_ok h) s') s2).
      eapply wp_mono; [by apply (retire_ok h s2 false (Hsame s2 ltac:(done)))|]. intros ? s3 H3. by apply wp_ret.
Qed.

Lemma fast_end_ok r s : wp (fast_end r) (λ x s',
  (fst x = true ∧ snd x = false ∧ same_life s s') ∨
  (fst x = false ∧ state s' = (if bool_decide (state s = STOPPING_2) then STOPPED else state s) ∧
   snd x = isStopped (base (snd s')) ∧ same_life (set_state (state s') s) s')) s.
Proof.
  unfold fast_end. apply wp_bind. eapply wp_mono; [apply presented_ok|]. intros ok s1 Hs1.
  destruct ok; [|by left]. cbn [negb]. apply wp_bind, wp_getst. pose proof Hs1 as (E1 & E2 & E3 & E4 & E5 & E6).
  rewrite E1. apply wp_bind. destruct (bool_decide _) eqn:Eb; life_steps; right; (split; [done|]); (split; [done|]); (split; [done|]);
    unfold same_life; cbn; try done.
Qed.

(** What the [switch] leaves to the rest of the round. *)
Definition switched (h : bool) (s : life) (x : bool * bool * bool) (s' : life) : Prop :=
  let '(isActive, reset, fatal) := x in
  fatal = false ∧ life_ok h s' ∧ active (snd s') = true ∧ mFast (snd s') = true ∧ inMask (snd s') = inMask (snd s) ∧
  (isActive = false → state s' ≠ STOPPING_1 ∧ state s' ≠ STOPPING_2 ∧ reset = isStopped (base (snd s'))).

Lemma finish_ok h r s0 s : life_ok h s → active (snd s) = true → mFast (snd s) = true → inMask (snd s) = inMask (snd s0) →
  state s ≠ STOPPING_1 → wp (x <- fast_end r ;; ret (x, false)) (switched h s0) s.
Proof.
  intros H Ha Hf Hm Hn. apply wp_bind. eapply wp_mono; [apply fast_end_ok|]. intros [isActive reset] s1.
  cbn [fst snd]. intros [(-> & -> & Hs1)|(-> & Es & -> & Hs1)].
  - pose proof (same_life_ok _ _ _ Hs1 H). destruct Hs1 as (_ & E2 & _ & E4 & E5 & _). unfold switched. split_and!; try done; congruence.
  - assert (life_ok h (set_state (state s1) s)) as H1.
    { rewrite Es. destruct h; life_done; exfalso; intuition congruence. }
    pose proof (same_life_ok _ _ _ Hs1 H1). destruct Hs1 as (_ & E2 & _ & E4 & E5 & _). cbn in E2, E4, E5.
    unfold switched. split_and!; try done; try congruence. intros _. rewrite Es. case_bool_decide; split_and!; congruence.
Qed.

(** A track that goes on in another state. *)
Lemma moved_ok h s v : life_ok h s → active (snd s) = true → mFast (snd s) = true → state s ≠ TERMINATED →
  v ≠ IDLE → v ≠ TERMINATED → switched h s (true, false, false) (set_state v s).
Proof.
  intros H Ha Hf Hn H1 H2. unfold switched. split_and!; try done.
  destruct h; [life_done|]. by destruct Hn; apply (l_handle _ _ H).
Qed.
Lemma stay_ok h s s' reset a : life_ok h s → active (snd s) = true → mFast (snd s) = true →
  (a = false → state s ≠ STOPPING_1 ∧ state s ≠ STOPPING_2 ∧ reset = isStopped (base (snd s'))) → same_life s s' →
  switched h s (a, reset, false) s'.
Proof.
  intros H Ha Hf Hn Hs. pose proof (same_life_ok _ _ _ Hs H). destruct Hs as (E1 & E2 & _ & E4 & E5 & _).
  unfold switched. rewrite E1. split_and!; try done; congruence.
Qed.

Lemma fast_switch_ok h r s : life_ok h s → active (snd s) = true → mFast (snd s) = true →
  wp (fast_switch r) (switched h s) s.
Proof.
  intros H Ha Hf. unfold fast_switch. apply wp_bind, wp_getst. destruct (state s) eqn:Es.
  1: by destruct (l_idle _ _ H Ha).
  all: try (apply finish_ok; done || congruence).
  - life_steps; [apply moved_ok|apply stay_ok]; done || congruence.
  - life_steps. apply moved_ok; done || congruence.
  - apply wp_bind. apply (wp_mono _ (λ _ s', same_life s s')); [by life_steps|]. intros _ s1 Hs1.
    destruct (bool_decide _); [by apply wp_ret, stay_ok|]. destruct (negb (mSharedBuffer (snd s))).
    + life_steps; apply stay_ok; try done. intros _. rewrite Es. split_and!; try done. symmetry. unfold isStopped. cbn.
      destruct Hs1 as (E1 & _). unfold state in E1, Es. by rewrite E1, Es.
    + pose proof Hs1 as (E1 & E2 & _ & E4 & E5 & _). apply finish_ok; try congruence. by apply (same_life_ok _ _ _ Hs1).
  - life_steps. apply moved_ok; done || congruence.
Qed.

Lemma prepare_fast_ok h r s : life_ok h s → active (snd s) = true → mFast (snd s) = true →
  wp (prepare_fast r) (λ x s', life_ok h s' ∧ fst x = false ∧ (snd x = true → inMask (snd s) = false)) s.
Proof.
  intros H Ha Hf. unfold prepare_fast. apply wp_bind, wp_getst, wp_bind.
  apply (wp_mono _ (λ _ s', same_life s s')); [by life_steps|]. intros _ s1 Hs1.
  pose proof (same_life_ok _ _ _ Hs1 H) as H1. destruct Hs1 as (_ & E2 & _ & E4 & E5 & _).
  apply wp_bind. eapply wp_mono; [by apply (fast_switch_ok h r s1 H1); congruence|].
  intros [[isActive reset] fatal] s2 (-> & H2 & Ha2 & Hf2 & Em & Hret). destruct isActive.
  - life_steps. split; [|done]. clear H H1. life_done.
  - destruct (Hret eq_refl) as (N1 & N2 & Er). apply wp_bind, wp_getst. cbv zeta. unfold on_track. apply wp_bind, wp_modify, wp_bind.
    set (s3 := (fst s2, set_inMask false (snd s2)) : life).
    assert (life_ok h s3) as H3 by (clear H H1; subst s3; life_done).
    eapply wp_mono; [apply (wp_bind_inv _ _ _ _ (retire_ok h s3 reset H3 Ha2 eq_refl N1 N2 Er))|].
    intros ? s4 H4. apply wp_bind. eapply wp_mono; [exact H4|]. intros ? s5 H5. apply wp_ret. split; [done|]. split; [done|].
    cbn. intros Hm. apply negb_true_iff in Hm. congruence.
Qed.

(** ** Every life of a track *)

(** The application, until it lets go of the track; the thread of the mixer, for an
    active track; and whoever can write to the shared memory. *)
Inductive live : bool * life → bool * life → Prop :=
  | live_start s s' : start true s = Ret NO_ERROR s' → live (true, s) (true, s')
  | live_stop s s' b : stop true s = Ret b s' → live (true, s) (true, s')
  | live_pause s s' b : pause true s = Ret b s' → live (true, s) (true, s')
  | live_flush s s' : flush true s = Ret tt s' → live (true, s) (true, s')
  | live_destroy s s' b : destroy true s = Ret b s' → live (true, s) (false, s')
  | live_invalidate h s s' : invalidate s = Ret tt s' → live (h, s) (h, s')
  | live_fast h s s' r x : active (snd s) = true → mFast (snd s) = true → prepare_fast r s = Ret x s' → live (h, s) (h, s')
  | live_normal h s s' r min prev status x :
      active (snd s) = true → mFast (snd s) = false → prepare_normal r min prev status s = Ret x s' → live (h, s) (h, s')
  | live_memory h sh sh' t : live (h, (sh, t)) (h, (sh', t)).

Lemma wp_Ret {S A} {m : M S A} {Q s a s'} : wp m Q s → m s = Ret a s' → Q a s'.
Proof. unfold wp. intros H E. by rewrite E in H. Qed.

Lemma live_ok x y : live x y → life_ok (fst x) (snd x) → life_ok (fst y) (snd y).
Proof.
  intros Hl H. destruct Hl as [s s' E|s s' b E|s s' b E|s s' E|s s' b E|h s s' E|h s s' r x Ha Hf E|h s s' r min prev status x Ha Hf E|h sh sh' t];
    cbn [fst snd] in *.
  - exact (wp_Ret (start_ok s H) E).
  - exact (wp_Ret (stop_ok s H) E).
  - exact (wp_Ret (pause_ok s H) E).
  - exact (wp_Ret (flush_ok s H) E).
  - exact (wp_Ret (destroy_ok s H) E).
  - exact (wp_Ret (invalidate_ok h s H) E).
  - by destruct (wp_Ret (prepare_fast_ok h r s H Ha Hf) E).
  - exact (wp_Ret (prepare_normal_ok h r min prev status s H Ha Hf) E).
  - by apply (same_life_ok h (sh, t)).
Qed.

(** A new track. *)
Definition new_track (sh : shared) (buf fs fc : Z) (sharedBuffer resetDone fast output : bool) (retryCount : Z) : life :=
  (sh, Track (TrackBase buf fs fc true) sharedBuffer resetDone fast output retryCount).

(** C15: whatever the application, the mixer and other writers of the shared memory do
    to a track, in any order: an active track is never [IDLE], which the round of a
    fast track does not expect ([LOG_FATAL]), and has never been reset; only an
    active fast track is in the mask of the fast mixer, or [STOPPING]; a track that is
    [STOPPED] and no longer active has had its buffer reset; no call fails to return,
    and a track is taken off the list exactly once, when the application has let go
    of it and the mixer no longer plays it. *)
Theorem track_life_invariant (sh : shared) (buf fs fc : Z) (sharedBuffer resetDone fast output : bool) (retryCount : Z)
    (h : bool) (s : life) (Hlive : rtc live (true, new_track sh buf fs fc sharedBuffer resetDone fast output retryCount) (h, s)) :
  life_ok h s ∧
  (active (snd s) = true → mFast (snd s) = true → ∀ r, ∃ missing s', prepare_fast r s = Ret (false, missing) s') ∧
  (active (snd s) = true → mFast (snd s) = false → ∀ r min prev status, ∃ x s', prepare_normal r min prev status s = Ret x s').
Proof.
  assert (life_ok h s) as H.
  { change (life_ok (fst (h, s)) (snd (h, s))).
    eapply (rtc_ind_r (λ x, life_ok (fst x) (snd x))); [| |exact Hlive].
    - by split; cbn; intuition congruence.
    - intros x y _ Hl. by apply live_ok. }
  split; [done|]. split.
  - intros Ha Hf r. destruct (wp_elim _ _ _ (prepare_fast_ok h r s H Ha Hf)) as ([fatal missing] & s' & E & _ & Ef & _).
    cbn in Ef. subst. eauto.
  - intros Ha Hf r min prev status.
    destruct (wp_elim _ _ _ (prepare_normal_ok h r min prev status s H Ha Hf)) as (x & s' & E & _). eauto.
Qed.

(** ** A fast track that ends before the mixer has seen it *)

Module LifeDemo.
Definition sh : shared := Shared (TrackBase_cblk 8 false (Cblk 0 0 0 0 0 0 0 0 0 0 0 3000 0 0)) (replicate 8 0).
Definition t0 : life := new_track sh 4096 1 8 false false true false 0.
Definition r0 : round := Round 0 0 0 true 0 1024 (0, 0) (0, 0).

(** Started, paused and flushed before the first round after a standby: that round
    takes it for ended, and finds that the fast mixer was never told of it. *)
Lemma missing_in_mask : ∃ s, rtc live (true, t0) (true, s) ∧ ∃ s', prepare_fast r0 s = Ret (false, true) s'.
Proof.
  eexists. split.
  - eapply rtc_l; [eapply live_start; vm_compute; reflexivity|].
    eapply rtc_l; [eapply live_pause; vm_compute; reflexivity|].
    eapply rtc_l; [eapply live_flush; vm_compute; reflexivity|]. apply rtc_refl.
  - eexists. vm_compute. reflexivity.
Qed.

(** A track that is played, stopped, presented, and let go of. *)
Lemma life_run : ∃ s, rtc live (true, t0) (false, s) ∧ state s = TERMINATED ∧ removed (snd s) = 1%nat.
Proof.
  eexists. split.
  - eapply rtc_l; [eapply live_start; vm_compute; reflexivity|].
    eapply rtc_l; [eapply (live_fast _ _ _ (Round 1 0 0 true 0 1024 (0, 0) (0, 0))); [reflexivity|reflexivity|vm_compute; reflexivity]|].
    eapply rtc_l; [eapply live_stop; vm_compute; reflexivity|].
    eapply rtc_l; [eapply (live_fast _ _ _ (Round 0 0 1 false 0 1024 (0, 0) (0, 0))); [reflexivity|reflexivity|vm_compute; reflexivity]|].
    eapply rtc_l; [eapply (live_fast _ _ _ (Round 0 0 0 false 512 1024 (0, 0) (0, 0))); [reflexivity|reflexivity|vm_compute; reflexivity]|].
    eapply rtc_l; [eapply (live_fast _ _ _ (Round 0 0 0 false 2048 1024 (0, 0) (0, 0))); [reflexivity|reflexivity|vm_compute; reflexivity]|].
    eapply rtc_l; [eapply live_destroy; vm_compute; reflexivity|]. apply rtc_refl.
  - split; reflexivity.
Qed.

Lemma track_life_invariant_witness : ∃ s, state s = TERMINATED ∧ life_ok false s.
Proof.
  destruct life_run as (s & Hrun & Hs & _). exists s. split; [exact Hs|].
  exact (proj1 (track_life_invariant sh 4096 1 8 false false true false 0 false s Hrun)).
Defined.
End LifeDemo.
