(* ===== verification/ServiceIO.v ===== *)
(** * Messages of the service manager

    [servicemanager/binder.c]: a [binder_io] is a place in a buffer of bytes, where
    words, strings of 16-bit characters and objects are put or got one after the
    other, with the array that lists where the objects are.  A message that does not
    fit, or ends too early, is marked; the caller goes on. *)

From Stdlib Require Import ZArith Lia.
From stdpp Require Import base tactics numbers option list.
From S2P Require Import Prelude Words Rbtree BinderAlloc BinderState BinderUser.

Definition MAX_BIO_SIZE : Z := 2 ^ 30.
Definition BIO_F_SHARED : Z := 1.
Definition BIO_F_OVERFLOW : Z := 2.
Definition BIO_F_IOERROR : Z := 4.
(** [0x7f | FLAT_BINDER_FLAG_ACCEPTS_FDS]. *)
Definition OBJ_FLAGS : Z := 383.

(** [struct binder_io]: the bytes from [data0] on and the place of [data] in them, the
    words from [offs0] on and that of [offs]. *)
Record bio := Bio {
  io_bytes : list Z;
  io_pos : Z;
  io_avail : Z;
  io_offs : list Z;
  io_opos : Z;
  io_oavail : Z;
  io_flags : Z
}.
Definition set_io_bytes (v : list Z) (x : bio) : bio :=
  Bio v (io_pos x) (io_avail x) (io_offs x) (io_opos x) (io_oavail x) (io_flags x).
Definition set_io_pos (v : Z) (x : bio) : bio :=
  Bio (io_bytes x) v (io_avail x) (io_offs x) (io_opos x) (io_oavail x) (io_flags x).
Definition set_io_avail (v : Z) (x : bio) : bio :=
  Bio (io_bytes x) (io_pos x) v (io_offs x) (io_opos x) (io_oavail x) (io_flags x).
Definition set_io_offs (v : list Z) (x : bio) : bio :=
  Bio (io_bytes x) (io_pos x) (io_avail x) v (io_opos x) (io_oavail x) (io_flags x).
Definition set_io_opos (v : Z) (x : bio) : bio :=
  Bio (io_bytes x) (io_pos x) (io_avail x) (io_offs x) v (io_oavail x) (io_flags x).
Definition set_io_oavail (v : Z) (x : bio) : bio :=
  Bio (io_bytes x) (io_pos x) (io_avail x) (io_offs x) (io_opos x) v (io_flags x).
Definition set_io_flags (v : Z) (x : bio) : bio :=
  Bio (io_bytes x) (io_pos x) (io_avail x) (io_offs x) (io_opos x) (io_oavail x) v.

(** [bio_init]; [data] is the block of [maxdata] bytes it is given. When there is no
    room for the array nothing but the flags and the sizes is set. *)
Definition bio_init (data : list Z) (maxdata maxoffs : Z) (b : bio) : bio :=
  let n := u32 (maxoffs * 4) in
  if bool_decide (n > maxdata) then Bio (io_bytes b) (io_pos b) 0 (io_offs b) (io_opos b) 0 BIO_F_OVERFLOW
  else Bio (drop (Z.to_nat n) data) 0 (maxdata - n) (words_of (take (Z.to_nat n) data)) 0 maxoffs 0.
(** [bio_init_from_txn]: the data and the array that the transaction points to. *)
Definition bio_init_from_txn (data offs : list Z) (data_size offs_size : Z) : bio :=
  Bio data 0 data_size offs 0 (offs_size / 4) BIO_F_SHARED.

Definition overflow : M bio unit := modify (λ b, set_io_flags (Z.lor (io_flags b) BIO_F_OVERFLOW) b).

(** ** Putting *)

Definition bio_alloc (size : Z) : M bio (option Z) :=
  b <- getst ;;
  let size := ALIGN size 4 in
  if bool_decide (size > io_avail b) then overflow ;;; ret None
  else
    modify (λ b, set_io_avail (io_avail b - size) (set_io_pos (io_pos b + size) b)) ;;;
    ret (Some (io_pos b)).

(** A store of the bytes [l] at the place [p]. *)
Definition put_bytes (p : Z) (l : list Z) : M bio unit :=
  b <- getst ;;
  m <- deref (memcpy (io_bytes b) p l 0 (Z.of_nat (length l))) ;;
  modify (set_io_bytes m).

Definition bio_alloc_obj : M bio (option Z) :=
  obj <- bio_alloc 16 ;;
  b <- getst ;;
  match obj with
  | Some obj =>
      if bool_decide (io_oavail b ≠ 0) then
        offs <- deref (memcpy (io_offs b) (io_opos b) [obj] 0 1) ;;
        modify (λ b, set_io_opos (io_opos b + 1) (set_io_offs offs (set_io_oavail (io_oavail b - 1) b))) ;;;
        ret (Some obj)
      else overflow ;;; ret None
  | None => overflow ;;; ret None
  end.

Definition bio_put_uint32 (n : Z) : M bio unit :=
  ptr <- bio_alloc 4 ;;
  match ptr with Some p => put_bytes p (word_bytes n) | None => ret tt end.

(** [struct binder_object]: type, flags, pointer, cookie. *)
Definition object_bytes (type ptr : Z) : list Z := concat (word_bytes <$> [type; OBJ_FLAGS; ptr; 0]).
Definition bio_put_obj (ptr : Z) : M bio unit :=
  obj <- bio_alloc_obj ;;
  match obj with Some p => put_bytes p (object_bytes BINDER_TYPE_BINDER ptr) | None => ret tt end.
Definition bio_put_ref (ptr : Z) : M bio unit :=
  obj <- (if bool_decide (ptr ≠ 0) then bio_alloc_obj else bio_alloc 16) ;;
  match obj with Some p => put_bytes p (object_bytes BINDER_TYPE_HANDLE ptr) | None => ret tt end.

Definition short_bytes (w : Z) : list Z := [w mod 2 ^ 8; w / 2 ^ 8 mod 2 ^ 8].
(** The characters up to the first that is zero; they must be there. *)
Fixpoint str16 (s : list Z) : option (list Z) :=
  match s with
  | [] => None
  | c :: s => if bool_decide (c = 0) then Some [] else match str16 s with Some l => Some (c :: l) | None => None end
  end.
Definition bio_put_string16 (str : option (list Z)) : M bio unit :=
  match str with
  | None => bio_put_uint32 4294967295
  | Some s =>
      s <- deref (str16 s) ;;
      let len := Z.of_nat (length s) in
      if bool_decide (len >= MAX_BIO_SIZE / 2) then bio_put_uint32 4294967295 else
      bio_put_uint32 len ;;;
      ptr <- bio_alloc ((len + 1) * 2) ;;
      match ptr with Some p => put_bytes p (concat (short_bytes <$> (s ++ [0]))) | None => ret tt end
  end.
(** [bio_put_string16_x]: the string has characters of 8 bits. *)
Definition bio_put_string16_x (str : option (list Z)) : M bio unit := bio_put_string16 str.

(** ** Getting *)

Definition bio_get (size : Z) : M bio (option Z) :=
  b <- getst ;;
  let size := ALIGN size 4 in
  if bool_decide (io_avail b < size) then
    modify (set_io_avail 0) ;;; overflow ;;; ret None
  else
    modify (λ b, set_io_avail (io_avail b - size) (set_io_pos (io_pos b + size) b)) ;;;
    ret (Some (io_pos b)).

(** The word at a place. *)
Definition word_at (b : bio) (p : Z) : option Z := l ← slice (io_bytes b) p 4; u32 <$> head (words_of l).
Definition bio_get_uint32 : M bio Z :=
  ptr <- bio_get 4 ;;
  b <- getst ;;
  match ptr with Some p => deref (word_at b p) | None => ret 0 end.

(** [bio_get_string16]: the place of the characters, if they are there, and the length
    the message gives. *)
Definition bio_get_string16 : M bio (option Z * Z) :=
  len <- bio_get_uint32 ;;
  ptr <- bio_get (u32 ((len + 1) * 2)) ;;
  ret (ptr, len).

(** [_bio_get_obj]. *)
Definition bio_get_obj : M bio (option Z) :=
  b <- getst ;;
  l <- deref (slice (io_offs b) (io_opos b) (io_oavail b)) ;;
  if bool_decide (io_pos b ∈ l) then bio_get 16
  else modify (set_io_avail 0) ;;; overflow ;;; ret None.
Definition bio_get_ref : M bio Z :=
  obj <- bio_get_obj ;;
  b <- getst ;;
  match obj with
  | None => ret 0
  | Some p =>
      type <- deref (word_at b p) ;;
      ptr <- deref (word_at b (p + 8)) ;;
      ret (if bool_decide (type = BINDER_TYPE_HANDLE) then ptr else 0)
  end.

(** The [n] characters at a place. *)
Fixpoint shorts_of (l : list Z) : list Z :=
  match l with b0 :: b1 :: l => b0 + b1 * 2 ^ 8 :: shorts_of l | _ => [] end.
Definition chars_at (b : bio) (p n : Z) : option (list Z) := l ← slice (io_bytes b) p (2 * n); Some (shorts_of l).

(** ** What is put is got *)

(** Values that a message is made of, put and got. *)
Inductive item := IWord (n : Z) | IStr (s : list Z) | IRef (h : Z).
Definition put_item (i : item) : M bio unit :=
  match i with IWord n => bio_put_uint32 n | IStr s => bio_put_string16 (Some (s ++ [0])) | IRef h => bio_put_ref h end.
Fixpoint put_items (l : list item) : M bio unit :=
  match l with [] => ret tt | i :: l => put_item i ;;; put_items l end.
(** The value of the kind of [i] that comes next. *)
Definition get_like (i : item) : M bio item :=
  match i with
  | IWord _ => n <- bio_get_uint32 ;; ret (IWord n)
  | IStr _ =>
      let* (p, len) := bio_get_string16 in
      b <- getst ;;
      match p with Some p => s <- deref (chars_at b p len) ;; ret (IStr s) | None => ret (IStr []) end
  | IRef _ => h <- bio_get_ref ;; ret (IRef h)
  end.
Fixpoint get_likes (l : list item) : M bio (list item) :=
  match l with [] => ret [] | i :: l => x <- get_like i ;; xs <- get_likes l ;; ret (x :: xs) end.

Definition item_ok (i : item) : Prop :=
  match i with
  | IWord n => is_word n
  | IStr s => Forall (λ c, 0 < c < 2 ^ 16) s ∧ Z.of_nat (length s) < 2 ^ 29
  | IRef h => is_word h ∧ h ≠ 0
  end.

Definition overflowed (b : bio) : Prop := Z.testbit (io_flags b) 1 = true.

(** The item is in the bytes from [p] to [p'], and an object is in the array. *)
Definition encoded (bytes offs : list Z) (p : Z) (i : item) (p' : Z) : Prop :=
  match i with
  | IWord n => p' = p + 4 ∧ slice bytes p 4 = Some (word_bytes n)
  | IStr s =>
      let len := Z.of_nat (length s) in
      p' = p + 4 + ALIGN ((len + 1) * 2) 4 ∧ slice bytes p 4 = Some (word_bytes len) ∧
      slice bytes (p + 4) (2 * len) = Some (concat (short_bytes <$> s))
  | IRef h => p' = p + 16 ∧ slice bytes p 16 = Some (object_bytes BINDER_TYPE_HANDLE h) ∧ p ∈ offs
  end.
Fixpoint encodeds (bytes offs : list Z) (p : Z) (l : list item) (p' : Z) : Prop :=
  match l with
  | [] => p' = p
  | i :: l => ∃ p1, p ≤ p1 ∧ p1 ≤ p' ∧ encoded bytes offs p i p1 ∧ encodeds bytes offs p1 l p'
  end.

Lemma align4 x : 0 ≤ x < 2 ^ 31 → x ≤ ALIGN x 4 < x + 4.
Proof.
  intros Hx. pose proof (ALIGN4_spec x ltac:(lia)) as H. rewrite decide_True in H by lia. rewrite H.
  pose proof (Z.mod_pos_bound (x + 3) 4). lia.
Qed.

Lemma slice_prefix {A} (l l' : list A) m from n x :
  take m l = take m l' → from + n ≤ Z.of_nat m → slice l from n = Some x → slice l' from n = Some x.
Proof.
  intros E Hm. unfold slice. case_bool_decide as Hb; [|done]. intros [= <-].
  assert (Z.to_nat (from + n) ≤ length l')%nat as Hl.
  { assert (length (take m l) = length (take m l')) as El by (by rewrite E). rewrite !length_take in El. lia. }
  rewrite bool_decide_true by lia. f_equal.
  assert (∀ k : list A, take (Z.to_nat n) (drop (Z.to_nat from) k) = take (Z.to_nat n) (drop (Z.to_nat from) (take m k))) as H.
  { intros k. rewrite skipn_firstn_comm, take_take. f_equal. lia. }
  rewrite (H l), (H l'), E. done.
Qed.
Lemma take_prefix {A} (l l' : list A) m n : take m l = take m l' → (n ≤ m)%nat → take n l = take n l'.
Proof. intros E Hn. rewrite <-(Nat.min_l n m), <-!take_take, E by done. done. Qed.

(** A place in a buffer that is being filled. *)
Record wf (b : bio) : Prop := {
  wf_pos : 0 ≤ io_pos b;
  wf_avail : 0 ≤ io_avail b;
  wf_size : io_pos b + io_avail b = Z.of_nat (length (io_bytes b));
  wf_small : Z.of_nat (length (io_bytes b)) < 2 ^ 31;
  wf_opos : 0 ≤ io_opos b;
  wf_oavail : 0 ≤ io_oavail b;
  wf_offs : io_opos b + io_oavail b = Z.of_nat (length (io_offs b))
}.
(** What has been put before stays. *)
Record extends (b b' : bio) : Prop := {
  ex_pos : io_pos b ≤ io_pos b';
  ex_opos : io_opos b ≤ io_opos b';
  ex_bytes : take (Z.to_nat (io_pos b)) (io_bytes b) = take (Z.to_nat (io_pos b)) (io_bytes b');
  ex_offs : take (Z.to_nat (io_opos b)) (io_offs b) = take (Z.to_nat (io_opos b)) (io_offs b');
  ex_flags : overflowed b → overflowed b'
}.
Lemma extends_refl b : extends b b.
Proof. by split. Qed.
Lemma extends_trans b1 b2 b3 : wf b1 → extends b1 b2 → extends b2 b3 → extends b1 b3.
Proof.
  intros W [A1 A2 A3 A4 A5] [B1 B2 B3 B4 B5]. destruct W. split; [lia|lia|..|by auto].
  - rewrite A3. eapply take_prefix; [exact B3|lia].
  - rewrite A4. eapply take_prefix; [exact B4|lia].
Qed.
Lemma overflow_flag f : Z.testbit (Z.lor f BIO_F_OVERFLOW) 1 = true.
Proof. rewrite Z.lor_spec. change (Z.testbit BIO_F_OVERFLOW 1) with true. apply orb_true_r. Qed.

(** A copy of a whole block to the place [p]. *)
Lemma overwrite_ok {A} (dst l : list A) p : 0 ≤ p → p + Z.of_nat (length l) ≤ Z.of_nat (length dst) →
  ∃ m, memcpy dst p l 0 (Z.of_nat (length l)) = Some m ∧ length m = length dst ∧
    take (Z.to_nat p) m = take (Z.to_nat p) dst ∧ slice m p (Z.of_nat (length l)) = Some l.
Proof.
  intros Hp Hl. unfold memcpy. rewrite bool_decide_true by lia. rewrite Nat2Z.id. change (Z.to_nat 0) with 0%nat.
  rewrite drop_0, firstn_all. eexists. split; [done|].
  assert (length (take (Z.to_nat p) dst) = Z.to_nat p) as Et by (rewrite length_take; lia).
  match goal with |- length ?x = _ ∧ _ => set (m := x) end.
  assert (length m = length dst) as Em by (unfold m; rewrite !length_app, length_take, length_drop; lia).
  split; [done|]. split.
  - unfold m. rewrite <-Et at 1. by rewrite take_app_length.
  - rewrite slice_ok by (rewrite ?Em; lia). f_equal. unfold m. rewrite <-Et at 1. rewrite drop_app_length, Nat2Z.id.
    apply take_app_length.
Qed.

(** Room for [size] bytes, and the bytes [l] there. *)
Lemma store_ok b size l : wf b → 0 ≤ size < 2 ^ 31 → Z.of_nat (length l) ≤ size →
  wp (ptr <- bio_alloc size ;; match ptr with Some p => put_bytes p l | None => ret tt end)
    (λ _ b', wf b' ∧ extends b b' ∧ io_offs b' = io_offs b ∧ io_opos b' = io_opos b ∧
      (¬ overflowed b' → ¬ overflowed b ∧ io_pos b' = io_pos b + ALIGN size 4 ∧
        slice (io_bytes b') (io_pos b) (Z.of_nat (length l)) = Some l)) b.
Proof.
  intros [W1 W2 W3 W4 W5 W6 W7] Hs Hl. pose proof (align4 size Hs) as Ha. unfold bio_alloc. apply wp_bind, wp_bind, wp_getst. cbv zeta.
  case_bool_decide as Hfit.
  - apply wp_bind. apply wp_modify, wp_ret, wp_ret. assert (overflowed (set_io_flags (Z.lor (io_flags b) BIO_F_OVERFLOW) b)) as Ho
      by apply overflow_flag.
    split; [by split|]. split; [by split|]. split_and!; done.
  - apply wp_bind, wp_modify, wp_ret. unfold put_bytes. apply wp_bind, wp_getst, wp_bind. cbn [io_bytes set_io_avail set_io_pos].
    destruct (overwrite_ok (io_bytes b) l (io_pos b)) as (m & -> & Em & Et & Es); [lia|lia|].
    eapply wp_deref; [done|]. apply wp_modify. split; [|split; [|split_and!]]; cbn; try done.
    + split; cbn; try lia; rewrite Em; lia.
    + split; cbn; try done; lia.
Qed.

Lemma str16_ok s : Forall (λ c, 0 < c < 2 ^ 16) s → str16 (s ++ [0]) = Some s.
Proof.
  induction 1 as [|c s Hc _ IH]; [done|]. cbn [app str16]. rewrite bool_decide_false by lia. by rewrite IH.
Qed.
Lemma concat_shorts_length s : length (concat (short_bytes <$> s)) = (2 * length s)%nat.
Proof. induction s as [|c s IH]; [done|]. cbn [fmap list_fmap concat]. rewrite length_app, IH. cbn. lia. Qed.
Lemma slice_extends b b' from n x :
  extends b b' → from + n ≤ io_pos b → slice (io_bytes b) from n = Some x → slice (io_bytes b') from n = Some x.
Proof. intros [_ _ E _ _] H. eapply slice_prefix; [exact E|]. lia. Qed.
Lemma slice_front {A} (l l1 l2 : list A) from n m :
  slice l from n = Some (l1 ++ l2) → m = Z.of_nat (length l1) → slice l from m = Some l1.
Proof.
  intros E ->. pose proof (slice_length _ _ _ _ E) as Hl. rewrite length_app in Hl. unfold slice in *.
  case_bool_decide as Hb; [|done]. injection E as E. rewrite bool_decide_true by lia. f_equal.
  rewrite Nat2Z.id. trans (take (length l1) (l1 ++ l2)); [|apply take_app_length]. rewrite <-E, take_take. f_equal. lia.
Qed.

(** What an operation must do for the item [i]. *)
Definition puts (b : bio) (i : item) (b' : bio) : Prop :=
  wf b' ∧ extends b b' ∧
  (¬ overflowed b' → ¬ overflowed b ∧
    encoded (io_bytes b') (take (Z.to_nat (io_opos b')) (io_offs b')) (io_pos b) i (io_pos b')).

Lemma put_uint32_ok b n : wf b → wp (bio_put_uint32 n) (λ _ b', puts b (IWord n) b') b.
Proof.
  intros W. eapply wp_mono; [apply (store_ok b 4 (word_bytes n) W); cbn; lia|].
  intros _ b' (W' & E & _ & _ & H). split; [done|]. split; [done|]. intros Hno. by destruct (H Hno).
Qed.
Lemma put_str16_ok b x s : wf b → str16 x = Some s → Z.of_nat (length s) < 2 ^ 29 →
  wp (bio_put_string16 (Some x)) (λ _ b', puts b (IStr s) b') b.
Proof.
  intros W Hs Hlen. unfold bio_put_string16. rewrite Hs.
  apply wp_bind. eapply wp_deref; [done|]. cbv zeta. change (MAX_BIO_SIZE / 2) with (2 ^ 29). rewrite bool_decide_false by lia.
  apply wp_bind. eapply wp_mono; [apply (put_uint32_ok b _ W)|]. intros _ b1 (W1 & E1 & H1).
  pose proof (store_ok b1 ((Z.of_nat (length s) + 1) * 2) (concat (short_bytes <$> (s ++ [0]))) W1) as Hst.
  rewrite concat_shorts_length, length_app in Hst. cbn [length] in Hst.
  eapply wp_mono; [apply Hst; lia|]. intros _ b2 (W2 & E2 & _ & _ & H2).
  split; [done|]. split; [by apply (extends_trans b b1 b2)|]. intros Hno.
  destruct (H2 Hno) as (N1 & P2 & S2). destruct (H1 N1) as (N & P1 & S1). split; [done|]. cbn [encoded].
  split; [lia|]. split.
  - apply (slice_extends b1 b2); [done|lia|done].
  - rewrite <-P1. rewrite fmap_app, concat_app in S2. eapply slice_front; [exact S2|]. rewrite concat_shorts_length. lia.
Qed.
Lemma put_string16_ok b s : wf b → item_ok (IStr s) → wp (bio_put_string16 (Some (s ++ [0]))) (λ _ b', puts b (IStr s) b') b.
Proof. intros W [Hs Hlen]. apply put_str16_ok; [done|by apply str16_ok|done]. Qed.
Lemma put_ref_ok b h : wf b → h ≠ 0 → wp (bio_put_ref h) (λ _ b', puts b (IRef h) b') b.
Proof.
  intros W Hh. unfold bio_put_ref. rewrite bool_decide_true by done. destruct W as [W1 W2 W3 W4 W5 W6 W7].
  assert (∀ b1, io_bytes b1 = io_bytes b → io_pos b ≤ io_pos b1 → 0 ≤ io_avail b1 → io_pos b1 + io_avail b1 = Z.of_nat (length (io_bytes b1)) →
    io_opos b1 = io_opos b → io_oavail b1 = io_oavail b → io_offs b1 = io_offs b → overflowed b1 → puts b (IRef h) b1) as Hfail.
  { intros b1 E1 E2 E3 E4 E5 E6 E7 Ho. split; [split; rewrite ?E5, ?E6, ?E7, ?E1 in *; try lia|]. split; [split; rewrite ?E5, ?E7, ?E1; try done; lia|]. done. }
  change (ALIGN 16 4) with 16 in *. apply wp_bind. unfold bio_alloc_obj. apply wp_bind. unfold bio_alloc. apply wp_bind, wp_getst. cbv zeta.
  change (ALIGN 16 4) with 16. case_bool_decide as Hfit.
  - apply wp_bind, wp_modify, wp_ret, wp_bind, wp_getst, wp_bind, wp_modify, wp_ret, wp_ret. apply Hfail; try done. apply overflow_flag.
  - apply wp_bind, wp_modify, wp_ret, wp_bind, wp_getst. cbn [io_oavail set_io_avail set_io_pos].
    case_bool_decide as Hoa; [|apply wp_bind, wp_modify, wp_ret, wp_ret; apply Hfail; try done; cbn; try lia; apply overflow_flag].
    cbn [io_offs io_opos set_io_avail set_io_pos]. apply wp_bind.
    destruct (overwrite_ok (io_offs b) [io_pos b] (io_opos b)) as (offs & Eo & El1 & Et1 & Es1); [lia|cbn; lia|].
    change (Z.of_nat (length [io_pos b])) with 1 in Eo, Es1. rewrite Eo. eapply wp_deref; [done|]. apply wp_bind, wp_modify, wp_ret.
    unfold put_bytes. apply wp_bind, wp_getst, wp_bind. cbn [io_bytes io_offs set_io_avail set_io_pos set_io_opos set_io_offs set_io_oavail].
    destruct (overwrite_ok (io_bytes b) (object_bytes BINDER_TYPE_HANDLE h) (io_pos b)) as (m & -> & Em & Et & Es); [lia|cbn; lia|].
    eapply wp_deref; [done|]. apply wp_modify. split; [|split]; cbn -[object_bytes].
    + split; cbn; try lia; rewrite ?Em, ?El1; lia.
    + split; cbn; try done; lia.
    + intros Hno. split; [done|]. split; [done|]. split; [done|].
      pose proof (slice_length _ _ _ _ Es1) as _. unfold slice in Es1. case_bool_decide as Hb; [|done]. injection Es1 as Es1.
      apply (list_elem_of_lookup_2 _ (Z.to_nat (io_opos b))). rewrite lookup_take_lt by lia.
      assert (take (Z.to_nat 1) (drop (Z.to_nat (io_opos b)) offs) !! 0%nat = Some (io_pos b)) as Ex by (by rewrite Es1).
      rewrite lookup_take_lt, lookup_drop, Nat.add_0_r in Ex by lia. exact Ex.
Qed.
Lemma put_item_ok b i : wf b → item_ok i → wp (put_item i) (λ _ b', puts b i b') b.
Proof. destruct i; [by intros; apply put_uint32_ok|apply put_string16_ok|]. intros W [_ Hh]. by apply put_ref_ok. Qed.

Lemma encoded_extends b b' offs offs' p i p1 :
  extends b b' → p1 ≤ io_pos b → (∀ x, x ∈ offs → x ∈ offs') → item_ok i →
  encoded (io_bytes b) offs p i p1 → encoded (io_bytes b') offs' p i p1.
Proof.
  intros E Hp Ho Hi. destruct i as [n|s|h]; cbn [encoded].
  - intros (-> & Hs). split; [done|]. by apply (slice_extends b b').
  - intros (-> & H1 & H2). pose proof (align4 ((Z.of_nat (length s) + 1) * 2)) as Ha. destruct Hi as [_ Hi].
    split_and!; [done|apply (slice_extends b b'); [done|lia|done]|apply (slice_extends b b'); [done|lia|done]].
  - intros (-> & Hs & Hin). split_and!; [done|by apply (slice_extends b b')|by apply Ho].
Qed.
Lemma put_items_ok l : ∀ b, wf b → Forall item_ok l → wp (put_items l) (λ _ b', wf b' ∧ extends b b' ∧
  (¬ overflowed b' → ¬ overflowed b ∧
    encodeds (io_bytes b') (take (Z.to_nat (io_opos b')) (io_offs b')) (io_pos b) l (io_pos b'))) b.
Proof.
  induction l as [|i l IH]; intros b W Hl; [split; [done|]; split; [apply extends_refl|done]|]. apply Forall_cons_1 in Hl as [Hi Hl].
  cbn [put_items]. apply wp_bind. eapply wp_mono; [by apply put_item_ok|]. intros _ b1 (W1 & E1 & H1).
  eapply wp_mono; [by apply IH|]. intros _ b2 (W2 & E2 & H2). split; [done|]. split; [by apply (extends_trans b b1 b2)|].
  intros Hno. destruct (H2 Hno) as [N1 Hs]. destruct (H1 N1) as [N Hi1]. split; [done|]. cbn [encodeds].
  exists (io_pos b1). split; [apply E1|]. split; [apply E2|]. split; [|done].
  eapply encoded_extends; [exact E2|lia| |done|exact Hi1].
  intros x Hx. rewrite (ex_offs _ _ E2) in Hx. apply list_elem_of_lookup_1 in Hx as [k Hk].
  apply list_elem_of_lookup_2 with k. destruct (decide (k < Z.to_nat (io_opos b1))%nat); [|rewrite lookup_take_ge in Hk by lia; done].
  rewrite lookup_take_lt in Hk by done. pose proof (ex_opos _ _ E2). by rewrite lookup_take_lt by lia.
Qed.

(** A message that is being read. *)
Definition reading_at (bytes offs : list Z) (flags p : Z) : bio :=
  Bio bytes p (Z.of_nat (length bytes) - p) offs 0 (Z.of_nat (length offs)) flags.

Lemma bio_get_at bytes offs flags p size : 0 ≤ size < 2 ^ 31 → p + ALIGN size 4 ≤ Z.of_nat (length bytes) →
  bio_get size (reading_at bytes offs flags p) = Ret (Some p) (reading_at bytes offs flags (p + ALIGN size 4)).
Proof.
  intros Hs Hp. unfold bio_get. rewrite bind_getst. cbv zeta. rewrite bool_decide_false by (cbn; lia).
  rewrite bind_modify. unfold ret, reading_at. cbn [io_pos io_avail set_io_avail set_io_pos]. f_equal. unfold set_io_avail, set_io_pos. cbn. f_equal; lia.
Qed.
Lemma word_at_ok bytes offs flags p q n : is_word n → slice bytes q 4 = Some (word_bytes n) →
  word_at (reading_at bytes offs flags p) q = Some n.
Proof.
  intros Hn Hs. unfold word_at. cbn [io_bytes reading_at]. rewrite Hs. cbn [mbind option_bind].
  change (word_bytes n) with (concat (word_bytes <$> [n])). rewrite words_of_bytes by (by constructor). cbn. by rewrite u32_small.
Qed.
Lemma get_uint32_at bytes offs flags p n : is_word n → p + 4 ≤ Z.of_nat (length bytes) → slice bytes p 4 = Some (word_bytes n) →
  bio_get_uint32 (reading_at bytes offs flags p) = Ret n (reading_at bytes offs flags (p + 4)).
Proof.
  intros Hn Hp Hs. unfold bio_get_uint32. rewrite (bind_of _ (bio_get_at bytes offs flags p 4 ltac:(lia) Hp)), bind_getst.
  change (ALIGN 4 4) with 4. by rewrite (word_at_ok _ _ _ _ _ n).
Qed.
Lemma slice_slice {A} (l x : list A) from n a m : slice l from n = Some x → 0 ≤ a → 0 ≤ m → a + m ≤ n →
  slice l (from + a) m = slice x a m.
Proof.
  intros E Ha Hm Hn. pose proof (slice_length _ _ _ _ E) as Hl. unfold slice in E. case_bool_decide as Hb; [|done].
  injection E as <-. rewrite !slice_ok by lia. f_equal.
  rewrite skipn_firstn_comm, take_take, drop_drop. do 2 f_equal; lia.
Qed.
Lemma shorts_of_bytes s : Forall (λ c, 0 < c < 2 ^ 16) s → shorts_of (concat (short_bytes <$> s)) = s.
Proof.
  induction 1 as [|c s Hc _ IH]; [done|]. cbn [fmap list_fmap concat short_bytes app shorts_of]. rewrite IH. f_equal.
  rewrite (Z.mod_small (c / 2 ^ 8)) by (split; [apply Z.div_pos; lia|apply Z.div_lt_upper_bound; lia]).
  pose proof (Z.div_mod c (2 ^ 8) ltac:(lia)). lia.
Qed.

Lemma get_string16_at bytes offs flags p s p1 : 0 ≤ p → p ≤ p1 → p1 ≤ Z.of_nat (length bytes) → Z.of_nat (length bytes) < 2 ^ 31 →
  item_ok (IStr s) → encoded bytes offs p (IStr s) p1 →
  bio_get_string16 (reading_at bytes offs flags p) = Ret (Some (p + 4), Z.of_nat (length s)) (reading_at bytes offs flags p1).
Proof.
  intros Hp Hp1 Hl Hs [Hc Hlen] E. cbn [encoded] in E. destruct E as (-> & Hb1 & Hb2).
  pose proof (align4 ((Z.of_nat (length s) + 1) * 2) ltac:(lia)) as Ha. unfold bio_get_string16.
  rewrite (bind_of _ (get_uint32_at bytes offs flags p (Z.of_nat (length s)) ltac:(unfold is_word; lia) ltac:(lia) Hb1)).
  rewrite (u32_small (_ * 2)) by lia.
  by rewrite (bind_of _ (bio_get_at bytes offs flags (p + 4) ((Z.of_nat (length s) + 1) * 2) ltac:(lia) Hl)).
Qed.
Lemma chars_at_ok bytes offs flags p s p1 q : item_ok (IStr s) → encoded bytes offs p (IStr s) p1 →
  chars_at (reading_at bytes offs flags q) (p + 4) (Z.of_nat (length s)) = Some s.
Proof.
  intros [Hc _] E. cbn [encoded] in E. destruct E as (_ & _ & Hb). unfold chars_at. cbn [io_bytes reading_at].
  rewrite Hb. cbn [mbind option_bind]. by rewrite shorts_of_bytes.
Qed.
Lemma get_ref_at bytes offs flags p h : p + 16 ≤ Z.of_nat (length bytes) → item_ok (IRef h) → encoded bytes offs p (IRef h) (p + 16) →
  bio_get_ref (reading_at bytes offs flags p) = Ret h (reading_at bytes offs flags (p + 16)).
Proof.
  intros Hl [Hh Hne] (_ & Hb & Hin). unfold bio_get_ref, bio_get_obj. rewrite !bind_bind, bind_getst.
  cbn [io_offs io_opos io_oavail io_pos reading_at]. rewrite slice_ok by lia. rewrite Nat2Z.id, drop_0, firstn_all, bind_bind, bind_deref.
  rewrite bool_decide_true by done. rewrite (bind_of _ (bio_get_at bytes offs flags p 16 ltac:(lia) Hl)), bind_getst.
  change (ALIGN 16 4) with 16. rewrite (word_at_ok _ _ _ _ p BINDER_TYPE_HANDLE), bind_deref.
  - rewrite (word_at_ok _ _ _ _ (p + 8) h), bind_deref; [done|done|].
    rewrite (slice_slice _ _ _ _ 8 4 Hb) by lia. reflexivity.
  - unfold is_word, BINDER_TYPE_HANDLE. lia.
  - rewrite <-(Z.add_0_r p) at 1. rewrite (slice_slice _ _ _ _ 0 4 Hb) by lia. reflexivity.
Qed.
Lemma get_like_at bytes offs flags p i p1 : 0 ≤ p → p ≤ p1 → p1 ≤ Z.of_nat (length bytes) → Z.of_nat (length bytes) < 2 ^ 31 →
  item_ok i → encoded bytes offs p i p1 →
  get_like i (reading_at bytes offs flags p) = Ret i (reading_at bytes offs flags p1).
Proof.
  intros Hp Hp1 Hl Hs Hi E. destruct i as [n|s|h]; cbn [get_like].
  - destruct E as (-> & Hb). by rewrite (bind_of _ (get_uint32_at _ _ _ _ n Hi Hl Hb)).
  - rewrite (bind_of _ (get_string16_at bytes offs flags p s p1 Hp Hp1 Hl Hs Hi E)), bind_getst.
    by rewrite (chars_at_ok bytes offs flags p s p1), bind_deref.
  - pose proof E as (-> & _). by rewrite (bind_of _ (get_ref_at bytes offs flags p h Hl Hi E)).
Qed.
Lemma get_likes_at l : ∀ bytes offs flags p, 0 ≤ p ≤ Z.of_nat (length bytes) → Z.of_nat (length bytes) < 2 ^ 31 →
  Forall item_ok l → encodeds bytes offs p l (Z.of_nat (length bytes)) →
  get_likes l (reading_at bytes offs flags p) = Ret l (reading_at bytes offs flags (Z.of_nat (length bytes))).
Proof.
  induction l as [|i l IH]; intros bytes offs flags p Hp Hs Hl E; [by rewrite <-E|].
  apply Forall_cons_1 in Hl as [Hi Hl]. destruct E as (p1 & H1 & H2 & Hi1 & E). cbn [get_likes].
  rewrite (bind_of _ (get_like_at bytes offs flags p i p1 ltac:(lia) H1 H2 Hs Hi Hi1)).
  by rewrite (bind_of _ (IH bytes offs flags p1 ltac:(lia) Hs Hl E)).
Qed.
Lemma encodeds_take bytes offs l : ∀ p p' n, p' ≤ Z.of_nat n → Forall item_ok l → encodeds bytes offs p l p' →
  encodeds (take n bytes) offs p l p'.
Proof.
  assert (∀ from m x n, from + m ≤ Z.of_nat n → slice bytes from m = Some x → slice (take n bytes) from m = Some x) as Hsl.
  { intros from m x n H. apply (slice_prefix _ _ n); [by rewrite take_take, Nat.min_id|done]. }
  induction l as [|i l IH]; intros p p' n Hn Hl E; [done|]. apply Forall_cons_1 in Hl as [Hi Hl].
  destruct E as (p1 & H1 & H2 & Hi1 & E). exists p1. split; [done|]. split; [done|]. split; [|by apply IH].
  destruct i as [w|s|h]; cbn [encoded] in *.
  - destruct Hi1 as (-> & ?). split; [done|]. apply Hsl; [lia|done].
  - destruct Hi as [_ Hi]. pose proof (align4 ((Z.of_nat (length s) + 1) * 2) ltac:(lia)).
    destruct Hi1 as (-> & ? & ?). split_and!; [done|apply Hsl; [lia|done]..].
  - destruct Hi1 as (-> & ? & ?). split_and!; [done|apply Hsl; [lia|done]|done].
Qed.

(** C37: values that are put into a message are got out of it again, in their order, by
    a receiver that is given the bytes and the array of objects up to where the sender
    stopped, unless the message is marked as too long; the sender never writes past
    its block, nor does the receiver read past the message. *)
Theorem bio_roundtrip (data : list Z) (maxoffs : Z) (b0 : bio) (l : list item)
    (Hdata : Z.of_nat (length data) < 2 ^ 31) (Hoffs : 0 ≤ maxoffs ∧ maxoffs * 4 ≤ Z.of_nat (length data))
    (Hl : Forall item_ok l) :
  ∃ b, put_items l (bio_init data (Z.of_nat (length data)) maxoffs b0) = Ret tt b ∧
    (¬ overflowed b →
      let msg := bio_init_from_txn (take (Z.to_nat (io_pos b)) (io_bytes b)) (take (Z.to_nat (io_opos b)) (io_offs b))
        (io_pos b) (io_opos b * 4) in
      ∃ b', get_likes l msg = Ret l b' ∧ io_avail b' = 0 ∧ ¬ overflowed b').
Proof.
  set (b1 := bio_init _ _ _ _).
  assert (wf b1 ∧ ¬ overflowed b1 ∧ io_pos b1 = 0) as (W & Hno & Hp0).
  { unfold b1, bio_init. rewrite u32_small by lia. rewrite bool_decide_false by lia.
    assert (length (words_of (take (Z.to_nat (maxoffs * 4)) data)) = Z.to_nat maxoffs) as Hw.
    { rewrite <-(Z2Nat.id maxoffs) by lia. set (k := Z.to_nat maxoffs). assert (4 * k ≤ length data)%nat as Hk by lia.
      rewrite Nat2Z.id. replace (Z.to_nat (Z.of_nat k * 4)) with (4 * k)%nat by lia. clearbody k. clear -Hk.
      revert data Hk. induction k as [|k IH]; intros data Hk; [done|]. destruct data as [|x0 [|x1 [|x2 [|x3 data]]]]; cbn in Hk; try lia.
      replace (4 * S k)%nat with (S (S (S (S (4 * k))))) by lia. cbn [take words_of length]. f_equal. apply IH. lia. }
    split; [|done]. split; cbn; rewrite ?length_drop, ?Hw; lia. }
  destruct (wp_elim _ _ _ (put_items_ok l b1 W Hl)) as ([] & b & E & Wb & _ & Hb). exists b. split; [exact E|].
  intros Hnb msg. destruct (Hb Hnb) as [_ Henc]. rewrite Hp0 in Henc. destruct Wb as [W1 W2 W3 W4 W5 W6 W7].
  assert (Z.of_nat (length (take (Z.to_nat (io_pos b)) (io_bytes b))) = io_pos b) as Hlen by (rewrite length_take; lia).
  assert (msg = reading_at (take (Z.to_nat (io_pos b)) (io_bytes b)) (take (Z.to_nat (io_opos b)) (io_offs b)) BIO_F_SHARED 0) as ->.
  { unfold msg, bio_init_from_txn, reading_at. rewrite Hlen, length_take, Z.div_mul by lia. f_equal; lia. }
  eexists. split; [apply get_likes_at; [lia|lia|done|]|].
  - rewrite Hlen. apply encodeds_take; [lia|done|done].
  - split; [cbn; lia|done].
Qed.

Lemma bio_roundtrip_witness :
  let l := [IWord 7; IStr [115; 118; 99]; IRef 5] in
  Forall item_ok l ∧ ∃ b, put_items l (bio_init (replicate 64 0) 64 1 (bio_init [] 0 0 (Bio [] 0 0 [] 0 0 0))) = Ret tt b ∧ ¬ overflowed b ∧
    ∃ b', get_likes l (bio_init_from_txn (take (Z.to_nat (io_pos b)) (io_bytes b)) (take (Z.to_nat (io_opos b)) (io_offs b))
        (io_pos b) (io_opos b * 4)) = Ret l b' ∧ io_avail b' = 0.
Proof.
  intros l. assert (Forall item_ok l) as Hl.
  { repeat constructor; cbn; unfold is_word; lia. }
  split; [exact Hl|].
  destruct (bio_roundtrip (replicate 64 0) 1 (bio_init [] 0 0 (Bio [] 0 0 [] 0 0 0)) l) as (b & E & H).
  - cbn. lia.
  - cbn. lia.
  - exact Hl.
  - exists b. split; [exact E|]. assert (¬ overflowed b) as Hno.
    { vm_compute in E. injection E as <-. by vm_compute. }
    split; [exact Hno|]. destruct (H Hno) as (b' & Eb & Ha & _). by exists b'.
Defined.
