(* ===== verification/ServiceManager.v ===== *)
(** * The service manager

    [servicemanager/service_manager.c] and the loop of [servicemanager/binder.c]: the
    process that knows the services by name.  It is told of a service with a handle,
    takes a strong reference on it, asks to be told of its death, and hands the handle
    out to those that ask for the name. *)

From Stdlib Require Import ZArith Lia.
From stdpp Require Import base tactics numbers option list gmap relations.
From S2P Require Import Prelude Words Rbtree BinderAlloc BinderState BinderUser ServiceIO.

Definition SVC_MGR_GET_SERVICE : Z := 1.
Definition SVC_MGR_CHECK_SERVICE : Z := 2.
Definition SVC_MGR_ADD_SERVICE : Z := 3.
Definition SVC_MGR_LIST_SERVICES : Z := 4.
Definition svcmgr_handle : Z := 0.
Definition TF_STATUS_CODE : Z := 8.

(** "android.os.IServiceManager". *)
Definition svcmgr_id : list Z :=
  [97; 110; 100; 114; 111; 105; 100; 46; 111; 115; 46; 73; 83; 101; 114; 118; 105; 99; 101; 77; 97; 110; 97; 103; 101; 114].

(** [struct svcinfo], at its address; its [binder_death] refers to itself. *)
Record svcinfo := Svc { si_addr : Z; si_ptr : Z; si_len : Z; si_name : list Z }.
Definition set_si_ptr (ptr : Z) (si : svcinfo) : svcinfo := Svc (si_addr si) ptr (si_len si) (si_name si).
Definition si_death (si : svcinfo) : Z := u32 (si_addr si + 8).

(** What has been written to the driver: words, and replies with their contents. *)
Inductive command := Words (l : list Z) | Reply (buffer : Z) (status : Z) (data offs : list Z).
Record sm := Sm { svclist : list svcinfo; written : list command }.
Definition set_svclist (l : list svcinfo) (s : sm) : sm := Sm l (written s).

Definition binder_write (c : command) : M sm unit := modify (λ s, Sm (svclist s) (written s ++ [c])).
Definition binder_acquire (ptr : Z) : M sm unit := binder_write (Words [BC_ACQUIRE; ptr]).
Definition binder_release (ptr : Z) : M sm unit := binder_write (Words [BC_RELEASE; ptr]).
Definition binder_link_to_death (ptr death : Z) : M sm unit :=
  binder_write (Words [BC_REQUEST_DEATH_NOTIFICATION; ptr; death]).

(** [find_svc]: the test is that of the lengths alone. *)
Fixpoint find_svc (len : Z) (l : list svcinfo) : option svcinfo :=
  match l with
  | [] => None
  | si :: l => if bool_decide (len = si_len si) then Some si else find_svc len l
  end.
(** A service by its address, and a store into it. *)
Definition svc_at (addr : Z) (l : list svcinfo) : option svcinfo := head (filter (λ si, si_addr si = addr) l).
Definition store_ptr (addr ptr : Z) (l : list svcinfo) : list svcinfo :=
  (λ si, if bool_decide (si_addr si = addr) then set_si_ptr ptr si else si) <$> l.

Definition svcinfo_death (addr : Z) : M sm unit :=
  s <- getst ;;
  si <- deref (svc_at addr (svclist s)) ;;
  when bool_decide (si_ptr si ≠ 0) do (
    binder_release (si_ptr si) ;;;
    modify (λ s, set_svclist (store_ptr addr 0 (svclist s)) s)).

Definition do_find_service (len : Z) (s : sm) : Z :=
  match find_svc len (svclist s) with Some si => si_ptr si | None => 0 end.

Section manager.
(** [malloc] of a [svcinfo]. *)
Context (malloc : sm → option Z).

(** [do_add_service]; the name is at the place [s] of the message [msg]. *)
Definition do_add_service (msg : bio) (s : option Z) (len ptr : Z) : M sm Z :=
  if bool_decide (ptr = 0) || bool_decide (len = 0) || bool_decide (len > 127) then ret (-1) else
  st <- getst ;;
  added <- (match find_svc len (svclist st) with
    | Some si =>
        (when bool_decide (si_ptr si ≠ 0) do svcinfo_death (si_addr si)) ;;;
        modify (λ st, set_svclist (store_ptr (si_addr si) ptr (svclist st)) st) ;;;
        ret (Some (si_death si))
    | None =>
        match malloc st with
        | None => ret None
        | Some addr =>
            p <- deref s ;;
            name <- deref (chars_at msg p (len + 1)) ;;
            let si := Svc addr ptr len (<[Z.to_nat len := 0]> name) in
            modify (λ st, set_svclist (si :: svclist st) st) ;;;
            ret (Some (si_death si))
        end
    end) ;;
  match added with
  | None => ret (-1)
  | Some death =>
      binder_acquire ptr ;;;
      binder_link_to_death ptr death ;;;
      ret 0
  end.

(** The manager with the message it is handling and the reply. *)
Record call := Call { c_sm : sm; c_msg : bio; c_reply : bio }.
Definition in_sm {A} : M sm A → M call A := zoom c_sm (λ s c, Call s (c_msg c) (c_reply c)).
Definition in_msg {A} : M bio A → M call A := zoom c_msg (λ b c, Call (c_sm c) b (c_reply c)).
Definition in_reply {A} : M bio A → M call A := zoom c_reply (λ b c, Call (c_sm c) (c_msg c) b).

(** The [switch] of the handler. *)
Definition svcmgr_switch (code : Z) : M call Z :=
  if bool_decide (code = SVC_MGR_GET_SERVICE) || bool_decide (code = SVC_MGR_CHECK_SERVICE) then
    let* (s, len) := in_msg bio_get_string16 in
    c <- getst ;;
    let ptr := do_find_service len (c_sm c) in
    if bool_decide (ptr = 0) then in_reply (bio_put_uint32 0) ;;; ret 0
    else in_reply (bio_put_ref ptr) ;;; ret 0
  else if bool_decide (code = SVC_MGR_ADD_SERVICE) then
    let* (s, len) := in_msg bio_get_string16 in
    ptr <- in_msg bio_get_ref ;;
    c <- getst ;;
    r <- in_sm (do_add_service (c_msg c) s len ptr) ;;
    if negb (bool_decide (r = 0)) then ret (-1) else
    in_reply (bio_put_uint32 0) ;;; ret 0
  else if bool_decide (code = SVC_MGR_LIST_SERVICES) then
    n <- in_msg bio_get_uint32 ;;
    c <- getst ;;
    match drop (Z.to_nat n) (svclist (c_sm c)) with
    | si :: _ => in_reply (bio_put_string16 (Some (si_name si))) ;;; ret 0
    | [] => ret (-1)
    end
  else ret (-1).
Definition svcmgr_handler (target code : Z) : M call Z :=
  if bool_decide (target ≠ svcmgr_handle) then ret (-1) else
  _ <- in_msg bio_get_uint32 ;;
  let* (s, len) := in_msg bio_get_string16 in
  c <- getst ;;
  ok <- (if bool_decide (len ≠ 26) then ret false else
      p <- deref s ;;
      id <- deref (chars_at (c_msg c) p 26) ;;
      ret (bool_decide (id = svcmgr_id))) ;;
  if negb ok then ret (-1) else
  svcmgr_switch code.

(** ** The loop *)

(** The block the replies are made in, as it is found. *)
Context (rdata : list Z).
(** The words a read returns and, by place and size, the memory the driver maps. *)
Definition answer : Type := list Z * (Z → Z → list Z).

(** [binder_send_reply]. *)
Definition binder_send_reply (reply : bio) (buffer status : Z) : M sm unit :=
  binder_write (if negb (bool_decide (status = 0)) then Reply buffer TF_STATUS_CODE (word_bytes (u32 status)) []
    else Reply buffer 0 (take (Z.to_nat (io_pos reply)) (io_bytes reply)) (take (Z.to_nat (io_opos reply)) (io_offs reply))).

(** [binder_parse], of the words the driver has returned, for the loop of the manager
    ([bio] is null); a transaction is ten words. *)
Fixpoint binder_parse (mapped : Z → Z → list Z) (fuel : nat) (ws : list Z) (r : Z) : M sm Z :=
  match fuel with
  | O => crash_with CrashFuel
  | S fuel =>
      match ws with
      | [] => ret r
      | cmd :: ws =>
          if bool_decide (cmd = BR_NOOP ∨ cmd = BR_TRANSACTION_COMPLETE) then binder_parse mapped fuel ws r
          else if bool_decide (cmd = BR_INCREFS ∨ cmd = BR_ACQUIRE ∨ cmd = BR_RELEASE ∨ cmd = BR_DECREFS) then
            binder_parse mapped fuel (drop 2 ws) r
          else if bool_decide (cmd = BR_TRANSACTION) then
            match ws with
            | target :: cookie :: code :: flags :: pid :: euid :: data_size :: offs_size :: data :: offs :: rest =>
                s <- getst ;;
                let reply := bio_init rdata 256 4 (Bio [] 0 0 [] 0 0 0) in
                let msg := bio_init_from_txn (mapped data data_size) (words_of (mapped offs offs_size)) data_size offs_size in
                (λ s', match svcmgr_handler target code (Call s msg reply) with
                  | Ret res c => (binder_send_reply (c_reply c) data res ;;; binder_parse mapped fuel rest r) (c_sm c)
                  | Crash e => Crash e
                  end)
            | _ => ret (-1)
            end
          else if bool_decide (cmd = BR_REPLY) then
            if bool_decide (length ws < 10)%nat then ret (-1) else binder_parse mapped fuel (drop 10 ws) 0
          else if bool_decide (cmd = BR_DEAD_BINDER) then
            match ws with
            | death :: ws =>
                s <- getst ;;
                si <- deref (head (filter (λ si, si_death si = death) (svclist s))) ;;
                svcinfo_death (si_addr si) ;;;
                binder_parse mapped fuel ws r
            | [] => crash_with CrashOops
            end
          else if bool_decide (cmd = BR_FAILED_REPLY ∨ cmd = BR_DEAD_REPLY) then binder_parse mapped fuel ws (-1)
          else ret (-1)
      end
  end.

(** [binder_loop], over the answers of [ioctl]: an error, or what was read. It ends at
    the first error; when the answers are used up it is waiting ([true]). *)
Fixpoint binder_rounds (answers : list (option answer)) : M sm bool :=
  match answers with
  | [] => ret true
  | None :: _ => ret false
  | Some (ws, mapped) :: answers =>
      res <- binder_parse mapped (S (length ws)) ws 1 ;;
      if bool_decide (res <= 0) then ret false else binder_rounds answers
  end.
Definition binder_loop (answers : list (option answer)) : M sm bool :=
  binder_write (Words [BC_ENTER_LOOPER]) ;;; binder_rounds answers.
End manager.

(** ** The references the manager holds *)

#[export] Instance command_eq : EqDecision command.
Proof. solve_decision. Defined.
Definition acquired (h : Z) (w : list command) : nat := length (filter (λ c, c = Words [BC_ACQUIRE; h]) w).
Definition released (h : Z) (w : list command) : nat := length (filter (λ c, c = Words [BC_RELEASE; h]) w).
(** The services that have the handle [h]. *)
Definition known (h : Z) (l : list svcinfo) : nat := length (filter (λ si, si_ptr si = h) l).

Record sm_ok (s : sm) : Prop := {
  ok_addr : NoDup (si_addr <$> svclist s);
  ok_len : NoDup (si_len <$> svclist s);
  ok_name : Forall (λ si, 0 < si_len si ≤ 127 ∧ Z.of_nat (length (si_name si)) = si_len si + 1 ∧
    si_name si !! Z.to_nat (si_len si) = Some 0) (svclist s);
  ok_refs h : h ≠ 0 → acquired h (written s) = (released h (written s) + known h (svclist s))%nat
}.

Lemma find_svc_Some len l si : find_svc len l = Some si → si ∈ l ∧ si_len si = len.
Proof.
  induction l as [|x l IH]; [done|]. cbn. case_bool_decide as E.
  - intros [= ->]. split; [apply elem_of_cons; by left|done].
  - intros H. destruct (IH H). split; [apply elem_of_cons; by right|done].
Qed.
Lemma find_svc_None len l : find_svc len l = None → len ∉ si_len <$> l.
Proof.
  induction l as [|x l IH]; cbn; [intros _; apply not_elem_of_nil|]. case_bool_decide as E; [done|]. intros H.
  rewrite not_elem_of_cons. split; [done|auto].
Qed.
Lemma svc_at_ok l si : NoDup (si_addr <$> l) → si ∈ l → svc_at (si_addr si) l = Some si.
Proof.
  unfold svc_at. induction l as [|x l IH]; [by intros _ ?%elem_of_nil|]. cbn [fmap list_fmap]. rewrite NoDup_cons. intros [Hx Hl] Hin.
  cbn [filter list_filter]. case_decide as E.
  - apply elem_of_cons in Hin as [->|Hin]; [done|]. destruct Hx. rewrite E. by apply list_elem_of_fmap_2.
  - apply elem_of_cons in Hin as [->|Hin]; [done|]. by apply IH.
Qed.
Lemma svc_at_Some a l si : svc_at a l = Some si → si ∈ l ∧ si_addr si = a.
Proof.
  unfold svc_at. intros H. assert (si ∈ filter (λ si, si_addr si = a) l) as Hin.
  { destruct (filter _ l); [done|]. injection H as ->. apply elem_of_cons. by left. }
  apply list_elem_of_filter in Hin. tauto.
Qed.

Lemma store_ptr_addr a p l : si_addr <$> store_ptr a p l = si_addr <$> l.
Proof. unfold store_ptr. rewrite <-list_fmap_compose. apply list_fmap_ext. intros i si _. unfold compose. by destruct (bool_decide _). Qed.
Lemma store_ptr_len a p l : si_len <$> store_ptr a p l = si_len <$> l.
Proof. unfold store_ptr. rewrite <-list_fmap_compose. apply list_fmap_ext. intros i si _. unfold compose. by destruct (bool_decide _). Qed.
Lemma store_ptr_twice a p q l : store_ptr a p (store_ptr a q l) = store_ptr a p l.
Proof.
  unfold store_ptr. rewrite <-list_fmap_compose. apply list_fmap_ext. intros i si _. unfold compose.
  destruct (bool_decide (si_addr si = a)) eqn:E; [|by rewrite E].
  change (si_addr (set_si_ptr q si)) with (si_addr si). by rewrite E.
Qed.
Lemma store_ptr_name a p l (P : Z → list Z → Prop) :
  Forall (λ si, P (si_len si) (si_name si)) l → Forall (λ si, P (si_len si) (si_name si)) (store_ptr a p l).
Proof. intros H. apply Forall_fmap. eapply Forall_impl; [exact H|]. intros si Hs. unfold compose. by destruct (bool_decide (si_addr si = a)). Qed.
Lemma store_ptr_other a p l : a ∉ si_addr <$> l → store_ptr a p l = l.
Proof.
  intros H. unfold store_ptr. rewrite <-(list_fmap_id l) at 2. apply list_fmap_ext. intros i si Hi. cbv beta.
  rewrite bool_decide_false; [done|]. intros <-. apply H. apply list_elem_of_fmap_2. by eapply list_elem_of_lookup_2.
Qed.

Definition one (P : Prop) `{Decision P} : nat := if decide P then 1%nat else 0%nat.
Lemma store_ptr_cons a p x l :
  store_ptr a p (x :: l) = (if bool_decide (si_addr x = a) then set_si_ptr p x else x) :: store_ptr a p l.
Proof. done. Qed.
Lemma known_cons h x l : known h (x :: l) = (one (si_ptr x = h) + known h l)%nat.
Proof. unfold known, one. rewrite filter_cons. by case_decide. Qed.
(** A store changes which handle one service has. *)
Lemma known_store h l p si : NoDup (si_addr <$> l) → si ∈ l →
  (known h (store_ptr (si_addr si) p l) + one (si_ptr si = h) = known h l + one (p = h))%nat.
Proof.
  induction l as [|x l IH]; [by intros _ ?%elem_of_nil|]. rewrite fmap_cons, NoDup_cons.
  intros [Hx Hl] [->|Hin]%elem_of_cons; rewrite store_ptr_cons, !known_cons.
  - rewrite bool_decide_true, store_ptr_other by done. cbn [set_si_ptr si_ptr]. lia.
  - rewrite bool_decide_false; [|intros E; apply Hx; rewrite E; by apply list_elem_of_fmap_2].
    specialize (IH Hl Hin). lia.
Qed.
Lemma find_svc_store a p l len : NoDup (si_addr <$> l) →
  find_svc len (store_ptr a p l) = (λ si, if bool_decide (si_addr si = a) then set_si_ptr p si else si) <$> find_svc len l.
Proof.
  induction l as [|x l IH]; [done|]. rewrite fmap_cons, NoDup_cons. intros [_ Hl]. rewrite store_ptr_cons. cbn [find_svc].
  replace (si_len (if bool_decide (si_addr x = a) then set_si_ptr p x else x)) with (si_len x) by (by destruct (bool_decide (si_addr x = a))).
  destruct (bool_decide (len = si_len x)); [done|by apply IH].
Qed.
Lemma acquired_app h w1 w2 : acquired h (w1 ++ w2) = (acquired h w1 + acquired h w2)%nat.
Proof. unfold acquired. by rewrite filter_app, length_app. Qed.
Lemma released_app h w1 w2 : released h (w1 ++ w2) = (released h w1 + released h w2)%nat.
Proof. unfold released. by rewrite filter_app, length_app. Qed.

(** ** Adding a service, and its death *)

Lemma sm_ok_store s si p w : sm_ok s → si ∈ svclist s →
  (∀ h, h ≠ 0 → (acquired h w + one (si_ptr si = h) = released h w + one (p = h))%nat) →
  sm_ok (Sm (store_ptr (si_addr si) p (svclist s)) (written s ++ w)).
Proof.
  intros [H1 H2 H3 H4] Hin Hw. split; cbn [svclist written]; rewrite ?store_ptr_addr, ?store_ptr_len; [done..| |].
  - by apply (store_ptr_name _ _ _ (λ len name, 0 < len ≤ 127 ∧ Z.of_nat (length name) = len + 1 ∧ name !! Z.to_nat len = Some 0)).
  - intros h Hh. rewrite acquired_app, released_app. pose proof (known_store h (svclist s) p si H1 Hin) as Hk.
    specialize (H4 h Hh). specialize (Hw h Hh). lia.
Qed.
Lemma sm_ok_new s si w : sm_ok s → si_addr si ∉ si_addr <$> svclist s → find_svc (si_len si) (svclist s) = None →
  0 < si_len si ≤ 127 → Z.of_nat (length (si_name si)) = si_len si + 1 → si_name si !! Z.to_nat (si_len si) = Some 0 →
  (∀ h, h ≠ 0 → acquired h w = (released h w + one (si_ptr si = h))%nat) →
  sm_ok (Sm (si :: svclist s) (written s ++ w)).
Proof.
  intros [H1 H2 H3 H4] Ha Hf Hlen Hn1 Hn2 Hw. split; cbn [svclist written]; rewrite ?fmap_cons.
  - by constructor.
  - constructor; [by apply find_svc_None|done].
  - by constructor.
  - intros h Hh. rewrite acquired_app, released_app, known_cons. specialize (H4 h Hh). specialize (Hw h Hh). lia.
Qed.

(** What [svcinfo_death] writes for the handle of a service. *)
Definition dropped (ptr : Z) : list command := if bool_decide (ptr = 0) then [] else [Words [BC_RELEASE; ptr]].
Definition taken (ptr death : Z) : list command :=
  [Words [BC_ACQUIRE; ptr]; Words [BC_REQUEST_DEATH_NOTIFICATION; ptr; death]].

Lemma store_ptr_same l si : NoDup (si_addr <$> l) → si ∈ l → store_ptr (si_addr si) (si_ptr si) l = l.
Proof.
  induction l as [|x l IH]; [done|]. rewrite fmap_cons, NoDup_cons. intros [Hx Hl] Hin. rewrite store_ptr_cons.
  apply elem_of_cons in Hin as [->|Hin].
  - rewrite bool_decide_true, store_ptr_other by done. f_equal. by destruct x.
  - rewrite bool_decide_false; [|intros E; apply Hx; rewrite E; by apply list_elem_of_fmap_2]. by rewrite IH.
Qed.
Lemma svcinfo_death_eq s si : NoDup (si_addr <$> svclist s) → si ∈ svclist s →
  svcinfo_death (si_addr si) s = Ret tt (Sm (store_ptr (si_addr si) 0 (svclist s)) (written s ++ dropped (si_ptr si))).
Proof.
  intros Hnd Hin. unfold svcinfo_death, dropped. rewrite bind_getst, svc_at_ok, bind_deref by done.
  destruct (decide (si_ptr si = 0)) as [E|E].
  - rewrite bool_decide_false, bool_decide_true by auto. rewrite app_nil_r. pose proof (store_ptr_same (svclist s) si Hnd Hin) as Es. rewrite E in Es. rewrite Es. by destruct s.
  - rewrite bool_decide_true, bool_decide_false by done. done.
Qed.
Lemma dropped_counts h ptr : h ≠ 0 → acquired h (dropped ptr) = 0%nat ∧ released h (dropped ptr) = one (ptr = h).
Proof.
  intros Hh. unfold dropped, acquired, released, one. case_bool_decide as E; cbn [filter list_filter]; repeat case_decide; split; try done; congruence.
Qed.
Lemma taken_counts h ptr death : acquired h (taken ptr death) = one (ptr = h) ∧ released h (taken ptr death) = 0%nat.
Proof. unfold taken, acquired, released, one. cbn [filter list_filter]. repeat case_decide; split; try done; congruence. Qed.

Lemma key_inj {A B} (f : A → B) l x y : NoDup (f <$> l) → x ∈ l → y ∈ l → f x = f y → x = y.
Proof.
  intros Hnd [i Hi]%list_elem_of_lookup_1 [j Hj]%list_elem_of_lookup_1 E.
  assert (i = j) as ->; [|congruence]. apply (NoDup_lookup _ _ _ (f x) Hnd); rewrite list_lookup_fmap.
  - by rewrite Hi.
  - by rewrite Hj, E.
Qed.
Lemma do_find_store l si p w s len : sm_ok s → si ∈ svclist s → l = svclist s →
  do_find_service len (Sm (store_ptr (si_addr si) p l) w) = if bool_decide (len = si_len si) then p else do_find_service len s.
Proof.
  intros [H1 H2 _ _] Hin ->. unfold do_find_service. cbn [svclist]. rewrite find_svc_store by done.
  destruct (find_svc len (svclist s)) as [y|] eqn:E; cbn [fmap option_fmap option_map].
  - apply find_svc_Some in E as [Hy <-]. destruct (decide (si_addr y = si_addr si)) as [Ea|Ea].
    + apply (key_inj si_addr (svclist s)) in Ea as ->; [|done..]. by rewrite !bool_decide_true.
    + rewrite (bool_decide_false (si_addr y = _)) by done. rewrite bool_decide_false; [done|].
      intros El. apply Ea. f_equal. by apply (key_inj si_len (svclist s)).
  - rewrite bool_decide_false; [done|]. intros ->. apply (find_svc_None _ _ E). by apply list_elem_of_fmap_2.
Qed.

Lemma svcinfo_death_ok s si : sm_ok s → si ∈ svclist s → ∃ s', svcinfo_death (si_addr si) s = Ret tt s' ∧ sm_ok s' ∧
  ∀ len, do_find_service len s' = if bool_decide (len = si_len si) then 0 else do_find_service len s.
Proof.
  intros Hok Hin. rewrite svcinfo_death_eq; [|apply Hok|done]. eexists. split; [done|]. split.
  - apply sm_ok_store; [done|done|]. intros h Hh. destruct (dropped_counts h (si_ptr si) Hh) as [-> ->].
    unfold one. repeat case_decide; lia.
  - intros len. by apply do_find_store.
Qed.

Section adding.
Context (malloc : sm → option Z).
Hypothesis malloc_fresh : ∀ s a, malloc s = Some a → a ∉ si_addr <$> svclist s.

Lemma chars_at_length b p n l : 0 ≤ n → chars_at b p n = Some l → Z.of_nat (length l) = n.
Proof.
  unfold chars_at. intros Hn. destruct (slice (io_bytes b) p (2 * n)) as [x|] eqn:E; [|done]. cbn. intros [= <-].
  apply slice_length in E. assert (length x = (2 * Z.to_nat n)%nat) as Hx by lia. clear E.
  enough (length (shorts_of x) = Z.to_nat n) by lia. revert x Hx. induction (Z.to_nat n) as [|m IH]; intros x Hx.
  - destruct x; [done|cbn in Hx; lia].
  - destruct x as [|b0 [|b1 x]]; cbn in Hx; try lia. cbn [shorts_of length]. f_equal. apply IH. lia.
Qed.

(** The three ways [do_add_service] goes on once its arguments are good. *)
Lemma do_add_known msg p len ptr s si : ptr ≠ 0 → 0 < len ≤ 127 → sm_ok s → find_svc len (svclist s) = Some si →
  do_add_service malloc msg p len ptr s =
    Ret 0 (Sm (store_ptr (si_addr si) ptr (svclist s)) (written s ++ dropped (si_ptr si) ++ taken ptr (si_death si))).
Proof.
  intros Hp Hlen Hok E. unfold do_add_service. rewrite !bool_decide_false by lia. cbn [orb]. rewrite bind_getst, E.
  apply find_svc_Some in E as [Hin _].
  rewrite bind_bind. destruct (decide (si_ptr si = 0)) as [E0|E0].
  - rewrite bool_decide_false by auto. rewrite bind_ret, bind_bind, bind_modify, bind_ret. unfold dropped. rewrite bool_decide_true by done.
    unfold taken, binder_acquire, binder_link_to_death, binder_write. rewrite !bind_modify. unfold ret. cbn [set_svclist svclist written app].
    by rewrite <-app_assoc.
  - rewrite bool_decide_true by done. rewrite (bind_of _ (svcinfo_death_eq s si (ok_addr _ Hok) Hin)), bind_bind, bind_modify, bind_ret.
    unfold taken, binder_acquire, binder_link_to_death, binder_write. rewrite !bind_modify. unfold ret.
    cbn [set_svclist svclist written]. by rewrite store_ptr_twice, <-!app_assoc.
Qed.
Lemma do_add_new msg p len ptr s a name : ptr ≠ 0 → 0 < len ≤ 127 → find_svc len (svclist s) = None →
  malloc s = Some a → chars_at msg p (len + 1) = Some name →
  let si := Svc a ptr len (<[Z.to_nat len := 0]> name) in
  do_add_service malloc msg (Some p) len ptr s = Ret 0 (Sm (si :: svclist s) (written s ++ taken ptr (si_death si))).
Proof.
  intros Hp Hlen E Ea En si. unfold do_add_service. rewrite !bool_decide_false by lia. cbn [orb]. rewrite bind_getst, E, Ea.
  cbn [deref]. rewrite !bind_bind, bind_ret. rewrite En, bind_bind, bind_deref. cbv zeta. rewrite bind_bind, bind_modify, bind_ret.
  unfold taken, binder_acquire, binder_link_to_death, binder_write. rewrite !bind_modify. unfold ret. cbn [set_svclist svclist written].
  by rewrite <-app_assoc.
Qed.
Lemma sm_ok_known s si ptr : sm_ok s → si ∈ svclist s →
  sm_ok (Sm (store_ptr (si_addr si) ptr (svclist s)) (written s ++ dropped (si_ptr si) ++ taken ptr (si_death si))).
Proof.
  intros Hok Hin. apply sm_ok_store; [done|done|]. intros h Hh. rewrite acquired_app, released_app.
  destruct (dropped_counts h (si_ptr si) Hh) as [-> ->], (taken_counts h ptr (si_death si)) as [-> ->]. lia.
Qed.
Lemma sm_ok_added s a ptr len name : sm_ok s → malloc s = Some a → find_svc len (svclist s) = None → 0 < len ≤ 127 →
  Z.of_nat (length name) = len + 1 → let si := Svc a ptr len (<[Z.to_nat len := 0]> name) in
  sm_ok (Sm (si :: svclist s) (written s ++ taken ptr (si_death si))).
Proof.
  intros Hok Ha E Hlen Hn si. apply sm_ok_new; cbn [si si_addr si_len si_name si_ptr]; [done|by apply malloc_fresh|done|done|..].
  - by rewrite length_insert.
  - apply list_lookup_insert_eq. lia.
  - intros h Hh. destruct (taken_counts h ptr (si_death si)) as [-> ->]. unfold si. cbn [si_ptr]. lia.
Qed.
Lemma do_add_service_keeps msg p len ptr s r s' : 0 ≤ len → sm_ok s → do_add_service malloc msg p len ptr s = Ret r s' → sm_ok s'.
Proof.
  intros Hpos Hok. destruct (decide (ptr ≠ 0 ∧ 0 < len ≤ 127)) as [[Hp Hlen]|Hbad].
  - destruct (find_svc len (svclist s)) as [si|] eqn:E.
    + rewrite (do_add_known _ _ _ _ _ si) by done. intros [= <- <-]. apply sm_ok_known; [done|]. by apply find_svc_Some in E as [? _].
    + destruct (malloc s) as [a|] eqn:Ea; [|unfold do_add_service; rewrite !bool_decide_false by lia; cbn [orb]; rewrite bind_getst, E, Ea, bind_ret; by intros [= <- <-]].
      destruct p as [p|]; [|unfold do_add_service; rewrite !bool_decide_false by lia; cbn [orb]; by rewrite bind_getst, E, Ea].
      destruct (chars_at msg p (len + 1)) as [name|] eqn:En.
      * rewrite (do_add_new _ _ _ _ _ a name) by done. intros [= <- <-]. apply sm_ok_added; [done..|].
        eapply chars_at_length; [|exact En]. lia.
      * unfold do_add_service. rewrite !bool_decide_false by lia. cbn [orb]. rewrite bind_getst, E, Ea. cbn [deref]. by rewrite bind_bind, bind_ret, En.
  - unfold do_add_service. destruct (bool_decide (ptr = 0) || bool_decide (len = 0) || bool_decide (len > 127)) eqn:Eb.
    + by intros [= <- <-].
    + apply orb_false_iff in Eb as [[?%bool_decide_eq_false ?%bool_decide_eq_false]%orb_false_iff ?%bool_decide_eq_false]. lia.
Qed.
End adding.
