(* ===== verification/ServiceManagerSpec.v ===== *)
(** * What the service manager guarantees

    The references the manager holds through any sequence of messages and deaths, and
    what each message does to the services it knows, on the definitions of
    [ServiceManager]. *)

From Stdlib Require Import ZArith Lia.
From stdpp Require Import base tactics numbers option list.
From S2P Require Import Prelude Words Rbtree BinderAlloc BinderState BinderUser ServiceIO ServiceManager.

(** ** If it returns *)

(** Messages are not trusted: a routine of the manager may crash on one (see the end of
    this file). [may m Q s]: if [m] returns, [Q] holds. *)
Definition may {S A} (m : M S A) (Q : A → S → Prop) (s : S) : Prop :=
  match m s with Ret a s' => Q a s' | Crash _ => True end.

Section may.
Context {S : Type}.
Lemma may_ret {A} (a : A) (Q : A → S → Prop) s : Q a s → may (ret a) Q s.
Proof. done. Qed.
Lemma may_bind {A B} (m : M S A) (k : A → M S B) (Q : B → S → Prop) s :
  may m (λ a s', may (k a) Q s') s → may (bind m k) Q s.
Proof. unfold may, bind. by destruct (m s). Qed.
Lemma may_mono {A} (m : M S A) (P Q : A → S → Prop) s : may m P s → (∀ a s', P a s' → Q a s') → may m Q s.
Proof. unfold may. destruct (m s); auto. Qed.
Lemma may_deref {A} (o : option A) (Q : A → S → Prop) s : (∀ a, o = Some a → Q a s) → may (deref o) Q s.
Proof. destruct o; [|done]. unfold may. cbn. auto. Qed.
Lemma may_getst (Q : S → S → Prop) s : Q s s → may getst Q s.
Proof. done. Qed.
End may.
(** The branches of a test on which nothing depends. *)
Ltac may_if := cbv beta zeta; lazymatch goal with |- may (if ?b then _ else _) _ _ => destruct b end.

(** The length of a string is that of an unsigned word. *)
Lemma bio_get_uint32_pos b : may bio_get_uint32 (λ n _, 0 ≤ n) b.
Proof.
  unfold bio_get_uint32. apply may_bind. unfold may. destruct (bio_get 4 b) as [ptr b1|]; [|done].
  cbv beta. rewrite bind_getst. destruct ptr as [p|]; [|done]. unfold word_at.
  destruct (slice (io_bytes b1) p 4) as [l|]; [|done]. cbn [mbind option_bind]. destruct (words_of l) as [|w]; [done|]. cbn.
  apply u32_range.
Qed.
Lemma bio_get_string16_pos b : may bio_get_string16 (λ r _, 0 ≤ r.2) b.
Proof.
  unfold bio_get_string16. apply may_bind. eapply may_mono; [apply bio_get_uint32_pos|]. intros n b' Hn. cbv beta.
  apply may_bind. unfold may. by destruct (bio_get _ b').
Qed.

Lemma may_in_msg {A} (m : M bio A) (Q : A → call → Prop) (P : A → Prop) c :
  (∀ b, may m (λ a _, P a) b) → (∀ a b, P a → Q a (Call (c_sm c) b (c_reply c))) → may (in_msg m) Q c.
Proof. unfold may, in_msg, zoom. intros H HQ. specialize (H (c_msg c)). destruct (m (c_msg c)); auto. Qed.
Lemma may_in_msg' {A} (m : M bio A) (Q : A → call → Prop) c :
  (∀ a b, Q a (Call (c_sm c) b (c_reply c))) → may (in_msg m) Q c.
Proof. intros H. apply (may_in_msg m Q (λ _, True)); [|auto]. intros b. unfold may. by destruct (m b). Qed.
Lemma may_in_reply {A} (m : M bio A) (Q : A → call → Prop) c :
  (∀ a b, Q a (Call (c_sm c) (c_msg c) b)) → may (in_reply m) Q c.
Proof. unfold may, in_reply, zoom. intros H. destruct (m (c_reply c)); auto. Qed.

Section invariant.
Context (malloc : sm → option Z).
Hypothesis malloc_fresh : ∀ s a, malloc s = Some a → a ∉ si_addr <$> svclist s.

Lemma may_add msg p len ptr c : 0 ≤ len → sm_ok (c_sm c) →
  may (in_sm (do_add_service malloc msg p len ptr)) (λ _ c', sm_ok (c_sm c')) c.
Proof.
  intros Hl Hok. unfold may, in_sm, zoom. destruct (do_add_service malloc msg p len ptr (c_sm c)) as [r s'|] eqn:E; [|done].
  by eapply do_add_service_keeps.
Qed.

Lemma svcmgr_switch_keeps code c : sm_ok (c_sm c) → may (svcmgr_switch malloc code) (λ _ c', sm_ok (c_sm c')) c.
Proof.
  intros Hok. unfold svcmgr_switch. may_if; [|may_if; [|may_if; [|done]]].
  - apply may_bind, may_in_msg'. intros [q l] b. apply may_bind, may_getst. may_if; by apply may_bind, may_in_reply.
  - apply may_bind, (may_in_msg _ _ (λ r, 0 ≤ r.2)); [apply bio_get_string16_pos|]. intros [q l] b Hl. cbn in Hl.
    apply may_bind, may_in_msg'. intros ptr b'. apply may_bind, may_getst, may_bind.
    eapply may_mono; [by apply may_add|]. intros r c' Hok'. may_if; [done|]. by apply may_bind, may_in_reply.
  - apply may_bind, may_in_msg'. intros n b. apply may_bind, may_getst. case_match; [done|]. by apply may_bind, may_in_reply.
Qed.
Lemma svcmgr_handler_keeps target code c : sm_ok (c_sm c) → may (svcmgr_handler malloc target code) (λ _ c', sm_ok (c_sm c')) c.
Proof.
  intros Hok. unfold svcmgr_handler. case_bool_decide; [done|].
  apply may_bind, may_in_msg'. intros _ b1. apply may_bind, may_in_msg'. intros [p len] b2.
  apply may_bind, may_getst, may_bind. eapply (may_mono _ (λ _ c', sm_ok (c_sm c'))).
  { case_bool_decide; [done|]. apply may_bind, may_deref. intros q _. apply may_bind, may_deref. by intros id _. }
  intros ok c' Hok'. destruct ok; [|done]. by apply svcmgr_switch_keeps.
Qed.

(** The manager's other writes change no reference. *)
Lemma sm_ok_write s c : sm_ok s → (∀ h, acquired h [c] = released h [c]) → sm_ok (Sm (svclist s) (written s ++ [c])).
Proof.
  intros [H1 H2 H3 H4] Hc. split; [done..|]. intros h Hh. cbn [svclist written]. rewrite acquired_app, released_app, Hc.
  specialize (H4 h Hh). lia.
Qed.
Lemma send_reply_keeps reply buffer status s : sm_ok s → may (binder_send_reply reply buffer status) (λ _ s', sm_ok s') s.
Proof. intros Hok. unfold may. cbn. apply sm_ok_write; [done|]. intros h. by destruct (negb _). Qed.

Variable rdata : list Z.
Lemma binder_parse_keeps mapped fuel : ∀ ws r s, sm_ok s → may (binder_parse malloc rdata mapped fuel ws r) (λ _ s', sm_ok s') s.
Proof.
  induction fuel as [|fuel IH]; intros ws r s Hok; [done|]. cbn [binder_parse]. destruct ws as [|cmd ws]; [done|].
  case_bool_decide; [by apply IH|]. case_bool_decide; [by apply IH|]. case_bool_decide.
  { do 10 (destruct ws as [|? ws]; [done|]). apply may_bind, may_getst. cbv zeta. unfold may at 1.
    match goal with |- context [svcmgr_handler malloc ?t ?c ?st] => pose proof (svcmgr_handler_keeps t c st Hok) as Hk end.
    unfold may in Hk. destruct (svcmgr_handler _ _ _ _) as [res c'|]; [|done].
    change (may (binder_send_reply (c_reply c') z7 res ;;; binder_parse malloc rdata mapped fuel ws r) (λ _ s', sm_ok s') (c_sm c')).
    apply may_bind. eapply may_mono; [by apply send_reply_keeps|]. intros ? s' Hs'. by apply IH. }
  case_bool_decide; [case_bool_decide; [done|by apply IH]|]. case_bool_decide; [|case_bool_decide; [by apply IH|done]].
  destruct ws as [|death ws]; [done|]. apply may_bind, may_getst, may_bind, may_deref. intros si Hsi. apply may_bind.
  assert (si ∈ svclist s) as Hin.
  { assert (si ∈ filter (λ si, si_death si = death) (svclist s)) as [_ Hin]%list_elem_of_filter; [|done].
    destruct (filter _ _); [done|]. injection Hsi as ->. apply elem_of_cons. by left. }
  destruct (svcinfo_death_ok s si Hok Hin) as (s' & E & Hok' & _). unfold may at 1. rewrite E. by apply IH.
Qed.
Lemma binder_rounds_keeps answers : ∀ s, sm_ok s → may (binder_rounds malloc rdata answers) (λ _ s', sm_ok s') s.
Proof.
  induction answers as [|[[ws mapped]|] answers IH]; intros s Hok; [done| |done]. cbn [binder_rounds]. apply may_bind.
  eapply may_mono; [by apply binder_parse_keeps|]. intros res s' Hs'. cbv beta. case_bool_decide; [done|by apply IH].
Qed.

(** C14: whatever the driver hands to the service manager, transactions with any
    contents and deaths in any order, if it does not crash its services have different
    lengths and places, their names end with a zero, and for each handle the strong
    references it has taken are those it has released and one for each service that
    has the handle. *)
Theorem manager_references (answers : list (option answer)) (waiting : bool) (s : sm)
    (Hrun : binder_loop malloc rdata answers (Sm [] []) = Ret waiting s) :
  sm_ok s.
Proof.
  enough (may (binder_loop malloc rdata answers) (λ _ s', sm_ok s') (Sm [] [])) as H by (unfold may in H; by rewrite Hrun in H).
  unfold binder_loop. apply may_bind. apply (binder_rounds_keeps answers (Sm [] [Words [BC_ENTER_LOOPER]])).
  split; [constructor|constructor|constructor|]. done.
Qed.
End invariant.

(** ** Requests *)

(** What a client asks of the manager. *)
Inductive request := Find (name : list Z) | Add (name : list Z) (h : Z) | Nth (n : Z).
Definition request_items (q : request) : list item :=
  match q with Find name => [IStr name] | Add name h => [IStr name; IRef h] | Nth n => [IWord n] end.
Definition has_code (q : request) (code : Z) : Prop :=
  match q with
  | Find _ => code = SVC_MGR_GET_SERVICE ∨ code = SVC_MGR_CHECK_SERVICE
  | Add _ _ => code = SVC_MGR_ADD_SERVICE
  | Nth _ => code = SVC_MGR_LIST_SERVICES
  end.
Definition len_of (name : list Z) : Z := Z.of_nat (length name).

(** The registry a client sees: names and handles, the newest first; the handle 0 is that
    of a service that has died.  Two names are the same to it when they are as long as
    each other: the code compares no more. *)
Abbreviation registry := (list (list Z * Z)).
Definition alike (a b : list Z) : Prop := length a = length b.
#[export] Instance alike_dec a b : Decision (alike a b) := decide (length a = length b).

Definition handle_of (reg : registry) (name : list Z) : Z :=
  default 0 (snd <$> head (filter (λ e, alike e.1 name) reg)).
(** The handle of a name that is there is replaced, and the entry keeps the name it has. *)
Definition register (name : list Z) (h : Z) (reg : registry) : registry :=
  if decide (Exists (λ e, alike e.1 name) reg)
  then (λ e, if decide (alike e.1 name) then (e.1, h) else e) <$> reg
  else (name, h) :: reg.
(** The characters of a name before its first zero. *)
Fixpoint until_zero (name : list Z) : list Z :=
  match name with [] => [] | c :: name => if decide (c = 0) then [] else c :: until_zero name end.

(** The abstract service: the registry afterwards, the result, and the item of the reply. *)
Definition good_name (name : list Z) : Prop := 0 < len_of name ≤ 127.
Definition serve (q : request) (reg : registry) : registry * Z * option item :=
  match q with
  | Find name =>
      let h := handle_of reg name in (reg, 0, Some (if decide (h = 0) then IWord 0 else IRef h))
  | Add name h =>
      if decide (good_name name) then (register name h reg, 0, Some (IWord 0)) else (reg, -1, None)
  | Nth n =>
      match reg !! Z.to_nat n with
      | Some e => (reg, 0, Some (IStr (until_zero e.1)))
      | None => (reg, -1, None)
      end
  end.
Definition replied (reply : bio) (answer : option item) (reply' : bio) : Prop :=
  match answer with Some i => puts reply i reply' | None => reply' = reply end.

Lemma handle_of_cons n k reg name : handle_of ((n, k) :: reg) name = if decide (alike n name) then k else handle_of reg name.
Proof. unfold handle_of. rewrite filter_cons. cbn [fst]. by case_decide. Qed.
(** Adding is a map update, for the names of one length. *)
Lemma handle_of_register name h reg other :
  handle_of (register name h reg) other = if decide (alike other name) then h else handle_of reg other.
Proof.
  unfold register. destruct (decide (Exists _ reg)) as [He|He].
  - case_decide as Ho.
    + induction reg as [|[n k] reg IH]; [by apply Exists_nil in He|]. rewrite fmap_cons. cbn [fst]. case_decide as Hn; rewrite handle_of_cons.
      * rewrite decide_True; [done|]. unfold alike in *. congruence.
      * rewrite decide_False by (unfold alike in *; congruence). apply IH. by apply Exists_cons in He as [?|?].
    + clear He. induction reg as [|[n k] reg IH]; [done|]. rewrite fmap_cons. cbn [fst]. case_decide as Hn; rewrite !handle_of_cons, IH; [|done].
      by rewrite !decide_False by (unfold alike in *; congruence).
  - rewrite handle_of_cons. unfold alike. repeat case_decide; try done; congruence.
Qed.

(** The registry that the services of the manager stand for. *)
Definition registry_of (l : list svcinfo) : registry := (λ si, (take (Z.to_nat (si_len si)) (si_name si), si_ptr si)) <$> l.
Definition name_ok (si : svcinfo) : Prop :=
  0 < si_len si ≤ 127 ∧ Z.of_nat (length (si_name si)) = si_len si + 1 ∧ si_name si !! Z.to_nat (si_len si) = Some 0.

Lemma alike_len si name : name_ok si → alike (take (Z.to_nat (si_len si)) (si_name si)) name ↔ len_of name = si_len si.
Proof. intros (? & ? & _). unfold alike, len_of. rewrite length_take. lia. Qed.
Lemma find_registry l name : Forall name_ok l →
  handle_of (registry_of l) name = match find_svc (len_of name) l with Some si => si_ptr si | None => 0 end.
Proof.
  induction 1 as [|si l Hsi _ IH]; [done|]. unfold registry_of. rewrite fmap_cons, handle_of_cons. cbn [find_svc].
  destruct (bool_decide_reflect (len_of name = si_len si)) as [E|E]; [rewrite decide_True|rewrite decide_False]; [done| |exact IH|];
    by rewrite alike_len.
Qed.
Lemma registry_known l name h si : Forall name_ok l → NoDup (si_addr <$> l) → NoDup (si_len <$> l) →
  find_svc (len_of name) l = Some si → registry_of (store_ptr (si_addr si) h l) = register name h (registry_of l).
Proof.
  intros Hn Ha Hl [Hin E]%find_svc_Some. unfold register. rewrite Forall_forall in Hn. rewrite decide_True.
  2:{ apply Exists_exists. eexists. split; [apply list_elem_of_fmap_2, Hin|]. cbn [fst]. apply alike_len; auto. }
  unfold registry_of, store_ptr. rewrite <-!list_fmap_compose. apply list_fmap_ext. intros i x Hx%list_elem_of_lookup_2.
  unfold compose. cbn [fst]. pose proof (alike_len x name (Hn x Hx)) as Hal. case_bool_decide as Ea.
  - rewrite decide_True; [done|]. apply Hal. by rewrite (key_inj si_addr l x si).
  - rewrite decide_False; [done|]. intros Hx'. apply Ea. f_equal. apply (key_inj si_len l); [done..|]. rewrite E. symmetry. by apply Hal.
Qed.
Lemma registry_new l name h : Forall name_ok l → find_svc (len_of name) l = None →
  (name, h) :: registry_of l = register name h (registry_of l).
Proof.
  intros Hn E%find_svc_None. unfold register. rewrite decide_False; [done|]. rewrite Exists_exists.
  intros (e & (si & -> & Hsi)%list_elem_of_fmap & He). rewrite Forall_forall in Hn. cbn [fst] in He.
  apply alike_len in He; [|auto]. apply E. rewrite He. by apply list_elem_of_fmap_2.
Qed.
(** A stored name up to its first zero. *)
Lemma until_zero_str16 l n : l !! n = Some 0 → str16 l = Some (until_zero (take n l)).
Proof.
  revert n. induction l as [|c l IH]; intros n Hn; [done|]. cbn [str16]. destruct n as [|n].
  - injection Hn as ->. by rewrite bool_decide_true.
  - cbn [take until_zero]. case_bool_decide; [by rewrite decide_True|]. rewrite decide_False by done. by rewrite (IH n Hn).
Qed.
Lemma until_zero_length l : (length (until_zero l) ≤ length l)%nat.
Proof. induction l as [|c l IH]; [done|]. cbn [until_zero]. case_decide; cbn [length]; lia. Qed.

Lemma bind_in_msg {A B} (m : M bio A) (k : A → M call B) s b r a b' : m b = Ret a b' →
  bind (in_msg m) k (Call s b r) = k a (Call s b' r).
Proof. unfold bind, in_msg, zoom. cbn. by intros ->. Qed.
Lemma bind_in_sm {A B} (m : M sm A) (k : A → M call B) s b r a s' : m s = Ret a s' →
  bind (in_sm m) k (Call s b r) = k a (Call s' b r).
Proof. unfold bind, in_sm, zoom. cbn. by intros ->. Qed.
Lemma bind_in_reply {A B} (m : M bio A) (k : A → M call B) s b r a r' : m r = Ret a r' →
  bind (in_reply m) k (Call s b r) = k a (Call s b r').
Proof. unfold bind, in_reply, zoom. cbn. by intros ->. Qed.

Lemma head_drop {A} n : ∀ l : list A, l !! n = head (drop n l).
Proof. induction n as [|n IH]; intros [|x l]; try done. apply IH. Qed.
(** More characters at a place begin with fewer. *)
Lemma shorts_of_take n : ∀ x, shorts_of (take (2 * n) x) = take n (shorts_of x).
Proof.
  induction n as [|n IH]; intros x; [done|]. replace (2 * S n)%nat with (S (S (2 * n))) by lia.
  destruct x as [|b0 [|b1 x]]; [done..|]. cbn [take shorts_of]. by rewrite IH.
Qed.
Lemma chars_at_prefix b p n m l l' : 0 ≤ n ≤ m → chars_at b p n = Some l → chars_at b p m = Some l' → l = take (Z.to_nat n) l'.
Proof.
  unfold chars_at, slice. intros Hn. case_bool_decide; [|done]. case_bool_decide; [|done]. cbn. intros [= <-] [= <-].
  rewrite <-shorts_of_take, take_take. do 2 f_equal. lia.
Qed.

Section requests.
Context (malloc : sm → option Z).
Hypothesis malloc_fresh : ∀ s a, malloc s = Some a → a ∉ si_addr <$> svclist s.
Context (bytes offs : list Z) (flags : Z).
Hypothesis Hsmall : Z.of_nat (length bytes) < 2 ^ 31.
Let size := Z.of_nat (length bytes).
Let msg := reading_at bytes offs flags.

(** Behind the interface's name the message goes to the [switch]. *)
Lemma handler_open code s reply strict l : is_word strict →
  encodeds bytes offs 0 (IWord strict :: IStr svcmgr_id :: l) size →
  ∃ p, 0 ≤ p ≤ size ∧ encodeds bytes offs p l size ∧
    svcmgr_handler malloc svcmgr_handle code (Call s (msg 0) reply) = svcmgr_switch malloc code (Call s (msg p) reply).
Proof.
  intros Hst (p1 & H1 & H2 & E1 & p2 & H3 & H4 & E2 & E). exists p2. split; [lia|]. split; [done|].
  assert (item_ok (IStr svcmgr_id)) as Hid by (split; [repeat constructor; lia|cbn; lia]).
  unfold svcmgr_handler. rewrite bool_decide_false by auto.
  pose proof E1 as (-> & Hs1). rewrite (bind_in_msg _ _ s _ reply _ _ (get_uint32_at bytes offs flags 0 strict Hst H2 Hs1)).
  rewrite (bind_in_msg _ _ s _ reply _ _ (get_string16_at bytes offs flags _ svcmgr_id p2 H1 H3 H4 Hsmall Hid E2)).
  rewrite bind_getst. change (Z.of_nat (length svcmgr_id)) with 26. rewrite bool_decide_false by lia. rewrite bind_bind, bind_deref.
  cbn [c_msg]. pose proof (chars_at_ok bytes offs flags _ svcmgr_id p2 p2 Hid E2) as Hc. change (Z.of_nat (length svcmgr_id)) with 26 in Hc.
  rewrite Hc, bind_bind, bind_deref, bind_ret. rewrite bool_decide_true by done. done.
Qed.

Lemma add_ok s q p name h : sm_ok s → 0 ≤ p → p + 4 + ALIGN ((len_of name + 1) * 2) 4 ≤ size → h ≠ 0 → good_name name →
  chars_at (msg q) (p + 4) (len_of name) = Some name →
  is_Some (malloc s) → ∃ s', do_add_service malloc (msg q) (Some (p + 4)) (len_of name) h s = Ret 0 s' ∧ sm_ok s' ∧
    registry_of (svclist s') = register name h (registry_of (svclist s)).
Proof.
  intros Hok Hp Hroom Hh Hlen Hchars [a Ha]. unfold good_name in Hlen. destruct (find_svc (len_of name) (svclist s)) as [si|] eqn:E.
  - rewrite (do_add_known malloc _ _ _ _ _ si) by done. eexists. split; [done|].
    split; [apply sm_ok_known; [done|by apply find_svc_Some in E as [? _]]|]. apply registry_known; try apply Hok. done.
  - pose proof (align4 ((len_of name + 1) * 2) ltac:(lia)) as Hal.
    assert (∃ x, chars_at (msg q) (p + 4) (len_of name + 1) = Some x) as [x Hx].
    { unfold chars_at, msg. cbn [io_bytes reading_at]. rewrite slice_ok by lia. by eexists. }
    rewrite (do_add_new malloc _ _ _ _ _ a x) by done. eexists. split; [done|]. split.
    + apply (sm_ok_added malloc malloc_fresh); try done. eapply chars_at_length; [|exact Hx]. lia.
    + rewrite <-registry_new by (done || apply Hok). cbn [svclist registry_of fmap list_fmap si_len si_name si_ptr].
      rewrite take_insert_ge by lia. by rewrite <-(chars_at_prefix _ _ (len_of name) (len_of name + 1) _ _ ltac:(lia) Hchars Hx).
Qed.

Lemma switch_find code s reply p name : sm_ok s → has_code (Find name) code → 0 ≤ p ≤ size → item_ok (IStr name) →
  wf reply → encodeds bytes offs p [IStr name] size →
  ∃ reply', svcmgr_switch malloc code (Call s (msg p) reply) = Ret 0 (Call s (msg size) reply') ∧
    replied reply (serve (Find name) (registry_of (svclist s))).2 reply'.
Proof.
  intros Hok Hc Hp Hi W (p1 & H1 & H2 & E & Ep). change (size = p1) in Ep. symmetry in Ep; subst p1. unfold svcmgr_switch. replace (bool_decide _ || bool_decide _) with true;
    [|symmetry; apply orb_true_iff; rewrite !bool_decide_eq_true; exact Hc].
  rewrite (bind_in_msg _ _ s _ reply _ _ (get_string16_at bytes offs flags p name _ (proj1 Hp) H1 H2 Hsmall Hi E)), bind_getst.
  cbn [c_sm]. cbv zeta. change (Z.of_nat (length name)) with (len_of name). unfold serve. cbn [snd replied].
  rewrite find_registry by apply Hok. change (match find_svc (len_of name) (svclist s) with Some si => si_ptr si | None => 0 end) with (do_find_service (len_of name) s).
  set (h := do_find_service (len_of name) s). destruct (decide (h = 0)) as [Eh|Eh].
  - rewrite !(bool_decide_true (h = 0)) by done. destruct (wp_elim _ _ _ (put_uint32_ok reply 0 W)) as ([] & r' & Er & Hr).
    rewrite (bind_in_reply _ _ s _ reply _ _ Er). by exists r'.
  - rewrite !(bool_decide_false (h = 0)) by done. destruct (wp_elim _ _ _ (put_ref_ok reply h W Eh)) as ([] & r' & Er & Hr).
    rewrite (bind_in_reply _ _ s _ reply _ _ Er). by exists r'.
Qed.
Lemma switch_add code s reply p name h : sm_ok s → has_code (Add name h) code → 0 ≤ p ≤ size → Forall item_ok [IStr name; IRef h] →
  wf reply → is_Some (malloc s) → encodeds bytes offs p [IStr name; IRef h] size →
  let '(reg', r, answer) := serve (Add name h) (registry_of (svclist s)) in
  ∃ s' reply', svcmgr_switch malloc code (Call s (msg p) reply) = Ret r (Call s' (msg size) reply') ∧ sm_ok s' ∧
    registry_of (svclist s') = reg' ∧ replied reply answer reply' ∧ (¬ good_name name → s' = s).
Proof.
  intros Hok Hc Hp [Hi [Hr _]%Forall_cons_1]%Forall_cons_1 W Ha (p1 & H1 & H2 & E & p2 & H3 & H4 & E2 & Ep). change (size = p2) in Ep.
  symmetry in Ep; subst p2. cbn [has_code] in Hc. subst code.
  unfold svcmgr_switch. change (bool_decide _ || bool_decide _) with false. cbv iota. rewrite bool_decide_true by done.
  rewrite (bind_in_msg _ _ s _ reply _ _ (get_string16_at bytes offs flags p name _ (proj1 Hp) H1 H2 Hsmall Hi E)).
  pose proof E2 as (Es2 & _). assert (p1 + 16 ≤ Z.of_nat (length bytes)) as H5 by (fold size; lia).
  rewrite Es2 in E2 |- *. rewrite (bind_in_msg _ _ s _ reply _ _ (get_ref_at bytes offs flags p1 h H5 Hr E2)), bind_getst.
  cbn [c_msg]. change (Z.of_nat (length name)) with (len_of name). cbn [serve]. destruct (decide (good_name name)) as [Hlen|Hlen].
  - pose proof E as (Ep1 & _). change (Z.of_nat (length name)) with (len_of name) in Ep1. destruct Hr as [_ Hr].
    destruct (add_ok s (p1 + 16) p name h Hok (proj1 Hp)) as (s' & Es & Hok' & Hf);
      [lia|done|done|exact (chars_at_ok bytes offs flags p name p1 (p1 + 16) Hi E)|done|].
    rewrite (bind_in_sm _ _ s _ reply _ _ Es). rewrite bool_decide_true by done. cbn [negb].
    destruct (wp_elim _ _ _ (put_uint32_ok reply 0 W)) as ([] & r' & Er & Hr'). rewrite (bind_in_reply _ _ s' _ reply _ _ Er).
    by exists s', r'.
  - assert (do_add_service malloc (msg (p1 + 16)) (Some (p + 4)) (len_of name) h s = Ret (-1) s) as Es.
    { unfold do_add_service. replace (bool_decide (h = 0) || bool_decide (len_of name = 0) || bool_decide (len_of name > 127)) with true; [done|].
      symmetry. apply orb_true_iff. rewrite orb_true_iff, !bool_decide_eq_true. unfold good_name, len_of in *. lia. }
    rewrite (bind_in_sm _ _ s _ reply _ _ Es). by exists s, reply.
Qed.
Lemma switch_nth code s reply p n : sm_ok s → has_code (Nth n) code → 0 ≤ p ≤ size → is_word n → wf reply →
  encodeds bytes offs p [IWord n] size →
  let '(reg', r, answer) := serve (Nth n) (registry_of (svclist s)) in
  ∃ reply', svcmgr_switch malloc code (Call s (msg p) reply) = Ret r (Call s (msg size) reply') ∧
    registry_of (svclist s) = reg' ∧ replied reply answer reply'.
Proof.
  intros Hok Hc Hp Hn W (p1 & H1 & H2 & E & Ep). change (size = p1) in Ep. symmetry in Ep; subst p1.
  cbn [has_code] in Hc. subst code. unfold svcmgr_switch.
  change (bool_decide _ || bool_decide _) with false. cbv iota. change (bool_decide (SVC_MGR_LIST_SERVICES = SVC_MGR_ADD_SERVICE)) with false.
  cbv iota. rewrite bool_decide_true by done. destruct E as (Es & Hb).
  assert (p + 4 ≤ Z.of_nat (length bytes)) as H3 by (fold size; lia).
  rewrite (bind_in_msg _ _ s _ reply _ _ (get_uint32_at bytes offs flags p n Hn H3 Hb)), bind_getst, <-Es. cbn [c_sm].
  cbn [serve]. unfold registry_of at 1. rewrite list_lookup_fmap, head_drop.
  destruct (drop (Z.to_nat n) (svclist s)) as [|si l] eqn:El; cbn [head fmap option_fmap option_map].
  - by exists reply.
  - assert (si ∈ svclist s) as Hin. { apply (list_elem_of_lookup_2 _ (Z.to_nat n)). by rewrite head_drop, El. }
    destruct Hok as [_ _ Hnames _]. rewrite Forall_forall in Hnames. destruct (Hnames si Hin) as (Hl & Hn' & Hz).
    pose proof (until_zero_str16 _ _ Hz) as Ex. pose proof (until_zero_length (take (Z.to_nat (si_len si)) (si_name si))) as Hx.
    rewrite length_take in Hx. cbn [fst].
    destruct (wp_elim _ _ _ (put_str16_ok reply _ _ W Ex ltac:(lia))) as ([] & r' & Er & Hr'). rewrite (bind_in_reply _ _ s _ reply _ _ Er).
    by exists r'.
Qed.

(** C28: the manager implements the registry [serve]: a request that is well formed, with
    memory for a new entry to be had, leads
    from services that stand for a registry to services that stand for the one [serve]
    gives, with its result and its item in the reply (or the reply is marked as too long),
    and the manager's invariant holds afterwards.  In the registry names are alike when
    they are of the same length: adding a service changes what is found for the names of
    its length, and for no others ([handle_of_register]); such names share one entry, that
    of the name added first.  A request that adds nothing changes nothing. *)
Theorem manager_requests (q : request) (code strict : Z) (s : sm) (reply : bio)
    (Hok : sm_ok s) (Hcode : has_code q code) (Hreply : wf reply) (Hmem : is_Some (malloc s))
    (Hstrict : is_word strict) (Hitems : Forall item_ok (request_items q))
    (Hmsg : encodeds bytes offs 0 (IWord strict :: IStr svcmgr_id :: request_items q) (Z.of_nat (length bytes))) :
  let '(reg', r, answer) := serve q (registry_of (svclist s)) in
  ∃ s' reply', svcmgr_handler malloc svcmgr_handle code (Call s (reading_at bytes offs flags 0) reply) =
      Ret r (Call s' (reading_at bytes offs flags (Z.of_nat (length bytes))) reply') ∧
    sm_ok s' ∧ registry_of (svclist s') = reg' ∧ replied reply answer reply' ∧
    (match q with Add name _ => ¬ good_name name | _ => True end → s' = s).
Proof.
  destruct (handler_open code s reply strict _ Hstrict Hmsg) as (p & Hp & E & Eh). unfold msg in Eh. rewrite Eh.
  destruct q as [name|name h|n]; cbn [request_items] in *.
  - destruct (switch_find code s reply p name Hok Hcode Hp ltac:(by inversion Hitems) Hreply E) as (r' & Er & Hr). by exists s, r'.
  - exact (switch_add code s reply p name h Hok Hcode Hp Hitems Hreply Hmem E).
  - pose proof (switch_nth code s reply p n Hok Hcode Hp ltac:(by inversion Hitems) Hreply E) as H.
    destruct (serve (Nth n) _) as [[reg' r] answer]. destruct H as (r' & Er & Hreg & Hr). by exists s, r'.
Qed.
End requests.

(** ** An example, and what happens to bad messages *)

Module SmDemo.
(** A place that no service has. *)
Definition top (s : sm) : Z := foldr Z.max 0 (si_addr <$> svclist s) + 4096.
Definition malloc (s : sm) : option Z := Some (top s).
Lemma malloc_fresh s a : malloc s = Some a → a ∉ si_addr <$> svclist s.
Proof.
  intros [= <-] Hin. unfold top in Hin. assert (∀ l x, x ∈ l → x ≤ foldr Z.max 0 l) as H.
  { intros l x. induction l as [|y l IH]; [by intros ?%elem_of_nil|]. cbn. intros [->|Hx]%elem_of_cons; [lia|].
    specialize (IH Hx). lia. }
  apply H in Hin. lia.
Qed.

Definition blank : bio := Bio [] 0 0 [] 0 0 0.
Definition packed (l : list item) : list Z * list Z :=
  match put_items l (bio_init (replicate 528 0) 528 4 blank) with
  | Ret _ b => (take (Z.to_nat (io_pos b)) (io_bytes b), take (Z.to_nat (io_opos b)) (io_offs b))
  | Crash _ => ([], [])
  end.
Definition header : list item := [IWord 0; IStr svcmgr_id].
Definition rdata : list Z := replicate 256 0.
Definition abc : list Z := [97; 98; 99].
Definition add_abc : list item := header ++ [IStr abc; IRef 5].

(** A transaction that adds the service "abc", and then its death. *)
Definition mapped (p n : Z) : list Z :=
  let (bytes, offs) := packed add_abc in if bool_decide (p = 1000) then bytes else concat (word_bytes <$> offs).
Definition transaction : list Z := [BR_NOOP; BR_TRANSACTION; 0; 0; SVC_MGR_ADD_SERVICE; 0; 1; 1; 92; 4; 1000; 2000].
Definition run : list (option answer) := [Some (transaction, mapped)].

Lemma manager_references_witness :
  ∃ s, binder_loop malloc rdata run (Sm [] []) = Ret true s ∧ do_find_service 3 s = 5 ∧ sm_ok s.
Proof.
  eexists. assert (binder_loop malloc rdata run (Sm [] []) = Ret true
    (Sm [Svc 4096 5 3 (abc ++ [0])] [Words [BC_ENTER_LOOPER]; Words [BC_ACQUIRE; 5];
      Words [BC_REQUEST_DEATH_NOTIFICATION; 5; 4104]; Reply 1000 0 [0; 0; 0; 0] []])) as E by (vm_compute; reflexivity).
  split; [exact E|]. split; [reflexivity|]. exact (manager_references malloc malloc_fresh rdata run true _ E).
Defined.

Lemma manager_requests_witness :
  ∃ s' msg' reply', svcmgr_handler malloc svcmgr_handle SVC_MGR_ADD_SERVICE
      (Call (Sm [] []) (reading_at (packed add_abc).1 (packed add_abc).2 BIO_F_SHARED 0) (bio_init rdata 256 4 blank)) =
    Ret 0 (Call s' msg' reply') ∧ registry_of (svclist s') = [(abc, 5)].
Proof.
  destruct (manager_requests malloc malloc_fresh (packed add_abc).1 (packed add_abc).2 BIO_F_SHARED ltac:(by vm_compute)
    (Add abc 5) SVC_MGR_ADD_SERVICE 0 (Sm [] []) (bio_init rdata 256 4 blank)) as (s' & reply' & E & _ & H & _).
  - split; [constructor|constructor|constructor|]. done.
  - reflexivity.
  - split; by vm_compute.
  - by eexists.
  - by vm_compute.
  - repeat constructor; by vm_compute.
  - exists 4. split; [by vm_compute|]. split; [by vm_compute|]. split; [split; reflexivity|].
    exists 64. split; [by vm_compute|]. split; [by vm_compute|]. split; [split_and!; vm_compute; reflexivity|].
    exists 76. split; [by vm_compute|]. split; [by vm_compute|]. split; [split_and!; vm_compute; reflexivity|].
    exists 92. split; [by vm_compute|]. split; [by vm_compute|]. split; [|vm_compute; reflexivity].
    split; [reflexivity|]. split; [vm_compute; reflexivity|].
    assert ((packed add_abc).2 = [76]) as Eo by (vm_compute; reflexivity). rewrite Eo. apply elem_of_cons. by left.
  - exists s', (reading_at (packed add_abc).1 (packed add_abc).2 BIO_F_SHARED (Z.of_nat (length (packed add_abc).1))), reply'.
    split; [exact E|]. exact H.
Defined.

(** A message that ends behind the length of the interface's name: the manager reads
    the name through a null pointer. *)
Lemma short_header_crashes :
  svcmgr_handler malloc svcmgr_handle SVC_MGR_CHECK_SERVICE
    (Call (Sm [] []) (bio_init_from_txn (packed [IWord 0; IWord 26]).1 [] 8 0) (bio_init rdata 256 4 blank)) = Crash CrashOops.
Proof. by vm_compute. Qed.

(** A client that asks for "xyz" is given the handle of "abc". *)
Definition asked (s : sm) (name : list Z) : option Z :=
  match svcmgr_handler malloc svcmgr_handle SVC_MGR_CHECK_SERVICE
    (Call s (bio_init_from_txn (packed (header ++ [IStr name])).1 [] 76 0) (bio_init rdata 256 4 blank)) with
  | Ret _ c => word_at (c_reply c) 8
  | Crash _ => None
  end.
Lemma other_name_found :
  match binder_loop malloc rdata run (Sm [] []) with Ret _ s => asked s [120; 121; 122] | Crash _ => None end = Some 5.
Proof. by vm_compute. Qed.
End SmDemo.
