(* ===== verification/StateQueue.v ===== *)
(** * The queue of states between the mixers

    [libs/audioflinger/StateQueue.cpp], [StateQueue.h]: the normal mixer, the mutator,
    changes a state in place and pushes it to the fast mixer, the observer, that polls
    for it and must never wait.  Four states are used in turn; the pointer [mNext] tells
    the observer of a new one, the pointer [mAck] tells the mutator that it is in use. *)

From Stdlib Require Import ZArith Lia.
From stdpp Require Import base tactics numbers option list relations.
From S2P Require Import Prelude.

Definition kN : nat := 4.

(** [class StateQueue]. A state is plain data, a list of words; a pointer to one of them
    is its index in [mStates], [NULL] is [None]. *)
Record statequeue := StateQueue_ {
  mStates : list (list Z);
  mNext : option nat;
  mAck : option nat;
  mCurrent : option nat;
  mMutating : nat;
  mExpecting : option nat;
  mInMutation : bool;
  mIsDirty : bool;
  mIsInitialized : bool
}.
Definition set_mStates (v : list (list Z)) (x : statequeue) : statequeue :=
  StateQueue_ v (mNext x) (mAck x) (mCurrent x) (mMutating x) (mExpecting x) (mInMutation x) (mIsDirty x)
    (mIsInitialized x).
Definition set_mNext (v : option nat) (x : statequeue) : statequeue :=
  StateQueue_ (mStates x) v (mAck x) (mCurrent x) (mMutating x) (mExpecting x) (mInMutation x) (mIsDirty x)
    (mIsInitialized x).
Definition set_mAck (v : option nat) (x : statequeue) : statequeue :=
  StateQueue_ (mStates x) (mNext x) v (mCurrent x) (mMutating x) (mExpecting x) (mInMutation x) (mIsDirty x)
    (mIsInitialized x).
Definition set_mCurrent (v : option nat) (x : statequeue) : statequeue :=
  StateQueue_ (mStates x) (mNext x) (mAck x) v (mMutating x) (mExpecting x) (mInMutation x) (mIsDirty x)
    (mIsInitialized x).
Definition set_mMutating (v : nat) (x : statequeue) : statequeue :=
  StateQueue_ (mStates x) (mNext x) (mAck x) (mCurrent x) v (mExpecting x) (mInMutation x) (mIsDirty x)
    (mIsInitialized x).
Definition set_mExpecting (v : option nat) (x : statequeue) : statequeue :=
  StateQueue_ (mStates x) (mNext x) (mAck x) (mCurrent x) (mMutating x) v (mInMutation x) (mIsDirty x)
    (mIsInitialized x).
Definition set_mInMutation (v : bool) (x : statequeue) : statequeue :=
  StateQueue_ (mStates x) (mNext x) (mAck x) (mCurrent x) (mMutating x) (mExpecting x) v (mIsDirty x)
    (mIsInitialized x).
Definition set_mIsDirty (v : bool) (x : statequeue) : statequeue :=
  StateQueue_ (mStates x) (mNext x) (mAck x) (mCurrent x) (mMutating x) (mExpecting x) (mInMutation x) v
    (mIsInitialized x).
Definition set_mIsInitialized (v : bool) (x : statequeue) : statequeue :=
  StateQueue_ (mStates x) (mNext x) (mAck x) (mCurrent x) (mMutating x) (mExpecting x) (mInMutation x) (mIsDirty
    x) v.

(** The constructor, with what the states hold before. *)
Definition StateQueue (states : list (list Z)) : statequeue :=
  StateQueue_ states None None None 0 None false false false.

(** A store of the word [w] into a state. *)
Definition put_word (i k : nat) (w : Z) (s : statequeue) : statequeue :=
  set_mStates (alter (λ l, <[k := w]> l) i (mStates s)) s.

(** ** Observer *)

(** [poll], once [mNext] has been loaded. *)
Definition poll_ack (next : option nat) : M statequeue unit :=
  s <- getst ;;
  when negb (bool_decide (next = mCurrent s)) do (modify (set_mAck next) ;;; modify (set_mCurrent next)).
Definition poll : M statequeue (option nat) :=
  next <- gets mNext ;;
  poll_ack next ;;;
  ret next.

(** ** Mutator *)

Definition begin : M statequeue nat := modify (set_mInMutation true) ;;; gets mMutating.
(** [end]. *)
Definition end_ (didModify : bool) : M statequeue unit :=
  (when didModify do (modify (set_mIsDirty true) ;;; modify (set_mIsInitialized true))) ;;;
  modify (set_mInMutation false).

Inductive block_t := BLOCK_NEVER | BLOCK_UNTIL_PUSHED | BLOCK_UNTIL_ACKED.
#[export] Instance block_t_eq : EqDecision block_t.
Proof. solve_decision. Defined.

(** What the observer does while the mutator sleeps: it polls some number of times. *)
Fixpoint polls (n : nat) : M statequeue unit := match n with O => ret tt | S n => poll ;;; polls n end.

(** The wait for a prior push to be acknowledged; [turns] is what goes on in the sleeps. *)
Fixpoint wait_prior (block : block_t) (turns : list nat) : M statequeue bool :=
  s <- getst ;;
  if bool_decide (mAck s = mExpecting s) then ret true
  else if bool_decide (block = BLOCK_NEVER) then ret false
  else match turns with [] => crash_with CrashFuel | n :: turns => polls n ;;; wait_prior block turns end.
(** The wait for this push or a prior push to be acknowledged. *)
Fixpoint wait_ack (turns : list nat) : M statequeue unit :=
  s <- getst ;;
  if bool_decide (mAck s = mExpecting s) then modify (set_mExpecting None)
  else match turns with [] => crash_with CrashFuel | n :: turns => polls n ;;; wait_ack turns end.

Definition publish : M statequeue unit :=
  s <- getst ;;
  modify (set_mNext (Some (mMutating s))) ;;;
  modify (set_mExpecting (Some (mMutating s))) ;;;
  modify (set_mMutating (if bool_decide (kN <= S (mMutating s))%nat then 0%nat else S (mMutating s))).

(** The copy of the state that has been pushed, a word at a time. *)
Definition copy_word (k : nat) : M statequeue unit :=
  s <- getst ;;
  e <- deref (mExpecting s) ;;
  l <- deref (mStates s !! e) ;;
  w <- deref (l !! k) ;;
  modify (put_word (mMutating s) k w).
Fixpoint copy_words (k n : nat) : M statequeue unit :=
  match n with O => ret tt | S n => copy_word k ;;; copy_words (S k) n end.

Section size.
(** The number of words of a state. *)
Context (size : nat).

(** [push], of a state that is dirty. *)
Definition push_dirty (block : block_t) (prior : list nat) : M statequeue bool :=
  s <- getst ;;
  if mIsDirty s then
    ready <- (if bool_decide (mExpecting s ≠ None) then wait_prior block prior else ret true) ;;
    if ready : bool then
      publish ;;;
      copy_words 0 size ;;;
      modify (set_mIsDirty false) ;;;
      ret true
    else ret false
  else ret true.
Definition push (block : block_t) (prior turns : list nat) : M statequeue bool :=
  pushed <- push_dirty block prior ;;
  if negb pushed then ret false else
  s <- getst ;;
  (when bool_decide (block = BLOCK_UNTIL_ACKED) && bool_decide (mExpecting s ≠ None) do wait_ack turns) ;;;
  ret true.

(** ** Both at the same time *)

(** Where the mutator is: outside [push]; in [push], having found that it need not
    wait; in the copy, with some words copied. *)
Inductive mutator := MOut | MReady | MCopying (k : nat).
(** Where the observer is: outside [poll], or with what it has loaded from [mNext]. *)
Inductive observer := OOut | OLoaded (next : option nat).

(** The queue and both ends; for the record, the observer's previous state, whether the
    mutator has written since the last push, and the contents of the states
    pushed and observed so far. *)
Record sys := Sys {
  y_queue : statequeue;
  y_mut : mutator;
  y_obs : observer;
  y_previous : option nat;
  y_wrote : bool;
  y_pushed : list (list Z);
  y_observed : list (list Z)
}.
Definition slot (s : statequeue) (i : option nat) : option (list Z) := i ≫= λ i, mStates s !! i.

Inductive step : sys → sys → Prop :=
  (** The observer loads [mNext]; then it has nothing new, or takes the state. *)
  | step_load q m pv wr ps os : step (Sys q m OOut pv wr ps os) (Sys q m (OLoaded (mNext q)) pv wr ps os)
  | step_same q m pv wr ps os : step (Sys q m (OLoaded (mCurrent q)) pv wr ps os) (Sys q m OOut pv wr ps os)
  | step_ack q q' m next pv wr ps os v :
      next ≠ mCurrent q → poll_ack next q = Ret tt q' → slot q next = Some v →
      step (Sys q m (OLoaded next) pv wr ps os) (Sys q' m OOut (mCurrent q) wr ps (os ++ [v]))
  (** The mutator begins and ends a mutation, and writes in it. *)
  | step_begin q q' i o pv wr ps os : mInMutation q = false → begin q = Ret i q' →
      step (Sys q MOut o pv wr ps os) (Sys q' MOut o pv wr ps os)
  | step_end q q' d o pv wr ps os : mInMutation q = true → end_ d q = Ret tt q' →
      step (Sys q MOut o pv wr ps os) (Sys q' MOut o pv wr ps os)
  | step_write q k w o pv wr ps os : mInMutation q = true → (k < size)%nat →
      step (Sys q MOut o pv wr ps os) (Sys (put_word (mMutating q) k w q) MOut o pv true ps os)
  (** In [push], it finds that no push is to be waited for, or [mAck] as it expects it. *)
  | step_ready q o pv wr ps os : mInMutation q = false → mIsDirty q = true →
      (mExpecting q = None ∨ mAck q = mExpecting q) →
      step (Sys q MOut o pv wr ps os) (Sys q MReady o pv wr ps os)
  | step_publish q q' o pv wr ps os v : slot q (Some (mMutating q)) = Some v → publish q = Ret tt q' →
      step (Sys q MReady o pv wr ps os) (Sys q' (MCopying 0) o pv wr (ps ++ [v]) os)
  | step_copy q q' k o pv wr ps os : (k < size)%nat → copy_word k q = Ret tt q' →
      step (Sys q (MCopying k) o pv wr ps os) (Sys q' (MCopying (S k)) o pv wr ps os)
  | step_copied q o pv wr ps os :
      step (Sys q (MCopying size) o pv wr ps os) (Sys (set_mIsDirty false q) MOut o pv false ps os)
  (** It finds the push acknowledged. *)
  | step_acked q o pv wr ps os : mInMutation q = false → mExpecting q ≠ None → mAck q = mExpecting q →
      step (Sys q MOut o pv wr ps os) (Sys (set_mExpecting None q) MOut o pv wr ps os).
End size.
