(* ===== verification/StateQueueSpec.v ===== *)
(** * The observer's states are never written

    Whatever the order of the accesses of both ends of a [StateQueue], the observer
    sees every pushed state, once and in order, and neither its current nor its
    previous state changes under it; the mutator comes back from [push]. *)

From Stdlib Require Import ZArith Lia.
From stdpp Require Import base tactics numbers option list relations.
From S2P Require Import Prelude StateQueue.

(** The place of the last of [n] states pushed. *)
Definition last_slot (n : nat) : option nat := match n with O => None | S n => Some (n mod kN)%nat end.

Section size.
Context (size : nat).

(** Of the [n] states pushed the observer has taken [m]. *)
Record sq_ok (y : sys) : Prop := {
  ok_states : length (mStates (y_queue y)) = kN ∧ Forall (λ l, length l = size) (mStates (y_queue y));
  ok_count : (length (y_observed y) ≤ length (y_pushed y) ≤ S (length (y_observed y)))%nat;
  ok_next : mNext (y_queue y) = last_slot (length (y_pushed y));
  ok_ack : mAck (y_queue y) = last_slot (length (y_observed y));
  ok_current : mCurrent (y_queue y) = last_slot (length (y_observed y));
  ok_previous : y_previous y = last_slot (length (y_observed y) - 1);
  ok_mutating : mMutating (y_queue y) = (length (y_pushed y) mod kN)%nat;
  ok_expecting : mExpecting (y_queue y) = last_slot (length (y_pushed y)) ∨
    mExpecting (y_queue y) = None ∧ length (y_observed y) = length (y_pushed y);
  ok_contents i : (length (y_observed y) ≤ i + 2)%nat → (i < length (y_pushed y))%nat →
    mStates (y_queue y) !! (i mod kN)%nat = y_pushed y !! i;
  ok_observed : y_observed y = take (length (y_observed y)) (y_pushed y);
  ok_loaded : match y_obs y with
    | OOut => True
    | OLoaded next => next = last_slot (length (y_observed y)) ∨ next = last_slot (length (y_pushed y))
    end;
  ok_mutator : match y_mut y with
    | MOut => y_wrote y = false → y_pushed y ≠ [] → mStates (y_queue y) !! mMutating (y_queue y) = last (y_pushed y)
    | MReady => mInMutation (y_queue y) = false ∧ length (y_observed y) = length (y_pushed y)
    | MCopying k => (k ≤ size)%nat ∧ mInMutation (y_queue y) = false ∧ y_pushed y ≠ [] ∧
        mExpecting (y_queue y) = last_slot (length (y_pushed y)) ∧
        take k <$> mStates (y_queue y) !! mMutating (y_queue y) = take k <$> last (y_pushed y)
    end
}.

Lemma slot_apart i n : (i < n ≤ i + 3)%nat → (i mod kN ≠ n mod kN)%nat.
Proof.
  unfold kN. intros H E. pose proof (Nat.div_mod_eq i 4) as Ei. pose proof (Nat.div_mod_eq n 4) as En. rewrite E in Ei. lia.
Qed.
Lemma last_slot_inj n m : (m ≤ n ≤ S m)%nat → last_slot n = last_slot m → n = m.
Proof.
  intros H E. destruct (decide (n = m)); [done|]. assert (n = S m) as -> by lia. exfalso. destruct m as [|m]; [done|].
  cbn [last_slot] in E. apply (inj Some) in E. apply (slot_apart m (S m)); [lia|done].
Qed.
Lemma slot_next n : (if bool_decide (kN <= S (n mod kN))%nat then 0 else S (n mod kN))%nat = (S n mod kN)%nat.
Proof.
  unfold kN. pose proof (Nat.div_mod_eq n 4). pose proof (Nat.mod_upper_bound n 4). pose proof (Nat.div_mod_eq (S n) 4).
  pose proof (Nat.mod_upper_bound (S n) 4). case_bool_decide; lia.
Qed.

(** A word stored into the mutator's state. *)
Lemma put_word_len i k w s : length (mStates s) = kN ∧ Forall (λ l, length l = size) (mStates s) →
  length (mStates (put_word i k w s)) = kN ∧ Forall (λ l, length l = size) (mStates (put_word i k w s)).
Proof.
  intros [H1 H2]. cbn [mStates put_word set_mStates]. rewrite length_alter. split; [done|].
  apply Forall_alter; [done|]. intros l _ Hl. by rewrite length_insert.
Qed.
Lemma put_word_contents y k w i : sq_ok y → (length (y_observed y) ≤ i + 2)%nat → (i < length (y_pushed y))%nat →
  mStates (put_word (mMutating (y_queue y)) k w (y_queue y)) !! (i mod kN)%nat = y_pushed y !! i.
Proof.
  intros Hok Hi Hn. cbn [mStates put_word set_mStates]. rewrite list_lookup_alter_ne; [by apply Hok|].
  rewrite (ok_mutating _ Hok). pose proof (ok_count _ Hok). intros E. symmetry in E. revert E. apply slot_apart. lia.
Qed.
(** The last state pushed. *)
Lemma last_state y : sq_ok y → slot (y_queue y) (last_slot (length (y_pushed y))) = last (y_pushed y).
Proof.
  intros Hok. destruct (y_pushed y) as [|v ps] eqn:E; [done|]. rewrite <-E in *. rewrite last_lookup, <-(ok_contents _ Hok).
  - rewrite E. cbn [length last_slot pred slot mbind option_bind]. done.
  - pose proof (ok_count _ Hok). lia.
  - rewrite E. cbn. lia.
Qed.

Ltac y_fields := cbn [y_queue y_mut y_obs y_previous y_wrote y_pushed y_observed] in *.
Ltac q_fields := cbn [mStates mNext mAck mCurrent mMutating mExpecting mInMutation mIsDirty mIsInitialized set_mNext set_mAck
  set_mCurrent set_mMutating set_mExpecting set_mInMutation set_mIsDirty set_mIsInitialized] in *.

Lemma ack_step_ok q q' m next pv wr ps os v : next ≠ mCurrent q → poll_ack next q = Ret tt q' → slot q next = Some v →
  sq_ok (Sys q m (OLoaded next) pv wr ps os) → sq_ok (Sys q' m OOut (mCurrent q) wr ps (os ++ [v])).
Proof.
  intros Hne Hack Hv Hok. unfold poll_ack in Hack. rewrite bind_getst, bool_decide_false in Hack by done. cbn [negb] in Hack.
  rewrite bind_modify in Hack. injection Hack as <-. pose proof (last_state _ Hok) as Hlast.
  destruct Hok as [H1 H2 H3 H4 H5 H6 H7 H8 H9 H10 H11 H12]. y_fields.
  assert (next = last_slot (length ps) ∧ length ps = S (length os)) as [-> En].
  { destruct H11 as [-> | ->]; [congruence|]. split; [done|]. destruct (decide (length ps = length os)) as [E|]; [|lia].
    by rewrite E, <-H5 in Hne. }
  assert (ps !! length os = Some v) as Hi.
  { rewrite <-Hv, Hlast, last_lookup, En. done. }
  split; y_fields; q_fields; rewrite ?length_app; cbn [length]; try done.
  - lia.
  - by rewrite En, Nat.add_1_r.
  - by rewrite En, Nat.add_1_r.
  - by rewrite H5, Nat.add_sub.
  - destruct H8 as [?|[? ?]]; [by left|lia].
  - intros i Hi1 Hi2. apply H9; lia.
  - rewrite Nat.add_1_r, (take_S_r _ _ v) by done. by rewrite <-H10.
  - destruct m; [done| |done]. lia.
Qed.
Lemma publish_state_ok q q' o pv wr ps os v : slot q (Some (mMutating q)) = Some v → publish q = Ret tt q' →
  sq_ok (Sys q MReady o pv wr ps os) → sq_ok (Sys q' (MCopying 0) o pv wr (ps ++ [v]) os).
Proof.
  intros Hv Hp. unfold publish in Hp. rewrite bind_getst, !bind_modify in Hp. injection Hp as <-.
  intros [H1 H2 H3 H4 H5 H6 H7 H8 H9 H10 H11 H12]. y_fields. destruct H12 as [Hmut Em].
  assert (length (ps ++ [v]) = S (length ps)) as El by (rewrite length_app; cbn; lia).
  split; y_fields; q_fields; rewrite ?El; try done.
  - lia.
  - by rewrite H7.
  - rewrite H7. apply slot_next.
  - left. by rewrite H7.
  - intros i Hi1 Hi2. destruct (decide (i = length ps)) as [->|Hne].
    + rewrite lookup_app_r, Nat.sub_diag by lia. by rewrite <-H7.
    + rewrite lookup_app_l by lia. apply H9; lia.
  - rewrite take_app_le by lia. done.
  - destruct o; [done|]. destruct H11 as [->| ->]; left; by rewrite ?Em.
  - split; [lia|]. split; [done|]. split; [by destruct ps|]. split; [by rewrite H7|]. rewrite last_snoc. rewrite H7, slot_next.
    destruct (mStates q !! (S (length ps) mod kN)%nat) eqn:E; [done|].
    apply lookup_ge_None_1 in E. pose proof (Nat.mod_upper_bound (S (length ps)) kN). unfold kN in *. lia.
Qed.
Lemma copy_ok q k o pv wr ps os : (k < size)%nat → sq_ok (Sys q (MCopying k) o pv wr ps os) →
  ∃ q', copy_word k q = Ret tt q' ∧ sq_ok (Sys q' (MCopying (S k)) o pv wr ps os).
Proof.
  intros Hk Hok. pose proof (last_state _ Hok) as Hl. pose proof (λ w i, put_word_contents _ k w i Hok) as Hput.
  pose proof Hok as [H1 H2 H3 H4 H5 H6 H7 H8 H9 H10 H11 H12]. y_fields. destruct H12 as (_ & Hmut & Hne & He & Ht).
  destruct (last ps) as [l|] eqn:El; [|by apply last_None in El].
  unfold slot in Hl. rewrite <-He in Hl. destruct (mExpecting q) as [e|] eqn:Ee; [|done]. cbn in Hl.
  assert (length l = size) as Hsz by (destruct H1 as [_ H1]; rewrite Forall_lookup in H1; by apply (H1 e)).
  destruct (lookup_lt_is_Some_2 l k) as [w Hw]; [lia|].
  unfold copy_word. rewrite bind_getst, Ee, bind_deref, Hl, bind_deref, Hw, bind_deref. eexists. split; [done|].
  destruct (mStates q !! mMutating q) as [d|] eqn:Ed; [|done]. cbn in Ht. injection Ht as Ht.
  assert (length d = size) as Hd by (destruct H1 as [_ H1]; rewrite Forall_lookup in H1; by apply (H1 (mMutating q))).
  split; y_fields; try done.
  - by apply put_word_len.
  - cbn [put_word set_mStates mExpecting]. by rewrite Ee.
  - intros i. apply Hput.
  - split; [lia|]. split; [done|]. split; [done|]. split; [by rewrite <-Ee in He|].
    cbn [put_word set_mStates mStates mMutating]. rewrite list_lookup_alter, decide_True, Ed, El by done.
    change (Some (take (S k) (<[k:=w]> d)) = Some (take (S k) l)). f_equal.
    rewrite (take_S_r (<[k:=w]> d) k w) by (apply list_lookup_insert_eq; lia). rewrite (take_S_r l k w) by done.
    by rewrite take_insert_ge, Ht by lia.
Qed.

Lemma written_ok q k w o pv wr ps os : mInMutation q = true → sq_ok (Sys q MOut o pv wr ps os) →
  sq_ok (Sys (put_word (mMutating q) k w q) MOut o pv true ps os).
Proof.
  intros Hm Hok. pose proof (λ i, put_word_contents _ k w i Hok) as Hput. destruct Hok as [H1 H2 H3 H4 H5 H6 H7 H8 H9 H10 H11 H12].
  split; y_fields; try done. by apply put_word_len.
Qed.

(** The fields that the invariant does not mention may change. *)
Lemma flags_ok q q' m o pv wr ps os : mStates q' = mStates q → mNext q' = mNext q → mAck q' = mAck q → mCurrent q' = mCurrent q →
  mMutating q' = mMutating q → mExpecting q' = mExpecting q → m = MOut →
  sq_ok (Sys q m o pv wr ps os) → sq_ok (Sys q' m o pv wr ps os).
Proof.
  intros E1 E2 E3 E4 E5 E6 -> [H1 H2 H3 H4 H5 H6 H7 H8 H9 H10 H11 H12]. y_fields. split; y_fields; rewrite ?E1, ?E2, ?E3, ?E4, ?E5, ?E6; done.
Qed.

Lemma acked_all y : sq_ok y → mExpecting (y_queue y) = None ∨ mAck (y_queue y) = mExpecting (y_queue y) →
  length (y_observed y) = length (y_pushed y).
Proof.
  intros [H1 H2 H3 H4 H5 H6 H7 H8 H9 H10 H11 H12] H. destruct H8 as [E|[_ E]]; [|done]. symmetry. apply last_slot_inj; [done|].
  rewrite <-E, <-H4. destruct H as [H|H]; [|done]. rewrite H in E. destruct (y_pushed y); [|done].
  cbn in *. destruct (y_observed y); [|cbn in *; lia]. cbn in H4. by rewrite H, H4.
Qed.

Lemma sq_step_ok y y' : step size y y' → sq_ok y → sq_ok y'.
Proof.
  intros Hs. destruct Hs as [q m pv wr ps os|q m pv wr ps os|q q' m next pv wr ps os v Hne Hack Hv|q q' i o pv wr ps os Hm Hb
    |q q' d o pv wr ps os Hm He|q k w o pv wr ps os Hm Hk|q o pv wr ps os Hm Hd Hr|q q' o pv wr ps os v Hv Hp|q q' k o pv wr ps os Hk Hc
    |q o pv wr ps os|q o pv wr ps os Hm He Ha].
  - intros [H1 H2 H3 H4 H5 H6 H7 H8 H9 H10 H11 H12]. split; y_fields; try done. right. by rewrite H3.
  - intros [H1 H2 H3 H4 H5 H6 H7 H8 H9 H10 H11 H12]. by split.
  - by eapply ack_step_ok.
  - injection Hb as <- <-. by apply flags_ok.
  - unfold end_ in He. destruct d; injection He as <-; by apply flags_ok.
  - by apply written_ok.
  - intros Hok. pose proof (acked_all _ Hok Hr) as Hall. destruct Hok as [H1 H2 H3 H4 H5 H6 H7 H8 H9 H10 H11 H12]. by split.
  - by apply publish_state_ok.
  - intros Hok. destruct (copy_ok _ _ _ _ _ _ _ Hk Hok) as (q2 & E & Hok2). rewrite Hc in E. by injection E as ->.
  - intros Hok. pose proof (last_state _ Hok) as Hlast.
    destruct Hok as [H1 H2 H3 H4 H5 H6 H7 H8 H9 H10 H11 (Hk & Hm & Hne & He & Ht)]. split; y_fields; try done.
    intros _ _. q_fields. destruct (last ps) as [l|] eqn:El; [|by apply last_None in El].
    destruct (mStates q !! mMutating q) as [d|] eqn:Ed; [|done]. cbn in Ht. injection Ht as Ht. f_equal.
    destruct H1 as [_ H1]. rewrite Forall_lookup in H1. pose proof (H1 _ _ Ed) as Hd.
    assert (length l = size) as Hl.
    { destruct (last_slot (length ps)) as [j|]; [|done]. by apply (H1 j). }
    by rewrite !firstn_all2 in Ht by lia.
  - intros Hok. pose proof (acked_all _ Hok ltac:(by right)) as Hall. destruct Hok as [H1 H2 H3 H4 H5 H6 H7 H8 H9 H10 H11 H12]. split; y_fields; try done.
    by right.
Qed.

Definition created (states : list (list Z)) : sys := Sys (StateQueue states) MOut OOut None false [] [].
Lemma created_ok states : length states = kN → Forall (λ l, length l = size) states → sq_ok (created states).
Proof. intros H1 H2. split; y_fields; try done; cbn; try lia; [by left|by intros _ ?]. Qed.
Lemma reach_ok y y' : rtc (step size) y y' → sq_ok y → sq_ok y'.
Proof. induction 1 as [|y1 y2 y3 Hs _ IH]; [done|]. intros Hok. by eapply IH, sq_step_ok. Qed.

(** What the observer's pointers point to. *)
Lemma current_state y : sq_ok y → slot (y_queue y) (mCurrent (y_queue y)) = last (y_observed y).
Proof.
  intros [H1 H2 H3 H4 H5 H6 H7 H8 H9 H10 H11 H12]. rewrite H5. destruct (y_observed y) as [|v os] eqn:E; [done|]. rewrite <-E in *.
  assert (length (y_observed y) = S (length os)) as El by (by rewrite E). rewrite El, last_lookup, El.
  change (mStates (y_queue y) !! (length os mod kN)%nat = y_observed y !! length os).
  rewrite H9 by lia. rewrite H10, lookup_take_lt by lia. done.
Qed.
Lemma previous_state y p : sq_ok y → y_previous y = Some p → mStates (y_queue y) !! p = y_observed y !! (length (y_observed y) - 2)%nat.
Proof.
  intros [H1 H2 H3 H4 H5 H6 H7 H8 H9 H10 H11 H12] Ep. rewrite H6 in Ep. destruct (length (y_observed y) - 1)%nat as [|n] eqn:En; [done|].
  cbn [last_slot] in Ep. apply (inj Some) in Ep. subst p.
  replace (length (y_observed y) - 2)%nat with n by lia. rewrite H9 by lia. by rewrite H10, lookup_take_lt by lia.
Qed.
Lemma observer_goes_on q m next pv wr ps os : sq_ok (Sys q m (OLoaded next) pv wr ps os) →
  ∃ y', step size (Sys q m (OLoaded next) pv wr ps os) y' ∧ y_obs y' = OOut.
Proof.
  intros Hok. destruct (decide (next = mCurrent q)) as [->|Hne]; [eexists; split; [apply step_same|done]|].
  pose proof (last_state _ Hok) as Hl. destruct Hok as [H1 H2 H3 H4 H5 H6 H7 H8 H9 H10 H11 H12]. y_fields.
  destruct H11 as [->| ->]; [congruence|]. destruct (last ps) as [v|] eqn:Ev.
  - eexists. split; [apply step_ack with (v := v); [done| |done]|done].
    unfold poll_ack. rewrite bind_getst, bool_decide_false by done. done.
  - apply last_None in Ev as ->. destruct os; [|cbn in *; lia]. by rewrite H5 in Hne.
Qed.
Lemma mutator_goes_on q m o pv wr ps os : m ≠ MOut → sq_ok (Sys q m o pv wr ps os) →
  ∃ y', step size (Sys q m o pv wr ps os) y' ∧ y_mut y' ≠ m.
Proof.
  intros Hm Hok. destruct m as [| |k]; [done| |].
  - assert (∃ v, slot q (Some (mMutating q)) = Some v) as [v Hv].
    { destruct (ok_states _ Hok) as [Hl _]. pose proof (ok_mutating _ Hok) as E. y_fields. apply lookup_lt_is_Some_2.
      rewrite Hl, E. apply Nat.mod_upper_bound. done. }
    eexists. split; [apply step_publish with (v := v); [done|reflexivity]|done].
  - destruct (ok_mutator _ Hok) as [Hk _]. destruct (decide (k = size)) as [->|Hne]; [eexists; split; [apply step_copied|done]|].
    destruct (copy_ok q k o pv wr ps os ltac:(lia) Hok) as (q' & E & _). eexists. split; [by apply step_copy; [lia|]|].
    y_fields. intros [=]. lia.
Qed.

(** C6: with the accesses of mutator and observer interleaved in any way, the observer
    takes every state that is pushed, in order, and lags behind by one at most; its
    current and its previous state hold what was pushed for as long as it may look at
    them; the state the mutator gets to change holds what it pushed last; and an
    operation that has begun can always go on. *)
Theorem StateQueue_states (states : list (list Z)) (y : sys)
    (Hstates : length states = kN) (Hsize : Forall (λ l, length l = size) states)
    (Hreach : rtc (step size) (created states) y) :
  (∃ new, y_pushed y = y_observed y ++ new ∧ (length new ≤ 1)%nat) ∧
  slot (y_queue y) (mCurrent (y_queue y)) = last (y_observed y) ∧
  (∀ p, y_previous y = Some p → mStates (y_queue y) !! p = y_observed y !! (length (y_observed y) - 2)%nat) ∧
  (y_mut y = MOut → y_wrote y = false → y_pushed y ≠ [] → mStates (y_queue y) !! mMutating (y_queue y) = last (y_pushed y)) ∧
  (y_obs y ≠ OOut → ∃ y', step size y y' ∧ y_obs y' = OOut) ∧
  (y_mut y ≠ MOut → ∃ y', step size y y' ∧ y_mut y' ≠ y_mut y).
Proof.
  pose proof (reach_ok _ _ Hreach (created_ok _ Hstates Hsize)) as Hok. split_and!.
  - exists (drop (length (y_observed y)) (y_pushed y)). pose proof (ok_count _ Hok). split; [|rewrite length_drop; lia].
    rewrite (ok_observed _ Hok) at 1. by rewrite take_drop.
  - by apply current_state.
  - intros p. by apply previous_state.
  - intros Em. pose proof (ok_mutator _ Hok) as H. by rewrite Em in H.
  - destruct y as [q m [|next] pv wr ps os]; [done|]. intros _. by apply observer_goes_on.
  - destruct y as [q m o pv wr ps os]. intros Hm. by apply mutator_goes_on.
Qed.

(** ** [push] as a whole *)

(** The observer polls while the mutator is somewhere. *)
Lemma poll_steps q m pv wr ps os : sq_ok (Sys q m OOut pv wr ps os) →
  ∃ q' pv', poll q = Ret (last_slot (length ps)) q' ∧ rtc (step size) (Sys q m OOut pv wr ps os) (Sys q' m OOut pv' wr ps ps) ∧
    q' = set_mCurrent (last_slot (length ps)) (set_mAck (last_slot (length ps)) q).
Proof.
  intros Hok. pose proof (ok_next _ Hok) as En. y_fields.
  assert (step size (Sys q m OOut pv wr ps os) (Sys q m (OLoaded (mNext q)) pv wr ps os)) as Hs1 by apply step_load.
  unfold poll. rewrite bind_gets, En. unfold poll_ack. rewrite bind_bind, bind_getst.
  case_bool_decide as E; cbn [negb].
  - rewrite bind_ret. pose proof Hok as [H1 H2 H3 H4 H5 H6 H7 H8 H9 H10 H11 H12]. y_fields. rewrite E in *.
    assert (length ps = length os) as El by (apply last_slot_inj; [done|congruence]).
    assert (q = set_mCurrent (mCurrent q) (set_mAck (mCurrent q) q)) as Eq.
    { destruct q. cbn in *. unfold set_mCurrent, set_mAck. cbn. congruence. }
    exists q, pv. split; [done|]. split; [|done]. rewrite firstn_all2 in H10 by lia. subst os.
    eapply rtc_l; [exact Hs1|]. rewrite En. apply rtc_once, step_same.
  - rewrite bind_bind, !bind_modify. pose proof (last_state _ Hok) as Hl. pose proof Hok as [H1 H2 H3 H4 H5 H6 H7 H8 H9 H10 H11 H12]. y_fields.
    assert (length ps = S (length os)) as El.
    { destruct (decide (length ps = length os)) as [E'|]; [by rewrite E', H5 in E|lia]. }
    destruct (last ps) as [v|] eqn:Ev; [|apply last_None in Ev as ->; cbn in El; lia].
    assert (ps = os ++ [v]) as Eps.
    { rewrite H10 at 1. rewrite <-take_S_r; [by rewrite firstn_all2 by lia|]. by rewrite <-Ev, last_lookup, El. }
    set (q2 := set_mCurrent (last_slot (length ps)) (set_mAck (last_slot (length ps)) q)).
    assert (poll_ack (last_slot (length ps)) q = Ret tt q2) as Hack.
    { unfold poll_ack. rewrite bind_getst, bool_decide_false by done. done. }
    pose proof (step_ack size q q2 m _ pv wr ps os v E Hack Hl) as Hs2. rewrite <-Eps in Hs2.
    exists q2, (mCurrent q). split; [done|]. split; [|done]. eapply rtc_l; [exact Hs1|]. rewrite En. by apply rtc_once.
Qed.
(** The observer changes its two pointers only. *)
Definition polled (q q' : statequeue) : Prop := ∃ a c, q' = set_mCurrent c (set_mAck a q).
Lemma polled_refl q : polled q q.
Proof. exists (mAck q), (mCurrent q). by destruct q. Qed.
Lemma polled_trans q1 q2 q3 : polled q1 q2 → polled q2 q3 → polled q1 q3.
Proof. intros (a & c & ->) (a' & c' & ->). by exists a', c'. Qed.

Lemma polls_steps n : ∀ q m pv wr ps os, sq_ok (Sys q m OOut pv wr ps os) →
  ∃ q' pv' os', polls n q = Ret tt q' ∧ rtc (step size) (Sys q m OOut pv wr ps os) (Sys q' m OOut pv' wr ps os') ∧
    (n ≠ 0%nat ∨ os = ps → os' = ps) ∧ polled q q'.
Proof.
  induction n as [|n IH]; intros q m pv wr ps os Hok.
  { exists q, pv, os. split; [done|]. split; [done|]. split; [by intros [?|?]|apply polled_refl]. }
  cbn [polls]. destruct (poll_steps q m pv wr ps os Hok) as (q1 & pv1 & E1 & S1 & Eq1). rewrite (bind_of _ E1).
  pose proof (reach_ok _ _ S1 Hok) as Hok1. destruct (IH q1 m pv1 wr ps ps Hok1) as (q2 & pv2 & os2 & E2 & S2 & H2 & Hp2).
  exists q2, pv2, os2. split; [done|]. split; [by etrans|]. split; [intros _; apply H2; by right|].
  eapply polled_trans; [|exact Hp2]. by eexists _, _.
Qed.

(** The waits end when the observer polls in one of the sleeps. *)
Definition answered (q : statequeue) (turns : list nat) : Prop := mAck q = mExpecting q ∨ ∃ n, n ∈ turns ∧ n ≠ 0%nat.
Lemma answered_polled n turns q q' pv wr ps os : sq_ok (Sys q' MOut OOut pv wr ps os) → polled q q' → mExpecting q ≠ None →
  answered q (n :: turns) → mAck q ≠ mExpecting q → (n ≠ 0%nat → os = ps) → answered q' turns.
Proof.
  intros Hok (a & c & ->) He [?|(k & Hk & Hk0)] Hne Hos; [done|]. apply elem_of_cons in Hk as [<-|Hk]; [|right; by exists k].
  left. rewrite (Hos Hk0) in Hok. pose proof (ok_ack _ Hok) as Ha. y_fields. rewrite Ha. by destruct (ok_expecting _ Hok) as [E|[E _]].
Qed.
Lemma wait_prior_steps block turns : ∀ q pv wr ps os, sq_ok (Sys q MOut OOut pv wr ps os) → mExpecting q ≠ None →
  block = BLOCK_NEVER ∨ answered q turns →
  ∃ b q' pv' os', wait_prior block turns q = Ret b q' ∧ rtc (step size) (Sys q MOut OOut pv wr ps os) (Sys q' MOut OOut pv' wr ps os') ∧
    polled q q' ∧ (b = true → mAck q' = mExpecting q') ∧
    (b = false → block = BLOCK_NEVER ∧ q' = q ∧ pv' = pv ∧ os' = os ∧ mAck q ≠ mExpecting q).
Proof.
  induction turns as [|n turns IH]; intros q pv wr ps os Hok He Ha; cbn [wait_prior]; rewrite bind_getst;
    (case_bool_decide as E1; [exists true, q, pv, os; split_and!; try done; apply polled_refl|]);
    (case_bool_decide as E2; [exists false, q, pv, os; split_and!; try done; apply polled_refl|]);
    (destruct Ha as [?|Ha]; [done|]).
  - destruct Ha as [?|(n & Hn & _)]; [done|]. by apply elem_of_nil in Hn.
  - destruct (polls_steps n q MOut pv wr ps os Hok) as (q1 & pv1 & os1 & R1 & S1 & Hos & Hp). rewrite (bind_of _ R1).
    pose proof (reach_ok _ _ S1 Hok) as Hok1. pose proof Hp as (a & c & Eq).
    destruct (IH q1 pv1 wr ps os1 Hok1) as (b & q2 & pv2 & os2 & R2 & S2 & Hp2 & Ht & Hf).
    + by rewrite Eq.
    + right. by eapply answered_polled; eauto.
    + exists b, q2, pv2, os2. split; [done|]. split; [by etrans|]. split; [by eapply polled_trans|]. split; [done|].
      intros Eb. by destruct (Hf Eb) as (? & _).
Qed.
Lemma wait_ack_steps turns : ∀ q pv wr ps os, sq_ok (Sys q MOut OOut pv wr ps os) → mExpecting q ≠ None → mInMutation q = false →
  answered q turns →
  ∃ q' pv' , wait_ack turns q = Ret tt q' ∧ rtc (step size) (Sys q MOut OOut pv wr ps os) (Sys q' MOut OOut pv' wr ps ps) ∧
    mInMutation q' = false ∧ mIsDirty q' = mIsDirty q.
Proof.
  induction turns as [|n turns IH]; intros q pv wr ps os Hok He Hm Ha; cbn [wait_ack]; rewrite bind_getst;
    (case_bool_decide as E1; [|]).
  2: { destruct Ha as [?|(n & Hn & _)]; [done|]. by apply elem_of_nil in Hn. }
  3: { destruct (polls_steps n q MOut pv wr ps os Hok) as (q1 & pv1 & os1 & R1 & S1 & Hos & Hp). rewrite (bind_of _ R1).
    pose proof (reach_ok _ _ S1 Hok) as Hok1. pose proof Hp as (a & c & Eq).
    destruct (IH q1 pv1 wr ps os1 Hok1) as (q2 & pv2 & R2 & S2 & H1 & H2); [by rewrite Eq|by rewrite Eq|by eapply answered_polled; eauto|].
    exists q2, pv2. split; [done|]. split; [by etrans|]. split; [done|]. by rewrite H2, Eq. }
  all: exists (set_mExpecting None q), pv; split; [done|]; split; [|done];
    pose proof (acked_all _ Hok (or_intror E1)) as Hall; pose proof (ok_observed _ Hok) as Eo; y_fields;
    rewrite firstn_all2 in Eo by lia; rewrite Eo at 1; by apply rtc_once, step_acked.
Qed.

Lemma copy_words_steps n : ∀ k q o pv wr ps os, (k + n)%nat = size → sq_ok (Sys q (MCopying k) o pv wr ps os) →
  ∃ q', copy_words k n q = Ret tt q' ∧ rtc (step size) (Sys q (MCopying k) o pv wr ps os) (Sys q' (MCopying size) o pv wr ps os).
Proof.
  induction n as [|n IH]; intros k q o pv wr ps os Hk Hok; cbn [copy_words].
  - rewrite Nat.add_0_r in Hk. subst k. by exists q.
  - destruct (copy_ok q k o pv wr ps os ltac:(lia) Hok) as (q1 & E1 & Hok1). rewrite (bind_of _ E1).
    destruct (IH (S k) q1 o pv wr ps os ltac:(lia) Hok1) as (q2 & E2 & S2). exists q2. split; [done|].
    eapply rtc_l; [|exact S2]. apply step_copy; [lia|done].
Qed.

(** The part of [push] between the waits. *)
Definition pushed_state : M statequeue bool := publish ;;; copy_words 0 size ;;; modify (set_mIsDirty false) ;;; ret true.
Lemma pushed_steps q o pv wr ps os : sq_ok (Sys q MOut o pv wr ps os) → mInMutation q = false → mIsDirty q = true →
  mExpecting q = None ∨ mAck q = mExpecting q →
  ∃ v q', mStates q !! mMutating q = Some v ∧ pushed_state q = Ret true q' ∧ mIsDirty q' = false ∧ mInMutation q' = false ∧ mExpecting q' ≠ None ∧
    rtc (step size) (Sys q MOut o pv wr ps os) (Sys q' MOut o pv false (ps ++ [v]) os).
Proof.
  intros Hok Hm Hd Hr. pose proof (step_ready size q o pv wr ps os Hm Hd Hr) as S1. pose proof (sq_step_ok _ _ S1 Hok) as Hok1.
  destruct (ok_states _ Hok) as [Hl _]. pose proof (ok_mutating _ Hok) as Emut. y_fields.
  destruct (lookup_lt_is_Some_2 (mStates q) (mMutating q)) as [v Hv]; [rewrite Hl, Emut; by apply Nat.mod_upper_bound|].
  destruct (publish q) as [[] q1|] eqn:Ep; [|done].
  pose proof (step_publish size q q1 o pv wr ps os v Hv Ep) as S2. pose proof (sq_step_ok _ _ S2 Hok1) as Hok2.
  destruct (copy_words_steps size 0 q1 o pv wr _ os ltac:(lia) Hok2) as (q2 & Ec & S3). pose proof (reach_ok _ _ S3 Hok2) as Hok3.
  exists v, (set_mIsDirty false q2). split; [done|]. unfold pushed_state. rewrite (bind_of _ Ep), (bind_of _ Ec), bind_modify.
  split; [done|]. split; [done|]. destruct (ok_mutator _ Hok3) as (_ & Hm3 & Hne & He3 & _). y_fields. split; [done|]. split.
  - cbn [set_mIsDirty mExpecting]. rewrite He3. by destruct (ps ++ [v]).
  - eapply rtc_l; [exact S1|]. eapply rtc_l; [exact S2|]. etrans; [exact S3|]. apply rtc_once, step_copied.
Qed.

Lemma push_dirty_steps block prior q pv wr ps os : sq_ok (Sys q MOut OOut pv wr ps os) → mInMutation q = false →
  block = BLOCK_NEVER ∨ (∃ n, n ∈ prior ∧ n ≠ 0%nat) →
  ∃ b q' pv' wr' ps' os', push_dirty size block prior q = Ret b q' ∧
    rtc (step size) (Sys q MOut OOut pv wr ps os) (Sys q' MOut OOut pv' wr' ps' os') ∧ mInMutation q' = false ∧
    (if b then mIsDirty q' = false ∧ (if mIsDirty q then ∃ v, mStates q !! mMutating q = Some v ∧ ps' = ps ++ [v] else ps' = ps)
      else block = BLOCK_NEVER ∧ mIsDirty q = true ∧ length ps = S (length os) ∧ q' = q ∧ ps' = ps ∧ os' = os).
Proof.
  intros Hok Hm Hb. unfold push_dirty. rewrite bind_getst.
  destruct (mIsDirty q) eqn:Ed; [|exists true, q, pv, wr, ps, os; by rewrite Ed].
  case_bool_decide as He.
  - destruct (wait_prior_steps block prior q pv wr ps os Hok He) as (b & q1 & pv1 & os1 & E1 & S1 & (a & c & Eq) & Ht & Hf).
    { destruct Hb as [?|?]; [by left|by right; right]. }
    rewrite (bind_of _ E1). destruct b.
    + pose proof (reach_ok _ _ S1 Hok) as Hok1.
      destruct (pushed_steps q1 OOut pv1 wr ps os1 Hok1) as (v & q2 & Hv & E2 & Hd2 & Hm2 & _ & S2); [by rewrite Eq|by rewrite Eq|by right; apply Ht|].
      exists true, q2, pv1, false, (ps ++ [v]), os1. split; [exact E2|]. split; [by etrans|]. split; [done|]. split; [done|].
      exists v. split; [|done]. by rewrite Eq in Hv.
    + destruct (Hf eq_refl) as (Hn & -> & -> & -> & Hne). exists false, q, pv, wr, ps, os. split_and!; try done.
      pose proof (ok_count _ Hok) as Hc. pose proof (ok_ack _ Hok) as Ha. pose proof (ok_expecting _ Hok) as Hx. y_fields.
      destruct (decide (length ps = length os)) as [E|]; [|lia]. destruct Hx as [Hx|[Hx _]]; [|done]. by rewrite Ha, Hx, E in Hne.
  - rewrite bind_ret. assert (mExpecting q = None) as HN by (destruct (mExpecting q); [by destruct He|done]).
    destruct (pushed_steps q OOut pv wr ps os Hok Hm Ed (or_introl HN)) as (v & q2 & Hv & E2 & Hd2 & Hm2 & _ & S2).
    exists true, q2, pv, false, (ps ++ [v]), os. split; [exact E2|]. split; [done|]. split; [done|]. split; [done|]. by exists v.
Qed.

(** C25: [push] returns if the observer polls during the waits it is asked to make, and
    without waiting if it is asked to make none; its accesses are among those of the
    queue.  What has been modified is pushed, and acknowledged when that is asked for;
    [push] fails only if it must not wait and the prior push has not been taken, and
    then changes nothing. *)
Theorem push_spec (block : block_t) (prior turns : list nat) (states : list (list Z)) (q : statequeue) (pv : option nat) (wr : bool) (ps os : list (list Z))
    (Hstates : length states = kN) (Hsize : Forall (λ l, length l = size) states)
    (Hreach : rtc (step size) (created states) (Sys q MOut OOut pv wr ps os)) (Hm : mInMutation q = false)
    (Hprior : block = BLOCK_NEVER ∨ ∃ n, n ∈ prior ∧ n ≠ 0%nat)
    (Hturns : block = BLOCK_UNTIL_ACKED → ∃ n, n ∈ turns ∧ n ≠ 0%nat) :
  ∃ b q' pv' wr' ps' os', push size block prior turns q = Ret b q' ∧
    rtc (step size) (Sys q MOut OOut pv wr ps os) (Sys q' MOut OOut pv' wr' ps' os') ∧
    (if b then mIsDirty q' = false ∧ (block = BLOCK_UNTIL_ACKED → os' = ps') ∧
        (if mIsDirty q then ∃ v, mStates q !! mMutating q = Some v ∧ ps' = ps ++ [v] else ps' = ps)
      else block = BLOCK_NEVER ∧ mIsDirty q = true ∧ length ps = S (length os) ∧ q' = q ∧ ps' = ps ∧ os' = os).
Proof.
  pose proof (reach_ok _ _ Hreach (created_ok _ Hstates Hsize)) as Hok. unfold push.
  destruct (push_dirty_steps block prior q pv wr ps os Hok Hm Hprior) as (b & q1 & pv1 & wr1 & ps1 & os1 & E1 & S1 & Hm1 & H1).
  rewrite (bind_of _ E1). destruct b; cbn [negb]; [|by exists false, q1, pv1, wr1, ps1, os1].
  destruct H1 as [Hd1 H1]. pose proof (reach_ok _ _ S1 Hok) as Hok1. rewrite bind_getst.
  destruct (decide (block = BLOCK_UNTIL_ACKED)) as [Hb|Hb].
  - rewrite bool_decide_true by done. cbn [andb]. destruct (decide (mExpecting q1 = None)) as [He|He].
    + rewrite bool_decide_false by auto. exists true, q1, pv1, wr1, ps1, os1. split; [done|]. split; [done|]. split; [done|]. split; [|done].
      intros _. pose proof (acked_all _ Hok1 (or_introl He)) as Hall. pose proof (ok_observed _ Hok1) as Ho. y_fields.
      by rewrite firstn_all2 in Ho by lia.
    + rewrite bool_decide_true by done.
      destruct (wait_ack_steps turns q1 pv1 wr1 ps1 os1 Hok1 He Hm1 (or_intror (Hturns Hb))) as (q2 & pv2 & E2 & S2 & _ & Hd2).
      rewrite (bind_of _ E2). exists true, q2, pv2, wr1, ps1, ps1. split; [done|]. split; [by etrans|]. by rewrite Hd2.
  - rewrite (bool_decide_false (block = _)) by done. cbn [andb]. rewrite bind_ret. by exists true, q1, pv1, wr1, ps1, os1.
Qed.
End size.

(** ** An example *)

Module SqDemo.
Definition states : list (list Z) := [[0; 0]; [0; 0]; [0; 0]; [0; 0]].
(** The queue after a mutation that writes one word. *)
Definition dirty : statequeue := set_mIsInitialized true (set_mIsDirty true (put_word 0 1 7 (StateQueue states))).
Lemma dirty_reached : rtc (step 2) (created states) (Sys dirty MOut OOut None true [] []).
Proof.
  eapply rtc_l; [by eapply step_begin|]. eapply rtc_l; [by eapply (step_write 2 _ 1 7); [done|lia]|].
  eapply rtc_l; [by eapply (step_end 2 _ _ true)|]. apply rtc_refl.
Qed.

(** The observer takes the state while the mutator is copying it. *)
Lemma StateQueue_states_witness : ∃ y, rtc (step 2) (created states) y ∧ y_mut y = MCopying 1 ∧ y_observed y = [[0; 7]] ∧
  slot (y_queue y) (mCurrent (y_queue y)) = Some [0; 7].
Proof.
  assert (∃ y, rtc (step 2) (created states) y ∧ y_mut y = MCopying 1 ∧ y_observed y = [[0; 7]]) as (y & Hy & Hm & Ho).
  { eexists. split; [|split].
    - etrans; [exact dirty_reached|]. eapply rtc_l; [eapply step_ready; [done|done|by left]|].
      eapply rtc_l; [by eapply step_publish|]. eapply rtc_l; [eapply step_load|]. eapply rtc_l; [by eapply step_copy; [lia|]|].
      eapply rtc_l; [by eapply step_ack|]. apply rtc_refl.
    - reflexivity.
    - reflexivity. }
  exists y. split; [done|]. split; [done|]. split; [done|].
  destruct (StateQueue_states 2 states y eq_refl ltac:(by repeat constructor) Hy) as (_ & Hc & _). by rewrite Hc, Ho.
Defined.

Lemma push_spec_witness : ∃ q' pv' wr' ps' os', push 2 BLOCK_UNTIL_ACKED [1%nat] [0%nat; 1%nat] dirty = Ret true q' ∧
  rtc (step 2) (created states) (Sys q' MOut OOut pv' wr' ps' os') ∧ os' = [[0; 7]].
Proof.
  destruct (push_spec 2 BLOCK_UNTIL_ACKED [1%nat] [0%nat; 1%nat] states dirty None true [] []
    eq_refl ltac:(by repeat constructor) dirty_reached eq_refl) as (b & q' & pv' & wr' & ps' & os' & E & S & H).
  - right. exists 1%nat. split; [apply elem_of_cons; by left|done].
  - intros _. exists 1%nat. split; [apply elem_of_cons; right; apply elem_of_cons; by left|done].
  - destruct b; [|by destruct H as [? _]]. exists q', pv', wr', ps', os'. split; [done|].
    split; [etrans; [exact dirty_reached|exact S]|]. destruct H as (_ & Ho & v & Hv & ->). rewrite (Ho eq_refl).
    cbn in Hv. by injection Hv as <-.
Defined.
End SqDemo.
