(* ===== verification/MemoryDealer.v ===== *)
(** * Memory shared with clients

    [libs/binder/MemoryDealer.cpp]: a heap that the server and a client both map is cut
    into blocks, of which a track's buffer is one.  The chunks of the heap, used and
    free, are in a list in the order of their places. *)

From Stdlib Require Import ZArith Lia.
From stdpp Require Import base tactics numbers option list relations sorting.
From S2P Require Import Prelude.

Definition kMemoryAlign : Z := 32.
Definition PAGE_ALIGNED : Z := 1.
Definition NO_MEMORY : Z := - 12.
Definition NO_ERROR : Z := 0.
Definition NAME_NOT_FOUND : Z := - 2.
(** A field of 28 bits. *)
Definition u28 (x : Z) : Z := x mod 2 ^ 28.

(** [chunk_t], start and size in units of [kMemoryAlign]; [LinkedList<chunk_t>] is the
    list of the chunks from head to tail. *)
Record chunk := Chunk { ck_start : Z; ck_size : Z; ck_free : bool }.
Definition chunk_t (start size : Z) : chunk := Chunk start (u28 size) true.
Definition set_ck_start (v : Z) (c : chunk) : chunk := Chunk v (ck_size c) (ck_free c).
Definition set_ck_size (v : Z) (c : chunk) : chunk := Chunk (ck_start c) (u28 v) (ck_free c).
Definition set_ck_free (v : bool) (c : chunk) : chunk := Chunk (ck_start c) (ck_size c) v.

(** [LinkedList], a node being its place. *)
Definition insertBefore (i : nat) (c : chunk) (l : list chunk) : list chunk := take i l ++ c :: drop i l.
Definition insertAfter (i : nat) (c : chunk) (l : list chunk) : list chunk := insertBefore (S i) c l.

(** How far the next page is from a chunk's start. *)
Definition extra (flags : Z) (c : chunk) : Z :=
  if bool_decide (Z.land flags PAGE_ALIGNED ≠ 0) then Z.land (u32 (- ck_start c)) (PAGE_SIZE / kMemoryAlign - 1) else 0.

(** The search of [alloc], from the chunk with number [i] on. *)
Fixpoint scan (size flags : Z) (i : nat) (free_chunk : option (nat * chunk)) (l : list chunk) : option (nat * chunk) :=
  match l with
  | [] => free_chunk
  | cur :: l =>
      if ck_free cur && bool_decide (ck_size cur >= u32 (size + extra flags cur)) then
        let free_chunk := match free_chunk with
          | Some (_, b) => if bool_decide (ck_size cur < ck_size b) then Some (i, cur) else free_chunk
          | None => Some (i, cur)
          end in
        if bool_decide (ck_size cur = size) then free_chunk else scan size flags (S i) free_chunk l
      else scan size flags (S i) free_chunk l
  end.

(** [SimpleBestFitAllocator]. *)
Record allocator := Allocator { mList : list chunk; mHeapSize : Z }.
Definition set_mList (l : list chunk) (a : allocator) : allocator := Allocator l (mHeapSize a).
Definition SimpleBestFitAllocator (size : Z) : allocator :=
  let mHeapSize := PAGE_ALIGN size in Allocator [chunk_t 0 (mHeapSize / kMemoryAlign)] mHeapSize.
Definition on_list (f : list chunk → list chunk) : M allocator unit := modify (λ a, set_mList (f (mList a)) a).

Definition alloc (size flags : Z) : M allocator Z :=
  if bool_decide (size = 0) then ret 0 else
  let size := u32 (size + kMemoryAlign - 1) / kMemoryAlign in
  a <- getst ;;
  match scan size flags 0 None (mList a) with
  | Some (i, free_chunk) =>
      let free_size := ck_size free_chunk in
      on_list (alter (λ c, set_ck_size size (set_ck_free false c)) i) ;;;
      start <- (if bool_decide (free_size > size) then
          let extra := extra flags free_chunk in
          let start := u32 (ck_start free_chunk + extra) in
          i <- (if bool_decide (extra ≠ 0) then
              on_list (alter (set_ck_start start) i) ;;;
              on_list (insertBefore i (chunk_t (ck_start free_chunk) extra)) ;;;
              ret (S i)
            else ret i) ;;
          let tail_free := s32 (free_size - u32 (size + extra)) in
          (when bool_decide (tail_free > 0) do on_list (insertAfter i (chunk_t (u32 (start + size)) tail_free))) ;;;
          ret start
        else ret (ck_start free_chunk)) ;;
      ret (s32 (start * kMemoryAlign))
  | None => ret NO_MEMORY
  end.

(** The chunk that starts at [start], with those before it, the nearest first, and
    those behind it. *)
Fixpoint find_chunk (start : Z) (before l : list chunk) : option (list chunk * chunk * list chunk) :=
  match l with
  | [] => None
  | cur :: l => if bool_decide (ck_start cur = start) then Some (before, cur, l) else find_chunk start (cur :: before) l
  end.
(** The loop that merges free chunks, from [cur] on. *)
Fixpoint merge (before : list chunk) (cur : chunk) (after : list chunk) : list chunk :=
  let before := match before with
    | p :: ps =>
        if ck_free p || bool_decide (ck_size cur = 0) then set_ck_size (ck_size p + ck_size cur) p :: ps
        else cur :: before
    | [] => [cur]
    end in
  match after with
  | n :: ns => if ck_free n then merge before n ns else rev_append before after
  | [] => rev_append before []
  end.
(** [dealloc]: whether there was such a chunk. *)
Definition dealloc (start : Z) : M allocator bool :=
  a <- getst ;;
  match find_chunk (start / kMemoryAlign) [] (mList a) with
  | Some (before, cur, after) => on_list (λ _, merge before (set_ck_free true cur) after) ;;; ret true
  | None => ret false
  end.

Definition allocate (size flags : Z) : M allocator Z := alloc size flags.
Definition deallocate (offset : Z) : M allocator Z :=
  freed <- dealloc offset ;;
  ret (if freed : bool then NO_ERROR else NAME_NOT_FOUND).

(** [MemoryDealer], with the ranges of pages it has given back to the kernel. *)
Record dealer := Dealer { md_allocator : allocator; md_advised : list (Z * Z) }.
Definition MemoryDealer (size : Z) : dealer := Dealer (SimpleBestFitAllocator size) [].
Definition in_allocator {A} (m : M allocator A) : M dealer A := zoom md_allocator (λ a d, Dealer a (md_advised d)) m.
Definition madvise (start size : Z) : M dealer unit := modify (λ d, Dealer (md_allocator d) (md_advised d ++ [(start, size)])).

(** [MemoryDealer::allocate]: the offset and the size of the [Allocation]. *)
Definition MemoryDealer_allocate (size : Z) : M dealer (option (Z * Z)) :=
  offset <- in_allocator (allocate size 0) ;;
  ret (if bool_decide (offset >= 0) then Some (offset, size) else None).

(** [Allocation::~Allocation]. *)
Definition Allocation_delete (freedOffset freedSize : Z) : M dealer unit :=
  when bool_decide (freedSize ≠ 0) do (
    _ <- in_allocator (deallocate freedOffset) ;;
    let start := page_mask freedOffset in
    let end_ := page_mask (u32 (u32 (freedOffset + freedSize) + PAGE_SIZE - 1)) in
    let free_start := freedOffset in
    let free_end := u32 (free_start + freedSize) in
    let start := if bool_decide (start < free_start) then free_start else start in
    let end_ := if bool_decide (end_ > free_end) then free_end else end_ in
    let start := page_mask (u32 (start + PAGE_SIZE - 1)) in
    let end_ := page_mask end_ in
    when bool_decide (start < end_) do madvise start (end_ - start)).
