(* ===== verification/MemoryDealerSpec.v ===== *)
(** * Blocks of a shared heap

    The chunks of [MemoryDealer] cover the heap without gap or overlap and free
    neighbours are always joined; blocks in use never overlap, and pages given back to
    the kernel lie in the block that is released. *)

From Stdlib Require Import ZArith Lia.
From stdpp Require Import base tactics numbers option list relations sorting.
From S2P Require Import Prelude MemoryDealer.

(** ** The list of chunks *)

(** The chunks from [s] to [e] follow each other. *)
Fixpoint tiled (s : Z) (l : list chunk) (e : Z) : Prop :=
  match l with [] => s = e | c :: l => ck_start c = s ∧ 0 < ck_size c ∧ tiled (s + ck_size c) l e end.
(** No two neighbours are free; [f] tells whether the chunk before the first is. *)
Fixpoint spaced (f : bool) (l : list chunk) : Prop :=
  match l with [] => True | c :: l => f && ck_free c = false ∧ spaced (ck_free c) l end.
Definition end_free (f : bool) (l : list chunk) : bool := from_option ck_free f (last l).

Lemma tiled_app s l1 l2 e : tiled s (l1 ++ l2) e ↔ ∃ m, tiled s l1 m ∧ tiled m l2 e.
Proof.
  revert s. induction l1 as [|c l1 IH]; intros s; cbn [app tiled].
  - split; [intros H; by exists s|by intros (m & -> & H)].
  - rewrite IH. split; [intros (? & ? & m & ? & ?); by exists m|intros (m & (? & ? & ?) & ?); split_and!; [done|done|by exists m]].
Qed.
Lemma tiled_le s l e : tiled s l e → s ≤ e.
Proof. revert s. induction l as [|c l IH]; intros s; cbn; [lia|]. intros (? & ? & H). apply IH in H. lia. Qed.
Lemma end_free_cons f c l : end_free f (c :: l) = end_free (ck_free c) l.
Proof. unfold end_free. destruct l as [|d l]; [done|]. by rewrite last_cons_cons; destruct (last (d :: l)) eqn:E; [|apply last_None in E]. Qed.
Lemma spaced_app f l1 l2 : spaced f (l1 ++ l2) ↔ spaced f l1 ∧ spaced (end_free f l1) l2.
Proof.
  revert f. induction l1 as [|c l1 IH]; intros f; [cbn; tauto|]. cbn [app spaced]. rewrite IH, end_free_cons. tauto.
Qed.
Lemma end_free_snoc f l c : end_free f (l ++ [c]) = ck_free c.
Proof. unfold end_free. by rewrite last_snoc. Qed.

(** The list of an allocator of [n] units. *)
Record list_ok (n : Z) (l : list chunk) : Prop := {
  lo_tiled : tiled 0 l n;
  lo_spaced : spaced false l;
  lo_size : n < 2 ^ 27
}.
(** A chunk of it and those around. *)
Lemma list_ok_mid n l1 c l2 : list_ok n (l1 ++ c :: l2) →
  tiled 0 l1 (ck_start c) ∧ tiled (ck_start c + ck_size c) l2 n ∧ 0 ≤ ck_start c ∧ 0 < ck_size c ∧ ck_start c + ck_size c ≤ n.
Proof.
  intros [H _ _]. apply tiled_app in H as (m & H1 & H2 & H3 & H4). subst m.
  pose proof (tiled_le _ _ _ H1). pose proof (tiled_le _ _ _ H4). done.
Qed.
Lemma u28_small x : 0 ≤ x < 2 ^ 28 → u28 x = x.
Proof. apply Z.mod_small. Qed.

(** What the used chunks occupy. *)
Definition used (l : list chunk) : list (Z * Z) := (λ c, (ck_start c, ck_size c)) <$> filter (λ c, ck_free c = false) l.
Lemma used_app l1 l2 : used (l1 ++ l2) = used l1 ++ used l2.
Proof. unfold used. by rewrite filter_app, fmap_app. Qed.
Lemma used_free c l : ck_free c = true → used (c :: l) = used l.
Proof. intros H. unfold used. rewrite filter_cons_False; [done|]. by rewrite H. Qed.
Lemma used_used c l : ck_free c = false → used (c :: l) = (ck_start c, ck_size c) :: used l.
Proof. intros H. unfold used. by rewrite filter_cons_True. Qed.

(** ** Allocation *)

Lemma alter_mid (f : chunk → chunk) l1 c l2 : alter f (length l1) (l1 ++ c :: l2) = l1 ++ f c :: l2.
Proof. induction l1 as [|x l1 IH]; [done|]. cbn. by f_equal. Qed.
Lemma insert_before_mid c l1 l2 : insertBefore (length l1) c (l1 ++ l2) = l1 ++ c :: l2.
Proof. unfold insertBefore. by rewrite take_app_length, drop_app_length. Qed.

Section scan.
Context (size flags : Z).
(** The chunk is free and has room for [size] units, where the next page starts if so asked. *)
Definition fits (c : chunk) : Prop := ck_free c = true ∧ size + extra flags c ≤ ck_size c.

Lemma extra_range c : 0 ≤ extra flags c < 2 ^ 7.
Proof.
  unfold extra. case_bool_decide; [|lia]. change (PAGE_SIZE / kMemoryAlign - 1) with (Z.ones 7).
  rewrite Z.land_ones by lia. apply Z.mod_pos_bound. lia.
Qed.
Lemma fits_test c : 0 < size < 2 ^ 31 → ck_free c && bool_decide (ck_size c >= u32 (size + extra flags c)) = true ↔ fits c.
Proof.
  intros Hs. pose proof (extra_range c). rewrite u32_small by lia. rewrite andb_true_iff, bool_decide_eq_true. unfold fits. intuition lia.
Qed.

Lemma scan_ok l : 0 < size < 2 ^ 31 → ∀ i best, (∀ j b, best = Some (j, b) → fits b) →
  match scan size flags i best l with
  | None => best = None ∧ Forall (λ c, ¬ fits c) l
  | Some (j, c) => fits c ∧ (best = Some (j, c) ∨ ∃ k, j = (i + k)%nat ∧ l !! k = Some c) ∧
      Forall (λ c', fits c' → ck_size c ≤ ck_size c') l ∧ (∀ j' b, best = Some (j', b) → ck_size c ≤ ck_size b)
  end.
Proof.
  intros Hs. induction l as [|cur l IH]; intros i best Hb; cbn [scan].
  { destruct best as [[j c]|]; [|done]. split; [by eapply Hb|]. split; [by left|]. split; [done|]. by intros j' b [= <- <-]. }
  pose proof (fits_test cur Hs) as Ht. destruct (ck_free cur && bool_decide _) eqn:E.
  - apply proj1 in Ht. specialize (Ht eq_refl).
    set (best' := match best with Some (_, b) => if bool_decide (ck_size cur < ck_size b) then Some (i, cur) else best | None => Some (i, cur) end).
    assert (∃ j c, best' = Some (j, c) ∧ fits c ∧ (best = Some (j, c) ∨ j = i ∧ c = cur) ∧ ck_size c ≤ ck_size cur ∧
      (∀ j' b, best = Some (j', b) → ck_size c ≤ ck_size b)) as (j & c & Ebest & Hf & Hor & Hle & Hleb).
    { unfold best'. destruct best as [[j b]|].
      - destruct (bool_decide_reflect (ck_size cur < ck_size b)) as [Hlt|Hlt].
        + exists i, cur. split; [done|]. split; [done|]. split; [by right|]. split; [lia|]. intros j' b' [= <- <-]. lia.
        + exists j, b. split; [done|]. split; [by eapply Hb|]. split; [by left|]. split; [lia|]. by intros j' b' [= <- <-].
      - exists i, cur. split; [done|]. split; [done|]. split; [by right|]. split; [lia|]. intros ? ? [=]. }
    rewrite Ebest. clear best' Ebest. destruct (bool_decide_reflect (ck_size cur = size)) as [Ex|Ex].
    + split; [done|]. split; [destruct Hor as [?|[-> ->]]; [by left|right; exists 0%nat; split; [lia|done]]|]. split; [|done].
      constructor; [intros _; lia|]. apply Forall_forall. intros c' _ [_ Hc']. pose proof (extra_range c'). lia.
    + specialize (IH (S i) (Some (j, c)) ltac:(by intros ? ? [= <- <-])).
      destruct (scan size flags (S i) (Some (j, c)) l) as [[j2 c2]|]; [|by destruct IH].
      destruct IH as (Hf2 & Hor2 & Hall & Hle2). specialize (Hle2 j c eq_refl). split; [done|]. split.
      * destruct Hor2 as [[= <- <-]|(k & -> & Hk)].
        -- destruct Hor as [?|[-> ->]]; [by left|right; exists 0%nat; split; [lia|done]].
        -- right. exists (S k). split; [lia|done].
      * split; [constructor; [intros _; lia|done]|]. intros j' b Eb. specialize (Hleb j' b Eb). lia.
  - assert (¬ fits cur) as Hn by (intros Hc; by apply Ht in Hc). specialize (IH (S i) best Hb).
    destruct (scan size flags (S i) best l) as [[j2 c2]|].
    + destruct IH as (Hf2 & Hor2 & Hall & Hle2). split; [done|]. split.
      * destruct Hor2 as [?|(k & -> & Hk)]; [by left|]. right. exists (S k). split; [lia|done].
      * split; [by constructor|done].
    + destruct IH as [? ?]. split; [done|]. by constructor.
Qed.
End scan.

(** What becomes of a free chunk. *)
Definition cut (size flags : Z) (c : chunk) : list chunk :=
  let x := extra flags c in
  let rest := ck_size c - (size + x) in
  (if bool_decide (x ≠ 0) then [Chunk (ck_start c) x true] else []) ++
  Chunk (ck_start c + x) size false ::
  (if bool_decide (rest > 0) then [Chunk (ck_start c + x + size) rest true] else []).

Lemma spaced_false f l : spaced f l → spaced false l.
Proof. destruct l as [|c l]; [done|]. cbn. tauto. Qed.
Lemma cut_chunk_ok n size flags l1 c l2 : 0 < size → fits size flags c → list_ok n (l1 ++ c :: l2) →
  list_ok n (l1 ++ cut size flags c ++ l2).
Proof.
  intros Hs [Hf Hfit] Hok. destruct (list_ok_mid _ _ _ _ Hok) as (T1 & T2 & Hb). destruct Hok as [_ Hsp Hn].
  pose proof (extra_range flags c) as Hx. apply spaced_app in Hsp as [S1 [S2 S3]]. rewrite Hf in S2, S3.
  split; [| |done].
  - apply tiled_app. exists (ck_start c). split; [done|]. apply tiled_app. exists (ck_start c + ck_size c). split; [|done].
    unfold cut. cbv zeta. set (x := extra flags c) in *. clearbody x.
    case_bool_decide; case_bool_decide; cbn [app tiled ck_start ck_size]; lia.
  - apply spaced_app. split; [done|]. rewrite andb_true_r in S2. rewrite S2. unfold cut. cbv zeta.
    destruct (bool_decide (extra flags c ≠ 0)), (bool_decide (ck_size c - (size + extra flags c) > 0)); cbn [app spaced ck_free andb];
      split_and?; try done; by eapply spaced_false.
Qed.
Lemma cut_used size flags c : used (cut size flags c) = [(ck_start c + extra flags c, size)].
Proof.
  unfold cut. cbv zeta. rewrite used_app, used_used by done. cbn [ck_start ck_size].
  destruct (bool_decide (extra flags c ≠ 0)), (bool_decide (ck_size c - (size + extra flags c) > 0)); reflexivity.
Qed.

(** The number of units of a block. *)
Definition units (size : Z) : Z := (size + 31) / 32.
Lemma units_range size : 0 < size ≤ 2 ^ 32 - 32 → 0 < units size < 2 ^ 28 ∧ size ≤ units size * 32 < size + 32.
Proof. intros H. unfold units. pose proof (Z.div_mod (size + 31) 32). pose proof (Z.mod_pos_bound (size + 31) 32). lia. Qed.

Lemma insert_at k c (l1 l2 : list chunk) : k = length l1 → insertBefore k c (l1 ++ l2) = l1 ++ c :: l2.
Proof. intros ->. apply insert_before_mid. Qed.
Lemma bind_on_list {B} f (k : unit → M allocator B) a : bind (on_list f) k a = k tt (set_mList (f (mList a)) a).
Proof. done. Qed.

Lemma alloc_ok n size flags a : 0 < size ≤ 2 ^ 32 - 32 → list_ok n (mList a) →
  (∃ l1 c l2, mList a = l1 ++ c :: l2 ∧ fits (units size) flags c ∧
    Forall (λ c', fits (units size) flags c' → ck_size c ≤ ck_size c') (mList a) ∧
    alloc size flags a = Ret (s32 ((ck_start c + extra flags c) * 32)) (set_mList (l1 ++ cut (units size) flags c ++ l2) a)) ∨
  Forall (λ c, ¬ fits (units size) flags c) (mList a) ∧ alloc size flags a = Ret NO_MEMORY a.
Proof.
  intros Hs Hok. destruct (units_range size Hs) as [Hu Hub]. pose proof Hok as [_ _ Hn].
  unfold alloc. rewrite bool_decide_false by lia. change (size + kMemoryAlign - 1) with (size + 32 - 1). change kMemoryAlign with 32. rewrite u32_small by lia.
  replace ((size + 32 - 1) / 32) with (units size) by (unfold units; do 2 f_equal; lia). rewrite bind_getst.
  pose proof (scan_ok (units size) flags (mList a) ltac:(lia) 0 None ltac:(by intros ? ?)) as Hscan.
  destruct (scan (units size) flags 0 None (mList a)) as [[j c]|]; [|by right; destruct Hscan].
  left. destruct Hscan as (Hf & [?|(k & -> & Hk)] & Hbest & _); [done|]. rewrite Nat.add_0_l.
  apply list_elem_of_split_length in Hk as (l1 & l2 & El & ->). exists l1, c, l2. split; [done|]. split; [done|]. split; [done|].
  rewrite El in Hok. destruct (list_ok_mid _ _ _ _ Hok) as (_ & _ & Hb1 & Hb2 & Hb3). destruct Hf as [Hfree Hfit].
  pose proof (extra_range flags c) as Hx. set (sz := units size) in *. clearbody sz. unfold cut. cbv zeta.
  rewrite bind_on_list, El, alter_mid. cbn [mList set_mList]. unfold set_ck_free, set_ck_size. cbn [ck_start ck_size ck_free].
  rewrite (u28_small sz) by lia. rewrite (u32_small (ck_start c + extra flags c)) by lia. rewrite (u32_small (sz + extra flags c)) by lia.
  rewrite (s32_small (ck_size c - (sz + extra flags c))) by lia. rewrite (u32_small (ck_start c + extra flags c + sz)) by lia. unfold chunk_t.
  set (x := extra flags c) in *. clearbody x. rewrite (u28_small x) by lia. rewrite (bool_decide_ext (ck_size c > sz) (¬ ck_size c = sz)) by lia.
  destruct (decide (ck_size c = sz)) as [Esz|Esz].
  { rewrite (bool_decide_false (¬ _)) by lia. rewrite bool_decide_false, bool_decide_false by lia. rewrite bind_ret.
    replace (ck_start c + x) with (ck_start c) by lia. done. }
  rewrite (bool_decide_true (¬ _)) by done. rewrite bind_bind.
  destruct (decide (x = 0)) as [->|Ex].
  - rewrite (bool_decide_false (0 ≠ 0)), !Z.add_0_r by lia. rewrite bind_ret. rewrite (bool_decide_true (_ > 0)) by lia.
    rewrite bind_bind, bind_on_list, bind_ret. cbn [mList set_mList]. unfold insertAfter.
    rewrite (cons_middle _ l1 l2), app_assoc, insert_at by (rewrite length_app; cbn; lia). rewrite u28_small by lia.
    cbn [app]. by rewrite <-app_assoc.
  - rewrite (bool_decide_true (x ≠ 0)) by done. rewrite !bind_bind, bind_on_list, bind_bind, bind_on_list, bind_ret. cbn [mList set_mList].
    rewrite alter_mid, insert_before_mid. unfold set_ck_start. cbn [ck_start ck_size ck_free].
    destruct (decide (ck_size c - (sz + x) > 0)) as [Er|Er].
    + rewrite (bool_decide_true (_ > 0)) by done. rewrite bind_bind, bind_on_list, bind_ret. cbn [mList set_mList]. unfold insertAfter.
      match goal with |- context [insertBefore _ _ (l1 ++ ?h :: ?u :: l2)] => replace (l1 ++ h :: u :: l2) with ((l1 ++ [h; u]) ++ l2) by (by rewrite <-app_assoc) end.
      rewrite insert_at by (rewrite length_app; cbn; lia). rewrite u28_small by lia. cbn [app]. by rewrite <-app_assoc.
    + rewrite (bool_decide_false (_ > 0)) by done. rewrite bind_bind, !bind_ret. done.
Qed.

(** ** Release *)

Lemma find_chunk_ok start l : ∀ before,
  match find_chunk start before l with
  | Some (b, c, after) => ∃ l1, l = l1 ++ c :: after ∧ b = rev l1 ++ before ∧ ck_start c = start
  | None => Forall (λ c, ck_start c ≠ start) l
  end.
Proof.
  induction l as [|x l IH]; intros before; cbn [find_chunk]; [done|]. case_bool_decide as E.
  - by exists [].
  - specialize (IH (x :: before)). destruct (find_chunk start (x :: before) l) as [[[b c] after]|]; [|by constructor].
    destruct IH as (l1 & -> & -> & ?). exists (x :: l1). split; [done|]. split; [|done]. cbn [rev]. by rewrite <-app_assoc.
Qed.

(** One turn of the merging: the chunk is joined with the one before if that is free. *)
Definition joined (before : list chunk) (cur : chunk) : list chunk :=
  match before with
  | p :: ps => if ck_free p || bool_decide (ck_size cur = 0) then set_ck_size (ck_size p + ck_size cur) p :: ps else cur :: before
  | [] => [cur]
  end.
Lemma merge_eq before cur after : merge before cur after =
  match after with
  | n :: ns => if ck_free n then merge (joined before cur) n ns else rev_append (joined before cur) after
  | [] => rev_append (joined before cur) []
  end.
Proof. by destruct after. Qed.
Lemma joined_before_ok before cur after n : n < 2 ^ 27 → ck_free cur = true → spaced false (rev before) → tiled 0 (rev before ++ cur :: after) n →
  spaced false (rev (joined before cur)) ∧ end_free false (rev (joined before cur)) = true ∧
  tiled 0 (rev (joined before cur) ++ after) n ∧ used (rev (joined before cur)) = used (rev before).
Proof.
  intros Hn Hc Hs Ht. destruct before as [|p ps]; cbn [joined].
  - split; [done|]. split; [done|]. split; [done|].
    change (used [cur] = used []). by rewrite used_free.
  - apply tiled_app in Ht as (m & Ht1 & Hcs & Hcp & Ht2). rewrite (bool_decide_false (_ = 0)), orb_false_r by lia.
    cbn [rev] in *. apply spaced_app in Hs as [Hs1 Hs2]. apply tiled_app in Ht1 as (k & Ht1 & Hps & Hpp & Hk). cbn in Hk.
    destruct (ck_free p) eqn:Ep; cbn [rev].
    + assert (ck_free (set_ck_size (ck_size p + ck_size cur) p) = true) as Ep' by done.
      assert (ck_size (set_ck_size (ck_size p + ck_size cur) p) = ck_size p + ck_size cur) as Esz.
      { cbn [set_ck_size ck_size]. apply tiled_le in Ht1, Ht2. apply u28_small. lia. }
      split; [apply spaced_app; split; [done|]; cbn [spaced] in *; by rewrite Ep', <-Ep|]. split; [by rewrite end_free_snoc|]. split.
      * apply tiled_app. exists (m + ck_size cur). split; [|by rewrite <-Hcs in *]. apply tiled_app. exists k. split; [done|].
        split; [done|]. rewrite Esz. split; [lia|]. cbn. lia.
      * rewrite !used_app. by rewrite !used_free.
    + split; [apply spaced_app; split; [by apply spaced_app|]; rewrite end_free_snoc, Ep; by split|].
      split; [by rewrite end_free_snoc|]. split; [|by rewrite used_app, (used_free cur), app_nil_r].
      rewrite <-app_assoc. apply tiled_app. exists m. split; [|done]. apply tiled_app. by exists k.
Qed.

Lemma merge_ok after : ∀ before cur n, n < 2 ^ 27 → ck_free cur = true → spaced false (rev before) → spaced false after →
  tiled 0 (rev before ++ cur :: after) n →
  list_ok n (merge before cur after) ∧ used (merge before cur after) = used (rev before) ++ used after.
Proof.
  induction after as [|x ns IH]; intros before cur n Hn Hc Hsb Hsa Ht; rewrite merge_eq;
    destruct (joined_before_ok before cur _ n Hn Hc Hsb Ht) as (J1 & J2 & J3 & J4).
  - rewrite rev_append_rev, app_nil_r in *. split; [by split|]. by rewrite J4, app_nil_r.
  - cbn [spaced] in Hsa. destruct Hsa as [_ Hsa]. destruct (ck_free x) eqn:Ex.
    + destruct (IH (joined before cur) x n Hn Ex J1 (spaced_false _ _ Hsa) J3) as [H1 H2]. split; [done|]. by rewrite H2, J4, used_free.
    + rewrite rev_append_rev. split; [|by rewrite used_app, J4]. split; [done| |done]. apply spaced_app. split; [done|].
      rewrite J2. cbn [spaced]. by rewrite Ex.
Qed.
Lemma dealloc_ok n offset a : list_ok n (mList a) →
  (∃ l1 c l2 l', mList a = l1 ++ c :: l2 ∧ ck_start c = offset / 32 ∧ dealloc offset a = Ret true (set_mList l' a) ∧
    list_ok n l' ∧ used l' = used l1 ++ used l2) ∨
  Forall (λ c, ck_start c ≠ offset / 32) (mList a) ∧ dealloc offset a = Ret false a.
Proof.
  intros Hok. unfold dealloc. rewrite bind_getst. change kMemoryAlign with 32.
  pose proof (find_chunk_ok (offset / 32) (mList a) []) as Hf. destruct (find_chunk (offset / 32) [] (mList a)) as [[[b c] after]|]; [|by right].
  left. destruct Hf as (l1 & El & -> & Es). rewrite app_nil_r in *. pose proof Hok as [Ht Hsp Hn]. rewrite El in Ht, Hsp.
  apply spaced_app in Hsp as [S1 [_ S2]]. apply tiled_app in Ht as (m & T1 & T2).
  destruct (merge_ok after (rev l1) (set_ck_free true c) n Hn) as [H1 H2].
  - done.
  - by rewrite rev_involutive.
  - by eapply spaced_false.
  - rewrite rev_involutive. apply tiled_app. by exists m.
  - rewrite rev_involutive in H2. exists l1, c, after, (merge (rev l1) (set_ck_free true c) after). split; [done|]. split; [done|]. by split.
Qed.

(** A heap in which nothing is used is one free chunk. *)
Lemma all_free n l : list_ok n l → 0 < n → used l = [] → l = [Chunk 0 n true].
Proof.
  intros [Ht Hs _] Hn Hu. destruct l as [|[s1 z1 f1] l]; [cbn in Ht; lia|]. destruct f1; [|by rewrite used_used in Hu].
  rewrite used_free in Hu by done. destruct l as [|[s2 z2 f2] l].
  - cbn in Ht. destruct Ht as (-> & _ & E). do 2 f_equal. lia.
  - destruct f2; [by destruct Hs as (_ & ? & _)|by rewrite used_used in Hu].
Qed.

(** ** Blocks that do not overlap *)

Definition apart (b b' : Z * Z) : Prop := b.1 + b.2 ≤ b'.1 ∨ b'.1 + b'.2 ≤ b.1.
Lemma tiled_in s l e c : tiled s l e → c ∈ l → s ≤ ck_start c ∧ 0 < ck_size c ∧ ck_start c + ck_size c ≤ e.
Proof.
  intros Ht [l1 [l2 ->]]%list_elem_of_split. apply tiled_app in Ht as (m & H1 & H2 & H3 & H4). subst m.
  apply tiled_le in H1, H4. lia.
Qed.
Lemma used_in l b : b ∈ used l → ∃ c, c ∈ l ∧ ck_free c = false ∧ b = (ck_start c, ck_size c).
Proof. intros (c & -> & Hc)%list_elem_of_fmap. apply list_elem_of_filter in Hc as [? ?]. by exists c. Qed.
Lemma used_bounds s l e b : tiled s l e → b ∈ used l → s ≤ b.1 ∧ 0 < b.2 ∧ b.1 + b.2 ≤ e.
Proof. intros Ht (c & Hc & _ & ->)%used_in. by apply (tiled_in s l e c). Qed.
Lemma used_apart l : ∀ s e u1 b u2 b', tiled s l e → used l = u1 ++ b :: u2 → b' ∈ u1 ++ u2 → apart b b'.
Proof.
  induction l as [|c l IH]; intros s e u1 b u2 b' Ht Hu Hb'; [by destruct u1|]. cbn [tiled] in Ht. destruct Ht as (Es & Hp & Ht).
  destruct (ck_free c) eqn:Ef; [rewrite used_free in Hu by done; by eapply IH|]. rewrite used_used in Hu by done.
  destruct u1 as [|x u1]; cbn [app] in *.
  - injection Hu as <- <-. destruct (used_bounds _ _ _ _ Ht Hb') as (? & ? & ?). left. cbn. lia.
  - injection Hu as <- Hu. apply elem_of_cons in Hb' as [->|Hb']; [|by eapply IH].
    assert (b ∈ used l) as Hb by (rewrite Hu; apply elem_of_app; right; apply elem_of_cons; by left).
    destruct (used_bounds _ _ _ _ Ht Hb) as (? & ? & ?). right. cbn. lia.
Qed.
(** A chunk is the only one with its start. *)
Lemma tiled_unique s l1 c l2 e c' : tiled s (l1 ++ c :: l2) e → c' ∈ l1 ++ c :: l2 → ck_start c' = ck_start c → c' = c.
Proof.
  intros (m & H1 & H2 & H3 & H4)%tiled_app Hin E. apply elem_of_app in Hin as [Hin|Hin].
  - pose proof (tiled_in _ _ _ _ H1 Hin). lia.
  - apply elem_of_cons in Hin as [?|Hin]; [done|]. pose proof (tiled_in _ _ _ _ H4 Hin). lia.
Qed.

(** ** The dealer and its clients *)

(** The dealer with the allocations that are alive. *)
Definition world : Type := dealer * list (Z * Z).
Inductive md_step : world → world → Prop :=
  | md_allocate d d' live size b : 0 ≤ size ≤ 2 ^ 32 - 32 → MemoryDealer_allocate size d = Ret (Some b) d' →
      md_step (d, live) (d', b :: live)
  | md_refuse d d' live size : 0 ≤ size ≤ 2 ^ 32 - 32 → MemoryDealer_allocate size d = Ret None d' →
      md_step (d, live) (d', live)
  | md_delete d d' l1 off size l2 : Allocation_delete off size d = Ret tt d' →
      md_step (d, l1 ++ (off, size) :: l2) (d', l1 ++ l2).

(** What the allocator knows of an allocation; it knows nothing of those of size 0. *)
Definition real (b : Z * Z) : Prop := b.2 ≠ 0.
#[export] Instance real_dec b : Decision (real b).
Proof. unfold real. apply _. Defined.
Definition chunk_of (b : Z * Z) : Z * Z := (b.1 / 32, units b.2).
Record world_ok (n : Z) (w : world) : Prop := {
  wo_list : list_ok n (mList (md_allocator w.1));
  wo_size : n ≤ 2 ^ 26;
  wo_used : chunk_of <$> filter real w.2 ≡ₚ used (mList (md_allocator w.1));
  wo_live : Forall (λ b, real b → 0 ≤ b.1 ∧ b.1 mod 32 = 0 ∧ 0 < b.2 ≤ 2 ^ 32 - 32) w.2
}.

Lemma extra_none c : extra 0 c = 0.
Proof. done. Qed.
Lemma allocate_ok n d live size : 0 ≤ size ≤ 2 ^ 32 - 32 → world_ok n (d, live) →
  (∃ b d', MemoryDealer_allocate size d = Ret (Some b) d' ∧ world_ok n (d', b :: live) ∧ b.2 = size) ∨
  MemoryDealer_allocate size d = Ret None d.
Proof.
  intros Hs [Hl Hn Hu Hlive]. cbn [fst snd] in *. unfold MemoryDealer_allocate, in_allocator, zoom, bind, allocate.
  destruct (decide (size = 0)) as [->|Hne].
  - left. exists (0, 0), d. split; [by destruct d|]. split; [|done]. split; cbn [fst snd]; [done|done| |by constructor; [intros []|]].
    by rewrite filter_cons_False by (unfold real; cbn; lia).
  - destruct (alloc_ok n size 0 (md_allocator d) ltac:(lia) Hl) as [(l1 & c & l2 & El & Hf & _ & ->)|[_ ->]].
    + left. rewrite extra_none, Z.add_0_r. rewrite El in Hl. destruct (list_ok_mid _ _ _ _ Hl) as (_ & _ & Hb1 & Hb2 & Hb3).
      rewrite s32_small by lia. cbv iota beta zeta. rewrite bool_decide_true by lia. destruct (units_range size ltac:(lia)) as [Hu1 _].
      eexists (_, size), _. split; [reflexivity|]. split; [|done]. split; cbn [fst snd md_allocator mList set_mList].
      * apply cut_chunk_ok; [lia|done|done].
      * done.
      * rewrite filter_cons_True by done. rewrite fmap_cons, Hu, El, !used_app, cut_used, extra_none. unfold chunk_of at 1. cbn [fst snd].
        rewrite Z.div_mul, Z.add_0_r by lia. destruct Hf as [Hf _]. rewrite (used_free c) by done. cbn [app]. apply Permutation_middle.
      * constructor; [|done]. intros _. cbn [fst snd]. rewrite Z.mod_mul by lia. lia.
    + right. cbv iota beta zeta. by destruct d.
Qed.

(** The pages that lie in a block. *)
Lemma advised_range off size : 0 ≤ off → 0 < size → off + size ≤ 2 ^ 31 →
  let start := (off + 4095) / 4096 * 4096 in
  let end_ := (off + size) / 4096 * 4096 in
  ∀ a d', deallocate off (md_allocator d') = Ret NO_ERROR a →
  Allocation_delete off size d' = Ret tt (Dealer a (if bool_decide (start < end_) then md_advised d' ++ [(start, end_ - start)] else md_advised d')).
Proof.
  intros Ho Hs Hb start end_ a d' Hd. unfold Allocation_delete. rewrite bool_decide_true by lia.
  unfold in_allocator, zoom, bind at 1. rewrite Hd. cbv zeta.
  rewrite !(u32_small (off + size)), !(u32_small (off + size + PAGE_SIZE - 1)), (page_mask_spec off),
    (page_mask_spec (off + size + PAGE_SIZE - 1)) by (unfold PAGE_SIZE; lia).
  pose proof (Z.mod_pos_bound off PAGE_SIZE). pose proof (Z.mod_pos_bound (off + size + PAGE_SIZE - 1) PAGE_SIZE).
  replace (if bool_decide (off - off mod PAGE_SIZE < off) then off else off - off mod PAGE_SIZE) with off by (unfold PAGE_SIZE in *; case_bool_decide; lia).
  set (e := off + size + PAGE_SIZE - 1 - (off + size + PAGE_SIZE - 1) mod PAGE_SIZE).
  replace (if bool_decide (e > off + size) then off + size else e) with (off + size) by (unfold e, PAGE_SIZE in *; case_bool_decide; lia).
  rewrite (u32_small (off + PAGE_SIZE - 1)), (page_mask_spec (off + PAGE_SIZE - 1)), (page_mask_spec (off + size)) by (unfold PAGE_SIZE; lia).
  replace (off + PAGE_SIZE - 1 - (off + PAGE_SIZE - 1) mod PAGE_SIZE) with start.
  2: { unfold start, PAGE_SIZE. pose proof (Z.div_mod (off + 4095) 4096). replace (off + 4096 - 1) with (off + 4095) by lia. lia. }
  replace (off + size - (off + size) mod PAGE_SIZE) with end_.
  2: { unfold end_, PAGE_SIZE. pose proof (Z.div_mod (off + size) 4096). lia. }
  by destruct (bool_decide (start < end_)).
Qed.
(** A live block has a used chunk. *)
Lemma live_chunk n w l1 off size l2 : world_ok n w → w.2 = l1 ++ (off, size) :: l2 → size ≠ 0 →
  ∃ m1 c m2, mList (md_allocator w.1) = m1 ++ c :: m2 ∧ ck_free c = false ∧ ck_start c = off / 32 ∧ ck_size c = units size ∧
    off = 32 * ck_start c ∧ 0 < size ∧ 0 ≤ off ∧ off + size ≤ 32 * n ∧ size ≤ 2 ^ 32 - 32.
Proof.
  intros [Hl Hn Hu Hlive] E Hne. rewrite E in Hu, Hlive. apply Forall_app in Hlive as [_ Hlive]. apply Forall_cons_1 in Hlive as [Hb _].
  specialize (Hb Hne). cbn [fst snd] in Hb. destruct Hb as (H1 & H2 & H3).
  assert (chunk_of (off, size) ∈ used (mList (md_allocator w.1))) as Hin.
  { rewrite <-Hu. apply list_elem_of_fmap_2, list_elem_of_filter. split; [done|]. apply elem_of_app. right. apply elem_of_cons. by left. }
  apply used_in in Hin as (c & Hc & Hf & Ec). injection Ec as Es Ez. apply list_elem_of_split in Hc as (m1 & m2 & Em). exists m1, c, m2.
  rewrite Em in Hl. destruct (list_ok_mid _ _ _ _ Hl) as (_ & _ & Hb1 & Hb2 & Hb3). destruct (units_range size H3) as [_ Hur].
  pose proof (Z.div_mod off 32 ltac:(lia)). split; [done|]. split; [done|]. split; [done|]. split; [done|]. lia.
Qed.
Lemma delete_ok n d l1 off size l2 : world_ok n (d, l1 ++ (off, size) :: l2) →
  ∃ d', Allocation_delete off size d = Ret tt d' ∧ world_ok n (d', l1 ++ l2) ∧
    (md_advised d' = md_advised d ∨ ∃ a k, md_advised d' = md_advised d ++ [(a, k)] ∧ off ≤ a ∧ 0 < k ∧ a + k ≤ off + size ∧
      a mod PAGE_SIZE = 0 ∧ k mod PAGE_SIZE = 0).
Proof.
  intros Hok. destruct (decide (size = 0)) as [->|Hne].
  - exists d. split; [done|]. split; [|by left]. destruct Hok as [Hl Hn Hu Hlive]. cbn [fst snd] in *. split; cbn [fst snd]; [done|done| |].
    + rewrite filter_app in *. rewrite filter_cons_False in Hu by (unfold real; cbn; lia). done.
    + apply Forall_app in Hlive as [? [_ ?]%Forall_cons_1]. by apply Forall_app.
  - destruct (live_chunk _ _ _ _ _ _ Hok eq_refl Hne) as (m1 & c & m2 & Em & Hf & Es & Ez & Hoff & Hs0 & Ho0 & Hend & Hs1). cbn [fst] in Em.
    destruct Hok as [Hl Hn Hu Hlive]. cbn [fst snd] in *.
    destruct (dealloc_ok n off (md_allocator d) Hl) as [(k1 & c' & k2 & l' & Ek & Es' & Ed & Hl' & Hu')|[Hnone _]].
    2: { rewrite Em in Hnone. apply Forall_app in Hnone as [_ [Hnone _]%Forall_cons_1]. done. }
    assert (c' = c) as ->.
    { destruct Hl as [Ht _ _]. rewrite Em in Ht. apply (tiled_unique _ _ _ _ _ c' Ht); [|congruence].
      rewrite <-Em, Ek. apply elem_of_app. right. apply elem_of_cons. by left. }
    assert (deallocate off (md_allocator d) = Ret NO_ERROR (set_mList l' (md_allocator d))) as Edl by (unfold deallocate; by rewrite (bind_of _ Ed)).
    rewrite (advised_range off size Ho0 Hs0 ltac:(lia) _ _ Edl). eexists. split; [done|]. split.
    + split; cbn [fst snd md_allocator mList set_mList]; [done|done| |].
      * rewrite Hu'. rewrite Ek, used_app, used_used in Hu by done. rewrite filter_app in *.
        rewrite filter_cons_True in Hu by done. apply (Permutation_cons_inv (a := (ck_start c, ck_size c))).
        rewrite Permutation_middle, <-Hu, !fmap_app, fmap_cons. change (chunk_of (off, size)) with (off / 32, units size).
        rewrite <-Es, <-Ez. apply Permutation_middle.
      * apply Forall_app in Hlive as [? [_ ?]%Forall_cons_1]. by apply Forall_app.
    + cbn [md_advised]. case_bool_decide as Hlt; [right|by left]. eexists _, _. split; [done|].
      pose proof (Z.div_mod (off + 4095) 4096). pose proof (Z.mod_pos_bound (off + 4095) 4096). pose proof (Z.div_mod (off + size) 4096).
      pose proof (Z.mod_pos_bound (off + size) 4096). unfold PAGE_SIZE. split; [lia|]. split; [lia|]. split; [lia|].
      split; [apply Z.mod_mul; lia|]. rewrite <-Z.mul_sub_distr_r. apply Z.mod_mul. lia.
Qed.

Lemma live_apart n d l1 b l2 b' : world_ok n (d, l1 ++ b :: l2) → b' ∈ l1 ++ l2 → real b → real b' → apart b b'.
Proof.
  intros Hok Hb' Hb Hr. destruct b as [off sz], b' as [off' sz'].
  destruct (live_chunk _ _ _ _ _ _ Hok eq_refl Hb) as (_ & c & _ & _ & _ & Es & Ez & Hoff & H1 & H2 & H3 & H4).
  pose proof Hb' as [k1 [k2 Ek]]%list_elem_of_split.
  assert (world_ok n (d, k1 ++ (off', sz') :: (off, sz) :: k2)) as Hok'.
  { destruct Hok as [Hl Hn Hu Hlive]. cbn [fst snd] in *.
    assert (l1 ++ (off, sz) :: l2 ≡ₚ k1 ++ (off', sz') :: (off, sz) :: k2) as Hp.
    { rewrite <-Permutation_middle, Ek, <-!Permutation_middle. apply Permutation_swap. }
    split; cbn [fst snd]; [done|done|by rewrite <-Hp|by rewrite <-Hp]. }
  destruct (live_chunk _ _ _ _ _ _ Hok' eq_refl Hr) as (_ & c' & _ & _ & _ & Es' & Ez' & Hoff' & H1' & H2' & H3' & H4').
  destruct Hok as [[Ht _ _] _ Hu _]. cbn [fst snd] in *. rewrite filter_app, filter_cons_True, fmap_app, fmap_cons in Hu by done.
  rewrite <-Permutation_middle in Hu. symmetry in Hu. apply Permutation_cons_inv_r in Hu as (u1 & u2 & Eu & Hp).
  assert (chunk_of (off', sz') ∈ u1 ++ u2) as Hin.
  { rewrite <-Hp, <-fmap_app, <-filter_app. apply list_elem_of_fmap_2, list_elem_of_filter. by split. }
  pose proof (used_apart _ _ _ _ _ _ _ Ht Eu Hin) as Ha. unfold apart, chunk_of in *. cbn [fst snd] in *.
  rewrite <-Es, <-Ez, <-Es', <-Ez' in Ha. destruct (units_range sz ltac:(lia)), (units_range sz' ltac:(lia)). lia.
Qed.

Lemma md_step_ok n w w' : md_step w w' → world_ok n w → world_ok n w'.
Proof.
  intros Hs Hok. destruct Hs as [d d' live size b Hsz E|d d' live size Hsz E|d d' l1 off size l2 E].
  - destruct (allocate_ok n d live size Hsz Hok) as [(b' & d2 & E2 & Hok2 & _)|E2]; rewrite E2 in E; [|done]. by injection E as <- <-.
  - destruct (allocate_ok n d live size Hsz Hok) as [(b' & d2 & E2 & _)|E2]; rewrite E2 in E; [done|]. by injection E as <-.
  - destruct (delete_ok n d l1 off size l2 Hok) as (d2 & E2 & Hok2 & _). rewrite E2 in E. by injection E as <-.
Qed.
Lemma dealer_ok size : 0 < size ≤ 2 ^ 31 → ∃ n, n = PAGE_ALIGN size / 32 ∧ 0 < n ∧ world_ok n (MemoryDealer size, []) ∧ 32 * n = PAGE_ALIGN size.
Proof.
  intros Hs. exists (PAGE_ALIGN size / 32). split; [done|]. rewrite PAGE_ALIGN_spec by lia. unfold PAGE_SIZE.
  pose proof (Z.div_mod (size + 4095) 4096 ltac:(lia)) as Hd. pose proof (Z.mod_pos_bound (size + 4095) 4096 ltac:(lia)).
  set (k := (size + 4095) / 4096) in *. replace (size + 4095 - (size + 4095) mod 4096) with (k * 128 * 32) by lia. rewrite Z.div_mul by lia.
  split; [lia|]. split; [|lia]. split; cbn [fst snd]; [|lia|done|done]. unfold MemoryDealer, SimpleBestFitAllocator. cbn [md_allocator mList].
  rewrite PAGE_ALIGN_spec by lia. unfold PAGE_SIZE. fold k. replace (size + 4095 - (size + 4095) mod 4096) with (k * 128 * 32) by lia.
  change kMemoryAlign with 32. rewrite Z.div_mul by lia. unfold chunk_t. rewrite u28_small by lia.
  split; [|done|lia]. cbn. lia.
Qed.

(** C7: in a heap of up to 2^31 bytes, over any sequence of releases and of allocations of
    sizes up to 2^32 - 32 ([huge_size] shows one above), the blocks that are alive lie in
    the heap, at multiples of 32, and no two of them overlap; each can be released, and
    pages given back to the kernel then lie in the block; when none is left the whole
    heap is one free chunk. *)
Theorem dealer_safe (size : Z) (d : dealer) (live : list (Z * Z)) (Hsize : 0 < size ≤ 2 ^ 31)
    (Hreach : rtc md_step (MemoryDealer size, []) (d, live)) :
  Forall (λ b, b.2 = 0 ∨ 0 ≤ b.1 ∧ b.1 mod kMemoryAlign = 0 ∧ b.1 + b.2 ≤ PAGE_ALIGN size) live ∧
  (∀ l1 b l2 b', live = l1 ++ b :: l2 → b' ∈ l1 ++ l2 → b.2 = 0 ∨ b'.2 = 0 ∨ apart b b') ∧
  (∀ l1 off sz l2, live = l1 ++ (off, sz) :: l2 → ∃ d', Allocation_delete off sz d = Ret tt d' ∧
    (md_advised d' = md_advised d ∨ ∃ a k, md_advised d' = md_advised d ++ [(a, k)] ∧ off ≤ a ∧ 0 < k ∧ a + k ≤ off + sz ∧
      a mod PAGE_SIZE = 0 ∧ k mod PAGE_SIZE = 0)) ∧
  (Forall (λ b, b.2 = 0) live → mList (md_allocator d) = [Chunk 0 (PAGE_ALIGN size / kMemoryAlign) true]).
Proof.
  destruct (dealer_ok size Hsize) as (n & En & Hn0 & H0 & Ealign).
  assert (world_ok n (d, live)) as Hok.
  { revert H0. clear - Hreach. induction Hreach as [w|w1 w2 w3 Hs _ IH]; [done|]. intros H. by eapply IH, md_step_ok. }
  change kMemoryAlign with 32. split; [|split; [|split]].
  - apply Forall_forall. intros [off sz] Hin. cbn [fst snd]. destruct (decide (sz = 0)) as [?|Hne]; [by left|right].
    apply list_elem_of_split in Hin as (l1 & l2 & El).
    destruct (live_chunk n (d, live) l1 off sz l2 Hok El Hne) as (m1 & c & m2 & _ & _ & _ & _ & Hoff & H1 & H2 & H3 & _).
    rewrite <-Ealign. split; [done|]. split; [|done]. rewrite Hoff, Z.mul_comm. apply Z.mod_mul. lia.
  - intros l1 b l2 b' -> Hb'. destruct (decide (real b)) as [Hb|Hb]; [|left; unfold real in Hb; lia].
    destruct (decide (real b')) as [Hr|Hr]; [|right; left; unfold real in Hr; lia]. right. right. by eapply live_apart.
  - intros l1 off sz l2 ->. destruct (delete_ok n d l1 off sz l2 Hok) as (d' & E & _ & H). by exists d'.
  - intros Hz. rewrite <-En. apply all_free; [by apply Hok|done|]. destruct Hok as [_ _ Hu _]. cbn [fst snd] in Hu.
    assert (filter real live = []) as Ef.
    { clear -Hz. induction Hz as [|b l Hb _ IH]; [done|]. rewrite filter_cons_False; [done|]. unfold real. lia. }
    rewrite Ef in Hu. by apply Permutation_nil_l in Hu.
Qed.

Lemma page_extra flags c : Z.land flags PAGE_ALIGNED ≠ 0 → ((ck_start c + extra flags c) * 32) mod PAGE_SIZE = 0.
Proof.
  intros Hf. unfold extra. rewrite bool_decide_true by done. change (PAGE_SIZE / kMemoryAlign - 1) with (Z.ones 7).
  rewrite Z.land_ones by lia. unfold u32, PAGE_SIZE. set (m := - ck_start c mod 2 ^ 32).
  pose proof (Z.div_mod (- ck_start c) (2 ^ 32) ltac:(lia)) as H1. fold m in H1. pose proof (Z.div_mod m (2 ^ 7) ltac:(lia)) as H2.
  replace ((ck_start c + m mod 2 ^ 7) * 32) with ((- (2 ^ 25 * (- ck_start c / 2 ^ 32)) - m / 2 ^ 7) * 4096) by lia.
  apply Z.mod_mul. lia.
Qed.

(** C27: an allocation of 1 to 2^32 - 32 bytes, from a heap of at most 2^26 units of 32
    bytes, takes the smallest free chunk in which the block fits, from the
    next page on if that is asked for; what is left of the chunk in front of the block
    and behind it is free; the offset is that of the block; if the block fits nowhere
    the heap is unchanged and the answer is [NO_MEMORY].  (A larger size wraps around when
    it is rounded up and may be granted: [huge_size].) *)
Theorem allocate_spec (n : Z) (a : allocator) (size flags : Z) (Hok : list_ok n (mList a)) (Hn : n ≤ 2 ^ 26) (Hsize : 0 < size ≤ 2 ^ 32 - 32) :
  (Exists (fits (units size) flags) (mList a) → ∃ l1 c l2 l', mList a = l1 ++ c :: l2 ∧ fits (units size) flags c ∧
    Forall (λ c', fits (units size) flags c' → ck_size c ≤ ck_size c') (mList a) ∧
    l' = l1 ++ cut (units size) flags c ++ l2 ∧ list_ok n l' ∧
    let offset := kMemoryAlign * (ck_start c + extra flags c) in
    allocate size flags a = Ret offset (set_mList l' a) ∧ 0 ≤ offset ∧ offset + size ≤ kMemoryAlign * n ∧
    (Z.land flags PAGE_ALIGNED ≠ 0 → offset mod PAGE_SIZE = 0)) ∧
  (¬ Exists (fits (units size) flags) (mList a) → allocate size flags a = Ret NO_MEMORY a).
Proof.
  destruct (units_range size Hsize) as [Hu Hub].
  destruct (alloc_ok n size flags a Hsize Hok) as [(l1 & c & l2 & El & Hf & Hbest & Ea)|[Hnone Ea]].
  - split; [intros _|].
    + exists l1, c, l2, (l1 ++ cut (units size) flags c ++ l2). split; [done|]. split; [done|]. split; [done|]. split; [done|].
      rewrite El in Hok. split; [apply cut_chunk_ok; [lia|done|done]|]. cbv zeta. change kMemoryAlign with 32.
      destruct (list_ok_mid _ _ _ _ Hok) as (_ & _ & Hb1 & Hb2 & Hb3). destruct Hf as [_ Hf]. pose proof (extra_range flags c).
      unfold allocate. rewrite Ea, s32_small by lia. split; [by rewrite Z.mul_comm|]. split; [lia|]. split; [lia|].
      intros Hp. rewrite Z.mul_comm. by apply page_extra.
    + intros Hn'. destruct Hn'. apply Exists_exists. exists c. split; [|done]. rewrite El. apply elem_of_app. right. apply elem_of_cons. by left.
  - split; [|done]. intros [c [Hc Hf]]%Exists_exists. rewrite Forall_forall in Hnone. by apply Hnone in Hc.
Qed.

(** ** An example *)

Module MdDemo.
Definition heap : dealer := MemoryDealer 10000.
(** Two blocks, and the first released. *)
Definition one_left : dealer :=
  Dealer (Allocator [Chunk 0 157 true; Chunk 157 63 false; Chunk 220 164 true] 12288) [(0, 4096)].

Lemma dealer_safe_witness : rtc md_step (heap, []) (one_left, [(5024, 2000)]) ∧
  mList (md_allocator one_left) ≠ [Chunk 0 384 true] ∧ ∃ d', Allocation_delete 5024 2000 one_left = Ret tt d'.
Proof.
  assert (rtc md_step (heap, []) (one_left, [(5024, 2000)])) as Hr.
  { eapply rtc_l; [eapply (md_allocate _ _ _ 5000); [lia|vm_compute; reflexivity]|].
    eapply rtc_l; [eapply (md_allocate _ _ _ 2000); [lia|vm_compute; reflexivity]|].
    eapply rtc_l; [eapply (md_delete _ _ [(5024, 2000)] 0 5000 []); vm_compute; reflexivity|]. apply rtc_refl. }
  split; [exact Hr|]. split; [done|].
  destruct (dealer_safe 10000 one_left [(5024, 2000)] ltac:(lia) Hr) as (_ & _ & Hd & _).
  destruct (Hd [] 5024 2000 [] eq_refl) as (d' & E & _). by exists d'.
Defined.

Lemma allocate_spec_witness : ∃ l', allocate 100 PAGE_ALIGNED (md_allocator one_left) = Ret 0 (set_mList l' (md_allocator one_left)) ∧ list_ok 384 l'.
Proof.
  destruct (allocate_spec 384 (md_allocator one_left) 100 PAGE_ALIGNED) as [H _].
  - split; [|done|lia]. cbn. lia.
  - lia.
  - lia.
  - destruct H as (l1 & c & l2 & l' & El & Hf & Hbest & E' & Hl' & E & _).
    { apply Exists_exists. exists (Chunk 0 157 true). split; [apply elem_of_cons; by left|]. split; [done|]. vm_compute. intros [=]. }
    assert (allocate 100 PAGE_ALIGNED (md_allocator one_left) =
      Ret 0 (Allocator [Chunk 0 4 false; Chunk 4 153 true; Chunk 157 63 false; Chunk 220 164 true] 12288)) as Ec by (vm_compute; reflexivity).
    exists l'. split; [|done]. rewrite Ec in E |- *. by injection E as _ ->.
Defined.

(** The size is rounded up in 32 bits: a block of nearly 4 GB is said to be in a heap of one page. *)
Lemma huge_size : ∃ d, MemoryDealer_allocate 4294967280 (MemoryDealer 4096) = Ret (Some (0, 4294967280)) d.
Proof. eexists. vm_compute. reflexivity. Qed.
End MdDemo.
