(* ===== verification/CMemory.v ===== *)
(** * Blocks of the C heap

    What [malloc], [realloc] and [free] of the C library do to a pointer that owns its
    block, and the accesses through it.  An access outside the block, or to a block
    that was given back, is an error the callers stop at. *)

From Stdlib Require Import ZArith Lia.
From stdpp Require Import base tactics numbers option list.
From S2P Require Import Prelude Words.

(** A pointer: to nothing, to a block that was freed, or to a block of cells. *)
Inductive ptr := NULL | Freed | Block (l : list Z).

Definition ptr_null (p : ptr) : bool := match p with NULL => true | _ => false end.
(** [if (p + off)]: the sum is null only for the null pointer itself. *)
Definition ptr_sum_null (p : ptr) (off : Z) : bool := ptr_null p && bool_decide (off = 0).

(** The cells of a new block are what the allocator finds in memory, cut to the width of a cell. *)
Definition fresh_cells (width : Z) (junk : nat → Z) (n : Z) : list Z :=
  (λ i, junk i mod 2 ^ width) <$> seq 0 (Z.to_nat n).

(** [malloc], of [n] cells; [None] is the answer of an allocator that has no more memory. *)
Definition c_malloc (width n : Z) (answer : option (nat → Z)) : ptr :=
  match answer with
  | Some junk => Block (fresh_cells width junk n)
  | None => NULL
  end.

(** [realloc(p, n)]: the result, and what the old pointer now points to.  Of a block it
    keeps the cells both have; a size of zero gives the block back. *)
Definition c_realloc (width n : Z) (answer : option (nat → Z)) (p : ptr) : option (ptr * ptr) :=
  match p with
  | NULL => Some (c_malloc width n answer, NULL)
  | Freed => None
  | Block l =>
      if bool_decide (n = 0) then Some (NULL, Freed) else
      match answer with
      | Some junk => Some (Block (take (Z.to_nat n) l ++ drop (length l) (fresh_cells width junk n)), Freed)
      | None => Some (NULL, Block l)
      end
  end.

(** [free(p)]. *)
Definition c_free (p : ptr) : option ptr :=
  match p with
  | NULL => Some NULL
  | Freed => None
  | Block _ => Some Freed
  end.

(** Reading [n] cells, and writing some. *)
Definition c_load (p : ptr) (off n : Z) : option (list Z) :=
  if bool_decide (n = 0) then Some [] else
  match p with Block l => slice l off n | _ => None end.
Definition c_store (p : ptr) (off : Z) (v : list Z) : option ptr :=
  match v with
  | [] => Some p
  | _ => match p with
         | Block l => l' ← memcpy l off v 0 (Z.of_nat (length v)); Some (Block l')
         | _ => None
         end
  end.

Section blocks.
Implicit Types l v : list Z.

Lemma fresh_cells_length w junk n : 0 ≤ n → Z.of_nat (length (fresh_cells w junk n)) = n.
Proof. intros. unfold fresh_cells. rewrite length_fmap, length_seq. lia. Qed.
Lemma fresh_cells_range w junk n : 0 ≤ w → Forall (λ x, 0 ≤ x < 2 ^ w) (fresh_cells w junk n).
Proof.
  intros. unfold fresh_cells. apply Forall_fmap, Forall_true. intros i. cbn. apply Z.mod_pos_bound. lia.
Qed.

(** The block [realloc] returns. *)
Lemma realloc_length w n junk l : 0 ≤ n →
  Z.of_nat (length (take (Z.to_nat n) l ++ drop (length l) (fresh_cells w junk n))) = n.
Proof. intros. pose proof (fresh_cells_length w junk n). rewrite length_app, length_take, length_drop. lia. Qed.
Lemma realloc_range w n junk l : 0 ≤ w →
  Forall (λ x, 0 ≤ x < 2 ^ w) l → Forall (λ x, 0 ≤ x < 2 ^ w) (take (Z.to_nat n) l ++ drop (length l) (fresh_cells w junk n)).
Proof. intros. apply Forall_app. split; [by apply Forall_take|apply Forall_drop, fresh_cells_range; lia]. Qed.
Lemma realloc_take w n junk l m : Z.of_nat m ≤ n → (m ≤ length l)%nat →
  take m (take (Z.to_nat n) l ++ drop (length l) (fresh_cells w junk n)) = take m l.
Proof. intros. rewrite take_app_le by (rewrite length_take; lia). rewrite take_take. f_equal. lia. Qed.

Lemma c_load_block l off n : 0 ≤ off → 0 ≤ n → off + n ≤ Z.of_nat (length l) →
  c_load (Block l) off n = Some (take (Z.to_nat n) (drop (Z.to_nat off) l)).
Proof.
  intros. unfold c_load. destruct (bool_decide_reflect (n = 0)) as [->|]; [by rewrite take_0|]. by apply slice_ok.
Qed.

(** What a store leaves: the cells before, the new ones, the cells behind. *)
Lemma c_store_block l off v : 0 ≤ off → off + Z.of_nat (length v) ≤ Z.of_nat (length l) →
  c_store (Block l) off v = Some (Block (take (Z.to_nat off) l ++ v ++ drop (Z.to_nat off + length v) l)).
Proof.
  intros. destruct v as [|x v].
  - cbn [c_store app length]. by rewrite Nat.add_0_r, take_drop.
  - unfold c_store, memcpy. rewrite bool_decide_true by lia. cbn [mbind option_bind].
    rewrite Nat2Z.id. change (Z.to_nat 0) with 0%nat. rewrite drop_0, (take_ge (x :: v)) by lia.
    do 4 f_equal. f_equal. lia.
Qed.
End blocks.
