(* ===== verification/Parcel.v ===== *)
(** * Parcels

    [libs/binder/Parcel.cpp]: the container of what one process sends to another: bytes,
    and the places in them of the objects (references to binders, file descriptors)
    that the driver translates.  The blocks of a parcel are those of [CMemory], so that
    an access outside them or to one that was freed stops the machine; references that
    are taken and dropped, and files, are kept as a list of events. *)

From Stdlib Require Import ZArith Lia.
From stdpp Require Import base tactics numbers option list sets gmap.
From S2P Require Import Prelude Words CMemory BinderState BinderTxn.

(** ** What is outside of a parcel

    The answers of the C library and the kernel to the [k]th call of the program, and
    the table of proxies of [ProcessState], which has one proxy to a handle while
    anyone holds it. *)
Class Env := {
  heap_answer : nat → option (nat → Z);
  dup_answer : nat → Z;
  mmap_answer : nat → Z;
  getStrongProxyForHandle : Z → option Z;
  getWeakProxyForHandle : Z → option Z
}.

(** References of the process, by the address of the object or of its counts. *)
Inductive ref := Strong (b : Z) | Weak (refs : Z).
#[export] Instance ref_eq_dec : EqDecision ref.
Proof. solve_decision. Defined.

Inductive event :=
  | Acquire (r : ref)
  | Release (r : ref)
  | Dup (fd fd' : Z)
  | Close (fd : Z)
  | Map (fd len : Z)
  | Unmap (addr len : Z)
  | OwnerRelease (cookie : Z) (data : ptr) (dataSize : Z) (objects : ptr) (objectsSize : Z).

(** ** The object

    [calls] and [trace] are not fields of the class: how often the program has called
    the outside, and what has been done to references and files.  [mOwner] has the
    cookie of the function that takes the data back. *)
Record parcel := MkParcel {
  mError : Z;
  mData : ptr;
  mDataSize : Z;
  mDataCapacity : Z;
  mDataPos : Z;
  mObjects : ptr;
  mObjectsSize : Z;
  mObjectsCapacity : Z;
  mNextObjectHint : Z;
  mFdsKnown : bool;
  mHasFds : bool;
  mAllowFds : bool;
  mOwner : option Z;
  calls : nat;
  trace : list event
}.
Definition set_mError (v : Z) (x : parcel) : parcel :=
  MkParcel v (mData x) (mDataSize x) (mDataCapacity x) (mDataPos x) (mObjects x) (mObjectsSize x)
    (mObjectsCapacity x) (mNextObjectHint x) (mFdsKnown x) (mHasFds x) (mAllowFds x) (mOwner x) (calls x) (trace
    x).
Definition set_mData (v : ptr) (x : parcel) : parcel :=
  MkParcel (mError x) v (mDataSize x) (mDataCapacity x) (mDataPos x) (mObjects x) (mObjectsSize x)
    (mObjectsCapacity x) (mNextObjectHint x) (mFdsKnown x) (mHasFds x) (mAllowFds x) (mOwner x) (calls x) (trace
    x).
Definition set_mDataSize (v : Z) (x : parcel) : parcel :=
  MkParcel (mError x) (mData x) v (mDataCapacity x) (mDataPos x) (mObjects x) (mObjectsSize x) (mObjectsCapacity
    x) (mNextObjectHint x) (mFdsKnown x) (mHasFds x) (mAllowFds x) (mOwner x) (calls x) (trace x).
Definition set_mDataCapacity (v : Z) (x : parcel) : parcel :=
  MkParcel (mError x) (mData x) (mDataSize x) v (mDataPos x) (mObjects x) (mObjectsSize x) (mObjectsCapacity x)
    (mNextObjectHint x) (mFdsKnown x) (mHasFds x) (mAllowFds x) (mOwner x) (calls x) (trace x).
Definition set_mDataPos (v : Z) (x : parcel) : parcel :=
  MkParcel (mError x) (mData x) (mDataSize x) (mDataCapacity x) v (mObjects x) (mObjectsSize x)
    (mObjectsCapacity x) (mNextObjectHint x) (mFdsKnown x) (mHasFds x) (mAllowFds x) (mOwner x) (calls x) (trace
    x).
Definition set_mObjects (v : ptr) (x : parcel) : parcel :=
  MkParcel (mError x) (mData x) (mDataSize x) (mDataCapacity x) (mDataPos x) v (mObjectsSize x)
    (mObjectsCapacity x) (mNextObjectHint x) (mFdsKnown x) (mHasFds x) (mAllowFds x) (mOwner x) (calls x) (trace
    x).
Definition set_mObjectsSize (v : Z) (x : parcel) : parcel :=
  MkParcel (mError x) (mData x) (mDataSize x) (mDataCapacity x) (mDataPos x) (mObjects x) v (mObjectsCapacity x)
    (mNextObjectHint x) (mFdsKnown x) (mHasFds x) (mAllowFds x) (mOwner x) (calls x) (trace x).
Definition set_mObjectsCapacity (v : Z) (x : parcel) : parcel :=
  MkParcel (mError x) (mData x) (mDataSize x) (mDataCapacity x) (mDataPos x) (mObjects x) (mObjectsSize x) v
    (mNextObjectHint x) (mFdsKnown x) (mHasFds x) (mAllowFds x) (mOwner x) (calls x) (trace x).
Definition set_mNextObjectHint (v : Z) (x : parcel) : parcel :=
  MkParcel (mError x) (mData x) (mDataSize x) (mDataCapacity x) (mDataPos x) (mObjects x) (mObjectsSize x)
    (mObjectsCapacity x) v (mFdsKnown x) (mHasFds x) (mAllowFds x) (mOwner x) (calls x) (trace x).
Definition set_mFdsKnown (v : bool) (x : parcel) : parcel :=
  MkParcel (mError x) (mData x) (mDataSize x) (mDataCapacity x) (mDataPos x) (mObjects x) (mObjectsSize x)
    (mObjectsCapacity x) (mNextObjectHint x) v (mHasFds x) (mAllowFds x) (mOwner x) (calls x) (trace x).
Definition set_mHasFds (v : bool) (x : parcel) : parcel :=
  MkParcel (mError x) (mData x) (mDataSize x) (mDataCapacity x) (mDataPos x) (mObjects x) (mObjectsSize x)
    (mObjectsCapacity x) (mNextObjectHint x) (mFdsKnown x) v (mAllowFds x) (mOwner x) (calls x) (trace x).
Definition set_mAllowFds (v : bool) (x : parcel) : parcel :=
  MkParcel (mError x) (mData x) (mDataSize x) (mDataCapacity x) (mDataPos x) (mObjects x) (mObjectsSize x)
    (mObjectsCapacity x) (mNextObjectHint x) (mFdsKnown x) (mHasFds x) v (mOwner x) (calls x) (trace x).
Definition set_mOwner (v : option Z) (x : parcel) : parcel :=
  MkParcel (mError x) (mData x) (mDataSize x) (mDataCapacity x) (mDataPos x) (mObjects x) (mObjectsSize x)
    (mObjectsCapacity x) (mNextObjectHint x) (mFdsKnown x) (mHasFds x) (mAllowFds x) v (calls x) (trace x).
Definition set_calls (v : nat) (x : parcel) : parcel :=
  MkParcel (mError x) (mData x) (mDataSize x) (mDataCapacity x) (mDataPos x) (mObjects x) (mObjectsSize x)
    (mObjectsCapacity x) (mNextObjectHint x) (mFdsKnown x) (mHasFds x) (mAllowFds x) (mOwner x) v (trace x).
Definition set_trace (v : list event) (x : parcel) : parcel :=
  MkParcel (mError x) (mData x) (mDataSize x) (mDataCapacity x) (mDataPos x) (mObjects x) (mObjectsSize x)
    (mObjectsCapacity x) (mNextObjectHint x) (mFdsKnown x) (mHasFds x) (mAllowFds x) (mOwner x) (calls x) v.

Definition op (A : Type) : Type := M parcel A.

Definition NO_ERROR : Z := 0.
Definition NO_MEMORY : Z := - 12.
Definition BAD_VALUE : Z := - 22.
Definition NOT_ENOUGH_DATA : Z := - 61.
Definition UNKNOWN_ERROR : Z := - 2 ^ 31.
Definition BAD_TYPE : Z := UNKNOWN_ERROR + 1.
Definition FDS_NOT_ALLOWED : Z := UNKNOWN_ERROR + 7.
Definition INT32_MAX : Z := 2 ^ 31 - 1.
Definition SIZEOF_PTR : Z := 4.
Definition EX_HAS_REPLY_HEADER : Z := - 128.
Definition IN_PLACE_BLOB_LIMIT : Z := 40 * 1024.
Definition STRICT_MODE_PENALTY_GATHER : Z := 256.

Definition PAD_SIZE (s : Z) : Z := Z.land (u32 (s + 3)) (u32 (Z.lnot 3)).

(** *** Accesses *)

Definition event_ (e : event) : op unit := modify (λ p, set_trace (trace p ++ [e]) p).
Definition count_call : op nat := n <- gets calls ;; modify (set_calls (S n)) ;;; ret n.

(** Reading and writing the bytes from [off] on. *)
Definition load (off n : Z) : op (list Z) := p <- getst ;; deref (c_load (mData p) off n).
Definition store (off : Z) (v : list Z) : op unit :=
  p <- getst ;; d <- deref (c_store (mData p) off v) ;; modify (set_mData d).
(** [mObjects[i]]. *)
Definition get_object (i : Z) : op Z :=
  p <- getst ;; l <- deref (c_load (mObjects p) i 1) ;; deref (head l).
Definition put_object (i v : Z) : op unit :=
  p <- getst ;; d <- deref (c_store (mObjects p) i [v]) ;; modify (set_mObjects d).
(** A [flat_binder_object] in the data. *)
Definition flat_bytes (o : flat) : list Z :=
  word_bytes (f_type o) ++ word_bytes (f_flags o) ++ word_bytes (f_binder o) ++ word_bytes (f_cookie o).
Definition load_flat (off : Z) : op flat := l <- load off FLAT_SIZE ;; deref (flat_at l 0).
Definition handle (o : flat) : Z := s32 (f_binder o).

Section parcel.
Context `{Env}.

(** ** References of the objects *)

(** The reference an object of a parcel stands for. *)
Definition ref_of (o : flat) : option ref :=
  if bool_decide (f_type o = BINDER_TYPE_BINDER) then
    if bool_decide (f_binder o ≠ 0) then Some (Strong (f_cookie o)) else None
  else if bool_decide (f_type o = BINDER_TYPE_WEAK_BINDER) then
    if bool_decide (f_binder o ≠ 0) then Some (Weak (f_binder o)) else None
  else if bool_decide (f_type o = BINDER_TYPE_HANDLE) then Strong <$> getStrongProxyForHandle (handle o)
  else if bool_decide (f_type o = BINDER_TYPE_WEAK_HANDLE) then Weak <$> getWeakProxyForHandle (handle o)
  else None.

Definition acquire_object (obj : flat) : op unit :=
  match ref_of obj with Some r => event_ (Acquire r) | None => ret tt end.
Definition release_object (obj : flat) : op unit :=
  if bool_decide (f_type obj = BINDER_TYPE_FD) then
    when bool_decide (f_cookie obj ≠ 0) do event_ (Close (handle obj))
  else match ref_of obj with Some r => event_ (Release r) | None => ret tt end.

(** The loops over the objects, from the last of [i] objects down. *)
Fixpoint releaseObjects_loop (i : nat) : op unit :=
  match i with
  | O => ret tt
  | S i => off <- get_object (Z.of_nat i) ;; flat <- load_flat off ;; release_object flat ;;; releaseObjects_loop i
  end.
Definition releaseObjects : op unit := n <- gets mObjectsSize ;; releaseObjects_loop (Z.to_nat n).
Fixpoint acquireObjects_loop (i : nat) : op unit :=
  match i with
  | O => ret tt
  | S i => off <- get_object (Z.of_nat i) ;; flat <- load_flat off ;; acquire_object flat ;;; acquireObjects_loop i
  end.
Definition acquireObjects : op unit := n <- gets mObjectsSize ;; acquireObjects_loop (Z.to_nat n).
Fixpoint closeFileDescriptors_loop (i : nat) : op unit :=
  match i with
  | O => ret tt
  | S i =>
      off <- get_object (Z.of_nat i) ;; flat <- load_flat off ;;
      (when bool_decide (f_type flat = BINDER_TYPE_FD) do event_ (Close (handle flat))) ;;;
      closeFileDescriptors_loop i
  end.
Definition closeFileDescriptors : op unit := n <- gets mObjectsSize ;; closeFileDescriptors_loop (Z.to_nat n).

(** [scanForFds]: the objects from [i] on, [n] of them. *)
Fixpoint scanForFds_loop (n : nat) (i : Z) : op bool :=
  match n with
  | O => ret false
  | S n =>
      off <- get_object i ;; flat <- load_flat off ;;
      if bool_decide (f_type flat = BINDER_TYPE_FD) then ret true else scanForFds_loop n (i + 1)
  end.
Definition scanForFds : op unit :=
  n <- gets mObjectsSize ;; hasFds <- scanForFds_loop (Z.to_nat n) 0 ;;
  modify (set_mHasFds hasFds) ;;; modify (set_mFdsKnown true).
Definition hasFileDescriptors : op bool :=
  known <- gets mFdsKnown ;; (when negb known do scanForFds) ;;; gets mHasFds.

(** ** Life of the blocks *)

Definition parcel_init (calls : nat) (trace : list event) : parcel :=
  MkParcel NO_ERROR NULL 0 0 0 NULL 0 0 0 true false true None calls trace.
Definition initState : op unit := modify (λ p, parcel_init (calls p) (trace p)).

Definition freeDataNoInit : op unit :=
  p <- getst ;;
  match mOwner p with
  | Some cookie => event_ (OwnerRelease cookie (mData p) (mDataSize p) (mObjects p) (mObjectsSize p))
  | None =>
      releaseObjects ;;;
      d <- deref (c_free (mData p)) ;; modify (set_mData d) ;;;
      o <- deref (c_free (mObjects p)) ;; modify (set_mObjects o)
  end.
Definition freeData : op unit := freeDataNoInit ;;; initState.

(** [realloc] of the data and of the list of objects. *)
Definition realloc_data (desired : Z) : op (ptr * ptr) :=
  k <- count_call ;; p <- getst ;; deref (c_realloc 8 desired (heap_answer k) (mData p)).
Definition realloc_objects (n : Z) : op (ptr * ptr) :=
  k <- count_call ;; p <- getst ;; deref (c_realloc 32 (u32 (n * SIZEOF_PTR) / SIZEOF_PTR) (heap_answer k) (mObjects p)).

(** The loop of [continueWrite] that finds how many objects stay. *)
Fixpoint objects_below (desired : Z) (objectsSize : nat) : op nat :=
  match objectsSize with
  | O => ret O
  | S i => off <- get_object (Z.of_nat i) ;; if bool_decide (off < desired) then ret (S i) else objects_below desired i
  end.
(** The loop that releases those from [i] on, [n] of them. *)
Fixpoint drop_objects (n : nat) (i : Z) : op unit :=
  match n with
  | O => ret tt
  | S n =>
      off <- get_object i ;; flat <- load_flat off ;;
      (when bool_decide (f_type flat = BINDER_TYPE_FD) do modify (set_mFdsKnown false)) ;;;
      release_object flat ;;;
      drop_objects n (i + 1)
  end.

Definition no_memory : op Z := modify (set_mError NO_MEMORY) ;;; ret NO_MEMORY.

(** The branch that takes the data over from another owner. *)
Definition continueWrite_owned (cookie desired objectsSize : Z) : op Z :=
  if bool_decide (desired = 0) then freeData ;;; ret NO_ERROR else
  k <- count_call ;;
  match c_malloc 8 desired (heap_answer k) with
  | Block fresh =>
      objects <- (if bool_decide (objectsSize ≠ 0) then
          k <- count_call ;;
          match c_malloc 32 (u32 (objectsSize * SIZEOF_PTR) / SIZEOF_PTR) (heap_answer k) with
          | Block objects =>
              oldObjectsSize <- gets mObjectsSize ;;
              modify (set_mObjectsSize objectsSize) ;;;
              acquireObjects ;;;
              modify (set_mObjectsSize oldObjectsSize) ;;;
              ret (Some (Block objects))
          | _ => ret None
          end
        else ret (Some NULL)) ;;
      match objects with
      | None => no_memory
      | Some objects =>
          p <- getst ;;
          data <- (if ptr_null (mData p) then ret (Block fresh) else
            l <- load 0 (Z.min (mDataSize p) desired) ;; deref (c_store (Block fresh) 0 l)) ;;
          objects <- (if ptr_null objects || ptr_null (mObjects p) then ret objects else
            l <- deref (c_load (mObjects p) 0 objectsSize) ;; deref (c_store objects 0 l)) ;;
          event_ (OwnerRelease cookie (mData p) (mDataSize p) (mObjects p) (mObjectsSize p)) ;;;
          modify (set_mOwner None) ;;;
          modify (set_mData data) ;;; modify (set_mObjects objects) ;;;
          modify (set_mDataSize (if bool_decide (mDataSize p < desired) then mDataSize p else desired)) ;;;
          modify (set_mDataCapacity desired) ;;;
          modify (set_mObjectsSize objectsSize) ;;; modify (set_mObjectsCapacity objectsSize) ;;;
          modify (set_mNextObjectHint 0) ;;;
          ret NO_ERROR
      end
  | _ => no_memory
  end.
(** The branch of a parcel that owns its data. *)
Definition continueWrite_own (desired objectsSize : Z) : op Z :=
  n <- gets mObjectsSize ;;
  (when bool_decide (objectsSize < n) do
    (drop_objects (Z.to_nat (n - objectsSize)) objectsSize ;;;
     (let* (objects, old) := realloc_objects objectsSize in
      modify (set_mObjects (if ptr_null objects then old else objects))) ;;;
     modify (set_mObjectsSize objectsSize) ;;; modify (set_mNextObjectHint 0))) ;;;
  p <- getst ;;
  if bool_decide (desired > mDataCapacity p) then
    let* (data, old) := realloc_data desired in
    if negb (ptr_null data) then
      modify (set_mData data) ;;; modify (set_mDataCapacity desired) ;;; ret NO_ERROR
    else modify (set_mData old) ;;; no_memory
  else
    (when bool_decide (mDataSize p > desired) do modify (set_mDataSize desired)) ;;;
    (when bool_decide (mDataPos p > desired) do modify (set_mDataPos desired)) ;;;
    ret NO_ERROR.
(** The branch of a parcel without data. *)
Definition continueWrite_first (desired : Z) : op Z :=
  k <- count_call ;;
  match c_malloc 8 desired (heap_answer k) with
  | Block data =>
      modify (set_mData (Block data)) ;;;
      modify (set_mDataSize 0) ;;; modify (set_mDataPos 0) ;;;
      modify (set_mDataCapacity desired) ;;;
      ret NO_ERROR
  | _ => no_memory
  end.
Definition continueWrite (desired : Z) : op Z :=
  p <- getst ;;
  objectsSize <- (if bool_decide (desired < mDataSize p) then
      if bool_decide (desired = 0) then ret 0
      else n <- objects_below desired (Z.to_nat (mObjectsSize p)) ;; ret (Z.of_nat n)
    else ret (mObjectsSize p)) ;;
  match mOwner p with
  | Some cookie => continueWrite_owned cookie desired objectsSize
  | None => if ptr_null (mData p) then continueWrite_first desired else continueWrite_own desired objectsSize
  end.

Definition growData (len : Z) : op Z :=
  size <- gets mDataSize ;;
  let newSize := u32 (u32 (size + len) * 3) / 2 in
  if bool_decide (newSize <= size) then ret NO_MEMORY else continueWrite newSize.

(** [realloc] comes before the release of the objects, which looks at the old block. *)
Definition restartWrite (desired : Z) : op Z :=
  p <- getst ;;
  match mOwner p with
  | Some _ => freeData ;;; continueWrite desired
  | None =>
      let* (data, old) := realloc_data desired in
      modify (set_mData old) ;;;
      if ptr_null data && bool_decide (desired > mDataCapacity p) then no_memory else
      releaseObjects ;;;
      (when negb (ptr_null data) do (modify (set_mData data) ;;; modify (set_mDataCapacity desired))) ;;;
      modify (set_mDataSize 0) ;;; modify (set_mDataPos 0) ;;;
      p <- getst ;; _ <- deref (c_free (mObjects p)) ;;
      modify (set_mObjects NULL) ;;; modify (set_mObjectsSize 0) ;;; modify (set_mObjectsCapacity 0) ;;;
      modify (set_mNextObjectHint 0) ;;;
      modify (set_mHasFds false) ;;; modify (set_mFdsKnown true) ;;; modify (set_mAllowFds true) ;;;
      ret NO_ERROR
  end.

(** ** Writing *)

Definition dataSize : op Z := p <- getst ;; ret (if bool_decide (mDataSize p > mDataPos p) then mDataSize p else mDataPos p).
Definition dataAvail : op Z := n <- dataSize ;; pos <- gets mDataPos ;; ret (u32 (n - pos)).
Definition setDataSize (size : Z) : op Z :=
  err <- continueWrite size ;;
  (when bool_decide (err = NO_ERROR) do modify (set_mDataSize size)) ;;;
  ret err.
Definition setDataPosition (pos : Z) : op unit := modify (set_mDataPos pos) ;;; modify (set_mNextObjectHint 0).
Definition setDataCapacity (size : Z) : op Z :=
  p <- getst ;; if bool_decide (size > mDataCapacity p) then continueWrite size else ret NO_ERROR.
Definition setData (buffer : list Z) : op Z :=
  let len := Z.of_nat (length buffer) in
  err <- restartWrite len ;;
  (when bool_decide (err = NO_ERROR) do
    (store 0 buffer ;;; modify (set_mDataSize len) ;;; modify (set_mFdsKnown false))) ;;;
  ret err.
Definition pushAllowFds (allowFds : bool) : op bool :=
  orig <- gets mAllowFds ;; (when negb allowFds do modify (set_mAllowFds false)) ;;; ret orig.
Definition restoreAllowFds (lastValue : bool) : op unit := modify (set_mAllowFds lastValue).

Definition finishWrite (len : Z) : op Z :=
  modify (λ p, set_mDataPos (u32 (mDataPos p + len)) p) ;;;
  p <- getst ;;
  (when bool_decide (mDataPos p > mDataSize p) do modify (set_mDataSize (mDataPos p))) ;;;
  ret NO_ERROR.

(** The bytes at the place of writing. *)
Definition store_here (v : list Z) : op unit := pos <- gets mDataPos ;; store pos v.

Definition writeUnpadded (data : list Z) : op Z :=
  let len := Z.of_nat (length data) in
  p <- getst ;;
  let end_ := u32 (mDataPos p + len) in
  if bool_decide (end_ < mDataPos p) then ret BAD_VALUE else
  err <- (if bool_decide (end_ <= mDataCapacity p) then ret NO_ERROR else growData len) ;;
  if bool_decide (err = NO_ERROR) then store_here data ;;; finishWrite len else ret err.

(** The last word keeps [4 - n] bytes. *)
Definition pad_mask (n : Z) : Z :=
  if bool_decide (n = 1) then 16777215 else if bool_decide (n = 2) then 65535 else if bool_decide (n = 3) then 255 else 0.
(** The part behind the label [restart_write]: the place of the data, [None] for a null pointer. *)
Definition writeInplace_here (len padded : Z) : op (option Z) :=
  p <- getst ;;
  (when bool_decide (padded ≠ len) do
    (let at_ := u32 (mDataPos p + padded - 4) in
     l <- load at_ 4 ;; w <- deref (head (words_of l)) ;;
     store at_ (word_bytes (Z.land w (pad_mask (padded - len)))))) ;;;
  finishWrite padded ;;;
  ret (if ptr_sum_null (mData p) (mDataPos p) then None else Some (mDataPos p)).
Definition writeInplace (len : Z) : op (option Z) :=
  let padded := PAD_SIZE len in
  p <- getst ;;
  let end_ := u32 (mDataPos p + padded) in
  if bool_decide (end_ < mDataPos p) then ret None else
  if bool_decide (end_ <= mDataCapacity p) then writeInplace_here len padded else
  err <- growData padded ;;
  if bool_decide (err = NO_ERROR) then writeInplace_here len padded else ret None.
Definition write (data : list Z) : op Z :=
  d <- writeInplace (Z.of_nat (length data)) ;;
  match d with
  | Some off => store off data ;;; ret NO_ERROR
  | None => gets mError
  end.

(** [writeAligned], of a value with these bytes. *)
Definition writeAligned (val : list Z) : op Z :=
  let size := Z.of_nat (length val) in
  p <- getst ;;
  err <- (if bool_decide (u32 (mDataPos p + size) <= mDataCapacity p) then ret NO_ERROR else growData size) ;;
  if bool_decide (err = NO_ERROR) then store_here val ;;; finishWrite size else ret err.
Definition long_bytes (v : Z) : list Z := word_bytes (v mod 2 ^ 32) ++ word_bytes (v / 2 ^ 32 mod 2 ^ 32).
Definition writeInt32 (val : Z) : op Z := writeAligned (word_bytes (u32 val)).
Definition writeInt64 (val : Z) : op Z := writeAligned (long_bytes val).
Definition writeIntPtr (val : Z) : op Z := writeAligned (word_bytes (u32 val)).
(** Floating-point numbers by their bits. *)
Definition writeFloat (bits : Z) : op Z := writeAligned (word_bytes bits).
Definition writeDouble (bits : Z) : op Z := writeAligned (long_bytes bits).

(** A C string is its bytes before the NUL. *)
Definition writeCString (str : list Z) : op Z := write (str ++ [0]).
Definition writeString8 (str : list Z) : op Z :=
  err <- writeInt32 (Z.of_nat (length str)) ;;
  if bool_decide (0 < Z.of_nat (length str) ∧ err = NO_ERROR) then write (str ++ [0]) else ret err.
Definition char16_bytes (c : Z) : list Z := [c mod 2 ^ 8; c / 2 ^ 8 mod 2 ^ 8].
(** [None] is a null pointer. *)
Definition writeString16 (str : option (list Z)) : op Z :=
  match str with
  | None => writeInt32 (-1)
  | Some str =>
      err <- writeInt32 (Z.of_nat (length str)) ;;
      if bool_decide (err = NO_ERROR) then
        let len := u32 (Z.of_nat (length str) * 2) in
        data <- writeInplace (u32 (len + 2)) ;;
        match data with
        | Some off =>
            l <- deref (slice (concat (char16_bytes <$> str)) 0 len) ;;
            store off l ;;; store (off + len) (char16_bytes 0) ;;; ret NO_ERROR
        | None => gets mError
        end
      else ret err
  end.
Definition writeNoException : op Z := writeInt32 0.

(** [writeObject]: an object, and, unless it is null, its place. *)
Definition writeObject_here (val : flat) (nullMetaData : bool) : op Z :=
  store_here (flat_bytes val) ;;;
  (when nullMetaData || bool_decide (f_binder val ≠ 0) do
    (p <- getst ;;
     put_object (mObjectsSize p) (mDataPos p) ;;;
     acquire_object val ;;;
     modify (λ p, set_mObjectsSize (mObjectsSize p + 1) p))) ;;;
  if bool_decide (f_type val = BINDER_TYPE_FD) then
    allow <- gets mAllowFds ;;
    if negb allow then ret FDS_NOT_ALLOWED else
    modify (set_mFdsKnown true) ;;; modify (set_mHasFds true) ;;; finishWrite FLAT_SIZE
  else finishWrite FLAT_SIZE.
Definition grow_objects (newSize : Z) : op Z :=
  let* (objects, old) := realloc_objects newSize in
  if ptr_null objects then modify (set_mObjects old) ;;; ret NO_MEMORY
  else modify (set_mObjects objects) ;;; modify (set_mObjectsCapacity newSize) ;;; ret NO_ERROR.
Definition writeObject (val : flat) (nullMetaData : bool) : op Z :=
  p <- getst ;;
  let enoughData := bool_decide (u32 (mDataPos p + FLAT_SIZE) <= mDataCapacity p) in
  let enoughObjects := bool_decide (mObjectsSize p < mObjectsCapacity p) in
  if enoughData && enoughObjects then writeObject_here val nullMetaData else
  err <- (if enoughData then ret NO_ERROR else growData FLAT_SIZE) ;;
  if negb (bool_decide (err = NO_ERROR)) then ret err else
  err <- (if enoughObjects then ret NO_ERROR else n <- gets mObjectsSize ;; grow_objects (u32 (u32 (n + 2) * 3) / 2)) ;;
  if negb (bool_decide (err = NO_ERROR)) then ret err else
  writeObject_here val nullMetaData.

(** ** Binders

    An [IBinder] by its address: a local object with its counts, or a proxy. *)
Definition FLAT_BINDER_FLAG_ACCEPTS_FDS : Z := 256.
Definition FLAT_BINDER_FLAGS : Z := Z.lor 127 FLAT_BINDER_FLAG_ACCEPTS_FDS.
Inductive ibinder :=
  | LocalBinder (this refs : Z)
  | RemoteBinder (this handle : Z)
  | NullProxy (this : Z).
Definition null_flat : flat := Flat BINDER_TYPE_BINDER FLAT_BINDER_FLAGS 0 0.
Definition strong_flat (binder : option ibinder) : flat :=
  match binder with
  | Some (RemoteBinder _ h) => Flat BINDER_TYPE_HANDLE FLAT_BINDER_FLAGS (u32 h) 0
  | Some (NullProxy _) => Flat BINDER_TYPE_HANDLE FLAT_BINDER_FLAGS 0 0
  | Some (LocalBinder this refs) => Flat BINDER_TYPE_BINDER FLAT_BINDER_FLAGS refs this
  | None => null_flat
  end.
Definition flatten_binder (binder : option ibinder) : op Z := writeObject (strong_flat binder) false.
(** A weak pointer: its counts, the address it holds, and what [promote] gives. *)
Record wpointer := WPointer { wp_refs : Z; wp_ptr : Z; wp_promote : option ibinder }.
Definition weak_flat (binder : option wpointer) : flat :=
  match binder with
  | Some b =>
      match wp_promote b with
      | Some (RemoteBinder _ h) => Flat BINDER_TYPE_WEAK_HANDLE FLAT_BINDER_FLAGS (u32 h) 0
      | Some (NullProxy _) => Flat BINDER_TYPE_WEAK_HANDLE FLAT_BINDER_FLAGS 0 0
      | Some (LocalBinder _ _) => Flat BINDER_TYPE_WEAK_BINDER FLAT_BINDER_FLAGS (wp_refs b) (wp_ptr b)
      | None => null_flat
      end
  | None => null_flat
  end.
Definition flatten_weak_binder (binder : option wpointer) : op Z := writeObject (weak_flat binder) false.
Definition writeStrongBinder (val : option ibinder) : op Z := flatten_binder val.
Definition writeWeakBinder (val : option wpointer) : op Z := flatten_weak_binder val.

(** ** Files *)
Definition dup (fd : Z) : op Z :=
  k <- count_call ;; let fd' := s32 (dup_answer k) in event_ (Dup fd fd') ;;; ret fd'.
Definition fd_flat (fd : Z) (takeOwnership : bool) : flat :=
  Flat BINDER_TYPE_FD FLAT_BINDER_FLAGS (u32 fd) (if takeOwnership then 1 else 0).
Definition writeFileDescriptor (fd : Z) (takeOwnership : bool) : op Z := writeObject (fd_flat fd takeOwnership) true.
Definition writeDupFileDescriptor (fd : Z) : op Z := fd' <- dup fd ;; writeFileDescriptor fd' true.
(** The loops that write files until one fails. *)
Fixpoint write_fds (err : Z) (fds : list Z) : op Z :=
  match fds with
  | [] => ret err
  | fd :: fds => if bool_decide (err = NO_ERROR) then err <- writeDupFileDescriptor fd ;; write_fds err fds else ret err
  end.

(** [native_handle]: the files and the integers in its array. *)
Record native_handle := NativeHandle { nh_version : Z; nh_fds : list Z; nh_ints : list Z }.
Definition sizeof_native_handle : Z := 12.
Definition writeNativeHandle (h : option native_handle) : op Z :=
  match h with
  | None => ret BAD_TYPE
  | Some h =>
      if negb (bool_decide (nh_version h = sizeof_native_handle)) then ret BAD_TYPE else
      err <- writeInt32 (Z.of_nat (length (nh_fds h))) ;;
      if negb (bool_decide (err = NO_ERROR)) then ret err else
      err <- writeInt32 (Z.of_nat (length (nh_ints h))) ;;
      if negb (bool_decide (err = NO_ERROR)) then ret err else
      err <- write_fds err (nh_fds h) ;;
      if negb (bool_decide (err = NO_ERROR)) then ret err else
      write (concat ((λ i, word_bytes (u32 i)) <$> nh_ints h))
  end.

(** [Blob]: in the parcel ([blob_data] is a place in it), as [HAVE_ASHMEM] is not defined. *)
Record Blob := MkBlob { blob_mapped : bool; blob_data : option Z; blob_size : Z }.
Definition Blob_new : Blob := MkBlob false None 0.
Definition Blob_release (b : Blob) : op Blob :=
  match blob_data b with
  | Some d => (when blob_mapped b do event_ (Unmap d (blob_size b))) ;;; ret Blob_new
  | None => ret Blob_new
  end.
Definition writeBlob (len : Z) : op (Z * Blob) :=
  allow <- gets mAllowFds ;;
  if negb allow || bool_decide (len <= IN_PLACE_BLOB_LIMIT) then
    status <- writeInt32 0 ;;
    if negb (bool_decide (status = 0)) then ret (status, Blob_new) else
    ptr <- writeInplace len ;;
    match ptr with
    | None => ret (NO_MEMORY, Blob_new)
    | Some d => ret (NO_ERROR, MkBlob false (Some d) len)
    end
  else ret (NO_MEMORY, Blob_new).

(** [Flattenable]: what an object says of its size and files, and what its [flatten]
    returns and puts into the buffer and the array of files. *)
Record Flattenable := MkFlattenable {
  getFlattenedSize : Z;
  getFdCount : Z;
  flatten : Z * list Z * list Z
}.
Definition write_flattenable (val : Flattenable) : op Z :=
  let len := getFlattenedSize val in let fd_count := getFdCount val in
  err <- writeInt32 len ;;
  if negb (bool_decide (err = NO_ERROR)) then ret err else
  err <- writeInt32 fd_count ;;
  if negb (bool_decide (err = NO_ERROR)) then ret err else
  buf <- writeInplace (PAD_SIZE len) ;;
  match buf with
  | None => ret BAD_VALUE
  | Some off =>
      let '(err, bytes, fds) := flatten val in
      store off bytes ;;;
      write_fds err fds
  end.

(** ** Reading *)

(** A pointer into the data is the place in it. *)
Definition readInplace (len : Z) : op (option Z) :=
  p <- getst ;;
  let end_ := u32 (mDataPos p + PAD_SIZE len) in
  if bool_decide (mDataPos p <= end_ ∧ end_ <= mDataSize p) then
    modify (set_mDataPos end_) ;;;
    ret (if ptr_sum_null (mData p) (mDataPos p) then None else Some (mDataPos p))
  else ret None.
Definition read (len : Z) : op (Z * list Z) :=
  p <- getst ;;
  let end_ := u32 (mDataPos p + PAD_SIZE len) in
  if bool_decide (mDataPos p <= end_ ∧ end_ <= mDataSize p) then
    l <- load (mDataPos p) len ;; modify (set_mDataPos end_) ;;; ret (NO_ERROR, l)
  else ret (NOT_ENOUGH_DATA, []).

(** The bytes of a value of [size] bytes; [None] is [NOT_ENOUGH_DATA]. *)
Definition readAligned (size : Z) : op (option (list Z)) :=
  p <- getst ;;
  if bool_decide (u32 (mDataPos p + size) <= mDataSize p) then
    modify (set_mDataPos (u32 (mDataPos p + size))) ;;;
    l <- load (mDataPos p) size ;; ret (Some l)
  else ret None.
Definition read_word : op (option Z) :=
  o <- readAligned 4 ;;
  match o with Some l => w <- deref (head (words_of l)) ;; ret (Some w) | None => ret None end.
Definition read_long : op (option Z) :=
  o <- readAligned 8 ;;
  match o with
  | Some l => match words_of l with [lo; hi] => ret (Some (lo + hi * 2 ^ 32)) | _ => crash_with CrashOops end
  | None => ret None
  end.
(** The two forms: with a status, and with 0 for what is missing. *)
Definition readInt32_status : op (option Z) := o <- read_word ;; ret (s32 <$> o).
Definition readInt32 : op Z := o <- readInt32_status ;; ret (default 0 o).
Definition readInt64_status : op (option Z) := o <- read_long ;; ret (s64 <$> o).
Definition readInt64 : op Z := o <- readInt64_status ;; ret (default 0 o).
Definition readIntPtr_status : op (option Z) := o <- read_word ;; ret (s32 <$> o).
Definition readIntPtr : op Z := o <- readIntPtr_status ;; ret (default 0 o).
Definition readFloat_status : op (option Z) := read_word.
Definition readFloat : op Z := o <- readFloat_status ;; ret (default 0 o).
Definition readDouble_status : op (option Z) := read_long.
Definition readDouble : op Z := o <- readDouble_status ;; ret (default 0 o).

(** [memchr(p, 0, n)] on the cells [l] there are from [p] on. *)
Fixpoint find_nul (l : list Z) (n : nat) (i : Z) {struct n} : option (option Z) :=
  match n with
  | O => Some None
  | S n =>
      match l with
      | [] => None
      | b :: l => if bool_decide (b = 0) then Some (Some i) else find_nul l n (i + 1)
      end
  end.
Definition memchr0 (off n : Z) : op (option Z) :=
  p <- getst ;;
  match mData p with Block l => deref (find_nul (drop (Z.to_nat off) l) (Z.to_nat n) 0) | _ => crash_with CrashOops end.
(** The characters of the string. *)
Definition readCString : op (option (list Z)) :=
  p <- getst ;;
  let avail := u32 (mDataSize p - mDataPos p) in
  if bool_decide (avail > 0) then
    eos <- memchr0 (mDataPos p) avail ;;
    match eos with
    | Some len =>
        modify (set_mDataPos (u32 (mDataPos p + PAD_SIZE (len + 1)))) ;;;
        str <- load (mDataPos p) len ;; ret (Some str)
    | None => ret None
    end
  else ret None.
Definition readString8 : op (list Z) :=
  size <- readInt32 ;;
  if bool_decide (size > 0 ∧ size < INT32_MAX) then
    str <- readInplace (size + 1) ;;
    match str with Some off => load off size | None => ret [] end
  else ret [].
Fixpoint char16s_of (l : list Z) : list Z :=
  match l with b0 :: b1 :: l => b0 + b1 * 2 ^ 8 :: char16s_of l | _ => [] end.
(** [readString16Inplace]: the place of the string and its length. *)
Definition readString16Inplace : op (option Z * Z) :=
  size <- readInt32 ;;
  if bool_decide (size >= 0 ∧ size < INT32_MAX) then
    str <- readInplace (u32 ((size + 1) * 2)) ;;
    match str with Some off => ret (Some off, size) | None => ret (None, 0) end
  else ret (None, 0).
Definition readString16 : op (list Z) :=
  r <- readString16Inplace ;;
  match r with
  | (Some off, len) => l <- load off (len * 2) ;; ret (char16s_of l)
  | (None, _) => ret []
  end.

(** *** Objects

    The search in the list of objects, forward from the hint and then backward. *)
Fixpoint search_forward (n : nat) (opos N DPOS : Z) : op Z :=
  match n with
  | O => ret opos
  | S n =>
      if bool_decide (opos < N - 1) then
        o <- get_object opos ;; if bool_decide (o < DPOS) then search_forward n (opos + 1) N DPOS else ret opos
      else ret opos
  end.
Fixpoint search_backward (opos : nat) (DPOS : Z) : op Z :=
  match opos with
  | O => ret 0
  | S i => o <- get_object (Z.of_nat opos) ;; if bool_decide (o > DPOS) then search_backward i DPOS else ret (Z.of_nat opos)
  end.
(** Whether there is an object at [DPOS], leaving the hint behind it. *)
Definition find_object (DPOS : Z) : op bool :=
  p <- getst ;;
  let N := mObjectsSize p in
  if bool_decide (N > 0) then
    opos <- (if bool_decide (mNextObjectHint p < N)
             then search_forward (Z.to_nat (N - 1 - mNextObjectHint p)) (mNextObjectHint p) N DPOS else ret (N - 1)) ;;
    o <- get_object opos ;;
    if bool_decide (o = DPOS) then modify (set_mNextObjectHint (u32 (opos + 1))) ;;; ret true else
    opos <- search_backward (Z.to_nat opos) DPOS ;;
    o <- get_object opos ;;
    if bool_decide (o = DPOS) then modify (set_mNextObjectHint (u32 (opos + 1))) ;;; ret true else ret false
  else ret false.
Definition readObject (nullMetaData : bool) : op (option flat) :=
  p <- getst ;;
  let DPOS := mDataPos p in
  if bool_decide (u32 (DPOS + FLAT_SIZE) <= mDataSize p) then
    modify (set_mDataPos (u32 (DPOS + FLAT_SIZE))) ;;;
    obj <- (if nullMetaData then ret None else o <- load_flat DPOS ;; ret (Some o)) ;;
    match obj with
    | Some o => if bool_decide (f_cookie o = 0 ∧ f_binder o = 0) then ret (Some o) else
        found <- find_object DPOS ;; ret (if found : bool then Some o else None)
    | None => found <- find_object DPOS ;; if found : bool then o <- load_flat DPOS ;; ret (Some o) else ret None
    end
  else ret None.

(** What is read back is the status and the address of the binder, 0 for none. *)
Definition unflatten (flat : option flat) : Z * Z :=
  match flat with
  | Some o =>
      if bool_decide (f_type o = BINDER_TYPE_BINDER) then (NO_ERROR, f_cookie o)
      else if bool_decide (f_type o = BINDER_TYPE_HANDLE) then (NO_ERROR, default 0 (getStrongProxyForHandle (handle o)))
      else (BAD_TYPE, 0)
  | None => (BAD_TYPE, 0)
  end.
Definition unflatten_binder : op (Z * Z) := flat <- readObject false ;; ret (unflatten flat).
(** A weak pointer that has been read: an object of this process taken with the
    counts it says it has, a pointer made from a binder, or a proxy. *)
Inductive read_weak := WeakNull | WeakFrom (b : Z) | WeakSet (b refs : Z).
Definition unflatten_weak (flat : option flat) : Z * read_weak :=
  match flat with
  | Some o =>
      if bool_decide (f_type o = BINDER_TYPE_BINDER) then
        (NO_ERROR, if bool_decide (f_cookie o = 0) then WeakNull else WeakFrom (f_cookie o))
      else if bool_decide (f_type o = BINDER_TYPE_WEAK_BINDER) then
        (NO_ERROR, if bool_decide (f_binder o ≠ 0) then WeakSet (f_cookie o) (f_binder o) else WeakNull)
      else if bool_decide (f_type o = BINDER_TYPE_HANDLE ∨ f_type o = BINDER_TYPE_WEAK_HANDLE) then
        (NO_ERROR, match getWeakProxyForHandle (handle o) with Some b => WeakFrom b | None => WeakNull end)
      else (BAD_TYPE, WeakNull)
  | None => (BAD_TYPE, WeakNull)
  end.
Definition unflatten_weak_binder : op (Z * read_weak) := flat <- readObject false ;; ret (unflatten_weak flat).
Definition readStrongBinder : op Z := r <- unflatten_binder ;; ret r.2.
Definition readWeakBinder : op read_weak := r <- unflatten_weak_binder ;; ret r.2.

Definition unflatten_fd (flat : option flat) : Z :=
  match flat with
  | Some o => if bool_decide (f_type o = BINDER_TYPE_FD) then handle o else BAD_TYPE
  | None => BAD_TYPE
  end.
Definition readFileDescriptor : op Z := flat <- readObject true ;; ret (unflatten_fd flat).
(** The loops that read files until one fails: those read, and the status. *)
Fixpoint read_fds (n : nat) : op (Z * list Z) :=
  match n with
  | O => ret (NO_ERROR, [])
  | S n =>
      fd <- readFileDescriptor ;; fd' <- dup fd ;;
      if bool_decide (fd' < 0) then ret (BAD_VALUE, [fd']) else
      r <- read_fds n ;; ret (r.1, fd' :: r.2)
  end.

Definition readExceptionCode : op Z :=
  exception_code <- readInt32 ;;
  if bool_decide (exception_code = EX_HAS_REPLY_HEADER) then
    header_size <- readInt32 ;;
    pos <- gets mDataPos ;; setDataPosition (u32 (pos + header_size)) ;;; ret 0
  else ret exception_code.

Definition readBlob (len : Z) : op (Z * Blob) :=
  o <- readInt32_status ;;
  match o with
  | None => ret (NOT_ENOUGH_DATA, Blob_new)
  | Some useAshmem =>
      if bool_decide (useAshmem = 0) then
        ptr <- readInplace len ;;
        match ptr with Some d => ret (NO_ERROR, MkBlob false (Some d) len) | None => ret (BAD_VALUE, Blob_new) end
      else
        fd <- readFileDescriptor ;;
        if bool_decide (fd = BAD_TYPE) then ret (BAD_VALUE, Blob_new) else
        k <- count_call ;; event_ (Map fd len) ;;;
        let ptr := u32 (mmap_answer k) in
        if bool_decide (ptr = 0) then ret (NO_MEMORY, Blob_new) else ret (NO_ERROR, MkBlob true (Some ptr) len)
  end.

(** [native_handle_create] of [libs/cutils/native_handle.c]: a block of words, of which the first three
    are the version and the two numbers.  The result of [malloc] is not looked at. *)
Definition native_handle_create (numFds numInts : Z) : op ptr :=
  k <- count_call ;;
  let n := u32 (sizeof_native_handle + u32 (4 * u32 (numFds + numInts))) / 4 in
  deref (c_store (c_malloc 32 n (heap_answer k)) 0 [sizeof_native_handle; u32 numFds; u32 numInts]).
(** [native_handle_close], of what [native_handle_create] has made: it closes [n] files, from [data[i]] on. *)
Fixpoint native_handle_close (n : nat) (i : Z) (h : ptr) : op unit :=
  match n with
  | O => ret tt
  | S n => l <- deref (c_load h (3 + i) 1) ;; w <- deref (head l) ;; event_ (Close (s32 w)) ;;; native_handle_close n (i + 1) h
  end.
(** The loop of [readNativeHandle] over the files. *)
Fixpoint read_handle_fds (n : nat) (i : Z) (h : ptr) : op ptr :=
  match n with
  | O => ret h
  | S n =>
      fd <- readFileDescriptor ;; fd' <- dup fd ;;
      h <- deref (c_store h (3 + i) [u32 fd']) ;;
      if bool_decide (fd' < 0) then ret h else read_handle_fds n (i + 1) h
  end.
(** The status of the loop is not kept: that of the integers replaces it.  The result
    is the block of the handle. *)
Definition readNativeHandle : op (option ptr) :=
  o <- readInt32_status ;;
  match o with
  | None => ret None
  | Some numFds =>
      o <- readInt32_status ;;
      match o with
      | None => ret None
      | Some numInts =>
          h <- native_handle_create numFds numInts ;;
          h <- read_handle_fds (Z.to_nat numFds) 0 h ;;
          r <- read (u32 (4 * numInts)) ;;
          if bool_decide (r.1 = NO_ERROR) then
            h <- deref (c_store h (3 + numFds) (words_of r.2)) ;; ret (Some h)
          else
            native_handle_close (Z.to_nat numFds) 0 h ;;; ret None
      end
  end.

(** [read] of a [Flattenable], whose [unflatten] gets the bytes and the files. *)
Definition read_flattenable {A} (unflatten : list Z → list Z → Z * A) : op (Z * option A) :=
  len <- readInt32 ;; let len := u32 len in
  fd_count <- readInt32 ;; let fd_count := u32 fd_count in
  buf <- readInplace (PAD_SIZE len) ;;
  match buf with
  | None => ret (BAD_VALUE, None)
  | Some off =>
      r <- read_fds (Z.to_nat fd_count) ;;
      if bool_decide (r.1 = NO_ERROR) then
        l <- load off len ;; let '(err, a) := unflatten l r.2 in ret (err, Some a)
      else ret (r.1, None)
  end.

(** *** Names of interfaces

    The policy is that of the calling thread ([IPCThreadState]). *)
Definition writeInterfaceToken (policy : Z) (interface : list Z) : op Z :=
  _ <- writeInt32 (s32 (Z.lor policy STRICT_MODE_PENALTY_GATHER)) ;; writeString16 (Some interface).
(** Whether it is the interface, and the policy the thread has from now on. *)
Definition enforceInterface (oneway : bool) (interface : list Z) : op (bool * Z) :=
  strictPolicy <- readInt32 ;;
  str <- readString16 ;;
  ret (bool_decide (str = interface), if oneway then 0 else strictPolicy).

(** ** Whole parcels *)

(** The data of another parcel, that the function behind [cookie] will take back. *)
Definition ipcSetDataReference (data : list Z) (objects : list Z) (cookie : Z) : op unit :=
  freeDataNoInit ;;;
  let dataSize := Z.of_nat (length data) in let objectsCount := Z.of_nat (length objects) in
  modify (set_mError NO_ERROR) ;;;
  modify (set_mData (Block data)) ;;; modify (set_mDataSize dataSize) ;;; modify (set_mDataCapacity dataSize) ;;;
  modify (set_mDataPos 0) ;;;
  modify (set_mObjects (Block objects)) ;;; modify (set_mObjectsSize objectsCount) ;;; modify (set_mObjectsCapacity objectsCount) ;;;
  modify (set_mNextObjectHint 0) ;;;
  modify (set_mOwner (Some cookie)) ;;;
  scanForFds.
Definition ipcDataSize : op Z := dataSize.

(** The loop of [appendFrom] that counts: the first and the last object in the range. *)
Fixpoint objects_in_range (objects : ptr) (offset len : Z) (n : nat) (i : Z) (range : Z * Z) : option (Z * Z) :=
  match n with
  | O => Some range
  | S n =>
      l ← c_load objects i 1; off ← head l;
      objects_in_range objects offset len n (i + 1)
        (if bool_decide (offset <= off ∧ off < u32 (offset + len)) then (if bool_decide (range.1 = -1) then i else range.1, i) else range)
  end.
(** The loop that appends and acquires [n] objects, from the one with number [i] on. *)
Fixpoint append_objects (objects : ptr) (offset startPos : Z) (n : nat) (i : Z) (err : Z) : op Z :=
  match n with
  | O => ret err
  | S n =>
      l <- deref (c_load objects i 1) ;; o <- deref (head l) ;;
      let off := u32 (u32 (o - offset) + startPos) in
      idx <- gets mObjectsSize ;;
      put_object idx off ;;;
      modify (set_mObjectsSize (idx + 1)) ;;;
      flat <- load_flat off ;;
      acquire_object flat ;;;
      err <- (if bool_decide (f_type flat = BINDER_TYPE_FD) then
          fd <- dup (handle flat) ;;
          store off (flat_bytes (Flat (f_type flat) (f_flags flat) (u32 fd) 1)) ;;;
          modify (set_mFdsKnown true) ;;; modify (set_mHasFds true) ;;;
          allow <- gets mAllowFds ;;
          ret (if allow : bool then err else FDS_NOT_ALLOWED)
        else ret err) ;;
      append_objects objects offset startPos n (i + 1) err
  end.
(** [appendFrom], of another parcel. *)
Definition appendFrom (parcel : parcel) (offset len : Z) : op Z :=
  startPos <- gets mDataPos ;;
  if bool_decide (len = 0) then ret NO_ERROR else
  if bool_decide (offset > mDataSize parcel ∨ len > mDataSize parcel ∨ u32 (offset + len) > mDataSize parcel) then ret BAD_VALUE else
  range <- deref (objects_in_range (mObjects parcel) offset len (Z.to_nat (mObjectsSize parcel)) 0 (-1, -2)) ;;
  let '(firstIndex, lastIndex) := range in
  let numObjects := lastIndex - firstIndex + 1 in
  p <- getst ;;
  err <- (if bool_decide (u32 (mDataSize p + len) > mDataCapacity p) then growData len else ret NO_ERROR) ;;
  if negb (bool_decide (err = NO_ERROR)) then ret err else
  l <- deref (c_load (mData parcel) offset len) ;;
  store_here l ;;;
  modify (λ p, set_mDataPos (u32 (mDataPos p + len)) p) ;;;
  modify (λ p, set_mDataSize (u32 (mDataSize p + len)) p) ;;;
  if bool_decide (numObjects > 0) then
    p <- getst ;;
    err <- (if bool_decide (mObjectsCapacity p < u32 (mObjectsSize p + numObjects))
            then grow_objects (u32 (u32 (mObjectsSize p + numObjects) * 3) / 2) else ret NO_ERROR) ;;
    if negb (bool_decide (err = NO_ERROR)) then ret err else
    append_objects (mObjects parcel) offset startPos (Z.to_nat numObjects) firstIndex NO_ERROR
  else ret NO_ERROR.

(** The destructor. *)
Definition Parcel_delete : op unit := freeDataNoInit.
End parcel.
