(* ===== verification/ParcelHold.v ===== *)
(** * What a parcel holds

    The state of a parcel that owns its blocks, in terms of the bytes and the objects
    written so far, and what the pieces of the writing operations of [Parcel] do to it. *)

From Stdlib Require Import ZArith Lia.
From stdpp Require Import base tactics numbers option list sets gmap.
From S2P Require Import Prelude Words CMemory BinderState BinderTxn BinderUser Parcel.

(** The lengths of lists are counted in [Z]. *)
Definition len {A} (l : list A) : Z := Z.of_nat (length l).

(** Lists all of whose cells are bytes, in parts. *)
Ltac bytes := repeat match goal with
  | H : Forall _ (_ ++ _) |- _ => apply Forall_app in H as [? ?]
  | |- Forall _ (_ ++ _) => apply Forall_app; split
  | |- Forall _ (drop _ _) => apply Forall_drop
  | |- Forall _ (take _ _) => apply Forall_take
  end; try done.

Lemma wp_eq {S A} (m m' : M S A) (Q : A → S → Prop) s : m s = m' s → wp m' Q s → wp m Q s.
Proof. unfold wp. by intros ->. Qed.

(** ** Pointers to lists of cells *)

Definition blk (p : ptr) (l : list Z) : Prop := p = Block l ∨ p = NULL ∧ l = [].

Section blk.
Implicit Types d r v : list Z.

Lemma blk_block l : blk (Block l) l.
Proof. by left. Qed.
Lemma blk_null : blk NULL [].
Proof. by right. Qed.

(** A store in the middle of the cells. *)
Lemma blk_store p d x r v : blk p (d ++ x ++ r) → length v = length x →
  ∃ p', c_store p (len d) v = Some p' ∧ blk p' (d ++ v ++ r).
Proof.
  intros [->|[-> E]] Hl.
  - rewrite c_store_block by (unfold len; rewrite ?length_app; lia). eexists. split; [done|]. left. f_equal.
    unfold len. rewrite Nat2Z.id, take_app_length. do 2 f_equal.
    by rewrite app_assoc, drop_app_length' by (rewrite length_app; lia).
  - apply app_nil in E as [-> E]. apply app_nil in E as [-> ->]. apply nil_length_inv in Hl as ->.
    exists NULL. split; [done|by right].
Qed.
Lemma blk_load p d x r n : blk p (d ++ x ++ r) → n = len x → c_load p (len d) n = Some x.
Proof.
  intros Hb ->. destruct (decide (x = [])) as [->|Hx]; [done|]. destruct Hb as [->|[_ E]].
  - rewrite c_load_block by (unfold len; rewrite ?length_app; lia). f_equal.
    unfold len. by rewrite !Nat2Z.id, drop_app_length, take_app_length.
  - by apply app_nil in E as [_ [-> _]%app_nil].
Qed.
(** Cells behind the end of what is used. *)
Lemma blk_store_end p d r v : blk p (d ++ r) → len v ≤ len r →
  ∃ p', c_store p (len d) v = Some p' ∧ blk p' (d ++ v ++ drop (length v) r).
Proof.
  intros Hb Hl. apply (blk_store p d (take (length v) r)); [by rewrite take_drop|].
  unfold len in Hl. rewrite length_take. lia.
Qed.
Lemma blk_free p l : blk p l → ∃ p', c_free p = Some p'.
Proof. intros [->|[-> _]]; cbn; eauto. Qed.
Lemma blk_null_inv p l : blk p l → ptr_null p = true → p = NULL ∧ l = [].
Proof. intros [->|[-> ->]]; done. Qed.
Lemma blk_block_inv p l : blk p l → ptr_null p = false → p = Block l.
Proof. intros [->|[-> ->]]; done. Qed.

(** [realloc] to more cells keeps those there are. *)
Lemma blk_realloc w p d r n answer : blk p (d ++ r) → len (d ++ r) ≤ n → 0 < n → 0 ≤ w →
  Forall (λ x, 0 ≤ x < 2 ^ w) (d ++ r) →
  (∃ new r', c_realloc w n answer p = Some (Block new, if ptr_null p then NULL else Freed) ∧
     new = d ++ r' ∧ len (d ++ r') = n ∧ Forall (λ x, 0 ≤ x < 2 ^ w) (d ++ r')) ∨
  (answer = None ∧ c_realloc w n answer p = Some (NULL, p)).
Proof.
  unfold len. intros Hb Hn H0 Hw Hf. destruct answer as [junk|]; [left|right]; (split; [done|]) || idtac.
  - destruct Hb as [->|[-> E]].
    + exists (take (Z.to_nat n) (d ++ r) ++ drop (length (d ++ r)) (fresh_cells w junk n)).
      exists (r ++ drop (length (d ++ r)) (fresh_cells w junk n)). cbn [c_realloc ptr_null]. rewrite bool_decide_false by lia.
      assert (take (Z.to_nat n) (d ++ r) = d ++ r) as Et by (apply take_ge; lia). rewrite app_assoc.
      split; [done|]. split; [by rewrite Et|]. rewrite <-Et at 1 3. split; [apply realloc_length; lia|by apply realloc_range].
    + apply app_nil in E as [-> ->]. exists (fresh_cells w junk n), (fresh_cells w junk n). cbn [c_realloc c_malloc ptr_null app].
      split; [done|]. split; [done|]. split; [apply fresh_cells_length; lia|by apply fresh_cells_range].
  - destruct Hb as [->|[-> _]]; cbn [c_realloc c_malloc]; [|done]. by rewrite bool_decide_false by lia.
Qed.
End blk.

(** ** The state *)

(** Bytes, places of the objects, events so far, the error kept, and whether files may
    be written. *)
Record held := Held { a_data : list Z; a_objs : list Z; a_trace : list event; a_err : Z; a_allow : bool }.

Ltac pj := cbn [mError mData mDataSize mDataCapacity mDataPos mObjects mObjectsSize mObjectsCapacity mNextObjectHint
  mFdsKnown mHasFds mAllowFds mOwner calls trace set_mError set_mData set_mDataSize set_mDataCapacity set_mDataPos
  set_mObjects set_mObjectsSize set_mObjectsCapacity set_mNextObjectHint set_mFdsKnown set_mHasFds set_mAllowFds
  set_mOwner set_calls set_trace a_data a_objs a_trace a_err a_allow] in *.

Record holds (p : parcel) (a : held) : Prop := {
  h_owner : mOwner p = None;
  h_data : ∃ r, blk (mData p) (a_data a ++ r) ∧ mDataCapacity p = len (a_data a ++ r) ∧ Forall is_byte (a_data a ++ r);
  h_capacity : mDataCapacity p < 2 ^ 32;
  h_size : mDataSize p = len (a_data a);
  h_pos : mDataPos p = len (a_data a);
  h_objs : ∃ r, blk (mObjects p) (a_objs a ++ r) ∧ mObjectsCapacity p = len (a_objs a ++ r) ∧ Forall is_word (a_objs a ++ r);
  h_objs_size : mObjectsSize p = len (a_objs a);
  h_trace : trace p = a_trace a;
  h_err : mError p = a_err a;
  h_allow : mAllowFds p = a_allow a
}.
(** With [n] more bytes in the block, or [n] more objects in the list. *)
Definition room (p : parcel) (a : held) (n : Z) : Prop := holds p a ∧ len (a_data a) + n ≤ mDataCapacity p.

Lemma parcel_init_holds calls trace : holds (parcel_init calls trace) (Held [] [] trace NO_ERROR true).
Proof. split; try done; exists []; (split; [by right|done]). Qed.

(** ** Room for more *)

Lemma u32_sum x y : 0 ≤ x → 0 ≤ y → x + y < 2 ^ 32 → u32 (x + y) = x + y.
Proof. intros. apply u32_small. lia. Qed.
Lemma len_nonneg {A} (l : list A) : 0 ≤ len l.
Proof. unfold len. lia. Qed.
Lemma len_app {A} (l k : list A) : len (l ++ k) = len l + len k.
Proof. unfold len. rewrite length_app. lia. Qed.

(** The most that a parcel is taken to hold: growth by a half does not wrap below. *)
Definition PARCEL_MAX : Z := 2 ^ 30.

Section holds.
Context {E : Env}.

Definition out_of_memory : Prop := ∃ k, heap_answer k = None.
Definition failed (a : held) : held := Held (a_data a) (a_objs a) (a_trace a) NO_MEMORY (a_allow a).

Lemma no_memory_holds p a : holds p a → out_of_memory →
  wp no_memory (λ err p', err = NO_MEMORY ∧ out_of_memory ∧ holds p' (failed a)) p.
Proof. intros Hh Ho. unfold no_memory. wp_steps. split_and!; [done..|]. destruct Hh. by split. Qed.

(** The block grows, or the parcel is left as it is. *)
Lemma continueWrite_grows p a n : holds p a → mDataCapacity p < n → n < 2 ^ 32 →
  wp (continueWrite n) (λ err p',
    err = NO_ERROR ∧ holds p' a ∧ mDataCapacity p' = n ∧ mObjectsCapacity p' = mObjectsCapacity p ∨
    err = NO_MEMORY ∧ out_of_memory ∧ holds p' (failed a)) p.
Proof.
  intros Hh Hn Hmax. pose proof Hh as [Ho (r & Hb & Hc & Hf) Hlt Hs Hp _ _ _ _ _].
  pose proof (len_nonneg (a_data a)). pose proof (len_nonneg r). rewrite len_app in Hc.
  unfold continueWrite. wp_steps. rewrite bool_decide_false by lia. wp_steps. rewrite Ho.
  destruct (ptr_null (mData p)) eqn:En.
  - apply (blk_null_inv _ _ Hb) in En as [En [Ed ->]%app_nil].
    unfold continueWrite_first, count_call. wp_steps. destruct (heap_answer (calls p)) as [junk|] eqn:Ea; cbn [c_malloc].
    + wp_steps. left. split; [done|]. destruct Hh. split; [|done]. split; pj; try done; try (rewrite ?Ed; done).
      exists (fresh_cells 8 junk n). rewrite Ed. cbn [app].
      split; [by left|]. split; [unfold len; rewrite fresh_cells_length; lia|by apply fresh_cells_range].
    + eapply wp_mono; [apply (no_memory_holds _ a); [destruct Hh; by split|by eexists]|]. by right.
  - pose proof (blk_block_inv _ _ Hb En) as Eb.
    unfold continueWrite_own. wp_steps. rewrite (bool_decide_false (_ < _)) by lia. wp_steps.
    rewrite bool_decide_true by lia. unfold realloc_data, count_call. wp_steps. pj.
    destruct (blk_realloc 8 (mData p) (a_data a) r n (heap_answer (calls p))) as [(new & r' & Er & -> & Hl & Hf')|[Ea Er]];
      [done|rewrite len_app; lia|lia|lia|done| |].
    + eapply wp_deref; [exact Er|]. cbn [ptr_null negb]. wp_steps. left. split; [done|]. split; [|done].
      destruct Hh; split; pj; try done. exists r'. split; [by left|]. done.
    + eapply wp_deref; [exact Er|]. cbn [ptr_null negb]. wp_steps.
      eapply wp_mono; [apply (no_memory_holds _ a); [destruct Hh; by split|by eexists]|]. by right.
Qed.

Lemma growData_grows p a n : holds p a → 0 < n → len (a_data a) + n ≤ PARCEL_MAX → mDataCapacity p < len (a_data a) + n →
  wp (growData n) (λ err p',
    err = NO_ERROR ∧ room p' a n ∧ mObjectsCapacity p' = mObjectsCapacity p ∨ err = NO_MEMORY ∧ out_of_memory ∧ holds p' (failed a)) p.
Proof.
  unfold PARCEL_MAX. intros Hh Hn Hmax Hc. unfold growData. wp_steps. rewrite (h_size _ _ Hh). pose proof (len_nonneg (a_data a)).
  rewrite (u32_small (_ + n)) by lia. rewrite u32_small by lia.
  assert (len (a_data a) + n ≤ (len (a_data a) + n) * 3 / 2 < 2 ^ 32) by (Z.to_euclidean_division_equations; lia).
  rewrite bool_decide_false by lia.
  eapply wp_mono; [apply (continueWrite_grows _ a); [done|lia|lia]|]. cbv beta. intros err p' [(-> & Hh' & Hc' & ?)|?]; [left|by right].
  split; [done|]. split; [split; [done|lia]|done].
Qed.

(** The test of the writing operations, and the growth. *)
Lemma ensure_room p a n : holds p a → 0 ≤ n → len (a_data a) + n ≤ PARCEL_MAX →
  wp (if bool_decide (u32 (mDataPos p + n) <= mDataCapacity p) then ret NO_ERROR else growData n) (λ err p',
    err = NO_ERROR ∧ room p' a n ∧ mObjectsCapacity p' = mObjectsCapacity p ∨ err = NO_MEMORY ∧ out_of_memory ∧ holds p' (failed a)) p.
Proof.
  intros Hh Hn Hmax. pose proof Hmax. unfold PARCEL_MAX in Hmax. pose proof (len_nonneg (a_data a)).
  pose proof Hh as [_ (r & _ & Hc & _) _ _ Hp _ _ _ _ _]. rewrite len_app in Hc. pose proof (len_nonneg r).
  rewrite Hp, u32_small by lia. destruct (bool_decide_reflect (len (a_data a) + n <= mDataCapacity p)).
  - wp_steps. left. done.
  - apply growData_grows; [done|lia|done|lia].
Qed.
(** ** Bytes at the end *)

Definition add_bytes (a : held) (v : list Z) : held := Held (a_data a ++ v) (a_objs a) (a_trace a) (a_err a) (a_allow a).

Lemma finishWrite_holds p a r n d : mDataPos p = len (a_data a) → mDataSize p = len (a_data a) →
  holds (set_mDataPos (len d) (set_mDataSize (len d) p)) (Held d r (a_trace a) (a_err a) (a_allow a)) →
  len d = len (a_data a) + n → 0 ≤ n → len d < 2 ^ 32 →
  wp (finishWrite n) (λ err p', err = NO_ERROR ∧ holds p' (Held d r (a_trace a) (a_err a) (a_allow a))) p.
Proof.
  intros Hp Hs Hh Hd Hn Hm. unfold finishWrite. wp_steps. pj. pose proof (len_nonneg (a_data a)).
  rewrite Hp, Hs, u32_small by lia. replace (len (a_data a) + n) with (len d) by lia.
  destruct (bool_decide_reflect (len d > len (a_data a))); wp_steps; (split; [done|]).
  - destruct Hh. split; done.
  - assert (n = 0) as -> by lia. destruct Hh. split; pj; try done. lia.
Qed.

Lemma append_bytes p a v : room p a (len v) → Forall is_byte v →
  wp (store_here v ;;; finishWrite (len v)) (λ err p', err = NO_ERROR ∧ holds p' (add_bytes a v)) p.
Proof.
  intros [Hh Hc] Hv. pose proof Hh as [_ (r & Hb & Hcap & Hf) Hlt Hs Hp _ _ _ _ _]. rewrite len_app in Hcap.
  unfold store_here, store. wp_steps. rewrite Hp.
  destruct (blk_store_end _ _ _ v Hb) as (q & Es & Hb'); [lia|]. eapply wp_deref; [exact Es|]. wp_steps.
  apply (finishWrite_holds _ a _ (len v)); pj; try done; try (rewrite len_app; lia); try apply len_nonneg.
  destruct Hh. split; pj; try done. exists (drop (length v) r). rewrite <-app_assoc. split; [done|].
  apply Forall_app in Hf as [? ?]. split; [|by repeat (apply Forall_app; split); [..|apply Forall_drop]].
  rewrite !len_app. unfold len in *. rewrite length_drop. lia.
Qed.

(** ** Outcomes of writing

    Either all of [a'] is there, or there was no memory, and the parcel holds what it
    held, with the same objects, and maybe some more bytes. *)
Definition extends (a a' : held) : Prop :=
  a_data a `prefix_of` a_data a' ∧ a_objs a' = a_objs a ∧ a_trace a' = a_trace a ∧ a_allow a' = a_allow a.
#[global] Instance extends_pre : PreOrder extends.
Proof.
  split; [done|]. intros a b c (? & ? & ? & ?) (? & ? & ? & ?). unfold extends. split_and!; [by etrans|congruence..].
Qed.
Definition outcome (a a' : held) (err : Z) (p' : parcel) : Prop :=
  err = NO_ERROR ∧ holds p' a' ∨
  err = NO_MEMORY ∧ out_of_memory ∧ ∃ b, holds p' b ∧ extends a b.

Lemma extends_failed a : extends a (failed a).
Proof. done. Qed.
Lemma extends_bytes a v : extends a (add_bytes a v).
Proof. split_and!; try done. by apply prefix_app_r. Qed.
Lemma outcome_fail a a' p : out_of_memory → holds p (failed a) → outcome a a' NO_MEMORY p.
Proof. intros ? Hh. right. split_and!; [done..|]. by exists (failed a). Qed.
(** A failure behind other writes. *)
Lemma outcome_extends a b c err p : extends a b → outcome b c err p → outcome a c err p.
Proof.
  intros Hab [[-> Hh]|(-> & Ho & d & Hh & Hd)]; [by left|right]. split_and!; [done..|].
  exists d. split; [done|]. by etrans.
Qed.

Lemma writeAligned_outcome p a v : holds p a → Forall is_byte v → len (a_data a) + len v ≤ PARCEL_MAX →
  wp (writeAligned v) (outcome a (add_bytes a v)) p.
Proof.
  intros Hh Hv Hm. unfold writeAligned. wp_steps. fold (len v).
  eapply wp_mono; [apply (ensure_room _ a); [done|apply len_nonneg|done]|].
  cbv beta. intros err p' [(-> & Hr & _)|(-> & Ho & Hh')].
  - rewrite bool_decide_true by done. eapply wp_mono; [by apply append_bytes|]. cbv beta. intros ? ? [-> ?]. by left.
  - rewrite bool_decide_false by done. wp_steps. by apply outcome_fail.
Qed.

(** ** Padding *)

Lemma PAD_SIZE_spec n : 0 ≤ n ≤ 2 ^ 32 - 4 → n ≤ PAD_SIZE n < n + 4 ∧ PAD_SIZE n mod 4 = 0.
Proof.
  intros Hn. pose proof (ALIGN4_spec n ltac:(lia)) as Ha. rewrite decide_True in Ha by lia.
  change (PAD_SIZE n) with (ALIGN n 4). rewrite Ha. clear Ha. Z.to_euclidean_division_equations; lia.
Qed.
Lemma PAD_SIZE_same n : 0 ≤ n ≤ 2 ^ 32 - 4 → n mod 4 = 0 → PAD_SIZE n = n.
Proof. intros Hn Hm. pose proof (PAD_SIZE_spec n Hn). Z.to_euclidean_division_equations; lia. Qed.

(** The mask clears the last [k] bytes of a word and keeps the others. *)
Lemma pad_mask_spec k b0 b1 b2 b3 : 0 < k < 4 → Forall is_byte [b0; b1; b2; b3] →
  word_bytes (Z.land (word b0 b1 b2 b3) (pad_mask k)) = take (Z.to_nat (4 - k)) [b0; b1; b2; b3] ++ replicate (Z.to_nat k) 0.
Proof.
  intros Hk Hb. rewrite !Forall_cons in Hb. destruct Hb as (H0 & H1 & H2 & H3 & _). unfold is_byte, word in *.
  assert (k = 1 ∨ k = 2 ∨ k = 3) as [->|[->| ->]] by lia;
    change (pad_mask 1) with (2 ^ 24 - 1); change (pad_mask 2) with (2 ^ 16 - 1); change (pad_mask 3) with (2 ^ 8 - 1);
    rewrite land_ones_mod by lia; unfold word_bytes; cbn [take replicate app Z.to_nat Z.sub Z.add Z.opp Z.pos_sub Pos.to_nat];
    simpl take; simpl replicate; cbn [app]; repeat f_equal; Z.to_euclidean_division_equations; lia.
Qed.

(** Four bytes are a word. *)
Lemma four_bytes (w : list Z) : length w = 4%nat → ∃ b0 b1 b2 b3, w = [b0; b1; b2; b3].
Proof. destruct w as [|b0 [|b1 [|b2 [|b3 [|]]]]]; try done. eauto. Qed.
Lemma word_bytes_byte w : Forall is_byte (word_bytes w).
Proof. unfold word_bytes, is_byte. repeat constructor; apply Z.mod_pos_bound; lia. Qed.

Lemma pad_step p a n r : 0 ≤ n ≤ PARCEL_MAX → mDataPos p = len (a_data a) →
  blk (mData p) (a_data a ++ r) → Forall is_byte (a_data a ++ r) → PAD_SIZE n ≤ len r → len (a_data a ++ r) < 2 ^ 32 →
  wp (when bool_decide (PAD_SIZE n ≠ n) do
      (let at_ := u32 (mDataPos p + PAD_SIZE n - 4) in
       l <- load at_ 4 ;; w <- deref (head (words_of l)) ;;
       store at_ (word_bytes (Z.land w (pad_mask (PAD_SIZE n - n))))))
    (λ _ p', ∃ m j r', p' = set_mData m p ∧ blk m (a_data a ++ j ++ r') ∧ length (j ++ r') = length r ∧
       Forall is_byte (j ++ r') ∧ len j = PAD_SIZE n ∧ drop (Z.to_nat n) j = replicate (Z.to_nat (PAD_SIZE n - n)) 0) p.
Proof.
  unfold PARCEL_MAX. intros Hn Hp Hb Hf Hr Hl. pose proof (PAD_SIZE_spec n ltac:(lia)) as [Hpad Hmod].
  assert (Forall is_byte r) as Hfr by (by apply Forall_app in Hf as [_ ?]).
  set (k := PAD_SIZE n) in *. destruct (bool_decide_reflect (k ≠ n)) as [Hne|Heq].
  2:{ wp_steps. exists (mData p), (take (Z.to_nat k) r), (drop (Z.to_nat k) r). rewrite take_drop.
      unfold len in *. rewrite length_take. split_and!; [by destruct p|done..|lia|].
      rewrite drop_ge by (rewrite length_take; lia). by replace (Z.to_nat (k - n)) with 0%nat by lia. }
  assert (4 ≤ k) by (Z.to_euclidean_division_equations; lia).
  set (x := take (Z.to_nat (k - 4)) r). set (w := take 4 (drop (Z.to_nat (k - 4)) r)). set (y := drop (Z.to_nat k) r).
  assert (len x = k - 4) as Hx by (unfold len in *; unfold x; rewrite length_take; lia).
  assert (length w = 4%nat) as Hw by (unfold len in *; unfold w; rewrite length_take, length_drop; lia).
  assert (r = x ++ w ++ y) as Er.
  { unfold x, w, y. replace (Z.to_nat k) with (Z.to_nat (k - 4) + 4)%nat by lia. by rewrite <-drop_drop, !take_drop. }
  clearbody x w y. rewrite len_app in Hl. pose proof (len_nonneg (a_data a)).
  rewrite Hp, u32_small by lia. replace (len (a_data a) + k - 4) with (len (a_data a ++ x)) by (rewrite len_app; lia).
  rewrite Er, app_assoc in Hb. destruct (four_bytes w Hw) as (b0 & b1 & b2 & b3 & ->).
  unfold load. wp_steps. eapply wp_deref; [eapply blk_load; [exact Hb|done]|]. wp_steps.
  eapply wp_deref; [done|]. unfold store. wp_steps.
  assert (Forall is_byte [b0; b1; b2; b3]) as Hbw by (rewrite Er in Hfr; by apply Forall_app in Hfr as [_ [? _]%Forall_app]).
  rewrite pad_mask_spec by (done || lia). set (w' := take _ _ ++ _).
  assert (length w' = 4%nat) as Hw' by (unfold w'; rewrite length_app, length_take, length_replicate; simpl; lia).
  destruct (blk_store _ _ _ _ w' Hb) as (m & Es & Hm); [done|]. eapply wp_deref; [exact Es|]. wp_steps.
  exists m, (x ++ w'), y. rewrite <-!app_assoc in *. split_and!; [done|done| | | |].
  - by rewrite Er, !length_app, Hw', Hw.
  - rewrite Er in Hfr. apply Forall_app in Hfr as [? [? ?]%Forall_app]. repeat (apply Forall_app; split); try done.
    + by apply Forall_take.
    + apply Forall_replicate. unfold is_byte. lia.
  - rewrite len_app. unfold len in *. lia.
  - unfold len in Hx. rewrite drop_app_ge by lia. unfold w'. rewrite drop_app_length'; [done|].
    rewrite length_take. simpl. lia.
Qed.

Lemma writeInplace_here_spec p a n : 0 ≤ n ≤ PARCEL_MAX → room p a (PAD_SIZE n) →
  wp (writeInplace_here n (PAD_SIZE n)) (λ o p', ∃ j, holds p' (add_bytes a j) ∧ len j = PAD_SIZE n ∧ Forall is_byte j ∧
    drop (Z.to_nat n) j = replicate (Z.to_nat (PAD_SIZE n - n)) 0 ∧ (o = Some (len (a_data a)) ∨ o = None ∧ n = 0)) p.
Proof.
  intros Hn [Hh Hc]. pose proof Hh as [_ (r & Hb & Hcap & Hf) Hlt Hs Hp _ _ _ _ _]. pose proof Hn. unfold PARCEL_MAX in Hn.
  unfold writeInplace_here. wp_steps.
  eapply wp_mono; [apply (pad_step p a n r); try done; rewrite ?Hcap in Hc; rewrite ?len_app in *; lia|].
  cbv beta. intros _ p' (m & j & r' & -> & Hm & Hl & Hfj & Hj & Hz). wp_steps.
  pose proof (PAD_SIZE_spec n ltac:(lia)). apply Forall_app in Hf as [Hfd Hfr].
  assert (len (j ++ r') = len r) as Hlr by (unfold len; lia). rewrite !len_app in *.
  eapply wp_mono; [apply (finishWrite_holds _ a (a_objs a) (PAD_SIZE n) (a_data a ++ j)); pj; rewrite ?len_app; try done; try lia|].
  - destruct Hh. split; pj; rewrite ?len_app; try done. exists r'. rewrite <-app_assoc. split; [done|].
    split; [rewrite !len_app; lia|by apply Forall_app].
  - cbv beta. intros _ p' [_ Hh']. wp_steps. exists j. split; [done|]. split_and!; try done.
    { by apply Forall_app in Hfj as [? ?]. }
    unfold ptr_sum_null. rewrite Hp. destruct (ptr_null (mData p)) eqn:En; [|by left]. cbn [andb].
    destruct (bool_decide_reflect (len (a_data a) = 0)) as [E0|]; [|by left].
    right. split; [done|]. apply (blk_null_inv _ _ Hb) in En as [_ [_ ->]%app_nil].
    change (len []) with 0 in *. lia.
Qed.

Lemma writeInplace_spec p a n : 0 ≤ n ≤ PARCEL_MAX → holds p a → len (a_data a) + PAD_SIZE n ≤ PARCEL_MAX →
  wp (writeInplace n) (λ o p',
    (∃ j, holds p' (add_bytes a j) ∧ len j = PAD_SIZE n ∧ Forall is_byte j ∧
      drop (Z.to_nat n) j = replicate (Z.to_nat (PAD_SIZE n - n)) 0 ∧ (o = Some (len (a_data a)) ∨ o = None ∧ n = 0)) ∨
    (o = None ∧ out_of_memory ∧ holds p' (failed a))) p.
Proof.
  intros Hn Hh Hm. pose proof (len_nonneg (a_data a)). pose proof Hm. unfold PARCEL_MAX in Hm, Hn.
  pose proof (PAD_SIZE_spec n ltac:(lia)).
  unfold writeInplace. wp_steps. rewrite (h_pos _ _ Hh), u32_small by lia. rewrite bool_decide_false by lia.
  destruct (bool_decide_reflect (len (a_data a) + PAD_SIZE n <= mDataCapacity p)).
  - eapply wp_mono; [by apply (writeInplace_here_spec _ a)|]. cbv beta. intros ? ? ?. by left.
  - pose proof Hh as [_ (r & _ & Hc & _) _ _ _ _ _ _ _ _]. rewrite len_app in Hc. pose proof (len_nonneg r).
    wp_steps. eapply wp_mono; [apply (growData_grows _ a); try done; lia|].
    cbv beta. intros err p' [(-> & Hr & _)|(-> & Ho & Hh')].
    + rewrite bool_decide_true by done. eapply wp_mono; [by apply (writeInplace_here_spec _ a)|]. cbv beta. intros ? ? ?. by left.
    + rewrite bool_decide_false by done. wp_steps. right. done.
Qed.
End holds.
