(* ===== verification/ParcelRead.v ===== *)
(** * Reading a parcel

    What each reading operation of [Parcel] returns on any bytes, whether they are as
    they should be or not, and where it leaves the position; the search for an object. *)

From Stdlib Require Import ZArith Lia.
From stdpp Require Import base tactics numbers option list sets gmap sorting.
From S2P Require Import Prelude Words CMemory BinderState BinderTxn BinderUser Parcel ParcelHold.

(** A parcel that is read: its bytes and objects, what has happened so far and who owns
    it, and the position, which may be at the end but not behind it. *)
Record reads (p : parcel) (d os : list Z) (tr : list event * option Z) (pos : Z) : Prop := {
  r_data : ∃ r, blk (mData p) (d ++ r);
  r_bytes : Forall is_byte d;
  r_max : len d ≤ PARCEL_MAX;
  r_size : mDataSize p = len d;
  r_pos : mDataPos p = pos;
  r_in : 0 ≤ pos ≤ len d;
  r_objs : ∃ r, blk (mObjects p) (os ++ r);
  r_objs_size : mObjectsSize p = len os;
  r_objs_max : len os ≤ PARCEL_MAX;
  r_hint : 0 ≤ mNextObjectHint p;
  r_trace : (trace p, mOwner p) = tr
}.

(** The [n] bytes from [pos] on. *)
Definition at_ (d : list Z) (pos n : Z) : list Z := take (Z.to_nat n) (drop (Z.to_nat pos) d).

Lemma at_split d pos n : 0 ≤ pos → 0 ≤ n → pos + n ≤ len d →
  ∃ d1 d2, d = d1 ++ at_ d pos n ++ d2 ∧ len d1 = pos ∧ len (at_ d pos n) = n.
Proof.
  unfold len, at_. intros. exists (take (Z.to_nat pos) d), (drop (Z.to_nat n) (drop (Z.to_nat pos) d)).
  rewrite !length_take, length_drop, !take_drop. split_and!; lia || done.
Qed.
Lemma at_app d1 v d2 : at_ (d1 ++ v ++ d2) (len d1) (len v) = v.
Proof. unfold at_, len. by rewrite !Nat2Z.id, drop_app_length, take_app_length. Qed.
Lemma at_bytes d pos n : Forall is_byte d → Forall is_byte (at_ d pos n).
Proof. intros. by apply Forall_take, Forall_drop. Qed.
Lemma at_len d pos n : 0 ≤ pos → 0 ≤ n → pos + n ≤ len d → len (at_ d pos n) = n.
Proof. intros H1 H2 H3. by destruct (at_split d pos n H1 H2 H3) as (? & ? & _ & _ & ?). Qed.
Lemma at_take d pos n m : 0 ≤ m ≤ n → take (Z.to_nat m) (at_ d pos n) = at_ d pos m.
Proof. intros. unfold at_. rewrite take_take. f_equal. lia. Qed.

Section reads.
Context {E : Env}.
Implicit Types (p : parcel) (d os : list Z).

Lemma reads_pos p d os tr pos pos' : reads p d os tr pos → 0 ≤ pos' ≤ len d →
  reads (set_mDataPos pos' p) d os tr pos'.
Proof. intros [] ?. split; pj; done. Qed.
Lemma reads_hint p d os tr pos h : reads p d os tr pos → 0 ≤ h → reads (set_mNextObjectHint h p) d os tr pos.
Proof. intros [] ?. split; pj; done. Qed.

Lemma load_reads p d os tr pos off n (Q : list Z → parcel → Prop) : reads p d os tr pos → 0 ≤ off → 0 ≤ n → off + n ≤ len d →
  Q (at_ d off n) p → wp (load off n) Q p.
Proof.
  intros [[r Hb]] H1 H2 H3 HQ. destruct (at_split d off n H1 H2 H3) as (d1 & d2 & Ed & Hd1 & Hl).
  unfold load. wp_steps. eapply wp_deref; [|exact HQ]. rewrite Ed in Hb. rewrite <-!app_assoc in Hb. subst off.
  by eapply blk_load; [exact Hb|].
Qed.

(** ** Values *)

Lemma readAligned_spec p d os tr pos n : reads p d os tr pos → 0 < n ≤ 16 →
  wp (readAligned n) (λ o p',
    if decide (pos + n ≤ len d) then o = Some (at_ d pos n) ∧ reads p' d os tr (pos + n) else o = None ∧ p' = p) p.
Proof.
  intros Hr Hn. pose proof Hr as [_ _ Hm Hs Hp Hin _ _ _ _ _]. unfold PARCEL_MAX in Hm.
  unfold readAligned. wp_steps. rewrite Hp, Hs, u32_small by lia. case_decide.
  - rewrite bool_decide_true by lia. wp_steps. eapply (load_reads _ d os tr (pos + n)); [apply (reads_pos p _ _ _ pos); [done|lia]|lia..|].
    wp_steps. split; [done|]. apply (reads_pos p _ _ _ pos); [done|lia].
  - rewrite bool_decide_false by lia. by wp_steps.
Qed.

(** The word and the long word at a place. *)
Definition word_at (d : list Z) (pos : Z) : Z := default 0 (head (words_of (at_ d pos 4))).
Definition long_at (d : list Z) (pos : Z) : Z := word_at d pos + word_at d (pos + 4) * 2 ^ 32.

Lemma word_at_words d pos : 0 ≤ pos → pos + 4 ≤ len d → words_of (at_ d pos 4) = [word_at d pos].
Proof.
  intros. pose proof (at_len d pos 4 ltac:(lia) ltac:(lia) ltac:(lia)) as Hl. unfold word_at, len in *.
  destruct (four_bytes (at_ d pos 4)) as (? & ? & ? & ? & ->); [lia|done].
Qed.
Lemma long_at_words d pos : 0 ≤ pos → pos + 8 ≤ len d → words_of (at_ d pos 8) = [word_at d pos; word_at d (pos + 4)].
Proof.
  intros. assert (at_ d pos 8 = at_ d pos 4 ++ at_ d (pos + 4) 4) as ->.
  { unfold at_. rewrite Z2Nat.inj_add, <-drop_drop by lia. symmetry. apply take_take_drop. }
  pose proof (at_len d pos 4 ltac:(lia) ltac:(lia) ltac:(lia)) as Hl. unfold len in Hl.
  pose proof (word_at_words d pos) as H1. pose proof (word_at_words d (pos + 4)) as H2.
  destruct (four_bytes (at_ d pos 4)) as (b0 & b1 & b2 & b3 & Eb); [lia|]. rewrite Eb in *.
  change (words_of ([b0; b1; b2; b3] ++ at_ d (pos + 4) 4)) with (word b0 b1 b2 b3 :: words_of (at_ d (pos + 4) 4)).
  rewrite H2 by lia. specialize (H1 ltac:(lia) ltac:(lia)). cbn [words_of] in H1. by injection H1 as ->.
Qed.

Lemma read_word_spec p d os tr pos : reads p d os tr pos →
  wp read_word (λ o p',
    if decide (pos + 4 ≤ len d) then o = Some (word_at d pos) ∧ reads p' d os tr (pos + 4) else o = None ∧ p' = p) p.
Proof.
  intros Hr. unfold read_word. wp_steps. eapply wp_mono; [by apply (readAligned_spec p d os tr pos 4)|].
  cbv beta. intros o p'. pose proof (r_in _ _ _ _ _ Hr). case_decide.
  - intros [-> Hr']. wp_steps. rewrite word_at_words by lia. eapply wp_deref; [done|]. by wp_steps.
  - intros [-> ->]. by wp_steps.
Qed.
Lemma read_long_spec p d os tr pos : reads p d os tr pos →
  wp read_long (λ o p',
    if decide (pos + 8 ≤ len d) then o = Some (long_at d pos) ∧ reads p' d os tr (pos + 8) else o = None ∧ p' = p) p.
Proof.
  intros Hr. unfold read_long. wp_steps. eapply wp_mono; [by apply (readAligned_spec p d os tr pos 8)|].
  cbv beta. intros o p'. pose proof (r_in _ _ _ _ _ Hr). case_decide.
  - intros [-> Hr']. rewrite long_at_words by lia. by wp_steps.
  - intros [-> ->]. by wp_steps.
Qed.
(** The forms with a status, and with 0 for what is missing. *)
Definition read_some (p : parcel) (c : bool) (x : Z) (R : parcel → Prop) (o : option Z) (p' : parcel) : Prop :=
  if c then o = Some x ∧ R p' else o = None ∧ p' = p.
Definition read_or_0 (p : parcel) (c : bool) (x : Z) (R : parcel → Prop) (v : Z) (p' : parcel) : Prop :=
  if c then v = x ∧ R p' else v = 0 ∧ p' = p.
Lemma read_map (f : Z → Z) m p c x R : wp m (read_some p c x R) p → wp (o <- m ;; ret (f <$> o)) (read_some p c (f x) R) p.
Proof. intros Hm. wp_steps. eapply wp_mono; [exact Hm|]. unfold read_some. intros o p'. destruct c; intros [-> ?]; by wp_steps. Qed.
Lemma read_default m p c x R : wp m (read_some p c x R) p → wp (o <- m ;; ret (default 0 o)) (read_or_0 p c x R) p.
Proof. intros Hm. wp_steps. eapply wp_mono; [exact Hm|]. unfold read_some, read_or_0. intros o p'. destruct c; intros [-> ?]; by wp_steps. Qed.

Lemma read_word_some p d os tr pos : reads p d os tr pos →
  wp read_word (read_some p (bool_decide (pos + 4 ≤ len d)) (word_at d pos) (λ p', reads p' d os tr (pos + 4))) p.
Proof.
  intros Hr. eapply wp_mono; [by apply (read_word_spec p d os tr pos)|]. cbv beta. unfold read_some. intros o p'.
  destruct (bool_decide_reflect (pos + 4 ≤ len d)); [by rewrite decide_True by done|by rewrite decide_False by done].
Qed.
Lemma read_long_some p d os tr pos : reads p d os tr pos →
  wp read_long (read_some p (bool_decide (pos + 8 ≤ len d)) (long_at d pos) (λ p', reads p' d os tr (pos + 8))) p.
Proof.
  intros Hr. eapply wp_mono; [by apply (read_long_spec p d os tr pos)|]. cbv beta. unfold read_some. intros o p'.
  destruct (bool_decide_reflect (pos + 8 ≤ len d)); [by rewrite decide_True by done|by rewrite decide_False by done].
Qed.
(** Each type: a word or a long word, taken as what it is. *)
Lemma read_values p d os tr pos : reads p d os tr pos →
  let c n := bool_decide (pos + n ≤ len d) in let R n p' := reads p' d os tr (pos + n) in
  wp readInt32 (read_or_0 p (c 4) (s32 (word_at d pos)) (R 4)) p ∧
  wp readIntPtr (read_or_0 p (c 4) (s32 (word_at d pos)) (R 4)) p ∧
  wp readFloat (read_or_0 p (c 4) (word_at d pos) (R 4)) p ∧
  wp readInt64 (read_or_0 p (c 8) (s64 (long_at d pos)) (R 8)) p ∧
  wp readDouble (read_or_0 p (c 8) (long_at d pos) (R 8)) p.
Proof.
  intros Hr. pose proof (read_word_some p d os tr pos Hr). pose proof (read_long_some p d os tr pos Hr). cbv zeta.
  split_and!; apply read_default; (done || by apply read_map).
Qed.
Lemma readInt32_spec p d os tr pos : reads p d os tr pos →
  wp readInt32 (λ v p',
    if decide (pos + 4 ≤ len d) then v = s32 (word_at d pos) ∧ reads p' d os tr (pos + 4) else v = 0 ∧ p' = p) p.
Proof.
  intros Hr. destruct (read_values p d os tr pos Hr) as [H1 _]. eapply wp_mono; [exact H1|]. unfold read_or_0. intros v p'.
  case_decide; [by rewrite bool_decide_true by done|by rewrite bool_decide_false by done].
Qed.

(** ** Bytes in place *)

Lemma PAD_SIZE_range n : 0 ≤ n ≤ 2 ^ 32 - 4 → 0 ≤ PAD_SIZE n ≤ 2 ^ 32 - 4 ∧ n ≤ PAD_SIZE n.
Proof. intros Hn. pose proof (PAD_SIZE_spec n Hn). Z.to_euclidean_division_equations; lia. Qed.
(** The test of [read] and [readInplace] is what it is meant to be. *)
Lemma read_test pos size n : 0 ≤ pos ≤ size → size ≤ PARCEL_MAX → 0 ≤ n ≤ 2 ^ 32 - 4 →
  pos <= u32 (pos + PAD_SIZE n) ∧ u32 (pos + PAD_SIZE n) <= size ↔ pos + PAD_SIZE n ≤ size.
Proof.
  unfold PARCEL_MAX. intros Hp Hs Hn. pose proof (PAD_SIZE_range n Hn) as [HP _].
  split; [|intros ?; rewrite u32_small by lia; lia].
  destruct (decide (pos + PAD_SIZE n < 2 ^ 32)); [rewrite u32_small by lia; lia|].
  unfold u32. intros. Z.to_euclidean_division_equations; lia.
Qed.

Lemma readInplace_spec p d os tr pos n : reads p d os tr pos → 0 ≤ n ≤ 2 ^ 32 - 4 →
  wp (readInplace n) (λ o p',
    if decide (pos + PAD_SIZE n ≤ len d) then
      reads p' d os tr (pos + PAD_SIZE n) ∧ (o = Some pos ∨ o = None ∧ pos = 0 ∧ n = 0 ∧ d = [])
    else o = None ∧ p' = p) p.
Proof.
  intros Hr Hn. pose proof Hr as [[r Hb] _ Hm Hs Hp Hin _ _ _ _ _].
  pose proof (PAD_SIZE_range n Hn). pose proof (read_test pos (len d) n Hin Hm Hn) as Ht. unfold PARCEL_MAX in Hm.
  unfold readInplace. wp_steps. rewrite Hp, Hs. case_decide.
  - rewrite bool_decide_true by (by apply Ht). rewrite u32_small by lia. wp_steps.
    split; [apply (reads_pos p _ _ _ pos); [done|lia]|]. unfold ptr_sum_null.
    destruct (ptr_null (mData p)) eqn:En; [|by left]. cbn [andb].
    destruct (bool_decide_reflect (pos = 0)) as [->|]; [right|by left].
    apply (blk_null_inv _ _ Hb) in En as [_ [-> _]%app_nil]. change (len []) with 0 in *. split_and!; done || lia.
  - rewrite bool_decide_false by (by rewrite Ht). by wp_steps.
Qed.
Lemma read_spec p d os tr pos n : reads p d os tr pos → 0 ≤ n ≤ 2 ^ 32 - 4 →
  wp (read n) (λ r p',
    if decide (pos + PAD_SIZE n ≤ len d) then r = (NO_ERROR, at_ d pos n) ∧ reads p' d os tr (pos + PAD_SIZE n)
    else r = (NOT_ENOUGH_DATA, []) ∧ p' = p) p.
Proof.
  intros Hr Hn. pose proof Hr as [_ _ Hm Hs Hp Hin _ _ _ _ _].
  pose proof (PAD_SIZE_range n Hn). pose proof (read_test pos (len d) n Hin Hm Hn) as Ht. unfold PARCEL_MAX in Hm.
  unfold read. wp_steps. rewrite Hp, Hs. case_decide.
  - rewrite bool_decide_true by (by apply Ht). rewrite u32_small by lia. wp_steps. eapply load_reads; [done|lia..|].
    wp_steps. split; [done|]. apply (reads_pos p _ _ _ pos); [done|lia].
  - rewrite bool_decide_false by (by rewrite Ht). by wp_steps.
Qed.

(** ** Strings *)

(** The characters before the NUL. *)
Fixpoint before_nul (l : list Z) : list Z :=
  match l with b :: l => if decide (b = 0) then [] else b :: before_nul l | [] => [] end.

(** The end of a string is looked for in the bytes that are left. *)
Lemma find_nul_spec l r n i : n = length l →
  find_nul (l ++ r) n i = Some (if decide (0 ∈ l) then Some (i + len (before_nul l)) else None).
Proof.
  intros ->. revert i. induction l as [|b l IH]; intros i; [cbn; by destruct (decide _) as [?%elem_of_nil|]|]. cbn [find_nul length app].
  rewrite IH. clear IH. unfold len. cbn [before_nul]. destruct (bool_decide_reflect (b = 0)) as [->|Hb].
  - rewrite !decide_True by set_solver. do 2 f_equal. cbn [length]. lia.
  - rewrite (decide_False _ _ Hb). f_equal. destruct (decide (0 ∈ l)).
    + rewrite decide_True by set_solver. f_equal. cbn [length]. lia.
    + rewrite decide_False; [done|]. rewrite elem_of_cons. intros [?|?]; [congruence|done].
Qed.
Lemma before_nul_len l : 0 ∈ l → len (before_nul l) < len l.
Proof.
  unfold len. induction l as [|b l IH]; [set_solver|]. cbn [before_nul length]. case_decide; cbn [length]; [lia|].
  intros [?|?%IH]%elem_of_cons; [congruence|lia].
Qed.
Lemma before_nul_take l : before_nul l = take (length (before_nul l)) l.
Proof. induction l as [|b l IH]; [done|]. cbn [before_nul]. case_decide; [done|]. cbn [length take]. by f_equal. Qed.

Lemma readCString_spec p d os tr pos : reads p d os tr pos → pos mod 4 = 0 → len d mod 4 = 0 →
  wp readCString (λ o p', let l := drop (Z.to_nat pos) d in
    if decide (0 ∈ l) then
      o = Some (before_nul l) ∧ reads p' d os tr (pos + PAD_SIZE (len (before_nul l) + 1)) ∧
      pos + PAD_SIZE (len (before_nul l) + 1) ≤ len d
    else o = None ∧ p' = p) p.
Proof.
  intros Hr Hp4 Hd4. pose proof Hr as [[r Hb] _ Hm Hs Hp Hin _ _ _ _ _]. unfold PARCEL_MAX in Hm. cbv zeta.
  unfold readCString. wp_steps. rewrite Hp, Hs, u32_small by lia. set (l := drop (Z.to_nat pos) d).
  assert (len l = len d - pos) as Hl by (unfold l, len in *; rewrite length_drop; lia).
  destruct (bool_decide_reflect (len d - pos > 0)).
  2:{ wp_steps. rewrite decide_False; [done|]. assert (l = []) as ->; [|set_solver].
      apply nil_length_inv. unfold len in *. lia. }
  unfold memchr0. wp_steps. destruct Hb as [Eb|[_ [-> _]%app_nil]]; [|change (len []) with 0 in *; lia].
  rewrite Eb. rewrite drop_app_le by (unfold len in *; lia). fold l.
  eapply wp_deref; [apply find_nul_spec; unfold len in *; lia|]. destruct (decide (0 ∈ l)) as [H0|]; [|by wp_steps].
  wp_steps. rewrite Z.add_0_l. pose proof (before_nul_len l H0). pose proof (len_nonneg (before_nul l)).
  set (n := len (before_nul l)) in *. pose proof (PAD_SIZE_spec (n + 1) ltac:(lia)).
  assert (pos + PAD_SIZE (n + 1) ≤ len d) by (Z.to_euclidean_division_equations; lia).
  rewrite u32_small by lia.
  eapply (load_reads _ d os tr (pos + PAD_SIZE (n + 1))); [apply (reads_pos p _ _ _ pos); [done|lia]|lia..|].
  wp_steps. split; [|split; [apply (reads_pos p _ _ _ pos); [done|lia]|done]].
  f_equal. rewrite (before_nul_take l). unfold at_, l, n, len. by rewrite Nat2Z.id.
Qed.

Lemma readString8_spec p d os tr pos : reads p d os tr pos →
  wp readString8 (λ s p', let n := s32 (word_at d pos) in
    if decide (pos + 4 ≤ len d) then
      if decide (0 < n < INT32_MAX ∧ pos + 4 + PAD_SIZE (n + 1) ≤ len d)
      then s = at_ d (pos + 4) n ∧ reads p' d os tr (pos + 4 + PAD_SIZE (n + 1))
      else s = [] ∧ reads p' d os tr (pos + 4)
    else s = [] ∧ p' = p) p.
Proof.
  intros Hr. pose proof (r_in _ _ _ _ _ Hr). unfold readString8. wp_steps.
  eapply wp_mono; [by apply (readInt32_spec p d os tr pos)|]. cbv beta zeta. intros n p1. set (n' := s32 _). case_decide.
  2:{ intros [-> ->]. rewrite bool_decide_false by lia. by wp_steps. }
  intros [-> Hr']. destruct (bool_decide_reflect (n' > 0 ∧ n' < INT32_MAX)) as [Hn|Hn].
  2:{ wp_steps. rewrite decide_False; [done|]. intros [? _]. lia. }
  wp_steps. unfold INT32_MAX in *. pose proof (PAD_SIZE_range (n' + 1) ltac:(lia)).
  eapply wp_mono; [apply (readInplace_spec _ d os tr (pos + 4)); [done|lia]|]. cbv beta. intros o p2. case_decide.
  - intros [Hr2 [->|?]]; [|lia].
    eapply load_reads; [exact Hr2|lia..|]. by rewrite decide_True by lia.
  - intros [-> ->]. wp_steps. rewrite decide_False by lia. done.
Qed.

(** The test of the length does not keep [readString16] from the length 2^31 - 2, of
    which the number of bytes is rounded up to 0. *)
Lemma readString16_spec p d os tr pos : reads p d os tr pos → s32 (word_at d pos) ≠ INT32_MAX - 1 →
  wp readString16 (λ s p', let n := s32 (word_at d pos) in
    if decide (pos + 4 ≤ len d) then
      if decide (0 ≤ n < INT32_MAX ∧ pos + 4 + PAD_SIZE (2 * n + 2) ≤ len d)
      then s = char16s_of (at_ d (pos + 4) (2 * n)) ∧ reads p' d os tr (pos + 4 + PAD_SIZE (2 * n + 2))
      else s = [] ∧ reads p' d os tr (pos + 4)
    else s = [] ∧ p' = p) p.
Proof.
  intros Hr Hne. pose proof (r_in _ _ _ _ _ Hr) as Hin. unfold readString16, readString16Inplace. wp_steps.
  eapply wp_mono; [by apply (readInt32_spec p d os tr pos)|]. cbv beta zeta. intros n p1. set (n' := s32 _) in *.
  unfold INT32_MAX in *. destruct (decide (pos + 4 ≤ len d)).
  2:{ intros [-> ->]. wp_steps. rewrite bool_decide_true by lia. wp_steps. change (u32 ((0 + 1) * 2)) with 2.
      eapply wp_mono; [apply (readInplace_spec _ d os tr pos); [done|lia]|]. cbv beta. intros o p2.
      pose proof (PAD_SIZE_range 2 ltac:(lia)) as [_ ?]. change (PAD_SIZE 2) with 4 in *.
      rewrite decide_False by lia. intros [-> ->]. by wp_steps. }
  intros [-> Hr']. destruct (bool_decide_reflect (n' >= 0 ∧ n' < 2 ^ 31 - 1)) as [Hn|Hn].
  2:{ wp_steps. rewrite decide_False by lia. done. }
  wp_steps. rewrite (u32_small ((n' + 1) * 2)) by lia. replace ((n' + 1) * 2) with (2 * n' + 2) by lia.
  pose proof (PAD_SIZE_range (2 * n' + 2) ltac:(lia)).
  eapply wp_mono; [apply (readInplace_spec _ d os tr (pos + 4)); [done|lia]|]. cbv beta. intros o p2. case_decide.
  - intros [Hr2 [->|?]]; [|lia]. wp_steps. rewrite Z.mul_comm.
    eapply load_reads; [exact Hr2|lia..|]. wp_steps. by rewrite decide_True by lia.
  - intros [-> ->]. wp_steps. rewrite decide_False by lia. done.
Qed.

(** ** The search for an object *)

Lemma get_object_reads p d os tr pos i o (Q : Z → parcel → Prop) : reads p d os tr pos → 0 ≤ i → os !! Z.to_nat i = Some o →
  Q o p → wp (get_object i) Q p.
Proof.
  intros Hr Hi Ho HQ. destruct (r_objs _ _ _ _ _ Hr) as [r Hb].
  destruct (list_elem_of_split_length os (Z.to_nat i) o Ho) as (os1 & os2 & Eo & Hl).
  unfold get_object. wp_steps. rewrite Eo, <-app_assoc in Hb. cbn [app] in Hb.
  eapply wp_deref; [replace i with (len os1) by (unfold len; lia); by apply (blk_load _ _ [o] (os2 ++ r))|]. by eapply wp_deref.
Qed.
Lemma get_object_lookup d os tr pos i p : reads p d os tr pos → 0 ≤ i < len os →
  ∃ o, os !! Z.to_nat i = Some o ∧ ∀ (Q : Z → parcel → Prop), Q o p → wp (get_object i) Q p.
Proof.
  intros Hr Hi. destruct (lookup_lt_is_Some_2 os (Z.to_nat i)) as [o Ho]; [unfold len in Hi; lia|].
  exists o. split; [done|]. intros Q HQ. eapply get_object_reads; [done|lia|done|done].
Qed.

Lemma search_forward_spec p d os tr pos DPOS n opos : reads p d os tr pos →
  0 ≤ opos < len os → len os - 1 - opos ≤ Z.of_nat n →
  wp (search_forward n opos (len os) DPOS) (λ o p', p' = p ∧ opos ≤ o < len os ∧
    (o = len os - 1 ∨ ∃ x, os !! Z.to_nat o = Some x ∧ DPOS ≤ x)) p.
Proof.
  intros Hr. revert opos. induction n as [|n IH]; intros opos Ho Hn; cbn [search_forward].
  - wp_steps. split_and!; [done|lia..|]. left. lia.
  - destruct (bool_decide_reflect (opos < len os - 1)); [|wp_steps; split_and!; [done|lia..|left; lia]].
    wp_steps. destruct (get_object_lookup d os tr pos opos p Hr ltac:(lia)) as (x & Hx & Hget). apply Hget.
    destruct (bool_decide_reflect (x < DPOS)).
    + eapply wp_mono; [apply IH; lia|]. cbv beta. intros o p' (-> & ? & ?). split_and!; done || lia.
    + wp_steps. split_and!; [done|lia..|]. right. exists x. split; [done|lia].
Qed.

Lemma search_backward_spec p d os tr pos DPOS opos : reads p d os tr pos → Z.of_nat opos < len os →
  wp (search_backward opos DPOS) (λ o p', p' = p ∧ 0 ≤ o ≤ Z.of_nat opos ∧
    (o = 0 ∨ ∃ x, os !! Z.to_nat o = Some x ∧ x ≤ DPOS) ∧
    ∀ j x, (o < Z.of_nat j ≤ Z.of_nat opos) → os !! j = Some x → DPOS < x) p.
Proof.
  intros Hr. induction opos as [|i IH]; intros Ho; cbn [search_backward].
  - wp_steps. split_and!; [done|lia..|by left|]. intros j x ?. lia.
  - wp_steps. destruct (get_object_lookup d os tr pos (Z.of_nat (S i)) p Hr ltac:(lia)) as (x & Hx & Hget). apply Hget.
    rewrite Nat2Z.id in Hx. destruct (bool_decide_reflect (x > DPOS)).
    + eapply wp_mono; [apply IH; lia|]. cbv beta. intros o p' (-> & ? & ? & Hj). split_and!; [done|lia..|done|].
      intros j y Hjo Hy. destruct (decide (j = S i)) as [->|]; [simplify_eq; lia|]. apply (Hj j y); [lia|done].
    + wp_steps. split_and!; [done|lia..| |].
      * right. exists x. rewrite Nat2Z.id. split; [done|lia].
      * intros j y ?. lia.
Qed.

Lemma sorted_lookup_lt (l : list Z) i j x y : StronglySorted Z.lt l → l !! i = Some x → l !! j = Some y → (i < j)%nat → x < y.
Proof.
  intros Hs. revert i j. induction Hs as [|z l _ IH Hz]; intros i j; [done|].
  destruct i, j; cbn; intros; try lia; [|by eapply IH; [done..|lia]].
  simplify_eq. rewrite Forall_forall in Hz. apply Hz. by eapply list_elem_of_lookup_2.
Qed.

(** What is found is in the list; with the places in order, what is in the list is found,
    from any hint. *)
Definition found_ok (os : list Z) (DPOS : Z) (found : bool) : Prop :=
  (found = true → DPOS ∈ os) ∧ (StronglySorted Z.lt os → found = bool_decide (DPOS ∈ os)).

Lemma found_ok_true os DPOS i : os !! i = Some DPOS → found_ok os DPOS true.
Proof. intros Hi%list_elem_of_lookup_2. split; [done|]. intros _. symmetry. by apply bool_decide_eq_true. Qed.
Lemma found_ok_false os DPOS : (StronglySorted Z.lt os → DPOS ∉ os) → found_ok os DPOS false.
Proof. intros Hs. split; [done|]. intros Hs'. symmetry. apply bool_decide_eq_false. auto. Qed.

(** The reasons why neither search has missed it. *)
Lemma search_missed os DPOS fw bw x y : 0 ≤ bw ≤ fw → fw < len os →
  os !! Z.to_nat fw = Some x → os !! Z.to_nat bw = Some y → x ≠ DPOS → y ≠ DPOS →
  (fw = len os - 1 ∨ DPOS ≤ x) → (bw = 0 ∨ y ≤ DPOS) →
  (∀ j z, bw < Z.of_nat j ≤ fw → os !! j = Some z → DPOS < z) →
  StronglySorted Z.lt os → DPOS ∉ os.
Proof.
  intros Hbw Hfw Hx Hy Ex Ey Hfw2 Hbw2 Hbw3 Hs [j Hj]%list_elem_of_lookup_1.
  pose proof (lookup_lt_Some _ _ _ Hj) as Hjl. unfold len in *.
  destruct (Nat.lt_trichotomy j (Z.to_nat bw)) as [Hlt|[->|Hgt]]; [|simplify_eq|].
  - pose proof (sorted_lookup_lt _ _ _ _ _ Hs Hj Hy Hlt). lia.
  - destruct (decide (Z.of_nat j ≤ fw)) as [Hle|Hgt2].
    + pose proof (Hbw3 j DPOS ltac:(lia) Hj). lia.
    + pose proof (sorted_lookup_lt _ _ _ _ _ Hs Hx Hj ltac:(lia)). lia.
Qed.

Lemma find_object_spec p d os tr pos DPOS : reads p d os tr pos →
  wp (find_object DPOS) (λ found p', reads p' d os tr pos ∧ found_ok os DPOS found) p.
Proof.
  intros Hr. pose proof Hr as [_ _ _ _ _ _ _ Hn Hmax Hh _]. unfold PARCEL_MAX in Hmax. unfold find_object. wp_steps. rewrite Hn.
  destruct (bool_decide_reflect (len os > 0)).
  2:{ wp_steps. split; [done|]. apply found_ok_false. assert (os = []) as ->; [|set_solver].
      apply nil_length_inv. unfold len in *. lia. }
  assert (∀ i, os !! i = Some DPOS → ∀ o, wp (modify (set_mNextObjectHint (u32 (o + 1))) ;;; ret true)
    (λ found p', reads p' d os tr pos ∧ found_ok os DPOS found) p) as Hfound.
  { intros i Hi o. wp_steps. split; [|by eapply found_ok_true]. apply reads_hint; [done|]. apply u32_range. }
  wp_steps. eapply (wp_mono _ (λ o p', p' = p ∧ 0 ≤ o < len os ∧ (o = len os - 1 ∨ ∃ x, os !! Z.to_nat o = Some x ∧ DPOS ≤ x))).
  { destruct (bool_decide_reflect (mNextObjectHint p < len os)).
    - eapply wp_mono; [eapply search_forward_spec; [done|lia..]|]. cbv beta. intros o p' (-> & ? & ?). split_and!; done || lia.
    - wp_steps. split_and!; [done|lia..|by left]. }
  cbv beta. intros fw p' (-> & Hfw & Hfw2). wp_steps.
  destruct (get_object_lookup d os tr pos fw p Hr Hfw) as (x & Hx & Hget). apply Hget. clear Hget.
  destruct (bool_decide_reflect (x = DPOS)) as [->|Ex]; [by eapply Hfound|].
  wp_steps. eapply wp_mono; [eapply search_backward_spec; [done|lia]|]. cbv beta. intros bw p' (-> & Hbw & Hbw2 & Hbw3).
  rewrite Z2Nat.id in * by lia. wp_steps.
  destruct (get_object_lookup d os tr pos bw p Hr ltac:(lia)) as (y & Hy & Hget). apply Hget. clear Hget.
  destruct (bool_decide_reflect (y = DPOS)) as [->|Ey]; [by eapply Hfound|].
  wp_steps. split; [done|]. apply found_ok_false. apply (search_missed os DPOS fw bw x y); [lia|lia|done|done|done|done|..|done].
  - destruct Hfw2 as [?|(? & ? & ?)]; [by left|right; simplify_eq; lia].
  - destruct Hbw2 as [?|(? & ? & ?)]; [by left|right; simplify_eq; lia].
Qed.

(** ** Objects *)

Lemma flat_at_at d off : 0 ≤ off → flat_at (at_ d off 16) 0 = flat_at d off.
Proof. intros. unfold flat_at, at_. change (Z.to_nat 16) with 16%nat. change (Z.to_nat 0) with 0%nat. by rewrite drop_0, take_take. Qed.
Lemma flat_at_some d off : 0 ≤ off → off + 16 ≤ len d → is_Some (flat_at d off).
Proof.
  intros Ho Hl. pose proof (at_len d off 16 ltac:(lia) ltac:(lia) ltac:(lia)) as Hla. unfold flat_at.
  change (take 16 (drop (Z.to_nat off) d)) with (at_ d off 16). unfold len in Hla.
  destruct (at_ d off 16) as [|? [|? [|? [|? [|? [|? [|? [|? [|? [|? [|? [|? [|? [|? [|? [|? [|]]]]]]]]]]]]]]]]]; cbn in Hla; try lia.
  cbn [words_of]. by eexists.
Qed.
Lemma load_flat_reads p d os tr pos off o (Q : flat → parcel → Prop) : reads p d os tr pos → 0 ≤ off → off + 16 ≤ len d →
  flat_at d off = Some o → Q o p → wp (load_flat off) Q p.
Proof.
  intros Hr H1 H2 Ho HQ. unfold load_flat, FLAT_SIZE. wp_steps. eapply load_reads; [done|lia..|].
  rewrite flat_at_at by lia. by eapply wp_deref.
Qed.

(** The null object is not in the list, which is not looked at for it, unless it must be. *)
Definition null_object (nullMetaData : bool) (o : flat) : bool :=
  negb nullMetaData && bool_decide (f_cookie o = 0 ∧ f_binder o = 0).

Lemma readObject_spec p d os tr pos nullMetaData : reads p d os tr pos →
  wp (readObject nullMetaData) (λ r p',
    if decide (pos + 16 ≤ len d) then reads p' d os tr (pos + 16) ∧
      ∃ o found, flat_at d pos = Some o ∧ found_ok os pos found ∧ r = (if null_object nullMetaData o || found then Some o else None)
    else r = None ∧ p' = p) p.
Proof.
  intros Hr. pose proof Hr as [_ _ Hm Hs Hp Hin _ _ _ _ _]. unfold PARCEL_MAX in Hm.
  unfold readObject, FLAT_SIZE. wp_steps. rewrite Hp, Hs, u32_small by lia. case_decide as Hd.
  2:{ rewrite bool_decide_false by lia. by wp_steps. }
  rewrite bool_decide_true by lia. wp_steps. destruct (flat_at_some d pos ltac:(lia) Hd) as [o Ho].
  assert (reads (set_mDataPos (pos + 16) p) d os tr (pos + 16)) as Hr' by (apply (reads_pos p _ _ _ pos); [done|lia]).
  unfold null_object. destruct nullMetaData; wp_steps.
  - eapply wp_mono; [by eapply (find_object_spec _ d os tr _ pos)|]. cbv beta. intros found p' [Hr2 Hf].
    destruct found.
    + wp_steps. eapply load_flat_reads; [done|lia|lia|done|]. wp_steps. split; [done|]. exists o, true. done.
    + wp_steps. split; [done|]. exists o, false. done.
  - eapply load_flat_reads; [done|lia|lia|done|]. wp_steps.
    destruct (bool_decide_reflect (f_cookie o = 0 ∧ f_binder o = 0)) as [Hnull|Hnull].
    + wp_steps. split; [done|]. exists o, (bool_decide (pos ∈ os)). split_and!; [done| |by rewrite bool_decide_true by done].
      split; [by intros ?%bool_decide_eq_true|done].
    + wp_steps. eapply wp_mono; [by eapply (find_object_spec _ d os tr _ pos)|]. cbv beta. intros found p' [Hr2 Hf].
      wp_steps. split; [done|]. exists o, found. split_and!; [done..|]. by rewrite bool_decide_false by done.
Qed.
End reads.
