(* ===== verification/ParcelItems.v ===== *)
(** * What is written into a parcel and read from it

    The writing operations of [Parcel], each with what it adds to a parcel; the theorem
    that values, strings and objects written are read back, by the writer or by who
    gets the bytes and the places of the objects. *)

From Stdlib Require Import ZArith Lia.
From stdpp Require Import base tactics numbers option list sets gmap sorting.
From S2P Require Import Prelude Words CMemory BinderState BinderTxn BinderUser Parcel ParcelHold ParcelRead.

(** Data with its padding. *)
Definition padded (v : list Z) : list Z := v ++ replicate (Z.to_nat (PAD_SIZE (len v) - len v)) 0.

Lemma padded_len v : len v ≤ 2 ^ 32 - 4 → len (padded v) = PAD_SIZE (len v).
Proof.
  intros Hv. pose proof (len_nonneg v). pose proof (PAD_SIZE_range (len v) ltac:(lia)).
  unfold padded. rewrite len_app. unfold len in *. rewrite length_replicate. lia.
Qed.

Section items.
Context {E : Env}.
Implicit Types (p : parcel) (a : held).

(** ** Data *)

(** Bytes written over those there are. *)
Lemma store_live p a d x y v : holds p a → a_data a = d ++ x ++ y → length v = length x → Forall is_byte v →
  wp (store (len d) v) (λ _ p', holds p' (Held (d ++ v ++ y) (a_objs a) (a_trace a) (a_err a) (a_allow a))) p.
Proof.
  intros Hh Ed Hl Hv. pose proof Hh as [_ (r & Hb & Hc & Hf) _ Hs Hp _ _ _ _ _].
  unfold store. wp_steps. rewrite Ed, <-!app_assoc in Hb.
  destruct (blk_store _ d x (y ++ r) v Hb Hl) as (m & Es & Hm). eapply wp_deref; [exact Es|]. wp_steps.
  assert (length (d ++ v ++ y) = length (a_data a)) as El by (rewrite Ed, !length_app; lia).
  destruct Hh. split; pj; try (done || by unfold len in *; rewrite El).
  exists r. rewrite <-!app_assoc. split; [done|]. split.
  - rewrite Hc. unfold len. rewrite Ed, !length_app. lia.
  - rewrite Ed in Hf. bytes.
Qed.

Lemma write_outcome p a v : holds p a → a_err a = NO_ERROR → Forall is_byte v → len (a_data a) + PAD_SIZE (len v) ≤ PARCEL_MAX →
  len v ≤ PARCEL_MAX → wp (write v) (outcome a (add_bytes a (padded v))) p.
Proof.
  intros Hh He Hv Hm Hlv. pose proof (len_nonneg v) as Hv0. pose proof Hlv as Hlv'. unfold PARCEL_MAX in Hlv'.
  unfold write. wp_steps. fold (len v).
  eapply wp_mono; [apply (writeInplace_spec p a (len v)); done || lia|]. cbv beta.
  intros o p' [(j & Hh' & Hj & Hfj & Hz & Ho)|(-> & Hoom & Hh')].
  2:{ wp_steps. rewrite (h_err _ _ Hh'). by apply outcome_fail. }
  pose proof (PAD_SIZE_range (len v) ltac:(lia)) as [_ Hle].
  assert (j = take (length v) j ++ drop (length v) j) as Ej by (by rewrite take_drop).
  unfold len in Hz. rewrite Nat2Z.id in Hz. destruct Ho as [->|[-> H0]].
  - wp_steps. eapply wp_mono; [eapply (store_live _ _ (a_data a) (take (length v) j) (drop (length v) j) v); [exact Hh'|..]|].
    + cbn. by rewrite <-Ej.
    + rewrite length_take. unfold len in *. lia.
    + done.
    + cbv beta. intros _ p2 Hh2. wp_steps. left. split; [done|]. rewrite Hz in Hh2. exact Hh2.
  - wp_steps. rewrite (h_err _ _ Hh'). cbn. rewrite He. left. split; [done|]. unfold len in H0.
    apply (f_equal Z.to_nat) in H0. rewrite Nat2Z.id in H0. apply nil_length_inv in H0 as ->.
    assert (j = []) as ->; [|exact Hh']. apply nil_length_inv. unfold len in Hj. change (Z.of_nat (length j) = 0) in Hj. lia.
Qed.

Lemma len_padded v : len (padded v) ≤ PARCEL_MAX → len v ≤ PARCEL_MAX ∧ len (padded v) = PAD_SIZE (len v).
Proof.
  intros Hm. assert (len v ≤ len (padded v)) by (unfold padded; rewrite len_app; pose proof (len_nonneg (replicate (Z.to_nat (PAD_SIZE (len v) - len v)) 0)); lia).
  split; [lia|]. apply padded_len. unfold PARCEL_MAX in Hm. lia.
Qed.

Lemma write_padded_outcome p a v : holds p a → a_err a = NO_ERROR → Forall is_byte v → len (a_data a) + len (padded v) ≤ PARCEL_MAX →
  wp (write v) (outcome a (add_bytes a (padded v))) p.
Proof.
  intros Hh He Hv Hm. pose proof (len_nonneg (a_data a)). destruct (len_padded v) as [Hl Hp]; [lia|]. rewrite Hp in Hm. by apply write_outcome.
Qed.

Lemma writeInt32_outcome p a v : holds p a → len (a_data a) + 4 ≤ PARCEL_MAX →
  wp (writeInt32 v) (outcome a (add_bytes a (word_bytes (u32 v)))) p.
Proof. intros. apply writeAligned_outcome; [done|apply word_bytes_byte|done]. Qed.
Lemma long_bytes_byte v : Forall is_byte (long_bytes v).
Proof. apply Forall_app. split; apply word_bytes_byte. Qed.

(** ** Objects *)

Definition acquired (o : flat) : list event := match ref_of o with Some r => [Acquire r] | None => [] end.
Definition has_meta (nullMetaData : bool) (o : flat) : bool := nullMetaData || bool_decide (f_binder o ≠ 0).
Definition add_object (a : held) (o : flat) (nullMetaData : bool) : held :=
  if has_meta nullMetaData o then
    Held (a_data a ++ flat_bytes o) (a_objs a ++ [len (a_data a)]) (a_trace a ++ acquired o) (a_err a) (a_allow a)
  else add_bytes a (flat_bytes o).
Definition fd_allowed (a : held) (o : flat) : Prop := f_type o = BINDER_TYPE_FD → a_allow a = true.

Lemma flat_bytes_byte o : Forall is_byte (flat_bytes o).
Proof. unfold flat_bytes. repeat (apply Forall_app; split); apply word_bytes_byte. Qed.
Lemma acquire_object_run o p : acquire_object o p = Ret tt (set_trace (trace p ++ acquired o) p).
Proof. unfold acquire_object, acquired. destruct (ref_of o); [done|]. rewrite app_nil_r. by destruct p. Qed.

(** The object is put down, and its place. *)
Lemma put_object_holds p a v : holds p a → len (a_objs a) < mObjectsCapacity p → is_word v →
  wp (put_object (mObjectsSize p) v) (λ _ p', ∃ m, p' = set_mObjects m p ∧
    holds (set_mObjectsSize (mObjectsSize p + 1) p') (Held (a_data a) (a_objs a ++ [v]) (a_trace a) (a_err a) (a_allow a))) p.
Proof.
  intros Hh Hc Hv. pose proof Hh as [_ _ _ _ _ (r & Hb & Hcap & Hf) Hs _ _ _]. unfold put_object. wp_steps. rewrite Hs.
  rewrite len_app in Hcap. destruct r as [|c r]; [change (len []) with 0 in Hcap; lia|].
  destruct (blk_store _ (a_objs a) [c] r [v] Hb) as (m & Es & Hm); [done|]. eapply wp_deref; [exact Es|]. wp_steps.
  exists m. split; [done|]. destruct Hh. split; pj; try done.
  - exists r. rewrite <-app_assoc. split; [done|]. split; [rewrite Hcap; unfold len; rewrite !length_app; cbn [length]; lia|].
    apply Forall_app in Hf as [? [_ ?]%Forall_cons]. apply Forall_app. split; [done|]. by constructor.
  - rewrite len_app. change (len [v]) with 1. lia.
Qed.

(** The end of [writeObject]: the bytes of the object are already behind the end. *)
Lemma finish_object q a o r : holds q a → fd_allowed a o → blk (mData q) (a_data a ++ flat_bytes o ++ r) →
  wp (if bool_decide (f_type o = BINDER_TYPE_FD) then
        allow <- gets mAllowFds ;;
        if negb allow then ret FDS_NOT_ALLOWED else
        modify (set_mFdsKnown true) ;;; modify (set_mHasFds true) ;;; finishWrite FLAT_SIZE
      else finishWrite FLAT_SIZE)
    (λ err p', err = NO_ERROR ∧ holds p' (add_bytes a (flat_bytes o))) q.
Proof.
  intros Hq Hfd Hb.
  assert (∀ fk hf, wp (finishWrite FLAT_SIZE) (λ err p', err = NO_ERROR ∧ holds p' (add_bytes a (flat_bytes o)))
    (set_mHasFds hf (set_mFdsKnown fk q))) as Hfin.
  { intros fk hf. destruct Hq as [? (rq & Hbq & Hcq & Hfq) ? Hs Hp ? ? ? ? ?].
    assert (a_data a ++ flat_bytes o ++ r = a_data a ++ rq) as El.
    { destruct Hb as [Eb|[Eb El]]; destruct Hbq as [Eq|[Eq El']]; congruence. }
    pose proof (f_equal len El) as Ell. rewrite !len_app in *. change (len (flat_bytes o)) with 16 in *.
    pose proof (len_nonneg r). pose proof (len_nonneg (a_data a)). pose proof (flat_bytes_byte o).
    rewrite <-El in Hfq. apply (finishWrite_holds _ a); pj; rewrite ?len_app; change (len (flat_bytes o)) with 16; try done; try lia.
    split; pj; rewrite ?len_app; try done. exists r. rewrite <-app_assoc. split; [done|].
    split; [rewrite !len_app; change (len (flat_bytes o)) with 16; lia|bytes]. }
  destruct (bool_decide_reflect (f_type o = BINDER_TYPE_FD)) as [Hty|].
  - wp_steps. rewrite (h_allow _ _ Hq), (Hfd Hty). cbn [negb]. wp_steps. apply Hfin.
  - replace q with (set_mHasFds (mHasFds q) (set_mFdsKnown (mFdsKnown q) q)) by (by destruct q). apply Hfin.
Qed.

Lemma writeObject_here_spec p a o nm : room p a 16 → len (a_objs a) < mObjectsCapacity p → fd_allowed a o →
  wp (writeObject_here o nm) (λ err p', err = NO_ERROR ∧ holds p' (add_object a o nm)) p.
Proof.
  intros [Hh Hc] Hoc Hfd. pose proof Hh as [_ (r & Hb & Hcap & Hf) Hlt Hs Hp _ _ _ _ _]. rewrite len_app in Hcap.
  pose proof (len_nonneg (a_data a)). pose proof (flat_bytes_byte o).
  unfold writeObject_here, store_here, store. wp_steps. rewrite Hp.
  destruct (blk_store_end _ _ _ (flat_bytes o) Hb) as (m & Es & Hm); [change (len (flat_bytes o)) with 16; lia|].
  eapply wp_deref; [exact Es|]. wp_steps.
  assert (holds (set_mData m p) a) as Hh1.
  { destruct Hh. split; pj; try done. eexists. split; [exact Hm|]. split; [|bytes].
    rewrite Hcap, !len_app. change (len (flat_bytes o)) with 16. unfold len. rewrite length_drop.
    change (length (flat_bytes o)) with 16%nat. unfold len in *. lia. }
  unfold add_object, has_meta. destruct (nm || bool_decide (f_binder o ≠ 0)).
  - wp_steps. eapply wp_mono; [apply (put_object_holds _ a (mDataPos p)); [done|done|unfold is_word; lia]|].
    cbv beta. intros _ p1 (mo & -> & Hh2). wp_steps. unfold wp at 1. rewrite acquire_object_run. wp_steps. rewrite Hp in Hh2.
    eapply (finish_object _ (Held (a_data a) (a_objs a ++ [len (a_data a)]) (a_trace a ++ acquired o) (a_err a) (a_allow a)));
      [|done|exact Hm]. destruct Hh2. split; pj; try done. congruence.
  - wp_steps. by eapply finish_object.
Qed.

(** Room in the list of objects. *)
Lemma grow_objects_spec p a n : holds p a → mObjectsCapacity p ≤ n → 0 < n ≤ PARCEL_MAX - 1 →
  wp (grow_objects n) (λ err p', err = NO_ERROR ∧ holds p' a ∧ mObjectsCapacity p' = n ∧ mDataCapacity p' = mDataCapacity p ∨
    err = NO_MEMORY ∧ out_of_memory ∧ holds p' a) p.
Proof.
  unfold PARCEL_MAX. intros Hh Hc Hn. pose proof Hh as [_ _ _ _ _ (r & Hb & Hcap & Hf) _ _ _ _].
  unfold grow_objects, realloc_objects, count_call, SIZEOF_PTR. wp_steps. pj.
  rewrite u32_small by lia. rewrite Z.div_mul by lia.
  destruct (blk_realloc 32 (mObjects p) (a_objs a) r n (heap_answer (calls p))) as [(new & r' & Er & -> & Hl & Hf')|[Ea Er]];
    [done|lia|lia|lia|done|..]; (eapply wp_deref; [exact Er|]); cbn [ptr_null]; wp_steps.
  - left. split; [done|]. split; [|done]. destruct Hh; split; pj; try done. exists r'. split; [by left|]. done.
  - right. split_and!; [done|by eexists|]. destruct Hh. by split.
Qed.

Lemma writeObject_outcome p a o nm : holds p a → fd_allowed a o → len (a_data a) + 16 ≤ PARCEL_MAX → len (a_objs a) ≤ 2 ^ 26 →
  wp (writeObject o nm) (outcome a (add_object a o nm)) p.
Proof.
  intros Hh Hfd Hm Hom. pose proof (len_nonneg (a_objs a)). pose proof (h_objs_size _ _ Hh) as Hos.
  assert (∀ q, room q a 16 → len (a_objs a) < mObjectsCapacity q → wp (writeObject_here o nm) (outcome a (add_object a o nm)) q) as Hhere.
  { intros q Hq Hqo. eapply wp_mono; [by apply (writeObject_here_spec q a)|]. cbv beta. intros ? ? [-> ?]. by left. }
  unfold writeObject. wp_steps. rewrite Hos. cbv zeta.
  pose proof (ensure_room p a FLAT_SIZE Hh ltac:(done) Hm) as Hroom.
  destruct (bool_decide_reflect (len (a_objs a) < mObjectsCapacity p)) as [Hlt|Hge].
  - destruct (bool_decide (u32 (mDataPos p + FLAT_SIZE) <= mDataCapacity p)); cbn [andb].
    { apply wp_elim in Hroom as (? & ? & [= <- <-] & [(_ & Hr & _)|(? & _)]); [by apply Hhere|done]. }
    wp_steps. eapply wp_mono; [exact Hroom|]. cbv beta. intros err p' [(-> & Hr & Ho)|(-> & ? & ?)].
    + rewrite bool_decide_true by done. cbn [negb]. wp_steps. rewrite bool_decide_true by done. apply Hhere; [done|lia].
    + rewrite bool_decide_false by done. cbn [negb]. wp_steps. by apply outcome_fail.
  - rewrite andb_false_r. wp_steps. eapply wp_mono; [exact Hroom|]. cbv beta. intros err p' [(-> & [Hr Hrc] & Ho)|(-> & ? & ?)].
    2:{ rewrite bool_decide_false by done. cbn [negb]. wp_steps. by apply outcome_fail. }
    rewrite bool_decide_true by done. cbn [negb]. wp_steps. rewrite (h_objs_size _ _ Hr).
    rewrite (u32_small (_ + 2)) by lia. rewrite u32_small by lia. set (n := _ / 2).
    assert (len (a_objs a) < n ≤ 2 ^ 30 - 1) by (unfold n; Z.to_euclidean_division_equations; lia).
    eapply wp_mono; [apply (grow_objects_spec p' a n); [done|lia|unfold PARCEL_MAX; lia]|].
    cbv beta. intros err p2 [(-> & Hh2 & Hc2 & Hd2)|(-> & ? & ?)].
    + rewrite bool_decide_true by done. cbn [negb]. apply Hhere; [split; [done|unfold FLAT_SIZE in Hrc; lia]|lia].
    + rewrite bool_decide_false by done. cbn [negb]. wp_steps. right. split_and!; [done..|]. by exists a.
Qed.

(** ** Several writes *)

Lemma outcome_then (m X : op Z) p a b c : extends a b → wp m (outcome a b) p → (∀ p', holds p' b → wp X (outcome b c) p') →
  wp (err <- m ;; if bool_decide (err = NO_ERROR) then X else ret err) (outcome a c) p.
Proof.
  intros Hab Hm HX. wp_steps. eapply wp_mono; [exact Hm|]. cbv beta. intros err p' [[-> Hh]|(-> & Ho & Hb)].
  - rewrite bool_decide_true by done. eapply wp_mono; [by apply HX|]. intros ? ?. by apply outcome_extends.
  - rewrite bool_decide_false by done. wp_steps. right. done.
Qed.

Definition string8_bytes (s : list Z) : list Z := word_bytes (len s) ++ (if decide (s = []) then [] else padded (s ++ [0])).
Lemma writeString8_outcome p a s : holds p a → a_err a = NO_ERROR → Forall is_byte s →
  len (a_data a) + len (string8_bytes s) ≤ PARCEL_MAX → wp (writeString8 s) (outcome a (add_bytes a (string8_bytes s))) p.
Proof.
  intros Hh He Hs Hm. unfold string8_bytes in *. rewrite len_app in Hm. change (len (word_bytes (len s))) with 4 in Hm.
  pose proof (len_nonneg (a_data a)). pose proof (len_nonneg s). unfold writeString8. fold (len s). wp_steps.
  eapply wp_mono; [apply (writeInt32_outcome p a); [done|]|]; case_decide as Hnil; pose proof Hm as Hm'; unfold PARCEL_MAX in Hm'.
  - change (len []) with 0 in Hm. lia.
  - pose proof (len_nonneg (padded (s ++ [0]))). lia.
  - subst s. cbv beta. intros err p' Hout. rewrite bool_decide_false by (intros [? _]; done). wp_steps. by rewrite app_nil_r.
  - pose proof (len_nonneg (padded (s ++ [0]))). destruct (len_padded (s ++ [0])) as [Hl _]; [lia|]. rewrite len_app in Hl. change (len [0]) with 1 in Hl.
    unfold PARCEL_MAX in Hl. rewrite u32_small by lia.
    assert (0 < len s) by (destruct s; [done|unfold len; cbn [length]; lia]).
    cbv beta. intros err p' [[-> Hh']|(-> & Ho & Hb)].
    + rewrite bool_decide_true by done. eapply wp_mono; [apply (write_padded_outcome p' (add_bytes a (word_bytes (len s)))); [done|done| |]|].
      * bytes. repeat constructor; lia.
      * cbn. rewrite len_app. change (len (word_bytes (len s))) with 4. lia.
      * cbv beta. intros err p2 Ho. eapply outcome_extends; [apply extends_bytes|]. unfold add_bytes in *. pj. by rewrite <-app_assoc in Ho.
    + rewrite bool_decide_false by (intros [_ ?]; done). wp_steps. right. done.
Qed.

Lemma char16_bytes_len s : len (concat (char16_bytes <$> s)) = 2 * len s.
Proof. induction s as [|c s IH]; [done|]. unfold len in *. cbn [fmap list_fmap concat]. rewrite length_app, Nat2Z.inj_add, IH. cbn [length char16_bytes]. lia. Qed.
Lemma char16_bytes_byte s : Forall is_byte (concat (char16_bytes <$> s)).
Proof.
  induction s as [|c s IH]; [constructor|]. cbn [fmap list_fmap concat]. apply Forall_app. split; [|done].
  unfold char16_bytes, is_byte. repeat constructor; apply Z.mod_pos_bound; lia.
Qed.

(** The bytes of a string of 16-bit characters, behind its length. *)
Lemma write_string16_body p a s : holds p a → a_err a = NO_ERROR → len (a_data a) + PAD_SIZE (2 * len s + 2) ≤ PARCEL_MAX → len s < 2 ^ 29 →
  wp (data <- writeInplace (u32 (u32 (len s * 2) + 2)) ;;
      match data with
      | Some off =>
          l <- deref (slice (concat (char16_bytes <$> s)) 0 (u32 (len s * 2))) ;;
          store off l ;;; store (off + u32 (len s * 2)) (char16_bytes 0) ;;; ret NO_ERROR
      | None => gets mError
      end) (outcome a (add_bytes a (padded (concat (char16_bytes <$> s) ++ [0; 0])))) p.
Proof.
  intros Hh He Hm Hl. pose proof (len_nonneg s). rewrite (u32_small (len s * 2)) by lia. rewrite u32_small by lia.
  pose proof (PAD_SIZE_range (2 * len s + 2) ltac:(lia)) as [_ Hle]. replace (len s * 2 + 2) with (2 * len s + 2) by lia.
  set (b := concat (char16_bytes <$> s)). assert (len b = 2 * len s) as Hb by apply char16_bytes_len.
  wp_steps. eapply wp_mono; [apply (writeInplace_spec p a (2 * len s + 2)); [unfold PARCEL_MAX; lia|done|done]|].
  cbv beta. intros o p' [(j & Hh' & Hj & Hfj & Hz & [->|[_ ?]])|(-> & Hoom & Hh')]; [|lia|].
  2:{ wp_steps. rewrite (h_err _ _ Hh'). by apply outcome_fail. }
  wp_steps. eapply wp_deref; [apply slice_ok; unfold len in *; lia|]. change (Z.to_nat 0) with 0%nat.
  rewrite drop_0, take_ge by (unfold len in *; lia).
  assert (∃ j1 j2 j3, j = j1 ++ j2 ++ j3 ∧ length j1 = length b ∧ length j2 = 2%nat ∧ j3 = drop (Z.to_nat (2 * len s + 2)) j) as (j1 & j2 & j3 & Ej & Hl1 & Hl2 & Ej3).
  { exists (take (length b) j), (take 2 (drop (length b) j)), (drop 2 (drop (length b) j)). rewrite !take_drop.
    unfold len in *. rewrite !length_take, length_drop, drop_drop. split_and!; [done|lia|lia|f_equal; lia]. }
  rewrite <-Ej3 in Hz. wp_steps.
  eapply wp_mono; [eapply (store_live _ _ (a_data a) j1 (j2 ++ j3) b); [exact Hh'|by rewrite Ej|done|apply char16_bytes_byte]|].
  cbv beta. intros _ p2 Hh2. wp_steps. replace (len (a_data a) + len s * 2) with (len (a_data a ++ b)) by (rewrite len_app; lia).
  eapply wp_mono; [eapply (store_live _ _ (a_data a ++ b) j2 j3 (char16_bytes 0)); [exact Hh2|by rewrite <-app_assoc|done|exact (char16_bytes_byte [0])]|].
  cbv beta. intros _ p3 Hh3. wp_steps. left. split; [done|]. rewrite <-app_assoc in Hh3. rewrite Hz in Hh3.
  unfold add_bytes, padded. rewrite len_app, Hb, <-!app_assoc. exact Hh3.
Qed.

Definition string16_bytes (s : list Z) : list Z := word_bytes (len s) ++ padded (concat (char16_bytes <$> s) ++ [0; 0]).
Lemma writeString16_outcome p a s : holds p a → a_err a = NO_ERROR →
  len (a_data a) + len (string16_bytes s) ≤ PARCEL_MAX → wp (writeString16 (Some s)) (outcome a (add_bytes a (string16_bytes s))) p.
Proof.
  intros Hh He Hm. unfold string16_bytes in *. rewrite len_app in Hm. change (len (word_bytes (len s))) with 4 in Hm.
  pose proof (len_nonneg (a_data a)). pose proof (len_nonneg s).
  destruct (len_padded (concat (char16_bytes <$> s) ++ [0; 0])) as [Hl Hp]; [lia|]. rewrite Hp in Hm.
  rewrite len_app, char16_bytes_len in *. change (len [0; 0]) with 2 in *. pose proof Hl as Hl'. unfold PARCEL_MAX in Hl'.
  pose proof (PAD_SIZE_range (2 * len s + 2) ltac:(lia)). unfold writeString16. fold (len s).
  apply (outcome_then _ _ _ _ (add_bytes a (word_bytes (len s)))); [apply extends_bytes| |].
  - pose proof (writeInt32_outcome p a (len s) Hh ltac:(lia)) as Hw. by rewrite u32_small in Hw by lia.
  - intros p' Hh'. eapply wp_mono; [apply (write_string16_body p' _ s Hh'); [done| |lia]|].
    + cbn. rewrite len_app. change (len (word_bytes (len s))) with 4. lia.
    + cbv beta. intros err p2 Ho. unfold add_bytes in *. pj. by rewrite <-app_assoc in Ho.
Qed.
End items.
