(* ===== verification/ParcelSpec.v ===== *)
(** * What holds of parcels

    A parcel as a sequence of typed items: they are read back as written, by the writer
    and by who gets the data; references that were taken are given back; and reading any
    bytes at all stays inside of them. *)

From Stdlib Require Import ZArith Lia.
From stdpp Require Import base tactics numbers option list sets gmap sorting.
From S2P Require Import Prelude Words CMemory BinderState BinderTxn BinderUser Parcel ParcelHold ParcelRead ParcelItems.

(** ** Items *)

Inductive item :=
  | IInt32 (v : Z)
  | IInt64 (v : Z)
  | IIntPtr (v : Z)
  | IFloat (bits : Z)
  | IDouble (bits : Z)
  | IData (l : list Z)
  | ICString (s : list Z)
  | IString8 (s : list Z)
  | IString16 (s : option (list Z))
  | IStrong (b : option ibinder)
  | IWeak (b : option wpointer)
  | IFd (fd : Z) (own : bool).

Inductive value :=
  | VInt (v : Z)
  | VBytes (l : list Z)
  | VCString (o : option (list Z))
  | VBinder (b : Z)
  | VWeak (w : read_weak).

Section spec.
Context {E : Env}.

Definition write_item (it : item) : op Z :=
  match it with
  | IInt32 v => writeInt32 v
  | IInt64 v => writeInt64 v
  | IIntPtr v => writeIntPtr v
  | IFloat b => writeFloat b
  | IDouble b => writeDouble b
  | IData l => write l
  | ICString s => writeCString s
  | IString8 s => writeString8 s
  | IString16 s => writeString16 s
  | IStrong b => writeStrongBinder b
  | IWeak b => writeWeakBinder b
  | IFd fd own => writeFileDescriptor fd own
  end.
(** Writing stops at the first failure. *)
Fixpoint write_items (its : list item) : op Z :=
  match its with
  | [] => ret NO_ERROR
  | it :: its => err <- write_item it ;; if bool_decide (err = NO_ERROR) then write_items its else ret err
  end.

(** What the reader must know of an item: its type, and of data the length. *)
Definition read_item (it : item) : op value :=
  match it with
  | IInt32 _ => v <- readInt32 ;; ret (VInt v)
  | IInt64 _ => v <- readInt64 ;; ret (VInt v)
  | IIntPtr _ => v <- readIntPtr ;; ret (VInt v)
  | IFloat _ => v <- readFloat ;; ret (VInt v)
  | IDouble _ => v <- readDouble ;; ret (VInt v)
  | IData l => r <- read (len l) ;; ret (VBytes r.2)
  | ICString _ => o <- readCString ;; ret (VCString o)
  | IString8 _ => s <- readString8 ;; ret (VBytes s)
  | IString16 _ => s <- readString16 ;; ret (VBytes s)
  | IStrong _ => b <- readStrongBinder ;; ret (VBinder b)
  | IWeak _ => w <- readWeakBinder ;; ret (VWeak w)
  | IFd _ _ => fd <- readFileDescriptor ;; ret (VInt fd)
  end.
Fixpoint read_items (its : list item) : op (list value) :=
  match its with
  | [] => ret []
  | it :: its => v <- read_item it ;; vs <- read_items its ;; ret (v :: vs)
  end.

(** The values: of a binder the address, of a proxy that of the proxy of its handle. *)
Definition strong_value (b : option ibinder) : Z :=
  match b with
  | Some (LocalBinder this _) => this
  | Some (RemoteBinder _ h) => default 0 (getStrongProxyForHandle h)
  | Some (NullProxy _) => default 0 (getStrongProxyForHandle 0)
  | None => 0
  end.
Definition weak_value (b : option wpointer) : read_weak :=
  match b with
  | Some b =>
      let proxy h := match getWeakProxyForHandle h with Some b => WeakFrom b | None => WeakNull end in
      match wp_promote b with
      | Some (LocalBinder _ _) => WeakSet (wp_ptr b) (wp_refs b)
      | Some (RemoteBinder _ h) => proxy h
      | Some (NullProxy _) => proxy 0
      | None => WeakNull
      end
  | None => WeakNull
  end.
Definition value_of (it : item) : value :=
  match it with
  | IInt32 v | IInt64 v | IIntPtr v | IFloat v | IDouble v => VInt v
  | IData l => VBytes l
  | ICString s => VCString (Some s)
  | IString8 s => VBytes s
  | IString16 s => VBytes (default [] s)
  | IStrong b => VBinder (strong_value b)
  | IWeak b => VWeak (weak_value b)
  | IFd fd _ => VInt fd
  end.

(** The items of their types: numbers in range, strings without what ends them,
    objects with addresses. *)
Definition binder_ok (b : ibinder) : Prop :=
  match b with
  | LocalBinder this refs => is_word this ∧ is_word refs ∧ refs ≠ 0
  | RemoteBinder _ h => is_s32 h
  | NullProxy _ => True
  end.
Definition is_unit (c : Z) : Prop := 0 ≤ c < 2 ^ 16.
Definition item_ok (it : item) : Prop :=
  match it with
  | IInt32 v | IIntPtr v => is_s32 v
  | IInt64 v => is_s64 v
  | IFloat v => is_u32 v
  | IDouble v => is_u64 v
  | IData l => Forall is_byte l
  | ICString s => Forall is_byte s ∧ 0 ∉ s
  | IString8 s => Forall is_byte s
  | IString16 s => Forall is_unit (default [] s)
  | IStrong b => from_option binder_ok True b
  | IWeak (Some b) => is_word (wp_refs b) ∧ is_word (wp_ptr b) ∧ wp_refs b ≠ 0 ∧ from_option binder_ok True (wp_promote b)
  | IWeak None => True
  | IFd fd _ => is_s32 fd
  end.

(** The object an item is, with how it is written; the bytes of an item. *)
Definition object_of (it : item) : option (flat * bool) :=
  match it with
  | IStrong b => Some (strong_flat b, false)
  | IWeak b => Some (weak_flat b, false)
  | IFd fd own => Some (fd_flat fd own, true)
  | _ => None
  end.
Definition item_bytes (it : item) : list Z :=
  match it with
  | IInt32 v | IIntPtr v => word_bytes (u32 v)
  | IInt64 v => long_bytes v
  | IFloat b => word_bytes b
  | IDouble b => long_bytes b
  | IData l => padded l
  | ICString s => padded (s ++ [0])
  | IString8 s => string8_bytes s
  | IString16 None => word_bytes (u32 (-1))
  | IString16 (Some s) => string16_bytes s
  | IStrong b => flat_bytes (strong_flat b)
  | IWeak b => flat_bytes (weak_flat b)
  | IFd fd own => flat_bytes (fd_flat fd own)
  end.
Definition add_item (a : held) (it : item) : held :=
  match object_of it with
  | Some (o, nm) => add_object a o nm
  | None => add_bytes a (item_bytes it)
  end.
Definition add_items (a : held) (its : list item) : held := foldl add_item a its.

(** The places of the objects that are in the list, from [pos] on. *)
Definition listed (it : item) : bool := match object_of it with Some (o, nm) => has_meta nm o | None => false end.
Fixpoint places (pos : Z) (its : list item) : list Z :=
  match its with
  | [] => []
  | it :: its => (if listed it then [pos] else []) ++ places (pos + len (item_bytes it)) its
  end.
Definition items_bytes (its : list item) : list Z := concat (item_bytes <$> its).

Lemma items_bytes_cons it its : items_bytes (it :: its) = item_bytes it ++ items_bytes its.
Proof. done. Qed.
Lemma add_item_data a it : a_data (add_item a it) = a_data a ++ item_bytes it.
Proof. unfold add_item, add_object. destruct it; cbn [object_of]; try done; by destruct (has_meta _ _). Qed.
Lemma add_items_data a its : a_data (add_items a its) = a_data a ++ items_bytes its.
Proof.
  revert a. induction its as [|it its IH]; intros a; cbn [add_items foldl]; [by rewrite app_nil_r|].
  fold (add_items (add_item a it) its). by rewrite IH, add_item_data, items_bytes_cons, app_assoc.
Qed.
Lemma add_item_objs a it : a_objs (add_item a it) = a_objs a ++ (if listed it then [len (a_data a)] else []).
Proof.
  unfold add_item, listed. destruct (object_of it) as [[o nm]|]; [|by cbn; rewrite app_nil_r].
  unfold add_object. destruct (has_meta nm o); cbn; [done|by rewrite app_nil_r].
Qed.
Lemma add_items_objs a its : a_objs (add_items a its) = a_objs a ++ places (len (a_data a)) its.
Proof.
  revert a. induction its as [|it its IH]; intros a; cbn [add_items foldl places]; [by rewrite app_nil_r|].
  fold (add_items (add_item a it) its). by rewrite IH, add_item_objs, add_item_data, len_app, <-app_assoc.
Qed.
Lemma add_item_same a it : a_err (add_item a it) = a_err a ∧ a_allow (add_item a it) = a_allow a.
Proof. unfold add_item, add_object. destruct (object_of it) as [[o nm]|]; [|done]. by destruct (has_meta nm o). Qed.

(** Objects take sixteen bytes, so that the places are in order, and not too many. *)
Lemma listed_len it : listed it = true → len (item_bytes it) = 16.
Proof. destruct it; cbn; done. Qed.
Lemma places_range pos its : Forall (λ x, pos ≤ x ∧ x + 16 ≤ pos + len (items_bytes its)) (places pos its).
Proof.
  revert pos. induction its as [|it its IH]; intros pos; cbn [places]; [constructor|].
  rewrite items_bytes_cons, len_app. pose proof (len_nonneg (item_bytes it)). pose proof (len_nonneg (items_bytes its)).
  apply Forall_app. split.
  - destruct (listed it) eqn:El; [|constructor]. apply listed_len in El. repeat constructor; lia.
  - eapply Forall_impl; [apply IH|]. cbv beta. intros x ?. lia.
Qed.
Lemma places_sorted pos its : StronglySorted Z.lt (places pos its).
Proof.
  revert pos. induction its as [|it its IH]; intros pos; cbn [places]; [constructor|].
  destruct (listed it) eqn:El; [|apply IH]. cbn [app]. constructor; [apply IH|]. apply listed_len in El.
  eapply Forall_impl; [apply places_range|]. cbv beta. intros x ?. lia.
Qed.
Lemma places_len pos its : 16 * len (places pos its) ≤ len (items_bytes its).
Proof.
  revert pos. induction its as [|it its IH]; intros pos; cbn [places]; [done|].
  rewrite items_bytes_cons, !len_app. specialize (IH (pos + len (item_bytes it))). pose proof (len_nonneg (item_bytes it)).
  destruct (listed it) eqn:El; [apply listed_len in El; change (len [pos]) with 1|change (len []) with 0]; lia.
Qed.
Lemma items_bytes_app its its' : items_bytes (its ++ its') = items_bytes its ++ items_bytes its'.
Proof. unfold items_bytes. by rewrite fmap_app, concat_app. Qed.

(** ** Writing items *)

Lemma is_s32_word h : is_word (u32 h).
Proof. apply u32_range. Qed.
Lemma strong_flat_words b : from_option binder_ok True b → flat_words (strong_flat b).
Proof.
  assert (is_word BINDER_TYPE_BINDER ∧ is_word BINDER_TYPE_HANDLE ∧ is_word FLAT_BINDER_FLAGS ∧ is_word 0) as (? & ? & ? & ?)
    by (repeat split; by vm_compute).
  destruct b as [[this refs|this h|this]|]; cbn; [intros (? & ? & ?)|intros _..]; unfold flat_words; cbn; split_and!; try done; apply u32_range.
Qed.
Lemma weak_flat_words b : item_ok (IWeak b) → flat_words (weak_flat b).
Proof.
  assert (is_word BINDER_TYPE_BINDER ∧ is_word BINDER_TYPE_WEAK_BINDER ∧ is_word BINDER_TYPE_WEAK_HANDLE ∧ is_word FLAT_BINDER_FLAGS ∧ is_word 0)
    as (? & ? & ? & ? & ?) by (repeat split; by vm_compute).
  destruct b as [[refs this [[]|]]|]; cbn; [intros (? & ? & ? & ?)..|intros _]; unfold flat_words; cbn; split_and!; try done; apply u32_range.
Qed.
Lemma fd_flat_words fd own : flat_words (fd_flat fd own).
Proof.
  assert (is_word BINDER_TYPE_FD ∧ is_word FLAT_BINDER_FLAGS ∧ is_word 0 ∧ is_word 1) as (? & ? & ? & ?) by (repeat split; by vm_compute).
  unfold fd_flat, flat_words; cbn. split_and!; try done; [apply u32_range|by destruct own].
Qed.

Lemma write_item_outcome p a it : holds p a → a_err a = NO_ERROR → a_allow a = true → item_ok it →
  len (a_data a) + len (item_bytes it) ≤ PARCEL_MAX → len (a_objs a) ≤ 2 ^ 26 →
  wp (write_item it) (outcome a (add_item a it)) p.
Proof.
  intros Hh He Hal Hok Hm Hom. pose proof (len_nonneg (a_data a)).
  assert (∀ v, Forall is_byte v → len (a_data a) + len v ≤ PARCEL_MAX → wp (writeAligned v) (outcome a (add_bytes a v)) p) as Hal' by (intros; by apply writeAligned_outcome).
  assert (∀ o nm, len (a_data a) + 16 ≤ PARCEL_MAX → wp (writeObject o nm) (outcome a (add_object a o nm)) p) as Hobj
    by (intros; apply writeObject_outcome; [done|by intros _|done|done]).
  destruct it as [v|v|v|v|v|l|s|s|[s|]|b|b|fd own]; unfold add_item; cbn [object_of write_item item_bytes item_ok] in *.
  - apply Hal'; [apply word_bytes_byte|done].
  - apply Hal'; [apply long_bytes_byte|done].
  - apply Hal'; [apply word_bytes_byte|done].
  - apply Hal'; [apply word_bytes_byte|done].
  - apply Hal'; [apply long_bytes_byte|done].
  - by apply write_padded_outcome.
  - apply write_padded_outcome; [done..| |done]. destruct Hok. bytes. repeat constructor; lia.
  - by apply writeString8_outcome.
  - by apply writeString16_outcome.
  - apply Hal'; [apply word_bytes_byte|done].
  - by apply Hobj.
  - by apply Hobj.
  - by apply Hobj.
Qed.

(** ** Reading items *)

Lemma at_prefix d1 v w d2 : at_ (d1 ++ (v ++ w) ++ d2) (len d1) (len v) = v.
Proof. rewrite <-app_assoc. apply at_app. Qed.
Lemma word_at_app d1 w d2 : is_word w → word_at (d1 ++ word_bytes w ++ d2) (len d1) = w.
Proof.
  intros Hw. unfold word_at. change 4 with (len (word_bytes w)). rewrite at_app. unfold word_bytes. cbn [words_of head default].
  by apply word_bytes_spec.
Qed.
Lemma s32_u32 v : is_s32 v → s32 (u32 v) = v.
Proof. unfold is_s32, s32, u32. intros. Z.to_euclidean_division_equations; lia. Qed.
Lemma long_at_app d1 v d2 : long_at (d1 ++ long_bytes v ++ d2) (len d1) = v mod 2 ^ 64.
Proof.
  unfold long_at, long_bytes. rewrite <-app_assoc. set (lo := v mod 2 ^ 32). set (hi := v / 2 ^ 32 mod 2 ^ 32).
  assert (is_word lo ∧ is_word hi) as [Hlo Hhi] by (split; apply Z.mod_pos_bound; lia). rewrite word_at_app by done.
  replace (len d1 + 4) with (len (d1 ++ word_bytes lo)) by (rewrite len_app; done). rewrite app_assoc, word_at_app by done.
  unfold lo, hi. clear. Z.to_euclidean_division_equations; lia.
Qed.
Lemma s64_mod v : is_s64 v → s64 (v mod 2 ^ 64) = v.
Proof. unfold is_s64, s64. intros. Z.to_euclidean_division_equations; lia. Qed.
Lemma flat_at_app d1 o d2 : flat_words o → flat_at (d1 ++ flat_bytes o ++ d2) (len d1) = Some o.
Proof.
  intros (? & ? & ? & ?). unfold flat_at. change 16%nat with (length (flat_bytes o)). unfold len. rewrite Nat2Z.id, drop_app_length, take_app_length.
  unfold flat_bytes, word_bytes. cbn [app words_of]. rewrite !word_bytes_spec by done. by destruct o.
Qed.
Lemma char16s_of_bytes s : Forall is_unit s → char16s_of (concat (char16_bytes <$> s)) = s.
Proof.
  induction 1 as [|c s Hc _ IH]; [done|]. cbn [fmap list_fmap concat char16_bytes app char16s_of]. rewrite IH. f_equal.
  unfold is_unit in Hc. Z.to_euclidean_division_equations; lia.
Qed.

(** An object is read where it was written. *)
Lemma readObject_written p d os tr d1 d2 o nm : reads p d os tr (len d1) → d = d1 ++ flat_bytes o ++ d2 → flat_words o →
  StronglySorted Z.lt os → (has_meta nm o = true → len d1 ∈ os) → (nm = false → f_binder o = 0 → f_cookie o = 0) →
  wp (readObject nm) (λ r p', r = Some o ∧ reads p' d os tr (len d1 + 16)) p.
Proof.
  intros Hr Ed Hw Hs Hin Hnull. eapply wp_mono; [by apply (readObject_spec p d os tr (len d1) nm)|]. cbv beta.
  intros r p'. rewrite decide_True.
  2:{ rewrite Ed, !len_app. change (len (flat_bytes o)) with 16. pose proof (len_nonneg d2). lia. }
  intros (Hr' & o' & found & Ho & [_ Hf] & ->). split; [|done]. rewrite Ed, flat_at_app in Ho by done. injection Ho as <-.
  rewrite Hf by done. unfold null_object, has_meta in *. destruct nm; cbn [negb andb orb] in *.
  - by rewrite bool_decide_true by auto.
  - destruct (decide (f_binder o = 0)) as [H0|H0].
    + rewrite (bool_decide_true (_ ∧ _)) by auto. done.
    + rewrite (bool_decide_false (_ ∧ _)) by tauto. cbn [orb]. rewrite bool_decide_true; [done|]. apply Hin. by apply bool_decide_eq_true.
Qed.

Lemma s32_handle h ty fl ck : is_s32 h → handle (Flat ty fl (u32 h) ck) = h.
Proof. apply s32_u32. Qed.

Lemma unflatten_strong b : from_option binder_ok True b → unflatten (Some (strong_flat b)) = (NO_ERROR, strong_value b).
Proof.
  intros Hok. destruct b as [[this refs|this h|this]|]; unfold unflatten; cbn -[BINDER_TYPE_BINDER BINDER_TYPE_HANDLE handle].
  - by rewrite bool_decide_true.
  - rewrite bool_decide_false, bool_decide_true by done. by rewrite s32_handle.
  - by rewrite bool_decide_false, bool_decide_true by done.
  - by rewrite bool_decide_true.
Qed.

Lemma unflatten_weak_value b : item_ok (IWeak b) → unflatten_weak (Some (weak_flat b)) = (NO_ERROR, weak_value b).
Proof.
  intros Hok. unfold unflatten_weak. destruct b as [[refs this [[this' refs'|this' h|this']|]]|];
    cbn -[BINDER_TYPE_BINDER BINDER_TYPE_WEAK_BINDER BINDER_TYPE_HANDLE BINDER_TYPE_WEAK_HANDLE handle] in *.
  - destruct Hok as (_ & _ & ? & _). rewrite bool_decide_false by done. rewrite bool_decide_true by done. by rewrite bool_decide_true by done.
  - rewrite !bool_decide_false by done. rewrite bool_decide_true by auto. rewrite s32_handle; [done|]. tauto.
  - rewrite !bool_decide_false by done. by rewrite bool_decide_true by auto.
  - by rewrite !bool_decide_true by done.
  - by rewrite !bool_decide_true by done.
Qed.

Lemma at_padded d1 l d2 : at_ (d1 ++ padded l ++ d2) (len d1) (len l) = l.
Proof. apply at_prefix. Qed.
Lemma drop_len {A} (d1 d2 : list A) : drop (Z.to_nat (len d1)) (d1 ++ d2) = d2.
Proof. unfold len. by rewrite Nat2Z.id, drop_app_length. Qed.
Lemma before_nul_app s r : 0 ∉ s → before_nul (s ++ 0 :: r) = s.
Proof.
  induction s as [|b s IH]; intros H0; [done|]. rewrite elem_of_cons in H0. cbn [app before_nul]. case_decide; [naive_solver|]. f_equal. apply IH. naive_solver.
Qed.
Lemma fits (d1 v d2 : list Z) : len d1 + len v ≤ len (d1 ++ v ++ d2).
Proof. rewrite !len_app. pose proof (len_nonneg d2). lia. Qed.


Lemma read_number (m : op Z) p d os tr d1 v d2 x n : d = d1 ++ v ++ d2 → len v = n →
  wp m (read_or_0 p (bool_decide (len d1 + n ≤ len d)) x (λ p', reads p' d os tr (len d1 + n))) p →
  wp (r <- m ;; ret (VInt r)) (λ r p', r = VInt x ∧ reads p' d os tr (len d1 + len v)) p.
Proof.
  intros -> <- Hm. rewrite bool_decide_true in Hm by apply fits. wp_steps. eapply wp_mono; [exact Hm|].
  cbv beta. intros r p' [-> ?]. by wp_steps.
Qed.

(** The length in front of a string. *)
Lemma word_at_length d1 n v d2 : 0 ≤ n ≤ PARCEL_MAX → s32 (word_at (d1 ++ (word_bytes n ++ v) ++ d2) (len d1)) = n.
Proof. unfold PARCEL_MAX. intros. rewrite <-(app_assoc (word_bytes _)), word_at_app by (unfold is_word; lia). apply s32_small. lia. Qed.
Lemma at_behind d1 n b z d2 : at_ (d1 ++ (word_bytes n ++ (b ++ z)) ++ d2) (len d1 + 4) (len b) = b.
Proof.
  replace (len d1 + 4) with (len (d1 ++ word_bytes n)) by (rewrite len_app; done).
  by rewrite <-(app_assoc (word_bytes _)), app_assoc, at_prefix.
Qed.

Lemma read_string8_item p os tr d1 s d2 : Forall is_byte s → reads p (d1 ++ string8_bytes s ++ d2) os tr (len d1) →
  wp (s <- readString8 ;; ret (VBytes s)) (λ v p', v = VBytes s ∧ reads p' (d1 ++ string8_bytes s ++ d2) os tr (len d1 + len (string8_bytes s))) p.
Proof.
  intros Hs Hr. pose proof (r_max _ _ _ _ _ Hr) as Hm. pose proof (fits d1 (string8_bytes s) d2) as Hf. pose proof (len_nonneg d1).
  pose proof (len_nonneg s). wp_steps. eapply wp_mono; [by apply readString8_spec|]. cbv beta zeta. intros r p'.
  destruct (decide (s = [])) as [->|Hnil].
  - change (string8_bytes []) with (word_bytes 0 ++ []) in *. rewrite word_at_length by (unfold PARCEL_MAX; lia).
    change (len (word_bytes 0 ++ [])) with 4 in *. rewrite decide_True by lia. rewrite decide_False by lia. intros [-> ?]. by wp_steps.
  - assert (string8_bytes s = word_bytes (len s) ++ padded (s ++ [0])) as Es by (unfold string8_bytes; by rewrite decide_False by done).
    rewrite Es in *. rewrite (len_app (word_bytes _)) in *. change (len (word_bytes (len s))) with 4 in *.
    destruct (len_padded (s ++ [0])) as [Hl Hp]; [lia|]. rewrite (len_app s) in *. change (len [0]) with 1 in *. rewrite Hp in *.
    rewrite word_at_length by lia. unfold PARCEL_MAX in *. pose proof (PAD_SIZE_range (len s + 1) ltac:(lia)).
    assert (0 < len s) by (destruct s; [done|unfold len; cbn [length]; lia]). unfold INT32_MAX. rewrite !decide_True by lia.
    intros [-> ?]. wp_steps. rewrite Z.add_assoc. split; [|done]. f_equal. unfold padded. by rewrite <-(app_assoc s), at_behind.
Qed.
Lemma read_string16_item p os tr d1 s d2 : Forall is_unit s → reads p (d1 ++ string16_bytes s ++ d2) os tr (len d1) →
  wp (s <- readString16 ;; ret (VBytes s)) (λ v p', v = VBytes s ∧ reads p' (d1 ++ string16_bytes s ++ d2) os tr (len d1 + len (string16_bytes s))) p.
Proof.
  intros Hs Hr. pose proof (r_max _ _ _ _ _ Hr) as Hm. pose proof (fits d1 (string16_bytes s) d2) as Hf. pose proof (len_nonneg d1).
  pose proof (len_nonneg s). unfold string16_bytes in *. set (b := concat (char16_bytes <$> s)) in *.
  assert (len b = 2 * len s) as Hb by apply char16_bytes_len.
  rewrite (len_app (word_bytes _)) in *. change (len (word_bytes (len s))) with 4 in *.
  destruct (len_padded (b ++ [0; 0])) as [Hl Hp]; [lia|]. rewrite (len_app b), Hb in *. change (len [0; 0]) with 2 in *. rewrite Hp in *.
  unfold PARCEL_MAX in *. pose proof (PAD_SIZE_range (2 * len s + 2) ltac:(lia)).
  pose proof (word_at_length d1 (len s) (padded (b ++ [0; 0])) d2 ltac:(unfold PARCEL_MAX; lia)) as Hn.
  wp_steps. eapply wp_mono; [apply readString16_spec; [exact Hr|rewrite Hn; unfold INT32_MAX; lia]|]. cbv beta zeta. intros r p'.
  rewrite Hn. unfold INT32_MAX. rewrite !decide_True by lia. intros [-> ?]. wp_steps. rewrite Z.add_assoc. split; [|done].
  f_equal. unfold padded. rewrite <-(app_assoc b), <-Hb, at_behind. by apply char16s_of_bytes.
Qed.

Lemma unflatten_fd_value fd own : is_s32 fd → unflatten_fd (Some (fd_flat fd own)) = fd.
Proof. intros. unfold unflatten_fd. rewrite bool_decide_true by done. by apply s32_handle. Qed.

(** One item, where it was written. *)
Definition reads_back (p : parcel) (d os : list Z) (tr : list event * option Z) (d1 : list Z) (it : item) : Prop :=
  wp (read_item it) (λ v p', v = value_of it ∧ reads p' d os tr (len d1 + len (item_bytes it))) p.
Lemma read_object_back {A} p d os tr d1 d2 it o nm (m : op A) (f : option flat → A) (g : A → value) :
  (∀ q, read_item it q = (x <- m ;; ret (g x)) q) → (∀ q, m q = (r <- readObject nm ;; ret (f r)) q) →
  item_bytes it = flat_bytes o → g (f (Some o)) = value_of it →
  reads p d os tr (len d1) → d = d1 ++ flat_bytes o ++ d2 → flat_words o → StronglySorted Z.lt os →
  (has_meta nm o = true → len d1 ∈ os) → (nm = false → f_binder o = 0 → f_cookie o = 0) →
  reads_back p d os tr d1 it.
Proof.
  intros Ei Em Eb Hv Hr Ed Hw Hs Hin Hnull. unfold reads_back. rewrite Eb. unfold wp. rewrite Ei. fold (wp (x <- m ;; ret (g x)) (λ v p',
    v = value_of it ∧ reads p' d os tr (len d1 + len (flat_bytes o))) p). wp_steps. unfold wp at 1. rewrite Em.
  fold (wp (r <- readObject nm ;; ret (f r)) (λ x, wp (ret (g x)) (λ v p', v = value_of it ∧ reads p' d os tr (len d1 + len (flat_bytes o)))) p).
  wp_steps. eapply wp_mono; [by eapply (readObject_written p d os tr d1 d2 o nm)|]. cbv beta. intros r p' [-> ?]. by wp_steps.
Qed.

Lemma read_number_item p os tr d1 d2 it : item_ok it → reads p (d1 ++ item_bytes it ++ d2) os tr (len d1) →
  match it with IInt32 _ | IInt64 _ | IIntPtr _ | IFloat _ | IDouble _ => True | _ => False end →
  reads_back p (d1 ++ item_bytes it ++ d2) os tr d1 it.
Proof.
  intros Hok Hr Hit. destruct (read_values p _ os tr (len d1) Hr) as (H1 & H2 & H3 & H4 & H5). unfold reads_back.
  destruct it as [v|v|v|v|v|l|s|s|s|b|b|fd own]; try done; cbn [item_bytes item_ok value_of read_item] in *;
    (eapply read_number; [done|done|]); rewrite ?word_at_app, ?long_at_app in * by (done || apply u32_range).
  - by rewrite s32_u32 in H1.
  - by rewrite s64_mod in H4.
  - by rewrite s32_u32 in H2.
  - done.
  - by rewrite Z.mod_small in H5.
Qed.

Lemma read_item_back p os tr d1 d2 it : item_ok it → reads p (d1 ++ item_bytes it ++ d2) os tr (len d1) →
  StronglySorted Z.lt os → (listed it = true → len d1 ∈ os) → len d1 mod 4 = 0 → len (d1 ++ item_bytes it ++ d2) mod 4 = 0 →
  reads_back p (d1 ++ item_bytes it ++ d2) os tr d1 it.
Proof.
  intros Hok Hr Hs Hin H4 Hd4. destruct it as [v|v|v|v|v|l|s|s|s|b|b|fd own]; try (by apply read_number_item).
  - unfold reads_back. cbn [item_bytes value_of read_item item_ok] in *. pose proof (r_max _ _ _ _ _ Hr) as Hm.
    pose proof (fits d1 (padded l) d2). pose proof (len_nonneg d1). pose proof (len_nonneg l). destruct (len_padded l) as [Hl Hp]; [lia|].
    unfold PARCEL_MAX in Hl, Hm. wp_steps. eapply wp_mono; [eapply read_spec; [exact Hr|lia]|].
    cbv beta. intros r p'. rewrite <-Hp, decide_True by done. intros [-> ?]. wp_steps. cbn [snd]. by rewrite at_padded.
  - unfold reads_back. cbn [item_bytes value_of read_item item_ok] in *. destruct Hok as [Hb H0]. pose proof (r_max _ _ _ _ _ Hr) as Hm.
    pose proof (fits d1 (padded (s ++ [0])) d2). pose proof (len_nonneg d1). destruct (len_padded (s ++ [0])) as [Hl Hp]; [lia|].
    wp_steps. eapply wp_mono; [by eapply readCString_spec|]. cbv beta zeta. intros r p'.
    replace (drop (Z.to_nat (len d1)) (d1 ++ padded (s ++ [0]) ++ d2))
      with (s ++ 0 :: replicate (Z.to_nat (PAD_SIZE (len (s ++ [0])) - len (s ++ [0]))) 0 ++ d2)
      by (rewrite drop_len; unfold padded; by rewrite <-!app_assoc).
    rewrite before_nul_app by done.
    rewrite decide_True by set_solver. intros (-> & ? & ?). wp_steps. split; [done|]. rewrite Hp, len_app. done.
  - by apply read_string8_item.
  - destruct s as [s|]; [by apply read_string16_item|].
    unfold reads_back. cbn [item_bytes value_of read_item item_ok default] in *. pose proof (fits d1 (word_bytes (u32 (-1))) d2) as Hf.
    wp_steps. eapply wp_mono; [apply readString16_spec; [done|]|]; rewrite word_at_app by apply u32_range; [done|].
    cbv beta zeta. intros r p'. change (len (word_bytes (u32 (-1)))) with 4 in *. rewrite decide_True by done.
    rewrite decide_False; [|intros [[Hx _] _]; vm_compute in Hx; congruence]. intros [-> ?]. by wp_steps.
  - apply (read_object_back p _ os tr d1 d2 _ (strong_flat b) false readStrongBinder (λ r, (unflatten r).2) VBinder); try done.
    + intros q. unfold readStrongBinder, unflatten_binder, bind. by destruct (readObject false q).
    + by rewrite unflatten_strong.
    + by apply strong_flat_words.
    + destruct b as [[]|]; cbn in *; tauto || done.
  - apply (read_object_back p _ os tr d1 d2 _ (weak_flat b) false readWeakBinder (λ r, (unflatten_weak r).2) VWeak); try done.
    + intros q. unfold readWeakBinder, unflatten_weak_binder, bind. by destruct (readObject false q).
    + by rewrite unflatten_weak_value.
    + by apply weak_flat_words.
    + destruct b as [[? ? [[]|]]|]; cbn in *; tauto || done.
  - apply (read_object_back p _ os tr d1 d2 _ (fd_flat fd own) true readFileDescriptor unflatten_fd VInt); try done.
    + by rewrite unflatten_fd_value.
    + apply fd_flat_words.
Qed.

(** ** Sequences of items *)

Lemma item_bytes_len4 it : len (item_bytes it) ≤ PARCEL_MAX → len (item_bytes it) mod 4 = 0.
Proof.
  assert (∀ v, len (padded v) ≤ PARCEL_MAX → len (padded v) mod 4 = 0) as Hp.
  { intros v Hv. destruct (len_padded v Hv) as [Hl ->]. unfold PARCEL_MAX in Hl. pose proof (len_nonneg v). apply PAD_SIZE_spec. lia. }
  assert (∀ n v, len (padded v) ≤ PARCEL_MAX → len (word_bytes n ++ padded v) mod 4 = 0) as Hw.
  { intros n v Hv. rewrite len_app. change (len (word_bytes n)) with 4. specialize (Hp v Hv). Z.to_euclidean_division_equations; lia. }
  destruct it as [v|v|v|v|v|l|s|s|[s|]|b|b|fd own]; cbn [item_bytes]; intros Hm; try done; auto.
  - unfold string8_bytes in *. case_decide; [done|]. apply Hw. rewrite len_app in Hm. change (len (word_bytes (len s))) with 4 in Hm. lia.
  - apply Hw. unfold string16_bytes in Hm. rewrite len_app in Hm. change (len (word_bytes (len s))) with 4 in Hm. lia.
Qed.
Lemma items_bytes_len4 its : len (items_bytes its) ≤ PARCEL_MAX → len (items_bytes its) mod 4 = 0.
Proof.
  induction its as [|it its IH]; [done|]. rewrite items_bytes_cons, len_app. intros Hm.
  pose proof (len_nonneg (item_bytes it)). pose proof (len_nonneg (items_bytes its)).
  pose proof (item_bytes_len4 it ltac:(lia)). specialize (IH ltac:(lia)). Z.to_euclidean_division_equations; lia.
Qed.

Definition written (a : held) (its : list item) (err : Z) (p : parcel) : Prop :=
  ∃ ok rest b, its = ok ++ rest ∧ extends (add_items a ok) b ∧ holds p b ∧
    (err = NO_ERROR ∧ rest = [] ∧ b = add_items a ok ∨ err = NO_MEMORY ∧ out_of_memory).

Lemma write_items_spec its p a : holds p a → a_err a = NO_ERROR → a_allow a = true → Forall item_ok its →
  len (a_data a) + len (items_bytes its) ≤ PARCEL_MAX → 16 * len (a_objs a) ≤ len (a_data a) →
  wp (write_items its) (written a its) p.
Proof.
  intros Hh He Hal Hok. revert p a Hh He Hal. induction Hok as [|it its Hit _ IH]; intros p a Hh He Hal Hm Hom; cbn [write_items].
  - wp_steps. exists [], [], a. split_and!; try done. by left.
  - rewrite items_bytes_cons, len_app in Hm. pose proof (len_nonneg (item_bytes it)). pose proof (len_nonneg (items_bytes its)).
    pose proof Hm as Hm'. unfold PARCEL_MAX in Hm'.
    wp_steps. eapply wp_mono; [apply (write_item_outcome p a it); try done; lia|]. cbv beta.
    intros err p' [[-> Hh']|(-> & Ho & b & Hb & Hx)].
    + rewrite bool_decide_true by done. destruct (add_item_same a it) as [E1 E2]. eapply wp_mono; [apply (IH p' (add_item a it)); try done|].
      * by rewrite E1.
      * by rewrite E2.
      * rewrite add_item_data, len_app. lia.
      * rewrite add_item_data, add_item_objs, !len_app. destruct (listed it) eqn:El.
        -- apply listed_len in El. change (len [len (a_data a)]) with 1. lia.
        -- change (len []) with 0. lia.
      * cbv beta. intros err p2 (ok & rest & b & -> & Hx & Hb & Hr). exists (it :: ok), rest, b. done.
    + rewrite bool_decide_false by done. wp_steps. exists [], (it :: its), b. split_and!; try done. by right.
Qed.

Lemma read_items_spec its p d os tr d1 d2 : Forall item_ok its → reads p d os tr (len d1) → d = d1 ++ items_bytes its ++ d2 →
  StronglySorted Z.lt os → (∀ x, x ∈ places (len d1) its → x ∈ os) → len d1 mod 4 = 0 → len d mod 4 = 0 →
  wp (read_items its) (λ vs _, vs = value_of <$> its) p.
Proof.
  intros Hok. revert p d1. induction Hok as [|it its Hit _ IH]; intros p d1 Hr Ed Hs Hin H4 Hd4; cbn [read_items]; [by wp_steps|].
  rewrite items_bytes_cons, <-app_assoc in Ed. pose proof (r_max _ _ _ _ _ Hr) as Hm. rewrite Ed, !len_app in Hm.
  pose proof (len_nonneg (item_bytes it)). pose proof (len_nonneg (items_bytes its)). pose proof (len_nonneg d1). pose proof (len_nonneg d2).
  wp_steps. cbn [places] in Hin. subst d. eapply wp_mono; [apply (read_item_back p os tr d1 (items_bytes its ++ d2) it Hit Hr Hs)|].
  - intros Hl. apply Hin. rewrite Hl. set_solver.
  - done.
  - done.
  - cbv beta. intros v p' [-> Hr']. wp_steps. eapply wp_mono; [apply (IH p' (d1 ++ item_bytes it))|].
    + by rewrite len_app.
    + by rewrite <-!app_assoc.
    + done.
    + intros x Hx. apply Hin. rewrite len_app in Hx. set_solver.
    + rewrite len_app. pose proof (item_bytes_len4 it ltac:(lia)). Z.to_euclidean_division_equations; lia.
    + done.
    + cbv beta. intros vs p2 ->. by wp_steps.
Qed.

(** ** Giving the data to another parcel *)

(** What [ipcData] and [ipcObjects] point to. *)
Definition ipc_view (p : parcel) (data objects : list Z) : Prop :=
  c_load (mData p) 0 (mDataSize p) = Some data ∧ c_load (mObjects p) 0 (mObjectsSize p) = Some objects.

Lemma holds_view p a : holds p a → ipc_view p (a_data a) (a_objs a).
Proof.
  intros [_ (r & Hb & _) _ Hs _ (ro & Hbo & _) Hos _ _ _]. split.
  - rewrite Hs. change 0 with (len (@nil Z)). by apply (blk_load _ [] _ r).
  - rewrite Hos. change 0 with (len (@nil Z)). by apply (blk_load _ [] _ ro).
Qed.
Lemma holds_reads p a : holds p a → len (a_data a) ≤ PARCEL_MAX → len (a_objs a) ≤ PARCEL_MAX →
  wp (setDataPosition 0) (λ _ p', reads p' (a_data a) (a_objs a) (a_trace a, None) 0) p.
Proof.
  intros [Ho (r & Hb & _ & Hf) _ Hs _ (ro & Hbo & _) Hos Ht _ _] Hm Hom. unfold setDataPosition. wp_steps.
  pose proof (len_nonneg (a_data a)). split; pj; try done; [by exists r|bytes|by exists ro|by rewrite Ho, Ht].
Qed.

Definition is_fd_at (d : list Z) (off : Z) : bool :=
  match flat_at d off with Some o => bool_decide (f_type o = BINDER_TYPE_FD) | None => false end.
Lemma scanForFds_loop_spec p d os tr pos n i : reads p d os tr pos → Forall (λ x, 0 ≤ x ∧ x + 16 ≤ len d) os →
  Z.of_nat n + Z.of_nat i = len os →
  wp (scanForFds_loop n (Z.of_nat i)) (λ b p', p' = p ∧ b = existsb (is_fd_at d) (drop i os)) p.
Proof.
  intros Hr Hf. revert i. induction n as [|n IH]; intros i Hn; cbn [scanForFds_loop].
  - wp_steps. split; [done|]. unfold len in Hn. by rewrite drop_ge by lia.
  - destruct (get_object_lookup d os tr pos (Z.of_nat i) p Hr ltac:(lia)) as (x & Hx & Hget). rewrite Nat2Z.id in Hx.
    wp_steps. apply Hget. rewrite (drop_S os x i Hx). cbn [existsb].
    assert (0 ≤ x ∧ x + 16 ≤ len d) as [Hx0 Hx16] by (rewrite Forall_forall in Hf; apply Hf; by eapply list_elem_of_lookup_2).
    destruct (flat_at_some d x Hx0 Hx16) as [o Ho]. wp_steps. eapply load_flat_reads; [done..|].
    unfold is_fd_at at 1. rewrite Ho. destruct (bool_decide (f_type o = BINDER_TYPE_FD)); [by wp_steps|]. cbn [orb].
    replace (Z.of_nat i + 1) with (Z.of_nat (S i)) by lia. apply IH. lia.
Qed.
Lemma ipcSetDataReference_spec k tr d os cookie : Forall is_byte d → len d ≤ PARCEL_MAX → len os ≤ PARCEL_MAX →
  Forall (λ x, 0 ≤ x ∧ x + 16 ≤ len d) os →
  wp (ipcSetDataReference d os cookie) (λ _ p', reads p' d os (tr, Some cookie) 0 ∧
    mHasFds p' = existsb (is_fd_at d) os ∧ mFdsKnown p' = true) (parcel_init k tr).
Proof.
  intros Hf Hm Hom Hos. unfold ipcSetDataReference. apply wp_bind. apply (wp_det _ _ _ tt (parcel_init k tr)); [done|].
  unfold scanForFds. wp_steps. pose proof (len_nonneg d).
  set (p := MkParcel NO_ERROR (Block d) (len d) (len d) 0 (Block os) (len os) (len os) 0 true false true (Some cookie) k tr).
  match goal with |- wp _ _ ?q => change q with p end. change (mObjectsSize _) with (len os).
  assert (reads p d os (tr, Some cookie) 0) as Hr.
  { subst p. split; pj; try (done || lia); exists []; rewrite app_nil_r; by left. }
  eapply wp_mono; [apply (scanForFds_loop_spec p d os _ 0 _ 0 Hr Hos); unfold len; lia|].
  cbv beta. intros b p' [-> ->]. wp_steps. split_and!; try done. destruct Hr. split; pj; done.
Qed.
End spec.
