(* ===== verification/ParcelLaws.v ===== *)
(** * The laws of parcels

    What is written is read, by the writer and by the receiver; each reference and file
    taken is given back; and no sequence of reads leaves the bytes of a parcel, whatever
    they are. *)

From Stdlib Require Import ZArith Lia.
From stdpp Require Import base tactics numbers option list sets gmap sorting.
From S2P Require Import Prelude Words CMemory BinderState BinderTxn BinderUser Parcel ParcelHold ParcelRead ParcelItems ParcelSpec.

Section laws.
Context {E : Env}.

(** ** Releasing *)

(** What deleting a parcel does for an object in it. *)
Definition releases (o : flat) : list event :=
  if bool_decide (f_type o = BINDER_TYPE_FD) then
    if bool_decide (f_cookie o ≠ 0) then [Close (handle o)] else []
  else match ref_of o with Some r => [Release r] | None => [] end.

Lemma release_object_run o p : release_object o p = Ret tt (set_trace (trace p ++ releases o) p).
Proof.
  unfold release_object, releases. destruct (bool_decide (f_type o = BINDER_TYPE_FD)).
  - destruct (bool_decide (f_cookie o ≠ 0)); [done|]. rewrite app_nil_r. by destruct p.
  - destruct (ref_of o); [done|]. rewrite app_nil_r. by destruct p.
Qed.

(** The objects in the list are those at their places. *)
Definition listed_flats (its : list item) : list flat :=
  omap (λ it, if listed it then fst <$> object_of it else None) its.
Definition owned_fd (it : item) : option Z := match it with IFd fd true => Some fd | _ => None end.

Lemma object_bytes it o nm : object_of it = Some (o, nm) → item_bytes it = flat_bytes o.
Proof. destruct it; cbn; intros [= <- <-]; done. Qed.
Lemma object_words it o nm : item_ok it → object_of it = Some (o, nm) → flat_words o.
Proof.
  intros Hok. destruct it; cbn [object_of item_ok] in *; intros [= <- <-];
    [by apply strong_flat_words|by apply weak_flat_words|apply fd_flat_words].
Qed.
Lemma flats_at d1 its d2 : Forall item_ok its →
  Forall2 (λ off o, flat_at (d1 ++ items_bytes its ++ d2) off = Some o) (places (len d1) its) (listed_flats its).
Proof.
  intros Hok. revert d1. induction Hok as [|it its Hit _ IH]; intros d1; cbn [places listed_flats omap list_omap]; [constructor|].
  rewrite items_bytes_cons. specialize (IH (d1 ++ item_bytes it)). rewrite len_app in IH.
  replace (d1 ++ (item_bytes it ++ items_bytes its) ++ d2) with ((d1 ++ item_bytes it) ++ items_bytes its ++ d2) by (by rewrite <-!app_assoc).
  destruct (listed it) eqn:El; [|exact IH].
  unfold listed in El. destruct (object_of it) as [[o nm]|] eqn:Eo; [|done]. cbn [fmap option_fmap option_map fst app]. constructor; [|exact IH].
  rewrite <-!app_assoc, (object_bytes _ _ _ Eo). apply flat_at_app. by eapply object_words.
Qed.

Lemma load_flat_held p a i off o (Q : flat → parcel → Prop) : holds p a → a_objs a !! i = Some off →
  0 ≤ off → off + 16 ≤ len (a_data a) → flat_at (a_data a) off = Some o →
  Q o p → wp (off <- get_object (Z.of_nat i) ;; load_flat off) Q p.
Proof.
  intros Hh Hi H0 H16 Ho HQ. destruct Hh as [_ (r & Hb & _) _ _ _ (ro & Hbo & _) _ _ _ _].
  destruct (list_elem_of_split_length _ _ _ Hi) as (o1 & o2 & Eo & Hl). rewrite Eo, <-app_assoc in Hbo. cbn [app] in Hbo.
  unfold get_object. wp_steps. eapply wp_deref; [replace (Z.of_nat i) with (len o1) by (unfold len; lia); by apply (blk_load _ _ [off] (o2 ++ ro))|].
  eapply wp_deref; [done|]. unfold load_flat, load, FLAT_SIZE. wp_steps.
  destruct (at_split (a_data a) off 16 H0 ltac:(lia) H16) as (d1 & d2 & Ed & Hd1 & Hd16). rewrite Ed, <-!app_assoc in Hb.
  eapply wp_deref; [subst off; eapply blk_load; [exact Hb|by symmetry]|]. eapply wp_deref; [|exact HQ]. by rewrite Hd1, flat_at_at.
Qed.

Lemma releaseObjects_loop_spec p a flats n :
  holds p a → Forall2 (λ off o, 0 ≤ off ∧ off + 16 ≤ len (a_data a) ∧ flat_at (a_data a) off = Some o) (take n (a_objs a)) flats →
  (n ≤ length (a_objs a))%nat →
  wp (releaseObjects_loop n) (λ _ p', p' = set_trace (trace p ++ concat (releases <$> rev flats)) p) p.
Proof.
  revert p a flats. induction n as [|n IH]; intros p a flats Hh Hf Hn; cbn [releaseObjects_loop].
  - apply Forall2_nil_inv_l in Hf as ->. wp_steps. cbn. rewrite app_nil_r. by destruct p.
  - destruct (lookup_lt_is_Some_2 (a_objs a) n) as [off Hoff]; [lia|]. rewrite (take_S_r _ _ _ Hoff) in Hf.
    apply Forall2_app_inv_l in Hf as (fl1 & fl2 & Hf1 & Hf2 & ->). apply Forall2_cons_inv_l in Hf2 as (o & l & (H0 & H16 & Ho) & Hl & ->).
    apply Forall2_nil_inv_l in Hl as ->.
    eapply (wp_eq _ (flat <- (off <- get_object (Z.of_nat n) ;; load_flat off) ;; release_object flat ;;; releaseObjects_loop n));
      [by rewrite bind_bind|]. apply wp_bind. eapply load_flat_held; [done..|]. apply wp_bind. eapply wp_det; [apply release_object_run|].
    eapply wp_mono; [apply (IH _ (Held (a_data a) (a_objs a) (trace p ++ releases o) (a_err a) (a_allow a)) fl1)|].
    + destruct Hh. split; pj; done.
    + done.
    + cbn. lia.
    + cbv beta. intros _ p' ->. pj. rewrite rev_app_distr. cbn [rev app fmap list_fmap concat]. by rewrite app_assoc.
Qed.

(** Deleting a parcel that owns its data. *)
Lemma Parcel_delete_spec p a flats : holds p a →
  Forall2 (λ off o, 0 ≤ off ∧ off + 16 ≤ len (a_data a) ∧ flat_at (a_data a) off = Some o) (a_objs a) flats →
  wp Parcel_delete (λ _ p', trace p' = a_trace a ++ concat (releases <$> rev flats) ∧
    (∀ l, mData p' ≠ Block l) ∧ (∀ l, mObjects p' ≠ Block l)) p.
Proof.
  intros Hh Hf. unfold Parcel_delete, freeDataNoInit. wp_steps. rewrite (h_owner _ _ Hh). unfold releaseObjects. wp_steps.
  rewrite (h_objs_size _ _ Hh). unfold len. rewrite Nat2Z.id.
  eapply wp_mono; [apply (releaseObjects_loop_spec p a flats); [done|by rewrite take_ge by lia|lia]|]. cbv beta. intros _ p' ->. pj.
  destruct Hh as [_ (r & Hb & _) _ _ _ (ro & Hbo & _) _ Ht _ _]. rewrite Ht. wp_steps.
  assert (∀ q l, blk q l → ∃ q', c_free q = Some q' ∧ ∀ l', q' ≠ Block l') as Hfree.
  { intros q l [->|[-> _]]; eexists; split; [done|done|done|done]. }
  destruct (Hfree _ _ Hb) as (q1 & E1 & H1). destruct (Hfree _ _ Hbo) as (q2 & E2 & H2).
  eapply wp_deref; [exact E1|]. wp_steps. eapply wp_deref; [exact E2|]. wp_steps. pj. done.
Qed.

(** ** References and files in a history *)

Definition acquired_refs (tr : list event) : list ref := omap (λ e, match e with Acquire r => Some r | _ => None end) tr.
Definition released_refs (tr : list event) : list ref := omap (λ e, match e with Release r => Some r | _ => None end) tr.
Definition closed_fds (tr : list event) : list Z := omap (λ e, match e with Close fd => Some fd | _ => None end) tr.

Lemma add_items_trace a its : a_trace (add_items a its) = a_trace a ++ concat (acquired <$> listed_flats its).
Proof.
  revert a. induction its as [|it its IH]; intros a; cbn [add_items foldl listed_flats omap list_omap]; [by rewrite app_nil_r|].
  fold (add_items (add_item a it) its). rewrite IH. clear IH. unfold add_item, listed. destruct (object_of it) as [[o nm]|]; [|done].
  unfold add_object. destruct (has_meta nm o); [|done]. cbn [a_trace fmap option_fmap option_map fst list_fmap concat]. by rewrite app_assoc.
Qed.
Lemma omap_concat {A B C} (f : B → option C) (g : A → list B) l : omap f (concat (g <$> l)) = concat ((λ x, omap f (g x)) <$> l).
Proof. induction l as [|x l IH]; [done|]. cbn [fmap list_fmap concat]. by rewrite omap_app, IH. Qed.

Lemma ref_of_fd o : f_type o = BINDER_TYPE_FD → ref_of o = None.
Proof. intros Ht. unfold ref_of. by rewrite Ht, !bool_decide_false by done. Qed.
Definition opt_list {A} (o : option A) : list A := match o with Some a => [a] | None => [] end.
Definition fd_of (o : flat) : option Z :=
  if bool_decide (f_type o = BINDER_TYPE_FD ∧ f_cookie o ≠ 0) then Some (handle o) else None.
Lemma events_of o :
  acquired_refs (acquired o) = opt_list (ref_of o) ∧ released_refs (acquired o) = [] ∧ closed_fds (acquired o) = [] ∧
  acquired_refs (releases o) = [] ∧ released_refs (releases o) = opt_list (ref_of o) ∧ closed_fds (releases o) = opt_list (fd_of o).
Proof.
  unfold acquired, releases, fd_of. destruct (bool_decide_reflect (f_type o = BINDER_TYPE_FD)) as [Ht|Ht].
  - rewrite (ref_of_fd o Ht). destruct (bool_decide_reflect (f_cookie o ≠ 0)).
    + by rewrite bool_decide_true by done.
    + by rewrite bool_decide_false by tauto.
  - rewrite bool_decide_false by tauto. by destruct (ref_of o).
Qed.
Lemma concat_opt_list {A B} (f : A → option B) l : concat ((λ x, opt_list (f x)) <$> l) = omap f l.
Proof. induction l as [|x l IH]; [done|]. cbn. rewrite IH. by destruct (f x). Qed.
Lemma concat_nil {A B} (l : list A) : concat ((λ _, @nil B) <$> l) = [].
Proof. by induction l. Qed.

Lemma omap_rev {A B} (f : A → option B) l : omap f (rev l) ≡ₚ omap f l.
Proof. by rewrite <-Permutation_rev. Qed.

(** The history of writing objects and deleting the parcel. *)
Lemma history flats (tr := concat (acquired <$> flats) ++ concat (releases <$> rev flats)) :
  acquired_refs tr = omap ref_of flats ∧ released_refs tr ≡ₚ omap ref_of flats ∧ closed_fds tr ≡ₚ omap fd_of flats.
Proof.
  unfold tr, acquired_refs, released_refs, closed_fds. rewrite !omap_app, !omap_concat.
  pose proof (λ o, proj1 (events_of o)) as H1. pose proof (λ o, proj1 (proj2 (events_of o))) as H2.
  pose proof (λ o, proj1 (proj2 (proj2 (events_of o)))) as H3. pose proof (λ o, proj1 (proj2 (proj2 (proj2 (events_of o))))) as H4.
  pose proof (λ o, proj1 (proj2 (proj2 (proj2 (proj2 (events_of o)))))) as H5.
  pose proof (λ o, proj2 (proj2 (proj2 (proj2 (proj2 (events_of o)))))) as H6.
  unfold acquired_refs, released_refs, closed_fds in *.
  rewrite (list_fmap_ext _ _ flats (λ _ x _, H1 x)), (list_fmap_ext _ _ flats (λ _ x _, H2 x)), (list_fmap_ext _ _ flats (λ _ x _, H3 x)),
    (list_fmap_ext _ _ (rev flats) (λ _ x _, H4 x)), (list_fmap_ext _ _ (rev flats) (λ _ x _, H5 x)), (list_fmap_ext _ _ (rev flats) (λ _ x _, H6 x)).
  rewrite !concat_nil, !concat_opt_list, app_nil_r. split_and!; [done|apply omap_rev|apply omap_rev].
Qed.

Lemma fds_of_items its : Forall item_ok its → omap fd_of (listed_flats its) = omap owned_fd its.
Proof.
  assert (∀ ty fl bi ck, ty ≠ BINDER_TYPE_FD → fd_of (Flat ty fl bi ck) = None) as Hno.
  { intros. unfold fd_of. by rewrite bool_decide_false by (intros [? _]; done). }
  induction 1 as [|it its Hit _ IH]; [done|]. cbn [listed_flats omap list_omap]. fold (listed_flats its).
  unfold listed, has_meta. destruct it as [v|v|v|v|v|l|s|s|s|b|b|fd own]; cbn [object_of owned_fd orb]; try exact IH.
  - assert (fd_of (strong_flat b) = None) as Hb by (destruct b as [[]|]; by apply Hno).
    destruct (bool_decide _); [|exact IH]. cbn [fmap option_fmap option_map fst omap list_omap]. by rewrite Hb.
  - assert (fd_of (weak_flat b) = None) as Hb by (destruct b as [[? ? [[]|]]|]; by apply Hno).
    destruct (bool_decide _); [|exact IH]. cbn [fmap option_fmap option_map fst omap list_omap]. by rewrite Hb.
  - assert (fd_of (fd_flat fd own) = if own then Some fd else None) as Hb.
    { unfold fd_of. destruct own; [rewrite bool_decide_true by (by split); f_equal; by apply s32_handle|by rewrite bool_decide_false by (by intros [_ ?])]. }
    cbn [fmap option_fmap option_map fst omap list_omap]. rewrite Hb. destruct own; [by f_equal|exact IH].
Qed.

(** ** Theorems *)

(** C3: items of any types are written into a new parcel up to a gigabyte, each without
    leaving the blocks of the parcel, unless there is no memory; then they are read back
    in order with their values, by the writer from the start, and by another parcel that
    is given the bytes and the places of the objects. *)
Theorem Parcel_roundtrip (its : list item) (k : nat) (tr : list event)
    (Hok : Forall item_ok its) (Hsize : len (items_bytes its) ≤ PARCEL_MAX) :
  wp (write_items its) (λ err p,
    (err = NO_ERROR ∧
      wp (setDataPosition 0 ;;; read_items its) (λ vs _, vs = value_of <$> its) p ∧
      ∃ data objects, ipc_view p data objects ∧ ∀ cookie k' tr',
        wp (ipcSetDataReference data objects cookie ;;; read_items its) (λ vs _, vs = value_of <$> its) (parcel_init k' tr'))
    ∨ err = NO_MEMORY ∧ out_of_memory) (parcel_init k tr).
Proof.
  eapply wp_mono; [apply (write_items_spec its _ _ (parcel_init_holds k tr)); done|]. cbv beta.
  intros err p (ok & rest & b & -> & _ & Hh & [(-> & -> & ->)|[-> Ho]]); [left|by right]. rewrite app_nil_r in *.
  set (a := add_items _ ok) in *. assert (a_data a = items_bytes ok) as Ed by (unfold a; by rewrite add_items_data).
  assert (a_objs a = places 0 ok) as Eo by (unfold a; by rewrite add_items_objs).
  pose proof (places_len 0 ok). pose proof (len_nonneg (places 0 ok)). unfold PARCEL_MAX in *.
  assert (∀ q tr', reads q (a_data a) (a_objs a) tr' 0 → wp (read_items ok) (λ vs _, vs = value_of <$> ok) q) as Hread.
  { intros q tr' Hr. apply (read_items_spec ok q (a_data a) (a_objs a) tr' [] []); [done|exact Hr|by rewrite app_nil_r| | |done|].
    - rewrite Eo. apply places_sorted.
    - intros x. by rewrite Eo.
    - rewrite Ed. by apply items_bytes_len4. }
  assert (len (a_data a) ≤ 2 ^ 30 ∧ len (a_objs a) ≤ 2 ^ 30) as [Hd Hob] by (rewrite Ed, Eo; lia).
  split; [done|]. split.
  - apply wp_bind. eapply wp_mono; [by apply (holds_reads p a)|]. cbv beta. intros _ q Hr. by eapply Hread.
  - exists (a_data a), (a_objs a). split; [by apply holds_view|]. intros cookie k' tr'. apply wp_bind.
    eapply wp_mono; [apply (ipcSetDataReference_spec k' tr' (a_data a) (a_objs a) cookie); try done|].
    + destruct (h_data _ _ Hh) as (r & _ & _ & Hf). by apply Forall_app in Hf as [? _].
    + rewrite Ed, Eo. eapply Forall_impl; [apply places_range|]. cbv beta. lia.
    + cbv beta. intros _ q [Hr _]. by eapply Hread.
Qed.

(** C12: whatever is written into a parcel, and wherever the writing stops for lack of
    memory, deleting it gives back each reference that was taken, once, closes the files
    it was given to own, of those items that are in it, and frees its blocks. *)
Theorem Parcel_references (its : list item) (k : nat) (Hok : Forall item_ok its) (Hsize : len (items_bytes its) ≤ PARCEL_MAX) :
  wp (err <- write_items its ;; Parcel_delete ;;; ret err) (λ err p,
    ∃ ok rest, its = ok ++ rest ∧ (rest ≠ [] → err = NO_MEMORY ∧ out_of_memory) ∧
      acquired_refs (trace p) = omap ref_of (listed_flats ok) ∧ released_refs (trace p) ≡ₚ acquired_refs (trace p) ∧
      closed_fds (trace p) ≡ₚ omap owned_fd ok ∧
      (∀ l, mData p ≠ Block l) ∧ (∀ l, mObjects p ≠ Block l)) (parcel_init k []).
Proof.
  apply wp_bind. eapply wp_mono; [apply (write_items_spec its _ _ (parcel_init_holds k [])); done|]. cbv beta.
  intros err p (ok & rest & b & -> & ((d2 & Ed) & Eo & Et & _) & Hh & Hr). apply wp_bind.
  rewrite add_items_data in Ed. rewrite add_items_objs in Eo. rewrite add_items_trace in Et. cbn [a_data a_objs a_trace app] in *.
  apply Forall_app in Hok as [Hok _]. pose proof (flats_at [] ok d2 Hok) as Hf. change (len []) with 0 in *. cbn [app] in Hf.
  eapply wp_mono; [apply (Parcel_delete_spec p b (listed_flats ok) Hh)|].
  - rewrite Eo, Ed. pose proof (places_range 0 ok) as Hp. rewrite len_app. pose proof (len_nonneg d2).
    clear -Hf Hp H. induction Hf as [|x o xs os Hx _ IH]; [constructor|]. apply Forall_cons in Hp as [? Hp]. constructor; [|auto].
    split_and!; [lia..|done].
  - cbv beta. intros _ q (Etq & Hd & Ho). apply wp_ret. exists ok, rest. rewrite Etq, Et.
    destruct (history (listed_flats ok)) as (H1 & H2 & H3). split; [done|]. split.
    { destruct Hr as [(_ & -> & _)|?]; [done|]. done. }
    rewrite H1, H2, H3, fds_of_items by done. done.
Qed.

(** *** Reading what anyone has sent *)

(** The requests of a reader, on bytes that need not be what it asks for; the second
    condition is the length that [readString16] does not refuse. *)
Definition request_ok (d : list Z) (it : item) : Prop :=
  match it with
  | IData l => len l ≤ 2 ^ 32 - 4
  | IString16 _ => ∀ pos, s32 (word_at d pos) ≠ INT32_MAX - 1
  | _ => True
  end.
Definition inside (d os : list Z) (tr : list event * option Z) (p : parcel) : Prop := ∃ pos, reads p d os tr pos ∧ pos mod 4 = 0.

Lemma add_mod4 x y : x mod 4 = 0 → y mod 4 = 0 → (x + y) mod 4 = 0.
Proof. intros. Z.to_euclidean_division_equations; lia. Qed.

Lemma read_number_inside (m : op Z) d os tr p pos n x : reads p d os tr pos → pos mod 4 = 0 → n mod 4 = 0 →
  wp m (read_or_0 p (bool_decide (pos + n ≤ len d)) x (λ p', reads p' d os tr (pos + n))) p →
  wp (r <- m ;; ret (VInt r)) (λ _ p', inside d os tr p') p.
Proof.
  intros Hr Hp Hn Hm. wp_steps. eapply wp_mono; [exact Hm|]. unfold read_or_0. cbv beta. intros v p'.
  destruct (bool_decide _); intros [_ H']; wp_steps; [exists (pos + n); split; [done|by apply add_mod4]|].
  subst p'. by exists pos.
Qed.

(** A test in what the goal assumes, and not one elsewhere. *)
Ltac test := repeat match goal with |- (if decide ?P then _ else _) → _ => destruct (decide P) end.

Lemma readObject_inside {A} (m : op A) nm (f : option flat → A) d os tr p pos : reads p d os tr pos → pos mod 4 = 0 →
  (∀ q, m q = (r <- readObject nm ;; ret (f r)) q) → wp m (λ _ p', inside d os tr p') p.
Proof.
  intros Hr Hp Em. eapply wp_eq; [apply Em|]. wp_steps. eapply wp_mono; [by apply (readObject_spec p d os tr pos nm)|].
  cbv beta. intros r p'. test.
  - intros [Hr' _]. wp_steps. exists (pos + 16). split; [done|by apply add_mod4].
  - intros [_ ->]. wp_steps. by exists pos.
Qed.

Lemma read_item_inside it d os tr p : inside d os tr p → request_ok d it → len d mod 4 = 0 →
  wp (read_item it) (λ _ p', inside d os tr p') p.
Proof.
  intros (pos & Hr & Hp) Hit Hd. destruct (read_values p d os tr pos Hr) as (H1 & H2 & H3 & H4 & H5).
  pose proof (r_max _ _ _ _ _ Hr) as Hm. unfold PARCEL_MAX in Hm. pose proof (r_in _ _ _ _ _ Hr).
  destruct it as [v|v|v|v|v|l|s|s|s|b|b|fd own]; cbn [read_item request_ok] in *; 
    try (eapply (read_number_inside _ _ _ _ _ pos 4); [exact Hr|exact Hp|done|eassumption]);
    try (eapply (read_number_inside _ _ _ _ _ pos 8); [exact Hr|exact Hp|done|eassumption]).
  - pose proof (len_nonneg l). pose proof (PAD_SIZE_spec (len l) ltac:(lia)) as [_ Hpad]. wp_steps.
    eapply wp_mono; [eapply read_spec; [exact Hr|lia]|]. cbv beta. intros r p'. test.
    + intros [_ Hr']. wp_steps. eexists. split; [exact Hr'|by apply add_mod4].
    + intros [_ ->]. wp_steps. by exists pos.
  - wp_steps. eapply wp_mono; [eapply readCString_spec; [exact Hr|done|done]|]. cbv beta zeta. intros r p'. match goal with |- (if decide ?P then _ else _) → _ => destruct (decide P) as [H0|] end.
    + intros (_ & Hr' & _). wp_steps. eexists. split; [exact Hr'|]. apply add_mod4; [done|].
      pose proof (before_nul_len _ H0). pose proof (len_nonneg (before_nul (drop (Z.to_nat pos) d))). unfold len in *. rewrite length_drop in *.
      apply PAD_SIZE_spec. lia.
    + intros [_ ->]. wp_steps. by exists pos.
  - wp_steps. eapply wp_mono; [by apply (readString8_spec p d os tr pos)|]. cbv beta zeta. intros r p'. unfold INT32_MAX.
    test; intros [_ Hr']; wp_steps; [| |subst p'; by exists pos]; (eexists; split; [exact Hr'|]); [|by apply add_mod4].
    apply add_mod4; [by apply add_mod4|apply PAD_SIZE_spec; lia].
  - wp_steps. eapply wp_mono; [by apply (readString16_spec p d os tr pos)|]. cbv beta zeta. intros r p'. specialize (Hit pos). unfold INT32_MAX in *.
    test; intros [_ Hr']; wp_steps; [| |subst p'; by exists pos]; (eexists; split; [exact Hr'|]); [|by apply add_mod4].
    apply add_mod4; [by apply add_mod4|apply PAD_SIZE_spec; lia].
  - wp_steps. eapply wp_mono; [eapply (readObject_inside readStrongBinder false (λ r, (unflatten r).2)); [exact Hr|exact Hp|]|cbv beta; intros; by wp_steps].
    intros q. unfold readStrongBinder, unflatten_binder, bind. by destruct (readObject false q).
  - wp_steps. eapply wp_mono; [eapply (readObject_inside readWeakBinder false (λ r, (unflatten_weak r).2)); [exact Hr|exact Hp|]|cbv beta; intros; by wp_steps].
    intros q. unfold readWeakBinder, unflatten_weak_binder, bind. by destruct (readObject false q).
  - wp_steps. eapply wp_mono; [by eapply (readObject_inside readFileDescriptor true unflatten_fd)|cbv beta; intros; by wp_steps].
Qed.

Lemma read_items_inside its d os tr p : inside d os tr p → Forall (request_ok d) its → len d mod 4 = 0 →
  wp (read_items its) (λ vs p', inside d os tr p' ∧ length vs = length its) p.
Proof.
  intros Hi Hits Hd. revert p Hi. induction Hits as [|it its Hit _ IH]; intros p Hi; cbn [read_items]; [by wp_steps|].
  wp_steps. eapply wp_mono; [by apply read_item_inside|]. cbv beta. intros v p' Hi'. wp_steps.
  eapply wp_mono; [by apply IH|]. cbv beta. intros vs p2 [? ?]. wp_steps. split; [done|]. cbn. lia.
Qed.

(** C13: any sequence of reads of numbers, blocks of data (of up to 2^32 - 4 bytes), strings,
    binders and files from a received parcel, its size a multiple of four, whatever
    its bytes and in whatever order the list of its objects is: no read leaves the data
    or the list, or stops, and none takes a reference or a file; deleting the parcel hands
    the data back to who owns it, once.  Where 16-bit strings are read, no word of the data
    is 2^31 - 2, the one length [readString16] does not refuse.  Reading the header of
    an exception or a native handle is not among the reads: both can leave the data
    ([header_trap], [native_handle_trap]). *)
Theorem Parcel_reads_safe (d os : list Z) (its : list item) (cookie : Z) (Hd : Forall is_byte d) (Hsize : len d ≤ PARCEL_MAX)
    (Hd4 : len d mod 4 = 0) (Hos : len os ≤ PARCEL_MAX) (Hin : Forall (λ x, 0 ≤ x ∧ x + 16 ≤ len d) os) (Hits : Forall (request_ok d) its) :
  wp (ipcSetDataReference d os cookie ;;; vs <- read_items its ;; p <- getst ;; Parcel_delete ;;; ret (vs, mDataPos p))
    (λ r p, length r.1 = length its ∧ 0 ≤ r.2 ≤ len d ∧
       ∃ data objects, trace p = [OwnerRelease cookie data (len d) objects (len os)] ∧ (∃ l, blk data (d ++ l)) ∧ ∃ l, blk objects (os ++ l))
    (parcel_init 0 []).
Proof.
  apply wp_bind. eapply wp_mono; [by apply (ipcSetDataReference_spec 0 [] d os cookie)|]. cbv beta. intros _ p (Hr & _). apply wp_bind.
  eapply wp_mono; [apply (read_items_inside its d os ([], Some cookie) p); [by exists 0|done|done]|]. cbv beta. intros vs q ((pos & Hq & _) & Hl).
  destruct Hq as [[l Hb] _ _ Hs Hpos Hin' [lo Hbo] Hos' _ _ Ht]. injection Ht as Ht Ho. wp_steps. unfold Parcel_delete, freeDataNoInit.
  wp_steps. rewrite Ho. unfold event_. wp_steps. cbn [fst snd]. pj. rewrite Hpos, Hs, Hos', Ht.
  split_and!; [done|lia|lia|]. exists (mData q), (mObjects q). split; [done|]. split; [by exists l|by exists lo].
Qed.
End laws.

(** ** Examples *)

Module ParcelDemo.
#[local] Instance demo_env : Env := {|
  heap_answer := λ _, Some (λ _, 170);
  dup_answer := λ k, 100 + Z.of_nat k;
  mmap_answer := λ _, 0;
  getStrongProxyForHandle := λ h, Some (4096 + 16 * h);
  getWeakProxyForHandle := λ h, Some (4096 + 16 * h)
|}.
Definition demo_items : list item :=
  [IInt32 (-5); IString8 [104; 105]; IStrong (Some (LocalBinder 65536 65540)); IString16 (Some [97; 98; 8364]); IStrong None;
   IFd 7 true; ICString [111; 107]; IInt64 (-2); IWeak (Some (WPointer 512 768 (Some (RemoteBinder 1024 3)))); IFd 8 false; IData [1; 2; 3; 4; 5]].

Lemma demo_items_ok : Forall item_ok demo_items.
Proof. repeat constructor; unfold is_byte, is_unit, is_word, is_s32, is_s64; try lia; try done; set_solver by lia. Qed.

Definition fd_data : list Z := flat_bytes (fd_flat 5 true).

Lemma Parcel_roundtrip_witness :
  wp (write_items demo_items) (λ err p,
    (err = NO_ERROR ∧
      wp (setDataPosition 0 ;;; read_items demo_items) (λ vs _, vs = value_of <$> demo_items) p ∧
      ∃ data objects, ipc_view p data objects ∧ ∀ cookie k' tr',
        wp (ipcSetDataReference data objects cookie ;;; read_items demo_items) (λ vs _, vs = value_of <$> demo_items) (parcel_init k' tr'))
    ∨ err = NO_MEMORY ∧ out_of_memory) (parcel_init 0 []).
Proof. apply (Parcel_roundtrip demo_items 0 []); [exact demo_items_ok|by vm_compute]. Defined.

Lemma Parcel_references_witness :
  wp (err <- write_items demo_items ;; Parcel_delete ;;; ret err) (λ err p,
    ∃ ok rest, demo_items = ok ++ rest ∧ (rest ≠ [] → err = NO_MEMORY ∧ out_of_memory) ∧
      acquired_refs (trace p) = omap ref_of (listed_flats ok) ∧ released_refs (trace p) ≡ₚ acquired_refs (trace p) ∧
      closed_fds (trace p) ≡ₚ omap owned_fd ok ∧
      (∀ l, mData p ≠ Block l) ∧ (∀ l, mObjects p ≠ Block l)) (parcel_init 0 []).
Proof. apply (Parcel_references demo_items 0); [exact demo_items_ok|by vm_compute]. Defined.

(** The references of the example, and what is left of them. *)
Example demo_history : 
  match (err <- write_items demo_items ;; Parcel_delete ;;; ret err) (parcel_init 0 []) with
  | Ret err p => (err, acquired_refs (trace p), released_refs (trace p), closed_fds (trace p))
  | Crash _ => (1, [], [], [])
  end = (NO_ERROR, [Strong 65536; Weak 4144], [Weak 4144; Strong 65536], [7]).
Proof. by vm_compute. Qed.

Lemma Parcel_reads_safe_witness :
  let its := [IString8 []; ICString []; IFd 0 false; IStrong None; IInt64 0] in
  wp (ipcSetDataReference (fd_data ++ [9; 9; 9; 9]) [4] 77 ;;; vs <- read_items its ;; p <- getst ;; Parcel_delete ;;; ret (vs, mDataPos p))
    (λ r p, length r.1 = 5%nat ∧ 0 ≤ r.2 ≤ 20 ∧
       ∃ data objects, trace p = [OwnerRelease 77 data 20 objects 1] ∧
         (∃ l, blk data ((fd_data ++ [9; 9; 9; 9]) ++ l)) ∧ ∃ l, blk objects ([4] ++ l))
    (parcel_init 0 []).
Proof.
  apply (Parcel_reads_safe (fd_data ++ [9; 9; 9; 9]) [4] [IString8 []; ICString []; IFd 0 false; IStrong None; IInt64 0] 77);
    [|by vm_compute|by vm_compute|by vm_compute| |by repeat constructor].
  - apply (bool_decide_unpack _). by vm_compute.
  - repeat constructor; by vm_compute.
Defined.

(** *** Where the code goes wrong *)

(** A smaller size gives back a part of the list of objects, whose capacity stays: the
    next object is written behind its end; *)
Example shrink_objects :
  (_ <- writeFileDescriptor 5 false ;; _ <- writeFileDescriptor 6 false ;; _ <- setDataSize 16 ;; writeFileDescriptor 7 false)
    (parcel_init 0 []) = Crash CrashOops.
Proof. by vm_compute. Qed.
(** with none left the whole list is freed, and written to. *)
Example shrink_all_objects :
  (_ <- writeFileDescriptor 5 false ;; _ <- setDataSize 0 ;; writeFileDescriptor 7 false) (parcel_init 0 []) = Crash CrashOops.
Proof. by vm_compute. Qed.
(** [setData] resizes the block and then looks for the objects in the old one. *)
Example restart_with_objects :
  (_ <- writeFileDescriptor 5 false ;; setData [1; 2; 3; 4]) (parcel_init 0 []) = Crash CrashOops.
Proof. by vm_compute. Qed.
(** [setData] of nothing frees the block and goes on with it. *)
Example restart_with_nothing : (_ <- writeInt32 1 ;; _ <- setData [] ;; writeInt32 2) (parcel_init 0 []) = Crash CrashOops.
Proof. by vm_compute. Qed.
(** Growth is reckoned from the size, not from the position. *)
Example write_behind_end : (_ <- writeInt32 1 ;; setDataPosition 100 ;;; writeInt32 2) (parcel_init 0 []) = Crash CrashOops.
Proof. by vm_compute. Qed.
(** A write that would wrap around is refused, with a status that says it was not. *)
Example write_refused :
  match (setDataPosition (2 ^ 32 - 4) ;;; write [1; 2; 3; 4; 5]) (parcel_init 0 []) with
  | Ret err p => (err, mData p, mDataSize p)
  | Crash _ => (1, NULL, 0)
  end = (NO_ERROR, NULL, 0).
Proof. by vm_compute. Qed.
(** A file that is not allowed is in the list, without being in the data. *)
Example fd_refused :
  match (_ <- pushAllowFds false ;; writeFileDescriptor 5 true) (parcel_init 0 []) with
  | Ret err p => (err, mDataSize p, mObjectsSize p)
  | Crash _ => (1, 0, 0)
  end = (FDS_NOT_ALLOWED, 0, 1).
Proof. by vm_compute. Qed.
(** Received data that crash the reader: a string of 2^31 - 2 characters, *)
Example string16_trap : (ipcSetDataReference (word_bytes (2 ^ 31 - 2)) [] 0 ;;; readString16) (parcel_init 0 []) = Crash CrashOops.
Proof. by vm_compute. Qed.
(** a header of -12 bytes, *)
Example header_trap :
  (ipcSetDataReference (word_bytes (u32 (-128)) ++ word_bytes (u32 (-12))) [] 0 ;;; _ <- readExceptionCode ;; readInt32) (parcel_init 0 [])
  = Crash CrashOops.
Proof. by vm_compute. Qed.
(** a handle of so much that its size wraps; *)
Example native_handle_trap :
  (ipcSetDataReference (word_bytes 1 ++ word_bytes (2 ^ 30 - 1)) [] 0 ;;; readNativeHandle) (parcel_init 0 []) = Crash CrashOops.
Proof. by vm_compute. Qed.
(** with a negative number of files the integers overwrite the header. *)
Example native_handle_negative :
  match (ipcSetDataReference (word_bytes (u32 (-2)) ++ word_bytes 3 ++ word_bytes 7 ++ word_bytes 8 ++ word_bytes 9) [] 0 ;;; readNativeHandle)
    (parcel_init 0 []) with
  | Ret (Some h) _ => h
  | _ => NULL
  end = Block [12; 7; 8; 9].
Proof. by vm_compute. Qed.
End ParcelDemo.
