(* ===== verification/Unicode.v ===== *)
(** * Conversions of Unicode text

    [libs/utils/Unicode.cpp], and the allocations of [String8.cpp] and [String16.cpp] around it.  Text
    is given by a pointer and a length: the list of the units that can be read from the
    pointer on, of which the text may be the first part only, and the length.  A function
    that looks at a unit behind what can be read, or shifts by the width of a word, has
    no result; what is written is a list, in the order of writing.  Lengths that do not
    fit [ssize_t], of 2^31 and more, are not followed by the functions that measure; the
    sizes of the blocks that are allocated wrap around as in the code. *)

From Stdlib Require Import ZArith Lia.
From stdpp Require Import base tactics numbers option list.
From S2P Require Import Prelude.

Definition kByteMask : Z := 191.
Definition kByteMark : Z := 128.
Definition kUnicodeSurrogateStart : Z := 55296.
Definition kUnicodeSurrogateEnd : Z := 57343.
Definition kUnicodeMaxCodepoint : Z := 1114111.
Definition kFirstByteMark : list Z := [0; 0; 192; 224; 240].

Definition u8 (x : Z) : Z := x mod 2 ^ 8.
Definition u16 (x : Z) : Z := x mod 2 ^ 16.
(** The value of a [char], which is signed on the target, and as a 32-bit word. *)
Definition schar (b : Z) : Z := if bool_decide (b < 128) then b else b - 256.
Definition char_u32 (b : Z) : Z := u32 (schar b).

(** ** UTF-32 *)

Definition utf32_codepoint_utf8_length (srcChar : Z) : Z :=
  if bool_decide (srcChar < 128) then 1
  else if bool_decide (srcChar < 2048) then 2
  else if bool_decide (srcChar < 65536) then
    if bool_decide (srcChar < kUnicodeSurrogateStart ∨ srcChar > kUnicodeSurrogateEnd) then 3 else 0
  else if bool_decide (srcChar <= kUnicodeMaxCodepoint) then 4 else 0.

(** The cases that fall through, from the last byte to the second. *)
Fixpoint tail_bytes (n : nat) (srcChar : Z) (dst : list Z) : Z * list Z :=
  match n with
  | O => (srcChar, dst)
  | S n => tail_bytes n (Z.shiftr srcChar 6) (u8 (Z.land (Z.lor srcChar kByteMark) kByteMask) :: dst)
  end.
Definition utf32_codepoint_to_utf8 (srcChar bytes : Z) : list Z :=
  if bool_decide (1 <= bytes ∧ bytes <= 4) then
    let '(srcChar, dst) := tail_bytes (Z.to_nat (bytes - 1)) srcChar [] in
    u8 (Z.lor srcChar (default 0 (kFirstByteMark !! Z.to_nat bytes))) :: dst
  else [].

(** Up to the unit zero. *)
Fixpoint strlen_units (s : list Z) : option Z :=
  match s with
  | [] => None
  | c :: s => if bool_decide (c = 0) then Some 0 else n ← strlen_units s; Some (n + 1)
  end.
Fixpoint strnlen_units (s : list Z) (maxlen : nat) : option Z :=
  match maxlen with
  | O => Some 0
  | S maxlen =>
      match s with
      | [] => None
      | c :: s => if bool_decide (c = 0) then Some 0 else n ← strnlen_units s maxlen; Some (n + 1)
      end
  end.

Definition strlen32 : list Z → option Z := strlen_units.
Definition strlen16 : list Z → option Z := strlen_units.
Definition strnlen32 : list Z → nat → option Z := strnlen_units.
Definition strnlen16 : list Z → nat → option Z := strnlen_units.

(** The loop of [utf32_at_internal]: each bit of the first byte asks for another byte. *)
Fixpoint read_tail (fuel : nat) (first_char mask to_ignore_mask num_to_read utf32 : Z) (cur : list Z) : option (Z * Z * Z * Z) :=
  if bool_decide (Z.land first_char mask = 0) then Some (mask, to_ignore_mask, num_to_read, utf32) else
  match fuel, cur with
  | S fuel, b :: cur =>
      read_tail fuel first_char (Z.shiftr mask 1) (Z.lor to_ignore_mask mask) (num_to_read + 1)
        (u32 (u32 (Z.shiftl utf32 6) + Z.land b 63)) cur
  | _, _ => None
  end.
(** The character and the number of bytes read. *)
Definition utf32_at_internal (cur : list Z) : option (Z * Z) :=
  match cur with
  | [] => None
  | first_char :: cur =>
      if bool_decide (Z.land first_char 128 = 0) then Some (first_char, 1) else
      r ← read_tail 8 first_char 64 4294967168 1 (char_u32 first_char) cur;
      let '(mask, to_ignore_mask, num_to_read, utf32) := r in
      let to_ignore_mask := Z.lor to_ignore_mask mask in
      let shift := 6 * (num_to_read - 1) in
      if bool_decide (shift < 32) then
        Some (Z.land utf32 (u32 (Z.lnot (u32 (Z.shiftl to_ignore_mask shift)))), num_to_read)
      else None
  end.
(** [utf32_from_utf8_at]: the character, and the next index if there is one. *)
Definition utf32_from_utf8_at (src : list Z) (src_len index : Z) : option (Z * option Z) :=
  if bool_decide (index >= src_len) then Some (-1, None) else
  r ← utf32_at_internal (drop (Z.to_nat index) src);
  let ret := s32 r.1 in Some (ret, if bool_decide (ret >= 0) then Some (index + r.2) else None).

(** The units of a text, each of which is read. *)
Definition text (src : list Z) (src_len : Z) : option (list Z) :=
  if bool_decide (src_len <= Z.of_nat (length src)) then Some (take (Z.to_nat src_len) src) else None.

Fixpoint sum_lengths (src : list Z) : Z :=
  match src with [] => 0 | c :: src => utf32_codepoint_utf8_length c + sum_lengths src end.
Definition utf32_to_utf8_length (src : list Z) (src_len : Z) : option Z :=
  if bool_decide (src_len = 0) then Some (-1) else src ← text src src_len; Some (sum_lengths src).
Fixpoint put_utf32s (src : list Z) : list Z :=
  match src with
  | [] => [0]
  | c :: src => utf32_codepoint_to_utf8 c (utf32_codepoint_utf8_length c) ++ put_utf32s src
  end.
Definition utf32_to_utf8 (src : list Z) (src_len : Z) : option (list Z) :=
  if bool_decide (src_len = 0) then Some [] else src ← text src src_len; Some (put_utf32s src).

(** ** UTF-16 *)

Fixpoint strcmp16 (s1 s2 : list Z) : option Z :=
  match s1, s2 with
  | c1 :: s1, c2 :: s2 => let d := c1 - c2 in if bool_decide (d ≠ 0 ∨ c1 = 0) then Some d else strcmp16 s1 s2
  | _, _ => None
  end.
Fixpoint strncmp16 (s1 s2 : list Z) (n : nat) (d : Z) : option Z :=
  match n with
  | O => Some d
  | S n =>
      match s1, s2 with
      | c1 :: s1, c2 :: s2 => let d := c1 - c2 in if bool_decide (d ≠ 0 ∨ c1 = 0) then Some d else strncmp16 s1 s2 n d
      | _, _ => None
      end
  end.
Fixpoint strcpy16 (src : list Z) : option (list Z) :=
  match src with
  | [] => None
  | c :: src => if bool_decide (c = 0) then Some [c] else l ← strcpy16 src; Some (c :: l)
  end.
(** The unit is kept in a [char] for the test of the end. *)
Fixpoint strncpy16 (src : list Z) (n : nat) : option (list Z) :=
  match n with
  | O => Some [0]
  | S n =>
      match src with
      | [] => None
      | c :: src => if bool_decide (u8 c = 0) then Some [c; 0] else l ← strncpy16 src n; Some (c :: l)
      end
  end.
(** [strzcmp16], and, with the bytes of the second text swapped, [strzcmp16_h_n]. *)
Fixpoint strzcmp (ntoh : Z → Z) (s1 : list Z) (n1 : nat) (s2 : list Z) (n2 : nat) : option Z :=
  match n1, n2 with
  | S m1, S m2 =>
      match s1, s2 with
      | c1 :: s1, c2 :: s2 => let d := c1 - ntoh c2 in if bool_decide (d ≠ 0) then Some d else strzcmp ntoh s1 m1 s2 m2
      | _, _ => None
      end
  | O, S _ => c2 ← head s2; Some (0 - ntoh c2)
  | S _, O => head s1
  | O, O => Some 0
  end.
Definition ntohs (x : Z) : Z := Z.lor (u16 (Z.shiftl x 8)) (Z.shiftr x 8).
Definition strzcmp16 : list Z → nat → list Z → nat → option Z := strzcmp id.
Definition strzcmp16_h_n : list Z → nat → list Z → nat → option Z := strzcmp ntohs.

Definition is_high (c : Z) : bool := bool_decide (Z.land c 64512 = 55296).
Definition is_low (c : Z) : bool := bool_decide (Z.land c 64512 = 56320).

(** The loop of [utf16_to_utf8]: whatever follows the first half of a pair is taken as
    the second half, the unit behind the end too. [n] units are left. *)
Definition pair_utf32 (hi lo : Z) : Z :=
  u32 (Z.lor (Z.shiftl (hi - 55296) 10) (u32 (lo - 56320)) + 65536).
Fixpoint put_utf16s (cur : list Z) (n : nat) {struct n} : option (list Z) :=
  match n with
  | O => Some [0]
  | S n =>
      match cur with
      | [] => None
      | c :: cur =>
          if is_high c then
            match cur with
            | [] => None
            | lo :: cur =>
                let utf32 := pair_utf32 c lo in
                l ← put_utf16s cur (pred n);
                Some (utf32_codepoint_to_utf8 utf32 (utf32_codepoint_utf8_length utf32) ++ l)
            end
          else
            l ← put_utf16s cur n;
            Some (utf32_codepoint_to_utf8 c (utf32_codepoint_utf8_length c) ++ l)
      end
  end.
Definition utf16_to_utf8 (src : list Z) (src_len : Z) : option (list Z) :=
  if bool_decide (src_len = 0) then Some [] else put_utf16s src (Z.to_nat src_len).

(** The loop of [utf16_to_utf8_length]: the increment in the test of the pair also
    happens where there is none, and the unit counted is then the one behind. *)
Fixpoint count_utf16s (src : list Z) : Z :=
  match src with
  | [] => 0
  | c :: src =>
      if is_high c then
        match src with
        | [] => utf32_codepoint_utf8_length c
        | lo :: src => (if is_low lo then 4 else utf32_codepoint_utf8_length lo) + count_utf16s src
        end
      else utf32_codepoint_utf8_length c + count_utf16s src
  end.
Definition utf16_to_utf8_length (src : list Z) (src_len : Z) : option Z :=
  if bool_decide (src_len = 0) then Some (-1) else src ← text src src_len; Some (count_utf16s src).

(** ** UTF-8 *)

(** The loop of [utf8_length] over the bytes of one character. *)
Fixpoint check_tail (fuel : nat) (first_char mask to_ignore_mask num_to_read utf32 : Z) (cur : list Z)
    : option (option (Z * Z * Z * list Z)) :=
  if bool_decide (num_to_read < 5 ∧ Z.land first_char mask ≠ 0) then
    match fuel, cur with
    | S fuel, b :: cur =>
        if bool_decide (Z.land b 192 ≠ 128) then Some None else
        check_tail fuel first_char (Z.shiftr mask 1) (Z.lor to_ignore_mask mask) (num_to_read + 1)
          (u32 (u32 (Z.shiftl utf32 6) + Z.land b 63)) cur
    | _, _ => None
    end
  else Some (Some (Z.lor to_ignore_mask mask, num_to_read, utf32, cur)).
(** [fuel] turns; what the bytes are worth is -1 if one is wrong. *)
Fixpoint utf8_length_loop (fuel : nat) (cur : list Z) (ret : Z) : option Z :=
  match fuel, cur with
  | S fuel, first_char :: cur =>
      if bool_decide (first_char = 0) then Some ret else
      if bool_decide (Z.land first_char 128 = 0) then utf8_length_loop fuel cur (ret + 1) else
      if bool_decide (Z.land first_char 64 = 0) then Some (-1) else
      r ← check_tail 5 first_char 64 128 1 0 cur;
      match r with
      | None => Some (-1)
      | Some (to_ignore_mask, num_to_read, utf32, cur) =>
          if bool_decide (num_to_read = 5) then Some (-1) else
          let utf32 := Z.lor utf32 (u32 (Z.shiftl (Z.land (Z.lnot to_ignore_mask) (schar first_char)) (6 * (num_to_read - 1)))) in
          if bool_decide (utf32 > kUnicodeMaxCodepoint) then Some (-1) else
          utf8_length_loop fuel cur (ret + num_to_read)
      end
  | _, _ => None
  end.
Definition utf8_length (src : list Z) : option Z := utf8_length_loop (length src) src 0.

Definition utf8_codepoint_len (ch : Z) : Z := Z.land (Z.shiftr 3841982464 (Z.land (Z.shiftr ch 3) 30)) 3 + 1.
Definition utf8_shift_and_mask (codePoint byte : Z) : Z := Z.lor (u32 (Z.shiftl codePoint 6)) (Z.land 63 byte).

(** [utf8_to_utf32_length]: as many bytes are skipped as the first one has bits. *)
Fixpoint num_to_skip (fuel : nat) (first_char mask : Z) : Z :=
  match fuel with
  | O => 1
  | S fuel => if bool_decide (Z.land first_char mask = 0) then 1 else num_to_skip fuel first_char (Z.shiftr mask 1) + 1
  end.
Fixpoint count_utf8s (fuel : nat) (src : list Z) (left_ : Z) : option Z :=
  if bool_decide (left_ <= 0) then Some 0 else
  match fuel, src with
  | S fuel, first_char :: _ =>
      let n := if bool_decide (Z.land first_char 128 = 0) then 1 else num_to_skip 8 first_char 64 in
      k ← count_utf8s fuel (drop (Z.to_nat n) src) (left_ - n); Some (k + 1)
  | _, _ => None
  end.
Definition utf8_to_utf32_length (src : list Z) (src_len : Z) : option Z := count_utf8s (Z.to_nat src_len) src src_len.

Fixpoint put_utf8s32 (fuel : nat) (cur : list Z) (left_ : Z) : option (list Z) :=
  if bool_decide (left_ <= 0) then Some [0] else
  match fuel with
  | S fuel =>
      r ← utf32_at_internal cur;
      l ← put_utf8s32 fuel (drop (Z.to_nat r.2) cur) (left_ - r.2); Some (r.1 :: l)
  | O => None
  end.
Definition utf8_to_utf32 (src : list Z) (src_len : Z) : option (list Z) :=
  if bool_decide (src_len = 0) then Some [] else put_utf8s32 (Z.to_nat src_len) src src_len.

Definition utf8_to_utf32_codepoint (src : list Z) (length_ : Z) : option Z :=
  match src with
  | [] => None
  | b0 :: src =>
      if bool_decide (length_ = 1) then Some b0 else
      if bool_decide (length_ = 2) then
        match src with b1 :: _ => Some (utf8_shift_and_mask (Z.land b0 31) b1) | _ => None end
      else if bool_decide (length_ = 3) then
        match src with b1 :: b2 :: _ => Some (utf8_shift_and_mask (utf8_shift_and_mask (Z.land b0 15) b1) b2) | _ => None end
      else if bool_decide (length_ = 4) then
        match src with
        | b1 :: b2 :: b3 :: _ => Some (utf8_shift_and_mask (utf8_shift_and_mask (utf8_shift_and_mask (Z.land b0 7) b1) b2) b3)
        | _ => None
        end
      else Some 65535
  end.

(** The loops over a text of [left_] more bytes: what is counted, and how far the
    last character goes beyond the end. *)
Fixpoint measure_utf8s16 (fuel : nat) (u8cur : list Z) (left_ : Z) (u16measuredLen : Z) : option (Z * Z) :=
  if bool_decide (left_ <= 0) then Some (u16measuredLen, left_) else
  match fuel, u8cur with
  | S fuel, ch :: _ =>
      let u8charLen := utf8_codepoint_len ch in
      codepoint ← utf8_to_utf32_codepoint u8cur u8charLen;
      measure_utf8s16 fuel (drop (Z.to_nat u8charLen) u8cur) (left_ - u8charLen)
        (u16measuredLen + 1 + (if bool_decide (codepoint > 65535) then 1 else 0))
  | _, _ => None
  end.
Definition utf8_to_utf16_length (u8str : list Z) (u8len : Z) : option Z :=
  r ← measure_utf8s16 (Z.to_nat u8len) u8str u8len 0;
  Some (if bool_decide (r.2 = 0) then r.1 else -1).

(** One or two units. *)
Definition utf16_units (codepoint : Z) : list Z :=
  if bool_decide (codepoint <= 65535) then [u16 codepoint] else
  let codepoint := codepoint - 65536 in
  [u16 (Z.shiftr codepoint 10 + 55296); u16 (Z.land codepoint 1023 + 56320)].
Fixpoint put_utf8s16 (fuel : nat) (u8cur : list Z) (left_ : Z) : option (list Z) :=
  if bool_decide (left_ <= 0) then Some [] else
  match fuel, u8cur with
  | S fuel, ch :: _ =>
      let u8len := utf8_codepoint_len ch in
      codepoint ← utf8_to_utf32_codepoint u8cur u8len;
      l ← put_utf8s16 fuel (drop (Z.to_nat u8len) u8cur) (left_ - u8len);
      Some (utf16_units codepoint ++ l)
  | _, _ => None
  end.
Definition utf8_to_utf16_no_null_terminator (u8str : list Z) (u8len : Z) : option (list Z) := put_utf8s16 (Z.to_nat u8len) u8str u8len.
Definition utf8_to_utf16 (u8str : list Z) (u8len : Z) : option (list Z) :=
  l ← utf8_to_utf16_no_null_terminator u8str u8len; Some (l ++ [0]).

(** ** The buffers of strings

    The bytes behind the header in the block that [SharedBuffer::alloc] asks [malloc] for:
    the sum of the sizes is a 32-bit word and wraps around, and the block is then smaller
    than [size].  The allocations are taken to succeed, and a string is what its buffer holds. *)
Definition sizeof_SharedBuffer : Z := 16.
Definition SharedBuffer_alloc (size : Z) : Z := u32 (sizeof_SharedBuffer + u32 size) - sizeof_SharedBuffer.
(** Units of [unit_size] bytes are written into a block of [bytes]; there is no result
    where they go past its end. *)
Definition fill (bytes unit_size : Z) (l : list Z) : option (list Z) :=
  if bool_decide (unit_size * Z.of_nat (length l) <= bytes) then Some l else None.

(** [allocFromUTF16] and [allocFromUTF32] of [String8.cpp]. *)
Definition allocFromUTF16 (input : list Z) (len : Z) : option (list Z) :=
  if bool_decide (len = 0) then Some [0] else
  bytes ← utf16_to_utf8_length input len;
  if bool_decide (bytes < 0) then Some [0] else
  str ← utf16_to_utf8 input len; fill (SharedBuffer_alloc (bytes + 1)) 1 str.
Definition allocFromUTF32 (input : list Z) (len : Z) : option (list Z) :=
  if bool_decide (len = 0) then Some [0] else
  bytes ← utf32_to_utf8_length input len;
  if bool_decide (bytes < 0) then Some [0] else
  str ← utf32_to_utf8 input len; fill (SharedBuffer_alloc (bytes + 1)) 1 str.
(** [allocFromUTF8] of [String16.cpp]. *)
Definition allocFromUTF8 (u8str : list Z) (u8len : Z) : option (list Z) :=
  if bool_decide (u8len = 0) then Some [0] else
  u16len ← utf8_to_utf16_length u8str u8len;
  if bool_decide (u16len < 0) then Some [0] else
  str ← utf8_to_utf16 u8str u8len; fill (SharedBuffer_alloc (2 * (u16len + 1))) 2 str.
