(* ===== verification/UnicodeSpec.v ===== *)
(** * What the conversions of text compute

    The encodings as the standard has them, by division; the functions of [Unicode]
    agree with them on all characters, are inverse to each other, and measure what
    they write. *)

From Stdlib Require Import ZArith Lia.
From stdpp Require Import base tactics numbers option list.
From S2P Require Import Prelude Words Unicode.

(** ** The standard *)

Definition scalar (c : Z) : Prop := 0 ≤ c ≤ 1114111 ∧ ¬ 55296 ≤ c ≤ 57343.
Definition utf8_of (c : Z) : list Z :=
  if decide (c < 128) then [c]
  else if decide (c < 2048) then [192 + c / 64; 128 + c mod 64]
  else if decide (c < 65536) then [224 + c / 4096; 128 + c / 64 mod 64; 128 + c mod 64]
  else [240 + c / 262144; 128 + c / 4096 mod 64; 128 + c / 64 mod 64; 128 + c mod 64].
Definition utf16_of (c : Z) : list Z :=
  if decide (c < 65536) then [c] else [55296 + (c - 65536) / 1024; 56320 + (c - 65536) mod 1024].
Definition utf8 (l : list Z) : list Z := concat (utf8_of <$> l).
Definition utf16 (l : list Z) : list Z := concat (utf16_of <$> l).

(** ** Bits

    What is true of all numbers below a bound, by looking at each. *)
Lemma all_below (n : nat) (P : Z → bool) : forallb P (Z.of_nat <$> seq 0 n) = true → ∀ x, 0 ≤ x < Z.of_nat n → P x = true.
Proof.
  intros Hp x Hx. rewrite forallb_forall in Hp. apply Hp. rewrite <-(Z2Nat.id x) by lia. apply list_elem_of_In, list_elem_of_fmap_2.
  apply elem_of_seq. lia.
Qed.

Lemma eq_below (n : nat) (f g : Z → Z) : forallb (λ x, f x =? g x) (Z.of_nat <$> seq 0 n) = true → ∀ x, 0 ≤ x < Z.of_nat n → f x = g x.
Proof. intros Hp x Hx. apply Z.eqb_eq. by apply (all_below n (λ x, f x =? g x)). Qed.

(** The last byte of a character: its last six bits. *)
Lemma cont_byte c : 0 ≤ c → u8 (Z.land (Z.lor c kByteMark) kByteMask) = 128 + c mod 64.
Proof.
  intros Hc. assert (u8 (Z.land (Z.lor c kByteMark) kByteMask) = Z.land (Z.lor (c mod 256) kByteMark) kByteMask) as ->.
  { apply Z.bits_inj'. intros i Hi. unfold u8, kByteMark, kByteMask. destruct (Z.lt_ge_cases i 8).
    - rewrite Z.mod_pow2_bits_low, !Z.land_spec, !Z.lor_spec by lia. change 256 with (2 ^ 8). by rewrite Z.mod_pow2_bits_low.
    - rewrite Z.mod_pow2_bits_high, Z.land_spec by lia. rewrite (Z.bits_above_log2 191) by (try lia; by apply (Z.lt_le_trans _ 8)).
      by rewrite andb_false_r. }
  replace (c mod 64) with ((c mod 256) mod 64) by (Z.to_euclidean_division_equations; lia).
  assert (0 ≤ c mod 256 < Z.of_nat 256) as Hm by (pose proof (Z.mod_pos_bound c 256); lia). revert Hm. generalize (c mod 256). clear.
  apply (eq_below 256 (λ x, Z.land (Z.lor x kByteMark) kByteMask) (λ x, 128 + x mod 64)). by vm_compute.
Qed.

(** The first byte, from the bits above. *)
Lemma first_byte n d : (n = 2 ∧ 0 ≤ d < 32) ∨ (n = 3 ∧ 0 ≤ d < 16) ∨ (n = 4 ∧ 0 ≤ d < 8) →
  u8 (Z.lor d (default 0 (kFirstByteMark !! Z.to_nat n))) = (256 - 2 ^ (8 - n)) + d.
Proof.
  set (f n d := u8 (Z.lor d (default 0 (kFirstByteMark !! Z.to_nat n)))). set (g n d := (256 - 2 ^ (8 - n)) + d).
  intros [[-> Hd]|[[-> Hd]|[-> Hd]]]; revert d Hd;
    [apply (eq_below 32 (f 2) (g 2))|apply (eq_below 16 (f 3) (g 3))|apply (eq_below 8 (f 4) (g 4))]; by vm_compute.
Qed.

Section scalar.
Implicit Types c : Z.

Lemma utf8_cases c : scalar c →
  (0 ≤ c < 128 ∧ utf8_of c = [c]) ∨
  (128 ≤ c < 2048 ∧ utf8_of c = [192 + c / 64; 128 + c mod 64]) ∨
  (2048 ≤ c < 65536 ∧ ¬ 55296 ≤ c ≤ 57343 ∧ utf8_of c = [224 + c / 4096; 128 + c / 64 mod 64; 128 + c mod 64]) ∨
  (65536 ≤ c < 1114112 ∧ utf8_of c = [240 + c / 262144; 128 + c / 4096 mod 64; 128 + c / 64 mod 64; 128 + c mod 64]).
Proof.
  intros [Hc Hs]. unfold utf8_of. destruct (decide (c < 128)); [left; split; [lia|done]|right].
  destruct (decide (c < 2048)); [left; split; [lia|done]|right].
  destruct (decide (c < 65536)); [left; split_and!; [lia|lia|done..]|right]. split; [lia|done].
Qed.
Lemma utf8_of_len c : scalar c → utf32_codepoint_utf8_length c = Z.of_nat (length (utf8_of c)).
Proof.
  unfold utf32_codepoint_utf8_length, kUnicodeSurrogateStart, kUnicodeSurrogateEnd, kUnicodeMaxCodepoint.
  intros [(? & ->)|[(? & ->)|[(? & ? & ->)|(? & ->)]]]%utf8_cases.
  - by rewrite bool_decide_true by lia.
  - rewrite bool_decide_false by lia. by rewrite bool_decide_true by lia.
  - rewrite !bool_decide_false by lia. by rewrite !bool_decide_true by lia.
  - rewrite !bool_decide_false by lia. by rewrite bool_decide_true by lia.
Qed.

Lemma shiftr_6 c : Z.shiftr c 6 = c / 64.
Proof. by rewrite Z.shiftr_div_pow2. Qed.

(** The bytes that are written for each number of them. *)
Lemma to_utf8_bytes c (cont := λ c, u8 (Z.land (Z.lor c kByteMark) kByteMask))
    (first := λ n c, u8 (Z.lor c (default 0 (kFirstByteMark !! Z.to_nat n)))) :
  utf32_codepoint_to_utf8 c 1 = [first 1 c] ∧
  utf32_codepoint_to_utf8 c 2 = [first 2 (Z.shiftr c 6); cont c] ∧
  utf32_codepoint_to_utf8 c 3 = [first 3 (Z.shiftr (Z.shiftr c 6) 6); cont (Z.shiftr c 6); cont c] ∧
  utf32_codepoint_to_utf8 c 4 =
    [first 4 (Z.shiftr (Z.shiftr (Z.shiftr c 6) 6) 6); cont (Z.shiftr (Z.shiftr c 6) 6); cont (Z.shiftr c 6); cont c].
Proof. done. Qed.

Lemma utf32_codepoint_to_utf8_ok c : scalar c → utf32_codepoint_to_utf8 c (utf32_codepoint_utf8_length c) = utf8_of c.
Proof.
  intros Hc. rewrite utf8_of_len by done. destruct (to_utf8_bytes c) as (H1 & H2 & H3 & H4). rewrite !shiftr_6 in *.
  assert (∀ x, 0 ≤ x → 0 ≤ x / 64) as Hdiv by (intros; apply Z.div_pos; lia).
  destruct (utf8_cases c Hc) as [(? & ->)|[(? & ->)|[(? & ? & ->)|(? & ->)]]]; cbn [length].
  - etrans; [exact H1|]. change (default 0 (kFirstByteMark !! Z.to_nat 1)) with 0. rewrite Z.lor_0_r. unfold u8. by rewrite Z.mod_small by lia.
  - etrans; [exact H2|]. rewrite cont_byte, first_byte; [done| |lia]. left. split; [done|]. Z.to_euclidean_division_equations; lia.
  - etrans; [exact H3|]. rewrite !cont_byte, first_byte; [|right; left; split; [done|]; Z.to_euclidean_division_equations; lia|auto with lia..].
    by rewrite Z.div_div by lia.
  - etrans; [exact H4|]. rewrite !cont_byte, first_byte; [|right; right; split; [done|]; Z.to_euclidean_division_equations; lia|auto with lia..].
    by rewrite !Z.div_div by lia.
Qed.
End scalar.

(** ** Reading a character *)

(** The bits of a first byte that asks for one, two or three more. *)
Lemma first_bits (n : nat) (base m v : Z) : forallb (λ d, Z.land (base + d) m =? v) (Z.of_nat <$> seq 0 n) = true →
  ∀ d, 0 ≤ d < Z.of_nat n → Z.land (base + d) m = v.
Proof. intros Hf. apply (eq_below n (λ d, Z.land (base + d) m) (λ _, v) Hf). Qed.
Lemma first_bits2 d : 0 ≤ d < 32 → Z.land (192 + d) 128 = 128 ∧ Z.land (192 + d) 64 = 64 ∧ Z.land (192 + d) 32 = 0.
Proof. intros Hd. split_and!; (apply (first_bits 32); [by vm_compute|done]). Qed.
Lemma first_bits3 d : 0 ≤ d < 16 →
  Z.land (224 + d) 128 = 128 ∧ Z.land (224 + d) 64 = 64 ∧ Z.land (224 + d) 32 = 32 ∧ Z.land (224 + d) 16 = 0.
Proof. intros Hd. split_and!; (apply (first_bits 16); [by vm_compute|done]). Qed.
Lemma first_bits4 d : 0 ≤ d < 8 →
  Z.land (240 + d) 128 = 128 ∧ Z.land (240 + d) 64 = 64 ∧ Z.land (240 + d) 32 = 32 ∧ Z.land (240 + d) 16 = 16 ∧ Z.land (240 + d) 8 = 0.
Proof. intros Hd. split_and!; (apply (first_bits 8); [by vm_compute|done]). Qed.
Lemma land_low6 x : Z.land x 63 = x mod 64.
Proof. by apply (land_ones_mod x 6). Qed.

(** A turn of the loop, and its end. *)
Lemma read_tail_more fuel f m ig n u b cur : Z.land f m = m → m ≠ 0 →
  read_tail (S fuel) f m ig n u (b :: cur) =
  read_tail fuel f (Z.shiftr m 1) (Z.lor ig m) (n + 1) (u32 (u32 (Z.shiftl u 6) + Z.land b 63)) cur.
Proof. intros Hm H0. cbn [read_tail]. by rewrite bool_decide_false by congruence. Qed.
Lemma read_tail_end fuel f m ig n u cur : Z.land f m = 0 → read_tail fuel f m ig n u cur = Some (m, ig, n, u).
Proof. intros Hm. destruct fuel; cbn [read_tail]; by rewrite bool_decide_true by done. Qed.

Lemma char_u32_high b : 128 ≤ b < 256 → char_u32 b = b + 4294967040.
Proof. intros Hb. unfold char_u32, schar. rewrite bool_decide_false by lia. unfold u32. Z.to_euclidean_division_equations; lia. Qed.
Ltac word_arith := unfold u32; rewrite ?Z.shiftl_mul_pow2 by lia; rewrite ?land_low6; Z.to_euclidean_division_equations; lia.

Lemma utf32_at_1 c r : 0 ≤ c < 128 → utf32_at_internal (c :: r) = Some (c, 1).
Proof.
  intros Hc. cbn [utf32_at_internal]. rewrite bool_decide_true; [done|].
  apply (first_bits 128 0 128 0); [by vm_compute|done].
Qed.
Lemma utf32_at_2 d e r : 0 ≤ d < 32 → 0 ≤ e < 64 → utf32_at_internal (192 + d :: 128 + e :: r) = Some (d * 64 + e, 2).
Proof.
  intros Hd He. destruct (first_bits2 d Hd) as (H7 & H6 & H5). cbn [utf32_at_internal]. rewrite bool_decide_false by (by rewrite H7).
  rewrite read_tail_more by done. change (Z.shiftr 64 1) with 32. rewrite read_tail_end by done. cbn [mbind option_bind].
  change (bool_decide (6 * (1 + 1 - 1) < 32)) with true. change (u32 (Z.lnot _)) with (2 ^ 11 - 1).
  rewrite land_ones_mod by done. change (1 + 1) with 2. do 2 f_equal. rewrite char_u32_high by lia. word_arith.
Qed.
Lemma utf32_at_3 d e f r : 0 ≤ d < 16 → 0 ≤ e < 64 → 0 ≤ f < 64 →
  utf32_at_internal (224 + d :: 128 + e :: 128 + f :: r) = Some ((d * 64 + e) * 64 + f, 3).
Proof.
  intros Hd He Hf. destruct (first_bits3 d Hd) as (H7 & H6 & H5 & H4). cbn [utf32_at_internal]. rewrite bool_decide_false by (by rewrite H7).
  rewrite read_tail_more by done. change (Z.shiftr 64 1) with 32. rewrite read_tail_more by done. change (Z.shiftr 32 1) with 16.
  rewrite read_tail_end by done. cbn [mbind option_bind].
  change (bool_decide (6 * (1 + 1 + 1 - 1) < 32)) with true. change (u32 (Z.lnot _)) with (2 ^ 16 - 1).
  rewrite land_ones_mod by done. change (1 + 1 + 1) with 3. do 2 f_equal. rewrite char_u32_high by lia. word_arith.
Qed.
Lemma utf32_at_4 d e f g r : 0 ≤ d < 8 → 0 ≤ e < 64 → 0 ≤ f < 64 → 0 ≤ g < 64 →
  utf32_at_internal (240 + d :: 128 + e :: 128 + f :: 128 + g :: r) = Some (((d * 64 + e) * 64 + f) * 64 + g, 4).
Proof.
  intros Hd He Hf Hg. destruct (first_bits4 d Hd) as (H7 & H6 & H5 & H4 & H3). cbn [utf32_at_internal]. rewrite bool_decide_false by (by rewrite H7).
  rewrite read_tail_more by done. change (Z.shiftr 64 1) with 32. rewrite read_tail_more by done. change (Z.shiftr 32 1) with 16.
  rewrite read_tail_more by done. change (Z.shiftr 16 1) with 8. rewrite read_tail_end by done. cbn [mbind option_bind].
  change (bool_decide (6 * (1 + 1 + 1 + 1 - 1) < 32)) with true. change (u32 (Z.lnot _)) with (2 ^ 21 - 1).
  rewrite land_ones_mod by done. change (1 + 1 + 1 + 1) with 4. do 2 f_equal. rewrite char_u32_high by lia. word_arith.
Qed.

(** The digits of a character in the base 64. *)
Ltac digits := Z.to_euclidean_division_equations; lia.

Lemma utf32_at_ok c r : scalar c → utf32_at_internal (utf8_of c ++ r) = Some (c, Z.of_nat (length (utf8_of c))).
Proof.
  intros [(? & ->)|[(? & ->)|[(? & ? & ->)|(? & ->)]]]%utf8_cases; cbn [app length].
  - by apply utf32_at_1.
  - rewrite utf32_at_2 by digits. do 2 f_equal. digits.
  - rewrite utf32_at_3 by digits. do 2 f_equal. digits.
  - rewrite utf32_at_4 by digits. do 2 f_equal. digits.
Qed.

(** The other reader, by the length that the first byte gives. *)
Lemma codepoint_len b : 0 ≤ b < 256 →
  utf8_codepoint_len b = if bool_decide (b < 192) then 1 else if bool_decide (b < 224) then 2 else if bool_decide (b < 240) then 3 else 4.
Proof.
  set (g x := if bool_decide (x < 192) then 1 else if bool_decide (x < 224) then 2 else if bool_decide (x < 240) then 3 else 4).
  intros Hb. change (utf8_codepoint_len b = g b). revert b Hb. apply (eq_below 256 utf8_codepoint_len g). by vm_compute.
Qed.
Lemma shift_and_mask cp e : 0 ≤ cp < 2 ^ 26 → 0 ≤ e < 64 → utf8_shift_and_mask cp (128 + e) = cp * 64 + e.
Proof.
  intros Hc He. unfold utf8_shift_and_mask. rewrite Z.shiftl_mul_pow2 by lia. rewrite u32_small by lia.
  rewrite (Z.land_comm 63), land_low6. replace ((128 + e) mod 64) with e by (Z.to_euclidean_division_equations; lia).
  rewrite Z.lor_comm, lor_halves by lia. lia.
Qed.
Lemma land_low (n : nat) base m d : forallb (λ d, Z.land (base + d) m =? d) (Z.of_nat <$> seq 0 n) = true → 0 ≤ d < Z.of_nat n → Z.land (base + d) m = d.
Proof. intros Hf. apply (eq_below n (λ d, Z.land (base + d) m) id Hf). Qed.

Lemma codepoint_ok c r : scalar c →
  ∃ b l, utf8_of c = b :: l ∧ utf8_codepoint_len b = Z.of_nat (length (utf8_of c)) ∧
    utf8_to_utf32_codepoint (utf8_of c ++ r) (Z.of_nat (length (utf8_of c))) = Some c.
Proof.
  intros [(? & ->)|[(? & ->)|[(? & ? & ->)|(? & ->)]]]%utf8_cases; do 2 eexists; (split; [done|]); cbn [length app].
  - rewrite codepoint_len by lia. by rewrite bool_decide_true by lia.
  - rewrite codepoint_len by digits. rewrite bool_decide_false, bool_decide_true by digits. split; [done|].
    unfold utf8_to_utf32_codepoint. change (bool_decide (Z.of_nat 2 = 1)) with false. change (bool_decide (Z.of_nat 2 = 2)) with true. cbv iota.
    f_equal. rewrite (land_low 32 192 31) by (digits || (by vm_compute)). rewrite shift_and_mask by digits. digits.
  - rewrite codepoint_len by digits. rewrite !bool_decide_false, bool_decide_true by digits. split; [done|].
    unfold utf8_to_utf32_codepoint. change (bool_decide (Z.of_nat 3 = 1)) with false. change (bool_decide (Z.of_nat 3 = 2)) with false.
    change (bool_decide (Z.of_nat 3 = 3)) with true. cbv iota.
    f_equal. rewrite (land_low 16 224 15) by (digits || (by vm_compute)). rewrite (shift_and_mask (c / 4096)), (shift_and_mask (c / 4096 * 64 + _)) by digits. digits.
  - rewrite codepoint_len by digits. rewrite !bool_decide_false by digits. split; [done|].
    unfold utf8_to_utf32_codepoint. change (bool_decide (Z.of_nat 4 = 1)) with false. change (bool_decide (Z.of_nat 4 = 2)) with false.
    change (bool_decide (Z.of_nat 4 = 3)) with false. change (bool_decide (Z.of_nat 4 = 4)) with true. cbv iota.
    f_equal. rewrite (land_low 8 240 7) by (digits || (by vm_compute)). rewrite (shift_and_mask (c / 262144)) by digits.
    rewrite (shift_and_mask (c / 262144 * 64 + _)) by digits. rewrite shift_and_mask by digits. digits.
Qed.

(** Skipping by the bits of the first byte. *)
Lemma skip_ok c : scalar c →
  ∃ b l, utf8_of c = b :: l ∧ (if bool_decide (Z.land b 128 = 0) then 1 else num_to_skip 8 b 64) = Z.of_nat (length (utf8_of c)).
Proof.
  set (f b := if bool_decide (Z.land b 128 = 0) then 1 else num_to_skip 8 b 64).
  assert (∀ (n : nat) base k, forallb (λ d, f (base + d) =? k) (Z.of_nat <$> seq 0 n) = true → ∀ d, 0 ≤ d < Z.of_nat n → f (base + d) = k) as Hf.
  { intros n base k Hp. apply (eq_below n (λ d, f (base + d)) (λ _, k) Hp). }
  intros [(? & ->)|[(? & ->)|[(? & ? & ->)|(? & ->)]]]%utf8_cases; do 2 eexists; (split; [done|]); cbn [length].
  - apply (Hf 128%nat 0); [by vm_compute|done].
  - apply (Hf 32%nat); [by vm_compute|digits].
  - apply (Hf 16%nat); [by vm_compute|digits].
  - apply (Hf 8%nat); [by vm_compute|digits].
Qed.

(** ** Pairs of surrogates *)

Lemma utf16_units_ok c : scalar c → utf16_units c = utf16_of c.
Proof.
  intros [Hc _]. unfold utf16_units, utf16_of, u16. case_decide.
  - rewrite bool_decide_true by lia. by rewrite Z.mod_small by lia.
  - rewrite bool_decide_false by lia. change 1023 with (2 ^ 10 - 1). rewrite Z.shiftr_div_pow2, land_ones_mod by lia.
    change (2 ^ 10) with 1024. rewrite (Z.mod_small (_ + 55296)), (Z.mod_small (_ + 56320)) by digits. f_equal; [lia|f_equal; lia].
Qed.
(** The top six bits of a unit. *)
Lemma land_fc00 c : 0 ≤ c < 65536 → Z.land c 64512 = c / 1024 * 1024.
Proof.
  intros Hc. change 64512 with (u32 (Z.lnot (2 ^ 10 - 1)) - 4294901760).
  assert (Z.land c 64512 = Z.land c (u32 (Z.lnot (2 ^ 10 - 1)))) as E.
  { apply Z.bits_inj'. intros i Hi. rewrite !Z.land_spec. destruct (Z.lt_ge_cases i 16).
    - f_equal. rewrite <-(Z.mod_pow2_bits_low 64512 16), <-(Z.mod_pow2_bits_low (u32 _) 16) by lia. done.
    - destruct (decide (c = 0)) as [->|]; [by rewrite Z.bits_0|].
      rewrite (Z.bits_above_log2 c); [done|lia|]. apply (Z.lt_le_trans _ 16); [|lia]. apply Z.log2_lt_pow2; lia. }
  change (u32 (Z.lnot (2 ^ 10 - 1)) - 4294901760) with 64512. rewrite E, land_mask_spec by lia. change (2 ^ 10) with 1024. digits.
Qed.
Lemma is_high_spec c : 0 ≤ c < 65536 → is_high c = bool_decide (55296 ≤ c < 56320).
Proof. intros Hc. unfold is_high. rewrite land_fc00 by done. apply bool_decide_ext. digits. Qed.
Lemma is_low_spec c : 0 ≤ c < 65536 → is_low c = bool_decide (56320 ≤ c < 57344).
Proof. intros Hc. unfold is_low. rewrite land_fc00 by done. apply bool_decide_ext. digits. Qed.

Lemma pair_ok h l : 0 ≤ h < 1024 → 0 ≤ l < 1024 → pair_utf32 (55296 + h) (56320 + l) = 65536 + h * 1024 + l.
Proof.
  intros Hh Hl. unfold pair_utf32. replace (55296 + h - 55296) with h by lia. replace (56320 + l - 56320) with l by lia.
  rewrite (u32_small l) by lia. rewrite Z.shiftl_mul_pow2 by lia. rewrite Z.lor_comm, lor_halves by lia. rewrite u32_small by lia. lia.
Qed.

(** ** Whole texts *)

Lemma scalar_len c : scalar c → (1 ≤ length (utf8_of c) ≤ 4)%nat ∧ (1 ≤ length (utf16_of c) ≤ 2)%nat.
Proof.
  intros Hc. split.
  - destruct (utf8_cases c Hc) as [(? & ->)|[(? & ->)|[(? & ? & ->)|(? & ->)]]]; cbn; lia.
  - unfold utf16_of. case_decide; cbn; lia.
Qed.
Lemma utf8_cons c cs : utf8 (c :: cs) = utf8_of c ++ utf8 cs.
Proof. done. Qed.
Lemma utf16_cons c cs : utf16 (c :: cs) = utf16_of c ++ utf16 cs.
Proof. done. Qed.
Lemma utf16_of_cases c : scalar c →
  (0 ≤ c < 65536 ∧ utf16_of c = [c] ∧ is_high c = false) ∨
  (∃ h l, 65536 ≤ c ∧ utf16_of c = [h; l] ∧ is_high h = true ∧ is_low l = true ∧ pair_utf32 h l = c).
Proof.
  intros [Hc Hs]. unfold utf16_of. case_decide; [left|right].
  - split_and!; [lia|lia|done|]. rewrite is_high_spec by lia. apply bool_decide_eq_false. lia.
  - eexists _, _. split; [lia|]. split; [done|]. rewrite is_high_spec, is_low_spec, pair_ok by digits.
    split_and!; [apply bool_decide_eq_true; digits..|digits].
Qed.

(** What has been looked at is dropped. *)
Lemma units_drop_len {A} (l r : list A) : drop (Z.to_nat (Z.of_nat (length l))) (l ++ r) = r.
Proof. by rewrite Nat2Z.id, drop_app_length. Qed.

Section texts.
Implicit Types cs r : list Z.

Lemma put_utf32s_ok cs : Forall scalar cs → put_utf32s cs = utf8 cs ++ [0] ∧ sum_lengths cs = Z.of_nat (length (utf8 cs)).
Proof.
  induction 1 as [|c cs Hc _ [IH1 IH2]]; [done|]. cbn [put_utf32s sum_lengths]. rewrite utf32_codepoint_to_utf8_ok, IH1, IH2 by done.
  rewrite utf8_of_len, utf8_cons, length_app by done. split; [by rewrite app_assoc|lia].
Qed.

Lemma put_utf8s32_ok fuel cs r : Forall scalar cs → (length (utf8 cs) ≤ fuel)%nat →
  put_utf8s32 fuel (utf8 cs ++ r) (Z.of_nat (length (utf8 cs))) = Some (cs ++ [0]).
Proof.
  intros Hcs. revert fuel. induction Hcs as [|c cs Hc _ IH]; intros fuel Hf; [by destruct fuel|].
  rewrite utf8_cons, length_app in *. pose proof (scalar_len c Hc) as [? _]. destruct fuel as [|fuel]; [lia|]. cbn [put_utf8s32].
  rewrite bool_decide_false by lia. rewrite <-app_assoc, utf32_at_ok by done. cbn [mbind option_bind fst snd].
  rewrite units_drop_len. replace (Z.of_nat (length (utf8_of c) + length (utf8 cs)) - Z.of_nat (length (utf8_of c))) with (Z.of_nat (length (utf8 cs))) by lia.
  by rewrite IH by lia.
Qed.

Lemma count_utf8s_ok fuel cs r : Forall scalar cs → (length (utf8 cs) ≤ fuel)%nat →
  count_utf8s fuel (utf8 cs ++ r) (Z.of_nat (length (utf8 cs))) = Some (Z.of_nat (length cs)).
Proof.
  intros Hcs. revert fuel. induction Hcs as [|c cs Hc _ IH]; intros fuel Hf; [by destruct fuel|].
  rewrite utf8_cons, length_app in *. pose proof (scalar_len c Hc) as [? _]. destruct fuel as [|fuel]; [lia|]. cbn [count_utf8s].
  rewrite bool_decide_false by lia. destruct (skip_ok c Hc) as (b & l & Eb & Hs). rewrite <-app_assoc, Eb. cbn [app]. rewrite Hs, <-Eb.
  change (b :: l ++ utf8 cs ++ r) with ((b :: l) ++ utf8 cs ++ r). rewrite <-Eb, units_drop_len.
  replace (Z.of_nat (length (utf8_of c) + length (utf8 cs)) - Z.of_nat (length (utf8_of c))) with (Z.of_nat (length (utf8 cs))) by lia.
  rewrite IH by lia. cbn [mbind option_bind length]. f_equal. lia.
Qed.

(** A turn of the loops that go by the length of the character. *)
Lemma measure_step fuel cur b t left_ m n cp : cur = b :: t → 0 < left_ → utf8_codepoint_len b = n → utf8_to_utf32_codepoint cur n = Some cp →
  measure_utf8s16 (S fuel) cur left_ m =
    measure_utf8s16 fuel (drop (Z.to_nat n) cur) (left_ - n) (m + 1 + (if bool_decide (cp > 65535) then 1 else 0)) ∧
  put_utf8s16 (S fuel) cur left_ = (l ← put_utf8s16 fuel (drop (Z.to_nat n) cur) (left_ - n); Some (utf16_units cp ++ l)).
Proof. intros -> Hl <- Hp. cbn [measure_utf8s16 put_utf8s16]. by rewrite bool_decide_false, Hp by lia. Qed.
Lemma measure_utf8s16_ok fuel cs r m : Forall scalar cs → (length (utf8 cs) ≤ fuel)%nat →
  measure_utf8s16 fuel (utf8 cs ++ r) (Z.of_nat (length (utf8 cs))) m = Some (m + Z.of_nat (length (utf16 cs)), 0) ∧
  put_utf8s16 fuel (utf8 cs ++ r) (Z.of_nat (length (utf8 cs))) = Some (utf16 cs).
Proof.
  intros Hcs. revert fuel m. induction Hcs as [|c cs Hc _ IH]; intros fuel m Hf.
  { cbn. rewrite Z.add_0_r. by destruct fuel. }
  rewrite utf8_cons, length_app in *. pose proof (scalar_len c Hc) as [? _]. destruct fuel as [|fuel]; [lia|].
  rewrite <-app_assoc. destruct (codepoint_ok c (utf8 cs ++ r) Hc) as (b & l & Eb & Hl & Hp).
  destruct (measure_step fuel (utf8_of c ++ utf8 cs ++ r) b (l ++ utf8 cs ++ r) (Z.of_nat (length (utf8_of c) + length (utf8 cs))) m (Z.of_nat (length (utf8_of c))) c)
    as [-> ->]; [by rewrite Eb|lia|exact Hl|exact Hp|]. rewrite units_drop_len.
  replace (Z.of_nat (length (utf8_of c) + length (utf8 cs)) - Z.of_nat (length (utf8_of c))) with (Z.of_nat (length (utf8 cs))) by lia.
  match goal with |- measure_utf8s16 _ _ _ ?m' = _ ∧ _ => destruct (IH fuel m' ltac:(lia)) as [-> ->] end. cbn [mbind option_bind].
  rewrite utf16_units_ok, utf16_cons, length_app by done. split; [|done]. do 2 f_equal.
  unfold utf16_of. case_decide; [rewrite bool_decide_false by lia|rewrite bool_decide_true by lia]; cbn [length]; lia.
Qed.

Lemma put_utf16s_ok cs r : Forall scalar cs → put_utf16s (utf16 cs ++ r) (length (utf16 cs)) = Some (utf8 cs ++ [0]).
Proof.
  induction 1 as [|c cs Hc _ IH]; [done|]. rewrite utf16_cons, utf8_cons, length_app, <-!app_assoc.
  destruct (utf16_of_cases c Hc) as [(? & -> & Hh)|(h & l & ? & -> & Hh & Hl & Hp)]; cbn [length app Nat.add put_utf16s]; rewrite Hh.
  - rewrite IH. cbn [mbind option_bind]. by rewrite utf32_codepoint_to_utf8_ok.
  - cbn [pred]. rewrite IH, Hp. cbn [mbind option_bind]. by rewrite utf32_codepoint_to_utf8_ok.
Qed.
Lemma count_utf16s_ok cs : Forall scalar cs → count_utf16s (utf16 cs) = Z.of_nat (length (utf8 cs)).
Proof.
  induction 1 as [|c cs Hc _ IH]; [done|]. rewrite utf16_cons, utf8_cons, length_app.
  destruct (utf16_of_cases c Hc) as [(? & -> & Hh)|(h & l & ? & -> & Hh & Hl & Hp)]; cbn [app count_utf16s]; rewrite Hh, ?Hl, IH.
  - rewrite utf8_of_len by done. lia.
  - destruct (utf8_cases c Hc) as [(? & ->)|[(? & ->)|[(? & ? & ->)|(? & ->)]]]; try lia. cbn [length]. lia.
Qed.
End texts.

(** ** Texts that are not well-formed *)

Definition is_byte8 (b : Z) : Prop := 0 ≤ b < 256.

Lemma codepoint_len_range b : is_byte8 b → 1 ≤ utf8_codepoint_len b ≤ 4.
Proof. intros Hb. rewrite codepoint_len by done. repeat case_bool_decide; lia. Qed.
Lemma codepoint_some cur n : 1 ≤ n ≤ 4 → (4 ≤ length cur)%nat → is_Some (utf8_to_utf32_codepoint cur n).
Proof.
  intros Hn Hl. destruct cur as [|b0 [|b1 [|b2 [|b3 cur]]]]; cbn in Hl; try lia. unfold utf8_to_utf32_codepoint.
  repeat case_bool_decide; eauto.
Qed.
(** Only as many bytes as the character has are looked at. *)
Lemma codepoint_take cur n k : 1 ≤ n ≤ 4 → n ≤ Z.of_nat k →
  utf8_to_utf32_codepoint (take k cur) n = utf8_to_utf32_codepoint cur n.
Proof.
  intros Hn Hk. unfold utf8_to_utf32_codepoint.
  assert (n = 1 ∨ n = 2 ∨ n = 3 ∨ n = 4) as [->|[->|[->| ->]]] by lia;
    (destruct k as [|[|[|[|k]]]]; try lia); destruct cur as [|b0 [|b1 [|b2 [|b3 cur]]]]; done.
Qed.
Lemma utf16_units_len cp : Z.of_nat (length (utf16_units cp)) = 1 + (if bool_decide (cp > 65535) then 1 else 0).
Proof. unfold utf16_units. case_bool_decide; [rewrite bool_decide_false by lia|rewrite bool_decide_true by lia]; done. Qed.

(** What is measured is written, whatever the bytes. *)
Lemma measure_put fuel cur left_ m n l : measure_utf8s16 fuel cur left_ m = Some (n, l) →
  ∃ us, put_utf8s16 fuel cur left_ = Some us ∧ n = m + Z.of_nat (length us).
Proof.
  revert cur left_ m. induction fuel as [|fuel IH]; intros cur left_ m; cbn [measure_utf8s16 put_utf8s16];
    (case_bool_decide; [intros [= <- <-]; exists []; cbn; split; [done|lia]|]); [done|].
  destruct cur as [|ch cur]; [done|]. destruct (utf8_to_utf32_codepoint _ _) as [cp|]; [|done]. cbn [mbind option_bind].
  intros (us & -> & ->)%IH. eexists. split; [done|]. rewrite length_app, Nat2Z.inj_add, utf16_units_len. lia.
Qed.
Lemma measure_total fuel cur left_ m : Forall is_byte8 cur → 0 ≤ left_ ≤ Z.of_nat fuel → left_ + 3 ≤ Z.of_nat (length cur) →
  ∃ n l, measure_utf8s16 fuel cur left_ m = Some (n, l) ∧ m ≤ n.
Proof.
  intros Hb. revert cur left_ m Hb. induction fuel as [|fuel IH]; intros cur left_ m Hb Hf Hl; cbn [measure_utf8s16].
  - rewrite bool_decide_true by lia. exists m, left_. split; [done|lia].
  - destruct (bool_decide_reflect (left_ <= 0)); [exists m, left_; split; [done|lia]|].
    destruct cur as [|ch cur]; [cbn in Hl; lia|]. apply Forall_cons in Hb as Hb'. destruct Hb' as [Hch _].
    pose proof (codepoint_len_range ch Hch). destruct (codepoint_some (ch :: cur) (utf8_codepoint_len ch)) as [cp ->]; [done|lia|].
    cbn [mbind option_bind]. set (m' := m + 1 + _). assert (m + 1 ≤ m') by (unfold m'; case_bool_decide; lia).
    destruct (decide (left_ - utf8_codepoint_len ch < 0)).
    + exists m', (left_ - utf8_codepoint_len ch). split; [|lia]. destruct fuel; cbn [measure_utf8s16]; by rewrite bool_decide_true by lia.
    + destruct (IH (drop (Z.to_nat (utf8_codepoint_len ch)) (ch :: cur)) (left_ - utf8_codepoint_len ch) m') as (k & l & -> & ?);
        [by apply Forall_drop|lia|rewrite length_drop; lia|]. exists k, l. split; [done|lia].
Qed.
(** A text that ends with a character is measured by its own bytes. *)
Lemma measure_inside fuel cur left_ m n : Forall is_byte8 cur → 0 ≤ left_ → measure_utf8s16 fuel cur left_ m = Some (n, 0) →
  measure_utf8s16 fuel (take (Z.to_nat left_) cur) left_ m = Some (n, 0).
Proof.
  revert cur left_ m. induction fuel as [|fuel IH]; intros cur left_ m Hb H0; cbn [measure_utf8s16]; (case_bool_decide; [done|]); [done|].
  destruct cur as [|ch cur]; [done|]. apply Forall_cons in Hb as Hb'. destruct Hb' as [Hch _]. pose proof (codepoint_len_range ch Hch).
  destruct (utf8_to_utf32_codepoint _ _) as [cp|] eqn:Ec; [|done]. cbn [mbind option_bind]. intros Hm.
  assert (0 ≤ left_ - utf8_codepoint_len ch) as Hle.
  { destruct (decide (0 ≤ left_ - utf8_codepoint_len ch)); [done|exfalso]. destruct fuel; cbn [measure_utf8s16] in Hm;
      rewrite bool_decide_true in Hm by lia; injection Hm; lia. }
  destruct (Z.to_nat left_) as [|k] eqn:Ek; [lia|]. cbn [take]. change (ch :: take k cur) with (take (S k) (ch :: cur)).
  rewrite codepoint_take, Ec by lia. cbn [mbind option_bind]. apply (IH _ _ _ ltac:(by apply Forall_drop) Hle) in Hm.
  rewrite <-Hm. f_equal. rewrite <-Ek, skipn_firstn_comm. f_equal. lia.
Qed.

Lemma to_utf8_len c : let n := utf32_codepoint_utf8_length c in length (utf32_codepoint_to_utf8 c n) = Z.to_nat n ∧ 0 ≤ n.
Proof. cbv zeta. unfold utf32_codepoint_utf8_length. repeat case_bool_decide; done. Qed.
Lemma put_utf32s_len cs : Z.of_nat (length (put_utf32s cs)) = sum_lengths cs + 1 ∧ 0 ≤ sum_lengths cs.
Proof.
  induction cs as [|c cs [IH1 IH2]]; [done|]. cbn [put_utf32s sum_lengths]. destruct (to_utf8_len c) as [E H0].
  rewrite length_app, E. lia.
Qed.

Lemma utf16_shorter cs : Z.of_nat (length (utf16 cs)) ≤ Z.of_nat (length (utf8 cs)).
Proof.
  induction cs as [|c cs IH]; [done|]. rewrite utf8_cons, utf16_cons, !length_app.
  assert (length (utf16_of c) ≤ length (utf8_of c))%nat; [|lia].
  unfold utf16_of, utf8_of. repeat case_decide; cbn [length]; lia.
Qed.
(** The buffer of a text whose size does not wrap around holds it. *)
Lemma fill_units size k l : 0 ≤ size < 2 ^ 32 - 16 → k * Z.of_nat (length l) ≤ size → fill (SharedBuffer_alloc size) k l = Some l.
Proof.
  intros Hs Hk. unfold fill, SharedBuffer_alloc, sizeof_SharedBuffer. rewrite (u32_small size), u32_small by lia.
  rewrite bool_decide_true; [done|lia].
Qed.
(** No more units of UTF-16 are measured than bytes are read; a character takes four bytes at most. *)
Lemma measure_bound fuel cur left_ m n l : Forall is_byte8 cur → measure_utf8s16 fuel cur left_ m = Some (n, l) → n + l ≤ m + left_.
Proof.
  revert cur left_ m. induction fuel as [|fuel IH]; intros cur left_ m Hb; cbn [measure_utf8s16];
    (case_bool_decide; [intros [= <- <-]; lia|]); [done|].
  destruct cur as [|ch cur]; [done|]. apply Forall_cons in Hb as Hb'. destruct Hb' as [Hch _].
  pose proof (codepoint_len_range ch Hch) as Hr. destruct (utf8_to_utf32_codepoint _ _) as [cp|] eqn:Ec; [|done].
  cbn [mbind option_bind]. intros Hm%IH; [|by apply Forall_drop]. revert Hm.
  destruct (decide (utf8_codepoint_len ch = 1)) as [E|]; [|case_bool_decide; lia].
  rewrite E in Ec |- *. cbn in Ec. injection Ec as <-. unfold is_byte8 in Hch. rewrite bool_decide_false by lia. lia.
Qed.
Lemma sum_lengths_bound cs : sum_lengths cs ≤ 4 * Z.of_nat (length cs).
Proof.
  induction cs as [|c cs IH]; cbn [sum_lengths length]; [lia|].
  assert (utf32_codepoint_utf8_length c ≤ 4); [|lia]. unfold utf32_codepoint_utf8_length. repeat case_bool_decide; lia.
Qed.

(** ** Theorems *)


(** C36: making a [String16] of any bytes, with three that can be read behind them, and a
    [String8] of any 32-bit units, always has a result where there are less than 2^31 - 9
    bytes and less than 2^29 units (2 GB of each): the block that is asked for holds what
    is written.  Just above, the size of the block wraps around ([string16_size_wraps]).  Bytes that are refused give the empty string, and those that are
    not are measured without a look behind their end. *)
Theorem string_buffers (u8str u32str : list Z) (u8len u32len : Z) (Hb : Forall is_byte8 u8str)
    (H8 : 0 ≤ u8len < 2 ^ 31 - 9) (Hl8 : u8len + 3 ≤ Z.of_nat (length u8str))
    (H32 : u32len < 2 ^ 29) (Hl32 : 0 ≤ u32len ≤ Z.of_nat (length u32str)) :
  (∃ s, allocFromUTF8 u8str u8len = Some s ∧
     ∃ n, utf8_to_utf16_length u8str u8len = Some n ∧
       (n = -1 ∧ s = [0] ∨ Z.of_nat (length s) = n + 1 ∧ utf8_to_utf16_length (take (Z.to_nat u8len) u8str) u8len = Some n)) ∧
  (∃ s, allocFromUTF32 u32str u32len = Some s).
Proof.
  split.
  - destruct (measure_total (Z.to_nat u8len) u8str u8len 0 Hb ltac:(lia) Hl8) as (n & l & Em & Hn).
    destruct (measure_put _ _ _ _ _ _ Em) as (us & Ep & En). unfold allocFromUTF8, utf8_to_utf16_length. rewrite Em. cbn [mbind option_bind fst snd].
    destruct (bool_decide_reflect (l = 0)) as [->|Hl].
    + destruct (bool_decide_reflect (u8len = 0)) as [->|].
      { exists [0]. split; [done|]. exists n. split; [done|]. right. cbn in Em |- *. injection Em as <-. done. }
      rewrite bool_decide_false by lia. unfold utf8_to_utf16, utf8_to_utf16_no_null_terminator. rewrite Ep. cbn [mbind option_bind].
      pose proof (measure_bound _ _ _ _ _ _ Hb Em). rewrite fill_units by (rewrite ?length_app; cbn [length]; lia).
      eexists. split; [done|]. exists n. split; [done|]. right.
      rewrite length_app. cbn [length]. split; [lia|]. rewrite (measure_inside _ _ _ _ _ Hb (proj1 H8) Em). done.
    + destruct (bool_decide_reflect (u8len = 0)) as [->|].
      { exfalso. vm_compute in Em. congruence. }
      exists [0]. split; [done|]. exists (-1). split; [done|]. by left.
  - unfold allocFromUTF32. destruct (bool_decide_reflect (u32len = 0)); [by exists [0]|].
    unfold utf32_to_utf8_length, utf32_to_utf8, text. rewrite !(bool_decide_false (u32len = 0)) by done. rewrite !bool_decide_true by lia.
    cbn [mbind option_bind]. destruct (put_utf32s_len (take (Z.to_nat u32len) u32str)) as [E H0]. rewrite bool_decide_false by lia.
    pose proof (sum_lengths_bound (take (Z.to_nat u32len) u32str)) as Hs. rewrite length_take in Hs.
    rewrite fill_units by lia. by eexists.
Qed.

Module UnicodeDemo.
(** A letter, one of two bytes, one of three, and one outside of the first 2^16. *)
Definition demo_text : list Z := [65; 228; 8364; 128512].


(** Bytes of which the last character is cut off. *)
Lemma string_buffers_witness : allocFromUTF8 [65; 226; 130; 0; 0; 0] 3 = Some [0] ∧ ∃ s, allocFromUTF32 [1114112; 55296; 65] 3 = Some s.
Proof.
  destruct (string_buffers [65; 226; 130; 0; 0; 0] [1114112; 55296; 65] 3 3) as [(s & E & n & En & H) H32].
  - repeat constructor; lia.
  - lia.
  - cbn. lia.
  - lia.
  - cbn. lia.
  - split; [|exact H32]. rewrite E. destruct H as [[_ ->]|[H _]]; [done|]. exfalso. vm_compute in En, E. injection En as <-. injection E as <-. cbn in H. lia.
Defined.

(** *** Where the code goes wrong *)

(** The first half of a pair without the second: two bytes more are written than measured. *)
Example lone_surrogate : utf16_to_utf8_length [55296; 65] 2 = Some 1 ∧ utf16_to_utf8 [55296; 65] 2 = Some [226; 145; 129; 0] ∧
  allocFromUTF16 [55296; 65] 2 = None.
Proof. by vm_compute. Qed.
(** At the end of the text, the unit behind it is converted. *)
Example surrogate_at_end : utf16_to_utf8_length [65; 55296; 57005; 0] 2 = Some 1 ∧
  utf16_to_utf8 [65; 55296; 57005; 0] 2 = Some [65; 240; 144; 138; 173; 0].
Proof. by vm_compute. Qed.
(** With signed characters only ASCII text has a length. *)
Example utf8_length_signed : utf8_length [65; 66; 0] = Some 2 ∧ utf8_length (utf8 [228] ++ [0]) = Some (-1).
Proof. by vm_compute. Qed.
(** A text is cut at the first unit whose low byte is zero. *)
Example strncpy16_cuts : strncpy16 [65; 256; 66; 0] 4 = Some [65; 256; 0].
Proof. by vm_compute. Qed.
(** For a [String16] of 2^31 - 9 units the 32-bit size of the block comes to 0. *)
Lemma string16_size_wraps cs r : Forall scalar cs → Z.of_nat (length (utf16 cs)) = 2 ^ 31 - 9 →
  allocFromUTF8 (utf8 cs ++ r) (Z.of_nat (length (utf8 cs))) = None.
Proof.
  intros Hcs Hn. pose proof (utf16_shorter cs). unfold allocFromUTF8, utf8_to_utf16_length, utf8_to_utf16, utf8_to_utf16_no_null_terminator.
  destruct (measure_utf8s16_ok (Z.to_nat (Z.of_nat (length (utf8 cs)))) cs r 0 Hcs) as [-> ->]; [lia|].
  rewrite bool_decide_false by lia. cbn [mbind option_bind fst snd]. rewrite (bool_decide_true (0 = 0)) by done.
  rewrite Z.add_0_l, Hn. rewrite bool_decide_false by lia. unfold fill. rewrite bool_decide_false; [done|].
  rewrite length_app, Nat2Z.inj_add, Hn. change (SharedBuffer_alloc (2 * (2 ^ 31 - 9 + 1))) with (-16). cbn [length]. lia.
Qed.
(** The first byte 0xFE asks for more bits than a word holds. *)
Example utf32_wide : utf32_at_internal [254; 128; 128; 128; 128; 128; 128] = None.
Proof. by vm_compute. Qed.
End UnicodeDemo.
