(* ===== verification/RefBase.v ===== *)
(** * Counted references

    [libs/utils/RefBase.cpp]: the counts of strong and weak references to an object, and
    its end, one access to shared memory at a time.  [exec] runs a thread from one
    such access to the next; what is left to do in the call is a [pc].  The flags change
    only before there are references, and are read along with other accesses.  The
    tracking of references ([DEBUG_REFS]) is not compiled. *)

From Stdlib Require Import ZArith Lia.
From stdpp Require Import base tactics numbers option list.
From S2P Require Import Prelude.

Definition INITIAL_STRONG_VALUE : Z := 2 ^ 28.
Definition OBJECT_LIFETIME_STRONG : Z := 0.
Definition OBJECT_LIFETIME_WEAK : Z := 1.
Definition OBJECT_LIFETIME_MASK : Z := 1.

(** ** The object and its counts *)

(** The virtual calls on the object. *)
Inductive virtual_call := onFirstRef | onLastStrongRef | onIncStrongAttempted | onLastWeakRef.

(** A [RefBase] and its [weakref_impl]; [r_refs] and [r_base] say whether they have not
    been deleted yet, [r_calls] which virtual calls there were. *)
Record refbase := RefBase {
  mStrong : Z;
  mWeak : Z;
  mFlags : Z;
  r_refs : bool;
  r_base : bool;
  r_calls : list virtual_call
}.
Definition set_mStrong (v : Z) (x : refbase) : refbase := RefBase v (mWeak x) (mFlags x) (r_refs x) (r_base x) (r_calls x).
Definition set_mWeak (v : Z) (x : refbase) : refbase := RefBase (mStrong x) v (mFlags x) (r_refs x) (r_base x) (r_calls x).
Definition set_mFlags (v : Z) (x : refbase) : refbase := RefBase (mStrong x) (mWeak x) v (r_refs x) (r_base x) (r_calls x).
Definition set_r_refs (v : bool) (x : refbase) : refbase := RefBase (mStrong x) (mWeak x) (mFlags x) v (r_base x) (r_calls x).
Definition set_r_base (v : bool) (x : refbase) : refbase := RefBase (mStrong x) (mWeak x) (mFlags x) (r_refs x) v (r_calls x).
Definition set_r_calls (v : list virtual_call) (x : refbase) : refbase := RefBase (mStrong x) (mWeak x) (mFlags x) (r_refs x) (r_base x) v.

(** The constructors. *)
Definition new_RefBase : refbase := RefBase INITIAL_STRONG_VALUE 0 0 true true [].

#[local] Notation MR := (M refbase).

(** An access to a field of the [weakref_impl], which must be there. *)
Definition refs_get {A} (f : refbase → A) : MR A := s <- getst ;; if r_refs s then ret (f s) else crash_with CrashOops.
(** [android_atomic_add], which yields the old value. *)
Definition add_strong (d : Z) : MR Z := c <- refs_get mStrong ;; modify (set_mStrong (s32 (c + d))) ;;; ret c.
Definition add_weak (d : Z) : MR Z := c <- refs_get mWeak ;; modify (set_mWeak (s32 (c + d))) ;;; ret c.
(** [android_atomic_cmpxchg]: whether it has stored. *)
Definition cmpxchg_strong (old new : Z) : MR bool :=
  c <- refs_get mStrong ;; if bool_decide (c = old) then modify (set_mStrong new) ;;; ret true else ret false.
Definition cmpxchg_weak (old new : Z) : MR bool :=
  c <- refs_get mWeak ;; if bool_decide (c = old) then modify (set_mWeak new) ;;; ret true else ret false.
(** A virtual call on the object, which must be there. *)
Definition virtual (f : virtual_call) : MR unit :=
  s <- getst ;; if r_base s then modify (set_r_calls (r_calls s ++ [f])) else crash_with CrashOops.
(** [delete impl]. *)
Definition delete_refs : MR unit := refs_get mFlags ;;; modify (set_r_refs false).

(** ** What is left to do in a call *)

(** What [incWeak] is called in. *)
Inductive after_incWeak := in_incWeak | in_incStrong | in_forceIncStrong | in_attemptIncStrong.
(** The reference a call leaves the caller with, beyond the one it had. *)
Inductive grant := GNone | GWeak | GStrong.

Inductive pc :=
  | Finished (g : grant)
  | IncWeak (k : after_incWeak)
  | IncStrong1 | IncStrong2 | IncStrong3
  | Force1 | Force2 | Force3
  | DecStrong0 | DecStrong1
  (** [delete] of the object, in [decStrong] or not. *)
  | Destroy0 (in_decStrong : bool) | Destroy1 (in_decStrong : bool)
  | DecWeak0 | DecWeak1 | DecWeak2
  | Attempt1 | Attempt2 (curCount : Z) | AttemptFirst (curCount : Z) | AttemptAgain | AttemptRevive | AttemptInc | AttemptExtra (curCount : Z)
  | Fix0 | Fix1 (curCount : Z)
  | AttemptWeak0 | AttemptWeak1 (curCount : Z).

(** The start of each call. *)
Definition incWeak : pc := IncWeak in_incWeak.
Definition incStrong : pc := IncWeak in_incStrong.
Definition forceIncStrong : pc := IncWeak in_forceIncStrong.
Definition decStrong : pc := DecStrong0.
Definition decWeak : pc := DecWeak0.
Definition attemptIncStrong : pc := IncWeak in_attemptIncStrong.
Definition attemptIncWeak : pc := AttemptWeak0.

(** [incWeak]. *)
Definition exec_IncWeak (k : after_incWeak) : MR pc :=
  add_weak 1 ;;;
  ret (match k with in_incWeak => Finished GWeak | in_incStrong => IncStrong1 | in_forceIncStrong => Force1 | in_attemptIncStrong => Attempt1 end).

(** [incStrong]: the increment; the correction of the first one; [onFirstRef]. *)
Definition exec_IncStrong1 : MR pc :=
  c <- add_strong 1 ;; ret (if bool_decide (c ≠ INITIAL_STRONG_VALUE) then Finished GStrong else IncStrong2).
Definition exec_IncStrong2 : MR pc := add_strong (- INITIAL_STRONG_VALUE) ;;; ret IncStrong3.
Definition exec_IncStrong3 : MR pc := virtual onFirstRef ;;; ret (Finished GStrong).

(** [forceIncStrong]. *)
Definition exec_Force1 : MR pc :=
  c <- add_strong 1 ;;
  ret (if bool_decide (c = INITIAL_STRONG_VALUE) then Force2 else if bool_decide (c = 0) then Force3 else Finished GStrong).
Definition exec_Force2 : MR pc := add_strong (- INITIAL_STRONG_VALUE) ;;; ret Force3.
Definition exec_Force3 : MR pc := virtual onFirstRef ;;; ret (Finished GStrong).

(** [decStrong]: the decrement; the end of the last reference. *)
Definition exec_DecStrong0 : MR pc := c <- add_strong (-1) ;; ret (if bool_decide (c = 1) then DecStrong1 else DecWeak0).
Definition exec_DecStrong1 : MR pc :=
  virtual onLastStrongRef ;;;
  flags <- refs_get mFlags ;;
  ret (if bool_decide (Z.land flags OBJECT_LIFETIME_MASK = OBJECT_LIFETIME_STRONG) then Destroy0 true else DecWeak0).

(** [~RefBase]; with its start the object is gone for others. *)
Definition destroyed (in_decStrong : bool) : pc := if in_decStrong then DecWeak0 else Finished GNone.
Definition exec_Destroy0 (in_decStrong : bool) : MR pc :=
  s <- getst ;;
  if r_base s then
    modify (set_r_base false) ;;;
    strong <- refs_get mStrong ;;
    flags <- refs_get mFlags ;;
    if bool_decide (strong = INITIAL_STRONG_VALUE) then delete_refs ;;; ret (destroyed in_decStrong)
    else ret (if bool_decide (Z.land flags OBJECT_LIFETIME_MASK ≠ OBJECT_LIFETIME_STRONG) then Destroy1 in_decStrong else destroyed in_decStrong)
  else crash_with CrashOops.
Definition exec_Destroy1 (in_decStrong : bool) : MR pc :=
  weak <- refs_get mWeak ;;
  (when bool_decide (weak = 0) do delete_refs) ;;;
  ret (destroyed in_decStrong).

(** [decWeak]. *)
Definition exec_DecWeak0 : MR pc := c <- add_weak (-1) ;; ret (if bool_decide (c ≠ 1) then Finished GNone else DecWeak1).
Definition exec_DecWeak1 : MR pc :=
  flags <- refs_get mFlags ;;
  if bool_decide (Z.land flags OBJECT_LIFETIME_WEAK = OBJECT_LIFETIME_STRONG) then
    strong <- refs_get mStrong ;;
    if bool_decide (strong = INITIAL_STRONG_VALUE) then ret (Destroy0 false) else delete_refs ;;; ret (Finished GNone)
  else virtual onLastWeakRef ;;; ret DecWeak2.
Definition exec_DecWeak2 : MR pc :=
  flags <- refs_get mFlags ;;
  ret (if bool_decide (Z.land flags OBJECT_LIFETIME_MASK = OBJECT_LIFETIME_WEAK) then Destroy0 false else Finished GNone).

(** [attemptIncStrong]: the load of [curCount]; the loop on a count that is neither
    the initial one nor zero, and the choice for those that are. *)
Definition exec_Attempt1 : MR pc := curCount <- refs_get mStrong ;; ret (Attempt2 curCount).
Definition exec_Attempt2 (curCount : Z) : MR pc :=
  if bool_decide (curCount > 0) && bool_decide (curCount ≠ INITIAL_STRONG_VALUE) then
    done <- cmpxchg_strong curCount (curCount + 1) ;; ret (if done : bool then Fix0 else Attempt1)
  else
    flags <- refs_get mFlags ;;
    ret (if bool_decide (Z.land flags OBJECT_LIFETIME_WEAK = OBJECT_LIFETIME_STRONG) then
           if bool_decide (curCount <= 0) then DecWeak0 else AttemptFirst curCount
         else AttemptRevive).
(** The loop that promotes an object without a strong reference so far. *)
Definition exec_AttemptFirst (curCount : Z) : MR pc :=
  if bool_decide (curCount > 0) then
    done <- cmpxchg_strong curCount (curCount + 1) ;;
    ret (if done : bool then AttemptExtra curCount else AttemptAgain)
  else ret DecWeak0.
Definition exec_AttemptAgain : MR pc := curCount <- refs_get mStrong ;; ret (AttemptFirst curCount).
(** An object that lives as long as its weak references is asked. *)
Definition exec_AttemptRevive (agrees : bool) : MR pc := virtual onIncStrongAttempted ;;; ret (if agrees then AttemptInc else DecWeak0).
Definition exec_AttemptInc : MR pc := curCount <- add_strong 1 ;; ret (AttemptExtra curCount).
Definition exec_AttemptExtra (curCount : Z) : MR pc :=
  (when bool_decide (curCount > 0) && bool_decide (curCount < INITIAL_STRONG_VALUE) do virtual onLastStrongRef) ;;; ret Fix0.
(** The correction of the initial count. *)
Definition exec_Fix0 : MR pc := curCount <- refs_get mStrong ;; ret (Fix1 curCount).
Definition exec_Fix1 (curCount : Z) : MR pc :=
  if bool_decide (curCount >= INITIAL_STRONG_VALUE) then
    done <- cmpxchg_strong curCount (curCount - INITIAL_STRONG_VALUE) ;; ret (if done : bool then Finished GStrong else Fix0)
  else ret (Finished GStrong).

(** [attemptIncWeak]. *)
Definition exec_AttemptWeak0 : MR pc := curCount <- refs_get mWeak ;; ret (AttemptWeak1 curCount).
Definition exec_AttemptWeak1 (curCount : Z) : MR pc :=
  if bool_decide (curCount > 0) then
    done <- cmpxchg_weak curCount (curCount + 1) ;; ret (if done : bool then Finished GWeak else AttemptWeak0)
  else ret (Finished GNone).

(** The next access of a call; [agrees] is what [onIncStrongAttempted] returns. *)
Definition exec (agrees : bool) (p : pc) : MR pc :=
  match p with
  | Finished g => ret (Finished g)
  | IncWeak k => exec_IncWeak k
  | IncStrong1 => exec_IncStrong1
  | IncStrong2 => exec_IncStrong2
  | IncStrong3 => exec_IncStrong3
  | Force1 => exec_Force1
  | Force2 => exec_Force2
  | Force3 => exec_Force3
  | DecStrong0 => exec_DecStrong0
  | DecStrong1 => exec_DecStrong1
  | Destroy0 b => exec_Destroy0 b
  | Destroy1 b => exec_Destroy1 b
  | DecWeak0 => exec_DecWeak0
  | DecWeak1 => exec_DecWeak1
  | DecWeak2 => exec_DecWeak2
  | Attempt1 => exec_Attempt1
  | Attempt2 c => exec_Attempt2 c
  | AttemptFirst c => exec_AttemptFirst c
  | AttemptAgain => exec_AttemptAgain
  | AttemptRevive => exec_AttemptRevive agrees
  | AttemptInc => exec_AttemptInc
  | AttemptExtra c => exec_AttemptExtra c
  | Fix0 => exec_Fix0
  | Fix1 c => exec_Fix1 c
  | AttemptWeak0 => exec_AttemptWeak0
  | AttemptWeak1 c => exec_AttemptWeak1 c
  end.

(** A call that is not disturbed, over its next [n] accesses. *)
Fixpoint solo (n : nat) (agrees : bool) (p : pc) : MR pc :=
  match n, p with
  | S n, Finished _ => ret p
  | S n, _ => p' <- exec agrees p ;; solo n agrees p'
  | O, _ => ret p
  end.

(** [extendObjectLifetime], [getStrongCount], [getWeakCount]. *)
Definition extendObjectLifetime (mode : Z) : MR unit := flags <- refs_get mFlags ;; modify (set_mFlags (Z.lor flags mode)).
Definition getStrongCount : MR Z := refs_get mStrong.
Definition getWeakCount : MR Z := refs_get mWeak.

(** What an object says that does not override [onIncStrongAttempted]. *)
Definition FIRST_INC_STRONG : Z := 1.
Definition onIncStrongAttempted_default (flags : Z) : bool := bool_decide (Z.land flags FIRST_INC_STRONG ≠ 0).

(** ** All threads *)

(** What a call relies on while it runs: a reference the caller has (and has again when
    the call is over), the one it gives up, or that nobody else knows the object yet. *)
Inductive basis := OnStrong | OnWeak | GivesUp | Alone.
Record thread := Thread { t_basis : basis; t_pc : pc }.

(** The object, the references that are held outside of calls, and the calls under way;
    [y_new]: nobody has had a reference yet. *)
Record system := System {
  y_cell : refbase;
  y_strong : nat;
  y_weak : nat;
  y_threads : list thread;
  y_new : bool
}.

(** The references there are or may come to be; the counts have room for [MAX_REFS]. *)
Definition MAX_REFS : Z := 2 ^ 27.
Definition refs_total (y : system) : Z := Z.of_nat (y_strong y + y_weak y + 2 * length (y_threads y)).

(** Which calls a caller may make on what it has. *)
Definition on_strong (p : pc) : Prop := p = incStrong ∨ p = forceIncStrong ∨ p = incWeak ∨ p = attemptIncWeak.
Definition on_weak (y : system) (p : pc) : Prop :=
  p = incWeak ∨ p = attemptIncStrong ∨ p = attemptIncWeak ∨
  (p = forceIncStrong ∧ Z.land (mFlags (y_cell y)) OBJECT_LIFETIME_MASK = OBJECT_LIFETIME_WEAK ∧ mStrong (y_cell y) < INITIAL_STRONG_VALUE).

Definition held (b : basis) : nat * nat := match b with OnStrong => (1, 0)%nat | OnWeak => (0, 1)%nat | _ => (0, 0)%nat end.
Definition granted (g : grant) : nat * nat := match g with GStrong => (1, 0)%nat | GWeak => (0, 1)%nat | GNone => (0, 0)%nat end.

Inductive step : system → system → Prop :=
  | step_lifetime c c' mode : mode = OBJECT_LIFETIME_STRONG ∨ mode = OBJECT_LIFETIME_WEAK → extendObjectLifetime mode c = Ret tt c' →
      step (System c 0 0 [] true) (System c' 0 0 [] true)
  (** The first call on the object, by its creator. *)
  | step_first c p : p = incStrong ∨ p = forceIncStrong ∨ p = incWeak →
      step (System c 0 0 [] true) (System c 0 0 [Thread Alone p] false)
  | step_on_strong c ns nw ts p : on_strong p → (refs_total (System c (S ns) nw ts false) < MAX_REFS) →
      step (System c (S ns) nw ts false) (System c ns nw (Thread OnStrong p :: ts) false)
  | step_on_weak c ns nw ts p : on_weak (System c ns (S nw) ts false) p → (refs_total (System c ns (S nw) ts false) < MAX_REFS) →
      step (System c ns (S nw) ts false) (System c ns nw (Thread OnWeak p :: ts) false)
  | step_decStrong c ns nw ts : (refs_total (System c (S ns) nw ts false) < MAX_REFS) →
      step (System c (S ns) nw ts false) (System c ns nw (Thread GivesUp decStrong :: ts) false)
  | step_decWeak c ns nw ts : (refs_total (System c ns (S nw) ts false) < MAX_REFS) →
      step (System c ns (S nw) ts false) (System c ns nw (Thread GivesUp decWeak :: ts) false)
  (** A call goes on by one access. *)
  | step_exec c c' ns nw ts1 ts2 b p p' agrees : exec agrees p c = Ret p' c' →
      step (System c ns nw (ts1 ++ Thread b p :: ts2) false) (System c' ns nw (ts1 ++ Thread b p' :: ts2) false)
  (** A call returns. *)
  | step_return c ns nw ts1 ts2 b g :
      step (System c ns nw (ts1 ++ Thread b (Finished g) :: ts2) false)
        (System c (ns + (held b).1 + (granted g).1) (nw + (held b).2 + (granted g).2) (ts1 ++ ts2) false).

Definition new_system : system := System new_RefBase 0 0 [] true.
