(* ===== verification/RefBaseSpec.v ===== *)
(** * Objects live as long as they are referred to

    Over any interleaving of the calls of any number of threads, each of which only
    makes calls on references it has: no access is to an object or to counts that
    have been deleted, an object lives while there is a strong reference (or any one,
    with the extended lifetime), and when the last reference is gone so is all. *)

From Stdlib Require Import ZArith Lia.
From stdpp Require Import base tactics numbers option list relations.
From S2P Require Import Prelude RefBase.

(** ** What a call has on its account *)

(** Units of [mStrong] and of [mWeak]. *)
Definition strong_of (p : pc) : nat :=
  match p with
  | IncStrong2 | IncStrong3 | Force2 | Force3 | DecStrong0 | AttemptExtra _ | Fix0 | Fix1 _ | Finished GStrong => 1
  | _ => 0
  end.
Definition weak_of (p : pc) : nat :=
  match p with
  | Finished GNone | IncWeak _ | Destroy0 false | Destroy1 false | DecWeak1 | DecWeak2 | AttemptWeak0 | AttemptWeak1 _ => 0
  | _ => 1
  end.
(** It is about to end the object after the last strong reference; all after the last weak one. *)
Definition kills (p : pc) : nat := match p with DecStrong1 | Destroy0 true => 1 | _ => 0 end.
Definition final (p : pc) : nat := match p with DecWeak1 | DecWeak2 | Destroy0 false | Destroy1 false => 1 | _ => 0 end.
(** It is in the destructor, with the extended lifetime; it is about to be, without. *)
Definition destroyed_by (ext : bool) (p : pc) : nat :=
  match p with Destroy1 false => if ext then 1 else 0 | Destroy0 false => if ext then 0 else 1 | _ => 0 end.

Definition t_strong (t : thread) : nat := (held (t_basis t)).1 + strong_of (t_pc t).
Definition t_weak (t : thread) : nat := (held (t_basis t)).1 + (held (t_basis t)).2 + weak_of (t_pc t).
Definition t_alone (t : thread) : nat := match t_basis t with Alone => 1 | _ => 0 end.
Definition sum (f : thread → nat) (ts : list thread) : nat := sum_list (f <$> ts).

Lemma sum_app f l1 l2 : sum f (l1 ++ l2) = (sum f l1 + sum f l2)%nat.
Proof. unfold sum. rewrite fmap_app. induction l1 as [|t l1 IH]; [done|]. cbn in *. lia. Qed.
Lemma sum_cons f t l : sum f (t :: l) = (f t + sum f l)%nat.
Proof. done. Qed.

(** Which calls stand on what; [ext] is the extended lifetime. *)
Definition fits (ext : bool) (t : thread) : bool :=
  match t_basis t, t_pc t with
  | Alone, (IncWeak in_incWeak | IncWeak in_incStrong | IncWeak in_forceIncStrong | IncStrong1 | IncStrong2 | IncStrong3 | Force1 | Force2 | Force3
      | Finished GWeak | Finished GStrong) => true
  | OnStrong, (IncWeak in_incWeak | IncWeak in_incStrong | IncWeak in_forceIncStrong | IncStrong1 | Force1 | Finished _ | AttemptWeak0 | AttemptWeak1 _) => true
  | OnWeak, (IncWeak in_incWeak | IncWeak in_attemptIncStrong | Attempt1 | Attempt2 _ | AttemptExtra _ | Fix0 | Fix1 _ | DecWeak0 | Finished _
      | AttemptWeak0 | AttemptWeak1 _) => true
  | OnWeak, (AttemptFirst _ | AttemptAgain) => negb ext
  | OnWeak, (AttemptRevive | AttemptInc | IncWeak in_forceIncStrong | Force1 | Force3) => ext
  | GivesUp, (DecStrong0 | DecStrong1 | Destroy0 false | DecWeak0 | DecWeak1 | Finished GNone) => true
  | GivesUp, (DecWeak2 | Destroy1 false) => ext
  | GivesUp, Destroy0 true => negb ext
  | _, _ => false
  end.
(** Before the initial count is corrected, and after. *)
Definition early (t : thread) : bool :=
  match t_basis t, t_pc t with
  | OnStrong, _ => false
  | _, (IncStrong3 | Force3 | DecStrong0 | DecStrong1 | Destroy0 true | Destroy1 true | Finished GStrong) => false
  | Alone, _ => true
  | _, (IncWeak in_forceIncStrong | Force1) => false
  | _, Fix1 c => bool_decide (INITIAL_STRONG_VALUE <= c)
  | _, _ => true
  end.
Definition late (t : thread) : bool :=
  match t_basis t, t_pc t with
  | Alone, (IncStrong3 | Force3 | Finished GStrong) => true
  | Alone, _ | _, (IncStrong2 | Force2) => false
  | _, _ => true
  end.
Definition in_phase (corrected : bool) (t : thread) : bool := if corrected then late t else early t.

(** ** The invariant *)

(** The counts and what they count: strong and weak units, calls that end the object, calls that
    end all, those past the destructor's start, calls of a lone creator, all calls. *)
Record counted (ext corrected : bool) (c : refbase) (ns nw S W nk nf nd na nt : nat) : Prop := {
  ct_flags : mFlags c = if ext then OBJECT_LIFETIME_WEAK else OBJECT_LIFETIME_STRONG;
  ct_strong : mStrong c = (if corrected then 0 else INITIAL_STRONG_VALUE) + Z.of_nat S;
  ct_early : corrected = false → ns = 0%nat;
  ct_weak : mWeak c = Z.of_nat W;
  ct_final : (nf ≤ 1)%nat ∧ (nf = 1%nat → W = 0%nat);
  ct_alone : (0 < na)%nat → nt = 1%nat ∧ ns = 0%nat ∧ nw = 0%nat;
  ct_refs : if r_refs c then (0 < W ∨ nf = 1 ∨ 0 < na)%nat else (W = 0 ∧ nf = 0 ∧ na = 0)%nat ∧ (if r_base c then False else True);
  ct_base : r_refs c = true →
    if ext then (if r_base c then nd = 0%nat else 0 < nd)%nat
    else if corrected then nd = 0%nat ∧ (if r_base c then (0 < S ∧ nk = 0) ∨ (S = 0 ∧ nk = 1) else S = 0 ∧ nk = 0)%nat
    else if r_base c then nk = 0%nat else False;
  ct_bound : Z.of_nat (ns + nw + 2 * nt) ≤ MAX_REFS
}.
Definition f_kills (t : thread) := kills (t_pc t).
Definition f_final (t : thread) := final (t_pc t).
Definition f_destroyed (ext : bool) (t : thread) := destroyed_by ext (t_pc t).
Definition counted_in (ext corrected : bool) (c : refbase) (ns nw : nat) (ts : list thread) : Prop :=
  counted ext corrected c ns nw (ns + sum t_strong ts) (ns + nw + sum t_weak ts) (sum f_kills ts) (sum f_final ts) (sum (f_destroyed ext) ts)
    (sum t_alone ts) (length ts).
Definition sys_ok (y : system) : Prop :=
  if y_new y then y_strong y = 0%nat ∧ y_weak y = 0%nat ∧ y_threads y = [] ∧ ∃ fl calls, (fl = 0 ∨ fl = 1) ∧ y_cell y = RefBase INITIAL_STRONG_VALUE 0 fl true true calls
  else ∃ ext corrected, counted_in ext corrected (y_cell y) (y_strong y) (y_weak y) (y_threads y) ∧
    Forall (λ t, fits ext t = true ∧ in_phase corrected t = true) (y_threads y).

Lemma sum_bounds ext ts : (sum t_strong ts ≤ sum t_weak ts ≤ 2 * length ts ∧ sum f_kills ts ≤ sum t_weak ts ∧
  sum (f_destroyed ext) ts ≤ sum f_final ts ≤ length ts ∧ sum t_alone ts ≤ length ts)%nat.
Proof.
  induction ts as [|[b p] ts IH]; [cbn; lia|]. rewrite !sum_cons. cbn [length].
  assert ((t_strong (Thread b p) ≤ t_weak (Thread b p) ≤ 2 ∧ f_kills (Thread b p) ≤ t_weak (Thread b p) ∧
    f_destroyed ext (Thread b p) ≤ f_final (Thread b p) ≤ 1 ∧ t_alone (Thread b p) ≤ 1)%nat); [|lia].
  unfold t_strong, t_weak, f_kills, f_destroyed, f_final, t_alone. cbn [t_basis t_pc].
  destruct ext, p as [[]| | | | | | | | | |[]|[]| | | | | | | | | | | | | |], b; cbn; lia.
Qed.

(** ** One access *)

Lemma call_refs ext corrected c ns nw b p ts : counted_in ext corrected c ns nw (Thread b p :: ts) → fits ext (Thread b p) = true →
  (p ≠ Finished GNone ∨ b ≠ GivesUp) → r_refs c = true.
Proof.
  intros [_ _ _ _ _ _ Hr _ _] Hf Hne. destruct (r_refs c); [done|]. exfalso. destruct Hr as [(H1 & H2 & H3) _].
  rewrite !sum_cons in H1, H2, H3. unfold t_weak, t_alone, f_final in *. cbn [t_basis t_pc] in *.
  destruct p as [[]| | | | | | | | | |[]|[]| | | | | | | | | | | | | |], b; cbn in *; try done; try lia; by destruct Hne.
Qed.

(** The accesses, with the object's fields. *)
Lemma refs_get_eq {A} (f : refbase → A) c : r_refs c = true → refs_get f c = Ret (f c) c.
Proof. intros Hr. unfold refs_get. by rewrite bind_getst, Hr. Qed.
Lemma add_strong_eq d c : r_refs c = true → add_strong d c = Ret (mStrong c) (set_mStrong (s32 (mStrong c + d)) c).
Proof. intros Hr. unfold add_strong. by rewrite (bind_of _ (refs_get_eq mStrong c Hr)). Qed.
Lemma add_weak_eq d c : r_refs c = true → add_weak d c = Ret (mWeak c) (set_mWeak (s32 (mWeak c + d)) c).
Proof. intros Hr. unfold add_weak. by rewrite (bind_of _ (refs_get_eq mWeak c Hr)). Qed.
Lemma cmpxchg_strong_eq o n c : r_refs c = true → cmpxchg_strong o n c =
  if bool_decide (mStrong c = o) then Ret true (set_mStrong n c) else Ret false c.
Proof. intros Hr. unfold cmpxchg_strong. rewrite (bind_of _ (refs_get_eq mStrong c Hr)). by destruct (bool_decide _). Qed.
Lemma cmpxchg_weak_eq o n c : r_refs c = true → cmpxchg_weak o n c =
  if bool_decide (mWeak c = o) then Ret true (set_mWeak n c) else Ret false c.
Proof. intros Hr. unfold cmpxchg_weak. rewrite (bind_of _ (refs_get_eq mWeak c Hr)). by destruct (bool_decide _). Qed.
Lemma virtual_eq f c : r_base c = true → virtual f c = Ret tt (set_r_calls (r_calls c ++ [f]) c).
Proof. intros Hb. unfold virtual. by rewrite bind_getst, Hb. Qed.

(** The call goes on as [p'], and all still counts. *)
Definition goes_on (ext corrected : bool) (ns nw : nat) (ts : list thread) (b : basis) (p' : pc) (c' : refbase) : Prop :=
  ∃ corrected' : bool, counted_in ext corrected' c' ns nw (Thread b p' :: ts) ∧ fits ext (Thread b p') = true ∧
    in_phase corrected' (Thread b p') = true ∧ (corrected = true → corrected' = true).
Definition exec_ok (m : M refbase pc) (p : pc) : Prop := ∀ ext corrected c ns nw ts b,
  counted_in ext corrected c ns nw (Thread b p :: ts) → fits ext (Thread b p) = true → in_phase corrected (Thread b p) = true →
  wp m (goes_on ext corrected ns nw ts b) c.

Lemma t_strong_eq b p : t_strong (Thread b p) = ((held b).1 + strong_of p)%nat.
Proof. done. Qed.
Lemma t_weak_eq b p : t_weak (Thread b p) = ((held b).1 + (held b).2 + weak_of p)%nat.
Proof. done. Qed.
Ltac counts := rewrite ?t_strong_eq, ?t_weak_eq in *; cbn [t_strong t_weak t_alone f_kills f_final f_destroyed held t_basis t_pc strong_of weak_of kills final destroyed_by fst snd mStrong mWeak mFlags r_refs r_base r_calls
  set_mStrong set_mWeak set_mFlags set_r_refs set_r_base set_r_calls length] in *.
Ltac name_sums ext ts :=
  remember (sum t_strong ts) as aS eqn:ES; remember (sum t_weak ts) as aW eqn:EW; remember (sum f_kills ts) as ak eqn:EK;
  remember (sum f_final ts) as af eqn:EF; remember (sum (f_destroyed ext) ts) as ad eqn:ED; remember (sum t_alone ts) as aa eqn:EA; remember (length ts) as an eqn:EN.
Ltac unname_sums := repeat match goal with E : _ = sum _ _ |- _ => try rewrite <- E; clear E | E : _ = length _ |- _ => try rewrite <- E; clear E end.
Ltac begin_access := 
  let HC := fresh "HC" in let Hf := fresh "Hf" in let Hp := fresh "Hp" in let Hr := fresh "Hr" in let Hrest := fresh "Hrest" in
  intros ext corrected c ns nw ts b HC Hf Hp; pose proof (call_refs _ _ _ _ _ _ _ _ HC Hf ltac:(by left)) as Hr;
  pose proof (sum_bounds ext ts) as Hrest; unfold counted_in in HC; rewrite !sum_cons in HC;
  destruct HC as [C1 C2 C3 C4 C5 C6 C7 C8 C9]; destruct c as [st wk fl rf bs cl]; counts; subst rf; specialize (C8 eq_refl);
  name_sums ext ts.
(** All cases of the basis, the lifetime and the phase that the call can be in. *)
Ltac cases_access b ext corrected :=
  unfold INITIAL_STRONG_VALUE, MAX_REFS in *;
  destruct b, ext; try discriminate; destruct corrected; try discriminate; counts.
Ltac arith := try lia; repeat match goal with H : context [if ?x then _ else _] |- _ => is_var x; destruct x | |- context [if ?x then _ else _] => is_var x; destruct x end; try lia.
Ltac go ph :=
  exists ph; split; [|repeat split; first [done | apply bool_decide_eq_true; unfold INITIAL_STRONG_VALUE; lia]];
  unfold counted_in; rewrite !sum_cons; cbn [length]; unname_sums;
  unfold t_strong, t_weak, t_alone, f_kills, f_final, f_destroyed;
  split; unfold INITIAL_STRONG_VALUE, MAX_REFS; counts; intros; solve [lia | done | arith].

Lemma exec_IncWeak_ok k : exec_ok (exec_IncWeak k) (IncWeak k).
Proof.
  begin_access. apply wp_bind. eapply wp_det; [by apply add_weak_eq|]. apply wp_ret. counts.
  destruct k; cases_access b ext corrected; rewrite s32_small by lia; (go true || go false).
Qed.

(** The results of an access: the new counts, in either phase. *)
Ltac settle := unfold destroyed; counts; first [go true | go false].
(** An addition to [mStrong]; it wraps nowhere. *)
Ltac strong_access b ext corrected := eapply wp_bind, wp_det; [by apply add_strong_eq|]; apply wp_ret; counts; cases_access b ext corrected; rewrite s32_small by lia.

Lemma exec_IncStrong1_ok : exec_ok exec_IncStrong1 IncStrong1.
Proof.
  begin_access. unfold exec_IncStrong1. strong_access b ext corrected; case_bool_decide; try lia; settle.
Qed.
Lemma exec_IncStrong2_ok : exec_ok exec_IncStrong2 IncStrong2.
Proof. begin_access. unfold exec_IncStrong2. strong_access b ext corrected; settle. Qed.
Lemma exec_Force1_ok : exec_ok exec_Force1 Force1.
Proof.
  begin_access. unfold exec_Force1. strong_access b ext corrected; case_bool_decide; try lia; try settle; case_bool_decide; try lia; settle.
Qed.
Lemma exec_Force2_ok : exec_ok exec_Force2 Force2.
Proof. begin_access. unfold exec_Force2. strong_access b ext corrected; settle. Qed.
Lemma exec_DecStrong0_ok : exec_ok exec_DecStrong0 DecStrong0.
Proof.
  begin_access. unfold exec_DecStrong0. strong_access b ext corrected; case_bool_decide; try lia; settle.
Qed.
Lemma exec_DecWeak0_ok : exec_ok exec_DecWeak0 DecWeak0.
Proof.
  begin_access. unfold exec_DecWeak0. eapply wp_bind, wp_det; [by apply add_weak_eq|]. apply wp_ret. counts.
  cases_access b ext corrected; rewrite s32_small by lia; case_bool_decide; try lia; settle.
Qed.

(** A virtual call; the object is there. *)
Ltac virtual_access bs := destruct bs; [|exfalso; lia]; eapply wp_bind, wp_det; [by apply virtual_eq|].
(** A load of a field. *)
Ltac load_access f := eapply wp_bind, wp_det; [by apply (refs_get_eq f)|]; counts.
(** Tests of the flags. *)
Ltac flag_tests := repeat first [rewrite bool_decide_true by done | rewrite bool_decide_false by done | rewrite bool_decide_false by (intros []; done)].

Lemma exec_IncStrong3_ok : exec_ok exec_IncStrong3 IncStrong3.
Proof. begin_access. unfold exec_IncStrong3. cases_access b ext corrected; virtual_access bs; apply wp_ret; settle. Qed.
Lemma exec_Force3_ok : exec_ok exec_Force3 Force3.
Proof. begin_access. unfold exec_Force3. cases_access b ext corrected; virtual_access bs; apply wp_ret; settle. Qed.
Lemma exec_DecStrong1_ok : exec_ok exec_DecStrong1 DecStrong1.
Proof.
  begin_access. unfold exec_DecStrong1. cases_access b ext corrected; subst fl; virtual_access bs; load_access mFlags; apply wp_ret; flag_tests; settle.
Qed.
Lemma delete_refs_eq c : r_refs c = true → delete_refs c = Ret tt (set_r_refs false c).
Proof. intros Hr. unfold delete_refs. by rewrite (bind_of _ (refs_get_eq mFlags c Hr)). Qed.
Lemma exec_Destroy0_ok b : exec_ok (exec_Destroy0 b) (Destroy0 b).
Proof.
  rename b into k. begin_access. unfold exec_Destroy0. eapply wp_bind, wp_det; [done|]. destruct k; cases_access b ext corrected; subst fl; (destruct bs; [|exfalso; lia]); counts;
    (eapply wp_bind, wp_det; [done|]); load_access mStrong; load_access mFlags; case_bool_decide; try lia; flag_tests.
  all: try (eapply wp_bind, wp_det; [by apply delete_refs_eq|]); apply wp_ret; settle.
Qed.
Lemma exec_Destroy1_ok b : exec_ok (exec_Destroy1 b) (Destroy1 b).
Proof.
  rename b into k. begin_access. unfold exec_Destroy1. destruct k; cases_access b ext corrected; load_access mWeak; rewrite bool_decide_true by lia;
    (eapply wp_bind, wp_det; [by apply delete_refs_eq|]); apply wp_ret; settle.
Qed.
Lemma exec_DecWeak1_ok : exec_ok exec_DecWeak1 DecWeak1.
Proof.
  begin_access. unfold exec_DecWeak1. cases_access b ext corrected; subst fl; load_access mFlags; flag_tests.
  1,2: virtual_access bs; apply wp_ret; settle.
  all: load_access mStrong; case_bool_decide; try lia.
  all: try (eapply wp_bind, wp_det; [by apply delete_refs_eq|]); apply wp_ret; settle.
Qed.
Lemma exec_DecWeak2_ok : exec_ok exec_DecWeak2 DecWeak2.
Proof. begin_access. unfold exec_DecWeak2. cases_access b ext corrected; subst fl; load_access mFlags; apply wp_ret; flag_tests; settle. Qed.
Lemma exec_Attempt1_ok : exec_ok exec_Attempt1 Attempt1.
Proof. begin_access. unfold exec_Attempt1. load_access mStrong. apply wp_ret. cases_access b ext corrected; settle. Qed.
(** A compare-and-exchange of [mStrong]. *)
Ltac cmpxchg_access := apply wp_bind; unfold wp; rewrite cmpxchg_strong_eq by done; counts; case_bool_decide; apply wp_ret; settle.
Lemma exec_Attempt2_ok k : exec_ok (exec_Attempt2 k) (Attempt2 k).
Proof.
  begin_access. unfold exec_Attempt2. cases_access b ext corrected; subst fl; (case_bool_decide; [case_bool_decide; cbn [andb]|cbn [andb]]).
  all: try (load_access mFlags; apply wp_ret; flag_tests; try case_bool_decide; settle).
  all: cmpxchg_access.
Qed.
Lemma exec_AttemptFirst_ok k : exec_ok (exec_AttemptFirst k) (AttemptFirst k).
Proof.
  begin_access. unfold exec_AttemptFirst. cases_access b ext corrected; subst fl; (case_bool_decide; [cmpxchg_access|apply wp_ret; settle]).
Qed.
Lemma exec_AttemptAgain_ok : exec_ok exec_AttemptAgain AttemptAgain.
Proof. begin_access. unfold exec_AttemptAgain. load_access mStrong. apply wp_ret. cases_access b ext corrected; settle. Qed.
Lemma exec_AttemptRevive_ok agrees : exec_ok (exec_AttemptRevive agrees) AttemptRevive.
Proof. begin_access. unfold exec_AttemptRevive. cases_access b ext corrected; virtual_access bs; apply wp_ret; destruct agrees; settle. Qed.
Lemma exec_AttemptInc_ok : exec_ok exec_AttemptInc AttemptInc.
Proof. begin_access. unfold exec_AttemptInc. strong_access b ext corrected; settle. Qed.
Lemma exec_AttemptExtra_ok k : exec_ok (exec_AttemptExtra k) (AttemptExtra k).
Proof.
  begin_access. unfold exec_AttemptExtra. cases_access b ext corrected; (destruct bs; [|exfalso; lia]);
    (destruct (_ && _); [eapply wp_bind, wp_det; [by apply virtual_eq|]|]); apply wp_ret; settle.
Qed.
Lemma exec_Fix0_ok : exec_ok exec_Fix0 Fix0.
Proof. begin_access. unfold exec_Fix0. load_access mStrong. apply wp_ret. cases_access b ext corrected; settle. Qed.
Lemma exec_AttemptWeak0_ok : exec_ok exec_AttemptWeak0 AttemptWeak0.
Proof. begin_access. unfold exec_AttemptWeak0. load_access mWeak. apply wp_ret. cases_access b ext corrected; settle. Qed.
Lemma exec_AttemptWeak1_ok k : exec_ok (exec_AttemptWeak1 k) (AttemptWeak1 k).
Proof.
  begin_access. unfold exec_AttemptWeak1. case_bool_decide; [|apply wp_ret; cases_access b ext corrected; settle].
  apply wp_bind. unfold wp. rewrite cmpxchg_weak_eq by done. counts. case_bool_decide; apply wp_ret; cases_access b ext corrected; settle.
Qed.
Lemma exec_Fix1_ok k : exec_ok (exec_Fix1 k) (Fix1 k).
Proof.
  begin_access. unfold exec_Fix1. cases_access b ext corrected; cbn [in_phase early late t_basis t_pc] in Hp; try apply bool_decide_eq_true in Hp;
    (case_bool_decide; [cmpxchg_access|apply wp_ret; try (exfalso; unfold INITIAL_STRONG_VALUE in *; lia); settle]).
Qed.

(** The next access of any call. *)
Lemma exec_goes_on agrees p : exec_ok (exec agrees p) p.
Proof.
  destruct p; cbn [exec]; first
    [ apply exec_IncWeak_ok | apply exec_IncStrong1_ok | apply exec_IncStrong2_ok | apply exec_IncStrong3_ok | apply exec_Force1_ok | apply exec_Force2_ok
    | apply exec_Force3_ok | apply exec_DecStrong0_ok | apply exec_DecStrong1_ok | apply exec_Destroy0_ok | apply exec_Destroy1_ok | apply exec_DecWeak0_ok
    | apply exec_DecWeak1_ok | apply exec_DecWeak2_ok | apply exec_Attempt1_ok | apply exec_Attempt2_ok | apply exec_AttemptFirst_ok | apply exec_AttemptAgain_ok
    | apply exec_AttemptRevive_ok | apply exec_AttemptInc_ok | apply exec_AttemptExtra_ok | apply exec_Fix0_ok | apply exec_Fix1_ok | apply exec_AttemptWeak0_ok
    | apply exec_AttemptWeak1_ok | idtac ].
  intros ext corrected c ns nw ts b HC Hf Hp. apply wp_ret. by exists corrected.
Qed.
