(* ===== verification/RefBaseProps.v ===== *)
(** * What holds of counted references

    The invariant of [RefBaseSpec] along the steps of all threads, the properties of
    [RefBase] that it gives, and runs of several threads that show them. *)

From Stdlib Require Import ZArith Lia.
From stdpp Require Import base tactics numbers option list relations.
From S2P Require Import Prelude RefBase RefBaseSpec.

(** ** The invariant and the steps *)

Lemma sum_perm f ts ts' : ts ≡ₚ ts' → sum f ts = sum f ts'.
Proof. induction 1; rewrite ?sum_cons; lia. Qed.
Lemma counted_in_perm ext corrected c ns nw ts ts' : ts ≡ₚ ts' → counted_in ext corrected c ns nw ts → counted_in ext corrected c ns nw ts'.
Proof.
  intros HP. unfold counted_in.
  by rewrite !(sum_perm _ _ _ HP), (Permutation_length HP).
Qed.

(** A call that corrects the initial count is the only one that could still have to. *)
Lemma others_late ext corrected corrected' c ns nw b p ts : counted_in ext corrected' c ns nw (Thread b p :: ts) → (corrected = true → corrected' = true) →
  Forall (λ t, fits ext t = true ∧ in_phase corrected t = true) ts → Forall (λ t, fits ext t = true ∧ in_phase corrected' t = true) ts.
Proof.
  intros HC Hmono HF. destruct corrected, corrected'; try done; [by specialize (Hmono eq_refl)|].
  assert (sum t_alone ts = 0%nat) as Hz.
  { pose proof (ct_alone _ _ _ _ _ _ _ _ _ _ _ _ HC) as HA. rewrite sum_cons in HA. cbn [length] in HA. destruct (sum t_alone ts) eqn:E; [done|].
    destruct ts; [by cbn in E|]. cbn [length] in HA. lia. }
  clear HC. induction HF as [|[b' p'] ts' [Hf Hp] HF IH]; [done|]. rewrite sum_cons in Hz. constructor; [|apply IH; lia].
  split; [done|]. unfold t_alone in Hz. cbn [t_basis] in Hz. unfold in_phase, early, late, fits in *. cbn [t_basis t_pc] in *.
  destruct b'; try lia; try done; destruct p'; done.
Qed.

Lemma exec_step_ok c c' ns nw ts1 ts2 b p p' agrees : sys_ok (System c ns nw (ts1 ++ Thread b p :: ts2) false) → exec agrees p c = Ret p' c' →
  sys_ok (System c' ns nw (ts1 ++ Thread b p' :: ts2) false).
Proof.
  intros (ext & corrected & HC & HF) HE. cbn in HC, HF.
  assert (∀ q, ts1 ++ Thread b q :: ts2 ≡ₚ Thread b q :: ts1 ++ ts2) as HP by (intros q; symmetry; apply Permutation_middle).
  rewrite (HP p) in HF. apply (counted_in_perm _ _ _ _ _ _ _ (HP p)) in HC. apply Forall_cons in HF as [[Hf Hp] HF].
  pose proof (exec_goes_on agrees p _ _ _ _ _ _ _ HC Hf Hp) as HW. unfold wp in HW. rewrite HE in HW.
  destruct HW as (corrected' & HC' & Hf' & Hp' & Hmono).
  exists ext, corrected'. cbn. split.
  - apply (counted_in_perm _ _ _ _ _ _ _ (symmetry (HP p'))), HC'.
  - rewrite (HP p'). constructor; [done|]. by eapply others_late.
Qed.

(** A call that starts, on one of the references. *)
Lemma call_starts ext corrected c ns nw ns' nw' ts t : counted_in ext corrected c ns' nw' ts →
  (0 < t_weak t)%nat → (ns ≤ ns')%nat → (nw ≤ nw')%nat → ns' = (ns + t_strong t)%nat → (ns' + nw' = ns + nw + t_weak t)%nat →
  t_alone t = 0%nat → f_kills t = 0%nat → f_final t = 0%nat → f_destroyed ext t = 0%nat →
  Z.of_nat (ns' + nw' + 2 * length ts) < MAX_REFS → counted_in ext corrected c ns nw (t :: ts).
Proof.
  intros HC Hpos Hns Hnw HS HW Ha Hk Hf Hd Hb. unfold counted_in in *. rewrite !sum_cons. cbn [length].
  rewrite Ha, Hk, Hf, Hd. cbn [Nat.add].
  replace (ns + (t_strong t + sum t_strong ts))%nat with (ns' + sum t_strong ts)%nat by lia.
  replace (ns + nw + (t_weak t + sum t_weak ts))%nat with (ns' + nw' + sum t_weak ts)%nat by lia.
  destruct HC as [? ? He]. split; try done; try lia. intros E. specialize (He E). lia.
Qed.

Lemma starts_ok c ns nw ns' nw' ts b p : sys_ok (System c ns' nw' ts false) →
  ns' = (ns + (held b).1 + strong_of p)%nat → nw' = (nw + (held b).2 + (weak_of p - strong_of p))%nat → (0 < weak_of p + (held b).1 + (held b).2)%nat → (strong_of p ≤ weak_of p)%nat →
  b ≠ Alone → kills p = 0%nat → final p = 0%nat → refs_total (System c ns' nw' ts false) < MAX_REFS →
  (∀ ext corrected : bool, (mFlags c = if ext then OBJECT_LIFETIME_WEAK else OBJECT_LIFETIME_STRONG) → (corrected = false → ns' = 0%nat ∧ INITIAL_STRONG_VALUE <= mStrong c) →
    fits ext (Thread b p) = true ∧ in_phase corrected (Thread b p) = true) →
  sys_ok (System c ns nw (Thread b p :: ts) false).
Proof.
  intros (ext & corrected & HC & HF) -> -> Hpos Hsw Hb Hk Hf Ht Hp. cbn in HC, HF. exists ext, corrected. cbn. split.
  - eapply call_starts; eauto; unfold t_strong, t_weak, t_alone, f_kills, f_final, f_destroyed, refs_total in *; cbn in *; try lia; try done.
    + by destruct b.
    + destruct p as [[]| | | | | | | | | |[]|[]| | | | | | | | | | | | | |], ext; done.
  - constructor; [|done]. apply Hp; [apply HC|]. intros ->. split; [by apply (ct_early _ _ _ _ _ _ _ _ _ _ _ _ HC)|].
    rewrite (ct_strong _ _ _ _ _ _ _ _ _ _ _ _ HC). lia.
Qed.

Lemma return_ok c ns nw ts1 ts2 b g : sys_ok (System c ns nw (ts1 ++ Thread b (Finished g) :: ts2) false) →
  sys_ok (System c (ns + (held b).1 + (granted g).1) (nw + (held b).2 + (granted g).2) (ts1 ++ ts2) false).
Proof.
  intros (ext & corrected & HC & HF). cbn in HC, HF.
  assert (ts1 ++ Thread b (Finished g) :: ts2 ≡ₚ Thread b (Finished g) :: ts1 ++ ts2) as HP by (symmetry; apply Permutation_middle).
  rewrite HP in HF. apply (counted_in_perm _ _ _ _ _ _ _ HP) in HC. apply Forall_cons in HF as [[Hf Hp] HF].
  exists ext, corrected. cbn. split; [|done]. revert HC. generalize (ts1 ++ ts2). intros ts HC. unfold counted_in in *. rewrite !sum_cons in HC. cbn [length] in HC.
  set (t := Thread b (Finished g)) in *.
  assert (t_strong t = (held b).1 + (granted g).1 ∧ t_weak t = (held b).1 + (held b).2 + (granted g).1 + (granted g).2)%nat as [Ht1 Ht2] by (destruct b, g; done).
  rewrite Ht1, Ht2 in HC. change (f_kills t) with 0%nat in HC. change (f_final t) with 0%nat in HC. change (f_destroyed ext t) with 0%nat in HC. cbn [Nat.add] in HC.
  replace (ns + ((held b).1 + (granted g).1 + sum t_strong ts))%nat with (ns + (held b).1 + (granted g).1 + sum t_strong ts)%nat in HC by lia.
  replace (ns + nw + ((held b).1 + (held b).2 + (granted g).1 + (granted g).2 + sum t_weak ts))%nat
    with (ns + (held b).1 + (granted g).1 + (nw + (held b).2 + (granted g).2) + sum t_weak ts)%nat in HC by lia.
  destruct HC as [? ? He ? ? Hal Hr ? ?]. split; try done.
  - intros ->. specialize (He eq_refl). destruct b, g; cbn in *; try done; lia.
  - destruct ts; [cbn; lia|]. cbn [length] in *. lia.
  - destruct (r_refs c).
    + destruct Hr as [Hr|[Hr|Hr]]; [by left|by right; left|]. change (t_alone t) with (match b with Alone => 1 | _ => 0 end)%nat in Hr.
      destruct b; [right; right; lia..|]. left. destruct g; cbn in *; try done; lia.
    + destruct Hr as [(? & ? & ?) ?]. repeat split; try done; lia.
  - assert ((held b).1 + (granted g).1 + (held b).2 + (granted g).2 ≤ 2)%nat by (destruct b, g; cbn; lia). lia.
Qed.

Lemma first_ok c p : sys_ok (System c 0 0 [] true) → p = incStrong ∨ p = forceIncStrong ∨ p = incWeak → sys_ok (System c 0 0 [Thread Alone p] false).
Proof.
  intros (_ & _ & _ & fl & calls & Hfl & Hc) Hp. cbn in Hc. subst c. exists (bool_decide (fl = 1)), false.
  destruct Hfl as [-> | ->], Hp as [-> | [-> | ->]]; (split; [split; cbn; try done; try lia; by (repeat split; lia)|by repeat constructor]).
Qed.

Ltac starts ns nw := apply (starts_ok _ _ _ ns nw); [done|cbn; lia|cbn; lia|cbn; lia|cbn; lia|done|done|done|done|].

(** Every step preserves the invariant. *)
Lemma refs_step_ok y y' : step y y' → sys_ok y → sys_ok y'.
Proof.
  destruct 1 as [c c' mode Hm He|c p Hp|c ns nw ts p Hp Ht|c ns nw ts p Hp Ht|c ns nw ts Ht|c ns nw ts Ht|c c' ns nw ts1 ts2 b p p' agrees He|c ns nw ts1 ts2 b g]; intros HI.
  - destruct HI as (_ & _ & _ & fl & calls & Hfl & Hc). cbn in Hc. subst c. repeat split. exists (Z.lor fl mode), calls.
    injection He as <-. cbn. split; [|done]. destruct Hm as [-> | ->], Hfl as [-> | ->]; cbn; auto.
  - by apply first_ok.
  - destruct Hp as [-> | [-> | [-> | ->]]]; starts (S ns) nw; intros [] [] _ Hc; try done; destruct (Hc eq_refl); lia.
  - destruct Hp as [-> | [-> | [-> | (-> & Hw & Hs)]]]; starts ns (S nw); [by intros [] []..|]. cbn in Hw, Hs.
    intros ext corrected Hfl Hc. rewrite Hfl in Hw. destruct corrected; [|destruct (Hc eq_refl); lia]. by destruct ext.
  - starts (S ns) nw. intros [] [] _ Hc; try done; destruct (Hc eq_refl); lia.
  - starts ns (S nw). by intros [] [].
  - by eapply exec_step_ok.
  - by apply return_ok.
Qed.

Lemma reachable_ok y : rtc step new_system y → sys_ok y.
Proof.
  intros HR. assert (∀ a, rtc step a y → sys_ok a → sys_ok y) as H by (induction 1; eauto using refs_step_ok).
  apply (H _ HR). repeat split. exists 0, []. split; [by left|done].
Qed.

(** ** The progress of a call *)

(** How many accesses a call still makes at most when it is not disturbed; a count that was
    read and is still the current one makes for fewer. *)
Definition rank (c : refbase) (p : pc) : nat :=
  match p with
  | Finished _ => 0
  | Destroy1 false => 1 | Destroy0 false => 2 | DecWeak2 => 3 | DecWeak1 => 4 | DecWeak0 => 5
  | Destroy1 true => 6 | Destroy0 true => 7 | DecStrong1 => 8 | DecStrong0 => 9
  | IncStrong3 | Force3 => 1 | IncStrong2 | Force2 => 2 | IncStrong1 | Force1 => 3
  | Fix1 k => if bool_decide (k = mStrong c) then 1 else 3
  | Fix0 => 2
  | AttemptExtra _ => 4
  | AttemptInc => 5
  | AttemptRevive => 6
  | AttemptFirst k => if bool_decide (k = mStrong c) then 6 else 8
  | AttemptAgain => 7
  | Attempt2 k => if bool_decide (k = mStrong c) then 9 else 11
  | Attempt1 => 10
  | IncWeak _ => 11
  | AttemptWeak1 k => if bool_decide (k = mWeak c) then 1 else 3
  | AttemptWeak0 => 2
  end.
Lemma refs_get_ret {A} (f : refbase → A) c a c' : refs_get f c = Ret a c' → a = f c ∧ c' = c.
Proof. unfold refs_get. rewrite bind_getst. destruct (r_refs c); [by intros [= <- <-]|done]. Qed.

Ltac fields := cbn [mStrong mWeak mFlags r_refs r_base r_calls set_mStrong set_mWeak set_mFlags set_r_refs set_r_base set_r_calls andb].
(** One access computed. *)
Ltac compute_access :=
  cbn [exec]; unfold exec_IncWeak, exec_IncStrong1, exec_IncStrong2, exec_IncStrong3, exec_Force1, exec_Force2, exec_Force3, exec_DecStrong0, exec_DecStrong1, exec_Destroy0,
    exec_Destroy1, exec_DecWeak0, exec_DecWeak1, exec_DecWeak2, exec_Attempt1, exec_Attempt2, exec_AttemptFirst, exec_AttemptAgain, exec_AttemptRevive,
    exec_AttemptInc, exec_AttemptExtra, exec_Fix0, exec_Fix1, exec_AttemptWeak0, exec_AttemptWeak1, destroyed, virtual, cmpxchg_strong, cmpxchg_weak,
    add_strong, add_weak, delete_refs, refs_get, bind, getst, modify, ret, crash_with; fields.
Lemma exec_rank agrees p c p' c' : (∀ g, p ≠ Finished g) → exec agrees p c = Ret p' c' → (rank c' p' < rank c p)%nat.
Proof.
  intros Hn. destruct c as [st wk fl [] [] cl], p as [|kw| | | | | | | | |[]|[]| | | | |k|k| | | |k| |k| |k]; try by destruct (Hn g).
  all: compute_access; repeat (case_bool_decide; fields); try done; try destruct kw; try destruct agrees; intros HE; injection HE as <- <-;
    unfold rank; fields; repeat case_bool_decide; try lia; try congruence.
Qed.

Lemma solo_next n agrees p c p' c' : (∀ g, p ≠ Finished g) → exec agrees p c = Ret p' c' → solo (S n) agrees p c = solo n agrees p' c'.
Proof. intros Hn E. destruct p; try (cbn [solo]; by rewrite (bind_of _ E)). by destruct (Hn g). Qed.

(** A call under way is over after at most as many of its accesses, if it is not disturbed. *)
Lemma solo_ends agrees n : ∀ ext corrected c ns nw ts b p, counted_in ext corrected c ns nw (Thread b p :: ts) → fits ext (Thread b p) = true →
  in_phase corrected (Thread b p) = true → (rank c p ≤ n)%nat → ∃ g c', solo n agrees p c = Ret (Finished g) c'.
Proof.
  induction n as [|n IH]; intros ext corrected c ns nw ts b p HC Hf Hp Hr.
  - assert (∃ g, p = Finished g) as [g ->]; [|by exists g, c].
    destruct p as [| | | | | | | | | |[]|[]| | | | |k|k| | | |k| |k| |k]; cbn in Hr; try lia; eauto; case_bool_decide; lia.
  - assert ((∃ g, p = Finished g) ∨ ∀ g, p ≠ Finished g) as [[g ->]|Hn] by (destruct p; eauto; by right); [by exists g, c|].
    pose proof (exec_goes_on agrees p _ _ _ _ _ _ _ HC Hf Hp) as HW. unfold wp in HW. destruct (exec agrees p c) as [p' c'|] eqn:E; [|done].
    destruct HW as (corrected' & HC' & Hf' & Hp' & _).
    assert (rank c' p' < rank c p)%nat as Hlt by by apply (exec_rank agrees).
    destruct (IH _ _ _ _ _ _ _ _ HC' Hf' Hp' ltac:(lia)) as (g & c2 & H2). exists g, c2.
    rewrite <- H2. by apply solo_next.
Qed.

(** ** A promotion that is not disturbed *)

(** Whether [attemptIncStrong] finds or makes a strong reference. *)
Definition promotes (agrees : bool) (c : refbase) : bool :=
  if bool_decide (Z.land (mFlags c) OBJECT_LIFETIME_WEAK = OBJECT_LIFETIME_STRONG) then bool_decide (0 < mStrong c)
  else agrees || bool_decide (0 < mStrong c ∧ mStrong c ≠ INITIAL_STRONG_VALUE).
Definition promoted_count (v : Z) : Z := (if bool_decide (v < INITIAL_STRONG_VALUE) then v else v - INITIAL_STRONG_VALUE) + 1.
Ltac tests := repeat (first [rewrite bool_decide_true by (unfold INITIAL_STRONG_VALUE, OBJECT_LIFETIME_WEAK, OBJECT_LIFETIME_STRONG in *; change (Z.land 0 1) with 0; change (Z.land 1 1) with 1; lia) | rewrite bool_decide_false by (unfold INITIAL_STRONG_VALUE, OBJECT_LIFETIME_WEAK, OBJECT_LIFETIME_STRONG in *; change (Z.land 0 1) with 0; change (Z.land 1 1) with 1; lia)]; fields).
Ltac solo_access := etransitivity; [apply solo_next; [done|compute_access; tests; reflexivity]|fields; rewrite ?s32_small by lia].

(** The virtual calls of a promotion. *)
Definition promotion_calls (c : refbase) : list virtual_call :=
  if bool_decide (Z.land (mFlags c) OBJECT_LIFETIME_WEAK = OBJECT_LIFETIME_STRONG) || bool_decide (0 < mStrong c ∧ mStrong c ≠ INITIAL_STRONG_VALUE)
  then [] else [onIncStrongAttempted].
(** What [attemptIncStrong] leaves. *)
Definition promoted (agrees : bool) (c : refbase) : refbase :=
  RefBase (if promotes agrees c then promoted_count (mStrong c) else mStrong c) (mWeak c + (if promotes agrees c then 1 else 0)) (mFlags c) (r_refs c) (r_base c)
    (r_calls c ++ promotion_calls c).

Section promotion.
Context (agrees : bool) (st wk fl : Z) (bs : bool) (cl : list virtual_call).
Context (Hbs : fl = 1 → bs = true) (Hst : 0 <= st < MAX_REFS ∨ INITIAL_STRONG_VALUE <= st < INITIAL_STRONG_VALUE + MAX_REFS) (Hwk : 0 < wk < MAX_REFS).
Notation c := (RefBase st wk fl true bs cl).
Notation outcome := (solo 12 agrees attemptIncStrong c = Ret (Finished (if promotes agrees c then GStrong else GNone)) (promoted agrees c)).
#[local] Ltac values := unfold MAX_REFS, INITIAL_STRONG_VALUE in *.
(** The accesses up to the end. *)
#[local] Ltac accesses := repeat solo_access; values; rewrite ?s32_small by lia; cbn [solo]; unfold ret; rewrite ?app_nil_r; unfold set_mStrong, set_mWeak, set_r_calls; fields; f_equal; f_equal; done || lia.

#[local] Ltac start := unfold promoted, promotes, promotion_calls, promoted_count, attemptIncStrong; fields; tests; cbn [orb].

(** There is a strong reference. *)
Lemma promotion_common : 0 < st → st ≠ INITIAL_STRONG_VALUE → outcome.
Proof using Hst Hwk Hbs.
  intros H1 H2. assert (promotes agrees c = true ∧ promotion_calls c = []) as [Hpr Hca].
  { unfold promotes, promotion_calls. fields. rewrite !(bool_decide_true (_ ∧ _)), (bool_decide_true (0 < st)) by done. by destruct (bool_decide _), agrees. }
  unfold promoted, promoted_count, attemptIncStrong. rewrite Hpr, Hca. fields. clear Hpr Hca. values. case_bool_decide as Hlt; accesses.
Qed.
(** There has not been one yet, and the object lives as long as its strong references. *)
Lemma promotion_first : st = INITIAL_STRONG_VALUE → fl = 0 → outcome.
Proof using Hst Hwk Hbs.
  intros -> ->. values. start. accesses.
Qed.
(** There is none any more. *)
Lemma promotion_late : st = 0 → fl = 0 → outcome.
Proof using Hst Hwk Hbs.
  intros -> ->. values. start. accesses.
Qed.
(** There is none, and the object lives on. *)
Lemma promotion_revives : st = 0 ∨ st = INITIAL_STRONG_VALUE → fl = 1 → outcome.
Proof using Hst Hwk Hbs.
  intros Hs ->. rewrite (Hbs eq_refl). values. destruct Hs as [-> | ->], agrees; start; accesses.
Qed.
End promotion.

(** * Counted references: what they promise

    The properties of [RefBase], and runs of several threads that show them. *)

(** ** Runs *)

#[export] Instance after_incWeak_eq_dec : EqDecision after_incWeak.
Proof. solve_decision. Defined.
#[export] Instance grant_eq_dec : EqDecision grant.
Proof. solve_decision. Defined.
#[export] Instance pc_eq_dec : EqDecision pc.
Proof. solve_decision. Defined.

(** A step by its choice; the threads by their position. *)
Inductive action :=
  | Lifetime (mode : Z) | First (p : pc) | Strongly (p : pc) | Weakly (p : pc) | DropStrong | DropWeak | Access (i : nat) | Return (i : nat).
Definition act (y : system) (a : action) : option system :=
  let '(System c ns nw ts new) := y in
  let room := bool_decide (refs_total y < MAX_REFS) in
  match a with
  | Lifetime mode =>
      match ns, nw, ts, new, extendObjectLifetime mode c with
      | O, O, [], true, Ret _ c' => if bool_decide (mode = OBJECT_LIFETIME_STRONG ∨ mode = OBJECT_LIFETIME_WEAK) then Some (System c' 0 0 [] true) else None
      | _, _, _, _, _ => None
      end
  | First p =>
      match ns, nw, ts, new with
      | O, O, [], true => if bool_decide (p = incStrong ∨ p = forceIncStrong ∨ p = incWeak) then Some (System c 0 0 [Thread Alone p] false) else None
      | _, _, _, _ => None
      end
  | Strongly p =>
      match ns, new with
      | S ns, false => if room && bool_decide (p = incStrong ∨ p = forceIncStrong ∨ p = incWeak ∨ p = attemptIncWeak) then Some (System c ns nw (Thread OnStrong p :: ts) false) else None
      | _, _ => None
      end
  | Weakly p =>
      match nw, new with
      | S nw, false => if room && bool_decide (p = incWeak ∨ p = attemptIncStrong ∨ p = attemptIncWeak) then Some (System c ns nw (Thread OnWeak p :: ts) false) else None
      | _, _ => None
      end
  | DropStrong => match ns, new with S ns, false => if room then Some (System c ns nw (Thread GivesUp decStrong :: ts) false) else None | _, _ => None end
  | DropWeak => match nw, new with S nw, false => if room then Some (System c ns nw (Thread GivesUp decWeak :: ts) false) else None | _, _ => None end
  | Access i =>
      match new, ts !! i with
      | false, Some (Thread b p) => match exec true p c with Ret p' c' => Some (System c' ns nw (take i ts ++ Thread b p' :: drop (S i) ts) false) | _ => None end
      | _, _ => None
      end
  | Return i =>
      match new, ts !! i with
      | false, Some (Thread b (Finished g)) => Some (System c (ns + (held b).1 + (granted g).1) (nw + (held b).2 + (granted g).2) (take i ts ++ drop (S i) ts) false)
      | _, _ => None
      end
  end.
Lemma act_step y a y' : act y a = Some y' → step y y'.
Proof.
  destruct y as [c ns nw ts new]. destruct a as [mode|p|p|p| | |i|i]; unfold act.
  - destruct ns, nw, ts, new, (extendObjectLifetime mode c) as [[] c'|] eqn:E; try done. case_bool_decide; [|done]. intros [= <-]. by apply (step_lifetime c c' mode).
  - destruct ns, nw, ts, new; try done. case_bool_decide; [|done]. intros [= <-]. by apply step_first.
  - destruct ns, new; try done. case_bool_decide; [|done]. case_bool_decide; [|done]. intros [= <-]. by apply step_on_strong.
  - destruct nw, new; try done. case_bool_decide; [|done]. case_bool_decide; [|done]. intros [= <-]. apply step_on_weak; [|done]. unfold on_weak. tauto.
  - destruct ns, new; try done. case_bool_decide; [|done]. intros [= <-]. by apply step_decStrong.
  - destruct nw, new; try done. case_bool_decide; [|done]. intros [= <-]. by apply step_decWeak.
  - destruct new; [done|]. destruct (ts !! i) as [[b p]|] eqn:Ei; [|done]. destruct (exec true p c) as [p' c'|] eqn:E; [|done]. intros [= <-].
    rewrite <- (take_drop_middle _ _ _ Ei) at 1. by eapply step_exec.
  - destruct new; [done|]. destruct (ts !! i) as [[b [g| | | | | | | | | | | | | | | | | | | | | | | | |]]|] eqn:Ei; try done. intros [= <-].
    rewrite <- (take_drop_middle _ _ _ Ei) at 1. apply step_return.
Qed.
(** The system after some actions. *)
Definition acts (l : list action) : option system := foldl (λ y a, y ← y; act y a) (Some new_system) l.
Lemma acts_reachable l y : acts l = Some y → rtc step new_system y.
Proof.
  unfold acts. revert y. induction l as [|a l IH] using rev_ind; intros y; [intros [= <-]; apply rtc_refl|].
  rewrite foldl_app. cbn [foldl]. destruct (foldl _ _ l) as [y0|]; [|done]. cbn. intros E%act_step. by eapply rtc_r; [apply IH|].
Qed.

(** ** The promises *)

(** A call under way in a system that is in order. *)
Lemma under_way y b p : sys_ok y → Thread b p ∈ y_threads y → ∃ ext corrected ts,
  counted_in ext corrected (y_cell y) (y_strong y) (y_weak y) (Thread b p :: ts) ∧ fits ext (Thread b p) = true ∧ in_phase corrected (Thread b p) = true.
Proof.
  destruct y as [c ns nw ts []]; cbn; [by intros (_ & _ & -> & _) ?%elem_of_nil|]. intros (ext & corrected & HC & HF) (ts1 & ts2 & ->)%list_elem_of_split.
  cbn in HC, HF. rewrite Forall_app, Forall_cons in HF. destruct HF as (_ & [Hf Hp] & _). exists ext, corrected, (ts1 ++ ts2). split; [|done].
  revert HC. apply counted_in_perm. symmetry. apply Permutation_middle.
Qed.

(** C8: over any run of any threads, each of which only calls what its references allow, no
    access of a call is to an object or to counts that have been deleted; an object is
    there while there is a strong reference, and with the extended lifetime while there is
    any; its counts are there while there is any reference. *)
Theorem refs_safe y : rtc step new_system y →
  (∀ t agrees, t ∈ y_threads y → ∃ p' c', exec agrees (t_pc t) (y_cell y) = Ret p' c') ∧
  (0 < y_strong y → r_base (y_cell y) = true)%nat ∧
  (Z.land (mFlags (y_cell y)) OBJECT_LIFETIME_MASK = OBJECT_LIFETIME_WEAK → 0 < y_strong y + y_weak y → r_base (y_cell y) = true)%nat ∧
  (0 < y_strong y + y_weak y → r_refs (y_cell y) = true)%nat.
Proof.
  intros HI%reachable_ok. split.
  - intros [b p] agrees Ht. destruct (under_way y b p HI Ht) as (ext & corrected & ts & HC & Hf & Hp).
    pose proof (exec_goes_on agrees p _ _ _ _ _ _ _ HC Hf Hp) as HW. unfold wp in HW. cbn. destruct (exec agrees p (y_cell y)) as [p' c'|]; [by exists p', c'|done].
  - destruct y as [c ns nw ts []]; [by destruct HI as (? & ? & _); cbn in *; lia|]. destruct HI as (ext & corrected & HC & _). cbn in *.
    pose proof (sum_bounds ext ts) as Hs. destruct HC as [C1 C2 C3 C4 C5 C6 C7 C8 C9].
    assert (0 < ns + nw → r_refs c = true)%nat as Hr by (destruct (r_refs c); [done|lia]).
    split; [|split; [|done]].
    + intros Hpos. specialize (C8 (Hr ltac:(lia))). destruct ext, corrected, (r_base c); try done; lia.
    + intros Hl Hpos. rewrite C1 in Hl. specialize (C8 (Hr ltac:(lia))). destruct ext; [destruct (r_base c); try done; lia|done].
Qed.

(** C23: when all references have been given up and no call is under way, the object and its
    counts are deleted; between calls the counts are those of the references. *)
Theorem refs_released y : rtc step new_system y → y_new y = false → y_threads y = [] →
  if bool_decide (y_strong y = 0 ∧ y_weak y = 0)%nat then r_base (y_cell y) = false ∧ r_refs (y_cell y) = false
  else getWeakCount (y_cell y) = Ret (Z.of_nat (y_strong y + y_weak y)) (y_cell y) ∧
    (getStrongCount (y_cell y) = Ret (Z.of_nat (y_strong y)) (y_cell y) ∨ y_strong y = 0%nat ∧ getStrongCount (y_cell y) = Ret INITIAL_STRONG_VALUE (y_cell y)).
Proof.
  intros HI%reachable_ok. destruct y as [c ns nw ts []]; cbn [y_new y_threads y_strong y_weak y_cell]; [done|]. intros _ ->. destruct HI as (ext & corrected & HC & _). unfold counted_in in HC. cbn in HC.
  destruct HC as [C1 C2 C3 C4 C5 C6 C7 C8 C9]. rewrite !Nat.add_0_r in *. case_bool_decide as Hz.
  - destruct (r_refs c); [lia|]. by destruct C7 as [_ C7], (r_base c).
  - assert (r_refs c = true) as Hr by (destruct (r_refs c); [done|lia]). unfold getWeakCount, getStrongCount. rewrite !refs_get_eq by done.
    rewrite C4, C2. split; [done|]. destruct corrected; [by left|]. specialize (C3 eq_refl). subst ns. right. by rewrite Z.add_0_r.
Qed.

(** C26: a call that is under way comes to its end by twelve accesses of its own at most,
    if others do not disturb it: no call waits for another. *)
Theorem call_completes y t agrees : rtc step new_system y → t ∈ y_threads y → ∃ g c', solo 12 agrees (t_pc t) (y_cell y) = Ret (Finished g) c'.
Proof.
  intros HI%reachable_ok Ht. destruct t as [b p]. destruct (under_way y b p HI Ht) as (ext & corrected & ts & HC & Hf & Hp).
  refine (solo_ends agrees 12 _ _ _ _ _ _ _ _ HC Hf Hp _).
  destruct p as [| | | | | | | | | |[]|[]| | | | |k|k| | | |k| |k| |k]; cbn; try case_bool_decide; lia.
Qed.

(** C24: [attemptIncStrong], if others do not disturb it, leaves the caller with a strong
    reference and both counts one higher (the initial strong count gone) just when the
    object has a strong reference, or can come to have its first, or agrees to be revived;
    otherwise the counts are as before. *)
Theorem promotion_outcome agrees c : r_refs c = true → (mFlags c = 0 ∨ mFlags c = 1 ∧ r_base c = true) → 0 < mWeak c < MAX_REFS →
  (0 <= mStrong c < MAX_REFS ∨ INITIAL_STRONG_VALUE <= mStrong c < INITIAL_STRONG_VALUE + MAX_REFS) →
  solo 12 agrees attemptIncStrong c = Ret (Finished (if promotes agrees c then GStrong else GNone)) (promoted agrees c).
Proof.
  destruct c as [st wk fl rf bs cl]. cbn [r_refs mFlags r_base mWeak mStrong]. intros -> Hfl Hwk Hst.
  assert (fl = 1 → bs = true) as Hbs by (destruct Hfl as [-> | [_ ?]]; done).
  destruct (decide (st = INITIAL_STRONG_VALUE)) as [Hi|Hi]; [|destruct (decide (st = 0)) as [H0|H0]; [|apply promotion_common; auto; unfold INITIAL_STRONG_VALUE, MAX_REFS in *; lia]].
  - destruct Hfl as [Hf|[Hf _]]; [by apply promotion_first|apply promotion_revives; auto].
  - destruct Hfl as [Hf|[Hf _]]; [by apply promotion_late|apply promotion_revives; auto].
Qed.

(** ** Runs that show them, and two that go wrong *)

Module RefBaseDemo.
(** A weak reference is copied; two threads promote the two at the same time, the second having read
    the strong count before the first stores. *)
Definition race : list action :=
  [First incWeak; Access 0; Return 0; Weakly incWeak; Access 0; Return 0; Weakly attemptIncStrong; Weakly attemptIncStrong;
   Access 0; Access 0; Access 1; Access 1; Access 1; Access 1; Access 1; Access 1; Access 1; Access 0; Access 0; Access 0; Access 0; Access 0; Access 0; Access 0].
Definition ended : list action :=
  [First incStrong; Access 0; Access 0; Access 0; Access 0; Return 0; Strongly incWeak; Access 0; Return 0; DropStrong; Access 0; Access 0; Access 0; Access 0; Return 0;
   DropWeak; Access 0; Access 0; Return 0].
Definition midway : system := System (RefBase INITIAL_STRONG_VALUE 4 0 true true []) 0 0 [Thread OnWeak (Attempt2 INITIAL_STRONG_VALUE); Thread OnWeak (Attempt2 INITIAL_STRONG_VALUE)] false.
Lemma midway_reachable : rtc step new_system midway.
Proof. apply (acts_reachable (take 12 race)). by vm_compute. Qed.
Lemma ended_reachable : rtc step new_system (System (RefBase 0 0 0 false false [onFirstRef; onLastStrongRef]) 0 0 [] false).
Proof. apply (acts_reachable ended). by vm_compute. Qed.

Lemma refs_safe_witness : ∃ p' c', exec true (Attempt2 INITIAL_STRONG_VALUE) (y_cell midway) = Ret p' c'.
Proof.
  exact (proj1 (refs_safe midway midway_reachable) (Thread OnWeak (Attempt2 INITIAL_STRONG_VALUE)) true
    (list_elem_of_here (Thread OnWeak (Attempt2 INITIAL_STRONG_VALUE)) [Thread OnWeak (Attempt2 INITIAL_STRONG_VALUE)])).
Defined.
Lemma refs_released_witness : r_base (RefBase 0 0 0 false false [onFirstRef; onLastStrongRef]) = false.
Proof.
  exact (proj1 (refs_released (System (RefBase 0 0 0 false false [onFirstRef; onLastStrongRef]) 0 0 [] false) ended_reachable eq_refl eq_refl)).
Defined.
Lemma call_completes_witness : ∃ g c', solo 12 true (Attempt2 INITIAL_STRONG_VALUE) (y_cell midway) = Ret (Finished g) c'.
Proof.
  exact (call_completes midway (Thread OnWeak (Attempt2 INITIAL_STRONG_VALUE)) true midway_reachable
    (list_elem_of_here (Thread OnWeak (Attempt2 INITIAL_STRONG_VALUE)) [Thread OnWeak (Attempt2 INITIAL_STRONG_VALUE)])).
Defined.
Definition never_strong : refbase := RefBase INITIAL_STRONG_VALUE 1 1 true true [].
Lemma promotion_outcome_witness : solo 12 false attemptIncStrong never_strong = Ret (Finished GNone) (RefBase INITIAL_STRONG_VALUE 1 1 true true [onIncStrongAttempted]).
Proof.
  assert (0 < mWeak never_strong < MAX_REFS) as H1 by (unfold MAX_REFS; cbn; lia).
  assert (INITIAL_STRONG_VALUE <= mStrong never_strong < INITIAL_STRONG_VALUE + MAX_REFS) as H2 by (unfold MAX_REFS; cbn [mStrong never_strong]; lia).
  exact (promotion_outcome false never_strong eq_refl (or_intror (conj eq_refl eq_refl)) H1 (or_intror H2)).
Defined.

(** Two promotions of an object with the regular lifetime that never had a strong reference:
    [onLastStrongRef] is called, though nobody asked the object, and two strong references remain. *)
Lemma last_strong_while_two : ∃ y, rtc step new_system y ∧ y_strong y = 2%nat ∧ y_threads y = [] ∧ mFlags (y_cell y) = OBJECT_LIFETIME_STRONG ∧
  r_calls (y_cell y) = [onLastStrongRef].
Proof.
  exists (System (RefBase 2 4 0 true true [onLastStrongRef]) 2 2 [] false). split; [|done].
  apply (acts_reachable (race ++ [Return 0; Return 0])). by vm_compute.
Qed.
(** The first [incStrong] meets an [attemptIncStrong] before it has taken the initial count
    off: both take it off. *)
Definition collision : M refbase Z := p <- solo 2 true incStrong ;; solo 12 true attemptIncStrong ;;; solo 12 true p ;;; getStrongCount.
Lemma corrected_twice : ∃ c, collision (RefBase INITIAL_STRONG_VALUE 2 0 true true []) = Ret (2 - INITIAL_STRONG_VALUE) c ∧
  mWeak c = 4 ∧ promotes true c = false.
Proof. exists (RefBase (2 - INITIAL_STRONG_VALUE) 4 0 true true [onFirstRef]). by vm_compute. Qed.
End RefBaseDemo.
