(* ===== verification/Effects.v ===== *)
(** * Effects

    [libs/audioflinger/Effects.cpp], [Effects.h]: the modules that run an effect each, the
    handles through which applications control a module, and the chains of the modules of
    a session, over one thread of the server.  Calls come one after the other, under the
    locks of the thread, the chain and the module.  Each object has an address; an
    engine is a function of the commands it has been sent. *)

From Stdlib Require Import ZArith Lia.
From stdpp Require Import base tactics numbers option list gmap.
From S2P Require Import Prelude Words AudioPrimitives.

(** ** Constants *)

Definition NO_ERROR : Z := 0.
Definition NO_INIT : Z := -19.
Definition INVALID_OPERATION : Z := -38.
Definition BAD_VALUE : Z := -22.
Definition DEAD_OBJECT : Z := -32.
Definition ALREADY_EXISTS : Z := -17.
Definition ENODATA : Z := 61.
Definition UINT_MAX : Z := 2 ^ 32 - 1.
Definition EFFECT_FLAG_TYPE_MASK : Z := 7.
Definition EFFECT_FLAG_TYPE_INSERT : Z := 0.
Definition EFFECT_FLAG_TYPE_AUXILIARY : Z := 1.
Definition EFFECT_FLAG_TYPE_PRE_PROC : Z := 3.
Definition EFFECT_FLAG_TYPE_POST_PROC : Z := 4.
Definition EFFECT_FLAG_INSERT_MASK : Z := 56.
Definition EFFECT_FLAG_INSERT_FIRST : Z := 8.
Definition EFFECT_FLAG_INSERT_LAST : Z := 16.
Definition EFFECT_FLAG_INSERT_EXCLUSIVE : Z := 24.
Definition EFFECT_FLAG_VOLUME_MASK : Z := 448.
Definition EFFECT_FLAG_VOLUME_CTRL : Z := 64.
Definition EFFECT_FLAG_VOLUME_IND : Z := 128.
Definition EFFECT_FLAG_DEVICE_MASK : Z := 3584.
Definition EFFECT_FLAG_DEVICE_IND : Z := 512.
Definition EFFECT_FLAG_AUDIO_MODE_MASK : Z := 786432.
Definition EFFECT_FLAG_AUDIO_MODE_IND : Z := 262144.
Definition EFFECT_FLAG_AUDIO_SOURCE_MASK : Z := 3145728.
Definition EFFECT_FLAG_AUDIO_SOURCE_IND : Z := 1048576.
Definition AUDIO_SESSION_OUTPUT_STAGE : Z := -1.
Definition AUDIO_SESSION_OUTPUT_MIX : Z := 0.
Definition AUDIO_DEVICE_NONE : Z := 0.
Definition MAX_DISABLE_TIME_MS : Z := 10000.
Definition kProcessTailDurationMs : Z := 1000.
Definition kKeyForSuspendAll : Z := 0.

(** ** Data *)

Record uuid := Uuid { timeLow : Z; uuid_rest : Z }.
#[export] Instance uuid_eq_dec : EqDecision uuid.
Proof. solve_decision. Defined.
(** The types that the code names. *)
Definition SL_IID_VISUALIZATION : uuid := Uuid 0xe46b26a0 0xdddd11db8afd0002a5d5c51b.
Definition SL_IID_VOLUME : uuid := Uuid 0x09e8ede0 0xddde11dbb4f60002a5d5c51b.

Record descriptor := Descriptor {
  d_type : uuid;
  d_uuid : uuid;
  d_flags : Z
}.

#[export] Instance descriptor_eq_dec : EqDecision descriptor.
Proof. solve_decision. Defined.
Definition effect_type (d : descriptor) : Z := Z.land (d_flags d) EFFECT_FLAG_TYPE_MASK.
Definition insert_pref (d : descriptor) : Z := Z.land (d_flags d) EFFECT_FLAG_INSERT_MASK.
Definition is_auxiliary (d : descriptor) : bool := bool_decide (effect_type d = EFFECT_FLAG_TYPE_AUXILIARY).
Definition is_insert (d : descriptor) : bool := bool_decide (effect_type d = EFFECT_FLAG_TYPE_INSERT).
(** It is run by the driver. *)
Definition is_pre_or_post (d : descriptor) : bool :=
  bool_decide (effect_type d = EFFECT_FLAG_TYPE_PRE_PROC) || bool_decide (effect_type d = EFFECT_FLAG_TYPE_POST_PROC).

Inductive effect_state := IDLE | RESTART | STARTING | ACTIVE | STOPPING | STOPPED | DESTROYED.
#[export] Instance effect_state_eq_dec : EqDecision effect_state.
Proof. solve_decision. Defined.

(** [mConfig]; the buffers are addresses, 0 for [NULL]. *)
Record config := Config {
  in_channels : Z;
  out_channels : Z;
  samplingRate : Z;
  inBuffer : Z;
  outBuffer : Z;
  frameCount : Z;
  accumulates : bool
}.
Definition set_in_channels (v : Z) (x : config) : config :=
  Config v (out_channels x) (samplingRate x) (inBuffer x) (outBuffer x) (frameCount x) (accumulates x).
Definition set_out_channels (v : Z) (x : config) : config :=
  Config (in_channels x) v (samplingRate x) (inBuffer x) (outBuffer x) (frameCount x) (accumulates x).
Definition set_samplingRate (v : Z) (x : config) : config :=
  Config (in_channels x) (out_channels x) v (inBuffer x) (outBuffer x) (frameCount x) (accumulates x).
Definition set_inBuffer (v : Z) (x : config) : config :=
  Config (in_channels x) (out_channels x) (samplingRate x) v (outBuffer x) (frameCount x) (accumulates x).
Definition set_outBuffer (v : Z) (x : config) : config :=
  Config (in_channels x) (out_channels x) (samplingRate x) (inBuffer x) v (frameCount x) (accumulates x).
Definition set_frameCount (v : Z) (x : config) : config :=
  Config (in_channels x) (out_channels x) (samplingRate x) (inBuffer x) (outBuffer x) v (accumulates x).
Definition set_accumulates (v : bool) (x : config) : config :=
  Config (in_channels x) (out_channels x) (samplingRate x) (inBuffer x) (outBuffer x) (frameCount x) v.

(** The commands to an engine, with their arguments; [CMD_OTHER] is one that an
    application sends. *)
Inductive engine_cmd :=
  | CMD_INIT
  | CMD_SET_CONFIG (c : config)
  | CMD_RESET
  | CMD_ENABLE
  | CMD_DISABLE
  | CMD_SET_LATENCY (latency : Z)
  | CMD_SET_VOLUME (left right : Z)
  | CMD_SET_DEVICE (device : Z)
  | CMD_SET_INPUT_DEVICE (device : Z)
  | CMD_SET_AUDIO_MODE (mode : Z)
  | CMD_SET_AUDIO_SOURCE (source : Z)
  | CMD_OTHER (cmdCode : Z) (cmdData : list Z).

Record EffectModule := Module {
  mPinned : bool;
  mChain : Z;
  mId : Z;
  mSessionId : Z;
  mDescriptor : descriptor;
  mConfig : config;
  mEffectInterface : bool;
  mStatus : Z;
  mState : effect_state;
  mHandles : list Z;
  mMaxDisableWaitCnt : Z;
  mDisableWaitCnt : Z;
  mSuspended : bool;
  em_sent : list engine_cmd;
  em_attached : bool
}.
Definition set_mPinned (v : bool) (x : EffectModule) : EffectModule :=
  Module v (mChain x) (mId x) (mSessionId x) (mDescriptor x) (mConfig x) (mEffectInterface x) (mStatus x)
    (mState x) (mHandles x) (mMaxDisableWaitCnt x) (mDisableWaitCnt x) (mSuspended x) (em_sent x) (em_attached x).
Definition set_mChain (v : Z) (x : EffectModule) : EffectModule :=
  Module (mPinned x) v (mId x) (mSessionId x) (mDescriptor x) (mConfig x) (mEffectInterface x) (mStatus x)
    (mState x) (mHandles x) (mMaxDisableWaitCnt x) (mDisableWaitCnt x) (mSuspended x) (em_sent x) (em_attached x).
Definition set_mId (v : Z) (x : EffectModule) : EffectModule :=
  Module (mPinned x) (mChain x) v (mSessionId x) (mDescriptor x) (mConfig x) (mEffectInterface x) (mStatus x)
    (mState x) (mHandles x) (mMaxDisableWaitCnt x) (mDisableWaitCnt x) (mSuspended x) (em_sent x) (em_attached x).
Definition set_mSessionId (v : Z) (x : EffectModule) : EffectModule :=
  Module (mPinned x) (mChain x) (mId x) v (mDescriptor x) (mConfig x) (mEffectInterface x) (mStatus x) (mState
    x) (mHandles x) (mMaxDisableWaitCnt x) (mDisableWaitCnt x) (mSuspended x) (em_sent x) (em_attached x).
Definition set_mDescriptor (v : descriptor) (x : EffectModule) : EffectModule :=
  Module (mPinned x) (mChain x) (mId x) (mSessionId x) v (mConfig x) (mEffectInterface x) (mStatus x) (mState x)
    (mHandles x) (mMaxDisableWaitCnt x) (mDisableWaitCnt x) (mSuspended x) (em_sent x) (em_attached x).
Definition set_mConfig (v : config) (x : EffectModule) : EffectModule :=
  Module (mPinned x) (mChain x) (mId x) (mSessionId x) (mDescriptor x) v (mEffectInterface x) (mStatus x)
    (mState x) (mHandles x) (mMaxDisableWaitCnt x) (mDisableWaitCnt x) (mSuspended x) (em_sent x) (em_attached x).
Definition set_mEffectInterface (v : bool) (x : EffectModule) : EffectModule :=
  Module (mPinned x) (mChain x) (mId x) (mSessionId x) (mDescriptor x) (mConfig x) v (mStatus x) (mState x)
    (mHandles x) (mMaxDisableWaitCnt x) (mDisableWaitCnt x) (mSuspended x) (em_sent x) (em_attached x).
Definition set_mStatus (v : Z) (x : EffectModule) : EffectModule :=
  Module (mPinned x) (mChain x) (mId x) (mSessionId x) (mDescriptor x) (mConfig x) (mEffectInterface x) v
    (mState x) (mHandles x) (mMaxDisableWaitCnt x) (mDisableWaitCnt x) (mSuspended x) (em_sent x) (em_attached x).
Definition set_mState (v : effect_state) (x : EffectModule) : EffectModule :=
  Module (mPinned x) (mChain x) (mId x) (mSessionId x) (mDescriptor x) (mConfig x) (mEffectInterface x) (mStatus
    x) v (mHandles x) (mMaxDisableWaitCnt x) (mDisableWaitCnt x) (mSuspended x) (em_sent x) (em_attached x).
Definition set_mHandles (v : list Z) (x : EffectModule) : EffectModule :=
  Module (mPinned x) (mChain x) (mId x) (mSessionId x) (mDescriptor x) (mConfig x) (mEffectInterface x) (mStatus
    x) (mState x) v (mMaxDisableWaitCnt x) (mDisableWaitCnt x) (mSuspended x) (em_sent x) (em_attached x).
Definition set_mMaxDisableWaitCnt (v : Z) (x : EffectModule) : EffectModule :=
  Module (mPinned x) (mChain x) (mId x) (mSessionId x) (mDescriptor x) (mConfig x) (mEffectInterface x) (mStatus
    x) (mState x) (mHandles x) v (mDisableWaitCnt x) (mSuspended x) (em_sent x) (em_attached x).
Definition set_mDisableWaitCnt (v : Z) (x : EffectModule) : EffectModule :=
  Module (mPinned x) (mChain x) (mId x) (mSessionId x) (mDescriptor x) (mConfig x) (mEffectInterface x) (mStatus
    x) (mState x) (mHandles x) (mMaxDisableWaitCnt x) v (mSuspended x) (em_sent x) (em_attached x).
Definition set_mSuspended (v : bool) (x : EffectModule) : EffectModule :=
  Module (mPinned x) (mChain x) (mId x) (mSessionId x) (mDescriptor x) (mConfig x) (mEffectInterface x) (mStatus
    x) (mState x) (mHandles x) (mMaxDisableWaitCnt x) (mDisableWaitCnt x) v (em_sent x) (em_attached x).
Definition set_em_sent (v : list engine_cmd) (x : EffectModule) : EffectModule :=
  Module (mPinned x) (mChain x) (mId x) (mSessionId x) (mDescriptor x) (mConfig x) (mEffectInterface x) (mStatus
    x) (mState x) (mHandles x) (mMaxDisableWaitCnt x) (mDisableWaitCnt x) (mSuspended x) v (em_attached x).
Definition set_em_attached (v : bool) (x : EffectModule) : EffectModule :=
  Module (mPinned x) (mChain x) (mId x) (mSessionId x) (mDescriptor x) (mConfig x) (mEffectInterface x) (mStatus
    x) (mState x) (mHandles x) (mMaxDisableWaitCnt x) (mDisableWaitCnt x) (mSuspended x) (em_sent x) v.

(** What a client is told. *)
Inductive notice := controlStatusChanged (hasControl : bool) | enableStatusChanged (enabled : bool) | commandExecuted (cmdCode : Z) (cmdData : list Z).
Record EffectHandle := Handle {
  mEffect : Z;
  eh_effectClient : bool;
  eh_client : bool;
  mPriority : Z;
  mHasControl : bool;
  mEnabled : bool;
  mDestroyed : bool;
  eh_told : list notice
}.
Definition set_mEffect (v : Z) (x : EffectHandle) : EffectHandle :=
  Handle v (eh_effectClient x) (eh_client x) (mPriority x) (mHasControl x) (mEnabled x) (mDestroyed x) (eh_told
    x).
Definition set_eh_effectClient (v : bool) (x : EffectHandle) : EffectHandle :=
  Handle (mEffect x) v (eh_client x) (mPriority x) (mHasControl x) (mEnabled x) (mDestroyed x) (eh_told x).
Definition set_eh_client (v : bool) (x : EffectHandle) : EffectHandle :=
  Handle (mEffect x) (eh_effectClient x) v (mPriority x) (mHasControl x) (mEnabled x) (mDestroyed x) (eh_told
    x).
Definition set_mPriority (v : Z) (x : EffectHandle) : EffectHandle :=
  Handle (mEffect x) (eh_effectClient x) (eh_client x) v (mHasControl x) (mEnabled x) (mDestroyed x) (eh_told
    x).
Definition set_mHasControl (v : bool) (x : EffectHandle) : EffectHandle :=
  Handle (mEffect x) (eh_effectClient x) (eh_client x) (mPriority x) v (mEnabled x) (mDestroyed x) (eh_told x).
Definition set_mEnabled (v : bool) (x : EffectHandle) : EffectHandle :=
  Handle (mEffect x) (eh_effectClient x) (eh_client x) (mPriority x) (mHasControl x) v (mDestroyed x) (eh_told
    x).
Definition set_mDestroyed (v : bool) (x : EffectHandle) : EffectHandle :=
  Handle (mEffect x) (eh_effectClient x) (eh_client x) (mPriority x) (mHasControl x) (mEnabled x) v (eh_told x).
Definition set_eh_told (v : list notice) (x : EffectHandle) : EffectHandle :=
  Handle (mEffect x) (eh_effectClient x) (eh_client x) (mPriority x) (mHasControl x) (mEnabled x) (mDestroyed x)
    v.

(** [mEffect] is 0 when the effect has not been suspended yet. *)
Record suspended_desc := Suspended {
  sd_mRefCount : Z;
  sd_mType : uuid;
  sd_mEffect : Z
}.
Definition set_sd_mRefCount (v : Z) (x : suspended_desc) : suspended_desc :=
  Suspended v (sd_mType x) (sd_mEffect x).
Definition set_sd_mType (v : uuid) (x : suspended_desc) : suspended_desc :=
  Suspended (sd_mRefCount x) v (sd_mEffect x).
Definition set_sd_mEffect (v : Z) (x : suspended_desc) : suspended_desc :=
  Suspended (sd_mRefCount x) (sd_mType x) v.
Record EffectChain := Chain {
  ec_mSessionId : Z;
  mEffects : list Z;
  mInBuffer : Z;
  mOutBuffer : Z;
  mOwnInBuffer : bool;
  mActiveTrackCnt : Z;
  mTrackCnt : Z;
  mTailBufferCount : Z;
  mMaxTailBuffers : Z;
  mVolumeCtrlIdx : Z;
  mLeftVolume : Z;
  mRightVolume : Z;
  mNewLeftVolume : Z;
  mNewRightVolume : Z;
  mSuspendedEffects : gmap Z suspended_desc
}.
Definition set_ec_mSessionId (v : Z) (x : EffectChain) : EffectChain :=
  Chain v (mEffects x) (mInBuffer x) (mOutBuffer x) (mOwnInBuffer x) (mActiveTrackCnt x) (mTrackCnt x)
    (mTailBufferCount x) (mMaxTailBuffers x) (mVolumeCtrlIdx x) (mLeftVolume x) (mRightVolume x) (mNewLeftVolume
    x) (mNewRightVolume x) (mSuspendedEffects x).
Definition set_mEffects (v : list Z) (x : EffectChain) : EffectChain :=
  Chain (ec_mSessionId x) v (mInBuffer x) (mOutBuffer x) (mOwnInBuffer x) (mActiveTrackCnt x) (mTrackCnt x)
    (mTailBufferCount x) (mMaxTailBuffers x) (mVolumeCtrlIdx x) (mLeftVolume x) (mRightVolume x) (mNewLeftVolume
    x) (mNewRightVolume x) (mSuspendedEffects x).
Definition set_mInBuffer (v : Z) (x : EffectChain) : EffectChain :=
  Chain (ec_mSessionId x) (mEffects x) v (mOutBuffer x) (mOwnInBuffer x) (mActiveTrackCnt x) (mTrackCnt x)
    (mTailBufferCount x) (mMaxTailBuffers x) (mVolumeCtrlIdx x) (mLeftVolume x) (mRightVolume x) (mNewLeftVolume
    x) (mNewRightVolume x) (mSuspendedEffects x).
Definition set_mOutBuffer (v : Z) (x : EffectChain) : EffectChain :=
  Chain (ec_mSessionId x) (mEffects x) (mInBuffer x) v (mOwnInBuffer x) (mActiveTrackCnt x) (mTrackCnt x)
    (mTailBufferCount x) (mMaxTailBuffers x) (mVolumeCtrlIdx x) (mLeftVolume x) (mRightVolume x) (mNewLeftVolume
    x) (mNewRightVolume x) (mSuspendedEffects x).
Definition set_mOwnInBuffer (v : bool) (x : EffectChain) : EffectChain :=
  Chain (ec_mSessionId x) (mEffects x) (mInBuffer x) (mOutBuffer x) v (mActiveTrackCnt x) (mTrackCnt x)
    (mTailBufferCount x) (mMaxTailBuffers x) (mVolumeCtrlIdx x) (mLeftVolume x) (mRightVolume x) (mNewLeftVolume
    x) (mNewRightVolume x) (mSuspendedEffects x).
Definition set_mActiveTrackCnt (v : Z) (x : EffectChain) : EffectChain :=
  Chain (ec_mSessionId x) (mEffects x) (mInBuffer x) (mOutBuffer x) (mOwnInBuffer x) v (mTrackCnt x)
    (mTailBufferCount x) (mMaxTailBuffers x) (mVolumeCtrlIdx x) (mLeftVolume x) (mRightVolume x) (mNewLeftVolume
    x) (mNewRightVolume x) (mSuspendedEffects x).
Definition set_mTrackCnt (v : Z) (x : EffectChain) : EffectChain :=
  Chain (ec_mSessionId x) (mEffects x) (mInBuffer x) (mOutBuffer x) (mOwnInBuffer x) (mActiveTrackCnt x) v
    (mTailBufferCount x) (mMaxTailBuffers x) (mVolumeCtrlIdx x) (mLeftVolume x) (mRightVolume x) (mNewLeftVolume
    x) (mNewRightVolume x) (mSuspendedEffects x).
Definition set_mTailBufferCount (v : Z) (x : EffectChain) : EffectChain :=
  Chain (ec_mSessionId x) (mEffects x) (mInBuffer x) (mOutBuffer x) (mOwnInBuffer x) (mActiveTrackCnt x)
    (mTrackCnt x) v (mMaxTailBuffers x) (mVolumeCtrlIdx x) (mLeftVolume x) (mRightVolume x) (mNewLeftVolume x)
    (mNewRightVolume x) (mSuspendedEffects x).
Definition set_mMaxTailBuffers (v : Z) (x : EffectChain) : EffectChain :=
  Chain (ec_mSessionId x) (mEffects x) (mInBuffer x) (mOutBuffer x) (mOwnInBuffer x) (mActiveTrackCnt x)
    (mTrackCnt x) (mTailBufferCount x) v (mVolumeCtrlIdx x) (mLeftVolume x) (mRightVolume x) (mNewLeftVolume x)
    (mNewRightVolume x) (mSuspendedEffects x).
Definition set_mVolumeCtrlIdx (v : Z) (x : EffectChain) : EffectChain :=
  Chain (ec_mSessionId x) (mEffects x) (mInBuffer x) (mOutBuffer x) (mOwnInBuffer x) (mActiveTrackCnt x)
    (mTrackCnt x) (mTailBufferCount x) (mMaxTailBuffers x) v (mLeftVolume x) (mRightVolume x) (mNewLeftVolume x)
    (mNewRightVolume x) (mSuspendedEffects x).
Definition set_mLeftVolume (v : Z) (x : EffectChain) : EffectChain :=
  Chain (ec_mSessionId x) (mEffects x) (mInBuffer x) (mOutBuffer x) (mOwnInBuffer x) (mActiveTrackCnt x)
    (mTrackCnt x) (mTailBufferCount x) (mMaxTailBuffers x) (mVolumeCtrlIdx x) v (mRightVolume x) (mNewLeftVolume
    x) (mNewRightVolume x) (mSuspendedEffects x).
Definition set_mRightVolume (v : Z) (x : EffectChain) : EffectChain :=
  Chain (ec_mSessionId x) (mEffects x) (mInBuffer x) (mOutBuffer x) (mOwnInBuffer x) (mActiveTrackCnt x)
    (mTrackCnt x) (mTailBufferCount x) (mMaxTailBuffers x) (mVolumeCtrlIdx x) (mLeftVolume x) v (mNewLeftVolume x)
    (mNewRightVolume x) (mSuspendedEffects x).
Definition set_mNewLeftVolume (v : Z) (x : EffectChain) : EffectChain :=
  Chain (ec_mSessionId x) (mEffects x) (mInBuffer x) (mOutBuffer x) (mOwnInBuffer x) (mActiveTrackCnt x)
    (mTrackCnt x) (mTailBufferCount x) (mMaxTailBuffers x) (mVolumeCtrlIdx x) (mLeftVolume x) (mRightVolume x) v
    (mNewRightVolume x) (mSuspendedEffects x).
Definition set_mNewRightVolume (v : Z) (x : EffectChain) : EffectChain :=
  Chain (ec_mSessionId x) (mEffects x) (mInBuffer x) (mOutBuffer x) (mOwnInBuffer x) (mActiveTrackCnt x)
    (mTrackCnt x) (mTailBufferCount x) (mMaxTailBuffers x) (mVolumeCtrlIdx x) (mLeftVolume x) (mRightVolume x)
    (mNewLeftVolume x) v (mSuspendedEffects x).
Definition set_mSuspendedEffects (v : gmap Z suspended_desc) (x : EffectChain) : EffectChain :=
  Chain (ec_mSessionId x) (mEffects x) (mInBuffer x) (mOutBuffer x) (mOwnInBuffer x) (mActiveTrackCnt x)
    (mTrackCnt x) (mTailBufferCount x) (mMaxTailBuffers x) (mVolumeCtrlIdx x) (mLeftVolume x) (mRightVolume x)
    (mNewLeftVolume x) (mNewRightVolume x) v.

(** ** The thread and all objects *)

Inductive thread_type := MIXER | DIRECT | DUPLICATING | RECORD.
#[export] Instance thread_type_eq_dec : EqDecision thread_type.
Proof. solve_decision. Defined.
(** What a track has to do with effects. *)
Record etrack := ETrack {
  et_sessionId : Z;
  et_active : bool;
  et_mainBuffer : Z;
  et_auxEffectId : Z;
  et_auxBuffer : Z
}.
Definition set_et_sessionId (v : Z) (x : etrack) : etrack :=
  ETrack v (et_active x) (et_mainBuffer x) (et_auxEffectId x) (et_auxBuffer x).
Definition set_et_active (v : bool) (x : etrack) : etrack :=
  ETrack (et_sessionId x) v (et_mainBuffer x) (et_auxEffectId x) (et_auxBuffer x).
Definition set_et_mainBuffer (v : Z) (x : etrack) : etrack :=
  ETrack (et_sessionId x) (et_active x) v (et_auxEffectId x) (et_auxBuffer x).
Definition set_et_auxEffectId (v : Z) (x : etrack) : etrack :=
  ETrack (et_sessionId x) (et_active x) (et_mainBuffer x) v (et_auxBuffer x).
Definition set_et_auxBuffer (v : Z) (x : etrack) : etrack :=
  ETrack (et_sessionId x) (et_active x) (et_mainBuffer x) (et_auxEffectId x) v.
(** A request to suspend the effects of a session. *)
Record session_desc := SessionDesc {
  ssd_mRefCount : Z;
  ssd_mType : uuid
}.
Definition set_ssd_mRefCount (v : Z) (x : session_desc) : session_desc :=
  SessionDesc v (ssd_mType x).
Definition set_ssd_mType (v : uuid) (x : session_desc) : session_desc :=
  SessionDesc (ssd_mRefCount x) v.

(** A thread; [th_alive]: a reference to it can be promoted. *)
Record thread := Thread {
  th_alive : bool;
  mType : thread_type;
  th_initCheck : Z;
  th_sampleRate : Z;
  th_frameCount : Z;
  th_channelCount : Z;
  th_channelMask : Z;
  th_latency : Z;
  mMixBuffer : Z;
  th_stream : bool;
  mOutDevice : Z;
  mInDevice : Z;
  mMode : Z;
  mAudioSource : Z;
  mEffectChains : list Z;
  mSuspendedSessions : gmap Z (gmap Z session_desc);
  mTracks : list etrack
}.
Definition set_th_alive (v : bool) (x : thread) : thread :=
  Thread v (mType x) (th_initCheck x) (th_sampleRate x) (th_frameCount x) (th_channelCount x) (th_channelMask x)
    (th_latency x) (mMixBuffer x) (th_stream x) (mOutDevice x) (mInDevice x) (mMode x) (mAudioSource x)
    (mEffectChains x) (mSuspendedSessions x) (mTracks x).
Definition set_mType (v : thread_type) (x : thread) : thread :=
  Thread (th_alive x) v (th_initCheck x) (th_sampleRate x) (th_frameCount x) (th_channelCount x) (th_channelMask
    x) (th_latency x) (mMixBuffer x) (th_stream x) (mOutDevice x) (mInDevice x) (mMode x) (mAudioSource x)
    (mEffectChains x) (mSuspendedSessions x) (mTracks x).
Definition set_th_initCheck (v : Z) (x : thread) : thread :=
  Thread (th_alive x) (mType x) v (th_sampleRate x) (th_frameCount x) (th_channelCount x) (th_channelMask x)
    (th_latency x) (mMixBuffer x) (th_stream x) (mOutDevice x) (mInDevice x) (mMode x) (mAudioSource x)
    (mEffectChains x) (mSuspendedSessions x) (mTracks x).
Definition set_th_sampleRate (v : Z) (x : thread) : thread :=
  Thread (th_alive x) (mType x) (th_initCheck x) v (th_frameCount x) (th_channelCount x) (th_channelMask x)
    (th_latency x) (mMixBuffer x) (th_stream x) (mOutDevice x) (mInDevice x) (mMode x) (mAudioSource x)
    (mEffectChains x) (mSuspendedSessions x) (mTracks x).
Definition set_th_frameCount (v : Z) (x : thread) : thread :=
  Thread (th_alive x) (mType x) (th_initCheck x) (th_sampleRate x) v (th_channelCount x) (th_channelMask x)
    (th_latency x) (mMixBuffer x) (th_stream x) (mOutDevice x) (mInDevice x) (mMode x) (mAudioSource x)
    (mEffectChains x) (mSuspendedSessions x) (mTracks x).
Definition set_th_channelCount (v : Z) (x : thread) : thread :=
  Thread (th_alive x) (mType x) (th_initCheck x) (th_sampleRate x) (th_frameCount x) v (th_channelMask x)
    (th_latency x) (mMixBuffer x) (th_stream x) (mOutDevice x) (mInDevice x) (mMode x) (mAudioSource x)
    (mEffectChains x) (mSuspendedSessions x) (mTracks x).
Definition set_th_channelMask (v : Z) (x : thread) : thread :=
  Thread (th_alive x) (mType x) (th_initCheck x) (th_sampleRate x) (th_frameCount x) (th_channelCount x) v
    (th_latency x) (mMixBuffer x) (th_stream x) (mOutDevice x) (mInDevice x) (mMode x) (mAudioSource x)
    (mEffectChains x) (mSuspendedSessions x) (mTracks x).
Definition set_th_latency (v : Z) (x : thread) : thread :=
  Thread (th_alive x) (mType x) (th_initCheck x) (th_sampleRate x) (th_frameCount x) (th_channelCount x)
    (th_channelMask x) v (mMixBuffer x) (th_stream x) (mOutDevice x) (mInDevice x) (mMode x) (mAudioSource x)
    (mEffectChains x) (mSuspendedSessions x) (mTracks x).
Definition set_mMixBuffer (v : Z) (x : thread) : thread :=
  Thread (th_alive x) (mType x) (th_initCheck x) (th_sampleRate x) (th_frameCount x) (th_channelCount x)
    (th_channelMask x) (th_latency x) v (th_stream x) (mOutDevice x) (mInDevice x) (mMode x) (mAudioSource x)
    (mEffectChains x) (mSuspendedSessions x) (mTracks x).
Definition set_th_stream (v : bool) (x : thread) : thread :=
  Thread (th_alive x) (mType x) (th_initCheck x) (th_sampleRate x) (th_frameCount x) (th_channelCount x)
    (th_channelMask x) (th_latency x) (mMixBuffer x) v (mOutDevice x) (mInDevice x) (mMode x) (mAudioSource x)
    (mEffectChains x) (mSuspendedSessions x) (mTracks x).
Definition set_mOutDevice (v : Z) (x : thread) : thread :=
  Thread (th_alive x) (mType x) (th_initCheck x) (th_sampleRate x) (th_frameCount x) (th_channelCount x)
    (th_channelMask x) (th_latency x) (mMixBuffer x) (th_stream x) v (mInDevice x) (mMode x) (mAudioSource x)
    (mEffectChains x) (mSuspendedSessions x) (mTracks x).
Definition set_mInDevice (v : Z) (x : thread) : thread :=
  Thread (th_alive x) (mType x) (th_initCheck x) (th_sampleRate x) (th_frameCount x) (th_channelCount x)
    (th_channelMask x) (th_latency x) (mMixBuffer x) (th_stream x) (mOutDevice x) v (mMode x) (mAudioSource x)
    (mEffectChains x) (mSuspendedSessions x) (mTracks x).
Definition set_mMode (v : Z) (x : thread) : thread :=
  Thread (th_alive x) (mType x) (th_initCheck x) (th_sampleRate x) (th_frameCount x) (th_channelCount x)
    (th_channelMask x) (th_latency x) (mMixBuffer x) (th_stream x) (mOutDevice x) (mInDevice x) v (mAudioSource x)
    (mEffectChains x) (mSuspendedSessions x) (mTracks x).
Definition set_mAudioSource (v : Z) (x : thread) : thread :=
  Thread (th_alive x) (mType x) (th_initCheck x) (th_sampleRate x) (th_frameCount x) (th_channelCount x)
    (th_channelMask x) (th_latency x) (mMixBuffer x) (th_stream x) (mOutDevice x) (mInDevice x) (mMode x) v
    (mEffectChains x) (mSuspendedSessions x) (mTracks x).
Definition set_mEffectChains (v : list Z) (x : thread) : thread :=
  Thread (th_alive x) (mType x) (th_initCheck x) (th_sampleRate x) (th_frameCount x) (th_channelCount x)
    (th_channelMask x) (th_latency x) (mMixBuffer x) (th_stream x) (mOutDevice x) (mInDevice x) (mMode x)
    (mAudioSource x) v (mSuspendedSessions x) (mTracks x).
Definition set_mSuspendedSessions (v : gmap Z (gmap Z session_desc)) (x : thread) : thread :=
  Thread (th_alive x) (mType x) (th_initCheck x) (th_sampleRate x) (th_frameCount x) (th_channelCount x)
    (th_channelMask x) (th_latency x) (mMixBuffer x) (th_stream x) (mOutDevice x) (mInDevice x) (mMode x)
    (mAudioSource x) (mEffectChains x) v (mTracks x).
Definition set_mTracks (v : list etrack) (x : thread) : thread :=
  Thread (th_alive x) (mType x) (th_initCheck x) (th_sampleRate x) (th_frameCount x) (th_channelCount x)
    (th_channelMask x) (th_latency x) (mMixBuffer x) (th_stream x) (mOutDevice x) (mInDevice x) (mMode x)
    (mAudioSource x) (mEffectChains x) (mSuspendedSessions x) v.

(** What is asked of the audio policy. *)
Inductive policy_call := registerEffect (d : descriptor) (session id : Z) | unregisterEffect (id : Z) | setEffectEnabled (id : Z) (enabled : bool).

(** The objects by their address, the contents of the buffers, and the next free address. *)
Record world := World {
  w_modules : gmap Z EffectModule;
  w_handles : gmap Z EffectHandle;
  w_chains : gmap Z EffectChain;
  w_mem : gmap Z (list Z);
  w_thread : thread;
  w_next : Z;
  w_id : Z;
  w_policy : list policy_call
}.
Definition set_w_modules (v : gmap Z EffectModule) (x : world) : world :=
  World v (w_handles x) (w_chains x) (w_mem x) (w_thread x) (w_next x) (w_id x) (w_policy x).
Definition set_w_handles (v : gmap Z EffectHandle) (x : world) : world :=
  World (w_modules x) v (w_chains x) (w_mem x) (w_thread x) (w_next x) (w_id x) (w_policy x).
Definition set_w_chains (v : gmap Z EffectChain) (x : world) : world :=
  World (w_modules x) (w_handles x) v (w_mem x) (w_thread x) (w_next x) (w_id x) (w_policy x).
Definition set_w_mem (v : gmap Z (list Z)) (x : world) : world :=
  World (w_modules x) (w_handles x) (w_chains x) v (w_thread x) (w_next x) (w_id x) (w_policy x).
Definition set_w_thread (v : thread) (x : world) : world :=
  World (w_modules x) (w_handles x) (w_chains x) (w_mem x) v (w_next x) (w_id x) (w_policy x).
Definition set_w_next (v : Z) (x : world) : world :=
  World (w_modules x) (w_handles x) (w_chains x) (w_mem x) (w_thread x) v (w_id x) (w_policy x).
Definition set_w_id (v : Z) (x : world) : world :=
  World (w_modules x) (w_handles x) (w_chains x) (w_mem x) (w_thread x) (w_next x) v (w_policy x).
Definition set_w_policy (v : list policy_call) (x : world) : world :=
  World (w_modules x) (w_handles x) (w_chains x) (w_mem x) (w_thread x) (w_next x) (w_id x) v.
#[global] Notation MW := (M world).

(** What is not in these files: an engine answers a command by a status and a reply, given
    the commands before it; one that controls the volume yields the volume to use;
    processing turns the contents of its output into others, and has a status. *)
Class EffectEnv := {
  engine_command : list engine_cmd → engine_cmd → Z * Z;
  engine_volume : list engine_cmd → Z → Z → Z * Z;
  engine_process : list engine_cmd → list Z → list Z → list Z * Z;
  effect_create : uuid → Z;
  policy : list policy_call → policy_call → Z
}.

(** ** Access to objects *)

Definition get_module (e : Z) : MW EffectModule := w <- getst ;; deref (w_modules w !! e).
Definition on_module (e : Z) (f : EffectModule → EffectModule) : MW unit :=
  m <- get_module e ;; modify (λ w, set_w_modules (<[e := f m]> (w_modules w)) w).
Definition get_handle (h : Z) : MW EffectHandle := w <- getst ;; deref (w_handles w !! h).
Definition on_handle (h : Z) (f : EffectHandle → EffectHandle) : MW unit :=
  x <- get_handle h ;; modify (λ w, set_w_handles (<[h := f x]> (w_handles w)) w).
Definition get_chain (c : Z) : MW EffectChain := w <- getst ;; deref (w_chains w !! c).
Definition on_chain (c : Z) (f : EffectChain → EffectChain) : MW unit :=
  x <- get_chain c ;; modify (λ w, set_w_chains (<[c := f x]> (w_chains w)) w).
Definition on_thread (f : thread → thread) : MW unit := modify (λ w, set_w_thread (f (w_thread w)) w).
Definition on_config (f : config → config) (m : EffectModule) : EffectModule := set_mConfig (f (mConfig m)) m.
Definition get_mem (a : Z) : MW (list Z) := w <- getst ;; deref (w_mem w !! a).
Definition set_mem (a : Z) (l : list Z) : MW unit := get_mem a ;;; modify (λ w, set_w_mem (<[a := l]> (w_mem w)) w).
(** [new]: a fresh address. *)
Definition new_address : MW Z := w <- getst ;; modify (set_w_next (w_next w + 1)) ;;; ret (w_next w).

(** [insertAt], [removeAt] of a [Vector]; the index of an element. *)
Definition insertAt {A} (x : A) (i : nat) (l : list A) : list A := take i l ++ x :: drop i l.
Fixpoint indexOf (x : Z) (l : list Z) : option nat :=
  match l with [] => None | y :: l => if bool_decide (y = x) then Some O else S <$> indexOf x l end.
Fixpoint each {A} (l : list A) (body : A → MW unit) : MW unit := match l with [] => ret tt | x :: l => body x ;;; each l body end.

(** ** Handles *)

Definition tell (n : notice) (x : EffectHandle) : EffectHandle := if eh_effectClient x then set_eh_told (eh_told x ++ [n]) x else x.
Definition setControl (h : Z) (hasControl signal enabled : bool) : MW unit :=
  on_handle h (set_mHasControl hasControl) ;;;
  on_handle h (set_mEnabled enabled) ;;;
  when signal do on_handle h (tell (controlStatusChanged hasControl)).
(** [EffectHandle::setEnabled], [EffectHandle::commandExecuted]. *)
Definition handle_setEnabled (h : Z) (enabled : bool) : MW unit := on_handle h (tell (enableStatusChanged enabled)).
Definition handle_commandExecuted (h : Z) (cmdCode : Z) (cmdData : list Z) : MW unit := on_handle h (tell (commandExecuted cmdCode cmdData)).

(** ** Modules: the handles *)

(** The loop of [addHandle]: where to insert, and the first handle not destroyed so far. *)
Fixpoint scan_handles (priority : Z) (l : list Z) (i : nat) (controlHandle : option Z) : MW (nat * option Z) :=
  match l with
  | [] => ret (i, controlHandle)
  | h :: l =>
      x <- get_handle h ;;
      if mDestroyed x then scan_handles priority l (S i) controlHandle
      else
        let controlHandle := match controlHandle with None => Some h | _ => controlHandle end in
        if bool_decide (mPriority x <= priority) then ret (i, controlHandle) else scan_handles priority l (S i) controlHandle
  end.
Definition addHandle (e h : Z) : MW Z :=
  m <- get_module e ;;
  x <- get_handle h ;;
  let* (i, controlHandle) := scan_handles (mPriority x) (mHandles m) 0 None in
  status <- (if bool_decide (i = 0)%nat then
     enabled <- (match controlHandle with
       | Some c => y <- get_handle c ;; setControl c false true (mEnabled y) ;;; ret (mEnabled y)
       | None => ret false
       end) ;;
     setControl h true false enabled ;;;
     ret NO_ERROR
   else ret ALREADY_EXISTS) ;;
  on_module e (λ m, set_mHandles (insertAt h i (mHandles m)) m) ;;;
  ret status.

(** [controlHandle_l]: the first valid handle. *)
Fixpoint first_valid (l : list Z) : MW (option Z) :=
  match l with
  | [] => ret None
  | h :: l => x <- get_handle h ;; if mDestroyed x then first_valid l else ret (Some h)
  end.
Definition controlHandle_l (e : Z) : MW (option Z) := m <- get_module e ;; first_valid (mHandles m).

Definition removeHandle (e h : Z) : MW nat :=
  m <- get_module e ;;
  match indexOf h (mHandles m) with
  | None => ret (length (mHandles m))
  | Some i =>
      on_module e (λ m, set_mHandles (delete i (mHandles m)) m) ;;;
      (when bool_decide (i = 0)%nat do (
         c <- controlHandle_l e ;;
         match c with
         | Some c => x <- get_handle h ;; setControl c true true (mEnabled x)
         | None => ret tt
         end)) ;;;
      m <- get_module e ;;
      (when bool_decide (mHandles m = []) && negb (mPinned m) do on_module e (set_mState DESTROYED)) ;;;
      ret (length (mHandles m))
  end.

(** ** Modules: the engine *)

Section effects.
Context {Env : EffectEnv}.

(** The promotion of [mThread]. *)
Definition promote_thread : MW (option thread) := w <- getst ;; ret (if th_alive (w_thread w) then Some (w_thread w) else None).
(** The promotion of a chain: its thread holds it. *)
Definition promote_chain (c : Z) : MW (option EffectChain) :=
  w <- getst ;;
  if bool_decide (c ∈ mEffectChains (w_thread w)) then x <- get_chain c ;; ret (Some x) else ret None.
Definition ask_policy (p : policy_call) : MW Z :=
  w <- getst ;;
  modify (set_w_policy (w_policy w ++ [p])) ;;;
  ret (policy (w_policy w) p).

Definition send (e : Z) (c : engine_cmd) : MW (Z * Z) :=
  m <- get_module e ;;
  on_module e (set_em_sent (em_sent m ++ [c])) ;;;
  ret (engine_command (em_sent m) c).
(** The status of a command, or what it replies. *)
Definition send_status (e : Z) (c : engine_cmd) : MW Z :=
  let* (status, cmdStatus) := send e c in
  ret (if bool_decide (status = 0) then cmdStatus else status).

Definition reset_l (e : Z) : MW unit :=
  m <- get_module e ;;
  if bool_decide (mStatus m ≠ NO_ERROR) || negb (mEffectInterface m) then ret tt
  else send e CMD_RESET ;;; ret tt.

Definition init (e : Z) : MW Z :=
  m <- get_module e ;;
  if negb (mEffectInterface m) then ret NO_INIT else send_status e CMD_INIT.

(** [add_audio_effect] and [remove_audio_effect] of the stream of the thread. *)
Definition attach (e : Z) (on : bool) : MW unit :=
  t <- promote_thread ;;
  match t with
  | Some t => when th_stream t do on_module e (set_em_attached on)
  | None => ret tt
  end.

Definition start_l (e : Z) : MW Z :=
  m <- get_module e ;;
  if negb (mEffectInterface m) then ret NO_INIT
  else if bool_decide (mStatus m ≠ NO_ERROR) then ret (mStatus m)
  else
    status <- send_status e CMD_ENABLE ;;
    (when bool_decide (status = 0) && is_pre_or_post (mDescriptor m) do attach e true) ;;;
    ret status.
Definition stop_l (e : Z) : MW Z :=
  m <- get_module e ;;
  if negb (mEffectInterface m) then ret NO_INIT
  else if bool_decide (mStatus m ≠ NO_ERROR) then ret (mStatus m)
  else
    status <- send_status e CMD_DISABLE ;;
    (when bool_decide (status = 0) && is_pre_or_post (mDescriptor m) do attach e false) ;;;
    ret status.

Definition AUDIO_CHANNEL_OUT_MONO : Z := 1.
Definition configure (e : Z) : MW Z :=
  m <- get_module e ;;
  t <- promote_thread ;;
  status <-
    (if negb (mEffectInterface m) then ret NO_INIT
     else match t with
     | None => ret DEAD_OBJECT
     | Some t =>
         let c := mConfig m in
         let channels := if is_auxiliary (mDescriptor m) then AUDIO_CHANNEL_OUT_MONO else th_channelMask t in
         let c := Config channels (th_channelMask t) (th_sampleRate t) (inBuffer c) (outBuffer c) (th_frameCount t) (bool_decide (inBuffer c ≠ outBuffer c)) in
         on_module e (set_mConfig c) ;;;
         status <- send_status e (CMD_SET_CONFIG c) ;;
         (when bool_decide (status = 0) && bool_decide (d_type (mDescriptor m) = SL_IID_VISUALIZATION) do (send e (CMD_SET_LATENCY (th_latency t)) ;;; ret tt)) ;;;
         bug_on (bool_decide (u32 (1000 * frameCount c) = 0)) ;;;
         on_module e (set_mMaxDisableWaitCnt (u32 (MAX_DISABLE_TIME_MS * samplingRate c) / u32 (1000 * frameCount c))) ;;;
         ret status
     end) ;;
  on_module e (set_mStatus status) ;;;
  ret status.

(** The constructor; [e] is the address of the new module. *)
Definition EffectModule_new (chain : Z) (desc : descriptor) (id sessionId : Z) : MW Z :=
  e <- new_address ;;
  modify (λ w, set_w_modules (<[e := Module (bool_decide (sessionId > AUDIO_SESSION_OUTPUT_MIX)) chain id sessionId desc (Config 0 0 0 0 0 0 false) false
    NO_INIT IDLE [] 0 0 false [] false]> (w_modules w)) w) ;;;
  let status := effect_create (d_uuid desc) in
  on_module e (set_mStatus status) ;;;
  (if bool_decide (status ≠ NO_ERROR) then ret tt
   else
     on_module e (set_mEffectInterface true) ;;;
     lStatus <- init e ;;
     when bool_decide (lStatus < 0) do (
       on_module e (set_mStatus lStatus) ;;;
       on_module e (set_mEffectInterface false))) ;;;
  ret e.
(** The destructor. *)
Definition EffectModule_delete (e : Z) : MW unit :=
  m <- get_module e ;;
  (when mEffectInterface m && is_pre_or_post (mDescriptor m) do attach e false) ;;;
  modify (λ w, set_w_modules (delete e (w_modules w)) w).

Definition memset_input (e : Z) : MW unit :=
  m <- get_module e ;;
  set_mem (inBuffer (mConfig m)) (replicate (Z.to_nat (frameCount (mConfig m))) 0).

(** [RESTART] goes on as [STARTING]. *)
Definition start_up (e : Z) : MW unit :=
  m <- get_module e ;;
  (when is_auxiliary (mDescriptor m) do memset_input e) ;;;
  status <- start_l e ;;
  on_module e (set_mState (if bool_decide (status = NO_ERROR) then ACTIVE else IDLE)).
Definition updateState (e : Z) : MW unit :=
  m <- get_module e ;;
  match mState m with
  | RESTART => reset_l e ;;; start_up e
  | STARTING => start_up e
  | STOPPING =>
      status <- stop_l e ;;
      on_module e (set_mDisableWaitCnt (if bool_decide (status = NO_ERROR) then mMaxDisableWaitCnt m else 1)) ;;;
      on_module e (set_mState STOPPED)
  | STOPPED =>
      let cnt := u32 (mDisableWaitCnt m - 1) in
      on_module e (set_mDisableWaitCnt cnt) ;;;
      when bool_decide (cnt = 0) do (reset_l e ;;; on_module e (set_mState IDLE))
  | _ => ret tt
  end.

Definition isEnabled (m : EffectModule) : bool := match mState m with RESTART | STARTING | ACTIVE => true | _ => false end.
Definition isProcessEnabled (m : EffectModule) : bool :=
  if bool_decide (mStatus m ≠ NO_ERROR) then false
  else match mState m with RESTART | ACTIVE | STOPPING | STOPPED => true | _ => false end.

(** The loop over [n] samples that accumulates [ins] onto [outs]. *)
Fixpoint accumulate (n : nat) (outs ins : list Z) : option (list Z) :=
  match n, outs, ins with
  | O, _, _ => Some outs
  | S n, o :: outs, i :: ins => l ← accumulate n outs ins; Some (clamp16 (o + i) :: l)
  | _, _, _ => None
  end.
Definition dither_input (e : Z) : MW unit :=
  m <- get_module e ;;
  l <- get_mem (inBuffer (mConfig m)) ;;
  out <- deref (ditherAndClamp l (Z.to_nat (frameCount (mConfig m) / 2))) ;;
  set_mem (inBuffer (mConfig m)) (out ++ drop (length out) l).
Definition EffectModule_process (e : Z) : MW unit :=
  m <- get_module e ;;
  let c := mConfig m in
  if bool_decide (mState m = DESTROYED) || negb (mEffectInterface m) || bool_decide (inBuffer c = 0) || bool_decide (outBuffer c = 0) then ret tt
  else if isProcessEnabled m then
    (when is_auxiliary (mDescriptor m) do dither_input e) ;;;
    ins <- get_mem (inBuffer c) ;;
    outs <- get_mem (outBuffer c) ;;
    let (outs', r) := engine_process (em_sent m) ins outs in
    set_mem (outBuffer c) outs' ;;;
    (when bool_decide (mState m = STOPPED) && bool_decide (r = - ENODATA) do on_module e (set_mDisableWaitCnt 1)) ;;;
    (when is_auxiliary (mDescriptor m) do memset_input e)
  else if is_insert (mDescriptor m) && bool_decide (inBuffer c ≠ outBuffer c) then
    chain <- promote_chain (mChain m) ;;
    match chain with
    | Some chain =>
        when bool_decide (mActiveTrackCnt chain ≠ 0) do (
          ins <- get_mem (inBuffer c) ;;
          outs <- get_mem (outBuffer c) ;;
          outs' <- deref (accumulate (Z.to_nat (frameCount c * 2)) outs ins) ;;
          set_mem (outBuffer c) outs')
    | None => ret tt
    end
  else ret tt.

(** For each handle but the first, if it is valid. *)
Definition others (e : Z) (body : Z → MW unit) : MW unit :=
  m <- get_module e ;;
  each (tail (mHandles m)) (λ h, x <- get_handle h ;; when negb (mDestroyed x) do body h).

Definition module_command (e : Z) (get_param : bool) (cmdCode : Z) (cmdData : list Z) : MW Z :=
  m <- get_module e ;;
  if bool_decide (mState m = DESTROYED) || negb (mEffectInterface m) then ret NO_INIT
  else if bool_decide (mStatus m ≠ NO_ERROR) then ret (mStatus m)
  else
    let* (status, _) := send e (CMD_OTHER cmdCode cmdData) in
    (when negb get_param && bool_decide (status = NO_ERROR) do others e (λ h, handle_commandExecuted h cmdCode cmdData)) ;;;
    ret status.

Definition setEnabled_l (e : Z) (enabled : bool) : MW Z :=
  m <- get_module e ;;
  if bool_decide (enabled ≠ isEnabled m) then
    status <- ask_policy (setEffectEnabled (mId m) enabled) ;;
    if enabled && bool_decide (status ≠ NO_ERROR) then ret status
    else
      let go s := on_module e (set_mState s) ;;; others e (λ h, handle_setEnabled h enabled) ;;; ret NO_ERROR in
      match mState m with
      | IDLE => go STARTING
      | STOPPED => go RESTART
      | STOPPING => go ACTIVE
      | RESTART => go STOPPED
      | STARTING => go IDLE
      | ACTIVE => go STOPPING
      | DESTROYED => ret NO_ERROR
      end
  else ret NO_ERROR.
Definition setEnabled (e : Z) (enabled : bool) : MW Z := setEnabled_l e enabled.

(** The status, and the volume that is left in [*left], [*right]. *)
Definition setVolume (e left right : Z) (controller : bool) : MW (Z * (Z * Z)) :=
  m <- get_module e ;;
  if bool_decide (mStatus m ≠ NO_ERROR) then ret (mStatus m, (left, right))
  else
    let v := Z.land (d_flags (mDescriptor m)) EFFECT_FLAG_VOLUME_MASK in
    if isProcessEnabled m && (bool_decide (v = EFFECT_FLAG_VOLUME_CTRL) || bool_decide (v = EFFECT_FLAG_VOLUME_IND)) then
      let* (status, _) := send e (CMD_SET_VOLUME left right) in
      ret (status, if controller && bool_decide (status = NO_ERROR) then engine_volume (em_sent m) left right else (left, right))
    else ret (NO_ERROR, (left, right)).

Definition audio_is_output_devices (device : Z) : bool := bool_decide (Z.land device 0x80000000 = 0).
Definition setDevice (e device : Z) : MW Z :=
  if bool_decide (device = AUDIO_DEVICE_NONE) then ret NO_ERROR
  else
    m <- get_module e ;;
    if bool_decide (mStatus m ≠ NO_ERROR) then ret (mStatus m)
    else if bool_decide (Z.land (d_flags (mDescriptor m)) EFFECT_FLAG_DEVICE_MASK = EFFECT_FLAG_DEVICE_IND) then
      let* (status, _) := send e (if audio_is_output_devices device then CMD_SET_DEVICE device else CMD_SET_INPUT_DEVICE device) in
      ret status
    else ret NO_ERROR.
Definition setMode (e mode : Z) : MW Z :=
  m <- get_module e ;;
  if bool_decide (mStatus m ≠ NO_ERROR) then ret (mStatus m)
  else if bool_decide (Z.land (d_flags (mDescriptor m)) EFFECT_FLAG_AUDIO_MODE_MASK = EFFECT_FLAG_AUDIO_MODE_IND) then
    send_status e (CMD_SET_AUDIO_MODE mode)
  else ret NO_ERROR.
Definition setAudioSource (e source : Z) : MW Z :=
  m <- get_module e ;;
  if bool_decide (mStatus m ≠ NO_ERROR) then ret (mStatus m)
  else if bool_decide (Z.land (d_flags (mDescriptor m)) EFFECT_FLAG_AUDIO_SOURCE_MASK = EFFECT_FLAG_AUDIO_SOURCE_IND) then
    let* (status, _) := send e (CMD_SET_AUDIO_SOURCE source) in ret status
  else ret NO_ERROR.
Definition setSuspended (e : Z) (suspended : bool) : MW unit := on_module e (set_mSuspended suspended).

(** [purgeHandles]: [handle->effect().clear()] clears a copy of the reference. *)
Fixpoint purge (l : list Z) (enabled : bool) : MW bool :=
  match l with
  | [] => ret enabled
  | h :: l => x <- get_handle h ;; purge l (if negb (mDestroyed x) && mHasControl x then mEnabled x else enabled)
  end.
Definition purgeHandles (e : Z) : MW bool := m <- get_module e ;; purge (mHandles m) false.

(** ** Chains *)

(** The constructor. *)
Definition EffectChain_new (sessionId : Z) : MW Z :=
  w <- getst ;;
  let t := w_thread w in
  bug_on (bool_decide (th_frameCount t = 0)) ;;;
  c <- new_address ;;
  modify (λ w, set_w_chains (<[c := Chain sessionId [] 0 0 false 0 0 0 (u32 (kProcessTailDurationMs * th_sampleRate t) / 1000 / th_frameCount t) (-1)
    UINT_MAX UINT_MAX UINT_MAX UINT_MAX ∅]> (w_chains w)) w) ;;;
  ret c.
(** The destructor. *)
Definition EffectChain_delete (c : Z) : MW unit :=
  x <- get_chain c ;;
  (when mOwnInBuffer x do modify (λ w, set_w_mem (delete (mInBuffer x) (w_mem w)) w)) ;;;
  modify (λ w, set_w_chains (delete c (w_chains w)) w).

(** The first module that satisfies [p]. *)
Fixpoint find_module (p : EffectModule → bool) (l : list Z) : MW (option Z) :=
  match l with
  | [] => ret None
  | e :: l => m <- get_module e ;; if p m then ret (Some e) else find_module p l
  end.
Definition getEffectFromDesc_l (c : Z) (desc : descriptor) : MW (option Z) :=
  x <- get_chain c ;; find_module (λ m, bool_decide (d_uuid (mDescriptor m) = d_uuid desc)) (mEffects x).
Definition getEffectFromId_l (c id : Z) : MW (option Z) :=
  x <- get_chain c ;; find_module (λ m, bool_decide (id = 0) || bool_decide (mId m = id)) (mEffects x).
Definition getEffectFromType_l (c : Z) (type : uuid) : MW (option Z) :=
  x <- get_chain c ;; find_module (λ m, bool_decide (d_type (mDescriptor m) = type)) (mEffects x).

Definition clearInputBuffer_l (c : Z) (t : thread) : MW unit :=
  x <- get_chain c ;;
  l <- get_mem (mInBuffer x) ;;
  let n := Z.to_nat (th_frameCount t * th_channelCount t) in
  bug_on (bool_decide (length l < n)%nat) ;;;
  set_mem (mInBuffer x) (replicate n 0 ++ drop n l).
Definition clearInputBuffer (c : Z) : MW unit :=
  t <- promote_thread ;; match t with Some t => clearInputBuffer_l c t | None => ret tt end.

Definition process_l (c : Z) : MW unit :=
  t <- promote_thread ;;
  match t with
  | None => ret tt
  | Some t =>
      x <- get_chain c ;;
      let isGlobalSession := bool_decide (ec_mSessionId x = AUDIO_SESSION_OUTPUT_MIX) || bool_decide (ec_mSessionId x = AUDIO_SESSION_OUTPUT_STAGE) in
      let tracksOnSession := bool_decide (mTrackCnt x ≠ 0) in
      let doProcess := isGlobalSession || tracksOnSession || bool_decide (mTailBufferCount x ≠ 0) in
      (when negb isGlobalSession && bool_decide (mActiveTrackCnt x = 0) && (tracksOnSession || bool_decide (mTailBufferCount x > 0)) do (
         clearInputBuffer_l c t ;;;
         when bool_decide (mTailBufferCount x > 0) do on_chain c (set_mTailBufferCount (mTailBufferCount x - 1)))) ;;;
      (when doProcess do each (mEffects x) EffectModule_process) ;;;
      each (mEffects x) updateState
  end.

Fixpoint descriptors (l : list Z) : MW (list descriptor) :=
  match l with
  | [] => ret []
  | e :: l => m <- get_module e ;; ds <- descriptors l ;; ret (mDescriptor m :: ds)
  end.
(** The loop of [addEffect_l] over the effects of the chain: [idx_insert], and the places of
    the last effect that claims the first position and of the first that claims the last;
    nothing when effects exclude each other. *)
Fixpoint scan_chain (pref : Z) (size : nat) (l : list descriptor) (i idx_insert : nat) (idx_first idx_last : option nat) : option (nat * option nat * option nat) :=
  match l with
  | [] => Some (idx_insert, idx_first, idx_last)
  | d :: l =>
      if is_insert d then
        if bool_decide (pref = EFFECT_FLAG_INSERT_EXCLUSIVE) || bool_decide (insert_pref d = EFFECT_FLAG_INSERT_EXCLUSIVE) then None
        else scan_chain pref size l (S i)
          (if bool_decide (idx_insert = size) then i else idx_insert)
          (if bool_decide (insert_pref d = EFFECT_FLAG_INSERT_FIRST) then Some i else idx_first)
          (if bool_decide (insert_pref d = EFFECT_FLAG_INSERT_LAST) && bool_decide (idx_last = None) then Some i else idx_last)
      else scan_chain pref size l (S i) idx_insert idx_first idx_last
  end.
Definition insert_index (pref : Z) (ds : list descriptor) : option nat :=
  '(idx_insert, idx_first, idx_last) ← scan_chain pref (length ds) ds 0 (length ds) None None;
  Some (if bool_decide (pref = EFFECT_FLAG_INSERT_LAST) then match idx_last with Some i => i | None => length ds end
        else match idx_first with Some i => S i | None => idx_insert end).

Definition addEffect_l (c e : Z) : MW Z :=
  m <- get_module e ;;
  on_module e (set_mChain c) ;;;
  t <- promote_thread ;;
  match t with
  | None => ret NO_INIT
  | Some t =>
      x <- get_chain c ;;
      if is_auxiliary (mDescriptor m) then
        on_chain c (set_mEffects (insertAt e 0 (mEffects x))) ;;;
        buffer <- new_address ;;
        modify (λ w, set_w_mem (<[buffer := replicate (Z.to_nat (th_frameCount t)) 0]> (w_mem w)) w) ;;;
        on_module e (on_config (set_inBuffer buffer)) ;;;
        on_module e (on_config (set_outBuffer (mInBuffer x))) ;;;
        configure e ;;;
        ret NO_ERROR
      else
        ds <- descriptors (mEffects x) ;;
        match insert_index (insert_pref (mDescriptor m)) ds with
        | None => ret INVALID_OPERATION
        | Some idx_insert =>
            on_module e (on_config (set_inBuffer (mInBuffer x))) ;;;
            (if bool_decide (idx_insert = length (mEffects x)) then
               (match last (mEffects x) with
                | Some p => on_module p (on_config (set_outBuffer (mInBuffer x))) ;;; configure p ;;; ret tt
                | None => ret tt
                end) ;;;
               on_module e (on_config (set_outBuffer (mOutBuffer x)))
             else on_module e (on_config (set_outBuffer (mInBuffer x)))) ;;;
            on_chain c (set_mEffects (insertAt e idx_insert (mEffects x))) ;;;
            configure e ;;;
            ret NO_ERROR
        end
  end.

Definition removeEffect_l (c e : Z) : MW nat :=
  x <- get_chain c ;;
  match indexOf e (mEffects x) with
  | None => ret (length (mEffects x))
  | Some i =>
      m <- get_module e ;;
      (when bool_decide (mState m = ACTIVE) || bool_decide (mState m = STOPPING) do (stop_l e ;;; ret tt)) ;;;
      (if is_auxiliary (mDescriptor m) then modify (λ w, set_w_mem (delete (inBuffer (mConfig m)) (w_mem w)) w)
       else if bool_decide (S i = length (mEffects x)) && bool_decide (i ≠ 0%nat) then
         p <- deref (mEffects x !! pred i) ;;
         on_module p (on_config (set_outBuffer (mOutBuffer x))) ;;;
         configure p ;;; ret tt
       else ret tt) ;;;
      on_chain c (set_mEffects (delete i (mEffects x))) ;;;
      ret (pred (length (mEffects x)))
  end.

Definition setDevice_l (c device : Z) : MW unit := x <- get_chain c ;; each (mEffects x) (λ e, setDevice e device ;;; ret tt).
Definition setMode_l (c mode : Z) : MW unit := x <- get_chain c ;; each (mEffects x) (λ e, setMode e mode ;;; ret tt).
Definition setAudioSource_l (c source : Z) : MW unit := x <- get_chain c ;; each (mEffects x) (λ e, setAudioSource e source ;;; ret tt).

(** *** The volume *)

(** Whether it runs and controls the volume. *)
Definition controls_volume (m : EffectModule) : bool :=
  isProcessEnabled m && bool_decide (Z.land (d_flags (mDescriptor m)) EFFECT_FLAG_VOLUME_MASK = EFFECT_FLAG_VOLUME_CTRL).
(** The last one in the chain that does, from [i] on. *)
Fixpoint last_controller (l : list Z) (i ctrlIdx : Z) : MW Z :=
  match l with
  | [] => ret ctrlIdx
  | e :: l => m <- get_module e ;; last_controller l (i + 1) (if controls_volume m then i else ctrlIdx)
  end.
(** The loop that indicates the volume to all but the controller. *)
Fixpoint indicate (l : list Z) (i ctrlIdx : Z) (before after : Z * Z) : MW unit :=
  match l with
  | [] => ret tt
  | e :: l =>
      (when bool_decide (i ≠ ctrlIdx) do
         (let v := if bool_decide (i > ctrlIdx) then after else before in setVolume e v.1 v.2 false ;;; ret tt)) ;;;
      indicate l (i + 1) ctrlIdx before after
  end.
(** Whether an effect controls the volume, and the volume to use. *)
Definition setVolume_l (c left right : Z) : MW (bool * (Z * Z)) :=
  x <- get_chain c ;;
  ctrlIdx <- last_controller (mEffects x) 0 (-1) ;;
  let hasControl := bool_decide (ctrlIdx >= 0) in
  if bool_decide (ctrlIdx = mVolumeCtrlIdx x) && bool_decide (left = mLeftVolume x) && bool_decide (right = mRightVolume x) then
    ret (hasControl, if hasControl then (mNewLeftVolume x, mNewRightVolume x) else (left, right))
  else
    on_chain c (λ x, set_mRightVolume right (set_mLeftVolume left (set_mVolumeCtrlIdx ctrlIdx x))) ;;;
    new <-
      (if hasControl then
         e <- deref (mEffects x !! Z.to_nat ctrlIdx) ;;
         let* (_, new) := setVolume e left right true in
         on_chain c (λ x, set_mNewRightVolume new.2 (set_mNewLeftVolume new.1 x)) ;;;
         ret new
       else ret (left, right)) ;;
    indicate (mEffects x) 0 ctrlIdx new (left, right) ;;;
    ret (hasControl, new).

(** *** Suspended effects *)

Definition type_key (type : uuid) : Z := s32 (timeLow type).
(** The promotion of [mEffect] of a description. *)
Definition promote_module (e : Z) : MW (option EffectModule) := w <- getst ;; ret (w_modules w !! e).

Definition isEffectEligibleForSuspend (x : EffectChain) (d : descriptor) : bool :=
  negb (bool_decide (ec_mSessionId x = AUDIO_SESSION_OUTPUT_MIX) &&
    (is_auxiliary d || bool_decide (d_type d = SL_IID_VISUALIZATION) || bool_decide (d_type d = SL_IID_VOLUME))).
Fixpoint eligible (x : EffectChain) (l : list Z) : MW (list Z) :=
  match l with
  | [] => ret []
  | e :: l => m <- get_module e ;; r <- eligible x l ;; ret (if isEffectEligibleForSuspend x (mDescriptor m) then e :: r else r)
  end.
Definition getSuspendEligibleEffects (c : Z) : MW (list Z) := x <- get_chain c ;; eligible x (mEffects x).
Definition getEffectIfEnabled (c : Z) (type : uuid) : MW (option Z) :=
  e <- getEffectFromType_l c type ;;
  match e with
  | Some e => m <- get_module e ;; ret (if isEnabled m then Some e else None)
  | None => ret None
  end.

Definition set_suspended (c key : Z) (d : suspended_desc) : MW unit := on_chain c (λ x, set_mSuspendedEffects (<[key := d]> (mSuspendedEffects x)) x).
(** The end of the last request that suspends an effect. *)
Definition restore_effect (e : Z) : MW unit :=
  m <- promote_module e ;;
  match m with
  | None => ret tt
  | Some _ =>
      setSuspended e false ;;;
      handle <- controlHandle_l e ;;
      match handle with
      | Some h => x <- get_handle h ;; setEnabled_l e (mEnabled x) ;;; ret tt
      | None => ret tt
      end
  end.
Definition setEffectSuspended_l (c : Z) (type : uuid) (suspend : bool) : MW unit :=
  x <- get_chain c ;;
  let key := type_key type in
  if suspend then
    let d := default (Suspended 0 type 0) (mSuspendedEffects x !! key) in
    set_suspended c key (set_sd_mRefCount (s32 (sd_mRefCount d + 1)) d) ;;;
    when bool_decide (sd_mRefCount d = 0) do (
      effect <- getEffectIfEnabled c type ;;
      match effect with
      | Some e =>
          set_suspended c key (set_sd_mEffect e (set_sd_mRefCount (s32 (sd_mRefCount d + 1)) d)) ;;;
          setSuspended e true ;;;
          setEnabled e false ;;; ret tt
      | None => ret tt
      end)
  else
    match mSuspendedEffects x !! key with
    | None => ret tt
    | Some d =>
        let count := (if bool_decide (sd_mRefCount d <= 0) then 1 else sd_mRefCount d) - 1 in
        set_suspended c key (set_sd_mRefCount count d) ;;;
        when bool_decide (count = 0) do (
          (when bool_decide (sd_mEffect d ≠ 0) do restore_effect (sd_mEffect d)) ;;;
          on_chain c (λ x, set_mSuspendedEffects (delete key (mSuspendedEffects x)) x))
    end.

(** The effects that are suspended, but for the entry of the requests to suspend all. *)
Definition suspended_types (x : EffectChain) : list uuid :=
  (λ p, sd_mType p.2) <$> filter (λ p, p.1 ≠ kKeyForSuspendAll) (map_to_list (mSuspendedEffects x)).
Definition setEffectSuspendedAll_l (c : Z) (suspend : bool) : MW unit :=
  x <- get_chain c ;;
  let key := kKeyForSuspendAll in
  if suspend then
    let d := default (Suspended 0 (Uuid 0 0) 0) (mSuspendedEffects x !! key) in
    set_suspended c key (set_sd_mRefCount (s32 (sd_mRefCount d + 1)) d) ;;;
    when bool_decide (sd_mRefCount d = 0) do (
      effects <- getSuspendEligibleEffects c ;;
      each effects (λ e, m <- get_module e ;; setEffectSuspended_l c (d_type (mDescriptor m)) true))
  else
    match mSuspendedEffects x !! key with
    | None => ret tt
    | Some d =>
        let count := (if bool_decide (sd_mRefCount d <= 0) then 1 else sd_mRefCount d) - 1 in
        set_suspended c key (set_sd_mRefCount count d) ;;;
        when bool_decide (count = 0) do (
          x <- get_chain c ;;
          each (suspended_types x) (λ type, setEffectSuspended_l c type false) ;;;
          on_chain c (λ x, set_mSuspendedEffects (delete key (mSuspendedEffects x)) x))
    end.

(** [EffectChain::checkSuspendOnEffectEnabled]. *)
Definition chain_checkSuspendOnEffectEnabled (c e : Z) (enabled : bool) : MW unit :=
  m <- get_module e ;;
  x <- get_chain c ;;
  let type := d_type (mDescriptor m) in
  let key := type_key type in
  if enabled then
    go <-
      (match mSuspendedEffects x !! key with
       | Some _ => ret true
       | None =>
           match mSuspendedEffects x !! kKeyForSuspendAll with
           | None => ret false
           | Some _ =>
               if negb (isEffectEligibleForSuspend x (mDescriptor m)) then ret false
               else setEffectSuspended_l c type enabled ;;; x <- get_chain c ;; ret (bool_decide (is_Some (mSuspendedEffects x !! key)))
           end
       end) ;;
    when go do (
      x <- get_chain c ;;
      d <- deref (mSuspendedEffects x !! key) ;;
      when bool_decide (sd_mEffect d = 0) do (
        set_suspended c key (set_sd_mEffect e d) ;;;
        setEnabled e false ;;;
        setSuspended e true))
  else
    match mSuspendedEffects x !! key with
    | None => ret tt
    | Some d => set_suspended c key (set_sd_mEffect 0 d) ;;; setSuspended e false
    end.
End effects.
