(* ===== verification/EffectThread.v ===== *)
(** * Effects of a thread

    [libs/audioflinger/Threads.cpp], and the calls of [EffectHandle] in [Effects.cpp]: the
    chains of a thread, how effects are created, connected and given up, and which are
    suspended for others. *)

From Stdlib Require Import ZArith Lia.
From stdpp Require Import base tactics numbers option list gmap.
From S2P Require Import Prelude Words AudioPrimitives Effects.

Section thread.
Context {Env : EffectEnv}.

(** ** Looking up *)

Fixpoint find_chain (sessionId : Z) (l : list Z) : MW (option Z) :=
  match l with
  | [] => ret None
  | c :: l => x <- get_chain c ;; if bool_decide (ec_mSessionId x = sessionId) then ret (Some c) else find_chain sessionId l
  end.
Definition getEffectChain_l (sessionId : Z) : MW (option Z) := w <- getst ;; find_chain sessionId (mEffectChains (w_thread w)).
Definition getEffect_l (sessionId effectId : Z) : MW (option Z) :=
  c <- getEffectChain_l sessionId ;; match c with Some c => getEffectFromId_l c effectId | None => ret None end.

(** ** Suspending effects *)

(** [updateSuspendedSessions_l]; [type] is [None] for all effects. *)
Definition updateSuspendedSessions_l (type : option uuid) (suspend : bool) (sessionId : Z) : MW unit :=
  w <- getst ;;
  let sessions := mSuspendedSessions (w_thread w) in
  let key := match type with Some t => type_key t | None => kKeyForSuspendAll end in
  let put v := on_thread (set_mSuspendedSessions v) in
  if suspend then
    let sessionEffects := default ∅ (sessions !! sessionId) in
    let d := default (SessionDesc 0 (default (Uuid 0 0) type)) (sessionEffects !! key) in
    put (<[sessionId := <[key := set_ssd_mRefCount (s32 (ssd_mRefCount d + 1)) d]> sessionEffects]> sessions)
  else
    match sessions !! sessionId with
    | None => ret tt
    | Some sessionEffects =>
        match sessionEffects !! key with
        | None => ret tt
        | Some d =>
            let count := s32 (ssd_mRefCount d - 1) in
            if bool_decide (count = 0) then
              let sessionEffects := delete key sessionEffects in
              if bool_decide (sessionEffects = ∅) then put (delete sessionId sessions) else put (<[sessionId := sessionEffects]> sessions)
            else put (<[sessionId := <[key := set_ssd_mRefCount count d]> sessionEffects]> sessions)
        end
    end.

Definition thread_setEffectSuspended_l (type : option uuid) (suspend : bool) (sessionId : Z) : MW unit :=
  chain <- getEffectChain_l sessionId ;;
  (match chain with
   | Some c => match type with Some t => setEffectSuspended_l c t suspend | None => setEffectSuspendedAll_l c suspend end
   | None => ret tt
   end) ;;;
  updateSuspendedSessions_l type suspend sessionId.

Fixpoint times (n : nat) (body : MW unit) : MW unit := match n with O => ret tt | S n => body ;;; times n body end.
(** The requests for the session of a chain that is new. *)
Definition checkSuspendOnAddEffectChain_l (c : Z) : MW unit :=
  x <- get_chain c ;;
  w <- getst ;;
  match mSuspendedSessions (w_thread w) !! ec_mSessionId x with
  | None => ret tt
  | Some sessionEffects =>
      each (map_to_list sessionEffects) (λ '(key, d),
        times (Z.to_nat (ssd_mRefCount d))
          (if bool_decide (key = kKeyForSuspendAll) then setEffectSuspendedAll_l c true else setEffectSuspended_l c (ssd_mType d) true))
  end.

Definition checkSuspendOnEffectEnabled (e : Z) (enabled : bool) (sessionId : Z) : MW unit :=
  w <- getst ;;
  (when bool_decide (mType (w_thread w) ≠ RECORD) && bool_decide (sessionId ≠ AUDIO_SESSION_OUTPUT_MIX) && bool_decide (sessionId ≠ AUDIO_SESSION_OUTPUT_STAGE) do
     thread_setEffectSuspended_l None enabled AUDIO_SESSION_OUTPUT_MIX) ;;;
  chain <- getEffectChain_l sessionId ;;
  match chain with Some c => chain_checkSuspendOnEffectEnabled c e enabled | None => ret tt end.

(** ** Chains *)

Fixpoint session_index (session : Z) (l : list Z) (i : nat) : MW nat :=
  match l with
  | [] => ret i
  | c :: l => x <- get_chain c ;; if bool_decide (ec_mSessionId x < session) then ret i else session_index session l (S i)
  end.
Definition incActiveTrackCnt (c : Z) : MW unit :=
  on_chain c (λ x, set_mTailBufferCount (mMaxTailBuffers x) (set_mActiveTrackCnt (s32 (mActiveTrackCnt x + 1)) x)).
Definition decActiveTrackCnt (c : Z) : MW unit := on_chain c (λ x, set_mActiveTrackCnt (s32 (mActiveTrackCnt x - 1)) x).
Definition incTrackCnt (c : Z) : MW unit := on_chain c (λ x, set_mTrackCnt (s32 (mTrackCnt x + 1)) x).
Definition decTrackCnt (c : Z) : MW unit := on_chain c (λ x, set_mTrackCnt (s32 (mTrackCnt x - 1)) x).
(** The main buffer of the tracks of a session. *)
Definition set_main_buffers (session buffer : Z) : MW unit :=
  on_thread (λ t, set_mTracks ((λ r, if bool_decide (et_sessionId r = session) then set_et_mainBuffer buffer r else r) <$> mTracks t) t).
Definition of_session (session : Z) (t : thread) : list etrack := filter (λ r, et_sessionId r = session) (mTracks t).
Definition active_of_session (session : Z) (t : thread) : list etrack := filter (λ r, et_active r = true) (of_session session t).

Definition addEffectChain_l (c : Z) : MW Z :=
  w <- getst ;;
  let t := w_thread w in
  x <- get_chain c ;;
  let session := ec_mSessionId x in
  if bool_decide (mType t = RECORD) then
    if bool_decide (mEffectChains t ≠ []) then ret INVALID_OPERATION
    else
      on_chain c (λ x, set_mOwnInBuffer false (set_mInBuffer 0 x)) ;;;
      on_chain c (set_mOutBuffer 0) ;;;
      checkSuspendOnAddEffectChain_l c ;;;
      on_thread (λ t, set_mEffectChains (mEffectChains t ++ [c]) t) ;;;
      ret NO_ERROR
  else
    let* (buffer, ownsBuffer) :=
      (if bool_decide (session > 0) then
         let* (buffer, ownsBuffer) :=
           (if bool_decide (mType t ≠ DIRECT) then
              a <- new_address ;;
              modify (λ w, set_w_mem (<[a := replicate (Z.to_nat (th_frameCount t * th_channelCount t)) 0]> (w_mem w)) w) ;;;
              ret (a, true)
            else ret (mMixBuffer t, false)) in
         set_main_buffers session buffer ;;;
         each (of_session session t) (λ _, incTrackCnt c) ;;;
         each (active_of_session session t) (λ _, incActiveTrackCnt c) ;;;
         ret (buffer, ownsBuffer)
       else ret (mMixBuffer t, false)) in
    on_chain c (λ x, set_mOwnInBuffer ownsBuffer (set_mInBuffer buffer x)) ;;;
    on_chain c (set_mOutBuffer (mMixBuffer t)) ;;;
    i <- session_index session (mEffectChains t) 0 ;;
    on_thread (λ t, set_mEffectChains (insertAt c i (mEffectChains t)) t) ;;;
    checkSuspendOnAddEffectChain_l c ;;;
    ret NO_ERROR.

Definition removeEffectChain_l (c : Z) : MW nat :=
  w <- getst ;;
  let t := w_thread w in
  if bool_decide (mType t = RECORD) then
    (when bool_decide (length (mEffectChains t) = 1)%nat do on_thread (set_mEffectChains [])) ;;; ret 0%nat
  else
    match indexOf c (mEffectChains t) with
    | None => ret (length (mEffectChains t))
    | Some i =>
        x <- get_chain c ;;
        let session := ec_mSessionId x in
        on_thread (λ t, set_mEffectChains (delete i (mEffectChains t)) t) ;;;
        each (active_of_session session t) (λ _, decActiveTrackCnt c) ;;;
        set_main_buffers session (mMixBuffer t) ;;;
        each (of_session session t) (λ _, decTrackCnt c) ;;;
        ret (pred (length (mEffectChains t)))
    end.

(** ** Auxiliary effects and tracks *)

Definition on_track (i : nat) (f : etrack → etrack) : MW unit := on_thread (λ t, set_mTracks (alter f i (mTracks t)) t).
Definition attachAuxEffect_l (i : nat) (EffectId : Z) : MW Z :=
  if bool_decide (EffectId = 0) then on_track i (λ r, set_et_auxBuffer 0 (set_et_auxEffectId 0 r)) ;;; ret NO_ERROR
  else
    effect <- getEffect_l AUDIO_SESSION_OUTPUT_MIX EffectId ;;
    match effect with
    | None => ret BAD_VALUE
    | Some e =>
        m <- get_module e ;;
        if is_auxiliary (mDescriptor m) then
          on_track i (λ r, set_et_auxBuffer (inBuffer (mConfig m)) (set_et_auxEffectId EffectId r)) ;;; ret NO_ERROR
        else ret INVALID_OPERATION
    end.
Definition detachAuxEffect_l (effectId : Z) : MW unit :=
  on_thread (λ t, set_mTracks ((λ r, if bool_decide (et_auxEffectId r = effectId) then set_et_auxBuffer 0 (set_et_auxEffectId 0 r) else r) <$> mTracks t) t).

(** ** Modules of a thread *)

Definition thread_removeEffect_l (e : Z) : MW unit :=
  m <- get_module e ;;
  w <- getst ;;
  (when is_auxiliary (mDescriptor m) && bool_decide (mType (w_thread w) ≠ RECORD) do detachAuxEffect_l (mId m)) ;;;
  chain <- promote_chain (mChain m) ;;
  match chain with
  | Some _ =>
      n <- removeEffect_l (mChain m) e ;;
      when bool_decide (n = 0)%nat do (
        removeEffectChain_l (mChain m) ;;;
        w <- getst ;;
        when negb (bool_decide (mChain m ∈ mEffectChains (w_thread w))) do EffectChain_delete (mChain m))
  | None => ret tt
  end.

Definition disconnectEffect (e h : Z) (unpinIfLast : bool) : MW unit :=
  n <- removeHandle e h ;;
  when bool_decide (n = 0)%nat do (
    m <- get_module e ;;
    when negb (mPinned m) || unpinIfLast do (
      thread_removeEffect_l e ;;;
      ask_policy (unregisterEffect (mId m)) ;;; ret tt)).

Definition setup_effect (e : Z) : MW unit :=
  w <- getst ;;
  let t := w_thread w in
  setDevice e (mOutDevice t) ;;; setDevice e (mInDevice t) ;;; setMode e (mMode t) ;;; setAudioSource e (mAudioSource t) ;;; ret tt.

(** [EffectHandle::EffectHandle]. *)
Definition EffectHandle_new (e : Z) (client effectClient : bool) (priority : Z) : MW Z :=
  h <- new_address ;;
  modify (λ w, set_w_handles (<[h := Handle e effectClient client priority false false false []]> (w_handles w)) w) ;;;
  ret h.

(** The effect of [createEffect_l] that is there or is made, or the status of the failure. *)
Definition obtain_effect (c : Z) (chainCreated : bool) (desc : descriptor) (sessionId : Z) : MW (Z + Z) :=
  effect <- (if chainCreated then ret None else getEffectFromDesc_l c desc) ;;
  match effect with
  | Some e => ret (inl e)
  | None =>
      w <- getst ;;
      let id := w_id w in
      modify (set_w_id (id + 1)) ;;;
      status <- ask_policy (registerEffect desc sessionId id) ;;
      if bool_decide (status ≠ NO_ERROR) then ret (inr status)
      else
        e <- EffectModule_new c desc id sessionId ;;
        m <- get_module e ;;
        status <- (if bool_decide (mStatus m ≠ NO_ERROR) then ret (mStatus m) else addEffect_l c e) ;;
        if bool_decide (status ≠ NO_ERROR) then
          ask_policy (unregisterEffect id) ;;;
          EffectModule_delete e ;;;
          ret (inr status)
        else setup_effect e ;;; ret (inl e)
  end.
(** The status; the handle and whether the effect is enabled. *)
Definition createEffect_l (client effectClient : bool) (priority sessionId : Z) (desc : descriptor) : MW (Z * option (Z * bool)) :=
  w <- getst ;;
  let t := w_thread w in
  if bool_decide (th_initCheck t ≠ NO_ERROR) then ret (th_initCheck t, None)
  else if bool_decide (sessionId = AUDIO_SESSION_OUTPUT_MIX) && bool_decide (mType t ≠ MIXER) then ret (BAD_VALUE, None)
  else if bool_decide (mType t = RECORD) && bool_decide (effect_type desc ≠ EFFECT_FLAG_TYPE_PRE_PROC)
       || bool_decide (mType t ≠ RECORD) && bool_decide (effect_type desc = EFFECT_FLAG_TYPE_PRE_PROC) then ret (BAD_VALUE, None)
  else
    chain <- getEffectChain_l sessionId ;;
    c <- (match chain with Some c => ret c | None => c <- EffectChain_new sessionId ;; addEffectChain_l c ;;; ret c end) ;;
    let chainCreated := bool_decide (chain = None) in
    effect <- obtain_effect c chainCreated desc sessionId ;;
    r <- (match effect with
      | inl e =>
          h <- EffectHandle_new e client effectClient priority ;;
          status <- addHandle e h ;;
          m <- get_module e ;;
          ret (status, Some (h, isEnabled m))
      | inr status => (when chainCreated do (removeEffectChain_l c ;;; ret tt)) ;;; ret (status, None)
      end) ;;
    w <- getst ;;
    (when negb (bool_decide (c ∈ mEffectChains (w_thread w))) do EffectChain_delete c) ;;;
    ret r.

(** ** The calls on a handle *)

(** The last reference to a module may be gone. *)
Definition release_module (e : Z) : MW unit :=
  w <- getst ;;
  if bool_decide (map_Exists (λ _ x, mEffect x = e) (w_handles w)) || bool_decide (map_Exists (λ _ x, e ∈ mEffects x) (w_chains w)) then ret tt
  else EffectModule_delete e.

Definition on_its_thread (m : MW unit) : MW unit := t <- promote_thread ;; match t with Some _ => m | None => ret tt end.

Definition handle_enable (h : Z) : MW Z :=
  x <- get_handle h ;;
  if negb (mHasControl x) then ret INVALID_OPERATION
  else if bool_decide (mEffect x = 0) then ret DEAD_OBJECT
  else if mEnabled x then ret NO_ERROR
  else
    on_handle h (set_mEnabled true) ;;;
    m <- get_module (mEffect x) ;;
    on_its_thread (checkSuspendOnEffectEnabled (mEffect x) true (mSessionId m)) ;;;
    m <- get_module (mEffect x) ;;
    if mSuspended m then ret NO_ERROR
    else
      status <- setEnabled (mEffect x) true ;;
      (when bool_decide (status ≠ NO_ERROR) do (
         on_its_thread (checkSuspendOnEffectEnabled (mEffect x) false (mSessionId m)) ;;;
         on_handle h (set_mEnabled false))) ;;;
      ret status.

Definition handle_disable (h : Z) : MW Z :=
  x <- get_handle h ;;
  if negb (mHasControl x) then ret INVALID_OPERATION
  else if bool_decide (mEffect x = 0) then ret DEAD_OBJECT
  else if negb (mEnabled x) then ret NO_ERROR
  else
    on_handle h (set_mEnabled false) ;;;
    m <- get_module (mEffect x) ;;
    if mSuspended m then ret NO_ERROR
    else
      status <- setEnabled (mEffect x) false ;;
      on_its_thread (checkSuspendOnEffectEnabled (mEffect x) false (mSessionId m)) ;;;
      ret status.

Definition handle_disconnect (h : Z) (unpinIfLast : bool) : MW unit :=
  x <- get_handle h ;;
  if bool_decide (mEffect x = 0) then ret tt
  else
    let e := mEffect x in
    on_its_thread (disconnectEffect e h unpinIfLast) ;;;
    m <- get_module e ;;
    x <- get_handle h ;;
    (when bool_decide (mHandles m = []) && mEnabled x do on_its_thread (checkSuspendOnEffectEnabled e false (mSessionId m))) ;;;
    on_handle h (set_mEffect 0) ;;;
    release_module e ;;;
    on_handle h (set_eh_client false).
(** The destructor. *)
Definition EffectHandle_delete (h : Z) : MW unit :=
  on_handle h (set_mDestroyed true) ;;;
  handle_disconnect h false ;;;
  modify (λ w, set_w_handles (delete h (w_handles w)) w).

(** The commands that are not about parameters in shared memory. *)
Inductive handle_cmd := HC_ENABLE | HC_DISABLE | HC_OTHER (get_param : bool) (cmdCode : Z) (cmdData : list Z).
Definition handle_command (h : Z) (cmd : handle_cmd) : MW Z :=
  x <- get_handle h ;;
  if negb (mHasControl x) && negb (match cmd with HC_OTHER true _ _ => true | _ => false end) then ret INVALID_OPERATION
  else if bool_decide (mEffect x = 0) then ret DEAD_OBJECT
  else if negb (eh_client x) then ret INVALID_OPERATION
  else match cmd with
  | HC_ENABLE => handle_enable h
  | HC_DISABLE => handle_disable h
  | HC_OTHER get_param cmdCode cmdData => module_command (mEffect x) get_param cmdCode cmdData
  end.
End thread.
