(* ===== verification/EffectsControl.v ===== *)
(** * Who controls an effect

    The rules of access to the objects of [Effects], and the handles of a module: the one
    with the highest priority, and of those the latest, has control. *)

From Stdlib Require Import ZArith Lia.
From stdpp Require Import base tactics numbers option list gmap sorting.
From S2P Require Import Prelude Words AudioPrimitives Effects.

(** ** Access *)

Lemma get_module_eq w e m : w_modules w !! e = Some m → get_module e w = Ret m w.
Proof. intros H. unfold get_module. by rewrite bind_getst, H. Qed.
Lemma get_handle_eq w h x : w_handles w !! h = Some x → get_handle h w = Ret x w.
Proof. intros H. unfold get_handle. by rewrite bind_getst, H. Qed.
Lemma get_chain_eq w c x : w_chains w !! c = Some x → get_chain c w = Ret x w.
Proof. intros H. unfold get_chain. by rewrite bind_getst, H. Qed.
Lemma on_module_eq w e f m : w_modules w !! e = Some m → on_module e f w = Ret tt (set_w_modules (<[e := f m]> (w_modules w)) w).
Proof. intros H. unfold on_module. by rewrite (bind_of _ (get_module_eq _ _ _ H)). Qed.
Lemma on_handle_eq w h f x : w_handles w !! h = Some x → on_handle h f w = Ret tt (set_w_handles (<[h := f x]> (w_handles w)) w).
Proof. intros H. unfold on_handle. by rewrite (bind_of _ (get_handle_eq _ _ _ H)). Qed.
Lemma on_chain_eq w c f x : w_chains w !! c = Some x → on_chain c f w = Ret tt (set_w_chains (<[c := f x]> (w_chains w)) w).
Proof. intros H. unfold on_chain. by rewrite (bind_of _ (get_chain_eq _ _ _ H)). Qed.

Lemma wp_get_module w e m (Q : EffectModule → world → Prop) : w_modules w !! e = Some m → Q m w → wp (get_module e) Q w.
Proof. intros H. apply wp_det, get_module_eq, H. Qed.
Lemma wp_on_module w e f m (Q : unit → world → Prop) : w_modules w !! e = Some m → Q tt (set_w_modules (<[e := f m]> (w_modules w)) w) → wp (on_module e f) Q w.
Proof. intros H. apply wp_det, on_module_eq, H. Qed.
Lemma wp_get_handle w h x (Q : EffectHandle → world → Prop) : w_handles w !! h = Some x → Q x w → wp (get_handle h) Q w.
Proof. intros H. apply wp_det, get_handle_eq, H. Qed.
Lemma wp_on_handle w h f x (Q : unit → world → Prop) : w_handles w !! h = Some x → Q tt (set_w_handles (<[h := f x]> (w_handles w)) w) → wp (on_handle h f) Q w.
Proof. intros H. apply wp_det, on_handle_eq, H. Qed.
Lemma wp_get_chain w c x (Q : EffectChain → world → Prop) : w_chains w !! c = Some x → Q x w → wp (get_chain c) Q w.
Proof. intros H. apply wp_det, get_chain_eq, H. Qed.
Lemma wp_on_chain w c f x (Q : unit → world → Prop) : w_chains w !! c = Some x → Q tt (set_w_chains (<[c := f x]> (w_chains w)) w) → wp (on_chain c f) Q w.
Proof. intros H. apply wp_det, on_chain_eq, H. Qed.
(** The components of a state that has been changed in steps. *)
Ltac see := cbn [w_modules w_handles w_chains w_mem w_thread w_next w_id w_policy set_w_modules set_w_handles set_w_chains set_w_mem set_w_thread set_w_next set_w_id set_w_policy].
Ltac look := see; first [apply lookup_insert_eq | eassumption | rewrite lookup_insert_ne by (done || congruence); first [apply lookup_insert_eq | eassumption]].

(** An object that has just been stored. *)
Lemma get_module_again w t e m : get_module e (set_w_modules (<[e := m]> t) w) = Ret m (set_w_modules (<[e := m]> t) w).
Proof. apply get_module_eq, lookup_insert_eq. Qed.
Lemma on_module_again w t e m f : on_module e f (set_w_modules (<[e := m]> t) w) = Ret tt (set_w_modules (<[e := f m]> t) w).
Proof. rewrite (on_module_eq _ e f m (lookup_insert_eq _ _ _)). cbn [w_modules set_w_modules]. by rewrite insert_insert_eq. Qed.
Lemma get_handle_again w t h x : get_handle h (set_w_handles (<[h := x]> t) w) = Ret x (set_w_handles (<[h := x]> t) w).
Proof. apply get_handle_eq, lookup_insert_eq. Qed.
Lemma on_handle_again w t h x f : on_handle h f (set_w_handles (<[h := x]> t) w) = Ret tt (set_w_handles (<[h := f x]> t) w).
Proof. rewrite (on_handle_eq _ h f x (lookup_insert_eq _ _ _)). cbn [w_handles set_w_handles]. by rewrite insert_insert_eq. Qed.
Lemma get_chain_again w t c x : get_chain c (set_w_chains (<[c := x]> t) w) = Ret x (set_w_chains (<[c := x]> t) w).
Proof. apply get_chain_eq, lookup_insert_eq. Qed.
Lemma on_chain_again w t c x f : on_chain c f (set_w_chains (<[c := x]> t) w) = Ret tt (set_w_chains (<[c := f x]> t) w).
Proof. rewrite (on_chain_eq _ c f x (lookup_insert_eq _ _ _)). cbn [w_chains set_w_chains]. by rewrite insert_insert_eq. Qed.

Lemma on_module_handles w t e f m : w_modules w !! e = Some m → on_module e f (set_w_handles t w) = Ret tt (set_w_modules (<[e := f m]> (w_modules w)) (set_w_handles t w)).
Proof. intros H. exact (on_module_eq (set_w_handles t w) e f m H). Qed.

Lemma set_w_handles_twice a b w : set_w_handles a (set_w_handles b w) = set_w_handles a w.
Proof. done. Qed.

(** The handle after [setControl]. *)
Definition controlled (hasControl signal enabled : bool) (x : EffectHandle) : EffectHandle :=
  let x := set_mEnabled enabled (set_mHasControl hasControl x) in if signal then tell (controlStatusChanged hasControl) x else x.
Lemma setControl_eq w h a b c x : w_handles w !! h = Some x → setControl h a b c w = Ret tt (set_w_handles (<[h := controlled a b c x]> (w_handles w)) w).
Proof.
  intros H. unfold setControl. rewrite (bind_of _ (on_handle_eq w h _ x H)), (bind_of _ (on_handle_again _ _ _ _ _)).
  unfold controlled. destruct b; [|done]. by rewrite on_handle_again.
Qed.

(** ** The list of handles *)

(** The handles at some addresses. *)
Definition handles_in (t : gmap Z EffectHandle) (l : list Z) (xs : list EffectHandle) : Prop := Forall2 (λ h x, t !! h = Some x) l xs.
Definition handles_at (w : world) : list Z → list EffectHandle → Prop := handles_in (w_handles w).

(** Higher priorities first; the first one, and only it, has control. *)
Definition in_control (xs : list EffectHandle) : Prop :=
  StronglySorted (λ x y, mPriority y <= mPriority x) xs ∧ Forall (λ x, mDestroyed x = false) xs ∧
  match xs with [] => True | x :: xs => mHasControl x = true ∧ Forall (λ y, mHasControl y = false) xs end.
Definition control_ok (w : world) (e : Z) : Prop :=
  ∃ m xs, w_modules w !! e = Some m ∧ NoDup (mHandles m) ∧ handles_at w (mHandles m) xs ∧ in_control xs.

Lemma handles_in_insert t l xs h x : handles_in t l xs → h ∉ l → handles_in (<[h := x]> t) l xs.
Proof.
  unfold handles_in. induction 1 as [|k y l xs Hk HF IH]; intros Hh; constructor; [rewrite lookup_insert_ne; [done|set_solver]|apply IH; set_solver].
Qed.

Lemma scan_handles_eq w prio l xs i control : handles_at w l xs → Forall (λ x, mDestroyed x = false) xs →
  ∃ l1 l2 xs1 xs2, l = l1 ++ l2 ∧ xs = xs1 ++ xs2 ∧ handles_at w l1 xs1 ∧ handles_at w l2 xs2 ∧
    Forall (λ x, prio < mPriority x) xs1 ∧ match xs2 with [] => True | x :: _ => mPriority x <= prio end ∧
    scan_handles prio l i control w = Ret ((i + length l1)%nat, match control with Some c => Some c | None => head l end) w.
Proof.
  intros HF. revert i control. induction HF as [|h x l xs Hh HF IH]; intros i control HD.
  - exists [], [], [], []. repeat split; try constructor. cbn. rewrite Nat.add_0_r. by destruct control.
  - apply Forall_cons in HD as [Hx HD]. cbn [scan_handles]. rewrite (bind_of _ (get_handle_eq _ _ _ Hh)), Hx.
    case_bool_decide as Hp.
    + exists [], (h :: l), [], (x :: xs). repeat split; try constructor; try done. cbn. rewrite Nat.add_0_r. by destruct control.
    + destruct (IH (S i) (match control with None => Some h | _ => control end) HD) as (l1 & l2 & xs1 & xs2 & -> & -> & H1 & H2 & H3 & H4 & H5).
      exists (h :: l1), l2, (x :: xs1), xs2. repeat split; try done; [by constructor|constructor; [lia|done]|].
      rewrite H5. cbn. rewrite Nat.add_succ_r. by destruct control.
Qed.

Lemma first_valid_eq w l xs : handles_at w l xs → Forall (λ x, mDestroyed x = false) xs → first_valid l w = Ret (head l) w.
Proof. destruct 1 as [|h x l xs Hh HF]; [done|]. intros [Hx _]%Forall_cons. cbn. by rewrite (bind_of _ (get_handle_eq _ _ _ Hh)), Hx. Qed.

(** ** [addHandle] *)

Definition beats (prio : Z) (xs : list EffectHandle) : bool := match xs with [] => true | x :: _ => bool_decide (mPriority x <= prio) end.
(** The handles before and after: the new one, if it takes control, is enabled when the one that had it is;
    that one is told. *)
Definition taken (x : EffectHandle) (xs : list EffectHandle) : list EffectHandle :=
  match xs with
  | [] => [controlled true false false x]
  | y :: ys => controlled true false (mEnabled y) x :: controlled false true (mEnabled y) y :: ys
  end.
Fixpoint place_handle (x : EffectHandle) (xs : list EffectHandle) : list EffectHandle :=
  match xs with
  | [] => [x]
  | y :: ys => if bool_decide (mPriority y <= mPriority x) then x :: y :: ys else y :: place_handle x ys
  end.
Definition added (x : EffectHandle) (xs : list EffectHandle) : list EffectHandle := if beats (mPriority x) xs then taken x xs else place_handle x xs.

Lemma place_handle_app x xs1 xs2 : Forall (λ y, mPriority x < mPriority y) xs1 → match xs2 with [] => True | y :: _ => mPriority y <= mPriority x end →
  place_handle x (xs1 ++ xs2) = xs1 ++ x :: xs2.
Proof.
  induction 1 as [|y xs1 Hy HF IH]; intros H2; cbn.
  - destruct xs2; [done|]. cbn. by rewrite bool_decide_true.
  - rewrite bool_decide_false by lia. by rewrite IH.
Qed.
Lemma controlled_priority a b c x : mPriority (controlled a b c x) = mPriority x.
Proof. unfold controlled, tell. destruct b; [|done]. by destruct (eh_effectClient _). Qed.
Lemma controlled_destroyed a b c x : mDestroyed (controlled a b c x) = mDestroyed x.
Proof. unfold controlled, tell. destruct b; [|done]. by destruct (eh_effectClient _). Qed.
Lemma controlled_control a b c x : mHasControl (controlled a b c x) = a.
Proof. unfold controlled, tell. destruct b; [|done]. by destruct (eh_effectClient _). Qed.

(** The order does not depend on more than the priorities. *)
Lemma sorted_place x xs : StronglySorted (λ x y, mPriority y <= mPriority x) xs → StronglySorted (λ x y, mPriority y <= mPriority x) (place_handle x xs).
Proof.
  induction 1 as [|y ys HS IH HF]; cbn; [repeat constructor|]. case_bool_decide as Hp.
  - constructor; [by constructor|]. constructor; [done|]. eapply Forall_impl; [exact HF|]. cbn. lia.
  - constructor; [done|]. clear IH HS. induction HF as [|z zs Hz HF IH]; cbn; [constructor; [lia|constructor]|]. case_bool_decide; constructor; try done; [lia|by constructor].
Qed.
Lemma added_in_control x xs : in_control xs → mDestroyed x = false → mHasControl x = false → in_control (added x xs).
Proof.
  intros (HS & HD & HC) Hx Hc. unfold added. destruct (beats (mPriority x) xs) eqn:Hb.
  - destruct xs as [|y ys]; cbn [taken].
    + split; [repeat constructor|]. split; [constructor; [by rewrite controlled_destroyed|constructor]|]. split; [apply controlled_control|constructor].
    + apply bool_decide_eq_true in Hb. inversion_clear HS as [|? ? HS' HF]. apply Forall_cons in HD as [Hy HD]. destruct HC as [_ HC]. split; [|split].
      * constructor; [constructor; [done|]|constructor].
        -- eapply Forall_impl; [exact HF|]. intros z. cbv beta. by rewrite controlled_priority.
        -- by rewrite !controlled_priority.
        -- eapply Forall_impl; [exact HF|]. intros z. cbv beta. rewrite controlled_priority. lia.
      * constructor; [by rewrite controlled_destroyed|]. constructor; [by rewrite controlled_destroyed|done].
      * split; [apply controlled_control|]. constructor; [apply controlled_control|done].
  - destruct xs as [|y ys]; [done|]. split; [by apply sorted_place|]. apply bool_decide_eq_false in Hb. cbn [place_handle]. rewrite bool_decide_false by done.
    destruct HC as [Hy HC]. apply Forall_cons in HD as [Hyd HD]. split; [constructor; [done|]|split; [done|]].
    + clear -HD Hx. induction HD as [|z zs Hz HD IH]; cbn; [by repeat constructor|]. case_bool_decide; by repeat constructor.
    + clear -HC Hc. induction HC as [|z zs Hz HC IH]; cbn; [by repeat constructor|]. case_bool_decide; by repeat constructor.
Qed.

Lemma addHandle_eq w e m xs h x : w_modules w !! e = Some m → NoDup (mHandles m) → handles_at w (mHandles m) xs → in_control xs →
  w_handles w !! h = Some x → h ∉ mHandles m →
  ∃ w' l, addHandle e h w = Ret (if beats (mPriority x) xs then NO_ERROR else ALREADY_EXISTS) w' ∧
    w_modules w' = <[e := set_mHandles l m]> (w_modules w) ∧ l ≡ₚ h :: mHandles m ∧ handles_at w' l (added x xs).
Proof.
  intros Hm. remember (mHandles m) as lm eqn:Elm. intros Hnd Hat (HS & HD & HC) Hx Hh.
  destruct (scan_handles_eq w (mPriority x) lm xs 0 None Hat HD) as (l1 & l2 & xs1 & xs2 & El & Exs & H1 & H2 & Hb & Hle & Hscan).
  unfold addHandle. rewrite (bind_of _ (get_module_eq _ _ _ Hm)), (bind_of _ (get_handle_eq _ _ _ Hx)), <- Elm, (bind_of _ Hscan). cbn [Nat.add].
  destruct l1 as [|k l1].
  - inversion H1; subst xs1. cbn in El, Exs. subst l2 xs2. cbn [length]. rewrite bool_decide_true by done.
    assert (beats (mPriority x) xs = true) as Hbe by (destruct xs; [done|]; by apply bool_decide_eq_true). unfold added. rewrite Hbe.
    destruct H2 as [|k y l ys Hk H2].
    + cbn [head]. run. rewrite (bind_of _ (setControl_eq _ h _ _ _ x Hx)). run. rewrite (bind_of _ (on_module_handles _ _ e _ m Hm)), <- Elm. eexists _, _.
      split; [done|]. split; [done|]. split; [done|]. constructor; [apply lookup_insert_eq|constructor].
    + cbn [head]. apply not_elem_of_cons in Hh as [Hne Hh]. apply NoDup_cons in Hnd as [Hkn Hnd]. run. rewrite (bind_of _ (get_handle_eq _ _ _ Hk)). run.
      rewrite (bind_of _ (setControl_eq _ k _ _ _ y Hk)). run.
      rewrite (bind_of _ (setControl_eq (set_w_handles _ w) h _ _ _ x ltac:(rewrite <- Hx; by apply lookup_insert_ne))). run. cbn [w_handles set_w_handles].
      rewrite set_w_handles_twice, (bind_of _ (on_module_handles _ _ e _ m Hm)), <- Elm. eexists _, _. split; [done|]. split; [done|]. split; [done|].
      constructor; [apply lookup_insert_eq|]. constructor; [etransitivity; [by apply lookup_insert_ne|apply lookup_insert_eq]|].
      by apply handles_in_insert; [apply handles_in_insert|].
  - rewrite bool_decide_false by done. run. rewrite (bind_of _ (on_module_eq _ e _ m Hm)), <- Elm. inversion H1 as [|? y ? xs1' Hk H1']; subst. apply Forall_cons in Hb as [Hy Hb].
    assert (beats (mPriority x) (y :: xs1' ++ xs2) = false) as Hbe by (apply bool_decide_eq_false; lia). unfold added. cbn [app]. rewrite Hbe.
    eexists _, _. split; [done|]. split; [done|]. rewrite El. unfold insertAt. rewrite take_app_length, drop_app_length. split; [symmetry; apply Permutation_middle|].
    change (y :: xs1' ++ xs2) with ((y :: xs1') ++ xs2). rewrite (place_handle_app x (y :: xs1') xs2) by (done || by constructor). apply Forall2_app; [done|]. by constructor.
Qed.

(** ** [removeHandle] *)

Lemma indexOf_lookup x l i : NoDup l → l !! i = Some x → indexOf x l = Some i.
Proof.
  intros Hnd. revert i. induction Hnd as [|y l Hy Hnd IH]; intros i; [done|]. destruct i as [|i]; cbn.
  - intros [= ->]. by rewrite bool_decide_true.
  - intros Hi. rewrite bool_decide_false; [by rewrite (IH i Hi)|]. intros ->. by apply Hy, list_elem_of_lookup_2 with i.
Qed.

(** The handles that stay: when the first one goes, the next in line takes control, as it was
    enabled, and is told. *)
Definition removed (i : nat) (xs : list EffectHandle) : list EffectHandle :=
  match i, xs with
  | O, x :: y :: ys => controlled true true (mEnabled x) y :: ys
  | _, _ => delete i xs
  end.
Lemma removed_in_control i x xs : in_control xs → xs !! i = Some x → in_control (removed i xs).
Proof.
  intros (HS & HD & HC) Hi. destruct i as [|i].
  - destruct xs as [|x' [|y ys]]; [done|by repeat split; constructor|]. cbn [removed]. apply Forall_cons in HD as [_ HD]. apply Forall_cons in HD as [Hy HD].
    inversion_clear HS as [|? ? HS' _]. inversion_clear HS' as [|? ? HS'' HF]. destruct HC as [_ HC]. apply Forall_cons in HC as [_ HC]. split; [|split].
    + constructor; [done|]. eapply Forall_impl; [exact HF|]. intros z. cbv beta. by rewrite controlled_priority.
    + constructor; [by rewrite controlled_destroyed|done].
    + split; [apply controlled_control|done].
  - destruct xs as [|y ys]; [done|]. cbn [removed delete list_delete]. split; [|split].
    + clear -HS. inversion_clear HS as [|? ? HS' HF]. constructor.
      * clear HF. revert i. induction HS' as [|z zs HS' IH HF]; intros i; [destruct i; constructor|]. destruct i as [|i]; [done|]. constructor; [apply IH|]. by apply Forall_delete.
      * by apply Forall_delete.
    + apply Forall_cons in HD as [Hy HD]. constructor; [done|]. by apply Forall_delete.
    + destruct HC as [Hy HC]. split; [done|]. by apply Forall_delete.
Qed.

Lemma list_delete_insert {A} (i : nat) (x : A) (l : list A) : delete i (<[i := x]> l) = delete i l.
Proof. revert i. induction l as [|y l IH]; intros [|i]; [done..|]. cbn. by rewrite IH. Qed.
(** The handles after one of them has been marked. *)
Lemma handles_mark w l xs i h x y : NoDup l → handles_at w l xs → l !! i = Some h → xs !! i = Some x →
  handles_at (set_w_handles (<[h := y]> (w_handles w)) w) l (<[i := y]> xs).
Proof.
  unfold handles_at. intros Hnd HF. revert i. induction HF as [|k z l xs Hk HF IH]; intros i Hi Hx; [done|]. apply NoDup_cons in Hnd as [Hn Hnd].
  destruct i as [|i]; cbn in Hi, Hx |- *.
  - injection Hi as ->. constructor; [apply lookup_insert_eq|]. by apply handles_in_insert.
  - constructor; [|by apply IH]. rewrite lookup_insert_ne; [done|]. intros ->. by apply Hn, list_elem_of_lookup_2 with i.
Qed.

Definition closed (m : EffectModule) : EffectModule := if bool_decide (mHandles m = []) && negb (mPinned m) then set_mState DESTROYED m else m.
(** The handle that goes may have been marked by its destructor. *)
Lemma removeHandle_eq w e m xs h i x b : w_modules w !! e = Some m → NoDup (mHandles m) →
  handles_at w (mHandles m) (<[i := set_mDestroyed b x]> xs) → in_control xs → mHandles m !! i = Some h → xs !! i = Some x →
  ∃ w', removeHandle e h w = Ret (pred (length (mHandles m))) w' ∧
    w_modules w' = <[e := closed (set_mHandles (delete i (mHandles m)) m)]> (w_modules w) ∧ handles_at w' (delete i (mHandles m)) (removed i xs).
Proof.
  intros Hm. remember (mHandles m) as lm eqn:Elm. intros Hnd Hat (HS & HD & HC) Hi Hxi.
  unfold removeHandle. rewrite (bind_of _ (get_module_eq _ _ _ Hm)), <- Elm, (indexOf_lookup h lm i Hnd Hi), (bind_of _ (on_module_eq _ e _ m Hm)), <- Elm.
  set (m1 := set_mHandles (delete i lm) m). set (w1 := set_w_modules (<[e := m1]> (w_modules w)) w).
  assert (∃ t, (when bool_decide (i = 0)%nat do (c <- controlHandle_l e ;; match c with Some c => x <- get_handle h ;; setControl c true true (mEnabled x) | None => ret tt end)) w1 =
    Ret tt (set_w_handles t w1) ∧ handles_in t (delete i lm) (removed i xs)) as (t & Hrun & Ht).
  { destruct i as [|i].
    - rewrite bool_decide_true by done. destruct xs as [|x0 ys]; [done|]. injection Hxi as ->. cbn [insert list_insert] in Hat.
      destruct lm as [|h0 l]; [done|]. injection Hi as ->. apply Forall2_cons in Hat as [Hk Hat].
      unfold controlHandle_l. unfold w1. rewrite bind_bind, (bind_of _ (get_module_again _ _ _ _)). change (mHandles m1) with l.
      apply Forall_cons in HD as [_ HD]. rewrite (bind_of _ (first_valid_eq (set_w_modules (<[e := m1]> (w_modules w)) w) l ys Hat HD)).
      destruct Hat as [|k2 z l zs Hk2 Hat]; cbn [head].
      + exists (w_handles w). split; [by destruct w|constructor].
      + rewrite (bind_of _ (get_handle_eq (set_w_modules (<[e := m1]> (w_modules w)) w) h _ Hk)). change (mEnabled (set_mDestroyed b x)) with (mEnabled x).
        rewrite (setControl_eq (set_w_modules (<[e := m1]> (w_modules w)) w) k2 _ _ _ z Hk2).
        eexists. split; [done|]. cbn. constructor; [apply lookup_insert_eq|]. apply NoDup_cons in Hnd as [_ Hnd]. apply NoDup_cons in Hnd as [Hk2n _]. by apply handles_in_insert.
    - rewrite bool_decide_false by done. exists (w_handles w). split; [by destruct w|].
      assert (removed (S i) xs = delete (S i) (<[S i := set_mDestroyed b x]> xs)) as ->.
      { rewrite list_delete_insert. by destruct xs. }
      by apply Forall2_delete. }
  rewrite (bind_of _ Hrun). unfold w1. rewrite (bind_of _ (get_module_eq (set_w_handles t (set_w_modules (<[e := m1]> (w_modules w)) w)) e m1 (lookup_insert_eq _ _ _))).
  unfold closed. fold m1. destruct (bool_decide _ && _).
  - rewrite (bind_of _ (on_module_eq (set_w_handles t (set_w_modules (<[e := m1]> (w_modules w)) w)) e _ m1 (lookup_insert_eq _ _ _))). eexists. split.
    + cbn [mHandles m1 set_mHandles]. rewrite length_delete by (by eexists). by rewrite <- Nat.sub_1_r.
    + split; [|done]. cbn [w_modules set_w_modules set_w_handles]. by rewrite insert_insert_eq.
  - run. eexists. split; [cbn [mHandles m1 set_mHandles]; rewrite length_delete by (by eexists); by rewrite <- Nat.sub_1_r|done].
Qed.
