(* ===== verification/EffectsChain.v ===== *)
(** * The order and the buffers of a chain

    [addEffect_l] and [removeEffect_l] of [Effects]: auxiliary effects come first, then the
    others by what they ask for; each reads what it should, and the last one writes to
    the output of the chain. *)

From Stdlib Require Import ZArith Lia.
From stdpp Require Import base tactics numbers option list gmap sorting.
From S2P Require Import Prelude Words AudioPrimitives Effects EffectsControl.

(** ** The order *)

Definition wants (p : Z) (d : descriptor) : bool := is_insert d && bool_decide (insert_pref d = p).
Definition exclusive (d : descriptor) : bool := wants EFFECT_FLAG_INSERT_EXCLUSIVE d.
(** Where an insert effect wants to be. *)
Definition rank (d : descriptor) : nat :=
  if bool_decide (insert_pref d = EFFECT_FLAG_INSERT_FIRST) then 0 else if bool_decide (insert_pref d = EFFECT_FLAG_INSERT_LAST) then 2 else 1.
Notation inserts := (filter (λ d, is_insert d = true)).
Definition ordered (ds : list descriptor) : Prop :=
  StronglySorted (λ a b, is_auxiliary b = true → is_auxiliary a = true) ds ∧
  StronglySorted (λ a b, rank a ≤ rank b)%nat (inserts ds) ∧
  ∀ d, d ∈ inserts ds → exclusive d = true → inserts ds = [d].

Lemma insert_not_auxiliary d : is_insert d = true → is_auxiliary d = false.
Proof. unfold is_insert, is_auxiliary. rewrite bool_decide_eq_true. intros ->. done. Qed.

(** What the loop of [addEffect_l] finds. *)
Lemma scan_chain_spec pref size l : ∀ i idx f la idx' f' la', (i + length l ≤ size)%nat →
  scan_chain pref size l i idx f la = Some (idx', f', la') →
  (∀ d, d ∈ inserts l → pref ≠ EFFECT_FLAG_INSERT_EXCLUSIVE ∧ exclusive d = false) ∧
  (idx ≠ size → idx' = idx) ∧
  (idx = size → idx' = size ∧ inserts l = [] ∨ ∃ j d, idx' = (i + j)%nat ∧ l !! j = Some d ∧ is_insert d = true ∧ inserts (take j l) = []) ∧
  (f' = f ∧ (∀ d, d ∈ l → wants EFFECT_FLAG_INSERT_FIRST d = false) ∨
   ∃ j d, f' = Some (i + j)%nat ∧ l !! j = Some d ∧ wants EFFECT_FLAG_INSERT_FIRST d = true ∧ ∀ d, d ∈ drop (S j) l → wants EFFECT_FLAG_INSERT_FIRST d = false) ∧
  (la ≠ None → la' = la) ∧
  (la = None → la' = None ∧ (∀ d, d ∈ l → wants EFFECT_FLAG_INSERT_LAST d = false) ∨ ∃ j d, la' = Some (i + j)%nat ∧ l !! j = Some d ∧ wants EFFECT_FLAG_INSERT_LAST d = true).
Proof.
  induction l as [|d l IH]; intros i idx f la idx' f' la' Hle; cbn [scan_chain length] in *.
  - intros [= <- <- <-]. repeat split; try done; [set_solver|set_solver|..]; intros; left; set_solver.
  - destruct (is_insert d) eqn:Hd.
    + destruct (bool_decide (pref = _) || _) eqn:Hx; [done|]. apply orb_false_iff in Hx as [Hx1 Hx2]. apply bool_decide_eq_false in Hx1, Hx2.
      intros Hs. apply IH in Hs as (H1 & H2 & H3 & H4 & H5 & H6); [|lia]. split; [|split; [|split; [|split; [|split]]]].
      * intros d'. rewrite filter_cons_True by done. intros [->|Hd']%elem_of_cons; [|by apply H1]. split; [done|]. unfold exclusive, wants. rewrite Hd. by apply bool_decide_eq_false.
      * intros Hi. rewrite bool_decide_false in H2 by done. by apply H2.
      * intros ->. right. rewrite bool_decide_true in H2 by done. exists 0%nat, d. rewrite H2 by lia. split; [lia|]. done.
      * destruct H4 as [(-> & H4)|(j & d' & -> & Hj & Hw & H4)].
        -- destruct (wants EFFECT_FLAG_INSERT_FIRST d) eqn:Hw; unfold wants in Hw; rewrite Hd in Hw.
           ++ right. exists 0%nat, d. cbn in Hw. rewrite Hw. split; [by rewrite Nat.add_0_r|]. split; [done|]. split; [unfold wants; by rewrite Hd, Hw|done].
           ++ left. cbn in Hw. rewrite Hw. split; [done|]. intros d' [->|Hd']%elem_of_cons; [unfold wants; by rewrite Hd|by apply H4].
        -- right. exists (S j), d'. split; [f_equal; lia|done].
      * intros Hla. destruct la as [k|]; [|done]. rewrite (bool_decide_false (Some k = None)), andb_false_r in H5 by done. by apply H5.
      * intros ->. rewrite (bool_decide_true (None = None)), andb_true_r in H5, H6 by done. case_bool_decide as Hl.
        -- right. exists 0%nat, d. rewrite H5 by done. split; [f_equal; lia|]. split; [done|]. unfold wants. rewrite Hd. by apply bool_decide_eq_true.
        -- destruct (H6 eq_refl) as [(-> & H7)|(j & d' & -> & Hj & Hw)].
           ++ left. split; [done|]. intros d' [->|Hd']%elem_of_cons; [unfold wants; rewrite Hd; by apply bool_decide_eq_false|by apply H7].
           ++ right. exists (S j), d'. split; [f_equal; lia|done].
    + intros Hs. apply IH in Hs as (H1 & H2 & H3 & H4 & H5 & H6); [|lia]. assert (∀ p, wants p d = false) as Hn by (intros p; unfold wants; by rewrite Hd).
      assert (inserts (d :: l) = inserts l) as He by (rewrite filter_cons_False; [done|by rewrite Hd]). split; [by rewrite He|]. split; [done|]. split; [|split; [|split; [done|]]].
      * intros Hi. destruct (H3 Hi) as [(-> & H7)|(j & d' & -> & Hj & Hw & H7)]; [left; by rewrite He|]. right. exists (S j), d'. split; [lia|]. split; [done|]. split; [done|].
        change (take (S j) (d :: l)) with (d :: take j l). rewrite filter_cons_False; [done|by rewrite Hd].
      * destruct H4 as [(-> & H4)|(j & d' & -> & Hj & Hw & H4)].
        -- left. split; [done|]. intros d' [->|Hd']%elem_of_cons; [done|by apply H4].
        -- right. exists (S j), d'. split; [f_equal; lia|done].
      * intros ->. destruct (H6 eq_refl) as [(-> & H7)|(j & d' & -> & Hj & Hw)].
        -- left. split; [done|]. intros d' [->|Hd']%elem_of_cons; [done|by apply H7].
        -- right. exists (S j), d'. split; [f_equal; lia|done].
Qed.

(** *** A place in the order *)

Lemma sorted_insert {A} (R : A → A → Prop) l1 l2 d : StronglySorted R (l1 ++ l2) → (∀ x, x ∈ l1 → R x d) → (∀ y, y ∈ l2 → R d y) → StronglySorted R (l1 ++ d :: l2).
Proof.
  induction l1 as [|x l1 IH]; cbn; intros HS H1 H2.
  - constructor; [done|]. by apply Forall_forall.
  - inversion_clear HS as [|? ? HS' HF]. constructor; [apply IH; [done|intros y Hy; apply H1; set_solver|done]|].
    rewrite Forall_app in HF |- *. destruct HF as [HF1 HF2]. split; [done|]. constructor; [apply H1; set_solver|done].
Qed.
Lemma sorted_split {A} (R : A → A → Prop) l1 l2 x y : StronglySorted R (l1 ++ l2) → x ∈ l1 → y ∈ l2 → R x y.
Proof.
  induction l1 as [|z l1 IH]; cbn; intros HS Hx Hy; [set_solver|]. inversion_clear HS as [|? ? HS' HF]. rewrite Forall_app, !Forall_forall in HF. destruct HF as [_ HF].
  apply elem_of_cons in Hx as [-> |Hx]; [by apply HF|by apply IH].
Qed.
Lemma sorted_from {A} (R : A → A → Prop) l i x y : (∀ z, R z z) → StronglySorted R l → l !! i = Some x → y ∈ drop i l → R x y.
Proof.
  intros Hrefl HS Hi Hy. rewrite (drop_S _ _ _ Hi) in Hy. apply elem_of_cons in Hy as [-> |Hy]; [done|].
  rewrite <- (take_drop (S i) l) in HS. eapply sorted_split; [exact HS| |exact Hy]. rewrite (take_S_r _ _ _ Hi). set_solver.
Qed.
Lemma sorted_to {A} (R : A → A → Prop) l i x y : (∀ z, R z z) → StronglySorted R l → l !! i = Some x → y ∈ take (S i) l → R y x.
Proof.
  intros Hrefl HS Hi Hy. rewrite (take_S_r _ _ _ Hi) in Hy. apply elem_of_app in Hy as [Hy| ->%list_elem_of_singleton]; [|done].
  rewrite <- (take_drop i l) in HS. eapply sorted_split; [exact HS|exact Hy|]. rewrite (drop_S _ _ _ Hi). set_solver.
Qed.

Lemma rank_le d : (rank d ≤ 2)%nat.
Proof. unfold rank. repeat case_bool_decide; lia. Qed.
Lemma wants_insert p d : wants p d = true → is_insert d = true ∧ insert_pref d = p.
Proof. unfold wants. rewrite andb_true_iff, bool_decide_eq_true. done. Qed.
Lemma not_first_rank d : is_insert d = true → wants EFFECT_FLAG_INSERT_FIRST d = false → (1 ≤ rank d)%nat.
Proof. unfold wants, rank. intros ->. rewrite andb_true_l. intros ->. case_bool_decide; lia. Qed.
Lemma first_rank d : wants EFFECT_FLAG_INSERT_FIRST d = true → rank d = 0%nat.
Proof. intros [_ H]%wants_insert. unfold rank. by rewrite bool_decide_true. Qed.
Lemma last_rank d : insert_pref d = EFFECT_FLAG_INSERT_LAST → rank d = 2%nat.
Proof. intros H. unfold rank. by rewrite H. Qed.
Lemma not_last_rank d : insert_pref d ≠ EFFECT_FLAG_INSERT_LAST → (rank d ≤ 1)%nat.
Proof. intros H. unfold rank. rewrite (bool_decide_false (_ = EFFECT_FLAG_INSERT_LAST)) by done. case_bool_decide; lia. Qed.

(** The insert effects around one of them, and what is not after it. *)
Lemma around ds j d : ordered ds → ds !! j = Some d → is_insert d = true →
  (∀ x, x ∈ inserts (drop j ds) → rank d ≤ rank x)%nat ∧ (∀ x, x ∈ inserts (take (S j) ds) → rank x ≤ rank d)%nat ∧ (∀ x, x ∈ drop j ds → is_auxiliary x = false).
Proof.
  intros (HA & HI & _) Hj Hd. split; [|split].
  - intros x Hx. rewrite (drop_S _ _ _ Hj), filter_cons_True in Hx by done. apply elem_of_cons in Hx as [-> |Hx]; [done|].
    rewrite <- (take_drop (S j) ds), filter_app in HI. eapply (sorted_split (λ a b, (rank a ≤ rank b)%nat)); [exact HI| |exact Hx]. rewrite (take_S_r _ _ _ Hj), filter_app, filter_cons_True by done. set_solver.
  - intros x Hx. rewrite (take_S_r _ _ _ Hj), filter_app, filter_cons_True in Hx by done. apply elem_of_app in Hx as [Hx|Hx]; [|rewrite filter_nil in Hx; apply list_elem_of_singleton in Hx as ->; done].
    rewrite <- (take_drop j ds), filter_app in HI. eapply (sorted_split (λ a b, (rank a ≤ rank b)%nat)); [exact HI|exact Hx|]. rewrite (drop_S _ _ _ Hj), filter_cons_True by done. set_solver.
  - intros x Hx. destruct (is_auxiliary x) eqn:Ex; [|done]. assert (is_auxiliary d = true) as Hda; [|by rewrite insert_not_auxiliary in Hda].
    refine (sorted_from (λ a b, is_auxiliary b = true → is_auxiliary a = true) ds j d x _ HA Hj Hx Ex). done.
Qed.

(** Where [addEffect_l] inserts, what asks for the same or for less comes before, and for the
    same or for more after; no auxiliary effect comes after. *)
Lemma insert_index_place pref ds k : ordered ds → insert_index pref ds = Some k →
  (k ≤ length ds)%nat ∧ (∀ x, x ∈ drop k ds → is_auxiliary x = false) ∧
  (∀ d x, insert_pref d = pref → x ∈ inserts (take k ds) → rank x ≤ rank d)%nat ∧
  (∀ d x, insert_pref d = pref → x ∈ inserts (drop k ds) → rank d ≤ rank x)%nat ∧
  (∀ d, d ∈ inserts ds → pref ≠ EFFECT_FLAG_INSERT_EXCLUSIVE ∧ exclusive d = false).
Proof.
  intros HO Hk. unfold insert_index in Hk. apply bind_Some in Hk as ([[idx' f'] la'] & Hs & [= Hk]).
  apply scan_chain_spec in Hs as (H1 & _ & H3 & H4 & _ & H6); [|lia]. specialize (H3 eq_refl). specialize (H6 eq_refl). cbn [Nat.add] in *.
  assert (∀ x, x ∈ drop (length ds) ds → False) as Hend by (intros x; rewrite drop_all; set_solver).
  assert (∀ x, x ∈ inserts (drop (length ds) ds) → False) as Hend' by (intros x; rewrite drop_all; set_solver).
  case_bool_decide as Hp.
  - destruct H6 as [(-> & H6)|(j & d & -> & Hj & Hw)]; subst k.
    + split; [done|]. split; [intros x []%Hend|]. split; [|split; [intros d x _ []%Hend'|done]]. intros d x Hd _. rewrite (last_rank d) by congruence. apply rank_le.
    + apply wants_insert in Hw as [Hi Hl]. destruct (around ds j d HO Hj Hi) as (A1 & A2 & A3). rewrite (last_rank d Hl) in A1. split; [apply lookup_lt_Some in Hj; lia|]. split; [done|].
      split; [intros d' x Hd _; rewrite (last_rank d') by congruence; apply rank_le|]. split; [|done]. intros d' x Hd Hx. rewrite (last_rank d') by congruence. by apply A1.
  - destruct H4 as [(-> & H4)|(j & d & -> & Hj & Hw & H4)].
    + destruct H3 as [(-> & H3)|(j & d & -> & Hj & Hi & H3)]; subst k.
      * split; [done|]. split; [intros x []%Hend|]. split; [|split; [intros d x _ []%Hend'|done]]. intros d x _ Hx. exfalso.
        rewrite take_ge, H3 in Hx by done. set_solver.
      * destruct (around ds j d HO Hj Hi) as (A1 & A2 & A3). split; [apply lookup_lt_Some in Hj; lia|]. split; [done|]. rewrite H3. split; [set_solver|]. split; [|done].
        intros d' x Hd Hx. apply list_elem_of_filter in Hx as [Hxi Hx]. etransitivity; [apply not_last_rank; congruence|]. apply not_first_rank; [done|]. apply H4.
        rewrite <- (take_drop j ds). set_solver.
    + subst k. pose proof (first_rank d Hw) as Hr. apply wants_insert in Hw as [Hi Hl]. destruct (around ds j d HO Hj Hi) as (A1 & A2 & A3). split; [apply lookup_lt_Some in Hj; lia|].
      split; [intros x Hx; apply A3; rewrite (drop_S _ _ _ Hj); set_solver|]. split; [intros d' x _ Hx; etransitivity; [by apply A2|lia]|]. split; [|done].
      intros d' x Hd Hx. apply list_elem_of_filter in Hx as [Hxi Hx]. etransitivity; [apply not_last_rank; congruence|]. apply not_first_rank; [done|by apply H4].
Qed.

Lemma insertAt_ordered d ds k : ordered ds → insert_index (insert_pref d) ds = Some k → is_auxiliary d = false → ordered (insertAt d k ds).
Proof.
  intros HO Hk Hd. destruct (insert_index_place _ _ _ HO Hk) as (H1 & H2 & H3 & H4 & H5). destruct HO as (HA & HI & HX). unfold insertAt.
  rewrite <- (take_drop k ds), filter_app in HI. rewrite <- (take_drop k ds) in HA. split; [|split].
  - apply sorted_insert; [done|by rewrite Hd|]. intros y Hy. by rewrite (H2 y Hy).
  - rewrite filter_app, filter_cons. case_decide as Hi; [|done]. apply sorted_insert; [done|by intros x; apply H3|by intros y; apply H4].
  - intros d'. rewrite filter_app, filter_cons. assert (∀ x, x ∈ inserts (take k ds) ∨ x ∈ inserts (drop k ds) → x ∈ inserts ds) as Hin.
    { intros x Hx. rewrite <- (take_drop k ds), filter_app. set_solver. }
    case_decide as Hi.
    + intros Hd'. destruct (inserts (take k ds)) as [|x l] eqn:E1.
      * destruct (inserts (drop k ds)) as [|y l] eqn:E2; cbn; [|].
        -- cbn in Hd'. apply list_elem_of_singleton in Hd' as ->. done.
        -- cbn in Hd'. apply elem_of_cons in Hd' as [-> |Hd']; [|intros He; destruct (H5 d') as [_ Hf]; [apply Hin; set_solver|congruence]].
           intros [_ He]%wants_insert. destruct (H5 y) as [Hf _]; [apply Hin; set_solver|done].
      * intros He. destruct (decide (d' = d)) as [-> |Hne]; [|destruct (H5 d') as [_ Hf]; [apply Hin; set_solver|congruence]].
        apply wants_insert in He as [_ He]. destruct (H5 x) as [Hf _]; [apply Hin; set_solver|done].
    + rewrite <- filter_app, take_drop. by apply HX.
Qed.
Lemma cons_ordered d ds : ordered ds → is_auxiliary d = true → ordered (d :: ds).
Proof.
  intros (HA & HI & HX) Hd. assert (is_insert d ≠ true) as Hi by (intros Hi; by rewrite (insert_not_auxiliary d Hi) in Hd).
  split; [constructor; [done|by apply Forall_forall]|]. rewrite filter_cons_False by done. done.
Qed.
Lemma sorted_delete {A} (R : A → A → Prop) l i : StronglySorted R l → StronglySorted R (delete i l).
Proof.
  intros HS. revert i. induction HS as [|z zs HS IH HF]; intros i; [destruct i; constructor|]. destruct i as [|i]; [done|]. constructor; [apply IH|by apply Forall_delete].
Qed.
Lemma delete_ordered ds i : ordered ds → ordered (delete i ds).
Proof.
  intros (HA & HI & HX). split; [by apply sorted_delete|]. destruct (ds !! i) as [d|] eqn:Hi; [|apply lookup_ge_None in Hi; rewrite delete_take_drop, take_ge, drop_ge, app_nil_r by lia; done].
  rewrite delete_take_drop, filter_app. rewrite <- (take_drop_middle _ _ _ Hi), filter_app, filter_cons in HI, HX. case_decide as Hd; [|done].
  split.
  - rewrite <- (delete_middle (inserts (take i ds)) (inserts (drop (S i) ds)) d). by apply sorted_delete.
  - intros d' Hd' He. assert (inserts (take i ds) ++ d :: inserts (drop (S i) ds) = [d']) as Hl by (apply HX; [set_solver|done]). exfalso.
    destruct (inserts (take i ds)), (inserts (drop (S i) ds)); try (apply (f_equal length) in Hl; rewrite ?length_app in Hl; cbn in Hl; lia). set_solver.
Qed.

(** ** The buffers *)

Definition modules_in (t : gmap Z EffectModule) (es : list Z) (ms : list EffectModule) : Prop := Forall2 (λ e m, t !! e = Some m) es ms.
(** What the [i]-th of [n] effects reads and writes. *)
Definition wired_at (x : EffectChain) (n i : nat) (m : EffectModule) : Prop :=
  (if is_auxiliary (mDescriptor m) then outBuffer (mConfig m) = mInBuffer x
   else inBuffer (mConfig m) = mInBuffer x ∧ outBuffer (mConfig m) = (if bool_decide (S i = n) then mOutBuffer x else mInBuffer x)) ∧
  accumulates (mConfig m) = bool_decide (inBuffer (mConfig m) ≠ outBuffer (mConfig m)).
Definition wired (x : EffectChain) (ms : list EffectModule) : Prop := ∀ i m, ms !! i = Some m → wired_at x (length ms) i m.
(** Auxiliary effects are on the chain of the output mix, that has one buffer. *)
Definition chain_with (w : world) (c : Z) (x : EffectChain) (ms : list EffectModule) : Prop :=
  w_chains w !! c = Some x ∧ NoDup (mEffects x) ∧ modules_in (w_modules w) (mEffects x) ms ∧ ordered (mDescriptor <$> ms) ∧ wired x ms ∧
  (∀ m, m ∈ ms → mEffectInterface m = true ∧ (is_auxiliary (mDescriptor m) = true → mInBuffer x = mOutBuffer x)).
Definition chain_ok (w : world) (c : Z) : Prop := ∃ x ms, chain_with w c x ms.
Definition thread_ok (t : thread) : Prop := th_alive t = true ∧ u32 (1000 * th_frameCount t) ≠ 0.

Lemma modules_in_insert t es ms e m : modules_in t es ms → e ∉ es → modules_in (<[e := m]> t) es ms.
Proof. unfold modules_in. induction 1 as [|k y l xs Hk HF IH]; intros Hh; constructor; [rewrite lookup_insert_ne; [done|set_solver]|apply IH; set_solver]. Qed.
Lemma modules_in_update t es ms i e m : modules_in t es ms → NoDup es → es !! i = Some e → modules_in (<[e := m]> t) es (<[i := m]> ms).
Proof.
  unfold modules_in. intros HF. revert i. induction HF as [|k y l xs Hk HF IH]; intros i Hnd Hi; [done|]. apply NoDup_cons in Hnd as [Hkn Hnd]. destruct i as [|i]; cbn in *.
  - injection Hi as ->. constructor; [apply lookup_insert_eq|by apply modules_in_insert].
  - constructor; [rewrite lookup_insert_ne; [done|]|by apply IH]. intros ->. by apply Hkn, list_elem_of_lookup_2 with i.
Qed.
Lemma modules_in_length t es ms : modules_in t es ms → length es = length ms.
Proof. apply Forall2_length. Qed.

(** A module whose engine has been sent commands. *)
Definition same_module (m m' : EffectModule) : Prop :=
  mDescriptor m' = mDescriptor m ∧ mEffectInterface m' = mEffectInterface m ∧ mHandles m' = mHandles m ∧ mState m' = mState m ∧ mChain m' = mChain m.

Section chain.
Context {Env : EffectEnv}.

Lemma send_eq w e m c : w_modules w !! e = Some m →
  send e c w = Ret (engine_command (em_sent m) c) (set_w_modules (<[e := set_em_sent (em_sent m ++ [c]) m]> (w_modules w)) w).
Proof. intros H. unfold send. by rewrite (bind_of _ (get_module_eq _ _ _ H)), (bind_of _ (on_module_eq _ e _ m H)). Qed.
Lemma send_again w t e m c : send e c (set_w_modules (<[e := m]> t) w) = Ret (engine_command (em_sent m) c) (set_w_modules (<[e := set_em_sent (em_sent m ++ [c]) m]> t) w).
Proof. unfold send. by rewrite (bind_of _ (get_module_again _ _ _ _)), (bind_of _ (on_module_again _ _ _ _ _)). Qed.
Lemma promote_alive w : th_alive (w_thread w) = true → promote_thread w = Ret (Some (w_thread w)) w.
Proof. intros H. unfold promote_thread. by rewrite bind_getst, H. Qed.

Definition configured (t : thread) (m : EffectModule) : config :=
  let c := mConfig m in
  Config (if is_auxiliary (mDescriptor m) then AUDIO_CHANNEL_OUT_MONO else th_channelMask t) (th_channelMask t) (th_sampleRate t) (inBuffer c) (outBuffer c)
    (th_frameCount t) (bool_decide (inBuffer c ≠ outBuffer c)).
Lemma configure_again w t e m : mEffectInterface m = true → thread_ok (w_thread w) →
  ∃ r m', configure e (set_w_modules (<[e := m]> t) w) = Ret r (set_w_modules (<[e := m']> t) w) ∧ mConfig m' = configured (w_thread w) m ∧ same_module m m'.
Proof.
  intros Hi [Ha Hf]. unfold configure. rewrite (bind_of _ (get_module_again _ _ _ _)), (bind_of _ (promote_alive (set_w_modules (<[e := m]> t) w) Ha)), Hi. cbn [negb w_thread set_w_modules].
  rewrite bind_bind, (bind_of _ (on_module_again _ _ _ _ _)). unfold send_status. rewrite !bind_bind, (bind_of _ (send_again _ _ _ _ _)). run.
  destruct (engine_command _ _) as [st cst]. set (st' := if bool_decide (st = 0) then cst else st). run.
  destruct (bool_decide (st' = 0) && _); run.
  - rewrite (bind_of _ (send_again _ _ _ _ _)). run. rewrite bind_bug_on by (by apply bool_decide_eq_false). run. rewrite (bind_of _ (on_module_again _ _ _ _ _)). run.
    rewrite (bind_of _ (on_module_again _ _ _ _ _)). eexists _, _. split; [done|]. done.
  - rewrite bind_bug_on by (by apply bool_decide_eq_false). run. rewrite (bind_of _ (on_module_again _ _ _ _ _)). run.
    rewrite (bind_of _ (on_module_again _ _ _ _ _)). eexists _, _. split; [done|]. done.
Qed.
Lemma descriptors_eq w es ms : modules_in (w_modules w) es ms → descriptors es w = Ret (mDescriptor <$> ms) w.
Proof. induction 1 as [|e m es ms He HF IH]; [done|]. cbn [descriptors]. by rewrite (bind_of _ (get_module_eq _ _ _ He)), (bind_of _ IH). Qed.

(** ** Adding an effect *)

Lemma lookup_insertAt {A} (x : A) k l i : (k ≤ length l)%nat →
  insertAt x k l !! i = if bool_decide (i < k)%nat then l !! i else if bool_decide (i = k) then Some x else l !! pred i.
Proof.
  intros Hk. unfold insertAt. case_bool_decide as H1.
  - rewrite lookup_app_l by (rewrite length_take; lia). by apply lookup_take_lt.
  - rewrite lookup_app_r by (rewrite length_take; lia). rewrite length_take, Nat.min_l by done. case_bool_decide as H2.
    + subst. by rewrite Nat.sub_diag.
    + destruct i as [|i]; [lia|]. replace (S i - k)%nat with (S (i - k)) by lia. change ((x :: drop k l) !! S (i - k)%nat) with (drop k l !! (i - k)%nat). rewrite lookup_drop. f_equal. lia.
Qed.
Lemma length_insertAt {A} (x : A) k l : (k ≤ length l)%nat → length (insertAt x k l) = S (length l).
Proof. intros Hk. unfold insertAt. rewrite length_app. cbn. rewrite length_take, length_drop. lia. Qed.
Lemma insertAt_perm {A} (x : A) k l : insertAt x k l ≡ₚ x :: l.
Proof. unfold insertAt. by rewrite <- Permutation_middle, take_drop. Qed.
Lemma modules_in_insertAt t es ms e m k : modules_in t es ms → e ∉ es → modules_in (<[e := m]> t) (insertAt e k es) (insertAt m k ms).
Proof.
  intros HF He. apply (modules_in_insert _ _ _ e m) in HF; [|done]. unfold insertAt, modules_in in *. apply Forall2_app; [by apply Forall2_take|].
  constructor; [apply lookup_insert_eq|by apply Forall2_drop].
Qed.
Lemma fmap_insertAt {A B} (f : A → B) x k l : f <$> insertAt x k l = insertAt (f x) k (f <$> l).
Proof. unfold insertAt. by rewrite fmap_app, fmap_cons, fmap_take, fmap_drop. Qed.

Lemma wired_at_same x n i m m' : wired_at x n i m → mDescriptor m' = mDescriptor m → mConfig m' = mConfig m → wired_at x n i m'.
Proof. unfold wired_at. intros H -> ->. done. Qed.
(** A place that is not the last one, before or after. *)
Lemma wired_at_place x n i n' i' m : wired_at x n i m → (S i = n ↔ S i' = n') → wired_at x n' i' m.
Proof. unfold wired_at. intros [H1 H2] Hi. split; [|done]. destruct (is_auxiliary _); [done|]. by rewrite <- (bool_decide_ext _ _ Hi). Qed.

(** The buffers of a module that has been connected and configured. *)
Lemma wired_configured t x n i (m m' : EffectModule) : mConfig m' = configured t m → mDescriptor m' = mDescriptor m →
  (if is_auxiliary (mDescriptor m) then outBuffer (mConfig m) = mInBuffer x
   else inBuffer (mConfig m) = mInBuffer x ∧ outBuffer (mConfig m) = (if bool_decide (S i = n) then mOutBuffer x else mInBuffer x)) → wired_at x n i m'.
Proof. unfold wired_at. intros -> -> H. done. Qed.

Lemma wired_insert x ms k m : wired x ms → (k < length ms)%nat → wired_at x (S (length ms)) k m → wired x (insertAt m k ms).
Proof.
  intros HW Hk Hm i m' Hi. rewrite lookup_insertAt in Hi by lia. rewrite length_insertAt by lia. case_bool_decide as H1; [|case_bool_decide as H2].
  - apply (wired_at_place x (length ms) i); [by apply HW|]. lia.
  - by injection Hi as <-; subst i.
  - apply (wired_at_place x (length ms) (pred i)); [by apply HW|]. lia.
Qed.
Lemma wired_snoc x ms m : (∀ i p, ms !! i = Some p → wired_at x (S (length ms)) i p) → wired_at x (S (length ms)) (length ms) m → wired x (ms ++ [m]).
Proof.
  intros HW Hm i p Hi. rewrite length_app. cbn [length]. rewrite Nat.add_1_r. apply lookup_app_Some in Hi as [Hi|[Hle Hi]]; [by apply HW|].
  destruct (i - length ms)%nat eqn:E; [|done]. injection Hi as <-. by replace i with (length ms) by lia.
Qed.

Lemma wp_configure w e m (Q : Z → world → Prop) : w_modules w !! e = Some m → mEffectInterface m = true → thread_ok (w_thread w) →
  (∀ r m', mConfig m' = configured (w_thread w) m → same_module m m' → Q r (set_w_modules (<[e := m']> (w_modules w)) w)) → wp (configure e) Q w.
Proof.
  intros Hm Hi Ht HQ. destruct (configure_again w (w_modules w) e m Hi Ht) as (r & m' & Hrun & Hc & Hs).
  rewrite insert_id in Hrun by done. apply (wp_det _ _ _ r (set_w_modules (<[e := m']> (w_modules w)) w)); [|by apply HQ]. rewrite <- Hrun. by destruct w.
Qed.
Lemma wp_promote w (Q : option thread → world → Prop) : thread_ok (w_thread w) → Q (Some (w_thread w)) w → wp promote_thread Q w.
Proof. intros [Ha _]. by apply wp_det, promote_alive. Qed.
Lemma wp_descriptors w es ms (Q : list descriptor → world → Prop) : modules_in (w_modules w) es ms → Q (mDescriptor <$> ms) w → wp (descriptors es) Q w.
Proof. intros H. by apply wp_det, descriptors_eq. Qed.

(** Where an effect goes. *)
Definition place (m : EffectModule) (ms : list EffectModule) : option nat :=
  if is_auxiliary (mDescriptor m) then Some O else insert_index (insert_pref (mDescriptor m)) (mDescriptor <$> ms).

Lemma addEffect_aux w c x ms e m : chain_with w c x ms → w_modules w !! e = Some m → e ∉ mEffects x → mEffectInterface m = true → thread_ok (w_thread w) →
  is_auxiliary (mDescriptor m) = true → mInBuffer x = mOutBuffer x →
  wp (addEffect_l c e) (λ r w', r = NO_ERROR ∧ w_thread w' = w_thread w ∧ ∃ ms', chain_with w' c (set_mEffects (insertAt e 0 (mEffects x)) x) ms' ∧ (mDescriptor <$> ms') = mDescriptor m :: (mDescriptor <$> ms)) w.
Proof.
  intros (Hc & Hnd & HF & HO & HW & HM) Hm He Hi Ht Ha Hio. unfold addEffect_l.
  wp_step. eapply wp_get_module; [done|]. wp_step. eapply wp_on_module; [done|]. wp_step. apply wp_promote; [done|]. see. wp_step. eapply wp_get_chain; [done|]. rewrite Ha.
  wp_step. eapply wp_on_chain; [look|]. unfold new_address. wp_steps. see. eapply wp_on_module; [look|]. see. rewrite insert_insert_eq.
  wp_step. eapply wp_on_module; [look|]. see. rewrite insert_insert_eq. wp_step. eapply wp_configure; [look|done|done|]. see. intros r m' Hcf (Hd & Hif & _). rewrite insert_insert_eq. wp_step.
  split; [done|]. split; [done|]. exists (m' :: ms). split; [|cbn [fmap list_fmap]; by rewrite Hd]. split; [|split; [|split; [|split; [|split]]]]; see.
  - apply lookup_insert_eq.
  - cbn. by constructor.
  - cbn. constructor; [apply lookup_insert_eq|]. by apply modules_in_insert.
  - cbn [fmap list_fmap]. rewrite Hd. by apply cons_ordered.
  - intros i p Hp. assert (wired_at x (S (length ms)) i p) as H; [|done]. destruct i as [|i]; cbn in Hp.
    + injection Hp as <-. eapply wired_configured; [exact Hcf|exact Hd|]. cbn [mDescriptor on_config set_mConfig set_mChain]. by rewrite Ha.
    + apply (wired_at_place x (length ms) i); [by apply HW|lia].
  - intros p [-> |Hp]%elem_of_cons; [|by apply HM]. by rewrite Hif.
Qed.

Lemma reject_keeps w c x ms e m : chain_with w c x ms → e ∉ mEffects x → chain_with (set_w_modules (<[e := m]> (w_modules w)) w) c x ms.
Proof. intros (Hc & Hnd & HF & H) He. split; [done|]. split; [done|]. split; [by apply modules_in_insert|done]. Qed.

(** The module that was the last one writes to the next. *)
Definition next_to_last (x : EffectChain) (t : thread) (p p' : EffectModule) : Prop :=
  mConfig p' = configured t (on_config (set_outBuffer (mInBuffer x)) p) ∧ same_module p p'.
Lemma wired_last x t ms p p' : wired x ms → last ms = Some p → next_to_last x t p p' →
  ∀ i q, <[pred (length ms) := p']> ms !! i = Some q → wired_at x (S (length ms)) i q.
Proof.
  intros HW Hl [Hc (Hd & _)] i q. rewrite last_lookup in Hl. intros [(<- & -> & Hlt)|[Hne Hq]]%list_lookup_insert_Some.
  - eapply wired_configured; [exact Hc|exact Hd|]. destruct (HW _ _ Hl) as [H1 _]. cbn [mDescriptor on_config set_mConfig mConfig inBuffer outBuffer set_outBuffer].
    destruct (is_auxiliary _); [done|]. destruct H1 as [H1 _]. split; [done|]. rewrite bool_decide_false by lia. done.
  - apply (wired_at_place x (length ms) i); [by apply HW|]. apply lookup_lt_Some in Hq. lia.
Qed.
(** The modules of the chain when the last one has been changed. *)
Lemma relast t x es ms e p p' th : modules_in t es ms → NoDup es → last es = Some e → last ms = Some p → next_to_last x th p p' →
  modules_in (<[e := p']> t) es (<[pred (length ms) := p']> ms) ∧ mDescriptor <$> <[pred (length ms) := p']> ms = mDescriptor <$> ms.
Proof.
  intros HF Hnd He Hl Hp. rewrite last_lookup in He. rewrite last_lookup in Hl. split.
  - apply modules_in_update; [done|done|]. by rewrite <- (modules_in_length _ _ _ HF).
  - rewrite list_fmap_insert. destruct Hp as [_ (Hd & _)]. rewrite Hd. apply list_insert_id. by rewrite list_lookup_fmap, Hl.
Qed.
Lemma last_module t es ms p : modules_in t es ms → last ms = Some p → ∃ e, last es = Some e ∧ t !! e = Some p.
Proof.
  intros HF Hl. rewrite last_lookup in Hl. destruct (Forall2_lookup_r _ _ _ _ _ HF Hl) as (e & He & Ht). exists e. by rewrite last_lookup, (modules_in_length _ _ _ HF).
Qed.

Lemma addEffect_middle w c x ms e m k : chain_with w c x ms → w_modules w !! e = Some m → e ∉ mEffects x → mEffectInterface m = true → thread_ok (w_thread w) →
  is_auxiliary (mDescriptor m) = false → insert_index (insert_pref (mDescriptor m)) (mDescriptor <$> ms) = Some k → (k < length ms)%nat →
  wp (addEffect_l c e) (λ r w', r = NO_ERROR ∧ w_thread w' = w_thread w ∧ ∃ ms', chain_with w' c (set_mEffects (insertAt e k (mEffects x)) x) ms' ∧
    mDescriptor <$> ms' = insertAt (mDescriptor m) k (mDescriptor <$> ms)) w.
Proof.
  intros (Hc & Hnd & HF & HO & HW & HM) Hm He Hi Ht Ha Hk Hlt. unfold addEffect_l. pose proof (modules_in_length _ _ _ HF) as Hlen.
  wp_step. eapply wp_get_module; [done|]. wp_step. eapply wp_on_module; [done|]. wp_step. apply wp_promote; [done|]. see. wp_step. eapply wp_get_chain; [done|]. rewrite Ha.
  wp_step. eapply wp_descriptors; [see; by apply modules_in_insert|]. rewrite Hk. rewrite bool_decide_false by lia.
  wp_step. eapply wp_on_module; [look|]. see. rewrite insert_insert_eq. wp_step. eapply wp_on_module; [look|]. see. rewrite insert_insert_eq.
  wp_step. eapply wp_on_chain; [look|]. see. wp_step. eapply wp_configure; [look|done|done|]. see. intros r m' Hcf (Hd & Hif & _). rewrite insert_insert_eq. wp_step.
  split; [done|]. split; [done|]. exists (insertAt m' k ms). assert (mDescriptor <$> insertAt m' k ms = insertAt (mDescriptor m) k (mDescriptor <$> ms)) as Hds by (rewrite fmap_insertAt; by rewrite Hd).
  split; [|done]. split; [|split; [|split; [|split; [|split]]]]; see.
  - apply lookup_insert_eq.
  - cbn. rewrite insertAt_perm. by constructor.
  - cbn. by apply modules_in_insertAt.
  - rewrite Hds. by apply insertAt_ordered.
  - assert (wired x (insertAt m' k ms)) as H; [|done]. apply wired_insert; [done|done|]. eapply wired_configured; [exact Hcf|exact Hd|].
    cbn [mDescriptor on_config set_mConfig set_mChain mConfig inBuffer outBuffer set_outBuffer set_inBuffer]. rewrite Ha, bool_decide_false by lia. done.
  - intros p Hp. rewrite insertAt_perm in Hp. apply elem_of_cons in Hp as [-> |Hp]; [|by apply HM]. rewrite Hif, Hd. split; [done|]. cbn [mDescriptor on_config set_mConfig set_mChain]. by rewrite Ha.
Qed.

Lemma insertAt_end {A} (a : A) l : insertAt a (length l) l = l ++ [a].
Proof. unfold insertAt. by rewrite take_ge, drop_ge. Qed.

Lemma insertAt_at_end {A} (a : A) n l : length l = n → insertAt a n l = l ++ [a].
Proof. intros <-. apply insertAt_end. Qed.

(** Connecting the last effect to a new one; nothing when there is none. *)
Lemma wp_relast w x es ms th (Q : unit → world → Prop) : modules_in (w_modules w) es ms → NoDup es → ordered (mDescriptor <$> ms) → wired x ms →
  (∀ p, p ∈ ms → mEffectInterface p = true) → thread_ok (w_thread w) → th = w_thread w →
  (∀ t ms', modules_in t es ms' → mDescriptor <$> ms' = mDescriptor <$> ms → (∀ i q, ms' !! i = Some q → wired_at x (S (length ms)) i q) →
     (∀ p, p ∈ ms' → mEffectInterface p = true) → (∀ e, e ∉ es → t !! e = w_modules w !! e) → Q tt (set_w_modules t w)) →
  wp (match last es with Some p => on_module p (on_config (set_outBuffer (mInBuffer x))) ;;; configure p ;;; ret tt | None => ret tt end) Q w.
Proof.
  intros HF Hnd HO HW HM Ht -> HQ. destruct (last ms) as [p|] eqn:Hl.
  - destruct (last_module _ _ _ _ HF Hl) as (e & He & Hp). rewrite He. pose proof (HM p (last_Some_elem_of _ _ Hl)) as Hpi.
    wp_step. eapply wp_on_module; [done|]. wp_step. eapply wp_configure; [look|exact Hpi|done|]. see. intros r p' Hcf Hs. rewrite insert_insert_eq. wp_step.
    destruct (relast _ x es ms e p p' (w_thread w) HF Hnd He Hl (conj Hcf Hs)) as (HF' & Hd).
    eapply HQ; [exact HF'|done|by eapply wired_last| |].
    + intros q [i Hq]%list_elem_of_lookup. apply list_lookup_insert_Some in Hq as [(_ & -> & _)|[_ Hq]]; [|apply HM; by apply list_elem_of_lookup_2 with i].
      by destruct Hs as (_ & -> & _).
    + intros e0 He0. apply lookup_insert_ne. intros ->. by apply He0, last_Some_elem_of.
  - apply last_None in Hl as ->. inversion HF; subst. cbn [last]. wp_step. destruct w as [wm wh wc wme wth wn wi wp]. apply (HQ wm []); done.
Qed.

Lemma addEffect_end w c x ms e m : chain_with w c x ms → w_modules w !! e = Some m → e ∉ mEffects x → mEffectInterface m = true → thread_ok (w_thread w) →
  is_auxiliary (mDescriptor m) = false → insert_index (insert_pref (mDescriptor m)) (mDescriptor <$> ms) = Some (length ms) →
  wp (addEffect_l c e) (λ r w', r = NO_ERROR ∧ w_thread w' = w_thread w ∧ ∃ ms', chain_with w' c (set_mEffects (mEffects x ++ [e]) x) ms' ∧
    mDescriptor <$> ms' = (mDescriptor <$> ms) ++ [mDescriptor m]) w.
Proof.
  intros (Hc & Hnd & HF & HO & HW & HM) Hm He Hi Ht Ha Hk. unfold addEffect_l. pose proof (modules_in_length _ _ _ HF) as Hlen.
  wp_step. eapply wp_get_module; [done|]. wp_step. eapply wp_on_module; [done|]. wp_step. apply wp_promote; [done|]. see. wp_step. eapply wp_get_chain; [done|]. rewrite Ha.
  wp_step. eapply wp_descriptors; [see; by apply modules_in_insert|]. rewrite Hk. rewrite bool_decide_true by lia. rewrite <- Hlen, insertAt_end.
  wp_step. eapply wp_on_module; [look|]. see. rewrite insert_insert_eq. do 2 wp_step. eapply wp_relast; [see; by apply modules_in_insert|done|done|done|by intros p Hp; apply HM|done|done|].
  see. intros t ms' HF' Hd' HW' HM' Ht'. specialize (Ht' e He). rewrite lookup_insert_eq in Ht'. pose proof (f_equal length Hd') as Hl. rewrite !length_fmap in Hl.
  eapply wp_on_module; [exact Ht'|]. see. wp_step. eapply wp_on_chain; [look|]. see. wp_step. eapply wp_configure; [look|done|done|]. see. intros r m' Hcf (Hd & Hif & _). rewrite insert_insert_eq. wp_step.
  assert (mDescriptor m' = mDescriptor m) as Hdm by done. assert (mDescriptor <$> ms' ++ [m'] = (mDescriptor <$> ms) ++ [mDescriptor m]) as Hds by (by rewrite fmap_app, Hd', <- Hdm).
  split; [done|]. split; [done|]. exists (ms' ++ [m']). split; [|done]. split; [|split; [|split; [|split; [|split]]]]; see.
  - apply lookup_insert_eq.
  - cbn. rewrite Permutation_app_comm. by constructor.
  - cbn. apply Forall2_app; [by apply modules_in_insert|]. constructor; [apply lookup_insert_eq|constructor].
  - rewrite Hds, <- insertAt_end, length_fmap. by apply insertAt_ordered.
  - assert (wired x (ms' ++ [m'])) as H; [|done]. rewrite <- Hl in HW'. apply wired_snoc; [done|]. eapply wired_configured; [exact Hcf|exact Hd|].
    cbn [mDescriptor on_config set_mConfig set_mChain mConfig inBuffer outBuffer set_outBuffer set_inBuffer]. by rewrite Ha, bool_decide_true by lia.
  - intros p [Hp| ->%list_elem_of_singleton]%elem_of_app; [|rewrite Hif, Hdm; split; [done|by rewrite Ha]]. split; [by apply HM'|].
    intros Hpa. apply (list_elem_of_fmap_2 mDescriptor) in Hp. rewrite Hd' in Hp. apply list_elem_of_fmap in Hp as (q & Hq & Hqm). rewrite Hq in Hpa. by apply (HM q).
Qed.

(** *** All cases *)

Lemma addEffect_ok w c x ms e m : chain_with w c x ms → w_modules w !! e = Some m → e ∉ mEffects x → mEffectInterface m = true → thread_ok (w_thread w) →
  (is_auxiliary (mDescriptor m) = true → mInBuffer x = mOutBuffer x) →
  wp (addEffect_l c e) (λ r w', w_thread w' = w_thread w ∧ ∃ ms',
    match place m ms with
    | Some k => r = NO_ERROR ∧ (k ≤ length ms)%nat ∧ chain_with w' c (set_mEffects (insertAt e k (mEffects x)) x) ms' ∧ mDescriptor <$> ms' = insertAt (mDescriptor m) k (mDescriptor <$> ms)
    | None => r = INVALID_OPERATION ∧ chain_with w' c x ms'
    end) w.
Proof.
  intros HC Hm He Hi Ht Hio. pose proof HC as (Hc & Hnd & HF & HO & HW & HM). pose proof (modules_in_length _ _ _ HF) as Hlen. unfold place. destruct (is_auxiliary (mDescriptor m)) eqn:Ha.
  - eapply wp_mono; [by eapply addEffect_aux; eauto|]. intros r w' (-> & Hw & ms' & HC' & Hd). split; [done|]. exists ms'. split; [done|]. split; [lia|done].
  - destruct (insert_index (insert_pref (mDescriptor m)) (mDescriptor <$> ms)) as [k|] eqn:Hk.
    + destruct (insert_index_place _ _ _ HO Hk) as (Hle & _). rewrite length_fmap in Hle. destruct (decide (k = length ms)) as [-> |Hne].
      * eapply wp_mono; [by eapply addEffect_end|]. intros r w' (-> & Hw & ms' & HC' & Hd). split; [done|]. exists ms'.
        by rewrite (insertAt_at_end e _ (mEffects x)), (insertAt_at_end _ _ (mDescriptor <$> ms)) by (rewrite ?length_fmap; done).
      * eapply wp_mono; [eapply addEffect_middle; eauto; lia|]. intros r w' (-> & Hw & ms' & HC' & Hd). by split; [|exists ms'].
    + unfold addEffect_l. wp_step. eapply wp_get_module; [done|]. wp_step. eapply wp_on_module; [done|]. wp_step. apply wp_promote; [done|]. see. wp_step. eapply wp_get_chain; [done|]. rewrite Ha.
      wp_step. eapply wp_descriptors; [see; by apply modules_in_insert|]. rewrite Hk. wp_step. split; [done|]. exists ms. split; [done|]. by apply reject_keeps.
Qed.

(** ** Removing an effect *)

Lemma set_same_module w e m : w_modules w !! e = Some m → set_w_modules (<[e := m]> (w_modules w)) w = w.
Proof. intros H. rewrite insert_id by done. by destruct w. Qed.
Lemma wp_attach w e m b (Q : unit → world → Prop) : w_modules w !! e = Some m →
  (∀ a, Q tt (set_w_modules (<[e := set_em_attached a m]> (w_modules w)) w)) → wp (attach e b) Q w.
Proof.
  intros Hm HQ. assert (Q tt w) as Hsame.
  { rewrite <- (set_same_module w e m Hm). specialize (HQ (em_attached m)). by replace (set_em_attached (em_attached m) m) with m in HQ by by destruct m. }
  unfold attach, promote_thread. wp_steps. destruct (th_alive _); [|by wp_step]. destruct (th_stream _); [by eapply wp_on_module|by wp_step].
Qed.
(** An engine that is started or stopped; the module is as it was but for that. *)
Definition same_place (m m' : EffectModule) : Prop := mConfig m' = mConfig m ∧ mStatus m' = mStatus m ∧ same_module m m'.
Lemma wp_engine_call w e m (c : engine_cmd) b (Q : Z → world → Prop) : w_modules w !! e = Some m →
  (∀ r m', same_place m m' → Q r (set_w_modules (<[e := m']> (w_modules w)) w)) →
  wp (status <- send_status e c ;; (when bool_decide (status = 0) && is_pre_or_post (mDescriptor m) do attach e b) ;;; ret status) Q w.
Proof.
  intros Hm HQ. unfold send_status. do 2 wp_step. eapply wp_det; [by apply send_eq|]. destruct (engine_command _ _) as [st cst]. do 2 wp_step.
  destruct (_ && _); [|wp_steps; by apply HQ]. eapply wp_attach; [look|]. intros a. see. rewrite insert_insert_eq. wp_step. by apply HQ.
Qed.
Lemma wp_stop w e m (Q : Z → world → Prop) : w_modules w !! e = Some m →
  (∀ r m', same_place m m' → Q r (set_w_modules (<[e := m']> (w_modules w)) w)) → wp (stop_l e) Q w.
Proof.
  intros Hm HQ. unfold stop_l. wp_step. eapply wp_get_module; [done|]. assert (∀ r, Q r w) as Hw by (intros r; rewrite <- (set_same_module w e m Hm); by apply HQ).
  destruct (negb _); [by wp_step|]. case_bool_decide; [by wp_step|]. by eapply wp_engine_call.
Qed.

Lemma modules_in_delete t es ms i : modules_in t es ms → modules_in t (delete i es) (delete i ms).
Proof. apply Forall2_delete. Qed.
Lemma lookup_delete_list {A} (l : list A) i j : delete i l !! j = if bool_decide (j < i)%nat then l !! j else l !! S j.
Proof. case_bool_decide; [by apply list_lookup_delete_lt|apply list_lookup_delete_ge; lia]. Qed.
(** The ones that stay, when what comes to be last is connected to the output. *)
Lemma wired_delete x ms i m : wired x ms → ordered (mDescriptor <$> ms) → (∀ p, p ∈ ms → is_auxiliary (mDescriptor p) = true → mInBuffer x = mOutBuffer x) →
  ms !! i = Some m → (is_auxiliary (mDescriptor m) = true ∨ S i ≠ length ms ∨ i = 0%nat) → wired x (delete i ms).
Proof.
  intros HW (HA & _) Haux Hi Hc j p Hj. pose proof (lookup_lt_Some _ _ _ Hi) as Hlt. rewrite length_delete by by eexists. rewrite lookup_delete_list in Hj. case_bool_decide as Hji.
  - destruct (decide (S i = length ms)) as [Hl|Hl]; [|apply (wired_at_place x (length ms) j); [by apply HW|lia]].
    destruct Hc as [Hm|[Hc| ->]]; [|done|lia]. assert (is_auxiliary (mDescriptor p) = true) as Hp.
    { refine (sorted_from (λ a b, is_auxiliary b = true → is_auxiliary a = true) _ j (mDescriptor p) (mDescriptor m) (λ _ H, H) HA _ _ Hm); [by rewrite list_lookup_fmap, Hj|].
      apply list_elem_of_lookup_2 with (i - j)%nat. rewrite lookup_drop. replace (j + (i - j))%nat with i by lia. by rewrite list_lookup_fmap, Hi. }
    destruct (HW j p Hj) as [H1 H2]. rewrite Hp in H1. split; [by rewrite Hp|done].
  - apply (wired_at_place x (length ms) (S j)); [by apply HW|]. apply lookup_lt_Some in Hj. lia.
Qed.
Lemma wired_last_out x t ms p p' : wired x ms → ms !! pred (pred (length ms)) = Some p → (2 ≤ length ms)%nat →
  (∀ p, p ∈ ms → is_auxiliary (mDescriptor p) = true → mInBuffer x = mOutBuffer x) →
  mConfig p' = configured t (on_config (set_outBuffer (mOutBuffer x)) p) → mDescriptor p' = mDescriptor p → wired x (delete (pred (length ms)) (<[pred (pred (length ms)) := p']> ms)).
Proof.
  intros HW Hp Hl Haux Hc Hd j q Hj. rewrite length_delete by (apply lookup_lt_is_Some; rewrite length_insert; lia). rewrite length_insert. rewrite lookup_delete_list in Hj.
  case_bool_decide as Hji; [|apply lookup_lt_Some in Hj; rewrite length_insert in Hj; lia].
  apply list_lookup_insert_Some in Hj as [(<- & -> & Hlt)|[Hne Hq]].
  - eapply wired_configured; [exact Hc|exact Hd|]. cbn [mDescriptor on_config set_mConfig mConfig inBuffer outBuffer set_outBuffer]. destruct (HW _ _ Hp) as [H1 _].
    destruct (is_auxiliary (mDescriptor p)) eqn:Hpa; [symmetry; apply (Haux p); [by apply list_elem_of_lookup_2 with (pred (pred (length ms)))|done]|].
    rewrite bool_decide_true by lia. by destruct H1.
  - apply (wired_at_place x (length ms) j); [by apply HW|lia].
Qed.

(** The end of [removeEffect_l]: the effect is taken out of the list. *)
Lemma wp_take_out w c x ms i n (Q : nat → world → Prop) : w_chains w !! c = Some x → NoDup (mEffects x) → modules_in (w_modules w) (mEffects x) ms → ordered (mDescriptor <$> ms) →
  wired x (delete i ms) → (∀ m, m ∈ ms → mEffectInterface m = true ∧ (is_auxiliary (mDescriptor m) = true → mInBuffer x = mOutBuffer x)) →
  (∀ w', w_thread w' = w_thread w → chain_with w' c (set_mEffects (delete i (mEffects x)) x) (delete i ms) → Q n w') →
  wp (on_chain c (set_mEffects (delete i (mEffects x))) ;;; ret n) Q w.
Proof.
  intros Hc Hnd HF HO HW HM HQ. wp_step. eapply wp_on_chain; [done|]. wp_step. apply HQ; [done|]. split; [|split; [|split; [|split; [|split]]]]; see.
  - apply lookup_insert_eq.
  - cbn. eapply sublist_NoDup; [exact Hnd|apply sublist_delete].
  - cbn. by apply modules_in_delete.
  - rewrite list_fmap_delete. by apply delete_ordered.
  - done.
  - intros m [j Hj]%list_elem_of_lookup. apply HM. rewrite lookup_delete_list in Hj. case_bool_decide; by eapply list_elem_of_lookup_2.
Qed.

Lemma removeEffect_ok w c x ms i e : chain_with w c x ms → mEffects x !! i = Some e → thread_ok (w_thread w) →
  wp (removeEffect_l c e) (λ n w', n = pred (length ms) ∧ w_thread w' = w_thread w ∧ ∃ ms', chain_with w' c (set_mEffects (delete i (mEffects x)) x) ms' ∧
    mDescriptor <$> ms' = delete i (mDescriptor <$> ms)) w.
Proof.
  intros (Hc & Hnd & HF & HO & HW & HM) He Ht. pose proof (modules_in_length _ _ _ HF) as Hlen. destruct (Forall2_lookup_l _ _ _ _ _ HF He) as (m & Hi & Hm).
  unfold removeEffect_l. wp_step. eapply wp_get_chain; [done|]. rewrite (indexOf_lookup _ _ _ Hnd He). wp_step. eapply wp_get_module; [done|]. cbv beta.
  (* the engine may be stopped *)
  assert (∀ (Q : unit → world → Prop), (∀ m', same_place m m' → Q tt (set_w_modules (<[e := m']> (w_modules w)) w)) →
    wp (when bool_decide (mState m = ACTIVE) || bool_decide (mState m = STOPPING) do (stop_l e ;;; ret tt)) Q w) as Hstop.
  { intros Q HQ. apply wp_when; intros _; [|rewrite <- (set_same_module w e m Hm); by apply HQ]. wp_step. eapply wp_stop; [done|]. intros r m' Hs. wp_step. by apply HQ. }
  wp_step. apply Hstop. intros m' (Hcf & _ & Hd & Hif & _). clear Hstop.
  assert (modules_in (<[e := m']> (w_modules w)) (mEffects x) (<[i := m']> ms)) as HF' by (by apply modules_in_update).
  assert (mDescriptor <$> <[i := m']> ms = mDescriptor <$> ms) as Hds by (rewrite list_fmap_insert, Hd; apply list_insert_id; by rewrite list_lookup_fmap, Hi).
  assert (∀ q, q ∈ <[i := m']> ms → mEffectInterface q = true ∧ (is_auxiliary (mDescriptor q) = true → mInBuffer x = mOutBuffer x)) as HM'.
  { intros q [j Hq]%list_elem_of_lookup. apply list_lookup_insert_Some in Hq as [(_ & -> & _)|[_ Hq]]; [rewrite Hif, Hd; apply HM; by apply list_elem_of_lookup_2 with i|apply HM; by apply list_elem_of_lookup_2 with j]. }
  assert (wired x (<[i := m']> ms)) as HW'.
  { intros j q Hq. rewrite length_insert. apply list_lookup_insert_Some in Hq as [(<- & -> & _)|[_ Hq]]; [|by apply HW]. apply (wired_at_same x _ i m); [by apply HW|done|done]. }
  assert (mDescriptor <$> delete i (<[i := m']> ms) = delete i (mDescriptor <$> ms)) as Hdel by (by rewrite list_fmap_delete, Hds).
  destruct (is_auxiliary (mDescriptor m)) eqn:Ha; [|destruct (bool_decide (S i = _) && _) eqn:Hlast].
  - do 2 wp_step. eapply wp_take_out; see; [done|done|exact HF'|by rewrite Hds| |exact HM'|].
    + apply (wired_delete x _ i m'); [done|by rewrite Hds|intros q Hq; by apply HM'|by apply list_lookup_insert_eq, lookup_lt_Some with m|left; by rewrite Hd].
    + intros w' Hth HC. split; [by rewrite Hlen|]. split; [done|]. by exists (delete i (<[i := m']> ms)).
  - apply andb_true_iff in Hlast as [H1%bool_decide_eq_true H2%bool_decide_eq_true]. assert (∃ p, <[i := m']> ms !! pred i = Some p) as [p Hp].
    { apply lookup_lt_is_Some. rewrite length_insert. lia. }
    destruct (Forall2_lookup_r _ _ _ _ _ HF' Hp) as (e' & He' & Hpt). rewrite He'. do 2 wp_step. eapply wp_det; [done|]. wp_step. eapply wp_on_module; [exact Hpt|]. see.
    wp_step. eapply wp_configure; [look|apply (HM' p); by apply list_elem_of_lookup_2 with (pred i)|done|]. see. intros r p' Hpc (Hpd & Hpi & _). rewrite insert_insert_eq. wp_step.
    eapply wp_take_out; see; [done|done|by apply modules_in_update| | | |].
    + rewrite list_fmap_insert, Hpd. rewrite list_insert_id; [by rewrite Hds|]. by rewrite list_lookup_fmap, Hp.
    + replace i with (pred (length (<[i := m']> ms))) at 1 by (rewrite length_insert; lia). replace (pred i) with (pred (pred (length (<[i := m']> ms)))) in * by (rewrite length_insert; lia).
      eapply wired_last_out; [done|exact Hp|rewrite length_insert; lia|intros q Hq; by apply HM'|exact Hpc|exact Hpd].
    + intros q [j Hq]%list_elem_of_lookup. apply list_lookup_insert_Some in Hq as [(_ & -> & _)|[_ Hq]]; [rewrite Hpi, Hpd; apply (HM' p); by apply list_elem_of_lookup_2 with (pred i)|apply HM'; by apply list_elem_of_lookup_2 with j].
    + intros w' Hth HC. split; [by rewrite Hlen|]. split; [done|]. eexists. split; [exact HC|]. rewrite list_fmap_delete, list_fmap_insert, Hpd, list_insert_id; [by rewrite Hds|]. by rewrite list_lookup_fmap, Hp.
  - apply andb_false_iff in Hlast. do 2 wp_step. eapply wp_take_out; see; [done|done|exact HF'|by rewrite Hds| |exact HM'|].
    + apply (wired_delete x _ i m'); [done|by rewrite Hds|intros q Hq; by apply HM'|by apply list_lookup_insert_eq, lookup_lt_Some with m|right].
      rewrite length_insert, <- Hlen. destruct Hlast as [H1%bool_decide_eq_false|H1%bool_decide_eq_false]; [by left|right; lia].
    + intros w' Hth HC. split; [by rewrite Hlen|]. split; [done|]. by exists (delete i (<[i := m']> ms)).
Qed.
End chain.
