(* ===== verification/EffectsState.v ===== *)
(** * Turning an effect on and off, and suspending it

    The states of a module of [Effects], and the engine that follows them: the engine is
    on just when the module is active or about to stop; one that is turned off becomes
    idle within the rounds it was given.  At the end: requests to suspend a type. *)

From Stdlib Require Import ZArith Lia.
From stdpp Require Import base tactics numbers option list gmap.
From S2P Require Import Prelude Words AudioPrimitives Effects EffectsControl EffectsChain EffectThread.

Section state.
Context {Env : EffectEnv}.

(** ** The engine *)

(** Whether an engine that had been sent [sent] has done as [c] says. *)
Definition accepts (sent : list engine_cmd) (c : engine_cmd) : bool := let '(status, reply) := engine_command sent c in bool_decide (status = 0) && bool_decide (reply = 0).
(** Whether it is on after some commands, the latest one first. *)
Fixpoint on_after (rev_sent : list engine_cmd) : bool :=
  match rev_sent with
  | [] => false
  | CMD_ENABLE :: l => accepts (rev l) CMD_ENABLE || on_after l
  | CMD_DISABLE :: l => negb (accepts (rev l) CMD_DISABLE) && on_after l
  | _ :: l => on_after l
  end.
Definition engine_on (m : EffectModule) : bool := on_after (rev (em_sent m)).
Definition should_run (s : effect_state) : bool := match s with ACTIVE | STOPPING => true | _ => false end.
(** The module has an engine that works, and it is on just when it should be. *)
Definition follows (m : EffectModule) : Prop := mEffectInterface m = true ∧ mStatus m = NO_ERROR ∧ engine_on m = should_run (mState m).

Lemma engine_on_send m m' c : em_sent m' = em_sent m ++ [c] → engine_on m' =
  match c with CMD_ENABLE => accepts (em_sent m) c || engine_on m | CMD_DISABLE => negb (accepts (em_sent m) c) && engine_on m | _ => engine_on m end.
Proof. unfold engine_on. intros ->. rewrite rev_app_distr. cbn. rewrite rev_involutive. by destruct c. Qed.

(** A call of the engine, whatever it does to the driver's list. *)
Lemma wp_engine_answer w e m (c : engine_cmd) b (Q : Z → world → Prop) : w_modules w !! e = Some m →
  (∀ r m', same_place m m' → em_sent m' = em_sent m ++ [c] → mMaxDisableWaitCnt m' = mMaxDisableWaitCnt m ∧ mSuspended m' = mSuspended m ∧ mSessionId m' = mSessionId m → bool_decide (r = 0) = accepts (em_sent m) c →
     Q r (set_w_modules (<[e := m']> (w_modules w)) w)) →
  wp (status <- send_status e c ;; (when bool_decide (status = 0) && is_pre_or_post (mDescriptor m) do attach e b) ;;; ret status) Q w.
Proof.
  intros Hm HQ. unfold send_status. do 2 wp_step. eapply wp_det; [by apply send_eq|]. destruct (engine_command (em_sent m) c) as [st cst] eqn:Ec. do 2 wp_step.
  assert (bool_decide ((if bool_decide (st = 0) then cst else st) = 0) = accepts (em_sent m) c) as Hac.
  { unfold accepts. rewrite Ec. destruct (bool_decide (st = 0)) eqn:E; [done|]. by rewrite E. }
  destruct (_ && _); [|wp_steps; by apply HQ]. eapply wp_attach; [look|]. intros a. see. rewrite insert_insert_eq. wp_step. by apply HQ.
Qed.

(** What stays of a module but for its state and its engine's. *)
Definition same_use (m m' : EffectModule) : Prop :=
  mConfig m' = mConfig m ∧ mDescriptor m' = mDescriptor m ∧ mHandles m' = mHandles m ∧
  mMaxDisableWaitCnt m' = mMaxDisableWaitCnt m ∧ mSuspended m' = mSuspended m ∧ mSessionId m' = mSessionId m.

Definition disables : Prop := ∀ sent, accepts sent CMD_DISABLE = true.
Definition enables : Prop := ∀ sent, accepts sent CMD_ENABLE = true.
Definition started (s : effect_state) : Prop := s = ACTIVE ∨ s = IDLE ∧ ¬ enables.
Lemma started_enables s : started s → enables → s = ACTIVE.
Proof. by intros [-> |[_ ?]]. Qed.

(** ** The steps *)

Lemma wp_reset_l w e m (Q : unit → world → Prop) : w_modules w !! e = Some m → follows m →
  Q tt (set_w_modules (<[e := set_em_sent (em_sent m ++ [CMD_RESET]) m]> (w_modules w)) w) → wp (reset_l e) Q w.
Proof.
  intros Hm (Hi & Hs & _) HQ. unfold reset_l. wp_step. eapply wp_get_module; [done|]. rewrite Hi, Hs, bool_decide_false by auto. cbn [orb negb].
  wp_step. eapply wp_det; [by apply send_eq|]. by wp_step.
Qed.

(** The part of [updateState] that starts the engine. *)
Lemma wp_start_up w e m (Q : unit → world → Prop) : w_modules w !! e = Some m → mEffectInterface m = true → mStatus m = NO_ERROR → engine_on m = false →
  is_auxiliary (mDescriptor m) = false →
  (∀ m', follows m' → same_use m m' → started (mState m') → Q tt (set_w_modules (<[e := m']> (w_modules w)) w)) → wp (start_up e) Q w.
Proof.
  intros Hm Hi Hs Hon Ha HQ. unfold start_up. wp_step. eapply wp_get_module; [done|]. rewrite Ha. do 2 wp_step. wp_step. unfold start_l. wp_step. eapply wp_get_module; [done|].
  rewrite Hi, Hs, bool_decide_false by auto. cbn [negb]. eapply wp_engine_answer; [done|]. intros r m' (Hc & Hst & Hd & Hif & Hh & _) Hsent Hmax Hr. cbv beta.
  eapply wp_on_module; [look|]. see. rewrite insert_insert_eq. apply HQ.
  - split; [by rewrite <- Hi|]. split; [by rewrite <- Hs|]. change (engine_on (set_mState _ m')) with (engine_on m'). rewrite (engine_on_send m m' _ Hsent), Hon, orb_false_r, <- Hr.
    unfold NO_ERROR. by case_bool_decide.
  - done.
  - cbn. unfold NO_ERROR. case_bool_decide as H0; [by left|]. right. split; [done|]. intros HE. by rewrite HE in Hr.
Qed.

(** [updateState], from each state. *)
Definition updated (m m' : EffectModule) : Prop :=
  match mState m with
  | RESTART | STARTING => started (mState m')
  | STOPPING => mState m' = STOPPED ∧ mDisableWaitCnt m' = mMaxDisableWaitCnt m
  | STOPPED => let n := u32 (mDisableWaitCnt m - 1) in mDisableWaitCnt m' = n ∧ mState m' = if bool_decide (n = 0) then IDLE else STOPPED
  | _ => m' = m
  end.
Lemma wp_updateState w e m (Q : unit → world → Prop) : w_modules w !! e = Some m → follows m → is_auxiliary (mDescriptor m) = false → disables →
  (∀ m', follows m' → same_use m m' → updated m m' → Q tt (set_w_modules (<[e := m']> (w_modules w)) w)) → wp (updateState e) Q w.
Proof.
  intros Hm HFo Ha HD HQ. pose proof HFo as (Hi & Hs & Hon). unfold updateState, updated in *. wp_step. eapply wp_get_module; [done|]. destruct (mState m) eqn:Es.
  - wp_step. rewrite <- (set_same_module w e m Hm). by apply HQ.
  - wp_step. eapply wp_reset_l; [done|done|]. eapply wp_start_up; [look|done|done| |done|].
    + rewrite (engine_on_send m _ CMD_RESET) by done. by rewrite Hon.
    + see. intros m' HF' HU' Hst. rewrite insert_insert_eq. by apply HQ.
  - eapply wp_start_up; [look|done|done|by rewrite Hon|done|]. intros m' HF' HU' Hst. by apply HQ.
  - wp_step. rewrite <- (set_same_module w e m Hm). by apply HQ.
  - wp_step. unfold stop_l. wp_step. eapply wp_get_module; [done|]. rewrite Hi, Hs, bool_decide_false by auto. cbn [negb]. eapply wp_engine_answer; [done|].
    intros r m' (Hc & Hst & Hd & Hif & Hh & _) Hsent Hmax Hr. cbv beta. rewrite HD in Hr. apply bool_decide_eq_true in Hr as ->. wp_step. eapply wp_on_module; [look|]. see. rewrite insert_insert_eq.
    eapply wp_on_module; [look|]. see. rewrite insert_insert_eq. apply HQ; [|done|done]. split; [by rewrite <- Hi|]. split; [by rewrite <- Hs|].
    match goal with |- engine_on ?x = _ => change (engine_on x) with (engine_on m') end. rewrite (engine_on_send m m' _ Hsent), HD. done.
  - wp_step. eapply wp_on_module; [done|]. case_bool_decide as Hz.
    + wp_step. eapply wp_reset_l; [look|done|]. see. rewrite insert_insert_eq. eapply wp_on_module; [look|]. see. rewrite insert_insert_eq. apply HQ; [|done|].
      * split; [done|]. split; [done|]. rewrite (engine_on_send m _ CMD_RESET) by done. by rewrite Hon.
      * split; [done|]. cbn. done.
    + wp_step. apply HQ; [|done|done]. split; [done|]. split; [done|]. cbn [mState set_mDisableWaitCnt]. rewrite Es. done.
  - wp_step. rewrite <- (set_same_module w e m Hm). by apply HQ.
Qed.

(** ** Turning off *)

(** The handles but for the first, that are told. *)
Definition told_only (l : list Z) (t t' : gmap Z EffectHandle) : Prop := (∀ k, k ∉ l → t' !! k = t !! k) ∧ (∀ k, is_Some (t !! k) → is_Some (t' !! k)).
Lemma told_refl l t : told_only l t t.
Proof. done. Qed.
Lemma told_cons h x l t t' : told_only l (<[h := x]> t) t' → told_only (h :: l) t t'.
Proof.
  intros [H1 H2]. split.
  - intros k [Hne Hk]%not_elem_of_cons. rewrite H1 by done. by rewrite lookup_insert_ne.
  - intros k Hk. apply H2. rewrite lookup_insert_is_Some'. by right.
Qed.
Lemma told_more h l t t' : told_only l t t' → told_only (h :: l) t t'.
Proof. intros [H1 H2]. split; [|done]. intros k [_ Hk]%not_elem_of_cons. by apply H1. Qed.
Lemma wp_each_told l f w (Q : unit → world → Prop) : Forall (λ h, is_Some (w_handles w !! h)) l → (∀ t, told_only l (w_handles w) t → Q tt (set_w_handles t w)) →
  wp (each l (λ h, x <- get_handle h ;; when negb (mDestroyed x) do on_handle h f)) Q w.
Proof.
  revert w. induction l as [|h l IH]; intros w HF HQ; cbn [each].
  - wp_step. specialize (HQ (w_handles w) (told_refl _ _)). by destruct w.
  - apply Forall_cons in HF as [[x Hx] HF]. do 2 wp_step. eapply wp_get_handle; [done|]. apply wp_when; intros _; [|apply IH; [done|intros t Ht; by apply HQ, told_more]].
    eapply wp_on_handle; [done|]. apply IH; [|intros t Ht; apply (HQ t); eapply told_cons; exact Ht]. eapply Forall_impl; [exact HF|]. intros k. see. rewrite lookup_insert_is_Some'. by right.
Qed.

(** The state an effect goes to when it is turned on or off. *)
Definition flipped (s : effect_state) : effect_state :=
  match s with IDLE => STARTING | STOPPED => RESTART | STOPPING => ACTIVE | RESTART => STOPPED | STARTING => IDLE | ACTIVE => STOPPING | DESTROYED => DESTROYED end.
Definition turn (b : bool) (m : EffectModule) : EffectModule := if bool_decide (b = isEnabled m) then m else set_mState (flipped (mState m)) m.
Lemma turn_enabled b m : mState m ≠ DESTROYED → isEnabled (turn b m) = b.
Proof. unfold turn. case_bool_decide as Hb; intros HD; [done|]. unfold isEnabled in *. cbn [mState set_mState]. by destruct (mState m), b. Qed.
Lemma turn_follows b m : follows m → follows (turn b m).
Proof.
  unfold turn. case_bool_decide as Hb; [done|]. intros (H1 & H2 & H3). split; [done|]. split; [done|]. transitivity (engine_on m); [done|]. rewrite H3.
  unfold isEnabled in Hb. cbn [mState set_mState]. by destruct (mState m), b.
Qed.
Definition allows : Prop := ∀ l id, policy l (setEffectEnabled id true) = NO_ERROR.
Lemma wp_setEnabled w e m b (Q : Z → world → Prop) : w_modules w !! e = Some m → mState m ≠ DESTROYED → (b = true → allows) → Forall (λ h, is_Some (w_handles w !! h)) (tail (mHandles m)) →
  (∀ t l, told_only (tail (mHandles m)) (w_handles w) t → Q NO_ERROR (set_w_handles t (set_w_modules (<[e := turn b m]> (w_modules w)) (set_w_policy l w)))) → wp (setEnabled_l e b) Q w.
Proof.
  intros Hm Hs Hp HF HQ. unfold setEnabled_l. wp_step. eapply wp_get_module; [done|]. destruct (decide (b = isEnabled m)) as [Hb|Hb].
  2: assert (turn b m = set_mState (flipped (mState m)) m) as Ht by (unfold turn; by rewrite bool_decide_false).
  2: rewrite Ht in HQ; rewrite bool_decide_true by done.
  - rewrite bool_decide_false by auto. wp_step. assert (turn b m = m) as Ht by (unfold turn; by rewrite bool_decide_true). rewrite Ht in HQ. specialize (HQ (w_handles w) (w_policy w) (told_refl _ _)). rewrite insert_id in HQ by done. by destruct w.
  - unfold ask_policy. wp_steps.
    assert (b && bool_decide (policy (w_policy w) (setEffectEnabled (mId m) b) ≠ NO_ERROR) = false) as ->. { destruct b; [|done]. cbn [andb]. by rewrite Hp. }
    assert (∀ s, wp (on_module e (set_mState s) ;;; others e (λ h, handle_setEnabled h b) ;;; ret NO_ERROR) (λ r w', ∃ t, told_only (tail (mHandles m)) (w_handles w) t ∧ r = NO_ERROR ∧
      w' = set_w_handles t (set_w_modules (<[e := set_mState s m]> (w_modules w)) (set_w_policy (w_policy w ++ [setEffectEnabled (mId m) b]) w))) (set_w_policy (w_policy w ++ [setEffectEnabled (mId m) b]) w)) as Hgo.
    { intros s. wp_step. eapply wp_on_module; [done|]. unfold others. do 2 wp_step. eapply wp_get_module; [look|]. apply wp_each_told; [done|]. intros t Htold. wp_step. by exists t. }
    destruct (mState m); try done; (eapply wp_mono; [apply Hgo|]; intros r w' (t & Htold & -> & ->); by apply (HQ t)).
Qed.

(** Its buffers are there. *)
Definition buffered (w : world) (m : EffectModule) : Prop := is_Some (w_mem w !! inBuffer (mConfig m)) ∧ is_Some (w_mem w !! outBuffer (mConfig m)).
(** [process]: the engine may have nothing more to say. *)
Lemma wp_process w e m (Q : unit → world → Prop) : w_modules w !! e = Some m → mStatus m = NO_ERROR → mState m ∈ [STOPPING; STOPPED] → is_auxiliary (mDescriptor m) = false → buffered w m →
  (∀ m' t, m' = m ∨ mState m = STOPPED ∧ m' = set_mDisableWaitCnt 1 m → buffered (set_w_mem t w) m → Q tt (set_w_modules (<[e := m']> (w_modules w)) (set_w_mem t w))) →
  wp (EffectModule_process e) Q w.
Proof.
  intros Hm Hst Hs Ha [[ins Hin] [outs Hout]] HQ. assert (Q tt w) as Hsame.
  { specialize (HQ m (w_mem w) (or_introl eq_refl)). rewrite insert_id in HQ by done. destruct w. apply HQ. by split; eexists. }
  unfold EffectModule_process. wp_step. eapply wp_get_module; [done|]. destruct (_ || _); [by wp_step|]. rewrite Ha.
  assert (isProcessEnabled m = true) as ->. { unfold isProcessEnabled. rewrite Hst, bool_decide_false by auto. by apply elem_of_cons in Hs as [-> | ->%list_elem_of_singleton]. }
  do 3 wp_step. unfold set_mem, get_mem. do 2 wp_step. eapply wp_deref; [exact Hin|]. do 3 wp_step. eapply wp_deref; [exact Hout|].
  destruct (engine_process _ _ _) as [outs' r]. do 4 wp_step. eapply wp_deref; [exact Hout|]. do 2 wp_step.
  assert (buffered (set_w_mem (<[outBuffer (mConfig m) := outs']> (w_mem w)) w) m) as Hb.
  { unfold buffered. see. rewrite !lookup_insert_is_Some'. split; [right; by eexists|by left]. }
  apply wp_when; intros Hr.
  - apply andb_true_iff in Hr as [Hr%bool_decide_eq_true _]. eapply wp_on_module; [done|]. wp_step. apply HQ; [by right|done].
  - wp_step. specialize (HQ m (<[outBuffer (mConfig m) := outs']> (w_mem w)) (or_introl eq_refl) Hb). by rewrite insert_id in HQ.
Qed.

(** What the thread does with a module each time around; it does not always process it. *)
Fixpoint rounds (e : Z) (plays : list bool) : MW unit :=
  match plays with
  | [] => ret tt
  | plays0 :: plays => (when plays0 do EffectModule_process e) ;;; updateState e ;;; rounds e plays
  end.
(** The module is idle, or waits to be; its engine is off. *)
Definition waits (w : world) (e : Z) (s : effect_state) : Prop :=
  ∃ m, w_modules w !! e = Some m ∧ follows m ∧ mState m = s.
Definition ready (w : world) (e : Z) (m : EffectModule) : Prop :=
  w_modules w !! e = Some m ∧ follows m ∧ is_auxiliary (mDescriptor m) = false ∧ buffered w m.

Lemma buffered_use w w' m m' : buffered w m → w_mem w' = w_mem w → mConfig m' = mConfig m → buffered w' m'.
Proof. unfold buffered. by intros H -> ->. Qed.

(** One round of a module that is to stop, or waits. *)
Lemma wp_round w e m b (Q : unit → world → Prop) : ready w e m → disables → mState m ∈ [STOPPING; STOPPED] →
  (∀ w' m' m0, ready w' e m' → m0 = m ∨ mState m = STOPPED ∧ m0 = set_mDisableWaitCnt 1 m → same_use m m' → updated m0 m' → Q tt w') →
  wp ((when b do EffectModule_process e) ;;; updateState e) Q w.
Proof.
  intros (Hm & HF & Ha & Hb) HD Hs HQ. wp_step.
  assert (∀ m0 t, m0 = m ∨ mState m = STOPPED ∧ m0 = set_mDisableWaitCnt 1 m → buffered (set_w_mem t w) m →
    wp (updateState e) Q (set_w_modules (<[e := m0]> (w_modules w)) (set_w_mem t w))) as Hup.
  { intros m0 t Hm0 Hb0. assert (follows m0 ∧ same_use m m0) as [HF0 HU0] by (by destruct Hm0 as [-> |[_ ->]]).
    destruct HU0 as (U1 & U2 & U3 & U4 & U5 & U6). eapply wp_updateState; [look|done|by rewrite U2|done|]. see. intros m' HF' (V1 & V2 & V3 & V4 & V5 & V6) Hup. rewrite insert_insert_eq. apply (HQ _ m' m0); [|done|by repeat split; congruence|done].
    split; [look|]. split; [done|]. split; [by rewrite V2, U2|]. eapply buffered_use; [exact Hb0|done|congruence]. }
  apply wp_when; intros _.
  - eapply wp_process; [done|apply HF|done|done|done|]. intros m0 t Hm0 Hb0. by apply Hup.
  - specialize (Hup m (w_mem w) (or_introl eq_refl)). rewrite insert_id in Hup by done. destruct w. by apply Hup.
Qed.

Lemma wp_rounds w e b plays (Q : unit → world → Prop) :
  wp ((when b do EffectModule_process e) ;;; updateState e) (λ _ w', wp (rounds e plays) Q w') w → wp (rounds e (b :: plays)) Q w.
Proof. intros H. cbn [rounds]. apply wp_bind_inv in H. apply wp_bind. eapply wp_mono; [exact H|]. intros ? w' H'. by apply wp_bind. Qed.

(** A module that waits becomes idle before its rounds are over. *)
Lemma waits_ends plays w e m : ready w e m → disables → mState m = STOPPED → 0 < mDisableWaitCnt m < 2 ^ 32 → mDisableWaitCnt m <= Z.of_nat (length plays) →
  ∃ k, (0 < k <= length plays)%nat ∧ Z.of_nat k <= mDisableWaitCnt m ∧
    ∀ j, (j <= k)%nat → wp (rounds e (take j plays)) (λ _ w', waits w' e (if bool_decide (j = k) then IDLE else STOPPED)) w.
Proof.
  revert w m. induction plays as [|b plays IH]; intros w m HR HD Hs Hn Hl; cbn [length] in *; [lia|].
  assert (wp (rounds e []) (λ _ w', waits w' e STOPPED) w) as H0 by (exists m; split; [apply HR|split; [apply HR|done]]).
  assert (wp ((when b do EffectModule_process e) ;;; updateState e) (λ _ w', ∃ m', ready w' e m' ∧
    (mState m' = IDLE ∨ mState m' = STOPPED ∧ 0 < mDisableWaitCnt m' <= mDisableWaitCnt m - 1)) w) as Hround.
  { eapply wp_round; [done|done|rewrite Hs; set_solver|]. intros w' m' m0 HR' Hm0 _ Hup. exists m'. split; [done|]. unfold updated in Hup.
    assert (mState m0 = STOPPED ∧ 0 < mDisableWaitCnt m0 <= mDisableWaitCnt m) as [Hs0 Hc] by (destruct Hm0 as [-> |[_ ->]]; split; try done; cbn; lia).
    rewrite Hs0, u32_small in Hup by lia. destruct Hup as [Hn' Hs']. case_bool_decide; [by left|]. right. split; [done|]. rewrite Hn'. lia. }
  apply wp_elim in Hround as ([] & w' & Hrun & m' & HR' & Hcase).
  assert (∀ l Q, wp (rounds e l) Q w' → wp (rounds e (b :: l)) Q w) as Hgo by (intros l Q H; apply wp_rounds; by eapply wp_det).
  destruct Hcase as [Hi|[Hs' Hn']].
  - exists 1%nat. split; [lia|]. split; [lia|]. intros [|[|j]] Hj; [|cbn [take]|lia]; [by rewrite bool_decide_false by lia|].
    apply Hgo. exists m'. split; [apply HR'|]. by split; [apply HR'|].
  - destruct (IH w' m' HR' HD Hs' ltac:(lia) ltac:(lia)) as (k & Hk & Hkn & H). exists (S k). split; [lia|]. split; [lia|]. intros [|j] Hj; [by rewrite bool_decide_false by lia|].
    cbn [take]. apply Hgo. rewrite (bool_decide_ext (S j = S k) (j = k)) by lia. apply H. lia.
Qed.

(** Turning off, and the first round. *)
Lemma turning_off w e m b : ready w e m → disables → mState m = ACTIVE → Forall (λ h, is_Some (w_handles w !! h)) (mHandles m) →
  ∃ w' m', ready w' e m' ∧ mState m' = STOPPED ∧ mDisableWaitCnt m' = mMaxDisableWaitCnt m ∧
    ∀ l Q, wp (rounds e l) Q w' → wp (setEnabled e false ;;; rounds e (b :: l)) Q w.
Proof.
  intros (Hm & HF & Ha & Hb) HD Hs HH.
  assert (wp (setEnabled e false ;;; ((when b do EffectModule_process e) ;;; updateState e)) (λ _ w', ∃ m', ready w' e m' ∧ mState m' = STOPPED ∧ mDisableWaitCnt m' = mMaxDisableWaitCnt m) w) as Hrun.
  { wp_step. unfold setEnabled. eapply wp_setEnabled; [done|by rewrite Hs|done| |].
    { destruct (mHandles m); [constructor|]. by apply Forall_cons in HH as [_ HH]. }
    intros t p _. assert (turn false m = set_mState STOPPING m) as -> by (unfold turn, isEnabled; by rewrite Hs).
    eapply wp_round; [|done| |].
    - split; [look|]. split; [|done]. destruct HF as (H1 & H2 & H3). split; [done|]. split; [done|]. transitivity (engine_on m); [done|]. by rewrite H3, Hs.
    - set_solver.
    - intros w' m' m0 HR [-> |[? _]] _ Hup; [|done]. by exists m'. }
  apply wp_bind_inv in Hrun. apply wp_elim in Hrun as (r & w1 & H1 & H2). apply wp_elim in H2 as ([] & w2 & H2 & m' & HR & Hs' & Hn'). exists w2, m'. split; [done|]. split; [done|]. split; [done|].
  intros l Q HQ. apply wp_bind. eapply wp_det; [exact H1|]. apply wp_rounds. by eapply wp_det.
Qed.
End state.

(** * Suspending an effect for others

    The requests to suspend effects of a type in a session, in [Effects] and [EffectThread],
    with the calls of the application that controls such an effect: how they keep in
    step with what was asked for. *)

(** What happens to an effect: another effect suspends the type, or no longer does; the
    application turns it on or off; the thread comes around. *)
Inductive suspend_op := Suspend | Unsuspend | Enable | Disable | Round.

Section suspend.
Context {Env : EffectEnv}.
(** The effect [e], of the chain [c], and the handle [h] that controls it. *)
Context (c e h session : Z) (type : uuid).

Definition perform (o : suspend_op) : MW Z :=
  match o with
  | Suspend => thread_setEffectSuspended_l (Some type) true session ;;; ret NO_ERROR
  | Unsuspend => thread_setEffectSuspended_l (Some type) false session ;;; ret NO_ERROR
  | Enable => handle_enable h
  | Disable => handle_disable h
  | Round => updateState e ;;; ret NO_ERROR
  end.
Fixpoint performs (l : list suspend_op) : MW (list Z) :=
  match l with [] => ret [] | o :: l => r <- perform o ;; rs <- performs l ;; ret (r :: rs) end.

(** Whether the application wants the effect, and how many requests suspend it. *)
Definition wanted (s : bool * nat) (o : suspend_op) : bool * nat :=
  match o with Suspend => (s.1, S s.2) | Unsuspend => (s.1, pred s.2) | Enable => (true, s.2) | Disable => (false, s.2) | Round => s end.

(** ** What is as it should be *)

(** What else there is hangs together: the chains of the thread are there, and the effects and
    handles of other chains, which are not the effect and not its handle. *)
Definition linked (w : world) : Prop :=
  Forall (λ k, is_Some (w_chains w !! k)) (mEffectChains (w_thread w)) ∧
  (∀ k z, k ≠ c → w_chains w !! k = Some z → Forall (λ i, i ≠ e ∧ is_Some (w_modules w !! i)) (mEffects z) ∧
     ∀ key d, mSuspendedEffects z !! key = Some d → sd_mEffect d ≠ e) ∧
  ∀ i p, i ≠ e → w_modules w !! i = Some p → (h ∉ mHandles p) ∧ Forall (λ k, is_Some (w_handles w !! k)) (mHandles p).
(** The thread has the chain.  Turning on an effect of an application on a thread that plays
    suspends all effects of the output mix, which are of another chain. *)
Definition thread_fits (w : world) : Prop :=
  th_alive (w_thread w) = true ∧
  (mType (w_thread w) = RECORD ∨ session = AUDIO_SESSION_OUTPUT_MIX ∨ session = AUDIO_SESSION_OUTPUT_STAGE ∨ linked w) ∧
  ∃ l1 l2, mEffectChains (w_thread w) = l1 ++ c :: l2 ∧ Forall (λ k, ∃ z, w_chains w !! k = Some z ∧ ec_mSessionId z ≠ session) l1.
(** The effect is the first of its type in the chain; nobody asks to suspend all of them. *)
Definition chain_fits (w : world) (x : EffectChain) : Prop :=
  w_chains w !! c = Some x ∧ ec_mSessionId x = session ∧ mSuspendedEffects x !! kKeyForSuspendAll = None ∧
  ∃ l1 l2, mEffects x = l1 ++ e :: l2 ∧ Forall (λ k, ∃ p, w_modules w !! k = Some p ∧ d_type (mDescriptor p) ≠ type) l1.
Definition module_fits (w : world) (m : EffectModule) : Prop :=
  w_modules w !! e = Some m ∧ d_type (mDescriptor m) = type ∧ mSessionId m = session ∧ is_auxiliary (mDescriptor m) = false ∧ mState m ≠ DESTROYED ∧ follows m ∧
  ∃ l, mHandles m = h :: l ∧ (h ∉ l) ∧ Forall (λ k, is_Some (w_handles w !! k)) l.
Definition handle_fits (w : world) (y : EffectHandle) : Prop :=
  w_handles w !! h = Some y ∧ mEffect y = e ∧ mHasControl y = true ∧ mDestroyed y = false.
Definition fits (w : world) (x : EffectChain) (m : EffectModule) (y : EffectHandle) : Prop := thread_fits w ∧ chain_fits w x ∧ module_fits w m ∧ handle_fits w y.
(** The description of the type stands for [n] requests to suspend the effect. *)
Definition described (x : EffectChain) (m : EffectModule) (a : bool) (n : nat) : Prop :=
  match mSuspendedEffects x !! type_key type with
  | None => n = O ∧ mSuspended m = false ∧ isEnabled m = a
  | Some d => sd_mRefCount d = Z.of_nat n ∧ (0 < n)%nat ∧ sd_mEffect d = (if mSuspended m then e else 0) ∧ isEnabled m = false ∧ (mSuspended m = false → a = false)
  end.
Definition keeps_step (w : world) (s : bool * nat) : Prop := ∃ x m y, fits w x m y ∧ mEnabled y = s.1 ∧ described x m s.1 s.2.

Lemma described_enabled x m a n : described x m a n → isEnabled m = a && bool_decide (n = O).
Proof.
  unfold described. destruct (_ !! _) as [d|].
  - intros (_ & Hn & _ & -> & _). by rewrite bool_decide_false, andb_false_r by lia.
  - intros (-> & _ & ->). by rewrite andb_true_r.
Qed.

(** ** The frame *)

Lemma linked_frame w w' : linked w → mEffectChains (w_thread w') = mEffectChains (w_thread w) →
  (∀ k, is_Some (w_chains w !! k) → is_Some (w_chains w' !! k)) → (∀ k, k ≠ c → w_chains w' !! k = w_chains w !! k) →
  (∀ i, is_Some (w_modules w !! i) → is_Some (w_modules w' !! i)) → (∀ i, i ≠ e → w_modules w' !! i = w_modules w !! i) →
  (∀ k, is_Some (w_handles w !! k) → is_Some (w_handles w' !! k)) → linked w'.
Proof.
  intros (L1 & L2 & L3) ET C1 C2 M1 M2 H1. split; [|split].
  - rewrite ET. eapply Forall_impl; [exact L1|]. intros k. apply C1.
  - intros k z Hk Hz. rewrite C2 in Hz by done. destruct (L2 k z Hk Hz) as [HF Hd]. split; [|done]. eapply Forall_impl; [exact HF|]. intros i [? ?]. auto.
  - intros i p Hi Hp. rewrite M2 in Hp by done. destruct (L3 i p Hi Hp) as [Hn HF]. split; [done|]. eapply Forall_impl; [exact HF|]. intros k. apply H1.
Qed.
Lemma type_frame w w' : (linked w → linked w') → w_thread w' = w_thread w →
  mType (w_thread w) = RECORD ∨ session = AUDIO_SESSION_OUTPUT_MIX ∨ session = AUDIO_SESSION_OUTPUT_STAGE ∨ linked w →
  mType (w_thread w') = RECORD ∨ session = AUDIO_SESSION_OUTPUT_MIX ∨ session = AUDIO_SESSION_OUTPUT_STAGE ∨ linked w'.
Proof. intros HL ->. tauto. Qed.
Lemma insert_some {A} (t : gmap Z A) k v i : is_Some (t !! i) → is_Some (<[k := v]> t !! i).
Proof. intros H. rewrite lookup_insert_is_Some'. by right. Qed.

Lemma fits_chain w x m y x' : fits w x m y → ec_mSessionId x' = ec_mSessionId x → mEffects x' = mEffects x → mSuspendedEffects x' !! kKeyForSuspendAll = None →
  fits (set_w_chains (<[c := x']> (w_chains w)) w) x' m y.
Proof.
  intros ((Hal & Hty & l1 & l2 & Hl & HF) & (Hx & Hs & _ & k1 & k2 & Hk & HK) & HM & HH) Hs' He' Ha. split; [|split; [|split]]; [| |done|done].
  - split; [done|]. split.
    { apply (type_frame w); [|done|exact Hty]. intros L. eapply (linked_frame w); [exact L|done|see; auto using insert_some..]. intros k ?. by rewrite lookup_insert_ne. }
    exists l1, l2. split; [done|]. eapply Forall_impl; [exact HF|]. intros k (z & Hz & Hne). see.
    destruct (decide (k = c)) as [-> |Hkc]; [rewrite Hx in Hz; injection Hz as <-; done|]. exists z. by rewrite lookup_insert_ne.
  - split; [apply lookup_insert_eq|]. split; [congruence|]. split; [done|]. exists k1, k2. split; [congruence|done].
Qed.
Lemma fits_module w x m y m' : fits w x m y → mDescriptor m' = mDescriptor m → mSessionId m' = mSessionId m → mHandles m' = mHandles m → mState m' ≠ DESTROYED → follows m' →
  fits (set_w_modules (<[e := m']> (w_modules w)) w) x m' y.
Proof.
  intros ((Hal & Ht & HT) & (Hx & Hs & Ha & k1 & k2 & Hk & HK) & (Hm & Hty & Hses & Haux & _ & _ & l & Hh & Hnl & HF) & HH) Hd Hi Hhs HD HFo. split; [|split; [|split]]; [| | |done].
  - split; [done|]. split; [|done]. apply (type_frame w); [|done|exact Ht]. intros L. eapply (linked_frame w); [exact L|done|see; auto using insert_some..]. intros i ?. by rewrite lookup_insert_ne.
  - split; [done|]. split; [done|]. split; [done|]. exists k1, k2. split; [done|]. eapply Forall_impl; [exact HK|]. intros k (p & Hp & Hne). see.
    destruct (decide (k = e)) as [-> |Hke]; [rewrite Hm in Hp; injection Hp as <-; done|]. exists p. by rewrite lookup_insert_ne.
  - split; [apply lookup_insert_eq|]. rewrite Hd, Hi, Hhs. repeat (split; [done|]). by exists l.
Qed.
Lemma fits_handle w x m y y' : fits w x m y → mEffect y' = mEffect y → mHasControl y' = mHasControl y → mDestroyed y' = mDestroyed y →
  fits (set_w_handles (<[h := y']> (w_handles w)) w) x m y'.
Proof.
  intros ((Hal & Ht & HT) & HC & (Hm & Hty & Hses & Haux & HD & HFo & l & Hh & Hnl & HF) & (Hy & He & Hc & Hd)) He' Hc' Hd'. split; [|split; [done|split]].
  - split; [done|]. split; [|done]. apply (type_frame w); [|done|exact Ht]. intros L. by eapply (linked_frame w); [exact L|done|see; auto using insert_some..].
  - repeat (split; [done|]). exists l. repeat (split; [done|]). eapply Forall_impl; [exact HF|]. intros k. see. rewrite lookup_insert_is_Some'. by right.
  - split; [apply lookup_insert_eq|]. split; [congruence|]. split; congruence.
Qed.
Lemma fits_told w x m y l t : fits w x m y → mHandles m = h :: l → told_only l (w_handles w) t → fits (set_w_handles t w) x m y.
Proof.
  intros ((Hal & Ht & HT) & HC & (Hm & Hty & Hses & Haux & HD & HFo & l' & Hh & Hnl & HF) & (Hy & He & Hc & Hd)) Hl [H1 H2]. assert (l' = l) as -> by congruence. split; [|split; [done|split]].
  - split; [done|]. split; [|done]. apply (type_frame w); [|done|exact Ht]. intros L. by eapply (linked_frame w); [exact L|done..].
  - repeat (split; [done|]). exists l. repeat (split; [done|]). eapply Forall_impl; [exact HF|]. intros k. apply H2.
  - split; [|done]. see. by rewrite H1.
Qed.
Lemma fits_policy w x m y l : fits w x m y → fits (set_w_policy l w) x m y.
Proof. done. Qed.

(** ** The steps *)

Hypothesis He : e ≠ 0.
Hypothesis Hkey : type_key type ≠ kKeyForSuspendAll.
Hypothesis Hallow : allows.
Hypothesis Hstart : enables.
Hypothesis Hstop : disables.

Lemma wp_getEffectChain w x m y (Q : option Z → world → Prop) : fits w x m y → Q (Some c) w → wp (getEffectChain_l session) Q w.
Proof.
  intros ((_ & _ & l1 & l2 & Hl & HF) & (Hx & Hs & _) & _) HQ. unfold getEffectChain_l. do 2 wp_step. rewrite Hl. clear Hl. induction HF as [|k l1 (z & Hz & Hne) HF IH]; cbn [app find_chain]; wp_step.
  - eapply wp_get_chain; [done|]. rewrite bool_decide_true by done. by wp_step.
  - eapply wp_get_chain; [done|]. by rewrite bool_decide_false.
Qed.
Lemma wp_getEffectIfEnabled w x m y (Q : option Z → world → Prop) : fits w x m y → Q (if isEnabled m then Some e else None) w → wp (getEffectIfEnabled c type) Q w.
Proof.
  intros (_ & (Hx & _ & _ & l1 & l2 & Hl & HF) & (Hm & Ht & _) & _) HQ. unfold getEffectIfEnabled, getEffectFromType_l. do 2 wp_step. eapply wp_get_chain; [done|]. rewrite Hl. clear Hl Hx.
  induction HF as [|k l1 (p & Hp & Hne) HF IH]; cbn [app find_module]; wp_step.
  - eapply wp_get_module; [done|]. rewrite bool_decide_true by done. do 2 wp_step. eapply wp_get_module; [done|]. by wp_step.
  - eapply wp_get_module; [done|]. by rewrite bool_decide_false.
Qed.
(** Turning the effect on or off. *)
Lemma wp_turn w x m y b (Q : Z → world → Prop) : fits w x m y → (∀ w', fits w' x (turn b m) y → Q NO_ERROR w') → wp (setEnabled_l e b) Q w.
Proof.
  intros HF HQ. pose proof HF as (_ & _ & (Hm & _ & _ & _ & HD & HFo & l & Hl & _ & HS) & _). eapply wp_setEnabled; [done|done|done|by rewrite Hl|]. intros t p Ht. apply HQ.
  assert (fits (set_w_modules (<[e := turn b m]> (w_modules w)) (set_w_policy p w)) x (turn b m) y) as HF'.
  { apply (fits_module (set_w_policy p w) x m y); [by apply fits_policy|unfold turn; by case_bool_decide..| |by apply turn_follows].
    unfold turn. case_bool_decide; [done|]. cbn. by destruct (mState m). }
  eapply fits_told; [exact HF'| |]; [|rewrite Hl in Ht; exact Ht]. unfold turn. by case_bool_decide.
Qed.

Definition with_entry (d : suspended_desc) (x : EffectChain) : EffectChain := set_mSuspendedEffects (<[type_key type := d]> (mSuspendedEffects x)) x.
Lemma wp_entry w x m y d (Q : unit → world → Prop) : fits w x m y → (∀ w', fits w' (with_entry d x) m y → Q tt w') → wp (set_suspended c (type_key type) d) Q w.
Proof.
  intros HF HQ. pose proof HF as (_ & (Hx & _ & Ha & _) & _). eapply wp_on_chain; [done|]. apply HQ. apply (fits_chain w x m y); [done|done|done|]. cbn. by rewrite lookup_insert_ne.
Qed.
Lemma wp_suspended w x m y b (Q : unit → world → Prop) : fits w x m y → (∀ w', fits w' x (set_mSuspended b m) y → Q tt w') → wp (setSuspended e b) Q w.
Proof.
  intros HF HQ. pose proof HF as (_ & _ & (Hm & _ & _ & _ & HD & HFo & _) & _). eapply wp_on_module; [done|]. apply HQ. by apply (fits_module w x m y).
Qed.
Lemma wp_chain w x m y (Q : EffectChain → world → Prop) : fits w x m y → Q x w → wp (get_chain c) Q w.
Proof. intros (_ & (Hx & _) & _). by apply wp_get_chain. Qed.
Lemma wp_module w x m y (Q : EffectModule → world → Prop) : fits w x m y → Q m w → wp (get_module e) Q w.
Proof. intros (_ & _ & (Hm & _) & _). by apply wp_get_module. Qed.
Lemma wp_handle w x m y (Q : EffectHandle → world → Prop) : fits w x m y → Q y w → wp (get_handle h) Q w.
Proof. intros (_ & _ & _ & (Hy & _)). by apply wp_get_handle. Qed.

Lemma entry_eq d x : mSuspendedEffects (with_entry d x) !! type_key type = Some d.
Proof. apply lookup_insert_eq. Qed.
Lemma turn_suspended b m : mSuspended (turn b m) = mSuspended m.
Proof. unfold turn. by case_bool_decide. Qed.
Lemma turn_same b m : isEnabled m = b → turn b m = m.
Proof. intros <-. unfold turn. by rewrite bool_decide_true. Qed.

(** A request to suspend the type. *)
Lemma wp_suspend_type w a n (Q : unit → world → Prop) : keeps_step w (a, n) → Z.of_nat (S n) < 2 ^ 31 → (∀ w', keeps_step w' (a, S n) → Q tt w') → wp (setEffectSuspended_l c type true) Q w.
Proof.
  intros (x & m & y & HF & Ha & Hd) Hn HQ. cbn [fst snd] in *. unfold setEffectSuspended_l. wp_step. eapply wp_chain; [exact HF|]. cbn zeta iota.
  unfold described in Hd. destruct (mSuspendedEffects x !! type_key type) as [d|] eqn:Ed; cbn [default].
  - destruct Hd as (Hc & Hpos & Heff & Hen & Hs). wp_step. eapply wp_entry; [exact HF|]. intros w1 HF1. rewrite (bool_decide_false (sd_mRefCount d = 0)) by lia. wp_step. apply HQ.
    exists (with_entry (set_sd_mRefCount (s32 (sd_mRefCount d + 1)) d) x), m, y. split; [done|]. split; [done|]. unfold described. rewrite entry_eq. cbn. rewrite s32_small by lia.
    split; [lia|]. split; [lia|done].
  - destruct Hd as (-> & Hs & Hen). wp_step. eapply wp_entry; [exact HF|]. intros w1 HF1. cbn [sd_mRefCount id]. rewrite bool_decide_true by done. wp_step.
    eapply wp_getEffectIfEnabled; [exact HF1|]. destruct (isEnabled m) eqn:Em.
    + wp_step. eapply wp_entry; [exact HF1|]. intros w2 HF2. wp_step. eapply wp_suspended; [exact HF2|]. intros w3 HF3. wp_step. unfold setEnabled. eapply wp_turn; [exact HF3|]. intros w4 HF4. wp_step. apply HQ.
      eexists _, _, y. split; [exact HF4|]. split; [done|]. unfold described. rewrite entry_eq. rewrite turn_suspended. cbn [sd_mRefCount set_sd_mEffect set_sd_mRefCount sd_mEffect mSuspended set_mSuspended].
      split; [done|]. split; [cbn; lia|]. split; [done|]. split; [|done]. apply turn_enabled. by apply HF3.
    + wp_step. apply HQ. eexists _, m, y. split; [exact HF1|]. split; [done|]. unfold described. rewrite entry_eq. cbn [sd_mRefCount set_sd_mRefCount sd_mEffect].
      rewrite Hs. split; [done|]. split; [cbn; lia|]. done.
Qed.

(** The end of a request. *)
Lemma wp_restore w x m y (Q : unit → world → Prop) : fits w x m y → (∀ w', fits w' x (turn (mEnabled y) (set_mSuspended false m)) y → Q tt w') → wp (restore_effect e) Q w.
Proof.
  intros HF HQ. pose proof HF as (_ & _ & (Hm & _ & _ & _ & HD & HFo & l & Hl & _) & (Hy & _ & _ & Hyd)). unfold restore_effect, promote_module. wp_steps. rewrite Hm.
  wp_step. eapply wp_suspended; [exact HF|]. intros w1 HF1. pose proof HF1 as (_ & _ & (Hm1 & _) & (Hy1 & _)). wp_step. unfold controlHandle_l. wp_step. eapply wp_module; [exact HF1|].
  change (mHandles (set_mSuspended false m)) with (mHandles m). rewrite Hl. cbn [first_valid]. wp_step. eapply wp_handle; [exact HF1|]. rewrite Hyd. do 2 wp_step.
  eapply wp_handle; [exact HF1|]. wp_step. eapply wp_turn; [exact HF1|]. intros w2 HF2. wp_step. by apply HQ.
Qed.
Lemma wp_unsuspend_type w a n (Q : unit → world → Prop) : keeps_step w (a, n) → (∀ w', keeps_step w' (a, pred n) → Q tt w') → wp (setEffectSuspended_l c type false) Q w.
Proof.
  intros (x & m & y & HF & Ha & Hd) HQ. cbn [fst snd] in *. unfold setEffectSuspended_l. wp_step. eapply wp_chain; [exact HF|]. cbn zeta iota.
  unfold described in Hd. destruct (mSuspendedEffects x !! type_key type) as [d|] eqn:Ed.
  - destruct Hd as (Hc & Hpos & Heff & Hen & Hs). rewrite bool_decide_false by lia. wp_step. eapply wp_entry; [exact HF|]. intros w1 HF1. apply wp_when; intros Hz.
    + apply bool_decide_eq_true in Hz. assert (n = 1)%nat as -> by lia. wp_step.
      assert (∀ w2 m2, fits w2 (with_entry (set_sd_mRefCount (sd_mRefCount d - 1) d) x) m2 y → mSuspended m2 = false → isEnabled m2 = a →
        wp (on_chain c (λ x, set_mSuspendedEffects (delete (type_key type) (mSuspendedEffects x)) x)) Q w2) as Hend.
      { intros w2 m2 HF2 Hs2 Hen2. pose proof HF2 as (_ & (Hx2 & _ & Ha2 & _) & _). eapply wp_on_chain; [exact Hx2|]. apply HQ. eexists _, m2, y. split; [eapply fits_chain; [exact HF2|done|done|]|split; [done|]].
        - cbn [mSuspendedEffects set_mSuspendedEffects]. rewrite lookup_delete_ne by done. exact Ha2.
        - unfold described. cbn [mSuspendedEffects set_mSuspendedEffects]. by rewrite lookup_delete_eq. }
      rewrite Heff. destruct (mSuspended m) eqn:Esu.
      * rewrite bool_decide_true by done. eapply wp_restore; [exact HF1|]. intros w2 HF2. eapply Hend; [exact HF2|by rewrite turn_suspended|]. rewrite Ha. apply turn_enabled. by apply HF1.
      * rewrite bool_decide_false by auto. wp_step. eapply Hend; [exact HF1|done|]. by rewrite Hen, Hs.
    + apply bool_decide_eq_false in Hz. apply HQ. eexists _, m, y. split; [exact HF1|]. split; [done|]. unfold described. rewrite entry_eq. cbn. split; [lia|]. split; [lia|done].
  - destruct Hd as (-> & Hs & Hen). wp_step. apply HQ. exists x, m, y. split; [done|]. split; [done|]. unfold described. by rewrite Ed.
Qed.

(** The thread's part of a request: its own list of them changes. *)
Lemma wp_update_sessions w b s (Q : unit → world → Prop) : keeps_step w s → (∀ w', keeps_step w' s → Q tt w') → wp (updateSuspendedSessions_l (Some type) b session) Q w.
Proof.
  intros HK HQ. assert (∀ v, keeps_step (set_w_thread (set_mSuspendedSessions v (w_thread w)) w) s) as Hput by (intros v; exact HK).
  unfold updateSuspendedSessions_l, on_thread. wp_step. wp_step. destruct b.
  - wp_step. apply HQ, Hput.
  - destruct (_ !! session) as [t|]; [|wp_step; by apply HQ]. destruct (t !! _) as [d|]; [|wp_step; by apply HQ]. case_bool_decide; [case_bool_decide|]; wp_step; apply HQ, Hput.
Qed.
Lemma wp_suspend_thread w b s s' (Q : Z → world → Prop) : keeps_step w s →
  (∀ R : unit → world → Prop, (∀ w', keeps_step w' s' → R tt w') → wp (setEffectSuspended_l c type b) R w) →
  (∀ w', keeps_step w' s' → Q NO_ERROR w') → wp (thread_setEffectSuspended_l (Some type) b session ;;; ret NO_ERROR) Q w.
Proof.
  intros (x & m & y & HF & _) HS HQ. wp_step. unfold thread_setEffectSuspended_l. wp_step. eapply wp_getEffectChain; [exact HF|]. wp_step. apply HS. intros w1 HK1.
  eapply wp_update_sessions; [exact HK1|]. intros w2 HK2. wp_step. by apply HQ.
Qed.

(** *** The effects of another chain

    While those of the output mix are suspended or restored, the effect stays as it is. *)
Section other_chain.
Context (x : EffectChain) (m : EffectModule) (y : EffectHandle) (k : Z) (es : list Z).
Hypothesis Hk : k ≠ c.

Definition aside (w : world) : Prop := fits w x m y ∧ linked w ∧ ∃ z, w_chains w !! k = Some z ∧ mEffects z = es.

Lemma aside_effects w : aside w → Forall (λ i, i ≠ e ∧ is_Some (w_modules w !! i)) es.
Proof. intros (_ & (_ & L & _) & z & Hz & <-). by destruct (L k z Hk Hz). Qed.
Lemma aside_effect w i : aside w → i ∈ es → i ≠ e ∧ ∃ p, w_modules w !! i = Some p.
Proof. intros HA Hi. pose proof (aside_effects w HA) as HF. rewrite Forall_forall in HF. by apply HF. Qed.

Lemma aside_chain w z z' : aside w → w_chains w !! k = Some z → ec_mSessionId z' = ec_mSessionId z → mEffects z' = mEffects z →
  (∀ key d, mSuspendedEffects z' !! key = Some d → sd_mEffect d ≠ e) → aside (set_w_chains (<[k := z']> (w_chains w)) w).
Proof.
  intros (((Hal & Ht & l1 & l2 & Hl & HF) & (Hx & HC) & HM & HH) & (L1 & L2 & L3) & z0 & Hz0 & He0) Hz Hs He' Hd.
  assert (linked (set_w_chains (<[k := z']> (w_chains w)) w)) as HL.
  { split; [|split; [|done]]; see.
    - eapply Forall_impl; [exact L1|]. intros i. apply insert_some.
    - intros i z2 Hi. destruct (decide (i = k)) as [->|Hne]; [rewrite lookup_insert_eq; intros [= <-]|rewrite lookup_insert_ne by done; by apply L2].
      split; [|done]. rewrite He'. by destruct (L2 k z Hi Hz). }
  split; [split; [|split; [|done]]|split; [done|]].
  - split; [done|]. split; [tauto|]. exists l1, l2. split; [done|]. eapply Forall_impl; [exact HF|]. intros i (z2 & Hz2 & Hne). see.
    destruct (decide (i = k)) as [->|]; [exists z'; rewrite lookup_insert_eq; split; [done|congruence]|exists z2; by rewrite lookup_insert_ne].
  - split; [see; by rewrite lookup_insert_ne|done].
  - exists z'. see. rewrite lookup_insert_eq. split; [done|congruence].
Qed.
Lemma aside_module w i p p' : aside w → i ≠ e → w_modules w !! i = Some p → mDescriptor p' = mDescriptor p → mHandles p' = mHandles p →
  aside (set_w_modules (<[i := p']> (w_modules w)) w).
Proof.
  intros (((Hal & Ht & HT) & (Hx & Hs & Ha & k1 & k2 & Hes & HK) & (Hm & HM) & HH) & (L1 & L2 & L3) & HZ) Hi Hp Hd Hhs.
  assert (linked (set_w_modules (<[i := p']> (w_modules w)) w)) as HL.
  { split; [done|split]; see.
    - intros j z Hj Hz. destruct (L2 j z Hj Hz) as [HF ?]. split; [|done]. eapply Forall_impl; [exact HF|]. intros n [? ?]. split; [done|by apply insert_some].
    - intros j q Hj. destruct (decide (j = i)) as [->|]; [rewrite lookup_insert_eq; intros [= <-]; rewrite Hhs; by apply (L3 i p)|rewrite lookup_insert_ne by done; apply (L3 j q Hj)]. }
  split; [split; [|split; [|split; [|done]]]|split; [done|done]].
  - split; [done|]. split; [tauto|done].
  - repeat (split; [done|]). exists k1, k2. split; [done|]. eapply Forall_impl; [exact HK|]. intros j (q & Hq & Hne). see.
    destruct (decide (j = i)) as [->|]; [exists p'; rewrite lookup_insert_eq; split; [done|congruence]|exists q; by rewrite lookup_insert_ne].
  - split; [see; by rewrite lookup_insert_ne|done].
Qed.
Lemma aside_told w l t : aside w → h ∉ l → told_only l (w_handles w) t → aside (set_w_handles t w).
Proof.
  intros (((Hal & Ht & HT) & HC & (Hm & H1 & H2 & H3 & H4 & H5 & lh & H6 & H7 & H8) & (Hy & HH)) & (L1 & L2 & L3) & HZ) Hh [T1 T2].
  assert (linked (set_w_handles t w)) as HL.
  { split; [done|split; [done|]]. see. intros i p Hi Hp. destruct (L3 i p Hi Hp) as [Hn HF]. split; [done|]. eapply Forall_impl; [exact HF|]. intros j. apply T2. }
  split; [split; [|split; [done|split]]|split; [done|done]].
  - split; [done|]. split; [tauto|done].
  - repeat (split; [done|]). exists lh. repeat (split; [done|]). eapply Forall_impl; [exact H8|]. intros j. apply T2.
  - split; [see; by rewrite T1|done].
Qed.
Lemma aside_policy w l : aside w → aside (set_w_policy l w).
Proof. done. Qed.

Lemma wp_other_turn w i b (Q : Z → world → Prop) : aside w → i ≠ e → is_Some (w_modules w !! i) → (∀ r w', aside w' → Q r w') → wp (setEnabled_l i b) Q w.
Proof.
  intros HA Hi [p Hp] HQ. unfold setEnabled_l. wp_step. eapply wp_get_module; [done|]. case_bool_decide; [|wp_step; by apply HQ].
  unfold ask_policy. wp_steps. destruct (b && _); [wp_step; by apply HQ, aside_policy|].
  assert (∀ s, wp (on_module i (set_mState s) ;;; others i (λ h, handle_setEnabled h b) ;;; ret NO_ERROR) Q (set_w_policy (w_policy w ++ [setEffectEnabled (mId p) b]) w)) as Hgo.
  { intros s. wp_step. eapply wp_on_module; [done|]. unfold others. do 2 wp_step. eapply wp_get_module; [look|].
    pose proof HA as (_ & (_ & _ & L3) & _). destruct (L3 i p Hi Hp) as [Hn HF].
    apply wp_each_told; [|intros t Ht; wp_step; apply HQ; eapply (aside_told _ (tail (mHandles p))); [by apply (aside_module (set_w_policy _ w) i p)| |exact Ht]].
    - cbn [mHandles set_mState]. destruct (mHandles p); [constructor|]. by apply Forall_cons in HF as [_ ?].
    - intros Hin. apply Hn. destruct (mHandles p); [done|]. apply elem_of_cons. by right. }
  destruct (mState p); try apply Hgo. wp_step. by apply HQ, aside_policy.
Qed.
Lemma wp_other_suspended w i b (Q : unit → world → Prop) : aside w → i ≠ e → is_Some (w_modules w !! i) →
  (∀ w', aside w' → is_Some (w_modules w' !! i) → Q tt w') → wp (setSuspended i b) Q w.
Proof.
  intros HA Hi [p Hp] HQ. eapply wp_on_module; [done|]. apply HQ; [by apply (aside_module w i p)|]. see. by rewrite lookup_insert_eq.
Qed.
Lemma wp_other_entry w key d (Q : unit → world → Prop) : aside w → sd_mEffect d ≠ e → (∀ w', aside w' → w_modules w' = w_modules w → Q tt w') → wp (set_suspended k key d) Q w.
Proof.
  intros HA Hd HQ. pose proof HA as (_ & (_ & L & _) & z & Hz & _). eapply wp_on_chain; [done|]. apply HQ; [|done]. eapply aside_chain; [done|done|done|done|].
  cbn [mSuspendedEffects set_mSuspendedEffects]. intros key' d'. destruct (decide (key' = key)) as [->|]; [rewrite lookup_insert_eq; by intros [= <-]|rewrite lookup_insert_ne by done].
  by apply (proj2 (L k z Hk Hz)).
Qed.
Lemma wp_other_chain w (Q : EffectChain → world → Prop) : aside w →
  (∀ z, mEffects z = es → (∀ key d, mSuspendedEffects z !! key = Some d → sd_mEffect d ≠ e) → Q z w) → wp (get_chain k) Q w.
Proof. intros (_ & (_ & L & _) & z & Hz & Hes) HQ. eapply wp_get_chain; [done|]. apply HQ; [done|]. apply (proj2 (L k z Hk Hz)). Qed.
Lemma wp_other_delete w key (Q : unit → world → Prop) : aside w → (∀ w', aside w' → Q tt w') →
  wp (on_chain k (λ x, set_mSuspendedEffects (delete key (mSuspendedEffects x)) x)) Q w.
Proof.
  intros HA HQ. pose proof HA as (_ & (_ & L & _) & z & Hz & _). eapply wp_on_chain; [done|]. apply HQ. eapply aside_chain; [done|done|done|done|].
  cbn [mSuspendedEffects set_mSuspendedEffects]. intros key' d' [_ Hd]%lookup_delete_Some. by apply (proj2 (L k z Hk Hz) key').
Qed.

Lemma wp_find_module w f l (Q : option Z → world → Prop) : Forall (λ i, i ≠ e ∧ is_Some (w_modules w !! i)) l → (∀ r, (∀ i, r = Some i → i ∈ l) → Q r w) → wp (find_module f l) Q w.
Proof.
  induction 1 as [|i l [_ [p Hp]] HF IH] in Q |- *; intros HQ; cbn [find_module]; wp_step; [by apply HQ|]. eapply wp_get_module; [done|]. destruct (f p).
  - wp_step. apply HQ. intros ? [= <-]. by left.
  - apply IH. intros r Hr. apply HQ. intros j ->. right. by apply (Hr _ eq_refl).
Qed.
Lemma wp_eligible w z l (Q : list Z → world → Prop) : Forall (λ i, i ≠ e ∧ is_Some (w_modules w !! i)) l → (∀ r, (∀ i, i ∈ r → i ∈ l) → Q r w) → wp (eligible z l) Q w.
Proof.
  induction 1 as [|i l [_ [p Hp]] HF IH] in Q |- *; intros HQ; cbn [eligible]; wp_step; [by apply HQ|]. eapply wp_get_module; [done|]. wp_step.
  apply IH. intros r Hr. wp_step. apply HQ. intros j. destruct (isEffectEligibleForSuspend _ _); [intros [->|Hj]%elem_of_cons; [by left|]|intros Hj]; right; by apply Hr.
Qed.
Lemma wp_first_valid w l (Q : option Z → world → Prop) : Forall (λ j, is_Some (w_handles w !! j)) l → (∀ r, (∀ j, r = Some j → is_Some (w_handles w !! j)) → Q r w) → wp (first_valid l) Q w.
Proof.
  induction 1 as [|j l [v Hv] HF IH]; intros HQ; cbn [first_valid]; wp_step; [by apply HQ|]. eapply wp_get_handle; [done|]. destruct (mDestroyed v); [by apply IH|].
  wp_step. apply HQ. intros ? [= <-]. by eexists.
Qed.
Lemma wp_other_restore w i (Q : unit → world → Prop) : aside w → i ≠ e → (∀ w', aside w' → Q tt w') → wp (restore_effect i) Q w.
Proof.
  intros HA Hi HQ. unfold restore_effect, promote_module. wp_steps. destruct (w_modules w !! i) as [p|] eqn:Hp; [|wp_step; by apply HQ].
  wp_step. eapply wp_other_suspended; [done|done|by eexists|]. intros w1 HA1 [q Hq]. wp_step. unfold controlHandle_l. wp_step. eapply wp_get_module; [done|].
  pose proof HA1 as (_ & (_ & _ & L3) & _). apply wp_first_valid; [by apply (L3 i q)|]. intros [j|] Hj; [|wp_step; by apply HQ].
  destruct (Hj j eq_refl) as [v Hv]. wp_step. eapply wp_get_handle; [done|]. wp_step. eapply wp_other_turn; [done|done|by eexists|]. intros r w2 HA2. wp_step. by apply HQ.
Qed.

Lemma wp_other_type w t b (Q : unit → world → Prop) : aside w → (∀ w', aside w' → Q tt w') → wp (setEffectSuspended_l k t b) Q w.
Proof.
  intros HA HQ. unfold setEffectSuspended_l. wp_step. eapply wp_other_chain; [done|]. intros z Hes Hd. cbv zeta. destruct b.
  - assert (sd_mEffect (default (Suspended 0 t 0) (mSuspendedEffects z !! type_key t)) ≠ e) as Hd'.
    { destruct (mSuspendedEffects z !! type_key t) as [d|] eqn:E; cbn; [by eapply Hd|done]. }
    wp_step. eapply wp_other_entry; [done|done|]. intros w1 HA1 _. apply wp_when; intros _; [|by apply HQ]. unfold getEffectIfEnabled, getEffectFromType_l.
    do 3 wp_step. eapply wp_other_chain; [done|]. intros z1 Hes1 _. rewrite Hes1. apply wp_find_module; [by apply aside_effects|]. intros [i|] Hr; [|do 2 wp_step; by apply HQ].
    destruct (aside_effect w1 i HA1 (Hr i eq_refl)) as [Hi [p Hp]]. wp_step. eapply wp_get_module; [done|]. wp_step. destruct (isEnabled p); [|wp_step; by apply HQ].
    wp_step. eapply wp_other_entry; [done|done|]. intros w2 HA2 Hw2. wp_step. eapply wp_other_suspended; [done|done|rewrite Hw2; by eexists|]. intros w3 HA3 Hp3. wp_step.
    eapply wp_other_turn; [done|done|done|]. intros r w4 HA4. wp_step. by apply HQ.
  - destruct (mSuspendedEffects z !! type_key t) as [d|] eqn:E; [|wp_step; by apply HQ]. pose proof (Hd _ _ E) as Hde.
    wp_step. eapply wp_other_entry; [done|done|]. intros w1 HA1 _. apply wp_when; intros _; [|by apply HQ]. wp_step.
    apply wp_when; intros _; [eapply wp_other_restore; [done|done|]; intros w2 HA2|]; by eapply wp_other_delete.
Qed.
Lemma wp_other_each {A} (f : A → MW unit) (P : A → Prop) l w (Q : unit → world → Prop) :
  (∀ a w' (R : unit → world → Prop), P a → aside w' → (∀ w2, aside w2 → R tt w2) → wp (f a) R w') → Forall P l → aside w → (∀ w', aside w' → Q tt w') → wp (each l f) Q w.
Proof.
  intros Hf HP. revert w. induction HP as [|a l Ha _ IH]; intros w HA HQ; cbn [each]; wp_step; [by apply HQ|]. apply Hf; [done|done|]. intros w2 HA2. by apply IH.
Qed.
Lemma wp_other_all w b (Q : unit → world → Prop) : aside w → (∀ w', aside w' → Q tt w') → wp (setEffectSuspendedAll_l k b) Q w.
Proof.
  intros HA HQ. unfold setEffectSuspendedAll_l. wp_step. eapply wp_other_chain; [done|]. intros z Hes Hd. cbv zeta. destruct b.
  - assert (sd_mEffect (default (Suspended 0 (Uuid 0 0) 0) (mSuspendedEffects z !! kKeyForSuspendAll)) ≠ e) as Hd'.
    { destruct (mSuspendedEffects z !! kKeyForSuspendAll) as [d|] eqn:E; cbn; [by eapply Hd|done]. }
    wp_step. eapply wp_other_entry; [done|done|]. intros w1 HA1 _. apply wp_when; intros _; [|by apply HQ]. unfold getSuspendEligibleEffects.
    do 2 wp_step. eapply wp_other_chain; [done|]. intros z1 Hes1 _. rewrite Hes1. apply wp_eligible; [by apply aside_effects|]. intros r Hr.
    eapply (wp_other_each _ (λ i, i ∈ es)); [| |done|done].
    + intros i w2 R Hi HA2 HR. wp_step. destruct (aside_effect w2 i HA2 Hi) as [_ [p Hp]]. eapply wp_get_module; [done|]. by apply wp_other_type.
    + by apply Forall_forall.
  - destruct (mSuspendedEffects z !! kKeyForSuspendAll) as [d|] eqn:E; [|wp_step; by apply HQ]. pose proof (Hd _ _ E) as Hde.
    wp_step. eapply wp_other_entry; [done|done|]. intros w1 HA1 _. apply wp_when; intros _; [|by apply HQ]. wp_step. eapply wp_other_chain; [done|]. intros z1 Hes1 _.
    wp_step. eapply (wp_other_each _ (λ _, True)); [| |done|].
    + intros t w2 R _ HA2 HR. by apply wp_other_type.
    + by apply Forall_forall.
    + intros w2 HA2. by eapply wp_other_delete.
Qed.
End other_chain.

Lemma wp_find_chain w s l (Q : option Z → world → Prop) : Forall (λ k, is_Some (w_chains w !! k)) l →
  (∀ r, (∀ k, r = Some k → ∃ z, w_chains w !! k = Some z ∧ ec_mSessionId z = s) → Q r w) → wp (find_chain s l) Q w.
Proof.
  induction 1 as [|k l [z Hz] HF IH]; intros HQ; cbn [find_chain]; wp_step; [by apply HQ|]. eapply wp_get_chain; [done|]. case_bool_decide; [|by apply IH].
  wp_step. apply HQ. intros ? [= <-]. by exists z.
Qed.
(** All effects of the output mix are suspended, or restored. *)
Lemma wp_suspend_mix w x m y b (Q : unit → world → Prop) : fits w x m y → linked w → session ≠ AUDIO_SESSION_OUTPUT_MIX →
  (∀ w', fits w' x m y → Q tt w') → wp (thread_setEffectSuspended_l None b AUDIO_SESSION_OUTPUT_MIX) Q w.
Proof.
  intros HF HL Hs HQ. assert (∀ w', fits w' x m y → wp (updateSuspendedSessions_l None b AUDIO_SESSION_OUTPUT_MIX) Q w') as Hup.
  { intros w' HF'. assert (∀ v, fits (set_w_thread (set_mSuspendedSessions v (w_thread w')) w') x m y) as Hput by (intros v; exact HF').
    unfold updateSuspendedSessions_l, on_thread. do 2 wp_step. destruct b; [wp_step; apply HQ, Hput|].
    destruct (_ !! AUDIO_SESSION_OUTPUT_MIX) as [t|]; [|wp_step; by apply HQ]. destruct (t !! _) as [d|]; [|wp_step; by apply HQ]. case_bool_decide; [case_bool_decide|]; wp_step; apply HQ, Hput. }
  unfold thread_setEffectSuspended_l, getEffectChain_l. do 3 wp_step. apply wp_find_chain; [apply HL|]. intros [k|] Hr; wp_step; [|wp_step; by apply Hup].
  destruct (Hr k eq_refl) as (z & Hz & Hzs). assert (k ≠ c) as Hk by (intros ->; destruct HF as (_ & (Hx & Hxs & _) & _); congruence).
  apply (wp_other_all x m y k (mEffects z) Hk); [split; [done|]; split; [done|]; by exists z|]. intros w' [HF' _]. by apply Hup.
Qed.

(** The thread's check when the effect has been turned on or off. *)
Lemma wp_its_thread w x m y (body : MW unit) (Q : unit → world → Prop) : fits w x m y → wp body Q w → wp (on_its_thread body) Q w.
Proof. intros ((Ha & _) & _) H. unfold on_its_thread, promote_thread. wp_steps. by rewrite Ha. Qed.
Lemma wp_check w x m y b (Q : unit → world → Prop) : fits w x m y → (∀ w', fits w' x m y → wp (chain_checkSuspendOnEffectEnabled c e b) Q w') →
  wp (checkSuspendOnEffectEnabled e b session) Q w.
Proof.
  intros HF HQ. assert (∀ w', fits w' x m y → wp (chain <- getEffectChain_l session ;; match chain with Some c => chain_checkSuspendOnEffectEnabled c e b | None => ret tt end) Q w') as Hgo.
  { intros w' HF'. wp_step. eapply wp_getEffectChain; [exact HF'|]. by apply HQ. }
  unfold checkSuspendOnEffectEnabled. do 3 wp_step. apply wp_when; intros Hb; [|by apply Hgo].
  apply andb_true_iff in Hb as [[Ht%bool_decide_eq_true Hm%bool_decide_eq_true]%andb_true_iff Hst%bool_decide_eq_true].
  pose proof HF as ((_ & [?|[?|[?|HL]]] & _) & _); try done. by eapply wp_suspend_mix.
Qed.
(** Before it is turned on: it may have to stay suspended. *)
Lemma wp_check_on w x m y n (Q : unit → world → Prop) : fits w x m y → described x m false n →
  (∀ w' x' m', fits w' x' m' y → isEnabled m' = isEnabled m → (n = O → m' = m) → (n ≠ O → mSuspended m' = true) → (∀ m2, isEnabled m2 = isEnabled m || bool_decide (n = O) → mSuspended m2 = mSuspended m' → described x' m2 true n) → Q tt w') →
  wp (chain_checkSuspendOnEffectEnabled c e true) Q w.
Proof.
  intros HF Hd HQ. pose proof HF as (_ & (_ & _ & Hall & _) & (_ & Ht & _) & _). unfold chain_checkSuspendOnEffectEnabled. wp_step. eapply wp_module; [exact HF|]. wp_step. eapply wp_chain; [exact HF|]. rewrite Ht. cbn zeta iota.
  unfold described in Hd. destruct (mSuspendedEffects x !! type_key type) as [d|] eqn:Ed.
  - destruct Hd as (Hc & Hpos & Heff & Hen & Hs). do 3 wp_step. eapply wp_chain; [exact HF|]. wp_step. eapply wp_deref; [exact Ed|]. rewrite Heff.
    destruct (mSuspended m) eqn:Esu.
    + rewrite bool_decide_false by done. wp_step. apply (HQ w x m HF); [done|done|done|]. intros m2 H2 Hs2. unfold described. rewrite Ed, Hs2, Esu, H2, Hen. rewrite bool_decide_false by lia. by repeat split.
    + rewrite bool_decide_true by done. wp_step. eapply wp_entry; [exact HF|]. intros w1 HF1. unfold setEnabled. wp_step. eapply wp_turn; [exact HF1|]. intros w2 HF2. rewrite turn_same in HF2 by done.
      eapply wp_suspended; [exact HF2|]. intros w3 HF3. eapply (HQ w3 _ _ HF3); [done|lia|done|]. intros m2 H2 Hs2. unfold described. rewrite entry_eq, Hs2, H2, Hen. cbn [sd_mRefCount set_sd_mEffect sd_mEffect].
      rewrite bool_decide_false by lia. by repeat split.
  - destruct Hd as (-> & Hs & Hen). rewrite Hall. do 2 wp_step. apply (HQ w x m HF); [done|done|done|]. intros m2 H2 Hs2. unfold described. rewrite Ed, Hs2, H2, Hs. by rewrite orb_true_r.
Qed.

Lemma wp_enable w a n (Q : Z → world → Prop) : keeps_step w (a, n) → (∀ w', keeps_step w' (true, n) → Q NO_ERROR w') → wp (handle_enable h) Q w.
Proof.
  intros (x & m & y & HF & Ha & Hd) HQ. cbn [fst snd] in *. pose proof HF as (_ & _ & (_ & _ & Hses & _) & (Hy & Hye & Hyc & _)). unfold handle_enable. wp_step. eapply wp_handle; [exact HF|].
  rewrite Hyc, Hye, bool_decide_false by done. cbn [negb]. destruct a; rewrite Ha.
  - wp_step. apply HQ. by exists x, m, y.
  - wp_step. eapply wp_on_handle; [exact Hy|]. set (y' := set_mEnabled true y). assert (fits (set_w_handles (<[h := y']> (w_handles w)) w) x m y') as HF1 by (by eapply fits_handle). wp_step.
    eapply wp_module; [exact HF1|]. wp_step. rewrite Hses. eapply wp_its_thread; [exact HF1|]. eapply wp_check; [exact HF1|]. intros wc HFc. eapply wp_check_on; [exact HFc|done|]. intros w2 x2 m2 HF2 Hen2 Hz Hnz Hd2.
    wp_step. eapply wp_module; [exact HF2|]. assert (isEnabled m = false) as Hen by (by rewrite (described_enabled _ _ _ _ Hd)). destruct (decide (n = O)) as [Hn|Hn].
    + rewrite (Hz Hn) in *. assert (mSuspended m = false) as Hs. { unfold described in Hd. destruct (_ !! _); [lia|]. by destruct Hd as (_ & ? & _). }
      rewrite Hs. unfold setEnabled. wp_step. eapply wp_turn; [exact HF2|]. intros w3 HF3. wp_step. apply wp_when; [done|intros _]. wp_step. apply HQ. exists x2, (turn true m), y'. split; [done|]. split; [done|].
      apply Hd2; [|by rewrite turn_suspended]. rewrite (turn_enabled true m) by apply HF. by rewrite Hen, bool_decide_true.
    + rewrite Hnz by done. wp_step. apply HQ. exists x2, m2, y'. split; [done|]. split; [done|]. apply Hd2; [|done]. by rewrite Hen2, Hen, bool_decide_false.
Qed.

Lemma wp_disable w a n (Q : Z → world → Prop) : keeps_step w (a, n) → (∀ w', keeps_step w' (false, n) → Q NO_ERROR w') → wp (handle_disable h) Q w.
Proof.
  intros (x & m & y & HF & Ha & Hd) HQ. cbn [fst snd] in *. pose proof HF as (_ & _ & (_ & _ & Hses & _) & (Hy & Hye & Hyc & _)). unfold handle_disable. wp_step. eapply wp_handle; [exact HF|].
  rewrite Hyc, Hye, bool_decide_false by done. cbn [negb]. destruct a; rewrite Ha; cbn [negb].
  - wp_step. eapply wp_on_handle; [exact Hy|]. set (y' := set_mEnabled false y). assert (fits (set_w_handles (<[h := y']> (w_handles w)) w) x m y') as HF1 by (by eapply fits_handle). wp_step.
    eapply wp_module; [exact HF1|]. unfold described in Hd. destruct (mSuspendedEffects x !! type_key type) as [d|] eqn:Ed.
    + destruct Hd as (Hc & Hpos & Heff & Hen & Hs). destruct (mSuspended m) eqn:Esu; [|by specialize (Hs eq_refl)]. wp_step. apply HQ. exists x, m, y'. split; [done|]. split; [done|].
      unfold described. by rewrite Ed, Esu.
    + destruct Hd as (-> & Hs & Hen). rewrite Hs. unfold setEnabled. wp_step. eapply wp_turn; [exact HF1|]. intros w2 HF2. rewrite Hses. wp_step. eapply wp_its_thread; [exact HF2|]. eapply wp_check; [exact HF2|]. clear w2 HF2. intros w2 HF2.
      pose proof HF2 as (_ & _ & (_ & Ht2 & _) & _). unfold chain_checkSuspendOnEffectEnabled. wp_step. eapply wp_module; [exact HF2|]. wp_step. eapply wp_chain; [exact HF2|]. rewrite Ht2. cbn zeta iota. rewrite Ed. do 2 wp_step.
      apply HQ. exists x, (turn false m), y'. split; [done|]. split; [done|]. unfold described. rewrite Ed, turn_suspended. split; [done|]. split; [done|]. apply turn_enabled. by apply HF.
  - wp_step. apply HQ. by exists x, m, y.
Qed.

(** A round changes neither whether the effect is on nor what is suspended. *)
Lemma updated_enabled m m' : follows m → updated m m' → mState m ≠ DESTROYED → isEnabled m' = isEnabled m ∧ mState m' ≠ DESTROYED.
Proof.
  intros _ Hup HD. unfold updated, isEnabled in *. destruct (mState m) eqn:Es; try done.
  - subst m'. by rewrite Es.
  - by rewrite (started_enables _ Hup Hstart).
  - by rewrite (started_enables _ Hup Hstart).
  - subst m'. by rewrite Es.
  - destruct Hup as [-> _]. done.
  - destruct Hup as [_ ->]. by case_bool_decide.
Qed.
Lemma wp_round_step w s (Q : unit → world → Prop) : keeps_step w s → (∀ w', keeps_step w' s → Q tt w') → wp (updateState e) Q w.
Proof.
  intros (x & m & y & HF & Ha & Hd) HQ. pose proof HF as (_ & _ & (Hm & _ & _ & Haux & HD & HFo & _) & _). eapply wp_updateState; [done|done|done|done|]. intros m' HF' (U1 & U2 & U3 & U4 & U5 & U6) Hup.
  destruct (updated_enabled _ _ HFo Hup HD) as [He' HD']. apply HQ. exists x, m', y. split; [by apply (fits_module w x m y)|]. split; [done|]. unfold described in *. by rewrite U5, He'.
Qed.

Lemma wp_perform w s o (Q : Z → world → Prop) : keeps_step w s → Z.of_nat (S s.2) < 2 ^ 31 → (∀ w', keeps_step w' (wanted s o) → Q NO_ERROR w') → wp (perform o) Q w.
Proof.
  destruct s as [a n]. intros HK Hn HQ. destruct o; cbn [perform wanted fst snd] in *.
  - eapply wp_suspend_thread; [exact HK| |exact HQ]. intros R HR. by eapply wp_suspend_type.
  - eapply wp_suspend_thread; [exact HK| |exact HQ]. intros R HR. by eapply wp_unsuspend_type.
  - by eapply wp_enable.
  - by eapply wp_disable.
  - wp_step. eapply wp_round_step; [exact HK|]. intros w' HK'. wp_step. by apply HQ.
Qed.
Lemma wanted_le s o : (((wanted s o).2) <= S s.2)%nat.
Proof. destruct o; cbn; lia. Qed.
Lemma wp_performs l w s : keeps_step w s → Z.of_nat (s.2 + length l) < 2 ^ 31 →
  wp (performs l) (λ rs w', rs = replicate (length l) NO_ERROR ∧ keeps_step w' (fold_left wanted l s)) w.
Proof.
  revert w s. induction l as [|o l IH]; intros w s HK Hn; cbn [performs length fold_left replicate] in *; [by wp_step|]. pose proof (wanted_le s o).
  wp_step. eapply wp_perform; [exact HK|lia|]. intros w1 HK1. wp_step. eapply wp_mono; [apply IH; [exact HK1|lia]|]. intros rs w2 [-> HK2]. by wp_step.
Qed.
End suspend.
