(* ===== verification/EffectsLaws.v ===== *)
(** * What holds of effects

    The theorems about [Effects] and [EffectThread], each with an example where its
    hypotheses hold, and examples where the code does what it should not. *)

From Stdlib Require Import ZArith Lia.
From stdpp Require Import base tactics numbers option list gmap sorting.
From S2P Require Import Prelude Words AudioPrimitives Effects EffectThread EffectsControl EffectsChain EffectsState.

(** C16: the handle with the highest priority controls an effect, the latest one among
    equals, and no other does: adding and removing handles keeps them so, also when the
    handle that is removed has been marked by its destructor ([b]), as long as none of the
    others has.  A handle that
    takes control finds the effect as its predecessor left it, on or off; adding tells
    whether it took control; an effect that has lost its last handle and is not pinned
    is destroyed.  (When two handles are being destroyed at once the effect may stay on
    with a successor that takes it to be off: [stale_control].) *)
Theorem effect_control w e m xs :
  w_modules w !! e = Some m → NoDup (mHandles m) → handles_at w (mHandles m) xs → in_control xs →
  (∀ h x, w_handles w !! h = Some x → h ∉ mHandles m → mDestroyed x = false → mHasControl x = false →
     ∃ w' l, addHandle e h w = Ret (if beats (mPriority x) xs then NO_ERROR else ALREADY_EXISTS) w' ∧
       w_modules w' !! e = Some (set_mHandles l m) ∧ l ≡ₚ h :: mHandles m ∧ handles_at w' l (added x xs) ∧ in_control (added x xs)) ∧
  (∀ i h x b, mHandles m !! i = Some h → xs !! i = Some x →
     ∃ w', (on_handle h (set_mDestroyed b) ;;; removeHandle e h) w = Ret (pred (length (mHandles m))) w' ∧
       w_modules w' !! e = Some (closed (set_mHandles (delete i (mHandles m)) m)) ∧ handles_at w' (delete i (mHandles m)) (removed i xs) ∧ in_control (removed i xs)).
Proof.
  intros Hm Hnd Hat HC. split.
  - intros h x Hx Hh Hd Hc. destruct (addHandle_eq w e m xs h x Hm Hnd Hat HC Hx Hh) as (w' & l & Hrun & Hw & Hl & Hat'). exists w', l.
    split; [done|]. split; [by rewrite Hw, lookup_insert_eq|]. split; [done|]. split; [done|]. by apply added_in_control.
  - intros i h x b Hi Hx. assert (w_handles w !! h = Some x) as Hh by (destruct (Forall2_lookup_lr _ _ _ _ _ _ Hat Hi Hx); done).
    rewrite (bind_of _ (on_handle_eq w h _ x Hh)). set (w1 := set_w_handles _ w).
    destruct (removeHandle_eq w1 e m xs h i x b Hm Hnd (handles_mark w _ _ i h x _ Hnd Hat Hi Hx) HC Hi Hx) as (w' & Hrun & Hw & Hat'). exists w'.
    split; [done|]. split; [by rewrite Hw, lookup_insert_eq|]. split; [done|]. by eapply removed_in_control.
Qed.

Section laws.
Context {Env : EffectEnv}.

(** C17: the effects of a chain are in the order they ask for, an exclusive one is alone, and
    each reads the input of the chain and writes to it, but for the last one, that
    writes to the output: adding an effect, where it fits, and removing one keep it so. *)
Theorem chain_order w c x ms : chain_with w c x ms → thread_ok (w_thread w) →
  (∀ e m, w_modules w !! e = Some m → e ∉ mEffects x → mEffectInterface m = true → (is_auxiliary (mDescriptor m) = true → mInBuffer x = mOutBuffer x) →
     wp (addEffect_l c e) (λ r w', ∃ ms',
       match place m ms with
       | Some k => r = NO_ERROR ∧ chain_with w' c (set_mEffects (insertAt e k (mEffects x)) x) ms' ∧ mDescriptor <$> ms' = insertAt (mDescriptor m) k (mDescriptor <$> ms)
       | None => r = INVALID_OPERATION ∧ chain_with w' c x ms'
       end) w) ∧
  (∀ i e, mEffects x !! i = Some e →
     wp (removeEffect_l c e) (λ n w', n = pred (length ms) ∧ ∃ ms', chain_with w' c (set_mEffects (delete i (mEffects x)) x) ms' ∧ mDescriptor <$> ms' = delete i (mDescriptor <$> ms)) w).
Proof.
  intros HC Ht. split.
  - intros e m Hm He Hi Hio. eapply wp_mono; [by eapply addEffect_ok|]. intros r w' (_ & ms' & H). exists ms'. destruct (place m ms); [|done]. by destruct H as (? & _ & ? & ?).
  - intros i e He. eapply wp_mono; [by eapply removeEffect_ok|]. intros n w' (-> & _ & H). by split.
Qed.

(** C18: an effect that is turned off becomes idle, within one round of the thread more than it
    was given to fade out, whatever its engine says meanwhile and whether or not the
    thread processes it; until then it waits, and its engine is off from the first round on. *)
Theorem turn_off_ends w e m plays : ready w e m → disables → mState m = ACTIVE → Forall (λ h, is_Some (w_handles w !! h)) (mHandles m) →
  0 < mMaxDisableWaitCnt m < 2 ^ 32 → mMaxDisableWaitCnt m < Z.of_nat (length plays) →
  ∃ k, 1 < Z.of_nat k <= mMaxDisableWaitCnt m + 1 ∧
    ∀ j, (0 < j <= k)%nat → wp (setEnabled e false ;;; rounds e (take j plays))
      (λ _ w', ∃ m', w_modules w' !! e = Some m' ∧ engine_on m' = false ∧ mState m' = if bool_decide (j = k) then IDLE else STOPPED) w.
Proof.
  intros HR HD Hs HH Hn Hl. destruct plays as [|b plays]; cbn [length] in Hl; [lia|].
  destruct (turning_off w e m b HR HD Hs HH) as (w' & m' & HR' & Hs' & Hn' & Hgo).
  destruct (waits_ends plays w' e m' HR' HD Hs' ltac:(lia) ltac:(lia)) as (k & Hk & Hkn & H). exists (S k). split; [lia|]. intros [|j] Hj; [lia|]. cbn [take]. apply Hgo.
  eapply wp_mono; [apply (H j); lia|]. intros _ w2 (m2 & Hm2 & (_ & _ & Hon) & Hst). exists m2. split; [done|]. rewrite (bool_decide_ext (S j = S k) (j = k)) by lia.
  split; [rewrite Hon, Hst; by case_bool_decide|done].
Qed.

(** C9: an effect is on just when the application that controls it wants it on and nobody
    has suspended its type, whatever the order of the requests, the calls of the
    application and the rounds of the thread; the calls all succeed.  The effect is of a
    session of an application, of the output mix or stage, or of a thread that records; it
    is not auxiliary and the first of its type in its chain; its engine accepts being
    turned on and off and the policy allows it; and nobody asks to suspend all effects of
    its own chain.  On a thread that plays, what the application turns on suspends all
    effects of the output mix, which are another chain ([linked]). *)
Theorem suspension c e h session type l w s : e ≠ 0 → type_key type ≠ kKeyForSuspendAll → allows → enables → disables →
  keeps_step c e h session type w s → Z.of_nat (s.2 + length l) < 2 ^ 31 →
  wp (performs e h session type l) (λ rs w', rs = replicate (length l) NO_ERROR ∧
    let '(wants_on, requests) := fold_left wanted l s in
    ∃ m y, w_modules w' !! e = Some m ∧ w_handles w' !! h = Some y ∧ mEnabled y = wants_on ∧ isEnabled m = wants_on && bool_decide (requests = O)) w.
Proof.
  intros He Hkey HA HE HD HK Hn. eapply wp_mono; [by eapply wp_performs|]. intros rs w' [-> HK']. split; [done|]. destruct (fold_left _ _ _) as [a n]. destruct HK' as (x & m & y & HF & Ha & Hd).
  exists m, y. split; [apply HF|]. split; [apply HF|]. split; [done|]. by apply (described_enabled e type x).
Qed.
End laws.

(** * Examples *)

Module EffectsDemo.
(** An engine that does as it is told, and has nothing more to say once it has been off for a
    while. *)
Definition works : EffectEnv := {|
  engine_command _ _ := (0, 0);
  engine_volume _ left right := (left / 2, right / 2);
  engine_process _ ins _ := (ins, 0);
  effect_create _ := 0;
  policy _ _ := 0
|}.
#[local] Existing Instance works.
Definition reverb : uuid := Uuid 1 1.
Definition equalizer : uuid := Uuid 2 2.
Definition desc (type : uuid) (flags : Z) : descriptor := Descriptor type type flags.
Definition wire (i o : Z) : config := Config 3 3 44100 i o 4 (bool_decide (i ≠ o)).
(** A module, with the buffers it is connected to, its state and its handles. *)
Definition module (d : descriptor) (session i o : Z) (s : effect_state) (sent : list engine_cmd) (handles : list Z) : EffectModule :=
  Module true 50 1 session d (wire i o) true NO_ERROR s handles 2 0 false sent false.
Definition handle (e priority : Z) (control enabled : bool) : EffectHandle := Handle e true true priority control enabled false [].
Definition chain (session : Z) (es : list Z) (i o : Z) : EffectChain := Chain session es i o false 0 0 0 0 (-1) UINT_MAX UINT_MAX UINT_MAX UINT_MAX ∅.
Definition a_thread (type : thread_type) (chains : list Z) : thread := Thread true type NO_ERROR 44100 4 2 3 0 60 true 2 0 0 0 chains ∅ [].
Definition a_world (ms : list (Z * EffectModule)) (hs : list (Z * EffectHandle)) (cs : list (Z * EffectChain)) (chains : list Z) : world :=
  World (list_to_map ms) (list_to_map hs) (list_to_map cs) (list_to_map [(60, replicate 8 0); (61, replicate 8 0)]) (a_thread MIXER chains) 100 1 [].

(** Two handles; a third one takes control, the first one is destroyed. *)
Definition w1 : world := a_world [(10, module (desc reverb 0) 5 60 61 ACTIVE [] [20; 21])] [(20, handle 10 3 true true); (21, handle 10 1 false false); (22, handle 10 3 false false)] [] [].
Lemma effect_control_witness :
  in_control [handle 10 3 true true; handle 10 1 false false] ∧
  (∃ w' l, addHandle 10 22 w1 = Ret NO_ERROR w' ∧ l ≡ₚ [22; 20; 21] ∧ handles_at w' l (added (handle 10 3 false false) [handle 10 3 true true; handle 10 1 false false])) ∧
  (∃ w', (on_handle 20 (set_mDestroyed true) ;;; removeHandle 10 20) w1 = Ret 1%nat w' ∧ handles_at w' [21] [controlled true true true (handle 10 1 false false)]).
Proof.
  assert (in_control [handle 10 3 true true; handle 10 1 false false]) as HC by (split; [repeat constructor; cbn; lia|split; [by repeat constructor|split; [done|by repeat constructor]]]).
  assert (NoDup [20; 21]) as Hnd by (repeat constructor; set_solver).
  pose proof (effect_control w1 10 (module (desc reverb 0) 5 60 61 ACTIVE [] [20; 21]) [handle 10 3 true true; handle 10 1 false false] eq_refl Hnd ltac:(by repeat constructor) HC) as [H1 H2].
  split; [done|]. split.
  - destruct (H1 22 (handle 10 3 false false) eq_refl ltac:(cbn; set_solver) eq_refl eq_refl) as (w' & l & Hrun & _ & Hl & Hat & _). exists w', l. by split.
  - destruct (H2 0%nat 20 (handle 10 3 true true) true eq_refl eq_refl) as (w' & Hrun & _ & Hat & _). exists w'. by split.
Defined.

(** A chain of an effect that wants to be first and one that wants to be last. *)
Definition first_one : EffectModule := module (desc reverb EFFECT_FLAG_INSERT_FIRST) 5 60 60 IDLE [] [].
Definition last_one : EffectModule := module (desc equalizer EFFECT_FLAG_INSERT_LAST) 5 60 61 IDLE [] [].
Definition other_one : EffectModule := module (desc SL_IID_VOLUME 0) 5 0 0 IDLE [] [].
Definition w2 : world := a_world [(10, first_one); (11, last_one); (12, other_one)] [] [(50, chain 5 [10; 11] 60 61)] [50].
Lemma chain_order_witness :
  wp (addEffect_l 50 12) (λ r w', ∃ ms', r = NO_ERROR ∧ chain_with w' 50 (chain 5 [10; 12; 11] 60 61) ms') w2 ∧
  wp (removeEffect_l 50 11) (λ n w', n = 1%nat ∧ ∃ ms', chain_with w' 50 (chain 5 [10] 60 61) ms') w2.
Proof.
  assert (chain_with w2 50 (chain 5 [10; 11] 60 61) [first_one; last_one]) as HC.
  { split; [done|]. split; [repeat constructor; set_solver|]. split; [by repeat constructor|]. split; [|split].
    - split; [by repeat constructor|]. split; [apply (bool_decide_unpack _); vm_compute; exact I|]. by intros d [-> |[-> |[]%elem_of_nil]%elem_of_cons]%elem_of_cons.
    - intros [|[|i]] m; [intros [= <-]|intros [= <-]|done]; by vm_compute.
    - intros m [-> |[-> |[]%elem_of_nil]%elem_of_cons]%elem_of_cons; done. }
  assert (thread_ok (w_thread w2)) as Ht by by vm_compute.
  pose proof (chain_order w2 50 (chain 5 [10; 11] 60 61) [first_one; last_one] HC Ht) as [H1 H2]. split.
  - eapply wp_mono; [exact (H1 12 other_one eq_refl ltac:(cbn; set_solver) eq_refl ltac:(done))|]. intros r w' (ms' & -> & HC' & _). by exists ms'.
  - eapply wp_mono; [exact (H2 1%nat 11 eq_refl)|]. intros n w' (-> & ms' & HC' & _). split; [done|]. by exists ms'.
Defined.

(** An effect that is on, and was given two rounds to fade out. *)
Definition active_one : EffectModule := module (desc reverb 0) 0 60 61 ACTIVE [CMD_ENABLE] [20].
Definition w3 : world := a_world [(10, active_one)] [(20, handle 10 3 true true)] [(50, chain 0 [10] 60 61)] [50].
Lemma works_disables : disables.
Proof. done. Qed.
Lemma turn_off_ends_witness : ∃ k, 1 < Z.of_nat k <= 3 ∧
  wp (setEnabled 10 false ;;; rounds 10 (take k [true; false; true])) (λ _ w', ∃ m', w_modules w' !! 10 = Some m' ∧ engine_on m' = false ∧ mState m' = IDLE) w3.
Proof.
  assert (ready w3 10 active_one) as HR by (split; [done|split; [done|split; [done|by split; eexists]]]).
  destruct (turn_off_ends w3 10 active_one [true; false; true] HR works_disables eq_refl ltac:(constructor; [by eexists|constructor]) ltac:(cbn; lia) ltac:(cbn; lia)) as (k & Hk & H).
  exists k. split; [exact Hk|]. specialize (H k ltac:(lia)). by rewrite bool_decide_true in H.
Defined.

(** An effect of an application, on a chain of its own; one on the output mix.  The first is
    turned on, suspended, turned off and on, and restored. *)
Definition idle_one : EffectModule := module (desc reverb 0) 5 60 61 IDLE [] [20].
Definition w4 : world := a_world [(10, idle_one); (11, module (desc equalizer 0) 0 60 61 ACTIVE [CMD_ENABLE] [21])]
  [(20, handle 10 3 true false); (21, handle 11 3 true true)] [(51, chain 0 [11] 60 61); (50, chain 5 [10] 60 61)] [50; 51].
Lemma w4_linked : linked 50 10 20 w4.
Proof.
  split; [|split].
  - constructor; [by eexists|]. constructor; [by eexists|constructor].
  - intros k z Hk. change (w_chains w4) with (<[51 := chain 0 [11] 60 61]> (<[50 := chain 5 [10] 60 61]> (∅ : gmap Z EffectChain))).
    destruct (decide (k = 51)) as [->|]; [rewrite lookup_insert_eq; intros [= <-]|by rewrite !lookup_insert_ne by done].
    split; [|done]. constructor; [|constructor]. split; [done|by eexists].
  - intros i p Hi. change (w_modules w4) with (<[10 := idle_one]> (<[11 := module (desc equalizer 0) 0 60 61 ACTIVE [CMD_ENABLE] [21]]> (∅ : gmap Z EffectModule))).
    rewrite lookup_insert_ne by done. destruct (decide (i = 11)) as [->|]; [rewrite lookup_insert_eq; intros [= <-]|by rewrite lookup_insert_ne by done].
    split; [set_solver|]. constructor; [by eexists|constructor].
Qed.
Definition a_history : list suspend_op := [Enable; Suspend; Round; Disable; Suspend; Enable; Unsuspend; Round; Unsuspend; Round].
Lemma suspension_witness : keeps_step 50 10 20 5 reverb w4 (false, O) ∧
  wp (performs 10 20 5 reverb a_history) (λ rs w', rs = replicate 10 NO_ERROR ∧ ∃ m, w_modules w' !! 10 = Some m ∧ isEnabled m = true) w4.
Proof.
  assert (keeps_step 50 10 20 5 reverb w4 (false, O)) as HK.
  { exists (chain 5 [10] 60 61), idle_one, (handle 10 3 true false). split; [|done]. split; [|split; [|split]].
    - split; [done|]. split; [right; right; right; apply w4_linked|]. by exists [], [51].
    - split; [done|]. split; [done|]. split; [done|]. by exists [], [].
    - repeat (split; [done|]). exists []. split; [done|]. split; [set_solver|constructor].
    - done. }
  split; [exact HK|]. eapply wp_mono; [exact (suspension 50 10 20 5 reverb a_history w4 (false, O) ltac:(done) ltac:(done) ltac:(done) ltac:(done) ltac:(done) HK ltac:(cbn; lia))|].
  intros rs w' [-> (m & y & Hm & _ & _ & Hon)]. split; [done|]. by exists m.
Defined.

(** ** What goes wrong *)

(** What a run leaves, when it returns. *)
Definition after {A} (p : MW A) (w : world) : option world := match p w with Ret _ w' => Some w' | Crash _ => None end.
(** How many requests of a type suspend effects of a chain. *)
Definition requests_of (c key : Z) (w : world) : option Z := x ← w_chains w !! c; sd_mRefCount <$> mSuspendedEffects x !! key.

(** When the effect is suspended for a while, and the application turns it on and off
    meanwhile, the effects of the output mix stay suspended. *)
Example suspended_for_nothing :
  (w' ← after (thread_setEffectSuspended_l (Some reverb) true 5 ;;; handle_enable 20 ;;; handle_disable 20 ;;; thread_setEffectSuspended_l (Some reverb) false 5) w4;
   m ← w_modules w' !! 10; n ← w_modules w' !! 11; Some (isEnabled m, isEnabled n, requests_of 51 kKeyForSuspendAll w')) = Some (false, false, Some 1).
Proof. by vm_compute. Qed.
(** As it should be, when the effect is not suspended. *)
Example suspended_and_restored :
  (w' ← after (handle_enable 20 ;;; handle_disable 20) w4; m ← w_modules w' !! 10; n ← w_modules w' !! 11; Some (isEnabled m, isEnabled n, requests_of 51 kKeyForSuspendAll w')) = Some (false, true, None).
Proof. by vm_compute. Qed.

(** The end of a request to suspend all effects ends one to suspend a type that came before, of
    an effect that was not there. *)
Definition w5 : world := a_world [] [] [(50, chain 0 [] 60 61)] [50].
Example restored_with_the_others :
  (w' ← after (setEffectSuspended_l 50 reverb true ;;; setEffectSuspendedAll_l 50 true ;;; setEffectSuspendedAll_l 50 false) w5; Some (requests_of 50 (type_key reverb) w')) = Some None.
Proof. by vm_compute. Qed.

(** Two handles go at once: the one in control has the effect on, the other never had
    control; the third finds that the effect is off, and cannot turn it off. *)
Definition w6 : world := a_world [(10, module (desc reverb 0) 0 60 61 ACTIVE [CMD_ENABLE] [20; 21; 22])]
  [(20, set_mDestroyed true (handle 10 3 true true)); (21, set_mDestroyed true (handle 10 2 false false)); (22, handle 10 1 false false)] [(50, chain 0 [10] 60 61)] [50].
Example stale_control :
  (w' ← after (removeHandle 10 20 ;;; removeHandle 10 21 ;;; handle_disable 22) w6; m ← w_modules w' !! 10; y ← w_handles w' !! 22; Some (isEnabled m, mEnabled y)) = Some (true, false).
Proof. by vm_compute. Qed.

(** An effect that loses its last handle while it is on is not turned off when it is removed. *)
Definition w7 : world := a_world [(10, set_mPinned false (module (desc reverb 0) 0 60 61 ACTIVE [CMD_ENABLE] [20]))] [(20, handle 10 3 true true)] [(50, chain 0 [10] 60 61)] [50].
Example removed_while_on :
  (w' ← after (removeHandle 10 20 ;;; removeEffect_l 50 10) w7; m ← w_modules w' !! 10; Some (mState m, em_sent m)) = Some (DESTROYED, [CMD_ENABLE]).
Proof. by vm_compute. Qed.
End EffectsDemo.
